(* ===== verification/_CoqProject ===== *)
-Q . S2P
Prelude.v
PageAlloc.v
Heap.v
Pool.v
Codec.v
Civil.v
Uuid.v
HashTable.v
Cell.v
CellScope.v
SchedDomain.v
Sched.v
CellStore.v
EffectFence.v
Meta.v
Review.v
StateObject.v
Epistemic.v
Stage.v
ObjectProofs.v
EpistemicProofs.v
StageProofs.v
Objects.v
MemPlane.v
MemPlaneProofs.v
Memory.v
ReviewCut.v
ReviewGraph.v
Reviews.v
Effect.v
CellDerive.v
Lease.v
Identity.v
Continuation.v
ContinuationProofs.v
Continuations.v
Namespace.v
NamespaceProofs.v
Namespaces.v
Resolve.v
Blk.v
MdSuper.v
DiskStore.v
DiskProofs.v
DiskRefine.v
DiskMap.v
BootLog.v
BootLogs.v
Md.v
MdProofs.v
MdMirror.v
MdCreate.v
Gpt.v
Part.v
PartProofs.v
Partitions.v
Workflow.v
WfTemplates.v
WfExec.v
WfGraph.v
WfValid.v
WfRuns.v
Workflows.v
