(* ===== verification/Prelude.v ===== *)
(** * Verification of the Anunix kernel core

    Anunix (the repository's [kernel/]) is an operating-system kernel whose unit
    of execution is the _cell_.  Cells live in a reference-counted store, are
    derived from one another, wait on each other, are queued by a scheduler,
    run under scheduling domains, engine leases and effect fences, and act on
    the outside world through protected effects.  What they work on are _state
    objects_: payloads with labels, access rules, provenance and a life cycle,
    changed directly, in stages and batches, or after a review.  Underneath are
    a page allocator, a kernel heap, a hash table, a block-device registry with
    a software RAID layer, and an object store on disk.  This library translates
    those parts of the C sources into executable Gallina definitions and proves
    what makes them correct.

    ** Files, and the sources they model (paths under [src/kernel/])

    - [Prelude.v] (this file): return codes of [include/anx/types.h], the
      [outcome] type ([Ret], [Panic] for a failed [ANX_ASSERT] or an access
      outside memory, [OutOfFuel]), early-return notation, record update,
      32/64-bit wrap-around, arrays as lists, the hint database [anx] and the
      tactics all files share.
    - Memory: [PageAlloc.v] ([lib/page.c], the bitmap page allocator), [Heap.v]
      and [Pool.v] ([lib/alloc.c]: slabs, pools, arenas).
    - Codecs: [Codec.v] ([lib/base64.c], [lib/utf8.c], [lib/crc32.c]), [Civil.v]
      ([lib/civil.c]).
    - Containers: [Uuid.v] ([lib/uuid.c], [include/anx/uuid.h]), [HashTable.v]
      ([lib/hashtable.c], [include/anx/list.h]).
    - Cells: [Cell.v] ([core/exec/cell.c], [include/anx/cell.h]: the status
      machine, the dependency graph, the declarations on a cell), [CellScope.v]
      and [CellDerive.v] ([anx_cell_check_scope], [anx_cell_derive_child] of
      [core/exec/runtime.c]), [CellStore.v] ([core/exec/cell_store.c]).
    - Scheduling: [SchedDomain.v] ([core/sched/domain.c]), [Sched.v]
      ([core/sched/scheduler.c]), [Lease.v] ([core/route/lease.c]).
    - Continuation groups: [Continuation.v] ([core/sched/continuation_group.c]:
      sibling cells that take turns on shared pages under one lease),
      [ContinuationProofs.v] (the invariant and what each operation does to it),
      [Continuations.v] (runs, the scheduler on top, theorems).
    - Names: [Namespace.v] ([core/state/namespace.c]: trees of directories from
      paths to object ids), [NamespaceProofs.v] (what each walk does to the map a
      tree stands for), [Namespaces.v] (the registry, runs), [Resolve.v]
      ([core/state/resolve.c], [anx_uuid_to_string]).
    - Identities: [Identity.v] ([core/identity.c]: signed chains of commitments,
      kept as sealed objects, and admission against them).
    - Effects: [EffectFence.v] ([core/cap/effect_fence.c]), [Effect.v]
      ([core/cap/effect.c], [core/cap/sink.c]).
    - State objects: [Meta.v] ([core/state/meta.c]); [StateObject.v]
      ([objstore.c], [lifecycle.c], [access.c], [provenance.c], [flow.c] of
      [core/state/]); [Stage.v] ([core/state/stage.c]); [Review.v] and
      [Epistemic.v] (data and operations of [core/state/epistemic.c]).
      [ObjectProofs.v], [EpistemicProofs.v] and [StageProofs.v] say what each
      operation does to an object; [Objects.v] holds the theorems about runs;
      [ReviewCut.v], [ReviewGraph.v] and [Reviews.v] those about reviews.
    - Memory plane: [MemPlane.v] ([memplane.c], [decay.c], [retention.c] of
      [core/mem/]: which tiers hold an object, who is charged for it, when it
      is validated, demoted, evicted or forgotten), [MemPlaneProofs.v] (what an
      operation does to the table), [Memory.v] (runs and their theorems).
    - Workflows: [Workflow.v] ([workflow_object.c], [workflow_validate.c],
      [topology.c] and the registry of [workflow_library.c] in [core/workflow/]:
      graphs of nodes, their editing, validation, and revision under control),
      [WfTemplates.v] (the built-in templates), [WfExec.v] ([workflow_exec.c]:
      the run of a graph, suspension, resumption, sealed traces), [WfGraph.v]
      and [WfValid.v] (Kahn's algorithm, the validators), [WfRuns.v] (runs),
      [Workflows.v] (histories of the registry, topology control).
    - Storage: [Blk.v] ([drivers/storage/blk.c], [include/anx/blk.h]);
      [DiskStore.v] ([core/state/disk_store.c]) with [DiskProofs.v],
      [DiskRefine.v], [DiskMap.v]; [BootLog.v] and [BootLogs.v]
      ([core/log/bootlog.c], [bootlog_ring.c]: the boot log in memory and at the
      end of the device); [MdSuper.v] and [Md.v] ([core/md/]) with
      [MdProofs.v], [MdMirror.v], [MdCreate.v]; [Gpt.v] ([core/install/gpt.c],
      partition tables written and read back); [Part.v]
      ([drivers/storage/part.c], partitions as block devices) with
      [PartProofs.v] and [Partitions.v].

    ** How state and calls are represented

    A static C table is a record or list passed in and returned; a call is a
    function from the old state to a result code and the new state.  Static
    helpers keep their names, loops become fixpoints.  A pointer is the key of
    what it points to: a cell pointer its key in the store (a [gmap] from
    UUIDs), an object or lease pointer its address, a device, array, sink,
    fence or review pointer its slot; [None] is [NULL].  The heap is a map of
    64-bit words.  What comes from outside the call is an argument: the clock
    ([now]), the running cell ([current], [anx_cell_current_id]), whether an
    allocation succeeds ([alloc], or a list of answers such as [mem_ok] and
    [so_mem] that calls consume), a generated id ([fresh]).  Integers are [Z]
    with [u32]/[u64] where the code can wrap.  Spinlocks are not modelled: every
    API call is one atomic step, and interleavings are sequences of calls by
    arbitrary callers ([fence_step], [lease_step], [dom_op], [reg_op], [kstep],
    [istep], [cstep], [wf_op]).
    Services that are consulted but not modelled appear as section variables
    and are quantified over: branch groups, SHA-256, Ed25519, the UOR projection,
    and the work of a workflow node that calls a cell, a model or an agent
    ([work_fn]).
    The identity check and the continuation-group check are arguments of the
    components below them and are modelled in [Identity.v] and
    [Continuation.v]; [Continuations.v] puts the scheduler and the groups
    together.  Storage drivers are the class
    [BlkDriver] with [BlkDriverLaws] ([mem_disk] is an instance); what the disk
    store needs of a device is [BlkReliable] ([fuse_disk], a disk that stops
    after a number of writes, models crashes).

    ** What the theorems show

    - _Authority only shrinks_: [check_scope_attenuates],
      [derive_child_in_scope], [domain_authority_attenuates]; an identity's
      authority changes only by its operator's signature: [identity_lineage].
    - _Effects_: [fence_closed_forever], [dispatch_authorized].
    - _Continuation groups_: [single_holder], [dispatched_member_holds] (with the
      scheduler), [groups_disjoint], [group_calls_return].
    - _Cells_: [add_dependency_acyclic].
    - _Scheduling and resources_: [lease_conservation],
      [page_alloc_correct], [page_free_alloc], [page_double_free], [heap_safe].
    - _State objects_: [sealed_object_immutable], [object_history],
      [staged_mutation_exact], [batch_atomic], [object_memory_safe], and,
      through the fences to the sinks, [object_read_bounds_sink].
    - _Reviews_: [reviewed_commit_sound], [structural_cut_exact],
      [vote_evidence_exact].
    - _Containers and codecs_: [htable_refines_map], [uuid_generate_not_nil],
      [utf8_decode_exact].
    - _Names_: [namespaces_refine_maps], [oid_text_resolves].
    - _Boot logs_: [ring_keeps_last_boots], [ring_confined].
    - _Workflows_: [template_validate_exact] and
      [builtin_templates_registered] (the validator), [run_in_order] and
      [resume_in_order] (every run returns and follows the graph),
      [topology_controlled], [revise_needs_ordered_run] and
      [rollback_restores] (a graph under control changes only on the evidence
      of a complete ordered run, and one revision can be undone).
    - _Memory plane_: [memory_charges_exact], [running_cell_cannot_govern],
      [protected_placement_kept].
    - _Storage_: [disk_store_refines_map], [crash_before_flush_safe];
      [raid0_linear_device], [raid1_mirrors_device], [raid1_resync_completes];
      [gpt_readback], [partition_confined].
    - _Where the code falls short_, on concrete inputs:
      [crash_after_flush_overwrites], [torn_index_loses_object],
      [rekey_without_memory_loses_object], [sector_count_wraps],
      [unvalidated_admitted_to_L4], [big_disk_backup_unreadable],
      [scan_all_skips_drive], [part_names_collide],
      [create_leaves_mirror_unsynced], [second_spare_never_rebuilt],
      [wrapped_read_fails_array], [long_name_registered_twice],
      [cycle_check_truncated], [meta_long_key_lost],
      [gap_write_exposes_memory], [null_replacement_breaks_reads],
      [wrapped_write_escapes], [deleted_object_written],
      [alloc_request_wraps], [arena_request_wraps],
      [long_name_hides_namespace], [ring_overwrites_object],
      [torn_flush_mixes_logs], [long_retention_prunes_all],
      [remove_node_zero], [remove_edge_zero], [dangling_edge_blocks],
      [ensemble_output_unconnected], [fan_in_port_zero],
      [long_name_duplicate], [review_never_continues].
    - Further theorems of the components carry no number: among them
      [deps_satisfied_exact], [cell_create_exact], [cell_destroy_exact],
      [sched_dequeue_highest], [sched_enqueue_fifo], [scratch_flat_memory],
      [group_epochs], [group_resources_returned], [so_resolve_exact],
      [log_ring_newest], [prune_sessions_exact], [lease_grant_exact], [lease_revoke_subtree],
      [pool_correct], [arena_correct], [registry_names_unique], [create_ready],
      [super_write_read_back], [meta_refines_map], [crc32_detects_burst],
      [crc32_table_equiv], [base64_roundtrip], [civil_calendar],
      [cell_lifecycle], [domain_revoke_permanent], [fence_child_budget],
      [access_first_rule], [range_scan_exact], [validation_generation_fresh],
      [identity_admit_exact], [identity_update_recorded], [wire_injective],
      [domain_check_sound], [effect_at_most_once], [derived_label_dominates],
      [review_history], [evict_exact], [hard_forget_refunds],
      [scan_registers_usable], [unregister_takes_partitions].

    A theorem with hypotheses is followed by a lemma [..._witness] that applies
    it to a concrete state.

    ** Fuel

    Loops whose length depends on data carry fuel, and each theorem about them
    states how much is enough and that the call then returns: one unit per
    sector for RAID transfers and rebuild, the recursion depth of the cell for
    walks up the parents, the size of the walk for the dependency check, the
    number of entries for the binary search of the disk index, one unit per byte
    for a copy to or from a scratch area, the length of the path (computed by the
    call itself) for walks through a namespace, 64 turns (one per node) for the
    run of a workflow.
    [anx_page_alloc] computes its own fuel from the span; the recursion of
    [capture] is bounded by the depth limit of the code, the bit count by the
    width of the word.

    ** Not modelled

    Device drivers, networking, the window manager, the shell, applications and
    the research tools under [core/tools] are input and output around the core.
    Cryptography and the UOR projection are arguments, as are branch groups.
    Routing, engines and the planner talk to model servers and devices; of them
    the leases are modelled.  Of [core/exec/runtime.c] the scope check and the
    derivation of children are modelled, not admission, the run loop and
    cancellation, which drive engines.  Of workflows, text rendering,
    serialization, checkpoints, the optional semantic and reuse guards and the
    work of the nodes are not modelled. *)

From stdpp Require Export base list list_numbers numbers gmap option fin_maps.
From Stdlib Require Export ZArith Lia.

(** ** Scope, notations *)

Declare Scope anx_scope.
Delimit Scope anx_scope with anx.
#[global] Open Scope Z_scope.
#[global] Open Scope anx_scope.

(** An early return of the C code: [when c ret r ;; k] is
    [if (c) return r; k]. *)
Notation "'when' c 'ret' r ;; k" := (if c then r else k)
  (at level 10, c at level 99, r at level 99, k at level 200,
   only parsing) : anx_scope.

(** ** Return codes, [kernel/include/anx/types.h] *)

Definition ANX_OK : Z := 0.
Definition ANX_ENOMEM : Z := -1.
Definition ANX_EINVAL : Z := -2.
Definition ANX_ENOENT : Z := -3.
Definition ANX_EEXIST : Z := -4.
Definition ANX_EPERM : Z := -5.
Definition ANX_EIO : Z := -6.
Definition ANX_EBUSY : Z := -7.
Definition ANX_ENOSYS : Z := -8.
Definition ANX_ETIMEDOUT : Z := -9.
Definition ANX_EFULL : Z := -13.
Definition ANX_ENODEV : Z := -14.
Definition ANX_ENOTSUP : Z := -15.
Definition ANX_ERANGE : Z := -18.

(** The outcome of code that can hit [ANX_ASSERT] or whose loops are
    modelled with fuel. *)
Inductive outcome (A : Type) : Type :=
  | Ret (a : A)
  | Panic
  | OutOfFuel.
Arguments Ret {A} a.
Arguments Panic {A}.
Arguments OutOfFuel {A}.

Definition obind {A B} (m : outcome A) (k : A → outcome B) : outcome B :=
  match m with
  | Ret a => k a
  | Panic => Panic
  | OutOfFuel => OutOfFuel
  end.

Notation "'let!' x ':=' m 'in' k" := (obind m (λ x, k))
  (at level 10, x pattern, m at level 99, k at level 200) : anx_scope.

(** [ANX_ASSERT(c); k]. *)
Notation "'assert!' c ;; k" := (if c then k else Panic)
  (at level 10, c at level 99, k at level 200, only parsing) : anx_scope.

(** ** Record update

    [r <| f := v |>] is [r.f = v], [r <| f ::= g |>] is [r.f = g(r.f)].  A
    record declares its constructor and fields once with a [Settable]
    instance. *)

Class Settable (R : Type) := eta_expand : R → R.
Class Setter {R E : Type} (proj : R → E) := update_field : (E → E) → R → R.
Arguments update_field {R E} proj {_} _ _ /.

Ltac derive_setter R E proj :=
  exact (λ (g : E → E) (r : R),
    ltac:(let b := eval hnf in (eta_expand (R := R) r) in
          match b with
          | context C [proj r] => let b' := context C [g (proj r)] in exact b'
          end)).

#[export] Hint Extern 1 (@Setter ?R ?E ?proj) => derive_setter R E proj : typeclass_instances.

Notation "r '<|' proj '::=' g '|>'" := (update_field proj g r)
  (at level 12, left associativity, proj at level 9, g at level 99,
   format "r  '<|' proj  '::='  g '|>'") : anx_scope.
Notation "r '<|' proj ':=' v '|>'" := (update_field proj (λ _, v) r)
  (at level 12, left associativity, proj at level 9, v at level 99,
   format "r  '<|' proj  ':='  v '|>'") : anx_scope.

(** ** Machine integers: [uint32_t], [uint64_t] as [Z] with explicit wrap *)

Definition MAX32 : Z := 2 ^ 32 - 1.
Definition MAX64 : Z := 2 ^ 64 - 1.

Definition u32 (z : Z) : Z := z mod 2 ^ 32.
Definition u64 (z : Z) : Z := z mod 2 ^ 64.

(** [~x] on a 64-bit value. *)
Definition not64 (z : Z) : Z := Z.lxor MAX64 z.

Definition is_u32 (z : Z) : Prop := 0 ≤ z < 2 ^ 32.
Definition is_u64 (z : Z) : Prop := 0 ≤ z < 2 ^ 64.

Lemma u32_small z : is_u32 z → u32 z = z.
Proof. unfold u32, is_u32. intros. by apply Z.mod_small. Qed.

Lemma u64_small z : is_u64 z → u64 z = z.
Proof. unfold u64, is_u64. intros. by apply Z.mod_small. Qed.

Lemma u32_range z : is_u32 (u32 z).
Proof. unfold u32, is_u32. apply Z.mod_pos_bound. lia. Qed.

Lemma u64_range z : is_u64 (u64 z).
Proof. unfold u64, is_u64. apply Z.mod_pos_bound. lia. Qed.

(** ** Arrays indexed by machine integers

    [rd d a i] is [a[i]] with [d] out of range; [wr a i v] is [a[i] = v].
    The component invariants keep every index in range. *)

Section arrays.
Context {A : Type} (d : A).
Implicit Types (a : list A) (i j : Z) (v : A).

Definition rd a i : A := nth (Z.to_nat i) a d.
Definition wr a i v : list A := <[Z.to_nat i := v]> a.

Lemma rd_wr_eq a i v : 0 ≤ i < Z.of_nat (length a) → rd (wr a i v) i = v.
Proof.
  intros Hi. unfold rd, wr. rewrite nth_lookup.
  rewrite list_lookup_insert_eq by lia. done.
Qed.

Lemma rd_wr_ne a i j v : 0 ≤ i → 0 ≤ j → i ≠ j → rd (wr a i v) j = rd a j.
Proof.
  intros Hi Hj Hij. unfold rd, wr. rewrite !nth_lookup.
  rewrite list_lookup_insert_ne by lia. done.
Qed.

Lemma wr_length a i v : length (wr a i v) = length a.
Proof. apply length_insert. Qed.

Lemma rd_ext a1 a2 :
  length a1 = length a2 →
  (∀ i, 0 ≤ i < Z.of_nat (length a1) → rd a1 i = rd a2 i) → a1 = a2.
Proof.
  intros Hl H. apply nth_ext with d d; [done|].
  intros n Hn. specialize (H (Z.of_nat n)). unfold rd in H.
  rewrite Nat2Z.id in H. apply H. lia.
Qed.
End arrays.

(** ** Bit lemmas shared by the components *)

Lemma testbit_setmask w k j :
  0 ≤ k → 0 ≤ j →
  Z.testbit (Z.lor w (Z.shiftl 1 k)) j = (Z.testbit w j || (j =? k))%bool.
Proof.
  intros Hk Hj. rewrite Z.lor_spec. f_equal.
  rewrite Z.shiftl_1_l, Z.pow2_bits_eqb by lia. apply Z.eqb_sym.
Qed.

Lemma testbit_MAX64 j : 0 ≤ j → Z.testbit MAX64 j = (j <? 64).
Proof.
  intros Hj. change MAX64 with (Z.ones 64).
  destruct (Z.ltb_spec j 64).
  - by apply Z.ones_spec_low.
  - apply Z.ones_spec_high. lia.
Qed.

Lemma testbit_clearmask w k j :
  0 ≤ k → 0 ≤ j < 64 →
  Z.testbit (Z.land w (not64 (Z.shiftl 1 k))) j
  = (Z.testbit w j && negb (j =? k))%bool.
Proof.
  intros Hk Hj. unfold not64. rewrite Z.land_spec, Z.lxor_spec.
  rewrite testbit_MAX64 by lia. rewrite Z.shiftl_1_l, Z.pow2_bits_eqb by lia.
  destruct (Z.ltb_spec j 64); [|lia]. simpl. by rewrite (Z.eqb_sym k).
Qed.

Lemma is_u64_testbit w : is_u64 w → ∀ j, 64 ≤ j → Z.testbit w j = false.
Proof.
  intros Hw j Hj. unfold is_u64 in Hw.
  rewrite <- (Z.mod_small w (2 ^ 64)) by lia. by apply Z.mod_pow2_bits_high.
Qed.

Lemma is_u64_of_bits w :
  0 ≤ w → (∀ j, 64 ≤ j → Z.testbit w j = false) → is_u64 w.
Proof.
  intros Hw H. split; [done|].
  replace w with (w mod 2 ^ 64); [apply Z.mod_pos_bound; lia|].
  apply Z.bits_inj'. intros j Hj. destruct (Z.ltb_spec j 64).
  - by apply Z.mod_pow2_bits_low.
  - rewrite Z.mod_pow2_bits_high by lia. symmetry. by apply H.
Qed.

Lemma u64_bits_ext a b :
  is_u64 a → is_u64 b →
  (∀ j, 0 ≤ j < 64 → Z.testbit a j = Z.testbit b j) → a = b.
Proof.
  intros Ha Hb H. apply Z.bits_inj'. intros j Hj.
  destruct (Z.ltb_spec j 64); [by apply H|].
  by rewrite !is_u64_testbit.
Qed.

Lemma is_u64_lor a b : is_u64 a → is_u64 b → is_u64 (Z.lor a b).
Proof.
  intros Ha Hb. apply is_u64_of_bits.
  - apply Z.lor_nonneg. unfold is_u64 in *; lia.
  - intros j Hj. by rewrite Z.lor_spec, !is_u64_testbit.
Qed.

Lemma is_u64_land a b : is_u64 a → 0 ≤ b → is_u64 (Z.land a b).
Proof.
  intros Ha Hb. apply is_u64_of_bits.
  - apply Z.land_nonneg. unfold is_u64 in *; lia.
  - intros j Hj. by rewrite Z.land_spec, is_u64_testbit.
Qed.

Lemma is_u64_lxor a b : is_u64 a → is_u64 b → is_u64 (Z.lxor a b).
Proof.
  intros Ha Hb. apply is_u64_of_bits.
  - apply Z.lxor_nonneg. unfold is_u64 in *; lia.
  - intros j Hj. by rewrite Z.lxor_spec, !is_u64_testbit.
Qed.

Lemma is_u64_bit k : 0 ≤ k < 64 → is_u64 (Z.shiftl 1 k).
Proof.
  intros Hk. rewrite Z.shiftl_1_l. split; [lia|].
  apply Z.pow_lt_mono_r; lia.
Qed.

(** ** Automation *)

Create HintDb anx.
#[export] Hint Resolve u32_range u64_range is_u64_lor is_u64_land
  is_u64_lxor is_u64_bit : anx.
#[export] Hint Extern 2 (_ ≤ _) => lia : anx.
#[export] Hint Extern 2 (_ < _) => lia : anx.

(** Split every conditional of the goal or a hypothesis, turning boolean
    comparisons on [Z] into propositions. *)
Ltac bsplit_eqn H :=
  repeat match type of H with
  | (_ && _)%bool = true => apply andb_true_iff in H; destruct H
  | (_ || _)%bool = false => apply orb_false_iff in H; destruct H
  end.

Ltac to_prop :=
  repeat match goal with
  | H : (_ && _)%bool = true |- _ => apply andb_true_iff in H; destruct H
  | H : (_ || _)%bool = false |- _ => apply orb_false_iff in H; destruct H
  | H : (_ || _)%bool = true |- _ => apply orb_true_iff in H
  | H : (_ && _)%bool = false |- _ => apply andb_false_iff in H
  | H : negb _ = true |- _ => apply negb_true_iff in H
  | H : negb _ = false |- _ => apply negb_false_iff in H
  | H : (_ =? _)%Z = true |- _ => apply Z.eqb_eq in H
  | H : (_ =? _)%Z = false |- _ => apply Z.eqb_neq in H
  | H : (_ <? _)%Z = true |- _ => apply Z.ltb_lt in H
  | H : (_ <? _)%Z = false |- _ => apply Z.ltb_ge in H
  | H : (_ <=? _)%Z = true |- _ => apply Z.leb_le in H
  | H : (_ <=? _)%Z = false |- _ => apply Z.leb_gt in H
  | H : (_ >? _)%Z = true |- _ => rewrite Z.gtb_ltb in H; apply Z.ltb_lt in H
  | H : (_ >? _)%Z = false |- _ => rewrite Z.gtb_ltb in H; apply Z.ltb_ge in H
  | H : (_ >=? _)%Z = true |- _ => rewrite Z.geb_leb in H; apply Z.leb_le in H
  | H : (_ >=? _)%Z = false |- _ => rewrite Z.geb_leb in H; apply Z.leb_gt in H
  | H : bool_decide _ = true |- _ => apply bool_decide_eq_true in H
  | H : bool_decide _ = false |- _ => apply bool_decide_eq_false in H
  end.

(** Case split on the scrutinee of the first [match]/[if] of the goal. *)
Ltac split_goal :=
  match goal with
  | |- context [match ?x with _ => _ end] =>
      lazymatch x with
      | context [match _ with _ => _ end] => fail
      | _ => let E := fresh "E" in destruct x eqn:E
      end
  end.

Ltac split_hyp H :=
  match type of H with
  | context [match ?x with _ => _ end] =>
      lazymatch x with
      | context [match _ with _ => _ end] => fail
      | _ => let E := fresh "E" in destruct x eqn:E
      end
  end.

(** Case split on the outermost guard of [H : (if g then r else k) = _]. *)
Ltac on_guard H G :=
  match type of H with (if ?g then _ else _) = _ => destruct g eqn:G end.

(** ** Lemmas on lists and integer ranges *)

Lemma seqZ_snoc lo n : 0 ≤ n → seqZ lo (n + 1) = seqZ lo n ++ [lo + n].
Proof. intros Hn. rewrite seqZ_app by lia. done. Qed.

Lemma elem_of_seqZ' lo n x : x ∈ seqZ lo n ↔ lo ≤ x < lo + n.
Proof. apply elem_of_seqZ. Qed.

(** ** Adding one edge to a relation *)

Lemma tc_add_edge {A} (R R' : relation A) (p q : A) :
  (∀ a b, R' a b → R a b ∨ (a = p ∧ b = q)) →
  ∀ x y, tc R' x y → tc R x y ∨ (rtc R x p ∧ rtc R q y).
Proof.
  intros HR x y H. induction H as [x y H|x y z H _ IH].
  - destruct (HR _ _ H) as [?|[-> ->]]; [by left; apply tc_once|by right].
  - destruct (HR _ _ H) as [Hxy|[-> ->]], IH as [IH|[IH1 IH2]].
    + left. by eapply tc_l.
    + right. split; [by eapply rtc_l|done].
    + right. split; [done|by apply tc_rtc].
    + by right.
Qed.

(** ** Sums over lists *)

Section sums.
Context {A : Type}.
Implicit Types (f : A → Z) (l : list A).

Definition sumZ f l : Z := foldr (λ x acc, f x + acc) 0 l.

Lemma sumZ_app f l1 l2 : sumZ f (l1 ++ l2) = sumZ f l1 + sumZ f l2.
Proof. induction l1; simpl; [done|]. unfold sumZ in *. lia. Qed.

Lemma sumZ_cons f x l : sumZ f (x :: l) = f x + sumZ f l.
Proof. done. Qed.

Lemma sumZ_nonneg f l : (∀ x, x ∈ l → 0 ≤ f x) → 0 ≤ sumZ f l.
Proof.
  induction l as [|x l IH]; intros H; [done|]. rewrite sumZ_cons.
  pose proof (H x (list_elem_of_here _ _)).
  assert (0 ≤ sumZ f l) by (apply IH; intros y Hy; apply H; by right). lia.
Qed.

Lemma sumZ_le f g l : (∀ x, x ∈ l → f x ≤ g x) → sumZ f l ≤ sumZ g l.
Proof.
  induction l as [|x l IH]; intros H; [done|]. rewrite !sumZ_cons.
  pose proof (H x (list_elem_of_here _ _)).
  assert (sumZ f l ≤ sumZ g l) by (apply IH; intros y Hy; apply H; by right). lia.
Qed.

Lemma sumZ_ext f g l : (∀ x, x ∈ l → f x = g x) → sumZ f l = sumZ g l.
Proof.
  intros H. apply Z.le_antisymm; apply sumZ_le; intros x Hx; rewrite (H x Hx); lia.
Qed.

Lemma sumZ_elem f l x :
  (∀ y, y ∈ l → 0 ≤ f y) → x ∈ l → f x ≤ sumZ f l.
Proof.
  intros Hf Hx. induction l as [|y l IH]; [by apply not_elem_of_nil in Hx|].
  rewrite sumZ_cons. pose proof (Hf y (list_elem_of_here _ _)).
  assert (0 ≤ sumZ f l) by (apply sumZ_nonneg; intros z Hz; apply Hf; by right).
  apply elem_of_cons in Hx as [->|Hx]; [lia|].
  assert (f x ≤ sumZ f l) by (apply IH; [|done]; intros z Hz; apply Hf; by right). lia.
Qed.
End sums.

Lemma sumZ_fmap {A B} (h : B → A) (f : A → Z) (l : list B) :
  sumZ f (h <$> l) = sumZ (λ x, f (h x)) l.
Proof. induction l as [|x l IH]; [done|]. rewrite fmap_cons, !sumZ_cons. lia. Qed.

(** A statement about all values below a bound, by computation. *)
Lemma forall_below (P : Z → bool) n v :
  forallb P (seqZ 0 n) = true → 0 ≤ v < n → P v = true.
Proof.
  intros H Hv. rewrite forallb_forall in H. apply H, list_elem_of_In, elem_of_seqZ. lia.
Qed.

(** [x & ~(2^k - 1)] rounds a 64-bit value down to a multiple of [2^k]. *)
Lemma land_not64 x k : is_u64 x → 0 ≤ k → Z.land x (not64 (Z.ones k)) = x - x mod 2 ^ k.
Proof.
  intros Hx Hk.
  assert (Hs : Z.land x (not64 (Z.ones k)) = Z.ldiff x (Z.ones k)).
  { apply Z.bits_inj'. intros j Hj. unfold not64.
    rewrite Z.land_spec, Z.lxor_spec, Z.ldiff_spec, testbit_MAX64 by lia.
    destruct (Z.ltb_spec j 64); [done|]. by rewrite is_u64_testbit. }
  assert (0 < 2 ^ k) by (apply Z.pow_pos_nonneg; lia).
  rewrite Hs, Z.ldiff_ones_r, Z.shiftl_mul_pow2, Z.shiftr_div_pow2 by lia.
  pose proof (Z.div_mod x (2 ^ k)). lia.
Qed.
