(* ===== verification/PageAlloc.v ===== *)
(** * Physical page allocator: [kernel/lib/page.c]

    The bitmap is the C array of 64-bit words; every scan, skip and range
    loop of the source is a definition here.  [ANX_ASSERT] is the [Panic]
    outcome; the two search loops carry fuel, and [alloc_fuel_enough] shows
    that the fuel given by [anx_page_alloc] always suffices. *)

From S2P Require Import Prelude.


Module Page.

Definition ANX_PAGE_SIZE : Z := 4096.
Definition ANX_PAGE_SHIFT : Z := 12.
Definition MAX_PAGES : Z := 2 ^ 20.
Definition BITMAP_WORDS : Z := MAX_PAGES / 64.

(** The file-scope variables of page.c. *)
Record pstate := PState {
  bitmap : list Z;
  heap_base : Z;
  total_pages : Z;
  usable_pages : Z;
  free_count : Z;
}.

Definition with_bitmap (st : pstate) (bm : list Z) : pstate :=
  PState bm st.(heap_base) st.(total_pages) st.(usable_pages) st.(free_count).

Definition with_counts (st : pstate) (usable free : Z) : pstate :=
  PState st.(bitmap) st.(heap_base) st.(total_pages) usable free.

(** ** Bit access *)

Definition bit_set (bm : list Z) (page : Z) : list Z :=
  wr bm (page / 64) (Z.lor (rd 0 bm (page / 64)) (Z.shiftl 1 (page mod 64))).

Definition bit_clear (bm : list Z) (page : Z) : list Z :=
  wr bm (page / 64)
     (Z.land (rd 0 bm (page / 64)) (not64 (Z.shiftl 1 (page mod 64)))).

Definition bit_test (bm : list Z) (page : Z) : bool :=
  negb (Z.land (Z.shiftr (rd 0 bm (page / 64)) (page mod 64)) 1 =? 0).

(** ** Spans *)

Definition align_up (x : Z) : Z :=
  Z.land (u64 (x + ANX_PAGE_SIZE - 1)) (not64 (ANX_PAGE_SIZE - 1)).
Definition align_down (x : Z) : Z :=
  Z.land x (not64 (ANX_PAGE_SIZE - 1)).

(** [anx_memset(bitmap, 0, sizeof(bitmap))]. *)
Definition zero_bitmap : list Z := replicate (Z.to_nat BITMAP_WORDS) 0.
Arguments zero_bitmap : simpl never.

Definition anx_page_init_span (start end_ : Z) : outcome pstate :=
  let start := align_up start in
  let end_ := align_down end_ in
  assert! (start <? end_) ;;
  let total := Z.shiftr (u64 (end_ - start)) ANX_PAGE_SHIFT in
  let total := if MAX_PAGES <? total then MAX_PAGES else total in
  Ret (PState zero_bitmap start total 0 0).

(** [clip]: the page range of [start, end) inside the span, if any. *)
Definition clip (st : pstate) (start end_ : Z) : option (Z * Z) :=
  let span_end := u64 (st.(heap_base)
                       + u64 (Z.shiftl st.(total_pages) ANX_PAGE_SHIFT)) in
  let start := align_up start in
  let end_ := align_down end_ in
  let start := if start <? st.(heap_base) then st.(heap_base) else start in
  let end_ := if span_end <? end_ then span_end else end_ in
  when end_ <=? start ret None ;;
  Some (Z.shiftr (u64 (start - st.(heap_base))) ANX_PAGE_SHIFT,
        Z.shiftr (u64 (end_ - st.(heap_base))) ANX_PAGE_SHIFT).

Definition add_free_step (st : pstate) (p : Z) : pstate :=
  if bit_test st.(bitmap) p then st
  else with_counts (with_bitmap st (bit_set st.(bitmap) p))
         (u64 (st.(usable_pages) + 1)) (u64 (st.(free_count) + 1)).

Definition anx_page_add_free (start end_ : Z) (st : pstate) : pstate :=
  match clip st start end_ with
  | None => st
  | Some (first, last) => foldl add_free_step st (seqZ first (last - first))
  end.

Definition reserve_step (st : pstate) (p : Z) : pstate :=
  if negb (bit_test st.(bitmap) p) then st
  else with_counts (with_bitmap st (bit_clear st.(bitmap) p))
         (u64 (st.(usable_pages) - 1)) (u64 (st.(free_count) - 1)).

Definition anx_page_reserve (start end_ : Z) (st : pstate) : pstate :=
  match clip st start end_ with
  | None => st
  | Some (first, last) => foldl reserve_step st (seqZ first (last - first))
  end.

Definition anx_page_init (start end_ : Z) : outcome pstate :=
  let! st := anx_page_init_span start end_ in
  Ret (anx_page_add_free start end_ st).

(** ** Allocation *)

(** [take]: clear the run and return its address. *)
Definition take (st : pstate) (first count : Z) : Z * pstate :=
  (u64 (st.(heap_base) + u64 (Z.shiftl first ANX_PAGE_SHIFT)),
   PState (foldl bit_clear st.(bitmap) (seqZ first count))
     st.(heap_base) st.(total_pages) st.(usable_pages)
     (u64 (st.(free_count) - count))).

(** The inner [for (j = 0; j < count; j++) if (!bit_test(i + j)) break;]:
    the value of [j] after the loop. *)
Fixpoint run_length (bm : list Z) (i : Z) (count : nat) : Z :=
  match count with
  | O => 0
  | S n => if bit_test bm i then 1 + run_length bm (i + 1) n else 0
  end.

(** The search from the end of the heap, for [count >= 16].
    [Ret None] is the [break] that leads to [return 0]. *)
Fixpoint search_down (fuel : nat) (st : pstate) (count i : Z)
  : outcome (option Z) :=
  match fuel with
  | O => OutOfFuel
  | S fuel =>
    if rd 0 st.(bitmap) (i / 64) =? 0 then
      let w := i / 64 in
      when w =? 0 ret Ret None ;;
      let i := u64 (w * 64 - 1) in
      let i := if st.(total_pages) <? u64 (i + count)
               then u64 (st.(total_pages) - count) else i in
      search_down fuel st count i
    else
      let j := run_length st.(bitmap) i (Z.to_nat count) in
      when j =? count ret Ret (Some i) ;;
      when i =? 0 ret Ret None ;;
      search_down fuel st count (i - 1)
  end.

(** The search from the start of the heap, for smaller allocations. *)
Fixpoint search_up (fuel : nat) (st : pstate) (count i : Z)
  : outcome (option Z) :=
  match fuel with
  | O => OutOfFuel
  | S fuel =>
    if u64 (i + count) <=? st.(total_pages) then
      if rd 0 st.(bitmap) (i / 64) =? 0 then
        search_up fuel st count ((i / 64 + 1) * 64)
      else
        let j := run_length st.(bitmap) i (Z.to_nat count) in
        when j =? count ret Ret (Some i) ;;
        search_up fuel st count (i + (j + 1))
    else Ret None
  end.

Definition search_fuel (st : pstate) : nat := Z.to_nat (st.(total_pages) + 2).

Definition search (st : pstate) (count : Z) : outcome (option Z) :=
  if 16 <=? count
  then search_down (search_fuel st) st count (u64 (st.(total_pages) - count))
  else search_up (search_fuel st) st count 0.

(** [anx_page_alloc]: the address and the new state, [0] on failure.  The
    source computes [1ULL << order], so [order < 64] is its precondition. *)
Definition anx_page_alloc (order : Z) (st : pstate) : outcome (Z * pstate) :=
  let count := Z.shiftl 1 order in
  when (st.(free_count) <? count) || (st.(total_pages) <? count)
    ret Ret (0, st) ;;
  let! found := search st count in
  match found with
  | None => Ret (0, st)
  | Some first => Ret (take st first count)
  end.

(** One iteration of the loop of [anx_page_free], with its double-free
    assertion. *)
Definition free_step (m : outcome (list Z)) (p : Z) : outcome (list Z) :=
  let! bm := m in
  assert! (negb (bit_test bm p)) ;;
  Ret (bit_set bm p).

Definition anx_page_free (addr order : Z) (st : pstate) : outcome pstate :=
  assert! (st.(heap_base) <=? addr) ;;
  assert! (Z.land addr (ANX_PAGE_SIZE - 1) =? 0) ;;
  let page := Z.shiftr (addr - st.(heap_base)) ANX_PAGE_SHIFT in
  let count := Z.shiftl 1 order in
  assert! (u64 (page + count) <=? st.(total_pages)) ;;
  let! bm := foldl free_step (Ret st.(bitmap)) (seqZ page count) in
  Ret (PState bm st.(heap_base) st.(total_pages) st.(usable_pages)
         (u64 (st.(free_count) + count))).

Definition anx_page_stats (st : pstate) : Z * Z :=
  (st.(usable_pages), st.(free_count)).

(** ** Bit-level facts *)

Definition bm_ok (bm : list Z) : Prop :=
  Z.of_nat (length bm) = BITMAP_WORDS ∧
  ∀ w, 0 ≤ w < BITMAP_WORDS → is_u64 (rd 0 bm w).

Definition in_span (p : Z) : Prop := 0 ≤ p < MAX_PAGES.

Ltac span_lia := unfold in_span, MAX_PAGES in *; lia.

Lemma page_word p : in_span p → 0 ≤ p / 64 < BITMAP_WORDS ∧ 0 ≤ p mod 64 < 64.
Proof.
  unfold in_span, BITMAP_WORDS. change (MAX_PAGES / 64) with 16384.
  change MAX_PAGES with 1048576. intros Hp.
  split; [|apply Z.mod_pos_bound; lia].
  split; [apply Z.div_pos; lia|apply Z.div_lt_upper_bound; lia].
Qed.

Lemma bit_test_spec bm p :
  bit_test bm p = Z.testbit (rd 0 bm (p / 64)) (p mod 64).
Proof.
  unfold bit_test. rewrite (Z.land_ones _ 1) by lia.
  rewrite Z.pow_1_r, Zmod_odd, <- Z.bit0_odd.
  rewrite Z.shiftr_spec, Z.add_0_l by lia. by destruct (Z.testbit _ _).
Qed.

Lemma bit_test_set bm p q :
  bm_ok bm → in_span p → in_span q →
  bit_test (bit_set bm p) q = (bit_test bm q || (q =? p))%bool.
Proof.
  intros [Hl _] Hp Hq. rewrite !bit_test_spec. unfold bit_set.
  destruct (page_word p Hp), (page_word q Hq).
  destruct (Z.eq_dec (p / 64) (q / 64)) as [E|E].
  - rewrite <- E, rd_wr_eq by lia. rewrite testbit_setmask by lia. f_equal.
    pose proof (Z.div_mod p 64). pose proof (Z.div_mod q 64).
    destruct (Z.eqb_spec (q mod 64) (p mod 64)), (Z.eqb_spec q p); try done; lia.
  - rewrite rd_wr_ne by lia.
    destruct (Z.eqb_spec q p); [congruence|]. by rewrite orb_false_r.
Qed.

Lemma bit_test_clear bm p q :
  bm_ok bm → in_span p → in_span q →
  bit_test (bit_clear bm p) q = (bit_test bm q && negb (q =? p))%bool.
Proof.
  intros [Hl _] Hp Hq. rewrite !bit_test_spec. unfold bit_clear.
  destruct (page_word p Hp), (page_word q Hq).
  destruct (Z.eq_dec (p / 64) (q / 64)) as [E|E].
  - rewrite <- E, rd_wr_eq by lia. rewrite testbit_clearmask by lia. f_equal. f_equal.
    pose proof (Z.div_mod p 64). pose proof (Z.div_mod q 64).
    destruct (Z.eqb_spec (q mod 64) (p mod 64)), (Z.eqb_spec q p); try done; lia.
  - rewrite rd_wr_ne by lia.
    destruct (Z.eqb_spec q p); [congruence|]. by rewrite andb_true_r.
Qed.

Lemma bm_ok_wr bm w v : bm_ok bm → 0 ≤ w → is_u64 v → bm_ok (wr bm w v).
Proof.
  intros [Hl Hw] Hw0 Hv. split; [by rewrite wr_length|].
  intros w' Hw'. destruct (Z.eq_dec w w') as [<-|].
  - by rewrite rd_wr_eq by lia.
  - rewrite rd_wr_ne by lia. by apply Hw.
Qed.

Lemma bm_ok_set bm p : bm_ok bm → in_span p → bm_ok (bit_set bm p).
Proof.
  intros Hok Hp. destruct (page_word p Hp) as [Hq Hr].
  apply bm_ok_wr; [done|lia|]. apply is_u64_lor; [by apply Hok|by apply is_u64_bit].
Qed.

Lemma bm_ok_clear bm p : bm_ok bm → in_span p → bm_ok (bit_clear bm p).
Proof.
  intros Hok Hp. destruct (page_word p Hp) as [Hq Hr].
  apply bm_ok_wr; [done|lia|]. apply is_u64_land; [by apply Hok|].
  apply Z.lxor_nonneg. assert (is_u64 (Z.shiftl 1 (p mod 64))) as [? _]
    by (by apply is_u64_bit). unfold MAX64. lia.
Qed.

Lemma bm_ext bm1 bm2 :
  bm_ok bm1 → bm_ok bm2 →
  (∀ q, in_span q → bit_test bm1 q = bit_test bm2 q) → bm1 = bm2.
Proof.
  intros [Hl1 H1] [Hl2 H2] H. apply (rd_ext 0); [lia|].
  intros w Hw. apply u64_bits_ext; [apply H1; lia|apply H2; lia|].
  intros j Hj. specialize (H (w * 64 + j)). rewrite !bit_test_spec in H.
  rewrite (Z.div_add_l w 64 j), Z.div_small, Z.add_0_r in H by lia.
  replace ((w * 64 + j) mod 64) with j in H
    by (rewrite Z.add_comm, Z.mod_add, Z.mod_small; lia).
  apply H. unfold in_span, BITMAP_WORDS in *. change (MAX_PAGES / 64) with 16384 in *.
  change MAX_PAGES with 1048576. lia.
Qed.

Lemma zero_word bm w q :
  rd 0 bm w = 0 → q / 64 = w → bit_test bm q = false.
Proof. intros Hw <-. rewrite bit_test_spec, Hw. apply Z.testbit_0_l. Qed.

(** Range updates, by induction on the number of pages. *)
Lemma seqZ_ind (P : Z → Prop) : P 0 → (∀ n, 0 ≤ n → P n → P (n + 1)) →
  ∀ n, 0 ≤ n → P n.
Proof. intros H0 HS. apply natlike_ind; [done|]. intros. by apply HS. Qed.

Lemma clear_range bm f n :
  0 ≤ n → bm_ok bm → 0 ≤ f → f + n ≤ MAX_PAGES →
  bm_ok (foldl bit_clear bm (seqZ f n)) ∧
  ∀ q, in_span q → bit_test (foldl bit_clear bm (seqZ f n)) q
       = (bit_test bm q && negb ((f <=? q) && (q <? f + n)))%bool.
Proof.
  intros Hn Hok Hf. revert n Hn. apply (seqZ_ind (λ n, f + n ≤ MAX_PAGES → _)).
  - intros _. simpl. split; [done|]. intros q Hq.
    destruct (Z.leb_spec f q), (Z.ltb_spec q (f + 0)); try lia; by rewrite andb_true_r.
  - intros n Hn IH Hle. destruct IH as [IH1 IH2]; [lia|].
    rewrite seqZ_snoc, foldl_app by lia. simpl.
    assert (in_span (f + n)) by span_lia.
    split; [by apply bm_ok_clear|]. intros q Hq.
    rewrite bit_test_clear, IH2 by done. destruct (bit_test bm q); [|done].
    destruct (Z.leb_spec f q), (Z.ltb_spec q (f + n)), (Z.ltb_spec q (f + (n + 1))),
      (Z.eqb_spec q (f + n)); simpl; try done; lia.
Qed.

Lemma free_range bm f n :
  0 ≤ n → bm_ok bm → 0 ≤ f → f + n ≤ MAX_PAGES →
  (∀ q, f ≤ q < f + n → bit_test bm q = false) →
  ∃ bm', foldl free_step (Ret bm) (seqZ f n) = Ret bm' ∧ bm_ok bm' ∧
  ∀ q, in_span q → bit_test bm' q
       = (bit_test bm q || ((f <=? q) && (q <? f + n)))%bool.
Proof.
  intros Hn Hok Hf. revert n Hn.
  apply (seqZ_ind (λ n, f + n ≤ MAX_PAGES → _ → _)).
  - intros _ _. exists bm. split; [done|]. split; [done|]. intros q Hq.
    destruct (Z.leb_spec f q), (Z.ltb_spec q (f + 0)); try lia; by rewrite orb_false_r.
  - intros n Hn IH Hle Hfree. destruct IH as (bm' & IH1 & IH2 & IH3);
      [lia|intros; apply Hfree; lia|].
    rewrite seqZ_snoc, foldl_app, IH1 by lia. simpl.
    assert (in_span (f + n)) by span_lia.
    rewrite IH3, (Hfree (f + n)) by (done || lia).
    destruct (Z.leb_spec f (f + n)), (Z.ltb_spec (f + n) (f + n)); try lia; simpl.
    eexists. split; [done|]. split; [by apply bm_ok_set|]. intros q Hq.
    rewrite bit_test_set, IH3 by done. destruct (bit_test bm q); [done|].
    destruct (Z.leb_spec f q), (Z.ltb_spec q (f + n)), (Z.ltb_spec q (f + (n + 1))),
      (Z.eqb_spec q (f + n)); simpl; try done; lia.
Qed.

(** ** Counting free pages *)

Fixpoint cnt (bm : list Z) (lo : Z) (n : nat) : Z :=
  match n with
  | O => 0
  | S n => (if bit_test bm lo then 1 else 0) + cnt bm (lo + 1) n
  end.

Lemma cnt_app bm lo a b : cnt bm lo (a + b) = cnt bm lo a + cnt bm (lo + Z.of_nat a) b.
Proof.
  revert lo. induction a as [|a IH]; intros lo.
  - simpl. by rewrite Z.add_0_r.
  - simpl. rewrite IH. replace (lo + 1 + Z.of_nat a) with (lo + Z.of_nat (S a)) by lia. lia.
Qed.

Lemma cnt_const bm lo n v :
  (∀ q, lo ≤ q < lo + Z.of_nat n → bit_test bm q = v) →
  cnt bm lo n = if v then Z.of_nat n else 0.
Proof.
  revert lo. induction n as [|n IH]; intros lo H; [by destruct v|].
  simpl. rewrite H by lia. rewrite IH by (intros; apply H; lia). destruct v; lia.
Qed.

Lemma cnt_ext bm1 bm2 lo n :
  (∀ q, lo ≤ q < lo + Z.of_nat n → bit_test bm1 q = bit_test bm2 q) →
  cnt bm1 lo n = cnt bm2 lo n.
Proof.
  revert lo. induction n as [|n IH]; intros lo H; [done|].
  simpl. rewrite H by lia. rewrite IH by (intros; apply H; lia). done.
Qed.

Lemma cnt_bounds bm lo n : 0 ≤ cnt bm lo n ≤ Z.of_nat n.
Proof.
  revert lo. induction n as [|n IH]; intros lo; [simpl; lia|].
  simpl. specialize (IH (lo + 1)). destruct (bit_test bm lo); lia.
Qed.

(** A range update changes the count by what it does inside the range. *)
Lemma cnt_range bm bm' total f n v v' :
  0 ≤ f → 0 ≤ n → f + n ≤ total →
  (∀ q, f ≤ q < f + n → bit_test bm q = v ∧ bit_test bm' q = v') →
  (∀ q, 0 ≤ q < total → ¬ (f ≤ q < f + n) → bit_test bm' q = bit_test bm q) →
  cnt bm' 0 (Z.to_nat total)
  = cnt bm 0 (Z.to_nat total) + (if v' then n else 0) - (if v then n else 0).
Proof.
  intros Hf Hn Hle Hin Hout.
  replace (Z.to_nat total)
    with (Z.to_nat f + (Z.to_nat n + Z.to_nat (total - f - n)))%nat by lia.
  rewrite !cnt_app, !Z.add_0_l, !Z2Nat.id by lia.
  rewrite (cnt_ext bm' bm 0) by (intros; apply Hout; lia).
  rewrite (cnt_ext bm' bm (f + n)) by (intros; apply Hout; lia).
  rewrite (cnt_const bm f _ v), (cnt_const bm' f _ v') by (intros; apply Hin; lia).
  destruct v, v'; lia.
Qed.

(** ** The allocator's invariant *)

Record page_inv (st : pstate) : Prop := {
  inv_bm : bm_ok st.(bitmap);
  inv_total : 0 ≤ st.(total_pages) ≤ MAX_PAGES;
  inv_hole : ∀ p, st.(total_pages) ≤ p < MAX_PAGES → bit_test st.(bitmap) p = false;
  inv_count : st.(free_count) = cnt st.(bitmap) 0 (Z.to_nat st.(total_pages));
  inv_base : 0 ≤ st.(heap_base) ∧ Z.land st.(heap_base) (ANX_PAGE_SIZE - 1) = 0;
  inv_end : st.(heap_base) + st.(total_pages) * ANX_PAGE_SIZE ≤ MAX64;
}.

Definition all_free (st : pstate) (f count : Z) : Prop :=
  ∀ q, f ≤ q < f + count → bit_test st.(bitmap) q = true.

Lemma free_count_bounds st : page_inv st → 0 ≤ st.(free_count) ≤ MAX_PAGES.
Proof.
  intros H. rewrite (inv_count _ H).
  pose proof (cnt_bounds st.(bitmap) 0 (Z.to_nat st.(total_pages))).
  pose proof (inv_total _ H). lia.
Qed.

(** ** The search loops *)

Lemma run_length_spec bm i n :
  0 ≤ run_length bm i n ≤ Z.of_nat n ∧
  (∀ q, i ≤ q < i + run_length bm i n → bit_test bm q = true) ∧
  (run_length bm i n < Z.of_nat n → bit_test bm (i + run_length bm i n) = false).
Proof.
  revert i. induction n as [|n IH]; intros i; cbn [run_length]; [split_and!; lia|].
  destruct (bit_test bm i) eqn:Ei.
  - destruct (IH (i + 1)) as (Hb & Hset & Hend). split_and!; [lia..| |].
    + intros q Hq. destruct (Z.eq_dec q i) as [->|]; [done|]. apply Hset. lia.
    + intros. replace (i + (1 + run_length bm (i + 1) n))
        with (i + 1 + run_length bm (i + 1) n) by lia. apply Hend. lia.
  - split_and!; [lia..| |]; [intros; lia|]. intros _. by rewrite Z.add_0_r.
Qed.

Lemma full_run st i count :
  0 ≤ count → run_length st.(bitmap) i (Z.to_nat count) = count → all_free st i count.
Proof.
  intros Hc Hr q Hq. destruct (run_length_spec st.(bitmap) i (Z.to_nat count))
    as (_ & Hset & _). apply Hset. lia.
Qed.

(** What either search establishes about its result, with [P] the set of
    starting pages the loop still has to consider. *)
Definition search_post (st : pstate) (count : Z) (P : Z → Prop)
    (r : outcome (option Z)) : Prop :=
  match r with
  | Ret (Some f) => P f ∧ 0 ≤ f ∧ f + count ≤ st.(total_pages) ∧ all_free st f count
  | Ret None => ∀ f, P f → 0 ≤ f → f + count ≤ st.(total_pages) → ¬ all_free st f count
  | Panic => False
  | OutOfFuel => False
  end.

Lemma not_all_free st f count q :
  f ≤ q < f + count → bit_test st.(bitmap) q = false → ¬ all_free st f count.
Proof. intros Hq Hb Hall. rewrite (Hall q Hq) in Hb. done. Qed.

Lemma search_up_spec st count fuel i :
  page_inv st → 0 < count < 2 ^ 32 → 0 ≤ i ≤ st.(total_pages) + 64 →
  (1 ≤ fuel)%nat → st.(total_pages) + 1 - i < Z.of_nat fuel →
  search_post st count (λ f, i ≤ f) (search_up fuel st count i).
Proof.
  intros Hinv Hc. pose proof (inv_total _ Hinv) as Ht. change MAX_PAGES with 1048576 in Ht.
  revert i. induction fuel as [|fuel IH]; intros i Hi Hf1 Hf2; [lia|].
  cbn [search_up]. rewrite (u64_small (i + count)) by (unfold is_u64; lia).
  destruct (Z.leb_spec (i + count) st.(total_pages)) as [Hle|Hgt];
    [|intros f Hf ? ? ?; lia].
  destruct (Z.eqb_spec (rd 0 st.(bitmap) (i / 64)) 0) as [Hz|Hz].
  - pose proof (Z.div_mod i 64). pose proof (Z.mod_pos_bound i 64).
    specialize (IH ((i / 64 + 1) * 64)).
    assert (search_post st count (λ f, (i / 64 + 1) * 64 ≤ f)
      (search_up fuel st count ((i / 64 + 1) * 64))) as Hpost by (apply IH; lia).
    destruct (search_up _ _ _ _) as [[g|]| |]; simpl in *; [|intros f Hf ? ?|done..].
    + destruct Hpost as (? & ? & ? & ?). split_and!; [lia..|done].
    + destruct (Z.le_gt_cases ((i / 64 + 1) * 64) f); [by apply Hpost|].
      apply not_all_free with f; [lia|]. apply zero_word with (i / 64); [done|].
      symmetry. apply Z.div_unique with (f - i / 64 * 64); lia.
  - destruct (Z.eqb_spec (run_length st.(bitmap) i (Z.to_nat count)) count) as [Hr|Hr].
    { simpl. split_and!; [lia..|]. apply full_run; [lia|done]. }
    destruct (run_length_spec st.(bitmap) i (Z.to_nat count)) as (Hb & _ & Hend).
    set (j := run_length st.(bitmap) i (Z.to_nat count)) in *.
    assert (search_post st count (λ f, i + (j + 1) ≤ f)
      (search_up fuel st count (i + (j + 1)))) as Hpost by (apply IH; lia).
    destruct (search_up _ _ _ _) as [[g|]| |]; simpl in *; [|intros f Hf ? ?|done..].
    + destruct Hpost as (? & ? & ? & ?). split_and!; [lia..|done].
    + destruct (Z.le_gt_cases (i + (j + 1)) f); [by apply Hpost|].
      apply not_all_free with (i + j); [lia|]. apply Hend. lia.
Qed.

Lemma search_down_spec st count fuel i :
  page_inv st → 0 < count → 0 ≤ i → i + count ≤ st.(total_pages) →
  i < Z.of_nat fuel →
  search_post st count (λ f, f ≤ i) (search_down fuel st count i).
Proof.
  intros Hinv Hc. pose proof (inv_total _ Hinv) as Ht. change MAX_PAGES with 1048576 in Ht.
  revert i. induction fuel as [|fuel IH]; intros i Hi Hle Hf; [lia|].
  cbn [search_down].
  destruct (Z.eqb_spec (rd 0 st.(bitmap) (i / 64)) 0) as [Hz|Hz].
  - pose proof (Z.div_mod i 64). pose proof (Z.mod_pos_bound i 64).
    assert (Hbad : ∀ f, i / 64 * 64 ≤ f ≤ i → ¬ all_free st f count).
    { intros f Hf'. apply not_all_free with f; [lia|].
      apply zero_word with (i / 64); [done|].
      symmetry. apply Z.div_unique with (f - i / 64 * 64); lia. }
    destruct (Z.eqb_spec (i / 64) 0) as [Hw|Hw]; [intros f ? ? ?; apply Hbad; lia|].
    rewrite (u64_small (i / 64 * 64 - 1)) by (unfold is_u64; lia).
    rewrite (u64_small (i / 64 * 64 - 1 + count)) by (unfold is_u64; lia).
    destruct (Z.ltb_spec st.(total_pages) (i / 64 * 64 - 1 + count)); [lia|].
    specialize (IH (i / 64 * 64 - 1)).
    destruct (search_down _ _ _ _) as [[g|]| |]; simpl in *;
      [|intros f Hf' ? ?|apply IH; lia..].
    + destruct IH as (? & ? & ? & ?); [lia..|]. split_and!; [lia..|done].
    + destruct (Z.le_gt_cases f (i / 64 * 64 - 1)); [apply IH; lia|]. apply Hbad. lia.
  - destruct (Z.eqb_spec (run_length st.(bitmap) i (Z.to_nat count)) count) as [Hr|Hr].
    { simpl. split_and!; [lia..|]. apply full_run; [lia|done]. }
    destruct (run_length_spec st.(bitmap) i (Z.to_nat count)) as (Hb & _ & Hend).
    set (j := run_length st.(bitmap) i (Z.to_nat count)) in *.
    assert (Hbad : ¬ all_free st i count)
      by (apply not_all_free with (i + j); [lia|apply Hend; lia]).
    destruct (Z.eqb_spec i 0) as [->|Hi0].
    { intros f ? ? ?. by replace f with 0 by lia. }
    specialize (IH (i - 1)).
    destruct (search_down _ _ _ _) as [[g|]| |]; simpl in *;
      [|intros f Hf' ? ?|apply IH; lia..].
    + destruct IH as (? & ? & ? & ?); [lia..|]. split_and!; [lia..|done].
    + destruct (Z.eq_dec f i) as [->|]; [done|]. apply IH; lia.
Qed.

Lemma search_spec st count :
  page_inv st → 0 < count ≤ st.(total_pages) →
  search_post st count (λ _, True) (search st count).
Proof.
  intros Hinv Hc. pose proof (inv_total _ Hinv) as Ht. change MAX_PAGES with 1048576 in Ht.
  unfold search, search_fuel. destruct (Z.leb_spec 16 count).
  - rewrite u64_small by (unfold is_u64; lia).
    pose proof (search_down_spec st count (Z.to_nat (st.(total_pages) + 2))
      (st.(total_pages) - count) Hinv) as H'.
    destruct (search_down _ _ _ _) as [[g|]| |]; simpl in *;
      [|intros f _ ? ?; apply H'; lia|apply H'; lia..].
    destruct H' as (? & ? & ? & ?); [lia..|]. by split_and!.
  - pose proof (search_up_spec st count (Z.to_nat (st.(total_pages) + 2)) 0 Hinv) as H'.
    destruct (search_up _ _ _ _) as [[g|]| |]; simpl in *;
      [|intros f _ ? ?; apply H'; lia|apply H'; lia..].
    destruct H' as (? & ? & ? & ?); [lia..|]. by split_and!.
Qed.

Lemma all_free_count st f count :
  page_inv st → 0 ≤ f → 0 ≤ count → f + count ≤ st.(total_pages) →
  all_free st f count → count ≤ st.(free_count).
Proof.
  intros Hinv Hf Hc Hle Hall. rewrite (inv_count _ Hinv).
  replace (Z.to_nat st.(total_pages))
    with (Z.to_nat f + (Z.to_nat count + Z.to_nat (st.(total_pages) - f - count)))%nat by lia.
  rewrite !cnt_app, !Z.add_0_l, !Z2Nat.id by lia.
  rewrite (cnt_const _ f _ true) by (intros; apply Hall; lia).
  pose proof (cnt_bounds st.(bitmap) 0 (Z.to_nat f)).
  pose proof (cnt_bounds st.(bitmap) (f + count) (Z.to_nat (st.(total_pages) - f - count))). lia.
Qed.

(** ** Alignment *)

Lemma align_down_spec x : is_u64 x → align_down x = x - x mod 4096.
Proof. intros Hx. unfold align_down. change (ANX_PAGE_SIZE - 1) with (Z.ones 12). by apply (land_not64 x 12). Qed.

Lemma aligned_land x : 0 ≤ x → (Z.land x (ANX_PAGE_SIZE - 1) = 0 ↔ x mod 4096 = 0).
Proof. intros. change (ANX_PAGE_SIZE - 1) with (Z.ones 12). by rewrite Z.land_ones. Qed.

Lemma align_up_down x : align_up x = align_down (u64 (x + ANX_PAGE_SIZE - 1)).
Proof. done. Qed.

Lemma align_down_mult x :
  is_u64 x → 0 ≤ align_down x ≤ x ∧ x < align_down x + 4096 ∧ align_down x mod 4096 = 0.
Proof.
  intros Hx. rewrite align_down_spec by done.
  pose proof (Z.mod_pos_bound x 4096). pose proof (Z.div_mod x 4096).
  unfold is_u64 in Hx. assert (0 ≤ x / 4096) by (apply Z.div_pos; lia).
  split_and!; [lia..|].
  replace (x - x mod 4096) with (x / 4096 * 4096) by lia. apply Z.mod_mul. lia.
Qed.

(** ** [take] and [anx_page_free] on an allocator that satisfies the
    invariant *)

Lemma page_addr st f count :
  page_inv st → 0 ≤ f → 0 ≤ count → f + count ≤ st.(total_pages) →
  u64 (st.(heap_base) + u64 (Z.shiftl f ANX_PAGE_SHIFT))
  = st.(heap_base) + f * ANX_PAGE_SIZE.
Proof.
  intros Hinv Hf Hc Hle. pose proof (inv_end _ Hinv). pose proof (inv_base _ Hinv).
  pose proof (inv_total _ Hinv). change MAX_PAGES with 1048576 in *.
  unfold MAX64, ANX_PAGE_SIZE in *.
  rewrite Z.shiftl_mul_pow2 by (unfold ANX_PAGE_SHIFT; lia).
  change (2 ^ ANX_PAGE_SHIFT) with 4096.
  rewrite (u64_small (f * 4096)) by (unfold is_u64; lia).
  apply u64_small. unfold is_u64. lia.
Qed.

(** The effect of allocating [count] pages at [f]. *)
Record taken (st st' : pstate) (f count : Z) : Prop := {
  taken_bits : ∀ q, in_span q → bit_test st'.(bitmap) q
    = (bit_test st.(bitmap) q && negb ((f <=? q) && (q <? f + count)))%bool;
  taken_free : st'.(free_count) = st.(free_count) - count;
  taken_base : st'.(heap_base) = st.(heap_base);
  taken_total : st'.(total_pages) = st.(total_pages);
  taken_usable : st'.(usable_pages) = st.(usable_pages);
}.

Lemma take_spec st f count :
  page_inv st → 0 ≤ f → 0 < count → f + count ≤ st.(total_pages) →
  all_free st f count →
  (take st f count).1 = st.(heap_base) + f * ANX_PAGE_SIZE ∧
  taken st (take st f count).2 f count ∧ page_inv (take st f count).2.
Proof.
  intros Hinv Hf Hc Hle Hall.
  pose proof (inv_total _ Hinv) as Ht. pose proof (inv_bm _ Hinv) as Hbm.
  pose proof (all_free_count st f count Hinv Hf ltac:(lia) Hle Hall) as Hcount.
  pose proof (free_count_bounds _ Hinv). change MAX_PAGES with 1048576 in *.
  destruct (clear_range st.(bitmap) f count) as [Hok' Hbits];
    [lia|done|lia|span_lia|].
  split; [simpl; apply (page_addr st f count Hinv); lia|].
  assert (Hfc : u64 (st.(free_count) - count) = st.(free_count) - count)
    by (apply u64_small; unfold is_u64; lia).
  split; [constructor; simpl; done|].
  constructor; simpl; [done|done| | | |].
  - intros p Hp. rewrite Hbits by span_lia.
    by rewrite (inv_hole _ Hinv p).
  - rewrite Hfc, (cnt_range st.(bitmap) _ _ f count true false);
      [rewrite <- (inv_count _ Hinv); lia|lia..| |].
    + intros q Hq. split; [by apply Hall|].
      rewrite Hbits by span_lia.
      destruct (Z.leb_spec f q), (Z.ltb_spec q (f + count)); try lia; by rewrite andb_false_r.
    + intros q Hq Hn. rewrite Hbits by span_lia.
      destruct (Z.leb_spec f q), (Z.ltb_spec q (f + count)); try lia; by rewrite andb_true_r.
  - apply (inv_base _ Hinv).
  - apply (inv_end _ Hinv).
Qed.

Lemma pow2_order order : 0 ≤ order < 64 → 0 < Z.shiftl 1 order < 2 ^ 64.
Proof.
  intros. rewrite Z.shiftl_1_l. split; [apply Z.pow_pos_nonneg; lia|].
  apply Z.pow_lt_mono_r; lia.
Qed.

(** ** Allocation and release *)

(** Allocation: the found run, or no run exists. *)
Lemma page_alloc_spec st order :
  page_inv st → 0 ≤ order < 64 →
  let count := Z.shiftl 1 order in
  (∃ f st', anx_page_alloc order st = Ret (st.(heap_base) + f * ANX_PAGE_SIZE, st') ∧
     0 ≤ f ∧ f + count ≤ st.(total_pages) ∧ all_free st f count ∧
     taken st st' f count ∧ page_inv st')
  ∨ (anx_page_alloc order st = Ret (0, st) ∧
     ∀ f, 0 ≤ f → f + count ≤ st.(total_pages) → ¬ all_free st f count).
Proof.
  intros Hinv Horder count. pose proof (pow2_order order Horder) as Hc.
  fold count in Hc. unfold anx_page_alloc. fold count.
  destruct (Z.ltb_spec st.(free_count) count) as [Hlt|Hge]; simpl.
  { right. split; [done|]. intros f Hf Hle Hall.
    pose proof (all_free_count st f count Hinv Hf ltac:(lia) Hle Hall). lia. }
  destruct (Z.ltb_spec st.(total_pages) count) as [Hlt|Hge2]; simpl.
  { right. split; [done|]. intros; lia. }
  pose proof (search_spec st count Hinv ltac:(lia)) as Hs.
  destruct (search st count) as [[f|]| |]; simpl in *; [|by right; auto|done..].
  left. destruct Hs as (_ & Hf & Hle & Hall).
  destruct (take_spec st f count Hinv Hf ltac:(lia) Hle Hall) as (Haddr & Ht & Hi).
  destruct (take st f count) as [a st'] eqn:Et. simpl in *. subst a.
  exists f, st'. by split_and!.
Qed.

Lemma page_of_addr st f :
  0 ≤ f → Z.shiftr (st.(heap_base) + f * ANX_PAGE_SIZE - st.(heap_base)) ANX_PAGE_SHIFT = f.
Proof.
  intros. replace (_ + _ - _) with (f * ANX_PAGE_SIZE) by lia.
  rewrite Z.shiftr_div_pow2 by (unfold ANX_PAGE_SHIFT; lia). by apply Z.div_mul.
Qed.

Lemma page_addr_aligned st f :
  page_inv st → 0 ≤ f →
  Z.land (st.(heap_base) + f * ANX_PAGE_SIZE) (ANX_PAGE_SIZE - 1) = 0.
Proof.
  intros Hinv Hf. destruct (inv_base _ Hinv) as [Hb Ha].
  apply aligned_land in Ha; [|done]. apply aligned_land; [unfold ANX_PAGE_SIZE; lia|].
  unfold ANX_PAGE_SIZE. by rewrite Z.mod_add.
Qed.

(** The three assertions of [anx_page_free] before its loop hold for a run
    inside the span; what remains is the marking loop. *)
Lemma page_free_unfold st f order :
  page_inv st → 0 ≤ order < 64 → 0 ≤ f →
  f + Z.shiftl 1 order ≤ st.(total_pages) →
  anx_page_free (st.(heap_base) + f * ANX_PAGE_SIZE) order st =
  (let! bm := foldl free_step (Ret st.(bitmap)) (seqZ f (Z.shiftl 1 order)) in
   Ret (PState bm st.(heap_base) st.(total_pages) st.(usable_pages)
          (u64 (st.(free_count) + Z.shiftl 1 order)))).
Proof.
  intros Hinv Horder Hf Hle. pose proof (pow2_order order Horder).
  pose proof (inv_total _ Hinv) as Ht. change MAX_PAGES with 1048576 in Ht.
  unfold anx_page_free. rewrite page_of_addr, page_addr_aligned by done.
  destruct (Z.leb_spec st.(heap_base) (st.(heap_base) + f * ANX_PAGE_SIZE));
    [|unfold ANX_PAGE_SIZE in *; lia].
  rewrite (u64_small (f + Z.shiftl 1 order)) by (unfold is_u64; lia).
  destruct (Z.leb_spec (f + Z.shiftl 1 order) st.(total_pages)); [done|lia].
Qed.

(** freeing what was just allocated restores the allocator exactly. *)
Theorem page_free_alloc st order a st' :
  page_inv st → 0 ≤ order < 64 → 0 < st.(heap_base) →
  anx_page_alloc order st = Ret (a, st') → a ≠ 0 →
  anx_page_free a order st' = Ret st.
Proof.
  intros Hinv Horder Hb Halloc Ha. pose proof (pow2_order order Horder) as Hc.
  destruct (page_alloc_spec st order Hinv Horder)
    as [(f & st1 & Heq & Hf & Hle & Hall & Ht & Hinv')|[Heq _]];
    rewrite Heq in Halloc; simplify_eq.
  destruct Ht as [Hbits Hfree Hbase Htotal Husable].
  pose proof (inv_total _ Hinv) as Htot. change MAX_PAGES with 1048576 in Htot.
  rewrite <- Hbase, page_free_unfold by (done || by rewrite Htotal).
  destruct (free_range st'.(bitmap) f (Z.shiftl 1 order)) as (bm & -> & Hok & Hbm);
    [lia|apply (inv_bm _ Hinv')|lia|span_lia| |].
  { intros q Hq. rewrite Hbits by span_lia.
    destruct (Z.leb_spec f q), (Z.ltb_spec q (f + Z.shiftl 1 order)); try lia;
    by rewrite andb_false_r. }
  simpl. rewrite Hfree, Hbase, Htotal, Husable.
  replace (st.(free_count) - Z.shiftl 1 order + Z.shiftl 1 order) with st.(free_count) by lia.
  pose proof (free_count_bounds _ Hinv) as Hfc. change MAX_PAGES with 1048576 in Hfc.
  rewrite u64_small by (unfold is_u64; lia).
  assert (bm = st.(bitmap)) as ->; [|by destruct st].
  apply bm_ext; [done|apply (inv_bm _ Hinv)|]. intros q Hq.
  rewrite Hbm, Hbits by done. specialize (Hall q).
  destruct (Z.leb_spec f q), (Z.ltb_spec q (f + Z.shiftl 1 order)); simpl;
    rewrite ?andb_true_r, ?andb_false_r, ?orb_false_r; try done.
  symmetry. apply Hall. lia.
Qed.

Lemma free_step_panic l : foldl free_step Panic l = Panic.
Proof. by induction l. Qed.

(** The marking loop panics as soon as it meets a page that is free. *)
Lemma free_fold_panic bm l q :
  bm_ok bm → Forall in_span l → q ∈ l → bit_test bm q = true →
  foldl free_step (Ret bm) l = Panic.
Proof.
  revert bm. induction l as [|p l IH]; intros bm Hok Hl Hq Hbit;
    [by apply elem_of_nil in Hq|].
  apply Forall_cons in Hl as [Hp Hl]. simpl.
  destruct (bit_test bm p) eqn:Hbp; simpl; [apply free_step_panic|].
  apply elem_of_cons in Hq as [->|Hq]; [congruence|].
  apply IH; [by apply bm_ok_set|done..|].
  rewrite bit_test_set, Hbit by (done || by eapply Forall_forall; eauto). done.
Qed.

(** freeing a run any page of which is already free is caught by the
    double-free assertion. *)
Theorem page_double_free st f order q :
  page_inv st → 0 ≤ order < 64 → 0 ≤ f →
  f + Z.shiftl 1 order ≤ st.(total_pages) →
  f ≤ q < f + Z.shiftl 1 order → bit_test st.(bitmap) q = true →
  anx_page_free (st.(heap_base) + f * ANX_PAGE_SIZE) order st = Panic.
Proof.
  intros Hinv Horder Hf Hle Hq Hbit. pose proof (inv_total _ Hinv).
  rewrite page_free_unfold by done.
  rewrite (free_fold_panic _ _ q); [done|apply (inv_bm _ Hinv)| |by apply elem_of_seqZ|done].
  apply Forall_forall. intros p Hp%elem_of_seqZ. unfold in_span. lia.
Qed.

(** ** Initialisation and range operations *)

Lemma zero_bm_ok : bm_ok zero_bitmap.
Proof.
  unfold zero_bitmap.
  split; [by rewrite length_replicate|]. intros w Hw.
  unfold rd. rewrite nth_lookup, lookup_replicate_2 by lia. simpl. split; [done|lia].
Qed.

Lemma bit_test_zero q : bit_test zero_bitmap q = false.
Proof.
  rewrite bit_test_spec. unfold rd, zero_bitmap. rewrite nth_lookup.
  destruct (replicate _ 0 !! _) as [x|] eqn:E; [|apply Z.testbit_0_l].
  apply lookup_replicate in E as [-> _]. apply Z.testbit_0_l.
Qed.

Lemma clip_spec st start end_ first last :
  page_inv st → is_u64 start → is_u64 end_ →
  clip st start end_ = Some (first, last) →
  0 ≤ first < last ∧ last ≤ st.(total_pages) ∧
  st.(heap_base) + first * 4096 = Z.max st.(heap_base) (align_up start) ∧
  st.(heap_base) + last * 4096
  = Z.min (st.(heap_base) + st.(total_pages) * 4096) (align_down end_).
Proof.
  intros Hinv Hs He. unfold clip.
  pose proof (inv_total _ Hinv) as Ht. change MAX_PAGES with 1048576 in Ht.
  destruct (inv_base _ Hinv) as [Hb Hal]. apply aligned_land in Hal; [|done].
  pose proof (inv_end _ Hinv) as Hend. unfold ANX_PAGE_SIZE, MAX64 in Hend.
  rewrite (page_addr st (total_pages st) 0) by (done || lia).
  destruct (align_down_mult end_ He) as (He1 & He2 & He3).
  destruct (align_down_mult (u64 (start + ANX_PAGE_SIZE - 1)) (u64_range _)) as (Hs1 & Hs2 & Hs3).
  rewrite <- align_up_down in *. pose proof (u64_range (start + ANX_PAGE_SIZE - 1)) as Hsr.
  unfold is_u64, ANX_PAGE_SIZE in *.
  set (s := align_up start) in *. set (e := align_down end_) in *.
  set (s' := if s <? st.(heap_base) then st.(heap_base) else s).
  set (e' := if st.(heap_base) + st.(total_pages) * 4096 <? e
             then st.(heap_base) + st.(total_pages) * 4096 else e).
  assert (Hs' : s' = Z.max st.(heap_base) s) by (unfold s'; destruct (Z.ltb_spec s st.(heap_base)); lia).
  assert (He' : e' = Z.min (st.(heap_base) + st.(total_pages) * 4096) e)
    by (unfold e'; destruct (Z.ltb_spec (st.(heap_base) + st.(total_pages) * 4096) e); lia).
  destruct (Z.leb_spec e' s') as [|Hlt]; [done|]. intros [= <- <-].
  rewrite !u64_small by (unfold is_u64; lia).
  rewrite !Z.shiftr_div_pow2 by (unfold ANX_PAGE_SHIFT; lia).
  change (2 ^ ANX_PAGE_SHIFT) with 4096.
  assert (∃ k, s' = st.(heap_base) + k * 4096) as [k Hk].
  { exists (s' / 4096 - st.(heap_base) / 4096).
    assert (s' mod 4096 = 0) by (rewrite Hs'; destruct (Z.max_spec st.(heap_base) s) as [[_ ->]|[_ ->]]; done).
    pose proof (Z.div_mod s' 4096). pose proof (Z.div_mod st.(heap_base) 4096). lia. }
  assert (∃ m, e' = st.(heap_base) + m * 4096) as [m Hm].
  { exists (e' / 4096 - st.(heap_base) / 4096).
    assert (e' mod 4096 = 0).
    { rewrite He'. destruct (Z.min_spec (st.(heap_base) + st.(total_pages) * 4096) e) as [[_ ->]|[_ ->]]; [|done].
      by rewrite Z.mod_add. }
    pose proof (Z.div_mod e' 4096). pose proof (Z.div_mod st.(heap_base) 4096). lia. }
  rewrite Hk, Hm in *.
  replace (_ + k * 4096 - _) with (k * 4096) by lia.
  replace (_ + m * 4096 - _) with (m * 4096) by lia.
  rewrite !Z.div_mul by lia. split_and!; lia.
Qed.

(** One page added or reserved preserves the invariant. *)
Lemma add_free_step_spec st p :
  page_inv st → 0 ≤ p < st.(total_pages) →
  page_inv (add_free_step st p) ∧
  (add_free_step st p).(total_pages) = st.(total_pages) ∧
  (add_free_step st p).(heap_base) = st.(heap_base) ∧
  ∀ q, in_span q → bit_test (add_free_step st p).(bitmap) q
                   = (bit_test st.(bitmap) q || (q =? p))%bool.
Proof.
  intros Hinv Hp. pose proof (inv_total _ Hinv) as Ht.
  assert (Hps : in_span p) by span_lia. unfold add_free_step.
  destruct (bit_test st.(bitmap) p) eqn:Hbp.
  - split_and!; [done..|]. intros q Hq. destruct (Z.eqb_spec q p) as [->|].
    + by rewrite Hbp.
    + by rewrite orb_false_r.
  - pose proof (inv_bm _ Hinv) as Hbm.
    assert (Hbits : ∀ q, in_span q → bit_test (bit_set st.(bitmap) p) q
      = (bit_test st.(bitmap) q || (q =? p))%bool) by (intros; by apply bit_test_set).
    split_and!; [|done..]. constructor; simpl.
    + by apply bm_ok_set.
    + done.
    + intros q Hq. rewrite Hbits, (inv_hole _ Hinv q) by span_lia.
      destruct (Z.eqb_spec q p); [lia|done].
    + rewrite (cnt_range st.(bitmap) _ _ p 1 false true).
      * rewrite <- (inv_count _ Hinv). pose proof (free_count_bounds _ Hinv) as Hfc.
        change MAX_PAGES with 1048576 in Hfc. rewrite u64_small by (unfold is_u64; lia). lia.
      * lia.
      * lia.
      * lia.
      * intros q Hq. replace q with p by lia. rewrite Hbits by done.
        rewrite Hbp, Z.eqb_refl. done.
      * intros q Hq Hn. rewrite Hbits by span_lia.
        destruct (Z.eqb_spec q p); [lia|]. by rewrite orb_false_r.
    + apply (inv_base _ Hinv).
    + apply (inv_end _ Hinv).
Qed.

Lemma reserve_step_spec st p :
  page_inv st → 0 ≤ p < st.(total_pages) →
  page_inv (reserve_step st p) ∧
  (reserve_step st p).(total_pages) = st.(total_pages) ∧
  (reserve_step st p).(heap_base) = st.(heap_base) ∧
  ∀ q, in_span q → bit_test (reserve_step st p).(bitmap) q
                   = (bit_test st.(bitmap) q && negb (q =? p))%bool.
Proof.
  intros Hinv Hp. pose proof (inv_total _ Hinv) as Ht.
  assert (Hps : in_span p) by span_lia. unfold reserve_step.
  destruct (bit_test st.(bitmap) p) eqn:Hbp; simpl.
  - pose proof (inv_bm _ Hinv) as Hbm.
    assert (Hbits : ∀ q, in_span q → bit_test (bit_clear st.(bitmap) p) q
      = (bit_test st.(bitmap) q && negb (q =? p))%bool) by (intros; by apply bit_test_clear).
    assert (Hone : 1 ≤ st.(free_count)).
    { apply (all_free_count st p 1 Hinv); try lia. intros q Hq. by replace q with p by lia. }
    split_and!; [|done..]. constructor; simpl.
    + by apply bm_ok_clear.
    + done.
    + intros q Hq. by rewrite Hbits, (inv_hole _ Hinv q) by span_lia.
    + rewrite (cnt_range st.(bitmap) _ _ p 1 true false).
      * rewrite <- (inv_count _ Hinv). pose proof (free_count_bounds _ Hinv) as Hfc.
        change MAX_PAGES with 1048576 in Hfc. rewrite u64_small by (unfold is_u64; lia). lia.
      * lia.
      * lia.
      * lia.
      * intros q Hq. replace q with p by lia. rewrite Hbits by done.
        by rewrite Hbp, Z.eqb_refl.
      * intros q Hq Hn. rewrite Hbits by span_lia.
        destruct (Z.eqb_spec q p); [lia|]. by rewrite andb_true_r.
    + apply (inv_base _ Hinv).
    + apply (inv_end _ Hinv).
  - split_and!; [done..|]. intros q Hq. destruct (Z.eqb_spec q p) as [->|]; simpl.
    + by rewrite Hbp.
    + by rewrite andb_true_r.
Qed.

(** Page [q] lies wholly inside the byte range [start, end). *)
Definition page_in (st : pstate) (start end_ q : Z) : bool :=
  (start <=? st.(heap_base) + q * ANX_PAGE_SIZE) &&
  (st.(heap_base) + q * ANX_PAGE_SIZE + ANX_PAGE_SIZE <=? end_).

Lemma align_up_bound x :
  0 ≤ x → x + 4095 ≤ MAX64 →
  x ≤ align_up x < x + 4096 ∧ align_up x mod 4096 = 0.
Proof.
  intros Hx Hm. rewrite align_up_down. unfold MAX64 in Hm.
  rewrite (u64_small (x + ANX_PAGE_SIZE - 1)) by (unfold is_u64, ANX_PAGE_SIZE; lia).
  destruct (align_down_mult (x + ANX_PAGE_SIZE - 1)) as (H1 & H2 & H3);
    [unfold is_u64, ANX_PAGE_SIZE; lia|]. unfold ANX_PAGE_SIZE in *. lia.
Qed.

Lemma page_in_clip st start end_ q :
  page_inv st → 0 ≤ start → start + 4095 ≤ MAX64 → is_u64 end_ →
  0 ≤ q < st.(total_pages) →
  page_in st start end_ q =
  match clip st start end_ with
  | None => false
  | Some (first, last) => (first <=? q) && (q <? last)
  end.
Proof.
  intros Hinv Hs Hm He Hq.
  destruct (align_up_bound start Hs Hm) as [Hu Hum].
  destruct (align_down_mult end_ He) as (Hd1 & Hd2 & Hdm).
  destruct (inv_base _ Hinv) as [Hb Hal]. apply aligned_land in Hal; [|done].
  pose proof (inv_end _ Hinv) as Hend. unfold ANX_PAGE_SIZE in Hend.
  pose proof (Z.div_mod (align_up start) 4096).
  pose proof (Z.div_mod (align_down end_) 4096).
  pose proof (Z.div_mod st.(heap_base) 4096).
  destruct (clip st start end_) as [[first last]|] eqn:Hclip.
  - apply clip_spec in Hclip as (Hc1 & Hc2 & Hc3 & Hc4);
      [|done|unfold is_u64, MAX64 in *; lia|done].
    unfold page_in, ANX_PAGE_SIZE.
    destruct (Z.leb_spec first q), (Z.ltb_spec q last); simpl; lia.
  - unfold clip in Hclip.
    rewrite (page_addr st (total_pages st) 0) in Hclip by (done || lia).
    unfold ANX_PAGE_SIZE in Hclip.
    destruct (Z.ltb_spec (align_up start) st.(heap_base)),
      (Z.ltb_spec (st.(heap_base) + st.(total_pages) * 4096) (align_down end_));
      match type of Hclip with context [?a <=? ?b] =>
        destruct (Z.leb_spec a b); [|done] end; unfold page_in, ANX_PAGE_SIZE; lia.
Qed.

(** A fold of single-page operations over a range, by induction on its
    length; [g] is what one step does to a page's bit. *)
Lemma fold_range (step : pstate → Z → pstate) (g : bool → bool → bool) :
  (∀ b, g b false = b) → (∀ b v w, g (g b v) w = g b (v || w)) →
  (∀ st p, page_inv st → 0 ≤ p < st.(total_pages) →
     page_inv (step st p) ∧ (step st p).(total_pages) = st.(total_pages) ∧
     (step st p).(heap_base) = st.(heap_base) ∧
     ∀ q, in_span q → bit_test (step st p).(bitmap) q
                      = g (bit_test st.(bitmap) q) (q =? p)) →
  ∀ st f n, page_inv st → 0 ≤ f → 0 ≤ n → f + n ≤ st.(total_pages) →
  let st' := foldl step st (seqZ f n) in
  page_inv st' ∧ st'.(total_pages) = st.(total_pages) ∧
  st'.(heap_base) = st.(heap_base) ∧
  ∀ q, in_span q → bit_test st'.(bitmap) q
       = g (bit_test st.(bitmap) q) ((f <=? q) && (q <? f + n)).
Proof.
  intros Hg0 Hg Hstep st f n Hinv Hf Hn. revert n Hn.
  apply (seqZ_ind (λ n, f + n ≤ st.(total_pages) → _)).
  - intros _. simpl. split_and!; [done..|]. intros q Hq.
    destruct (Z.leb_spec f q), (Z.ltb_spec q (f + 0)); simpl; try lia; by rewrite Hg0.
  - intros n Hn IH Hle. destruct IH as (IH1 & IH2 & IH3 & IH4); [lia|].
    rewrite seqZ_snoc, foldl_app by lia. simpl.
    destruct (Hstep _ (f + n) IH1) as (S1 & S2 & S3 & S4); [rewrite IH2; lia|].
    split_and!; [done|congruence..|]. intros q Hq. rewrite S4, IH4, Hg by done. f_equal.
    destruct (Z.leb_spec f q), (Z.ltb_spec q (f + n)), (Z.ltb_spec q (f + (n + 1))),
      (Z.eqb_spec q (f + n)); simpl; try done; lia.
Qed.

(** Adding RAM frees exactly the whole pages of the range inside the span,
    and keeps the invariant. *)
Lemma page_add_free_spec st start end_ :
  page_inv st → 0 ≤ start → start + 4095 ≤ MAX64 → is_u64 end_ →
  let st' := anx_page_add_free start end_ st in
  page_inv st' ∧ st'.(total_pages) = st.(total_pages) ∧
  st'.(heap_base) = st.(heap_base) ∧
  ∀ q, 0 ≤ q < st.(total_pages) →
    bit_test st'.(bitmap) q = (bit_test st.(bitmap) q || page_in st start end_ q)%bool.
Proof.
  intros Hinv Hs Hm He. cbv zeta. unfold anx_page_add_free.
  pose proof (inv_total _ Hinv) as Ht.
  destruct (clip st start end_) as [[first last]|] eqn:Hclip.
  - pose proof Hclip as (H1 & H2 & _ & _)%clip_spec; [|done|unfold is_u64, MAX64 in *; lia|done].
    destruct (fold_range add_free_step orb) with st first (last - first)
      as (F1 & F2 & F3 & F4); [by intros []|by intros [] [] []|apply add_free_step_spec|done|lia..|].
    split_and!; [done..|]. intros q Hq. rewrite F4 by span_lia.
    rewrite page_in_clip, Hclip by done. by replace (first + (last - first)) with last by lia.
  - split_and!; [done..|]. intros q Hq. rewrite page_in_clip, Hclip by done. by rewrite orb_false_r.
Qed.

(** Reserving takes exactly the whole pages of the range out of use. *)
Lemma page_reserve_spec st start end_ :
  page_inv st → 0 ≤ start → start + 4095 ≤ MAX64 → is_u64 end_ →
  let st' := anx_page_reserve start end_ st in
  page_inv st' ∧ st'.(total_pages) = st.(total_pages) ∧
  st'.(heap_base) = st.(heap_base) ∧
  ∀ q, 0 ≤ q < st.(total_pages) →
    bit_test st'.(bitmap) q = (bit_test st.(bitmap) q && negb (page_in st start end_ q))%bool.
Proof.
  intros Hinv Hs Hm He. cbv zeta. unfold anx_page_reserve.
  pose proof (inv_total _ Hinv) as Ht.
  destruct (clip st start end_) as [[first last]|] eqn:Hclip.
  - pose proof Hclip as (H1 & H2 & _ & _)%clip_spec; [|done|unfold is_u64, MAX64 in *; lia|done].
    destruct (fold_range reserve_step (λ b v, b && negb v)%bool) with st first (last - first)
      as (F1 & F2 & F3 & F4); [by intros []|by intros [] [] []|apply reserve_step_spec|done|lia..|].
    split_and!; [done..|]. intros q Hq. rewrite F4 by span_lia.
    rewrite page_in_clip, Hclip by done. by replace (first + (last - first)) with last by lia.
  - split_and!; [done..|]. intros q Hq. rewrite page_in_clip, Hclip by done. by rewrite andb_true_r.
Qed.

Lemma init_span_inv start end_ st :
  is_u64 start → is_u64 end_ →
  anx_page_init_span start end_ = Ret st →
  page_inv st ∧ st.(heap_base) = align_up start ∧ 0 < st.(total_pages) ∧
  st.(heap_base) + st.(total_pages) * 4096 ≤ align_down end_.
Proof.
  intros Hs He. unfold anx_page_init_span.
  destruct (align_down_mult end_ He) as (He1 & He2 & He3).
  destruct (align_down_mult (u64 (start + ANX_PAGE_SIZE - 1)) (u64_range _)) as (Hs1 & Hs2 & Hs3).
  rewrite <- align_up_down in *. pose proof (u64_range (start + ANX_PAGE_SIZE - 1)) as Hsr.
  unfold is_u64 in *. set (s := align_up start) in *. set (e := align_down end_) in *.
  destruct (Z.ltb_spec s e) as [Hlt|]; [|done]. intros [= <-].
  rewrite u64_small by (unfold is_u64; lia).
  rewrite Z.shiftr_div_pow2 by (unfold ANX_PAGE_SHIFT; lia). change (2 ^ ANX_PAGE_SHIFT) with 4096.
  pose proof (Z.div_mod (e - s) 4096). pose proof (Z.mod_pos_bound (e - s) 4096).
  pose proof (Z.div_mod e 4096). pose proof (Z.div_mod s 4096).
  set (t := if MAX_PAGES <? (e - s) / 4096 then MAX_PAGES else (e - s) / 4096).
  assert (Ht : 0 < t ≤ MAX_PAGES ∧ s + t * 4096 ≤ e).
  { unfold t, MAX_PAGES. destruct (Z.ltb_spec (2 ^ 20) ((e - s) / 4096)); lia. }
  split; [|simpl; lia]. constructor; simpl.
  - apply zero_bm_ok.
  - lia.
  - intros. apply bit_test_zero.
  - symmetry. apply (cnt_const _ 0 _ false). intros. apply bit_test_zero.
  - split; [lia|]. apply aligned_land; [lia|done].
  - unfold ANX_PAGE_SIZE, MAX64. lia.
Qed.

(** A fresh allocator over [start, end). *)
Lemma page_init_spec start end_ :
  0 ≤ start → start + 4095 ≤ MAX64 → is_u64 end_ →
  align_up start < align_down end_ →
  ∃ st, anx_page_init start end_ = Ret st ∧ page_inv st ∧
    st.(heap_base) = align_up start ∧ 0 < st.(total_pages) ∧
    all_free st 0 st.(total_pages) ∧ st.(free_count) = st.(total_pages).
Proof.
  intros Hs Hm He Hlt. unfold anx_page_init.
  destruct (anx_page_init_span start end_) as [st0| |] eqn:Hspan.
  2,3: unfold anx_page_init_span in Hspan;
    destruct (Z.ltb_spec (align_up start) (align_down end_)); [done|lia].
  apply init_span_inv in Hspan as (Hinv & Hb & Ht & Hend);
    [|unfold is_u64, MAX64 in *; lia|done]. simpl.
  destruct (page_add_free_spec st0 start end_ Hinv Hs Hm He) as (A1 & A2 & A3 & A4).
  destruct (align_up_bound start Hs Hm). destruct (align_down_mult end_ He).
  eexists. split; [done|]. rewrite A2, A3.
  assert (Hall : all_free (anx_page_add_free start end_ st0) 0 st0.(total_pages)).
  { intros q Hq. rewrite A4 by lia. apply orb_true_intro. right.
    unfold page_in, ANX_PAGE_SIZE. apply andb_true_iff.
    split; apply Z.leb_le; lia. }
  split_and!; [done..|]. rewrite (inv_count _ A1), A2.
  rewrite (cnt_const _ 0 _ true) by (intros; apply Hall; lia). lia.
Qed.

(** ** Properties *)

(** C10: [anx_page_alloc] is sound and complete.  Either
    it returns the address of a run of [2^order] pages that lie inside the
    span and were all free, clears exactly those bits, lowers the free count
    by their number and keeps the invariant; or it returns 0 with the state
    unchanged, and then no free run of that length exists anywhere in the
    span.  It never runs out of fuel, so both search loops terminate. *)
Theorem page_alloc_correct st order :
  page_inv st → 0 ≤ order < 64 →
  let count := Z.shiftl 1 order in
  (∃ f st', anx_page_alloc order st = Ret (st.(heap_base) + f * ANX_PAGE_SIZE, st') ∧
     0 ≤ f ∧ f + count ≤ st.(total_pages) ∧ all_free st f count ∧
     taken st st' f count ∧ page_inv st')
  ∨ (anx_page_alloc order st = Ret (0, st) ∧
     ∀ f, 0 ≤ f → f + count ≤ st.(total_pages) → ¬ all_free st f count).
Proof. apply page_alloc_spec. Qed.

(** initialising the allocator over [start, end) never
    trips its assertion when the range holds a whole page, establishes the
    invariant, aligns the base up, and leaves every page of the span free
    with the counters agreeing; reserving a sub-range afterwards takes
    exactly its whole pages out of use and keeps the invariant. *)
Theorem page_init_correct start end_ lo hi :
  0 ≤ start → start + 4095 ≤ MAX64 → is_u64 end_ →
  align_up start < align_down end_ →
  0 ≤ lo → lo + 4095 ≤ MAX64 → is_u64 hi →
  ∃ st, anx_page_init start end_ = Ret st ∧ page_inv st ∧
    st.(heap_base) = align_up start ∧ 0 < st.(total_pages) ∧
    all_free st 0 st.(total_pages) ∧ st.(free_count) = st.(total_pages) ∧
    let st' := anx_page_reserve lo hi st in
    page_inv st' ∧
    ∀ q, 0 ≤ q < st.(total_pages) →
      bit_test st'.(bitmap) q = negb (page_in st lo hi q).
Proof.
  intros Hs Hm He Hlt Hlo Hlm Hhi.
  destruct (page_init_spec start end_ Hs Hm He Hlt) as (st & Hi & Hinv & Hb & Ht & Hall & Hf).
  destruct (page_reserve_spec st lo hi Hinv Hlo Hlm Hhi) as (Hinv' & _ & _ & Hbits).
  exists st. do 6 (split; [done|]). split; [done|]. intros q Hq.
  rewrite Hbits by done. by rewrite (Hall q) by lia.
Qed.

(** ** Witnesses: an allocator over 100 pages based at 4096 *)

Definition demo : pstate :=
  match anx_page_init 4096 413696 with Ret st => st | _ => PState [] 0 0 0 0 end.

Lemma demo_ok : page_inv demo ∧ demo.(heap_base) = 4096 ∧ demo.(total_pages) = 100 ∧
  all_free demo 0 100.
Proof.
  assert (Hu : is_u64 413696) by (split; vm_compute; done).
  assert (Hlt : align_up 4096 < align_down 413696) by (vm_compute; done).
  destruct (page_init_spec 4096 413696 ltac:(lia) ltac:(vm_compute; done) Hu Hlt)
    as (st & Hi & Hinv & Hb & Ht & Hall & Hf).
  assert (demo = st) as -> by (unfold demo; by rewrite Hi).
  assert (Ht' : st.(total_pages) = 100).
  { assert (Hv : match anx_page_init 4096 413696 with
                 | Ret s => s.(total_pages) = 100 | _ => False end) by (vm_compute; done).
    by rewrite Hi in Hv. }
  rewrite Ht' in Hall. split_and!; [done| |done..]. rewrite Hb. vm_compute. done.
Qed.

Lemma page_alloc_correct_witness :
  (∃ f st', anx_page_alloc 2 demo = Ret (demo.(heap_base) + f * ANX_PAGE_SIZE, st') ∧
     0 ≤ f ∧ f + 4 ≤ demo.(total_pages) ∧ all_free demo f 4 ∧
     taken demo st' f 4 ∧ page_inv st')
  ∨ (anx_page_alloc 2 demo = Ret (0, demo) ∧
     ∀ f, 0 ≤ f → f + 4 ≤ demo.(total_pages) → ¬ all_free demo f 4).
Proof. apply (page_alloc_correct demo 2); [apply demo_ok|lia]. Defined.

Lemma page_free_alloc_witness :
  match anx_page_alloc 3 demo with
  | Ret (a, st') => a = 4096 ∧ anx_page_free a 3 st' = Ret demo
  | _ => False
  end.
Proof.
  destruct (anx_page_alloc 3 demo) as [[a st']| |] eqn:E;
    [|exfalso; revert E; vm_compute; done..].
  assert (a = 4096) as ->.
  { assert (Hv : match anx_page_alloc 3 demo with
                 | Ret (a, _) => a = 4096 | _ => False end) by (vm_compute; done).
    by rewrite E in Hv. }
  split; [done|].
  apply (page_free_alloc demo 3 4096 st'); [apply demo_ok|lia| |done|lia].
  destruct demo_ok as (_ & -> & _). lia.
Defined.

Lemma page_double_free_witness :
  anx_page_free (demo.(heap_base) + 8 * ANX_PAGE_SIZE) 2 demo = Panic.
Proof.
  apply (page_double_free demo 8 2 10); [apply demo_ok|lia..| | |].
  - destruct demo_ok as (_ & _ & -> & _). vm_compute. done.
  - vm_compute. split; done.
  - destruct demo_ok as (_ & _ & _ & Hall). apply Hall. lia.
Defined.

Lemma page_init_correct_witness :
  ∃ st, anx_page_init 4096 413696 = Ret st ∧ page_inv st ∧
    st.(heap_base) = align_up 4096 ∧ 0 < st.(total_pages) ∧
    all_free st 0 st.(total_pages) ∧ st.(free_count) = st.(total_pages) ∧
    let st' := anx_page_reserve 8192 16384 st in
    page_inv st' ∧
    ∀ q, 0 ≤ q < st.(total_pages) →
      bit_test st'.(bitmap) q = negb (page_in st 8192 16384 q).
Proof.
  apply (page_init_correct 4096 413696 8192 16384);
    try (split; vm_compute; done); vm_compute; done.
Defined.

End Page.
