(* ===== verification/Heap.v ===== *)
(** * Kernel heap, pools and arenas: [kernel/lib/alloc.c]

    Memory is a finite map from 8-byte aligned addresses to 64-bit words (an
    address that was never written reads as 0), so that a block's header and the
    [next] pointer of its free-list node are the same word, as in the C code.  The
    page allocator is an interface: operations and the laws the heap relies on,
    with the allocator of [PageAlloc.v] as the instance. *)

From S2P Require Import Prelude PageAlloc.

(** ** The page allocator as the heap sees it *)

Class PageProvider (P : Type) := {
  palloc : Z → P → outcome (Z * P);
  pfree : Z → Z → P → outcome P;
}.

(** [owned p g] says that page number [g] (an address divided by the page size)
    has been handed out. *)
Class PageLaws (P : Type) {PP : PageProvider P} := {
  page_ok : P → Prop;
  owned : P → Z → Prop;
  palloc_law p order : page_ok p → 0 ≤ order < 32 →
    (∃ g p', palloc order p = Ret (g * 4096, p') ∧ page_ok p' ∧ 0 < g ∧ g * 4096 + 2 ^ order * 4096 < 2 ^ 64 ∧
       (∀ q, g ≤ q < g + 2 ^ order → ¬ owned p q) ∧
       (∀ q, owned p' q ↔ owned p q ∨ g ≤ q < g + 2 ^ order))
    ∨ palloc order p = Ret (0, p);
  pfree_law p g order : page_ok p → 0 ≤ order < 32 →
    (∀ q, g ≤ q < g + 2 ^ order → owned p q) →
    ∃ p', pfree (g * 4096) order p = Ret p' ∧ page_ok p' ∧
      ∀ q, owned p' q ↔ owned p q ∧ ¬ g ≤ q < g + 2 ^ order;
}.

Module Heap.

Definition ALLOC_MAGIC : Z := 0xA11C0000.
Definition MIN_CLASS : Z := 5.
Definition MAX_CLASS : Z := 12.
Definition NUM_CLASSES : Z := MAX_CLASS - MIN_CLASS + 1.
Definition HEADER_SIZE : Z := 8.
Definition PAGE_SIZE : Z := 4096.
Definition PAGE_SHIFT : Z := 12.

Section heap.
Context {P : Type} {PP : PageProvider P}.

Record heap_state := HeapState {
  pages : P;
  mem : gmap Z Z;
  freelists : list Z;
}.

#[export] Instance eta_heap_state : Settable heap_state := λ r,
  HeapState (pages r) (mem r) (freelists r).

(** A 64-bit load and store. *)
Definition ldw (m : gmap Z Z) (a : Z) : Z := default 0 (m !! a).
Definition store (a v : Z) (h : heap_state) : heap_state := h <| mem ::= <[a := v]> |>.

(** [struct alloc_header]: magic in the low half of the word, class in the high half. *)
Definition header (class : Z) : Z := ALLOC_MAGIC + class * 2 ^ 32.

Fixpoint class_loop (fuel : nat) (cls size : Z) : Z :=
  match fuel with
  | O => cls
  | S fuel => if (cls <? MAX_CLASS) && (Z.shiftl 1 cls <? size) then class_loop fuel (cls + 1) size else cls
  end.

Definition size_to_class (size : Z) : Z :=
  let size := u64 (size + HEADER_SIZE) in
  class_loop (Z.to_nat NUM_CLASSES) MIN_CLASS size.

(** [node->next = freelists[idx]; freelists[idx] = node]. *)
Definition push_node (idx node : Z) (h : heap_state) : heap_state :=
  let h := store node (rd 0 (freelists h) idx) h in
  h <| freelists ::= λ fl, wr fl idx node |>.

Definition slab_refill (cls : Z) (h : heap_state) : outcome heap_state :=
  let obj_size := Z.shiftl 1 cls in
  let! r := palloc 0 (pages h) in
  let '(page, ps) := r in
  let h := h <| pages := ps |> in
  when page =? 0 ret Ret h ;;
  let count := PAGE_SIZE / obj_size in
  Ret (foldl (λ h i, push_node (cls - MIN_CLASS) (page + i * obj_size) h) h (seqZ 0 count)).

(** [while ((1U << order) < pages) order++]; a shift by 32 is undefined in C. *)
Fixpoint order_loop (fuel : nat) (order pages : Z) : outcome Z :=
  match fuel with
  | O => OutOfFuel
  | S fuel => if Z.shiftl 1 order <? pages then order_loop fuel (order + 1) pages else Ret order
  end.

Definition order_for (pages : Z) : outcome Z := order_loop 32 0 pages.

Definition anx_alloc (size : Z) (h : heap_state) : outcome (Z * heap_state) :=
  when size =? 0 ret Ret (0, h) ;;
  if u64 (size + HEADER_SIZE) >? PAGE_SIZE then
    let pages_needed := u32 (Z.shiftr (u64 (size + HEADER_SIZE + PAGE_SIZE - 1)) PAGE_SHIFT) in
    let! order := order_for pages_needed in
    let! r := palloc order (pages h) in
    let '(addr, ps) := r in
    let h := h <| pages := ps |> in
    when addr =? 0 ret Ret (0, h) ;;
    Ret (addr + HEADER_SIZE, store addr (header (u32 (MAX_CLASS + order + 1))) h)
  else
    let cls := size_to_class size in
    let idx := cls - MIN_CLASS in
    let! h := if rd 0 (freelists h) idx =? 0 then slab_refill cls h else Ret h in
    let node := rd 0 (freelists h) idx in
    when node =? 0 ret Ret (0, h) ;;
    let h := h <| freelists ::= λ fl, wr fl idx (ldw (mem h) node) |> in
    Ret (node + HEADER_SIZE, store node (header cls) h).

(** [anx_memset(ptr, 0, size)] on an aligned pointer: whole words, then the low
    bytes of the last one. *)
Definition clear_low (w bytes : Z) : Z := Z.land w (not64 (Z.ones (8 * bytes))).
Definition memset0 (ptr size : Z) (m : gmap Z Z) : gmap Z Z :=
  let m := foldl (λ m i, <[ptr + 8 * i := 0]> m) m (seqZ 0 (size / 8)) in
  if size mod 8 =? 0 then m
  else let a := ptr + 8 * (size / 8) in <[a := clear_low (ldw m a) (size mod 8)]> m.

Definition anx_zalloc (size : Z) (h : heap_state) : outcome (Z * heap_state) :=
  let! r := anx_alloc size h in
  let '(ptr, h) := r in
  Ret (ptr, if negb (ptr =? 0) then h <| mem ::= memset0 ptr size |> else h).

(** The index of a corrupt class below [MIN_CLASS] is past the end of the array:
    undefined in C, no result here. *)
Definition anx_free (ptr : Z) (h : heap_state) : outcome heap_state :=
  when ptr =? 0 ret Ret h ;;
  let hdr := ptr - HEADER_SIZE in
  let magic := ldw (mem h) hdr mod 2 ^ 32 in
  assert! (Z.land magic 0xFFFF0000 =? ALLOC_MAGIC) ;;
  let cls := ldw (mem h) hdr / 2 ^ 32 in
  if cls >? MAX_CLASS then
    let order := cls - MAX_CLASS - 1 in
    let! ps := pfree hdr order (pages h) in
    Ret (h <| pages := ps |>)
  else
    let idx := u32 (cls - MIN_CLASS) in
    assert! (idx <? NUM_CLASSES) ;;
    Ret (push_node idx hdr h).

(** The state of the file-scope variables before the first call. *)
Definition heap_boot (p : P) (m : gmap Z Z) : heap_state := HeapState p m (replicate 8 0).
End heap.
Arguments heap_state : clear implicits.
#[export] Existing Instance eta_heap_state.

(** ** The heap's invariant

    [B] records every block ever carved out and not returned to the page
    allocator: its address, its class and whether a client holds it. *)

Section proofs.
Context {P : Type} {PP : PageProvider P} {PL : PageLaws P}.
Implicit Types (h : heap_state P) (B : gmap Z (Z * bool)) (R : gset Z) (a c : Z).

Definition bsize (c : Z) : Z := if c <=? 12 then 2 ^ c else 2 ^ (c - 13) * 4096.

Fixpoint chain (m : gmap Z Z) (p : Z) (L : list Z) : Prop :=
  match L with
  | [] => p = 0
  | a :: L => p = a ∧ a ≠ 0 ∧ chain m (ldw m a) L
  end.

Record block_wf (ps : P) (R : gset Z) (a c : Z) (live : bool) : Prop := {
  bw_class : 5 ≤ c < 45;
  bw_pos : 0 < a;
  bw_align : a mod 8 = 0;
  bw_end : a + bsize c ≤ 2 ^ 64;
  bw_large : 12 < c → live = true ∧ a mod 4096 = 0;
  bw_owned : ∀ x, a ≤ x < a + bsize c → owned ps (x / 4096) ∧ x / 4096 ∉ R;
}.

(** Two regions of memory share no byte. *)
Definition apart (a n a' n' : Z) : Prop := a + n ≤ a' ∨ a' + n' ≤ a.

Record heap_inv (h : heap_state P) (R : gset Z) (B : gmap Z (Z * bool)) : Prop := {
  hi_pages : page_ok (pages h);
  hi_raw : ∀ q, q ∈ R → owned (pages h) q;
  hi_len : length (freelists h) = 8%nat;
  hi_block : ∀ a c l, B !! a = Some (c, l) → block_wf (pages h) R a c l;
  hi_apart : ∀ a c l a' c' l', B !! a = Some (c, l) → B !! a' = Some (c', l') → a ≠ a' →
    apart a (bsize c) a' (bsize c');
  hi_free : ∀ c, 5 ≤ c ≤ 12 → ∃ L, chain (mem h) (rd 0 (freelists h) (c - 5)) L ∧ NoDup L ∧
    ∀ a, a ∈ L ↔ B !! a = Some (c, false);
  hi_head : ∀ a c, B !! a = Some (c, true) → ldw (mem h) a = header c;
}.

Lemma bsize_pos c : 5 ≤ c → 32 ≤ bsize c.
Proof.
  intros H. unfold bsize. destruct (Z.leb_spec c 12).
  - change 32 with (2 ^ 5). apply Z.pow_le_mono_r; lia.
  - assert (0 < 2 ^ (c - 13)) by (apply Z.pow_pos_nonneg; lia). lia.
Qed.

Lemma ldw_insert_ne m a v x : x ≠ a → ldw (<[a := v]> m) x = ldw m x.
Proof. intros H. unfold ldw. by rewrite lookup_insert_ne by done. Qed.

Lemma ldw_insert_eq m a v : ldw (<[a := v]> m) a = v.
Proof. unfold ldw. by rewrite lookup_insert_eq. Qed.

(** A chain only depends on the words of its nodes. *)
Lemma chain_frame m m' p L : (∀ x, x ∈ L → ldw m' x = ldw m x) → chain m p L → chain m' p L.
Proof.
  revert p. induction L as [|a L IH]; intros p Hm; [done|]. cbn. intros (-> & Ha & Hc).
  split_and!; [done|done|]. rewrite Hm by apply list_elem_of_here. apply IH; [|done]. intros x Hx. apply Hm. by right.
Qed.

Lemma block_wf_mono {R} ps ps' a c l : (∀ q, owned ps q → owned ps' q) → block_wf ps R a c l → block_wf ps' R a c l.
Proof. intros Ho [? ? ? ? ? Hown]. constructor; auto. intros x Hx. destruct (Hown x Hx). auto. Qed.

(** Only the page allocator changes, and keeps what is owned. *)
Lemma inv_pages {R} h B ps : heap_inv h R B → page_ok ps → (∀ q, owned (pages h) q → owned ps q) →
  heap_inv (h <| pages := ps |>) R B.
Proof.
  intros [] Hok Ho. constructor; [exact Hok|by auto|done|..|done|done]; [|done].
  intros a c l Hb. eapply block_wf_mono; eauto.
Qed.

(** A block leaves the books. *)
Lemma inv_delete {R} h B a c : heap_inv h R B → B !! a = Some (c, true) → heap_inv h R (delete a B).
Proof.
  intros [Hp HR Hl Hb Hd Hf Hh] Ha. constructor; [done|done|done|..].
  - intros x d l Hx. apply lookup_delete_Some in Hx as [_ Hx]. eauto.
  - intros x d l x' d' l' Hx Hx'. apply lookup_delete_Some in Hx as [_ Hx], Hx' as [_ Hx']. eauto.
  - intros d Hd'. destruct (Hf d Hd') as (L & Hc & Hnd & HL). exists L. split_and!; [done|done|]. intros x.
    rewrite HL, lookup_delete_Some. split; [|naive_solver]. intros Hx. split; [|done]. intros ->. congruence.
  - intros x d Hx. apply lookup_delete_Some in Hx as [_ Hx]. eauto.
Qed.

(** Words that are not a header or a node may change. *)
Lemma inv_mem {R} h B m : heap_inv h R B → (∀ a x, B !! a = Some x → ldw m a = ldw (mem h) a) →
  heap_inv (h <| mem := m |>) R B.
Proof.
  intros [Hp HR Hl Hb Hd Hf Hh] Hm. constructor; [done..| |].
  - intros c Hc. destruct (Hf c Hc) as (L & Hch & Hnd & HL). exists L. split_and!; [|done|done].
    eapply chain_frame; [|exact Hch]. intros x Hx. by eapply Hm, HL.
  - intros a c Ha. cbn. rewrite (Hm _ _ Ha). by apply Hh.
Qed.

Lemma head_push h c d a : length (freelists h) = 8%nat → 5 ≤ c ≤ 12 → 5 ≤ d ≤ 12 →
  rd 0 (wr (freelists h) (c - 5) a) (d - 5) = if decide (d = c) then a else rd 0 (freelists h) (d - 5).
Proof.
  intros Hl Hc Hd. case_decide as E; [subst; apply rd_wr_eq; lia|apply rd_wr_ne; lia].
Qed.

Lemma inv_push {R} h B a c :
  heap_inv h R B → B !! a = None → 5 ≤ c ≤ 12 → block_wf (pages h) R a c false →
  (∀ x d l, B !! x = Some (d, l) → apart a (bsize c) x (bsize d)) →
  heap_inv (push_node (c - 5) a h) R (<[a := (c, false)]> B).
Proof.
  intros [Hp HR Hl Hb Hd Hf Hh] Ha Hc Hwf Hap.
  change (push_node (c - 5) a h) with
    (HeapState (pages h) (<[a := rd 0 (freelists h) (c - 5)]> (mem h)) (wr (freelists h) (c - 5) a)).
  constructor; cbn [pages mem freelists].
  - done.
  - done.
  - by rewrite wr_length.
  - intros x d l. rewrite lookup_insert_Some. intros [[<- [= <- <-]]|[_ Hx]]; eauto.
  - intros x d l x' d' l'. rewrite !lookup_insert_Some.
    intros [[<- [= <- <-]]|[_ Hx]] [[<- [= <- <-]]|[_ Hx']] Hne; eauto; [done|].
    destruct (Hap _ _ _ Hx); [by right|by left].
  - intros d Hd'. rewrite head_push by done. destruct (Hf d Hd') as (L & Hch & Hnd & HL).
    assert (a ∉ L) as HaL by (rewrite HL; congruence).
    assert (chain (<[a := rd 0 (freelists h) (c - 5)]> (mem h)) (rd 0 (freelists h) (d - 5)) L) as Hch'.
    { eapply chain_frame; [|exact Hch]. intros x Hx. rewrite ldw_insert_ne; [done|]. by intros ->. }
    case_decide as E.
    + subst d. exists (a :: L). split_and!; [|by constructor|].
      * cbn. rewrite ldw_insert_eq. split_and!; [done|apply bw_pos in Hwf; lia|done].
      * intros x. rewrite elem_of_cons, HL, lookup_insert_Some.
        destruct (decide (x = a)) as [->|]; naive_solver.
    + exists L. split_and!; [done|done|]. intros x. rewrite HL, lookup_insert_Some.
      destruct (decide (x = a)) as [->|]; naive_solver.
  - intros x d. rewrite lookup_insert_Some. intros [[_ [=]]|[Hne Hx]]. rewrite ldw_insert_ne by done. eauto.
Qed.

Lemma inv_pop {R} h B c node :
  heap_inv h R B → 5 ≤ c ≤ 12 → rd 0 (freelists h) (c - 5) = node → node ≠ 0 →
  B !! node = Some (c, false) ∧
  heap_inv (store node (header c) (h <| freelists ::= λ fl, wr fl (c - 5) (ldw (mem h) node) |>))
    R (<[node := (c, true)]> B).
Proof.
  intros [Hp HR Hl Hb Hd Hf Hh] Hc Hn Hn0.
  assert (B !! node = Some (c, false)) as Hnode.
  { destruct (Hf c Hc) as (L & Hch & _ & HL). destruct L as [|x L]; cbn in Hch; [congruence|].
    apply HL. destruct Hch as (Hx & _). assert (node = x) as -> by congruence. apply list_elem_of_here. }
  split; [done|].
  change (store _ _ _) with
    (HeapState (pages h) (<[node := header c]> (mem h)) (wr (freelists h) (c - 5) (ldw (mem h) node))).
  constructor; cbn [pages mem freelists].
  - done.
  - done.
  - by rewrite wr_length.
  - intros x d l. rewrite lookup_insert_Some. intros [[<- [= <- <-]]|[_ Hx]]; [|eauto].
    destruct (Hb _ _ _ Hnode). constructor; [done..| |done]. lia.
  - intros x d l x' d' l'. rewrite !lookup_insert_Some.
    intros [[<- [= <- <-]]|[_ Hx]] [[<- [= <- <-]]|[_ Hx']] Hne; eauto; done.
  - intros d Hd'. rewrite head_push by done. destruct (Hf d Hd') as (L & Hch & Hnd & HL). case_decide as E.
    + subst d. destruct L as [|y L]; cbn in Hch; [congruence|]. destruct Hch as (Hy & _ & Hch).
      apply NoDup_cons in Hnd as [Hy' Hnd]. assert (y = node) as -> by congruence.
      exists L. split_and!; [|done|].
      * eapply chain_frame; [|exact Hch]. intros x Hx. rewrite ldw_insert_ne; [done|]. by intros ->.
      * intros x. specialize (HL x). rewrite elem_of_cons in HL. rewrite lookup_insert_Some.
        destruct (decide (x = node)) as [->|]; naive_solver.
    + exists L. split_and!; [|done|].
      * eapply chain_frame; [|exact Hch]. intros x Hx. rewrite ldw_insert_ne; [done|].
        intros ->. apply HL in Hx. congruence.
      * intros x. rewrite HL, lookup_insert_Some. destruct (decide (x = node)) as [->|]; naive_solver.
  - intros x d. rewrite lookup_insert_Some. intros [[<- [= <-]]|[Hne Hx]]; [by rewrite ldw_insert_eq|].
    rewrite ldw_insert_ne by done. eauto.
Qed.

(** A region on pages that are not handed out overlaps no block. *)
Lemma unowned_apart {R} ps a n x d l :
  block_wf ps R x d l → 0 < n → (∀ y, a ≤ y < a + n → ¬ owned ps (y / 4096)) → apart a n x (bsize d).
Proof.
  intros Hwf Hn Hno. unfold apart. destruct (Z.le_gt_cases (a + n) x); [by left|].
  destruct (Z.le_gt_cases (x + bsize d) a); [by right|]. exfalso.
  pose proof (bsize_pos d ltac:(destruct Hwf; lia)).
  apply (Hno (Z.max a x)); [lia|]. apply (bw_owned _ _ _ _ _ Hwf). lia.
Qed.

(** Blocks held by clients are the same before and after. *)
Definition same_live B B' : Prop := ∀ a c, B' !! a = Some (c, true) ↔ B !! a = Some (c, true).

(** Nothing inside a block that a client holds was written. *)
Definition kept B h h' : Prop :=
  ∀ a c x, B !! a = Some (c, true) → a ≤ x < a + bsize c → mem h' !! x = mem h !! x.

Lemma kept_store B h a v :
  (∀ x d, B !! x = Some (d, true) → a < x ∨ x + bsize d ≤ a) → kept B h (store a v h).
Proof. intros H x d y Hx Hy. cbn. rewrite lookup_insert_ne; [done|]. destruct (H x d Hx); lia. Qed.

Lemma page_offset g i n : 0 ≤ i → 0 ≤ n → i + n ≤ 4096 →
  ∀ y, g * 4096 + i ≤ y < g * 4096 + i + n → y / 4096 = g.
Proof. intros. Z.to_euclidean_division_equations; nia. Qed.

Lemma class_divides c : 5 ≤ c ≤ 12 → Z.shiftl 1 c = 2 ^ c ∧ bsize c = 2 ^ c ∧ 0 < 4096 / 2 ^ c ∧
  4096 / 2 ^ c * 2 ^ c = 4096 ∧ 2 ^ c mod 8 = 0.
Proof.
  intros Hc. assert (c = 5 ∨ c = 6 ∨ c = 7 ∨ c = 8 ∨ c = 9 ∨ c = 10 ∨ c = 11 ∨ c = 12) as H by lia.
  destruct_or! H; subst c; by vm_compute.
Qed.

(** The carving loop, after [n] objects. *)
Lemma refill_loop {R} h B c g n :
  heap_inv h R B → 5 ≤ c ≤ 12 → 0 < g → g * 4096 + 4096 ≤ 2 ^ 64 → owned (pages h) g → g ∉ R →
  (∀ a d l, B !! a = Some (d, l) → apart (g * 4096) 4096 a (bsize d)) →
  0 ≤ n → n ≤ 4096 / 2 ^ c →
  ∃ B', let h' := foldl (λ h i, push_node (c - MIN_CLASS) (g * 4096 + i * Z.shiftl 1 c) h) h (seqZ 0 n) in
    heap_inv h' R B' ∧ pages h' = pages h ∧ same_live B B' ∧ kept B h h' ∧
    (∀ a x, B' !! a = Some x → B !! a = Some x ∨ x = (c, false) ∧ g * 4096 ≤ a ∧ a + 2 ^ c ≤ g * 4096 + n * 2 ^ c) ∧
    (0 < n → rd 0 (freelists h') (c - 5) ≠ 0).
Proof.
  intros Hinv Hc Hg Hend Hown HgR Hap Hn. destruct (class_divides c Hc) as (Hsh & Hbs & _ & Hmul & H8).
  assert (0 < 2 ^ c) as Hpos by (apply Z.pow_pos_nonneg; lia).
  revert n Hn. apply (natlike_ind (λ n, n ≤ 4096 / 2 ^ c → _)).
  { intros _. exists B. cbn. split_and!; [done|done|done|done|auto|lia]. }
  intros n Hn IH Hle. destruct IH as (B' & Hinv' & Hps & Hlive & Hkept & HB & _); [lia|].
  unfold Z.succ. rewrite seqZ_snoc, foldl_app by lia. cbn [foldl]. rewrite Z.add_0_l.
  set (h' := foldl _ h _) in *. rewrite Hsh in *. set (a := g * 4096 + n * 2 ^ c).
  assert (a + 2 ^ c ≤ g * 4096 + 4096) as Ha by (unfold a; nia).
  assert (∀ x d l, B' !! x = Some (d, l) → apart a (bsize c) x (bsize d)) as Hap'.
  { intros x d l Hx. rewrite Hbs. destruct (HB x _ Hx) as [Hx'|([= -> ->] & ? & ?)].
    - destruct (Hap x d l Hx'); unfold apart, a in *; [left|right]; nia.
    - right. rewrite Hbs. unfold a. lia. }
  assert (B' !! a = None) as Hnone.
  { destruct (B' !! a) as [[d l]|] eqn:E; [|done]. pose proof (hi_block _ _ _ Hinv' _ _ _ E) as Hwf.
    pose proof (bsize_pos d ltac:(destruct Hwf; lia)). pose proof (bsize_pos c ltac:(lia)).
    destruct (Hap' _ _ _ E); lia. }
  exists (<[a := (c, false)]> B'). split_and!.
  - apply inv_push; [done|done|done| |done]. constructor; [lia|unfold a; nia| |rewrite Hbs; lia|lia|].
    + unfold a. replace (g * 4096) with (g * 512 * 8) by lia. rewrite Z.add_comm, Z.mod_add by lia.
      rewrite Z.mul_mod, H8, Z.mul_0_r by lia. done.
    + rewrite Hbs, Hps. intros y Hy. rewrite (page_offset g (n * 2 ^ c) (2 ^ c)); [done|nia|lia|unfold a in *; nia|unfold a in *; lia].
  - done.
  - intros x d. rewrite lookup_insert_Some, <- (Hlive x d). split; [naive_solver|].
    intros Hx. right. split; [|done]. intros ->. congruence.
  - intros x d y Hx Hy. rewrite <- (Hkept x d y Hx Hy). cbn. apply lookup_insert_ne.
    apply Hlive in Hx. destruct (Hap' _ _ _ Hx); rewrite ?Hbs in *; lia.
  - intros x y. rewrite lookup_insert_Some. intros [[<- <-]|[_ Hx]].
    + right. split_and!; [done|unfold a; nia|unfold a; lia].
    + destruct (HB _ _ Hx) as [?|(-> & ? & ?)]; [by left|right]. split_and!; [done|done|nia].
  - intros _. change (freelists (push_node _ a h')) with (wr (freelists h') (c - 5) a).
    rewrite rd_wr_eq; [unfold a; nia|]. rewrite (hi_len _ _ _ Hinv'). lia.
Qed.

(** ** Sizes *)

Lemma class_loop_spec fuel cls size :
  5 ≤ cls ≤ 12 → 12 - cls < Z.of_nat fuel → size ≤ 4096 → (cls = 5 ∨ 2 ^ (cls - 1) < size) →
  let r := class_loop fuel cls size in
  5 ≤ r ≤ 12 ∧ size ≤ 2 ^ r ∧ (r = 5 ∨ 2 ^ (r - 1) < size).
Proof.
  revert cls. induction fuel as [|fuel IH]; intros cls Hc Hf Hs Hmin; [lia|]. cbn [class_loop].
  unfold MAX_CLASS. rewrite Z.shiftl_1_l.
  destruct (Z.ltb_spec cls 12), (Z.ltb_spec (2 ^ cls) size); cbn [andb].
  - apply IH; [lia..|]. right. by replace (cls + 1 - 1) with cls by lia.
  - done.
  - split_and!; [lia..| |done]. assert (cls = 12) as -> by lia. done.
  - done.
Qed.

Lemma size_to_class_spec size : 0 < size → size + 8 ≤ 4096 →
  5 ≤ size_to_class size ≤ 12 ∧ size + 8 ≤ 2 ^ size_to_class size ∧
  (size_to_class size = 5 ∨ 2 ^ (size_to_class size - 1) < size + 8).
Proof.
  intros H0 H. unfold size_to_class, HEADER_SIZE. rewrite u64_small by (unfold is_u64; lia).
  apply class_loop_spec; (lia || done || by left).
Qed.

Lemma order_loop_spec fuel o n :
  0 ≤ o → 32 - o ≤ Z.of_nat fuel → o < 32 → n ≤ 2 ^ 31 → (o = 0 ∨ 2 ^ (o - 1) < n) →
  ∃ r, order_loop fuel o n = Ret r ∧ 0 ≤ r < 32 ∧ n ≤ 2 ^ r ∧ (r = 0 ∨ 2 ^ (r - 1) < n).
Proof.
  revert o. induction fuel as [|fuel IH]; intros o Ho Hf H32 Hn Hmin; [lia|]. cbn [order_loop]. rewrite Z.shiftl_1_l.
  destruct (Z.ltb_spec (2 ^ o) n).
  - assert (o < 31) by (apply (Z.pow_lt_mono_r_iff 2); lia).
    apply IH; [lia..|]. right. by replace (o + 1 - 1) with o by lia.
  - exists o. split_and!; auto.
Qed.

Lemma order_for_spec n : n ≤ 2 ^ 31 →
  ∃ r, order_for n = Ret r ∧ 0 ≤ r < 32 ∧ n ≤ 2 ^ r ∧ (r = 0 ∨ 2 ^ (r - 1) < n).
Proof. intros H. apply order_loop_spec; (lia || done || by left). Qed.

(** Requests whose page count fits its 32-bit variable. *)
Definition MAX_REQUEST : Z := 2 ^ 43 - 4096.

Lemma pages_needed_spec size : 0 ≤ size ≤ MAX_REQUEST →
  let n := u32 (Z.shiftr (u64 (size + HEADER_SIZE + PAGE_SIZE - 1)) PAGE_SHIFT) in
  n ≤ 2 ^ 31 ∧ size + 8 ≤ n * 4096 < size + 8 + 4096.
Proof.
  unfold MAX_REQUEST, HEADER_SIZE, PAGE_SIZE, PAGE_SHIFT. intros H. cbv zeta.
  rewrite (u64_small (size + 8 + 4096 - 1)), Z.shiftr_div_pow2 by (unfold is_u64; lia). change (2 ^ 12) with 4096.
  rewrite u32_small; unfold is_u32; Z.to_euclidean_division_equations; lia.
Qed.

(** ** Allocation *)

(** What a successful request gives: block [a] of class [c], not held before. *)
Definition granted B B' a c : Prop :=
  (∀ d, B !! a ≠ Some (d, true)) ∧
  ∀ x d, B' !! x = Some (d, true) ↔ x = a ∧ d = c ∨ x ≠ a ∧ B !! x = Some (d, true).

Lemma alloc_large {R} h B order :
  heap_inv h R B → 0 ≤ order < 32 →
  (∃ g ps, palloc order (pages h) = Ret (g * 4096, ps) ∧ 0 < g ∧
    let h' := store (g * 4096) (header (13 + order)) (h <| pages := ps |>) in
    ∃ B', heap_inv h' R B' ∧ granted B B' (g * 4096) (13 + order) ∧ kept B h h') ∨
  palloc order (pages h) = Ret (0, pages h).
Proof.
  intros Hinv Ho. destruct (palloc_law (pages h) order (hi_pages _ _ _ Hinv) Ho)
    as [(g & ps & E & Hok & Hg & Hend & Hfree & Hown)|E]; [left|by right].
  exists g, ps. split_and!; [done|done|]. cbv zeta.
  assert (bsize (13 + order) = 2 ^ order * 4096) as Hbs.
  { unfold bsize. destruct (Z.leb_spec (13 + order) 12); [lia|]. do 2 f_equal. lia. }
  assert (0 < 2 ^ order) by (apply Z.pow_pos_nonneg; lia).
  assert (∀ x d l, B !! x = Some (d, l) → apart (g * 4096) (2 ^ order * 4096) x (bsize d)) as Hap.
  { intros x d l Hx. eapply unowned_apart; [by eapply hi_block|lia|]. intros y Hy. apply Hfree.
    Z.to_euclidean_division_equations; nia. }
  assert (B !! (g * 4096) = None) as Hnone.
  { destruct (B !! (g * 4096)) as [[d l]|] eqn:Eb; [|done]. pose proof (hi_block _ _ _ Hinv _ _ _ Eb) as Hwf.
    pose proof (bsize_pos d ltac:(destruct Hwf; lia)). destruct (Hap _ _ _ Eb); lia. }
  assert (heap_inv (h <| pages := ps |>) R B) as [Hp HR Hl Hb Hd Hf Hh].
  { apply inv_pages; [done|done|]. intros q Hq. apply Hown. by left. }
  exists (<[g * 4096 := (13 + order, true)]> B). split_and!.
  - constructor; [done|done|done|..].
    + intros x d l. rewrite lookup_insert_Some. intros [[<- [= <- <-]]|[_ Hx]]; [|by apply Hb].
      constructor; [lia|lia| |lia| |].
      * replace (g * 4096) with (g * 512 * 8) by lia. by rewrite Z.mod_mul.
      * intros _. by rewrite Z.mod_mul.
      * intros y Hy. rewrite Hbs in Hy.
        assert (g ≤ y / 4096 < g + 2 ^ order) as Hq by (Z.to_euclidean_division_equations; nia).
        split; [apply Hown; by right|]. intros Hr. apply (Hfree _ Hq). by apply (hi_raw _ _ _ Hinv).
    + intros x d l x' d' l'. rewrite !lookup_insert_Some.
      intros [[<- [= <- <-]]|[_ Hx]] [[<- [= <- <-]]|[_ Hx']] Hne; [done| | |by eapply Hd].
      * rewrite Hbs. by eapply Hap.
      * rewrite Hbs. destruct (Hap _ _ _ Hx); [by right|by left].
    + intros c Hc. destruct (Hf c Hc) as (L & Hch & Hnd & HL). exists L. split_and!; [|done|].
      * eapply chain_frame; [|exact Hch]. intros x Hx. cbn. apply ldw_insert_ne. intros ->. apply HL in Hx. congruence.
      * intros x. rewrite HL, lookup_insert_Some. destruct (decide (x = g * 4096)) as [->|]; naive_solver.
    + intros x d. rewrite lookup_insert_Some. intros [[<- [= <-]]|[Hne Hx]]; cbn; [apply ldw_insert_eq|].
      rewrite ldw_insert_ne by done. by apply Hh.
  - split; [congruence|]. intros x d. rewrite lookup_insert_Some. naive_solver.
  - intros x d y Hx Hy. cbn. apply lookup_insert_ne. destruct (Hap _ _ _ Hx); lia.
Qed.

Lemma kept_trans B B' h h' h'' : same_live B B' → kept B h h' → kept B' h' h'' → kept B h h''.
Proof. intros Hs H1 H2 a c x Ha Hx. rewrite (H2 a c x) by (done || by apply Hs). by eapply H1. Qed.

(** Taking the first node of a free list that has one. *)
Lemma alloc_pop {R} h B c :
  heap_inv h R B → 5 ≤ c ≤ 12 → rd 0 (freelists h) (c - 5) ≠ 0 →
  let a := rd 0 (freelists h) (c - 5) in
  let h' := store a (header c) (h <| freelists ::= λ fl, wr fl (c - 5) (ldw (mem h) a) |>) in
  ∃ B', heap_inv h' R B' ∧ granted B B' a c ∧ kept B h h'.
Proof.
  intros Hinv Hc Hne a h'. destruct (inv_pop h B c a Hinv Hc eq_refl Hne) as [Ha Hinv'].
  exists (<[a := (c, true)]> B). split_and!; [done| |].
  - split; [congruence|]. intros x d. rewrite lookup_insert_Some. naive_solver.
  - intros x d y Hx Hy. cbn. apply lookup_insert_ne.
    destruct (decide (x = a)) as [->|Hxa]; [congruence|].
    pose proof (bsize_pos c ltac:(lia)).
    destruct (hi_apart _ _ _ Hinv _ _ _ _ _ _ Ha Hx ltac:(congruence)); lia.
Qed.

Lemma slab_refill_spec {R} h B c :
  heap_inv h R B → 5 ≤ c ≤ 12 →
  ∃ h' B', slab_refill c h = Ret h' ∧ heap_inv h' R B' ∧ same_live B B' ∧ kept B h h' ∧
    (rd 0 (freelists h') (c - 5) ≠ 0 ∨ h' = h ∧ palloc 0 (pages h) = Ret (0, pages h)).
Proof.
  intros Hinv Hc. destruct (class_divides c Hc) as (Hsh & Hbs & Hcnt & Hmul & H8).
  destruct (palloc_law (pages h) 0 (hi_pages _ _ _ Hinv) ltac:(lia))
    as [(g & ps & E & Hok & Hg & Hend & Hfree & Hown)|E].
  - change (2 ^ 0) with 1 in *.
    assert (heap_inv (h <| pages := ps |>) R B) as Hinv1.
    { apply inv_pages; [done|done|]. intros q Hq. apply Hown. by left. }
    destruct (refill_loop (h <| pages := ps |>) B c g (4096 / 2 ^ c) Hinv1 Hc Hg)
      as (B' & Hinv' & _ & Hlive & Hkept & _ & Hhead); [lia|apply Hown; lia| | |lia|lia|].
    { intros Hr. apply (Hfree g ltac:(lia)). by apply (hi_raw _ _ _ Hinv). }
    { intros a d l Ha. eapply unowned_apart; [by eapply (hi_block _ _ _ Hinv)|lia|]. intros y Hy. apply Hfree.
      Z.to_euclidean_division_equations; lia. }
    eexists _, B'. split_and!; [|exact Hinv'|exact Hlive|exact Hkept|left; exact (Hhead Hcnt)].
    unfold slab_refill. rewrite E. cbn [obind]. destruct (Z.eqb_spec (g * 4096) 0); [lia|].
    unfold PAGE_SIZE. by rewrite Hsh.
  - exists h, B. split_and!; [|done|done|done|by right].
    unfold slab_refill. rewrite E. by destruct h.
Qed.

Lemma alloc_spec {R} h B size :
  heap_inv h R B → 0 ≤ size ≤ MAX_REQUEST →
  ∃ p h' B', anx_alloc size h = Ret (p, h') ∧ heap_inv h' R B' ∧ kept B h h' ∧
    ((p = 0 ∧ same_live B B' ∧ (size = 0 ∨ ∃ order, 0 ≤ order < 32 ∧ palloc order (pages h) = Ret (0, pages h))) ∨
     ∃ a c, p = a + 8 ∧ 0 < size ∧ size + 8 ≤ bsize c ∧ granted B B' a c).
Proof.
  intros Hinv Hs. unfold anx_alloc. destruct (Z.eqb_spec size 0) as [->|Hs0].
  { exists 0, h, B. split_and!; [done|done|done|]. left. by split_and!; [..|left]. }
  assert (u64 (size + HEADER_SIZE) = size + 8) as ->.
  { unfold MAX_REQUEST in Hs. apply u64_small. unfold is_u64, HEADER_SIZE. lia. }
  destruct (Z.gtb_spec (size + 8) PAGE_SIZE) as [Hlarge|Hsmall].
  - destruct (pages_needed_spec size Hs) as [Hn1 Hn2]. cbv zeta in Hn1, Hn2. set (n := u32 _) in *.
    destruct (order_for_spec n Hn1) as (order & -> & Ho & Hno & _). cbn [obind].
    assert (u32 (MAX_CLASS + order + 1) = 13 + order) as ->.
    { unfold MAX_CLASS. rewrite u32_small; [lia|unfold is_u32; lia]. }
    destruct (alloc_large h B order Hinv Ho) as [(g & ps & E & Hg & B' & Hinv' & Hgr & Hk)|E]; rewrite E; cbn [obind].
    + destruct (Z.eqb_spec (g * 4096) 0); [lia|]. eexists _, _, B'. split_and!; [reflexivity|exact Hinv'|exact Hk|].
      right. exists (g * 4096), (13 + order). split_and!; [done|lia| |done].
      unfold bsize. destruct (Z.leb_spec (13 + order) 12); [lia|]. replace (13 + order - 13) with order by lia. lia.
    + eexists _, _, B. split_and!; [reflexivity|by destruct h|by destruct h|].
      left. split_and!; [done|done|]. right. eauto.
  - unfold PAGE_SIZE in Hsmall. destruct (size_to_class_spec size ltac:(lia) Hsmall) as (Hc & Hfit & _).
    set (c := size_to_class size) in *. unfold MIN_CLASS.
    assert (∃ h1 B1, (if rd 0 (freelists h) (c - 5) =? 0 then slab_refill c h else Ret h) = Ret h1 ∧
      heap_inv h1 R B1 ∧ same_live B B1 ∧ kept B h h1 ∧
      (rd 0 (freelists h1) (c - 5) ≠ 0 ∨ h1 = h ∧ palloc 0 (pages h) = Ret (0, pages h)))
      as (h1 & B1 & -> & Hinv1 & Hlive & Hk1 & Hhead).
    { destruct (Z.eqb_spec (rd 0 (freelists h) (c - 5)) 0); [by apply slab_refill_spec|].
      exists h, B. by split_and!; [..|left]. }
    cbn [obind]. destruct (Z.eqb_spec (rd 0 (freelists h1) (c - 5)) 0) as [E0|Hne].
    + eexists _, _, B1. split_and!; [reflexivity|done|done|]. left. split_and!; [done|done|].
      right. exists 0. split; [lia|]. destruct Hhead as [?|[_ ?]]; done.
    + destruct (alloc_pop h1 B1 c Hinv1 Hc Hne) as (B' & Hinv' & [Hg1 Hg2] & Hk).
      eexists _, _, B'. split_and!; [reflexivity|exact Hinv'|by eapply kept_trans|].
      right. eexists _, c. split_and!; [reflexivity|lia| |split].
      * by destruct (class_divides c Hc) as (_ & -> & _).
      * intros d Hd. apply Hlive in Hd. by apply (Hg1 d).
      * intros x d. rewrite Hg2, (Hlive x d). done.
Qed.

(** ** Release *)

Lemma header_fields c : 0 ≤ c < 2 ^ 32 →
  Z.land (header c mod 2 ^ 32) 0xFFFF0000 = ALLOC_MAGIC ∧ header c / 2 ^ 32 = c.
Proof.
  intros Hc. unfold header. rewrite Z.mod_add, Z.div_add by lia. change (ALLOC_MAGIC / 2 ^ 32) with 0. split; [done|lia].
Qed.

Lemma free_spec {R} h B a c :
  heap_inv h R B → B !! a = Some (c, true) →
  ∃ h' B', anx_free (a + 8) h = Ret h' ∧ heap_inv h' R B' ∧ same_live (delete a B) B' ∧ kept (delete a B) h h'.
Proof.
  intros Hinv Ha. pose proof (hi_block _ _ _ Hinv _ _ _ Ha) as Hwf. pose proof (inv_delete _ _ _ _ Hinv Ha) as Hdel.
  pose proof (bsize_pos c ltac:(destruct Hwf; lia)) as Hbp.
  unfold anx_free. destruct (Z.eqb_spec (a + 8) 0); [destruct Hwf; lia|].
  unfold HEADER_SIZE. replace (a + 8 - 8) with a by lia. rewrite (hi_head _ _ _ Hinv _ _ Ha).
  destruct (header_fields c) as [-> ->]; [destruct Hwf; lia|]. rewrite Z.eqb_refl.
  assert (∀ x d l, delete a B !! x = Some (d, l) → apart a (bsize c) x (bsize d)) as Hap.
  { intros x d l Hx. apply lookup_delete_Some in Hx as [Hne Hx]. by eapply (hi_apart _ _ _ Hinv). }
  destruct (Z.gtb_spec c MAX_CLASS) as [Hlarge|Hsmall]; unfold MAX_CLASS in *.
  - destruct (bw_large _ _ _ _ _ Hwf Hlarge) as [_ Hal].
    set (g := a / 4096). assert (a = g * 4096) as Hag by (unfold g; Z.to_euclidean_division_equations; lia).
    assert (bsize c = 2 ^ (c - 12 - 1) * 4096) as Hbs.
    { unfold bsize. destruct (Z.leb_spec c 12); [lia|]. do 2 f_equal. lia. }
    destruct (pfree_law (pages h) g (c - 12 - 1) (hi_pages _ _ _ Hinv)) as (ps & Hf & Hok & Hown).
    { destruct Hwf; lia. }
    { intros q Hq. replace q with (q * 4096 / 4096) by (by rewrite Z.div_mul). apply (bw_owned _ _ _ _ _ Hwf).
      rewrite Hbs. lia. }
    rewrite Hag, Hf. cbn [obind]. rewrite <- Hag. exists (h <| pages := ps |>), (delete a B). split_and!; [done| |done|done].
    destruct Hdel as [Hp HR Hl Hb Hd Hfr Hh]. constructor; [done| |done| |done|done|done].
    { intros q Hq. apply Hown. split; [by apply HR|]. intros Hin.
      destruct (bw_owned _ _ _ _ _ Hwf (q * 4096)) as [_ Hn]; [rewrite Hbs; lia|]. rewrite Z.div_mul in Hn by lia. done. }
    intros x d l Hx. destruct (Hb _ _ _ Hx) as [Hc0 Hpos Hal' Hend Hlg Ho]. constructor; [done..|].
    intros y Hy. destruct (Ho y Hy) as [Hoy HRy]. split; [|done]. apply Hown. split; [done|]. intros Hq. specialize (Hap _ _ _ Hx). unfold apart in Hap. rewrite Hbs in Hap.
    assert (g * 4096 ≤ y < g * 4096 + 2 ^ (c - 12 - 1) * 4096) by (Z.to_euclidean_division_equations; nia). lia.
  - assert (u32 (c - MIN_CLASS) = c - 5) as ->.
    { unfold MIN_CLASS. apply u32_small. unfold is_u32. destruct Hwf; lia. }
    assert ((c - 5 <? NUM_CLASSES) = true) as -> by (apply Z.ltb_lt; change NUM_CLASSES with 8; lia).
    eexists _, (<[a := (c, false)]> (delete a B)). split_and!; [reflexivity|..].
    + apply inv_push; [done|apply lookup_delete_eq|destruct Hwf; lia| |done].
      destruct Hwf as [? ? ? ? ? ?]. constructor; [done..| |done]. lia.
    + intros x d. rewrite lookup_insert_Some. split; [naive_solver|]. intros Hx. right. split; [|done].
      intros ->. by rewrite lookup_delete_eq in Hx.
    + intros x d y Hx Hy. cbn. apply lookup_insert_ne. destruct (Hap _ _ _ Hx); lia.
Qed.

(** ** Runs of the kernel around the heap

    Code asks the heap for memory, gives back a pointer it holds and stores to
    memory it holds; other code takes whole pages from the same page allocator,
    writes them and returns them.  [w_ptrs] is what is held from the heap: each
    pointer with the size it was asked for; [w_raw] are the pages held directly. *)

Record world := World { w_heap : heap_state P; w_ptrs : gmap Z Z; w_raw : gset Z }.

Definition run (g n : Z) : gset Z := list_to_set (seqZ g n).

Lemma elem_of_run g n q : q ∈ run g n ↔ g ≤ q < g + n.
Proof. unfold run. rewrite elem_of_list_to_set, elem_of_seqZ. lia. Qed.

Inductive heap_step : world → world → Prop :=
  | step_alloc h ptrs raw size p h' :
      0 ≤ size ≤ MAX_REQUEST → anx_alloc size h = Ret (p, h') →
      heap_step (World h ptrs raw) (World h' (if p =? 0 then ptrs else <[p := size]> ptrs) raw)
  | step_zalloc h ptrs raw size p h' :
      0 ≤ size ≤ MAX_REQUEST → anx_zalloc size h = Ret (p, h') →
      heap_step (World h ptrs raw) (World h' (if p =? 0 then ptrs else <[p := size]> ptrs) raw)
  | step_free h ptrs raw p size h' :
      ptrs !! p = Some size → anx_free p h = Ret h' →
      heap_step (World h ptrs raw) (World h' (delete p ptrs) raw)
  | step_free_null h ptrs raw h' : anx_free 0 h = Ret h' → heap_step (World h ptrs raw) (World h' ptrs raw)
  | step_write h ptrs raw p size x v :
      ptrs !! p = Some size → p ≤ x → x < p + size → x mod 8 = 0 →
      heap_step (World h ptrs raw) (World (store x v h) ptrs raw)
  | step_page_alloc h ptrs raw order a ps :
      0 ≤ order < 32 → palloc order (pages h) = Ret (a, ps) →
      heap_step (World h ptrs raw)
        (World (h <| pages := ps |>) ptrs (if a =? 0 then raw else raw ∪ run (a / 4096) (2 ^ order)))
  | step_page_free h ptrs raw g order ps :
      0 ≤ order < 32 → run g (2 ^ order) ⊆ raw → pfree (g * 4096) order (pages h) = Ret ps →
      heap_step (World h ptrs raw) (World (h <| pages := ps |>) ptrs (raw ∖ run g (2 ^ order)))
  | step_page_write h ptrs raw x v :
      x / 4096 ∈ raw → heap_step (World h ptrs raw) (World (store x v h) ptrs raw).

(** The pointers of a client are its blocks, past the headers. *)
Definition ptrs_match (ptrs : gmap Z Z) B : Prop :=
  (∀ p size, ptrs !! p = Some size → ∃ c, B !! (p - 8) = Some (c, true) ∧ 0 < size ∧ size + 8 ≤ bsize c) ∧
  ∀ a c, B !! a = Some (c, true) → is_Some (ptrs !! (a + 8)).

Definition heap_good (w : world) : Prop := ∃ B, heap_inv (w_heap w) (w_raw w) B ∧ ptrs_match (w_ptrs w) B.

Lemma boot_good p m : page_ok p → heap_good (World (heap_boot p m) ∅ ∅).
Proof.
  intros Hp. exists ∅. split; [constructor; cbn; try done|split; done].
  intros c Hc. exists []. split_and!; [|constructor|].
  - cbn. assert (c - 5 = 0 ∨ c - 5 = 1 ∨ c - 5 = 2 ∨ c - 5 = 3 ∨ c - 5 = 4 ∨ c - 5 = 5 ∨ c - 5 = 6 ∨ c - 5 = 7) as H by lia.
    by destruct_or! H; rewrite H.
  - intros a. rewrite elem_of_nil, lookup_empty. naive_solver.
Qed.

(** A store inside the payload of a held block is not seen by the heap. *)
Lemma inv_payload {R} h B m : heap_inv h R B →
  (∀ x, m !! x ≠ mem h !! x → ∃ a c, B !! a = Some (c, true) ∧ a < x < a + bsize c) →
  heap_inv (h <| mem := m |>) R B.
Proof.
  intros Hinv Hm. apply inv_mem; [done|]. intros a [c l] Ha. unfold ldw. f_equal.
  destruct (decide (m !! a = mem h !! a)) as [|Hne]; [done|].
  destruct (Hm a Hne) as (a' & c' & Ha' & Hin). exfalso. pose proof (hi_block _ _ _ Hinv _ _ _ Ha) as Hwf.
  pose proof (bsize_pos c ltac:(destruct Hwf; lia)). destruct (decide (a = a')) as [->|]; [lia|].
  destruct (hi_apart _ _ _ Hinv _ _ _ _ _ _ Ha Ha' ltac:(done)); lia.
Qed.

Lemma memset0_frame p n m x : 0 ≤ n → memset0 p n m !! x ≠ m !! x → p ≤ x < p + n.
Proof.
  intros Hn. unfold memset0.
  assert (∀ k, 0 ≤ k → foldl (λ m i, <[p + 8 * i := 0]> m) m (seqZ 0 k) !! x ≠ m !! x → p ≤ x < p + 8 * k) as Hloop.
  { apply (natlike_ind (λ k, _ → _)); [done|]. intros k Hk IH. unfold Z.succ. rewrite seqZ_snoc, foldl_app by lia.
    cbn [foldl]. destruct (decide (x = p + 8 * (0 + k))) as [->|]; [lia|]. rewrite lookup_insert_ne by done. intros H.
    specialize (IH H). lia. }
  assert (0 ≤ n / 8 ∧ 8 * (n / 8) ≤ n) by (Z.to_euclidean_division_equations; lia).
  destruct (Z.eqb_spec (n mod 8) 0).
  - intros H'. apply Hloop in H'; lia.
  - destruct (decide (x = p + 8 * (n / 8))) as [->|]; [intros _; Z.to_euclidean_division_equations; lia|].
    rewrite lookup_insert_ne by done. intros H'. apply Hloop in H'; lia.
Qed.

(** Every byte of a zeroed region reads as 0, a partial last word included. *)
Lemma memset0_zero p n m i : 0 ≤ n → 0 ≤ i → 8 * i < n →
  Z.land (ldw (memset0 p n m) (p + 8 * i)) (Z.ones (8 * Z.min 8 (n - 8 * i))) = 0.
Proof.
  intros Hn Hi Hlt. unfold memset0.
  assert (∀ k, 0 ≤ k → i < k → ldw (foldl (λ m i, <[p + 8 * i := 0]> m) m (seqZ 0 k)) (p + 8 * i) = 0) as Hloop.
  { apply (natlike_ind (λ k, _ → _)); [lia|]. intros k Hk IH Hik. unfold Z.succ. rewrite seqZ_snoc, foldl_app by lia.
    cbn [foldl]. destruct (decide (i = k)) as [->|]; [by rewrite ldw_insert_eq|]. rewrite ldw_insert_ne by lia. apply IH. lia. }
  destruct (Z.eqb_spec (n mod 8) 0).
  - rewrite Hloop; [apply Z.land_0_l|..]; Z.to_euclidean_division_equations; lia.
  - destruct (decide (i = n / 8)) as [->|].
    + rewrite ldw_insert_eq. unfold clear_low.
      replace (Z.min 8 (n - 8 * (n / 8))) with (n mod 8) by (Z.to_euclidean_division_equations; lia).
      set (w := ldw _ _). set (k := 8 * (n mod 8)). rewrite <- Z.land_assoc.
      assert (Z.land (not64 (Z.ones k)) (Z.ones k) = 0) as ->; [|apply Z.land_0_r].
      apply Z.bits_inj'. intros b Hb. unfold not64, MAX64. change (2 ^ 64 - 1) with (Z.ones 64).
      assert (0 ≤ k < 64) by (unfold k; Z.to_euclidean_division_equations; lia).
      rewrite Z.land_spec, Z.lxor_spec, Z.bits_0. destruct (Z.lt_ge_cases b k).
      * by rewrite !Z.ones_spec_low by lia.
      * by rewrite (Z.ones_spec_high k) by lia; rewrite andb_false_r.
    + rewrite ldw_insert_ne by lia. rewrite Hloop; [apply Z.land_0_l|..]; Z.to_euclidean_division_equations; lia.
Qed.

(** A granted block joins the client's pointers. *)
Lemma ptrs_grant ptrs B B' a c size :
  ptrs_match ptrs B → granted B B' a c → 0 < size → size + 8 ≤ bsize c → ptrs_match (<[a + 8 := size]> ptrs) B'.
Proof.
  intros [H1 H2] [Hn Hg] Hs Hfit. split.
  - intros p n. rewrite lookup_insert_Some. intros [[<- <-]|[Hne Hp]].
    + exists c. replace (a + 8 - 8) with a by lia. split; [|done]. apply Hg. by left.
    + destruct (H1 p n Hp) as (d & Hd & ?). exists d. split; [|done]. apply Hg. right. split; [lia|done].
  - intros x d Hx. apply Hg in Hx as [[-> ->]|[Hne Hx]]; [rewrite lookup_insert_eq; eauto|].
    rewrite lookup_insert_ne by lia. eauto.
Qed.

Lemma ptrs_same ptrs B B' : ptrs_match ptrs B → same_live B B' → ptrs_match ptrs B'.
Proof.
  intros [H1 H2] Hs. split.
  - intros p n Hp. destruct (H1 p n Hp) as (c & Hc & ?). exists c. by rewrite (Hs (p - 8) c).
  - intros a c Ha. eapply H2, Hs, Ha.
Qed.

Lemma ptrs_drop ptrs B B' p c :
  ptrs_match ptrs B → B !! (p - 8) = Some (c, true) → same_live (delete (p - 8) B) B' → ptrs_match (delete p ptrs) B'.
Proof.
  intros [H1 H2] Hp Hs. split.
  - intros q n. rewrite lookup_delete_Some. intros [Hne Hq]. destruct (H1 q n Hq) as (d & Hd & ?). exists d.
    split; [|done]. apply Hs. rewrite lookup_delete_ne by lia. done.
  - intros a d Ha. apply Hs in Ha. apply lookup_delete_Some in Ha as [Hne Ha]. rewrite lookup_delete_ne by lia. eauto.
Qed.

Lemma alloc_good {R} h B ptrs size p h' :
  heap_inv h R B → ptrs_match ptrs B → 0 ≤ size ≤ MAX_REQUEST → anx_alloc size h = Ret (p, h') →
  ∃ B', heap_inv h' R B' ∧ ptrs_match (if p =? 0 then ptrs else <[p := size]> ptrs) B'.
Proof.
  intros Hinv Hm Hs Ha. destruct (alloc_spec h B size Hinv Hs) as (q & h1 & B' & E & Hinv' & _ & Hr).
  rewrite E in Ha. injection Ha as -> ->. exists B'. split; [done|].
  destruct Hr as [(-> & Hlive & _)|(a & c & -> & Hpos & Hfit & Hg)]; [by eapply ptrs_same|].
  assert (0 < a) as Ha0.
  { destruct (hi_block _ _ _ Hinv' a c true); [|done]. apply Hg. by left. }
  destruct (Z.eqb_spec (a + 8) 0); [lia|]. by eapply ptrs_grant.
Qed.

(** Pages taken by others are kept apart from the heap's blocks. *)
Lemma inv_take_pages {R} h B order a ps :
  heap_inv h R B → 0 ≤ order < 32 → palloc order (pages h) = Ret (a, ps) →
  heap_inv (h <| pages := ps |>) (if a =? 0 then R else R ∪ run (a / 4096) (2 ^ order)) B.
Proof.
  intros Hinv Ho Ha. destruct (palloc_law (pages h) order (hi_pages _ _ _ Hinv) Ho)
    as [(g & ps' & E & Hok & Hg & Hend & Hfree & Hown)|E]; rewrite E in Ha; injection Ha as <- <-.
  2: { by destruct h. }
  destruct (Z.eqb_spec (g * 4096) 0); [lia|]. rewrite Z.div_mul by lia.
  assert (heap_inv (h <| pages := ps' |>) R B) as [Hp HR Hl Hb Hd Hf Hh].
  { apply inv_pages; [done|done|]. intros q Hq. apply Hown. by left. }
  constructor; [done| |done| |done|done|done].
  - intros q [Hq|Hq]%elem_of_union; [by apply HR|]. apply elem_of_run in Hq. apply Hown. by right.
  - intros x d l Hx. destruct (Hb _ _ _ Hx). constructor; [done..|]. intros y Hy.
    split; [by apply bw_owned0|]. intros [Hq|Hq]%elem_of_union; [by destruct (bw_owned0 y Hy)|].
    apply elem_of_run in Hq. apply (Hfree _ Hq). by apply (bw_owned _ _ _ _ _ (hi_block _ _ _ Hinv _ _ _ Hx)).
Qed.

Lemma inv_return_pages {R} h B g order ps :
  heap_inv h R B → 0 ≤ order < 32 → run g (2 ^ order) ⊆ R → pfree (g * 4096) order (pages h) = Ret ps →
  heap_inv (h <| pages := ps |>) (R ∖ run g (2 ^ order)) B.
Proof.
  intros Hinv Ho Hsub Hf. destruct (pfree_law (pages h) g order (hi_pages _ _ _ Hinv) Ho) as (ps' & E & Hok & Hown).
  { intros q Hq. apply (hi_raw _ _ _ Hinv), Hsub, elem_of_run, Hq. }
  rewrite E in Hf. injection Hf as <-. destruct Hinv as [Hp HR Hl Hb Hd Hfr Hh].
  constructor; [done| |done| |done|done|done].
  - intros q [Hq Hn]%elem_of_difference. apply Hown. split; [by apply HR|]. by rewrite <- elem_of_run.
  - intros x d l Hx. destruct (Hb _ _ _ Hx). constructor; [done..|]. intros y Hy. destruct (bw_owned0 y Hy) as [Ho1 Ho2].
    split; [|set_solver]. apply Hown. split; [done|]. rewrite <- elem_of_run. set_solver.
Qed.

Lemma heap_step_good w w' : heap_good w → heap_step w w' → heap_good w'.
Proof.
  intros (B & Hinv & Hm) Hstep. destruct Hstep as [h ptrs raw size p h' Hs Ha|h ptrs raw size p h' Hs Ha|h ptrs raw p size h' Hp Hf|
    h ptrs raw h' Hf|h ptrs raw p size x v Hp Hx1 Hx2 Hx3|h ptrs raw order a ps Ho Ha|h ptrs raw g order ps Ho Hsub Hf|
    h ptrs raw x v Hx]; cbn [w_heap w_ptrs w_raw] in *; unfold heap_good; cbn [w_heap w_ptrs w_raw].
  - by destruct (alloc_good h B ptrs size p h' Hinv Hm Hs Ha) as (B' & ? & ?); eauto.
  - unfold anx_zalloc in Ha. destruct (anx_alloc size h) as [[q h1]| |] eqn:E; [|done..]. cbn [obind] in Ha.
    injection Ha as -> <-. destruct (alloc_good h B ptrs size p h1 Hinv Hm Hs E) as (B' & Hinv' & Hm').
    exists B'. split; [|done]. destruct (Z.eqb_spec p 0) as [|Hp]; cbn [negb]; [done|].
    apply (inv_payload h1 B' (memset0 p size (mem h1))); [done|]. intros x Hx. apply memset0_frame in Hx; [|lia].
    destruct Hm' as [Hm' _]. destruct (Hm' p size) as (c & Hc & ? & ?); [by rewrite lookup_insert_eq|].
    exists (p - 8), c. split; [done|lia].
  - pose proof Hm as [Hm1 _]. destruct (Hm1 p size Hp) as (c & Hc & _ & _).
    destruct (free_spec h B (p - 8) c Hinv Hc) as (h1 & B' & E & Hinv' & Hlive & _).
    replace (p - 8 + 8) with p in E by lia. rewrite E in Hf. injection Hf as ->.
    exists B'. split; [done|]. by eapply (ptrs_drop _ B).
  - unfold anx_free in Hf. cbn in Hf. injection Hf as <-. by exists B.
  - exists B. split; [|done]. destruct Hm as [Hm _]. destruct (Hm p size Hp) as (c & Hc & ? & ?).
    apply (inv_payload h B (<[x := v]> (mem h))); [done|]. intros y Hy.
    destruct (decide (y = x)) as [->|]; [|by rewrite lookup_insert_ne in Hy].
    exists (p - 8), c. split; [done|lia].
  - exists B. split; [by apply inv_take_pages|done].
  - exists B. split; [by apply inv_return_pages|done].
  - exists B. split; [|done]. apply (inv_mem h B (<[x := v]> (mem h))); [done|]. intros a [c l] Hb. apply ldw_insert_ne.
    intros ->. pose proof (hi_block _ _ _ Hinv _ _ _ Hb) as Hwf. pose proof (bsize_pos c ltac:(destruct Hwf; lia)).
    by apply (bw_owned _ _ _ _ _ Hwf x ltac:(lia)).
Qed.

Lemma run_good w w' : rtc heap_step w w' → heap_good w → heap_good w'.
Proof. induction 1; eauto using heap_step_good. Qed.

(** C11: memory safety of the kernel heap, over any page allocator that keeps its
    promise: after any sequence of requests (up to 8 TiB each), releases of
    held pointers and stores to held memory, interleaved with other code that takes,
    writes and returns pages of its own, (1) every held pointer is not null, is
    8-byte aligned and points to as many bytes as were asked for, all on pages the
    heap owns and nobody else holds, and no two held regions overlap; (2) a further request returns null,
    only if its size is 0 or the page allocator is exhausted, or a pointer not
    held before, and leaves all held memory as it was; (3) releasing a held pointer
    succeeds (no assertion fires) and leaves all other held memory as it was. *)
Theorem heap_safe ps m h ptrs raw :
  page_ok ps → rtc heap_step (World (heap_boot ps m) ∅ ∅) (World h ptrs raw) →
  (∀ p n, ptrs !! p = Some n → 0 < p ∧ p mod 8 = 0 ∧ 0 < n ∧
    ∀ x, p ≤ x < p + n → owned (pages h) (x / 4096) ∧ x / 4096 ∉ raw) ∧
  (∀ p n p' n', ptrs !! p = Some n → ptrs !! p' = Some n' → p ≠ p' → apart p n p' n') ∧
  (∀ size, 0 ≤ size ≤ MAX_REQUEST → ∃ p h', anx_alloc size h = Ret (p, h') ∧ ptrs !! p = None ∧
    (p = 0 → size = 0 ∨ ∃ order, 0 ≤ order < 32 ∧ palloc order (pages h) = Ret (0, pages h)) ∧
    ∀ q n x, ptrs !! q = Some n → q ≤ x < q + n → mem h' !! x = mem h !! x) ∧
  (∀ p n, ptrs !! p = Some n → ∃ h', anx_free p h = Ret h' ∧
    ∀ q k x, ptrs !! q = Some k → q ≠ p → q ≤ x < q + k → mem h' !! x = mem h !! x).
Proof.
  intros Hps Hrun. destruct (run_good _ _ Hrun (boot_good ps m Hps)) as (B & Hinv & [Hm1 Hm2]); cbn [w_heap w_ptrs w_raw] in *.
  split_and!.
  - intros p n Hp. destruct (Hm1 p n Hp) as (c & Hc & Hn & Hfit). destruct (hi_block _ _ _ Hinv _ _ _ Hc) as [_ Hpos Hal _ _ Ho].
    split_and!; [lia|Z.to_euclidean_division_equations; lia|done|]. intros x Hx. apply Ho. lia.
  - intros p n p' n' Hp Hp' Hne. destruct (Hm1 p n Hp) as (c & Hc & Hn & Hfit), (Hm1 p' n' Hp') as (c' & Hc' & Hn' & Hfit').
    destruct (hi_apart _ _ _ Hinv _ _ _ _ _ _ Hc Hc' ltac:(lia)); [left|right]; lia.
  - intros size Hs. destruct (alloc_spec h B size Hinv Hs) as (p & h' & B' & E & Hinv' & Hk & Hr).
    exists p, h'. split_and!; [done|..].
    + destruct (ptrs !! p) as [n|] eqn:Ep; [|done]. exfalso. destruct (Hm1 p n Ep) as (c & Hc & _).
      destruct Hr as [(-> & _)|(a & d & -> & _ & _ & [Hg _])].
      * pose proof (bw_pos _ _ _ _ _ (hi_block _ _ _ Hinv _ _ _ Hc)). lia.
      * replace (a + 8 - 8) with a in Hc by lia. by apply (Hg c).
    + intros ->. destruct Hr as [(_ & _ & Hz)|(a & d & E0 & _ & _ & Hg)]; [done|].
      pose proof (bw_pos _ _ _ _ _ (hi_block _ _ _ Hinv' a d true (proj2 (proj2 Hg a d) (or_introl (conj eq_refl eq_refl))))). lia.
    + intros q n x Hq Hx. destruct (Hm1 q n Hq) as (c & Hc & _ & Hfit). eapply Hk; [exact Hc|lia].
  - intros p n Hp. destruct (Hm1 p n Hp) as (c & Hc & _). destruct (free_spec h B (p - 8) c Hinv Hc) as (h' & B' & E & _ & _ & Hk).
    replace (p - 8 + 8) with p in E by lia. exists h'. split; [done|]. intros q k x Hq Hne Hx.
    destruct (Hm1 q k Hq) as (d & Hd & _ & Hfit). apply (Hk (q - 8) d x); [rewrite lookup_delete_ne by lia; exact Hd|lia].
Qed.
End proofs.
Arguments world : clear implicits.

(** ** The page allocator discharges the interface *)

#[export] Instance page_provider : PageProvider Page.pstate := {|
  palloc := Page.anx_page_alloc;
  pfree := Page.anx_page_free;
|}.

Definition first_page (st : Page.pstate) : Z := Page.heap_base st / 4096.

Definition page_owned (st : Page.pstate) (g : Z) : Prop :=
  0 ≤ g - first_page st < Page.total_pages st ∧ Page.bit_test (Page.bitmap st) (g - first_page st) = false.

Definition provider_ok (st : Page.pstate) : Prop := Page.page_inv st ∧ 0 < Page.heap_base st.

Lemma base_aligned st : Page.page_inv st → Page.heap_base st = first_page st * 4096.
Proof.
  intros H. destruct (Page.inv_base _ H) as [H0 Hal]. apply Page.aligned_land in Hal; [|done].
  unfold first_page. Z.to_euclidean_division_equations; lia.
Qed.

Lemma page_palloc_law st order : provider_ok st → 0 ≤ order < 32 →
  (∃ g st', palloc order st = Ret (g * 4096, st') ∧ provider_ok st' ∧ 0 < g ∧ g * 4096 + 2 ^ order * 4096 < 2 ^ 64 ∧
     (∀ q, g ≤ q < g + 2 ^ order → ¬ page_owned st q) ∧
     (∀ q, page_owned st' q ↔ page_owned st q ∨ g ≤ q < g + 2 ^ order))
  ∨ palloc order st = Ret (0, st).
Proof.
  intros [Hinv Hb] Ho. pose proof (base_aligned st Hinv) as Hbase.
  destruct (Page.page_alloc_spec st order Hinv ltac:(lia)) as [(f & st' & E & Hf & Hle & Hall & Ht & Hinv')|[E _]];
    [left|by right]. rewrite Z.shiftl_1_l in *.
  pose proof (Page.inv_total _ Hinv). pose proof (Page.inv_end _ Hinv) as Hend. change Page.ANX_PAGE_SIZE with 4096 in *.
  change Page.MAX_PAGES with 1048576 in *. unfold MAX64 in Hend.
  assert (0 < 2 ^ order) by (apply Z.pow_pos_nonneg; lia).
  destruct Ht as [Hbits _ Hbase' Htot _].
  assert (first_page st' = first_page st) as Hfp by (unfold first_page; by rewrite Hbase').
  exists (first_page st + f), st'. split_and!.
  - change (Page.anx_page_alloc order st = Ret ((first_page st + f) * 4096, st')). rewrite E. do 2 f_equal. lia.
  - split; [done|lia].
  - lia.
  - lia.
  - intros q Hq [_ Hbit]. rewrite (Hall (q - first_page st)) in Hbit by lia. done.
  - intros q. unfold page_owned. rewrite Hfp, Htot. split.
    + intros [Hr Hbit]. rewrite Hbits in Hbit by (unfold Page.in_span; change Page.MAX_PAGES with 1048576; lia).
      apply andb_false_iff in Hbit as [Hbit|Hbit]; [by left|right]. lia.
    + intros Hq. assert (0 ≤ q - first_page st < Page.total_pages st) by (destruct Hq as [[? _]|?]; lia).
      split; [done|]. rewrite Hbits by (unfold Page.in_span; change Page.MAX_PAGES with 1048576; lia).
      apply andb_false_iff. destruct Hq as [[_ ?]|?]; [by left|right]. lia.
Qed.

Lemma page_pfree_law st g order : provider_ok st → 0 ≤ order < 32 →
  (∀ q, g ≤ q < g + 2 ^ order → page_owned st q) →
  ∃ st', pfree (g * 4096) order st = Ret st' ∧ provider_ok st' ∧
    ∀ q, page_owned st' q ↔ page_owned st q ∧ ¬ g ≤ q < g + 2 ^ order.
Proof.
  intros [Hinv Hb] Ho Hown. pose proof (base_aligned st Hinv) as Hbase.
  assert (0 < 2 ^ order) by (apply Z.pow_pos_nonneg; lia).
  pose proof (Page.inv_total _ Hinv) as Htot. change Page.MAX_PAGES with 1048576 in *.
  set (f := g - first_page st).
  assert (0 ≤ f ∧ f + 2 ^ order ≤ Page.total_pages st) as [Hf Hle].
  { destruct (Hown g ltac:(lia)) as [? _]. destruct (Hown (g + 2 ^ order - 1) ltac:(lia)) as [? _]. unfold f. lia. }
  assert (g * 4096 = Page.heap_base st + f * Page.ANX_PAGE_SIZE) as -> by (unfold f, Page.ANX_PAGE_SIZE; lia).
  change (pfree (PageProvider := page_provider)) with Page.anx_page_free.
  rewrite Page.page_free_unfold by (done || lia || (rewrite Z.shiftl_1_l; lia)). rewrite Z.shiftl_1_l.
  destruct (Page.free_range (Page.bitmap st) f (2 ^ order)) as (bm & -> & Hok & Hbm);
    [lia|apply (Page.inv_bm _ Hinv)|lia|change Page.MAX_PAGES with 1048576; lia| |].
  { intros q Hq. destruct (Hown (q + first_page st) ltac:(unfold f in Hq; lia)) as [_ Hbit].
    by replace (q + first_page st - first_page st) with q in Hbit by lia. }
  cbn [obind]. eexists. split; [reflexivity|].
  assert (∀ q, Page.in_span q → Page.bit_test bm q = Page.bit_test (Page.bitmap st) q || ((f <=? q) && (q <? f + 2 ^ order))) as Hbm' by done.
  unfold Page.in_span in Hbm'. change Page.MAX_PAGES with 1048576 in Hbm'.
  assert (∀ q, f ≤ q < f + 2 ^ order → Page.bit_test (Page.bitmap st) q = false) as Hwas.
  { intros q Hq. destruct (Hown (q + first_page st) ltac:(unfold f in Hq; lia)) as [_ Hbit].
    by replace (q + first_page st - first_page st) with q in Hbit by lia. }
  pose proof (Page.free_count_bounds _ Hinv) as Hfc. change Page.MAX_PAGES with 1048576 in Hfc.
  pose proof (Page.cnt_range (Page.bitmap st) bm (Page.total_pages st) f (2 ^ order) false true Hf ltac:(lia) Hle) as Hcnt.
  split; [split; [|done]|].
  - constructor; cbn [Page.bitmap Page.total_pages Page.free_count Page.heap_base]; [done|done| | | |].
    + intros q Hq. change Page.MAX_PAGES with 1048576 in Hq. rewrite Hbm' by lia. rewrite (Page.inv_hole _ Hinv q Hq). cbn [orb]. lia.
    + rewrite (Page.inv_count _ Hinv) in *. rewrite Hcnt.
      * rewrite u64_small; [lia|unfold is_u64; lia].
      * intros q Hq. split; [by apply Hwas|]. rewrite Hbm', Hwas by lia. cbn [orb]. lia.
      * intros q Hq Hn. rewrite Hbm' by lia.
        assert ((f <=? q) && (q <? f + 2 ^ order) = false) as -> by lia. apply orb_false_r.
    + apply (Page.inv_base _ Hinv).
    + apply (Page.inv_end _ Hinv).
  - intros q. unfold page_owned, first_page. cbn [Page.bitmap Page.total_pages Page.free_count Page.heap_base].
    fold (first_page st). split.
    + intros [Hr Hbit]. rewrite Hbm' in Hbit by lia. apply orb_false_iff in Hbit as [Hb1 Hb2].
      split; [done|]. unfold f in Hb2. lia.
    + intros [[Hr Hbit] Hn]. split; [done|]. rewrite Hbm', Hbit by lia. cbn [orb]. unfold f. lia.
Qed.

#[export] Instance page_laws : PageLaws Page.pstate := {|
  page_ok := provider_ok;
  owned := page_owned;
  palloc_law := page_palloc_law;
  pfree_law := page_pfree_law;
|}.

(** ** Evaluations over the page allocator *)

Lemma demo_provider : provider_ok Page.demo.
Proof. destruct Page.demo_ok as (H & Hb & _). split; [done|]. rewrite Hb. lia. Qed.

(** A kernel that has one block of 100 bytes. *)
Definition demo_boot : heap_state Page.pstate := heap_boot Page.demo ∅.
Definition demo_heap : heap_state Page.pstate :=
  match anx_alloc 100 demo_boot with Ret (_, h) => h | _ => demo_boot end.

Lemma demo_alloc : anx_alloc 100 demo_boot = Ret (8072, demo_heap).
Proof.
  unfold demo_heap. destruct (anx_alloc 100 demo_boot) as [[p h]| |] eqn:E; [|exfalso; revert E; vm_compute; done..].
  assert (p = 8072) as ->; [|done].
  assert (match anx_alloc 100 demo_boot with Ret (p, _) => p = 8072 | _ => False end) as H by (vm_compute; done).
  by rewrite E in H.
Qed.

(** Releasing the only block of that kernel succeeds. *)
Lemma heap_safe_witness : ∃ h', anx_free 8072 demo_heap = Ret h'.
Proof.
  destruct (heap_safe (PL := page_laws) Page.demo ∅ demo_heap {[8072 := 100]} ∅ demo_provider) as (_ & _ & _ & Hfree).
  - apply rtc_once. apply (step_alloc demo_boot ∅ ∅ 100 8072 demo_heap); [unfold MAX_REQUEST; lia|apply demo_alloc].
  - destruct (Hfree 8072 100) as (h' & E & _); [apply lookup_singleton_eq|]. by exists h'.
Defined.

(** request sizes are not checked against wrap-around: a request of
    [2^64 - 8] bytes, whose size with the header is 0 modulo [2^64], is answered
    with a block of 32 bytes, and a request of [2^44] bytes, whose page count
    does not fit its 32-bit variable, with a block of one page. *)
Theorem alloc_request_wraps :
  (∃ p h', anx_alloc (2 ^ 64 - 8) demo_boot = Ret (p, h') ∧ p ≠ 0 ∧ ldw (mem h') (p - 8) = header 5 ∧ bsize 5 = 32) ∧
  (∃ p h', anx_alloc (2 ^ 44) demo_boot = Ret (p, h') ∧ p ≠ 0 ∧ ldw (mem h') (p - 8) = header 13 ∧ bsize 13 = 4096).
Proof.
  assert (∀ n c, match anx_alloc n demo_boot with Ret (p, h') => bool_decide (p ≠ 0 ∧ ldw (mem h') (p - 8) = header c)
    | _ => false end = true → ∃ p h', anx_alloc n demo_boot = Ret (p, h') ∧ p ≠ 0 ∧ ldw (mem h') (p - 8) = header c) as H.
  { intros n c E. destruct (anx_alloc n demo_boot) as [[p h']| |]; [|done..]. apply bool_decide_eq_true in E. eauto. }
  split.
  - destruct (H (2 ^ 64 - 8) 5) as (p & h' & ? & ? & ?); [vm_compute; reflexivity|]. exists p, h'. by split_and!.
  - destruct (H (2 ^ 44) 13) as (p & h' & ? & ? & ?); [vm_compute; reflexivity|]. exists p, h'. by split_and!.
Qed.
End Heap.
