(* ===== verification/Pool.v ===== *)
(** * Object pools and arenas: the second half of [kernel/lib/alloc.c]

    Both are clients of the heap and of the page allocator: the descriptor of a
    pool or an arena is a heap block whose fields are words of the memory model,
    its objects are pages taken directly. *)

From S2P Require Import Prelude PageAlloc Heap.
Import Heap.

Module Pool.

Section ops.
Context {P : Type} {PP : PageProvider P}.
Implicit Types (h : heap_state P).

(** [struct anx_pool]: base, free_list, obj_size, then capacity (low half) and
    alloc_pages (high half) of the fourth word. *)
Definition POOL_SIZE : Z := 32.
Definition pool_base h (p : Z) : Z := ldw (mem h) p.
Definition pool_free_list h (p : Z) : Z := ldw (mem h) (p + 8).
Definition pool_obj_size h (p : Z) : Z := ldw (mem h) (p + 16).
Definition pool_capacity h (p : Z) : Z := ldw (mem h) (p + 24) mod 2 ^ 32.
Definition pool_alloc_pages h (p : Z) : Z := ldw (mem h) (p + 24) / 2 ^ 32.

(** [node->next = pool->free_list; pool->free_list = node]. *)
Definition pool_push (p node : Z) (h : heap_state P) : heap_state P :=
  store (p + 8) node (store node (pool_free_list h p) h).

Definition pages_for (total : Z) : Z := u32 (Z.shiftr (u64 (total + PAGE_SIZE - 1)) PAGE_SHIFT).

Definition anx_pool_create (obj_size count : Z) (h : heap_state P) : outcome (Z * heap_state P) :=
  let obj_size := if obj_size <? 8 then 8 else obj_size in
  let total := u64 (obj_size * count) in
  let! order := order_for (pages_for total) in
  let! r := palloc order (pages h) in
  let '(m, ps) := r in
  let h := h <| pages := ps |> in
  when m =? 0 ret Ret (0, h) ;;
  let! r := anx_alloc POOL_SIZE h in
  let '(pool, h) := r in
  if pool =? 0 then
    let! ps := pfree m order (pages h) in
    Ret (0, h <| pages := ps |>)
  else
    let h := store pool m h in
    let h := store (pool + 16) obj_size h in
    let h := store (pool + 24) (count + Z.shiftl 1 order * 2 ^ 32) h in
    let h := store (pool + 8) 0 h in
    Ret (pool, foldl (λ h i, pool_push pool (u64 (m + u64 (i * obj_size))) h) h (seqZ 0 count)).

Definition anx_pool_alloc (pool : Z) (h : heap_state P) : Z * heap_state P :=
  when (pool =? 0) || (pool_free_list h pool =? 0) ret (0, h) ;;
  let node := pool_free_list h pool in
  (node, store (pool + 8) (ldw (mem h) node) h).

Definition anx_pool_free (pool ptr : Z) (h : heap_state P) : heap_state P :=
  when (pool =? 0) || (ptr =? 0) ret h ;;
  pool_push pool ptr h.

(** [while (p > 1) { order++; p >>= 1; }] on a 32-bit value. *)
Fixpoint order_of (fuel : nat) (order p : Z) : Z :=
  match fuel with
  | O => order
  | S fuel => if p >? 1 then order_of fuel (order + 1) (Z.shiftr p 1) else order
  end.

Definition anx_pool_destroy (pool : Z) (h : heap_state P) : outcome (heap_state P) :=
  when pool =? 0 ret Ret h ;;
  let order := order_of 32 0 (pool_alloc_pages h pool) in
  let! ps := pfree (pool_base h pool) order (pages h) in
  anx_free pool (h <| pages := ps |>).

(** [struct anx_arena]: base, size, used, alloc_pages (low half of the fourth word). *)
Definition ARENA_SIZE : Z := 32.
Definition arena_base h (p : Z) : Z := ldw (mem h) p.
Definition arena_size h (p : Z) : Z := ldw (mem h) (p + 8).
Definition arena_used h (p : Z) : Z := ldw (mem h) (p + 16).
Definition arena_alloc_pages h (p : Z) : Z := ldw (mem h) (p + 24) mod 2 ^ 32.

(** A 32-bit store to the low half of a word. *)
Definition store_low (a v : Z) (h : heap_state P) : heap_state P :=
  store a (v + ldw (mem h) a / 2 ^ 32 * 2 ^ 32) h.

Definition anx_arena_create (size : Z) (h : heap_state P) : outcome (Z * heap_state P) :=
  let! order := order_for (pages_for size) in
  let! r := palloc order (pages h) in
  let '(m, ps) := r in
  let h := h <| pages := ps |> in
  when m =? 0 ret Ret (0, h) ;;
  let! r := anx_alloc ARENA_SIZE h in
  let '(arena, h) := r in
  if arena =? 0 then
    let! ps := pfree m order (pages h) in
    Ret (0, h <| pages := ps |>)
  else
    let h := store arena m h in
    let h := store (arena + 8) (u64 (Z.shiftl 1 order * PAGE_SIZE)) h in
    let h := store (arena + 16) 0 h in
    Ret (arena, store_low (arena + 24) (Z.shiftl 1 order) h).

Definition anx_arena_alloc (arena size : Z) (h : heap_state P) : Z * heap_state P :=
  when arena =? 0 ret (0, h) ;;
  let size := Z.land (u64 (size + 7)) (not64 7) in
  when u64 (arena_used h arena + size) >? arena_size h arena ret (0, h) ;;
  let ptr := u64 (arena_base h arena + arena_used h arena) in
  (ptr, store (arena + 16) (u64 (arena_used h arena + size)) h).

Definition anx_arena_reset (arena : Z) (h : heap_state P) : heap_state P :=
  if negb (arena =? 0) then store (arena + 16) 0 h else h.

Definition anx_arena_destroy (arena : Z) (h : heap_state P) : outcome (heap_state P) :=
  when arena =? 0 ret Ret h ;;
  let order := order_of 32 0 (arena_alloc_pages h arena) in
  let! ps := pfree (arena_base h arena) order (pages h) in
  anx_free arena (h <| pages := ps |>).
End ops.

(** ** Pages and descriptor *)

Section proofs.
Context {P : Type} {PP : PageProvider P} {PL : PageLaws P}.
Implicit Types (h : heap_state P) (w : world P).

Lemma good_ptr h ptrs raw p n : heap_good (World h ptrs raw) → ptrs !! p = Some n →
  8 < p ∧ p mod 8 = 0 ∧ 0 < n ∧ ∀ x, p ≤ x < p + n → x / 4096 ∉ raw.
Proof.
  intros (B & Hinv & [Hm _]) Hp. cbn [w_heap w_ptrs w_raw] in *. destruct (Hm p n Hp) as (c & Hc & Hn & Hfit).
  destruct (hi_block _ _ _ Hinv _ _ _ Hc) as [_ Hpos Hal _ _ Ho].
  split_and!; [lia|Z.to_euclidean_division_equations; lia|done|]. intros x Hx. apply Ho. lia.
Qed.

Lemma pages_for_spec n : 0 ≤ n ≤ MAX_REQUEST → pages_for n ≤ 2 ^ 31 ∧ n ≤ pages_for n * 4096.
Proof.
  unfold MAX_REQUEST, pages_for, PAGE_SIZE, PAGE_SHIFT. intros H.
  rewrite (u64_small (n + 4096 - 1)), Z.shiftr_div_pow2 by (unfold is_u64; lia). change (2 ^ 12) with 4096.
  rewrite u32_small; unfold is_u32; Z.to_euclidean_division_equations; lia.
Qed.

(** Pages for [n] bytes, then a descriptor of 32 bytes, as both constructors take
    them; when the descriptor cannot be had the pages go back. *)
Lemma create_prefix h ptrs raw n :
  heap_good (World h ptrs raw) → 0 ≤ n ≤ MAX_REQUEST →
  ∃ order, order_for (pages_for n) = Ret order ∧ 0 ≤ order < 32 ∧ n ≤ 2 ^ order * 4096 ∧
  (palloc order (pages h) = Ret (0, pages h) ∨
   ∃ g ps p h', palloc order (pages h) = Ret (g * 4096, ps) ∧ 0 < g ∧ g * 4096 + 2 ^ order * 4096 < 2 ^ 64 ∧
     (∀ q, q ∈ run g (2 ^ order) → q ∉ raw) ∧
     anx_alloc 32 (h <| pages := ps |>) = Ret (p, h') ∧
     (p = 0 ∧ (∃ ps', pfree (g * 4096) order (pages h') = Ret ps' ∧
                 heap_good (World (h' <| pages := ps' |>) ptrs raw)) ∨
      p ≠ 0 ∧ ptrs !! p = None ∧ heap_good (World h' (<[p := 32]> ptrs) (raw ∪ run g (2 ^ order))))).
Proof.
  intros Hgood Hn. destruct (pages_for_spec n Hn) as [Hp1 Hp2]. destruct (order_for_spec _ Hp1) as (order & Ho & Hr & Hle & _).
  exists order. split_and!; [done|lia|lia|lia|].
  destruct Hgood as (B & Hinv & Hm); cbn [w_heap w_ptrs w_raw] in *.
  destruct (palloc_law (pages h) order (hi_pages _ _ _ Hinv) Hr) as [(g & ps & E & Hok & Hg & Hend & Hfree & Hown)|E]; [right|by left].
  pose proof (inv_take_pages h B order _ _ Hinv Hr E) as Hinv1.
  destruct (Z.eqb_spec (g * 4096) 0); [lia|]. rewrite Z.div_mul in Hinv1 by lia.
  assert (∀ q, q ∈ run g (2 ^ order) → q ∉ raw) as Hraw.
  { intros q Hq Hq'. apply elem_of_run in Hq. apply (Hfree q Hq). by apply (hi_raw _ _ _ Hinv). }
  destruct (alloc_spec _ B 32 Hinv1 ltac:(unfold MAX_REQUEST; lia)) as (p & h' & B' & Ea & Hinv' & _ & Hres).
  exists g, ps, p, h'. split_and!; [done|lia|lia|done|done|].
  destruct Hres as [(-> & Hlive & _)|(a & c & -> & _ & Hfit & Hgr)]; [left|right].
  - split; [done|]. destruct (pfree_law (pages h') g order (hi_pages _ _ _ Hinv') Hr) as (ps' & Ef & _ & _).
    { intros q Hq. apply (hi_raw _ _ _ Hinv'). apply elem_of_union_r. by apply elem_of_run. }
    exists ps'. split; [done|]. exists B'. cbn [w_heap w_ptrs w_raw]. split; [|by eapply ptrs_same].
    replace raw with ((raw ∪ run g (2 ^ order)) ∖ run g (2 ^ order)) by set_solver.
    by apply inv_return_pages; [..|set_solver|].
  - pose proof (proj2 (proj2 Hgr a c) (or_introl (conj eq_refl eq_refl))) as Ha.
    pose proof (bw_pos _ _ _ _ _ (hi_block _ _ _ Hinv' _ _ _ Ha)). split_and!; [lia| |].
    + destruct (ptrs !! (a + 8)) as [k|] eqn:Ek; [|done]. destruct (proj1 Hm _ _ Ek) as (d & Hd & _).
      replace (a + 8 - 8) with a in Hd by lia. by destruct (proj1 Hgr d).
    + exists B'. split; [done|]. by eapply ptrs_grant.
Qed.

(** ** Arenas *)

Lemma round8 n : 0 ≤ n ≤ 2 ^ 64 - 8 → Z.land (u64 (n + 7)) (not64 7) = (n + 7) / 8 * 8.
Proof.
  intros H. rewrite u64_small by (unfold is_u64; lia). change 7 with (Z.ones 3) at 2. rewrite land_not64 by (unfold is_u64; lia).
  change (2 ^ 3) with 8. Z.to_euclidean_division_equations; lia.
Qed.

(** The descriptor at [p] describes [size] bytes at [base], [used] of them taken. *)
Record arena_rep h (p base size used : Z) : Prop := {
  ar_base : arena_base h p = base;
  ar_size : arena_size h p = size;
  ar_used : arena_used h p = used;
}.

(** The reference: an offset per request, and the offset reached. *)
Fixpoint bump (size used : Z) (ns : list Z) : list (option Z) * Z :=
  match ns with
  | [] => ([], used)
  | n :: ns =>
      let r := (n + 7) / 8 * 8 in
      if used + r <=? size then let '(os, u) := bump size (used + r) ns in (Some used :: os, u)
      else let '(os, u) := bump size used ns in (None :: os, u)
  end.

Fixpoint arena_allocs (p : Z) (ns : list Z) h : list Z * heap_state P :=
  match ns with
  | [] => ([], h)
  | n :: ns => let '(q, h) := anx_arena_alloc p n h in let '(qs, h) := arena_allocs p ns h in (q :: qs, h)
  end.

Definition offset_ptr (base : Z) (o : option Z) : Z := match o with Some o => base + o | None => 0 end.

Lemma arena_alloc_spec h p base size used n :
  arena_rep h p base size used → p ≠ 0 → 0 ≤ base → 0 ≤ used ≤ size → size ≤ 2 ^ 43 → base + size < 2 ^ 64 →
  0 ≤ n ≤ MAX_REQUEST →
  let r := (n + 7) / 8 * 8 in
  0 ≤ r ∧
  if used + r <=? size then
    anx_arena_alloc p n h = (base + used, store (p + 16) (used + r) h) ∧
    arena_rep (store (p + 16) (used + r) h) p base size (used + r)
  else anx_arena_alloc p n h = (0, h).
Proof.
  intros [Hb Hs Hu] Hp Hbase Hused Hsize Hend Hn. cbv zeta. unfold MAX_REQUEST in Hn. unfold anx_arena_alloc.
  destruct (Z.eqb_spec p 0); [done|]. rewrite round8 by lia. rewrite Hb, Hs, Hu. set (r := (n + 7) / 8 * 8).
  assert (0 ≤ r ≤ n + 7) by (unfold r; Z.to_euclidean_division_equations; lia). split; [lia|].
  rewrite (u64_small (used + r)) by (unfold is_u64; lia).
  destruct (Z.gtb_spec (used + r) size), (Z.leb_spec (used + r) size); try lia; [done|].
  rewrite u64_small by (unfold is_u64; lia). split; [done|].
  constructor; unfold arena_base, arena_size, arena_used, store; cbn; rewrite ?ldw_insert_ne by lia; [done|done|].
  apply ldw_insert_eq.
Qed.

(** Every region of a bump run lies past [used] and ends inside. *)
Lemma bump_fit size used ns os u j n o :
  Forall (λ n, 0 ≤ n) ns → bump size used ns = (os, u) →
  os !! j = Some (Some o) → ns !! j = Some n → used ≤ o ∧ o + n ≤ size.
Proof.
  intros Hns. revert used os u j. induction Hns as [|m ns Hm _ IH]; intros used os u j; cbn [bump]; [done|].
  set (r := (m + 7) / 8 * 8). assert (m ≤ r) by (unfold r; Z.to_euclidean_division_equations; lia).
  destruct (Z.leb_spec (used + r) size).
  - destruct (bump size (used + r) ns) as [os' u'] eqn:E. intros [= <- <-]. destruct j as [|j]; cbn.
    + intros [= <-] [= <-]. lia.
    + intros Ho Hn. destruct (IH _ _ _ _ E Ho Hn). lia.
  - destruct (bump size used ns) as [os' u'] eqn:E. intros [= <- <-]. destruct j as [|j]; cbn; [done|].
    intros Ho Hn. by eapply IH.
Qed.

(** The regions of two requests of a bump run do not overlap. *)
Lemma bump_apart size used ns os u i j n n' o o' :
  Forall (λ n, 0 ≤ n) ns → bump size used ns = (os, u) →
  (i < j)%nat → os !! i = Some (Some o) → os !! j = Some (Some o') → ns !! i = Some n → ns !! j = Some n' →
  o + n ≤ o'.
Proof.
  intros Hns. revert used os u i j. induction Hns as [|m ns Hm Hns IH]; intros used os u i j; cbn [bump]; [done|].
  set (r := (m + 7) / 8 * 8). assert (m ≤ r) by (unfold r; Z.to_euclidean_division_equations; lia).
  destruct (Z.leb_spec (used + r) size).
  - destruct (bump size (used + r) ns) as [os' u'] eqn:E. intros [= <- <-] Hij. destruct j as [|j]; [lia|].
    destruct i as [|i]; cbn.
    + intros [= <-] Ho' [= <-] Hn'. destruct (bump_fit _ _ _ _ _ _ _ _ Hns E Ho' Hn'). lia.
    + intros. eapply (IH _ _ _ i j); eauto. lia.
  - destruct (bump size used ns) as [os' u'] eqn:E. intros [= <- <-] Hij. destruct j as [|j]; [lia|].
    destruct i as [|i]; cbn; [done|]. intros. eapply (IH _ _ _ i j); eauto. lia.
Qed.

Lemma arena_run_spec h p base size used ns os u :
  arena_rep h p base size used → p ≠ 0 → 0 ≤ base → 0 ≤ used ≤ size → size ≤ 2 ^ 43 → base + size < 2 ^ 64 →
  Forall (λ n, 0 ≤ n ≤ MAX_REQUEST) ns → bump size used ns = (os, u) →
  ∃ h', arena_allocs p ns h = (map (offset_ptr base) os, h') ∧ arena_rep h' p base size u ∧
    ∀ x, x ≠ p + 16 → mem h' !! x = mem h !! x.
Proof.
  intros Hrep Hp Hb Hu Hs He Hns. revert h used os u Hrep Hu. induction Hns as [|n ns Hn Hns IH]; intros h used os u Hrep Hu.
  { cbn. intros [= <- <-]. exists h. by split_and!. }
  cbn [bump arena_allocs]. destruct (arena_alloc_spec h p base size used n Hrep Hp Hb Hu Hs He Hn) as [Hr Ha].
  cbv zeta in Ha. destruct (Z.leb_spec (used + (n + 7) / 8 * 8) size).
  - destruct Ha as [Ha Hrep']. rewrite Ha. destruct (bump size _ ns) as [os' u'] eqn:E. intros [= <- <-].
    destruct (IH _ _ _ _ Hrep' ltac:(lia) E) as (h' & -> & ? & Hf). exists h'. split_and!; [done|done|].
    intros x Hx. rewrite Hf by done. cbn. by rewrite lookup_insert_ne by done.
  - rewrite Ha. destruct (bump size used ns) as [os' u'] eqn:E. intros [= <- <-].
    destruct (IH _ _ _ _ Hrep Hu E) as (h' & -> & ? & Hf). exists h'. by split_and!.
Qed.

(** A run of requests of an empty arena against the reference. *)
Lemma arena_bump h p base size ns os u :
  arena_rep h p base size 0 → p ≠ 0 → 0 < base → 0 ≤ size ≤ 2 ^ 43 → base + size < 2 ^ 64 →
  Forall (λ n, 0 ≤ n ≤ MAX_REQUEST) ns → bump size 0 ns = (os, u) →
  ∃ h', arena_allocs p ns h = (map (offset_ptr base) os, h') ∧
    (∀ x, x ≠ p + 16 → mem h' !! x = mem h !! x) ∧
    (∀ i n o, os !! i = Some (Some o) → ns !! i = Some n → base ≤ base + o ∧ base + o + n ≤ base + size) ∧
    (∀ i j n n' o o', i ≠ j → os !! i = Some (Some o) → os !! j = Some (Some o') → ns !! i = Some n → ns !! j = Some n' →
       apart (base + o) n (base + o') n') ∧
    arena_rep (anx_arena_reset p h') p base size 0.
Proof.
  intros Hrep Hp Hb Hs He Hns E.
  assert (Forall (λ n, 0 ≤ n) ns) as Hpos by (eapply Forall_impl; [exact Hns|]; cbn; lia).
  destruct (arena_run_spec h p base size 0 ns os u Hrep Hp ltac:(lia) ltac:(lia) ltac:(lia) He Hns E) as (h' & Ha & Hrep' & Hf).
  exists h'. split_and!; [done|done|..].
  - intros i n o Ho Hn. destruct (bump_fit _ _ _ _ _ _ _ _ Hpos E Ho Hn). lia.
  - intros i j n n' o o' Hij Ho Ho' Hn Hn'. unfold apart. destruct (decide (i < j)%nat).
    + left. pose proof (bump_apart _ _ _ _ _ i j _ _ _ _ Hpos E ltac:(lia) Ho Ho' Hn Hn'). lia.
    + right. pose proof (bump_apart _ _ _ _ _ j i _ _ _ _ Hpos E ltac:(lia) Ho' Ho Hn' Hn). lia.
  - unfold anx_arena_reset. destruct (Z.eqb_spec p 0); [done|]. cbn [negb]. destruct Hrep' as [H1 H2 H3].
    constructor; unfold arena_base, arena_size, arena_used, store in *; cbn; rewrite ?ldw_insert_ne by lia; [done|done|].
    apply ldw_insert_eq.
Qed.

(** ** Construction and destruction *)

Lemma good_store h ptrs raw p n x v :
  heap_good (World h ptrs raw) → ptrs !! p = Some n → p ≤ x < p + n → x mod 8 = 0 →
  heap_good (World (store x v h) ptrs raw).
Proof. intros Hg Hp Hx H8. eapply heap_step_good; [exact Hg|]. eapply step_write; (done || lia). Qed.

Lemma good_page_store h ptrs raw x v :
  heap_good (World h ptrs raw) → x / 4096 ∈ raw → heap_good (World (store x v h) ptrs raw).
Proof. intros Hg Hx. eapply heap_step_good; [exact Hg|]. by apply step_page_write. Qed.

Lemma good_free h ptrs raw p n :
  heap_good (World h ptrs raw) → ptrs !! p = Some n →
  ∃ h', anx_free p h = Ret h' ∧ heap_good (World h' (delete p ptrs) raw).
Proof.
  intros Hg Hp. destruct (Hg) as (B & Hinv & Hm). cbn [w_heap w_ptrs w_raw] in *.
  destruct (proj1 Hm p n Hp) as (c & Hc & _). destruct (free_spec h B (p - 8) c Hinv Hc) as (h' & _ & E & _).
  replace (p - 8 + 8) with p in E by lia. exists h'. split; [done|]. eapply heap_step_good; [exact Hg|]. by eapply step_free.
Qed.

Lemma order_of_spec fuel o k : 0 ≤ o → 0 ≤ k < Z.of_nat fuel → order_of fuel o (2 ^ k) = o + k.
Proof.
  revert o k. induction fuel as [|fuel IH]; intros o k Ho Hk; [lia|]. cbn [order_of].
  destruct (decide (k = 0)) as [->|]; [change (2 ^ 0 >? 1) with false; cbv iota; lia|].
  assert (2 ^ 1 ≤ 2 ^ k) by (apply Z.pow_le_mono_r; lia).
  destruct (Z.gtb_spec (2 ^ k) 1); [|lia].
  rewrite Z.shiftr_div_pow2, <- Z.pow_sub_r by lia. rewrite IH by lia. lia.
Qed.

(** Giving the pages and then the descriptor back. *)
Lemma give_back_spec h ptrs raw p n g order :
  heap_good (World h ptrs raw) → ptrs !! p = Some n → 0 ≤ order < 32 → run g (2 ^ order) ⊆ raw →
  ∃ ps h', pfree (g * 4096) order (pages h) = Ret ps ∧ anx_free p (h <| pages := ps |>) = Ret h' ∧
    heap_good (World h' (delete p ptrs) (raw ∖ run g (2 ^ order))).
Proof.
  intros Hg Hp Ho Hsub. destruct (Hg) as (B & Hinv & Hm). cbn [w_heap w_ptrs w_raw] in *.
  destruct (pfree_law (pages h) g order (hi_pages _ _ _ Hinv) Ho) as (ps & E & _ & _).
  { intros q Hq. apply (hi_raw _ _ _ Hinv), Hsub, elem_of_run, Hq. }
  pose proof (heap_step_good _ _ Hg (step_page_free h ptrs raw g order ps Ho Hsub E)) as Hg'.
  destruct (good_free _ _ _ _ _ Hg' Hp) as (h' & Ef & Hg''). eauto.
Qed.

Lemma arena_create_spec h ptrs raw n :
  heap_good (World h ptrs raw) → 0 ≤ n ≤ MAX_REQUEST →
  ∃ p h', anx_arena_create n h = Ret (p, h') ∧
  (p = 0 ∧ heap_good (World h' ptrs raw) ∨
   ∃ g order, p ≠ 0 ∧ ptrs !! p = None ∧ 0 < g ∧ 0 ≤ order < 32 ∧ run g (2 ^ order) ## raw ∧
     heap_good (World h' (<[p := 32]> ptrs) (raw ∪ run g (2 ^ order))) ∧
     arena_rep h' p (g * 4096) (2 ^ order * 4096) 0 ∧ arena_alloc_pages h' p = 2 ^ order ∧
     n ≤ 2 ^ order * 4096 ∧ 2 ^ order * 4096 ≤ 2 ^ 43 ∧ g * 4096 + 2 ^ order * 4096 < 2 ^ 64).
Proof.
  intros Hgood Hn. destruct (create_prefix h ptrs raw n Hgood Hn) as (order & Eo & Ho & Hfit & Hc).
  unfold anx_arena_create. rewrite Eo. cbn [obind].
  destruct Hc as [E|(g & ps & p & h' & E & Hg & Hend & Hraw & Ea & Hc)]; rewrite E; cbn [obind].
  { eexists 0, _. split; [reflexivity|]. left. split; [done|]. by destruct h. }
  destruct (Z.eqb_spec (g * 4096) 0); [lia|]. unfold ARENA_SIZE. rewrite Ea. cbn [obind].
  destruct Hc as [(-> & ps' & Ef & Hg')|(Hp & Hnone & Hg')].
  { rewrite Z.eqb_refl, Ef. cbn [obind]. eexists 0, _. split; [reflexivity|]. by left. }
  destruct (Z.eqb_spec p 0); [done|]. rewrite !Z.shiftl_1_l.
  assert (0 < 2 ^ order) by (apply Z.pow_pos_nonneg; lia).
  assert (2 ^ order ≤ 2 ^ 31) by (apply Z.pow_le_mono_r; lia).
  eexists p, _. split; [reflexivity|]. right. exists g, order.
  destruct (good_ptr _ _ _ p 32 Hg' ltac:(apply lookup_insert_eq)) as (Hp8 & Hal & _ & _).
  split_and!; [done|done|done|lia|lia|by intros q Hq Hq'; apply (Hraw q)|..|lia|lia|lia].
  - unfold store_low. eapply (good_store _ _ _ p 32); [|apply lookup_insert_eq|lia|Z.to_euclidean_division_equations; lia].
    do 3 (eapply (good_store _ _ _ p 32); [|apply lookup_insert_eq|lia|Z.to_euclidean_division_equations; lia]). done.
  - constructor; unfold arena_base, arena_size, arena_used, store_low, store; cbn;
      rewrite ?ldw_insert_ne by lia; rewrite ?ldw_insert_eq; [done| |done].
    rewrite u64_small; [done|unfold is_u64, PAGE_SIZE; lia].
  - unfold arena_alloc_pages, store_low, store. cbn. rewrite ldw_insert_eq, Z.mod_add by lia. apply Z.mod_small. lia.
Qed.

(** ** Pools *)

(** The objects of a pool. *)
Definition is_obj (base osz cnt a : Z) : Prop := ∃ i, 0 ≤ i < cnt ∧ a = base + i * osz.

(** The free objects form the list at the descriptor; those in [out] are handed out. *)
Record pool_inv h (p base osz cnt : Z) (out : gset Z) : Prop := {
  pi_list : ∃ L, chain (mem h) (pool_free_list h p) L ∧ NoDup L ∧ ∀ a, a ∈ L ↔ is_obj base osz cnt a ∧ a ∉ out;
  pi_out : ∀ a, a ∈ out → is_obj base osz cnt a;
}.

(** Sizes of a pool and the descriptor outside its objects. *)
Record pool_geom (p base osz cnt : Z) : Prop := {
  pg_ptr : p ≠ 0;
  pg_base : 0 < base;
  pg_osz : 8 ≤ osz;
  pg_cnt : 0 ≤ cnt;
  pg_desc : p + 32 ≤ base ∨ base + cnt * osz ≤ p;
}.

Inductive pool_step (p base osz cnt : Z) : heap_state P * gset Z → heap_state P * gset Z → Prop :=
  | pool_step_alloc h out q h' : anx_pool_alloc p h = (q, h') →
      pool_step p base osz cnt (h, out) (h', (if q =? 0 then out else {[q]} ∪ out))
  | pool_step_free h out q : q ∈ out → pool_step p base osz cnt (h, out) (anx_pool_free p q h, out ∖ {[q]})
  | pool_step_write h out q x v : q ∈ out → q ≤ x → x < q + osz →
      pool_step p base osz cnt (h, out) (store x v h, out).

Lemma obj_range p base osz cnt a : pool_geom p base osz cnt → is_obj base osz cnt a →
  base ≤ a ∧ a + osz ≤ base + cnt * osz ∧ a ≠ 0 ∧ a ≠ p + 8.
Proof. intros [] (i & Hi & ->). split_and!; nia. Qed.

Lemma obj_apart base osz cnt a b : 0 < osz → is_obj base osz cnt a → is_obj base osz cnt b → a ≠ b → apart a osz b osz.
Proof. intros Ho (i & Hi & ->) (j & Hj & ->) Hne. unfold apart. destruct (Z.lt_total i j) as [|[->|]]; [left; nia|done|right; nia]. Qed.

Lemma pool_alloc_spec h p base osz cnt out :
  pool_geom p base osz cnt → pool_inv h p base osz cnt out →
  ∃ q h', anx_pool_alloc p h = (q, h') ∧
    (q = 0 ∧ h' = h ∧ (∀ a, is_obj base osz cnt a → a ∈ out) ∨
     q ≠ 0 ∧ is_obj base osz cnt q ∧ (q ∉ out) ∧ pool_inv h' p base osz cnt ({[q]} ∪ out) ∧
     ∀ x, x ≠ p + 8 → mem h' !! x = mem h !! x).
Proof.
  intros Hg [(L & Hch & Hnd & HL) HO]. unfold anx_pool_alloc. destruct (Z.eqb_spec p 0); [by destruct Hg|]. cbn [orb].
  destruct L as [|a L]; cbn [chain] in Hch.
  - rewrite Hch, Z.eqb_refl. exists 0, h. split; [done|]. left. split_and!; [done|done|]. intros a Ha.
    destruct (decide (a ∈ out)) as [|Hn]; [done|]. by destruct (not_elem_of_nil a (proj2 (HL a) (conj Ha Hn))).
  - destruct Hch as (Ha & Ha0 & Hch). rewrite Ha. destruct (Z.eqb_spec a 0); [done|].
    destruct (proj1 (HL a) (list_elem_of_here _ _)) as [Hobj HnO]. apply NoDup_cons in Hnd as [HaL Hnd].
    exists a, (store (p + 8) (ldw (mem h) a) h). split; [done|]. right. split_and!; [done|done|done| |].
    + constructor.
      * exists L. unfold pool_free_list, store. cbn. rewrite ldw_insert_eq. split_and!; [|done|].
        -- eapply chain_frame; [|exact Hch]. intros x Hx. apply ldw_insert_ne.
           apply (obj_range p base osz cnt x Hg), HL. by right.
        -- intros x. specialize (HL x). rewrite elem_of_cons in HL. rewrite elem_of_union, elem_of_singleton.
           destruct (decide (x = a)) as [->|]; naive_solver.
      * intros x [->%elem_of_singleton|Hx]%elem_of_union; auto.
    + intros x Hx. cbn. by rewrite lookup_insert_ne by done.
Qed.

Lemma pool_push_spec h p base osz cnt out q :
  pool_geom p base osz cnt → pool_inv h p base osz cnt out → q ∈ out →
  pool_inv (anx_pool_free p q h) p base osz cnt (out ∖ {[q]}) ∧
  ∀ x, x ≠ p + 8 → x ≠ q → mem (anx_pool_free p q h) !! x = mem h !! x.
Proof.
  intros Hg [(L & Hch & Hnd & HL) HO] Hq. destruct (obj_range p base osz cnt q Hg (HO q Hq)) as (_ & _ & Hq0 & Hqp).
  unfold anx_pool_free. destruct (Z.eqb_spec p 0), (Z.eqb_spec q 0); [by destruct Hg..|done|]. cbn [orb].
  split; [constructor|].
  - exists (q :: L). unfold pool_free_list, pool_push, store. cbn [mem update_field chain].
    rewrite ldw_insert_eq, (ldw_insert_ne _ (p + 8)), ldw_insert_eq by done.
    split_and!; [done|done| | |].
    + eapply chain_frame; [|exact Hch]. intros x Hx.
      destruct (obj_range p base osz cnt x Hg) as (_ & _ & _ & Hxp); [by apply HL|].
      rewrite !ldw_insert_ne; [done| |done]. intros ->. by apply HL in Hx as [_ ?].
    + constructor; [|done]. intros Hx. by apply HL in Hx as [_ ?].
    + intros x. rewrite elem_of_cons, HL, elem_of_difference, elem_of_singleton. specialize (HO x).
      destruct (decide (x = q)) as [->|]; naive_solver.
  - intros x [Hx _]%elem_of_difference. auto.
  - intros x Hx Hxq. unfold pool_push, store. cbn. by rewrite !lookup_insert_ne by done.
Qed.

Lemma pool_step_inv p base osz cnt s s' :
  pool_geom p base osz cnt → pool_inv s.1 p base osz cnt s.2 → pool_step p base osz cnt s s' →
  pool_inv s'.1 p base osz cnt s'.2.
Proof.
  intros Hg Hinv Hs. destruct Hs as [h out q h' Ha|h out q Hq|h out q x v Hq Hx1 Hx2]; cbn [fst snd] in *.
  - destruct (pool_alloc_spec h p base osz cnt out Hg Hinv) as (q' & h1 & E & Hr). rewrite E in Ha. injection Ha as -> ->.
    destruct Hr as [(-> & -> & _)|(Hq0 & _ & _ & ? & _)]; [done|]. by destruct (Z.eqb_spec q 0).
  - by apply pool_push_spec.
  - destruct Hinv as [(L & Hch & Hnd & HL) HO]. constructor; [|done]. exists L.
    destruct (obj_range p base osz cnt q Hg (HO q Hq)) as (Hr1 & Hr2 & _ & _).
    assert (x ≠ p + 8) by (destruct Hg; nia).
    unfold pool_free_list in *. cbn. rewrite ldw_insert_ne by done. split_and!; [|done|done].
    eapply chain_frame; [|exact Hch]. intros y Hy. apply ldw_insert_ne. intros ->. apply HL in Hy as [Hy HyO].
    destruct (obj_apart base osz cnt q x ltac:(destruct Hg; lia) (HO q Hq) Hy ltac:(by intros ->)); destruct Hg; lia.
Qed.

(** Building the list of [cnt] objects. *)
Lemma pool_build h ptrs raw p base osz cnt :
  heap_good (World h ptrs raw) → ptrs !! p = Some 32 → pool_geom p base osz cnt →
  (∀ x, base ≤ x < base + cnt * osz → x / 4096 ∈ raw) → base + cnt * osz < 2 ^ 64 → pool_free_list h p = 0 →
  let h' := foldl (λ h i, pool_push p (u64 (base + u64 (i * osz))) h) h (seqZ 0 cnt) in
  heap_good (World h' ptrs raw) ∧ pool_inv h' p base osz cnt ∅ ∧
  (∀ x, p ≤ x < p + 32 → x ≠ p + 8 → mem h' !! x = mem h !! x).
Proof.
  intros Hgood Hp Hg Hraw Hend Hempty.
  destruct (good_ptr _ _ _ _ _ Hgood Hp) as (Hp8 & Hal & _ & _).
  assert (∀ n, 0 ≤ n → n ≤ cnt →
    let h' := foldl (λ h i, pool_push p (u64 (base + u64 (i * osz))) h) h (seqZ 0 n) in
    heap_good (World h' ptrs raw) ∧
    (∃ L, chain (mem h') (pool_free_list h' p) L ∧ NoDup L ∧ ∀ a, a ∈ L ↔ is_obj base osz n a) ∧
    (∀ x, p ≤ x < p + 32 → x ≠ p + 8 → mem h' !! x = mem h !! x)) as Hloop.
  2: { destruct (Hloop cnt (pg_cnt _ _ _ _ Hg) ltac:(lia)) as (H1 & (L & Hch & Hnd & HL) & H3). split_and!; [done| |done].
       constructor; [|intros a Ha; by apply elem_of_empty in Ha]. exists L. split_and!; [done|done|].
       intros a. rewrite HL. split; [|by intros [? _]]. intros Ha. split; [done|]. apply not_elem_of_empty. }
  apply (natlike_ind (λ n, n ≤ cnt → _)).
  { intros _. cbn. split_and!; [done| |done]. exists []. split_and!; [done|constructor|]. intros a. rewrite elem_of_nil.
    split; [done|]. intros (i & Hi & _). lia. }
  intros n Hn IH Hle. destruct IH as (Hgood' & (L & Hch & Hnd & HL) & Hfr); [lia|].
  unfold Z.succ. rewrite seqZ_snoc, foldl_app by lia. cbn [foldl]. rewrite Z.add_0_l.
  set (h' := foldl _ h _) in *.
  assert (0 ≤ n * osz ∧ n * osz + osz ≤ cnt * osz) by (destruct Hg; nia).
  rewrite (u64_small (n * osz)) by (unfold is_u64; destruct Hg; lia).
  rewrite (u64_small (base + n * osz)) by (unfold is_u64; destruct Hg; lia).
  set (a := base + n * osz).
  assert (is_obj base osz cnt a) as Hobj by (exists n; split; [lia|done]).
  destruct (obj_range p base osz cnt a Hg Hobj) as (_ & _ & Ha0 & Hap).
  split_and!.
  - eapply (good_store _ _ _ p 32); [|done|lia|Z.to_euclidean_division_equations; lia].
    apply good_page_store; [done|]. apply Hraw. unfold a. destruct Hg; lia.
  - exists (a :: L). unfold pool_free_list, pool_push, store. cbn [mem update_field chain].
    rewrite ldw_insert_eq, (ldw_insert_ne _ (p + 8)), ldw_insert_eq by done.
    assert (a ∉ L) as HaL.
    { rewrite HL. intros (i & Hi & E). unfold a in E. destruct Hg; nia. }
    split_and!; [done|done| |by constructor|].
    + eapply chain_frame; [|exact Hch]. intros x Hx.
      destruct (obj_range p base osz cnt x Hg) as (_ & _ & _ & Hxp).
      { apply HL in Hx as (i & Hi & ->). exists i. split; [lia|done]. }
      rewrite !ldw_insert_ne; [done| |done]. by intros ->.
    + intros x. rewrite elem_of_cons, HL. split.
      * intros [->|(i & Hi & ->)]; [exists n|exists i]; (split; [lia|done]).
      * intros (i & Hi & ->). destruct (decide (i = n)) as [->|]; [by left|right]. exists i. split; [lia|done].
  - intros x Hx Hx8. unfold pool_push, store. cbn. rewrite !lookup_insert_ne; [by apply Hfr| |done].
    unfold a. destruct Hg; lia.
Qed.

(** What a run of pool operations keeps: the world is good, the pool too, and the
    descriptor's other fields are as the constructor left them. *)
Record pool_world (ptrs : gmap Z Z) (raw : gset Z) (p base osz cnt : Z) h0 (s : heap_state P * gset Z) : Prop := {
  pw_good : heap_good (World s.1 ptrs raw);
  pw_inv : pool_inv s.1 p base osz cnt s.2;
  pw_fields : ∀ x, p ≤ x < p + 32 → x ≠ p + 8 → mem s.1 !! x = mem h0 !! x;
}.

Lemma pool_step_world ptrs raw p base osz cnt h0 s s' :
  ptrs !! p = Some 32 → pool_geom p base osz cnt → (∀ x, base ≤ x < base + cnt * osz → x / 4096 ∈ raw) →
  pool_world ptrs raw p base osz cnt h0 s → pool_step p base osz cnt s s' → pool_world ptrs raw p base osz cnt h0 s'.
Proof.
  intros Hp Hg Hraw [Hgood Hinv Hf] Hs. destruct (good_ptr _ _ _ _ _ Hgood Hp) as (Hp8 & Hal & _ & _).
  assert ((p + 8) mod 8 = 0) by (Z.to_euclidean_division_equations; lia).
  constructor; [|by eapply pool_step_inv|].
  - destruct Hs as [h out q h' Ha|h out q Hq|h out q x v Hq Hx1 Hx2]; cbn [fst snd] in *.
    + unfold anx_pool_alloc in Ha. destruct (_ || _); injection Ha as <- <-; [done|].
      by eapply (good_store _ _ _ p 32); [..|lia|].
    + unfold anx_pool_free. destruct (_ || _); [done|]. eapply (good_store _ _ _ p 32); [|done|lia|done].
      apply good_page_store; [done|]. apply Hraw. destruct (obj_range p base osz cnt q Hg) as (? & ? & _); [by apply Hinv|].
      destruct Hg; lia.
    + apply good_page_store; [done|]. apply Hraw. destruct (obj_range p base osz cnt q Hg) as (? & ? & _); [by apply Hinv|]. lia.
  - intros x Hx Hx8. rewrite <- (Hf x Hx Hx8).
    assert (∀ q, q ∈ s.2 → ∀ y, q ≤ y < q + osz → x ≠ y) as Hout.
    { intros q Hq y Hy. destruct (obj_range p base osz cnt q Hg) as (? & ? & _); [by apply Hinv|]. destruct Hg; lia. }
    destruct Hs as [h out q h' Ha|h out q Hq|h out q y v Hq Hy1 Hy2]; cbn [fst snd] in *.
    + unfold anx_pool_alloc in Ha. destruct (_ || _); injection Ha as <- <-; [done|]. cbn. by rewrite lookup_insert_ne by done.
    + destruct (pool_push_spec h p base osz cnt out q Hg Hinv Hq) as [_ Hfr]. apply Hfr; [done|].
      apply (Hout q Hq). destruct Hg; lia.
    + cbn. rewrite lookup_insert_ne; [done|]. intros ->. by apply (Hout q Hq x).
Qed.

Lemma pool_run_world ptrs raw p base osz cnt h0 s s' :
  ptrs !! p = Some 32 → pool_geom p base osz cnt → (∀ x, base ≤ x < base + cnt * osz → x / 4096 ∈ raw) →
  rtc (pool_step p base osz cnt) s s' →
  pool_world ptrs raw p base osz cnt h0 s → pool_world ptrs raw p base osz cnt h0 s'.
Proof. intros Hp Hg Hraw. induction 1; eauto using pool_step_world. Qed.

Lemma pool_create_spec h ptrs raw osz cnt :
  heap_good (World h ptrs raw) → 0 ≤ cnt < 2 ^ 32 → 0 ≤ osz → Z.max osz 8 * cnt ≤ MAX_REQUEST →
  ∃ p h', anx_pool_create osz cnt h = Ret (p, h') ∧
  (p = 0 ∧ heap_good (World h' ptrs raw) ∨
   ∃ g order, let raw' := raw ∪ run g (2 ^ order) in let ptrs' := <[p := 32]> ptrs in
     ptrs !! p = None ∧ 0 ≤ order < 32 ∧ run g (2 ^ order) ## raw ∧ pool_geom p (g * 4096) (Z.max osz 8) cnt ∧
     (∀ x, g * 4096 ≤ x < g * 4096 + cnt * Z.max osz 8 → x / 4096 ∈ run g (2 ^ order)) ∧
     pool_world ptrs' raw' p (g * 4096) (Z.max osz 8) cnt h' (h', ∅) ∧
     pool_base h' p = g * 4096 ∧ pool_alloc_pages h' p = 2 ^ order).
Proof.
  intros Hgood Hcnt Hosz Htot. unfold anx_pool_create.
  assert ((if osz <? 8 then 8 else osz) = Z.max osz 8) as -> by (destruct (Z.ltb_spec osz 8); lia).
  set (o := Z.max osz 8) in *. assert (0 ≤ o * cnt) by (unfold o; nia).
  rewrite (u64_small (o * cnt)) by (unfold is_u64, MAX_REQUEST in *; lia).
  destruct (create_prefix h ptrs raw (o * cnt) Hgood ltac:(lia)) as (order & Eo & Ho & Hfit & Hc).
  rewrite Eo. cbn [obind].
  destruct Hc as [E|(g & ps & p & h' & E & Hg & Hend & Hraw & Ea & Hc)]; rewrite E; cbn [obind].
  { eexists 0, _. split; [reflexivity|]. left. split; [done|]. by destruct h. }
  destruct (Z.eqb_spec (g * 4096) 0); [lia|]. unfold POOL_SIZE. rewrite Ea. cbn [obind].
  destruct Hc as [(-> & ps' & Ef & Hg')|(Hp & Hnone & Hg')].
  { rewrite Z.eqb_refl, Ef. cbn [obind]. eexists 0, _. split; [reflexivity|]. by left. }
  destruct (Z.eqb_spec p 0); [done|]. rewrite !Z.shiftl_1_l.
  assert (0 < 2 ^ order) by (apply Z.pow_pos_nonneg; lia).
  destruct (good_ptr _ _ _ p 32 Hg' ltac:(apply lookup_insert_eq)) as (Hp8 & Hal & _ & Hdesc).
  assert (∀ x, g * 4096 ≤ x < g * 4096 + cnt * o → x / 4096 ∈ run g (2 ^ order)) as Hobj.
  { intros x Hx. apply elem_of_run. Z.to_euclidean_division_equations; nia. }
  assert (pool_geom p (g * 4096) o cnt) as Hgeom.
  { constructor; [done|lia|unfold o; lia|lia|].
    destruct (Z.le_gt_cases (p + 32) (g * 4096)); [by left|]. destruct (Z.le_gt_cases (g * 4096 + cnt * o) p); [by right|].
    exfalso. apply (Hdesc (Z.max p (g * 4096))); [nia|]. apply elem_of_union_r, elem_of_run.
    assert (g * 4096 ≤ Z.max p (g * 4096) < g * 4096 + 2 ^ order * 4096) by nia. Z.to_euclidean_division_equations; nia. }
  set (h1 := store (p + 8) 0 _).
  assert (heap_good (World h1 (<[p := 32]> ptrs) (raw ∪ run g (2 ^ order)))) as Hg1.
  { do 4 (eapply (good_store _ _ _ p 32); [|apply lookup_insert_eq|lia|Z.to_euclidean_division_equations; lia]). done. }
  destruct (pool_build h1 (<[p := 32]> ptrs) (raw ∪ run g (2 ^ order)) p (g * 4096) o cnt Hg1 (lookup_insert_eq _ _ _) Hgeom)
    as (Hg2 & Hinv2 & Hfr); [|lia|unfold pool_free_list, h1, store; cbn; apply ldw_insert_eq|].
  { intros x Hx. apply elem_of_union_r. by apply Hobj. }
  eexists p, _. split; [reflexivity|]. right. exists g, order. cbv zeta.
  split_and!; [done|lia|lia|by intros q Hq Hq'; apply (Hraw q)|done|done|by constructor|..].
  - unfold pool_base, ldw. rewrite Hfr by lia. unfold h1, store. cbn. rewrite !lookup_insert_ne by lia. by rewrite lookup_insert_eq.
  - unfold pool_alloc_pages, ldw. rewrite Hfr by lia. unfold h1, store. cbn. rewrite !lookup_insert_ne by lia.
    rewrite lookup_insert_eq.
    change ((cnt + 2 ^ order * 2 ^ 32) / 2 ^ 32 = 2 ^ order). rewrite Z.div_add, Z.div_small by lia. lia.
Qed.

(** object pools: in any kernel state that the heap can reach, creating a pool of
    [cnt] objects returns null or a pool such that, after any sequence of pool
    allocations, releases of objects handed out and stores to them, (1) the objects
    handed out are distinct objects of the pool, do not overlap each other and lie
    on pages nobody else held; (2) a further allocation returns null exactly when all
    [cnt] objects are out, and otherwise an object that was not; (3) destroying the pool
    succeeds and leaves a kernel state in which its pages and descriptor are no
    longer held.  (Object sizes are multiples of 8, so that a node is a word.) *)
Theorem pool_correct ps m h ptrs raw osz cnt :
  page_ok ps → rtc heap_step (World (heap_boot ps m) ∅ ∅) (World h ptrs raw) →
  0 ≤ cnt < 2 ^ 32 → 0 ≤ osz → osz mod 8 = 0 → Z.max osz 8 * cnt ≤ MAX_REQUEST →
  ∃ p h', anx_pool_create osz cnt h = Ret (p, h') ∧
  (p = 0 ∨ ∃ base, ∀ h'' out, rtc (pool_step p base (Z.max osz 8) cnt) (h', ∅) (h'', out) →
    (∀ q, q ∈ out → is_obj base (Z.max osz 8) cnt q ∧ ∀ x, q ≤ x < q + Z.max osz 8 → x / 4096 ∉ raw) ∧
    (∀ q q', q ∈ out → q' ∈ out → q ≠ q' → apart q (Z.max osz 8) q' (Z.max osz 8)) ∧
    (∃ q h3, anx_pool_alloc p h'' = (q, h3) ∧
      (q = 0 ↔ ∀ a, is_obj base (Z.max osz 8) cnt a → a ∈ out) ∧
      (q ≠ 0 → is_obj base (Z.max osz 8) cnt q ∧ (q ∉ out))) ∧
    (∃ h4, anx_pool_destroy p h'' = Ret h4 ∧ heap_good (World h4 ptrs raw))).
Proof.
  intros Hps Hrun Hcnt Hosz _ Htot. pose proof (run_good _ _ Hrun (boot_good ps m Hps)) as Hgood.
  destruct (pool_create_spec h ptrs raw osz cnt Hgood Hcnt Hosz Htot) as (p & h' & E & Hc). exists p, h'. split; [done|].
  destruct Hc as [[-> _]|(g & order & Hnone & Ho & Hdisj & Hgeom & Hobj & Hpw & Hbase & Hpages)]; [by left|right].
  set (o := Z.max osz 8) in *. exists (g * 4096). intros h'' out Hsteps.
  assert (pool_world (<[p := 32]> ptrs) (raw ∪ run g (2 ^ order)) p (g * 4096) o cnt h' (h'', out)) as [Hg' Hinv' Hf'].
  { eapply pool_run_world; [apply lookup_insert_eq|done| |exact Hsteps|done].
    intros x Hx. apply elem_of_union_r. by apply Hobj. }
  cbn [fst snd] in *. split_and!.
  - intros q Hq. split; [by apply Hinv'|]. intros x Hx Hr. apply (Hdisj (x / 4096)); [|done]. apply Hobj.
    destruct (obj_range p (g * 4096) o cnt q Hgeom) as (? & ? & _); [by apply Hinv'|]. lia.
  - intros q q' Hq Hq' Hne. eapply obj_apart; [unfold o; lia|by apply Hinv'|by apply Hinv'|done].
  - destruct (pool_alloc_spec h'' p (g * 4096) o cnt out Hgeom Hinv') as (q & h3 & Ea & Hr). exists q, h3.
    split_and!; [done|..]; destruct Hr as [(-> & _ & Hall)|(Hq & Hqo & Hqn & _)]; try done.
    split; [done|]. intros Hall. by destruct (Hqn (Hall q Hqo)).
  - unfold anx_pool_destroy. destruct (Z.eqb_spec p 0); [by destruct Hgeom|].
    assert (pool_alloc_pages h'' p = 2 ^ order) as ->.
    { rewrite <- Hpages. unfold pool_alloc_pages, ldw. by rewrite Hf' by lia. }
    assert (pool_base h'' p = g * 4096) as ->.
    { rewrite <- Hbase. unfold pool_base, ldw. by rewrite Hf' by lia. }
    rewrite (order_of_spec 32 0 order) by lia. rewrite Z.add_0_l.
    destruct (give_back_spec h'' (<[p := 32]> ptrs) _ p 32 g order Hg' (lookup_insert_eq _ _ _) Ho) as (ps' & h4 & -> & Hfree & Hg4);
      [set_solver|]. cbn [obind]. exists h4. split; [done|].
    rewrite delete_insert_id in Hg4 by done.
    replace ((raw ∪ run g (2 ^ order)) ∖ run g (2 ^ order)) with raw in Hg4 by set_solver. done.
Qed.

Lemma arena_allocs_good ptrs raw p ns h qs h' :
  heap_good (World h ptrs raw) → ptrs !! p = Some 32 → arena_allocs p ns h = (qs, h') → heap_good (World h' ptrs raw).
Proof.
  intros Hg Hp. revert h qs Hg. induction ns as [|n ns IH]; intros h qs Hg; cbn [arena_allocs]; [by intros [= _ <-]|].
  destruct (anx_arena_alloc p n h) as [q h1] eqn:Ea. destruct (arena_allocs p ns h1) as [qs1 h2] eqn:E. intros [= _ <-].
  eapply IH; [|exact E]. unfold anx_arena_alloc in Ea. destruct (good_ptr _ _ _ _ _ Hg Hp) as (_ & Hal & _ & _).
  destruct (p =? 0); [by injection Ea as _ <-|]. destruct (_ >? _); injection Ea as _ <-; [done|].
  eapply (good_store _ _ _ p 32); [done|done|lia|Z.to_euclidean_division_equations; lia].
Qed.

(** arenas are bump allocators: in any kernel state that the heap can reach,
    creating an arena for [n] bytes returns null or an arena of at least [n] bytes on
    pages nobody else holds; whatever requests are then made of it, the pointers
    are those of the reference allocator (the offset reached, advanced by the size
    rounded up to 8 bytes; null exactly when the rest is too small), every region
    lies inside the arena, no two overlap, only the field [used] is written, a reset
    makes the arena empty again, and destroying it gives its pages and
    descriptor back. *)
Theorem arena_correct ps m h ptrs raw n :
  page_ok ps → rtc heap_step (World (heap_boot ps m) ∅ ∅) (World h ptrs raw) → 0 ≤ n ≤ MAX_REQUEST →
  ∃ p h', anx_arena_create n h = Ret (p, h') ∧
  (p = 0 ∨ ∃ base size, n ≤ size ∧ (∀ x, base ≤ x < base + size → x / 4096 ∉ raw) ∧
    ∀ ns os u, Forall (λ n, 0 ≤ n ≤ MAX_REQUEST) ns → bump size 0 ns = (os, u) →
    ∃ h'', arena_allocs p ns h' = (map (offset_ptr base) os, h'') ∧
      (∀ x, x ≠ p + 16 → mem h'' !! x = mem h' !! x) ∧
      (∀ i k o, os !! i = Some (Some o) → ns !! i = Some k → base ≤ base + o ∧ base + o + k ≤ base + size) ∧
      (∀ i j k k' o o', i ≠ j → os !! i = Some (Some o) → os !! j = Some (Some o') → ns !! i = Some k → ns !! j = Some k' →
         apart (base + o) k (base + o') k') ∧
      arena_rep (anx_arena_reset p h'') p base size 0 ∧
      ∃ h4, anx_arena_destroy p h'' = Ret h4 ∧ heap_good (World h4 ptrs raw)).
Proof.
  intros Hps Hrun Hn. pose proof (run_good _ _ Hrun (boot_good ps m Hps)) as Hgood.
  destruct (arena_create_spec h ptrs raw n Hgood Hn) as (p & h' & E & Hc). exists p, h'. split; [done|].
  destruct Hc as [[-> _]|(g & order & Hp & Hnone & Hg & Ho & Hdisj & Hgood' & Hrep & Hpages & Hfit & Hmax & Hend)]; [by left|right].
  assert (0 < 2 ^ order) by (apply Z.pow_pos_nonneg; lia).
  exists (g * 4096), (2 ^ order * 4096). split_and!; [done| |].
  { intros x Hx Hr. apply (Hdisj (x / 4096)); [|done]. apply elem_of_run. Z.to_euclidean_division_equations; nia. }
  intros ns os u Hns Eb.
  destruct (arena_bump h' p (g * 4096) (2 ^ order * 4096) ns os u Hrep Hp ltac:(lia) ltac:(lia) Hend Hns Eb)
    as (h'' & Ea & Hf & Hin & Hap & Hreset). exists h''. split_and!; [done..|].
  pose proof (arena_allocs_good _ _ _ _ _ _ _ Hgood' (lookup_insert_eq _ _ _) Ea) as Hg''.
  unfold anx_arena_destroy. destruct (Z.eqb_spec p 0); [done|].
  assert (arena_alloc_pages h'' p = 2 ^ order) as ->.
  { rewrite <- Hpages. unfold arena_alloc_pages, ldw. by rewrite Hf by lia. }
  assert (arena_base h'' p = g * 4096) as ->.
  { rewrite <- (ar_base _ _ _ _ _ Hrep). unfold arena_base, ldw. by rewrite Hf by lia. }
  rewrite (order_of_spec 32 0 order) by lia. rewrite Z.add_0_l.
  destruct (give_back_spec h'' (<[p := 32]> ptrs) _ p 32 g order Hg'' (lookup_insert_eq _ _ _) Ho) as (ps' & h4 & -> & Hfree & Hg4);
    [set_solver|]. cbn [obind]. exists h4. split; [done|].
  rewrite delete_insert_id in Hg4 by done.
  replace ((raw ∪ run g (2 ^ order)) ∖ run g (2 ^ order)) with raw in Hg4 by set_solver. done.
Qed.

(** A request just below [2^64] is rounded up to 0 bytes and answered with a pointer. *)
Lemma arena_request_wraps h p base size used :
  arena_rep h p base size used → p ≠ 0 → 0 < base → 0 ≤ used ≤ size → base + size < 2 ^ 64 →
  anx_arena_alloc p (2 ^ 64 - 1) h = (base + used, store (p + 16) used h).
Proof.
  intros [Hb Hs Hu] Hp Hbase Hused Hend. unfold anx_arena_alloc. destruct (Z.eqb_spec p 0); [done|].
  change (Z.land (u64 (2 ^ 64 - 1 + 7)) (not64 7)) with 0. rewrite Hb, Hs, Hu, Z.add_0_r.
  rewrite (u64_small used), (u64_small (base + used)) by (unfold is_u64; lia). by destruct (Z.gtb_spec used size); [lia|].
Qed.
End proofs.

(** ** Evaluations over the page allocator *)

Lemma demo_start : rtc heap_step (World demo_boot ∅ ∅) (World demo_boot ∅ ∅).
Proof. apply rtc_refl. Qed.

(** Five objects of 24 bytes, in a kernel that has just booted. *)
Lemma pool_correct_witness :
  ∃ p h', anx_pool_create 24 5 demo_boot = Ret (p, h') ∧
    (p = 0 ∨ ∃ q h3, anx_pool_alloc p h' = (q, h3)).
Proof.
  destruct (pool_correct (PL := page_laws) Page.demo ∅ demo_boot ∅ ∅ 24 5 demo_provider demo_start) as (p & h' & E & Hr);
    [lia|lia|done|unfold MAX_REQUEST; lia|].
  exists p, h'. split; [done|]. destruct Hr as [->|[base Hr]]; [by left|right].
  destruct (Hr h' ∅ (rtc_refl _ _)) as (_ & _ & (q & h3 & Ea & _) & _). by exists q, h3.
Defined.

(** An arena for 1000 bytes: requests of 10 and 20 bytes are placed at 0 and 16. *)
Lemma arena_correct_witness :
  ∃ p h', anx_arena_create 1000 demo_boot = Ret (p, h') ∧
    (p = 0 ∨ ∃ base size, 1000 ≤ size ∧ ∀ os u, bump size 0 [10; 20] = (os, u) →
      ∃ h'', arena_allocs p [10; 20] h' = (map (offset_ptr base) os, h'')).
Proof.
  destruct (arena_correct (PL := page_laws) Page.demo ∅ demo_boot ∅ ∅ 1000 demo_provider demo_start) as (p & h' & E & Hr);
    [unfold MAX_REQUEST; lia|].
  exists p, h'. split; [done|]. destruct Hr as [->|(base & size & Hs & _ & Hr)]; [by left|right].
  exists base, size. split; [done|]. intros os u Eb.
  destruct (Hr [10; 20] os u) as (h'' & Ea & _); [repeat constructor; unfold MAX_REQUEST; lia|done|]. by exists h''.
Defined.
End Pool.
