(* ===== verification/Codec.v ===== *)
(** * Codecs of the kernel library: [kernel/lib/base64.c], [utf8.c], [crc32.c], [civil.c]

    Buffers are lists of bytes; a buffer capacity is an argument; an output
    buffer is returned as the list of what was written to it. *)

From stdpp Require Import strings.
From S2P Require Import Prelude.
#[local] Open Scope Z_scope.

(** ** Bytes and masks *)

Definition is_byte (b : Z) : Prop := 0 ≤ b < 256.

Lemma lor_add x y k : 0 ≤ k → 0 ≤ y < 2 ^ k → Z.lor (Z.shiftl x k) y = x * 2 ^ k + y.
Proof.
  intros Hk Hy. rewrite <- Z.shiftl_mul_pow2 by done. symmetry. apply Z.add_nocarry_lor, Z.bits_inj'.
  intros n Hn. rewrite Z.land_spec, Z.bits_0. destruct (Z.lt_ge_cases n k).
  - by rewrite Z.shiftl_spec_low.
  - rewrite <- (Z.mod_small y (2 ^ k)), Z.mod_pow2_bits_high by lia. apply andb_false_r.
Qed.

Lemma land_low x k : 0 ≤ k → Z.land x (Z.ones k) = x mod 2 ^ k.
Proof. apply Z.land_ones. Qed.

Module Base64.

(** The character ['=']. *)
Definition PAD : Z := 61.

(** The alphabet as the C string it is, and the character at an index of it. *)
Definition B64_ENC_string : list Z :=
  map (λ a, Z.of_N (Ascii.N_of_ascii a))
    (String.list_ascii_of_string "ABCDEFGHIJKLMNOPQRSTUVWXYZabcdefghijklmnopqrstuvwxyz0123456789+/"%string).

Definition B64_ENC (v : Z) : Z := rd 0 B64_ENC_string v.

(** One pass of the loop per three bytes; [out] is what is in [dst]. *)
Fixpoint encode_loop (src : list Z) (dst_cap : Z) (out : list Z) : list Z :=
  match src with
  | [] => out
  | s0 :: l0 =>
      let enc (triple : Z) (r1 r2 : bool) :=
        [B64_ENC (Z.land (Z.shiftr triple 18) 63); B64_ENC (Z.land (Z.shiftr triple 12) 63);
         (if r1 then B64_ENC (Z.land (Z.shiftr triple 6) 63) else PAD);
         (if r2 then B64_ENC (Z.land triple 63) else PAD)] in
      when Z.of_nat (length out) + 4 >? dst_cap ret out ;;
      match l0 with
      | [] => out ++ enc (Z.shiftl s0 16) false false
      | s1 :: l1 =>
          match l1 with
          | [] => out ++ enc (Z.lor (Z.shiftl s0 16) (Z.shiftl s1 8)) true false
          | s2 :: l2 =>
              encode_loop l2 dst_cap
                (out ++ enc (Z.lor (Z.lor (Z.shiftl s0 16) (Z.shiftl s1 8)) s2) true true)
          end
      end
  end.

Definition anx_base64_encode (src : list Z) (dst_cap : Z) : list Z := encode_loop src dst_cap [].

Definition b64_val (c : Z) : Z :=
  when (65 <=? c) && (c <=? 90) ret c - 65 ;;
  when (97 <=? c) && (c <=? 122) ret c - 97 + 26 ;;
  when (48 <=? c) && (c <=? 57) ret c - 48 + 52 ;;
  when c =? 43 ret 62 ;;
  when c =? 47 ret 63 ;;
  -1.

Definition u8 (z : Z) : Z := z mod 256.

(** [if (out < dst_cap) dst[out++] = v]. *)
Definition put (dst_cap : Z) (out : list Z) (v : Z) : list Z :=
  if Z.of_nat (length out) <? dst_cap then out ++ [u8 v] else out.

(** The returned size and what is in [dst]. *)
Fixpoint decode_loop (src : list Z) (dst_cap : Z) (out : list Z) : Z * list Z :=
  match src with
  | c0 :: c1 :: c2 :: c3 :: src =>
      let a := b64_val c0 in
      let b := b64_val c1 in
      let c := if negb (c2 =? PAD) then b64_val c2 else 0 in
      let d := if negb (c3 =? PAD) then b64_val c3 else 0 in
      when (a <? 0) || (b <? 0) || (c <? 0) || (d <? 0) ret (0, out) ;;
      let out := put dst_cap out (Z.lor (Z.shiftl a 2) (Z.shiftr b 4)) in
      let out := if negb (c2 =? PAD) then put dst_cap out (Z.lor (Z.shiftl b 4) (Z.shiftr c 2)) else out in
      let out := if negb (c3 =? PAD) then put dst_cap out (Z.lor (Z.shiftl c 6) d) else out in
      decode_loop src dst_cap out
  | _ => (Z.of_nat (length out), out)
  end.

Definition anx_base64_decode (src : list Z) (dst_cap : Z) : Z * list Z := decode_loop src dst_cap [].

(** ** Round trip *)

Lemma b64_val_enc v : 0 ≤ v < 64 → b64_val (B64_ENC v) = v ∧ B64_ENC v ≠ PAD.
Proof.
  intros Hv. pose proof (forall_below (λ v, (b64_val (B64_ENC v) =? v) && negb (B64_ENC v =? PAD)) 64 v
    ltac:(vm_compute; reflexivity) Hv) as H.
  by apply andb_true_iff in H as [H1%Z.eqb_eq H2%negb_true_iff%Z.eqb_neq].
Qed.

Lemma sextet t k : 0 ≤ k → Z.land (Z.shiftr t k) 63 = (t / 2 ^ k) mod 64.
Proof. intros Hk. change 63 with (Z.ones 6). by rewrite Z.land_ones, Z.shiftr_div_pow2 by lia. Qed.

Lemma sextet0 t : Z.land t 63 = t mod 64.
Proof. change 63 with (Z.ones 6). by rewrite Z.land_ones by lia. Qed.

(** The three bytes that four sextets stand for. *)
Lemma bytes_of_sextets a b c d :
  0 ≤ a < 64 → 0 ≤ b < 64 → 0 ≤ c < 64 → 0 ≤ d < 64 →
  u8 (Z.lor (Z.shiftl a 2) (Z.shiftr b 4)) = a * 4 + b / 16 ∧
  u8 (Z.lor (Z.shiftl b 4) (Z.shiftr c 2)) = (b mod 16) * 16 + c / 4 ∧
  u8 (Z.lor (Z.shiftl c 6) d) = (c mod 4) * 64 + d.
Proof.
  intros Ha Hb Hc Hd. rewrite !Z.shiftr_div_pow2 by lia. unfold u8.
  rewrite !lor_add by (try lia; Z.to_euclidean_division_equations; lia).
  split_and!; Z.to_euclidean_division_equations; lia.
Qed.

Lemma put_ok cap out v : Z.of_nat (length out) < cap → put cap out v = out ++ [u8 v].
Proof. intros H. unfold put. by rewrite (proj2 (Z.ltb_lt _ _) H). Qed.

Lemma decode_block a b c d rest cap out :
  0 ≤ a < 64 → 0 ≤ b < 64 → 0 ≤ c < 64 → 0 ≤ d < 64 → Z.of_nat (length out) + 3 ≤ cap →
  decode_loop (B64_ENC a :: B64_ENC b :: B64_ENC c :: B64_ENC d :: rest) cap out
  = decode_loop rest cap (out ++ [a * 4 + b / 16; (b mod 16) * 16 + c / 4; (c mod 4) * 64 + d]).
Proof.
  intros Ha Hb Hc Hd Hcap. cbn [decode_loop]. cbv zeta.
  destruct (b64_val_enc a Ha) as [-> _], (b64_val_enc b Hb) as [-> _], (b64_val_enc c Hc) as [-> Hcp],
    (b64_val_enc d Hd) as [-> Hdp].
  rewrite (proj2 (Z.eqb_neq _ _) Hcp), (proj2 (Z.eqb_neq _ _) Hdp). cbn [negb].
  destruct (bytes_of_sextets a b c d Ha Hb Hc Hd) as (E1 & E2 & E3).
  assert ((a <? 0) || (b <? 0) || (c <? 0) || (d <? 0) = false) as -> by lia.
  rewrite (put_ok cap out) by lia. rewrite (put_ok cap (out ++ _)) by (rewrite length_app; cbn; lia).
  rewrite (put_ok cap ((out ++ _) ++ _)) by (rewrite !length_app; cbn; lia).
  by rewrite E1, E2, E3, <- !app_assoc.
Qed.
(** The number of characters [n] bytes encode to. *)
Definition encoded_length (n : nat) : nat := 4 * ((n + 2) / 3).

Lemma encode_full a b c t :
  is_byte a → is_byte b → is_byte c → t = Z.lor (Z.lor (Z.shiftl a 16) (Z.shiftl b 8)) c →
  ∃ w x y z, Z.land (Z.shiftr t 18) 63 = w ∧ Z.land (Z.shiftr t 12) 63 = x ∧
    Z.land (Z.shiftr t 6) 63 = y ∧ Z.land t 63 = z ∧ 0 ≤ w < 64 ∧ 0 ≤ x < 64 ∧ 0 ≤ y < 64 ∧ 0 ≤ z < 64 ∧
    w * 4 + x / 16 = a ∧ (x mod 16) * 16 + y / 4 = b ∧ (y mod 4) * 64 + z = c.
Proof.
  unfold is_byte. intros Ha Hb Hc Ht.
  assert (t = a * 65536 + b * 256 + c) as ->.
  { rewrite Ht, <- Z.lor_assoc, (lor_add b c 8), (lor_add a (b * 2 ^ 8 + c) 16) by lia. lia. }
  clear Ht. eexists _, _, _, _. rewrite !sextet, sextet0 by lia.
  split_and!; try reflexivity; Z.to_euclidean_division_equations; lia.
Qed.

(** The last block when one or two characters are padding. *)
Lemma decode_pad1 a b c rest cap out :
  0 ≤ a < 64 → 0 ≤ b < 64 → 0 ≤ c < 64 → Z.of_nat (length out) + 2 ≤ cap →
  decode_loop (B64_ENC a :: B64_ENC b :: B64_ENC c :: PAD :: rest) cap out
  = decode_loop rest cap (out ++ [a * 4 + b / 16; (b mod 16) * 16 + c / 4]).
Proof.
  intros Ha Hb Hc Hcap. cbn [decode_loop]. cbv zeta.
  destruct (b64_val_enc a Ha) as [-> _], (b64_val_enc b Hb) as [-> _], (b64_val_enc c Hc) as [-> Hcp].
  rewrite (proj2 (Z.eqb_neq _ _) Hcp), Z.eqb_refl. cbn [negb].
  destruct (bytes_of_sextets a b c 0 Ha Hb Hc ltac:(lia)) as (E1 & E2 & _).
  assert ((a <? 0) || (b <? 0) || (c <? 0) || (0 <? 0) = false) as -> by lia.
  rewrite (put_ok cap out) by lia. rewrite (put_ok cap (out ++ _)) by (rewrite length_app; cbn; lia).
  by rewrite E1, E2, <- !app_assoc.
Qed.

Lemma decode_pad2 a b rest cap out :
  0 ≤ a < 64 → 0 ≤ b < 64 → Z.of_nat (length out) + 1 ≤ cap →
  decode_loop (B64_ENC a :: B64_ENC b :: PAD :: PAD :: rest) cap out
  = decode_loop rest cap (out ++ [a * 4 + b / 16]).
Proof.
  intros Ha Hb Hcap. cbn [decode_loop]. cbv zeta.
  destruct (b64_val_enc a Ha) as [-> _], (b64_val_enc b Hb) as [-> _].
  rewrite Z.eqb_refl. cbn [negb].
  destruct (bytes_of_sextets a b 0 0 Ha Hb ltac:(lia) ltac:(lia)) as (E1 & _).
  assert ((a <? 0) || (b <? 0) || (0 <? 0) || (0 <? 0) = false) as -> by lia.
  rewrite (put_ok cap out) by lia. by rewrite E1.
Qed.

Lemma encoded_length_add3 n : encoded_length (S (S (S n))) = (4 + encoded_length n)%nat.
Proof.
  unfold encoded_length. replace (S (S (S n)) + 2)%nat with (n + 2 + 1 * 3)%nat by lia.
  rewrite Nat.div_add by lia. lia.
Qed.

(** Every run of the encoder that has room appends a block sequence that the
    decoder, at a block boundary, turns back into the source bytes. *)
Lemma encode_decode src cap1 cap2 out acc :
  Forall is_byte src →
  Z.of_nat (length out + encoded_length (length src)) ≤ cap1 → Z.of_nat (length acc + length src) ≤ cap2 →
  ∃ enc, encode_loop src cap1 out = out ++ enc ∧ length enc = encoded_length (length src) ∧
    ∀ rest, decode_loop (enc ++ rest) cap2 acc = decode_loop rest cap2 (acc ++ src).
Proof.
  remember (length src) as n eqn:En. revert src En out acc.
  induction n as [n IH] using lt_wf_ind. intros src En out acc Hb H1 H2.
  destruct src as [|a [|b [|c src]]]; cbn [length] in En; subst n; cbn [encode_loop]; cbv zeta.
  - exists []. split_and!; [by rewrite app_nil_r|done|]. intros rest. cbn. by rewrite app_nil_r.
  - change (encoded_length 1) with 4%nat in *. apply Forall_cons in Hb as [Ha _].
    destruct (Z.gtb_spec (Z.of_nat (length out) + 4) cap1); [lia|].
    destruct (encode_full a 0 0 (Z.shiftl a 16) Ha ltac:(unfold is_byte; lia) ltac:(unfold is_byte; lia))
      as (w & x & y & z & -> & -> & _ & _ & ? & ? & ? & ? & Ea & Eb & Ec).
    { by rewrite Z.shiftl_0_l, !Z.lor_0_r. }
    eexists. split_and!; [reflexivity|done|]. intros rest. cbn [app]. rewrite decode_pad2 by (done || lia). by rewrite Ea.
  - change (encoded_length 2) with 4%nat in *. apply Forall_cons in Hb as [Ha Hb]. apply Forall_cons in Hb as [Hb _].
    destruct (Z.gtb_spec (Z.of_nat (length out) + 4) cap1); [lia|].
    destruct (encode_full a b 0 (Z.lor (Z.shiftl a 16) (Z.shiftl b 8)) Ha Hb ltac:(unfold is_byte; lia))
      as (w & x & y & z & -> & -> & -> & _ & ? & ? & ? & ? & Ea & Eb & Ec).
    { by rewrite Z.lor_0_r. }
    eexists. split_and!; [reflexivity|done|]. intros rest. cbn [app]. rewrite decode_pad1 by (done || lia). by rewrite Ea, Eb.
  - apply Forall_cons in Hb as [Ha Hb]. apply Forall_cons in Hb as [Hb0 Hb]. apply Forall_cons in Hb as [Hc Hb].
    rewrite encoded_length_add3 in *.
    destruct (Z.gtb_spec (Z.of_nat (length out) + 4) cap1); [lia|].
    destruct (encode_full a b c _ Ha Hb0 Hc eq_refl) as (w & x & y & z & -> & -> & -> & -> & ? & ? & ? & ? & Ea & Eb & Ec).
    destruct (IH (length src) ltac:(lia) src eq_refl
      (out ++ [B64_ENC w; B64_ENC x; B64_ENC y; B64_ENC z]) (acc ++ [a; b; c]) Hb) as (enc & -> & Hlen & Hdec).
    { rewrite length_app. cbn [length]. lia. }
    { rewrite length_app. cbn [length]. lia. }
    exists ([B64_ENC w; B64_ENC x; B64_ENC y; B64_ENC z] ++ enc).
    split_and!; [by rewrite <- app_assoc|rewrite length_app, Hlen; done|].
    intros rest. cbn [app]. rewrite decode_block by (done || lia). rewrite Ea, Eb, Ec, Hdec. by rewrite <- app_assoc.
Qed.

(** base64 round trip: with room for the encoded text and for the bytes,
    the encoder writes exactly [4 * ceil (n / 3)] characters, and decoding them
    returns the number of source bytes and writes exactly those bytes. *)
Theorem base64_roundtrip src cap1 cap2 :
  Forall is_byte src → Z.of_nat (encoded_length (length src)) ≤ cap1 → Z.of_nat (length src) ≤ cap2 →
  length (anx_base64_encode src cap1) = encoded_length (length src) ∧
  anx_base64_decode (anx_base64_encode src cap1) cap2 = (Z.of_nat (length src), src).
Proof.
  intros Hb H1 H2. destruct (encode_decode src cap1 cap2 [] [] Hb H1 H2) as (enc & He & Hlen & Hd).
  unfold anx_base64_encode, anx_base64_decode. rewrite He. cbn [app]. split; [done|].
  rewrite <- (app_nil_r enc), Hd. done.
Qed.

(** The four bytes of "any " and a trailing byte, so that a padded block occurs. *)
Lemma base64_roundtrip_witness :
  length (anx_base64_encode [97; 110; 121; 255] 8) = 8%nat ∧
  anx_base64_decode (anx_base64_encode [97; 110; 121; 255] 8) 4 = (4, [97; 110; 121; 255]).
Proof. apply (base64_roundtrip [97; 110; 121; 255] 8 4); [repeat constructor; unfold is_byte; lia|vm_compute; discriminate..]. Defined.

(** The decoder never writes past the capacity, whatever the text. *)
Lemma put_bound cap out v : Z.of_nat (length out) ≤ cap → Z.of_nat (length (put cap out v)) ≤ cap.
Proof. intros H. unfold put. case_match; [rewrite length_app; cbn; lia|done]. Qed.

Lemma decode_bound src cap out :
  Z.of_nat (length out) ≤ cap → Z.of_nat (length (decode_loop src cap out).2) ≤ cap.
Proof.
  remember (length src) as n eqn:En. revert src En out. induction n as [n IH] using lt_wf_ind.
  intros src -> out H. destruct src as [|c0 [|c1 [|c2 [|c3 src]]]]; try done.
  cbn [decode_loop]. cbv zeta. case_match; [done|]. apply (IH (length src)); [cbn; lia|done|].
  repeat case_match; auto using put_bound.
Qed.
End Base64.

Module Utf8.

(** [buf] is [None] for a null pointer; [cp] and [consumed] say whether the two
    output pointers are given; the result is the return code and, on success, what
    is stored through them. *)
Definition anx_utf8_decode (buf : option (list Z)) (cp consumed : bool) : Z * option (Z * Z) :=
  let einval := (ANX_EINVAL, None) in
  match buf with
  | None => einval
  | Some buf =>
      let len := Z.of_nat (length buf) in
      when negb cp || negb consumed || (len =? 0) ret einval ;;
      let b0 := rd 0 buf 0 in
      when b0 <? 0x80 ret (ANX_OK, Some (b0, 1)) ;;
      when b0 <? 0xC0 ret einval ;;
      if b0 <? 0xE0 then
        when len <? 2 ret einval ;;
        let b1 := rd 0 buf 1 in
        when negb (Z.land b1 0xC0 =? 0x80) ret einval ;;
        let n := Z.lor (Z.shiftl (Z.land b0 0x1F) 6) (Z.land b1 0x3F) in
        when n <? 0x80 ret einval ;;
        (ANX_OK, Some (n, 2))
      else if b0 <? 0xF0 then
        when len <? 3 ret einval ;;
        let b1 := rd 0 buf 1 in
        let b2 := rd 0 buf 2 in
        when negb (Z.land b1 0xC0 =? 0x80) || negb (Z.land b2 0xC0 =? 0x80) ret einval ;;
        let n := Z.lor (Z.lor (Z.shiftl (Z.land b0 0x0F) 12) (Z.shiftl (Z.land b1 0x3F) 6)) (Z.land b2 0x3F) in
        when n <? 0x800 ret einval ;;
        when (0xD800 <=? n) && (n <=? 0xDFFF) ret einval ;;
        (ANX_OK, Some (n, 3))
      else if b0 <? 0xF8 then
        when len <? 4 ret einval ;;
        let b1 := rd 0 buf 1 in
        let b2 := rd 0 buf 2 in
        let b3 := rd 0 buf 3 in
        when negb (Z.land b1 0xC0 =? 0x80) || negb (Z.land b2 0xC0 =? 0x80) || negb (Z.land b3 0xC0 =? 0x80)
          ret einval ;;
        let n := Z.lor (Z.lor (Z.lor (Z.shiftl (Z.land b0 0x07) 18) (Z.shiftl (Z.land b1 0x3F) 12))
                   (Z.shiftl (Z.land b2 0x3F) 6)) (Z.land b3 0x3F) in
        when n <? 0x10000 ret einval ;;
        when n >? 0x10FFFF ret einval ;;
        (ANX_OK, Some (n, 4))
      else einval
  end.

(** ** The standard's encoding form, as the reference *)

(** Unicode scalar values: code points that are not surrogates. *)
Definition scalar (c : Z) : Prop := 0 ≤ c ≤ 0x10FFFF ∧ ¬ (0xD800 ≤ c ≤ 0xDFFF).

(** The one well-formed byte sequence of a scalar value (Unicode table 3-6). *)
Definition utf8_encode (c : Z) : list Z :=
  if c <? 0x80 then [c]
  else if c <? 0x800 then [0xC0 + c / 64; 0x80 + c mod 64]
  else if c <? 0x10000 then [0xE0 + c / 4096; 0x80 + c / 64 mod 64; 0x80 + c mod 64]
  else [0xF0 + c / 262144; 0x80 + c / 4096 mod 64; 0x80 + c / 64 mod 64; 0x80 + c mod 64].

(** A continuation byte is one whose top two bits are 10. *)
Lemma cont_byte b : is_byte b → (Z.land b 0xC0 =? 0x80) = (0x80 <=? b) && (b <? 0xC0).
Proof.
  intros Hb. apply eqb_prop.
  exact (forall_below (λ b, Bool.eqb (Z.land b 0xC0 =? 0x80) ((0x80 <=? b) && (b <? 0xC0))) 256 b
    ltac:(vm_compute; reflexivity) Hb).
Qed.

Lemma lead_bits b :
  Z.land b 0x3F = b mod 64 ∧ Z.land b 0x1F = b mod 32 ∧ Z.land b 0x0F = b mod 16 ∧ Z.land b 0x07 = b mod 8.
Proof.
  split_and!; [apply (land_low b 6)|apply (land_low b 5)|apply (land_low b 4)|apply (land_low b 3)]; lia.
Qed.

Lemma join2 a b : 0 ≤ b < 64 → Z.lor (Z.shiftl a 6) b = a * 64 + b.
Proof. intros H. by rewrite lor_add by lia. Qed.

Lemma join3 a b c : 0 ≤ b < 64 → 0 ≤ c < 64 →
  Z.lor (Z.lor (Z.shiftl a 12) (Z.shiftl b 6)) c = a * 4096 + b * 64 + c.
Proof. intros Hb Hc. rewrite <- Z.lor_assoc, join2, lor_add by lia. lia. Qed.

Lemma join4 a b c d : 0 ≤ b < 64 → 0 ≤ c < 64 → 0 ≤ d < 64 →
  Z.lor (Z.lor (Z.lor (Z.shiftl a 18) (Z.shiftl b 12)) (Z.shiftl c 6)) d = a * 262144 + b * 4096 + c * 64 + d.
Proof.
  intros Hb Hc Hd. rewrite <- (Z.lor_assoc (Z.shiftl a 18)), <- (Z.lor_assoc (Z.shiftl a 18)), join3, lor_add by lia. lia.
Qed.

(** The masks and shifts of the decoder as arithmetic. *)
Ltac unmask :=
  repeat match goal with
  | H : context[Z.land ?b 0xC0 =? 0x80] |- _ => rewrite (cont_byte b) in H by (done || (unfold is_byte; lia))
  | |- context[Z.land ?b 0xC0 =? 0x80] => rewrite (cont_byte b) by (done || (unfold is_byte; lia))
  end;
  rewrite ?(λ b, proj1 (lead_bits b)), ?(λ b, proj1 (proj2 (lead_bits b))),
    ?(λ b, proj1 (proj2 (proj2 (lead_bits b)))), ?(λ b, proj2 (proj2 (proj2 (lead_bits b)))) in *;
  rewrite ?join2, ?join3, ?join4 in * by (apply Z.mod_pos_bound; lia).

Lemma rd_cons0 (x : Z) l : rd 0 (x :: l) 0 = x.
Proof. done. Qed.
Lemma rd_cons1 (x y : Z) l : rd 0 (x :: y :: l) 1 = y.
Proof. done. Qed.
Lemma rd_cons2 (x y z : Z) l : rd 0 (x :: y :: z :: l) 2 = z.
Proof. done. Qed.
Lemma rd_cons3 (x y z w : Z) l : rd 0 (x :: y :: z :: w :: l) 3 = w.
Proof. done. Qed.

Lemma decode_cases b0 l :
  let r := anx_utf8_decode (Some (b0 :: l)) true true in
  r = (ANX_EINVAL, None) ∨ ∃ c n, r = (ANX_OK, Some (c, n)).
Proof. cbv zeta. unfold anx_utf8_decode. cbv zeta. repeat case_match; eauto. Qed.

(** The four encoding forms. *)
Lemma encode1 c : c < 0x80 → utf8_encode c = [c].
Proof. intros H. unfold utf8_encode. by destruct (Z.ltb_spec c 0x80); [|lia]. Qed.
Lemma encode2 c a b : c = (a - 0xC0) * 64 + (b - 0x80) → 0x80 ≤ b < 0xC0 → 0x80 ≤ c < 0x800 → utf8_encode c = [a; b].
Proof.
  intros -> Hb H. unfold utf8_encode. repeat (case_match; [lia|]). case_match; [|lia].
  f_equal; [|f_equal]; Z.to_euclidean_division_equations; lia.
Qed.
Lemma encode3 c a b d : c = (a - 0xE0) * 4096 + (b - 0x80) * 64 + (d - 0x80) → 0x80 ≤ b < 0xC0 → 0x80 ≤ d < 0xC0 →
  0x800 ≤ c < 0x10000 → utf8_encode c = [a; b; d].
Proof.
  intros -> Hb Hd H. unfold utf8_encode. repeat (case_match; [lia|]). case_match; [|lia].
  f_equal; [|f_equal; [|f_equal]]; Z.to_euclidean_division_equations; lia.
Qed.
Lemma encode4 c a b d e : c = (a - 0xF0) * 262144 + (b - 0x80) * 4096 + (d - 0x80) * 64 + (e - 0x80) →
  0x80 ≤ b < 0xC0 → 0x80 ≤ d < 0xC0 → 0x80 ≤ e < 0xC0 → 0x10000 ≤ c → utf8_encode c = [a; b; d; e].
Proof.
  intros -> Hb Hd He H. unfold utf8_encode. repeat (case_match; [lia|]).
  f_equal; [|f_equal; [|f_equal; [|f_equal]]]; Z.to_euclidean_division_equations; lia.
Qed.

(** What is decoded is the well-formed encoding of the value returned. *)
Lemma decode_sound buf c n :
  Forall is_byte buf → anx_utf8_decode (Some buf) true true = (ANX_OK, Some (c, n)) →
  scalar c ∧ n = Z.of_nat (length (utf8_encode c)) ∧ utf8_encode c `prefix_of` buf.
Proof.
  intros Hb. unfold anx_utf8_decode. cbv zeta. cbn [negb orb].
  destruct buf as [|b0 l]; [done|]. rewrite rd_cons0. apply Forall_cons in Hb as [Hb0 Hb]. unfold is_byte in Hb0.
  destruct (Z.eqb_spec (Z.of_nat (length (b0 :: l))) 0); [done|].
  destruct (Z.ltb_spec b0 0x80).
  { intros [= <- <-]. rewrite encode1 by lia. split_and!; [unfold scalar; lia|done|]. by apply prefix_cons, prefix_nil. }
  destruct (Z.ltb_spec b0 0xC0); [done|].
  destruct (Z.ltb_spec b0 0xE0); [|destruct (Z.ltb_spec b0 0xF0); [|destruct (Z.ltb_spec b0 0xF8); [|done]]].
  - destruct l as [|b1 l]; [done|]. rewrite rd_cons1. apply Forall_cons in Hb as [Hb1 _].
    case_match; [done|]. unmask. unfold is_byte in *. repeat (case_match; [done|]). intros [= <- <-].
    rewrite (encode2 _ b0 b1) by (Z.to_euclidean_division_equations; lia).
    split_and!; [unfold scalar; Z.to_euclidean_division_equations; lia|done|]. by apply prefix_cons, prefix_cons, prefix_nil.
  - destruct l as [|b1 [|b2 l]]; [done..|]. rewrite rd_cons1, rd_cons2.
    apply Forall_cons in Hb as [Hb1 Hb]. apply Forall_cons in Hb as [Hb2 _].
    case_match; [done|]. unmask. unfold is_byte in *. repeat (case_match; [done|]). intros [= <- <-].
    rewrite (encode3 _ b0 b1 b2) by (Z.to_euclidean_division_equations; lia).
    split_and!; [unfold scalar; Z.to_euclidean_division_equations; lia|done|]. by do 3 apply prefix_cons; apply prefix_nil.
  - destruct l as [|b1 [|b2 [|b3 l]]]; [done..|]. rewrite rd_cons1, rd_cons2, rd_cons3.
    apply Forall_cons in Hb as [Hb1 Hb]. apply Forall_cons in Hb as [Hb2 Hb]. apply Forall_cons in Hb as [Hb3 _].
    case_match; [done|]. unmask. unfold is_byte in *. repeat (case_match; [done|]). intros [= <- <-].
    rewrite (encode4 _ b0 b1 b2 b3) by (Z.to_euclidean_division_equations; lia).
    split_and!; [unfold scalar; Z.to_euclidean_division_equations; lia|done|]. by do 4 apply prefix_cons; apply prefix_nil.
Qed.

(** Take the branch that arithmetic decides. *)
Ltac branch :=
  match goal with |- context[if ?b then _ else _] =>
    first [assert (b = true) as -> by (lia || (Z.to_euclidean_division_equations; lia))
          |assert (b = false) as -> by (lia || (Z.to_euclidean_division_equations; lia))]
  end.

(** Every well-formed encoding is decoded, whatever follows it. *)
Lemma decode_complete c rest :
  scalar c →
  anx_utf8_decode (Some (utf8_encode c ++ rest)) true true = (ANX_OK, Some (c, Z.of_nat (length (utf8_encode c)))).
Proof.
  intros [Hc Hs]. unfold utf8_encode.
  replace (c / 262144) with (c / 64 / 64 / 64) by (rewrite !Z.div_div by lia; done).
  replace (c / 4096) with (c / 64 / 64) by (rewrite !Z.div_div by lia; done).
  destruct (Z.ltb_spec c 0x80); [|destruct (Z.ltb_spec c 0x800); [|destruct (Z.ltb_spec c 0x10000)]];
    cbn [app]; unfold anx_utf8_decode; cbv zeta; cbn [negb orb length]; rewrite ?Nat2Z.inj_succ, ?rd_cons0, ?rd_cons1, ?rd_cons2, ?rd_cons3;
    pose proof (Nat2Z.is_nonneg (length rest)) as HL; generalize dependent (Z.of_nat (length rest)); intros L HL; unfold Z.succ;
    repeat branch; [done|..]; rewrite !cont_byte by (unfold is_byte; Z.to_euclidean_division_equations; lia);
    unmask; repeat branch; apply f_equal; do 2 f_equal; Z.to_euclidean_division_equations; lia.
Qed.

(** C40: the strict decoder accepts exactly the well-formed UTF-8 of the Unicode
    standard: it returns a value and a length exactly when the buffer starts with
    the encoding of that scalar value and that is its length, so overlong forms,
    surrogates, values above 0x10FFFF and truncated sequences are all refused;
    and a buffer that starts with no scalar value's encoding gives EINVAL and
    stores nothing. *)
Theorem utf8_decode_exact buf c n :
  Forall is_byte buf →
  (anx_utf8_decode (Some buf) true true = (ANX_OK, Some (c, n)) ↔
    scalar c ∧ n = Z.of_nat (length (utf8_encode c)) ∧ utf8_encode c `prefix_of` buf) ∧
  (anx_utf8_decode (Some buf) true true = (ANX_EINVAL, None) ↔
    ∀ d, scalar d → ¬ utf8_encode d `prefix_of` buf).
Proof.
  intros Hb. split.
  - split; [by apply decode_sound|]. intros (Hc & -> & [rest ->]). by apply decode_complete.
  - split.
    + intros H d Hd [rest ->]. by rewrite decode_complete in H.
    + intros H. destruct buf as [|b0 l]; [done|]. destruct (decode_cases b0 l) as [E|(c' & n' & E)]; [done|].
      apply decode_sound in E as (Hc & _ & Hp); [|done]. by destruct (H c' Hc).
Qed.

(** The three bytes of the euro sign. *)
Lemma utf8_decode_exact_witness :
  anx_utf8_decode (Some [0xE2; 0x82; 0xAC; 0x21]) true true = (ANX_OK, Some (0x20AC, 3)).
Proof.
  apply (utf8_decode_exact [0xE2; 0x82; 0xAC; 0x21] 0x20AC 3); [repeat constructor; unfold is_byte; lia|].
  split_and!; [unfold scalar; lia|reflexivity|]. by exists [0x21].
Defined.
End Utf8.

Module Crc32.

Definition POLY : Z := 0xEDB88320.

(** [crc32_table] and [crc32_ready]. *)
Record crc_state := CrcState { crc32_table : list Z; crc32_ready : bool }.

(** The statics before the first call. *)
Definition crc_boot : crc_state := CrcState (replicate 256 0) false.

(** One pass of the inner loop of [crc32_init]. *)
Definition crc_shift (c : Z) : Z :=
  if negb (Z.land c 1 =? 0) then Z.lxor POLY (Z.shiftr c 1) else Z.shiftr c 1.

Definition crc32_init (st : crc_state) : crc_state :=
  CrcState (foldl (λ t i, wr t i (Nat.iter 8 crc_shift i)) (crc32_table st) (seqZ 0 256)) true.

(** One pass of the loop of [anx_crc32]. *)
Definition crc_byte (table : list Z) (crc b : Z) : Z :=
  Z.lxor (rd 0 table (Z.land (Z.lxor crc b) 0xFF)) (Z.shiftr crc 8).

Definition anx_crc32 (st : crc_state) (data : list Z) : Z * crc_state :=
  let st := if negb (crc32_ready st) then crc32_init st else st in
  (Z.lxor (foldl (crc_byte (crc32_table st)) 0xFFFFFFFF data) 0xFFFFFFFF, st).

(** ** The definition of the checksum

    CRC-32 is defined on bits: the register is shifted right, and the reflected
    polynomial is added whenever the bit that leaves it differs from the next
    message bit.  A byte is sent least significant bit first. *)
Definition crc_bit (crc : Z) (bit : bool) : Z :=
  Z.lxor (Z.shiftr crc 1) (if xorb (Z.odd crc) bit then POLY else 0).

Definition bits_of (b : Z) : list bool := map (Z.testbit b) (seqZ 0 8).

Definition crc32_spec (data : list Z) : Z :=
  Z.lxor (foldl crc_bit 0xFFFFFFFF (data ≫= bits_of)) 0xFFFFFFFF.

(** ** The shift is linear *)

Lemma crc_shift_bit c : crc_shift c = crc_bit c false.
Proof.
  unfold crc_shift, crc_bit. rewrite xorb_false_r. change 1 with (Z.ones 1) at 1. rewrite Z.land_ones, Zmod_odd by lia.
  destruct (Z.odd c); cbn; [by rewrite Z.lxor_comm|by rewrite Z.lxor_0_r].
Qed.

Lemma odd_lxor x y : Z.odd (Z.lxor x y) = xorb (Z.odd x) (Z.odd y).
Proof. by rewrite <- !Z.bit0_odd, Z.lxor_spec. Qed.

Lemma crc_bit_lxor x y a b : crc_bit (Z.lxor x y) (xorb a b) = Z.lxor (crc_bit x a) (crc_bit y b).
Proof.
  unfold crc_bit. rewrite odd_lxor, Z.shiftr_lxor.
  assert (∀ p q, (if xorb p q then POLY else 0) = Z.lxor (if p then POLY else 0) (if q then POLY else 0)) as E
    by (intros [] []; reflexivity).
  replace (xorb (xorb (Z.odd x) (Z.odd y)) (xorb a b)) with (xorb (xorb (Z.odd x) a) (xorb (Z.odd y) b))
    by (by destruct (Z.odd x), (Z.odd y), a, b).
  rewrite E, !Z.lxor_assoc. f_equal. rewrite <- !Z.lxor_assoc. f_equal. apply Z.lxor_comm.
Qed.

Lemma crc_shift_lxor x y : crc_shift (Z.lxor x y) = Z.lxor (crc_shift x) (crc_shift y).
Proof. rewrite !crc_shift_bit. apply (crc_bit_lxor x y false false). Qed.

Lemma shifts_lxor n x y : Nat.iter n crc_shift (Z.lxor x y) = Z.lxor (Nat.iter n crc_shift x) (Nat.iter n crc_shift y).
Proof. induction n as [|n IH]; [done|]. by rewrite !Nat.iter_succ, IH, crc_shift_lxor. Qed.

(** Bits that are shifted out unused: an even register is only shifted. *)
Lemma shifts_high n x : Nat.iter n crc_shift (Z.shiftl x (Z.of_nat n)) = x.
Proof.
  revert x. induction n as [|n IH]; intros x; [by rewrite Z.shiftl_0_r|].
  rewrite Nat.iter_succ_r. rewrite Nat2Z.inj_succ, crc_shift_bit. unfold crc_bit.
  rewrite <- Z.bit0_odd, Z.shiftl_spec_low by lia. cbn [xorb]. rewrite Z.lxor_0_r, Z.shiftr_shiftl_l by lia.
  replace (Z.succ (Z.of_nat n) - 1) with (Z.of_nat n) by lia. apply IH.
Qed.

(** ** The table-driven step is eight bit steps *)

Lemma bit_steps n c b : 0 ≤ b < 2 ^ Z.of_nat n →
  foldl crc_bit c (map (Z.testbit b) (seqZ 0 (Z.of_nat n))) = Nat.iter n crc_shift (Z.lxor c b).
Proof.
  revert c b. induction n as [|n IH]; intros c b Hb.
  { replace b with 0 by (cbn in Hb; lia). cbn. by rewrite Z.lxor_0_r. }
  rewrite Nat2Z.inj_succ in *. rewrite Z.pow_succ_r in Hb by lia.
  rewrite seqZ_cons by lia. cbn [map foldl].
  assert (map (Z.testbit b) (seqZ (Z.succ 0) (Z.pred (Z.succ (Z.of_nat n))))
    = map (Z.testbit (Z.shiftr b 1)) (seqZ 0 (Z.of_nat n))) as ->.
  { rewrite Z.pred_succ. apply list_eq. intros i. rewrite !list_lookup_fmap.
    destruct (decide (i < n)%nat).
    - rewrite !lookup_seqZ_lt by lia. cbn. f_equal. rewrite Z.shiftr_spec by lia. f_equal. lia.
    - by rewrite !lookup_seqZ_ge by lia. }
  rewrite IH. 2: { rewrite Z.shiftr_div_pow2 by lia. Z.to_euclidean_division_equations; lia. }
  rewrite Nat.iter_succ_r. f_equal. rewrite crc_shift_bit.
  transitivity (crc_bit (Z.lxor c b) (xorb (Z.testbit b 0) (Z.testbit b 0))); [|by rewrite xorb_nilpotent].
  rewrite crc_bit_lxor. f_equal. unfold crc_bit.
  by rewrite <- Z.bit0_odd, xorb_nilpotent, Z.lxor_0_r.
Qed.

Definition crc_table : list Z := crc32_table (crc32_init crc_boot).

Lemma crc_table_entry i : 0 ≤ i < 256 → rd 0 crc_table i = Nat.iter 8 crc_shift i.
Proof.
  intros Hi. apply Z.eqb_eq.
  exact (forall_below (λ i, rd 0 crc_table i =? Nat.iter 8 crc_shift i) 256 i ltac:(vm_compute; reflexivity) Hi).
Qed.

(** The low byte and the rest of a register. *)
Lemma split_byte x : x = Z.lxor (Z.land x 0xFF) (Z.shiftl (Z.shiftr x 8) 8).
Proof.
  apply Z.bits_inj'. intros n Hn. rewrite Z.lxor_spec, Z.land_spec. change 255 with (Z.ones 8).
  destruct (Z.lt_ge_cases n 8).
  - rewrite Z.ones_spec_low, Z.shiftl_spec_low by lia. by rewrite andb_true_r, xorb_false_r.
  - rewrite Z.ones_spec_high, Z.shiftl_spec, Z.shiftr_spec by lia. rewrite andb_false_r, xorb_false_l. f_equal. lia.
Qed.

Lemma crc_byte_steps crc b : is_byte b → crc_byte crc_table crc b = Nat.iter 8 crc_shift (Z.lxor crc b).
Proof.
  intros Hb. unfold crc_byte. rewrite (split_byte (Z.lxor crc b)) at 2.
  rewrite shifts_lxor, crc_table_entry. 2: { rewrite (land_low _ 8) by lia. apply Z.mod_pos_bound. lia. }
  f_equal. rewrite (shifts_high 8), Z.shiftr_lxor, (Z.shiftr_div_pow2 b) by lia.
  change (2 ^ 8) with 256. rewrite (Z.div_small b 256) by done. by rewrite Z.lxor_0_r.
Qed.

Lemma crc_fold data crc :
  Forall is_byte data → foldl (crc_byte crc_table) crc data = foldl crc_bit crc (data ≫= bits_of).
Proof.
  intros Hd. revert crc. induction Hd as [|b data Hb _ IH]; intros crc; [done|].
  cbn [foldl]. rewrite IH. change ((b :: data) ≫= bits_of) with (bits_of b ++ (data ≫= bits_of)).
  rewrite foldl_app. f_equal. rewrite crc_byte_steps by done. unfold bits_of. by rewrite (bit_steps 8).
Qed.

(** The statics a program can be in: as booted, or with the table built. *)
Definition crc_wf (st : crc_state) : Prop := st = crc_boot ∨ st = crc32_init crc_boot.

Lemma anx_crc32_spec st data :
  crc_wf st → Forall is_byte data → anx_crc32 st data = (crc32_spec data, crc32_init crc_boot).
Proof.
  intros Hst Hd. unfold anx_crc32, crc32_spec.
  assert ((if negb (crc32_ready st) then crc32_init st else st) = crc32_init crc_boot) as -> by (by destruct Hst as [-> | ->]).
  by rewrite <- crc_fold.
Qed.

(** the table-driven checksum is the CRC-32 of its definition: on any bytes,
    whether or not the table has been built before, [anx_crc32] returns the value
    that the bit-serial register gives, and it leaves the table built. *)
Theorem crc32_table_equiv st data :
  crc_wf st → Forall is_byte data → anx_crc32 st data = (crc32_spec data, crc32_init crc_boot).
Proof. apply anx_crc32_spec. Qed.

(** "123456789", whose CRC-32 is 0xCBF43926. *)
Lemma crc32_table_equiv_witness :
  anx_crc32 crc_boot [49; 50; 51; 52; 53; 54; 55; 56; 57] = (0xCBF43926, crc32_init crc_boot).
Proof.
  rewrite (crc32_table_equiv crc_boot [49; 50; 51; 52; 53; 54; 55; 56; 57]);
    [vm_compute; reflexivity|by left|repeat constructor; unfold is_byte; lia].
Defined.

(** ** Error detection *)

Lemma u32_bits x : 0 ≤ x → (is_u32 x ↔ ∀ n, 32 ≤ n → Z.testbit x n = false).
Proof.
  intros H0. unfold is_u32. split.
  - intros Hx n Hn. rewrite <- (Z.mod_small x (2 ^ 32)) by lia. apply Z.mod_pow2_bits_high. lia.
  - intros Hb. assert (x = x mod 2 ^ 32) as ->; [|by apply Z.mod_pos_bound].
    apply Z.bits_inj'. intros n Hn. destruct (Z.lt_ge_cases n 32).
    + by rewrite Z.mod_pow2_bits_low.
    + by rewrite Hb, Z.mod_pow2_bits_high by lia.
Qed.

Lemma lxor_u32 x y : is_u32 x → is_u32 y → is_u32 (Z.lxor x y).
Proof.
  intros Hx Hy. assert (0 ≤ x ∧ 0 ≤ y) as [H1 H2] by (unfold is_u32 in *; lia).
  apply u32_bits; [by apply Z.lxor_nonneg|]. intros n Hn.
  by rewrite Z.lxor_spec, (proj1 (u32_bits x H1) Hx), (proj1 (u32_bits y H2) Hy).
Qed.

Lemma crc_shift_range x : is_u32 x → is_u32 (crc_shift x).
Proof.
  intros Hx. assert (is_u32 (Z.shiftr x 1)).
  { unfold is_u32 in *. rewrite Z.shiftr_div_pow2 by lia. Z.to_euclidean_division_equations; lia. }
  unfold crc_shift. case_match; [|done]. apply lxor_u32; [unfold is_u32, POLY; lia|done].
Qed.

(** The polynomial has its top bit set, so no register but 0 is shifted to 0. *)
Lemma crc_shift_zero x : is_u32 x → crc_shift x = 0 → x = 0.
Proof.
  intros Hx H. rewrite crc_shift_bit in H. unfold crc_bit in H. rewrite xorb_false_r in H.
  assert (Z.odd x = false) as Ho.
  { apply (f_equal (λ z, Z.testbit z 31)) in H. rewrite Z.lxor_spec, Z.shiftr_spec, Z.bits_0 in H by lia.
    rewrite (proj1 (u32_bits x (proj1 Hx)) Hx) in H by lia. by destruct (Z.odd x). }
  rewrite Ho, Z.lxor_0_r, Z.shiftr_div_pow2 in H by lia. rewrite Zodd_mod in Ho.
  change (2 ^ 1) with 2 in H. unfold is_u32 in Hx. destruct (Z.eqb_spec (x mod 2) 1); [done|]. Z.to_euclidean_division_equations; lia.
Qed.

Lemma shifts_zero n x : is_u32 x → Nat.iter n crc_shift x = 0 → x = 0.
Proof.
  revert x. induction n as [|n IH]; intros x Hx; [done|]. rewrite Nat.iter_succ_r. intros H.
  apply crc_shift_zero, IH; auto using crc_shift_range.
Qed.

(** A byte string as the polynomial it stands for, first byte lowest. *)
Fixpoint le_word (w : list Z) : Z :=
  match w with [] => 0 | b :: w => Z.lxor b (Z.shiftl (le_word w) 8) end.

Lemma fold_le_word w crc :
  Forall is_byte w → foldl (crc_byte crc_table) crc w = Nat.iter (8 * length w) crc_shift (Z.lxor crc (le_word w)).
Proof.
  intros Hw. revert crc. induction Hw as [|b w Hb _ IH]; intros crc; [cbn; by rewrite Z.lxor_0_r|].
  cbn [foldl length le_word]. rewrite IH, crc_byte_steps by done.
  replace (8 * S (length w))%nat with (8 * length w + 8)%nat by lia. rewrite Nat.iter_add. f_equal.
  rewrite <- Z.lxor_assoc, (shifts_lxor 8 (Z.lxor crc b)). f_equal. by rewrite (shifts_high 8).
Qed.

Lemma le_word_range w : Forall is_byte w → (length w ≤ 4)%nat → is_u32 (le_word w).
Proof.
  intros Hw Hl. enough (0 ≤ le_word w < 2 ^ (8 * Z.of_nat (length w))) as H.
  { unfold is_u32. assert (2 ^ (8 * Z.of_nat (length w)) ≤ 2 ^ 32) by (apply Z.pow_le_mono_r; lia). lia. }
  clear Hl. induction Hw as [|b w Hb _ IH]; [cbn; lia|]. cbn [le_word length]. unfold is_byte in Hb.
  assert (Z.lxor b (Z.shiftl (le_word w) 8) = le_word w * 2 ^ 8 + b) as ->.
  { rewrite <- (lor_add (le_word w) b 8) by lia. rewrite Z.lor_comm. apply Z.lxor_lor, Z.bits_inj'. intros n Hn.
    rewrite Z.land_spec, Z.bits_0. destruct (Z.lt_ge_cases n 8); [by rewrite Z.shiftl_spec_low, andb_false_r|].
    rewrite <- (Z.mod_small b (2 ^ 8)), Z.mod_pow2_bits_high by lia. done. }
  replace (8 * Z.of_nat (S (length w))) with (8 * Z.of_nat (length w) + 8) by lia. rewrite Z.pow_add_r by lia. lia.
Qed.

Lemma lxor_eq_0 x y : Z.lxor x y = 0 → x = y.
Proof. apply Z.lxor_eq. Qed.

Lemma le_word_app u v : le_word (u ++ v) = Z.lxor (le_word u) (Z.shiftl (le_word v) (8 * Z.of_nat (length u))).
Proof.
  induction u as [|b u IH]; [by rewrite Z.shiftl_0_r|]. cbn [app le_word length].
  rewrite IH, Z.shiftl_lxor, Z.lxor_assoc, Z.shiftl_shiftl by lia. do 3 f_equal. lia.
Qed.

Lemma byte_of_word b w : is_byte b → Z.land (Z.lxor b (Z.shiftl w 8)) 0xFF = b ∧ Z.shiftr (Z.lxor b (Z.shiftl w 8)) 8 = w.
Proof.
  unfold is_byte. intros Hb. split.
  - rewrite (land_low _ 8) by lia. apply Z.bits_inj'. intros n Hn. destruct (Z.lt_ge_cases n 8).
    + rewrite Z.mod_pow2_bits_low, Z.lxor_spec, Z.shiftl_spec_low by lia. apply xorb_false_r.
    + rewrite Z.mod_pow2_bits_high by lia. rewrite <- (Z.mod_small b (2 ^ 8)), Z.mod_pow2_bits_high by lia. done.
  - rewrite Z.shiftr_lxor, Z.shiftr_shiftl_l, Z.sub_diag, Z.shiftl_0_r, (Z.shiftr_div_pow2 b) by lia.
    change (2 ^ 8) with 256. by rewrite Z.div_small.
Qed.

Lemma le_word_inj u v : Forall is_byte u → Forall is_byte v → length u = length v → le_word u = le_word v → u = v.
Proof.
  intros Hu. revert v. induction Hu as [|b u Hb _ IH]; intros [|c v] Hv Hl He; try done.
  apply Forall_cons in Hv as [Hc Hv]. cbn [le_word] in He.
  destruct (byte_of_word b (le_word u) Hb) as [B1 B2], (byte_of_word c (le_word v) Hc) as [C1 C2].
  rewrite He in B1, B2. f_equal; [congruence|]. apply IH; [done|by injection Hl|congruence].
Qed.

(** error detection: two messages that differ only inside a window of at most
    four consecutive bytes (any error burst of up to 25 bits, and any change of
    one to four adjacent bytes) never have the same checksum, whatever comes before
    and after the window. *)
Theorem crc32_detects_burst st p w w' s :
  crc_wf st → Forall is_byte (p ++ w ++ s) → Forall is_byte w' → length w = length w' → (length w ≤ 4)%nat →
  w ≠ w' → (anx_crc32 st (p ++ w ++ s)).1 ≠ (anx_crc32 st (p ++ w' ++ s)).1.
Proof.
  intros Hst Hd Hw' Hl H4 Hne. apply Forall_app in Hd as [Hp [Hw Hs]%Forall_app].
  rewrite !anx_crc32_spec by (done || by repeat apply Forall_app_2). cbn [fst]. unfold crc32_spec.
  intros E. apply Hne, le_word_inj, lxor_eq_0; [done..|].
  apply (shifts_zero (8 * length (w ++ s))); [apply lxor_u32; apply le_word_range; (done || lia)|].
  apply (f_equal (λ z, Z.lxor z 0xFFFFFFFF)) in E.
  rewrite !Z.lxor_assoc, !Z.lxor_nilpotent, !Z.lxor_0_r, <- !crc_fold in E by (by repeat apply Forall_app_2).
  rewrite !(foldl_app _ p), !(fold_le_word (_ ++ s)) in E by (by apply Forall_app_2).
  rewrite (length_app w'), <- Hl, <- length_app, !le_word_app, <- Hl in E.
  apply (f_equal (Z.lxor (Nat.iter (8 * length (w ++ s)) crc_shift
    (Z.lxor (foldl (crc_byte crc_table) 0xFFFFFFFF p) (Z.lxor (le_word w) (Z.shiftl (le_word s) (8 * Z.of_nat (length w)))))))) in E.
  rewrite Z.lxor_nilpotent, <- shifts_lxor in E. rewrite E. f_equal.
  apply Z.bits_inj'. intros n _. rewrite !Z.lxor_spec.
  by destruct (Z.testbit (foldl _ _ p) n), (Z.testbit (le_word w) n), (Z.testbit (le_word w') n), (Z.testbit (Z.shiftl _ _) n).
Qed.

(** Two messages that differ in their second byte. *)
Lemma crc32_detects_burst_witness : (anx_crc32 crc_boot [49; 50; 51]).1 ≠ (anx_crc32 crc_boot [49; 51; 51]).1.
Proof.
  apply (crc32_detects_burst crc_boot [49] [50] [51] [51]);
    [by left|repeat constructor; unfold is_byte; lia|repeat constructor; unfold is_byte; lia|done|cbn; lia|done].
Defined.
End Crc32.
