(* ===== verification/Civil.v ===== *)
(** * Calendar dates from UNIX time: [kernel/lib/civil.c]

    The date is characterised by the calendar itself: 1970-01-01 is day 0, and
    adding 86400 seconds moves to the calendar's next day. *)

From stdpp Require Import strings.
From S2P Require Import Prelude.
#[local] Open Scope Z_scope.

(** Casts to [uint8_t] and [int32_t]. *)
Definition u8 (z : Z) : Z := z mod 256.
Definition i32 (z : Z) : Z := (z + 2 ^ 31) mod 2 ^ 32 - 2 ^ 31.

Record anx_civil := Civil { year : Z; month : Z; day : Z; hour : Z; min : Z; sec : Z; wday : Z }.

(** C's [/] and [%] truncate: [Z.quot] and [Z.rem]. *)
Definition anx_civil_from_unix (unix_ts offset_hours : Z) : anx_civil :=
  let t := unix_ts + offset_hours * 3600 in
  let days := Z.quot t 86400 in
  let secs := Z.rem t 86400 in
  let '(secs, days) := if secs <? 0 then (secs + 86400, days - 1) else (secs, days) in
  let hour := u8 (Z.quot secs 3600) in
  let min := u8 (Z.rem (Z.quot secs 60) 60) in
  let sec := u8 (Z.rem secs 60) in
  let wday := u8 (Z.rem (Z.rem days 7 + 11) 7) in
  let z := days + 719468 in
  let era := Z.quot (if z >=? 0 then z else z - 146096) 146097 in
  let doe := z - era * 146097 in
  let yoe := Z.quot (doe - Z.quot doe 1460 + Z.quot doe 36524 - Z.quot doe 146096) 365 in
  let doy := doe - (365 * yoe + Z.quot yoe 4 - Z.quot yoe 100) in
  let mp := Z.quot (5 * doy + 2) 153 in
  let day := u8 (doy - Z.quot (153 * mp + 2) 5 + 1) in
  let month := u8 (if mp <? 10 then mp + 3 else mp - 9) in
  let year := i32 (yoe + era * 400 + (if month <=? 2 then 1 else 0)) in
  Civil year month day hour min sec wday.

Definition anx_civil_day_name (wday : Z) : string :=
  let names := ["Sun"; "Mon"; "Tue"; "Wed"; "Thu"; "Fri"; "Sat"]%string in
  if wday <? 7 then nth (Z.to_nat wday) names "???"%string else "???"%string.

(** ** The Gregorian calendar *)

Definition is_leap (y : Z) : bool := (y mod 4 =? 0) && (negb (y mod 100 =? 0) || (y mod 400 =? 0)).

Definition days_in_month (y m : Z) : Z :=
  if m =? 2 then if is_leap y then 29 else 28
  else if (m =? 4) || (m =? 6) || (m =? 9) || (m =? 11) then 30 else 31.

Definition valid_date (y m d : Z) : Prop := 1 ≤ m ≤ 12 ∧ 1 ≤ d ≤ days_in_month y m.

(** The day after a date. *)
Definition next_date (y m d : Z) : Z * Z * Z :=
  if d <? days_in_month y m then (y, m, d + 1)
  else if m <? 12 then (y, m + 1, 1) else (y + 1, 1, 1).

(** ** Days since 0000-03-01 to a date, with floor division *)

Definition yoe_of (doe : Z) : Z := (doe - doe / 1460 + doe / 36524 - doe / 146096) / 365.
Definition year_start (yoe : Z) : Z := 365 * yoe + yoe / 4 - yoe / 100.
Definition mp_of (doy : Z) : Z := (5 * doy + 2) / 153.

(** Year, month and day of the day [doe] of an era of 400 years. *)
Definition date_of (era doe : Z) : Z * Z * Z :=
  let yoe := yoe_of doe in
  let doy := doe - year_start yoe in
  let mp := mp_of doy in
  let m := if mp <? 10 then mp + 3 else mp - 9 in
  (yoe + era * 400 + (if m <=? 2 then 1 else 0), m, doy - (153 * mp + 2) / 5 + 1).

(** The last year of an era is the leap one. *)
Definition year_len (yoe : Z) : Z := if is_leap (yoe + 1) then 366 else 365.

Lemma leap_era y era : is_leap (y + era * 400) = is_leap y.
Proof.
  unfold is_leap. f_equal; [|f_equal].
  - f_equal. replace (y + era * 400) with (y + era * 100 * 4) by lia. by rewrite Z.mod_add.
  - do 2 f_equal. replace (y + era * 400) with (y + era * 4 * 100) by lia. by rewrite Z.mod_add.
  - f_equal. by rewrite Z.mod_add.
Qed.

Ltac euclid := Z.to_euclidean_division_equations; lia.

Lemma leap_cases y : is_leap y = true ↔ y mod 4 = 0 ∧ (y mod 100 ≠ 0 ∨ y mod 400 = 0).
Proof. unfold is_leap. lia. Qed.

(** The year of a day of an era is found from the number of the day. *)
Lemma yoe_of_range doe : 0 ≤ doe < 146097 →
  0 ≤ yoe_of doe < 400 ∧ 0 ≤ doe - year_start (yoe_of doe) < year_len (yoe_of doe).
Proof.
  intros H. assert (0 ≤ yoe_of doe < 400 ∧ 0 ≤ doe - year_start (yoe_of doe) ≤ 365) as [? ?]
    by (unfold year_start, yoe_of; euclid).
  split; [done|]. unfold year_len. destruct (is_leap (yoe_of doe + 1)) eqn:E; [lia|].
  assert (doe - year_start (yoe_of doe) ≠ 365); [|lia]. intros E'. apply not_true_iff_false in E. apply E, leap_cases.
  unfold year_start, yoe_of in *. euclid.
Qed.

Lemma yoe_of_start y doy : 0 ≤ y < 400 → 0 ≤ doy < year_len y → yoe_of (year_start y + doy) = y.
Proof.
  intros Hy Hd. unfold year_len in Hd. destruct (is_leap (y + 1)) eqn:E.
  - apply leap_cases in E. unfold year_start, yoe_of. euclid.
  - unfold year_start, yoe_of. euclid.
Qed.

(** Month, day and the year's offset, from the day of a year that starts in March. *)
Definition ymd (doy : Z) : Z * Z * Z :=
  let mp := mp_of doy in
  let m := if mp <? 10 then mp + 3 else mp - 9 in
  ((if m <=? 2 then 1 else 0), m, doy - (153 * mp + 2) / 5 + 1).

Definition month_len (leap : bool) (m : Z) : Z :=
  if m =? 2 then if leap then 29 else 28
  else if (m =? 4) || (m =? 6) || (m =? 9) || (m =? 11) then 30 else 31.

(** Inside a year the next day is the calendar's next day; the year ends with February. *)
Definition day_ok (leap : bool) (doy : Z) : bool :=
  let '(o, m, d) := ymd doy in
  let next := if d <? month_len leap m then (o, m, d + 1) else if m <? 12 then (o, m + 1, 1) else (o + 1, 1, 1) in
  bool_decide (1 ≤ m ≤ 12 ∧ 1 ≤ d ≤ month_len leap m ∧ o = (if m <=? 2 then 1 else 0)) &&
  bool_decide (next = if doy + 1 <? (if leap then 366 else 365) then ymd (doy + 1) else (1, 3, 1)).

Lemma days_ok leap doy : 0 ≤ doy < (if leap : bool then 366 else 365) → day_ok leap doy = true.
Proof.
  intros H. destruct leap.
  - apply (forall_below (day_ok true) 366 doy); [vm_compute; reflexivity|done].
  - apply (forall_below (day_ok false) 365 doy); [vm_compute; reflexivity|done].
Qed.

Lemma date_of_ymd era doe y doy :
  doe = year_start y + doy → 0 ≤ y < 400 → 0 ≤ doy < year_len y →
  date_of era doe = let '(o, m, d) := ymd doy in (y + era * 400 + o, m, d).
Proof.
  intros -> Hy Hd. unfold date_of. rewrite yoe_of_start by done.
  by replace (year_start y + doy - year_start y) with doy by lia.
Qed.

Lemma days_in_month_len y o m :
  o = (if m <=? 2 then 1 else 0) → days_in_month (y + o) m = month_len (is_leap (y + 1)) m.
Proof. intros ->. unfold days_in_month, month_len. destruct (Z.eqb_spec m 2) as [->|]; done. Qed.

Lemma days_in_month_le y m : days_in_month y m ≤ 31.
Proof. unfold days_in_month. repeat case_match; lia. Qed.

Lemma year_eq (y y' m d : Z) : y = y' → (y, m, d) = (y', m, d).
Proof. by intros ->. Qed.

(** The day after the last day of an era is the first of the next one. *)
Lemma date_next era doe : 0 ≤ doe < 146097 →
  let '(y, m, d) := date_of era doe in
  valid_date y m d ∧
  next_date y m d = if doe + 1 <? 146097 then date_of era (doe + 1) else date_of (era + 1) 0.
Proof.
  intros H. destruct (yoe_of_range doe H) as [Hy Hd].
  set (y := yoe_of doe) in *. set (doy := doe - year_start y) in *.
  assert (doe = year_start y + doy) as Hdoe by (unfold doy; lia).
  rewrite (date_of_ymd era doe y doy) by done.
  pose proof (days_ok (is_leap (y + 1)) doy Hd) as Hok. unfold day_ok in Hok.
  destruct (ymd doy) as [[o m] d] eqn:Eymd. apply andb_true_iff in Hok as [Hok1 Hok2].
  apply bool_decide_eq_true in Hok1 as (Hm & Hdm & Ho). apply bool_decide_eq_true in Hok2.
  assert (days_in_month (y + era * 400 + o) m = month_len (is_leap (y + 1)) m) as Hlen.
  { rewrite (days_in_month_len _ o m Ho). f_equal. by rewrite <- Z.add_assoc, (Z.add_comm (era * 400)), Z.add_assoc, leap_era. }
  split; [unfold valid_date; rewrite Hlen; done|]. unfold next_date. rewrite Hlen.
  transitivity (let '(o', m', d') := (if d <? month_len (is_leap (y + 1)) m then (o, m, d + 1)
    else if m <? 12 then (o, m + 1, 1) else (o + 1, 1, 1)) in (y + era * 400 + o', m', d')).
  { destruct (d <? _); [done|]. destruct (m <? 12); [done|]. do 2 f_equal. lia. }
  rewrite Hok2. fold (year_len y). unfold year_len in *. destruct (Z.ltb_spec (doy + 1) (if is_leap (y + 1) then 366 else 365)).
  - rewrite (proj2 (Z.ltb_lt _ _)).
    2: { destruct (is_leap (y + 1)) eqn:E; [apply leap_cases in E|]; unfold year_start in *; euclid. }
    rewrite (date_of_ymd era (doe + 1) y (doy + 1)); [done|lia|done|unfold year_len; lia].
  - assert (doe + 1 = year_start y + (if is_leap (y + 1) then 366 else 365)) as Hs by lia.
    destruct (Z.eqb_spec y 399) as [Ey|Hne].
    + rewrite Ey in Hs |- *. change (doe + 1 = 146097) in Hs. rewrite Hs. change (146097 <? 146097) with false. cbv iota.
      rewrite (date_of_ymd (era + 1) 0 0 0) by (done || vm_compute; intuition discriminate). change (ymd 0) with (0, 3, 1). cbv iota beta. apply year_eq. lia.
    + assert (doe + 1 = year_start (y + 1) + 0) as Hs'.
      { destruct (is_leap (y + 1)) eqn:E; [apply leap_cases in E|apply not_true_iff_false in E; rewrite leap_cases in E];
          unfold year_start in *; euclid. }
      rewrite (proj2 (Z.ltb_lt _ _)) by (unfold year_start in Hs'; euclid).
      assert (0 ≤ y + 1 < 400) by lia. rewrite (date_of_ymd era (doe + 1) (y + 1) 0); [|done|done|unfold year_len; destruct (is_leap (y + 1 + 1)); lia].
      change (ymd 0) with (0, 3, 1). cbv iota beta. apply year_eq. lia.
Qed.

(** ** The function with C's truncating division *)

(** The fields as the calendar of the day number, with floor division. *)
Definition civil_date (days : Z) : Z * Z * Z := date_of ((days + 719468) / 146097) ((days + 719468) mod 146097).

Lemma quot_floor a b : 0 ≤ a → 0 < b → Z.quot a b = a / b.
Proof. intros. by rewrite Z.quot_div_nonneg. Qed.

Lemma truncate_days t :
  (if Z.rem t 86400 <? 0 then (Z.rem t 86400 + 86400, Z.quot t 86400 - 1) else (Z.rem t 86400, Z.quot t 86400))
  = (t mod 86400, t / 86400).
Proof. destruct (Z.ltb_spec (Z.rem t 86400) 0); f_equal; euclid. Qed.

Lemma era_floor z : Z.quot (if z >=? 0 then z else z - 146096) 146097 = z / 146097.
Proof. destruct (z >=? 0) eqn:E; euclid. Qed.

Lemma i32_id z : - 2 ^ 31 ≤ z < 2 ^ 31 → i32 z = z.
Proof. intros. unfold i32. rewrite Z.mod_small; lia. Qed.

(** Timestamps whose year fits its field. *)
Definition ts_range (t : Z) : Prop := - 60000000000000000 ≤ t ≤ 60000000000000000.

Lemma civil_floor ts off :
  ts_range (ts + off * 3600) →
  let t := ts + off * 3600 in
  let '(y, m, d) := civil_date (t / 86400) in
  anx_civil_from_unix ts off
  = Civil y m d (t mod 86400 / 3600) (t mod 86400 / 60 mod 60) (t mod 60) ((t / 86400 + 4) mod 7).
Proof.
  intros Ht. cbv zeta. unfold ts_range in Ht. unfold anx_civil_from_unix. rewrite truncate_days. cbv zeta. rewrite era_floor.
  set (t := ts + off * 3600) in *. set (z := t / 86400 + 719468).
  replace (z - z / 146097 * 146097) with (z mod 146097) by euclid.
  assert (0 ≤ z mod 146097 < 146097) as Hdoe by (apply Z.mod_pos_bound; lia).
  pose proof (date_next (z / 146097) (z mod 146097) Hdoe) as Hn. unfold civil_date. fold z.
  destruct (yoe_of_range _ Hdoe) as [Hy Hd].
  assert (Z.quot (z mod 146097 - Z.quot (z mod 146097) 1460 + Z.quot (z mod 146097) 36524
    - Z.quot (z mod 146097) 146096) 365 = yoe_of (z mod 146097)) as ->.
  { rewrite !(quot_floor (z mod 146097)) by lia. apply quot_floor; [|lia]. generalize dependent (z mod 146097); intros. euclid. }
  rewrite (quot_floor (yoe_of _) 4), (quot_floor (yoe_of _) 100) by lia. fold (year_start (yoe_of (z mod 146097))).
  set (doe := z mod 146097) in *. set (doy := doe - year_start (yoe_of doe)) in *.
  rewrite (quot_floor (5 * doy + 2)) by lia. fold (mp_of doy).
  rewrite (quot_floor (153 * mp_of doy + 2)) by (unfold mp_of; euclid).
  unfold date_of in *. cbv zeta in *. fold doy in Hn |- *.
  set (m := if mp_of doy <? 10 then mp_of doy + 3 else mp_of doy - 9) in *.
  set (d := doy - (153 * mp_of doy + 2) / 5 + 1) in *.
  destruct Hn as [[Hm Hdm] _].
  assert (d ≤ 31) as Hd31.
  { etransitivity; [apply Hdm|apply days_in_month_le]. }
  assert (u8 m = m) as -> by (unfold u8; apply Z.mod_small; lia).
  assert (u8 d = d) as -> by (unfold u8; apply Z.mod_small; lia).
  rewrite i32_id by (destruct (m <=? 2); unfold z; euclid).
  assert (0 ≤ t mod 86400 < 86400) as Hs by (apply Z.mod_pos_bound; lia).
  rewrite (quot_floor (t mod 86400) 3600), (quot_floor (t mod 86400) 60) by lia.
  unfold u8. f_equal; euclid.
Qed.

(** The day number one day later. *)
Lemma civil_date_next days :
  let '(y, m, d) := civil_date days in valid_date y m d ∧ next_date y m d = civil_date (days + 1).
Proof.
  unfold civil_date. set (z := days + 719468).
  assert (0 ≤ z mod 146097 < 146097) as H by (apply Z.mod_pos_bound; lia).
  pose proof (date_next (z / 146097) (z mod 146097) H) as Hn. destruct (date_of _ _) as [[y m] d].
  destruct Hn as [Hv Hn]. split; [done|]. rewrite Hn. replace (days + 1 + 719468) with (z + 1) by lia.
  destruct (Z.ltb_spec (z mod 146097 + 1) 146097); f_equal; euclid.
Qed.

Lemma ts_range_day t : ts_range t → ts_range (t + 86400) →
  (t + 86400) / 86400 = t / 86400 + 1 ∧ (t + 86400) mod 86400 = t mod 86400 ∧ (t + 86400) mod 60 = t mod 60.
Proof. intros _ _. split_and!; euclid. Qed.

(** calendar correctness of [anx_civil_from_unix], for times before and after
    1970: the epoch is Thursday 1970-01-01 00:00:00; every result is a valid date and
    time of day; a day later the date is the Gregorian calendar's next day, the
    weekday the next weekday and the time of day the same; and within a day the
    clock is the number of seconds since midnight. *)
Theorem civil_calendar ts off :
  ts_range (ts + off * 3600) → ts_range (ts + 86400 + off * 3600) →
  let c := anx_civil_from_unix ts off in
  let c' := anx_civil_from_unix (ts + 86400) off in
  anx_civil_from_unix 0 0 = Civil 1970 1 1 0 0 0 4 ∧
  valid_date (year c) (month c) (day c) ∧
  (year c', month c', day c') = next_date (year c) (month c) (day c) ∧
  wday c' = (wday c + 1) mod 7 ∧ 0 ≤ wday c < 7 ∧
  (hour c', min c', sec c') = (hour c, min c, sec c) ∧
  0 ≤ hour c < 24 ∧ 0 ≤ min c < 60 ∧ 0 ≤ sec c < 60 ∧
  hour c * 3600 + min c * 60 + sec c = (ts + off * 3600) mod 86400.
Proof.
  intros H1 H2. cbv zeta. pose proof (civil_floor ts off H1) as E1. pose proof (civil_floor (ts + 86400) off H2) as E2.
  cbv zeta in E1, E2. replace (ts + 86400 + off * 3600) with (ts + off * 3600 + 86400) in * by lia.
  set (t := ts + off * 3600) in *. destruct (ts_range_day t H1 H2) as (D1 & D2 & D3). rewrite D1, D2, D3 in E2.
  pose proof (civil_date_next (t / 86400)) as Hn. destruct (civil_date (t / 86400)) as [[y m] d].
  destruct Hn as [Hv Hn]. destruct (civil_date (t / 86400 + 1)) as [[y' m'] d'].
  rewrite E1, E2. cbn [year month day hour min sec wday]. clear E1 E2.
  split_and!; try done; try (by apply Z.mod_pos_bound); euclid.
Qed.

(** 28 February 2000, 23:59:30 UTC, the eve of a leap day. *)
Lemma civil_calendar_witness :
  (year (anx_civil_from_unix (951782370 + 86400) 0), month (anx_civil_from_unix (951782370 + 86400) 0),
   day (anx_civil_from_unix (951782370 + 86400) 0)) = (2000, 2, 29).
Proof.
  destruct (civil_calendar 951782370 0) as (_ & _ & E & _); [unfold ts_range; lia..|]. rewrite E. vm_compute. reflexivity.
Defined.

(** The weekday that is computed always has a name. *)
Lemma day_name_known ts off :
  ts_range (ts + off * 3600) → anx_civil_day_name (wday (anx_civil_from_unix ts off)) ≠ "???"%string.
Proof.
  intros H. pose proof (civil_floor ts off H) as E. cbv zeta in E. destruct (civil_date _) as [[y m] d]. rewrite E. cbn [wday].
  assert (0 ≤ ((ts + off * 3600) / 86400 + 4) mod 7 < 7) as Hw by (apply Z.mod_pos_bound; lia). clear E.
  pose proof (forall_below (λ w, negb (String.eqb (anx_civil_day_name w) "???"%string)) 7 _
    ltac:(vm_compute; reflexivity) Hw) as Hn. by apply negb_true_iff, String.eqb_neq in Hn.
Qed.
