(* ===== verification/Uuid.v ===== *)
(** * Identifiers: [kernel/lib/uuid.c], [kernel/include/anx/uuid.h]

    Every object, cell, engine, lease and fence of the kernel is named by a
    128-bit UUID.  The clock ([arch_time_now]) is an argument. *)

From S2P Require Import Prelude.

Record anx_uuid := Uuid { hi : Z; lo : Z }.

#[export] Instance anx_uuid_eq_dec : EqDecision anx_uuid.
Proof. solve_decision. Defined.

#[export] Instance anx_uuid_countable : Countable anx_uuid.
Proof.
  refine (inj_countable' (λ u, (hi u, lo u)) (λ p, Uuid p.1 p.2) _).
  by intros [].
Defined.

Definition ANX_UUID_NIL : anx_uuid := Uuid 0 0.

Definition anx_uuid_compare (a b : anx_uuid) : Z :=
  when negb (hi a =? hi b) ret (if hi a <? hi b then -1 else 1) ;;
  when negb (lo a =? lo b) ret (if lo a <? lo b then -1 else 1) ;;
  0.

Definition anx_uuid_is_nil (u : anx_uuid) : bool := (hi u =? 0) && (lo u =? 0).

(** [anx_uuid_compare(a, b) == 0], the test every lookup loop uses. *)
Definition uuid_eqb (a b : anx_uuid) : bool := anx_uuid_compare a b =? 0.

(** ** Hashing: [anx_hash_u64] of [kernel/lib/hashtable.c] *)

Definition anx_hash_u64 (val : Z) : Z :=
  let val := Z.lxor val (Z.shiftr val 33) in
  let val := u64 (val * 0xff51afd7ed558ccd) in
  let val := Z.lxor val (Z.shiftr val 33) in
  let val := u64 (val * 0xc4ceb9fe1a85ec53) in
  Z.lxor val (Z.shiftr val 33).

Definition anx_uuid_hash (u : anx_uuid) : Z := anx_hash_u64 (Z.lxor (hi u) (lo u)).

(** ** Generation: the xorshift64 state is threaded explicitly *)

Definition xorshift64 (now prng_state : Z) : Z :=
  let x := prng_state in
  let x := if x =? 0 then Z.lor now 1 else x in
  let x := Z.lxor x (u64 (Z.shiftl x 13)) in
  let x := Z.lxor x (Z.shiftr x 7) in
  Z.lxor x (u64 (Z.shiftl x 17)).

(** The new UUID and the new generator state.  [now] is the first call of
    [arch_time_now]; [seed1], [seed2] are the times the generator would seed
    itself with. *)
Definition anx_uuid_generate (now seed1 seed2 prng_state : Z) : anx_uuid * Z :=
  let ts_ms := now / 1000000 in
  let rand1 := xorshift64 seed1 prng_state in
  let rand2 := xorshift64 seed2 rand1 in
  (Uuid (Z.lor (Z.lor (u64 (Z.shiftl ts_ms 16)) (Z.shiftl 0x7 12)) (Z.land rand1 0xFFF))
        (Z.lor (Z.shiftl 0x2 62) (Z.land rand2 0x3FFFFFFFFFFFFFFF)),
   rand2).

(** ** Facts used by every lookup *)

Lemma anx_uuid_compare_eq a b : anx_uuid_compare a b = 0 ↔ a = b.
Proof.
  destruct a as [ah al], b as [bh bl]. unfold anx_uuid_compare; simpl.
  destruct (Z.eqb_spec ah bh), (Z.eqb_spec al bl); simpl; subst;
    repeat match goal with |- context [if ?c then _ else _] => destruct c end;
    split; intros; congruence.
Qed.

Lemma uuid_eqb_spec a b : reflect (a = b) (uuid_eqb a b).
Proof.
  unfold uuid_eqb. destruct (Z.eqb_spec (anx_uuid_compare a b) 0) as [E|E]; constructor.
  - by apply anx_uuid_compare_eq.
  - intros ->. apply E. by apply anx_uuid_compare_eq.
Qed.

Lemma uuid_eqb_true a b : uuid_eqb a b = true ↔ a = b.
Proof. by destruct (uuid_eqb_spec a b). Qed.

Lemma uuid_eqb_false a b : uuid_eqb a b = false ↔ a ≠ b.
Proof. by destruct (uuid_eqb_spec a b). Qed.

Lemma uuid_eqb_refl a : uuid_eqb a a = true.
Proof. by apply uuid_eqb_true. Qed.

Lemma uuid_is_nil_spec u : reflect (u = ANX_UUID_NIL) (anx_uuid_is_nil u).
Proof.
  destruct u as [h l]. unfold anx_uuid_is_nil, ANX_UUID_NIL; simpl.
  destruct (Z.eqb_spec h 0), (Z.eqb_spec l 0); simpl; constructor; congruence.
Qed.

#[export] Hint Resolve uuid_eqb_refl : anx.

(** The comparison is antisymmetric and transitive: with
    [anx_uuid_compare_eq] it is a total order. *)
Lemma anx_uuid_compare_antisym a b : anx_uuid_compare b a = - anx_uuid_compare a b.
Proof.
  destruct a as [ah al], b as [bh bl]. unfold anx_uuid_compare; simpl.
  destruct (Z.eqb_spec ah bh), (Z.eqb_spec bh ah), (Z.eqb_spec al bl), (Z.eqb_spec bl al);
    try congruence; simpl; try done;
    repeat match goal with |- context [?x <? ?y] => destruct (Z.ltb_spec x y) end; lia.
Qed.

Lemma anx_uuid_compare_lt a b :
  anx_uuid_compare a b < 0 ↔ hi a < hi b ∨ (hi a = hi b ∧ lo a < lo b).
Proof.
  unfold anx_uuid_compare.
  destruct (Z.eqb_spec (hi a) (hi b)), (Z.eqb_spec (lo a) (lo b)); simpl;
    repeat match goal with |- context [?x <? ?y] => destruct (Z.ltb_spec x y) end; lia.
Qed.

(** [anx_uuid_compare] is a strict total order whose zero is equality:
    for any three identifiers it is antisymmetric, transitive, and returns 0
    exactly on equal identifiers. *)
Theorem uuid_compare_total_order a b c :
  anx_uuid_compare b a = - anx_uuid_compare a b ∧
  (anx_uuid_compare a b = 0 ↔ a = b) ∧
  (anx_uuid_compare a b < 0 → anx_uuid_compare b c < 0 → anx_uuid_compare a c < 0).
Proof.
  split_and!; [apply anx_uuid_compare_antisym|apply anx_uuid_compare_eq|].
  rewrite !anx_uuid_compare_lt. lia.
Qed.

Lemma uuid_compare_total_order_witness :
  anx_uuid_compare (Uuid 1 5) (Uuid 2 0) < 0 ∧ anx_uuid_compare (Uuid 1 5) (Uuid 2 3) < 0.
Proof.
  split; [done|].
  apply (uuid_compare_total_order (Uuid 1 5) (Uuid 2 0) (Uuid 2 3)); done.
Defined.

(** ** The generator *)

Lemma xorshift64_range now s : is_u64 now → is_u64 s → is_u64 (xorshift64 now s).
Proof.
  intros Hn Hs. unfold xorshift64.
  assert (H0 : is_u64 (if s =? 0 then Z.lor now 1 else s)).
  { destruct (s =? 0); [|done]. apply is_u64_lor; [done|]. split; done. }
  set (x := if s =? 0 then Z.lor now 1 else s) in *.
  assert (H1 : is_u64 (Z.lxor x (u64 (Z.shiftl x 13)))) by eauto with anx.
  set (y := Z.lxor x _) in *.
  assert (H2 : is_u64 (Z.shiftr y 7)).
  { apply is_u64_of_bits; [apply Z.shiftr_nonneg; unfold is_u64 in *; lia|].
    intros j Hj. rewrite Z.shiftr_spec by lia. apply is_u64_testbit; [done|lia]. }
  eauto with anx.
Qed.

(** whatever the clock and generator state, a generated UUID is never the
    nil UUID (which the kernel uses to mean "unset"), carries version 7 and
    variant 10, and both words fit 64 bits. *)
Theorem uuid_generate_not_nil now seed1 seed2 s :
  is_u64 now → is_u64 seed1 → is_u64 seed2 → is_u64 s →
  let '(u, s') := anx_uuid_generate now seed1 seed2 s in
  u ≠ ANX_UUID_NIL ∧ is_u64 (hi u) ∧ is_u64 (lo u) ∧ is_u64 s' ∧
  Z.land (Z.shiftr (hi u) 12) 0x7 = 0x7 ∧ Z.shiftr (lo u) 62 = 0x2.
Proof.
  intros Hn H1 H2 Hs. unfold anx_uuid_generate.
  pose proof (xorshift64_range seed1 s H1 Hs) as R1. set (r1 := xorshift64 seed1 s) in *.
  pose proof (xorshift64_range seed2 r1 H2 R1) as R2. set (r2 := xorshift64 seed2 r1) in *.
  assert (Hlo : Z.shiftr (Z.lor (Z.shiftl 2 62) (Z.land r2 0x3FFFFFFFFFFFFFFF)) 62 = 2).
  { rewrite Z.shiftr_lor, Z.shiftr_land.
    change (Z.shiftr 0x3FFFFFFFFFFFFFFF 62) with 0. by rewrite Z.land_0_r. }
  assert (Hmask : ∀ m, 0 ≤ m → is_u64 m → ∀ z, is_u64 z → is_u64 (Z.land z m))
    by (intros; apply is_u64_land; auto).
  split_and!.
  - intros [= Hh Hl]. rewrite Hl in Hlo. done.
  - apply is_u64_lor; [apply is_u64_lor; [apply u64_range|split; done]|].
    apply Hmask; [done|split; done|done].
  - apply is_u64_lor; [split; done|]. apply Hmask; [done|split; done|done].
  - done.
  - simpl. apply Z.bits_inj'. intros j Hj.
    rewrite Z.land_spec, Z.shiftr_spec, !Z.lor_spec by lia.
    destruct (Z.ltb_spec j 3).
    + replace (Z.testbit (Z.shiftl 7 12) (j + 12)) with (Z.testbit 7 j).
      * destruct (Z.testbit 7 j); [|by rewrite andb_false_r].
        by rewrite orb_true_r.
      * rewrite Z.shiftl_spec by lia. f_equal. lia.
    + assert (Z.testbit 7 j = false) as -> by (apply Z.bits_above_log2; simpl; lia).
      by rewrite andb_false_r.
  - done.
Qed.

Lemma uuid_generate_not_nil_witness :
  let '(u, s') := anx_uuid_generate 1700000000000000000 5 9 0 in
  u ≠ ANX_UUID_NIL ∧ is_u64 (hi u) ∧ is_u64 (lo u) ∧ is_u64 s' ∧
  Z.land (Z.shiftr (hi u) 12) 0x7 = 0x7 ∧ Z.shiftr (lo u) 62 = 0x2.
Proof.
  apply (uuid_generate_not_nil 1700000000000000000 5 9 0); split; vm_compute; done.
Defined.
