(* ===== verification/HashTable.v ===== *)
(** * Chained hash tables: [kernel/lib/hashtable.c], [kernel/include/anx/list.h]

    The cell store, the object store, the capability store and the memory
    plane are all [anx_htable]s of intrusive nodes searched by UUID.  Here the
    table is modelled with its buckets; nodes are addresses and [key] reads
    the identifier embedded in the node's object.  [TableRefines] shows that
    the table refines a finite map, the form the components above use. *)

From S2P Require Import Prelude Uuid.

Definition node := Z.

(** [struct anx_htable]; a bucket's circular list is its nodes in order. *)
Record anx_htable := HTable {
  buckets : list (list node);
  ht_bits : Z;
  ht_count : Z;
}.

(** [anx_list_add] inserts after the head, [anx_list_add_tail] before it,
    [anx_list_del] unlinks a node from the list that holds it. *)
Definition anx_list_add {A} (entry : A) (l : list A) : list A := entry :: l.
Definition anx_list_add_tail {A} (entry : A) (l : list A) : list A := l ++ [entry].
Definition anx_list_del (entry : node) (l : list node) : list node :=
  filter (λ n, n ≠ entry) l.

Definition anx_htable_init (bits : Z) : anx_htable :=
  HTable (replicate (Z.to_nat (Z.shiftl 1 bits)) []) bits 0.

(** The index [anx_htable_bucket] computes from a hash. *)
Definition bucket_index (ht : anx_htable) (hash : Z) : Z :=
  Z.land hash (Z.shiftl 1 ht.(ht_bits) - 1).

Definition anx_htable_bucket (ht : anx_htable) (hash : Z) : list node :=
  rd [] ht.(buckets) (bucket_index ht hash).

Definition anx_htable_add (ht : anx_htable) (n : node) (hash : Z) : anx_htable :=
  HTable (wr ht.(buckets) (bucket_index ht hash)
            (anx_list_add n (anx_htable_bucket ht hash)))
    ht.(ht_bits) (u32 (ht.(ht_count) + 1)).

Definition anx_htable_del (ht : anx_htable) (n : node) : anx_htable :=
  HTable (anx_list_del n <$> ht.(buckets)) ht.(ht_bits) (u32 (ht.(ht_count) - 1)).

Section lookup.
(** The identifier stored in the object that embeds a node. *)
Context (key : node → anx_uuid).

(** The bucket walk of [anx_cell_store_lookup], [anx_objstore_lookup],
    [anx_cap_lookup] and [anx_memplane_lookup]. *)
Fixpoint bucket_find (l : list node) (k : anx_uuid) : option node :=
  match l with
  | [] => None
  | n :: l => if uuid_eqb (key n) k then Some n else bucket_find l k
  end.

Definition htable_lookup (ht : anx_htable) (k : anx_uuid) : option node :=
  bucket_find (anx_htable_bucket ht (anx_uuid_hash k)) k.

Definition htable_add (ht : anx_htable) (n : node) : anx_htable :=
  anx_htable_add ht n (anx_uuid_hash (key n)).

(** ** Well-formedness and the finite map a table stands for *)

Definition entries (ht : anx_htable) : list node := concat ht.(buckets).

Record table_ok (ht : anx_htable) : Prop := {
  tok_bits : 0 ≤ ht.(ht_bits) < 32;
  tok_len : Z.of_nat (length ht.(buckets)) = Z.shiftl 1 ht.(ht_bits);
  tok_hash : ∀ i n, 0 ≤ i < Z.of_nat (length ht.(buckets)) →
    n ∈ rd [] ht.(buckets) i → bucket_index ht (anx_uuid_hash (key n)) = i;
}.

(** The abstraction relation: [m] maps each identifier to the node of the
    table that carries it. *)
Definition refines (ht : anx_htable) (m : gmap anx_uuid node) : Prop :=
  table_ok ht ∧
  (∀ k n, m !! k = Some n ↔ (n ∈ anx_htable_bucket ht (anx_uuid_hash k) ∧ key n = k)).

Lemma bucket_index_range ht hash :
  table_ok ht → 0 ≤ bucket_index ht hash < Z.of_nat (length ht.(buckets)).
Proof.
  intros [Hb Hl _]. rewrite Hl. unfold bucket_index.
  rewrite Z.shiftl_1_l. replace (2 ^ ht.(ht_bits) - 1) with (Z.ones ht.(ht_bits)).
  - rewrite Z.land_ones by lia. apply Z.mod_pos_bound, Z.pow_pos_nonneg; lia.
  - rewrite Z.ones_equiv. lia.
Qed.

Lemma bucket_find_spec l k n :
  bucket_find l k = Some n → n ∈ l ∧ key n = k.
Proof.
  induction l as [|x l IH]; [done|]. simpl.
  destruct (uuid_eqb_spec (key x) k); [intros [= ->]; set_solver|].
  intros [??]%IH. set_solver.
Qed.

Lemma bucket_find_None l k : bucket_find l k = None ↔ ∀ n, n ∈ l → key n ≠ k.
Proof.
  induction l as [|x l IH]; simpl; [set_solver|].
  destruct (uuid_eqb_spec (key x) k); [set_solver|]. rewrite IH. set_solver.
Qed.

(** Lookup on a refined table is the map lookup. *)
Lemma refines_lookup ht m k : refines ht m → htable_lookup ht k = m !! k.
Proof.
  intros [Hok Hm]. unfold htable_lookup.
  destruct (bucket_find _ k) as [n|] eqn:E.
  - apply bucket_find_spec in E. symmetry. by apply Hm.
  - rewrite bucket_find_None in E. symmetry. apply eq_None_not_Some. intros [n Hn].
    apply Hm in Hn as [Hn Hk]. by eapply E.
Qed.

Lemma add_bucket ht n h :
  table_ok ht →
  anx_htable_bucket (htable_add ht n) h =
  if bucket_index ht h =? bucket_index ht (anx_uuid_hash (key n))
  then n :: anx_htable_bucket ht h else anx_htable_bucket ht h.
Proof.
  intros Hok. unfold anx_htable_bucket at 1, htable_add, anx_htable_add. simpl.
  change (bucket_index (HTable _ _ _) h) with (bucket_index ht h).
  pose proof (bucket_index_range ht h Hok).
  pose proof (bucket_index_range ht (anx_uuid_hash (key n)) Hok).
  destruct (Z.eqb_spec (bucket_index ht h) (bucket_index ht (anx_uuid_hash (key n)))) as [E|E].
  - rewrite E, rd_wr_eq by lia. unfold anx_list_add, anx_htable_bucket. by rewrite E.
  - by rewrite rd_wr_ne by lia.
Qed.

Lemma table_ok_add ht n : table_ok ht → table_ok (htable_add ht n).
Proof.
  intros Hok. pose proof (bucket_index_range ht (anx_uuid_hash (key n)) Hok) as Hr.
  constructor; simpl; [apply Hok|by rewrite wr_length, (tok_len _ Hok)|].
  intros i n' Hi Hn'. rewrite wr_length in Hi.
  change (bucket_index (HTable _ _ _) _) with (bucket_index ht (anx_uuid_hash (key n'))).
  destruct (Z.eq_dec i (bucket_index ht (anx_uuid_hash (key n)))) as [->|Hne].
  - rewrite rd_wr_eq in Hn' by lia. apply elem_of_cons in Hn' as [->|Hn']; [done|].
    by apply (tok_hash _ Hok).
  - rewrite rd_wr_ne in Hn' by lia. by apply (tok_hash _ Hok).
Qed.

Lemma refines_add ht m n :
  refines ht m → m !! key n = None →
  refines (htable_add ht n) (<[key n := n]> m).
Proof.
  intros [Hok Hm] Hfresh. split; [by apply table_ok_add|].
  intros k n'. rewrite lookup_insert, add_bucket by done.
  pose proof (bucket_index_range ht (anx_uuid_hash k) Hok).
  case_decide as Hk.
  - subst k. rewrite Z.eqb_refl, elem_of_cons. split.
    + intros [= ->]. auto.
    + intros [[->|Hin] Heq]; [done|].
      assert (m !! key n = Some n') as Hs by (by apply Hm). congruence.
  - destruct (Z.eqb_spec (bucket_index ht (anx_uuid_hash k))
      (bucket_index ht (anx_uuid_hash (key n)))); [|apply Hm].
    rewrite elem_of_cons, Hm. naive_solver.
Qed.

Lemma del_bucket ht n h :
  anx_htable_bucket (anx_htable_del ht n) h = anx_list_del n (anx_htable_bucket ht h).
Proof.
  unfold anx_htable_bucket, anx_htable_del, rd. simpl.
  change (bucket_index (HTable _ _ _) h) with (bucket_index ht h).
  rewrite !nth_lookup, list_lookup_fmap.
  by destruct (buckets ht !! _).
Qed.

Lemma refines_del ht m n :
  refines ht m → m !! key n = Some n →
  refines (anx_htable_del ht n) (delete (key n) m).
Proof.
  intros [Hok Hm] Hn. split.
  - constructor; simpl; [apply Hok|by rewrite length_fmap, (tok_len _ Hok)|].
    intros i n' Hi Hn'. rewrite length_fmap in Hi.
    change (bucket_index (HTable _ _ _) _) with (bucket_index ht (anx_uuid_hash (key n'))).
    apply (tok_hash _ Hok); [done|]. unfold rd in *. rewrite nth_lookup in *.
    rewrite list_lookup_fmap in Hn'. destruct (buckets ht !! Z.to_nat i); [|done].
    simpl in *. unfold anx_list_del in Hn'. apply list_elem_of_filter in Hn'. tauto.
  - intros k n'. rewrite lookup_delete, del_bucket. unfold anx_list_del.
    rewrite list_elem_of_filter. case_decide as Hk.
    + subst k. split; [done|]. intros [[Hne Hin] Heq].
      assert (m !! key n = Some n') by (by apply Hm). congruence.
    + rewrite Hm. split; [|tauto]. intros [Hin Heq].
      split; [|done]. split; [|done]. intros ->. congruence.
Qed.

Lemma refines_init bits : 0 ≤ bits < 32 → refines (anx_htable_init bits) ∅.
Proof.
  intros Hb. assert (Hnil : ∀ i, rd [] (buckets (anx_htable_init bits)) i = []).
  { intros i. unfold rd. rewrite nth_lookup. simpl.
    destruct (replicate _ _ !! _) as [l|] eqn:E; [|done].
    by apply lookup_replicate in E as [-> _]. }
  split.
  - constructor; simpl; [done| |].
    + rewrite length_replicate, Z2Nat.id; [done|].
      rewrite Z.shiftl_1_l. apply Z.pow_nonneg. lia.
    + intros i n _ Hn. unfold anx_htable_init in Hnil. simpl in Hnil. rewrite Hnil in Hn.
      by apply elem_of_nil in Hn.
  - intros k n. rewrite lookup_empty. unfold anx_htable_bucket. rewrite Hnil.
    split; [done|]. intros [Hn _]. by apply elem_of_nil in Hn.
Qed.

(** ** The interface the stores are written against *)

Inductive table_op :=
  | OpAdd (n : node)
  | OpDel (n : node).

(** One operation on the table and on the map; an insertion is only made
    under a fresh identifier, a deletion only of a stored node. *)
Definition run_op (ht : anx_htable) (op : table_op) : anx_htable :=
  match op with OpAdd n => htable_add ht n | OpDel n => anx_htable_del ht n end.

Definition op_allowed (m : gmap anx_uuid node) (op : table_op) : Prop :=
  match op with OpAdd n => m !! key n = None | OpDel n => m !! key n = Some n end.

Definition map_op (m : gmap anx_uuid node) (op : table_op) : gmap anx_uuid node :=
  match op with OpAdd n => <[key n := n]> m | OpDel n => delete (key n) m end.

Inductive ops_allowed : gmap anx_uuid node → list table_op → Prop :=
  | ops_nil m : ops_allowed m []
  | ops_cons m op ops :
      op_allowed m op → ops_allowed (map_op m op) ops → ops_allowed m (op :: ops).

Lemma refines_op ht m op :
  refines ht m → op_allowed m op → refines (run_op ht op) (map_op m op).
Proof. destruct op; [apply refines_add|apply refines_del]. Qed.

Lemma refines_ops ht m ops :
  refines ht m → ops_allowed m ops →
  refines (foldl run_op ht ops) (foldl map_op m ops).
Proof.
  intros Href Hall. revert ht Href.
  induction Hall as [|m op ops Hop _ IH]; intros ht Href; [done|].
  simpl. apply IH. by apply refines_op.
Qed.
End lookup.

(** the hash table refines a finite map.  After any sequence of
    insertions under fresh identifiers and deletions of stored nodes on an
    initialised table, a bucket lookup returns exactly what the finite map
    built by the same operations returns, hash collisions included. *)
Theorem htable_refines_map key bits ops k :
  0 ≤ bits < 32 → ops_allowed key ∅ ops →
  htable_lookup key (foldl (run_op key) (anx_htable_init bits) ops) k
  = foldl (map_op key) ∅ ops !! k.
Proof.
  intros Hb Hops. apply refines_lookup, refines_ops; [|done]. by apply refines_init.
Qed.

Lemma htable_refines_map_witness :
  let key n := Uuid n n in
  let ops := [OpAdd 3; OpAdd 4; OpDel 3] in
  htable_lookup key (foldl (run_op key) (anx_htable_init 1) ops) (Uuid 4 4) = Some 4 ∧
  htable_lookup key (foldl (run_op key) (anx_htable_init 1) ops) (Uuid 3 3)
  = foldl (map_op key) ∅ ops !! Uuid 3 3.
Proof.
  split; [vm_compute; reflexivity|].
  apply (htable_refines_map (λ n, Uuid n n) 1 [OpAdd 3; OpAdd 4; OpDel 3] (Uuid 3 3)); [lia|].
  repeat (apply ops_cons; [vm_compute; reflexivity|]). apply ops_nil.
Defined.
