(* ===== verification/Cell.v ===== *)
(** * Execution cells: [kernel/core/exec/cell.c], [kernel/include/anx/cell.h]

    The cell record, its life cycle, the reference-counted store lookup, the
    dependency graph with its cycle check, and the per-cell declarations
    (topology, contract, cognitive envelope).

    The store is a finite map from cell id to cell ([HashTable.v] shows the
    hash table implements such a map).  A [struct anx_cell *] is the id of the
    cell it points to; a pointer that is not to a live cell is [NULL].  The
    arrays [child_cids] and [dep_cids] with their counts are the lists of their
    live entries.  Fields no function of the model reads or writes (inputs,
    outputs, plan, trace, error text) are left out. *)

From S2P Require Import Prelude Uuid.

(** ** Enumerations *)

Inductive anx_cell_status :=
  | ANX_CELL_CREATED | ANX_CELL_ADMITTED | ANX_CELL_PLANNING | ANX_CELL_PLANNED
  | ANX_CELL_QUEUED | ANX_CELL_RUNNING | ANX_CELL_WAITING | ANX_CELL_VALIDATING
  | ANX_CELL_COMMITTING | ANX_CELL_COMPLETED | ANX_CELL_FAILED
  | ANX_CELL_CANCELLED | ANX_CELL_COMPENSATING | ANX_CELL_COMPENSATED.

#[export] Instance anx_cell_status_eq_dec : EqDecision anx_cell_status.
Proof. solve_decision. Defined.

Definition all_statuses : list anx_cell_status :=
  [ANX_CELL_CREATED; ANX_CELL_ADMITTED; ANX_CELL_PLANNING; ANX_CELL_PLANNED;
   ANX_CELL_QUEUED; ANX_CELL_RUNNING; ANX_CELL_WAITING; ANX_CELL_VALIDATING;
   ANX_CELL_COMMITTING; ANX_CELL_COMPLETED; ANX_CELL_FAILED;
   ANX_CELL_CANCELLED; ANX_CELL_COMPENSATING; ANX_CELL_COMPENSATED].

(** The C integer of an enumerator is its position; a value outside
    [0 .. ANX_CELL_STATUS_COUNT) is no status. *)
Definition status_of_int (z : Z) : option anx_cell_status :=
  if z <? 0 then None else all_statuses !! Z.to_nat z.

Definition anx_cell_status_terminal (status : anx_cell_status) : bool :=
  match status with
  | ANX_CELL_COMPLETED | ANX_CELL_FAILED
  | ANX_CELL_CANCELLED | ANX_CELL_COMPENSATED => true
  | _ => false
  end.

Inductive anx_cell_type :=
  | ANX_CELL_TASK_EXECUTION | ANX_CELL_TASK_BATCH_EXECUTION
  | ANX_CELL_TASK_STREAM_EXECUTION | ANX_CELL_TASK_PLAN_GENERATION
  | ANX_CELL_TASK_DECOMPOSITION | ANX_CELL_TASK_RETRIEVAL
  | ANX_CELL_TASK_MEMORY_UPDATE | ANX_CELL_TASK_GRAPH_UPDATE
  | ANX_CELL_TASK_VALIDATION | ANX_CELL_TASK_CONSISTENCY_CHECK
  | ANX_CELL_TASK_POLICY_CHECK | ANX_CELL_TASK_SIDE_EFFECT
  | ANX_CELL_TASK_EXTERNAL_CALL | ANX_CELL_TASK_ROUTER
  | ANX_CELL_TASK_SCHEDULER_BINDING | ANX_CELL_TASK_COMPENSATION
  | ANX_CELL_MODEL_SERVER | ANX_CELL_VM | ANX_CELL_BELIEF_UPDATE
  | ANX_CELL_ARBITRATION | ANX_CELL_LOOP_SUPERVISOR | ANX_CELL_EDITOR
  | ANX_CELL_AUDIO_PLAYER | ANX_CELL_VIDEO_PLAYER.

Definition all_cell_types : list anx_cell_type :=
  [ANX_CELL_TASK_EXECUTION; ANX_CELL_TASK_BATCH_EXECUTION;
   ANX_CELL_TASK_STREAM_EXECUTION; ANX_CELL_TASK_PLAN_GENERATION;
   ANX_CELL_TASK_DECOMPOSITION; ANX_CELL_TASK_RETRIEVAL;
   ANX_CELL_TASK_MEMORY_UPDATE; ANX_CELL_TASK_GRAPH_UPDATE;
   ANX_CELL_TASK_VALIDATION; ANX_CELL_TASK_CONSISTENCY_CHECK;
   ANX_CELL_TASK_POLICY_CHECK; ANX_CELL_TASK_SIDE_EFFECT;
   ANX_CELL_TASK_EXTERNAL_CALL; ANX_CELL_TASK_ROUTER;
   ANX_CELL_TASK_SCHEDULER_BINDING; ANX_CELL_TASK_COMPENSATION;
   ANX_CELL_MODEL_SERVER; ANX_CELL_VM; ANX_CELL_BELIEF_UPDATE;
   ANX_CELL_ARBITRATION; ANX_CELL_LOOP_SUPERVISOR; ANX_CELL_EDITOR;
   ANX_CELL_AUDIO_PLAYER; ANX_CELL_VIDEO_PLAYER].

Definition cell_type_of_int (z : Z) : option anx_cell_type :=
  if z <? 0 then None else all_cell_types !! Z.to_nat z.

(** [t < ANX_CELL_MODEL_SERVER]: the task types, which own no subsystem. *)
Definition below_model_server (t : anx_cell_type) : bool :=
  match t with
  | ANX_CELL_MODEL_SERVER | ANX_CELL_VM | ANX_CELL_BELIEF_UPDATE
  | ANX_CELL_ARBITRATION | ANX_CELL_LOOP_SUPERVISOR | ANX_CELL_EDITOR
  | ANX_CELL_AUDIO_PLAYER | ANX_CELL_VIDEO_PLAYER => false
  | _ => true
  end.

Inductive anx_locality :=
  | ANX_LOCAL_ONLY | ANX_LOCAL_PREFERRED | ANX_REMOTE_ALLOWED | ANX_REMOTE_REQUIRED.

Inductive anx_routing_strategy :=
  | ANX_ROUTE_DIRECT | ANX_ROUTE_LOCAL_FIRST | ANX_ROUTE_COST_FIRST
  | ANX_ROUTE_LATENCY_FIRST | ANX_ROUTE_CONFIDENCE_FIRST | ANX_ROUTE_ADAPTIVE
  | ANX_ROUTE_POLICY_LOCKED.

Inductive anx_decomp_mode :=
  | ANX_DECOMP_NONE | ANX_DECOMP_STATIC | ANX_DECOMP_ADAPTIVE | ANX_DECOMP_RECURSIVE.

Inductive anx_validation_mode :=
  | ANX_VALIDATE_NONE | ANX_VALIDATE_SCHEMA_ONLY | ANX_VALIDATE_LIGHT
  | ANX_VALIDATE_STRICT | ANX_VALIDATE_DOMAIN_SPECIFIC.

(** The execution contract keeps the integers of its enums: the code range
    checks them where it reads them. *)
Definition ANX_CONSISTENCY_BEST_EFFORT : Z := 0.
Definition ANX_CONSISTENCY_TOKEN_STABLE : Z := 3.
Definition ANX_EFFECT_DIRECT : Z := 0.
Definition ANX_EFFECT_STAGED : Z := 1.

Definition ANX_MAX_CHILD_CELLS : Z := 32.
Definition ANX_MAX_CELL_DEPS : Z := 16.

(** ** The cell *)

Record anx_cell_intent := CellIntent {
  name : list Z;       (* char[128], without its terminator *)
  objective : list Z;  (* char[512] *)
  priority : Z;
}.

Record anx_cell_constraints := CellConstraints {
  max_latency_ms : Z;
  max_memory_admission_bytes : Z;
  max_cost_usd_cents : Z;
  locality : anx_locality;
  max_recursion_depth : Z;
  max_child_cells : Z;
  topology_bk_set : bool;
  topology_bk_lo : Z;
  topology_bk_hi : Z;
}.

Record anx_cell_policy := CellPolicy {
  strategy : anx_routing_strategy;
  decomposition : anx_decomp_mode;
  validation_mode : anx_validation_mode;
  block_commit_on_failure : bool;
  persist_outputs : bool;
  promote_to_memory : bool;
  write_trace : bool;
  commit_allow_side_effects : bool;
  allow_network : bool;
  allow_remote_models : bool;
  allow_recursive_cells : bool;
  allow_side_effects : bool;
  exec_max_recursion_depth : Z;
  retry_max_attempts : Z;
  retry_backoff_base_ms : Z;
}.

Record anx_cell := Cell {
  cid : anx_uuid;
  cell_type : anx_cell_type;
  status : anx_cell_status;
  intent : anx_cell_intent;
  constraints : anx_cell_constraints;
  policy : anx_cell_policy;
  contract_consistency : Z;
  contract_effect_mode : Z;
  cognitive_max_tokens : Z;
  cognitive_max_reasoning_depth : Z;
  parent_cid : anx_uuid;
  identity_id : anx_uuid;
  effect_fence_id : anx_uuid;
  tool_namespace_id : anx_uuid;
  revision_lease_id : anx_uuid;
  child_cids : list anx_uuid;
  recursion_depth : Z;
  dep_cids : list anx_uuid;
  created_at : Z;
  completed_at : Z;
  error_code : Z;
  memory_admitted_bytes : Z;
  memory_admission_count : Z;
  runtime_active : bool;
  refcount : Z;
}.

#[export] Instance eta_constraints : Settable anx_cell_constraints := λ r,
  CellConstraints (max_latency_ms r) (max_memory_admission_bytes r)
    (max_cost_usd_cents r) (locality r) (max_recursion_depth r)
    (max_child_cells r) (topology_bk_set r) (topology_bk_lo r) (topology_bk_hi r).

#[export] Instance eta_cell : Settable anx_cell := λ r,
  Cell (cid r) (cell_type r) (status r) (intent r) (constraints r) (policy r)
    (contract_consistency r) (contract_effect_mode r) (cognitive_max_tokens r)
    (cognitive_max_reasoning_depth r) (parent_cid r) (identity_id r)
    (effect_fence_id r) (tool_namespace_id r) (revision_lease_id r) (child_cids r)
    (recursion_depth r) (dep_cids r) (created_at r) (completed_at r) (error_code r)
    (memory_admitted_bytes r) (memory_admission_count r) (runtime_active r) (refcount r).

#[export] Instance eta_policy : Settable anx_cell_policy := λ r,
  CellPolicy (strategy r) (decomposition r) (validation_mode r)
    (block_commit_on_failure r) (persist_outputs r) (promote_to_memory r)
    (write_trace r) (commit_allow_side_effects r) (allow_network r)
    (allow_remote_models r) (allow_recursive_cells r) (allow_side_effects r)
    (exec_max_recursion_depth r) (retry_max_attempts r) (retry_backoff_base_ms r).

Definition child_count (c : anx_cell) : Z := Z.of_nat (length (child_cids c)).
Definition dep_count (c : anx_cell) : Z := Z.of_nat (length (dep_cids c)).

Abbreviation cell_store := (gmap anx_uuid anx_cell).

(** ** Life cycle *)

Definition valid_transitions (old new_status : anx_cell_status) : bool :=
  match old, new_status with
  | ANX_CELL_CREATED, (ANX_CELL_ADMITTED | ANX_CELL_FAILED | ANX_CELL_CANCELLED)
  | ANX_CELL_ADMITTED, (ANX_CELL_PLANNING | ANX_CELL_CANCELLED)
  | ANX_CELL_PLANNING, (ANX_CELL_PLANNED | ANX_CELL_FAILED | ANX_CELL_CANCELLED)
  | ANX_CELL_PLANNED, (ANX_CELL_QUEUED | ANX_CELL_CANCELLED)
  | ANX_CELL_QUEUED, (ANX_CELL_RUNNING | ANX_CELL_CANCELLED)
  | ANX_CELL_RUNNING, (ANX_CELL_WAITING | ANX_CELL_VALIDATING | ANX_CELL_FAILED
                      | ANX_CELL_CANCELLED)
  | ANX_CELL_WAITING, (ANX_CELL_RUNNING | ANX_CELL_FAILED | ANX_CELL_CANCELLED)
  | ANX_CELL_VALIDATING, (ANX_CELL_COMMITTING | ANX_CELL_FAILED | ANX_CELL_CANCELLED)
  | ANX_CELL_COMMITTING, (ANX_CELL_COMPLETED | ANX_CELL_FAILED | ANX_CELL_COMPENSATING)
  | ANX_CELL_COMPENSATING, (ANX_CELL_COMPENSATED | ANX_CELL_FAILED) => true
  | _, _ => false
  end.

Definition anx_cell_transition (cell : anx_cell) (new_status : Z) : Z * anx_cell :=
  match status_of_int new_status with
  | None => (ANX_EINVAL, cell)
  | Some new_status =>
      when negb (valid_transitions (status cell) new_status) ret (ANX_EINVAL, cell) ;;
      (ANX_OK, cell <| status := new_status |>)
  end.

(** ** Reference-counted lookup, [cell_store.c] *)

Definition anx_cell_store_lookup (st : cell_store) (c : anx_uuid)
    : option anx_cell * cell_store :=
  match st !! c with
  | Some cell =>
      let cell := cell <| refcount ::= λ n, u32 (n + 1) |> in
      (Some cell, <[c := cell]> st)
  | None => (None, st)
  end.

Definition anx_cell_store_release (st : cell_store) (c : anx_uuid) : cell_store :=
  match st !! c with
  | Some cell =>
      if 0 <? refcount cell then <[c := cell <| refcount ::= λ n, n - 1 |>]> st
      else st
  | None => st
  end.

(** ** Dependency graph *)

Definition cid_eq (a b : anx_uuid) : bool := (hi a =? hi b) && (lo a =? lo b).

(** [sizeof(visit_stack) / sizeof(visit_stack[0])]. *)
Definition VISIT_STACK : Z := ANX_MAX_CELL_DEPS * 4.

(** The push loop: the top of [visit_stack] is the head of the list. *)
Fixpoint push_deps (visit_stack deps : list anx_uuid) : list anx_uuid :=
  match deps with
  | [] => visit_stack
  | d :: deps =>
      if Z.of_nat (length visit_stack) <? VISIT_STACK
      then push_deps (d :: visit_stack) deps
      else visit_stack
  end.

(** The [while (stack_len > 0)] loop. *)
Fixpoint cycle_walk (fuel : nat) (st : cell_store) (target : anx_uuid)
    (visit_stack : list anx_uuid) : outcome (bool * cell_store) :=
  match fuel with
  | O => OutOfFuel
  | S fuel =>
      match visit_stack with
      | [] => Ret (false, st)
      | cur :: visit_stack =>
          when cid_eq cur target ret Ret (true, st) ;;
          match anx_cell_store_lookup st cur with
          | (None, st) => cycle_walk fuel st target visit_stack
          | (Some node, st) =>
              let visit_stack := push_deps visit_stack (dep_cids node) in
              cycle_walk fuel (anx_cell_store_release st cur) target visit_stack
          end
      end
  end.

Definition dep_creates_cycle (fuel : nat) (st : cell_store)
    (cell prereq : anx_cell) : outcome (bool * cell_store) :=
  when cid_eq (cid prereq) (cid cell) ret Ret (true, st) ;;
  cycle_walk fuel st (cid cell) (push_deps [] (dep_cids prereq)).

Definition anx_cell_add_dependency (fuel : nat) (st : cell_store)
    (cellp prereq_cid : option anx_uuid) : outcome (Z * cell_store) :=
  match cellp, cellp ≫= (st !!.), prereq_cid with
  | Some p, Some cell, Some prereq_cid =>
      when cid_eq (cid cell) prereq_cid ret Ret (ANX_EINVAL, st) ;;
      when ANX_MAX_CELL_DEPS <=? dep_count cell ret Ret (ANX_ENOMEM, st) ;;
      when existsb (λ d, cid_eq d prereq_cid) (dep_cids cell)
        ret Ret (ANX_EINVAL, st) ;;
      match anx_cell_store_lookup st prereq_cid with
      | (None, st) => Ret (ANX_ENOENT, st)
      | (Some prereq, st) =>
          let! (cyclic, st) := dep_creates_cycle fuel st cell prereq in
          when cyclic ret Ret (ANX_EINVAL, anx_cell_store_release st prereq_cid) ;;
          let st := alter (λ c, c <| dep_cids ::= λ l, l ++ [prereq_cid] |>) p st in
          Ret (ANX_OK, anx_cell_store_release st prereq_cid)
      end
  | _, _, _ => Ret (ANX_EINVAL, st)
  end.

(** The readiness loop over [dep_cids]; [result] is the running answer. *)
Fixpoint deps_loop (st : cell_store) (deps : list anx_uuid) (result : Z)
    : Z * cell_store :=
  match deps with
  | [] => (result, st)
  | d :: deps =>
      match anx_cell_store_lookup st d with
      | (None, st) => (ANX_ENOENT, st)
      | (Some prereq, st) =>
          let stt := status prereq in
          let st := anx_cell_store_release st d in
          match stt with
          | ANX_CELL_FAILED | ANX_CELL_CANCELLED | ANX_CELL_COMPENSATED => (ANX_EPERM, st)
          | ANX_CELL_COMPLETED => deps_loop st deps result
          | _ => deps_loop st deps 0
          end
      end
  end.

Definition anx_cell_deps_satisfied (st : cell_store) (cellp : option anx_uuid)
    : Z * cell_store :=
  match cellp ≫= (st !!.) with
  | None => (ANX_EINVAL, st)
  | Some cell => deps_loop st (dep_cids cell) 1
  end.

(** ** Declarations on a cell; [None] is the [NULL] pointer *)

Definition anx_cell_set_topology (cellp : option anx_cell) (bk_lo bk_hi : Z)
    : Z * option anx_cell :=
  match cellp with
  | None => (ANX_EINVAL, None)
  | Some cell =>
      when bk_hi <? bk_lo ret (ANX_EINVAL, Some cell) ;;
      (ANX_OK, Some (cell <| constraints ::= λ k,
         k <| topology_bk_lo := bk_lo |> <| topology_bk_hi := bk_hi |>
           <| topology_bk_set := true |> |>))
  end.

Definition anx_cell_clear_topology (cellp : option anx_cell) : option anx_cell :=
  match cellp with
  | None => None
  | Some cell =>
      Some (cell <| constraints ::= λ k,
        k <| topology_bk_set := false |> <| topology_bk_lo := 0 |>
          <| topology_bk_hi := 0 |> |>)
  end.

Definition contract_valid (consistency effect : Z) : Z :=
  if (consistency <? ANX_CONSISTENCY_BEST_EFFORT)
     || (consistency >? ANX_CONSISTENCY_TOKEN_STABLE)
     || (effect <? ANX_EFFECT_DIRECT) || (effect >? ANX_EFFECT_STAGED)
  then ANX_EINVAL else ANX_OK.

Definition anx_cell_check_contract (cellp : option anx_cell) : Z :=
  match cellp with
  | None => ANX_EINVAL
  | Some cell =>
      let r := contract_valid (contract_consistency cell) (contract_effect_mode cell) in
      when negb (r =? ANX_OK) ret r ;;
      if (contract_consistency cell =? ANX_CONSISTENCY_BEST_EFFORT)
         && (contract_effect_mode cell =? ANX_EFFECT_DIRECT)
      then ANX_OK else ANX_ENOTSUP
  end.

(** [current] is [anx_cell_current_id()]. *)
Definition anx_cell_set_contract (current : option anx_uuid)
    (cellp : option anx_cell) (consistency effect_mode : Z) : Z * option anx_cell :=
  match cellp with
  | None => (ANX_EINVAL, None)
  | Some cell =>
      when bool_decide (is_Some current) ret (ANX_EPERM, Some cell) ;;
      when negb (bool_decide (status cell = ANX_CELL_CREATED)) ret (ANX_EBUSY, Some cell) ;;
      let r := contract_valid consistency effect_mode in
      when negb (r =? ANX_OK) ret (r, Some cell) ;;
      (ANX_OK, Some (cell <| contract_consistency := consistency |>
                          <| contract_effect_mode := effect_mode |>))
  end.

Definition anx_cell_set_cognitive_envelope (current : option anx_uuid)
    (cellp : option anx_cell) (max_tokens max_reasoning_depth : Z)
    : Z * option anx_cell :=
  match cellp with
  | None => (ANX_EINVAL, None)
  | Some cell =>
      when bool_decide (is_Some current) ret (ANX_EPERM, Some cell) ;;
      when negb (bool_decide (status cell = ANX_CELL_CREATED)) ret (ANX_EBUSY, Some cell) ;;
      (ANX_OK, Some (cell <| cognitive_max_tokens := max_tokens |>
                          <| cognitive_max_reasoning_depth := max_reasoning_depth |>))
  end.

(** ** Life-cycle theorems *)

Lemma cid_eq_spec a b : reflect (a = b) (cid_eq a b).
Proof.
  unfold cid_eq. destruct a as [ah al], b as [bh bl]; simpl.
  destruct (Z.eqb_spec ah bh), (Z.eqb_spec al bl); simpl; constructor; congruence.
Qed.

(** The statuses a cell has been in after each of a sequence of
    [anx_cell_transition] calls, oldest first. *)
Fixpoint visited (cell : anx_cell) (requests : list Z) : list anx_cell_status :=
  status cell ::
  match requests with
  | [] => []
  | r :: requests => visited (anx_cell_transition cell r).2 requests
  end.

Fixpoint run_requests (cell : anx_cell) (requests : list Z) : anx_cell :=
  match requests with
  | [] => cell
  | r :: requests => run_requests (anx_cell_transition cell r).2 requests
  end.

(** The statuses a created cell must have gone through to be in [s]. *)
Definition required (s : anx_cell_status) : list anx_cell_status :=
  match s with
  | ANX_CELL_CREATED | ANX_CELL_FAILED | ANX_CELL_CANCELLED => [ANX_CELL_CREATED]
  | ANX_CELL_ADMITTED => [ANX_CELL_CREATED]
  | ANX_CELL_PLANNING => [ANX_CELL_CREATED; ANX_CELL_ADMITTED]
  | ANX_CELL_PLANNED => [ANX_CELL_CREATED; ANX_CELL_ADMITTED; ANX_CELL_PLANNING]
  | ANX_CELL_QUEUED =>
      [ANX_CELL_CREATED; ANX_CELL_ADMITTED; ANX_CELL_PLANNING; ANX_CELL_PLANNED]
  | ANX_CELL_RUNNING | ANX_CELL_WAITING =>
      [ANX_CELL_CREATED; ANX_CELL_ADMITTED; ANX_CELL_PLANNING; ANX_CELL_PLANNED;
       ANX_CELL_QUEUED; ANX_CELL_RUNNING]
  | ANX_CELL_VALIDATING =>
      [ANX_CELL_CREATED; ANX_CELL_ADMITTED; ANX_CELL_PLANNING; ANX_CELL_PLANNED;
       ANX_CELL_QUEUED; ANX_CELL_RUNNING; ANX_CELL_VALIDATING]
  | ANX_CELL_COMMITTING | ANX_CELL_COMPLETED | ANX_CELL_COMPENSATING =>
      [ANX_CELL_CREATED; ANX_CELL_ADMITTED; ANX_CELL_PLANNING; ANX_CELL_PLANNED;
       ANX_CELL_QUEUED; ANX_CELL_RUNNING; ANX_CELL_VALIDATING; ANX_CELL_COMMITTING]
  | ANX_CELL_COMPENSATED =>
      [ANX_CELL_CREATED; ANX_CELL_ADMITTED; ANX_CELL_PLANNING; ANX_CELL_PLANNED;
       ANX_CELL_QUEUED; ANX_CELL_RUNNING; ANX_CELL_VALIDATING; ANX_CELL_COMMITTING;
       ANX_CELL_COMPENSATING]
  end.

Lemma transition_cases cell r :
  (∃ s, status_of_int r = Some s ∧ valid_transitions (status cell) s = true ∧
        anx_cell_transition cell r = (ANX_OK, cell <| status := s |>)) ∨
  anx_cell_transition cell r = (ANX_EINVAL, cell).
Proof.
  unfold anx_cell_transition. destruct (status_of_int r) as [s|]; [|by right].
  destruct (valid_transitions (status cell) s) eqn:E; [left; by exists s|by right].
Qed.

(** One accepted transition extends what the cell must have gone through by
    at most the status it leaves and the one it enters. *)
Lemma required_step old new :
  valid_transitions old new = true →
  ∀ s, s ∈ required new → s ∈ required old ∨ s = old ∨ s = new.
Proof.
  intros E s Hs. apply list_elem_of_In in Hs.
  destruct old, new; try discriminate E; simpl in Hs;
    decompose [or] Hs; subst;
    first [ by right; left | by right; right | left; simpl; set_solver | done ].
Qed.

Lemma visited_required cell requests (seen : list anx_cell_status) :
  (∀ s, s ∈ required (status cell) → s ∈ seen ∨ s = status cell) →
  ∀ s, s ∈ required (status (run_requests cell requests)) →
       s ∈ seen ++ visited cell requests.
Proof.
  revert cell seen. induction requests as [|r requests IH]; intros cell seen Hseen s Hs.
  { simpl in *. specialize (Hseen s Hs). set_solver. }
  simpl in Hs |- *.
  rewrite cons_middle, (assoc_L (++)).
  apply IH; [|done]. clear s Hs. intros s Hs.
  destruct (transition_cases cell r) as [(new & _ & Hv & Ht)|Ht];
    rewrite Ht in Hs |- *; simpl in Hs |- *.
  - apply (required_step _ _ Hv) in Hs as [Hs|[->| ->]]; [|set_solver|by right].
    left. destruct (Hseen s Hs); set_solver.
  - left. destruct (Hseen s Hs); set_solver.
Qed.

Lemma terminal_stuck s new :
  anx_cell_status_terminal s = true → valid_transitions s new = false.
Proof. by destruct s, new. Qed.

Lemma terminal_run cell requests :
  anx_cell_status_terminal (status cell) = true →
  run_requests cell requests = cell ∧
  Forall (λ r, (anx_cell_transition cell r).1 = ANX_EINVAL) requests.
Proof.
  intros Ht. induction requests as [|r requests [IH1 IH2]]; [done|].
  destruct (transition_cases cell r) as [(new & _ & Hv & _)|E].
  { by rewrite terminal_stuck in Hv. }
  simpl. rewrite E. simpl. split; [done|]. constructor; [by rewrite E|done].
Qed.

Lemma run_requests_app cell r1 r2 :
  run_requests cell (r1 ++ r2) = run_requests (run_requests cell r1) r2.
Proof. revert cell. induction r1; intros cell; simpl; auto. Qed.

(** For every sequence of [anx_cell_transition] calls (valid or not) on a
    newly created cell: the cell has been through every status its current
    one requires (so a [COMPLETED] cell has been admitted, planned, queued,
    run, validated and committed), and once it is in a terminal status every
    further call returns [ANX_EINVAL] and leaves the cell as it is. *)
Theorem cell_lifecycle cell r1 r2 :
  status cell = ANX_CELL_CREATED →
  let cell1 := run_requests cell r1 in
  (∀ s, s ∈ required (status cell1) → s ∈ visited cell r1) ∧
  (anx_cell_status_terminal (status cell1) = true →
   run_requests cell (r1 ++ r2) = cell1 ∧
   Forall (λ r, (anx_cell_transition cell1 r).1 = ANX_EINVAL) r2).
Proof.
  intros Hc cell1. split.
  - intros s Hs. apply (visited_required cell r1 []); [|done].
    rewrite Hc. simpl. intros t Ht. right. set_solver.
  - intros Ht. rewrite run_requests_app. by apply terminal_run.
Qed.

Definition zero_intent : anx_cell_intent := CellIntent [] [] 0.
Definition zero_constraints : anx_cell_constraints :=
  CellConstraints 0 0 0 ANX_LOCAL_ONLY 0 0 false 0 0.
Definition zero_policy : anx_cell_policy :=
  CellPolicy ANX_ROUTE_DIRECT ANX_DECOMP_NONE ANX_VALIDATE_NONE
    false false false false false false false false false 0 0 0.

(** A cell as [anx_zalloc] leaves it, with an id and one reference. *)
Definition zero_cell (c : anx_uuid) : anx_cell :=
  Cell c ANX_CELL_TASK_EXECUTION ANX_CELL_CREATED zero_intent zero_constraints
    zero_policy 0 0 0 0 ANX_UUID_NIL ANX_UUID_NIL ANX_UUID_NIL ANX_UUID_NIL
    ANX_UUID_NIL [] 0 [] 0 0 0 0 0 false 1.

Lemma cell_lifecycle_witness :
  status (run_requests (zero_cell (Uuid 0 1)) [1; 2; 5; 3; 4; 5; 7; 8; 9]) = ANX_CELL_COMPLETED ∧
  ANX_CELL_VALIDATING ∈ visited (zero_cell (Uuid 0 1)) [1; 2; 5; 3; 4; 5; 7; 8; 9] ∧
  run_requests (zero_cell (Uuid 0 1)) ([1; 2; 5; 3; 4; 5; 7; 8; 9] ++ [5; 0])
  = run_requests (zero_cell (Uuid 0 1)) [1; 2; 5; 3; 4; 5; 7; 8; 9].
Proof.
  destruct (cell_lifecycle (zero_cell (Uuid 0 1)) [1; 2; 5; 3; 4; 5; 7; 8; 9] [5; 0] eq_refl)
    as [H1 H2].
  split; [reflexivity|]. split.
  - apply H1. vm_compute. set_solver.
  - apply H2. reflexivity.
Defined.

(** ** The dependency graph *)

(** Every stored cell is keyed by its own id, has at most
    [ANX_MAX_CELL_DEPS] dependencies and leaves room for [k] more references. *)
Definition store_ok (k : Z) (st : cell_store) : Prop :=
  ∀ c n, st !! c = Some n →
    cid n = c ∧ dep_count n ≤ ANX_MAX_CELL_DEPS ∧ 0 ≤ refcount n ∧ refcount n + k ≤ MAX32.

Definition dep_edge (st : cell_store) (a b : anx_uuid) : Prop :=
  ∃ n, st !! a = Some n ∧ b ∈ dep_cids n.

Definition acyclic (st : cell_store) : Prop := ∀ c, ¬ tc (dep_edge st) c c.

(** Every dependency chain that starts at [c] has at most [k] edges. *)
Definition depth_le (st : cell_store) (k : nat) (c : anx_uuid) : Prop :=
  ∀ j b, nsteps (dep_edge st) j c b → (j ≤ k)%nat.

Definition max_deps (st : cell_store) (d : nat) : Prop :=
  ∀ c n, st !! c = Some n → (length (dep_cids n) ≤ d)%nat.

Lemma store_ok_le k1 k2 st : k1 ≤ k2 → store_ok k2 st → store_ok k1 st.
Proof. intros Hk H c n Hn. destruct (H c n Hn) as (?&?&?&?). split_and!; auto; lia. Qed.

Lemma lookup_Some st c n :
  store_ok 1 st → st !! c = Some n →
  anx_cell_store_lookup st c
  = (Some (n <| refcount ::= λ r, r + 1 |>), <[c := n <| refcount ::= λ r, r + 1 |>]> st).
Proof.
  intros Hok Hn. unfold anx_cell_store_lookup. rewrite Hn.
  destruct (Hok c n Hn) as (_&_&?&?). cbn.
  rewrite u32_small; [done|]. unfold is_u32, MAX32 in *. lia.
Qed.

Lemma lookup_None st c : st !! c = None → anx_cell_store_lookup st c = (None, st).
Proof. unfold anx_cell_store_lookup. by intros ->. Qed.

(** Releasing what was looked up restores the cell, whatever happened to its
    other fields in between. *)
Lemma release_insert st c n :
  0 ≤ refcount n →
  anx_cell_store_release (<[c := n <| refcount ::= λ r, r + 1 |>]> st) c = <[c := n]> st.
Proof.
  intros Hr. unfold anx_cell_store_release. rewrite lookup_insert_eq. cbn.
  destruct (Z.ltb_spec 0 (refcount n + 1)); [|lia].
  rewrite insert_insert_eq. f_equal. destruct n; cbn. f_equal. lia.
Qed.

Lemma release_lookup st c n :
  store_ok 1 st → st !! c = Some n →
  anx_cell_store_release (<[c := n <| refcount ::= λ r, r + 1 |>]> st) c = st.
Proof.
  intros Hok Hn. rewrite release_insert; [|apply (Hok c n Hn)].
  by apply insert_id.
Qed.

Lemma store_ok_lookup k st c n :
  store_ok (k + 1) st → st !! c = Some n →
  store_ok k (<[c := n <| refcount ::= λ r, r + 1 |>]> st).
Proof.
  intros Hok Hn c' n' Hn'. destruct (decide (c' = c)) as [->|Hne].
  - rewrite lookup_insert_eq in Hn'. simplify_eq. cbn.
    destruct (Hok c n Hn) as (?&?&?&?). split_and!; auto; lia.
  - rewrite lookup_insert_ne in Hn' by done.
    destruct (Hok c' n' Hn') as (?&?&?&?). split_and!; auto; lia.
Qed.

(** Edges depend on the dependency lists only. *)
Lemma dep_edge_insert st c n n' a b :
  st !! c = Some n → dep_cids n' = dep_cids n →
  dep_edge (<[c := n']> st) a b ↔ dep_edge st a b.
Proof.
  intros Hn Hd. unfold dep_edge. destruct (decide (a = c)) as [->|Hne].
  - rewrite lookup_insert_eq, Hn. naive_solver congruence.
  - by rewrite lookup_insert_ne.
Qed.

Lemma depth_le_step st k a b :
  depth_le st k a → dep_edge st a b → ∃ k', k = S k' ∧ depth_le st k' b.
Proof.
  intros Hd Hab. destruct k as [|k'].
  - specialize (Hd 1%nat b (nsteps_once _ _ Hab)). lia.
  - exists k'. split; [done|]. intros j c Hj.
    specialize (Hd (S j) c (nsteps_l _ _ _ _ _ Hab Hj)). lia.
Qed.

(** [fits st d w stk]: the walk from [stk] never fills the visit stack ([d]
    bounds the dependencies per cell), and takes at most [w] iterations. *)
Inductive fits (st : cell_store) (d : nat) : nat → list anx_uuid → Prop :=
  | fits_nil : fits st d 0 []
  | fits_cons x l k w :
      depth_le st k x →
      Z.of_nat (S (length l) + (d - 1) * k) ≤ VISIT_STACK →
      fits st d w l →
      fits st d ((d + 1) ^ k + w) (x :: l).

Lemma push_deps_fits st d k w l xs :
  fits st d w l →
  (∀ x, x ∈ xs → depth_le st k x) →
  Z.of_nat (length l + length xs + (d - 1) * k) ≤ VISIT_STACK →
  push_deps l xs = reverse xs ++ l ∧ fits st d (length xs * (d + 1) ^ k + w) (reverse xs ++ l).
Proof.
  revert w l. induction xs as [|x xs IH]; intros w l Hl Hx Hlen; [done|].
  cbn [push_deps length] in *. set (q := ((d - 1) * k)%nat) in *.
  destruct (Z.ltb_spec (Z.of_nat (length l)) VISIT_STACK); [|lia].
  rewrite reverse_cons, <- (assoc_L (++)).
  destruct (IH ((d + 1) ^ k + w)%nat (x :: l)) as [E1 E2].
  - constructor; [apply Hx; left|lia|done].
  - intros y Hy. apply Hx. by right.
  - simpl. lia.
  - split; [done|].
    replace (S (length xs) * (d + 1) ^ k + w)%nat
      with (length xs * (d + 1) ^ k + ((d + 1) ^ k + w))%nat by lia.
    done.
Qed.

(** One popped node replaced by its dependencies. *)
Lemma expand_fits st d k w l n x :
  max_deps st d → st !! x = Some n → depth_le st k x →
  Z.of_nat (S (length l) + (d - 1) * k) ≤ VISIT_STACK →
  fits st d w l →
  push_deps l (dep_cids n) = reverse (dep_cids n) ++ l ∧
  ∃ w', (w' < (d + 1) ^ k + w)%nat ∧ fits st d w' (reverse (dep_cids n) ++ l).
Proof.
  intros Hmax Hn Hk Hlen Hl. pose proof (Hmax x n Hn) as Hd.
  destruct (dep_cids n) as [|y ys] eqn:Edeps.
  { simpl. split; [done|]. exists w. split; [|done].
    pose proof (Nat.pow_nonzero (d + 1) k). lia. }
  assert (∃ k', k = S k') as [k' ->].
  { destruct (depth_le_step st k x y Hk) as (k' & -> & _); [|by exists k'].
    exists n. rewrite Edeps. split; [done|left]. }
  destruct (push_deps_fits st d k' w l (y :: ys)) as [E1 E2]; [done| | |].
  - intros z Hz. destruct (depth_le_step st (S k') x z Hk) as (k'' & [= <-] & Hz'); [|done].
    exists n. by rewrite Edeps.
  - nia.
  - split; [done|]. eexists; split; [|done].
    assert ((d + 1) ^ S k' = (d + 1) * (d + 1) ^ k')%nat as -> by reflexivity.
    pose proof (Nat.pow_nonzero (d + 1) k').
    assert (length (y :: ys) * (d + 1) ^ k' ≤ d * (d + 1) ^ k')%nat
      by (by apply Nat.mul_le_mono_r).
    lia.
Qed.

(** Within those bounds the walk terminates, answers reachability exactly and
    gives back every reference it takes. *)
Lemma cycle_walk_exact st d t fuel w stk :
  store_ok 1 st → max_deps st d → fits st d w stk → (w < fuel)%nat →
  ∃ b, cycle_walk fuel st t stk = Ret (b, st) ∧
       (b = true ↔ ∃ x, x ∈ stk ∧ rtc (dep_edge st) x t).
Proof.
  intros Hok Hmax. revert w stk. induction fuel as [|fuel IH]; intros w stk Hfit Hw; [lia|].
  destruct Hfit as [|x l k w Hk Hlen Hl]; cbn [cycle_walk].
  { exists false. split; [done|]. set_solver. }
  destruct (cid_eq_spec x t) as [->|Hne].
  { exists true. split; [done|]. split; [|done]. intros _. exists t. split; [left|done]. }
  destruct (st !! x) as [n|] eqn:Hn.
  - rewrite (lookup_Some st x n Hok Hn), (release_lookup st x n Hok Hn). cbn.
    destruct (expand_fits st d k w l n x Hmax Hn Hk Hlen Hl) as (-> & w' & Hw' & Hf).
    destruct (IH w' _ Hf) as (b & Hb & Hiff); [lia|].
    exists b. split; [done|]. rewrite Hiff. split.
    + intros (y & Hy & Hr). apply elem_of_app in Hy as [Hy|Hy].
      * exists x. split; [left|]. eapply rtc_l; [|done].
        exists n. split; [done|]. by apply elem_of_reverse.
      * exists y. split; [by right|done].
    + intros (y & Hy & Hr). apply elem_of_cons in Hy as [->|Hy].
      * apply rtc_inv in Hr as [->|(z & (n' & Hn' & Hz) & Hr)]; [done|].
        simplify_eq. exists z. split; [|done]. apply elem_of_app. left. by apply elem_of_reverse.
      * exists y. split; [|done]. apply elem_of_app. by right.
  - rewrite (lookup_None _ _ Hn).
    pose proof (Nat.pow_nonzero (d + 1) k).
    destruct (IH w l Hl) as (b & Hb & Hiff); [lia|].
    exists b. split; [done|]. rewrite Hiff. split.
    + intros (y & Hy & Hr). exists y. split; [by right|done].
    + intros (y & Hy & Hr). apply elem_of_cons in Hy as [->|Hy]; [|by exists y].
      apply rtc_inv in Hr as [->|(z & (n' & Hn' & _) & _)]; [done|congruence].
Qed.

Definition add_dep (q : anx_uuid) (c : anx_cell) : anx_cell :=
  c <| dep_cids ::= λ l, l ++ [q] |>.

Lemma dep_edge_add st p q a b :
  dep_edge (alter (add_dep q) p st) a b → dep_edge st a b ∨ (a = p ∧ b = q).
Proof.
  intros (n & Hn & Hb). destruct (decide (a = p)) as [->|Hne].
  - rewrite lookup_alter_eq in Hn. apply fmap_Some in Hn as (n0 & Hn0 & ->).
    cbn in Hb. apply elem_of_app in Hb as [Hb|Hb]; [left; by exists n0|right; set_solver].
  - rewrite lookup_alter_ne in Hn by done. left. by exists n.
Qed.

Lemma acyclic_add st p q :
  p ≠ q → acyclic st → ¬ rtc (dep_edge st) q p → acyclic (alter (add_dep q) p st).
Proof.
  intros Hpq Hac Hnr c Hc.
  destruct (tc_add_edge _ _ p q (λ a b, dep_edge_add st p q a b) c c Hc) as [H|[H1 H2]].
  - by apply (Hac c).
  - apply Hnr. by etransitivity.
Qed.

Lemma add_release st p q n :
  store_ok 1 st → p ≠ q → st !! q = Some n →
  anx_cell_store_release (alter (add_dep q) p
     (<[q := n <| refcount ::= λ r, r + 1 |>]> st)) q
  = alter (add_dep q) p st.
Proof.
  intros Hok Hpq Hn. rewrite alter_insert_ne by done.
  rewrite release_insert by apply (Hok q n Hn).
  apply insert_id. by rewrite lookup_alter_ne.
Qed.

(** A cell as [anx_cell_store_lookup] leaves it. *)
Definition held (c : anx_cell) : anx_cell := c <| refcount ::= λ r, r + 1 |>.

Lemma held_edges st q n a b :
  st !! q = Some n → dep_edge (<[q := held n]> st) a b ↔ dep_edge st a b.
Proof. intros. by apply (dep_edge_insert st q n). Qed.

Lemma held_rtc st q n a b :
  st !! q = Some n → rtc (dep_edge (<[q := held n]> st)) a b ↔ rtc (dep_edge st) a b.
Proof. intros Hq. split; apply rtc_subrel; intros x y; rewrite held_edges by done; auto. Qed.

Lemma held_max_deps st q n d :
  st !! q = Some n → max_deps st d → max_deps (<[q := held n]> st) d.
Proof.
  intros Hq Hmax c n' Hn. destruct (decide (c = q)) as [->|].
  - rewrite lookup_insert_eq in Hn. simplify_eq. by apply (Hmax q n).
  - rewrite lookup_insert_ne in Hn by done. by apply (Hmax c).
Qed.

Lemma held_depth st q n k c :
  st !! q = Some n → depth_le st k c → depth_le (<[q := held n]> st) k c.
Proof.
  intros Hq Hk j b Hj. apply (Hk j b).
  eapply (nsteps_congruence id); [|done]. intros x y; rewrite held_edges by done; auto.
Qed.

(** One more reference on [c]. *)
Definition bump (c : anx_uuid) (st : cell_store) : cell_store := alter held c st.

Lemma lookup_bump st c n :
  store_ok 1 st → st !! c = Some n → anx_cell_store_lookup st c = (Some (held n), bump c st).
Proof.
  intros Hok Hn. rewrite (lookup_Some st c n Hok Hn). unfold bump. f_equal.
  apply map_eq. intros i. destruct (decide (i = c)) as [->|].
  - by rewrite lookup_insert_eq, lookup_alter_eq, Hn.
  - by rewrite lookup_insert_ne, lookup_alter_ne.
Qed.

Lemma release_bump st c n :
  st !! c = Some n → 0 ≤ refcount n → anx_cell_store_release (bump c st) c = st.
Proof.
  intros Hn Hr. unfold anx_cell_store_release, bump. rewrite lookup_alter_eq, Hn. cbn.
  destruct (Z.ltb_spec 0 (refcount n + 1)); [|lia].
  apply map_eq. intros i. destruct (decide (i = c)) as [->|].
  - rewrite lookup_insert_eq, Hn. f_equal. destruct n; cbn. f_equal. lia.
  - by rewrite lookup_insert_ne, lookup_alter_ne.
Qed.

Lemma store_ok_bump k st c : store_ok (k + 1) st → 0 ≤ k → store_ok k (bump c st).
Proof.
  intros Hok Hk c' n' Hn'. unfold bump in Hn'. destruct (decide (c' = c)) as [->|].
  - rewrite lookup_alter_eq in Hn'. apply fmap_Some in Hn' as (n & Hn & ->).
    destruct (Hok c n Hn) as (?&?&?&?). split_and!; auto; cbn; lia.
  - rewrite lookup_alter_ne in Hn' by done.
    destruct (Hok c' n' Hn') as (?&?&?&?). split_and!; auto; lia.
Qed.

Lemma bump_comm st c c' : bump c (bump c' st) = bump c' (bump c st).
Proof.
  apply map_eq. intros i. unfold bump.
  destruct (decide (c = i)), (decide (c' = i)); subst;
    repeat first [rewrite lookup_alter_eq | rewrite lookup_alter_ne by congruence]; done.
Qed.

Lemma bump_lookup_ne st c c' : c ≠ c' → bump c st !! c' = st !! c'.
Proof. apply lookup_alter_ne. Qed.

Lemma bump_lookup_eq st c n : st !! c = Some n → bump c st !! c = Some (held n).
Proof. intros Hn. unfold bump. by rewrite lookup_alter_eq, Hn. Qed.

(** With the depth and width of the graph below [q] within the visit stack,
    the cycle check decides whether [q] reaches [p]. *)
Lemma dep_creates_cycle_spec fuel st d k p q cell prereq :
  store_ok 2 st → max_deps st d → st !! p = Some cell → st !! q = Some prereq →
  p ≠ q → depth_le st k q → Z.of_nat (1 + (d - 1) * k) ≤ VISIT_STACK →
  ((d + 1) ^ k < fuel)%nat →
  ∃ b, dep_creates_cycle fuel (<[q := held prereq]> st) cell (held prereq)
       = Ret (b, <[q := held prereq]> st) ∧
       (b = true ↔ rtc (dep_edge st) q p).
Proof.
  intros Hok Hmax Hp Hq Hpq Hk Hlen Hfuel.
  assert (cid cell = p) as Hcid by apply (Hok p cell Hp).
  assert (cid prereq = q) as Hqid by apply (Hok q prereq Hq).
  set (st1 := <[q := held prereq]> st).
  assert (store_ok 1 st1) as Hok' by (by apply (store_ok_lookup 1)).
  assert (max_deps st1 d) as Hmax1 by (by apply held_max_deps).
  assert (depth_le st1 k q) as Hk1 by (by apply held_depth).
  unfold dep_creates_cycle. change (cid (held prereq)) with (cid prereq).
  rewrite Hqid, Hcid.
  destruct (cid_eq_spec q p) as [?|_]; [congruence|].
  destruct (expand_fits st1 d k 0 [] (held prereq) q Hmax1)
    as (Hpush & w & Hw & Hfit); [by apply lookup_insert_eq|done|simpl; lia|constructor|].
  rewrite Hpush.
  destruct (cycle_walk_exact st1 d p fuel w _ Hok' Hmax1 Hfit) as (b & -> & Hb); [lia|].
  exists b. split; [done|].
  rewrite Hb, app_nil_r. cbn. rewrite <- (held_rtc st q prereq) by done. split.
  - intros (x & Hx & Hr). eapply rtc_l; [|done]. apply held_edges; [done|].
    exists prereq. split; [done|by apply elem_of_reverse].
  - intros Hr. apply rtc_inv in Hr as [->|(z & Hz & Hr)]; [done|].
    apply held_edges in Hz as (n & Hn & Hz); [|done]. simplify_eq.
    exists z. split; [by apply elem_of_reverse|done].
Qed.

(** The whole of [anx_cell_add_dependency], within the same bounds. *)
Lemma add_dependency_spec fuel st d k p q cell prereq :
  store_ok 2 st → max_deps st d → st !! p = Some cell → st !! q = Some prereq →
  depth_le st k q → Z.of_nat (1 + (d - 1) * k) ≤ VISIT_STACK →
  ((d + 1) ^ k < fuel)%nat →
  ∃ r st', anx_cell_add_dependency fuel st (Some p) (Some q) = Ret (r, st') ∧
    (r = ANX_OK ↔ p ≠ q ∧ dep_count cell < ANX_MAX_CELL_DEPS ∧ (q ∉ dep_cids cell) ∧
                  ¬ (rtc (dep_edge st) q p)) ∧
    st' = (if r =? ANX_OK then alter (add_dep q) p st else st).
Proof.
  intros Hok Hmax Hp Hq Hk Hlen Hfuel.
  assert (store_ok 1 st) as Hok1 by (eapply store_ok_le; [|done]; lia).
  unfold anx_cell_add_dependency. cbn [mbind option_bind]. rewrite Hp.
  destruct (Hok p cell Hp) as [-> _].
  destruct (cid_eq_spec p q) as [->|Hpq].
  { exists ANX_EINVAL, st. split_and!; [done|naive_solver|done]. }
  destruct (Z.leb_spec ANX_MAX_CELL_DEPS (dep_count cell)).
  { exists ANX_ENOMEM, st. split_and!; [done|split; [done|intros (_&?&_)]; lia|done]. }
  destruct (existsb _ _) eqn:Edup.
  { apply existsb_exists in Edup as (x & Hx & Hxq). apply list_elem_of_In in Hx.
    destruct (cid_eq_spec x q) as [->|]; [|done].
    exists ANX_EINVAL, st. split_and!; [done|naive_solver|done]. }
  assert (q ∉ dep_cids cell) as Hnin.
  { intros Hin. apply not_true_iff_false in Edup. apply Edup, existsb_exists.
    exists q. split; [by apply list_elem_of_In|by destruct (cid_eq_spec q q)]. }
  rewrite (lookup_Some st q prereq Hok1 Hq). fold (held prereq).
  destruct (dep_creates_cycle_spec fuel st d k p q cell prereq)
    as (b & -> & Hb); [done..|]. cbn. destruct b.
  - exists ANX_EINVAL, st. split_and!; [|naive_solver|done].
    by rewrite release_lookup.
  - exists ANX_OK, (alter (add_dep q) p st). split_and!; [|naive_solver|done].
    do 2 f_equal. by apply add_release.
Qed.

(** C7: In an acyclic store in which no cell has more than [d] dependencies
    and the chains below the prerequisite have at most [k] edges, with
    [1 + (d - 1) * k] within the 64-entry visit stack,
    [anx_cell_add_dependency] terminates; it succeeds exactly when the edge is
    new, is not a self edge, fits in the 16 slots and closes no cycle; on
    success the edge is added and the graph is still acyclic, otherwise the
    store is unchanged.  Either way every reference taken by the walk has been
    given back. *)
Theorem add_dependency_acyclic fuel st d k p q cell prereq :
  store_ok 2 st → max_deps st d → st !! p = Some cell → st !! q = Some prereq →
  depth_le st k q → Z.of_nat (1 + (d - 1) * k) ≤ VISIT_STACK →
  ((d + 1) ^ k < fuel)%nat → acyclic st →
  ∃ r st', anx_cell_add_dependency fuel st (Some p) (Some q) = Ret (r, st') ∧
    (r = ANX_OK ↔ p ≠ q ∧ dep_count cell < ANX_MAX_CELL_DEPS ∧ (q ∉ dep_cids cell) ∧
                  ¬ (rtc (dep_edge st) q p)) ∧
    st' = (if r =? ANX_OK then alter (add_dep q) p st else st) ∧
    acyclic st'.
Proof.
  intros Hok Hmax Hp Hq Hk Hlen Hfuel Hac.
  destruct (add_dependency_spec fuel st d k p q cell prereq) as (r & st' & E & Hr & ->); [done..|].
  exists r, (if r =? ANX_OK then alter (add_dep q) p st else st).
  split_and!; [done|done|done|].
  destruct (Z.eqb_spec r ANX_OK) as [Er|]; [|done].
  apply Hr in Er as (Hpq & _ & _ & Hn). by apply acyclic_add.
Qed.

(** A store of the cells numbered [ids], without dependencies. *)
Definition fresh_store (ids : list Z) : cell_store :=
  list_to_map ((λ z, (Uuid 0 z, zero_cell (Uuid 0 z))) <$> ids).

Fixpoint add_all (fuel : nat) (st : cell_store) (edges : list (Z * Z))
    : outcome (list Z * cell_store) :=
  match edges with
  | [] => Ret ([], st)
  | (a, b) :: edges =>
      let! (r, st) := anx_cell_add_dependency fuel st (Some (Uuid 0 a)) (Some (Uuid 0 b)) in
      let! (rs, st) := add_all fuel st edges in
      Ret (r :: rs, st)
  end.

Definition edge_b (st : cell_store) (a b : Z) : bool :=
  match st !! Uuid 0 a with
  | Some n => existsb (uuid_eqb (Uuid 0 b)) (dep_cids n)
  | None => false
  end.

Lemma edge_b_true st a b : edge_b st a b = true → dep_edge st (Uuid 0 a) (Uuid 0 b).
Proof.
  unfold edge_b. destruct (st !! Uuid 0 a) as [n|] eqn:E; [|done].
  intros (x & Hx & He)%existsb_exists. apply uuid_eqb_true in He as <-.
  exists n. split; [done|by apply list_elem_of_In].
Qed.

Lemma dep_edge_empty st : (∀ c n, st !! c = Some n → dep_cids n = []) →
  ∀ a b, ¬ dep_edge st a b.
Proof. intros H a b (n & Hn & Hb). rewrite (H a n Hn) in Hb. by apply not_elem_of_nil in Hb. Qed.

Lemma fresh_store_lookup ids c n :
  fresh_store ids !! c = Some n → n = zero_cell c.
Proof.
  unfold fresh_store. intros H%elem_of_list_to_map_2.
  apply list_elem_of_fmap in H as (z & [= -> ->] & _). done.
Qed.

Lemma fresh_store_facts ids :
  store_ok 2 (fresh_store ids) ∧ max_deps (fresh_store ids) 1 ∧
  (∀ a b, ¬ dep_edge (fresh_store ids) a b) ∧ acyclic (fresh_store ids).
Proof.
  assert (∀ a b, ¬ dep_edge (fresh_store ids) a b) as He.
  { apply dep_edge_empty. by intros c n ->%fresh_store_lookup. }
  split_and!; [| |done|].
  - intros c n ->%fresh_store_lookup. unfold MAX32, dep_count, ANX_MAX_CELL_DEPS. cbn. split; [done|lia].
  - intros c n ->%fresh_store_lookup. cbn. lia.
  - intros c Hc. inversion Hc; by eapply He.
Qed.

Lemma add_dependency_acyclic_witness :
  ∃ r st', anx_cell_add_dependency 3 (fresh_store [1; 2]) (Some (Uuid 0 1)) (Some (Uuid 0 2))
           = Ret (r, st') ∧ r = ANX_OK ∧ acyclic st'.
Proof.
  destruct (fresh_store_facts [1; 2]) as (Hok & Hmax & He & Hac).
  destruct (add_dependency_acyclic 3 (fresh_store [1; 2]) 1 0 (Uuid 0 1) (Uuid 0 2)
              (zero_cell (Uuid 0 1)) (zero_cell (Uuid 0 2)))
    as (r & st' & E & Hr & _ & Hst); try done.
  - intros j b Hj. destruct Hj as [|j x y z H]; [lia|]. by apply He in H.
  - simpl; lia.
  - exists r, st'. split; [done|]. split; [|done]. apply Hr. split_and!; [done|done| |].
    + by apply not_elem_of_nil.
    + intros [Heq|(z & Hz & _)]%rtc_inv; [done|]. by apply He in Hz.
Defined.

(** The chain [2 → 3 → 4 → 5 → 6 → 1]; each of its cells but the last first
    depends on the fifteen leaf cells [101 .. 115]. *)
Definition wide_chain : list (Z * Z) :=
  concat ((λ a, ((λ i, (a, 100 + i)) <$> seqZ 1 15) ++ [(a, if a =? 6 then 1 else a + 1)])
          <$> [6; 5; 4; 3; 2]).

Definition wide_chain_check : bool :=
  match add_all 200 (fresh_store (seqZ 1 6 ++ seqZ 101 15)) (wide_chain ++ [(1, 2)]) with
  | Ret (rs, st') =>
      forallb (Z.eqb ANX_OK) rs && (length rs =? 81)%nat &&
      forallb (λ a, edge_b st' a (if a =? 6 then 1 else a + 1)) (seqZ 1 6)
  | _ => false
  end.

Lemma wide_chain_run : wide_chain_check = true.
Proof. vm_compute. reflexivity. Qed.

(** The bound on the width of the graph is needed: from a store of cells
    without dependencies, 81 successful calls of [anx_cell_add_dependency]
    build a dependency cycle.  The last call walks five cells of sixteen
    dependencies each, the visit stack is full at the fifth, and the edge that
    leads back is never pushed. *)
Theorem cycle_check_truncated :
  ∃ rs st', add_all 200 (fresh_store (seqZ 1 6 ++ seqZ 101 15)) (wide_chain ++ [(1, 2)])
            = Ret (rs, st') ∧
    Forall (λ r, r = ANX_OK) rs ∧ length rs = 81%nat ∧
    tc (dep_edge st') (Uuid 0 1) (Uuid 0 1).
Proof.
  pose proof wide_chain_run as H. unfold wide_chain_check in H.
  destruct (add_all _ _ _) as [[rs st']| |]; [|discriminate..].
  apply andb_true_iff in H as [H Hedges]. apply andb_true_iff in H as [Hrs Hlen].
  exists rs, st'. split; [done|]. split_and!; [|by apply Nat.eqb_eq|].
  - apply Forall_forall. intros r Hr%list_elem_of_In. rewrite forallb_forall in Hrs.
    by apply Z.eqb_eq, Hrs.
  - rewrite forallb_forall in Hedges.
    assert (∀ a, 1 ≤ a < 7 →
      dep_edge st' (Uuid 0 a) (Uuid 0 (if a =? 6 then 1 else a + 1))) as H.
    { intros a Ha. apply edge_b_true, Hedges, list_elem_of_In, elem_of_seqZ. lia. }
    eapply tc_l; [by apply (H 1)|]. eapply tc_l; [by apply (H 2)|].
    eapply tc_l; [by apply (H 3)|]. eapply tc_l; [by apply (H 4)|].
    eapply tc_l; [by apply (H 5)|]. by apply tc_once, (H 6).
Qed.

(** ** Readiness *)

Definition dep_done (st : cell_store) (d : anx_uuid) : Prop :=
  ∃ n, st !! d = Some n ∧ status n = ANX_CELL_COMPLETED.

(** A dependency that can never complete: destroyed, or terminal in another
    status than [COMPLETED]. *)
Definition dep_dead (st : cell_store) (d : anx_uuid) : Prop :=
  ∀ n, st !! d = Some n →
    anx_cell_status_terminal (status n) = true ∧ status n ≠ ANX_CELL_COMPLETED.

Definition ready_code (st : cell_store) (deps : list anx_uuid) (result r : Z) : Prop :=
  (r = 1 ↔ result = 1 ∧ ∀ d, d ∈ deps → dep_done st d) ∧
  (r < 0 ↔ ∃ d, d ∈ deps ∧ dep_dead st d) ∧ r ≤ 1.

(** A dependency that is not dead passes the answer on, or makes it 0. *)
Lemma ready_code_live st d deps n result r0 r :
  st !! d = Some n →
  (status n = ANX_CELL_COMPLETED ∧ r0 = result ∨
   anx_cell_status_terminal (status n) = false ∧ r0 = 0) →
  ready_code st deps r0 r → ready_code st (d :: deps) result r.
Proof.
  intros Hn Hcase (H1 & H2 & H3). split_and!; [rewrite H1|rewrite H2|done].
  - split.
    + intros [Hr1 Hall]. destruct Hcase as [[Hs ->]|[Hs ->]]; [|lia]. split; [done|].
      intros d' [->|Hd']%elem_of_cons; [by exists n|by apply Hall].
    + intros [Hres Hall]. destruct Hcase as [[Hs ->]|[Hs ->]].
      * split; [done|]. intros d' Hd'. apply Hall. by right.
      * destruct (Hall d) as (n' & Hn' & Hs'); [left|]. simplify_eq. by rewrite Hs' in Hs.
  - split.
    + intros (d' & Hd' & Hdead). exists d'. split; [by right|done].
    + intros (d' & Hd' & Hdead). apply elem_of_cons in Hd' as [->|Hd']; [|by exists d'].
      exfalso. destruct (Hdead n Hn) as [Ht Hc]. destruct Hcase as [[Hs _]|[Hs _]]; congruence.
Qed.

Lemma ready_code_dead st d deps result r :
  dep_dead st d → r < 0 → ready_code st (d :: deps) result r.
Proof.
  intros Hd Hr. split_and!; [split; [lia|]|split; [intros _|done]|lia].
  - intros [_ H]. destruct (H d) as (n & Hn & Hs); [left|]. by destruct (Hd n Hn).
  - exists d. split; [left|done].
Qed.

Lemma deps_loop_spec st deps result :
  store_ok 1 st → 0 ≤ result ≤ 1 →
  ∃ r, deps_loop st deps result = (r, st) ∧ ready_code st deps result r.
Proof.
  intros Hok. revert result. induction deps as [|d deps IH]; intros result Hr; simpl.
  { exists result. split; [done|]. split_and!; [set_solver| |lia]. split; [lia|set_solver]. }
  destruct (st !! d) as [n|] eqn:Hn.
  2:{ rewrite lookup_None by done. exists ANX_ENOENT. split; [done|].
      apply ready_code_dead; [|done]. intros n Hn'. congruence. }
  rewrite (lookup_Some st d n) by done. rewrite release_lookup by done. cbn.
  assert (dep_dead st d → ready_code st (d :: deps) result ANX_EPERM) as Hdead
    by (intros; by apply ready_code_dead).
  unfold dep_dead in Hdead. destruct (status n) eqn:Es;
    lazymatch goal with
    | |- context [(ANX_EPERM, st)] =>
        exists ANX_EPERM; split; [done|]; apply Hdead; intros n' Hn'; simplify_eq; by rewrite Es
    | |- context [deps_loop st deps ?r0] =>
        destruct (IH r0) as (r & E & Hc); [lia|]; exists r; split; [done|];
        eapply ready_code_live; [done| |done]; rewrite Es; auto
    end.
Qed.

(** [anx_cell_deps_satisfied] answers 1 exactly when every dependency is in
    the store and [COMPLETED], a negative code exactly when some dependency can
    never complete (destroyed, failed, cancelled or compensated), 0 otherwise;
    and it returns with every reference count as it was. *)
Theorem deps_satisfied_exact st p cell :
  store_ok 1 st → st !! p = Some cell →
  ∃ r, anx_cell_deps_satisfied st (Some p) = (r, st) ∧ r ≤ 1 ∧
    (r = 1 ↔ ∀ d, d ∈ dep_cids cell → dep_done st d) ∧
    (r < 0 ↔ ∃ d, d ∈ dep_cids cell ∧ dep_dead st d).
Proof.
  intros Hok Hp. unfold anx_cell_deps_satisfied. cbn [mbind option_bind]. rewrite Hp.
  destruct (deps_loop_spec st (dep_cids cell) 1) as (r & -> & H1 & H2 & H3); [done|lia|].
  exists r. split_and!; [done|done| |done]. rewrite H1. naive_solver.
Qed.

Lemma deps_satisfied_exact_witness :
  ∃ r, anx_cell_deps_satisfied (<[Uuid 0 1 := zero_cell (Uuid 0 1) <| dep_cids := [Uuid 0 2] |>]> ∅)
         (Some (Uuid 0 1)) =
       (r, <[Uuid 0 1 := zero_cell (Uuid 0 1) <| dep_cids := [Uuid 0 2] |>]> ∅) ∧ r < 0.
Proof.
  destruct (deps_satisfied_exact
    (<[Uuid 0 1 := zero_cell (Uuid 0 1) <| dep_cids := [Uuid 0 2] |>]> ∅) (Uuid 0 1)
    (zero_cell (Uuid 0 1) <| dep_cids := [Uuid 0 2] |>)) as (r & E & _ & _ & Hr).
  - intros c n H. apply lookup_insert_Some in H as [[<- <-]|[_ H]]; [|done].
    unfold MAX32, dep_count, ANX_MAX_CELL_DEPS. cbn. split; [done|lia].
  - reflexivity.
  - exists r. split; [exact E|]. apply Hr. exists (Uuid 0 2).
    split; [left|]. intros n H. discriminate H.
Defined.

(** ** The contract is fixed at admission *)

Inductive cell_op :=
  | OpTransition (new_status : Z)
  | OpContract (current : option anx_uuid) (consistency effect : Z)
  | OpEnvelope (current : option anx_uuid) (max_tokens max_depth : Z)
  | OpTopology (bk_lo bk_hi : Z)
  | OpClearTopology.

Definition apply_op (cell : anx_cell) (op : cell_op) : anx_cell :=
  default cell match op with
  | OpTransition s => Some (anx_cell_transition cell s).2
  | OpContract cur k e => (anx_cell_set_contract cur (Some cell) k e).2
  | OpEnvelope cur t m => (anx_cell_set_cognitive_envelope cur (Some cell) t m).2
  | OpTopology l h => (anx_cell_set_topology (Some cell) l h).2
  | OpClearTopology => anx_cell_clear_topology (Some cell)
  end.

Definition contract_of (c : anx_cell) : Z * Z * Z * Z :=
  (contract_consistency c, contract_effect_mode c,
   cognitive_max_tokens c, cognitive_max_reasoning_depth c).

Definition topology_ok (c : anx_cell) : Prop :=
  topology_bk_set (constraints c) = true →
  topology_bk_lo (constraints c) ≤ topology_bk_hi (constraints c).

Definition contract_ok (c : anx_cell) : Prop :=
  contract_valid (contract_consistency c) (contract_effect_mode c) = ANX_OK.

Lemma apply_op_invariant cell op :
  topology_ok cell ∧ contract_ok cell → topology_ok (apply_op cell op) ∧ contract_ok (apply_op cell op).
Proof.
  intros [Ht Hc]. unfold apply_op. destruct op; cbn [default].
  - destruct (transition_cases cell new_status) as [(s & _ & _ & ->)| ->]; done.
  - unfold anx_cell_set_contract. repeat split_goal; to_prop; try done.
  - unfold anx_cell_set_cognitive_envelope. repeat split_goal; done.
  - unfold anx_cell_set_topology. split_goal; to_prop; [done|].
    split; [|done]. by intros _.
  - done.
Qed.

Lemma apply_op_frozen cell op :
  status cell ≠ ANX_CELL_CREATED →
  status (apply_op cell op) ≠ ANX_CELL_CREATED ∧ contract_of (apply_op cell op) = contract_of cell.
Proof.
  intros Hs. unfold apply_op. destruct op; cbn [default].
  - destruct (transition_cases cell new_status) as [(s & _ & Hv & ->)| ->]; [|done].
    split; [|done]. cbn. intros ->. by destruct (status cell).
  - unfold anx_cell_set_contract. repeat split_goal; to_prop; done.
  - unfold anx_cell_set_cognitive_envelope. repeat split_goal; to_prop; done.
  - unfold anx_cell_set_topology. repeat split_goal; done.
  - done.
Qed.

(** Whatever sequence of transitions and declarations is applied to a cell
    with a valid contract and topology range, the contract stays valid and the
    topology range ordered; and once the cell has left [CREATED] its contract
    and cognitive envelope never change again. *)
Theorem contract_frozen cell ops1 ops2 :
  topology_ok cell → contract_ok cell →
  let cell1 := foldl apply_op cell ops1 in
  topology_ok cell1 ∧ contract_ok cell1 ∧
  (status cell1 ≠ ANX_CELL_CREATED →
   contract_of (foldl apply_op cell1 ops2) = contract_of cell1).
Proof.
  intros Ht Hc cell1.
  assert (topology_ok cell1 ∧ contract_ok cell1) as [? ?].
  { subst cell1. revert cell Ht Hc.
    induction ops1 as [|op ops1 IH]; intros cell Ht Hc; [done|].
    simpl. destruct (apply_op_invariant cell op); [done|]. by apply IH. }
  split_and!; [done|done|]. generalize cell1. clear.
  induction ops2 as [|op ops2 IH]; intros cell Hs; [done|]. simpl.
  destruct (apply_op_frozen cell op Hs) as [Hs' <-]. by apply IH.
Qed.

Lemma contract_frozen_witness :
  contract_of (foldl apply_op (zero_cell (Uuid 0 1))
    [OpContract None 2 1; OpTransition 1; OpContract None 0 0; OpEnvelope None 5 5])
  = (2, 1, 0, 0).
Proof.
  destruct (contract_frozen (zero_cell (Uuid 0 1)) [OpContract None 2 1; OpTransition 1]
    [OpContract None 0 0; OpEnvelope None 5 5]) as (_ & _ & H); [done|reflexivity|].
  apply H. discriminate.
Defined.
