(* ===== verification/CellScope.v ===== *)
(** * Delegated scope: [anx_cell_check_scope] of [kernel/core/exec/runtime.c]

    A child cell runs under the ceilings of all its ancestors.  The walk up
    the parents holds a reference on the cell it stands on. *)

From S2P Require Import Prelude Uuid Cell.

(** Zero removes a numeric bound. *)
Definition scope_widens (child parent : Z) : bool :=
  negb (parent =? 0) && ((child =? 0) || (child >? parent)).

Definition locality_fixed (l : anx_locality) : bool :=
  match l with ANX_LOCAL_ONLY | ANX_REMOTE_REQUIRED => true | _ => false end.

#[export] Instance anx_locality_eq_dec : EqDecision anx_locality.
Proof. solve_decision. Defined.

Definition scope_contains (parent child : anx_cell) : bool :=
  let pp := policy parent in let cp := policy child in
  let pk := constraints parent in let ck := constraints child in
  when (child_count parent >? ANX_MAX_CHILD_CELLS)
       || negb (uuid_eqb (identity_id parent) (identity_id child))
       || negb (uuid_eqb (effect_fence_id parent) (effect_fence_id child))
       || negb (uuid_eqb (tool_namespace_id parent) (tool_namespace_id child))
       || negb (uuid_eqb (revision_lease_id parent) (revision_lease_id child))
    ret false ;;
  let linked := existsb (λ c, uuid_eqb c (cid child)) (child_cids parent) in
  when negb linked || anx_cell_status_terminal (status parent)
       || negb (allow_recursive_cells pp)
       || (recursion_depth parent >=? exec_max_recursion_depth pp)
       || (recursion_depth parent >=? max_recursion_depth pk)
       || negb (recursion_depth child =? u32 (recursion_depth parent + 1))
    ret false ;;
  when (allow_network cp && negb (allow_network pp))
       || (allow_remote_models cp && negb (allow_remote_models pp))
       || (allow_recursive_cells cp && negb (allow_recursive_cells pp))
       || (allow_side_effects cp && negb (allow_side_effects pp))
    ret false ;;
  when scope_widens (max_latency_ms ck) (max_latency_ms pk)
       || scope_widens (max_memory_admission_bytes ck) (max_memory_admission_bytes pk)
       || scope_widens (max_cost_usd_cents ck) (max_cost_usd_cents pk)
       || scope_widens (cognitive_max_tokens child) (cognitive_max_tokens parent)
       || scope_widens (cognitive_max_reasoning_depth child) (cognitive_max_reasoning_depth parent)
       || (max_child_cells ck >? max_child_cells pk)
       || (max_recursion_depth ck >? max_recursion_depth pk)
       || (exec_max_recursion_depth cp >? exec_max_recursion_depth pp)
    ret false ;;
  when locality_fixed (locality pk) && negb (bool_decide (locality ck = locality pk))
    ret false ;;
  true.

(** [if (current != cell) anx_cell_store_release(current)]. *)
Definition release_unless (st : cell_store) (cellp current : anx_uuid) : cell_store :=
  if uuid_eqb current cellp then st else anx_cell_store_release st current.

(** The [while] loop; reading through a pointer to no cell is [Panic]. *)
Fixpoint scope_walk (fuel : nat) (st : cell_store) (cellp current : anx_uuid)
    : outcome (Z * cell_store) :=
  match fuel with
  | O => OutOfFuel
  | S fuel =>
      match st !! current with
      | None => Panic
      | Some cur =>
          if anx_uuid_is_nil (parent_cid cur) then
            Ret (if negb (recursion_depth cur =? 0) then ANX_EPERM else ANX_OK,
                 release_unless st cellp current)
          else
            match anx_cell_store_lookup st (parent_cid cur) with
            | (None, st) => Ret (ANX_EPERM, release_unless st cellp current)
            | (Some parent, st) =>
                when negb (scope_contains parent cur)
                  ret Ret (ANX_EPERM,
                           release_unless (anx_cell_store_release st (parent_cid cur))
                             cellp current) ;;
                scope_walk fuel (release_unless st cellp current) cellp (parent_cid cur)
            end
      end
  end.

Definition anx_cell_check_scope (fuel : nat) (st : cell_store) (cellp : option anx_uuid)
    : outcome (Z * cell_store) :=
  match cellp with
  | None => Ret (ANX_EINVAL, st)
  | Some p => scope_walk fuel st p p
  end.

(** ** Specification: a chain of contained scopes up to a root *)

Inductive in_scope (st : cell_store) : anx_uuid → Prop :=
  | in_scope_root p c :
      st !! p = Some c → parent_cid c = ANX_UUID_NIL → recursion_depth c = 0 → in_scope st p
  | in_scope_child p c parent :
      st !! p = Some c → parent_cid c ≠ ANX_UUID_NIL →
      st !! parent_cid c = Some parent → scope_contains parent c = true →
      in_scope st (parent_cid c) → in_scope st p.

(** A numeric ceiling, 0 being none. *)
Definition bound_le (child parent : Z) : Prop := parent = 0 ∨ (child ≠ 0 ∧ child ≤ parent).

(** What one cell promises to stay within of another: the relation the
    containment test establishes and that composes along the ancestors. *)
Record attenuates (parent child : anx_cell) : Prop := {
  att_identity : identity_id child = identity_id parent;
  att_fence : effect_fence_id child = effect_fence_id parent;
  att_namespace : tool_namespace_id child = tool_namespace_id parent;
  att_revision : revision_lease_id child = revision_lease_id parent;
  att_network : allow_network (policy child) = true → allow_network (policy parent) = true;
  att_models : allow_remote_models (policy child) = true → allow_remote_models (policy parent) = true;
  att_effects : allow_side_effects (policy child) = true → allow_side_effects (policy parent) = true;
  att_latency : bound_le (max_latency_ms (constraints child)) (max_latency_ms (constraints parent));
  att_memory : bound_le (max_memory_admission_bytes (constraints child))
                        (max_memory_admission_bytes (constraints parent));
  att_cost : bound_le (max_cost_usd_cents (constraints child)) (max_cost_usd_cents (constraints parent));
  att_tokens : bound_le (cognitive_max_tokens child) (cognitive_max_tokens parent);
  att_reasoning : bound_le (cognitive_max_reasoning_depth child) (cognitive_max_reasoning_depth parent);
  att_children : max_child_cells (constraints child) ≤ max_child_cells (constraints parent);
  att_depth : max_recursion_depth (constraints child) ≤ max_recursion_depth (constraints parent);
  att_locality : locality_fixed (locality (constraints parent)) = true →
                 locality (constraints child) = locality (constraints parent);
}.

Lemma bound_le_trans a b c : bound_le a b → bound_le b c → bound_le a c.
Proof. unfold bound_le. lia. Qed.

Lemma scope_widens_false c p : scope_widens c p = false → bound_le c p.
Proof. unfold scope_widens, bound_le. intros. lia. Qed.

#[export] Hint Resolve bound_le_trans scope_widens_false : anx.

#[export] Instance attenuates_trans : Transitive attenuates.
Proof.
  intros a b c [] []. constructor; try congruence; eauto with anx; try lia.
  intros Hl. rewrite att_locality1; [auto|]. by rewrite att_locality0.
Qed.

Lemma implb_guard a b : (a && negb b)%bool = false → a = true → b = true.
Proof. by destruct a, b. Qed.

#[export] Hint Resolve implb_guard : anx.

Lemma scope_contains_spec parent child :
  scope_contains parent child = true →
  attenuates parent child ∧
  recursion_depth parent < exec_max_recursion_depth (policy parent) ∧
  recursion_depth child = u32 (recursion_depth parent + 1) ∧
  anx_cell_status_terminal (status parent) = false ∧
  cid child ∈ child_cids parent.
Proof.
  unfold scope_contains. cbv zeta.
  repeat match goal with
  | |- (if ?b then false else _) = true → _ =>
      let E := fresh "E" in destruct b eqn:E; [discriminate|]
  end.
  intros _.
  repeat match goal with
  | H : (_ || _)%bool = false |- _ => apply orb_false_iff in H as [? ?]
  | H : negb _ = false |- _ => apply negb_false_iff in H
  | H : uuid_eqb _ _ = true |- _ => apply uuid_eqb_true in H
  end.
  split_and!; [|lia|lia|done|].
  - constructor; eauto with anx; try lia.
    intros Hl. rewrite Hl in *. simpl in *.
    match goal with H : negb (bool_decide _) = false |- _ =>
      apply negb_false_iff in H; by apply bool_decide_eq_true in H end.
  - match goal with H : existsb _ _ = true |- _ => apply existsb_exists in H as (x & Hx & ->%uuid_eqb_true) end.
    by apply list_elem_of_In.
Qed.

(** ** The walk decides [in_scope] *)

(** Machine widths of the fields the walk compares. *)
Definition depths_ok (st : cell_store) : Prop :=
  ∀ c n, st !! c = Some n →
    is_u32 (recursion_depth n) ∧ is_u32 (exec_max_recursion_depth (policy n)).

(** The store while the walk that started at [cellp] stands on [current]. *)
Definition hold (st : cell_store) (cellp current : anx_uuid) : cell_store :=
  if uuid_eqb current cellp then st else bump current st.

Lemma hold_lookup st cellp current c n :
  st !! c = Some n → hold st cellp current !! c = Some n ∨ hold st cellp current !! c = Some (held n).
Proof.
  intros Hn. unfold hold. destruct (uuid_eqb_spec current cellp); [by left|].
  destruct (decide (current = c)) as [->|].
  - right. by apply bump_lookup_eq.
  - left. by rewrite bump_lookup_ne.
Qed.

Lemma hold_None st cellp current c : st !! c = None → hold st cellp current !! c = None.
Proof.
  intros Hn. unfold hold. destruct (uuid_eqb_spec current cellp); [done|].
  unfold bump. by apply lookup_alter_None.
Qed.

Lemma hold_release st cellp current n :
  store_ok 2 st → st !! current = Some n →
  release_unless (hold st cellp current) cellp current = st.
Proof.
  intros Hok Hn. unfold release_unless, hold. destruct (uuid_eqb_spec current cellp); [done|].
  apply (release_bump _ _ n Hn). apply (Hok current n Hn).
Qed.

Lemma hold_ok st cellp current : store_ok 2 st → store_ok 1 (hold st cellp current).
Proof.
  intros Hok. unfold hold. destruct (uuid_eqb_spec current cellp).
  - eapply store_ok_le; [|done]. lia.
  - apply store_ok_bump; [done|lia].
Qed.

Lemma hold_step st cellp current parent n :
  store_ok 2 st → st !! current = Some n → parent ≠ current → parent ≠ cellp →
  release_unless (bump parent (hold st cellp current)) cellp current = hold st cellp parent.
Proof.
  intros Hok Hn Hpc Hpp. unfold release_unless, hold.
  destruct (uuid_eqb_spec parent cellp); [done|].
  destruct (uuid_eqb_spec current cellp); [done|].
  rewrite bump_comm. apply (release_bump _ _ n).
  - by rewrite bump_lookup_ne.
  - apply (Hok current n Hn).
Qed.

Lemma contains_depth st c n parent p :
  depths_ok st → st !! c = Some n → st !! p = Some parent → scope_contains parent n = true →
  recursion_depth n = recursion_depth parent + 1.
Proof.
  intros Hd Hn Hp Hc. apply scope_contains_spec in Hc as (_ & Hlt & -> & _).
  destruct (Hd p parent Hp) as [H1 H2]. apply u32_small. unfold is_u32 in *. lia.
Qed.

(** One look at the parent, on the store as held. *)
Lemma hold_parent st cellp current c parent :
  store_ok 2 st → st !! c = Some parent →
  ∃ parent', anx_cell_store_lookup (hold st cellp current) c
             = (Some parent', bump c (hold st cellp current)) ∧
    (∀ child, scope_contains parent' child = scope_contains parent child) ∧
    anx_cell_store_release (bump c (hold st cellp current)) c = hold st cellp current.
Proof.
  intros Hok Hp. pose proof (hold_ok st cellp current Hok) as Hok1.
  destruct (Hok c parent Hp) as (_&_&?&_).
  destruct (hold_lookup st cellp current c parent Hp) as [E|E];
    eexists; (split; [by apply lookup_bump|]);
    (split; [done|]); eapply release_bump; [exact E|lia|exact E|cbn; lia].
Qed.

Lemma scope_walk_spec st cellp cell fuel current cur :
  store_ok 2 st → depths_ok st → st !! cellp = Some cell → st !! current = Some cur →
  (current = cellp ∨ recursion_depth cur < recursion_depth cell) →
  (Z.to_nat (recursion_depth cur) < fuel)%nat →
  ∃ r, scope_walk fuel (hold st cellp current) cellp current = Ret (r, st) ∧
       (r = ANX_OK ∨ r = ANX_EPERM) ∧ (r = ANX_OK ↔ in_scope st current).
Proof.
  intros Hok Hd Hcell. revert current cur.
  induction fuel as [|fuel IH]; intros current cur Hcur Hpos Hfuel; [lia|].
  assert (recursion_depth cur ≤ recursion_depth cell) as Hle.
  { destruct Hpos as [->|]; [simplify_eq; done|lia]. }
  assert (∃ cur', hold st cellp current !! current = Some cur' ∧
            parent_cid cur' = parent_cid cur ∧ recursion_depth cur' = recursion_depth cur ∧
            ∀ p, scope_contains p cur' = scope_contains p cur) as (cur' & E & E1 & E2 & E3).
  { destruct (hold_lookup st cellp current current cur Hcur) as [E|E]; by eexists. }
  cbn [scope_walk]. rewrite E, E1, E2, (hold_release st cellp current cur) by done.
  destruct (uuid_is_nil_spec (parent_cid cur)) as [Hnil|Hnil].
  { eexists. split; [done|]. destruct (Z.eqb_spec (recursion_depth cur) 0); simpl;
      (split; [by auto|]); split; try done; intros H; [by eapply in_scope_root|].
    inversion H; simplify_eq; congruence. }
  destruct (st !! parent_cid cur) as [parent|] eqn:Hp.
  2:{ rewrite lookup_None by (by apply hold_None). rewrite (hold_release st cellp current cur) by done.
      eexists. split; [done|]. split; [by auto|]. split; [done|]. intros H; inversion H; simplify_eq; congruence. }
  destruct (hold_parent st cellp current (parent_cid cur) parent Hok Hp) as (parent' & -> & E4 & ->).
  rewrite E3, E4. destruct (scope_contains parent cur) eqn:Hc; simpl.
  2:{ rewrite (hold_release st cellp current cur) by done.
      eexists. split; [done|]. split; [by auto|]. split; [done|]. intros H; inversion H; simplify_eq; congruence. }
  pose proof (contains_depth st current cur parent _ Hd Hcur Hp Hc) as Hdep.
  destruct (Hd _ _ Hp) as [[? _] _].
  assert (parent_cid cur ≠ current) by (intros Heq; rewrite Heq in Hp; simplify_eq; lia).
  assert (parent_cid cur ≠ cellp) by (intros Heq; rewrite Heq in Hp; simplify_eq; lia).
  rewrite (hold_step st cellp current _ cur) by done.
  destruct (IH (parent_cid cur) parent) as (r & -> & Hr & Hiff); [done|right; lia|lia|].
  exists r. split; [done|]. split; [done|]. rewrite Hiff. split.
  - intros. by eapply in_scope_child.
  - intros H'. inversion H'; simplify_eq. done.
Qed.

(** ** Ancestors *)

Definition parent_edge (st : cell_store) (a b : anx_uuid) : Prop :=
  ∃ n, st !! a = Some n ∧ parent_cid n = b ∧ b ≠ ANX_UUID_NIL.

Lemma in_scope_ancestor st p c a :
  in_scope st p → st !! p = Some c → tc (parent_edge st) p a →
  ∃ anc, st !! a = Some anc ∧ attenuates anc c ∧ anx_cell_status_terminal (status anc) = false ∧
         in_scope st a.
Proof.
  intros Hs Hc Ht. revert c Hs Hc.
  induction Ht as [p a (n & Hn & <- & Hnil)|p b a (n & Hn & <- & Hnil) _ IH]; intros c Hs Hc.
  - simplify_eq. inversion Hs; simplify_eq.
    match goal with H : scope_contains _ _ = true |- _ =>
      apply scope_contains_spec in H as (? & _ & _ & ? & _) end. by eexists.
  - simplify_eq. inversion Hs; simplify_eq.
    destruct (IH parent) as (anc & ? & ? & ? & ?); [done|done|].
    match goal with H : scope_contains _ _ = true |- _ =>
      apply scope_contains_spec in H as (? & _) end.
    exists anc. split_and!; [done|by etransitivity|done|done].
Qed.

(** C1: [anx_cell_check_scope] terminates for every cell of the store (with
    fuel above its recursion depth), leaves all reference counts as they were,
    and returns [ANX_OK] only if the cell stays within every one of its
    ancestors, however distant: same identity, fence, namespace and revision
    lease, no permission an ancestor lacks, no numeric ceiling above or without
    an ancestor's, and no terminal ancestor. *)
Theorem check_scope_attenuates st p cell fuel :
  store_ok 2 st → depths_ok st → st !! p = Some cell →
  (Z.to_nat (recursion_depth cell) < fuel)%nat →
  ∃ r, anx_cell_check_scope fuel st (Some p) = Ret (r, st) ∧
    (r = ANX_OK ∨ r = ANX_EPERM) ∧
    (r = ANX_OK ↔ in_scope st p) ∧
    (r = ANX_OK → ∀ a, tc (parent_edge st) p a →
       ∃ anc, st !! a = Some anc ∧ attenuates anc cell ∧
              anx_cell_status_terminal (status anc) = false).
Proof.
  intros Hok Hd Hp Hfuel.
  destruct (scope_walk_spec st p cell fuel p cell) as (r & E & Hr & Hiff); [done..|by left|done|].
  exists r. split_and!; [|done|done|].
  - simpl. unfold hold in E. by rewrite uuid_eqb_refl in E.
  - intros Hok' a Ha. apply Hiff in Hok'.
    destruct (in_scope_ancestor st p cell a) as (anc & ? & ? & ? & _); [done..|]. by eexists.
Qed.

(** A root that may delegate one level, and its child. *)
Definition root_cell : anx_cell :=
  zero_cell (Uuid 0 1)
    <| policy ::= λ p, p <| allow_recursive_cells := true |> <| exec_max_recursion_depth := 2 |> |>
    <| constraints ::= λ k, k <| max_recursion_depth := 2 |> <| max_latency_ms := 100 |> |>
    <| child_cids := [Uuid 0 2] |>.
Definition child_cell : anx_cell :=
  zero_cell (Uuid 0 2)
    <| parent_cid := Uuid 0 1 |> <| recursion_depth := 1 |>
    <| constraints ::= λ k, k <| max_latency_ms := 50 |> |>.
Definition two_cells : cell_store := <[Uuid 0 1 := root_cell]> {[Uuid 0 2 := child_cell]}.

Lemma two_cells_inv (P : anx_uuid → anx_cell → Prop) :
  P (Uuid 0 1) root_cell → P (Uuid 0 2) child_cell → ∀ c n, two_cells !! c = Some n → P c n.
Proof.
  intros H1 H2 c n Hn. unfold two_cells in Hn.
  apply lookup_insert_Some in Hn as [[<- <-]|[_ Hn]]; [done|].
  by apply lookup_singleton_Some in Hn as [<- <-].
Qed.

Lemma check_scope_attenuates_witness :
  ∃ anc, two_cells !! Uuid 0 1 = Some anc ∧ attenuates anc child_cell ∧
    anx_cell_check_scope 2 two_cells (Some (Uuid 0 2)) = Ret (ANX_OK, two_cells).
Proof.
  destruct (check_scope_attenuates two_cells (Uuid 0 2) child_cell 2)
    as (r & E & _ & _ & H).
  - refine (two_cells_inv (λ c n, cid n = c ∧ dep_count n ≤ ANX_MAX_CELL_DEPS ∧ 0 ≤ refcount n ∧
             refcount n + 2 ≤ MAX32) _ _); vm_compute; split_and!; congruence.
  - refine (two_cells_inv (λ c n, is_u32 (recursion_depth n) ∧
             is_u32 (exec_max_recursion_depth (policy n))) _ _); vm_compute; split_and!; congruence.
  - reflexivity.
  - vm_compute. lia.
  - assert (r = ANX_OK) as ->.
    { vm_compute in E. injection E as Er. by rewrite <- Er. }
    destruct (H eq_refl (Uuid 0 1)) as (anc & H1 & H2 & _).
    + apply tc_once. exists child_cell. split; [reflexivity|]. split; [reflexivity|discriminate].
    + by exists anc.
Defined.
