(* ===== verification/SchedDomain.v ===== *)
(** * Scheduler domains: [kernel/core/sched/domain.c], [sched_domain.h]

    A domain bounds the queues and priorities a cell and its descendants may be
    scheduled with.  The table of [ANX_SCHED_DOMAINS_MAX] slots is a list of
    options ([None]: [owner == NULL]).  The [owner] pointer is the id of the
    owner, on which a domain holds a reference. *)

From S2P Require Import Prelude Uuid Cell CellScope.

Definition ANX_QUEUE_CLASS_COUNT : Z := 6.
Definition ANX_PRIO_LOW : Z := 0.
Definition ANX_PRIO_CRITICAL : Z := 3.
Definition ANX_SCHED_DOMAINS_MAX : Z := 32.
Definition ANX_SCHED_DOMAIN_DEPTH_MAX : nat := 8.

Record anx_sched_domain_spec := DomainSpec {
  schema : Z;
  cpu_mask : Z;
  queue_mask : Z;
  maximum_priority : Z;
  expires_at : Z;
}.

Record scheduler_domain := SchedulerDomain {
  v_id : Z;
  v_epoch : Z;
  v_parent : Z;
  v_owner : anx_uuid;
  v_authority : anx_sched_domain_spec;
  v_revoked : bool;
  declared_parent : anx_uuid;
  declared_depth : Z;
  d_depth : Z;
}.

#[export] Instance eta_domain : Settable scheduler_domain := λ r,
  SchedulerDomain (v_id r) (v_epoch r) (v_parent r) (v_owner r) (v_authority r)
    (v_revoked r) (declared_parent r) (declared_depth r) (d_depth r).

Record domain_table := DomainTable {
  domains : list (option scheduler_domain);
  sequence : Z;
}.

Definition domain_init : domain_table :=
  DomainTable (replicate (Z.to_nat ANX_SCHED_DOMAINS_MAX) None) 0.

(** [~x] on a [uint32_t]. *)
Definition not32 (x : Z) : Z := Z.lxor MAX32 x.

(** The first slot that satisfies [P]. *)
Fixpoint slot_of (P : scheduler_domain → bool) (l : list (option scheduler_domain))
    : option nat :=
  match l with
  | [] => None
  | Some d :: l => if P d then Some 0%nat else S <$> slot_of P l
  | None :: l => S <$> slot_of P l
  end.

Definition slot_get (l : list (option scheduler_domain)) (i : nat) : option scheduler_domain :=
  l !! i ≫= id.

Definition find_slot (t : domain_table) (id : Z) : option nat :=
  if id =? 0 then None else slot_of (λ d, v_id d =? id) (domains t).

Definition find (t : domain_table) (id : Z) : option scheduler_domain :=
  find_slot t id ≫= slot_get (domains t).

Definition for_cell (t : domain_table) (c : anx_uuid) : option scheduler_domain :=
  slot_of (λ d, uuid_eqb c (v_owner d)) (domains t) ≫= slot_get (domains t).

(** [*d->owner]: the reference the domain holds keeps it in the store. *)
Definition owner_cell (st : cell_store) (d : scheduler_domain) : anx_cell :=
  default (zero_cell (v_owner d)) (st !! v_owner d).

Fixpoint live_walk (n : nat) (t : domain_table) (st : cell_store)
    (d : scheduler_domain) (now : Z) : Z :=
  match n with
  | O => ANX_EPERM
  | S n =>
      let o := owner_cell st d in
      when v_revoked d || anx_cell_status_terminal (status o)
           || negb (uuid_eqb (parent_cid o) (declared_parent d))
           || negb (recursion_depth o =? declared_depth d)
        ret ANX_EPERM ;;
      when negb (expires_at (v_authority d) =? 0) && (now >=? expires_at (v_authority d))
        ret ANX_ETIMEDOUT ;;
      when v_parent d =? 0 ret ANX_OK ;;
      match find t (v_parent d) with
      | Some d => live_walk n t st d now
      | None => ANX_EPERM
      end
  end.

Definition live (t : domain_table) (st : cell_store) (d : scheduler_domain) (now : Z) : Z :=
  live_walk ANX_SCHED_DOMAIN_DEPTH_MAX t st d now.

Definition subset (child parent : anx_sched_domain_spec) : bool :=
  (Z.land (cpu_mask child) (not32 (cpu_mask parent)) =? 0)
  && (Z.land (queue_mask child) (not32 (queue_mask parent)) =? 0)
  && (maximum_priority child <=? maximum_priority parent)
  && ((expires_at parent =? 0)
      || (negb (expires_at child =? 0) && (expires_at child <=? expires_at parent))).

Fixpoint free_slot (l : list (option scheduler_domain)) : option nat :=
  match l with
  | [] => None
  | None :: _ => Some 0%nat
  | Some _ :: l => S <$> free_slot l
  end.

(** [current] is [anx_cell_current_id()], [now] the clock, [fuel] for the scope
    walk.  The result carries the new domain's view. *)
Definition anx_sched_domain_create (fuel : nat) (current : option anx_uuid) (now : Z)
    (st : cell_store) (t : domain_table) (ownerp : option anx_uuid) (parent : Z)
    (specp : option anx_sched_domain_spec)
    : outcome (Z * option scheduler_domain * domain_table * cell_store) :=
  when bool_decide (is_Some current) ret Ret (ANX_EPERM, None, t, st) ;;
  match ownerp, specp with
  | Some owner, Some spec =>
      when negb (schema spec =? 1) || (cpu_mask spec =? 0) || (queue_mask spec =? 0)
           || negb (Z.shiftr (queue_mask spec) ANX_QUEUE_CLASS_COUNT =? 0)
           || (maximum_priority spec <? 0) || (maximum_priority spec >? ANX_PRIO_CRITICAL)
        ret Ret (ANX_EINVAL, None, t, st) ;;
      when negb (cpu_mask spec =? 1) ret Ret (ANX_ENOTSUP, None, t, st) ;;
      when negb (expires_at spec =? 0) && (expires_at spec <=? now)
        ret Ret (ANX_ETIMEDOUT, None, t, st) ;;
      match anx_cell_store_lookup st owner with
      | (None, st) => Ret (ANX_ENOENT, None, t, st)
      | (Some cell, st) =>
          let! (r, st) := anx_cell_check_scope fuel st (Some owner) in
          let r := if (r =? ANX_OK) && (anx_cell_status_terminal (status cell) || runtime_active cell)
                   then ANX_EPERM else r in
          let fail := λ r, Ret (r, None, t, anx_cell_store_release st owner) in
          when negb (r =? ANX_OK) ret fail r ;;
          let p := if parent =? 0 then None else find t parent in
          when bool_decide (is_Some (for_cell t owner)) ret fail ANX_EEXIST ;;
          when negb (parent =? 0) && bool_decide (p = None) ret fail ANX_ENOENT ;;
          when ((parent =? 0) && negb (anx_uuid_is_nil (parent_cid cell)))
               || match p with
                  | Some p => negb (uuid_eqb (parent_cid cell) (v_owner p))
                              || negb (subset spec (v_authority p))
                  | None => false
                  end
            ret fail ANX_EPERM ;;
          let r := match p with Some p => live t st p now | None => ANX_OK end in
          when negb (r =? ANX_OK) ret fail r ;;
          when match p with
               | Some p => Z.of_nat ANX_SCHED_DOMAIN_DEPTH_MAX <=? d_depth p + 1
               | None => false
               end || (sequence t =? MAX64)
            ret fail ANX_EFULL ;;
          match free_slot (domains t) with
          | None => fail ANX_EFULL
          | Some i =>
              let seq := sequence t + 1 in
              let d := SchedulerDomain seq 1 parent owner spec false
                         (parent_cid cell) (recursion_depth cell)
                         match p with Some p => d_depth p + 1 | None => 0 end in
              Ret (ANX_OK, Some d, DomainTable (<[i := Some d]> (domains t)) seq, st)
          end
      end
  | _, _ => Ret (ANX_EINVAL, None, t, st)
  end.

Definition anx_sched_domain_get (current : option anx_uuid) (t : domain_table) (id : Z)
    : Z * option scheduler_domain :=
  when id =? 0 ret (ANX_EINVAL, None) ;;
  match find t id with
  | None => (ANX_ENOENT, None)
  | Some d =>
      match current with
      | Some caller => when negb (uuid_eqb caller (v_owner d)) ret (ANX_EPERM, None) ;; (ANX_OK, Some d)
      | None => (ANX_OK, Some d)
      end
  end.

Fixpoint descendant_walk (n : nat) (t : domain_table) (d : scheduler_domain) (id : Z) : bool :=
  match n with
  | O => false
  | S n =>
      when v_id d =? id ret true ;;
      match find t (v_parent d) with
      | Some d => descendant_walk n t d id
      | None => false
      end
  end.

Definition descendant (t : domain_table) (d : scheduler_domain) (id : Z) : bool :=
  descendant_walk ANX_SCHED_DOMAIN_DEPTH_MAX t d id.

Definition revoke_one (d : scheduler_domain) : scheduler_domain :=
  d <| v_revoked := true |> <| v_epoch ::= λ e, u64 (e + 1) |>.

(** The sweep over the slots; [descendant] reads only ids and parents, which
    the sweep does not change. *)
Definition revoke_sweep (t : domain_table) (id : Z) : list (option scheduler_domain) :=
  (λ o, match o with
        | Some d => if negb (v_revoked d) && descendant t d id then Some (revoke_one d) else Some d
        | None => None
        end) <$> domains t.

Definition anx_sched_domain_revoke (current : option anx_uuid) (t : domain_table)
    (id epoch : Z) : Z * domain_table :=
  when bool_decide (is_Some current) ret (ANX_EPERM, t) ;;
  when (id =? 0) || (epoch =? 0) ret (ANX_EINVAL, t) ;;
  match find t id with
  | None => (ANX_ENOENT, t)
  | Some d =>
      when negb (v_epoch d =? epoch) || v_revoked d ret (ANX_EBUSY, t) ;;
      (ANX_OK, DomainTable (revoke_sweep t id) (sequence t))
  end.

Definition has_child (t : domain_table) (id : Z) : bool :=
  existsb (λ o, match o with Some d => v_parent d =? id | None => false end) (domains t).

Definition anx_sched_domain_destroy (current : option anx_uuid) (st : cell_store)
    (t : domain_table) (id : Z) : Z * domain_table * cell_store :=
  when bool_decide (is_Some current) ret (ANX_EPERM, t, st) ;;
  when id =? 0 ret (ANX_EINVAL, t, st) ;;
  match find_slot t id, find t id with
  | Some i, Some d =>
      let o := owner_cell st d in
      when negb (anx_cell_status_terminal (status o)) || runtime_active o
        ret (ANX_EBUSY, t, st) ;;
      when has_child t id ret (ANX_EBUSY, t, st) ;;
      (ANX_OK, DomainTable (<[i := None]> (domains t)) (sequence t),
       anx_cell_store_release st (v_owner d))
  | _, _ => (ANX_ENOENT, t, st)
  end.

(** The loop of [check]: [n] bounds the remaining iterations, [managed] is the
    flag; the result carries [current] for the final release. *)
Fixpoint check_walk (n : nat) (st : cell_store) (t : domain_table)
    (cellp : anx_uuid) (current : anx_cell) (managed queued : bool)
    (queue priority now : Z) : Z * bool * cell_store :=
  let done r managed st := (r, managed, release_unless st cellp (cid current)) in
  let up managed :=
    when anx_uuid_is_nil (parent_cid current) ret done ANX_OK managed st ;;
    match n with
    | O => done ANX_EPERM managed st
    | S n =>
        match anx_cell_store_lookup st (parent_cid current) with
        | (None, st) => done ANX_EPERM managed st
        | (Some parent, st) =>
            check_walk n (release_unless st cellp (cid current)) t cellp parent
              managed queued queue priority now
        end
    end in
  match for_cell t (cid current) with
  | Some d =>
      let r := live t st d now in
      when negb (r =? ANX_OK) ret done r true st ;;
      when (Z.land (cpu_mask (v_authority d)) 1 =? 0)
           || (queued && ((Z.land (queue_mask (v_authority d)) (Z.shiftl 1 queue) =? 0)
                          || (priority >? maximum_priority (v_authority d))))
        ret done ANX_EPERM true st ;;
      up true
  | None => up managed
  end.

Definition check (fuel : nat) (now : Z) (st : cell_store) (t : domain_table)
    (cellp : option anx_uuid) (queued : bool) (queue priority : Z) : outcome (Z * cell_store) :=
  match cellp, cellp ≫= (st !!.) with
  | Some p, Some cell =>
      let '(r, managed, st) := check_walk (ANX_SCHED_DOMAIN_DEPTH_MAX - 1) st t p cell
                                 false queued queue priority now in
      if (r =? ANX_OK) && managed then anx_cell_check_scope fuel st (Some p) else Ret (r, st)
  | _, _ => Ret (ANX_EINVAL, st)
  end.

Definition anx_sched_domain_check (fuel : nat) (now : Z) (st : cell_store)
    (t : domain_table) (cellp : option anx_uuid) : outcome (Z * cell_store) :=
  check fuel now st t cellp false 0 ANX_PRIO_LOW.

Definition anx_sched_domain_check_queue (fuel : nat) (now : Z) (st : cell_store)
    (t : domain_table) (cellp : option anx_uuid) (queue priority : Z) : outcome (Z * cell_store) :=
  when (queue <? 0) || (queue >=? ANX_QUEUE_CLASS_COUNT) || (priority <? 0)
       || (priority >? ANX_PRIO_CRITICAL)
    ret Ret (ANX_EINVAL, st) ;;
  check fuel now st t cellp true queue priority.

(** ** Slots *)

Definition present (t : domain_table) (d : scheduler_domain) : Prop := Some d ∈ domains t.

Lemma slot_of_Some P l i :
  slot_of P l = Some i → ∃ d, l !! i = Some (Some d) ∧ P d = true.
Proof.
  revert i. induction l as [|[d|] l IH]; intros i Hi; simpl in Hi; [done| |].
  - destruct (P d) eqn:E; [simplify_eq; by exists d|].
    apply fmap_Some in Hi as (j & Hj & ->). by apply IH.
  - apply fmap_Some in Hi as (j & Hj & ->). by apply IH.
Qed.

Lemma slot_of_None P l d : slot_of P l = None → Some d ∈ l → P d = false.
Proof.
  intros Hn Hd. induction l as [|[d'|] l IH]; simpl in Hn; [by apply not_elem_of_nil in Hd| |].
  - destruct (P d') eqn:E; [done|]. apply fmap_None in Hn.
    apply elem_of_cons in Hd as [[= ->]|Hd]; [done|by apply IH].
  - apply fmap_None in Hn. apply elem_of_cons in Hd as [?|Hd]; [done|by apply IH].
Qed.

Lemma free_slot_Some l i : free_slot l = Some i → l !! i = Some None.
Proof.
  revert i. induction l as [|[d|] l IH]; intros i Hi; simpl in Hi; simplify_eq; [|done].
  apply fmap_Some in Hi as (j & Hj & ->). by apply IH.
Qed.

Lemma find_slot_Some t id i :
  find_slot t id = Some i →
  id ≠ 0 ∧ ∃ d, domains t !! i = Some (Some d) ∧ v_id d = id ∧ find t id = Some d.
Proof.
  unfold find, find_slot. destruct (Z.eqb_spec id 0); [done|]. intros Hi. split; [done|].
  destruct (slot_of_Some _ _ _ Hi) as (d & Hd & E%Z.eqb_eq).
  exists d. rewrite Hi. simpl. unfold slot_get. by rewrite Hd.
Qed.

Lemma find_Some t id d : find t id = Some d → present t d ∧ v_id d = id ∧ id ≠ 0.
Proof.
  unfold find. destruct (find_slot t id) as [i|] eqn:E; [|done]. simpl. intros Hd.
  apply find_slot_Some in E as (Hid & d' & Hd' & <- & _).
  unfold slot_get in Hd. rewrite Hd' in Hd. simpl in Hd. simplify_eq.
  split; [|done]. by eapply list_elem_of_lookup_2.
Qed.

Lemma for_cell_Some t c d : for_cell t c = Some d → present t d ∧ v_owner d = c.
Proof.
  unfold for_cell. destruct (slot_of _ _) as [i|] eqn:E; [|done]. simpl. intros Hd.
  apply slot_of_Some in E as (d' & Hd' & He%uuid_eqb_true).
  unfold slot_get in Hd. rewrite Hd' in Hd. simpl in Hd. simplify_eq.
  split; [|done]. by eapply list_elem_of_lookup_2.
Qed.

(** ** The invariant of the table *)

Definition spec_ok (s : anx_sched_domain_spec) : Prop :=
  cpu_mask s = 1 ∧ 0 < queue_mask s < 64 ∧ 0 ≤ maximum_priority s ≤ ANX_PRIO_CRITICAL.

(** [d] is a child of [p]: one level deeper, within its authority, and revoked
    with it. *)
Record child_of (d p : scheduler_domain) : Prop := {
  ch_parent : v_parent d = v_id p;
  ch_depth : d_depth d = d_depth p + 1;
  ch_subset : subset (v_authority d) (v_authority p) = true;
  ch_revoked : v_revoked p = true → v_revoked d = true;
}.

Record dom_inv (t : domain_table) : Prop := {
  di_seq : 0 ≤ sequence t ≤ MAX64;
  di_id : ∀ d, present t d → 1 ≤ v_id d ≤ sequence t;
  di_uniq : ∀ i j d1 d2, domains t !! i = Some (Some d1) → domains t !! j = Some (Some d2) →
              v_id d1 = v_id d2 → i = j;
  di_spec : ∀ d, present t d → spec_ok (v_authority d);
  di_depth : ∀ d, present t d → 0 ≤ d_depth d < Z.of_nat ANX_SCHED_DOMAIN_DEPTH_MAX;
  di_parent : ∀ d, present t d →
    (v_parent d = 0 ∧ d_depth d = 0) ∨ ∃ p, present t p ∧ child_of d p;
}.

Lemma present_uniq t d1 d2 : dom_inv t → present t d1 → present t d2 → v_id d1 = v_id d2 → d1 = d2.
Proof.
  intros Hi H1 H2 E. apply list_elem_of_lookup in H1 as [i H1], H2 as [j H2].
  pose proof (di_uniq t Hi i j d1 d2 H1 H2 E). congruence.
Qed.

Lemma find_present t d : dom_inv t → present t d → find t (v_id d) = Some d.
Proof.
  intros Hi Hd. pose proof (di_id t Hi d Hd).
  unfold find, find_slot. destruct (Z.eqb_spec (v_id d) 0); [lia|].
  destruct (slot_of _ _) as [i|] eqn:E.
  - destruct (slot_of_Some _ _ _ E) as (d' & Hd' & E'%Z.eqb_eq). simpl.
    unfold slot_get. rewrite Hd'. simpl. f_equal.
    apply (present_uniq t); [done| |done|done]. by eapply list_elem_of_lookup_2.
  - pose proof (slot_of_None _ _ d E Hd) as H'. simpl in H'. lia.
Qed.

Lemma find_parent t d p : dom_inv t → present t p → child_of d p → find t (v_parent d) = Some p.
Proof. intros Hi Hp Hc. rewrite (ch_parent _ _ Hc). by apply find_present. Qed.

(** ** Revocation *)

(** The eight steps of [descendant] reach the root of every domain. *)
Lemma descendant_enough t id n d :
  dom_inv t → present t d → d_depth d < Z.of_nat n →
  descendant_walk (S n) t d id = descendant_walk n t d id.
Proof.
  intros Hi. revert d. induction n as [|n IH]; intros d Hd Hn.
  { pose proof (di_depth t Hi d Hd). lia. }
  change (descendant_walk (S (S n)) t d id) with
    (when v_id d =? id ret true ;;
     match find t (v_parent d) with
     | Some d => descendant_walk (S n) t d id | None => false end).
  change (descendant_walk (S n) t d id) with
    (when v_id d =? id ret true ;;
     match find t (v_parent d) with
     | Some d => descendant_walk n t d id | None => false end).
  destruct (v_id d =? id); [done|].
  destruct (di_parent t Hi d Hd) as [[-> _]|(p & Hp & Hc)]; [done|].
  rewrite (find_parent t d p Hi Hp Hc). apply IH; [done|].
  pose proof (ch_depth _ _ Hc). lia.
Qed.

Lemma descendant_child t id d p :
  dom_inv t → present t d → present t p → child_of d p →
  descendant t d id = (v_id d =? id) || descendant t p id.
Proof.
  intros Hi Hd Hp Hc. unfold descendant.
  rewrite <- (descendant_enough t id _ d Hi Hd) by apply (di_depth t Hi d Hd).
  change (descendant_walk (S ANX_SCHED_DOMAIN_DEPTH_MAX) t d id) with
    (when v_id d =? id ret true ;;
     match find t (v_parent d) with
     | Some d => descendant_walk ANX_SCHED_DOMAIN_DEPTH_MAX t d id | None => false end).
  rewrite (find_parent t d p Hi Hp Hc). by destruct (v_id d =? id).
Qed.

Definition sweep_one (t : domain_table) (id : Z) (d : scheduler_domain) : scheduler_domain :=
  if negb (v_revoked d) && descendant t d id then revoke_one d else d.

Lemma sweep_lookup t id i d' :
  revoke_sweep t id !! i = Some (Some d') ↔
  ∃ d, domains t !! i = Some (Some d) ∧ d' = sweep_one t id d.
Proof.
  unfold revoke_sweep, sweep_one. rewrite list_lookup_fmap.
  destruct (domains t !! i) as [[d|]|]; simpl; [|naive_solver..].
  split.
  - intros H. exists d. split; [done|]. destruct (_ && _); congruence.
  - intros (d0 & [= <-] & ->). by destruct (_ && _).
Qed.

Lemma sweep_present t id d' :
  present (DomainTable (revoke_sweep t id) (sequence t)) d' ↔
  ∃ d, present t d ∧ d' = sweep_one t id d.
Proof.
  unfold present. simpl. setoid_rewrite list_elem_of_lookup.
  setoid_rewrite sweep_lookup. naive_solver.
Qed.

Lemma sweep_one_fields t id d :
  let d' := sweep_one t id d in
  v_id d' = v_id d ∧ v_parent d' = v_parent d ∧ v_authority d' = v_authority d ∧
  d_depth d' = d_depth d ∧ v_owner d' = v_owner d ∧
  v_revoked d' = v_revoked d || descendant t d id.
Proof.
  unfold sweep_one. destruct (v_revoked d) eqn:E, (descendant t d id); cbn; rewrite ?E; done.
Qed.

Lemma dom_inv_revoke t id :
  dom_inv t → dom_inv (DomainTable (revoke_sweep t id) (sequence t)).
Proof.
  intros Hi. constructor; simpl.
  - apply Hi.
  - intros d' (d & Hd & ->)%sweep_present. destruct (sweep_one_fields t id d) as (-> & _).
    by apply (di_id t Hi).
  - intros i j d1' d2' (d1 & H1 & ->)%sweep_lookup (d2 & H2 & ->)%sweep_lookup.
    destruct (sweep_one_fields t id d1) as (-> & _), (sweep_one_fields t id d2) as (-> & _).
    by apply (di_uniq t Hi).
  - intros d' (d & Hd & ->)%sweep_present.
    destruct (sweep_one_fields t id d) as (_ & _ & -> & _). by apply (di_spec t Hi).
  - intros d' (d & Hd & ->)%sweep_present.
    destruct (sweep_one_fields t id d) as (_ & _ & _ & -> & _). by apply (di_depth t Hi).
  - intros d' (d & Hd & ->)%sweep_present.
    destruct (sweep_one_fields t id d) as (? & Hpar & Ha & Hdep & _ & Hrev).
    destruct (di_parent t Hi d Hd) as [[Hp0 Hd0]|(p & Hp & Hc)].
    + left. by rewrite Hpar, Hdep.
    + right. exists (sweep_one t id p). split; [apply sweep_present; by exists p|].
      destruct (sweep_one_fields t id p) as (? & _ & Ha' & Hdep' & _ & Hrev'), Hc.
      constructor; [congruence|congruence|by rewrite Ha, Ha'|].
      rewrite Hrev, Hrev', (descendant_child t id d p); [|done..].
      destruct (v_revoked p), (v_revoked d); simpl; try done; [by discriminate ch_revoked0|].
      intros ->. apply orb_true_r.
Qed.

(** ** Creation and removal *)

Lemma live_not_revoked t st d now : live t st d now = ANX_OK → v_revoked d = false.
Proof. unfold live. simpl. destruct (v_revoked d); done. Qed.

Lemma spec_ok_guard s :
  negb (schema s =? 1) || (cpu_mask s =? 0) || (queue_mask s =? 0)
  || negb (Z.shiftr (queue_mask s) ANX_QUEUE_CLASS_COUNT =? 0)
  || (maximum_priority s <? 0) || (maximum_priority s >? ANX_PRIO_CRITICAL) = false →
  negb (cpu_mask s =? 1) = false → spec_ok s.
Proof.
  intros H1 H2. to_prop. unfold spec_ok. rewrite Z.shiftr_div_pow2 in * by done.
  unfold ANX_QUEUE_CLASS_COUNT in *. change (2 ^ 6) with 64 in *.
  assert (0 ≤ queue_mask s < 64) by (pose proof (Z.div_mod (queue_mask s) 64);
    pose proof (Z.mod_pos_bound (queue_mask s) 64); lia).
  lia.
Qed.

(** What a successful creation has established about the new domain. *)
Record created (t : domain_table) (d : scheduler_domain) : Prop := {
  cr_id : v_id d = sequence t + 1;
  cr_seq : sequence t ≠ MAX64;
  cr_live : v_revoked d = false;
  cr_spec : spec_ok (v_authority d);
  cr_parent : (v_parent d = 0 ∧ d_depth d = 0) ∨
    ∃ p, present t p ∧ child_of d p ∧ d_depth d < Z.of_nat ANX_SCHED_DOMAIN_DEPTH_MAX;
}.

Lemma create_cases fuel current now st t owner parent spec r o t' st' :
  anx_sched_domain_create fuel current now st t owner parent spec = Ret (r, o, t', st') →
  (r ≠ ANX_OK ∧ o = None ∧ t' = t) ∨
  (r = ANX_OK ∧ ∃ i d, o = Some d ∧ free_slot (domains t) = Some i ∧ created t d ∧
     owner = Some (v_owner d) ∧ for_cell t (v_owner d) = None ∧
     t' = DomainTable (<[i := Some d]> (domains t)) (sequence t + 1)).
Proof.
  unfold anx_sched_domain_create. intros H.
  on_guard H G0; [left; by simplify_eq|].
  destruct owner as [owner|]; [|left; by simplify_eq].
  destruct spec as [spec|]; [|left; by simplify_eq].
  on_guard H G1; [left; by simplify_eq|].
  on_guard H G2; [left; by simplify_eq|].
  on_guard H G2'; [left; by simplify_eq|].
  destruct (anx_cell_store_lookup st owner) as [[cell|] st1]; [|left; by simplify_eq].
  destruct (anx_cell_check_scope fuel st1 (Some owner)) as [[r1 st2]| |]; [|discriminate H..].
  cbn [obind] in H. cbv zeta in H.
  match type of H with context [if ?b then ANX_EPERM else r1] =>
    set (r2 := if b then ANX_EPERM else r1) in H end.
  on_guard H G2''; [left; simplify_eq; split; [|done]; to_prop; done|].
  on_guard H G3; [left; by simplify_eq|].
  on_guard H G4; [left; by simplify_eq|].
  on_guard H G5; [left; by simplify_eq|].
  on_guard H G6; [left; simplify_eq; split; [|done]; to_prop; done|].
  on_guard H G7; [left; by simplify_eq|].
  destruct (free_slot (domains t)) as [i|] eqn:G8; [|left; by simplify_eq].
  right. simplify_eq. split; [done|]. eexists i, _. split; [done|]. split; [done|].
  split; [|split; [done|]; split; [by apply bool_decide_eq_false, eq_None_not_Some in G3|done]].
  constructor; simpl; [done|to_prop; done|done|by apply spec_ok_guard|].
  apply orb_false_iff in G5 as [_ G5], G7 as [G7 _]. apply negb_false_iff, Z.eqb_eq in G6.
  destruct (Z.eqb_spec parent 0) as [->|Hpar]; [by left|].
  destruct (find t parent) as [p|] eqn:Hp; [|by rewrite bool_decide_eq_true_2 in G4].
  right. exists p. apply find_Some in Hp as (? & <- & _).
  apply orb_false_iff in G5 as [_ G5]. apply negb_false_iff in G5.
  split; [done|]. split; [|simpl; lia].
  constructor; simpl; [done|done|done|]. rewrite (live_not_revoked _ _ _ _ G6). done.
Qed.

Lemma add_present t i d d' :
  free_slot (domains t) = Some i →
  present (DomainTable (<[i := Some d]> (domains t)) (sequence t + 1)) d' ↔ d' = d ∨ present t d'.
Proof.
  intros Hi%free_slot_Some. unfold present. simpl. setoid_rewrite list_elem_of_lookup. split.
  - intros (j & Hj). destruct (decide (i = j)) as [<-|].
    + rewrite list_lookup_insert_eq in Hj by (by eapply lookup_lt_Some). left. congruence.
    + rewrite list_lookup_insert_ne in Hj by done. right. by exists j.
  - intros [->|(j & Hj)].
    + exists i. apply list_lookup_insert_eq. by eapply lookup_lt_Some.
    + exists j. rewrite list_lookup_insert_ne; [done|]. intros ->. congruence.
Qed.

Lemma dom_inv_create t i d :
  dom_inv t → free_slot (domains t) = Some i → created t d →
  dom_inv (DomainTable (<[i := Some d]> (domains t)) (sequence t + 1)).
Proof.
  intros Hi Hf Hc. pose proof (di_seq t Hi) as Hseq. destruct Hc.
  constructor; simpl.
  - unfold MAX64 in *. lia.
  - intros d' [->|Hd']%add_present; [lia| |done]. pose proof (di_id t Hi d' Hd'). lia.
  - pose proof (free_slot_Some _ _ Hf) as Hi0.
    intros j k d1 d2 H1 H2 E.
    assert (∀ l x, domains t !! l = Some (Some x) → v_id x ≠ v_id d) as Hfresh.
    { intros l x Hx. apply list_elem_of_lookup_2 in Hx. pose proof (di_id t Hi x Hx). lia. }
    apply list_lookup_insert_Some in H1 as [(<- & [= <-] & _)|[? H1]];
      apply list_lookup_insert_Some in H2 as [(<- & [= <-] & _)|[? H2]]; [done|..].
    + exfalso. by apply (Hfresh k d2 H2).
    + exfalso. by apply (Hfresh j d1 H1).
    + by apply (di_uniq t Hi j k d1 d2).
  - intros d' [->|Hd']%add_present; [done| |done]. by apply (di_spec t Hi).
  - intros d' [->|Hd']%add_present; [|by apply (di_depth t Hi)|done].
    destruct cr_parent0 as [[_ ->]|(p & Hp & Hch & ?)]; [done|].
    pose proof (di_depth t Hi p Hp). rewrite (ch_depth _ _ Hch) in *. lia.
  - intros d' [->|Hd']%add_present; [| |done].
    + destruct cr_parent0 as [?|(p & Hp & Hch & _)]; [by left|right].
      exists p. split; [by apply add_present; [|right]|done].
    + destruct (di_parent t Hi d' Hd') as [?|(p & Hp & Hch)]; [by left|right].
      exists p. split; [by apply add_present; [|right]|done].
Qed.

Lemma del_present t i d' s :
  present (DomainTable (<[i := None]> (domains t)) s) d' → present t d'.
Proof.
  unfold present. simpl. setoid_rewrite list_elem_of_lookup. intros (j & Hj). exists j.
  destruct (decide (i = j)) as [<-|]; [|by rewrite list_lookup_insert_ne in Hj].
  by apply list_lookup_insert_Some in Hj as [(_ & ? & _)|[? _]].
Qed.

Lemma del_present_ne t i d d' s :
  domains t !! i = Some (Some d) → present t d' → d' ≠ d →
  present (DomainTable (<[i := None]> (domains t)) s) d'.
Proof.
  unfold present. simpl. setoid_rewrite list_elem_of_lookup. intros Hi (j & Hj) Hne.
  exists j. rewrite list_lookup_insert_ne; [done|]. intros ->. congruence.
Qed.

Lemma dom_inv_destroy t i d :
  dom_inv t → domains t !! i = Some (Some d) → has_child t (v_id d) = false →
  dom_inv (DomainTable (<[i := None]> (domains t)) (sequence t)).
Proof.
  intros Hi Hd Hch. constructor; simpl.
  - apply Hi.
  - intros d' Hd'%del_present. by apply (di_id t Hi).
  - intros j k d1 d2 H1 H2.
    apply list_lookup_insert_Some in H1 as [(_ & ? & _)|[_ H1]]; [done|].
    apply list_lookup_insert_Some in H2 as [(_ & ? & _)|[_ H2]]; [done|].
    by apply (di_uniq t Hi).
  - intros d' Hd'%del_present. by apply (di_spec t Hi).
  - intros d' Hd'%del_present. by apply (di_depth t Hi).
  - intros d' Hd'%del_present.
    destruct (di_parent t Hi d' Hd') as [?|(p & Hp & Hc)]; [by left|right].
    exists p. split; [|done]. eapply del_present_ne; [done|done|]. intros ->.
    apply not_true_iff_false in Hch. apply Hch, existsb_exists.
    exists (Some d'). split; [by apply list_elem_of_In|]. apply Z.eqb_eq, Hc.
Qed.

(** ** All operations *)

(** Every operation with its environment: the calling cell, the clock and the
    cell store as they are at the time of the call. *)
Inductive dom_op :=
  | DomCreate (fuel : nat) (current : option anx_uuid) (now : Z) (st : cell_store)
      (owner : option anx_uuid) (parent : Z) (spec : option anx_sched_domain_spec)
  | DomRevoke (current : option anx_uuid) (id epoch : Z)
  | DomDestroy (current : option anx_uuid) (st : cell_store) (id : Z).

Definition dom_step (t : domain_table) (op : dom_op) : domain_table :=
  match op with
  | DomCreate fuel current now st owner parent spec =>
      match anx_sched_domain_create fuel current now st t owner parent spec with
      | Ret (_, _, t, _) => t
      | _ => t
      end
  | DomRevoke current id epoch => (anx_sched_domain_revoke current t id epoch).2
  | DomDestroy current st id => (anx_sched_domain_destroy current st t id).1.2
  end.

Lemma revoke_cases current t id epoch :
  let '(r, t') := anx_sched_domain_revoke current t id epoch in
  (r ≠ ANX_OK ∧ t' = t) ∨
  (r = ANX_OK ∧ t' = DomainTable (revoke_sweep t id) (sequence t) ∧
   ∃ d, find t id = Some d ∧ v_epoch d = epoch ∧ v_revoked d = false).
Proof.
  unfold anx_sched_domain_revoke. destruct (bool_decide _); [by left|].
  destruct (_ || _); [by left|]. destruct (find t id) as [d|]; [|by left].
  destruct (_ || _) eqn:E; [by left|]. to_prop. right. naive_solver.
Qed.

Lemma destroy_cases current st t id :
  let '(r, t', st') := anx_sched_domain_destroy current st t id in
  (r ≠ ANX_OK ∧ t' = t) ∨
  (r = ANX_OK ∧ ∃ i d, domains t !! i = Some (Some d) ∧ v_id d = id ∧
   has_child t id = false ∧ t' = DomainTable (<[i := None]> (domains t)) (sequence t)).
Proof.
  unfold anx_sched_domain_destroy. destruct (bool_decide _); [by left|].
  destruct (id =? 0); [by left|]. destruct (find_slot t id) as [i|] eqn:E; [|by left].
  apply find_slot_Some in E as (_ & d & Hd & Hid & ->).
  destruct (_ || _); [by left|]. destruct (has_child t id) eqn:Hc; [by left|].
  right. split; [done|]. by exists i, d.
Qed.

Lemma dom_inv_step t op : dom_inv t → dom_inv (dom_step t op).
Proof.
  intros Hi. destruct op as [fuel current now st owner parent spec|current id epoch|current st id];
    simpl.
  - destruct (anx_sched_domain_create _ _ _ _ _ _ _ _) as [[[[r o] t'] st']| |] eqn:E; [|done..].
    apply create_cases in E as [(_ & _ & ->)|(_ & i & d & _ & Hf & Hc & _ & _ & ->)]; [done|].
    by apply dom_inv_create.
  - pose proof (revoke_cases current t id epoch) as H.
    destruct (anx_sched_domain_revoke _ _ _ _) as [r t'].
    destruct H as [[_ ->]|(_ & -> & _)]; [done|by apply dom_inv_revoke].
  - pose proof (destroy_cases current st t id) as H.
    destruct (anx_sched_domain_destroy _ _ _ _) as [[r t'] st'].
    destruct H as [[_ ->]|(_ & i & d & Hd & <- & Hc & ->)]; [done|by apply (dom_inv_destroy t i d)].
Qed.

Lemma dom_inv_init : dom_inv domain_init.
Proof.
  assert (∀ d, ¬ present domain_init d) as Hno.
  { intros d Hd. unfold present, domain_init in Hd. simpl in Hd. set_solver. }
  constructor; try (intros d Hd; by apply Hno in Hd).
  - done.
  - intros i j d1 d2 H1. exfalso. apply (Hno d1). by eapply list_elem_of_lookup_2.
Qed.

Lemma dom_inv_run t ops : dom_inv t → dom_inv (foldl dom_step t ops).
Proof.
  revert t. induction ops as [|op ops IH]; intros t Hi; [done|]. simpl.
  by apply IH, dom_inv_step.
Qed.

(** ** Authority along the ancestors *)

(** One authority within another, queue by queue. *)
Record within (child parent : anx_sched_domain_spec) : Prop := {
  wi_queue : ∀ q, 0 ≤ q → Z.testbit (queue_mask child) q = true →
               Z.testbit (queue_mask parent) q = true;
  wi_priority : maximum_priority child ≤ maximum_priority parent;
  wi_expiry : expires_at parent ≠ 0 → expires_at child ≠ 0 ∧ expires_at child ≤ expires_at parent;
}.

#[export] Instance within_trans : Transitive within.
Proof. intros a b c [] []. constructor; [auto|lia|lia]. Qed.

Lemma testbit_below x n q : 0 ≤ x < 2 ^ n → n ≤ q → Z.testbit x q = false.
Proof.
  intros Hx Hq. destruct (Z.eq_dec x 0) as [->|]; [apply Z.bits_0|].
  apply Z.bits_above_log2; [lia|]. apply Z.log2_lt_pow2; [lia|].
  apply Z.lt_le_trans with (2 ^ n); [lia|]. apply Z.pow_le_mono_r; lia.
Qed.

Lemma subset_within c p : spec_ok c → subset c p = true → within c p.
Proof.
  intros (_ & Hq & _) Hs. unfold subset in Hs. to_prop. constructor; [|lia|lia].
  intros q Hq0 Hb.
  assert (q < 6).
  { destruct (Z.lt_ge_cases q 6); [done|].
    rewrite (testbit_below _ 6) in Hb; [done|change (2 ^ 6) with 64; lia|done]. }
  match goal with H : Z.land (queue_mask c) _ = 0 |- _ =>
    apply (f_equal (λ z, Z.testbit z q)) in H; rename H into Hland end.
  rewrite Z.land_spec, Z.bits_0, Hb in Hland. simpl in Hland.
  unfold not32 in Hland. rewrite Z.lxor_spec in Hland.
  change MAX32 with (Z.ones 32) in Hland. rewrite Z.ones_spec_low in Hland by lia.
  by destruct (Z.testbit (queue_mask p) q).
Qed.

Definition dom_parent (t : domain_table) (d p : scheduler_domain) : Prop :=
  present t d ∧ present t p ∧ v_parent d = v_id p.

Lemma dom_parent_child t d p : dom_inv t → dom_parent t d p → child_of d p.
Proof.
  intros Hi (Hd & Hp & E). destruct (di_parent t Hi d Hd) as [[H0 _]|(p' & Hp' & Hc)].
  - pose proof (di_id t Hi p Hp). lia.
  - assert (p' = p) as <-; [|done]. apply (present_uniq t); [done..|].
    by rewrite <- (ch_parent _ _ Hc).
Qed.

Lemma ancestor_spec t d a :
  dom_inv t → tc (dom_parent t) d a →
  within (v_authority d) (v_authority a) ∧ (v_revoked a = true → v_revoked d = true) ∧
  d_depth a < d_depth d ∧ present t d ∧ present t a.
Proof.
  intros Hi Ht.
  assert (∀ d p, dom_parent t d p →
    within (v_authority d) (v_authority p) ∧ (v_revoked p = true → v_revoked d = true) ∧
    d_depth p < d_depth d ∧ present t d ∧ present t p) as Hone.
  { intros x p Hxp. pose proof (dom_parent_child t x p Hi Hxp) as []. destruct Hxp as (Hx & Hp & _).
    split_and!; [|done|lia|done|done]. apply subset_within; [|done]. by apply (di_spec t Hi). }
  induction Ht as [d a H|d b a H _ (IH1 & IH2 & IH3 & IH4 & IH5)]; [by apply Hone|].
  destruct (Hone d b H) as (H1 & H2 & H3 & H4 & _).
  split_and!; [by etransitivity|auto|lia|done|done].
Qed.

(** C8: Whatever sequence of domain operations is run, by whichever callers,
    every domain stays within each of its ancestors: it allows only queues they
    allow, no higher priority, no later expiry, it is revoked when one of them
    is, and the ancestry is at most [ANX_SCHED_DOMAIN_DEPTH_MAX] deep. *)
Theorem domain_authority_attenuates ops d a :
  let t := foldl dom_step domain_init ops in
  tc (dom_parent t) d a →
  within (v_authority d) (v_authority a) ∧ (v_revoked a = true → v_revoked d = true) ∧
  0 ≤ d_depth a < d_depth d ∧ d_depth d < Z.of_nat ANX_SCHED_DOMAIN_DEPTH_MAX.
Proof.
  intros t Ht. assert (dom_inv t) as Hi by apply dom_inv_run, dom_inv_init.
  destruct (ancestor_spec t d a Hi Ht) as (? & ? & ? & Hd & Ha).
  pose proof (di_depth t Hi a Ha). pose proof (di_depth t Hi d Hd). split_and!; auto; lia.
Qed.

Definition wide_spec : anx_sched_domain_spec := DomainSpec 1 1 63 3 0.
Definition narrow_spec : anx_sched_domain_spec := DomainSpec 1 1 5 1 900.
Definition two_domain_ops : list dom_op :=
  [DomCreate 3 None 10 two_cells (Some (Uuid 0 1)) 0 (Some wide_spec);
   DomCreate 3 None 11 two_cells (Some (Uuid 0 2)) 1 (Some narrow_spec)].
Definition parent_domain : scheduler_domain :=
  SchedulerDomain 1 1 0 (Uuid 0 1) wide_spec false ANX_UUID_NIL 0 0.
Definition child_domain : scheduler_domain :=
  SchedulerDomain 2 1 1 (Uuid 0 2) narrow_spec false (Uuid 0 1) 1 1.

Lemma domain_authority_attenuates_witness : within narrow_spec wide_spec.
Proof.
  apply (domain_authority_attenuates two_domain_ops child_domain parent_domain).
  assert (foldl dom_step domain_init two_domain_ops
          = DomainTable (Some parent_domain :: Some child_domain :: replicate 30 None) 2) as ->
    by (vm_compute; reflexivity).
  apply tc_once. unfold dom_parent, present. simpl. split_and!; [right; left|left|reflexivity].
Defined.

(** ** Revocation is complete and permanent *)

Definition revoked_id (t : domain_table) (id : Z) : Prop :=
  id ≤ sequence t ∧ ∀ d, present t d → v_id d = id → v_revoked d = true.

Lemma revoked_id_step t op id :
  dom_inv t → revoked_id t id → revoked_id (dom_step t op) id.
Proof.
  intros Hi [Hs Hr]. destruct op as [fuel cur now st owner parent spec|cur id' epoch|cur st id'];
    simpl.
  - destruct (anx_sched_domain_create _ _ _ _ _ _ _ _) as [[[[r o] t'] st']| |] eqn:E; [|done..].
    apply create_cases in E as [(_ & _ & ->)|(_ & i & d & _ & Hf & Hc & _ & _ & ->)]; [done|].
    split; [simpl; lia|]. intros d' [->|Hd']%add_present Hid; [|by apply Hr|done].
    rewrite (cr_id _ _ Hc) in Hid. lia.
  - pose proof (revoke_cases cur t id' epoch) as H.
    destruct (anx_sched_domain_revoke _ _ _ _) as [r t'].
    destruct H as [[_ ->]|(_ & -> & _)]; [done|]. split; [done|].
    intros d' (d & Hd & ->)%sweep_present Hid.
    destruct (sweep_one_fields t id' d) as (E & _ & _ & _ & _ & ->). rewrite E in Hid.
    by rewrite (Hr d Hd Hid).
  - pose proof (destroy_cases cur st t id') as H.
    destruct (anx_sched_domain_destroy _ _ _ _) as [[r t'] st'].
    destruct H as [[_ ->]|(_ & i & d & Hd & <- & Hc & ->)]; [done|]. split; [done|].
    intros d' Hd'%del_present. by apply Hr.
Qed.

Lemma revoked_id_run t ops id :
  dom_inv t → revoked_id t id → revoked_id (foldl dom_step t ops) id.
Proof.
  revert t. induction ops as [|op ops IH]; intros t Hi Hr; [done|]. simpl.
  apply IH; [by apply dom_inv_step|by apply revoked_id_step].
Qed.

Lemma live_revoked t st d now : v_revoked d = true → live t st d now = ANX_EPERM.
Proof. unfold live. simpl. by intros ->. Qed.

(** After a successful [anx_sched_domain_revoke] of a domain, that domain
    and everything delegated from it fail the liveness check at any time and
    with any cell store, and still do after any further domain operations. *)
Theorem domain_revoke_permanent ops current id epoch t' more d d' :
  let t := foldl dom_step domain_init ops in
  anx_sched_domain_revoke current t id epoch = (ANX_OK, t') →
  present t d → find t id = Some d' → (d = d' ∨ tc (dom_parent t) d d') →
  ∀ d2 st now, present (foldl dom_step t' more) d2 → v_id d2 = v_id d →
    live (foldl dom_step t' more) st d2 now = ANX_EPERM.
Proof.
  intros t Hrev Hd Hd' Hanc d2 st now Hd2 Hid.
  assert (dom_inv t) as Hi by apply dom_inv_run, dom_inv_init.
  pose proof (revoke_cases current t id epoch) as H. rewrite Hrev in H.
  destruct H as [[? _]|(_ & -> & _)]; [done|].
  set (t1 := DomainTable (revoke_sweep t id) (sequence t)) in *.
  assert (dom_inv t1) as Hi1 by (by apply dom_inv_revoke).
  apply find_Some in Hd' as (Hd' & Hid' & _).
  assert (descendant t d' id = true) as Hself.
  { unfold descendant. simpl. rewrite Hid'. by rewrite Z.eqb_refl. }
  assert (descendant t d id = true) as Hdesc.
  { destruct Hanc as [->|Hanc]; [done|].
    clear Hd2 Hid Hd. induction Hanc as [d d' H|d b d' H _ IH].
    - rewrite (descendant_child t id d d'); [|done|apply H|apply H|by apply (dom_parent_child t)].
      by rewrite Hself, orb_true_r.
    - rewrite (descendant_child t id d b); [|done|apply H|apply H|by apply (dom_parent_child t)].
      rewrite IH by done. apply orb_true_r. }
  apply live_revoked.
  destruct (revoked_id_run t1 more (v_id d) Hi1) as [_ Hr]; [|by apply Hr].
  split; [simpl; by apply (di_id t Hi)|].
  intros x (x0 & Hx0 & ->)%sweep_present Hxid.
  destruct (sweep_one_fields t id x0) as (E & _ & _ & _ & _ & ->). rewrite E in Hxid.
  rewrite (present_uniq t x0 d Hi Hx0 Hd Hxid), Hdesc. apply orb_true_r.
Qed.

Lemma domain_revoke_permanent_witness :
  live (anx_sched_domain_revoke None (foldl dom_step domain_init two_domain_ops) 1 1).2
    two_cells (revoke_one child_domain) 12 = ANX_EPERM.
Proof.
  set (t' := (anx_sched_domain_revoke None (foldl dom_step domain_init two_domain_ops) 1 1).2).
  assert (foldl dom_step domain_init two_domain_ops
          = DomainTable (Some parent_domain :: Some child_domain :: replicate 30 None) 2) as E
    by (vm_compute; reflexivity).
  apply (domain_revoke_permanent two_domain_ops None 1 1 t' [] child_domain parent_domain).
  - vm_compute. reflexivity.
  - rewrite E. right. left.
  - rewrite E. reflexivity.
  - right. rewrite E. apply tc_once. unfold dom_parent, present. simpl.
    split_and!; [right; left|left|reflexivity].
  - apply (list_elem_of_lookup_2 _ 1). vm_compute. reflexivity.
  - reflexivity.
Defined.

(** ** Admission checks *)

(** The walk of [check] with the reference counting left out. *)
Fixpoint chain_check (n : nat) (st : cell_store) (t : domain_table) (current : anx_cell)
    (managed queued : bool) (queue priority now : Z) : Z * bool :=
  let up managed :=
    when anx_uuid_is_nil (parent_cid current) ret (ANX_OK, managed) ;;
    match n with
    | O => (ANX_EPERM, managed)
    | S n =>
        match st !! parent_cid current with
        | None => (ANX_EPERM, managed)
        | Some parent => chain_check n st t parent managed queued queue priority now
        end
    end in
  match for_cell t (cid current) with
  | Some d =>
      let r := live t st d now in
      when negb (r =? ANX_OK) ret (r, true) ;;
      when (Z.land (cpu_mask (v_authority d)) 1 =? 0)
           || (queued && ((Z.land (queue_mask (v_authority d)) (Z.shiftl 1 queue) =? 0)
                          || (priority >? maximum_priority (v_authority d))))
        ret (ANX_EPERM, true) ;;
      up true
  | None => up managed
  end.

(** Parents are nearer to the root than their children. *)
Definition lineage_ok (st : cell_store) : Prop :=
  ∀ c n p, st !! c = Some n → st !! parent_cid n = Some p →
    recursion_depth p < recursion_depth n.

Lemma owner_cell_hold st cellp current d :
  let o := owner_cell (hold st cellp current) d in
  status o = status (owner_cell st d) ∧ parent_cid o = parent_cid (owner_cell st d) ∧
  recursion_depth o = recursion_depth (owner_cell st d).
Proof.
  unfold owner_cell. destruct (st !! v_owner d) as [n|] eqn:E.
  - destruct (hold_lookup st cellp current _ n E) as [-> | ->]; done.
  - by rewrite (hold_None _ _ _ _ E).
Qed.

Lemma live_hold t st cellp current d now :
  live t (hold st cellp current) d now = live t st d now.
Proof.
  unfold live. generalize ANX_SCHED_DOMAIN_DEPTH_MAX. intros n. revert d.
  induction n as [|n IH]; intros d; [done|]. cbn [live_walk].
  destruct (owner_cell_hold st cellp current d) as (-> & -> & ->).
  repeat split_goal; done.
Qed.

(** The step of the walk to the parent, on the store as held. *)
Lemma hold_up st cellp cell cur parent :
  store_ok 2 st → lineage_ok st → st !! cellp = Some cell → st !! cid cur = Some cur →
  (cid cur = cellp ∨ recursion_depth cur < recursion_depth cell) →
  st !! parent_cid cur = Some parent →
  ∃ parent', anx_cell_store_lookup (hold st cellp (cid cur)) (parent_cid cur)
             = (Some parent', bump (parent_cid cur) (hold st cellp (cid cur))) ∧
    parent' = held parent ∧ recursion_depth parent < recursion_depth cell ∧
    release_unless (bump (parent_cid cur) (hold st cellp (cid cur))) cellp (cid cur)
    = hold st cellp (parent_cid cur).
Proof.
  intros Hok Hlin Hcell Hcur Hpos Hp. pose proof (Hlin _ _ _ Hcur Hp) as Hlt.
  assert (recursion_depth cur ≤ recursion_depth cell).
  { destruct Hpos as [E|]; [rewrite E in Hcur; simplify_eq; done|lia]. }
  assert (parent_cid cur ≠ cid cur) by (intros Heq; rewrite Heq in Hp; simplify_eq; lia).
  assert (parent_cid cur ≠ cellp) by (intros Heq; rewrite Heq in Hp; simplify_eq; lia).
  exists (held parent). split_and!; [|done|lia|by apply (hold_step st cellp _ _ cur)].
  apply lookup_bump; [by apply hold_ok|].
  unfold hold. destruct (uuid_eqb_spec (cid cur) cellp); [done|]. by rewrite bump_lookup_ne.
Qed.

Lemma check_walk_chain st t cellp cell n cur cur' managed queued queue priority now :
  store_ok 2 st → lineage_ok st → st !! cellp = Some cell → st !! cid cur = Some cur →
  (cid cur = cellp ∨ recursion_depth cur < recursion_depth cell) →
  (cur' = cur ∨ cur' = held cur) →
  check_walk n (hold st cellp (cid cur)) t cellp cur' managed queued queue priority now
  = (chain_check n st t cur managed queued queue priority now, st).
Proof.
  intros Hok Hlin Hcell. revert cur cur' managed.
  induction n as [|n IH]; intros cur cur' managed Hcur Hpos Hcur';
    assert (release_unless (hold st cellp (cid cur)) cellp (cid cur) = st) as Hrel
       by (by eapply hold_release);
    assert (cid cur' = cid cur ∧ parent_cid cur' = parent_cid cur) as [Ec Ep]
      by (by destruct Hcur' as [-> | ->]);
    cbn [check_walk chain_check]; rewrite Ec, Ep.
  - destruct (for_cell t (cid cur)) as [d|]; rewrite ?live_hold; rewrite Hrel;
      repeat split_goal; done.
  - assert (∀ managed,
      (when anx_uuid_is_nil (parent_cid cur)
         ret (ANX_OK, managed, release_unless (hold st cellp (cid cur)) cellp (cid cur)) ;;
       match anx_cell_store_lookup (hold st cellp (cid cur)) (parent_cid cur) with
       | (None, st1) => (ANX_EPERM, managed, release_unless st1 cellp (cid cur))
       | (Some parent, st1) =>
           check_walk n (release_unless st1 cellp (cid cur)) t cellp parent managed queued
             queue priority now
       end)
      = (when anx_uuid_is_nil (parent_cid cur) ret (ANX_OK, managed) ;;
         match st !! parent_cid cur with
         | None => (ANX_EPERM, managed)
         | Some parent => chain_check n st t parent managed queued queue priority now
         end, st)) as Hup.
    { intros m. destruct (anx_uuid_is_nil (parent_cid cur)); [by rewrite Hrel|].
      destruct (st !! parent_cid cur) as [parent|] eqn:Hp.
      - destruct (hold_up st cellp cell cur parent) as (parent' & -> & -> & Hlt & ->); [done..|].
        destruct (Hok _ _ Hp) as [Hcid _]. rewrite <- Hcid.
        apply IH; [by rewrite Hcid|by right|by right].
      - rewrite lookup_None by (by apply hold_None). by rewrite Hrel. }
    destruct (for_cell t (cid cur)) as [d|]; [|apply Hup].
    rewrite live_hold. destruct (negb _); [by rewrite Hrel|].
    destruct (_ || _); [by rewrite Hrel|]. apply Hup.
Qed.

(** What a domain must allow for a cell to be queued. *)
Definition allows (t : domain_table) (st : cell_store) (now queue priority : Z)
    (d : scheduler_domain) : Prop :=
  live t st d now = ANX_OK ∧ Z.testbit (queue_mask (v_authority d)) queue = true ∧
  priority ≤ maximum_priority (v_authority d).

Lemma mask_bit m q : 0 ≤ q → (Z.land m (Z.shiftl 1 q) =? 0) = false → Z.testbit m q = true.
Proof.
  intros Hq H%Z.eqb_neq. destruct (Z.testbit m q) eqn:E; [done|]. exfalso. apply H.
  apply Z.bits_inj'. intros j Hj. rewrite Z.land_spec, Z.bits_0, Z.shiftl_1_l, Z.pow2_bits_eqb by done.
  destruct (Z.eqb_spec q j) as [<-|]; [by rewrite E|apply andb_false_r].
Qed.

Lemma chain_check_sound n st t cur managed queue priority now m k a d :
  0 ≤ queue → store_ok 2 st → st !! cid cur = Some cur →
  chain_check n st t cur managed true queue priority now = (ANX_OK, m) →
  nsteps (parent_edge st) k (cid cur) a → for_cell t a = Some d →
  allows t st now queue priority d.
Proof.
  intros Hq Hok. revert cur managed k.
  induction n as [|n IH]; intros cur managed k Hcur Hc Hk Hd; cbn [chain_check] in Hc.
  all: destruct Hk as [x|k x y z (nd & Hnd & <- & Hnil) Hk];
    [ rewrite Hd in Hc; on_guard Hc G1; [exfalso; injection Hc as Hc _; rewrite Hc in G1; discriminate G1|];
      on_guard Hc G2; [by simplify_eq|]; simpl in G2; to_prop; unfold allows;
      split_and!; [done|by apply mask_bit, Z.eqb_neq|lia] |].
  all: rewrite Hnd in Hcur; simplify_eq.
  all: assert (anx_uuid_is_nil (parent_cid cur) = false) as Enil
         by (by destruct (uuid_is_nil_spec (parent_cid cur))).
  all: rewrite Enil in Hc.
  - destruct (for_cell t x) as [d'|]; [|discriminate Hc].
    on_guard Hc G1; [exfalso; injection Hc as Hc _; rewrite Hc in G1; discriminate G1|]. on_guard Hc G2; discriminate Hc.
  - assert (∃ parent m', st !! parent_cid cur = Some parent ∧
      chain_check n st t parent m' true queue priority now = (ANX_OK, m))
      as (parent & m' & Hp & Hc').
    { destruct (for_cell t x) as [d'|].
      - on_guard Hc G1; [exfalso; injection Hc as Hc _; rewrite Hc in G1; discriminate G1|]. on_guard Hc G2; [by simplify_eq|].
        destruct (st !! parent_cid cur) as [parent|]; [by eexists _, _|done].
      - destruct (st !! parent_cid cur) as [parent|]; [by eexists _, _|done]. }
    destruct (Hok _ _ Hp) as [Hcid _].
    apply (IH parent m' k); [by rewrite Hcid|done|by rewrite Hcid|done].
Qed.

(** Fuel for the scope walk of any cell of the store. *)
Definition enough_fuel (st : cell_store) (fuel : nat) : Prop :=
  ∀ c n, st !! c = Some n → (Z.to_nat (recursion_depth n) < fuel)%nat.

Record store_wf (st : cell_store) : Prop := {
  wf_ok : store_ok 3 st;
  wf_depths : depths_ok st;
  wf_lineage : lineage_ok st;
}.

Lemma check_queue_spec fuel now st t p cell queue priority :
  store_ok 2 st → depths_ok st → lineage_ok st → enough_fuel st fuel → st !! p = Some cell →
  ∃ r, anx_sched_domain_check_queue fuel now st t (Some p) queue priority = Ret (r, st) ∧
    (r = ANX_OK → ∀ k a d, nsteps (parent_edge st) k p a → for_cell t a = Some d →
       allows t st now queue priority d).
Proof.
  intros Hok Hd Hlin Hfuel Hp. unfold anx_sched_domain_check_queue.
  destruct (_ || _) eqn:G; [eexists; split; [done|discriminate]|]. to_prop.
  destruct (Hok p cell Hp) as [Hcid _].
  unfold check. cbn [mbind option_bind]. rewrite Hp.
  pose proof (check_walk_chain st t p cell (ANX_SCHED_DOMAIN_DEPTH_MAX - 1) cell cell
    false true queue priority now) as E.
  assert (hold st p (cid cell) = st) as Ehold
    by (unfold hold; by rewrite Hcid, uuid_eqb_refl).
  rewrite Ehold in E. rewrite E; [|done|done|done|by rewrite Hcid|by left|by left].
  destruct (chain_check _ _ _ _ _ _ _ _ _) as [r m] eqn:Hc.
  assert (r = ANX_OK → ∀ k a d, nsteps (parent_edge st) k p a → for_cell t a = Some d →
       allows t st now queue priority d) as Hsound.
  { intros -> k a d Hk. eapply (chain_check_sound _ st t cell); [done|done| |done|].
    - by rewrite Hcid.
    - by rewrite Hcid. }
  destruct ((r =? ANX_OK) && m) eqn:Em; [|by exists r].
  to_prop. subst r.
  destruct (scope_walk_spec st p cell fuel p cell) as (r & E' & _); [done..|by left|by eapply Hfuel|].
  exists r. split; [|intros _; by apply Hsound].
  simpl. unfold hold in E'. by rewrite uuid_eqb_refl in E'.
Qed.

(** [anx_sched_domain_check_queue] terminates on every cell of a
    well-formed store, gives back all references it takes, and returns
    [ANX_OK] only if every domain owned by the cell or by one of its ancestors
    is live and allows that queue at that priority. *)
Theorem domain_check_sound fuel now st t p cell queue priority :
  store_wf st → enough_fuel st fuel → st !! p = Some cell →
  ∃ r, anx_sched_domain_check_queue fuel now st t (Some p) queue priority = Ret (r, st) ∧
    (r = ANX_OK → ∀ k a d, nsteps (parent_edge st) k p a → for_cell t a = Some d →
       allows t st now queue priority d).
Proof.
  intros [Hok Hd Hl] Hf Hp. eapply check_queue_spec; try done.
  eapply store_ok_le; [|done]. lia.
Qed.

Lemma two_cells_wf : store_wf two_cells ∧ enough_fuel two_cells 3.
Proof.
  split; [constructor|].
  - refine (two_cells_inv (λ c n, cid n = c ∧ dep_count n ≤ ANX_MAX_CELL_DEPS ∧ 0 ≤ refcount n ∧
             refcount n + 3 ≤ MAX32) _ _); vm_compute; split_and!; congruence.
  - refine (two_cells_inv (λ c n, is_u32 (recursion_depth n) ∧
             is_u32 (exec_max_recursion_depth (policy n))) _ _); vm_compute; split_and!; congruence.
  - intros c n p. revert c n.
    refine (two_cells_inv (λ c n, two_cells !! parent_cid n = Some p →
             recursion_depth p < recursion_depth n) _ _); vm_compute; intros [= <-]; done.
  - refine (two_cells_inv (λ c n, (Z.to_nat (recursion_depth n) < 3)%nat) _ _); vm_compute; lia.
Qed.

Lemma domain_check_sound_witness :
  ∃ r, anx_sched_domain_check_queue 3 12 two_cells (foldl dom_step domain_init two_domain_ops)
         (Some (Uuid 0 2)) 2 1 = Ret (r, two_cells) ∧
    (r = ANX_OK → allows (foldl dom_step domain_init two_domain_ops) two_cells 12 2 1 parent_domain).
Proof.
  destruct two_cells_wf as [Hwf Hf].
  destruct (domain_check_sound 3 12 two_cells (foldl dom_step domain_init two_domain_ops)
              (Uuid 0 2) child_cell 2 1 Hwf Hf eq_refl) as (r & E & H).
  exists r. split; [exact E|]. intros Hr. apply (H Hr 1%nat (Uuid 0 1)).
  - eapply nsteps_once. exists child_cell. split; [reflexivity|]. split; [reflexivity|discriminate].
  - vm_compute. reflexivity.
Defined.
