(* ===== verification/Sched.v ===== *)
(** * The scheduler: [kernel/core/sched/scheduler.c], [sched.h]

    Six queues, each a list of entries with the highest priority first.
    [anx_continuation_group_check] ([kernel/core/sched/continuation_group.c])
    is a parameter: a code for the cell and the store it is asked about. *)

From S2P Require Import Prelude Uuid Cell CellScope SchedDomain.
From Stdlib Require Import Sorting.Sorted.

Record anx_sched_entry := SchedEntry {
  cell_id : anx_uuid;
  e_queue : Z;
  e_priority : Z;
  enqueued_at : Z;
}.

Record sched_queue := SchedQueue { head : list anx_sched_entry; depth : Z }.

Record sched_state := SchedState { queues : list sched_queue; initialized : bool }.

Definition empty_queue : sched_queue := SchedQueue [] 0.

(** The statically zeroed scheduler, before [anx_sched_init]. *)
Definition sched_boot : sched_state :=
  SchedState (replicate (Z.to_nat ANX_QUEUE_CLASS_COUNT) empty_queue) false.

Definition anx_sched_init (current : option anx_uuid) (s : sched_state) : sched_state :=
  when bool_decide (is_Some current) ret s ;;
  SchedState ((λ _, empty_queue) <$> queues s) true.

(** The insertion loop: before the first entry of lower priority. *)
Fixpoint insert_entry (e : anx_sched_entry) (l : list anx_sched_entry) : list anx_sched_entry :=
  match l with
  | [] => [e]
  | existing :: rest =>
      if e_priority existing <? e_priority e then e :: l
      else existing :: insert_entry e rest
  end.

Definition get_queue (s : sched_state) (q : Z) : sched_queue := rd empty_queue (queues s) q.

Definition set_queue (s : sched_state) (q : Z) (x : sched_queue) : sched_state :=
  SchedState (wr (queues s) q x) (initialized s).

Section sched.
Context (anx_continuation_group_check : cell_store → anx_cell → Z).

(** The admission test before an entry is made. *)
Definition enqueue_allowed (fuel : nat) (now : Z) (st : cell_store) (t : domain_table)
    (c : anx_uuid) (queue priority : Z) : outcome (Z * cell_store) :=
  match anx_cell_store_lookup st c with
  | (None, st) => Ret (ANX_OK, st)
  | (Some cell, st) =>
      let! (allowed, st) :=
        if anx_cell_status_terminal (status cell) then Ret (ANX_EPERM, st)
        else anx_sched_domain_check_queue fuel now st t (Some c) queue priority in
      let allowed := if allowed =? ANX_OK then anx_continuation_group_check st cell
                     else allowed in
      Ret (allowed, anx_cell_store_release st c)
  end.

(** [alloc] says whether [anx_zalloc] succeeds. *)
Definition anx_sched_enqueue (fuel : nat) (current : option anx_uuid) (alloc : bool) (now : Z)
    (st : cell_store) (t : domain_table) (s : sched_state)
    (cellp : option anx_uuid) (queue priority : Z) : outcome (Z * sched_state * cell_store) :=
  match cellp with
  | None => Ret (ANX_EINVAL, s, st)
  | Some c =>
      when (queue <? 0) || (queue >=? ANX_QUEUE_CLASS_COUNT) ret Ret (ANX_EINVAL, s, st) ;;
      when (priority <? 0) || (priority >? ANX_PRIO_CRITICAL) ret Ret (ANX_EINVAL, s, st) ;;
      let! (allowed, st) := enqueue_allowed fuel now st t c queue priority in
      when negb (allowed =? ANX_OK) ret Ret (allowed, s, st) ;;
      when negb (initialized s) && bool_decide (is_Some current) ret Ret (ANX_EPERM, s, st) ;;
      let s := if initialized s then s else anx_sched_init current s in
      when negb alloc ret Ret (ANX_ENOMEM, s, st) ;;
      let e := SchedEntry c queue priority now in
      let q := get_queue s queue in
      Ret (ANX_OK, set_queue s queue (SchedQueue (insert_entry e (head q)) (u32 (depth q + 1))), st)
  end.

(** The admission test of one dequeued entry. *)
Definition entry_allowed (fuel : nat) (now : Z) (st : cell_store) (t : domain_table)
    (queue : Z) (e : anx_sched_entry) : outcome (Z * cell_store) :=
  match anx_cell_store_lookup st (cell_id e) with
  | (None, st) => Ret (ANX_OK, st)
  | (Some cell, st) =>
      let! (allowed, st) :=
        anx_sched_domain_check_queue fuel now st t (Some (cell_id e)) queue (e_priority e) in
      let allowed := if allowed =? ANX_OK then anx_continuation_group_check st cell else allowed in
      let allowed := if anx_cell_status_terminal (status cell) then ANX_EPERM else allowed in
      Ret (allowed, anx_cell_store_release st (cell_id e))
  end.

(** The [while] loop: pop entries until one is allowed. *)
Fixpoint dequeue_loop (fuel : nat) (now : Z) (st : cell_store) (t : domain_table)
    (queue : Z) (l : list anx_sched_entry) (dep : Z)
    : outcome (Z * option anx_uuid * list anx_sched_entry * Z * cell_store) :=
  match l with
  | [] => Ret (ANX_ENOENT, None, [], dep, st)
  | e :: l =>
      let dep := u32 (dep - 1) in
      let! (allowed, st) := entry_allowed fuel now st t queue e in
      if allowed =? ANX_OK then Ret (ANX_OK, Some (cell_id e), l, dep, st)
      else dequeue_loop fuel now st t queue l dep
  end.

Definition anx_sched_dequeue (fuel : nat) (now : Z) (st : cell_store) (t : domain_table)
    (s : sched_state) (queue : Z) : outcome (Z * option anx_uuid * sched_state * cell_store) :=
  when (queue <? 0) || (queue >=? ANX_QUEUE_CLASS_COUNT) ret Ret (ANX_EINVAL, None, s, st) ;;
  when negb (initialized s) ret Ret (ANX_ENOENT, None, s, st) ;;
  let q := get_queue s queue in
  let! (r, out, l, dep, st) := dequeue_loop fuel now st t queue (head q) (depth q) in
  Ret (r, out, set_queue s queue (SchedQueue l dep), st).
End sched.

Definition anx_sched_queue_depth (s : sched_state) (queue : Z) : Z :=
  when (queue <? 0) || (queue >=? ANX_QUEUE_CLASS_COUNT) ret 0 ;;
  depth (get_queue s queue).

(** One queue of the cancel loop, and whether something was removed. *)
Fixpoint cancel_entries (c : anx_uuid) (l : list anx_sched_entry) (dep : Z) (removed : bool)
    : list anx_sched_entry * Z * bool :=
  match l with
  | [] => ([], dep, removed)
  | e :: l =>
      if uuid_eqb (cell_id e) c then cancel_entries c l (u32 (dep - 1)) true
      else let '(l', dep, removed) := cancel_entries c l dep removed in (e :: l', dep, removed)
  end.

Fixpoint cancel_queues (c : anx_uuid) (qs : list sched_queue) (removed : bool)
    : list sched_queue * bool :=
  match qs with
  | [] => ([], removed)
  | q :: qs =>
      let '(l, dep, removed) := cancel_entries c (head q) (depth q) removed in
      let '(qs, removed) := cancel_queues c qs removed in
      (SchedQueue l dep :: qs, removed)
  end.

Definition anx_sched_cancel (s : sched_state) (cellp : option anx_uuid) : Z * sched_state :=
  match cellp with
  | None => (ANX_EINVAL, s)
  | Some c =>
      when negb (initialized s) ret (ANX_ENOENT, s) ;;
      let '(qs, removed) := cancel_queues c (queues s) false in
      (if removed then ANX_OK else ANX_ENOENT, SchedState qs (initialized s))
  end.

(** ** The queue invariant *)

Definition prio_ge (a b : anx_sched_entry) : Prop := e_priority b ≤ e_priority a.

Record queue_ok (q : sched_queue) : Prop := {
  qo_sorted : StronglySorted prio_ge (head q);
  qo_depth : depth q = u32 (Z.of_nat (length (head q)));
}.

Record sched_ok (s : sched_state) : Prop := {
  so_length : length (queues s) = Z.to_nat ANX_QUEUE_CLASS_COUNT;
  so_queues : ∀ q, 0 ≤ q < ANX_QUEUE_CLASS_COUNT → queue_ok (get_queue s q);
  so_boot : initialized s = false → ∀ q, 0 ≤ q < ANX_QUEUE_CLASS_COUNT → get_queue s q = empty_queue;
}.

(** The entries of one priority, in the order they will be served. *)
Definition fifo (p : Z) (l : list anx_sched_entry) : list anx_sched_entry :=
  filter (λ e, e_priority e = p) l.

Lemma insert_entry_perm e l : insert_entry e l ≡ₚ e :: l.
Proof.
  induction l as [|x l IH]; simpl; [done|]. destruct (_ <? _); [done|].
  rewrite IH. apply Permutation_swap.
Qed.

Lemma insert_entry_sorted e l :
  StronglySorted prio_ge l → StronglySorted prio_ge (insert_entry e l).
Proof.
  induction 1 as [|x l Hl IH Hx]; simpl; [repeat constructor|].
  destruct (Z.ltb_spec (e_priority x) (e_priority e)) as [Hlt|Hge].
  - constructor; [by constructor|]. constructor; [unfold prio_ge; lia|].
    eapply Forall_impl; [done|]. unfold prio_ge. simpl. intros; lia.
  - constructor; [done|]. rewrite insert_entry_perm. constructor; [done|done].
Qed.

(** A new entry is served after all those of its priority that wait already;
    the order of the others does not change. *)
Lemma insert_entry_fifo e l p :
  StronglySorted prio_ge l →
  fifo p (insert_entry e l) = fifo p l ++ (if decide (e_priority e = p) then [e] else []).
Proof.
  unfold fifo. induction 1 as [|x l Hl IH Hx]; simpl.
  { rewrite filter_cons. by destruct (decide _). }
  destruct (Z.ltb_spec (e_priority x) (e_priority e)) as [Hlt|Hge].
  - rewrite (filter_cons _ e). destruct (decide (e_priority e = p)) as [<-|]; [|by rewrite app_nil_r].
    enough (filter (λ e', e_priority e' = e_priority e) (x :: l) = []) as -> by done.

    rewrite filter_cons_False by lia. clear IH Hl.
    induction Hx as [|y l Hy _ IH]; [done|]. rewrite filter_cons_False; [done|].
    unfold prio_ge in Hy. lia.
  - rewrite !filter_cons. rewrite IH. by destruct (decide (e_priority x = p)).
Qed.

Lemma get_set_eq s q x :
  sched_ok s → 0 ≤ q < ANX_QUEUE_CLASS_COUNT → get_queue (set_queue s q x) q = x.
Proof. intros Hs Hq. apply rd_wr_eq. rewrite (so_length s Hs). lia. Qed.

Lemma get_set_ne s q q' x :
  0 ≤ q → 0 ≤ q' → q ≠ q' → get_queue (set_queue s q x) q' = get_queue s q'.
Proof. intros. by apply rd_wr_ne. Qed.

Lemma sched_ok_set s q x :
  sched_ok s → initialized s = true → 0 ≤ q < ANX_QUEUE_CLASS_COUNT → queue_ok x →
  sched_ok (set_queue s q x).
Proof.
  intros Hs Hi Hq Hx. constructor.
  - simpl. rewrite wr_length. apply Hs.
  - intros q' Hq'. destruct (Z.eq_dec q q') as [<-|].
    + by rewrite get_set_eq.
    + rewrite get_set_ne by lia. by apply (so_queues s Hs).
  - simpl. congruence.
Qed.

Lemma get_init s q : get_queue (anx_sched_init None s) q = empty_queue.
Proof.
  unfold get_queue, rd, anx_sched_init. simpl.
  rewrite nth_lookup, list_lookup_fmap. by destruct (_ !! _).
Qed.

Lemma queue_ok_empty : queue_ok empty_queue.
Proof. by repeat constructor. Qed.

Lemma sched_ok_init s : sched_ok s → sched_ok (anx_sched_init None s).
Proof.
  intros Hs. constructor.
  - simpl. rewrite length_fmap. apply Hs.
  - intros q _. rewrite get_init. apply queue_ok_empty.
  - done.
Qed.

(** ** Admission, on well-formed stores *)

Lemma bump_inv c st x n' :
  bump c st !! x = Some n' → ∃ n, st !! x = Some n ∧ (n' = n ∨ n' = held n).
Proof.
  unfold bump. destruct (decide (c = x)) as [<-|].
  - rewrite lookup_alter_eq. intros (n & Hn & ->)%fmap_Some. exists n. auto.
  - rewrite lookup_alter_ne by done. eauto.
Qed.

Lemma bump_wf c st fuel :
  store_wf st → enough_fuel st fuel →
  store_ok 2 (bump c st) ∧ depths_ok (bump c st) ∧ lineage_ok (bump c st) ∧
  enough_fuel (bump c st) fuel.
Proof.
  intros [Hok Hd Hl] Hf. split_and!.
  - apply store_ok_bump; [done|lia].
  - intros x n' (n & Hn & [-> | ->])%bump_inv; by apply (Hd x n).
  - intros x n' p' (n & Hn & Hn')%bump_inv Hp'.
    assert (parent_cid n' = parent_cid n ∧ recursion_depth n' = recursion_depth n) as [E1 E2]
      by (by destruct Hn' as [-> | ->]).
    rewrite E1 in Hp'. apply bump_inv in Hp' as (p & Hp & Hp').
    rewrite E2. pose proof (Hl x n p Hn Hp). by destruct Hp' as [-> | ->].
  - intros x n' (n & Hn & [-> | ->])%bump_inv; by apply (Hf x n).
Qed.

Section sched_theorems.
Context (cg_check : cell_store → anx_cell → Z).
Context (fuel : nat) (st : cell_store) (t : domain_table).
Hypothesis (Hwf : store_wf st) (Hfuel : enough_fuel st fuel).

(** The checks terminate and give the references back. *)
Lemma held_check c n now queue priority :
  st !! c = Some n →
  ∃ r, anx_sched_domain_check_queue fuel now (bump c st) t (Some c) queue priority
       = Ret (r, bump c st).
Proof.
  intros Hn. destruct (bump_wf c st fuel Hwf Hfuel) as (H1 & H2 & H3 & H4).
  destruct (check_queue_spec fuel now (bump c st) t c (held n) queue priority)
    as (r & -> & _); [done..|by apply bump_lookup_eq|]. by exists r.
Qed.

Lemma wf_lookup c n :
  st !! c = Some n →
  anx_cell_store_lookup st c = (Some (held n), bump c st) ∧
  anx_cell_store_release (bump c st) c = st.
Proof.
  intros Hn. split.
  - apply lookup_bump; [|done]. eapply store_ok_le; [|apply Hwf]. lia.
  - eapply release_bump; [done|]. apply (wf_ok st Hwf c n Hn).
Qed.

Lemma entry_allowed_total now queue e :
  ∃ r, entry_allowed cg_check fuel now st t queue e = Ret (r, st).
Proof.
  unfold entry_allowed. destruct (st !! cell_id e) as [n|] eqn:Hn.
  - destruct (wf_lookup _ _ Hn) as [-> Hrel].
    destruct (held_check _ _ now queue (e_priority e) Hn) as (r & ->). cbn [obind].
    rewrite Hrel. by eexists.
  - rewrite lookup_None by done. by eexists.
Qed.

(** An entry the scheduler hands out: its cell is gone from the store, or is
    neither terminal nor refused by its domains or continuation group. *)
Definition admissible (now queue : Z) (e : anx_sched_entry) : Prop :=
  entry_allowed cg_check fuel now st t queue e = Ret (ANX_OK, st).

Lemma admissible_not_terminal now queue e n :
  admissible now queue e → st !! cell_id e = Some n →
  anx_cell_status_terminal (status n) = false.
Proof.
  unfold admissible, entry_allowed. intros H Hn.
  destruct (wf_lookup _ _ Hn) as [E Hrel]. rewrite E in H.
  destruct (held_check _ _ now queue (e_priority e) Hn) as (r & Er). rewrite Er in H.
  cbn [obind] in H. destruct (anx_cell_status_terminal (status n)) eqn:Et; [|done].
  change (status (held n)) with (status n) in H. rewrite Et in H. discriminate H.
Qed.

Lemma dequeue_loop_spec now queue l dep :
  dep = u32 (Z.of_nat (length l)) →
  ∃ r o l' dep', dequeue_loop cg_check fuel now st t queue l dep = Ret (r, o, l', dep', st) ∧
    dep' = u32 (Z.of_nat (length l')) ∧
    ((r = ANX_OK ∧ ∃ dropped e, l = dropped ++ e :: l' ∧ o = Some (cell_id e) ∧
        admissible now queue e ∧ Forall (λ x, ¬ admissible now queue x) dropped) ∨
     (r = ANX_ENOENT ∧ o = None ∧ l' = [] ∧ Forall (λ x, ¬ admissible now queue x) l)).
Proof.
  revert dep. induction l as [|e l IH]; intros dep Hdep; cbn [dequeue_loop].
  { exists ANX_ENOENT, None, [], dep. split_and!; [done|done|]. right. by repeat constructor. }
  assert (u32 (dep - 1) = u32 (Z.of_nat (length l))) as Hdep'.
  { subst dep. unfold u32. rewrite Zminus_mod_idemp_l. f_equal. simpl. lia. }
  destruct (entry_allowed_total now queue e) as (r & E). rewrite E. cbn [obind].
  destruct (Z.eqb_spec r ANX_OK) as [->|Hr].
  - exists ANX_OK, (Some (cell_id e)), l, (u32 (dep - 1)). split_and!; [done|done|].
    left. split; [done|]. exists [], e. split_and!; [done|done|exact E|constructor].
  - assert (¬ admissible now queue e) by (unfold admissible; rewrite E; congruence).
    destruct (IH _ Hdep') as (r' & o & l' & dep' & -> & Hd & [(-> & dr & e' & -> & Ho & Ha & Hf)|(-> & -> & -> & Hf)]).
    + exists ANX_OK, o, l', dep'. split_and!; [done|done|]. left. split; [done|].
      exists (e :: dr), e'. split_and!; [done|done|done|by constructor].
    + exists ANX_ENOENT, None, [], dep'. split_and!; [done|done|]. right.
      split_and!; [done|done|done|by constructor].
Qed.
End sched_theorems.

(** ** Enqueue *)

Lemma enqueue_admission cg_check fuel st t c queue priority now :
  store_wf st → enough_fuel st fuel →
  ∃ r, enqueue_allowed cg_check fuel now st t c queue priority = Ret (r, st) ∧
    (r = ANX_OK → ∀ n, st !! c = Some n → anx_cell_status_terminal (status n) = false).
Proof.
  intros Hwf Hf. unfold enqueue_allowed. destruct (st !! c) as [n|] eqn:Hn.
  - destruct (wf_lookup st Hwf c n Hn) as [-> Hrel].
    change (status (held n)) with (status n).
    destruct (anx_cell_status_terminal (status n)) eqn:Ht.
    + cbn [obind]. rewrite Hrel. eexists. split; [done|]. discriminate.
    + destruct (held_check fuel st t Hwf Hf c n now queue priority Hn) as (r & ->). cbn [obind].
      rewrite Hrel. eexists. split; [done|]. intros _ n' [= <-]. done.
  - rewrite lookup_None by done. eexists. split; [done|]. done.
Qed.

(** [anx_sched_enqueue] terminates, keeps every queue sorted by priority
    with its exact depth, and gives back the reference it takes.  When it
    succeeds the cell is not terminal, its entry is last among those of its
    priority in that queue (first come, first served), and nothing else has
    moved; when it fails no queue has changed. *)
Theorem sched_enqueue_fifo cg_check fuel current alloc now st t s c queue priority :
  store_wf st → enough_fuel st fuel → sched_ok s →
  ∃ r s', anx_sched_enqueue cg_check fuel current alloc now st t s (Some c) queue priority
          = Ret (r, s', st) ∧ sched_ok s' ∧
    (r = ANX_OK →
       0 ≤ queue < ANX_QUEUE_CLASS_COUNT ∧
       (∀ n, st !! c = Some n → anx_cell_status_terminal (status n) = false) ∧
       ∀ q p, 0 ≤ q < ANX_QUEUE_CLASS_COUNT →
         fifo p (head (get_queue s' q)) =
         fifo p (head (get_queue s q)) ++
           (if decide (q = queue ∧ priority = p) then [SchedEntry c queue priority now] else [])) ∧
    (r ≠ ANX_OK → ∀ q, 0 ≤ q < ANX_QUEUE_CLASS_COUNT → get_queue s' q = get_queue s q).
Proof.
  intros Hwf Hf Hs. unfold anx_sched_enqueue.
  destruct (_ || _) eqn:G1; [by exists ANX_EINVAL, s|].
  destruct ((priority <? 0) || _) eqn:G2; [by exists ANX_EINVAL, s|]. to_prop.
  destruct (enqueue_admission cg_check fuel st t c queue priority now Hwf Hf) as (r & -> & Hr).
  cbn [obind]. destruct (Z.eqb_spec r ANX_OK) as [->|Hne]; simpl; [|by exists r, s].
  destruct (negb (initialized s) && _) eqn:G3; [by exists ANX_EPERM, s|].
  set (s1 := if initialized s then s else anx_sched_init current s).
  assert (sched_ok s1 ∧ initialized s1 = true ∧
          ∀ q, 0 ≤ q < ANX_QUEUE_CLASS_COUNT → get_queue s1 q = get_queue s q) as (Hs1 & Hi1 & Hq1).
  { unfold s1. destruct (initialized s) eqn:Hi; [done|]. simpl in G3.
    destruct current; [done|]. split_and!; [by apply sched_ok_init|done|].
    intros q Hq. by rewrite get_init, (so_boot s Hs Hi). }
  destruct alloc; simpl; [|by exists ANX_ENOMEM, s1].
  assert (0 ≤ queue < ANX_QUEUE_CLASS_COUNT) as Hq by lia.
  pose proof (so_queues s1 Hs1 queue Hq) as [Hsort Hdep].
  eexists ANX_OK, _. split; [done|]. split; [|split; [intros _|done]].
  - apply sched_ok_set; [done..|]. constructor; simpl; [by apply insert_entry_sorted|].
    rewrite insert_entry_perm, Hdep. unfold u32. rewrite Zplus_mod_idemp_l. f_equal. simpl. lia.
  - split_and!; [lia|lia|by apply Hr|]. intros q p Hq'.
    destruct (Z.eq_dec queue q) as [<-|Hne].
    + rewrite get_set_eq by done. simpl. rewrite insert_entry_fifo, Hq1 by done. simpl.
      f_equal. repeat case_decide; naive_solver.
    + rewrite get_set_ne, Hq1 by lia. case_decide; [naive_solver|by rewrite app_nil_r].
Qed.

Lemma sched_ok_boot : sched_ok sched_boot.
Proof.
  assert (∀ q, get_queue sched_boot q = empty_queue) as H.
  { intros q. unfold get_queue, rd. rewrite nth_lookup.
    destruct (queues sched_boot !! Z.to_nat q) as [x|] eqn:E; [|done].
    change (queues sched_boot) with (replicate (Z.to_nat ANX_QUEUE_CLASS_COUNT) empty_queue) in E.
    by apply lookup_replicate in E as [-> _]. }
  constructor; [done| |done]. intros q _. rewrite H. apply queue_ok_empty.
Qed.

Lemma sched_enqueue_fifo_witness :
  ∃ r s', anx_sched_enqueue (λ _ _, ANX_OK) 3 None true 7 two_cells domain_init sched_boot
            (Some (Uuid 0 2)) 2 1 = Ret (r, s', two_cells) ∧ r = ANX_OK ∧
    fifo 1 (head (get_queue s' 2)) = [SchedEntry (Uuid 0 2) 2 1 7].
Proof.
  destruct two_cells_wf as [Hwf Hf].
  destruct (sched_enqueue_fifo (λ _ _, ANX_OK) 3 None true 7 two_cells domain_init sched_boot
              (Uuid 0 2) 2 1 Hwf Hf sched_ok_boot) as (r & s' & E & _ & H & _).
  exists r, s'. split; [exact E|].
  assert (r = ANX_OK) as ->. { vm_compute in E. injection E as Er _. by rewrite <- Er. }
  split; [done|]. destruct (H eq_refl) as (_ & _ & H'). rewrite (H' 2 1) by done. reflexivity.
Defined.

(** ** Dequeue *)

Lemma sorted_suffix_le l1 e l2 :
  StronglySorted prio_ge (l1 ++ e :: l2) →
  StronglySorted prio_ge l2 ∧ Forall (λ x, e_priority x ≤ e_priority e) l2.
Proof.
  induction l1 as [|x l1 IH]; simpl; intros H; apply StronglySorted_inv in H as [H1 H2]; auto.
Qed.

(** [anx_sched_dequeue] terminates and hands out the first admissible entry
    of the queue: the entries before it, which its domains, continuation group
    or terminal status refuse, are dropped, and none that stays behind has a
    higher priority.  It answers [ANX_ENOENT] only when no entry of the queue is
    admissible.  A cell it hands out is not terminal. *)
Theorem sched_dequeue_highest cg_check fuel now st t s queue :
  store_wf st → enough_fuel st fuel → sched_ok s → initialized s = true →
  0 ≤ queue < ANX_QUEUE_CLASS_COUNT →
  ∃ r o s', anx_sched_dequeue cg_check fuel now st t s queue = Ret (r, o, s', st) ∧ sched_ok s' ∧
    (∀ q, 0 ≤ q < ANX_QUEUE_CLASS_COUNT → q ≠ queue → get_queue s' q = get_queue s q) ∧
    ((r = ANX_OK ∧ ∃ dropped e,
        head (get_queue s queue) = dropped ++ e :: head (get_queue s' queue) ∧
        o = Some (cell_id e) ∧
        Forall (λ x, e_priority x ≤ e_priority e) (head (get_queue s' queue)) ∧
        (∀ n, st !! cell_id e = Some n → anx_cell_status_terminal (status n) = false) ∧
        Forall (λ x, ¬ admissible cg_check fuel st t now queue x) dropped) ∨
     (r = ANX_ENOENT ∧ o = None ∧ head (get_queue s' queue) = [] ∧
        Forall (λ x, ¬ admissible cg_check fuel st t now queue x) (head (get_queue s queue)))).
Proof.
  intros Hwf Hf Hs Hi Hq. unfold anx_sched_dequeue.
  destruct (_ || _) eqn:G1; [lia|]. rewrite Hi. simpl.
  destruct (so_queues s Hs queue Hq) as [Hsort Hdep].
  destruct (dequeue_loop_spec cg_check fuel st t Hwf Hf now queue _ _ Hdep)
    as (r & o & l' & dep' & -> & Hdep' & Hcase). cbn [obind].
  exists r, o, (set_queue s queue (SchedQueue l' dep')). split; [done|].
  rewrite get_set_eq by done. simpl.
  assert (StronglySorted prio_ge l') as Hsort'.
  { destruct Hcase as [(_ & dr & e & E & _)|(_ & _ & -> & _)]; [|constructor].
    rewrite E in Hsort. by apply sorted_suffix_le in Hsort as [? _]. }
  split_and!; [by apply sched_ok_set|intros q ? ?; apply get_set_ne; lia|].
  destruct Hcase as [(-> & dr & e & E & -> & Ha & Hd)|(-> & -> & -> & Hd)]; [left|by right].
  split; [done|]. exists dr, e. split_and!; [done|done| | |done].
  2:{ intros n. by apply (admissible_not_terminal cg_check fuel st t Hwf Hf now queue e). }
  rewrite E in Hsort. by apply sorted_suffix_le in Hsort as [_ ?].
Qed.

Definition one_queued : sched_state :=
  set_queue (anx_sched_init None sched_boot) 2
    (SchedQueue [SchedEntry (Uuid 0 9) 2 3 5; SchedEntry (Uuid 0 2) 2 1 4] 2).

Lemma one_queued_ok : sched_ok one_queued.
Proof.
  apply sched_ok_set; [apply sched_ok_init, sched_ok_boot|done|done|].
  constructor; [|done]. repeat constructor; unfold prio_ge; simpl; lia.
Qed.

Lemma sched_dequeue_highest_witness :
  ∃ r o s', anx_sched_dequeue (λ _ _, ANX_OK) 3 8 two_cells domain_init one_queued 2
            = Ret (r, o, s', two_cells) ∧ o = Some (Uuid 0 9) ∧ sched_ok s'.
Proof.
  destruct two_cells_wf as [Hwf Hf].
  destruct (sched_dequeue_highest (λ _ _, ANX_OK) 3 8 two_cells domain_init one_queued 2
              Hwf Hf one_queued_ok) as (r & o & s' & E & Hs & _); [reflexivity|done|].
  exists r, o, s'. split; [exact E|]. split; [|done].
  vm_compute in E. injection E as _ Eo _. by rewrite <- Eo.
Defined.

(** ** Cancel *)

Lemma cancel_entries_spec c l dep removed :
  dep = u32 (Z.of_nat (length l)) →
  ∃ dep', cancel_entries c l dep removed
          = (filter (λ e, cell_id e ≠ c) l, dep', removed || existsb (λ e, uuid_eqb (cell_id e) c) l) ∧
    dep' = u32 (Z.of_nat (length (filter (λ e, cell_id e ≠ c) l))).
Proof.
  assert (∀ l (x k : Z), x = u32 (k + Z.of_nat (length l)) → ∀ removed, ∃ dep',
     cancel_entries c l x removed
     = (filter (λ e, cell_id e ≠ c) l, dep', removed || existsb (λ e, uuid_eqb (cell_id e) c) l) ∧
     dep' = u32 (k + Z.of_nat (length (filter (λ e, cell_id e ≠ c) l)))) as Hgen.
  { clear. intros l. induction l as [|e l IH]; intros x k Hx removed; simpl.
    { exists x. by rewrite orb_false_r. }
    rewrite filter_cons. destruct (uuid_eqb_spec (cell_id e) c) as [Heq|Hne].
    - destruct (IH (u32 (x - 1)) k) with (removed := true) as (dep' & -> & ->).
      { subst x. unfold u32. rewrite Zminus_mod_idemp_l. f_equal. simpl. lia. }
      destruct (decide _); [done|]. eexists. by rewrite orb_true_r.
    - destruct (IH x (k + 1)) with (removed := removed) as (dep' & -> & ->).
      { subst x. f_equal. simpl. lia. }
      destruct (decide _) as [_|?]; [|by exfalso]. eexists. split; [done|]. f_equal. simpl. lia. }
  intros ->. exact (Hgen l _ 0 eq_refl removed).
Qed.

Lemma sorted_filter l (P : anx_sched_entry → Prop) `{!∀ x, Decision (P x)} :
  StronglySorted prio_ge l → StronglySorted prio_ge (filter P l).
Proof.
  induction 1 as [|x l Hl IH Hx]; [constructor|]. rewrite filter_cons.
  destruct (decide (P x)); [|done]. constructor; [done|].
  apply Forall_forall. intros y [_ Hy]%list_elem_of_filter. rewrite Forall_forall in Hx. by apply Hx.
Qed.

Lemma cancel_queues_spec c qs removed :
  Forall queue_ok qs →
  ∃ qs', cancel_queues c qs removed
         = (qs', removed || existsb (λ q, existsb (λ e, uuid_eqb (cell_id e) c) (head q)) qs) ∧
    Forall queue_ok qs' ∧
    head <$> qs' = (λ q, filter (λ e, cell_id e ≠ c) (head q)) <$> qs.
Proof.
  intros Hqs. revert removed. induction Hqs as [|q qs [Hs Hd] _ IH]; intros removed; simpl.
  { exists []. by rewrite orb_false_r. }
  destruct (cancel_entries_spec c (head q) (depth q) removed Hd) as (dep' & -> & Hdep').
  destruct (IH (removed || existsb (λ e, uuid_eqb (cell_id e) c) (head q)))
    as (qs' & -> & Hok & Hhead).
  eexists. rewrite <- orb_assoc. split; [done|]. split.
  - constructor; [|done]. constructor; [by apply sorted_filter|done].
  - simpl. by f_equal.
Qed.

Lemma queues_Forall s : sched_ok s → Forall queue_ok (queues s).
Proof.
  intros Hs. apply Forall_lookup. intros i q Hi.
  pose proof (lookup_lt_Some _ _ _ Hi) as Hlt. rewrite (so_length s Hs) in Hlt.
  assert (get_queue s (Z.of_nat i) = q) as <-.
  { unfold get_queue, rd. by rewrite Nat2Z.id, nth_lookup, Hi. }
  apply (so_queues s Hs). lia.
Qed.

Lemma queue_entries s c q :
  sched_ok s → 0 ≤ q < ANX_QUEUE_CLASS_COUNT →
  (∃ e, e ∈ head (get_queue s q) ∧ cell_id e = c) →
  existsb (λ q, existsb (λ e, uuid_eqb (cell_id e) c) (head q)) (queues s) = true.
Proof.
  intros Hs Hq (e & He & <-). apply existsb_exists. exists (get_queue s q). split.
  - apply list_elem_of_In, (list_elem_of_lookup_2 _ (Z.to_nat q)).
    unfold get_queue, rd.
    destruct (queues s !! Z.to_nat q) as [x|] eqn:E; [by rewrite nth_lookup, E|].
    apply lookup_ge_None in E. rewrite (so_length s Hs) in E. lia.
  - apply existsb_exists. exists e. split; [by apply list_elem_of_In|apply uuid_eqb_refl].
Qed.

Lemma cancel_spec s c :
  sched_ok s →
  let '(r, s') := anx_sched_cancel s (Some c) in
  sched_ok s' ∧
  (∀ q, 0 ≤ q < ANX_QUEUE_CLASS_COUNT →
     head (get_queue s' q) = filter (λ e, cell_id e ≠ c) (head (get_queue s q))) ∧
  (r = ANX_OK ↔ ∃ q e, 0 ≤ q < ANX_QUEUE_CLASS_COUNT ∧ e ∈ head (get_queue s q) ∧ cell_id e = c).
Proof.
  intros Hs. unfold anx_sched_cancel. destruct (initialized s) eqn:Hi; simpl.
  2:{ split; [done|]. split.
      - intros q Hq. by rewrite (so_boot s Hs Hi q Hq).
      - split; [done|]. intros (q & e & Hq & He & _).
        rewrite (so_boot s Hs Hi q Hq) in He. by apply not_elem_of_nil in He. }
  destruct (cancel_queues_spec c (queues s) false (queues_Forall s Hs)) as (qs' & -> & Hok & Hh).
  set (s' := SchedState qs' true).
  assert (∀ q, head (get_queue s' q) = filter (λ e, cell_id e ≠ c) (head (get_queue s q))) as Hhead.
  { intros q. apply (f_equal (.!! Z.to_nat q)) in Hh. rewrite !list_lookup_fmap in Hh.
    unfold get_queue, rd. simpl. rewrite !nth_lookup.
    destruct (qs' !! _), (queues s !! _); simpl in *; first [done | congruence]. }
  split; [constructor|split; [by intros; apply Hhead|]].
  - simpl. apply (f_equal length) in Hh. rewrite !length_fmap in Hh. rewrite Hh. apply Hs.
  - intros q Hq. unfold get_queue, rd. rewrite nth_lookup. simpl.
    destruct (qs' !! Z.to_nat q) as [x|] eqn:E; simpl; [|apply queue_ok_empty].
    rewrite Forall_lookup in Hok. by eapply Hok.
  - done.
  - simpl. split.
    + destruct (existsb _ _) eqn:E; [|done]. intros _.
      apply existsb_exists in E as (q & Hq & (e & He & Hc%uuid_eqb_true)%existsb_exists).
      apply list_elem_of_In, list_elem_of_lookup in Hq as (i & Hq).
      pose proof (lookup_lt_Some _ _ _ Hq) as Hlt. rewrite (so_length s Hs) in Hlt.
      exists (Z.of_nat i), e. split; [lia|]. split; [|done].
      unfold get_queue, rd. rewrite Nat2Z.id, nth_lookup, Hq. by apply list_elem_of_In.
    + intros (q & e & Hq & He). rewrite (queue_entries s c q); [done|done|done|]. by exists e.
Qed.

(** [anx_sched_cancel] removes every entry of the cell from every queue and
    no other entry, keeps order, priorities and depths, and returns [ANX_OK]
    exactly when the cell was queued somewhere. *)
Theorem sched_cancel_exact s c :
  sched_ok s →
  let '(r, s') := anx_sched_cancel s (Some c) in
  sched_ok s' ∧
  (∀ q, 0 ≤ q < ANX_QUEUE_CLASS_COUNT →
     head (get_queue s' q) = filter (λ e, cell_id e ≠ c) (head (get_queue s q))) ∧
  (r = ANX_OK ↔ ∃ q e, 0 ≤ q < ANX_QUEUE_CLASS_COUNT ∧ e ∈ head (get_queue s q) ∧ cell_id e = c).
Proof. apply cancel_spec. Qed.

Lemma sched_cancel_exact_witness :
  head (get_queue (anx_sched_cancel one_queued (Some (Uuid 0 9))).2 2) = [SchedEntry (Uuid 0 2) 2 1 4].
Proof.
  pose proof (sched_cancel_exact one_queued (Uuid 0 9) one_queued_ok) as H.
  destruct (anx_sched_cancel one_queued (Some (Uuid 0 9))) as [r s'].
  destruct H as (_ & H & _). simpl. rewrite H by done. reflexivity.
Defined.
