(* ===== verification/CellStore.v ===== *)
(** * The cell registry: [kernel/core/exec/cell_store.c]

    Creation, destruction and reaping of cells.  Destroying a cell also takes
    it out of its parent's child list and out of the scheduler's queues, so the
    state is the cell store with the scheduler. *)

From S2P Require Import Prelude Uuid Cell CellScope SchedDomain Sched.

(** [anx_strlcpy(dst, src, size)] on strings without their terminators. *)
Definition anx_strlcpy (src : list Z) (size : nat) : list Z := firstn (size - 1) src.

(** The fields [anx_cell_create] writes over the zeroed allocation. *)
Definition new_cell (c : anx_uuid) (type : anx_cell_type) (it : anx_cell_intent) (now : Z)
    : anx_cell :=
  zero_cell c
    <| cell_type := type |> <| status := ANX_CELL_CREATED |>
    <| intent := CellIntent (anx_strlcpy (name it) 128) (anx_strlcpy (objective it) 512)
                   (priority it) |>
    <| constraints ::= λ k, k <| max_child_cells := ANX_MAX_CHILD_CELLS |>
                              <| max_recursion_depth := 4 |> |>
    <| policy := CellPolicy ANX_ROUTE_DIRECT ANX_DECOMP_NONE ANX_VALIDATE_SCHEMA_ONLY
                   true true false true false false false false false 4 1 100 |>
    <| created_at := now |> <| refcount := 1 |>.

(** [alloc]: whether [anx_zalloc] succeeds; [fresh]: the id
    [anx_uuid_generate] returns. *)
Definition anx_cell_create (alloc : bool) (fresh : anx_uuid) (now : Z) (st : cell_store)
    (type : Z) (intentp : option anx_cell_intent) : Z * option anx_uuid * cell_store :=
  match intentp with
  | None => (ANX_EINVAL, None, st)
  | Some it =>
      match cell_type_of_int type with
      | None => (ANX_EINVAL, None, st)
      | Some type =>
          when negb alloc ret (ANX_ENOMEM, None, st) ;;
          (ANX_OK, Some fresh, <[fresh := new_cell fresh type it now]> st)
      end
  end.

(** The removal loop: the first matching entry, the rest shifted down. *)
Fixpoint remove_first (c : anx_uuid) (l : list anx_uuid) : list anx_uuid :=
  match l with
  | [] => []
  | x :: l => if uuid_eqb x c then l else x :: remove_first c l
  end.

Definition unlink_child (c : anx_uuid) (parent : anx_cell) : anx_cell :=
  parent <| child_cids ::= remove_first c |>.

Definition anx_cell_destroy (st : cell_store) (s : sched_state) (cellp : option anx_uuid)
    : Z * cell_store * sched_state :=
  match cellp, cellp ≫= (st !!.) with
  | Some p, Some cell =>
      when (refcount cell >? 1) || negb (child_count cell =? 0) || runtime_active cell
           || negb (memory_admission_count cell =? 0)
        ret (ANX_EBUSY, st, s) ;;
      let st :=
        if anx_uuid_is_nil (parent_cid cell) then st
        else match anx_cell_store_lookup st (parent_cid cell) with
             | (None, st) => st
             | (Some _, st) =>
                 anx_cell_store_release (alter (unlink_child (cid cell)) (parent_cid cell) st)
                   (parent_cid cell)
             end in
      let s := (anx_sched_cancel s (Some (cid cell))).2 in
      (ANX_OK, delete p st, s)
  | _, _ => (ANX_EINVAL, st, s)
  end.

(** One turn of the reaping loop. *)
Definition reap_one (parent : anx_uuid) (acc : Z * cell_store * sched_state) (c : anx_uuid)
    : Z * cell_store * sched_state :=
  let '(reaped, st, s) := acc in
  match anx_cell_store_lookup st c with
  | (None, st) => (reaped, st, s)
  | (Some child, st) =>
      let eligible := below_model_server (cell_type child)
                      && anx_cell_status_terminal (status child)
                      && uuid_eqb (parent_cid child) parent in
      let st := anx_cell_store_release st c in
      if eligible then
        let '(r, st, s) := anx_cell_destroy st s (Some c) in
        (if r =? ANX_OK then reaped + 1 else reaped, st, s)
      else (reaped, st, s)
  end.

Definition anx_cell_reap_children (st : cell_store) (s : sched_state)
    (parentp : option anx_uuid) : Z * Z * cell_store * sched_state :=
  match parentp ≫= (st !!.) with
  | None => (ANX_EINVAL, 0, st, s)
  | Some parent =>
      when child_count parent >? ANX_MAX_CHILD_CELLS ret (ANX_EINVAL, 0, st, s) ;;
      let '(reaped, st, s) := foldl (reap_one (cid parent)) (0, st, s) (child_cids parent) in
      (ANX_OK, reaped, st, s)
  end.

(** ** Creation *)

(** [anx_cell_create] stores, under the generated id, a cell in status
    [CREATED] with one reference, no parent, children or dependencies, the
    default ceilings and the intent cut to its buffers, and touches no other
    cell; on any error the store is unchanged.  The new cell passes the scope
    check and is ready to run. *)
Theorem cell_create_exact alloc fresh now st type it r o st' :
  st !! fresh = None →
  anx_cell_create alloc fresh now st type (Some it) = (r, o, st') →
  (r = ANX_OK ↔ 0 ≤ type < 24 ∧ alloc = true) ∧
  (r ≠ ANX_OK → st' = st ∧ o = None) ∧
  (r = ANX_OK → ∃ c, o = Some fresh ∧ st' = <[fresh := c]> st ∧
     cid c = fresh ∧ status c = ANX_CELL_CREATED ∧ refcount c = 1 ∧
     (length (name (intent c)) ≤ 127)%nat ∧ (length (objective (intent c)) ≤ 511)%nat ∧
     anx_cell_check_contract (Some c) = ANX_OK ∧
     anx_cell_check_scope 1 st' (Some fresh) = Ret (ANX_OK, st') ∧
     anx_cell_deps_satisfied st' (Some fresh) = (1, st')).
Proof.
  intros Hfresh H. unfold anx_cell_create in H.
  assert (cell_type_of_int type = None ↔ ¬ (0 ≤ type < 24)) as Htype.
  { unfold cell_type_of_int. destruct (Z.ltb_spec type 0); [split; [lia|done]|].
    rewrite lookup_ge_None. simpl. lia. }
  destruct (cell_type_of_int type) as [ty|].
  2:{ simplify_eq. split_and!; [split; [done|intros [? _]; exfalso; by apply Htype]|done|done]. }
  assert (0 ≤ type < 24). { destruct (decide (0 ≤ type < 24)); [done|]. by apply Htype in n. }
  destruct alloc; simpl in H; [|simplify_eq; split_and!; [naive_solver|done|done]].
  simplify_eq. split_and!; [done|done|]. intros _. eexists. split_and!; try done.
  - cbn. unfold anx_strlcpy. rewrite length_firstn. lia.
  - cbn. unfold anx_strlcpy. rewrite length_firstn. lia.
  - cbn [anx_cell_check_scope scope_walk]. rewrite lookup_insert_eq. cbn.
    unfold release_unless. by rewrite uuid_eqb_refl.
  - unfold anx_cell_deps_satisfied. cbn [mbind option_bind]. by rewrite lookup_insert_eq.
Qed.

Lemma cell_create_exact_witness :
  ∃ c, <[Uuid 0 5 := c]> ∅ = (anx_cell_create true (Uuid 0 5) 9 ∅ 3 (Some (CellIntent [65] [] 2))).2 ∧
       refcount c = 1.
Proof.
  destruct (cell_create_exact true (Uuid 0 5) 9 ∅ 3 (CellIntent [65] [] 2)
    ANX_OK (Some (Uuid 0 5)) (anx_cell_create true (Uuid 0 5) 9 ∅ 3 (Some (CellIntent [65] [] 2))).2)
    as (_ & _ & H); [reflexivity|reflexivity|].
  destruct (H eq_refl) as (c & _ & E & _ & _ & Hr & _). by exists c.
Defined.

(** ** Destruction *)

Lemma release_alter_bump f c st n :
  st !! c = Some n → 0 ≤ refcount n →
  (∀ m, f (held m) = held (f m)) → (∀ m, refcount (f m) = refcount m) →
  anx_cell_store_release (alter f c (bump c st)) c = alter f c st.
Proof.
  intros Hn Hr Hf Hf'.
  assert (alter f c (bump c st) = bump c (alter f c st)) as ->.
  { apply map_eq. intros i. unfold bump.
    destruct (decide (c = i)) as [<-|]; [|by rewrite !lookup_alter_ne].
    rewrite !lookup_alter_eq, Hn. simpl. by rewrite Hf. }
  apply (release_bump _ _ (f n)); [by rewrite lookup_alter_eq, Hn|by rewrite Hf'].
Qed.

(** May the cell be destroyed: nobody else refers to it. *)
Definition destroyable (cell : anx_cell) : Prop :=
  refcount cell ≤ 1 ∧ child_cids cell = [] ∧ runtime_active cell = false ∧
  memory_admission_count cell = 0.


(** The store without [p], and without [p] in its parent's child list. *)
Definition removed (st : cell_store) (p : anx_uuid) (cell : anx_cell) : cell_store :=
  delete p (if anx_uuid_is_nil (parent_cid cell) then st
            else alter (unlink_child p) (parent_cid cell) st).

Lemma destroy_spec st s p cell :
  store_ok 1 st → st !! p = Some cell →
  ∃ r, anx_cell_destroy st s (Some p)
       = (r, if r =? ANX_OK then removed st p cell else st,
          if r =? ANX_OK then (anx_sched_cancel s (Some p)).2 else s) ∧
    (r = ANX_OK ↔ destroyable cell) ∧ (r = ANX_OK ∨ r = ANX_EBUSY).
Proof.
  intros Hok Hp. destruct (Hok p cell Hp) as (Hcid & _).
  unfold anx_cell_destroy. cbn [mbind option_bind]. rewrite Hp, Hcid.
  destruct (_ || _) eqn:G.
  { exists ANX_EBUSY. split_and!; [done| |by right]. split; [done|].
    intros (H1 & H2 & H3 & H4). unfold child_count in G. rewrite H2, H3, H4 in G. simpl in G. lia. }
  exists ANX_OK. split_and!; [|split; [intros _|done]|by left].
  - simpl. unfold removed. destruct (anx_uuid_is_nil (parent_cid cell)); [done|].
    destruct (st !! parent_cid cell) as [parent|] eqn:Hpar.
    + rewrite (lookup_bump st _ parent) by done.
      rewrite (release_alter_bump _ _ _ parent); [done|done| |done|done].
      apply (Hok _ _ Hpar).
    + rewrite lookup_None by done. do 3 f_equal. symmetry.
      apply map_eq. intros i. destruct (decide (parent_cid cell = i)) as [<-|];
        [by rewrite lookup_alter_eq, Hpar|by rewrite lookup_alter_ne].
  - to_prop. unfold destroyable, child_count in *. split_and!; [lia| |done|done].
    by destruct (child_cids cell).
Qed.

Lemma removed_lookup st p cell i :
  i ≠ p →
  removed st p cell !! i
  = (if decide (i = parent_cid cell ∧ parent_cid cell ≠ ANX_UUID_NIL) then unlink_child p <$> st !! i
     else st !! i).
Proof.
  intros Hi. unfold removed. rewrite lookup_delete_ne by done.
  destruct (uuid_is_nil_spec (parent_cid cell)) as [Hn|Hn]; case_decide; [naive_solver|done| |].
  - destruct H as [-> _]. by rewrite lookup_alter_eq.
  - rewrite lookup_alter_ne; [done|naive_solver].
Qed.

(** [anx_cell_destroy] succeeds exactly on a cell that nothing but its
    creator refers to, that has no children, is not running and holds no memory
    admission.  Then the cell is gone from the store and from every scheduler
    queue, the first entry for it in its parent's child list is removed, and
    no other cell has changed, reference counts included.  Otherwise nothing
    changes. *)
Theorem cell_destroy_exact st s p cell :
  store_ok 1 st → sched_ok s → st !! p = Some cell →
  ∃ r st' s', anx_cell_destroy st s (Some p) = (r, st', s') ∧
    (r = ANX_OK ↔ destroyable cell) ∧
    (r ≠ ANX_OK → st' = st ∧ s' = s) ∧
    (r = ANX_OK →
       st' !! p = None ∧ sched_ok s' ∧
       (∀ q e, 0 ≤ q < ANX_QUEUE_CLASS_COUNT → e ∈ head (get_queue s' q) →
          cell_id e ≠ p ∧ e ∈ head (get_queue s q)) ∧
       (∀ i, i ≠ p → i ≠ parent_cid cell → st' !! i = st !! i) ∧
       (∀ parent, parent_cid cell ≠ ANX_UUID_NIL → parent_cid cell ≠ p →
          st !! parent_cid cell = Some parent →
          st' !! parent_cid cell = Some (unlink_child p parent))).
Proof.
  intros Hok Hs Hp. destruct (destroy_spec st s p cell Hok Hp) as (r & -> & Hr & _).
  eexists r, _, _. split; [done|]. split; [done|].
  destruct (Z.eqb_spec r ANX_OK) as [->|]; [|done]. split; [done|]. intros _.
  pose proof (cancel_spec s p Hs) as Hc. destruct (anx_sched_cancel s (Some p)) as [r' s'].
  destruct Hc as (Hs' & Hq & _). simpl. split_and!; [|done| | |].
  - unfold removed. by rewrite lookup_delete_eq.
  - intros q e Hqr He. rewrite Hq in He by done. by apply list_elem_of_filter in He.
  - intros i Hi Hi'. rewrite removed_lookup by done. case_decide; naive_solver.
  - intros parent Hn Hne Hpar. rewrite removed_lookup by done. rewrite decide_True by done.
    by rewrite Hpar.
Qed.

Lemma cell_destroy_exact_witness :
  ∃ r st' s', anx_cell_destroy two_cells one_queued (Some (Uuid 0 2)) = (r, st', s') ∧
    r = ANX_OK ∧ st' !! Uuid 0 2 = None ∧
    st' !! Uuid 0 1 = Some (unlink_child (Uuid 0 2) root_cell).
Proof.
  destruct two_cells_wf as [Hwf _].
  destruct (cell_destroy_exact two_cells one_queued (Uuid 0 2) child_cell)
    as (r & st' & s' & E & Hr & _ & H);
    [eapply store_ok_le; [|apply (wf_ok _ Hwf)]; lia|apply one_queued_ok|reflexivity|].
  assert (r = ANX_OK) as -> by (apply Hr; vm_compute; split_and!; congruence).
  exists ANX_OK, st', s'. split; [exact E|]. split; [done|].
  destruct (H eq_refl) as (H1 & _ & _ & _ & H2). split; [exact H1|].
  apply (H2 root_cell); [discriminate|discriminate|reflexivity].
Defined.

(** ** Reaping *)

Lemma removed_ok k st p cell : store_ok k st → store_ok k (removed st p cell).
Proof.
  intros Hok i n Hi. destruct (decide (i = p)) as [->|Hne].
  { unfold removed in Hi. by rewrite lookup_delete_eq in Hi. }
  rewrite removed_lookup in Hi by done. case_decide; [|by apply Hok].
  apply fmap_Some in Hi as (m & Hm & ->). apply (Hok i m Hm).
Qed.

(** What reaping may do to a store: drop terminal task children of [parent],
    and take entries out of child lists. *)
Record reaps_to (parent : anx_uuid) (st st' : cell_store) : Prop := {
  rt_kept : ∀ i n', st' !! i = Some n' →
    ∃ n, st !! i = Some n ∧ n' = n <| child_cids := child_cids n' |> ∧
         child_cids n' ⊆+ child_cids n;
  rt_gone : ∀ i n, st !! i = Some n → st' !! i = None →
    parent_cid n = parent ∧ anx_cell_status_terminal (status n) = true ∧
    below_model_server (cell_type n) = true ∧ refcount n ≤ 1;
}.

Lemma remove_first_sub c l : remove_first c l ⊆+ l.
Proof.
  induction l as [|x l IH]; simpl; [done|]. destruct (uuid_eqb x c).
  - by apply submseteq_cons.
  - by apply submseteq_skip.
Qed.

Lemma reaps_to_refl parent st : reaps_to parent st st.
Proof. constructor; [|congruence]. intros i n Hn. exists n. by destruct n. Qed.

Lemma reaps_to_trans parent st1 st2 st3 :
  reaps_to parent st1 st2 → reaps_to parent st2 st3 → reaps_to parent st1 st3.
Proof.
  intros [K1 G1] [K2 G2]. constructor.
  - intros i n3 (n2 & Hn2 & E2 & S2)%K2. destruct (K1 i n2 Hn2) as (n1 & Hn1 & E1 & S1).
    exists n1. split_and!; [done| |by etransitivity]. rewrite E2, E1. by destruct n1.
  - intros i n1 Hn1 H3. destruct (st2 !! i) as [n2|] eqn:H2; [|by apply (G1 i)].
    destruct (K1 i n2 H2) as (n1' & Hn1' & E1 & _). simplify_eq.
    pose proof (G2 i n2 H2 H3) as Hg. rewrite E1 in Hg. exact Hg.
Qed.

Lemma reaps_to_removed parent st p cell :
  st !! p = Some cell → destroyable cell → parent_cid cell = parent →
  anx_cell_status_terminal (status cell) = true → below_model_server (cell_type cell) = true →
  reaps_to parent st (removed st p cell).
Proof.
  intros Hp Hd Hpar Ht Hb. constructor.
  - intros i n' Hi. destruct (decide (i = p)) as [->|Hne].
    { unfold removed in Hi. by rewrite lookup_delete_eq in Hi. }
    rewrite removed_lookup in Hi by done. case_decide.
    + apply fmap_Some in Hi as (n & Hn & ->). exists n. split_and!; [done|by destruct n|].
      apply remove_first_sub.
    + exists n'. by destruct n'.
  - intros i n Hn Hi. destruct (decide (i = p)) as [->|Hne].
    + simplify_eq. destruct Hd as [? _]. done.
    + rewrite removed_lookup in Hi by done. case_decide; [|congruence].
      rewrite Hn in Hi. done.
Qed.

Lemma reap_one_spec parent k st s c :
  store_ok 1 st → sched_ok s →
  ∃ b st' s', reap_one parent (k, st, s) c = (k + (if b : bool then 1 else 0), st', s') ∧
    store_ok 1 st' ∧ sched_ok s' ∧ reaps_to parent st st' ∧
    Z.of_nat (size st') = Z.of_nat (size st) - (if b then 1 else 0).
Proof.
  intros Hok Hs. unfold reap_one. destruct (st !! c) as [n|] eqn:Hn.
  2:{ rewrite lookup_None by done. exists false, st, s. rewrite Z.add_0_r, Z.sub_0_r.
      split_and!; auto using reaps_to_refl. }
  rewrite (lookup_bump st c n Hok Hn), (release_bump st c n Hn) by apply (Hok c n Hn).
  change (cell_type (held n)) with (cell_type n). change (status (held n)) with (status n).
  change (parent_cid (held n)) with (parent_cid n).
  destruct (_ && _) eqn:G.
  2:{ exists false, st, s. rewrite Z.add_0_r, Z.sub_0_r. split_and!; auto using reaps_to_refl. }
  apply andb_true_iff in G as [[G1 G2]%andb_true_iff G3%uuid_eqb_true].
  destruct (destroy_spec st s c n Hok Hn) as (r & -> & Hr & _).
  destruct (Z.eqb_spec r ANX_OK) as [E|].
  - exists true, (removed st c n), (anx_sched_cancel s (Some c)).2.
    pose proof (cancel_spec s c Hs) as Hc. destruct (anx_sched_cancel s (Some c)).
    split_and!; [done|by apply removed_ok|apply Hc|apply reaps_to_removed; by try apply Hr|].
    unfold removed.
    set (st1 := if anx_uuid_is_nil (parent_cid n) then st else _).
    assert (dom st1 = dom st) as Hdom by (unfold st1; destruct (anx_uuid_is_nil _); [done|apply dom_alter_L]).
    assert (is_Some (st1 !! c)) as [x Hx].
    { apply elem_of_dom. rewrite Hdom. apply elem_of_dom. by exists n. }
    rewrite map_size_delete, Hx. simpl. rewrite <- !(size_dom (D := gset anx_uuid)), Hdom.
    assert (size (dom st) ≠ 0%nat). 
    { rewrite size_dom. apply map_size_non_empty_iff. intros ->. done. }
    lia.
  - exists false, st, s. rewrite Z.add_0_r, Z.sub_0_r. split_and!; auto using reaps_to_refl.
Qed.

(** [anx_cell_reap_children] destroys only direct children of the given
    cell that are task cells in a terminal status with no reference but their
    creator's; everything else is left as it was except that the destroyed
    children leave child lists.  The number it reports is the number of cells
    that have gone. *)
Theorem reap_children_safe st s p parent r reaped st' s' :
  store_ok 1 st → sched_ok s → st !! p = Some parent →
  anx_cell_reap_children st s (Some p) = (r, reaped, st', s') →
  store_ok 1 st' ∧ sched_ok s' ∧ reaps_to p st st' ∧
  Z.of_nat (size st') = Z.of_nat (size st) - reaped ∧
  (r = ANX_OK ↔ child_count parent ≤ ANX_MAX_CHILD_CELLS).
Proof.
  intros Hok Hs Hp. destruct (Hok p parent Hp) as (Hcid & _).
  unfold anx_cell_reap_children. cbn [mbind option_bind]. rewrite Hp, Hcid.
  destruct (_ >? _) eqn:G; to_prop.
  { intros [= <- <- <- <-]. rewrite Z.sub_0_r. split_and!; auto using reaps_to_refl. by split; [|lia]. }
  assert (∀ l k st s, store_ok 1 st → sched_ok s →
    let '(k', st', s') := foldl (reap_one p) (k, st, s) l in
    store_ok 1 st' ∧ sched_ok s' ∧ reaps_to p st st' ∧
    Z.of_nat (size st') = Z.of_nat (size st) - (k' - k)) as Hloop.
  { clear. induction l as [|c l IH]; intros k st s Hok Hs.
    { simpl. split_and!; auto using reaps_to_refl. lia. }
    cbn [foldl]. destruct (reap_one_spec p k st s c Hok Hs) as (b & st1 & s1 & -> & Hok1 & Hs1 & Hr1 & Hsz).
    specialize (IH (k + (if b then 1 else 0)) st1 s1 Hok1 Hs1).
    destruct (foldl _ _ _) as [[k' st'] s']. destruct IH as (? & ? & Hr2 & ?).
    split_and!; [done|done|by eapply reaps_to_trans|lia]. }
  specialize (Hloop (child_cids parent) 0 st s Hok Hs).
  destruct (foldl _ _ _) as [[k' st1] s1]. intros [= <- <- <- <-].
  destruct Hloop as (? & ? & ? & ?). split_and!; [done|done|done|lia|]. split; [lia|done].
Qed.

Definition finished_child : cell_store :=
  <[Uuid 0 2 := child_cell <| status := ANX_CELL_COMPLETED |>]> two_cells.

Lemma reap_children_safe_witness :
  ∃ st', (anx_cell_reap_children finished_child one_queued (Some (Uuid 0 1))).1.2 = st' ∧
    st' !! Uuid 0 2 = None ∧ reaps_to (Uuid 0 1) finished_child st'.
Proof.
  destruct (anx_cell_reap_children finished_child one_queued (Some (Uuid 0 1)))
    as [[[r reaped] st'] s'] eqn:E.
  exists st'. split; [reflexivity|]. split.
  - replace st' with (anx_cell_reap_children finished_child one_queued (Some (Uuid 0 1))).1.2
      by (by rewrite E). vm_compute. reflexivity.
  - apply (reap_children_safe finished_child one_queued (Uuid 0 1) root_cell r reaped st' s');
      [|apply one_queued_ok|reflexivity|exact E].
    intros c n H. unfold finished_child in H. apply lookup_insert_Some in H as [[<- <-]|[_ H]].
    + vm_compute. split_and!; congruence.
    + revert c n H. eapply store_ok_le; [|apply (wf_ok _ (proj1 two_cells_wf))]. lia.
Defined.
