(* ===== verification/EffectFence.v ===== *)
(** * Effect fences: [kernel/core/cap/effect_fence.c], [kernel/include/anx/effect_fence.h]

    A run fence gates the external effects of every cell bound to it.  The
    table [fences[0 .. fence_count-1]] is a list; the clock ([arch_time_now]),
    the running cell ([anx_cell_current_id]) and the generated id are
    arguments.  A cell pointer is its key in the cell store. *)

From S2P Require Import Prelude Uuid Cell Sched CellStore.

Definition ANX_EFFECT_FENCE_MAX : Z := 256.
Definition ANX_EXECUTION_CHILDREN_MAX : Z := 1024.

Definition ANX_FENCE_RUNNING : Z := 0.
Definition ANX_FENCE_HELD : Z := 1.
Definition ANX_FENCE_REJECTED : Z := 2.
Definition ANX_FENCE_CANCELLED : Z := 3.
Definition ANX_FENCE_TIMED_OUT : Z := 4.

Definition ANX_SENSITIVITY_PUBLIC : Z := 0.
Definition ANX_SENSITIVITY_RESTRICTED : Z := 3.

Record anx_effect_fence_view := FenceView {
  f_id : anx_uuid;
  f_epoch : Z;
  f_generation : Z;
  f_state : Z;
  f_read_sensitivity : Z;
  f_read_origin : anx_uuid;
  f_read_count : Z;
  f_child_limit : Z;
  f_child_creations : Z;
  f_expires_at : Z;
}.

#[export] Instance eta_fence : Settable anx_effect_fence_view := λ r,
  FenceView (f_id r) (f_epoch r) (f_generation r) (f_state r) (f_read_sensitivity r)
    (f_read_origin r) (f_read_count r) (f_child_limit r) (f_child_creations r) (f_expires_at r).

Abbreviation fence_table := (list anx_effect_fence_view).

Fixpoint find_fence (F : fence_table) (id : anx_uuid) : option (nat * anx_effect_fence_view) :=
  match F with
  | [] => None
  | f :: F => if uuid_eqb (f_id f) id then Some (O, f)
              else (λ x, (S x.1, x.2)) <$> find_fence F id
  end.

Definition closed (state : Z) : bool := state >=? ANX_FENCE_REJECTED.

Definition change_state (fence : anx_effect_fence_view) (state : Z) : Z * anx_effect_fence_view :=
  when closed (f_state fence) ret (ANX_EPERM, fence) ;;
  when (state =? f_state fence)
       || ((state =? ANX_FENCE_RUNNING) && negb (f_state fence =? ANX_FENCE_HELD))
       || ((state =? ANX_FENCE_REJECTED) && negb (f_state fence =? ANX_FENCE_HELD))
    ret (ANX_EINVAL, fence) ;;
  when (f_generation fence =? MAX64) && negb (closed state) ret (ANX_EFULL, fence) ;;
  let fence := fence <| f_state := state |> in
  let fence := if negb (f_generation fence =? MAX64)
               then fence <| f_generation ::= λ g, g + 1 |> else fence in
  let fence := if closed state then fence <| f_epoch ::= λ e, u64 (e + 1) |> else fence in
  (ANX_OK, fence).

(** [state_check] on a fence that exists. *)
Definition state_check (now : Z) (fence : anx_effect_fence_view) : Z * anx_effect_fence_view :=
  let fence :=
    if negb (closed (f_state fence)) && negb (f_expires_at fence =? 0) && (now >=? f_expires_at fence)
    then (change_state fence ANX_FENCE_TIMED_OUT).2 else fence in
  when f_state fence =? ANX_FENCE_HELD ret (ANX_EBUSY, fence) ;;
  (if closed (f_state fence) then ANX_EPERM else ANX_OK, fence).

Definition anx_effect_fence_create (current : option anx_uuid) (fresh : anx_uuid) (F : fence_table)
    (out : bool) : Z * option anx_effect_fence_view * fence_table :=
  when negb out ret (ANX_EINVAL, None, F) ;;
  when bool_decide (is_Some current) ret (ANX_EPERM, None, F) ;;
  when (Z.of_nat (length F) =? ANX_EFFECT_FENCE_MAX) || bool_decide (is_Some (find_fence F fresh))
    ret (ANX_EFULL, None, F) ;;
  let fence := FenceView fresh 1 1 ANX_FENCE_RUNNING 0 ANX_UUID_NIL 0 0 0 0 in
  (ANX_OK, Some fence, F ++ [fence]).

Definition anx_effect_fence_get (now : Z) (F : fence_table) (idp : option anx_uuid) (out : bool)
    : Z * option anx_effect_fence_view * fence_table :=
  match idp with
  | None => (ANX_EINVAL, None, F)
  | Some id =>
      when anx_uuid_is_nil id || negb out ret (ANX_EINVAL, None, F) ;;
      match find_fence F id with
      | None => (ANX_ENOENT, None, F)
      | Some (i, fence) =>
          let fence := (state_check now fence).2 in
          (ANX_OK, Some fence, <[i := fence]> F)
      end
  end.

Definition anx_effect_fence_bind (current : option anx_uuid) (now : Z) (st : cell_store)
    (F : fence_table) (cellp idp : option anx_uuid) : Z * cell_store * fence_table :=
  when bool_decide (is_Some current) ret (ANX_EPERM, st, F) ;;
  match cellp, cellp ≫= (st !!.) with
  | Some p, Some cell =>
      let '(e, _, F) := anx_effect_fence_get now F idp true in
      when negb (e =? ANX_OK) ret (e, st, F) ;;
      match anx_cell_store_lookup st (cid cell) with
      | (None, st) => (ANX_ENOENT, st, F)
      | (Some registered, st) =>
          when negb (bool_decide (cid cell = p))
            ret (ANX_EPERM, anx_cell_store_release st (cid cell), F) ;;
          let busy := negb (bool_decide (status registered = ANX_CELL_CREATED)) || runtime_active registered
                      || negb (anx_uuid_is_nil (effect_fence_id registered))
                      || negb (anx_uuid_is_nil (parent_cid registered)) in
          let st := if busy then st
                    else alter (λ c, c <| effect_fence_id := default ANX_UUID_NIL idp |>) p st in
          (if busy then ANX_EBUSY else e, anx_cell_store_release st (cid cell), F)
      end
  | _, _ => (ANX_EINVAL, st, F)
  end.

Definition anx_effect_fence_transition (current : option anx_uuid) (now : Z) (F : fence_table)
    (idp : option anx_uuid) (generation state : Z) : Z * fence_table :=
  when bool_decide (is_Some current) ret (ANX_EPERM, F) ;;
  match idp with
  | None => (ANX_EINVAL, F)
  | Some id =>
      when anx_uuid_is_nil id || (generation =? 0) || (state <? 0) || (state >? ANX_FENCE_TIMED_OUT)
        ret (ANX_EINVAL, F) ;;
      match find_fence F id with
      | None => (ANX_ENOENT, F)
      | Some (i, fence) =>
          let fence := (state_check now fence).2 in
          when negb (f_generation fence =? generation) ret (ANX_EBUSY, <[i := fence]> F) ;;
          let '(e, fence) := change_state fence state in
          (e, <[i := fence]> F)
      end
  end.

Definition anx_effect_fence_set_execution_lease (current : option anx_uuid) (now : Z) (F : fence_table)
    (idp : option anx_uuid) (generation child_limit expires_at : Z) : Z * fence_table :=
  when bool_decide (is_Some current) ret (ANX_EPERM, F) ;;
  match idp with
  | None => (ANX_EINVAL, F)
  | Some id =>
      when anx_uuid_is_nil id || (generation =? 0) || (child_limit =? 0)
           || (child_limit >? ANX_EXECUTION_CHILDREN_MAX)
           || (negb (expires_at =? 0) && (expires_at <=? now))
        ret (ANX_EINVAL, F) ;;
      match find_fence F id with
      | None => (ANX_ENOENT, F)
      | Some (i, fence) =>
          let '(e, fence) := state_check now fence in
          when negb (e =? ANX_OK) ret (e, <[i := fence]> F) ;;
          when negb (generation =? f_generation fence) ret (ANX_EBUSY, <[i := fence]> F) ;;
          when child_limit <? f_child_creations fence ret (ANX_EINVAL, <[i := fence]> F) ;;
          when f_generation fence =? MAX64 ret (ANX_EFULL, <[i := fence]> F) ;;
          (ANX_OK, <[i := fence <| f_child_limit := child_limit |> <| f_expires_at := expires_at |>
                          <| f_generation ::= λ g, g + 1 |>]> F)
      end
  end.

(** [alloc], [fresh]: the allocation result and id of the new cell. *)
Definition anx_effect_fence_create_child (alloc : bool) (fresh : anx_uuid) (now : Z) (st : cell_store)
    (F : fence_table) (parentp : option anx_cell) (type : Z) (intentp : option anx_cell_intent)
    : Z * option anx_uuid * cell_store * fence_table :=
  match parentp with
  | None => (ANX_EINVAL, None, st, F)
  | Some parent =>
      if anx_uuid_is_nil (effect_fence_id parent) then
        (anx_cell_create alloc fresh now st type intentp, F)
      else match find_fence F (effect_fence_id parent) with
      | None => (ANX_ENOENT, None, st, F)
      | Some (i, fence) =>
          let '(e, fence) := state_check now fence in
          let e := if e =? ANX_EBUSY then ANX_OK else e in
          when negb (e =? ANX_OK) ret (e, None, st, <[i := fence]> F) ;;
          when (f_child_creations fence =? MAX64)
               || (negb (f_child_limit fence =? 0) && (f_child_creations fence >=? f_child_limit fence))
            ret (ANX_EFULL, None, st, <[i := fence]> F) ;;
          let '(e, child, st) := anx_cell_create alloc fresh now st type intentp in
          let fence := if e =? ANX_OK then fence <| f_child_creations ::= λ n, n + 1 |> else fence in
          (e, child, st, <[i := fence]> F)
      end
  end.

Definition request_state (current : option anx_uuid) (now : Z) (st : cell_store) (F : fence_table)
    (cellp : option anx_uuid) (state : Z) : Z * cell_store * fence_table :=
  match cellp, cellp ≫= (st !!.) with
  | Some p, Some cell =>
      when anx_uuid_is_nil (effect_fence_id cell)
        ret (if state =? ANX_FENCE_CANCELLED then ANX_OK else ANX_ENOENT, st, F) ;;
      when match current with Some a => negb (uuid_eqb a (cid cell)) | None => false end
        ret (ANX_EPERM, st, F) ;;
      match anx_cell_store_lookup st (cid cell) with
      | (None, st) => (ANX_ENOENT, st, F)
      | (Some _, st) =>
          when negb (bool_decide (cid cell = p))
               || ((state =? ANX_FENCE_HELD) && anx_cell_status_terminal (status cell))
            ret (ANX_EPERM, anx_cell_store_release st (cid cell), F) ;;
          match find_fence F (effect_fence_id cell) with
          | None => (ANX_ENOENT, anx_cell_store_release st (cid cell), F)
          | Some (i, fence) =>
              let fence := (state_check now fence).2 in
              let '(e, fence) :=
                if (f_state fence =? state) || ((state =? ANX_FENCE_CANCELLED) && closed (f_state fence))
                then (ANX_OK, fence) else change_state fence state in
              (e, anx_cell_store_release st (cid cell), <[i := fence]> F)
          end
      end
  | _, _ => (ANX_EINVAL, st, F)
  end.

Definition anx_effect_fence_hold current now st F cellp := request_state current now st F cellp ANX_FENCE_HELD.
Definition anx_effect_fence_cancel current now st F cellp := request_state current now st F cellp ANX_FENCE_CANCELLED.

(** The result, [*id_out] and [*epoch_out]. *)
Definition anx_effect_fence_check (now : Z) (F : fence_table) (cellp : option anx_cell)
    : Z * anx_uuid * Z * fence_table :=
  match cellp with
  | None => (ANX_EINVAL, ANX_UUID_NIL, 0, F)
  | Some cell =>
      when anx_uuid_is_nil (effect_fence_id cell) ret (ANX_OK, ANX_UUID_NIL, 0, F) ;;
      match find_fence F (effect_fence_id cell) with
      | None => (ANX_ENOENT, ANX_UUID_NIL, 0, F)
      | Some (i, fence) =>
          let '(e, fence') := state_check now fence in
          (e, f_id fence, f_epoch fence, <[i := fence']> F)
      end
  end.

Definition observe (oid : anx_uuid) (sensitivity : Z) (fence : anx_effect_fence_view) : anx_effect_fence_view :=
  let fence := if sensitivity >? f_read_sensitivity fence
               then fence <| f_read_sensitivity := sensitivity |> <| f_read_origin := oid |> else fence in
  if negb (f_read_count fence =? MAX64) then fence <| f_read_count ::= λ n, n + 1 |> else fence.

Definition anx_effect_fence_observe_read (current : option anx_uuid) (st : cell_store) (F : fence_table)
    (oidp : option anx_uuid) (sensitivity : Z) : Z * cell_store * fence_table :=
  match current with
  | None => (ANX_OK, st, F)
  | Some active =>
      match anx_cell_store_lookup st active with
      | (None, st) => (ANX_ENOENT, st, F)
      | (Some cell, st) =>
          let st' := anx_cell_store_release st active in
          when anx_uuid_is_nil (effect_fence_id cell) ret (ANX_OK, st', F) ;;
          match oidp with
          | None => (ANX_EINVAL, st', F)
          | Some oid =>
              when anx_uuid_is_nil oid || (sensitivity <? 0) || (sensitivity >? ANX_SENSITIVITY_RESTRICTED)
                ret (ANX_EINVAL, st', F) ;;
              match find_fence F (effect_fence_id cell) with
              | None => (ANX_ENOENT, st', F)
              | Some (i, fence) => (ANX_OK, st', <[i := observe oid sensitivity fence]> F)
              end
          end
      end
  end.

(** A sink is passed as its [max_sensitivity]; [None] is the [NULL] pointer. *)
Definition sink_check (fence : option anx_effect_fence_view) (sink : option Z) : Z :=
  match fence, sink with
  | None, _ => ANX_ENOENT
  | Some fence, None =>
      if f_read_sensitivity fence =? ANX_SENSITIVITY_PUBLIC then ANX_OK else ANX_EPERM
  | Some fence, Some m =>
      when (m <? 0) || (m >? ANX_SENSITIVITY_RESTRICTED) ret ANX_EINVAL ;;
      if f_read_sensitivity fence <=? m then ANX_OK else ANX_EPERM
  end.

Definition anx_effect_fence_check_sink (F : fence_table) (cellp : option anx_cell) (sink : option Z) : Z :=
  match cellp with
  | None => ANX_EINVAL
  | Some cell =>
      when anx_uuid_is_nil (effect_fence_id cell) ret ANX_OK ;;
      sink_check (snd <$> find_fence F (effect_fence_id cell)) sink
  end.

(** ** Pending effects, [kernel/include/anx/effect.h] *)

Definition ANX_EFFECT_PREPARED : Z := 0.
Definition ANX_EFFECT_DISPATCHING : Z := 1.
Definition ANX_EFFECT_COMMITTED : Z := 2.
Definition ANX_EFFECT_RESTORED : Z := 3.
Definition ANX_EFFECT_UNKNOWN : Z := 4.

(** [e_sink] is the registry slot of the sink. *)
Record anx_pending_effect := PendingEffect {
  e_cell : anx_uuid;
  e_sink : option Z;
  e_object_oid : anx_uuid;
  e_phase : Z;
  e_fence_id : anx_uuid;
  e_fence_epoch : Z;
}.

#[export] Instance eta_effect : Settable anx_pending_effect := λ r,
  PendingEffect (e_cell r) (e_sink r) (e_object_oid r) (e_phase r) (e_fence_id r) (e_fence_epoch r).

(** [sink_max] reads [max_sensitivity] through a sink pointer. *)
Definition anx_effect_fence_dispatch (now : Z) (sink_max : Z → Z) (st : cell_store) (F : fence_table)
    (effectp : option anx_pending_effect) : Z * cell_store * fence_table * option anx_pending_effect :=
  match effectp with
  | None => (ANX_EINVAL, st, F, None)
  | Some effect =>
      match anx_cell_store_lookup st (e_cell effect) with
      | (None, st) => (ANX_ENOENT, st, F, effectp)
      | (Some cell, st) =>
          let '(e, F) :=
            if negb (e_phase effect =? ANX_EFFECT_PREPARED) then (ANX_EINVAL, F)
            else if negb (uuid_eqb (effect_fence_id cell) (e_fence_id effect)) then (ANX_EPERM, F)
            else if anx_uuid_is_nil (e_fence_id effect)
            then (if e_fence_epoch effect =? 0 then ANX_OK else ANX_EPERM, F)
            else match find_fence F (e_fence_id effect) with
                 | None => (ANX_ENOENT, F)
                 | Some (i, fence) =>
                     if negb (f_epoch fence =? e_fence_epoch effect) then (ANX_EPERM, F)
                     else let '(e, fence) := state_check now fence in
                          (if e =? ANX_OK then sink_check (Some fence) (sink_max <$> e_sink effect) else e,
                           <[i := fence]> F)
                 end in
          let effect := if e =? ANX_OK then effect <| e_phase := ANX_EFFECT_DISPATCHING |> else effect in
          (e, anx_cell_store_release st (e_cell effect), F, Some effect)
      end
  end.

(** ** The fence state machine *)

Record fence_ok (f : anx_effect_fence_view) : Prop := {
  fo_state : ANX_FENCE_RUNNING ≤ f_state f ≤ ANX_FENCE_TIMED_OUT;
  fo_generation : 1 ≤ f_generation f ≤ MAX64;
  fo_epoch : f_epoch f = if closed (f_state f) then 2 else 1;
  fo_limit : 0 ≤ f_child_limit f ≤ ANX_EXECUTION_CHILDREN_MAX;
  fo_creations : 0 ≤ f_child_creations f ≤ MAX64;
  fo_budget : f_child_limit f ≠ 0 → f_child_creations f ≤ f_child_limit f;
  fo_read : ANX_SENSITIVITY_PUBLIC ≤ f_read_sensitivity f ≤ ANX_SENSITIVITY_RESTRICTED;
}.

(** How a fence may evolve. *)
Record evolves (f f' : anx_effect_fence_view) : Prop := {
  ev_id : f_id f' = f_id f;
  ev_closed : closed (f_state f) = true → f_state f' = f_state f ∧ f_epoch f' = f_epoch f ∧
    f_child_creations f' = f_child_creations f ∧ f_child_limit f' = f_child_limit f;
  ev_epoch : f_epoch f ≤ f_epoch f';
  ev_generation : f_generation f ≤ f_generation f';
  ev_read : f_read_sensitivity f ≤ f_read_sensitivity f';
  ev_creations : f_child_creations f ≤ f_child_creations f';
}.

#[export] Instance evolves_refl : Reflexive evolves.
Proof. intros f. by constructor. Qed.

#[export] Instance evolves_trans : Transitive evolves.
Proof.
  intros f g h [A1 A2 A3 A4 A5 A6] [B1 B2 B3 B4 B5 B6]. constructor; [congruence| |lia..].
  intros Hc. destruct (A2 Hc) as (E & ? & ? & ?). rewrite <- E in Hc. destruct (B2 Hc) as (? & ? & ? & ?).
  split_and!; congruence.
Qed.

Lemma change_state_ok f state e f' :
  fence_ok f → ANX_FENCE_RUNNING ≤ state ≤ ANX_FENCE_TIMED_OUT →
  change_state f state = (e, f') → fence_ok f' ∧ evolves f f' ∧ (e = ANX_OK → f_state f' = state).
Proof.
  intros Hok Hs. unfold change_state.
  destruct (closed (f_state f)) eqn:Hc; [intros [= <- <-]; by split_and!|].
  case_match; [intros [= <- <-]; by split_and!|].
  destruct ((f_generation f =? MAX64) && negb (closed state)) eqn:G; [intros [= <- <-]; by split_and!|]. cbv zeta.
  intros [= <- <-]. destruct Hok as [H1 H2 H3 H4 H5 H6 H7]. rewrite Hc in H3.
  change (f_generation (f <| f_state := state |>)) with (f_generation f).
  split_and!; [| |by destruct (negb (f_generation f =? MAX64)), (closed state)].
  - constructor; destruct (Z.eqb_spec (f_generation f) MAX64), (closed state) eqn:Hcs;
      cbn [negb f_state f_generation f_epoch f_child_limit f_child_creations f_read_sensitivity] in *;
      cbn; rewrite ?Hcs, ?H3; (done || lia || by auto).
  - constructor; destruct (Z.eqb_spec (f_generation f) MAX64), (closed state) eqn:Hcs; cbn [negb]; cbn;
      rewrite ?H3; try done; try lia; try congruence.
Qed.

Lemma state_check_ok now f e f' :
  fence_ok f → state_check now f = (e, f') →
  fence_ok f' ∧ evolves f f' ∧
  e = (if f_state f' =? ANX_FENCE_HELD then ANX_EBUSY else if closed (f_state f') then ANX_EPERM else ANX_OK) ∧
  (closed (f_state f) = true → f' = f) ∧
  (f_expires_at f ≠ 0 → f_expires_at f ≤ now → closed (f_state f') = true).
Proof.
  intros Hok. unfold state_check. cbv zeta.
  set (f1 := if _ && _ && _ then _ else f). intros H.
  assert (fence_ok f1 ∧ evolves f f1 ∧ (closed (f_state f) = true → f1 = f) ∧
    (f_expires_at f ≠ 0 → f_expires_at f ≤ now → closed (f_state f1) = true)) as (H1 & H2 & H3 & H4).
  { subst f1. destruct (closed (f_state f)) eqn:Hc; cbn [negb andb]; [by split_and!|].
    destruct (Z.eqb_spec (f_expires_at f) 0); cbn [negb andb]; [by split_and!|].
    destruct (Z.geb_spec now (f_expires_at f)); [|split_and!; (done || lia)].
    destruct (change_state f ANX_FENCE_TIMED_OUT) as [e1 f2] eqn:E. cbn [snd].
    destruct (change_state_ok f ANX_FENCE_TIMED_OUT e1 f2 Hok) as (? & ? & Hst); [unfold ANX_FENCE_RUNNING, ANX_FENCE_TIMED_OUT; lia|done|].
    split_and!; [done..|]. intros _ _. rewrite Hst; [done|].
    unfold change_state in E. rewrite Hc in E.
    destruct (Z.eqb_spec ANX_FENCE_TIMED_OUT (f_state f)) as [Ef|]; [by rewrite <- Ef in Hc|].
    cbn [orb andb] in E. change (closed ANX_FENCE_TIMED_OUT) with true in E. rewrite andb_false_r in E.
    cbn [negb] in E. change (ANX_FENCE_TIMED_OUT =? ANX_FENCE_RUNNING) with false in E.
    change (ANX_FENCE_TIMED_OUT =? ANX_FENCE_REJECTED) with false in E. cbv zeta in E. by injection E as <- _. }
  destruct (f_state f1 =? ANX_FENCE_HELD) eqn:Eh; injection H as <- <-; rewrite Eh; by split_and!.
Qed.

Lemma observe_ok oid s f :
  fence_ok f → ANX_SENSITIVITY_PUBLIC ≤ s ≤ ANX_SENSITIVITY_RESTRICTED →
  fence_ok (observe oid s f) ∧ evolves f (observe oid s f) ∧ s ≤ f_read_sensitivity (observe oid s f).
Proof.
  intros [H1 H2 H3 H4 H5 H6 H7] Hs. unfold observe. cbv zeta.
  destruct (Z.gtb_spec s (f_read_sensitivity f)); cbn;
    match goal with |- context [negb ?b] => destruct (negb b) end; (split_and!; [constructor|constructor|]);
    cbn; (done || lia || auto).
Qed.

Lemma find_fence_Some F id i f : find_fence F id = Some (i, f) → F !! i = Some f ∧ f_id f = id.
Proof.
  revert i. induction F as [|g F IH]; intros i; cbn [find_fence]; [done|].
  destruct (uuid_eqb_spec (f_id g) id) as [<-|].
  - by intros [= <- <-].
  - destruct (find_fence F id) as [[j h]|]; [|done]. cbn. intros [= <- <-]. by apply IH.
Qed.

Lemma find_fence_None F id : find_fence F id = None ↔ id ∉ f_id <$> F.
Proof.
  induction F as [|g F IH]; cbn [find_fence fmap list_fmap].
  { split; [by intros _ ?%not_elem_of_nil|done]. }
  rewrite not_elem_of_cons. destruct (uuid_eqb_spec (f_id g) id) as [<-|Hne].
  - split; [done|]. by intros [? _].
  - destruct (find_fence F id) as [x|] eqn:E; cbn.
    + split; [done|]. intros [_ H]. by apply IH in H.
    + split; [|done]. intros _. split; [congruence|]. by apply IH.
Qed.

Lemma find_fence_unique F id i f :
  NoDup (f_id <$> F) → F !! i = Some f → f_id f = id → find_fence F id = Some (i, f).
Proof.
  intros Hnd Hi Hid. destruct (find_fence F id) as [[j g]|] eqn:E.
  - apply find_fence_Some in E as [Hj Hg].
    assert (i = j) as <-; [|congruence].
    apply (NoDup_lookup _ i j id Hnd); rewrite list_lookup_fmap, ?Hi, ?Hj; cbn; congruence.
  - apply find_fence_None in E. destruct E. rewrite <- Hid. apply list_elem_of_fmap. exists f.
    split; [done|]. by eapply list_elem_of_lookup_2.
Qed.

Record table_ok (F : fence_table) : Prop := {
  ft_fences : Forall fence_ok F;
  ft_ids : NoDup (f_id <$> F);
  ft_length : Z.of_nat (length F) ≤ ANX_EFFECT_FENCE_MAX;
}.

(** Every fence of [F] is still in [F'], further along. *)
Definition table_evolves (F F' : fence_table) : Prop :=
  ∀ i f, F !! i = Some f → ∃ f', F' !! i = Some f' ∧ evolves f f'.

#[export] Instance table_evolves_refl : Reflexive table_evolves.
Proof. intros F i f H. by exists f. Qed.

#[export] Instance table_evolves_trans : Transitive table_evolves.
Proof.
  intros F G H A B i f Hf. destruct (A i f Hf) as (g & Hg & ?). destruct (B i g Hg) as (h & Hh & ?).
  exists h. split; [done|]. by etransitivity.
Qed.

Definition good_step (F F' : fence_table) : Prop := table_ok F' ∧ table_evolves F F'.

Lemma good_update F i f f' :
  table_ok F → F !! i = Some f → fence_ok f' → evolves f f' → good_step F (<[i := f']> F).
Proof.
  intros [H1 H2 H3] Hi Hok Hev. split.
  - constructor; [by apply Forall_insert| |by rewrite length_insert].
    assert (f_id <$> <[i := f']> F = f_id <$> F) as ->; [|done].
    rewrite list_fmap_insert, (ev_id _ _ Hev). apply list_insert_id. by rewrite list_lookup_fmap, Hi.
  - intros j g Hg. destruct (decide (i = j)) as [<-|].
    + exists f'. simplify_eq. split; [|done]. apply list_lookup_insert_eq. by eapply lookup_lt_Some.
    + exists g. by rewrite list_lookup_insert_ne.
Qed.

Lemma good_refl F : table_ok F → good_step F F.
Proof. by split. Qed.

Lemma table_fence F i f : table_ok F → F !! i = Some f → fence_ok f.
Proof. intros Hok Hi. by apply (Forall_lookup_1 _ _ _ _ (ft_fences _ Hok) Hi). Qed.

(** The case every operation shares: look the fence up and check its state. *)
Lemma find_check F id i f now e f' :
  table_ok F → find_fence F id = Some (i, f) → state_check now f = (e, f') →
  F !! i = Some f ∧ f_id f = id ∧ fence_ok f' ∧ evolves f f' ∧ good_step F (<[i := f']> F).
Proof.
  intros Hok Hf Hc. apply find_fence_Some in Hf as [Hi Hid].
  destruct (state_check_ok now f e f' (table_fence F i f Hok Hi) Hc) as (H1 & H2 & _).
  pose proof (good_update F i f f' Hok Hi H1 H2). by split_and!.
Qed.

(** ** Every operation keeps the table well formed *)

Section steps.
Context (F : fence_table) (Hok : table_ok F).

Lemma create_good current fresh out : good_step F (anx_effect_fence_create current fresh F out).2.
Proof.
  unfold anx_effect_fence_create. destruct out; cbn [negb]; [|by apply good_refl].
  case_bool_decide; [by apply good_refl|].
  destruct (Z.eqb_spec (Z.of_nat (length F)) ANX_EFFECT_FENCE_MAX); [by apply good_refl|].
  destruct (bool_decide_reflect (is_Some (find_fence F fresh))) as [|Hn]; [by apply good_refl|]. cbn [orb snd].
  apply eq_None_not_Some, find_fence_None in Hn. destruct Hok as [H1 H2 H3]. split.
  - constructor.
    + apply Forall_app. split; [done|]. apply Forall_singleton.
      constructor; cbn; unfold MAX64; unfold ANX_FENCE_RUNNING, ANX_FENCE_TIMED_OUT,
        ANX_EXECUTION_CHILDREN_MAX, ANX_SENSITIVITY_PUBLIC, ANX_SENSITIVITY_RESTRICTED; (done || lia).
    + rewrite fmap_app. apply NoDup_app. split_and!; [done| |by apply NoDup_singleton].
      intros x Hx ->%list_elem_of_singleton. done.
    + rewrite length_app. cbn. lia.
  - intros i f Hf. exists f. split; [by apply lookup_app_l_Some|done].
Qed.

Lemma get_good now idp out : good_step F (anx_effect_fence_get now F idp out).2.
Proof.
  unfold anx_effect_fence_get. destruct idp as [id|]; [|by apply good_refl].
  case_match; [by apply good_refl|]. destruct (find_fence F id) as [[i f]|] eqn:Hf; [|by apply good_refl].
  destruct (state_check now f) as [e f'] eqn:Hc. cbn [snd].
  apply (find_check F id i f now e f' Hok Hf Hc).
Qed.

Lemma bind_good current now st cellp idp : good_step F (anx_effect_fence_bind current now st F cellp idp).2.
Proof.
  unfold anx_effect_fence_bind. case_bool_decide; [by apply good_refl|].
  destruct cellp as [p|]; cbn [mbind option_bind]; [|by apply good_refl].
  destruct (st !! p) as [cell|]; [|by apply good_refl].
  pose proof (get_good now idp true) as Hg. destruct (anx_effect_fence_get now F idp true) as [[e o] F1].
  cbn [snd] in Hg. case_match; [done|]. destruct (anx_cell_store_lookup st (cid cell)) as [[reg|] st1]; [|done].
  by case_match.
Qed.

Lemma transition_good current now idp generation state :
  good_step F (anx_effect_fence_transition current now F idp generation state).2.
Proof.
  unfold anx_effect_fence_transition. case_bool_decide; [by apply good_refl|].
  destruct idp as [id|]; [|by apply good_refl].
  destruct (anx_uuid_is_nil id || _ || _ || (state >? _)) eqn:G; [by apply good_refl|].
  apply orb_false_iff in G as [G G2]. apply orb_false_iff in G as [_ G1]. to_prop.
  destruct (find_fence F id) as [[i f]|] eqn:Hf; [|by apply good_refl]. cbv zeta.
  destruct (state_check now f) as [e f1] eqn:Hc. cbn [snd].
  destruct (find_check F id i f now e f1 Hok Hf Hc) as (Hi & _ & Hok1 & Hev & Hgood).
  case_match; [done|]. destruct (change_state f1 state) as [e2 f2] eqn:Hcs. cbn [snd].
  destruct (change_state_ok f1 state e2 f2 Hok1) as (? & ? & _); [unfold ANX_FENCE_RUNNING; lia|done|].
  eapply good_update; [done|done|done|by etransitivity].
Qed.

Lemma lease_good current now idp generation limit expires :
  0 ≤ limit →
  good_step F (anx_effect_fence_set_execution_lease current now F idp generation limit expires).2.
Proof.
  intros Hl. unfold anx_effect_fence_set_execution_lease. case_bool_decide; [by apply good_refl|].
  destruct idp as [id|]; [|by apply good_refl].
  destruct (anx_uuid_is_nil id || _ || _ || (limit >? _) || _) eqn:G; [by apply good_refl|].
  apply orb_false_iff in G as [G _]. apply orb_false_iff in G as [_ G]. to_prop.
  destruct (find_fence F id) as [[i f]|] eqn:Hf; [|by apply good_refl].
  destruct (state_check now f) as [e f1] eqn:Hc.
  destruct (find_check F id i f now e f1 Hok Hf Hc) as (Hi & _ & Hok1 & Hev & Hgood).
  destruct (state_check_ok now f e f1 (table_fence F i f Hok Hi) Hc) as (_ & _ & He & _).
  destruct (Z.eqb_spec e ANX_OK) as [->|]; cbn [negb]; [|done].
  destruct (Z.eqb_spec generation (f_generation f1)); cbn [negb]; [|exact Hgood].
  destruct (Z.ltb_spec limit (f_child_creations f1)); [exact Hgood|].
  destruct (Z.eqb_spec (f_generation f1) MAX64); [exact Hgood|]. cbn [snd].
  destruct (f_state f1 =? ANX_FENCE_HELD); [done|]. destruct (closed (f_state f1)) eqn:Ecl; [done|].
  eapply good_update; [done|done| |etransitivity; [done|]].
  - destruct Hok1. constructor; cbn; try done; try lia.
  - constructor; cbn; try done; try lia. rewrite Ecl. done.
Qed.

Lemma create_child_good alloc fresh now st parentp type intentp :
  good_step F (anx_effect_fence_create_child alloc fresh now st F parentp type intentp).2.
Proof.
  unfold anx_effect_fence_create_child. destruct parentp as [parent|]; [|by apply good_refl].
  case_match; [by apply good_refl|].
  destruct (find_fence F (effect_fence_id parent)) as [[i f]|] eqn:Hf; [|by apply good_refl].
  destruct (state_check now f) as [e f1] eqn:Hc. cbv zeta.
  destruct (find_check F _ i f now e f1 Hok Hf Hc) as (Hi & _ & Hok1 & Hev & Hgood).
  destruct (state_check_ok now f e f1 (table_fence F i f Hok Hi) Hc) as (_ & _ & He & _).
  destruct (negb ((if e =? ANX_EBUSY then ANX_OK else e) =? ANX_OK)) eqn:Ee; [done|].
  destruct ((f_child_creations f1 =? MAX64) || _) eqn:G; [done|].
  destruct (anx_cell_create alloc fresh now st type intentp) as [[e2 child] st2]. cbn [snd].
  destruct (e2 =? ANX_OK); [|done]. apply orb_false_iff in G as [G1%Z.eqb_neq G2].
  assert (closed (f_state f1) = false) as Ecl.
  { destruct (closed (f_state f1)) eqn:Ecl; [|done]. destruct (f_state f1 =? ANX_FENCE_HELD) eqn:Eh.
    - apply Z.eqb_eq in Eh. by rewrite Eh in Ecl.
    - by rewrite He in Ee. }
  eapply good_update; [done|done| |etransitivity; [done|]].
  - destruct Hok1. constructor; cbn; try done; [lia|]. intros Hnz.
    rewrite (proj2 (Z.eqb_neq _ _) Hnz) in G2. cbn in G2. to_prop. lia.
  - constructor; cbn; try done; try lia. by rewrite Ecl.
Qed.

Lemma request_good current now st cellp state :
  ANX_FENCE_RUNNING ≤ state ≤ ANX_FENCE_TIMED_OUT →
  good_step F (request_state current now st F cellp state).2.
Proof.
  intros Hs. unfold request_state. destruct cellp as [p|]; cbn [mbind option_bind]; [|by apply good_refl].
  destruct (st !! p) as [cell|]; [|by apply good_refl].
  case_match; [by apply good_refl|]. case_match; [by apply good_refl|].
  destruct (anx_cell_store_lookup st (cid cell)) as [[reg|] st1]; [|by apply good_refl].
  destruct (negb (bool_decide (cid cell = p)) || _); [by apply good_refl|].
  destruct (find_fence F (effect_fence_id cell)) as [[i f]|] eqn:Hf; [|by apply good_refl]. cbv zeta.
  destruct (state_check now f) as [e f1] eqn:Hc. cbn [snd].
  destruct (find_check F _ i f now e f1 Hok Hf Hc) as (Hi & _ & Hok1 & Hev & Hgood).
  destruct ((f_state f1 =? state) || _); [done|]. destruct (change_state f1 state) as [e2 f2] eqn:Hcs.
  destruct (change_state_ok f1 state e2 f2 Hok1 Hs Hcs) as (? & ? & _). cbn [snd].
  eapply good_update; [done|done|done|by etransitivity].
Qed.

Lemma check_good now cellp : good_step F (anx_effect_fence_check now F cellp).2.
Proof.
  unfold anx_effect_fence_check. destruct cellp as [cell|]; [|by apply good_refl].
  case_match; [by apply good_refl|].
  destruct (find_fence F (effect_fence_id cell)) as [[i f]|] eqn:Hf; [|by apply good_refl].
  destruct (state_check now f) as [e f1] eqn:Hc. cbn [snd]. apply (find_check F _ i f now e f1 Hok Hf Hc).
Qed.

Lemma observe_good current st oidp s : good_step F (anx_effect_fence_observe_read current st F oidp s).2.
Proof.
  unfold anx_effect_fence_observe_read. destruct current as [act|]; [|by apply good_refl].
  destruct (anx_cell_store_lookup st act) as [[cell|] st1]; [|by apply good_refl]. cbv zeta.
  case_match; [by apply good_refl|]. destruct oidp as [oid|]; [|by apply good_refl].
  destruct (anx_uuid_is_nil oid || _ || _) eqn:G; [by apply good_refl|].
  apply orb_false_iff in G as [G G2]. apply orb_false_iff in G as [_ G1]. to_prop.
  destruct (find_fence F (effect_fence_id cell)) as [[i f]|] eqn:Hf; [|by apply good_refl].
  apply find_fence_Some in Hf as [Hi _]. cbn [snd].
  destruct (observe_ok oid s f (table_fence F i f Hok Hi)) as (? & ? & _);
    [unfold ANX_SENSITIVITY_PUBLIC; lia|]. by eapply good_update.
Qed.

Lemma dispatch_good now sink_max st effectp :
  good_step F (anx_effect_fence_dispatch now sink_max st F effectp).1.2.
Proof.
  unfold anx_effect_fence_dispatch. destruct effectp as [eff|]; [|by apply good_refl].
  destruct (anx_cell_store_lookup st (e_cell eff)) as [[cell|] st1]; [|by apply good_refl].
  destruct (negb (e_phase eff =? ANX_EFFECT_PREPARED)); [by apply good_refl|].
  destruct (negb (uuid_eqb _ _)); [by apply good_refl|].
  destruct (anx_uuid_is_nil (e_fence_id eff)); [by apply good_refl|].
  destruct (find_fence F (e_fence_id eff)) as [[i f]|] eqn:Hf; [|by apply good_refl].
  destruct (negb (f_epoch f =? _)); [by apply good_refl|]. destruct (state_check now f) as [e f1] eqn:Hc.
  cbn [fst snd]. apply (find_check F _ i f now e f1 Hok Hf Hc).
Qed.
End steps.

(** One call of the API, by any caller, at any time, with any cell store. *)
Inductive fence_step (F : fence_table) : fence_table → Prop :=
  | StepCreate current fresh out : fence_step F (anx_effect_fence_create current fresh F out).2
  | StepGet now idp out : fence_step F (anx_effect_fence_get now F idp out).2
  | StepBind current now st cellp idp : fence_step F (anx_effect_fence_bind current now st F cellp idp).2
  | StepTransition current now idp generation state :
      fence_step F (anx_effect_fence_transition current now F idp generation state).2
  | StepLease current now idp generation limit expires :
      0 ≤ limit → fence_step F (anx_effect_fence_set_execution_lease current now F idp generation limit expires).2
  | StepChild alloc fresh now st parentp type intentp :
      fence_step F (anx_effect_fence_create_child alloc fresh now st F parentp type intentp).2
  | StepHold current now st cellp : fence_step F (anx_effect_fence_hold current now st F cellp).2
  | StepCancel current now st cellp : fence_step F (anx_effect_fence_cancel current now st F cellp).2
  | StepCheck now cellp : fence_step F (anx_effect_fence_check now F cellp).2
  | StepRead current st oidp s : fence_step F (anx_effect_fence_observe_read current st F oidp s).2
  | StepDispatch now sink_max st effectp :
      fence_step F (anx_effect_fence_dispatch now sink_max st F effectp).1.2.

Lemma step_good F F' : table_ok F → fence_step F F' → good_step F F'.
Proof.
  intros Hok []; [by apply create_good|by apply get_good|by apply bind_good|by apply transition_good
    |by apply lease_good|by apply create_child_good|apply request_good; [done|]|apply request_good; [done|]
    |by apply check_good|by apply observe_good|by apply dispatch_good];
    unfold ANX_FENCE_RUNNING, ANX_FENCE_HELD, ANX_FENCE_CANCELLED, ANX_FENCE_TIMED_OUT; lia.
Qed.

Lemma steps_good F F' : table_ok F → rtc fence_step F F' → good_step F F'.
Proof.
  intros Hok Hr. induction Hr as [F|F G H Hstep _ IH]; [by apply good_refl|].
  destruct (step_good F G Hok Hstep) as [HokG HevG]. destruct (IH HokG) as [HokH HevH].
  split; [done|]. by etransitivity.
Qed.

Lemma empty_table_ok : table_ok [].
Proof. constructor; [constructor|constructor|done]. Qed.

(** A fence found in a table is found in every later one, further along. *)
Lemma find_later F F' id i f :
  table_ok F → rtc fence_step F F' → find_fence F id = Some (i, f) →
  table_ok F' ∧ ∃ f', find_fence F' id = Some (i, f') ∧ fence_ok f' ∧ evolves f f'.
Proof.
  intros Hok Hr Hf. destruct (steps_good F F' Hok Hr) as [Hok' Hev]. split; [done|].
  apply find_fence_Some in Hf as [Hi Hid]. destruct (Hev i f Hi) as (f' & Hi' & Hev').
  exists f'. split_and!; [|by eapply table_fence|done].
  apply find_fence_unique; [by apply ft_ids|done|]. by rewrite (ev_id _ _ Hev').
Qed.

Lemma state_check_closed_id now f :
  closed (f_state f) = true → state_check now f = (ANX_EPERM, f).
Proof.
  intros Hc. unfold state_check. rewrite Hc. cbn [negb andb]. cbv zeta.
  destruct (Z.eqb_spec (f_state f) ANX_FENCE_HELD) as [E|]; [by rewrite E in Hc|]. by rewrite Hc.
Qed.

(** C3: A closed fence never opens again.  Once a fence is rejected, cancelled
    or timed out, no sequence of calls, whoever makes them, changes its state
    or its epoch; from then on the fence check denies every cell bound to it,
    no pending effect of the run is dispatched and no child cell is created
    under it. *)
Theorem fence_closed_forever F F' id i f :
  rtc fence_step [] F → find_fence F id = Some (i, f) → closed (f_state f) = true →
  anx_uuid_is_nil id = false → rtc fence_step F F' →
  ∃ f', find_fence F' id = Some (i, f') ∧ f_state f' = f_state f ∧ f_epoch f' = f_epoch f ∧
    (∀ now cell, effect_fence_id cell = id →
       anx_effect_fence_check now F' (Some cell) = (ANX_EPERM, id, f_epoch f, F')) ∧
    (∀ now sink_max st eff e st2 F2 eff2, e_fence_id eff = id →
       anx_effect_fence_dispatch now sink_max st F' (Some eff) = (e, st2, F2, eff2) →
       e ≠ ANX_OK ∧ eff2 = Some eff) ∧
    (∀ alloc fresh now st parent type intentp, effect_fence_id parent = id →
       anx_effect_fence_create_child alloc fresh now st F' (Some parent) type intentp
       = (ANX_EPERM, None, st, F')).
Proof.
  intros Hr0 Hf Hcl Hnil Hr. destruct (steps_good [] F empty_table_ok Hr0) as [Hok _].
  destruct (find_later F F' id i f Hok Hr Hf) as (Hok' & f' & Hf' & _ & Hev).
  destruct (ev_closed _ _ Hev Hcl) as (Hst & Hep & _ & _). rewrite <- Hst in Hcl.
  pose proof (find_fence_Some _ _ _ _ Hf') as [Hi Hid].
  assert (<[i := f']> F' = F') as Hsame by (by apply list_insert_id).
  exists f'. split_and!; [done..| | |].
  - intros now cell Hc. unfold anx_effect_fence_check. rewrite Hc, Hnil, Hf', state_check_closed_id by done.
    by rewrite Hsame, Hid, Hep.
  - intros now sink_max st eff e st2 F2 eff2 He. unfold anx_effect_fence_dispatch.
    destruct (anx_cell_store_lookup st (e_cell eff)) as [[cell|] st1]; [|by intros [= <- <- <- <-]].
    rewrite He, Hnil, Hf', state_check_closed_id by done.
    repeat case_match; simplify_eq; by intros [= <- <- <- <-].
  - intros alloc fresh now st parent type intentp Hp. unfold anx_effect_fence_create_child.
    rewrite Hp, Hnil, Hf', state_check_closed_id by done. cbv zeta.
    change (ANX_EPERM =? ANX_EBUSY) with false. change (negb (ANX_EPERM =? ANX_OK)) with true. cbv iota.
    by rewrite Hsame.
Qed.

Definition fence0 : anx_uuid := Uuid 7 7.

(** A run fence created, held and rejected by its controller. *)
Definition rejected_table : fence_table :=
  let F := (anx_effect_fence_create None fence0 [] true).2 in
  let F := (anx_effect_fence_transition None 5 F (Some fence0) 1 ANX_FENCE_HELD).2 in
  (anx_effect_fence_transition None 6 F (Some fence0) 2 ANX_FENCE_REJECTED).2.

Lemma fence_closed_forever_witness :
  ∃ f', find_fence (anx_effect_fence_transition None 9 rejected_table (Some fence0) 3 ANX_FENCE_RUNNING).2 fence0
        = Some (0%nat, f') ∧ f_state f' = ANX_FENCE_REJECTED.
Proof.
  destruct (fence_closed_forever rejected_table
    (anx_effect_fence_transition None 9 rejected_table (Some fence0) 3 ANX_FENCE_RUNNING).2 fence0 0
    (FenceView fence0 2 3 ANX_FENCE_REJECTED 0 ANX_UUID_NIL 0 0 0 0)) as (f' & H1 & H2 & _).
  - unfold rejected_table. cbv zeta. eapply rtc_r; [eapply rtc_r; [eapply rtc_r; [apply rtc_refl|]|]|]; constructor.
  - vm_compute. reflexivity.
  - reflexivity.
  - reflexivity.
  - eapply rtc_r; [apply rtc_refl|]. constructor.
  - exists f'. split; [exact H1|exact H2].
Defined.

(** The deadline of a fence has passed. *)
Definition expired (now : Z) (f : anx_effect_fence_view) : bool :=
  negb (f_expires_at f =? 0) && (now >=? f_expires_at f).

Lemma state_check_open now f :
  closed (f_state f) = false → expired now f = false →
  state_check now f = (if f_state f =? ANX_FENCE_HELD then ANX_EBUSY else ANX_OK, f).
Proof.
  intros Hc He. unfold state_check. unfold expired in He. rewrite Hc. cbn [negb andb]. rewrite He. cbv zeta.
  destruct (f_state f =? ANX_FENCE_HELD); [done|]. by rewrite Hc.
Qed.

Lemma state_check_expired now f :
  closed (f_state f) = false → expired now f = true → fence_ok f →
  ∃ f', state_check now f = (ANX_EPERM, f') ∧ f_child_creations f' = f_child_creations f.
Proof.
  intros Hc He Hok. unfold expired in He. apply andb_true_iff in He as [H1 H2].
  apply negb_true_iff, Z.eqb_neq in H1. apply Z.geb_le in H2.
  destruct (state_check now f) as [e f'] eqn:E.
  destruct (state_check_ok now f e f' Hok E) as (_ & _ & -> & _ & Hexp). specialize (Hexp H1 H2).
  exists f'. split.
  - f_equal. destruct (Z.eqb_spec (f_state f') ANX_FENCE_HELD) as [Eh|]; [by rewrite Eh in Hexp|]. by rewrite Hexp.
  - unfold state_check, change_state in E. rewrite Hc in E. cbv zeta in E.
    repeat case_match; simplify_eq; done.
Qed.

Lemma cell_create_failed alloc fresh now st type intentp e child st' :
  anx_cell_create alloc fresh now st type intentp = (e, child, st') → e ≠ ANX_OK → child = None ∧ st' = st.
Proof. unfold anx_cell_create. intros H He. repeat case_match; simplify_eq; done. Qed.

(** The execution lease of a fence bounds the children of its run.  In every
    reachable state a fence with a limit has created no more children than
    the limit; creating a child succeeds exactly when the fence is neither
    closed nor expired, budget is left and the cell itself can be created, and
    then consumes exactly one unit; a failed creation consumes nothing and
    leaves the cell store as it was. *)
Theorem fence_child_budget F parent i f :
  rtc fence_step [] F → anx_uuid_is_nil (effect_fence_id parent) = false →
  find_fence F (effect_fence_id parent) = Some (i, f) →
  (f_child_limit f ≠ 0 → f_child_creations f ≤ f_child_limit f) ∧
  ∀ alloc fresh now st type intentp e child st' F',
    anx_effect_fence_create_child alloc fresh now st F (Some parent) type intentp = (e, child, st', F') →
    ∃ f', F' = <[i := f']> F ∧
      (e = ANX_OK ↔ closed (f_state f) = false ∧ expired now f = false ∧ f_child_creations f ≠ MAX64 ∧
         (f_child_limit f = 0 ∨ f_child_creations f < f_child_limit f) ∧
         (anx_cell_create alloc fresh now st type intentp).1.1 = ANX_OK) ∧
      f_child_creations f' = f_child_creations f + (if decide (e = ANX_OK) then 1 else 0) ∧
      (e = ANX_OK → (ANX_OK, child, st') = anx_cell_create alloc fresh now st type intentp) ∧
      (e ≠ ANX_OK → child = None ∧ st' = st).
Proof.
  intros Hr Hnil Hf. destruct (steps_good [] F empty_table_ok Hr) as [Hok _].
  pose proof (find_fence_Some _ _ _ _ Hf) as [Hi _]. pose proof (table_fence F i f Hok Hi) as Hfok.
  split; [apply (fo_budget _ Hfok)|]. intros alloc fresh now st type intentp e child st' F'.
  unfold anx_effect_fence_create_child. rewrite Hnil, Hf.
  destruct (closed (f_state f)) eqn:Hc.
  { rewrite state_check_closed_id by done. intros [= <- <- <- <-]. exists f. split_and!; try done.
    - by split; [|intros [? _]].
    - rewrite decide_False by done. lia. }
  destruct (expired now f) eqn:He.
  { destruct (state_check_expired now f Hc He Hfok) as (f' & -> & Hcr). intros [= <- <- <- <-]. exists f'.
    split_and!; try done.
    - by split; [|intros (_ & ? & _)].
    - rewrite decide_False by done. lia. }
  rewrite state_check_open by done. cbv zeta.
  assert ((if (if f_state f =? ANX_FENCE_HELD then ANX_EBUSY else ANX_OK) =? ANX_EBUSY then ANX_OK
           else if f_state f =? ANX_FENCE_HELD then ANX_EBUSY else ANX_OK) = ANX_OK) as ->
    by (by destruct (f_state f =? ANX_FENCE_HELD)).
  change (negb (ANX_OK =? ANX_OK)) with false. cbv iota.
  destruct ((f_child_creations f =? MAX64) || _) eqn:G.
  { intros [= <- <- <- <-]. exists f. split_and!; try done; [|rewrite decide_False by done; lia]. split; [done|].
    intros (_ & _ & Hmax & Hlim & _). apply orb_true_iff in G as [G%Z.eqb_eq|G]; [done|].
    apply andb_true_iff in G as [G1 G2]. to_prop. lia. }
  apply orb_false_iff in G as [G1%Z.eqb_neq G2].
  assert (f_child_limit f = 0 ∨ f_child_creations f < f_child_limit f) as Hlim.
  { destruct (Z.eqb_spec (f_child_limit f) 0); [by left|right]. cbn in G2. to_prop. lia. }
  destruct (anx_cell_create alloc fresh now st type intentp) as [[e2 child2] st2] eqn:Hcr.
  intros [= <- <- <- <-]. eexists. split; [done|]. cbn [fst].
  destruct (Z.eqb_spec e2 ANX_OK) as [->|Hne]; cbn [f_child_creations].
  - split_and!; [done| |done|done]. rewrite decide_True by done. cbn. lia.
  - split_and!; [|rewrite decide_False by done; lia|done|by eapply cell_create_failed in Hcr].
    split; [done|]. by intros (_ & _ & _ & _ & ?).
Qed.

Definition run_cell : anx_cell := zero_cell (Uuid 1 1) <| effect_fence_id := fence0 |>.

(** A fence with a budget of two children. *)
Definition leased_table : fence_table :=
  let F := (anx_effect_fence_create None fence0 [] true).2 in
  (anx_effect_fence_set_execution_lease None 5 F (Some fence0) 1 2 0).2.

Lemma fence_child_budget_witness :
  (2 ≠ 0 → 0 ≤ 2) ∧
  ∃ f', (anx_effect_fence_create_child true (Uuid 2 2) 9 ∅ leased_table (Some run_cell) 0
           (Some zero_intent)).2 = [f'] ∧ f_child_creations f' = 1.
Proof.
  destruct (fence_child_budget leased_table run_cell 0 (FenceView fence0 1 2 0 0 ANX_UUID_NIL 0 2 0 0))
    as [H1 H2].
  - unfold leased_table. cbv zeta. eapply rtc_r; [eapply rtc_r; [apply rtc_refl|]|]; constructor. lia.
  - reflexivity.
  - vm_compute. reflexivity.
  - split; [exact H1|].
    destruct (H2 true (Uuid 2 2) 9 ∅ 0 (Some zero_intent) ANX_OK (Some (Uuid 2 2)) _ _ eq_refl) as (f' & E & _ & H & _).
    exists f'. split; [exact E|]. exact H.
Defined.

(** ** Information flow *)

Lemma sink_check_ok f sink :
  sink_check (Some f) sink = ANX_OK →
  match sink with None => f_read_sensitivity f = ANX_SENSITIVITY_PUBLIC | Some m => f_read_sensitivity f ≤ m end.
Proof.
  unfold sink_check. destruct sink as [m|].
  - case_match; [done|]. destruct (Z.leb_spec (f_read_sensitivity f) m); [done|discriminate].
  - destruct (Z.eqb_spec (f_read_sensitivity f) ANX_SENSITIVITY_PUBLIC); [done|discriminate].
Qed.

Lemma observe_read_found a st F oid s cell st1 F1 :
  st !! a = Some cell → anx_uuid_is_nil (effect_fence_id cell) = false →
  anx_effect_fence_observe_read (Some a) st F (Some oid) s = (ANX_OK, st1, F1) →
  ∃ i f, find_fence F (effect_fence_id cell) = Some (i, f) ∧ F1 = <[i := observe oid s f]> F ∧
    ANX_SENSITIVITY_PUBLIC ≤ s ≤ ANX_SENSITIVITY_RESTRICTED.
Proof.
  intros Ha Hnil. unfold anx_effect_fence_observe_read, anx_cell_store_lookup. rewrite Ha. cbv zeta.
  change (effect_fence_id (cell <| refcount ::= λ n, u32 (n + 1) |>)) with (effect_fence_id cell). rewrite Hnil.
  destruct (anx_uuid_is_nil oid || _ || _) eqn:G; [discriminate|].
  apply orb_false_iff in G as [G G2]. apply orb_false_iff in G as [_ G1]. to_prop.
  destruct (find_fence F (effect_fence_id cell)) as [[i f]|]; [|discriminate].
  intros [= _ <-]. exists i, f. split_and!; (done || unfold ANX_SENSITIVITY_PUBLIC; lia).
Qed.

(** What a run has read bounds what its effects may be sent to: after an object of
    sensitivity [s] was read and any further calls, an effect is dispatched only to
    a sink whose ceiling is at least [s], without a sink only if [s] is public. *)
Lemma run_label_bounds_sink F a st cell oid s st1 F1 F2 now sink_max st2 eff st3 F3 eff3 :
  rtc fence_step [] F → st !! a = Some cell → anx_uuid_is_nil (effect_fence_id cell) = false →
  anx_effect_fence_observe_read (Some a) st F (Some oid) s = (ANX_OK, st1, F1) →
  rtc fence_step F1 F2 → e_fence_id eff = effect_fence_id cell →
  anx_effect_fence_dispatch now sink_max st2 F2 (Some eff) = (ANX_OK, st3, F3, eff3) →
  match e_sink eff with None => s = ANX_SENSITIVITY_PUBLIC | Some k => s ≤ sink_max k end.
Proof.
  intros Hr Ha Hnil Hobs Hr2 He Hd. destruct (steps_good [] F empty_table_ok Hr) as [Hok _].
  destruct (observe_read_found a st F oid s cell st1 F1 Ha Hnil Hobs) as (i & f & Hf & -> & Hs).
  pose proof (find_fence_Some _ _ _ _ Hf) as [Hi Hid].
  destruct (observe_ok oid s f (table_fence F i f Hok Hi) Hs) as (Hobs1 & Hev1 & Hle).
  destruct (good_update F i f (observe oid s f) Hok Hi Hobs1 Hev1) as [Hok1 _].
  assert (find_fence (<[i := observe oid s f]> F) (effect_fence_id cell) = Some (i, observe oid s f)) as Hf1.
  { apply find_fence_unique; [apply Hok1|apply list_lookup_insert_eq; by eapply lookup_lt_Some|].
    by rewrite (ev_id _ _ Hev1). }
  destruct (find_later _ F2 _ i _ Hok1 Hr2 Hf1) as (Hok2 & f2 & Hf2 & Hfok2 & Hev2).
  pose proof (ev_read _ _ Hev2) as Hmono. unfold anx_effect_fence_dispatch in Hd.
  destruct (anx_cell_store_lookup st2 (e_cell eff)) as [[c2|] st2']; [|discriminate].
  rewrite He, Hnil, Hf2 in Hd. destruct (negb (e_phase eff =? _)); [discriminate|].
  destruct (negb (uuid_eqb _ _)); [discriminate|]. destruct (negb (f_epoch f2 =? _)); [discriminate|].
  destruct (state_check now f2) as [e f3] eqn:Hc.
  destruct (state_check_ok now f2 e f3 Hfok2 Hc) as (_ & Hev3 & _). pose proof (ev_read _ _ Hev3) as Hmono3.
  destruct (Z.eqb_spec e ANX_OK) as [->|Hne]; [|by injection Hd as -> _ _ _].
  injection Hd as Hsc _ _ _. apply sink_check_ok in Hsc. unfold ANX_SENSITIVITY_PUBLIC in *.
  destruct (e_sink eff); cbn in Hsc; lia.
Qed.

(** A store with one cell bound to that fence. *)
Definition run_store : cell_store := {[ Uuid 1 1 := run_cell ]}.
