(* ===== verification/Meta.v ===== *)
(** * Metadata stores: [kernel/core/state/meta.c], [meta.h]

    A hash table of 64 buckets from byte-string keys to tagged values.  Strings
    are lists of bytes without their terminator.  Allocations consume the head
    of [mem] (an exhausted list is memory that never fails); destruction only
    releases memory and is not modelled. *)

From S2P Require Import Prelude Uuid Cell CellStore.

(** ** FNV-1a, [anx_hash_bytes] of [kernel/lib/hashtable.c] *)

Definition FNV_OFFSET : Z := 0xcbf29ce484222325.
Definition FNV_PRIME : Z := 0x100000001b3.

Definition anx_hash_bytes (data : list Z) : Z := foldl (λ h b, u64 (Z.lxor h b * FNV_PRIME)) FNV_OFFSET data.

(** ** Data *)

Definition META_HASH_BITS : Z := 6.
Definition ANX_META_KEY_MAX : nat := 256.

Inductive anx_meta_vtype := ANX_META_STRING | ANX_META_INT64 | ANX_META_FLOAT64 | ANX_META_BOOL | ANX_META_BYTES.

(** The first word of the union; [MemStr None] is a null pointer. *)
Inductive meta_word := MemStr (data : option (list Z)) | MemInt (v : Z) | MemBool (b : bool).

(** [mv_len] is the length field of the union: setting an integer or a flag
    leaves it as it is. *)
Record anx_meta_value := MetaValue { mv_type : anx_meta_vtype; mv_word : meta_word; mv_len : Z }.

Record anx_meta_entry := MetaEntry { me_key : list Z; me_value : anx_meta_value }.

Abbreviation anx_meta_store := (list (list anx_meta_entry)).

Definition next_alloc (mem : list bool) : bool * list bool :=
  match mem with [] => (true, []) | b :: mem => (b, mem) end.

(** ** Operations *)

Definition meta_key_hash (k : list Z) : Z := anx_hash_bytes k.

Definition meta_bucket (k : list Z) : nat := Z.to_nat (Z.land (meta_key_hash k) (Z.shiftl 1 META_HASH_BITS - 1)).

Definition bucket_of (store : anx_meta_store) (k : list Z) : list anx_meta_entry := default [] (store !! meta_bucket k).

(** The position of the entry within its bucket. *)
Fixpoint find_in (l : list anx_meta_entry) (k : list Z) : option nat :=
  match l with
  | [] => None
  | e :: l => if bool_decide (me_key e = k) then Some 0%nat else S <$> find_in l k
  end.

Definition meta_find (store : anx_meta_store) (k : list Z) : option nat := find_in (bucket_of store k) k.

Definition anx_meta_create (mem : list bool) : option anx_meta_store * list bool :=
  let '(ok, mem) := next_alloc mem in
  when negb ok ret (None, mem) ;;
  let '(ok, mem) := next_alloc mem in
  when negb ok ret (None, mem) ;;
  (Some (replicate (Z.to_nat (Z.shiftl 1 META_HASH_BITS)) []), mem).

(** Find the entry, or chain a zeroed one at the head of its bucket. *)
Definition meta_entry_for (store : anx_meta_store) (k : list Z) (mem : list bool)
    : option (anx_meta_store * nat) * list bool :=
  match meta_find store k with
  | Some i => (Some (store, i), mem)
  | None =>
      let '(ok, mem) := next_alloc mem in
      when negb ok ret (None, mem) ;;
      let e := MetaEntry (anx_strlcpy k ANX_META_KEY_MAX) (MetaValue ANX_META_STRING (MemStr None) 0) in
      (Some (<[meta_bucket k := e :: bucket_of store k]> store, 0%nat), mem)
  end.

(** [entry->value = f(entry->value)] for entry [i] of the bucket of [k]. *)
Definition meta_write (store : anx_meta_store) (k : list Z) (i : nat) (f : anx_meta_value → anx_meta_value) : anx_meta_store :=
  alter (alter (λ e, MetaEntry (me_key e) (f (me_value e))) i) (meta_bucket k) store.

Definition anx_meta_set_str (store : anx_meta_store) (k val : list Z) (mem : list bool)
    : Z * anx_meta_store * list bool :=
  let '(r, mem) := meta_entry_for store k mem in
  match r with
  | None => (ANX_ENOMEM, store, mem)
  | Some (store, i) =>
      let '(ok, mem) := next_alloc mem in
      when negb ok ret (ANX_ENOMEM, meta_write store k i (λ v, MetaValue ANX_META_STRING (MemStr None) (mv_len v)), mem) ;;
      (ANX_OK, meta_write store k i (λ v, MetaValue ANX_META_STRING (MemStr (Some val)) (u32 (Z.of_nat (length val)))), mem)
  end.

Definition anx_meta_set_i64 (store : anx_meta_store) (k : list Z) (val : Z) (mem : list bool)
    : Z * anx_meta_store * list bool :=
  let '(r, mem) := meta_entry_for store k mem in
  match r with
  | None => (ANX_ENOMEM, store, mem)
  | Some (store, i) => (ANX_OK, meta_write store k i (λ v, MetaValue ANX_META_INT64 (MemInt val) (mv_len v)), mem)
  end.

Definition anx_meta_set_bool (store : anx_meta_store) (k : list Z) (val : bool) (mem : list bool)
    : Z * anx_meta_store * list bool :=
  let '(r, mem) := meta_entry_for store k mem in
  match r with
  | None => (ANX_ENOMEM, store, mem)
  | Some (store, i) => (ANX_OK, meta_write store k i (λ v, MetaValue ANX_META_BOOL (MemBool val) (mv_len v)), mem)
  end.

Definition anx_meta_get (store : anx_meta_store) (k : list Z) : option anx_meta_value :=
  i ← meta_find store k; e ← bucket_of store k !! i; Some (me_value e).

Definition anx_meta_delete (store : anx_meta_store) (k : list Z) : Z * anx_meta_store :=
  match meta_find store k with
  | None => (ANX_ENOENT, store)
  | Some i => (ANX_OK, <[meta_bucket k := delete i (bucket_of store k)]> store)
  end.

(** The callback threads the caller's [arg]. *)
Definition anx_meta_iterate {A : Type} (store : anx_meta_store) (cb : anx_meta_entry → A → A) (arg : A) : A :=
  foldl (λ a e, cb e a) arg (concat store).

(** ** The store is a map from keys to values *)

Definition key_fits (k : list Z) : Prop := (length k < ANX_META_KEY_MAX)%nat.

(** Every key is in its bucket, once. *)
Record meta_ok (store : anx_meta_store) : Prop := {
  mo_size : length store = 64%nat;
  mo_hash : ∀ b l e, store !! b = Some l → e ∈ l → meta_bucket (me_key e) = b;
  mo_unique : ∀ b l, store !! b = Some l → NoDup (me_key <$> l);
}.

Lemma meta_bucket_lt k : (meta_bucket k < 64)%nat.
Proof.
  unfold meta_bucket. change (Z.shiftl 1 META_HASH_BITS - 1) with (Z.ones 6). rewrite Z.land_ones by lia.
  pose proof (Z.mod_pos_bound (meta_key_hash k) (2 ^ 6)). lia.
Qed.

Lemma bucket_lookup store k : meta_ok store → store !! meta_bucket k = Some (bucket_of store k).
Proof.
  intros [Hs _ _]. unfold bucket_of. destruct (lookup_lt_is_Some_2 store (meta_bucket k)) as [l ->]; [|done].
  rewrite Hs. apply meta_bucket_lt.
Qed.

Lemma find_in_Some l k i : find_in l k = Some i → ∃ e, l !! i = Some e ∧ me_key e = k.
Proof.
  revert i. induction l as [|e l IH]; intros i; cbn [find_in]; [done|]. case_bool_decide.
  - intros [= <-]. by exists e.
  - intros (j & Hj & ->)%fmap_Some. by apply IH.
Qed.

Lemma find_in_None l k : find_in l k = None → k ∉ me_key <$> l.
Proof.
  induction l as [|e l IH]; cbn [find_in]; [intros _; apply not_elem_of_nil|]. case_bool_decide; [done|].
  intros Hn%fmap_None. rewrite fmap_cons, not_elem_of_cons. split; [congruence|by apply IH].
Qed.

(** The value under a key in a bucket. *)
Definition lget (l : list anx_meta_entry) (k : list Z) : option anx_meta_value :=
  i ← find_in l k; e ← l !! i; Some (me_value e).

Lemma lget_spec l k v : NoDup (me_key <$> l) → lget l k = Some v ↔ MetaEntry k v ∈ l.
Proof.
  intros Hnd. unfold lget. split.
  - destruct (find_in l k) as [i|] eqn:E; [|done]. apply find_in_Some in E as ([k' v'] & Hx & <-). cbn. rewrite Hx. cbn.
    intros [= <-]. by eapply list_elem_of_lookup_2.
  - intros [j Hj]%list_elem_of_lookup_1. destruct (find_in l k) as [i|] eqn:E.
    + apply find_in_Some in E as (x & Hx & Hxk). cbn. rewrite Hx. cbn. assert (i = j) as ->; [|by rewrite Hj in Hx; injection Hx as <-].
      eapply (NoDup_lookup _ i j k Hnd); rewrite list_lookup_fmap; [by rewrite Hx, <- Hxk|by rewrite Hj].
    + apply find_in_None in E. destruct E. apply list_elem_of_fmap. exists (MetaEntry k v). split; [done|]. by eapply list_elem_of_lookup_2.
Qed.

Lemma lget_ext l l' k k' : NoDup (me_key <$> l) → NoDup (me_key <$> l') →
  (∀ v, MetaEntry k v ∈ l ↔ MetaEntry k' v ∈ l') → lget l k = lget l' k'.
Proof. intros H1 H2 H. apply option_eq. intros v. by rewrite !lget_spec. Qed.

(** A store in which one bucket is replaced. *)
Lemma bucket_of_insert store k l k' : meta_ok store →
  bucket_of (<[meta_bucket k := l]> store) k' = if decide (meta_bucket k' = meta_bucket k) then l else bucket_of store k'.
Proof.
  intros [Hs _ _]. unfold bucket_of. pose proof (meta_bucket_lt k). case_decide as E.
  - rewrite E, list_lookup_insert_eq by lia. done.
  - by rewrite list_lookup_insert_ne.
Qed.

(** Replacing the bucket of [k] by [l], where [l] has the entries of the other keys
    and the value [v] (or none) under [k]. *)
Lemma replace_bucket store k l v : meta_ok store → NoDup (me_key <$> l) →
  (∀ e, e ∈ l ↔ (∃ x, v = Some x ∧ e = MetaEntry k x) ∨ (e ∈ bucket_of store k ∧ me_key e ≠ k)) →
  meta_ok (<[meta_bucket k := l]> store) ∧
  ∀ k', anx_meta_get (<[meta_bucket k := l]> store) k' = if decide (k' = k) then v else anx_meta_get store k'.
Proof.
  intros Hok Hnd Hl. pose proof Hok as [Hs Hh Hu]. pose proof (bucket_lookup store k Hok) as Hb. split; [constructor|].
  - by rewrite length_insert.
  - intros b l' e [(<- & <- & _)|[_ Hb']]%list_lookup_insert_Some He; [|by eapply Hh].
    apply Hl in He as [(x & _ & ->)|[He _]]; [done|by eapply Hh].
  - intros b l' [(<- & <- & _)|[_ Hb']]%list_lookup_insert_Some; [done|by eapply Hu].
  - intros k'. change (anx_meta_get ?s k') with (lget (bucket_of s k') k'). rewrite bucket_of_insert by done.
    specialize (Hu _ _ Hb). repeat case_decide; subst; try done.
    + apply option_eq. intros y. rewrite lget_spec, Hl by done. cbn. split; [|intros ->; eauto]. by intros [(x & -> & [= <-])|[_ ?]].
    + unfold bucket_of at 1. replace (meta_bucket k') with (meta_bucket k) by done. change (default [] _) with (bucket_of store k).
      apply lget_ext; [done|done|]. intros y. rewrite Hl. cbn. split; [by intros [(x & _ & [= -> _])|[? _]]|by right].
Qed.

Lemma alter_insert_list {A : Type} (f : A → A) (i : nat) x (l : list A) : l !! i = Some x → alter f i l = <[i := f x]> l.
Proof. intros Hx. rewrite list_insert_alter. apply list_alter_ext; [|done]. intros y Hy. congruence. Qed.

Lemma meta_empty : meta_ok (replicate 64 []) ∧ ∀ k, anx_meta_get (replicate 64 []) k = None.
Proof.
  split; [constructor|].
  - apply length_replicate.
  - intros b l e [-> _]%lookup_replicate He. by apply not_elem_of_nil in He.
  - intros b l [-> _]%lookup_replicate. constructor.
  - intros k. change (lget (bucket_of (replicate 64 []) k) k = None). unfold bucket_of. by rewrite lookup_replicate_2 by apply meta_bucket_lt.
Qed.

(** Writing [f] of the old value (zero for a new key) under [k]. *)
Lemma meta_set_spec store k f : meta_ok store → key_fits k →
  ∃ store1 i, meta_entry_for store k [] = (Some (store1, i), []) ∧ meta_ok (meta_write store1 k i f) ∧
    ∀ k', anx_meta_get (meta_write store1 k i f) k' =
      if decide (k' = k) then Some (f (default (MetaValue ANX_META_STRING (MemStr None) 0) (anx_meta_get store k)))
      else anx_meta_get store k'.
Proof.
  intros Hok Hk. pose proof (bucket_lookup store k Hok) as Hb. pose proof (mo_unique _ Hok _ _ Hb) as Hnd.
  unfold meta_entry_for, meta_find. change (anx_meta_get store k) with (lget (bucket_of store k) k).
  destruct (find_in (bucket_of store k) k) as [i|] eqn:E.
  - pose proof (find_in_Some _ _ _ E) as ([k0 v0] & Hi & Hk0). cbn in Hk0. subst k0.
    exists store, i. split; [done|]. unfold meta_write. rewrite (alter_insert_list _ _ _ _ Hb).
    set (l := alter _ i (bucket_of store k)). assert (l = <[i := MetaEntry k (f v0)]> (bucket_of store k)) as Hl by (unfold l; by rewrite (alter_insert_list _ _ _ _ Hi)).
    assert (me_key <$> l = me_key <$> bucket_of store k) as Hkeys.
    { rewrite Hl, list_fmap_insert. apply list_insert_id. by rewrite list_lookup_fmap, Hi. }
    assert (lget (bucket_of store k) k = Some v0) as -> by (apply lget_spec; [done|by eapply list_elem_of_lookup_2]).
    apply replace_bucket; [done|by rewrite Hkeys|]. intros e. rewrite Hl. pose proof (lookup_lt_Some _ _ _ Hi). split.
    + intros [j Hj]%list_elem_of_lookup_1. apply list_lookup_insert_Some in Hj as [(-> & <- & _)|[Hne Hj]]; [left; eauto|right].
      split; [by eapply list_elem_of_lookup_2|]. intros Heq. apply Hne.
      eapply (NoDup_lookup _ i j k Hnd); rewrite list_lookup_fmap; [by rewrite Hi|by rewrite Hj, <- Heq].
    + intros [(x & [= <-] & ->)|[He Hne]].
      * apply (list_elem_of_lookup_2 _ i). by apply list_lookup_insert_eq.
      * apply list_elem_of_lookup_1 in He as [j Hj]. apply (list_elem_of_lookup_2 _ j). rewrite list_lookup_insert_ne; [done|].
        intros ->. apply Hne. by rewrite Hi in Hj; injection Hj as <-.
  - pose proof (find_in_None _ _ E) as Habs. cbn [next_alloc negb]. eexists _, _. split; [done|]. unfold meta_write.
    assert (anx_strlcpy k ANX_META_KEY_MAX = k) as -> by (unfold anx_strlcpy; apply take_ge; unfold key_fits in Hk; lia).
    rewrite (alter_insert_list _ _ (MetaEntry k (MetaValue ANX_META_STRING (MemStr None) 0) :: bucket_of store k))
      by (apply list_lookup_insert_eq; rewrite (mo_size _ Hok); apply meta_bucket_lt).
    cbn [alter list_alter me_key me_value]. rewrite list_insert_insert_eq.
    assert (lget (bucket_of store k) k = None) as -> by (unfold lget; by rewrite E).
    apply replace_bucket; [done|by apply NoDup_cons|]. intros e. rewrite elem_of_cons. split.
    + intros [->|He]; [left; eauto|right]. split; [done|]. intros <-. apply Habs. by apply list_elem_of_fmap_2.
    + intros [(x & [= <-] & ->)|[He _]]; auto.
Qed.

Lemma meta_delete_spec store k : meta_ok store →
  (anx_meta_delete store k).1 = (if anx_meta_get store k is Some _ then ANX_OK else ANX_ENOENT) ∧ meta_ok (anx_meta_delete store k).2 ∧
  ∀ k', anx_meta_get (anx_meta_delete store k).2 k' = if decide (k' = k) then None else anx_meta_get store k'.
Proof.
  intros Hok. pose proof (bucket_lookup store k Hok) as Hb. pose proof (mo_unique _ Hok _ _ Hb) as Hnd.
  unfold anx_meta_delete, meta_find. change (anx_meta_get store k) with (lget (bucket_of store k) k).
  destruct (find_in (bucket_of store k) k) as [i|] eqn:E; cbn [fst snd].
  - pose proof (find_in_Some _ _ _ E) as ([k0 v0] & Hi & Hk0). cbn in Hk0. subst k0.
    assert (lget (bucket_of store k) k = Some v0) as -> by (apply lget_spec; [done|by eapply list_elem_of_lookup_2]). split; [done|].
    rewrite (delete_take_drop (bucket_of store k) i). rewrite <- (take_drop_middle _ _ _ Hi) in Hnd.
    rewrite fmap_app, fmap_cons in Hnd. apply NoDup_app in Hnd as (Hn1 & Hn2 & Hn3). apply NoDup_cons in Hn3 as [Hn3 Hn4].
    apply replace_bucket; [done| |].
    + rewrite fmap_app. apply NoDup_app. split_and!; [done| |done]. intros x Hx Hx'. apply (Hn2 x Hx). by right.
    + intros e. rewrite <- (take_drop_middle _ _ _ Hi) at 3. rewrite !elem_of_app, elem_of_cons. split.
      2: { intros [(x & ? & _)|[[?|[->|?]] Hne]]; [done|auto|by destruct Hne|auto]. }
      intros [He|He]; right; (split; [auto|]); intros Heq.
      * apply (Hn2 (me_key e)); [exact (list_elem_of_fmap_2 me_key _ _ He)|]. rewrite Heq. apply list_elem_of_here.
      * apply Hn3. rewrite <- Heq at 1. exact (list_elem_of_fmap_2 me_key _ _ He).
  - assert (lget (bucket_of store k) k = None) as HN by (unfold lget; by rewrite E). rewrite HN. split_and!; [done|done|].
    intros k'. case_decide; [subst|done]. exact HN.
Qed.

Inductive meta_data := DStr (l : list Z) | DInt (v : Z) | DBool (b : bool).

(** What a reader makes of a value. *)
Definition meta_view (v : anx_meta_value) : option meta_data :=
  match mv_type v, mv_word v with
  | ANX_META_STRING, MemStr (Some l) => Some (DStr l)
  | ANX_META_INT64, MemInt v => Some (DInt v)
  | ANX_META_BOOL, MemBool b => Some (DBool b)
  | _, _ => None
  end.

Inductive meta_op := MetaSet (k : list Z) (d : meta_data) | MetaDelete (k : list Z).

Definition op_key (op : meta_op) : list Z := match op with MetaSet k _ | MetaDelete k => k end.

Definition meta_step (op : meta_op) (store : anx_meta_store) : Z * anx_meta_store :=
  match op with
  | MetaSet k (DStr l) => (anx_meta_set_str store k l []).1
  | MetaSet k (DInt v) => (anx_meta_set_i64 store k v []).1
  | MetaSet k (DBool b) => (anx_meta_set_bool store k b []).1
  | MetaDelete k => anx_meta_delete store k
  end.

Definition map_step (op : meta_op) (m : gmap (list Z) meta_data) : Z * gmap (list Z) meta_data :=
  match op with
  | MetaSet k d => (ANX_OK, <[k := d]> m)
  | MetaDelete k => (if m !! k is Some _ then ANX_OK else ANX_ENOENT, delete k m)
  end.

(** The store answers every lookup as the map [m] does. *)
Definition meta_rep (store : anx_meta_store) (m : gmap (list Z) meta_data) : Prop :=
  meta_ok store ∧ ∀ k, match anx_meta_get store k with Some v => meta_view v = m !! k ∧ is_Some (m !! k) | None => m !! k = None end.

Lemma meta_rep_set store m k d f : meta_rep store m → key_fits k → (∀ v, meta_view (f v) = Some d) →
  ∃ store1 i, meta_entry_for store k [] = (Some (store1, i), []) ∧ meta_rep (meta_write store1 k i f) (<[k := d]> m).
Proof.
  intros [Hok Hm] Hk Hf. destruct (meta_set_spec store k f Hok Hk) as (store1 & i & HE & Hok' & Hget). exists store1, i.
  split; [done|]. split; [done|]. intros k'. rewrite Hget. case_decide as Hd; [subst|].
  - rewrite lookup_insert_eq, Hf. eauto.
  - rewrite lookup_insert_ne by done. apply Hm.
Qed.

Lemma meta_step_spec op store m : meta_rep store m → key_fits (op_key op) →
  (meta_step op store).1 = (map_step op m).1 ∧ meta_rep (meta_step op store).2 (map_step op m).2.
Proof.
  intros Hr Hk. destruct op as [k [l|v|b]|k]; cbn [meta_step map_step op_key] in *.
  - destruct (meta_rep_set store m k (DStr l) (λ _, MetaValue ANX_META_STRING (MemStr (Some l)) (u32 (Z.of_nat (length l)))) Hr Hk) as (s1 & i & HE & H); [done|].
    unfold anx_meta_set_str. rewrite HE. done.
  - destruct (meta_rep_set store m k (DInt v) (λ x, MetaValue ANX_META_INT64 (MemInt v) (mv_len x)) Hr Hk) as (s1 & i & HE & H); [done|].
    unfold anx_meta_set_i64. rewrite HE. done.
  - destruct (meta_rep_set store m k (DBool b) (λ x, MetaValue ANX_META_BOOL (MemBool b) (mv_len x)) Hr Hk) as (s1 & i & HE & H); [done|].
    unfold anx_meta_set_bool. rewrite HE. done.
  - destruct Hr as [Hok Hm]. destruct (meta_delete_spec store k Hok) as (H1 & H2 & H3). split; [|split; [done|]].
    + rewrite H1. specialize (Hm k). destruct (anx_meta_get store k); [destruct Hm as [_ [? ->]]|rewrite Hm]; done.
    + intros k'. rewrite H3. case_decide; [subst; apply lookup_delete_eq|]. cbn. rewrite lookup_delete_ne by done. apply Hm.
Qed.

Fixpoint meta_run {S : Type} (step : meta_op → S → Z * S) (ops : list meta_op) (s : S) : list Z * S :=
  match ops with
  | [] => ([], s)
  | op :: ops => let '(r, s) := step op s in let '(rs, s) := meta_run step ops s in (r :: rs, s)
  end.

(** A metadata store is a finite map: after any sequence of sets and
    deletions with keys of fewer than 256 bytes, the return codes and every
    lookup are those of a map from keys to values. *)
Theorem meta_refines_map store ops :
  anx_meta_create [] = (Some store, []) → Forall (λ op, key_fits (op_key op)) ops →
  let '(rs, s) := meta_run meta_step ops store in let '(rs', m) := meta_run map_step ops ∅ in
  rs = rs' ∧ ∀ k, anx_meta_get s k ≫= meta_view = m !! k.
Proof.
  intros Hc Hops. assert (meta_rep store ∅) as Hr.
  { replace store with (replicate 64 ([] : list anx_meta_entry)); [|by injection Hc]. destruct meta_empty as [Hok Hn].
    split; [done|]. intros k. by rewrite Hn. }
  clear Hc. revert store Hr. generalize (∅ : gmap (list Z) meta_data) as m. induction Hops as [|op ops Hop _ IH]; intros m store Hr; cbn [meta_run].
  - split; [done|]. intros k. destruct Hr as [_ Hm]. specialize (Hm k). destruct (anx_meta_get store k); cbn; [apply Hm|done].
  - destruct (meta_step_spec op store m Hr Hop) as [H1 H2]. destruct (meta_step op store) as [r s'], (map_step op m) as [r' m'].
    specialize (IH m' s' H2). destruct (meta_run meta_step ops s') as [rs s''], (meta_run map_step ops m') as [rs' m'']. cbn in *.
    destruct IH as [-> IH]. by split; [f_equal|].
Qed.

Definition long_key : list Z := repeat 97 256.

(** The bound on the key matters: a key of 256 bytes is stored cut to 255, so
    the value just set is not found, and setting it again adds a second entry. *)
Theorem meta_long_key_lost :
  let '(rs, s) := meta_run meta_step [MetaSet long_key (DInt 1); MetaSet long_key (DInt 2)] (replicate 64 []) in
  rs = [ANX_OK; ANX_OK] ∧ anx_meta_get s long_key = None ∧ length (concat s) = 2%nat.
Proof. vm_compute. done. Qed.
