(* ===== verification/Review.v ===== *)
(** * Epistemic reviews, the data: [kernel/include/anx/epistemic.h] and
    [kernel/core/state/epistemic.c]

    A review binds the proposed bytes of an open stage to a panel of reviewers.
    Each reviewer votes once, from a sealed piece of evidence; the objects the
    evidence derives from form a graph whose sources are its _roots_.

    An array with a count is the list of the entries that count (the rest of the
    array is zero); a cell pointer is the key of the cell, a pointer to a record
    its slot in the table. *)

From S2P Require Import Prelude Uuid.

Definition ANX_EAUDIT : Z := -17.
Definition ANX_EPISTEMIC_MAX : nat := 16.
Definition ANX_EPISTEMIC_REVIEWERS : Z := 8.
Definition ANX_EPISTEMIC_NODES : Z := 32.
Definition ANX_EPISTEMIC_ROOTS : Z := 8.

Inductive anx_epistemic_state := ANX_EPISTEMIC_OPEN | ANX_EPISTEMIC_COMMITTED | ANX_EPISTEMIC_ABORTED.

#[export] Instance epistemic_state_eq_dec : EqDecision anx_epistemic_state.
Proof. solve_decision. Defined.

(** [sp_reviewers] has all eight entries. *)
Record anx_epistemic_spec := EpistemicSpec {
  sp_count : Z;
  sp_threshold : Z;
  sp_minimum_cut : Z;
  sp_reviewers : list anx_uuid;
}.

Record anx_epistemic_view := EpistemicView {
  w_id : Z;
  w_owner : anx_uuid;
  w_target : anx_uuid;
  w_proposal_digest : list Z;
  w_votes : Z;
  w_valid_approvals : Z;
  w_structural_cut : Z;
  w_threshold : Z;
  w_minimum_cut : Z;
  w_roots : Z;
  w_state : anx_epistemic_state;
  w_ready : bool;
}.

#[export] Instance eta_view : Settable anx_epistemic_view := λ r,
  EpistemicView (w_id r) (w_owner r) (w_target r) (w_proposal_digest r) (w_votes r) (w_valid_approvals r) (w_structural_cut r)
    (w_threshold r) (w_minimum_cut r) (w_roots r) (w_state r) (w_ready r).

Record evidence_node := EvidenceNode {
  n_oid : anx_uuid;
  n_parents : list anx_uuid;
  n_version : Z;
  n_size : Z;
  n_sensitivity : Z;
  n_digest : list Z;
  n_nodes : Z;
  n_roots : Z;
}.

#[export] Instance eta_node : Settable evidence_node := λ r,
  EvidenceNode (n_oid r) (n_parents r) (n_version r) (n_size r) (n_sensitivity r) (n_digest r) (n_nodes r) (n_roots r).

Record evidence_vote := EvidenceVote { v_cast : bool; v_approve : bool; v_nodes : Z; v_roots : Z }.

Definition no_vote : evidence_vote := EvidenceVote false false 0 0.

Record epistemic_record := EpistemicRecord {
  e_view : anx_epistemic_view;
  e_spec : anx_epistemic_spec;
  e_owner : option anx_uuid;
  e_reviewers : list anx_uuid;
  e_owner_identity : anx_uuid;
  e_reviewer_identity : list anx_uuid;
  e_roots : list anx_uuid;
  e_nodes : list evidence_node;
  e_votes : list evidence_vote;  (* all eight *)
  e_proposal_size : Z;
  e_sensitivity : Z;
  e_base_version : Z;
}.

#[export] Instance eta_record : Settable epistemic_record := λ r,
  EpistemicRecord (e_view r) (e_spec r) (e_owner r) (e_reviewers r) (e_owner_identity r) (e_reviewer_identity r) (e_roots r)
    (e_nodes r) (e_votes r) (e_proposal_size r) (e_sensitivity r) (e_base_version r).

(** [records] and [sequence]. *)
Record epistemic_table := EpistemicTable { records : list (option epistemic_record); sequence : Z }.

#[export] Instance eta_table : Settable epistemic_table := λ r, EpistemicTable (records r) (sequence r).

Definition epistemic_boot : epistemic_table := EpistemicTable (replicate ANX_EPISTEMIC_MAX None) 0.

Definition is_record (id : Z) (slot : option epistemic_record) : bool :=
  match slot with Some r => w_id (e_view r) =? id | None => false end.

Fixpoint slot_where {A} (p : A → bool) (l : list A) : option nat :=
  match l with
  | [] => None
  | x :: l => if p x then Some 0%nat else S <$> slot_where p l
  end.

(** The record with this id, and its slot. *)
Definition find_record (E : epistemic_table) (id : Z) : option (nat * epistemic_record) :=
  match slot_where (is_record id) (records E) with
  | None => None
  | Some i => (λ r, (i, r)) <$> mjoin (records E !! i)
  end.

Definition put_record (i : nat) (r : epistemic_record) (E : epistemic_table) : epistemic_table :=
  E <| records ::= <[i := Some r]> |>.

(** Kernighan's loop; 32 rounds are enough for 32 bits. *)
Fixpoint bits_loop (fuel : nat) (value count : Z) : Z :=
  match fuel with
  | O => count
  | S fuel => if value =? 0 then count else bits_loop fuel (Z.land value (value - 1)) (u32 (count + 1))
  end.
Definition bits (value : Z) : Z := bits_loop 32 value 0.
