(* ===== verification/StateObject.v ===== *)
(** * State objects: [kernel/core/state/] and [state_object.h]

    The in-memory object store ([objstore.c]), the life cycle ([lifecycle.c]),
    access rules ([access.c]), provenance logs ([provenance.c]) and
    information-flow labels ([flow.c]); staged mutation is in [Stage.v].

    An object pointer is an address, the key of the object in [so_heap]; the hash
    table is the list of the addresses in it, newest first (the order within a
    bucket), so that an object removed from the table lives on for those who hold
    a handle.  A payload pointer is the bytes of its buffer, [None] is [NULL].
    Allocations consume the head of [so_mem] (an exhausted list is memory that
    never fails).  The running cell ([current]), the clock and generated ids are
    arguments; SHA-256 and the UOR projection are services, and parameters here.  Object locks are not
    modelled: a call is one step. *)

From stdpp Require Import strings.
From S2P Require Import Prelude Uuid Cell Sched CellStore EffectFence Meta Review.
#[local] Open Scope Z_scope.

(** ** Life cycle, [lifecycle.c] *)

Definition ANX_OBJ_CREATING : Z := 0.
Definition ANX_OBJ_ACTIVE : Z := 1.
Definition ANX_OBJ_SEALED : Z := 2.
Definition ANX_OBJ_EXPIRED : Z := 3.
Definition ANX_OBJ_DELETED : Z := 4.
Definition ANX_OBJ_TOMBSTONE : Z := 5.

(** The rows of the table, from CREATING to TOMBSTONE. *)
Definition valid_transitions : list (list bool) :=
  [[false; true; false; false; false; false];
   [false; false; true; false; true; false];
   [false; false; false; true; true; false];
   [false; false; false; false; true; false];
   [false; false; false; false; false; true];
   [false; false; false; false; false; false]].

(** The result and the new state. *)
Definition anx_lifecycle_transition (old_state new_state : Z) : Z * Z :=
  when (old_state <? 0) || (old_state >=? ANX_OBJ_TOMBSTONE + 1) ret (ANX_EINVAL, old_state) ;;
  when (new_state <? 0) || (new_state >=? ANX_OBJ_TOMBSTONE + 1) ret (ANX_EINVAL, old_state) ;;
  when negb (rd false (rd [] valid_transitions old_state) new_state) ret (ANX_EINVAL, old_state) ;;
  (ANX_OK, new_state).

(** ** Access rules, [access.c] *)

Definition ANX_ACCESS_READ_PAYLOAD : Z := Z.shiftl 1 0.
Definition ANX_ACCESS_WRITE_PAYLOAD : Z := Z.shiftl 1 2.
Definition ANX_MAX_ACCESS_RULES : Z := 16.

Inductive anx_access_effect := ANX_EFFECT_ALLOW | ANX_EFFECT_DENY.

Record anx_access_rule := AccessRule { principal : anx_uuid; operations : Z; effect : anx_access_effect }.

Record anx_access_policy := AccessPolicy { rules : list anx_access_rule; rule_count : Z }.

Definition principal_match (rule : anx_access_rule) (cell : option anx_uuid) : bool :=
  if anx_uuid_is_nil (principal rule) then true
  else match cell with Some c => anx_uuid_compare (principal rule) c =? 0 | None => false end.

(** The loop over the rules that count. *)
Fixpoint evaluate_rules (l : list anx_access_rule) (cell : option anx_uuid) (op : Z) : Z :=
  match l with
  | [] => ANX_OK
  | rule :: l =>
      if negb (principal_match rule cell) then evaluate_rules l cell op
      else if Z.land (operations rule) op =? 0 then evaluate_rules l cell op
      else match effect rule with ANX_EFFECT_DENY => ANX_EPERM | ANX_EFFECT_ALLOW => ANX_OK end
  end.

Definition anx_access_evaluate (policy : option anx_access_policy) (cell : option anx_uuid) (op : Z) : Z :=
  match policy with
  | None => ANX_OK
  | Some policy =>
      when rule_count policy =? 0 ret ANX_OK ;;
      evaluate_rules (firstn (Z.to_nat (Z.min (rule_count policy) ANX_MAX_ACCESS_RULES)) (rules policy)) cell op
  end.

(** ** Provenance, [provenance.c] *)

Definition PROV_INITIAL_CAP : Z := 8.
Definition ANX_PROV_CREATED : Z := 0.
Definition ANX_PROV_MUTATED : Z := 1.
Definition ANX_PROV_SEALED : Z := 3.
Definition ANX_PROV_STAGE_ABORTED : Z := 7.

Record anx_prov_event := ProvEvent {
  event_id : Z;
  timestamp : Z;
  event_type : Z;
  actor_cell : anx_uuid;
  input_oids : list anx_uuid;
  description : list Z;
  reproducible : bool;
}.

(** An event with only the given fields set, as all callers here build it. *)
Definition prov_event (now type : Z) (actor : anx_uuid) : anx_prov_event := ProvEvent 0 now type actor [] [] false.

Definition with_id (id : Z) (e : anx_prov_event) : anx_prov_event :=
  ProvEvent id (timestamp e) (event_type e) (actor_cell e) (input_oids e) (description e) (reproducible e).

Record anx_prov_log := ProvLog { prov_events : list anx_prov_event; prov_capacity : Z }.

Definition anx_prov_log_create (mem : list bool) : option anx_prov_log * list bool :=
  let '(ok, mem) := next_alloc mem in
  when negb ok ret (None, mem) ;;
  let '(ok, mem) := next_alloc mem in
  when negb ok ret (None, mem) ;;
  (Some (ProvLog [] PROV_INITIAL_CAP), mem).

Definition anx_prov_log_count (log : anx_prov_log) : Z := Z.of_nat (length (prov_events log)).

Definition anx_prov_log_append (log : anx_prov_log) (event : anx_prov_event) (mem : list bool)
    : Z * anx_prov_log * list bool :=
  let add cap := ProvLog (prov_events log ++ [with_id (anx_prov_log_count log) event]) cap in
  if anx_prov_log_count log >=? prov_capacity log then
    let '(ok, mem) := next_alloc mem in
    when negb ok ret (ANX_ENOMEM, log, mem) ;;
    (ANX_OK, add (u32 (prov_capacity log * 2)), mem)
  else (ANX_OK, add (prov_capacity log), mem).

Definition anx_prov_log_get (log : anx_prov_log) (index : Z) : option anx_prov_event :=
  when index >=? anx_prov_log_count log ret None ;;
  prov_events log !! Z.to_nat index.

(** ** Objects *)

Record anx_retention_policy := RetentionPolicy {
  ttl_ns : Z;
  min_versions : Z;
  max_versions : Z;
  deletion_hold : bool;
  replicas : Z;
}.

Definition ANX_RETENTION_DEFAULT : anx_retention_policy := RetentionPolicy 0 1 1 false 1.

Record anx_staged_mutation := StagedMutation {
  shadow_payload : option (list Z);
  shadow_size : Z;
  staging_cell : anx_uuid;
  base_version : Z;
  epistemic_id : Z;
}.

#[export] Instance eta_staged : Settable anx_staged_mutation := λ r,
  StagedMutation (shadow_payload r) (shadow_size r) (staging_cell r) (base_version r) (epistemic_id r).

Record anx_state_object := StateObject {
  so_oid : anx_uuid;
  so_content_hash : list Z;  (* 32 bytes *)
  so_version : Z;
  so_object_type : Z;
  so_schema_uri : list Z;
  so_schema_version : list Z;
  so_payload : option (list Z);
  so_payload_size : Z;
  so_staged : option anx_staged_mutation;
  so_sensitivity : Z;
  so_sensitivity_origin : anx_uuid;
  so_system_meta : anx_meta_store;
  so_user_meta : anx_meta_store;
  so_provenance : anx_prov_log;
  so_access_policy : anx_access_policy;
  so_retention : anx_retention_policy;
  so_state : Z;
  so_creator_cell : anx_uuid;
  so_parent_oids : list anx_uuid;
  so_refcount : Z;
}.

#[export] Instance eta_object : Settable anx_state_object := λ r,
  StateObject (so_oid r) (so_content_hash r) (so_version r) (so_object_type r) (so_schema_uri r) (so_schema_version r)
    (so_payload r) (so_payload_size r) (so_staged r) (so_sensitivity r) (so_sensitivity_origin r) (so_system_meta r)
    (so_user_meta r) (so_provenance r) (so_access_policy r) (so_retention r) (so_state r) (so_creator_cell r)
    (so_parent_oids r) (so_refcount r).

Definition ANX_OBJ_STRUCTURED_DATA : Z := 1.
Definition ANX_OBJ_TYPE_COUNT : Z := 26.

Record anx_so_create_params := CreateParams {
  p_object_type : Z;
  p_schema_uri : option (list Z);
  p_schema_version : option (list Z);
  p_payload : option (list Z);
  p_payload_size : Z;
  p_parent_oids : option (list anx_uuid);
  p_parent_count : Z;
  p_creator_cell : anx_uuid;
  p_sensitivity : Z;
}.

Definition ANX_OPEN_READ : Z := 0.
Definition ANX_OPEN_WRITE : Z := 1.
Definition ANX_OPEN_READWRITE : Z := 2.

Record anx_object_handle := Handle { h_obj : option Z; h_mode : Z; h_open_version : Z }.

(** The store. *)
Record objstore := ObjStore {
  so_heap : gmap Z anx_state_object;
  oid_table : list Z;
  so_mem : list bool;
}.

#[export] Instance eta_objstore : Settable objstore := λ r, ObjStore (so_heap r) (oid_table r) (so_mem r).

Definition anx_objstore_init : objstore := ObjStore ∅ [] [].

Definition so_alloc (W : objstore) : bool * objstore :=
  let '(ok, mem) := next_alloc (so_mem W) in (ok, W <| so_mem := mem |>).

Definition so_update (a : Z) (f : anx_state_object → anx_state_object) (W : objstore) : objstore :=
  W <| so_heap ::= alter f a |>.

(** Append to the log of object [a]; callers ignore the result. *)
Definition so_log (a : Z) (event : anx_prov_event) (W : objstore) : objstore :=
  match so_heap W !! a with
  | None => W
  | Some obj =>
      let '(_, log, mem) := anx_prov_log_append (so_provenance obj) event (so_mem W) in
      so_update a (λ o, o <| so_provenance := log |>) W <| so_mem := mem |>
  end.

Definition has_oid (W : objstore) (oid : anx_uuid) (a : Z) : bool :=
  match so_heap W !! a with Some obj => anx_uuid_compare (so_oid obj) oid =? 0 | None => false end.

Definition find_oid (W : objstore) (oid : anx_uuid) : option Z := List.find (has_oid W oid) (oid_table W).

Definition anx_objstore_lookup (oid : anx_uuid) (W : objstore) : option Z * objstore :=
  match find_oid W oid with
  | None => (None, W)
  | Some a => (Some a, so_update a (λ o, o <| so_refcount ::= λ n, u32 (n + 1) |>) W)
  end.

Definition anx_objstore_release (a : Z) (W : objstore) : objstore :=
  so_update a (λ o, if so_refcount o >? 0 then o <| so_refcount ::= λ n, n - 1 |> else o) W.

Definition objstore_add (a : Z) (W : objstore) : objstore := W <| oid_table ::= λ l, a :: l |>.

Definition objstore_remove (a : Z) (W : objstore) : objstore :=
  W <| oid_table ::= List.filter (λ b, negb (b =? a)) |>.

(** The label a derived object gets from the parents that can be found, and
    where it came from. *)
Fixpoint inherit_label (W : objstore) (parents : list anx_uuid) (max_sens : Z) (max_origin : anx_uuid) : Z * anx_uuid * objstore :=
  match parents with
  | [] => (max_sens, max_origin, W)
  | oid :: parents =>
      match anx_objstore_lookup oid W with
      | (None, W) => inherit_label W parents max_sens max_origin
      | (Some a, W) =>
          let '(max_sens, max_origin) :=
            match so_heap W !! a with
            | Some p => if so_sensitivity p >? max_sens then (so_sensitivity p, so_oid p) else (max_sens, max_origin)
            | None => (max_sens, max_origin)
            end in
          inherit_label (anx_objstore_release a W) parents max_sens max_origin
      end
  end.

(** ** Operations *)

(** Conversions to [int64_t] and [int]. *)
Definition i64 (z : Z) : Z := if u64 z <? 2 ^ 63 then u64 z else u64 z - 2 ^ 64.
Definition i32 (z : Z) : Z := if u32 z <? 2 ^ 31 then u32 z else u32 z - 2 ^ 32.

Definition bytes_of (s : String.string) : list Z :=
  map (λ a, Z.of_N (Ascii.N_of_ascii a)) (String.list_ascii_of_string s).

(** [memcpy(buf + off, x, length x)] within the buffer [l]. *)
Definition splice (off : nat) (x l : list Z) : list Z := firstn off l ++ x ++ skipn (off + length x) l.

(** What the object operations work on: the store, the cells, the fences and the
    reviews. *)
Record kernel := Kernel { objs : objstore; cells : cell_store; fences : fence_table; reviews : epistemic_table }.

#[export] Instance eta_kernel : Settable kernel := λ r, Kernel (objs r) (cells r) (fences r) (reviews r).

Section operations.
Context (sha256 : list Z → list Z).
(** The system metadata after [anx_uor_project_object], [anx_uor_attach_metadata]. *)
Context (uor_attach : anx_state_object → list bool → anx_meta_store * list bool).
(** Byte [i] of a buffer fresh from [anx_alloc]. *)
Context (junk : Z → Z).
(** The running cell. *)
Context (current : option anx_uuid).

Definition anx_so_compute_content_hash (obj : anx_state_object) : anx_state_object :=
  obj <| so_content_hash :=
    match so_payload obj with
    | Some l => if so_payload_size obj >? 0 then sha256 (firstn (Z.to_nat (u32 (so_payload_size obj))) l) else replicate 32 0
    | None => replicate 32 0
    end |>.

Definition uor_project (a : Z) (W : objstore) : objstore :=
  match so_heap W !! a with
  | None => W
  | Some obj =>
      let '(meta, mem) := uor_attach obj (so_mem W) in
      so_update a (λ o, o <| so_system_meta := meta |>) W <| so_mem := mem |>
  end.

Definition zero_policy : anx_access_policy := AccessPolicy (replicate 16 (AccessRule ANX_UUID_NIL 0 ANX_EFFECT_ALLOW)) 0.

Definition has_payload (p : anx_so_create_params) : bool := bool_decide (is_Some (p_payload p)) && (p_payload_size p >? 0).
Definition has_parents (p : anx_so_create_params) : bool := bool_decide (is_Some (p_parent_oids p)) && (p_parent_count p >? 0).

Definition parents_of (p : anx_so_create_params) : list anx_uuid :=
  if has_parents p then firstn (Z.to_nat (p_parent_count p)) (default [] (p_parent_oids p)) else [].

(** The object as its fields are filled in. *)
Definition new_object (p : anx_so_create_params) (fresh : anx_uuid) (sens : Z) (origin : anx_uuid)
    (sm um : anx_meta_store) (log : anx_prov_log) : anx_state_object :=
  anx_so_compute_content_hash
    (StateObject fresh [] 1 (p_object_type p)
       (default [] ((λ s, anx_strlcpy s 256) <$> p_schema_uri p))
       (default [] ((λ s, anx_strlcpy s 32) <$> p_schema_version p))
       (if has_payload p then firstn (Z.to_nat (p_payload_size p)) <$> p_payload p else None)
       (if has_payload p then p_payload_size p else 0)
       None sens origin sm um log zero_policy ANX_RETENTION_DEFAULT ANX_OBJ_CREATING (p_creator_cell p) (parents_of p) 1).

(** The creation event, activation, registration and projection. *)
Definition install (now addr : Z) (obj : anx_state_object) (W : objstore) : objstore :=
  let W := W <| so_heap ::= <[addr := obj]> |> in
  let W := so_log addr (prov_event now ANX_PROV_CREATED (so_creator_cell obj)) W in
  let W := so_update addr (λ o, o <| so_state ::= λ st, (anx_lifecycle_transition st ANX_OBJ_ACTIVE).2 |>) W in
  uor_project addr (objstore_add addr W).

(** [fresh] and [addr] are the new id and the address of the allocation; [now1]
    and [now2] the two readings of the clock. *)
Definition anx_so_create (now1 now2 : Z) (fresh : anx_uuid) (addr : Z) (params : option anx_so_create_params) (out : bool)
    (W : objstore) : Z * option Z * objstore :=
  match params with
  | None => (ANX_EINVAL, None, W)
  | Some p =>
      when negb out ret (ANX_EINVAL, None, W) ;;
      when p_object_type p >=? ANX_OBJ_TYPE_COUNT ret (ANX_EINVAL, None, W) ;;
      when (p_object_type p =? ANX_OBJ_STRUCTURED_DATA) && negb (bool_decide (is_Some (p_schema_uri p)))
        ret (ANX_EINVAL, None, W) ;;
      let '(ok, W) := so_alloc W in
      when negb ok ret (ANX_ENOMEM, None, W) ;;
      let '(ok, W) := if has_payload p then so_alloc W else (true, W) in
      when negb ok ret (ANX_ENOMEM, None, W) ;;
      let '(system_meta, mem) := anx_meta_create (so_mem W) in
      let '(user_meta, mem) := anx_meta_create mem in
      let W := W <| so_mem := mem |> in
      match system_meta, user_meta with
      | Some sm, Some um =>
          let '(_, sm, mem) := anx_meta_set_i64 sm (bytes_of "sys.created_at"%string) (i64 now1) (so_mem W) in
          let size := if has_payload p then p_payload_size p else 0 in
          let '(_, sm, mem) := anx_meta_set_i64 sm (bytes_of "sys.size_bytes"%string) (i64 size) mem in
          let '(_, sm, mem) := anx_meta_set_bool sm (bytes_of "sys.sealed"%string) false mem in
          let '(log, mem) := anx_prov_log_create mem in
          let W := W <| so_mem := mem |> in
          match log with
          | None => (ANX_ENOMEM, None, W)
          | Some log =>
              let '(ok, W) := if has_parents p then so_alloc W else (true, W) in
              when negb ok ret (ANX_ENOMEM, None, W) ;;
              let '(sens, origin, W) :=
                if (p_sensitivity p =? ANX_SENSITIVITY_PUBLIC) && has_parents p
                then inherit_label W (parents_of p) ANX_SENSITIVITY_PUBLIC ANX_UUID_NIL
                else (p_sensitivity p, ANX_UUID_NIL, W) in
              (ANX_OK, Some addr, install now2 addr (new_object p fresh sens origin sm um log) W)
          end
      | _, _ => (ANX_ENOMEM, None, W)
      end
  end.

Definition mode_ok (mode : Z) : bool :=
  (mode =? ANX_OPEN_READ) || (mode =? ANX_OPEN_WRITE) || (mode =? ANX_OPEN_READWRITE).

Definition anx_so_open (oidp : option anx_uuid) (mode : Z) (handlep : option anx_object_handle) (W : objstore)
    : Z * option anx_object_handle * objstore :=
  match oidp, handlep with
  | Some oid, Some handle =>
      when negb (mode_ok mode) ret (ANX_EINVAL, handlep, W) ;;
      let closed := Some (Handle None (h_mode handle) (h_open_version handle)) in
      match anx_objstore_lookup oid W with
      | (None, W) => (ANX_ENOENT, closed, W)
      | (Some a, W) =>
          match so_heap W !! a with
          | None => (ANX_ENOENT, closed, W)
          | Some obj =>
              when negb (so_state obj =? ANX_OBJ_ACTIVE) && negb (so_state obj =? ANX_OBJ_SEALED)
                ret (ANX_EINVAL, closed, anx_objstore_release a W) ;;
              when negb (mode =? ANX_OPEN_READ) && (so_state obj =? ANX_OBJ_SEALED)
                ret (ANX_EPERM, closed, anx_objstore_release a W) ;;
              let ar := if negb (mode =? ANX_OPEN_WRITE)
                        then anx_access_evaluate (Some (so_access_policy obj)) current ANX_ACCESS_READ_PAYLOAD else ANX_OK in
              let ar := if (ar =? ANX_OK) && negb (mode =? ANX_OPEN_READ)
                        then anx_access_evaluate (Some (so_access_policy obj)) current ANX_ACCESS_WRITE_PAYLOAD else ar in
              when negb (ar =? ANX_OK) ret (ar, closed, anx_objstore_release a W) ;;
              (ANX_OK, Some (Handle (Some a) mode (so_version obj)), W)
          end
      end
  | _, _ => (ANX_EINVAL, handlep, W)
  end.

Definition anx_so_close (handlep : option anx_object_handle) (W : objstore) : option anx_object_handle * objstore :=
  match handlep with
  | Some (Handle (Some a) mode v) => (Some (Handle None mode v), anx_objstore_release a W)
  | _ => (handlep, W)
  end.

Definition anx_so_seal (now : Z) (oid : anx_uuid) (W : objstore) : Z * objstore :=
  match anx_objstore_lookup oid W with
  | (None, W) => (ANX_ENOENT, W)
  | (Some a, W) =>
      match so_heap W !! a with
      | None => (ANX_ENOENT, W)
      | Some obj =>
          when bool_decide (is_Some (so_staged obj)) ret (ANX_EBUSY, anx_objstore_release a W) ;;
          let '(r, st) := anx_lifecycle_transition (so_state obj) ANX_OBJ_SEALED in
          let W := so_update a (λ o, o <| so_state := st |>) W in
          let W :=
            if r =? ANX_OK then
              let '(_, meta, mem) := anx_meta_set_bool (so_system_meta obj) (bytes_of "sys.sealed"%string) true (so_mem W) in
              let W := so_update a (λ o, o <| so_system_meta := meta |>) W <| so_mem := mem |> in
              so_log a (prov_event now ANX_PROV_SEALED ANX_UUID_NIL) (uor_project a W)
            else W in
          (r, anx_objstore_release a W)
      end
  end.

Definition anx_so_delete (oid : anx_uuid) (force : bool) (W : objstore) : Z * objstore :=
  match anx_objstore_lookup oid W with
  | (None, W) => (ANX_ENOENT, W)
  | (Some a, W) =>
      match so_heap W !! a with
      | None => (ANX_ENOENT, W)
      | Some obj =>
          when bool_decide (is_Some (so_staged obj)) ret (ANX_EBUSY, anx_objstore_release a W) ;;
          when deletion_hold (so_retention obj) && negb force ret (ANX_EPERM, anx_objstore_release a W) ;;
          let '(r, st) := anx_lifecycle_transition (so_state obj) ANX_OBJ_DELETED in
          let W := so_update a (λ o, o <| so_state := st |>) W in
          let W := if r =? ANX_OK then objstore_remove a W else W in
          (r, anx_objstore_release a W)
      end
  end.

(** The result, what is copied to the buffer, and the new state.  Reading outside
    the payload buffer is [Panic]. *)
Definition anx_so_read_payload (handlep : option anx_object_handle) (offset : Z) (buf : bool) (len : Z) (K : kernel)
    : outcome (Z * list Z * kernel) :=
  match handlep with
  | Some (Handle (Some a) mode _) =>
      when negb buf ret Ret (ANX_EINVAL, [], K) ;;
      when negb (mode =? ANX_OPEN_READ) && negb (mode =? ANX_OPEN_READWRITE) ret Ret (ANX_EPERM, [], K) ;;
      match so_heap (objs K) !! a with
      | None => Panic
      | Some obj =>
          when (offset >=? so_payload_size obj) || (len =? 0) ret Ret (0, [], K) ;;
          let len := if len >? so_payload_size obj - offset then so_payload_size obj - offset else len in
          when len >? 0x7fffffff ret Ret (ANX_EINVAL, [], K) ;;
          let '(r, st, F) := anx_effect_fence_observe_read current (cells K) (fences K) (Some (so_oid obj)) (so_sensitivity obj) in
          let K := K <| cells := st |> <| fences := F |> in
          when negb (r =? ANX_OK) ret Ret (r, [], K) ;;
          match so_payload obj with
          | None => Panic
          | Some l =>
              if offset + len >? Z.of_nat (length l) then Panic
              else Ret (len, firstn (Z.to_nat len) (skipn (Z.to_nat offset) l), K)
          end
      end
  | _ => Ret (ANX_EINVAL, [], K)
  end.

Definition anx_object_stage_check_writer (obj : anx_state_object) : Z :=
  match so_staged obj, current with
  | Some stage, Some active => if negb (anx_uuid_compare active (staging_cell stage) =? 0) then ANX_EPERM else ANX_OK
  | _, _ => ANX_OK
  end.

(** Grow the buffer if needed and copy; [None] when memory runs out. *)
Definition write_buffer (target : option (list Z)) (size offset : Z) (data : list Z) (len : Z) (W : objstore)
    : outcome (option (option (list Z) * Z) * objstore) :=
  let end_ := u64 (offset + len) in
  let '(ok, target, size, W) :=
    if end_ >? size then
      let '(ok, W) := so_alloc W in
      let fresh := junk <$> seqZ 0 end_ in
      (ok, Some (match target with Some l => splice 0 (firstn (Z.to_nat size) l) fresh | None => fresh end), end_, W)
    else (true, target, size, W) in
  when negb ok ret Ret (None, W) ;;
  when len =? 0 ret Ret (Some (target, size), W) ;;
  match target with
  | None => Panic
  | Some l =>
      if offset + len >? Z.of_nat (length l) then Panic
      else Ret (Some (Some (splice (Z.to_nat offset) (firstn (Z.to_nat len) data) l), size), W)
  end.

(** Version, hash and event of a direct mutation. *)
Definition record_mutation (now a : Z) (W : objstore) : objstore :=
  so_log a (prov_event now ANX_PROV_MUTATED ANX_UUID_NIL)
    (so_update a (λ o, anx_so_compute_content_hash (o <| so_version ::= λ v, u64 (v + 1) |>)) W).

Definition anx_so_write_payload (now : Z) (handle : anx_object_handle) (offset : Z) (data : option (list Z)) (len : Z)
    (W : objstore) : outcome (Z * objstore) :=
  match h_obj handle, data with
  | Some a, Some data =>
      when h_mode handle =? ANX_OPEN_READ ret Ret (ANX_EPERM, W) ;;
      match so_heap W !! a with
      | None => Panic
      | Some obj =>
          when so_state obj =? ANX_OBJ_SEALED ret Ret (ANX_EPERM, W) ;;
          let access := anx_object_stage_check_writer obj in
          when negb (access =? ANX_OK) ret Ret (access, W) ;;
          match so_staged obj with
          | Some stage =>
              let! r := write_buffer (shadow_payload stage) (shadow_size stage) offset data len W in
              match r with
              | (None, W) => Ret (ANX_ENOMEM, W)
              | (Some (payload, size), W) =>
                  Ret (i32 len, so_update a (λ o, o <| so_staged := Some (stage <| shadow_payload := payload |> <| shadow_size := size |>) |>) W)
              end
          | None =>
              let! r := write_buffer (so_payload obj) (so_payload_size obj) offset data len W in
              match r with
              | (None, W) => Ret (ANX_ENOMEM, W)
              | (Some (payload, size), W) =>
                  Ret (i32 len, record_mutation now a
                         (so_update a (λ o, o <| so_payload := payload |> <| so_payload_size := size |>) W))
              end
          end
      end
  | _, _ => Ret (ANX_EINVAL, W)
  end.

Definition anx_so_replace_payload (now : Z) (handle : anx_object_handle) (data : option (list Z)) (len : Z)
    (W : objstore) : outcome (Z * objstore) :=
  match h_obj handle with
  | None => Ret (ANX_EINVAL, W)
  | Some a =>
      when h_mode handle =? ANX_OPEN_READ ret Ret (ANX_EPERM, W) ;;
      match so_heap W !! a with
      | None => Panic
      | Some obj =>
          when so_state obj =? ANX_OBJ_SEALED ret Ret (ANX_EPERM, W) ;;
          let access := anx_object_stage_check_writer obj in
          when negb (access =? ANX_OK) ret Ret (access, W) ;;
          let copy := bool_decide (is_Some data) && (len >? 0) in
          let '(ok, W) := if copy then so_alloc W else (true, W) in
          when negb ok ret Ret (ANX_ENOMEM, W) ;;
          let new_buf := if copy then firstn (Z.to_nat len) <$> data else None in
          match so_staged obj with
          | Some stage =>
              Ret (ANX_OK, so_update a (λ o, o <| so_staged := Some (stage <| shadow_payload := new_buf |> <| shadow_size := len |>) |>) W)
          | None =>
              Ret (ANX_OK, record_mutation now a (so_update a (λ o, o <| so_payload := new_buf |> <| so_payload_size := len |>) W))
          end
      end
  end.
End operations.

(** ** Labels, [flow.c] *)

Definition anx_object_set_sensitivity (oidp : option anx_uuid) (level : Z) (W : objstore) : Z * objstore :=
  match oidp with
  | None => (ANX_EINVAL, W)
  | Some oid =>
      match anx_objstore_lookup oid W with
      | (None, W) => (ANX_ENOENT, W)
      | (Some a, W) =>
          (ANX_OK, anx_objstore_release a
             (so_update a (λ o, o <| so_sensitivity := level |> <| so_sensitivity_origin := ANX_UUID_NIL |>) W))
      end
  end.

Definition anx_object_get_sensitivity (oidp : option anx_uuid) (W : objstore) : Z * objstore :=
  match oidp with
  | None => (ANX_SENSITIVITY_PUBLIC, W)
  | Some oid =>
      match anx_objstore_lookup oid W with
      | (None, W) => (ANX_SENSITIVITY_PUBLIC, W)
      | (Some a, W) => (default ANX_SENSITIVITY_PUBLIC (so_sensitivity <$> so_heap W !! a), anx_objstore_release a W)
      end
  end.
