(* ===== verification/Epistemic.v ===== *)
(** * Epistemic reviews, the operations: [kernel/core/state/epistemic.c]

    Opening a review on a staged object, voting from evidence, assessing the
    votes that still stand, and the two hooks of staged mutation.

    The identity service ([anx_identity_admit]: a code and the identity record it
    found) and SHA-256 are parameters; the running cell is [current]; [fuel]
    bounds the walk of [anx_cell_check_scope] up the parents of a reviewer.
    Following a pointer to a cell that is gone is [Panic]. *)

From S2P Require Import Prelude Uuid Cell CellScope Sched CellStore EffectFence Meta Review StateObject.

Definition ANX_OBJ_BYTE_DATA : Z := 0.

Section review.
Context (sha256 : list Z → list Z) (identity_admit : anx_cell → Z * anx_uuid) (fuel : nat).
Context (current : option anx_uuid).
Implicit Types (r : epistemic_record) (K : kernel).

Definition access (found : option epistemic_record) : Z :=
  match found with
  | None => ANX_ENOENT
  | Some r =>
      match current with
      | Some caller => if negb (anx_uuid_compare caller (w_owner (e_view r)) =? 0) then ANX_EPERM else ANX_OK
      | None => ANX_OK
      end
  end.

Definition reviewer r (voter : nat) : anx_uuid := default ANX_UUID_NIL (sp_reviewers (e_spec r) !! voter).

(** The object can be evidence of this review. *)
Definition evidence_fit r (object : anx_state_object) : bool :=
  (so_state object =? ANX_OBJ_SEALED) && negb (so_version object =? 0) && bool_decide (is_Some (so_payload object))
  && negb (so_payload_size object =? 0) && (so_payload_size object <=? 4096)
  && (Z.of_nat (length (so_parent_oids object)) <=? ANX_EPISTEMIC_ROOTS)
  && (rule_count (so_access_policy object) <=? ANX_MAX_ACCESS_RULES)
  && (so_sensitivity object <=? e_sensitivity r)
  && ((so_object_type object =? ANX_OBJ_BYTE_DATA) || (so_object_type object =? ANX_OBJ_STRUCTURED_DATA)).

Definition node_of (oid : anx_uuid) (object : anx_state_object) : evidence_node :=
  EvidenceNode oid (so_parent_oids object) (so_version object) (so_payload_size object) (so_sensitivity object)
    (sha256 (firstn (Z.to_nat (so_payload_size object)) (default [] (so_payload object)))) 0 0.

Definition snapshot r (oid : anx_uuid) (voter : nat) K : Z * option evidence_node * kernel :=
  when anx_uuid_compare oid (w_target (e_view r)) =? 0 ret (ANX_EINVAL, None, K) ;;
  match anx_objstore_lookup oid (objs K) with
  | (None, W) => (ANX_ENOENT, None, K <| objs := W |>)
  | (Some a, W) =>
      let K := K <| objs := W |> in
      match so_heap W !! a with
      | None => (ANX_ENOENT, None, K)
      | Some object =>
          let rc := if evidence_fit r object then ANX_OK else ANX_EINVAL in
          let rc := if rc =? ANX_OK then anx_access_evaluate (Some (so_access_policy object)) (Some (reviewer r voter)) ANX_ACCESS_READ_PAYLOAD
                     else rc in
          let '(rc, K) :=
            if (rc =? ANX_OK) && match current with Some caller => anx_uuid_compare caller (reviewer r voter) =? 0 | None => false end
            then let '(rc, st, F) := anx_effect_fence_observe_read current (cells K) (fences K) (Some oid) (so_sensitivity object) in
                 (rc, K <| cells := st |> <| fences := F |>)
            else (rc, K) in
          let K := K <| objs ::= anx_objstore_release a |> in
          (rc, if rc =? ANX_OK then Some (node_of oid object) else None, K)
      end
  end.

(** What was captured of an object; the masks are not part of it. *)
Definition same_evidence (now old : evidence_node) : bool :=
  (n_version now =? n_version old) && (n_size now =? n_size old) && (n_sensitivity now =? n_sensitivity old)
  && bool_decide (n_parents now = n_parents old) && bool_decide (n_digest now = n_digest old).

Definition node_current r (node voter : nat) K : Z * kernel :=
  match e_nodes r !! node with
  | None => (ANX_EINVAL, K)
  | Some old =>
      match snapshot r (n_oid old) voter K with
      | (rc, None, K) => (rc, K)
      | (rc, Some now, K) => (if same_evidence now old then rc else ANX_EBUSY, K)
      end
  end.

(** The masks of a node take in those of its parent. *)
Definition join_node (i parent : nat) r : epistemic_record :=
  match e_nodes r !! parent with
  | None => r
  | Some p => r <| e_nodes ::= alter (λ n, n <| n_nodes ::= λ m, Z.lor m (n_nodes p) |> <| n_roots ::= λ m, Z.lor m (n_roots p) |>) i |>
  end.

Fixpoint capture_parents (cap : epistemic_record → anx_uuid → kernel → Z * nat * epistemic_record * kernel)
    (parents : list anx_uuid) (i : nat) r K : Z * epistemic_record * kernel :=
  match parents with
  | [] => (ANX_OK, r, K)
  | p :: parents =>
      let '(rc, parent, r, K) := cap r p K in
      when negb (rc =? ANX_OK) ret (rc, r, K) ;;
      capture_parents cap parents i (join_node i parent r) K
  end.

Definition bit (i : nat) : Z := Z.shiftl 1 (Z.of_nat i).

Definition node_named (oid : anx_uuid) (n : evidence_node) : bool := anx_uuid_compare oid (n_oid n) =? 0.

(** [room] is what the depth has left to the limit. *)
Fixpoint capture (room : nat) r (oid : anx_uuid) (voter : nat) (visiting : Z) K : Z * nat * epistemic_record * kernel :=
  match room with
  | O => (ANX_EINVAL, 0%nat, r, K)
  | S room =>
      when anx_uuid_is_nil oid ret (ANX_EINVAL, 0%nat, r, K) ;;
      match slot_where (node_named oid) (e_nodes r) with
      | Some i =>
          when negb (Z.land visiting (bit i) =? 0) ret (ANX_EINVAL, 0%nat, r, K) ;;
          let '(rc, K) := node_current r i voter K in (rc, i, r, K)
      | None =>
          let i := length (e_nodes r) in
          when Z.of_nat i =? ANX_EPISTEMIC_NODES ret (ANX_EFULL, 0%nat, r, K) ;;
          match snapshot r oid voter K with
          | (rc, None, K) => (rc, 0%nat, r, K)
          | (_, Some value, K) =>
              let source := bool_decide (n_parents value = []) in
              let full := Z.of_nat (length (e_roots r)) =? ANX_EPISTEMIC_ROOTS in
              let mask := if source && negb full then bit (length (e_roots r)) else 0 in
              let r := r <| e_nodes ::= λ l, l ++ [value <| n_nodes := bit i |> <| n_roots := mask |>] |> in
              when source && full ret (ANX_EFULL, 0%nat, r, K) ;;
              let r := if source then r <| e_roots ::= λ l, l ++ [oid] |> else r in
              let '(rc, r, K) :=
                capture_parents (λ r p K, capture room r p voter (Z.lor visiting (bit i)) K) (n_parents value) i r K in
              (rc, i, r, K)
          end
      end
  end.

Definition voter_current r (voter : nat) K : outcome (Z * kernel) :=
  match e_reviewers r !! voter ≫= λ c, (λ cell, (c, cell)) <$> cells K !! c with
  | None => Panic
  | Some (c, cell) =>
      let '(rc, idrec) := identity_admit cell in
      let rc := if (rc =? ANX_OK) && negb (anx_uuid_compare idrec (default ANX_UUID_NIL (e_reviewer_identity r !! voter)) =? 0)
                 then ANX_EBUSY else rc in
      when negb (rc =? ANX_OK) ret Ret (rc, K) ;;
      let! (rc, st) := anx_cell_check_scope fuel (cells K) (Some c) in
      Ret (rc, K <| cells := st |>)
  end.

Definition vote_of r (i : nat) : evidence_vote := default no_vote (e_votes r !! i).

(** The nodes of a mask, checked in order until one has changed. *)
Fixpoint nodes_current r (mask : Z) (voter : nat) (js : list nat) K : bool * kernel :=
  match js with
  | [] => (true, K)
  | j :: js =>
      if negb (Z.land mask (bit j) =? 0) then
        let '(rc, K) := node_current r j voter K in
        when negb (rc =? ANX_OK) ret (false, K) ;;
        nodes_current r mask voter js K
      else nodes_current r mask voter js K
  end.

Definition vote_current r (i : nat) K : outcome (bool * kernel) :=
  when negb (v_cast (vote_of r i)) || negb (v_approve (vote_of r i)) ret Ret (false, K) ;;
  let! (rc, K) := voter_current r i K in
  when negb (rc =? ANX_OK) ret Ret (false, K) ;;
  Ret (nodes_current r (v_nodes (vote_of r i)) i (seq 0 (length (e_nodes r))) K).

(** The mask of the votes that stand. *)
Fixpoint valid_loop r (js : list nat) (valid : Z) K : outcome (Z * kernel) :=
  match js with
  | [] => Ret (valid, K)
  | i :: js =>
      let! (ok, K) := vote_current r i K in
      valid_loop r js (if ok then Z.lor valid (bit i) else valid) K
  end.

Definition panel r : list nat := seq 0 (Z.to_nat (sp_count (e_spec r))).

(** The votes that stand and rest on one of the roots in [faults]. *)
Definition covered r (valid faults : Z) : Z :=
  foldl (λ acc i, if negb (Z.land valid (bit i) =? 0) && negb (Z.land (v_roots (vote_of r i)) faults =? 0)
                  then Z.lor acc (bit i) else acc) 0 (panel r).

Definition minimum_cut r (valid : Z) : Z :=
  foldl (λ minimum faults,
           if bits faults >=? minimum then minimum
           else if bits (covered r valid faults) >=? sp_threshold (e_spec r) then bits faults else minimum)
    (ANX_EPISTEMIC_ROOTS + 1) (seqZ 1 (bit (length (e_roots r)) - 1)).

(** What [assess] makes of the mask of valid votes. *)
Definition assessed r (valid : Z) : epistemic_record :=
  let approvals := bits valid in
  let enough := approvals >=? sp_threshold (e_spec r) in
  let minimum := minimum_cut r valid in
  let cut := if enough && (minimum <=? ANX_EPISTEMIC_ROOTS) then minimum else 0 in
  r <| e_view ::= λ w, w <| w_valid_approvals := approvals |> <| w_structural_cut := cut |>
                          <| w_roots := Z.of_nat (length (e_roots r)) |>
                          <| w_ready := enough && (cut >=? sp_minimum_cut (e_spec r)) |> |>.

Definition assess r K : outcome (epistemic_record * kernel) :=
  let! (valid, K) := valid_loop r (panel r) 0 K in
  Ret (assessed r valid, K).

(** ** Opening a review *)

Definition spec_bad (spec : anx_epistemic_spec) : bool :=
  (sp_count spec =? 0) || (sp_count spec >? ANX_EPISTEMIC_REVIEWERS) || (sp_threshold spec =? 0)
  || (sp_threshold spec >? sp_count spec) || (sp_minimum_cut spec =? 0) || (sp_minimum_cut spec >? sp_threshold spec).

Definition stage_bad (object : anx_state_object) (stage : anx_staged_mutation) : bool :=
  negb (epistemic_id stage =? 0) || bool_decide (shadow_payload stage = None) || (shadow_size stage =? 0) || (shadow_size stage >? 4096)
  || negb (base_version stage =? so_version object) || (u32 (so_sensitivity object) >? ANX_SENSITIVITY_RESTRICTED)
  || anx_uuid_is_nil (staging_cell stage).

Fixpoint panel_loop (l : list anx_uuid) (i : nat) r K : outcome (Z * epistemic_record * kernel) :=
  match l with
  | [] => Ret (ANX_OK, r, K)
  | c :: l =>
      if Z.of_nat i >=? sp_count (e_spec r) then
        when negb (anx_uuid_is_nil c) ret Ret (ANX_EINVAL, r, K) ;;
        panel_loop l (S i) r K
      else
        when anx_uuid_is_nil c || (anx_uuid_compare c (w_owner (e_view r)) =? 0) ret Ret (ANX_EINVAL, r, K) ;;
        when existsb (λ d, anx_uuid_compare c d =? 0) (firstn i (sp_reviewers (e_spec r))) ret Ret (ANX_EINVAL, r, K) ;;
        match anx_cell_store_lookup (cells K) c with
        | (None, st) => Ret (ANX_ENOENT, r, K <| cells := st |>)
        | (Some cell, st) =>
            let K := K <| cells := st |> in
            let '(rc, idrec) := identity_admit cell in
            let r := r <| e_reviewers ::= λ l, l ++ [c] |> <| e_reviewer_identity ::= λ l, l ++ [idrec] |> in
            when negb (rc =? ANX_OK) ret Ret (rc, r, K) ;;
            let! (rc, K) := voter_current r i K in
            when negb (rc =? ANX_OK) ret Ret (rc, r, K) ;;
            panel_loop l (S i) r K
        end
  end.

Definition release_cells (l : list anx_uuid) K : kernel := K <| cells := foldl anx_cell_store_release (cells K) l |>.

Definition new_record (spec : anx_epistemic_spec) (object : anx_state_object) (stage : anx_staged_mutation) (idrec : anx_uuid)
    : epistemic_record :=
  EpistemicRecord
    (EpistemicView 0 (staging_cell stage) (so_oid object) (replicate 32 0) 0 0 0 0 0 0 ANX_EPISTEMIC_OPEN false)
    spec (Some (staging_cell stage)) [] idrec [] [] [] (replicate 8 no_vote) (shadow_size stage) (so_sensitivity object)
    (base_version stage).

(** Record [r] enters the table under the next id, and the stage learns it. *)
Definition enter_record (a : Z) (stage : anx_staged_mutation) r K : Z * option anx_epistemic_view * kernel :=
  let digest := sha256 (firstn (Z.to_nat (e_proposal_size r)) (default [] (shadow_payload stage))) in
  let spec := e_spec r in
  let r := r <| e_view ::= λ w, w <| w_proposal_digest := digest |> <| w_threshold := sp_threshold spec |>
                                   <| w_minimum_cut := sp_minimum_cut spec |> |> in
  match slot_where (λ s, negb (bool_decide (is_Some s))) (records (reviews K)) with
  | Some slot =>
      when sequence (reviews K) =? MAX64 ret (ANX_EFULL, None, K) ;;
      let id := sequence (reviews K) + 1 in
      let r := r <| e_view ::= λ w, w <| w_id := id |> |> in
      (ANX_OK, Some (e_view r),
       K <| reviews ::= λ E, put_record slot r (E <| sequence := id |>) |>
         <| objs ::= so_update a (λ o, o <| so_staged := Some (stage <| epistemic_id := id |>) |>) |>)
  | None => (ANX_EFULL, None, K)
  end.

Definition anx_epistemic_begin (handlep : option anx_object_handle) (specp : option anx_epistemic_spec) (out : bool) K
    : outcome (Z * option anx_epistemic_view * kernel) :=
  when bool_decide (is_Some current) ret Ret (ANX_EPERM, None, K) ;;
  match handlep, specp with
  | Some (Handle (Some a) mode _), Some spec =>
      when negb out ret Ret (ANX_EINVAL, None, K) ;;
      when negb (mode =? ANX_OPEN_WRITE) && negb (mode =? ANX_OPEN_READWRITE) ret Ret (ANX_EPERM, None, K) ;;
      let '(ok, W) := so_alloc (objs K) in
      let K := K <| objs := W |> in
      when negb ok ret Ret (ANX_ENOMEM, None, K) ;;
      match so_heap W !! a with
      | None => Panic
      | Some object =>
          when spec_bad spec ret Ret (ANX_EINVAL, None, K) ;;
          match so_staged object with
          | None => Ret (ANX_EBUSY, None, K)
          | Some stage =>
              when stage_bad object stage ret Ret (ANX_EBUSY, None, K) ;;
              match anx_cell_store_lookup (cells K) (staging_cell stage) with
              | (None, st) => Ret (ANX_ENOENT, None, K <| cells := st |>)
              | (Some owner, st) =>
                  let K := K <| cells := st |> in
                  let '(rc, idrec) := identity_admit owner in
                  let r := new_record spec object stage idrec in
                  let! (rc, r, K) := if rc =? ANX_OK then panel_loop (sp_reviewers spec) 0 r K else Ret (rc, r, K) in
                  let '(rc, view, K) := if rc =? ANX_OK then enter_record a stage r K else (rc, None, K) in
                  Ret (rc, view, if rc =? ANX_OK then K else release_cells (staging_cell stage :: e_reviewers r) K)
              end
          end
      end
  | _, _ => Ret (ANX_EINVAL, None, K)
  end.

(** ** Voting *)

Definition voter_of r (caller : anx_uuid) : option nat :=
  slot_where (λ c, anx_uuid_compare caller c =? 0) (firstn (Z.to_nat (sp_count (e_spec r))) (sp_reviewers (e_spec r))).

Definition rolled_back (old_nodes old_roots : nat) r : epistemic_record :=
  r <| e_nodes ::= firstn old_nodes |> <| e_roots ::= firstn old_roots |>.

(** The votes and nodes while one is cast: result, record, kernel. *)
Definition cast_vote r (voter : nat) (source : anx_uuid) (approve : bool) K : outcome (Z * epistemic_record * kernel) :=
  let! (rc, K) := voter_current r voter K in
  when negb (rc =? ANX_OK) ret Ret (rc, r, K) ;;
  let '(rc, root, r1, K) := capture (Z.to_nat ANX_EPISTEMIC_ROOTS) r source voter 0 K in
  let back := rolled_back (length (e_nodes r)) (length (e_roots r)) in
  when negb (rc =? ANX_OK) ret Ret (rc, back r1, K) ;;
  match e_nodes r1 !! root with
  | None => Panic
  | Some node =>
      let '(fresh, K) := nodes_current r1 (n_nodes node) voter (seq 0 (length (e_nodes r1))) K in
      when negb fresh ret Ret (ANX_EBUSY, back r1, K) ;;
      let r1 := r1 <| e_votes ::= <[voter := EvidenceVote true approve (n_nodes node) (n_roots node)]> |>
                   <| e_view ::= λ w, w <| w_votes ::= λ n, u32 (n + 1) |> |> in
      let! (r1, K) := assess r1 K in
      Ret (ANX_OK, r1, K)
  end.

Definition anx_epistemic_vote (id : Z) (evidence : option anx_uuid) (approve out : bool) K
    : outcome (Z * option anx_epistemic_view * kernel) :=
  match current with
  | None => Ret (ANX_EPERM, None, K)
  | Some caller =>
      match evidence with
      | Some source =>
          when (id =? 0) || negb out ret Ret (ANX_EINVAL, None, K) ;;
          match find_record (reviews K) id with
          | None => Ret (ANX_ENOENT, None, K)
          | Some (slot, r) =>
              match voter_of r caller with
              | None => Ret (ANX_EPERM, None, K)
              | Some voter =>
                  when negb (bool_decide (w_state (e_view r) = ANX_EPISTEMIC_OPEN)) ret Ret (ANX_EBUSY, None, K) ;;
                  when v_cast (vote_of r voter) ret Ret (ANX_EEXIST, None, K) ;;
                  let! (rc, r, K) := cast_vote r voter source approve K in
                  Ret (rc, if rc =? ANX_OK then Some (e_view r) else None, K <| reviews ::= put_record slot r |>)
              end
          end
      | None => Ret (ANX_EINVAL, None, K)
      end
  end.

Definition anx_epistemic_get (id : Z) (out : bool) K : outcome (Z * option anx_epistemic_view * kernel) :=
  when (id =? 0) || negb out ret Ret (ANX_EINVAL, None, K) ;;
  let found := find_record (reviews K) id in
  let rc := access (snd <$> found) in
  when negb (rc =? ANX_OK) ret Ret (rc, None, K) ;;
  match found with
  | None => Ret (ANX_ENOENT, None, K)
  | Some (slot, r) =>
      let! (r, K) := if bool_decide (w_state (e_view r) = ANX_EPISTEMIC_OPEN) then assess r K else Ret (r, K) in
      Ret (ANX_OK, Some (e_view r), K <| reviews ::= put_record slot r |>)
  end.

(** ** The hooks of staged mutation *)

(** The stage is still the one the review was opened on. *)
Definition stage_matches (object : anx_state_object) (stage : anx_staged_mutation) r : bool :=
  bool_decide (w_state (e_view r) = ANX_EPISTEMIC_OPEN) && (anx_uuid_compare (w_target (e_view r)) (so_oid object) =? 0)
  && (anx_uuid_compare (w_owner (e_view r)) (staging_cell stage) =? 0) && (e_base_version r =? base_version stage)
  && (shadow_size stage =? e_proposal_size r) && bool_decide (is_Some (shadow_payload stage)) && (so_sensitivity object =? e_sensitivity r).

Definition anx_epistemic_stage_check (object : anx_state_object) K : outcome (Z * kernel) :=
  match so_staged object with
  | None => Ret (ANX_EINVAL, K)
  | Some stage =>
      when epistemic_id stage =? 0 ret Ret (ANX_OK, K) ;;
      let found := find_record (reviews K) (epistemic_id stage) in
      let rc := access (snd <$> found) in
      when negb (rc =? ANX_OK) ret Ret (rc, K) ;;
      match found with
      | None => Ret (ANX_ENOENT, K)
      | Some (slot, r) =>
          when negb (stage_matches object stage r) ret Ret (ANX_EBUSY, K) ;;
          let digest := sha256 (firstn (Z.to_nat (e_proposal_size r)) (default [] (shadow_payload stage))) in
          when negb (bool_decide (digest = w_proposal_digest (e_view r))) ret Ret (ANX_EBUSY, K) ;;
          match e_owner r ≫= λ c, cells K !! c with
          | None => Panic
          | Some owner =>
              let '(rc, idrec) := identity_admit owner in
              let rc := if (rc =? ANX_OK) && negb (anx_uuid_compare idrec (e_owner_identity r) =? 0) then ANX_EBUSY else rc in
              when negb (rc =? ANX_OK) ret Ret (rc, K) ;;
              let! (r, K) := assess r K in
              Ret (if w_ready (e_view r) then ANX_OK else ANX_EAUDIT, K <| reviews ::= put_record slot r |>)
          end
      end
  end.

Definition anx_epistemic_destroy (id : Z) K : Z * kernel :=
  when bool_decide (is_Some current) ret (ANX_EPERM, K) ;;
  when id =? 0 ret (ANX_EINVAL, K) ;;
  match find_record (reviews K) id with
  | None => (ANX_ENOENT, K)
  | Some (slot, r) =>
      when bool_decide (w_state (e_view r) = ANX_EPISTEMIC_OPEN) ret (ANX_EBUSY, K) ;;
      let K := K <| reviews ::= λ E, E <| records ::= <[slot := None]> |> |> in
      (ANX_OK, release_cells (default ANX_UUID_NIL (e_owner r) :: firstn (Z.to_nat (sp_count (e_spec r))) (e_reviewers r)) K)
  end.
End review.

(** The record of a stage learns how it ended. *)
Definition anx_epistemic_stage_resolve (object : anx_state_object) (committed : bool) (E : epistemic_table) : epistemic_table :=
  match so_staged object with
  | None => E
  | Some stage =>
      when epistemic_id stage =? 0 ret E ;;
      match find_record E (epistemic_id stage) with
      | None => E
      | Some (slot, r) =>
          if bool_decide (w_state (e_view r) = ANX_EPISTEMIC_OPEN) && (anx_uuid_compare (w_target (e_view r)) (so_oid object) =? 0)
             && (anx_uuid_compare (w_owner (e_view r)) (staging_cell stage) =? 0)
          then put_record slot (r <| e_view ::= λ w, w <| w_state := if committed then ANX_EPISTEMIC_COMMITTED else ANX_EPISTEMIC_ABORTED |>
                                                        <| w_ready := false |> |>) E
          else E
      end
  end.
