(* ===== verification/Stage.v ===== *)
(** * Staged mutation: [kernel/core/state/stage.c]

    Open a shadow copy of a payload, publish or discard it, alone or in a batch.
    The identity service and the branch-group check are parameters; the
    epistemic hooks are those of [Epistemic.v]. *)

From S2P Require Import Prelude Uuid Cell Sched CellStore EffectFence Meta Review StateObject Epistemic.

Section stage.
Context (sha256 : list Z → list Z).
Context (identity_admit : anx_cell → Z * anx_uuid) (fuel : nat).
Context (branch_group_effect_check : anx_uuid → Z).
(** The running cell. *)
Context (current : option anx_uuid).

Abbreviation anx_object_stage_check_writer := (anx_object_stage_check_writer current).

Definition writable_handle (handlep : option anx_object_handle) : Z :=
  match handlep with
  | Some (Handle (Some _) mode _) =>
      when mode =? ANX_OPEN_READ ret ANX_EPERM ;;
      if (mode =? ANX_OPEN_WRITE) || (mode =? ANX_OPEN_READWRITE) then ANX_OK else ANX_EINVAL
  | _ => ANX_EINVAL
  end.

(** The states in which a payload may no longer change. *)
Definition final_state (st : Z) : bool :=
  (st =? ANX_OBJ_SEALED) || (st =? ANX_OBJ_DELETED) || (st =? ANX_OBJ_TOMBSTONE).

Definition anx_object_stage (handlep : option anx_object_handle) (cell : anx_uuid) (W : objstore) : outcome (Z * objstore) :=
  match handlep with
  | Some (Handle (Some a) mode _) =>
      when mode =? ANX_OPEN_READ ret Ret (ANX_EINVAL, W) ;;
      let r := writable_handle handlep in
      when negb (r =? ANX_OK) ret Ret (r, W) ;;
      when match current with Some active => negb (anx_uuid_compare active cell =? 0) | None => false end
        ret Ret (ANX_EPERM, W) ;;
      match so_heap W !! a with
      | None => Panic
      | Some obj =>
          when final_state (so_state obj) ret Ret (ANX_EPERM, W) ;;
          when bool_decide (is_Some (so_staged obj)) ret Ret (ANX_EBUSY, W) ;;
          let r := anx_access_evaluate (Some (so_access_policy obj)) (Some cell) ANX_ACCESS_WRITE_PAYLOAD in
          when negb (r =? ANX_OK) ret Ret (r, W) ;;
          let '(ok, W) := so_alloc W in
          when negb ok ret Ret (ANX_ENOMEM, W) ;;
          let has_payload := bool_decide (is_Some (so_payload obj)) && (so_payload_size obj >? 0) in
          let '(ok, W) := if has_payload then so_alloc W else (true, W) in
          when negb ok ret Ret (ANX_ENOMEM, W) ;;
          let stage := StagedMutation
            (if has_payload then firstn (Z.to_nat (so_payload_size obj)) <$> so_payload obj else None)
            (if has_payload then so_payload_size obj else 0) cell (so_version obj) 0 in
          Ret (ANX_OK, so_update a (λ o, o <| so_staged := Some stage |>) W)
      end
  | _ => Ret (ANX_EINVAL, W)
  end.

(** The actor's authority, checked again at publication. *)
Definition commit_authority (now : Z) (obj : anx_state_object) (stage : anx_staged_mutation) (K : kernel) : Z * kernel :=
  let actor := staging_cell stage in
  let r := anx_object_stage_check_writer obj in
  when negb (r =? ANX_OK) ret (r, K) ;;
  let r := anx_access_evaluate (Some (so_access_policy obj)) (Some actor) ANX_ACCESS_WRITE_PAYLOAD in
  when negb (r =? ANX_OK) || anx_uuid_is_nil actor ret (r, K) ;;
  match anx_cell_store_lookup (cells K) actor with
  | (None, st) => (ANX_ENOENT, K <| cells := st |>)
  | (Some owner, st) =>
      let r := if allow_side_effects (policy owner) && negb (anx_cell_status_terminal (status owner)) then ANX_OK else ANX_EPERM in
      let r := if r =? ANX_OK then (identity_admit owner).1 else r in
      let '(r, F) := if r =? ANX_OK
                     then let '(r, _, _, F) := anx_effect_fence_check now (fences K) (Some owner) in (r, F)
                     else (r, fences K) in
      let r := if r =? ANX_OK then branch_group_effect_check actor else r in
      (r, K <| cells := anx_cell_store_release st actor |> <| fences := F |>)
  end.

Definition commit_check (now a : Z) (K : kernel) : outcome (Z * kernel) :=
  match so_heap (objs K) !! a with
  | None => Panic
  | Some obj =>
      match so_staged obj with
      | None => Ret (ANX_EINVAL, K)
      | Some stage =>
          let '(r, K) := commit_authority now obj stage K in
          let r := if (r =? ANX_OK) && final_state (so_state obj) then ANX_EPERM else r in
          let r := if (r =? ANX_OK) && negb (so_version obj =? base_version stage) then ANX_EBUSY else r in
          let r := if (r =? ANX_OK) && (so_version obj =? MAX64) then ANX_EFULL else r in
          if r =? ANX_OK then anx_epistemic_stage_check sha256 identity_admit fuel current obj K else Ret (r, K)
      end
  end.


Definition commit_publish (now a : Z) (K : kernel) : kernel :=
  match so_heap (objs K) !! a with
  | None => K
  | Some obj =>
      match so_staged obj with
      | None => K
      | Some stage =>
          let W := so_update a (λ o, anx_so_compute_content_hash sha256
                     (o <| so_payload := shadow_payload stage |> <| so_payload_size := shadow_size stage |>
                        <| so_version ::= λ v, u64 (v + 1) |>)) (objs K) in
          let W := so_log a (prov_event now ANX_PROV_MUTATED (staging_cell stage)) W in
          let E := anx_epistemic_stage_resolve obj true (reviews K) in
          K <| objs := so_update a (λ o, o <| so_staged := None |>) W |> <| reviews := E |>
      end
  end.

Definition abort_check (a : Z) (K : kernel) : outcome Z :=
  match so_heap (objs K) !! a with
  | None => Panic
  | Some obj => Ret (match so_staged obj with Some _ => anx_object_stage_check_writer obj | None => ANX_EINVAL end)
  end.

Definition abort_discard (now a : Z) (K : kernel) : kernel :=
  match so_heap (objs K) !! a with
  | None => K
  | Some obj =>
      match so_staged obj with
      | None => K
      | Some stage =>
          let E := anx_epistemic_stage_resolve obj false (reviews K) in
          let W := so_log a (prov_event now ANX_PROV_STAGE_ABORTED (staging_cell stage)) (objs K) in
          K <| objs := so_update a (λ o, o <| so_staged := None |>) W |> <| reviews := E |>
      end
  end.

Definition anx_object_commit (now : Z) (handlep : option anx_object_handle) (K : kernel) : outcome (Z * kernel) :=
  let r := writable_handle handlep in
  when negb (r =? ANX_OK) ret Ret (r, K) ;;
  match handlep ≫= h_obj with
  | None => Ret (ANX_EINVAL, K)
  | Some a =>
      let! (r, K) := commit_check now a K in
      Ret (r, if r =? ANX_OK then commit_publish now a K else K)
  end.

Definition anx_object_abort (now : Z) (handlep : option anx_object_handle) (K : kernel) : outcome (Z * kernel) :=
  let r := writable_handle handlep in
  when negb (r =? ANX_OK) ret Ret (r, K) ;;
  match handlep ≫= h_obj with
  | None => Ret (ANX_EINVAL, K)
  | Some a =>
      let! r := abort_check a K in
      Ret (r, if r =? ANX_OK then abort_discard now a K else K)
  end.

Definition ANX_STAGE_BATCH_MAX : Z := 4.

Definition oid_at (W : objstore) (a : Z) : anx_uuid := default ANX_UUID_NIL (so_oid <$> so_heap W !! a).

(** The first loop: writable handles on distinct objects. *)
Fixpoint collect (W : objstore) (handles : list (option anx_object_handle)) (objects : list Z) : Z * list Z :=
  match handles with
  | [] => (ANX_OK, objects)
  | h :: handles =>
      let r := writable_handle h in
      when negb (r =? ANX_OK) ret (r, objects) ;;
      match h ≫= h_obj with
      | None => (ANX_EINVAL, objects)
      | Some a =>
          when existsb (λ b, (a =? b) || (anx_uuid_compare (oid_at W a) (oid_at W b) =? 0)) objects ret (ANX_EEXIST, objects) ;;
          collect W handles (objects ++ [a])
      end
  end.

(** One pass of the insertion sort by id: into the sorted prefix, behind the
    objects with smaller ids. *)
Fixpoint insert_by_oid (W : objstore) (a : Z) (sorted : list Z) : list Z :=
  match sorted with
  | [] => [a]
  | b :: sorted =>
      if anx_uuid_compare (oid_at W b) (oid_at W a) >? 0 then a :: b :: sorted else b :: insert_by_oid W a sorted
  end.

Definition sort_objects (W : objstore) (objects : list Z) : list Z := foldl (λ l a, insert_by_oid W a l) [] objects.

Definition stage_of (W : objstore) (a : Z) : option anx_staged_mutation := so_heap W !! a ≫= so_staged.

(** Every object has a stage, all by one owner that is not nil. *)
Fixpoint one_owner (W : objstore) (first : Z) (objects : list Z) : Z :=
  match objects with
  | [] => ANX_OK
  | a :: objects =>
      match stage_of W a with
      | None => ANX_EINVAL
      | Some stage =>
          when anx_uuid_is_nil (staging_cell stage)
               || negb (anx_uuid_compare (default ANX_UUID_NIL (staging_cell <$> stage_of W first)) (staging_cell stage) =? 0)
            ret ANX_EPERM ;;
          one_owner W first objects
      end
  end.

Fixpoint check_all (now : Z) (commit : bool) (objects : list Z) (K : kernel) : outcome (Z * kernel) :=
  match objects with
  | [] => Ret (ANX_OK, K)
  | a :: objects =>
      let! (r, K) := if commit then commit_check now a K else let! r := abort_check a K in Ret (r, K) in
      when negb (r =? ANX_OK) ret Ret (r, K) ;;
      check_all now commit objects K
  end.

Definition resolve_one (now : Z) (commit : bool) (K : kernel) (a : Z) : kernel :=
  if commit then commit_publish now a K else abort_discard now a K.

Definition resolve_batch (now : Z) (handles : option (list (option anx_object_handle))) (commit : bool) (K : kernel)
    : outcome (Z * kernel) :=
  match handles with
  | None => Ret (ANX_EINVAL, K)
  | Some handles =>
      let count := Z.of_nat (length handles) in
      when (count =? 0) || (count >? ANX_STAGE_BATCH_MAX) ret Ret (ANX_EINVAL, K) ;;
      let '(r, objects) := collect (objs K) handles [] in
      when negb (r =? ANX_OK) ret Ret (r, K) ;;
      let objects := sort_objects (objs K) objects in
      let r := one_owner (objs K) (default 0 (objects !! 0%nat)) objects in
      when negb (r =? ANX_OK) ret Ret (r, K) ;;
      let! (r, K) := check_all now commit objects K in
      Ret (r, if r =? ANX_OK then foldl (resolve_one now commit) K objects else K)
  end.

Definition anx_object_commit_batch (now : Z) (handles : option (list (option anx_object_handle))) (K : kernel) : outcome (Z * kernel) :=
  resolve_batch now handles true K.

Definition anx_object_abort_batch (now : Z) (handles : option (list (option anx_object_handle))) (K : kernel) : outcome (Z * kernel) :=
  resolve_batch now handles false K.
End stage.
