(* ===== verification/ObjectProofs.v ===== *)
(** * What can happen to a state object

    Every operation of [StateObject.v] and [Stage.v], by any caller and with any arguments, acts
    on each object as a sequence of the steps of [change].  The theorems about
    sealing, staging, provenance and the life cycle follow from that machine. *)

From S2P Require Import Prelude Uuid Cell Sched CellStore EffectFence Meta Review StateObject Stage.

Lemma alter_Some {A : Type} (f : A → A) (m : gmap Z A) (a : Z) x : m !! a = Some x → alter f a m = <[a := f x]> m.
Proof.
  intros Hx. apply map_eq. intros b. destruct (decide (a = b)) as [->|Hne].
  - by rewrite lookup_alter_eq, lookup_insert_eq, Hx.
  - by rewrite lookup_alter_ne, lookup_insert_ne.
Qed.

(** A buffer pointer with the size kept beside it. *)
Definition buf_ok (p : option (list Z)) (n : Z) : Prop := match p with Some l => n = Z.of_nat (length l) | None => n = 0 end.

Definition size_ok (o : anx_state_object) : Prop :=
  buf_ok (so_payload o) (so_payload_size o) ∧ ∀ s, so_staged o = Some s → buf_ok (shadow_payload s) (shadow_size s).

(** [ok]: the callers pass buffers as long as they say. *)
Section change.
Context (sha256 : list Z → list Z) (ok : bool).
Implicit Types (o : anx_state_object) (W : objstore).

Abbreviation hashed := (anx_so_compute_content_hash sha256).

(** A log as it was, or with one event added. *)
Definition log_step (l l' : anx_prov_log) : Prop :=
  l' = l ∨ ∃ e cap, l' = ProvLog (prov_events l ++ [with_id (anx_prov_log_count l) e]) cap.

(** Reference count, metadata and provenance. *)
Definition bookkept o (n : Z) (m : anx_meta_store) (l : anx_prov_log) : anx_state_object :=
  o <| so_refcount := n |> <| so_system_meta := m |> <| so_provenance := l |>.

Inductive change : anx_state_object → anx_state_object → Prop :=
  | CBook o n m l : log_step (so_provenance o) l → change o (bookkept o n m l)
  | CLabel o level : change o (o <| so_sensitivity := level |> <| so_sensitivity_origin := ANX_UUID_NIL |>)
  | CState o st : so_staged o = None → anx_lifecycle_transition (so_state o) st = (ANX_OK, st) →
      change o (o <| so_state := st |>)
  | CWrite o payload size : so_staged o = None → so_state o ≠ ANX_OBJ_SEALED →
      (ok = true → size_ok o → buf_ok payload size) →
      change o (hashed (o <| so_payload := payload |> <| so_payload_size := size |> <| so_version ::= λ v, u64 (v + 1) |>))
  | CShadow o s payload size : so_staged o = Some s → so_state o ≠ ANX_OBJ_SEALED →
      (ok = true → size_ok o → buf_ok payload size) →
      change o (o <| so_staged := Some (s <| shadow_payload := payload |> <| shadow_size := size |>) |>)
  | CStage o payload size cell : so_staged o = None → final_state (so_state o) = false →
      (size_ok o → buf_ok payload size) →
      change o (o <| so_staged := Some (StagedMutation payload size cell (so_version o) 0) |>)
  | CCommit o s : so_staged o = Some s → final_state (so_state o) = false → so_version o = base_version s →
      so_version o ≠ MAX64 →
      anx_access_evaluate (Some (so_access_policy o)) (Some (staging_cell s)) ANX_ACCESS_WRITE_PAYLOAD = ANX_OK →
      change o (hashed (o <| so_payload := shadow_payload s |> <| so_payload_size := shadow_size s |>
                  <| so_version ::= λ v, u64 (v + 1) |>) <| so_staged := None |>)
  | CAbort o s : so_staged o = Some s → change o (o <| so_staged := None |>)
  | CReview o s id : so_staged o = Some s → change o (o <| so_staged := Some (s <| epistemic_id := id |>) |>).

(** The objects of [W'] are those of [W], changed by steps. *)
Definition advances W W' : Prop :=
  ∀ a, match so_heap W !! a with
       | Some o => ∃ o', so_heap W' !! a = Some o' ∧ rtc change o o'
       | None => so_heap W' !! a = None
       end.

Lemma advances_refl W W' : so_heap W' = so_heap W → advances W W'.
Proof. intros HE a. rewrite HE. destruct (so_heap W !! a) as [o|]; [by exists o|done]. Qed.

Lemma advances_trans W1 W2 W3 : advances W1 W2 → advances W2 W3 → advances W1 W3.
Proof.
  intros H1 H2 a. specialize (H1 a). specialize (H2 a). destruct (so_heap W1 !! a) as [o|].
  - destruct H1 as (o1 & Ho1 & C1). rewrite Ho1 in H2. destruct H2 as (o2 & Ho2 & C2). exists o2. split; [done|]. by etrans.
  - by rewrite H1 in H2.
Qed.

Lemma advances_insert W W' a o o' : so_heap W !! a = Some o → so_heap W' = <[a := o']> (so_heap W) → rtc change o o' → advances W W'.
Proof.
  intros Ho HE HC b. rewrite HE. destruct (decide (a = b)) as [->|Hne].
  - rewrite Ho, lookup_insert_eq. eauto.
  - rewrite lookup_insert_ne by done. destruct (so_heap W !! b) as [x|]; [by exists x|done].
Qed.

Lemma advances_update W a f : (∀ o, so_heap W !! a = Some o → rtc change o (f o)) → advances W (so_update a f W).
Proof.
  intros Hf. destruct (so_heap W !! a) as [o|] eqn:Ho.
  - eapply (advances_insert W _ a o (f o)); [done| |by apply Hf]. cbn. by apply alter_Some.
  - apply advances_refl. cbn. by apply alter_id'.
Qed.

(** ** Bookkeeping *)

Lemma book_refcount o n : change o (o <| so_refcount := n |>).
Proof. replace (o <| so_refcount := n |>) with (bookkept o n (so_system_meta o) (so_provenance o)) by (by destruct o). constructor. by left. Qed.

Lemma book_meta o m : change o (o <| so_system_meta := m |>).
Proof. replace (o <| so_system_meta := m |>) with (bookkept o (so_refcount o) m (so_provenance o)) by (by destruct o). constructor. by left. Qed.

Lemma book_log o l : log_step (so_provenance o) l → change o (o <| so_provenance := l |>).
Proof. intros Hl. replace (o <| so_provenance := l |>) with (bookkept o (so_refcount o) (so_system_meta o) l) by (by destruct o). by constructor. Qed.

Lemma append_step l e mem : log_step l (anx_prov_log_append l e mem).1.2.
Proof.
  unfold anx_prov_log_append. destruct (_ >=? _).
  - destruct (next_alloc mem) as [[] mem']; cbn; [right; eauto|by left].
  - cbn. right. eauto.
Qed.

Lemma so_log_spec W a e o : so_heap W !! a = Some o →
  ∃ l, so_heap (so_log a e W) = <[a := o <| so_provenance := l |>]> (so_heap W) ∧ log_step (so_provenance o) l ∧
    oid_table (so_log a e W) = oid_table W.
Proof.
  intros Ho. unfold so_log. rewrite Ho. pose proof (append_step (so_provenance o) e (so_mem W)) as Hs.
  destruct (anx_prov_log_append (so_provenance o) e (so_mem W)) as [[r l] mem]. exists l. split_and!; [|done|done].
  exact (alter_Some (λ o, o <| so_provenance := l |>) _ _ _ Ho).
Qed.

Lemma so_log_advances W a e : advances W (so_log a e W).
Proof.
  destruct (so_heap W !! a) as [o|] eqn:Ho.
  - destruct (so_log_spec W a e o Ho) as (l & HE & Hl & _). eapply advances_insert; [done|done|]. by apply rtc_once, book_log.
  - apply advances_refl. unfold so_log. by rewrite Ho.
Qed.

Lemma lookup_advances W oid : advances W (anx_objstore_lookup oid W).2.
Proof.
  unfold anx_objstore_lookup. destruct (find_oid W oid) as [a|]; [|by apply advances_refl]. cbn.
  apply advances_update. intros o _. apply rtc_once, book_refcount.
Qed.

Lemma release_advances W a : advances W (anx_objstore_release a W).
Proof.
  apply advances_update. intros o _. destruct (_ >? _); [|done]. apply rtc_once, (book_refcount o).
Qed.

Lemma uor_advances uor W a : advances W (uor_project uor a W).
Proof.
  unfold uor_project. destruct (so_heap W !! a) as [o|] eqn:Ho; [|by apply advances_refl].
  destruct (uor o (so_mem W)) as [m mem]. apply (advances_trans _ (so_update a (λ o, o <| so_system_meta := m |>) W)); [|by apply advances_refl].
  apply advances_update. intros x _. apply rtc_once, book_meta.
Qed.

Lemma inherit_advances W parents s u : advances W (inherit_label W parents s u).2.
Proof.
  revert W s u. induction parents as [|oid parents IH]; intros W s u; cbn [inherit_label]; [by apply advances_refl|].
  pose proof (lookup_advances W oid) as Hl. destruct (anx_objstore_lookup oid W) as [[a|] W1]; cbn in Hl.
  - destruct (match so_heap W1 !! a with Some p => _ | None => _ end) as [s' u'].
    eapply advances_trans; [exact Hl|]. eapply advances_trans; [apply (release_advances W1 a)|apply IH].
  - eapply advances_trans; [exact Hl|apply IH].
Qed.
End change.

(** ** The operations *)

Section operations.
Context (sha256 : list Z → list Z) (ok : bool).
Context (uor_attach : anx_state_object → list bool → anx_meta_store * list bool).
Context (junk : Z → Z).
Implicit Types (o : anx_state_object) (W : objstore) (K : kernel).

Abbreviation hashed := (anx_so_compute_content_hash sha256).
Abbreviation change := (change sha256 ok).
Abbreviation advances := (advances sha256 ok).

Lemma alloc_heap W : so_heap (so_alloc W).2 = so_heap W.
Proof. unfold so_alloc. by destruct (next_alloc (so_mem W)). Qed.

Lemma alloc_advances W : advances W (so_alloc W).2.
Proof. apply advances_refl, alloc_heap. Qed.

Lemma alloc_same W : so_heap (so_alloc W).2 = so_heap W ∧ oid_table (so_alloc W).2 = oid_table W.
Proof. unfold so_alloc. by destruct (next_alloc (so_mem W)). Qed.

Lemma opt_alloc_same (b : bool) W :
  so_heap (if b then so_alloc W else (true, W)).2 = so_heap W ∧ oid_table (if b then so_alloc W else (true, W)).2 = oid_table W.
Proof. destruct b; [apply alloc_same|done]. Qed.

Lemma opt_alloc_heap (b : bool) W : so_heap (if b then so_alloc W else (true, W)).2 = so_heap W.
Proof. destruct b; [apply alloc_heap|done]. Qed.

Lemma so_lookup_None W oid a : so_heap W !! a = None → so_heap (anx_objstore_lookup oid W).2 !! a = None.
Proof. intros Hn. unfold anx_objstore_lookup. destruct (find_oid W oid); [|done]. cbn. apply lookup_alter_None. by rewrite Hn. Qed.

Lemma inherit_None W parents s u a : so_heap W !! a = None → so_heap (inherit_label W parents s u).2 !! a = None.
Proof.
  revert W s u. induction parents as [|oid parents IH]; intros W s u Hn; cbn [inherit_label]; [done|].
  pose proof (so_lookup_None W oid a Hn) as Hl. destruct (anx_objstore_lookup oid W) as [[b|] W1]; cbn in Hl; [|by apply IH].
  destruct (match so_heap W1 !! b with Some p => _ | None => _ end) as [s' u']. apply IH. cbn. by apply lookup_alter_None.
Qed.

(** The label of a new object and the store after its parents were consulted. *)
Definition label_for (p : anx_so_create_params) W : Z * anx_uuid * objstore :=
  if (p_sensitivity p =? ANX_SENSITIVITY_PUBLIC) && has_parents p
  then inherit_label W (parents_of p) ANX_SENSITIVITY_PUBLIC ANX_UUID_NIL
  else (p_sensitivity p, ANX_UUID_NIL, W).

(** A creation changes nothing but the memory, or installs one new object. *)
Lemma so_create_cases now1 now2 fresh addr params out W :
  let R := anx_so_create sha256 uor_attach now1 now2 fresh addr params out W in
  (R.1.1 ≠ ANX_OK ∧ R.1.2 = None ∧ so_heap R.2 = so_heap W ∧ oid_table R.2 = oid_table W) ∨
  ∃ p W0 sm um, params = Some p ∧ so_heap W0 = so_heap W ∧ oid_table W0 = oid_table W ∧
    let '(sens, origin, W1) := label_for p W0 in
    R = (ANX_OK, Some addr, install uor_attach now2 addr (new_object sha256 p fresh sens origin sm um (ProvLog [] PROV_INITIAL_CAP)) W1).
Proof.
  cbv zeta. unfold anx_so_create. destruct params as [p|]; [|by left].
  destruct (negb out); [by left|]. destruct (p_object_type p >=? ANX_OBJ_TYPE_COUNT); [by left|].
  destruct (_ && negb _); [by left|].
  destruct (alloc_same W) as [H1 T1]. destruct (so_alloc W) as [ok1 W1]. cbn in H1, T1. destruct (negb ok1); [by left|].
  destruct (opt_alloc_same (has_payload p) W1) as [H2 T2]. destruct (if has_payload p then so_alloc W1 else (true, W1)) as [ok2 W2].
  cbn in H2, T2. rewrite H1 in H2. rewrite T1 in T2. destruct (negb ok2); [by left|].
  destruct (anx_meta_create (so_mem W2)) as [sm mem1]. destruct (anx_meta_create mem1) as [um mem2]. cbv zeta.
  destruct sm as [sm|]; [|by left]. destruct um as [um|]; [|by left].
  destruct (anx_meta_set_i64 sm _ _ _) as [[? sm1] mem3]. destruct (anx_meta_set_i64 sm1 _ _ _) as [[? sm2] mem4].
  destruct (anx_meta_set_bool sm2 _ _ _) as [[? sm3] mem5].
  destruct (anx_prov_log_create mem5) as [log mem6] eqn:El. destruct log as [log|]; [|by left].
  assert (log = ProvLog [] PROV_INITIAL_CAP) as ->.
  { unfold anx_prov_log_create in El. destruct (next_alloc mem5) as [[] m']; [|discriminate]. cbn in El.
    destruct (next_alloc m') as [[] m'']; [|discriminate]. by injection El as <-. }
  set (W4 := W2 <| so_mem := _ |> <| so_mem := _ |>).
  destruct (opt_alloc_same (has_parents p) W4) as [H5 T5]. destruct (if has_parents p then so_alloc W4 else (true, W4)) as [ok3 W5].
  cbn in H5, T5. rewrite H2 in H5. rewrite T2 in T5. destruct (negb ok3); [by left|]. right. exists p, W5, sm3, um. split_and!; [done..|].
  unfold label_for. by destruct (if _ && _ then _ else _) as [[sens origin] W6].
Qed.

Lemma label_for_advances p W : advances W (label_for p W).2.
Proof. unfold label_for. destruct (_ && _); [apply inherit_advances|by apply advances_refl]. Qed.

Lemma uor_project_spec W a o : so_heap W !! a = Some o →
  ∃ m, so_heap (uor_project uor_attach a W) = <[a := o <| so_system_meta := m |>]> (so_heap W) ∧
    oid_table (uor_project uor_attach a W) = oid_table W.
Proof.
  intros Ho. unfold uor_project. rewrite Ho. destruct (uor_attach o (so_mem W)) as [m mem]. exists m. split; [|done].
  exact (alter_Some (λ o, o <| so_system_meta := m |>) _ _ _ Ho).
Qed.

(** The new object: active, with its metadata and its creation event. *)
Lemma install_spec now addr o W : so_state o = ANX_OBJ_CREATING →
  ∃ m l, so_heap (install uor_attach now addr o W) =
      <[addr := o <| so_state := ANX_OBJ_ACTIVE |> <| so_system_meta := m |> <| so_provenance := l |>]> (so_heap W) ∧
    oid_table (install uor_attach now addr o W) = addr :: oid_table W ∧ log_step (so_provenance o) l.
Proof.
  intros Hst. unfold install. set (W1 := W <| so_heap ::= <[addr := o]> |>).
  destruct (so_log_spec W1 addr (prov_event now ANX_PROV_CREATED (so_creator_cell o)) o (lookup_insert_eq _ _ _)) as (l & H2 & Hl & T2).
  set (W2 := so_log _ _ _) in *. set (W3 := objstore_add addr _).
  assert (so_heap W3 = <[addr := o <| so_provenance := l |> <| so_state := ANX_OBJ_ACTIVE |>]> (so_heap W)) as H3.
  { unfold W3. cbn. rewrite (alter_Some _ _ _ (o <| so_provenance := l |>)) by (rewrite H2; apply lookup_insert_eq).
    rewrite H2. cbn. rewrite !insert_insert_eq, Hst. done. }
  destruct (uor_project_spec W3 addr (o <| so_provenance := l |> <| so_state := ANX_OBJ_ACTIVE |>)) as (m & H4 & T4);
    [rewrite H3; apply lookup_insert_eq|].
  exists m, l. split_and!; [|by rewrite T4; unfold W3; cbn; rewrite T2|done]. rewrite H4, H3, insert_insert_eq. by destruct o.
Qed.

(** A creation leaves all other objects to bookkeeping and adds at most one. *)
Lemma create_spec now1 now2 fresh addr params out W : so_heap W !! addr = None →
  let W' := (anx_so_create sha256 uor_attach now1 now2 fresh addr params out W).2 in
  advances W W' ∨ ∃ W1 p sens origin sm um m l, advances W W1 ∧ log_step (ProvLog [] PROV_INITIAL_CAP) l ∧
    so_heap W' = <[addr := new_object sha256 p fresh sens origin sm um (ProvLog [] PROV_INITIAL_CAP)
      <| so_state := ANX_OBJ_ACTIVE |> <| so_system_meta := m |> <| so_provenance := l |>]> (so_heap W1) ∧ params = Some p.
Proof.
  intros Hn W'. destruct (so_create_cases now1 now2 fresh addr params out W) as [(_ & _ & Hh & _)|(p & W0 & sm & um & Hp & Hh & _ & HE)];
    [left; by apply advances_refl|]. right.
  pose proof (label_for_advances p W0) as Hl. destruct (label_for p W0) as [[sens origin] W1]. unfold W'. rewrite HE. cbn [snd] in *.
  destruct (install_spec now2 addr (new_object sha256 p fresh sens origin sm um (ProvLog [] PROV_INITIAL_CAP)) W1 eq_refl)
    as (m & l & HI & _ & Hls).
  exists W1, p, sens, origin, sm, um, m, l. split_and!; [|done|done|done]. eapply advances_trans; [by apply (advances_refl _ _ W W0)|exact Hl].
Qed.

Lemma open_advances current oidp mode handlep W : advances W (anx_so_open current oidp mode handlep W).2.
Proof.
  unfold anx_so_open. destruct oidp as [oid|]; [|by apply advances_refl]. destruct handlep as [h|]; [|by apply advances_refl].
  destruct (negb (mode_ok mode)); [by apply advances_refl|]. pose proof (lookup_advances sha256 ok W oid) as Hl.
  destruct (anx_objstore_lookup oid W) as [[a|] W1]; [|exact Hl]. cbn in Hl.
  destruct (so_heap W1 !! a) as [o|]; [|exact Hl].
  assert (advances W (anx_objstore_release a W1)) by (eapply advances_trans; [exact Hl|apply release_advances]).
  repeat (case_match; [done|]). done.
Qed.

Lemma close_advances handlep W : advances W (anx_so_close handlep W).2.
Proof. destruct handlep as [[[a|] mode v]|]; cbn; [apply release_advances|by apply advances_refl..]. Qed.

(** A state is replaced along the table, or not at all. *)
Lemma so_transition_cases st st' : anx_lifecycle_transition st st' = (ANX_OK, st') ∨
  (anx_lifecycle_transition st st').1 ≠ ANX_OK ∧ (anx_lifecycle_transition st st').2 = st.
Proof. unfold anx_lifecycle_transition. repeat (case_match; [by right|]). by left. Qed.

Lemma set_state_advances W a o st : so_heap W !! a = Some o → so_staged o = None →
  advances W (so_update a (λ o, o <| so_state := (anx_lifecycle_transition (so_state o) st).2 |>) W).
Proof.
  intros Ho Hs. apply advances_update. intros x Hx. rewrite Ho in Hx. injection Hx as <-.
  destruct (so_transition_cases (so_state o) st) as [E|[_ E]]; rewrite E; cbn; [by apply rtc_once, CState|by destruct o].
Qed.

Lemma not_staged o : bool_decide (is_Some (so_staged o)) = false → so_staged o = None.
Proof. intros Hs%bool_decide_eq_false. by apply eq_None_not_Some. Qed.

Lemma update_ext W a f g o : so_heap W !! a = Some o → f o = g o → so_update a f W = so_update a g W.
Proof.
  intros Ho Hfg. unfold so_update. destruct W as [H T M]. cbn in *. f_equal. by rewrite !(alter_Some _ _ _ _ Ho), Hfg.
Qed.

Lemma seal_advances now oid W : advances W (anx_so_seal uor_attach now oid W).2.
Proof.
  unfold anx_so_seal. pose proof (lookup_advances sha256 ok W oid) as Hl.
  destruct (anx_objstore_lookup oid W) as [[a|] W1]; [|exact Hl]. cbn in Hl. destruct (so_heap W1 !! a) as [o|] eqn:Ho; [|exact Hl].
  destruct (bool_decide (is_Some (so_staged o))) eqn:Es; [eapply advances_trans; [exact Hl|apply release_advances]|].
  apply not_staged in Es. pose proof (set_state_advances W1 a o ANX_OBJ_SEALED Ho Es) as H1.
  rewrite (update_ext W1 a _ (λ x, x <| so_state := (anx_lifecycle_transition (so_state o) ANX_OBJ_SEALED).2 |>) o Ho) in H1 by done.
  destruct (anx_lifecycle_transition (so_state o) ANX_OBJ_SEALED) as [r st]. cbn [snd] in H1 |- *.
  eapply advances_trans; [exact Hl|]. eapply advances_trans; [exact H1|]. eapply advances_trans; [|apply release_advances].
  destruct (r =? ANX_OK); [|by apply advances_refl]. destruct (anx_meta_set_bool _ _ _ _) as [[r' m] mem].
  eapply advances_trans; [|apply so_log_advances]. eapply advances_trans; [|apply uor_advances].
  eapply advances_trans; [apply (advances_update _ _ _ a (λ o, o <| so_system_meta := m |>)); intros x _; apply rtc_once, book_meta|].
  by apply advances_refl.
Qed.

Lemma delete_advances oid force W : advances W (anx_so_delete oid force W).2.
Proof.
  unfold anx_so_delete. pose proof (lookup_advances sha256 ok W oid) as Hl.
  destruct (anx_objstore_lookup oid W) as [[a|] W1]; [|exact Hl]. cbn in Hl. destruct (so_heap W1 !! a) as [o|] eqn:Ho; [|exact Hl].
  destruct (bool_decide (is_Some (so_staged o))) eqn:Es; [eapply advances_trans; [exact Hl|apply release_advances]|].
  destruct (deletion_hold (so_retention o) && negb force); [eapply advances_trans; [exact Hl|apply release_advances]|].
  apply not_staged in Es. pose proof (set_state_advances W1 a o ANX_OBJ_DELETED Ho Es) as H1.
  rewrite (update_ext W1 a _ (λ x, x <| so_state := (anx_lifecycle_transition (so_state o) ANX_OBJ_DELETED).2 |>) o Ho) in H1 by done.
  destruct (anx_lifecycle_transition (so_state o) ANX_OBJ_DELETED) as [r st]. cbn [snd] in H1 |- *.
  eapply advances_trans; [exact Hl|]. eapply advances_trans; [exact H1|]. eapply advances_trans; [|apply release_advances].
  destruct (r =? ANX_OK); by apply advances_refl.
Qed.

Lemma relabel_advances oidp level W : advances W (anx_object_set_sensitivity oidp level W).2.
Proof.
  unfold anx_object_set_sensitivity. destruct oidp as [oid|]; [|by apply advances_refl].
  pose proof (lookup_advances sha256 ok W oid) as Hl. destruct (anx_objstore_lookup oid W) as [[a|] W1]; [|exact Hl]. cbn in Hl |- *.
  eapply advances_trans; [exact Hl|]. eapply advances_trans; [|apply release_advances].
  apply (advances_update _ _ W1 a). intros o _. apply rtc_once. constructor.
Qed.

Lemma update_update W a f g o : so_heap W !! a = Some o →
  so_heap (so_update a f (so_update a g W)) = <[a := f (g o)]> (so_heap W).
Proof.
  intros Ho. unfold so_update. cbn. rewrite (alter_Some _ (so_heap W) _ _ Ho), (alter_Some _ _ _ (g o)) by apply lookup_insert_eq.
  apply insert_insert_eq.
Qed.

(** A direct mutation is one step and bookkeeping. *)
Lemma mutation_advances now a W o payload size : so_heap W !! a = Some o → so_staged o = None → so_state o ≠ ANX_OBJ_SEALED →
  (ok = true → size_ok o → buf_ok payload size) →
  advances W (record_mutation sha256 now a (so_update a (λ o, o <| so_payload := payload |> <| so_payload_size := size |>) W)).
Proof.
  intros Ho Hs Hst Hb. unfold record_mutation. eapply advances_trans; [|apply so_log_advances].
  eapply (advances_insert _ _ W _ a o); [done| |apply rtc_once, (CWrite _ _ o payload size Hs Hst Hb)].
  exact (update_update W a (λ o, hashed (o <| so_version ::= λ v, u64 (v + 1) |>)) (λ o, o <| so_payload := payload |> <| so_payload_size := size |>) o Ho).
Qed.

Lemma splice_length off x l : (off + length x ≤ length l)%nat → length (splice off x l) = length l.
Proof. intros Hl. unfold splice. rewrite !length_app, length_take, length_drop. lia. Qed.

Lemma splice_lookup off x l i : (off + length x ≤ length l)%nat →
  splice off x l !! i = if decide (off ≤ i < off + length x)%nat then x !! (i - off)%nat else l !! i.
Proof.
  intros Hl. unfold splice. assert (length (take off l) = off) as Ht by (rewrite length_take; lia). case_decide as Hd.
  - rewrite lookup_app_r by lia. rewrite Ht, lookup_app_l by lia. done.
  - destruct (decide (i < off)%nat); [by rewrite lookup_app_l, lookup_take_lt by lia|].
    rewrite lookup_app_r, Ht, lookup_app_r, lookup_drop by lia. f_equal. lia.
Qed.

(** The byte at [i] after [len] bytes of [data] were written at [offset]. *)
Definition written (target : option (list Z)) (size offset : Z) (data : list Z) (len : Z) (i : nat) : option Z :=
  if decide (offset ≤ Z.of_nat i < offset + len) then data !! (i - Z.to_nat offset)%nat
  else if decide (Z.of_nat i < size) then default [] target !! i
  else if decide (Z.of_nat i < offset + len) then Some (junk (Z.of_nat i)) else None.

(** The buffer is long enough already, or memory for a longer one is there. *)
Definition room (size offset len : Z) (W : objstore) : bool := (u64 (offset + len) <=? size) || (so_alloc W).1.

Lemma write_buffer_full target size offset data len W : room size offset len W = false →
  ∃ W', write_buffer junk target size offset data len W = Ret (None, W').
Proof.
  unfold room, write_buffer. intros [Hl Ha]%orb_false_iff. destruct (Z.gtb_spec (u64 (offset + len)) size); [|lia].
  destruct (so_alloc W) as [ok1 W1]. cbn in Ha. subst ok1. by exists W1.
Qed.

(** Whatever the end of the write, also after wrap-around: a buffer that is stored
    has the length that is stored. *)
Lemma write_buffer_ok target size offset data len W p n W' : buf_ok target size → 0 ≤ offset → 0 ≤ len ≤ Z.of_nat (length data) →
  write_buffer junk target size offset data len W = Ret (Some (p, n), W') → buf_ok p n.
Proof.
  intros Hb Ho Hl. unfold write_buffer. pose proof (Z.mod_pos_bound (offset + len) (2 ^ 64) ltac:(lia)) as Hu. change ((offset + len) mod 2 ^ 64) with (u64 (offset + len)) in Hu.
  set (end_ := u64 (offset + len)) in *.
  assert (∀ base size W1, buf_ok base size → (when len =? 0 ret Ret (Some (base, size), W1) ;;
    match base with
    | None => Panic
    | Some l => if offset + len >? Z.of_nat (length l) then Panic
                else Ret (Some (Some (splice (Z.to_nat offset) (firstn (Z.to_nat len) data) l), size), W1)
    end) = Ret (Some (p, n), W') → buf_ok p n) as Hcopy.
  { intros base sz W1 Hbase. destruct (len =? 0); [by intros [= <- <- _]|]. destruct base as [l|]; [|done].
    destruct (Z.gtb_spec (offset + len) (Z.of_nat (length l))); [done|]. intros [= <- <- _]. cbn in *. rewrite splice_length; [done|]. rewrite length_take. lia. }
  destruct (Z.gtb_spec end_ size) as [Hg|Hg]; [|by apply Hcopy]. destruct (so_alloc W) as [ok1 W1]. destruct ok1; [|by intros [= ]]. cbn [negb].
  apply (Hcopy (Some (match target with Some l => splice 0 (firstn (Z.to_nat size) l) (junk <$> seqZ 0 end_) | None => junk <$> seqZ 0 end_ end)) end_ W1). cbn.
  assert (length (junk <$> seqZ 0 end_) = Z.to_nat end_) as Hjl by (rewrite length_fmap; apply length_seqZ).
  destruct target as [l|]; [|lia]. cbn in Hb. rewrite splice_length; [lia|]. rewrite length_take. lia.
Qed.

(** A write whose end wraps leaves the buffer as soon as it gets to the copy. *)
Lemma write_buffer_wraps target size offset data len W : buf_ok target size → size < 2 ^ 64 → 0 ≤ offset < 2 ^ 64 → 0 ≤ len < 2 ^ 64 →
  2 ^ 64 ≤ offset + len → room size offset len W = true → write_buffer junk target size offset data len W = Panic.
Proof.
  intros Hb Hs Ho Hl Hw Hr. unfold room, write_buffer in *. pose proof (Z.mod_pos_bound (offset + len) (2 ^ 64) ltac:(lia)) as Hu.
  change ((offset + len) mod 2 ^ 64) with (u64 (offset + len)) in Hu. set (end_ := u64 (offset + len)) in *.
  replace (len =? 0) with false by lia. destruct (Z.gtb_spec end_ size) as [Hg|Hg].
  - replace (end_ <=? size) with false in Hr by lia. destruct (so_alloc W) as [ok1 W1]. cbn in Hr. subst ok1. cbn [negb].
    assert (length (junk <$> seqZ 0 end_) = Z.to_nat end_) as Hjl by (rewrite length_fmap; apply length_seqZ).
    destruct target as [l|]; cbn in Hb.
    + rewrite splice_length by (rewrite length_take; lia). destruct (Z.gtb_spec (offset + len) (Z.of_nat (length (junk <$> seqZ 0 end_)))); [done|lia].
    + destruct (Z.gtb_spec (offset + len) (Z.of_nat (length (junk <$> seqZ 0 end_)))); [done|lia].
  - cbn [negb]. destruct target as [l|]; [|done]. cbn in Hb. destruct (Z.gtb_spec (offset + len) (Z.of_nat (length l))); [done|lia].
Qed.

(** With room in memory the buffer grows to hold what is written; what lies
    between the old end and the offset is left as the allocator returned it. *)
Lemma write_buffer_spec target size offset data len W :
  buf_ok target size → 0 ≤ offset → 0 ≤ len ≤ Z.of_nat (length data) → offset + len < 2 ^ 64 →
  room size offset len W = true →
  ∃ p n W', write_buffer junk target size offset data len W = Ret (Some (p, n), W') ∧ buf_ok p n ∧ n = Z.max size (offset + len) ∧
    ∀ i, default [] p !! i = written target size offset data len i.
Proof.
  intros Hb Ho Hl Hw. unfold room, write_buffer. rewrite u64_small by (unfold is_u64; lia). intros Hroom.
  assert (size = Z.of_nat (length (default [] target))) as Hsz by (destruct target; exact Hb).
  set (grow := offset + len >? size). 
  set (base := if grow then Some (match target with Some l => splice 0 (firstn (Z.to_nat size) l) (junk <$> seqZ 0 (offset + len))
                                  | None => junk <$> seqZ 0 (offset + len) end) else target).
  set (bsize := if grow then offset + len else size).
  assert (buf_ok base bsize ∧ bsize = Z.max size (offset + len) ∧ ∀ i, default [] base !! i = if decide (Z.of_nat i < size) then default [] target !! i
    else if decide (Z.of_nat i < offset + len) then Some (junk (Z.of_nat i)) else None) as (Hbase & Hbs & Hlook).
  { unfold base, bsize, grow. destruct (Z.gtb_spec (offset + len) size) as [Hg|Hg].
    - assert (length (junk <$> seqZ 0 (offset + len)) = Z.to_nat (offset + len)) as Hjl by (rewrite length_fmap; apply length_seqZ).
      assert (∀ i, (junk <$> seqZ 0 (offset + len)) !! i = if decide (Z.of_nat i < offset + len) then Some (junk (Z.of_nat i)) else None) as Hj.
      { intros i. rewrite list_lookup_fmap. case_decide; [rewrite lookup_seqZ_lt by lia; cbn; do 2 f_equal; lia|rewrite lookup_seqZ_ge by lia; done]. }
      destruct target as [l|]; cbn in Hsz.
      + assert (firstn (Z.to_nat size) l = l) as Hf by (apply take_ge; lia). rewrite Hf.
        split; [cbn; rewrite splice_length; lia|]. split; [lia|]. intros i.
        change (default [] (Some ?x)) with x. rewrite splice_lookup by lia. rewrite Hj. repeat case_decide; try lia; try done. by rewrite Nat.sub_0_r.
      + cbn. split; [lia|]. split; [lia|]. intros i. rewrite Hj. repeat case_decide; try lia; done.
    - split; [done|]. split; [lia|]. intros i. repeat case_decide; try lia; try done. apply lookup_ge_None. lia. }
  assert (∃ W1, (if grow then let '(ok, W) := so_alloc W in
      (ok, Some (match target with Some l => splice 0 (firstn (Z.to_nat size) l) (junk <$> seqZ 0 (offset + len)) | None => junk <$> seqZ 0 (offset + len) end), offset + len, W)
    else (true, target, size, W)) = (true, base, bsize, W1)) as (W1 & HE).
  { unfold base, bsize. destruct grow eqn:Hg; [|by eexists]. replace (offset + len <=? size) with false in Hroom by (unfold grow in Hg; lia).
    destruct (so_alloc W) as [ok1 W1]. cbn in Hroom. subst ok1. by eexists. }
  rewrite HE. cbn [negb]. clear HE.
  destruct (Z.eqb_spec len 0) as [->|Hlen].
  { eexists _, _, _. split; [done|]. split; [done|]. split; [done|]. intros i. rewrite Hlook. unfold written. repeat case_decide; try lia; done. }
  destruct base as [l|]; cbn in Hbase; [|lia]. destruct (Z.gtb_spec (offset + len) (Z.of_nat (length l))); [lia|].
  assert (length (firstn (Z.to_nat len) data) = Z.to_nat len) as Hfl by (rewrite length_take; lia).
  eexists _, _, _. split; [done|]. split; [cbn; rewrite splice_length; lia|]. split; [done|]. intros i.
  change (default [] (Some ?x)) with x in *. rewrite splice_lookup by lia. rewrite Hlook. unfold written. rewrite Hfl. repeat case_decide; try lia; try done.
  rewrite lookup_take_lt by lia. done.
Qed.

Lemma write_buffer_heap target size offset data len W r W' :
  write_buffer junk target size offset data len W = Ret (r, W') → so_heap W' = so_heap W.
Proof using junk.
  clear sha256 ok uor_attach.
  unfold write_buffer. destruct (_ >? size).
  - pose proof (alloc_heap W) as Ha. destruct (so_alloc W) as [ok1 W1]. cbn in Ha. repeat case_match; naive_solver.
  - repeat case_match; naive_solver.
Qed.

(** What the callers of a write promise: a buffer as long as they say. *)
Definition write_ok (offset : Z) (data : option (list Z)) (len : Z) : Prop :=
  0 ≤ offset ∧ 0 ≤ len ∧ ∀ l, data = Some l → len ≤ Z.of_nat (length l).

Definition replace_ok (data : option (list Z)) (len : Z) : Prop :=
  match data with Some l => len = Z.of_nat (length l) | None => len = 0 end.

Lemma write_advances current now handle offset data len W r W' : (ok = true → write_ok offset data len) →
  anx_so_write_payload sha256 junk current now handle offset data len W = Ret (r, W') → advances W W'.
Proof.
  intros Hc. unfold anx_so_write_payload. destruct (h_obj handle) as [a|]; [|by intros [= _ <-]; apply advances_refl].
  destruct data as [data|]; [|by intros [= _ <-]; apply advances_refl].
  destruct (h_mode handle =? ANX_OPEN_READ); [by intros [= _ <-]; apply advances_refl|].
  destruct (so_heap W !! a) as [o|] eqn:Ho; [|done]. destruct (Z.eqb_spec (so_state o) ANX_OBJ_SEALED) as [|Hst]; [by intros [= _ <-]; apply advances_refl|].
  destruct (negb (anx_object_stage_check_writer current o =? ANX_OK)); [by intros [= _ <-]; apply advances_refl|].
  destruct (so_staged o) as [s|] eqn:Hs.
  - destruct (write_buffer junk (shadow_payload s) (shadow_size s) offset data len W) as [[x W1]| |] eqn:E; try done. cbn [obind].
    pose proof (write_buffer_heap _ _ _ _ _ _ _ _ E) as Hh. destruct x as [[payload size]|]; intros [= _ <-]; [|by apply advances_refl].
    eapply advances_trans; [by apply (advances_refl _ _ W W1)|]. apply (advances_update _ _ W1 a). rewrite Hh, Ho. intros x [= <-].
    apply rtc_once. apply CShadow; [done|done|]. intros Hok Hsz. destruct (Hc Hok) as (? & ? & Hd).
    eapply write_buffer_ok; [| | |exact E]; [by apply Hsz|done|split; [done|by apply Hd]].
  - destruct (write_buffer junk (so_payload o) (so_payload_size o) offset data len W) as [[x W1]| |] eqn:E; try done. cbn [obind].
    pose proof (write_buffer_heap _ _ _ _ _ _ _ _ E) as Hh. destruct x as [[payload size]|]; intros [= _ <-]; [|by apply advances_refl].
    eapply advances_trans; [by apply (advances_refl _ _ W W1)|]. apply (mutation_advances now a W1 o); [by rewrite Hh|done|done|].
    intros Hok Hsz. destruct (Hc Hok) as (? & ? & Hd).
    eapply write_buffer_ok; [| | |exact E]; [by apply Hsz|done|split; [done|by apply Hd]].
Qed.

Lemma replace_advances current now handle data len W r W' : (ok = true → replace_ok data len) →
  anx_so_replace_payload sha256 current now handle data len W = Ret (r, W') → advances W W'.
Proof.
  intros Hc. unfold anx_so_replace_payload. destruct (h_obj handle) as [a|]; [|by intros [= _ <-]; apply advances_refl].
  destruct (h_mode handle =? ANX_OPEN_READ); [by intros [= _ <-]; apply advances_refl|].
  destruct (so_heap W !! a) as [o|] eqn:Ho; [|done]. destruct (Z.eqb_spec (so_state o) ANX_OBJ_SEALED) as [|Hst]; [by intros [= _ <-]; apply advances_refl|].
  destruct (negb (anx_object_stage_check_writer current o =? ANX_OK)); [by intros [= _ <-]; apply advances_refl|].
  set (copy := bool_decide _ && _). destruct (if copy then so_alloc W else (true, W)) as [ok1 W1] eqn:Ea.
  assert (so_heap W1 = so_heap W) as Hh by (pose proof (alloc_heap W); destruct copy; [destruct (so_alloc W)|]; by injection Ea as <- <-).
  destruct (negb ok1); [by intros [= _ <-]; apply advances_refl|].
  assert (ok = true → buf_ok (if copy then firstn (Z.to_nat len) <$> data else None) len) as Hb.
  { intros Hok. specialize (Hc Hok). unfold copy. destruct data as [l|]; cbn in *; [|done]. destruct (Z.gtb_spec len 0); cbn; [rewrite length_take|]; lia. }
  destruct (so_staged o) as [s|] eqn:Hs; intros [= _ <-]; (eapply advances_trans; [by apply (advances_refl _ _ W W1)|]).
  - apply (advances_update _ _ W1 a). rewrite Hh, Ho. intros x [= <-]. apply rtc_once. apply CShadow; auto.
  - apply (mutation_advances now a W1 o); [by rewrite Hh|done|done|auto].
Qed.

Lemma stage_advances current handlep cell W r W' :
  anx_object_stage current handlep cell W = Ret (r, W') → advances W W'.
Proof.
  unfold anx_object_stage. destruct handlep as [[[a|] mode v]|]; try by intros [= _ <-]; apply advances_refl.
  destruct (mode =? ANX_OPEN_READ); [by intros [= _ <-]; apply advances_refl|].
  destruct (negb (writable_handle _ =? ANX_OK)); [by intros [= _ <-]; apply advances_refl|].
  destruct (match current with Some _ => _ | None => _ end); [by intros [= _ <-]; apply advances_refl|].
  destruct (so_heap W !! a) as [o|] eqn:Ho; [|done]. destruct (final_state (so_state o)) eqn:Ef; [by intros [= _ <-]; apply advances_refl|].
  destruct (bool_decide (is_Some (so_staged o))) eqn:Es; [by intros [= _ <-]; apply advances_refl|]. apply not_staged in Es.
  destruct (negb (anx_access_evaluate _ _ _ =? ANX_OK)); [by intros [= _ <-]; apply advances_refl|].
  pose proof (alloc_heap W) as H1. destruct (so_alloc W) as [ok1 W1]. cbn in H1.
  destruct (negb ok1); [by intros [= _ <-]; apply advances_refl|]. set (has := bool_decide _ && _).
  destruct (if has then so_alloc W1 else (true, W1)) as [ok2 W2] eqn:Ea.
  assert (so_heap W2 = so_heap W) as H2 by (pose proof (alloc_heap W1); destruct has; [destruct (so_alloc W1)|]; injection Ea as <- <-; by cbn in *; congruence).
  destruct (negb ok2); intros [= _ <-]; [by apply advances_refl|]. eapply advances_trans; [by apply (advances_refl _ _ W W2)|].
  apply (advances_update _ _ W2 a). rewrite H2, Ho. intros x [= <-]. apply rtc_once. apply CStage; [done|done|].
  intros [Hb _]. unfold has. destruct (so_payload o) as [l|]; cbn in *; [|done]. destruct (Z.gtb_spec (so_payload_size o) 0); cbn; [rewrite length_take|]; lia.
Qed.
End operations.
