(* ===== verification/EpistemicProofs.v ===== *)
(** * Theorems about epistemic reviews

    What the review operations leave alone, what the structural cut measures,
    and what a vote and a ready review establish. *)

From S2P Require Import Prelude Uuid Cell CellScope Sched CellStore EffectFence Meta Review StateObject Epistemic Stage ObjectProofs.

(** No reference count is about to wrap. *)
Definition refs_ok (W : objstore) : Prop := ∀ a o, so_heap W !! a = Some o → 0 ≤ so_refcount o < MAX32.

Lemma refs_release W a : refs_ok W →
  anx_objstore_release a (so_update a (λ o, o <| so_refcount ::= λ n, u32 (n + 1) |>) W) = W.
Proof.
  intros Hr. unfold anx_objstore_release, so_update. destruct W as [H T M]. cbn. f_equal. apply map_eq. intros b.
  destruct (decide (a = b)) as [->|Hne]; [|by rewrite !lookup_alter_ne]. rewrite !lookup_alter_eq.
  destruct (H !! b) as [o|] eqn:Ho; [|done]. specialize (Hr b o Ho). cbn. f_equal. rewrite u32_small by (unfold is_u32, MAX32 in *; lia).
  destruct (Z.gtb_spec (so_refcount o + 1) 0); [|lia]. destruct o; cbn. f_equal. lia.
Qed.

(** The same objects, up to reference counts. *)
Definition recounted (W W' : objstore) : Prop :=
  ∀ a, match so_heap W !! a with
       | Some o => ∃ n, so_heap W' !! a = Some (o <| so_refcount := n |>)
       | None => so_heap W' !! a = None
       end.

Lemma recounted_same W W' : so_heap W' = so_heap W → recounted W W'.
Proof. intros HE a. rewrite HE. destruct (so_heap W !! a) as [o|]; [|done]. exists (so_refcount o). by destruct o. Qed.

Lemma recounted_trans W1 W2 W3 : recounted W1 W2 → recounted W2 W3 → recounted W1 W3.
Proof.
  intros H1 H2 a. specialize (H1 a). specialize (H2 a). destruct (so_heap W1 !! a) as [o|]; [|by rewrite H1 in H2].
  destruct H1 as (n & H1). rewrite H1 in H2. destruct H2 as (n' & H2). by exists n'.
Qed.

Lemma recounted_update W a f : (∀ o, ∃ n, f o = o <| so_refcount := n |>) → recounted W (so_update a f W).
Proof.
  intros Hf b. cbn. destruct (decide (a = b)) as [->|Hne].
  - rewrite lookup_alter_eq. destruct (so_heap W !! b) as [o|]; [|done]. destruct (Hf o) as (n & E). exists n. cbn. by rewrite E.
  - rewrite lookup_alter_ne by done. by apply (recounted_same W W).
Qed.

Lemma recounted_release W a : recounted W (anx_objstore_release a W).
Proof. apply recounted_update. intros o. destruct (_ >? 0); eexists; [reflexivity|]. instantiate (1 := so_refcount o). by destruct o. Qed.

Lemma recounted_advances sha256 ok W W' : recounted W W' → advances sha256 ok W W'.
Proof.
  intros H a. specialize (H a). destruct (so_heap W !! a) as [o|]; [|done]. destruct H as (n & H). eexists. split; [exact H|].
  apply rtc_once, book_refcount.
Qed.

(** ** What reviewing leaves alone *)

Section quiet.
Implicit Types (r : epistemic_record) (K : kernel).

(** Objects keep all but their reference counts, which are taken and given back;
    no review changes. *)
Record quiet K K' : Prop := {
  q_objs : recounted (objs K) (objs K');
  q_same : refs_ok (objs K) → objs K' = objs K;
  q_reviews : reviews K' = reviews K;
}.

#[export] Instance quiet_po : PreOrder quiet.
Proof.
  split.
  - intros K. split; [by apply recounted_same|done|done].
  - intros K1 K2 K3 [A1 S1 R1] [A2 S2 R2]. split; [by eapply recounted_trans| |congruence].
    intros Hr. specialize (S1 Hr). rewrite S1 in S2. auto.
Qed.

Lemma quiet_objs K K' : objs K' = objs K → reviews K' = reviews K → quiet K K'.
Proof. intros HE HR. split; [apply recounted_same; by rewrite HE|done|done]. Qed.

Context (sha256 : list Z → list Z) (identity_admit : anx_cell → Z * anx_uuid) (fuel : nat) (current : option anx_uuid) (ok : bool).
Abbreviation advances := (advances sha256 ok).
Abbreviation snapshot := (snapshot sha256 current).
Abbreviation node_current := (node_current sha256 current).
Abbreviation capture := (capture sha256 current).
Abbreviation voter_current := (voter_current identity_admit fuel).
Abbreviation nodes_current := (nodes_current sha256 current).
Abbreviation vote_current := (vote_current sha256 identity_admit fuel current).
Abbreviation valid_loop := (valid_loop sha256 identity_admit fuel current).
Abbreviation assess := (assess sha256 identity_admit fuel current).
Abbreviation panel_loop := (panel_loop identity_admit fuel).

Lemma snapshot_quiet r oid voter K : quiet K (snapshot r oid voter K).2.
Proof.
  unfold Epistemic.snapshot. destruct (_ =? 0); [done|]. unfold anx_objstore_lookup. destruct (find_oid (objs K) oid) as [a|]; [|by apply quiet_objs].
  set (W1 := so_update a _ (objs K)). destruct (so_heap W1 !! a) as [object|] eqn:Ho.
  2: { cbn in Ho. apply lookup_alter_None in Ho. split; cbn; [apply recounted_same; cbn; by apply alter_id'| |done].
       intros _. unfold W1, so_update. destruct (objs K) as [H T M]; cbn in *. f_equal. by apply alter_id'. }
  set (rc := if _ =? ANX_OK then _ else _).
  assert (∀ K1, objs K1 = W1 → reviews K1 = reviews K → quiet K (K1 <| objs ::= anx_objstore_release a |>)) as Hq.
  { intros K1 H1 H2. split; cbn; [|intros Hr; rewrite H1; by apply refs_release|done]. rewrite H1.
    eapply recounted_trans; [|apply recounted_release]. apply recounted_update. intros o. by eexists. }
  destruct (_ && _); [|by apply Hq]. destruct (anx_effect_fence_observe_read _ _ _ _ _) as [[rc' st] F]. by apply Hq.
Qed.

Lemma node_current_quiet r node voter K : quiet K (node_current r node voter K).2.
Proof.
  unfold Epistemic.node_current. destruct (e_nodes r !! node) as [old|]; [|done].
  pose proof (snapshot_quiet r (n_oid old) voter K) as Hq. by destruct (snapshot r (n_oid old) voter K) as [[rc [now|]] K1].
Qed.

Lemma capture_quiet room r oid voter visiting K : quiet K (capture room r oid voter visiting K).2.
Proof.
  revert r oid visiting K. induction room as [|room IH]; intros r oid visiting K; cbn [Epistemic.capture]; [done|].
  destruct (anx_uuid_is_nil oid); [done|]. destruct (slot_where _ _) as [i|].
  { destruct (negb _); [done|]. pose proof (node_current_quiet r i voter K) as Hq. by destruct (node_current r i voter K) as [rc K1]. }
  destruct (_ =? ANX_EPISTEMIC_NODES); [done|]. pose proof (snapshot_quiet r oid voter K) as Hq.
  destruct (snapshot r oid voter K) as [[rc [value|]] K1]; [|done]. cbn in Hq. cbv zeta. destruct (_ && _); [done|].
  set (r1 := if bool_decide _ then _ else _). clearbody r1. set (i := length (e_nodes r)). clearbody i.
  etrans; [exact Hq|]. clear Hq. revert r1 K1. induction (n_parents value) as [|p ps IHp]; intros r1 K1; cbn [capture_parents]; [done|].
  pose proof (IH r1 p (Z.lor visiting (bit i)) K1) as Hc. destruct (capture room r1 p voter (Z.lor visiting (bit i)) K1) as [[[rc2 parent] r2] K2].
  cbn in Hc. destruct (negb _); [done|]. etrans; [exact Hc|]. apply IHp.
Qed.

Lemma voter_current_objs r voter K rc K' : voter_current r voter K = Ret (rc, K') → objs K' = objs K ∧ reviews K' = reviews K.
Proof.
  unfold Epistemic.voter_current. destruct (_ ≫= _) as [[c cell]|]; [|done]. destruct (identity_admit cell) as [rc0 idrec].
  destruct (negb _); [by intros [= _ <-]|]. destruct (anx_cell_check_scope _ _ _) as [[rc1 st]| |]; try done. cbn. by intros [= _ <-].
Qed.

Lemma voter_current_quiet r voter K rc K' : voter_current r voter K = Ret (rc, K') → quiet K K'.
Proof. intros [? ?]%voter_current_objs. by apply quiet_objs. Qed.

Lemma nodes_current_quiet r mask voter js K : quiet K (nodes_current r mask voter js K).2.
Proof.
  revert K. induction js as [|j js IH]; intros K; cbn [Epistemic.nodes_current]; [done|]. destruct (negb _); [|apply IH].
  pose proof (node_current_quiet r j voter K) as Hq. destruct (node_current r j voter K) as [rc K1]. destruct (negb _); [done|].
  etrans; [exact Hq|apply IH].
Qed.

Lemma vote_current_quiet r i K b K' : vote_current r i K = Ret (b, K') → quiet K K'.
Proof.
  unfold Epistemic.vote_current. destruct (_ || _); [by intros [= _ <-]|].
  destruct (voter_current r i K) as [[rc K1]| |] eqn:E; try done. cbn. apply voter_current_quiet in E. destruct (negb _); [by intros [= _ <-]|].
  intros [= HE]. etrans; [exact E|]. pose proof (nodes_current_quiet r (v_nodes (vote_of r i)) i (seq 0 (length (e_nodes r))) K1) as Hq. by rewrite HE in Hq.
Qed.

Lemma valid_loop_quiet r js v K v' K' : valid_loop r js v K = Ret (v', K') → quiet K K'.
Proof.
  revert v K. induction js as [|i js IH]; intros v K; cbn [Epistemic.valid_loop]; [by intros [= _ <-]|].
  destruct (vote_current r i K) as [[b K1]| |] eqn:E; try done. cbn. intros HE. etrans; [by eapply vote_current_quiet|by eapply IH].
Qed.

Lemma assess_quiet r K r' K' : assess r K = Ret (r', K') → quiet K K'.
Proof.
  unfold Epistemic.assess. destruct (valid_loop r (panel r) 0 K) as [[v K1]| |] eqn:E; try done. cbn. intros [= _ <-]. by eapply valid_loop_quiet.
Qed.

Lemma panel_loop_objs l i r K rc r' K' : panel_loop l i r K = Ret (rc, r', K') → objs K' = objs K ∧ reviews K' = reviews K.
Proof.
  revert i r K. induction l as [|c l IH]; intros i r K; cbn [Epistemic.panel_loop]; [by intros [= _ _ <-]|].
  destruct (_ >=? _). { destruct (negb _); [by intros [= _ _ <-]|apply IH]. }
  destruct (_ || _); [by intros [= _ _ <-]|]. destruct (existsb _ _); [by intros [= _ _ <-]|].
  destruct (anx_cell_store_lookup (cells K) c) as [[cell|] st]; [|by intros [= _ _ <-]].
  destruct (identity_admit cell) as [rc0 idrec]. cbv zeta. set (r1 := r <| e_reviewers ::= _ |> <| e_reviewer_identity ::= _ |>).
  destruct (negb _); [by intros [= _ _ <-]|]. destruct (voter_current r1 i (K <| cells := st |>)) as [[rc1 K1]| |] eqn:E; try done. cbn.
  apply voter_current_objs in E as [E1 E2]. destruct (negb _); [by intros [= _ _ <-]|]. intros [-> ->]%IH. done.
Qed.

(** ** The operations *)

Lemma stage_check_quiet object K rc K' : anx_epistemic_stage_check sha256 identity_admit fuel current object K = Ret (rc, K') →
  recounted (objs K) (objs K') ∧ (refs_ok (objs K) → objs K' = objs K).
Proof.
  assert (recounted (objs K) (objs K) ∧ (refs_ok (objs K) → objs K = objs K)) as Hrefl by (split; [by apply recounted_same|done]).
  unfold anx_epistemic_stage_check. destruct (so_staged object) as [stage|]; [|by intros [= _ <-]].
  destruct (_ =? 0); [by intros [= _ <-]|]. destruct (negb _); [by intros [= _ <-]|].
  destruct (find_record _ _) as [[slot r]|]; [|by intros [= _ <-]]. destruct (negb _); [by intros [= _ <-]|]. destruct (negb _); [by intros [= _ <-]|].
  destruct (_ ≫= _) as [owner|]; [|done]. destruct (identity_admit owner) as [rc0 idrec]. destruct (negb _); [by intros [= _ <-]|].
  destruct (assess r K) as [[r1 K1]| |] eqn:E; try done. cbn. intros [= _ <-]. apply assess_quiet in E as []. done.
Qed.

Lemma begin_advances handlep specp out K rc view K' :
  anx_epistemic_begin sha256 identity_admit fuel current handlep specp out K = Ret (rc, view, K') → advances (objs K) (objs K').
Proof.
  assert (advances (objs K) (objs K)) as Hrefl by by apply advances_refl.
  unfold anx_epistemic_begin. destruct (bool_decide _); [by intros [= _ _ <-]|]. destruct handlep as [[[a|] mode v]|], specp as [spec|]; try by intros [= _ _ <-].
  destruct (negb out); [by intros [= _ _ <-]|]. destruct (_ && _); [by intros [= _ _ <-]|].
  pose proof (alloc_heap (objs K)) as Hh. destruct (so_alloc (objs K)) as [okm W]. cbn in Hh. assert (advances (objs K) W) as Ha by by apply advances_refl.
  destruct (negb okm); [by intros [= _ _ <-]|]. destruct (so_heap W !! a) as [object|] eqn:Ho; [|done]. destruct (spec_bad spec); [by intros [= _ _ <-]|].
  destruct (so_staged object) as [stage|] eqn:Hs; [|by intros [= _ _ <-]]. destruct (stage_bad object stage); [by intros [= _ _ <-]|].
  destruct (anx_cell_store_lookup _ _) as [[owner|] st]; [|by intros [= _ _ <-]]. destruct (identity_admit owner) as [rc0 idrec]. cbv zeta.
  set (r0 := new_record _ _ _ _). set (K1 := K <| objs := W |> <| cells := st |>).
  destruct (if rc0 =? ANX_OK then panel_loop (sp_reviewers spec) 0 r0 K1 else Ret (rc0, r0, K1)) as [[[rc1 r1] K2]| |] eqn:E; try done. cbn [obind].
  assert (objs K2 = W) as HW by (destruct (rc0 =? ANX_OK); [by apply panel_loop_objs in E as [-> _]|by injection E as _ _ <-]).
  set (R := if rc1 =? ANX_OK then enter_record sha256 a stage r1 K2 else (rc1, None, K2)).
  assert (advances (objs K) (objs R.2)) as H2.
  { eapply advances_trans; [exact Ha|]. unfold R. destruct (rc1 =? ANX_OK); [|apply advances_refl; cbn; by rewrite HW].
    unfold enter_record. destruct (slot_where _ _) as [slot|]; [|apply advances_refl; cbn; by rewrite HW].
    destruct (_ =? MAX64); [apply advances_refl; cbn; by rewrite HW|]. cbn. rewrite HW.
    apply advances_update. rewrite Ho. intros o [= <-]. apply rtc_once. by apply CReview. }
  destruct R as [[rc2 view2] K3]. intros [= _ _ <-]. by destruct (rc2 =? ANX_OK).
Qed.

Lemma cast_vote_quiet r voter source approve K rc r' K' :
  cast_vote sha256 identity_admit fuel current r voter source approve K = Ret (rc, r', K') → quiet K K'.
Proof.
  unfold cast_vote. destruct (voter_current r voter K) as [[rc0 K1]| |] eqn:E; try done. cbn [obind]. apply voter_current_quiet in E.
  destruct (negb _); [by intros [= _ _ <-]|]. pose proof (capture_quiet (Z.to_nat ANX_EPISTEMIC_ROOTS) r source voter 0 K1) as Hc.
  destruct (capture _ _ _ _ _ _) as [[[rc1 root] r1] K2]. cbn in Hc. assert (quiet K K2) as H2 by by etrans. cbv zeta.
  destruct (negb _); [by intros [= _ _ <-]|]. destruct (e_nodes r1 !! root) as [node|]; [|done].
  pose proof (nodes_current_quiet r1 (n_nodes node) voter (seq 0 (length (e_nodes r1))) K2) as Hn.
  destruct (nodes_current _ _ _ _ _) as [fresh K3]. cbn in Hn. assert (quiet K K3) as H3 by by etrans. destruct (negb _); [by intros [= _ _ <-]|].
  set (r2 := r1 <| e_votes ::= _ |> <| e_view ::= _ |>). destruct (assess r2 K3) as [[r3 K4]| |] eqn:Ea; try done. cbn. intros [= _ _ <-].
  etrans; [exact H3|]. by eapply assess_quiet.
Qed.

Lemma vote_advances id evidence approve out K rc view K' :
  anx_epistemic_vote sha256 identity_admit fuel current id evidence approve out K = Ret (rc, view, K') → advances (objs K) (objs K').
Proof.
  assert (advances (objs K) (objs K)) as Hrefl by by apply advances_refl.
  unfold anx_epistemic_vote. destruct current as [caller|] eqn:Ecur; [|by intros [= _ _ <-]]. destruct evidence as [source|]; [|by intros [= _ _ <-]].
  destruct (_ || _); [by intros [= _ _ <-]|]. destruct (find_record _ _) as [[slot r]|]; [|by intros [= _ _ <-]].
  destruct (voter_of r caller) as [voter|]; [|by intros [= _ _ <-]]. destruct (negb _); [by intros [= _ _ <-]|]. destruct (v_cast _); [by intros [= _ _ <-]|].
  destruct (cast_vote _ _ _ _ _ _ _ _ _) as [[[rc1 r1] K1]| |] eqn:E; try done. cbn. intros [= _ _ <-].
  rewrite <- Ecur in E. apply recounted_advances. by apply cast_vote_quiet in E as [].
Qed.

Lemma get_advances id out K rc view K' :
  anx_epistemic_get sha256 identity_admit fuel current id out K = Ret (rc, view, K') → advances (objs K) (objs K').
Proof.
  assert (advances (objs K) (objs K)) as Hrefl by by apply advances_refl.
  unfold anx_epistemic_get. destruct (_ || _); [by intros [= _ _ <-]|]. destruct (negb _); [by intros [= _ _ <-]|].
  destruct (find_record _ _) as [[slot r]|]; [|by intros [= _ _ <-]]. destruct (bool_decide _); [|by intros [= _ _ <-]].
  destruct (assess r K) as [[r1 K1]| |] eqn:E; try done. cbn. intros [= _ _ <-]. apply recounted_advances. by apply assess_quiet in E as [].
Qed.

Lemma destroy_advances id K : advances (objs K) (objs (anx_epistemic_destroy current id K).2).
Proof.
  unfold anx_epistemic_destroy. destruct (bool_decide _); [by apply advances_refl|]. destruct (_ =? 0); [by apply advances_refl|].
  destruct (find_record _ _) as [[slot r]|]; [|by apply advances_refl]. destruct (bool_decide _); by apply advances_refl.
Qed.
End quiet.
