(* ===== verification/StageProofs.v ===== *)
(** * What commit, abort and batches do

    The objects a publication or a batch changes, and what it checked first. *)

From S2P Require Import Prelude Uuid Cell Sched CellStore EffectFence Meta Review StateObject Epistemic Stage ObjectProofs EpistemicProofs.

Section authority.
Context (sha256 : list Z → list Z) (ok : bool).
Context (identity_admit : anx_cell → Z * anx_uuid) (fuel : nat) (branch_group_effect_check : anx_uuid → Z).
Context (current : option anx_uuid).
Implicit Types (o : anx_state_object) (W : objstore) (K : kernel).

Abbreviation hashed := (anx_so_compute_content_hash sha256).
Abbreviation change := (change sha256 ok).
Abbreviation advances := (advances sha256 ok).
Abbreviation commit_check := (commit_check sha256 identity_admit fuel branch_group_effect_check current).
Abbreviation commit_authority := (commit_authority identity_admit branch_group_effect_check current).
Abbreviation check_all := (check_all sha256 identity_admit fuel branch_group_effect_check current).
Abbreviation stage_check := (anx_epistemic_stage_check sha256 identity_admit fuel current).

Lemma commit_authority_objs now o s K : objs (commit_authority now o s K).2 = objs K ∧ reviews (commit_authority now o s K).2 = reviews K.
Proof.
  unfold commit_authority. destruct (negb _); [done|]. destruct (_ || _); [done|].
  destruct (anx_cell_store_lookup (cells K) (staging_cell s)) as [[owner|] st]; [|done].
  destruct (if _ =? ANX_OK then let '(_, _) := _ in _ else _) as [r F]. done.
Qed.

Lemma commit_authority_access now o s K K' : commit_authority now o s K = (ANX_OK, K') →
  anx_access_evaluate (Some (so_access_policy o)) (Some (staging_cell s)) ANX_ACCESS_WRITE_PAYLOAD = ANX_OK ∧
  anx_object_stage_check_writer current o = ANX_OK.
Proof.
  unfold commit_authority. destruct (Z.eqb_spec (anx_object_stage_check_writer current o) ANX_OK) as [Hw|Hw]; cbn [negb];
    [|by intros HE; apply (f_equal fst) in HE].
  destruct (Z.eqb_spec (anx_access_evaluate (Some (so_access_policy o)) (Some (staging_cell s)) ANX_ACCESS_WRITE_PAYLOAD) ANX_OK); cbn [negb orb];
    [done|by intros HE; apply (f_equal fst) in HE].
Qed.

(** The staging cell, if one is named, exists, may have side effects, is not
    finished, and the identity, fence and branch checks let it pass. *)
Definition authorized (now : Z) K (s : anx_staged_mutation) : Prop :=
  anx_uuid_is_nil (staging_cell s) = true ∨
  ∃ owner, (anx_cell_store_lookup (cells K) (staging_cell s)).1 = Some owner ∧
    allow_side_effects (policy owner) = true ∧ anx_cell_status_terminal (status owner) = false ∧
    (identity_admit owner).1 = ANX_OK ∧ (anx_effect_fence_check now (fences K) (Some owner)).1.1.1 = ANX_OK ∧
    branch_group_effect_check (staging_cell s) = ANX_OK.

Lemma commit_authority_authorized now o s K : (commit_authority now o s K).1 = ANX_OK → authorized now K s.
Proof.
  unfold commit_authority, authorized. destruct (Z.eqb_spec (anx_object_stage_check_writer current o) ANX_OK); cbn [negb]; [|done].
  destruct (Z.eqb_spec (anx_access_evaluate (Some (so_access_policy o)) (Some (staging_cell s)) ANX_ACCESS_WRITE_PAYLOAD) ANX_OK); cbn [negb orb]; [|done].
  destruct (anx_uuid_is_nil (staging_cell s)); [by left|]. intros Hr. right. revert Hr.
  destruct (anx_cell_store_lookup (cells K) (staging_cell s)) as [[owner|] st]; [|done].
  destruct (allow_side_effects (policy owner)) eqn:E1, (anx_cell_status_terminal (status owner)) eqn:E2; cbn [negb andb Z.eqb ANX_OK ANX_EPERM]; try done.
  destruct (Z.eqb_spec (identity_admit owner).1 ANX_OK) as [E3|E3]; cbn [fst snd].
  2: by rewrite (proj2 (Z.eqb_neq _ _) E3); intros.
  destruct (anx_effect_fence_check now (fences K) (Some owner)) as [[[r b] c] F] eqn:E4. cbn [fst].
  destruct (Z.eqb_spec r ANX_OK) as [->|]; [|done]. intros E5. exists owner. split_and!; try done. by rewrite E4.
Qed.

(** What the check establishes of an object. *)
Record publishable o (s : anx_staged_mutation) : Prop := {
  pb_staged : so_staged o = Some s;
  pb_live : final_state (so_state o) = false;
  pb_version : so_version o = base_version s;
  pb_room : so_version o ≠ MAX64;
  pb_access : anx_access_evaluate (Some (so_access_policy o)) (Some (staging_cell s)) ANX_ACCESS_WRITE_PAYLOAD = ANX_OK;
  pb_writer : anx_object_stage_check_writer current o = ANX_OK;
}.

Lemma publishable_recounted o s n : publishable o s → publishable (o <| so_refcount := n |>) s.
Proof. by intros []. Qed.

(** The checks before publication change no object, and what success means. *)
Lemma commit_check_spec now a K r K' : commit_check now a K = Ret (r, K') →
  recounted (objs K) (objs K') ∧ (refs_ok (objs K) → objs K' = objs K) ∧
  (r = ANX_OK → ∃ o s K1, so_heap (objs K) !! a = Some o ∧ publishable o s ∧ authorized now K s ∧
     objs K1 = objs K ∧ reviews K1 = reviews K ∧ stage_check o K1 = Ret (ANX_OK, K')).
Proof.
  unfold Stage.commit_check. destruct (so_heap (objs K) !! a) as [o|] eqn:Ho; [|done].
  destruct (so_staged o) as [s|] eqn:Hs; [|intros [= <- <-]; by split; [apply recounted_same|]].
  pose proof (commit_authority_objs now o s K) as [Hobjs Hrev]. pose proof (commit_authority_access now o s K) as Hacc.
  pose proof (commit_authority_authorized now o s K) as Hauth.
  destruct (commit_authority now o s K) as [rc K1]. cbn [fst snd] in *. cbv zeta.
  set (rc' := if _ && (so_version o =? MAX64) then _ else _). destruct (Z.eqb_spec rc' ANX_OK) as [E|E].
  - intros HE. destruct (stage_check_quiet _ _ _ _ _ _ _ _ HE) as [Hq1 Hq2]. rewrite Hobjs in Hq1, Hq2. split_and!; [done|done|]. intros ->.
    revert E. unfold rc'. clear rc'. destruct (Z.eqb_spec rc ANX_OK) as [->|Hr]; cbn [andb].
    2: { rewrite !(proj2 (Z.eqb_neq rc ANX_OK)) by done. cbn [andb]. rewrite !(proj2 (Z.eqb_neq rc ANX_OK)) by done. done. }
    destruct (Hacc K1 eq_refl) as [Ha Hwr]. destruct (final_state (so_state o)) eqn:Ef; [done|]. cbn [Z.eqb ANX_OK andb].
    destruct (Z.eqb_spec (so_version o) (base_version s)) as [Hv|]; cbn [negb andb Z.eqb]; [|done].
    destruct (Z.eqb_spec (so_version o) MAX64) as [|Hmax]; [done|]. intros _. exists o, s, K1. split_and!; try done. by apply Hauth.
  - intros [= <- <-]. rewrite Hobjs. by split_and!; [apply recounted_same| |].
Qed.

(** The object after publication: its payload is the shadow, its version the next one. *)
Definition published o (s : anx_staged_mutation) (l : anx_prov_log) : anx_state_object :=
  hashed (o <| so_payload := shadow_payload s |> <| so_payload_size := shadow_size s |> <| so_version ::= λ v, u64 (v + 1) |>)
    <| so_staged := None |> <| so_provenance := l |>.

Definition discarded o (l : anx_prov_log) : anx_state_object := o <| so_staged := None |> <| so_provenance := l |>.

Lemma commit_publish_spec now K a o s : so_heap (objs K) !! a = Some o → so_staged o = Some s →
  ∃ l, so_heap (objs (commit_publish sha256 now a K)) = <[a := published o s l]> (so_heap (objs K)) ∧ log_step (so_provenance o) l ∧
    oid_table (objs (commit_publish sha256 now a K)) = oid_table (objs K).
Proof.
  intros Ho Hs. unfold commit_publish. rewrite Ho, Hs. set (W := objs K) in *. set (W1 := so_update a _ W).
  set (o1 := hashed (o <| so_payload := shadow_payload s |> <| so_payload_size := shadow_size s |> <| so_version ::= λ v, u64 (v + 1) |>)).
  assert (so_heap W1 = <[a := o1]> (so_heap W)) as H1
    by exact (alter_Some (λ o, hashed (o <| so_payload := shadow_payload s |> <| so_payload_size := shadow_size s |> <| so_version ::= λ v, u64 (v + 1) |>)) _ _ _ Ho).
  destruct (so_log_spec W1 a (prov_event now ANX_PROV_MUTATED (staging_cell s)) o1) as (l & H2 & Hl & T2); [rewrite H1; apply lookup_insert_eq|].
  exists l. split_and!; [|done|exact T2].
  cbn [objs]. change (objs (?k <| objs := ?w |> <| reviews := ?e |>)) with w. unfold so_update at 1. cbn [so_heap]. change (so_heap (?W <| so_heap ::= ?f |>)) with (f (so_heap W)).
  rewrite (alter_Some _ _ _ (o1 <| so_provenance := l |>)) by (rewrite H2; apply lookup_insert_eq).
  rewrite H2, H1, !insert_insert_eq. done.
Qed.

Lemma abort_discard_spec now K a o s : so_heap (objs K) !! a = Some o → so_staged o = Some s →
  ∃ l, so_heap (objs (abort_discard now a K)) = <[a := discarded o l]> (so_heap (objs K)) ∧ log_step (so_provenance o) l ∧
    oid_table (objs (abort_discard now a K)) = oid_table (objs K).
Proof.
  intros Ho Hs. unfold abort_discard. rewrite Ho, Hs. set (W := objs K) in *.
  destruct (so_log_spec W a (prov_event now ANX_PROV_STAGE_ABORTED (staging_cell s)) o Ho) as (l & H2 & Hl & T2).
  exists l. split_and!; [|done|exact T2].
  cbn [objs]. change (objs (?k <| objs := ?w |> <| reviews := ?e |>)) with w. unfold so_update at 1. cbn [so_heap]. change (so_heap (?W <| so_heap ::= ?f |>)) with (f (so_heap W)).
  rewrite (alter_Some _ _ _ (o <| so_provenance := l |>)) by (rewrite H2; apply lookup_insert_eq).
  rewrite H2, !insert_insert_eq. by destruct o.
Qed.

Lemma published_change o s l : publishable o s → log_step (so_provenance o) l → rtc change o (published o s l).
Proof.
  intros [] Hl. eapply rtc_l; [by apply (CCommit _ _ o s)|]. apply rtc_once. by apply (book_log sha256 ok (_ <| so_staged := None |>) l).
Qed.

Lemma discarded_change o s l : so_staged o = Some s → log_step (so_provenance o) l → rtc change o (discarded o l).
Proof.
  intros Hs Hl. eapply rtc_l; [by apply (CAbort _ _ o s)|]. apply rtc_once. by apply (book_log sha256 ok (o <| so_staged := None |>) l).
Qed.

Lemma commit_advances now handlep K r K' :
  anx_object_commit sha256 identity_admit fuel branch_group_effect_check current now handlep K = Ret (r, K') → advances (objs K) (objs K').
Proof.
  unfold anx_object_commit. destruct (negb _); [by intros [= _ <-]; apply advances_refl|].
  destruct (handlep ≫= h_obj) as [a|]; [|by intros [= _ <-]; apply advances_refl].
  destruct (commit_check now a K) as [[r1 K1]| |] eqn:E; try done. cbn [obind]. apply commit_check_spec in E as (Hq & _ & Hok).
  intros [= <- <-]. apply (recounted_advances sha256 ok) in Hq as Hadv. destruct (Z.eqb_spec r1 ANX_OK) as [->|]; [|done].
  destruct (Hok eq_refl) as (o & s & _ & Ho & Hp & _). specialize (Hq a). rewrite Ho in Hq. destruct Hq as (n & Hq).
  eapply advances_trans; [exact Hadv|].
  destruct (commit_publish_spec now K1 a _ s Hq (pb_staged _ _ Hp)) as (l & HE & Hl & _).
  eapply advances_insert; [done|done|]. apply published_change; [by apply publishable_recounted|done].
Qed.

Lemma abort_check_spec a K : abort_check current a K = Ret ANX_OK →
  ∃ o s, so_heap (objs K) !! a = Some o ∧ so_staged o = Some s ∧ anx_object_stage_check_writer current o = ANX_OK.
Proof.
  unfold abort_check. destruct (so_heap (objs K) !! a) as [o|]; [|done]. destruct (so_staged o) as [s|] eqn:Hs; [|done].
  intros [= HE]. eauto.
Qed.

Lemma abort_advances now handlep K r K' : anx_object_abort current now handlep K = Ret (r, K') → advances (objs K) (objs K').
Proof.
  unfold anx_object_abort. destruct (negb _); [by intros [= _ <-]; apply advances_refl|].
  destruct (handlep ≫= h_obj) as [a|]; [|by intros [= _ <-]; apply advances_refl].
  destruct (abort_check current a K) as [r1| |] eqn:E; try done. cbn [obind]. intros [= <- <-].
  destruct (Z.eqb_spec r1 ANX_OK) as [->|]; [|by apply advances_refl].
  destruct (abort_check_spec a K E) as (o & s & Ho & Hs & _). destruct (abort_discard_spec now K a o s Ho Hs) as (l & HE & Hl & _).
  eapply advances_insert; [done|done|by eapply discarded_change].
Qed.

(** ** Batches *)

Lemma collect_spec W hs acc l : collect W hs acc = (ANX_OK, l) → NoDup acc →
  ∃ l', l = acc ++ l' ∧ Forall2 (λ h a, h ≫= h_obj = Some a) hs l' ∧ NoDup l.
Proof.
  revert acc. induction hs as [|h hs IH]; intros acc; cbn [collect].
  { intros [= <-] Hnd. exists []. rewrite app_nil_r. by split_and!; [|constructor|]. }
  destruct (Z.eqb_spec (writable_handle h) ANX_OK) as [_|Hr]; cbn [negb]; [|by intros HE; apply (f_equal fst) in HE].
  destruct (h ≫= h_obj) as [a|] eqn:Ha; [|discriminate]. destruct (existsb _ acc) eqn:Ex; [discriminate|]. intros HE Hnd.
  assert (a ∉ acc) as Hni.
  { intros Hin. rewrite <- not_true_iff_false in Ex. apply Ex, existsb_exists. exists a. rewrite Z.eqb_refl. split; [by apply list_elem_of_In|done]. }
  destruct (IH (acc ++ [a]) HE) as (l' & -> & Hf & Hnd'); [|exists (a :: l'); rewrite <- app_assoc in *; split_and!; [done|by constructor|done]].
  apply NoDup_app. split_and!; [done| |apply NoDup_singleton]. intros x Hx ->%list_elem_of_singleton. done.
Qed.

Lemma insert_perm W a l : insert_by_oid W a l ≡ₚ a :: l.
Proof. induction l as [|b l IH]; cbn [insert_by_oid]; [done|]. destruct (_ >? 0); [done|]. rewrite IH. apply perm_swap. Qed.

Lemma sort_perm W l : sort_objects W l ≡ₚ l.
Proof.
  unfold sort_objects. assert (∀ acc, foldl (λ l a, insert_by_oid W a l) acc l ≡ₚ acc ++ l) as Hg; [|apply Hg].
  induction l as [|a l IH]; intros acc; cbn [foldl]; [by rewrite app_nil_r|]. rewrite IH, insert_perm. apply Permutation_middle.
Qed.

Lemma one_owner_spec W first l : one_owner W first l = ANX_OK →
  ∀ a, a ∈ l → ∃ s, stage_of W a = Some s ∧ anx_uuid_is_nil (staging_cell s) = false ∧
    staging_cell s = default ANX_UUID_NIL (staging_cell <$> stage_of W first).
Proof.
  induction l as [|b l IH]; cbn [one_owner]; intros HE a Ha; [by apply not_elem_of_nil in Ha|].
  destruct (stage_of W b) as [s|] eqn:Es; [|discriminate]. destruct (_ || _) eqn:E; [discriminate|].
  apply orb_false_iff in E as [E1 E2]. apply negb_false_iff in E2. apply elem_of_cons in Ha as [->|Ha]; [|by apply IH].
  exists s. split_and!; [done|done|]. symmetry. by apply anx_uuid_compare_eq, Z.eqb_eq.
Qed.

(** The checks of a batch. *)
Lemma check_all_spec now commit l K r K' : check_all now commit l K = Ret (r, K') →
  recounted (objs K) (objs K') ∧ (refs_ok (objs K) → objs K' = objs K) ∧
  (r = ANX_OK → ∀ a, a ∈ l → ∃ o s, so_heap (objs K) !! a = Some o ∧ so_staged o = Some s ∧ (commit = true → publishable o s)).
Proof.
  revert K. induction l as [|a l IH]; intros K; cbn [Stage.check_all].
  { intros [= <- <-]. split_and!; [by apply recounted_same|done|]. intros _ a Ha. by apply not_elem_of_nil in Ha. }
  assert (∀ r K1, (if commit then commit_check now a K else let! r := abort_check current a K in Ret (r, K)) = Ret (r, K1) →
    recounted (objs K) (objs K1) ∧ (refs_ok (objs K) → objs K1 = objs K) ∧
    (r = ANX_OK → ∃ o s, so_heap (objs K) !! a = Some o ∧ so_staged o = Some s ∧ (commit = true → publishable o s))) as Hone.
  { intros r1 K1. destruct commit.
    - intros (? & ? & Hok)%commit_check_spec. split_and!; [done|done|]. intros Hr. destruct (Hok Hr) as (o & s & _ & ? & Hp & _). exists o, s. by destruct Hp.
    - destruct (abort_check current a K) as [r2| |] eqn:E; try done. cbn. intros [= <- <-]. split_and!; [by apply recounted_same|done|]. intros ->.
      destruct (abort_check_spec a K E) as (o & s & ? & ? & ?). by exists o, s. }
  destruct (if commit then _ else _) as [[r1 K1]| |]; try done. cbn [obind]. destruct (Hone r1 K1 eq_refl) as (H1 & H2 & Hok). clear Hone.
  destruct (Z.eqb_spec r1 ANX_OK) as [->|Hr]; cbn [negb]; [|by intros [= <- <-]]. intros HE. destruct (IH K1 HE) as (H3 & H4 & H5).
  split_and!; [by eapply recounted_trans| |].
  - intros Hrefs. rewrite <- (H2 Hrefs). apply H4. by rewrite (H2 Hrefs).
  - intros Hr b Hb. apply elem_of_cons in Hb as [->|Hb]; [by apply Hok|]. destruct (H5 Hr b Hb) as (o & s & Ho & Hs & Hp).
    specialize (H1 b). destruct (so_heap (objs K) !! b) as [x|] eqn:Hx; [|by rewrite H1 in Ho]. destruct H1 as (n & H1). rewrite Ho in H1.
    injection H1 as ->. exists x, s. split_and!; [done|done|]. intros Hc. destruct (Hp Hc). by constructor.
Qed.

(** Publishing (or discarding) a list of distinct stages. *)
Lemma fold_resolve_spec now (commit : bool) l K : NoDup l →
  (∀ a, a ∈ l → ∃ o s, so_heap (objs K) !! a = Some o ∧ so_staged o = Some s) →
  let K' := foldl (resolve_one sha256 now commit) K l in
  (∀ a, a ∉ l → so_heap (objs K') !! a = so_heap (objs K) !! a) ∧
  (∀ a, a ∈ l → ∃ o s lg, so_heap (objs K) !! a = Some o ∧ so_staged o = Some s ∧ log_step (so_provenance o) lg ∧
     so_heap (objs K') !! a = Some (if commit then published o s lg else discarded o lg)).
Proof.
  intros Hnd. revert K. induction Hnd as [|a l Hni Hnd IH]; intros K Hl; cbn [foldl]; [split; [done|]; intros a Ha; by apply not_elem_of_nil in Ha|].
  destruct (Hl a ltac:(left)) as (o & s & Ho & Hs).
  assert (∃ lg K1, resolve_one sha256 now commit K a = K1 ∧ log_step (so_provenance o) lg ∧
    so_heap (objs K1) = <[a := if commit then published o s lg else discarded o lg]> (so_heap (objs K))) as (lg & K1 & -> & Hlg & H1).
  { unfold resolve_one. destruct commit; [destruct (commit_publish_spec now K a o s Ho Hs) as (lg & ? & ? & ?)|destruct (abort_discard_spec now K a o s Ho Hs) as (lg & ? & ? & ?)];
      exists lg; eexists; by split_and!. }
  destruct (IH K1) as (H2 & H3).
  { intros b Hb. rewrite H1, lookup_insert_ne by (intros ->; done). apply Hl. by right. }
  split.
  - intros b [Hne Hb]%not_elem_of_cons. rewrite H2 by done. by rewrite H1, lookup_insert_ne.
  - intros b [->|Hb]%elem_of_cons.
    + exists o, s, lg. rewrite H2 by done. rewrite H1, lookup_insert_eq. done.
    + destruct (H3 b Hb) as (o' & s' & lg' & Ho' & Hrest). exists o', s', lg'. rewrite H1, lookup_insert_ne in Ho' by (intros ->; done). done.
Qed.

(** What a batch that succeeded did to the object at [a]. *)
Definition resolved (commit : bool) (owner : anx_uuid) W W' (a : Z) : Prop :=
  ∃ o s lg, so_heap W !! a = Some o ∧ so_staged o = Some s ∧ staging_cell s = owner ∧ (commit = true → publishable o s) ∧
    log_step (so_provenance o) lg ∧ so_heap W' !! a = Some (if commit then published o s lg else discarded o lg).

(** All or nothing, on the objects [W] the checks left behind. *)
Lemma resolve_batch_spec now handles commit K r K' :
  resolve_batch sha256 identity_admit fuel branch_group_effect_check current now handles commit K = Ret (r, K') →
  ∃ W, recounted (objs K) W ∧ (refs_ok (objs K) → W = objs K) ∧
  ((r ≠ ANX_OK ∧ objs K' = W) ∨
   (r = ANX_OK ∧ ∃ hs l owner, handles = Some hs ∧ Forall2 (λ h a, h ≫= h_obj = Some a) hs l ∧ NoDup l ∧
      anx_uuid_is_nil owner = false ∧ (∀ a, a ∈ l → resolved commit owner W (objs K') a) ∧
      (∀ a, a ∉ l → so_heap (objs K') !! a = so_heap W !! a))).
Proof.
  assert (∀ rc, rc ≠ ANX_OK → Ret (rc, K) = Ret (r, K') → ∃ W, recounted (objs K) W ∧ (refs_ok (objs K) → W = objs K) ∧
    ((r ≠ ANX_OK ∧ objs K' = W) ∨ (r = ANX_OK ∧ ∃ hs l owner, handles = Some hs ∧ Forall2 (λ h a, h ≫= h_obj = Some a) hs l ∧ NoDup l ∧
      anx_uuid_is_nil owner = false ∧ (∀ a, a ∈ l → resolved commit owner W (objs K') a) ∧ (∀ a, a ∉ l → so_heap (objs K') !! a = so_heap W !! a)))) as Hfail.
  { intros rc Hrc [= <- <-]. exists (objs K). split_and!; [by apply recounted_same|done|by left]. }
  unfold resolve_batch. destruct handles as [hs|]; [|by apply Hfail].
  destruct (_ || _) eqn:Ecnt; [by apply Hfail|].
  destruct (collect (objs K) hs []) as [r1 l1] eqn:Ec. destruct (Z.eqb_spec r1 ANX_OK) as [->|Hr1]; cbn [negb]; [|by apply Hfail].
  destruct (collect_spec _ _ _ _ Ec (NoDup_nil_2)) as (l0 & -> & Hf & Hnd). cbn [app] in *.
  pose proof (sort_perm (objs K) l0) as Hp. set (l := sort_objects (objs K) l0) in *. set (first := default 0 (l !! 0%nat)).
  destruct (Z.eqb_spec (one_owner (objs K) first l) ANX_OK) as [Ho|Ho]; cbn [negb]; [|by apply Hfail]. clear Hfail.
  destruct (check_all now commit l K) as [[r2 K2]| |] eqn:Eall; try done. cbn [obind]. destruct (check_all_spec _ _ _ _ _ _ Eall) as (Hq & Hs & Hok).
  intros [= <- <-]. exists (objs K2). split; [done|]. split; [done|]. destruct (Z.eqb_spec r2 ANX_OK) as [->|Hr2]; [right|by left].
  split; [done|]. specialize (Hok eq_refl). pose proof (one_owner_spec _ _ _ Ho) as Hown. assert (NoDup l) as Hndl by by rewrite Hp.
  assert (∀ a, a ∈ l → ∃ o s, so_heap (objs K2) !! a = Some o ∧ so_staged o = Some s ∧ (commit = true → publishable o s) ∧
    staging_cell s = default ANX_UUID_NIL (staging_cell <$> stage_of (objs K) first) ∧ anx_uuid_is_nil (staging_cell s) = false) as Hall.
  { intros a Ha. destruct (Hok a Ha) as (o & s & Hx & Hso & Hpub). destruct (Hown a Ha) as (s' & Hs' & Hnil & Hc).
    unfold stage_of in Hs'. rewrite Hx in Hs'. cbn in Hs'. assert (s' = s) as -> by congruence. specialize (Hq a). rewrite Hx in Hq. destruct Hq as (n & Hq).
    exists (o <| so_refcount := n |>), s. split_and!; [done|done| |done|done]. intros Hcm. by apply publishable_recounted, Hpub. }
  destruct (fold_resolve_spec now commit l K2 Hndl) as (H1 & H2).
  { intros a Ha. destruct (Hall a Ha) as (o & s & ? & ? & _). eauto. }
  assert (∃ a, a ∈ l) as [a0 Ha0].
  { destruct l as [|a l']; [|exists a; by left]. apply Permutation_nil in Hp. subst. inversion Hf; subst. discriminate. }
  exists hs, l0, (default ANX_UUID_NIL (staging_cell <$> stage_of (objs K) first)). split_and!; [done|done|done| | |].
  - destruct (Hall a0 Ha0) as (_ & s & _ & _ & _ & <- & Hnil). done.
  - intros a Ha. rewrite <- Hp in Ha. destruct (H2 a Ha) as (o & s & lg & Hx & Hso & Hlg & HE). exists o, s, lg.
    destruct (Hall a Ha) as (o' & s' & Hx' & Hs' & Hpub & Hc & _). simplify_eq. by split_and!.
  - intros a Ha. apply H1. by rewrite Hp.
Qed.

Lemma batch_advances now handles commit K r K' :
  resolve_batch sha256 identity_admit fuel branch_group_effect_check current now handles commit K = Ret (r, K') → advances (objs K) (objs K').
Proof.
  intros (W & Hq & _ & HE)%resolve_batch_spec. eapply advances_trans; [by apply recounted_advances|].
  destruct HE as [[_ ->]|(_ & hs & l & owner & _ & _ & _ & _ & Hin & Hout)]; [by apply advances_refl|].
  intros a. destruct (decide (a ∈ l)) as [Ha|Ha].
  - destruct (Hin a Ha) as (o & s & lg & Ho & Hs & _ & Hpub & Hlg & HE). rewrite Ho. eexists. split; [exact HE|].
    destruct commit; [apply published_change; auto|by eapply discarded_change].
  - rewrite Hout by done. destruct (so_heap W !! a) as [o|]; [by exists o|done].
Qed.
End authority.
