(* ===== verification/Objects.v ===== *)
(** * Theorems about state objects

    Runs of the kernel over the object store: what sealing, staging, labels and
    access rules guarantee, whoever calls and in whatever order. *)

From S2P Require Import Prelude Uuid Cell Sched CellStore EffectFence Meta Review StateObject Epistemic Stage ObjectProofs EpistemicProofs StageProofs.

Section runs.
Context (sha256 : list Z → list Z) (ok : bool).
Context (uor_attach : anx_state_object → list bool → anx_meta_store * list bool).
Context (junk : Z → Z).
Implicit Types (o : anx_state_object) (K : kernel).

Abbreviation hashed := (anx_so_compute_content_hash sha256).
Abbreviation change := (change sha256 ok).
Abbreviation advances := (advances sha256 ok).

(** One call of the object interface, by any cell and with any arguments (with
    buffers as long as announced, if [ok]), or anything else the kernel does to
    its cells and fences. *)
Inductive kstep : kernel → kernel → Prop :=
  | KCreate now1 now2 fresh addr params out K : so_heap (objs K) !! addr = None →
      (ok = true → ∀ p l, params = Some p → p_payload p = Some l → p_payload_size p ≤ Z.of_nat (length l)) →
      kstep K (K <| objs := (anx_so_create sha256 uor_attach now1 now2 fresh addr params out (objs K)).2 |>)
  | KOpen current oidp mode h K : kstep K (K <| objs := (anx_so_open current oidp mode h (objs K)).2 |>)
  | KClose h K : kstep K (K <| objs := (anx_so_close h (objs K)).2 |>)
  | KSeal now oid K : kstep K (K <| objs := (anx_so_seal uor_attach now oid (objs K)).2 |>)
  | KDelete oid force K : kstep K (K <| objs := (anx_so_delete oid force (objs K)).2 |>)
  | KRead current h offset buf len K r d K' : anx_so_read_payload current h offset buf len K = Ret (r, d, K') → kstep K K'
  | KWrite current now h offset data len K r W' : (ok = true → write_ok offset data len) →
      anx_so_write_payload sha256 junk current now h offset data len (objs K) = Ret (r, W') → kstep K (K <| objs := W' |>)
  | KReplace current now h data len K r W' : (ok = true → replace_ok data len) →
      anx_so_replace_payload sha256 current now h data len (objs K) = Ret (r, W') → kstep K (K <| objs := W' |>)
  | KStage current h cell K r W' : anx_object_stage current h cell (objs K) = Ret (r, W') → kstep K (K <| objs := W' |>)
  | KCommit identity fuel branch current now h K r K' :
      anx_object_commit sha256 identity fuel branch current now h K = Ret (r, K') → kstep K K'
  | KAbort current now h K r K' : anx_object_abort current now h K = Ret (r, K') → kstep K K'
  | KBatch identity fuel branch current now hs commit K r K' :
      resolve_batch sha256 identity fuel branch current now hs commit K = Ret (r, K') → kstep K K'
  | KReview identity fuel current h spec out K r v K' : (∀ sp, spec = Some sp → 0 ≤ sp_count sp ∧ 0 ≤ sp_threshold sp ∧ 0 ≤ sp_minimum_cut sp) →
      anx_epistemic_begin sha256 identity fuel current h spec out K = Ret (r, v, K') → kstep K K'
  | KVote identity fuel current id evidence approve out K r v K' :
      anx_epistemic_vote sha256 identity fuel current id evidence approve out K = Ret (r, v, K') → kstep K K'
  | KAssess identity fuel current id out K r v K' :
      anx_epistemic_get sha256 identity fuel current id out K = Ret (r, v, K') → kstep K K'
  | KForget current id K : kstep K (anx_epistemic_destroy current id K).2
  | KLabel oidp level K : kstep K (K <| objs := (anx_object_set_sensitivity oidp level (objs K)).2 |>)
  | KOther K st F : kstep K (Kernel (objs K) st F (reviews K)).

(** An object as [anx_so_create] leaves it. *)
Definition newborn o : Prop :=
  ∃ p fresh sens origin sm um m l, log_step (ProvLog [] PROV_INITIAL_CAP) l ∧
    (ok = true → ∀ x, p_payload p = Some x → p_payload_size p ≤ Z.of_nat (length x)) ∧
    o = new_object sha256 p fresh sens origin sm um (ProvLog [] PROV_INITIAL_CAP)
          <| so_state := ANX_OBJ_ACTIVE |> <| so_system_meta := m |> <| so_provenance := l |>.

Lemma read_objs current h offset buf len K r d K' :
  anx_so_read_payload current h offset buf len K = Ret (r, d, K') → objs K' = objs K.
Proof.
  unfold anx_so_read_payload. destruct h as [[[a|] mode v]|]; try by intros [= _ _ <-].
  destruct (negb buf); [by intros [= _ _ <-]|]. destruct (negb _ && negb _); [by intros [= _ _ <-]|].
  destruct (so_heap (objs K) !! a) as [o|]; [|done]. destruct (_ || _); [by intros [= _ _ <-]|].
  destruct (_ >? 0x7fffffff); [by intros [= _ _ <-]|].
  destruct (anx_effect_fence_observe_read _ _ _ _ _) as [[e st] F]. destruct (negb _); [by intros [= _ _ <-]|].
  destruct (so_payload o) as [l|]; [|done]. destruct (_ >? Z.of_nat _); [done|]. by intros [= _ _ <-].
Qed.

(** Every object of the new state was there before, or is new. *)
Lemma kstep_objects K K' : kstep K K' →
  ∀ a, match so_heap (objs K) !! a with
       | Some o => ∃ o', so_heap (objs K') !! a = Some o' ∧ rtc change o o'
       | None => ∀ o', so_heap (objs K') !! a = Some o' → newborn o'
       end.
Proof.
  intros Hs a. assert (advances (objs K) (objs K') →
    match so_heap (objs K) !! a with Some o => ∃ o', so_heap (objs K') !! a = Some o' ∧ rtc change o o'
    | None => ∀ o', so_heap (objs K') !! a = Some o' → newborn o' end) as Hadv.
  { intros Hx. specialize (Hx a). destruct (so_heap (objs K) !! a); [done|]. rewrite Hx. done. }
  destruct Hs; [|apply Hadv; cbn..].
  - destruct (create_spec sha256 ok uor_attach now1 now2 fresh addr params out (objs K) H)
      as [Hx|(W1 & p & sens & origin & sm & um & m & l & Hx & Hl & HE & ->)]; [by apply Hadv|]. cbn. cbn in HE. rewrite HE. specialize (Hx a).
    destruct (decide (addr = a)) as [->|Hne].
    + rewrite H. rewrite lookup_insert_eq. intros o' [= <-]. exists p, fresh, sens, origin, sm, um, m, l. split_and!; [done| |done]. intros Hok x. by apply H0.
    + rewrite lookup_insert_ne by done. destruct (so_heap (objs K) !! a); [done|]. by rewrite Hx.
  - apply open_advances.
  - apply close_advances.
  - apply seal_advances.
  - apply delete_advances.
  - apply advances_refl. by rewrite (read_objs _ _ _ _ _ _ _ _ _ H).
  - by eapply write_advances.
  - by eapply replace_advances.
  - by eapply stage_advances.
  - by eapply commit_advances.
  - by eapply abort_advances.
  - by eapply batch_advances.
  - by eapply begin_advances.
  - by eapply vote_advances.
  - by eapply get_advances.
  - apply destroy_advances.
  - apply relabel_advances.
  - by apply advances_refl.
Qed.

Lemma ksteps_objects K K' a o : rtc kstep K K' → so_heap (objs K) !! a = Some o →
  ∃ o', so_heap (objs K') !! a = Some o' ∧ rtc change o o'.
Proof.
  intros Hr. revert o. induction Hr as [K|K1 K2 K3 Hs _ IH]; intros o Ho; [by exists o|].
  pose proof (kstep_objects _ _ Hs a) as Ha. rewrite Ho in Ha. destruct Ha as (o1 & Ho1 & C1).
  destruct (IH o1 Ho1) as (o2 & Ho2 & C2). exists o2. split; [done|]. by etrans.
Qed.

(** ** Invariants of an object *)

Record object_inv o : Prop := {
  oi_state : ANX_OBJ_ACTIVE ≤ so_state o ≤ ANX_OBJ_TOMBSTONE;
  oi_final : final_state (so_state o) = true → so_staged o = None;
  oi_hash : so_content_hash o = so_content_hash (hashed o);
  oi_base : ∀ s, so_staged o = Some s → base_version s = so_version o;
  oi_events : ∀ i e, prov_events (so_provenance o) !! i = Some e → event_id e = Z.of_nat i;
  oi_size : ok = true → size_ok o;
}.

Lemma transition_edges st st' : anx_lifecycle_transition st st' = (ANX_OK, st') →
  (st, st') ∈ [(0, 1); (1, 2); (1, 4); (2, 3); (2, 4); (3, 4); (4, 5)].
Proof.
  unfold anx_lifecycle_transition, ANX_OBJ_TOMBSTONE. destruct ((st <? 0) || (st >=? 5 + 1)) eqn:E1; [discriminate|].
  destruct ((st' <? 0) || (st' >=? 5 + 1)) eqn:E2; [discriminate|].
  assert (st ∈ seqZ 0 6) as Hs by (apply elem_of_seqZ; lia). assert (st' ∈ seqZ 0 6) as Hs' by (apply elem_of_seqZ; lia). clear E1 E2.
  revert Hs Hs'. change (seqZ 0 6) with [0; 1; 2; 3; 4; 5]. rewrite !elem_of_cons, !elem_of_nil.
  intros Hs Hs'. repeat destruct Hs as [->|Hs]; try done; repeat destruct Hs' as [->|Hs']; try done; cbn; try discriminate; intros _;
    auto 10.
Qed.

Lemma transition_up st st' : anx_lifecycle_transition st st' = (ANX_OK, st') → st < st' ∧ 1 ≤ st' ≤ 5 ∧ (final_state st = true → final_state st' = true ∨ st' = 3).
Proof.
  intros Hx%transition_edges. rewrite !elem_of_cons, elem_of_nil in Hx.
  repeat destruct Hx as [[= -> ->]|Hx]; try done; (split; [lia|split; [lia|]]); vm_compute; auto.
Qed.

Lemma log_step_prefix l l' : log_step l l' → prov_events l `prefix_of` prov_events l'.
Proof. intros [->|(e & cap & ->)]; [done|]. cbn. by apply prefix_app_r. Qed.

Lemma log_step_ids l l' : log_step l l' → (∀ i e, prov_events l !! i = Some e → event_id e = Z.of_nat i) →
  ∀ i e, prov_events l' !! i = Some e → event_id e = Z.of_nat i.
Proof.
  intros [->|(x & cap & ->)] Hl i e He; [by apply Hl|]. cbn in He. apply lookup_app_Some in He as [He|[Hi He]]; [by apply Hl|].
  destruct (i - length (prov_events l))%nat as [|k] eqn:Ek; [|done]. injection He as <-. cbn. unfold anx_prov_log_count. lia.
Qed.

(** Identity, creator and parents never change, the state moves forward, the log grows. *)
Record same_object o o' : Prop := {
  sm_oid : so_oid o' = so_oid o;
  sm_type : so_object_type o' = so_object_type o;
  sm_creator : so_creator_cell o' = so_creator_cell o;
  sm_parents : so_parent_oids o' = so_parent_oids o;
  sm_policy : so_access_policy o' = so_access_policy o;
  sm_state : so_state o ≤ so_state o';
  sm_log : prov_events (so_provenance o) `prefix_of` prov_events (so_provenance o');
}.

Lemma change_same o o' : change o o' → same_object o o'.
Proof.
  intros []; constructor; cbn; try done; try lia.
  - by apply log_step_prefix.
  - pose proof (transition_up _ _ H0). lia.
Qed.

Lemma same_trans o1 o2 o3 : same_object o1 o2 → same_object o2 o3 → same_object o1 o3.
Proof. intros [] []. constructor; try congruence; [lia|]. by etrans. Qed.

Lemma changes_same o o' : rtc change o o' → same_object o o'.
Proof. induction 1 as [o|o1 o2 o3 Hc _ IH]; [by constructor|]. eapply same_trans; [by apply change_same|done]. Qed.

Lemma newborn_inv o : newborn o → object_inv o.
Proof.
  intros (p & fresh & sens & origin & sm & um & m & l & Hl & Hp & ->). constructor; cbn; try done.
  - eapply log_step_ids; [done|]. done.
  - intros Hok. split; [|done]. cbn. unfold has_payload. specialize (Hp Hok). destruct (p_payload p) as [x|]; cbn; [|done].
    specialize (Hp x eq_refl). destruct (Z.gtb_spec (p_payload_size p) 0); cbn; [rewrite length_take|]; lia.
Qed.

Lemma change_inv o o' : change o o' → object_inv o → object_inv o'.
Proof.
  intros [] [Hst Hfin Hhash Hbase Hev Hsz]; constructor; cbn; try done; try (intros s' [= <-]; cbn; auto).
  - by eapply log_step_ids.
  - pose proof (transition_up _ _ H0). unfold ANX_OBJ_ACTIVE, ANX_OBJ_TOMBSTONE. lia.
  - intros s. by rewrite H.
  - intros Hok. split; cbn; [by apply H1; auto|]. intros s. by rewrite H.
  - intros Hf. specialize (Hfin Hf). congruence.
  - intros Hok. destruct (Hsz Hok) as [? ?]. split; cbn; [done|]. intros x [= <-]. cbn. by apply H1; auto.
  - intros Hf. congruence.
  - intros Hok. destruct (Hsz Hok) as [? ?]. split; cbn; [done|]. intros x [= <-]. cbn. by apply H1.
  - intros Hok. destruct (Hsz Hok) as [? Hsh]. split; cbn; [by apply Hsh|done].
  - intros Hok. destruct (Hsz Hok) as [? Hsh]. split; cbn; [done|done].
  - intros Hf. specialize (Hfin Hf). congruence.
  - intros Hok. destruct (Hsz Hok) as [? Hsh]. split; cbn; [done|]. intros x [= <-]. cbn. by apply Hsh.
Qed.

Lemma changes_inv o o' : rtc change o o' → object_inv o → object_inv o'.
Proof. induction 1 as [o|o1 o2 o3 Hc _ IH]; [done|]. intros Hi. apply IH. by eapply change_inv. Qed.

(** The kernel before any object exists. *)
Definition fresh_kernel (K : kernel) : Prop := so_heap (objs K) = ∅.

Lemma reachable_inv K0 K : fresh_kernel K0 → rtc kstep K0 K → ∀ a o, so_heap (objs K) !! a = Some o → object_inv o.
Proof.
  intros H0 Hr. revert K Hr. refine (rtc_ind_r (λ K, ∀ a o, so_heap (objs K) !! a = Some o → object_inv o) K0 _ _).
  - intros a o. by rewrite H0, lookup_empty.
  - intros K1 K2 _ Hs IH a o Ho. pose proof (kstep_objects _ _ Hs a) as Ha. specialize (IH a). destruct (so_heap (objs K1) !! a) as [o1|].
    + destruct Ha as (o' & Ho' & Hc). simplify_eq. eapply changes_inv; [done|by apply IH].
    + by apply newborn_inv, Ha.
Qed.

(** While sealed, nothing a reader sees changes. *)
Definition content o : option (list Z) * Z * Z * list Z := (so_payload o, so_payload_size o, so_version o, so_content_hash o).

Lemma sealed_frozen o o' : rtc change o o' → object_inv o → so_state o = ANX_OBJ_SEALED → so_state o' = ANX_OBJ_SEALED → content o' = content o.
Proof.
  induction 1 as [o|o1 o2 o3 Hc Hr IH]; [done|]. intros Hi Hs Hs'. pose proof (change_inv _ _ Hc Hi) as Hi2.
  pose proof (sm_state _ _ (change_same _ _ Hc)). pose proof (sm_state _ _ (changes_same _ _ Hr)).
  assert (so_state o2 = ANX_OBJ_SEALED) as Hs2 by lia. rewrite (IH Hi2 Hs2 Hs').
  assert (so_staged o1 = None) as Hn by (apply Hi; by rewrite Hs). destruct Hc; cbn in *; try done; congruence.
Qed.

(** C12: A sealed object is immutable.  Once it is sealed, no sequence of calls by
    any cells, with handles opened before or after, valid or forged, changes its
    payload, size, version or content hash for as long as it is sealed; it never
    becomes unsealed, it can only expire or be deleted. *)
Theorem sealed_object_immutable K0 K K' a o :
  fresh_kernel K0 → rtc kstep K0 K → so_heap (objs K) !! a = Some o → so_state o = ANX_OBJ_SEALED → rtc kstep K K' →
  ∃ o', so_heap (objs K') !! a = Some o' ∧ so_oid o' = so_oid o ∧ ANX_OBJ_SEALED ≤ so_state o' ∧
    (so_state o' = ANX_OBJ_SEALED → content o' = content o ∧ so_staged o' = None).
Proof.
  intros H0 Hr Ho Hs Hr'. destruct (ksteps_objects K K' a o Hr' Ho) as (o' & Ho' & Hc). pose proof (changes_same _ _ Hc) as [].
  pose proof (reachable_inv K0 K H0 Hr a o Ho) as Hi. exists o'. split_and!; [done|done|lia|]. intros Hs'.
  split; [by apply sealed_frozen|]. apply (changes_inv _ _ Hc Hi). by rewrite Hs'.
Qed.

(** C37: Every object keeps its identity and its history.  In any reachable state
    and under any further calls, an object stays in memory with the id, type,
    creator and parents it was created with; its life-cycle state only moves
    forward; its provenance log is only appended to, with consecutive event
    numbers; its content hash is that of its payload; and a pending stage is
    based on the current version, so no write has slipped underneath it. *)
Theorem object_history K0 K K' a o :
  fresh_kernel K0 → rtc kstep K0 K → so_heap (objs K) !! a = Some o → rtc kstep K K' →
  object_inv o ∧ ∃ o', so_heap (objs K') !! a = Some o' ∧ same_object o o' ∧ object_inv o'.
Proof.
  intros H0 Hr Ho Hr'. pose proof (reachable_inv K0 K H0 Hr a o Ho) as Hi. split; [done|].
  destruct (ksteps_objects K K' a o Hr' Ho) as (o' & Ho' & Hc). exists o'. split_and!; [done|by apply changes_same|by eapply changes_inv].
Qed.

(** ** Staged mutation *)

Lemma update_other W a b f : a ≠ b → so_heap (so_update a f W) !! b = so_heap W !! b.
Proof. intros Hne. cbn. by apply lookup_alter_ne. Qed.

Lemma update_at W a f o : so_heap W !! a = Some o → so_heap (so_update a f W) !! a = Some (f o).
Proof. intros Ho. cbn. by rewrite lookup_alter_eq, Ho. Qed.

(** Writes while a stage is open go to the shadow. *)
Definition shadow_only W W' (a : Z) o (s : anx_staged_mutation) : Prop :=
  (∀ b, b ≠ a → so_heap W' !! b = so_heap W !! b) ∧
  ∃ p n, so_heap W' !! a = Some (o <| so_staged := Some (s <| shadow_payload := p |> <| shadow_size := n |>) |>).

Lemma shadow_same W W' a o s : so_heap W !! a = Some o → so_staged o = Some s → so_heap W' = so_heap W → shadow_only W W' a o s.
Proof.
  intros Ho Hs HE. split; [intros b _; by rewrite HE|]. exists (shadow_payload s), (shadow_size s). rewrite HE, Ho. f_equal.
  destruct o, s; cbn in *. by rewrite Hs.
Qed.

Lemma shadow_update W W' a o s p n : so_heap W !! a = Some o → so_heap W' = so_heap W →
  shadow_only W (so_update a (λ o, o <| so_staged := Some (s <| shadow_payload := p |> <| shadow_size := n |>) |>) W') a o s.
Proof.
  intros Ho HE. split.
  - intros b Hb. rewrite update_other by done. by rewrite HE.
  - exists p, n. apply (update_at W' a (λ o, o <| so_staged := _ |>)). by rewrite HE.
Qed.

Lemma staged_write current now h offset data len W r W' a o s : h_obj h = Some a → so_heap W !! a = Some o → so_staged o = Some s →
  anx_so_write_payload sha256 junk current now h offset data len W = Ret (r, W') → shadow_only W W' a o s.
Proof.
  intros Hh Ho Hs. unfold anx_so_write_payload. rewrite Hh. assert (so_heap W = so_heap W) as Href by done.
  destruct data as [data|]; [|by intros [= _ <-]; apply shadow_same].
  destruct (_ =? ANX_OPEN_READ); [by intros [= _ <-]; apply shadow_same|]. rewrite Ho.
  destruct (_ =? ANX_OBJ_SEALED); [by intros [= _ <-]; apply shadow_same|].
  destruct (negb _); [by intros [= _ <-]; apply shadow_same|]. rewrite Hs.
  destruct (write_buffer junk (shadow_payload s) (shadow_size s) offset data len W) as [[x W1]| |] eqn:E; try done. cbn [obind].
  pose proof (write_buffer_heap _ _ _ _ _ _ _ _ _ E) as HE. destruct x as [[p n]|]; intros [= _ <-]; [by apply shadow_update|by apply shadow_same].
Qed.

Lemma staged_replace current now h data len W r W' a o s : h_obj h = Some a → so_heap W !! a = Some o → so_staged o = Some s →
  anx_so_replace_payload sha256 current now h data len W = Ret (r, W') → shadow_only W W' a o s.
Proof.
  intros Hh Ho Hs. unfold anx_so_replace_payload. rewrite Hh.
  destruct (_ =? ANX_OPEN_READ); [by intros [= _ <-]; apply shadow_same|]. rewrite Ho.
  destruct (_ =? ANX_OBJ_SEALED); [by intros [= _ <-]; apply shadow_same|].
  destruct (negb _); [by intros [= _ <-]; apply shadow_same|]. rewrite Hs.
  set (copy := bool_decide _ && _). pose proof (opt_alloc_heap copy W) as HE. destruct (if copy then so_alloc W else (true, W)) as [ok1 W1]. cbn in HE.
  destruct (negb ok1); intros [= _ <-]; [by apply shadow_same|by apply shadow_update].
Qed.

(** C13: Staged mutation is isolated, and published or discarded as a whole.  While
    a stage is open on an object, writes and replacements through any handle
    change its shadow and nothing else of the store; a commit either changes no
    object, or (only if the object is not sealed or deleted, its version is still
    the one the stage started from, and the staging cell, if one is named, may
    still write it, is alive, may have side effects and passes the identity,
    fence and branch checks) makes the shadow the payload under the next version
    and closes the stage, leaving all other objects alone; an abort changes no object, or closes the stage with
    the live payload untouched and leaves an event behind. *)
Theorem staged_mutation_exact K a o s h identity fuel branch current now :
  so_heap (objs K) !! a = Some o → so_staged o = Some s → h_obj h = Some a → refs_ok (objs K) →
  (∀ offset data len r W', anx_so_write_payload sha256 junk current now h offset data len (objs K) = Ret (r, W') →
     shadow_only (objs K) W' a o s) ∧
  (∀ data len r W', anx_so_replace_payload sha256 current now h data len (objs K) = Ret (r, W') → shadow_only (objs K) W' a o s) ∧
  (∀ r K', anx_object_commit sha256 identity fuel branch current now (Some h) K = Ret (r, K') →
     if r =? ANX_OK
     then publishable current o s ∧ authorized identity branch now K s ∧
          ∃ l, log_step (so_provenance o) l ∧ so_heap (objs K') = <[a := published sha256 o s l]> (so_heap (objs K))
     else objs K' = objs K) ∧
  (∃ r K', anx_object_abort current now (Some h) K = Ret (r, K') ∧
     if r =? ANX_OK
     then ∃ l, log_step (so_provenance o) l ∧ so_heap (objs K') = <[a := discarded o l]> (so_heap (objs K))
     else objs K' = objs K).
Proof.
  intros Ho Hs Hh Hrefs. split_and!.
  - intros. by eapply staged_write.
  - intros. by eapply staged_replace.
  - intros r K'. unfold anx_object_commit. destruct (Z.eqb_spec (writable_handle (Some h)) ANX_OK) as [_|Hw]; cbn [negb];
      [|intros [= <- <-]; by rewrite (proj2 (Z.eqb_neq _ _))].
    cbn [mbind option_bind]. rewrite Hh. destruct (commit_check _ _ _ _ _ _ _ _) as [[r1 K1]| |] eqn:E; try done. cbn [obind]. intros [= <- <-].
    destruct (commit_check_spec _ _ _ _ _ _ _ _ _ _ E) as (_ & Hobjs & Hok). specialize (Hobjs Hrefs).
    destruct (Z.eqb_spec r1 ANX_OK) as [->|]; [|done]. destruct (Hok eq_refl) as (o' & s' & _ & Ho' & Hp & Hauth & _).
    pose proof (pb_staged _ _ _ Hp). simplify_eq. split; [done|]. split; [done|]. rewrite <- Hobjs in Ho |- *.
    destruct (commit_publish_spec sha256 now K1 a o s Ho Hs) as (l & HE & Hl & _). eauto.
  - unfold anx_object_abort. destruct (Z.eqb_spec (writable_handle (Some h)) ANX_OK) as [_|Hw]; cbn [negb];
      [|eexists _, _; split; [done|]; by rewrite (proj2 (Z.eqb_neq _ _))].
    cbn [mbind option_bind]. rewrite Hh. unfold abort_check. rewrite Ho, Hs. cbn [obind]. eexists _, _. split; [done|].
    destruct (_ =? ANX_OK); [|done]. destruct (abort_discard_spec now K a o s Ho Hs) as (l & HE & Hl & _). eauto.
Qed.

(** C20: A batch is all or nothing.  [anx_object_commit_batch] and
    [anx_object_abort_batch] either fail and leave every object as it was, or
    succeed on every handle of the batch: the handles name distinct objects, each
    with a stage of one and the same owner; every stage is published (after a
    check that found every one of them publishable) or every stage is discarded,
    and no other object changes. *)
Theorem batch_atomic identity fuel branch current now handles commit K r K' :
  resolve_batch sha256 identity fuel branch current now handles commit K = Ret (r, K') → refs_ok (objs K) →
  (r ≠ ANX_OK ∧ objs K' = objs K) ∨
  (r = ANX_OK ∧ ∃ hs l owner, handles = Some hs ∧ Forall2 (λ h a, h ≫= h_obj = Some a) hs l ∧ NoDup l ∧
     anx_uuid_is_nil owner = false ∧ (∀ a, a ∈ l → resolved sha256 current commit owner (objs K) (objs K') a) ∧
     (∀ a, a ∉ l → so_heap (objs K') !! a = so_heap (objs K) !! a)).
Proof. intros (W & _ & HW & HE)%resolve_batch_spec Hrefs. by rewrite (HW Hrefs) in HE. Qed.

(** ** Reading and writing payloads *)

(** What a read of [len] bytes needs to deliver something. *)
Definition readable (current : option anx_uuid) (mode : Z) o (offset len : Z) K : Prop :=
  (mode = ANX_OPEN_READ ∨ mode = ANX_OPEN_READWRITE) ∧ offset < so_payload_size o ∧ 0 < len ∧ Z.min len (so_payload_size o - offset) ≤ 0x7fffffff ∧
  (anx_effect_fence_observe_read current (cells K) (fences K) (Some (so_oid o)) (so_sensitivity o)).1.1 = ANX_OK.

Lemma observe_errors current st F oidp sens r st' F' : anx_effect_fence_observe_read current st F oidp sens = (r, st', F') → r ≤ 0.
Proof. unfold anx_effect_fence_observe_read. intros Eo. repeat case_match; simplify_eq; vm_compute; try done. Qed.

Lemma read_spec current a mode v offset len K o : so_heap (objs K) !! a = Some o → size_ok o → 0 ≤ offset → 0 ≤ len →
  ∃ r d K', anx_so_read_payload current (Some (Handle (Some a) mode v)) offset true len K = Ret (r, d, K') ∧ objs K' = objs K ∧
    (0 < r → ∃ l, so_payload o = Some l ∧ r = Z.min len (Z.of_nat (length l) - offset) ∧
       d = firstn (Z.to_nat r) (skipn (Z.to_nat offset) l) ∧
       anx_effect_fence_observe_read current (cells K) (fences K) (Some (so_oid o)) (so_sensitivity o) = (ANX_OK, cells K', fences K')) ∧
    (r ≤ 0 → d = []) ∧ (0 < r ↔ readable current mode o offset len K).
Proof.
  intros Ho [Hb _] Hoff Hlen. unfold anx_so_read_payload, readable. cbn [negb].
  destruct (negb (mode =? ANX_OPEN_READ) && negb (mode =? ANX_OPEN_READWRITE)) eqn:Em.
  { eexists _, _, _. split_and!; [done|done|done|done|]. split; [done|]. intros (Hm & _). exfalso. to_prop. naive_solver. }
  assert (mode = ANX_OPEN_READ ∨ mode = ANX_OPEN_READWRITE) as Hm by (apply andb_false_iff in Em as [Em|Em]; to_prop; auto).
  rewrite Ho. destruct ((offset >=? so_payload_size o) || (len =? 0)) eqn:E.
  { eexists _, _, _. split_and!; [done|done|done|done|]. split; [done|]. intros (_ & ? & ? & _). exfalso. lia. }
  set (n := if len >? so_payload_size o - offset then so_payload_size o - offset else len).
  assert (n = Z.min len (so_payload_size o - offset)) as Hn by (unfold n; destruct (Z.gtb_spec len (so_payload_size o - offset)); lia).
  destruct (n >? 0x7fffffff) eqn:Ebig.
  { eexists _, _, _. split_and!; [done|done|done|done|]. split; [done|]. intros (_ & _ & _ & ? & _). exfalso. lia. }
  destruct (anx_effect_fence_observe_read current (cells K) (fences K) (Some (so_oid o)) (so_sensitivity o)) as [[r st] F] eqn:Eo.
  destruct (Z.eqb_spec r ANX_OK) as [->|Hr]; cbn [negb].
  - destruct (so_payload o) as [l|] eqn:Hp; cbn in Hb; [|lia].
    destruct (Z.gtb_spec (offset + n) (Z.of_nat (length l))) as [?|_]; [lia|]. eexists _, _, _. split_and!; [done|done| | |].
    + intros _. exists l. split_and!; [done|by rewrite Hn, Hb|done|done].
    + lia.
    + split; [|lia]. intros _. split_and!; [done|lia|lia|lia|done].
  - pose proof (observe_errors _ _ _ _ _ _ _ _ Eo). eexists _, _, _. split_and!; [done|done|lia|done|]. split; [lia|]. intros (_ & _ & _ & _ & Hx). done.
Qed.

(** The buffer a write goes to: that of the stage, if one is open. *)
Definition target o : option (list Z) * Z :=
  match so_staged o with Some s => (shadow_payload s, shadow_size s) | None => (so_payload o, so_payload_size o) end.

(** The handle may write, and the object may be written by this caller. *)
Definition writable (current : option anx_uuid) (mode : Z) o : Prop :=
  mode ≠ ANX_OPEN_READ ∧ so_state o ≠ ANX_OBJ_SEALED ∧ anx_object_stage_check_writer current o = ANX_OK.

(** [len] bytes of [data] at [offset] have been written to [o], which is [o']
    now: to the shadow of an open stage, or to the payload under a new version. *)
Record wrote o o' (offset : Z) (data : list Z) (len : Z) : Prop := {
  wt_size : (target o').2 = Z.max (target o).2 (offset + len);
  wt_bytes : ∀ i, default [] (target o').1 !! i = written junk (target o).1 (target o).2 offset data len i;
  wt_staged : so_staged o ≠ None → so_staged o' ≠ None ∧ content o' = content o;
  wt_direct : so_staged o = None → so_staged o' = None ∧ so_version o' = u64 (so_version o + 1);
}.

Lemma write_spec current now a mode v offset data len W o :
  so_heap W !! a = Some o → size_ok o → 0 ≤ offset < 2 ^ 64 → 0 ≤ len < 2 ^ 64 → len ≤ Z.of_nat (length data) →
  let out := anx_so_write_payload sha256 junk current now (Handle (Some a) mode v) offset (Some data) len W in
  (¬ writable current mode o → out = Ret (ANX_EPERM, W)) ∧
  (writable current mode o → room (target o).2 offset len W = false → ∃ W', out = Ret (ANX_ENOMEM, W') ∧ so_heap W' = so_heap W) ∧
  (writable current mode o → room (target o).2 offset len W = true → offset + len < 2 ^ 64 →
     ∃ W' o', out = Ret (i32 len, W') ∧ so_heap W' = <[a := o']> (so_heap W) ∧ wrote o o' offset data len) ∧
  (writable current mode o → room (target o).2 offset len W = true → 2 ^ 64 ≤ offset + len → (target o).2 < 2 ^ 64 → out = Panic).
Proof.
  intros Ho [Hb Hsh] Hoff Hlen Hd. unfold anx_so_write_payload, writable. cbn [h_obj h_mode]. cbv zeta. rewrite Ho.
  destruct (Z.eqb_spec mode ANX_OPEN_READ) as [|Hm]; [split_and!; [done|naive_solver..]|].
  destruct (Z.eqb_spec (so_state o) ANX_OBJ_SEALED) as [|Hst]; [split_and!; [done|naive_solver..]|].
  destruct (Z.eqb_spec (anx_object_stage_check_writer current o) ANX_OK) as [Hw|Hw]; cbn [negb].
  2: { split_and!; [|naive_solver..]. intros _. do 2 f_equal. revert Hw. clear. unfold anx_object_stage_check_writer. repeat case_match; done. }
  split; [naive_solver|]. unfold target. destruct (so_staged o) as [s|] eqn:Hs; cbn [fst snd].
  - split_and!.
    + intros _ Hr. destruct (write_buffer_full junk (shadow_payload s) _ _ data _ _ Hr) as [W1 HE]. rewrite HE. cbn [obind].
      exists W1. split; [done|]. by apply write_buffer_heap in HE.
    + intros _ Hr Hend. destruct (write_buffer_spec junk (shadow_payload s) (shadow_size s) offset data len W) as (p & n & W1 & HE & _ & Hn & Hlook);
        [by apply Hsh|lia|lia|done|done|].
      rewrite HE. cbn [obind]. pose proof (write_buffer_heap _ _ _ _ _ _ _ _ _ HE) as Hh. eexists _, _. split; [done|]. split.
      * unfold so_update. cbn. rewrite Hh. by apply alter_Some.
      * constructor; unfold target; cbn; rewrite ?Hs; by try done.
    + intros _ Hr Hend Hsz. by rewrite (write_buffer_wraps junk (shadow_payload s)) by (by try apply Hsh).
  - split_and!.
    + intros _ Hr. destruct (write_buffer_full junk (so_payload o) _ _ data _ _ Hr) as [W1 HE]. rewrite HE. cbn [obind].
      exists W1. split; [done|]. by apply write_buffer_heap in HE.
    + intros _ Hr Hend. destruct (write_buffer_spec junk (so_payload o) (so_payload_size o) offset data len W) as (p & n & W1 & HE & _ & Hn & Hlook);
        [done|lia|lia|done|done|].
      rewrite HE. cbn [obind]. pose proof (write_buffer_heap _ _ _ _ _ _ _ _ _ HE) as Hh. unfold record_mutation.
      set (W2 := so_update a _ (so_update a _ W1)). set (o2 := hashed (o <| so_payload := p |> <| so_payload_size := n |> <| so_version ::= λ v, u64 (v + 1) |>)).
      assert (so_heap W2 = <[a := o2]> (so_heap W)) as HW2.
      { rewrite <- Hh. apply (update_update W1 a (λ o, hashed (o <| so_version ::= λ v, u64 (v + 1) |>)) (λ o, o <| so_payload := p |> <| so_payload_size := n |>)). by rewrite Hh. }
      assert (so_heap W2 !! a = Some o2) as H2 by (rewrite HW2; apply lookup_insert_eq).
      destruct (so_log_spec W2 a (prov_event now ANX_PROV_MUTATED ANX_UUID_NIL) o2 H2) as (l & HL & _).
      eexists _, _. split; [done|]. split; [rewrite HL, HW2; apply insert_insert_eq|].
      constructor; unfold target; cbn; rewrite ?Hs; by try done.
    + intros _ Hr Hend Hsz. by rewrite (write_buffer_wraps junk (so_payload o)).
Qed.

(** C38: Payload accesses, exactly.  Callers pass buffers as long as they announce, with
    offsets and lengths of 64 bits.  In every reachable state a read through any
    handle returns and stays inside the payload: it delivers something exactly
    when the handle may read, the offset is inside, the count fits an [int] and the
    fence of the caller admits the read, and then exactly the bytes from the
    offset on, as many as were asked for or are there.  A write that the handle,
    the state or the stage of the object does not allow is refused and changes
    nothing; one for which there is no memory reports that and changes no object;
    any other whose end stays below 2^64 reports its length and stores exactly
    the bytes given at the offset, in the shadow of an open stage or in the payload
    under the next version, keeping the old bytes elsewhere (what lies between the
    old end and the offset is as the allocator returned it) and every other
    object.  The remaining case, an end of 2^64 or more (with a size that fits its
    64-bit field), is the one in which the copy leaves the buffer. *)
Theorem object_memory_safe K0 K a o mode v offset len :
  ok = true → fresh_kernel K0 → rtc kstep K0 K → so_heap (objs K) !! a = Some o → 0 ≤ offset < 2 ^ 64 → 0 ≤ len < 2 ^ 64 →
  (∀ current, ∃ r d K', anx_so_read_payload current (Some (Handle (Some a) mode v)) offset true len K = Ret (r, d, K') ∧ objs K' = objs K ∧
     (0 < r ↔ readable current mode o offset len K) ∧ (r ≤ 0 → d = []) ∧
     (0 < r → ∃ l, so_payload o = Some l ∧ r = Z.min len (Z.of_nat (length l) - offset) ∧
        d = firstn (Z.to_nat r) (skipn (Z.to_nat offset) l))) ∧
  (∀ current now data, len ≤ Z.of_nat (length data) →
     let out := anx_so_write_payload sha256 junk current now (Handle (Some a) mode v) offset (Some data) len (objs K) in
     let fits := room (target o).2 offset len (objs K) in
     (¬ writable current mode o → out = Ret (ANX_EPERM, objs K)) ∧
     (writable current mode o → fits = false → ∃ W', out = Ret (ANX_ENOMEM, W') ∧ so_heap W' = so_heap (objs K)) ∧
     (writable current mode o → fits = true → offset + len < 2 ^ 64 →
        ∃ W' o', out = Ret (i32 len, W') ∧ so_heap W' = <[a := o']> (so_heap (objs K)) ∧ wrote o o' offset data len) ∧
     (writable current mode o → fits = true → 2 ^ 64 ≤ offset + len → (target o).2 < 2 ^ 64 → out = Panic)).
Proof.
  intros Hok H0 Hr Ho Hoff Hlen. pose proof (oi_size _ (reachable_inv K0 K H0 Hr a o Ho) Hok) as Hsz. split.
  - intros current. destruct (read_spec current a mode v offset len K o Ho Hsz ltac:(lia) ltac:(lia)) as (r & d & K' & HE & HO & Hx & Hd & Hiff).
    exists r, d, K'. split_and!; [done|done|done|done|]. intros Hpos. destruct (Hx Hpos) as (l & ? & ? & ? & _). eauto.
  - intros current now data Hd. by apply write_spec.
Qed.

(** C21: What is read constrains where data may go, from the object to the sink.  If
    a cell bound to an effect fence reads any byte of an object, then after any
    further sequence of fence operations an effect of that run is dispatched only
    to a sink whose ceiling is at least the sensitivity of the object, and
    without a sink only if the object was public. *)
Theorem object_read_bounds_sink K0 K a o mode v offset len c cell r d K' F2 now sink_max st2 eff st3 F3 eff3 :
  ok = true → fresh_kernel K0 → rtc kstep K0 K → so_heap (objs K) !! a = Some o → 0 ≤ offset → 0 ≤ len →
  rtc fence_step [] (fences K) → cells K !! c = Some cell → anx_uuid_is_nil (effect_fence_id cell) = false →
  anx_so_read_payload (Some c) (Some (Handle (Some a) mode v)) offset true len K = Ret (r, d, K') → 0 < r →
  rtc fence_step (fences K') F2 → e_fence_id eff = effect_fence_id cell →
  anx_effect_fence_dispatch now sink_max st2 F2 (Some eff) = (ANX_OK, st3, F3, eff3) →
  match e_sink eff with None => so_sensitivity o = ANX_SENSITIVITY_PUBLIC | Some k => so_sensitivity o ≤ sink_max k end.
Proof.
  intros Hok H0 Hr Ho Hoff Hlen HF Hc Hnil Hread Hpos HF2 He Hd.
  pose proof (oi_size _ (reachable_inv K0 K H0 Hr a o Ho) Hok) as Hsz.
  destruct (read_spec (Some c) a mode v offset len K o Ho Hsz Hoff Hlen) as (r' & d' & K1 & HE & _ & Hx & _). rewrite Hread in HE. injection HE as <- <- <-.
  destruct (Hx Hpos) as (_ & _ & _ & _ & Hobs). by eapply run_label_bounds_sink.
Qed.
End runs.

(** ** Labels of derived objects *)

(** The id and sensitivity at an address. *)
Definition label_at (W : objstore) (a : Z) : option (anx_uuid * Z) := (λ o, (so_oid o, so_sensitivity o)) <$> so_heap W !! a.

Definition same_labels (W W' : objstore) : Prop := oid_table W' = oid_table W ∧ ∀ a, label_at W' a = label_at W a.

Lemma same_labels_find W W' oid : same_labels W W' → find_oid W' oid = find_oid W oid.
Proof.
  intros [HT HL]. unfold find_oid. rewrite HT. generalize (oid_table W) as l. induction l as [|a l IH]; cbn [List.find]; [done|].
  assert (has_oid W' oid a = has_oid W oid a) as ->; [|by rewrite IH]. unfold has_oid. specialize (HL a). unfold label_at in HL.
  destruct (so_heap W !! a), (so_heap W' !! a); cbn in HL; try done. injection HL as -> _. done.
Qed.

Lemma same_labels_update W a f : (∀ o, so_oid (f o) = so_oid o ∧ so_sensitivity (f o) = so_sensitivity o) → same_labels W (so_update a f W).
Proof.
  intros Hf. split; [done|]. intros b. unfold label_at. cbn. destruct (decide (a = b)) as [->|Hne].
  - rewrite lookup_alter_eq. destruct (so_heap W !! b) as [o|]; cbn; [|done]. by destruct (Hf o) as [-> ->].
  - by rewrite lookup_alter_ne.
Qed.

Lemma same_labels_trans W1 W2 W3 : same_labels W1 W2 → same_labels W2 W3 → same_labels W1 W3.
Proof. intros [T1 L1] [T2 L2]. split; [congruence|]. intros a. by rewrite L2. Qed.

Lemma lookup_labels oid W : (anx_objstore_lookup oid W).1 = find_oid W oid ∧ same_labels W (anx_objstore_lookup oid W).2.
Proof. unfold anx_objstore_lookup. destruct (find_oid W oid); [|done]. split; [done|]. by apply same_labels_update. Qed.

Lemma release_labels a W : same_labels W (anx_objstore_release a W).
Proof. apply same_labels_update. intros o. by destruct (_ >? 0). Qed.

(** [a] is a parent the store finds under one of the ids, with label [x]. *)
Definition parent_label (W : objstore) (parents : list anx_uuid) (x : anx_uuid * Z) : Prop :=
  ∃ p a, p ∈ parents ∧ find_oid W p = Some a ∧ label_at W a = Some x.

Lemma inherit_label_spec parents W s u : let '(s', u', W') := inherit_label W parents s u in
  s ≤ s' ∧ (∀ x, parent_label W parents x → x.2 ≤ s') ∧ ((s', u') = (s, u) ∨ parent_label W parents (u', s')) ∧ same_labels W W'.
Proof.
  revert W s u. induction parents as [|p parents IH]; intros W s u; cbn [inherit_label].
  { split_and!; [lia| |by left|done]. intros x (q & a & Hq & _). by apply not_elem_of_nil in Hq. }
  destruct (lookup_labels p W) as [Hfind Hlab]. destruct (anx_objstore_lookup p W) as [r W1]. cbn [fst snd] in *. subst r.
  assert (∀ x l, parent_label W1 l x ↔ parent_label W l x) as Hpl.
  { intros x l. unfold parent_label. setoid_rewrite (same_labels_find _ _ _ Hlab). by setoid_rewrite (proj2 Hlab). }
  assert (∀ x, parent_label W parents x → parent_label W (p :: parents) x) as Hmono.
  { intros x (q & a & Hq & Hrest). exists q, a. split; [by right|done]. }
  destruct (find_oid W p) as [a|] eqn:Ef.
  - set (W2 := anx_objstore_release a W1). pose proof (same_labels_trans _ _ _ Hlab (release_labels a W1)) as Hlab2. fold W2 in Hlab2.
    assert (∀ x l, parent_label W2 l x ↔ parent_label W l x) as Hpl2.
    { intros x l. unfold parent_label. setoid_rewrite (same_labels_find _ _ _ Hlab2). by setoid_rewrite (proj2 Hlab2). }
    pose proof (proj2 Hlab a) as Ha. unfold label_at in Ha.
    assert (∃ o, so_heap W1 !! a = Some o ∧ label_at W a = Some (so_oid o, so_sensitivity o)) as (o & Ho & Hol).
    { unfold find_oid in Ef. apply find_some in Ef as [_ Ef]. unfold has_oid in Ef. unfold label_at.
      destruct (so_heap W !! a) as [o|]; [|discriminate]. destruct (so_heap W1 !! a) as [o1|]; [|discriminate]. exists o1. split; [done|].
      cbn in Ha |- *. by rewrite Ha. }
    rewrite Ho. set (pr := if so_sensitivity o >? s then (so_sensitivity o, so_oid o) else (s, u)).
    assert (∃ s1 u1, pr = (s1, u1) ∧ s ≤ s1 ∧ so_sensitivity o ≤ s1 ∧ ((s1, u1) = (s, u) ∨ (s1, u1) = (so_sensitivity o, so_oid o))) as (s1 & u1 & -> & H1 & H2 & H3).
    { unfold pr. destruct (Z.gtb_spec (so_sensitivity o) s); eexists _, _; split_and!; try done; try lia; auto. }
    specialize (IH W2 s1 u1). destruct (inherit_label W2 parents s1 u1) as [[s' u'] W']. destruct IH as (I1 & I2 & I3 & I4). split_and!.
    + lia.
    + intros x (q & b & Hq & Hfq & Hlb). apply elem_of_cons in Hq as [->|Hq].
      * rewrite Ef in Hfq. injection Hfq as <-. rewrite Hol in Hlb. injection Hlb as <-. cbn. lia.
      * apply I2, Hpl2. by exists q, b.
    + destruct I3 as [I3|I3]; [|right; by apply Hmono, Hpl2]. injection I3 as -> ->. destruct H3 as [->|[= -> ->]]; [by left|right].
      exists p, a. split_and!; [left|done|done].
    + by eapply same_labels_trans.
  - specialize (IH W1 s u). destruct (inherit_label W1 parents s u) as [[s' u'] W']. destruct IH as (I1 & I2 & I3 & I4). split_and!.
    + lia.
    + intros x (q & b & Hq & Hfq & Hlb). apply elem_of_cons in Hq as [->|Hq]; [congruence|]. apply I2, Hpl. by exists q, b.
    + destruct I3 as [I3|I3]; [by left|right; by apply Hmono, Hpl].
    + by eapply same_labels_trans.
Qed.

(** A derived object is at least as sensitive as what it was derived from.  An
    object created without an explicit label and with parents gets the highest
    sensitivity of the parents the store finds, and records the id of one that
    has it (or is public, with no origin, when none is above public); with an
    explicit label it gets that label. *)
Theorem derived_label_dominates sha256 uor now1 now2 fresh addr p out W a W' :
  anx_so_create sha256 uor now1 now2 fresh addr (Some p) out W = (ANX_OK, Some a, W') →
  ∃ o, so_heap W' !! a = Some o ∧ so_oid o = fresh ∧
    (if (p_sensitivity p =? ANX_SENSITIVITY_PUBLIC) && has_parents p
     then (∀ x, parent_label W (parents_of p) x → x.2 ≤ so_sensitivity o) ∧
          ((so_sensitivity o = ANX_SENSITIVITY_PUBLIC ∧ so_sensitivity_origin o = ANX_UUID_NIL) ∨
           parent_label W (parents_of p) (so_sensitivity_origin o, so_sensitivity o))
     else so_sensitivity o = p_sensitivity p ∧ so_sensitivity_origin o = ANX_UUID_NIL).
Proof.
  intros HE. destruct (so_create_cases sha256 uor now1 now2 fresh addr (Some p) out W) as [(Hr & _)|(p' & W0 & sm & um & [= <-] & Hh & HT & HC)];
    [by rewrite HE in Hr|]. rewrite HE in HC. unfold label_for in HC.
  assert (∀ x l, parent_label W0 l x ↔ parent_label W l x) as Hpl.
  { intros x l. assert (same_labels W W0) as Hs by (split; [done|]; intros b; unfold label_at; by rewrite Hh).
    unfold parent_label. setoid_rewrite (same_labels_find _ _ _ Hs). by setoid_rewrite (proj2 Hs). }
  destruct (_ && _) eqn:Eb.
  - pose proof (inherit_label_spec (parents_of p) W0 ANX_SENSITIVITY_PUBLIC ANX_UUID_NIL) as Hi.
    destruct (inherit_label W0 (parents_of p) ANX_SENSITIVITY_PUBLIC ANX_UUID_NIL) as [[s' u'] W1]. injection HC as -> ->.
    destruct (install_spec uor now2 addr (new_object sha256 p fresh s' u' sm um (ProvLog [] PROV_INITIAL_CAP)) W1 eq_refl) as (m & l & HI & _).
    eexists. split; [rewrite HI; apply lookup_insert_eq|]. split; [done|]. cbn. destruct Hi as (_ & I2 & I3 & _). split.
    + intros x Hx. by apply I2, Hpl.
    + destruct I3 as [[= -> ->]|I3]; [by left|right; by apply Hpl].
  - injection HC as -> ->. destruct (install_spec uor now2 addr (new_object sha256 p fresh (p_sensitivity p) ANX_UUID_NIL sm um (ProvLog [] PROV_INITIAL_CAP)) W0 eq_refl) as (m & l & HI & _).
    eexists. split; [rewrite HI; apply lookup_insert_eq|]. done.
Qed.

(** ** Access rules *)

(** The rule speaks about this cell and this operation. *)
Definition applies (rule : anx_access_rule) (cell : option anx_uuid) (op : Z) : Prop :=
  (principal rule = ANX_UUID_NIL ∨ Some (principal rule) = cell) ∧ Z.land (operations rule) op ≠ 0.

Lemma applies_spec rule cell op : applies rule cell op ↔ principal_match rule cell = true ∧ (Z.land (operations rule) op =? 0) = false.
Proof.
  unfold applies, principal_match. rewrite Z.eqb_neq. assert (principal rule = ANX_UUID_NIL ↔ anx_uuid_is_nil (principal rule) = true) as ->.
  { unfold anx_uuid_is_nil. destruct (principal rule) as [h l]; cbn. split; [intros [= -> ->]; done|]. intros H. unfold ANX_UUID_NIL. f_equal; lia. }
  destruct (anx_uuid_is_nil (principal rule)); [tauto|]. destruct cell as [c|]; [|naive_solver].
  rewrite Z.eqb_eq, anx_uuid_compare_eq. naive_solver.
Qed.

(** Rule [i] is the first that applies. *)
Definition decides (l : list anx_access_rule) (cell : option anx_uuid) (op : Z) (i : nat) (rule : anx_access_rule) : Prop :=
  l !! i = Some rule ∧ applies rule cell op ∧ ∀ j x, (j < i)%nat → l !! j = Some x → ¬ applies x cell op.

Lemma evaluate_rules_spec l cell op :
  (∃ i rule, decides l cell op i rule ∧ evaluate_rules l cell op = (match effect rule with ANX_EFFECT_DENY => ANX_EPERM | ANX_EFFECT_ALLOW => ANX_OK end)) ∨
  (Forall (λ rule, ¬ applies rule cell op) l ∧ evaluate_rules l cell op = ANX_OK).
Proof.
  induction l as [|rule l IH]; cbn [evaluate_rules]; [by right|]. pose proof (applies_spec rule cell op) as Ha.
  destruct (principal_match rule cell) eqn:E1; cbn [negb]; [destruct (Z.land (operations rule) op =? 0) eqn:E2|].
  2: { left. exists 0%nat, rule. split; [|done]. split_and!; [done|tauto|lia]. }
  all: assert (¬ applies rule cell op) as Hn by (rewrite Ha; naive_solver).
  all: destruct IH as [(i & x & (Hi & Hx & Hj) & HE)|[Hall HE]]; [left|right; split; [by constructor|done]].
  all: exists (S i), x; split; [|done]; split_and!; [done|done|]; intros [|j] y Hlt Hy; [by injection Hy as <-|]; apply (Hj j y); [lia|done].
Qed.

(** The first rule that applies decides.  A request is denied exactly when,
    among the rules that count (at most sixteen of them), the first one whose
    principal is the requesting cell or anyone and whose mask contains the
    operation says so; without such a rule, or without a policy, it is allowed. *)
Theorem access_first_rule policy cell op :
  anx_access_evaluate (Some policy) cell op = ANX_EPERM ↔
  ∃ i rule, decides (firstn (Z.to_nat (Z.min (rule_count policy) ANX_MAX_ACCESS_RULES)) (rules policy)) cell op i rule ∧
    effect rule = ANX_EFFECT_DENY.
Proof.
  unfold anx_access_evaluate. set (l := firstn _ _). destruct (Z.eqb_spec (rule_count policy) 0) as [Hz|Hz].
  { split; [discriminate|]. intros (i & rule & (Hi & _) & _). unfold l in Hi. rewrite Hz in Hi. by destruct i. }
  destruct (evaluate_rules_spec l cell op) as [(i & rule & Hd & ->)|[Hall ->]].
  - split; [destruct (effect rule) eqn:Ee; [discriminate|eauto]|].
    intros (i' & rule' & Hd' & He'). assert (i' = i) as ->; [|destruct Hd as (Hi & _), Hd' as (Hi' & _); simplify_eq; by rewrite He'].
    destruct Hd as (Hi & Ha & Hj), Hd' as (Hi' & Ha' & Hj'). destruct (lt_eq_lt_dec i' i) as [[Hlt|]|Hlt]; [|done|].
    + by destruct (Hj i' rule' Hlt Hi').
    + by destruct (Hj' i rule Hlt Hi).
  - split; [discriminate|]. intros (i & rule & (Hi & Ha & _) & _). rewrite Forall_lookup in Hall. by destruct (Hall i rule Hi).
Qed.

(** ** A small kernel *)

Definition toy_hash (l : list Z) : list Z := firstn 32 (l ++ replicate 32 1).
Definition toy_uor (o : anx_state_object) (mem : list bool) : anx_meta_store * list bool := (so_system_meta o, mem).
Definition toy_junk (i : Z) : Z := 200 + i.

Definition doc : anx_uuid := Uuid 7 7.
Definition doc_params (sens : Z) (parents : option (list anx_uuid)) : anx_so_create_params :=
  CreateParams 0 None None (Some [1; 2; 3]) 3 parents 1 (Uuid 1 1) sens.

Definition with_objs (K : kernel) (W : objstore) : kernel := Kernel W (cells K) (fences K) (reviews K).
Definition obj_at (K : kernel) (a : Z) : anx_state_object :=
  default (new_object toy_hash (doc_params 0 None) doc 0 doc [] [] (ProvLog [] 8)) (so_heap (objs K) !! a).

(** An empty store, a confidential document at address 100, the document sealed. *)
Definition k_boot : kernel := Kernel anx_objstore_init run_store leased_table epistemic_boot.
Definition k_doc : kernel :=
  with_objs k_boot (anx_so_create toy_hash toy_uor 5 6 doc 100 (Some (doc_params 2 None)) true (objs k_boot)).2.
Definition k_sealed : kernel := with_objs k_doc (anx_so_seal toy_uor 8 doc (objs k_doc)).2.

(** What a write through a writable handle on it answers. *)
Definition write_at (current : option anx_uuid) (offset : Z) (data : list Z) (K : kernel) : Z * kernel :=
  match anx_so_write_payload toy_hash toy_junk current 9 (Handle (Some 100) ANX_OPEN_READWRITE 1) offset (Some data)
          (Z.of_nat (length data)) (objs K) with
  | Ret (r, W) => (r, with_objs K W)
  | _ => (0, K)
  end.

Abbreviation toy_step := (kstep toy_hash true toy_uor toy_junk).

Lemma doc_created : rtc toy_step k_boot k_doc.
Proof.
  apply rtc_once. apply (KCreate toy_hash true toy_uor toy_junk 5 6 doc 100 (Some (doc_params 2 None)) true k_boot); [done|].
  intros _ p l [= <-] [= <-]. done.
Qed.

Lemma doc_sealed : rtc toy_step k_doc k_sealed.
Proof. apply rtc_once. apply (KSeal toy_hash true toy_uor toy_junk 8 doc k_doc). Qed.

Lemma write_step current offset data K : write_ok offset (Some data) (Z.of_nat (length data)) →
  rtc toy_step K (write_at current offset data K).2.
Proof.
  intros Hw. unfold write_at. destruct (anx_so_write_payload _ _ _ _ _ _ _ _ _) as [[r W]| |] eqn:E; [|done|done].
  apply rtc_once. by eapply (KWrite toy_hash true toy_uor toy_junk).
Qed.

Lemma sealed_object_immutable_witness :
  (write_at None 0 [9; 9] k_sealed).1 = ANX_EPERM ∧ so_heap (objs k_sealed) !! 100 = Some (obj_at k_sealed 100) ∧
  ∃ o', so_heap (objs (write_at None 0 [9; 9] k_sealed).2) !! 100 = Some o' ∧ so_oid o' = doc ∧ ANX_OBJ_SEALED ≤ so_state o' ∧
    (so_state o' = ANX_OBJ_SEALED → content o' = content (obj_at k_sealed 100) ∧ so_staged o' = None).
Proof.
  split; [vm_compute; reflexivity|]. split; [vm_compute; reflexivity|].
  apply (sealed_object_immutable toy_hash true toy_uor toy_junk k_boot k_sealed (write_at None 0 [9; 9] k_sealed).2 100 (obj_at k_sealed 100)).
  - reflexivity.
  - etransitivity; [apply doc_created|apply doc_sealed].
  - vm_compute. reflexivity.
  - vm_compute. reflexivity.
  - apply write_step. split_and!; try lia. intros l [= <-]. done.
Defined.

Lemma object_history_witness :
  object_inv toy_hash true (obj_at k_doc 100) ∧ ∃ o', so_heap (objs k_sealed) !! 100 = Some o' ∧
    same_object (obj_at k_doc 100) o' ∧ object_inv toy_hash true o'.
Proof.
  apply (object_history toy_hash true toy_uor toy_junk k_boot k_doc k_sealed 100 (obj_at k_doc 100)).
  - reflexivity.
  - apply doc_created.
  - vm_compute. reflexivity.
  - apply doc_sealed.
Defined.

(** A cell that may have side effects stages the document and a copy of it. *)
Definition staff_cell : anx_cell := run_cell <| policy ::= λ p, p <| allow_side_effects := true |> |>.
Definition rw_handle (a : Z) : anx_object_handle := Handle (Some a) ANX_OPEN_READWRITE 1.
Definition doc2 : anx_uuid := Uuid 7 8.
Definition k_two : kernel :=
  Kernel (anx_so_create toy_hash toy_uor 5 6 doc2 200 (Some (doc_params 0 (Some [doc]))) true (objs k_doc)).2
    {[ Uuid 1 1 := staff_cell ]} leased_table epistemic_boot.
Definition stage_at (a : Z) (K : kernel) : kernel :=
  match anx_object_stage None (Some (rw_handle a)) (Uuid 1 1) (objs K) with Ret (_, W) => with_objs K W | _ => K end.
Definition k_staged : kernel := stage_at 200 (stage_at 100 k_two).

Definition toy_identity (_ : anx_cell) : Z * anx_uuid := (ANX_OK, ANX_UUID_NIL).
Abbreviation toy_commit := (anx_object_commit toy_hash toy_identity 9 (λ _, ANX_OK) None 9).
Abbreviation toy_batch hs := (resolve_batch toy_hash toy_identity 9 (λ _, ANX_OK) None 9 (Some hs) true).
Definition code {A} (x : outcome (Z * A)) : Z := match x with Ret (r, _) => r | _ => 1 end.

(** Reference counts of a concrete store, checked by evaluation. *)
Lemma refs_ok_dec W : bool_decide (map_Forall (λ _ o, 0 ≤ so_refcount o < MAX32) (so_heap W)) = true → refs_ok W.
Proof. intros H a o Ho. apply bool_decide_eq_true in H. exact (H a o Ho). Qed.

Lemma staged_mutation_exact_witness :
  let K := k_staged in
  let o := obj_at K 100 in
  let s := StagedMutation (Some [1; 2; 3]) 3 (Uuid 1 1) 1 0 in
  (write_at None 1 [9] K).1 = 1 ∧
  (∃ p n, so_heap (objs (write_at None 1 [9] K).2) !! 100 = Some (o <| so_staged := Some (s <| shadow_payload := p |> <| shadow_size := n |>) |>)) ∧
  ∃ K' l, toy_commit (Some (rw_handle 100)) K = Ret (ANX_OK, K') ∧ so_heap (objs K') = <[100 := published toy_hash o s l]> (so_heap (objs K)).
Proof.
  destruct (staged_mutation_exact toy_hash toy_junk k_staged 100 (obj_at k_staged 100) (StagedMutation (Some [1; 2; 3]) 3 (Uuid 1 1) 1 0)
    (rw_handle 100) toy_identity 9 (λ _, ANX_OK) None 9) as (Hw & _ & Hc & _);
    [vm_compute; reflexivity|vm_compute; reflexivity|reflexivity|apply refs_ok_dec; vm_compute; reflexivity|].
  cbv zeta. split; [vm_compute; reflexivity|]. split.
  - unfold write_at. fold (rw_handle 100).
    destruct (anx_so_write_payload toy_hash toy_junk None 9 (rw_handle 100) 1 (Some [9]) (Z.of_nat (length [9])) (objs k_staged)) as [[r W']| |] eqn:E.
    2, 3: vm_compute in E; discriminate E.
    exact (proj2 (Hw _ _ _ _ _ E)).
  - destruct (toy_commit (Some (rw_handle 100)) k_staged) as [[r K']| |] eqn:E.
    2, 3: vm_compute in E; discriminate E.
    specialize (Hc r K' eq_refl). assert (r = ANX_OK) as ->.
    { apply (f_equal code) in E. vm_compute in E. symmetry. exact E. }
    destruct Hc as (_ & _ & l & _ & Hl). exists K', l. split; [reflexivity|exact Hl].
Defined.

(** Both stages are published together. *)
Lemma batch_atomic_witness :
  ∃ K' l owner, toy_batch [Some (rw_handle 200); Some (rw_handle 100)] k_staged = Ret (ANX_OK, K') ∧
    (∀ a, a ∈ l → resolved toy_hash None true owner (objs k_staged) (objs K') a) ∧
    Forall2 (λ h a, h ≫= h_obj = Some a) [Some (rw_handle 200); Some (rw_handle 100)] l.
Proof.
  destruct (toy_batch [Some (rw_handle 200); Some (rw_handle 100)] k_staged) as [[r K']| |] eqn:E.
  2, 3: vm_compute in E; discriminate E.
  assert (r = ANX_OK) as ->.
  { apply (f_equal code) in E. vm_compute in E. symmetry. exact E. }
  destruct (batch_atomic toy_hash toy_identity 9 (λ _, ANX_OK) None 9 _ true k_staged ANX_OK K' E)
    as [[Hne _]|(_ & hs & l & owner & Hh & Hl & _ & _ & Hr & _)].
  - apply refs_ok_dec. vm_compute. reflexivity.
  - destruct (Hne eq_refl).
  - injection Hh as <-. exists K', l, owner. split; [reflexivity|]. split; [exact Hr|exact Hl].
Defined.

(** Nine bytes from offset 1 of a payload of three; one byte written behind its end. *)
Lemma object_memory_safe_witness :
  (∃ r d K', anx_so_read_payload None (Some (rw_handle 100)) 1 true 9 k_doc = Ret (r, d, K') ∧
     (0 < r → ∃ l, so_payload (obj_at k_doc 100) = Some l ∧ r = Z.min 9 (Z.of_nat (length l) - 1) ∧ d = firstn (Z.to_nat r) (skipn 1 l))) ∧
  (∃ W' o', anx_so_write_payload toy_hash toy_junk None 9 (rw_handle 100) 5 (Some [9; 8; 7; 6; 5; 4; 3; 2; 1]) 9 (objs k_doc) = Ret (9, W') ∧
     so_heap W' = <[100 := o']> (so_heap (objs k_doc)) ∧ wrote toy_junk (obj_at k_doc 100) o' 5 [9; 8; 7; 6; 5; 4; 3; 2; 1] 9).
Proof.
  assert (so_heap (objs k_doc) !! 100 = Some (obj_at k_doc 100)) as Ho by (vm_compute; reflexivity). split.
  - destruct (object_memory_safe toy_hash true toy_uor toy_junk k_boot k_doc 100 (obj_at k_doc 100) ANX_OPEN_READWRITE 1 1 9
      eq_refl eq_refl doc_created Ho ltac:(lia) ltac:(lia)) as [Hr _].
    destruct (Hr None) as (r & d & K' & HE & _ & _ & _ & Hx). exists r, d, K'. split; [exact HE|exact Hx].
  - destruct (object_memory_safe toy_hash true toy_uor toy_junk k_boot k_doc 100 (obj_at k_doc 100) ANX_OPEN_READWRITE 1 5 9
      eq_refl eq_refl doc_created Ho ltac:(lia) ltac:(lia)) as [_ Hw].
    destruct (Hw None 9 [9; 8; 7; 6; 5; 4; 3; 2; 1] ltac:(cbn; lia)) as (_ & _ & Hx & _).
    apply Hx; [|vm_compute; reflexivity|lia]. split; [discriminate|]. split; [vm_compute; discriminate|reflexivity].
Defined.

(** A cell under a fence reads the confidential document and sends to a sink. *)
Lemma object_read_bounds_sink_witness :
  ∃ r d K' st3 F3 eff3,
    anx_so_read_payload (Some (Uuid 1 1)) (Some (Handle (Some 100) 0 1)) 0 true 2 k_doc = Ret (r, d, K') ∧ d = [1; 2] ∧
    anx_effect_fence_dispatch 9 (λ _, 2) run_store (fences K')
      (Some (PendingEffect (Uuid 1 1) (Some 4) (Uuid 9 9) ANX_EFFECT_PREPARED fence0 1)) = (ANX_OK, st3, F3, eff3) ∧
    so_sensitivity (obj_at k_doc 100) ≤ (λ _ : Z, 2) 4.
Proof.
  eexists _, _, _, _, _, _. split; [vm_compute; reflexivity|]. split; [reflexivity|]. split; [vm_compute; reflexivity|].
  eapply (object_read_bounds_sink toy_hash true toy_uor toy_junk k_boot k_doc 100 (obj_at k_doc 100) 0 1 0 2 (Uuid 1 1) run_cell _ _ _ _ 9 (λ _, 2) run_store
    (PendingEffect (Uuid 1 1) (Some 4) (Uuid 9 9) ANX_EFFECT_PREPARED fence0 1)).
  - reflexivity.
  - reflexivity.
  - apply doc_created.
  - vm_compute. reflexivity.
  - lia.
  - lia.
  - change (fences k_doc) with leased_table. unfold leased_table. cbv zeta. eapply rtc_r; [eapply rtc_r; [apply rtc_refl|]|]; constructor. lia.
  - vm_compute. reflexivity.
  - reflexivity.
  - vm_compute. reflexivity.
  - lia.
  - apply rtc_refl.
  - reflexivity.
  - vm_compute. reflexivity.
Defined.

(** The copy of the confidential document is confidential. *)
Lemma derived_label_dominates_witness :
  ∃ o, so_heap (objs k_two) !! 200 = Some o ∧ so_oid o = doc2 ∧ ∀ x, parent_label (objs k_doc) [doc] x → x.2 ≤ so_sensitivity o.
Proof.
  destruct (derived_label_dominates toy_hash toy_uor 5 6 doc2 200 (doc_params 0 (Some [doc])) true (objs k_doc) 200 (objs k_two)) as (o & Ho & Hid & Hl & _).
  - vm_compute. reflexivity.
  - exists o. split; [exact Ho|]. split; [exact Hid|]. exact Hl.
Defined.

(** ** Where the code falls short *)

(** A write past the end leaves the bytes in between as the heap had them, and a
    reader gets them. *)
Theorem gap_write_exposes_memory :
  let K := (write_at None 5 [9] k_doc).2 in
  ∃ K', anx_so_read_payload None (Some (rw_handle 100)) 0 true 6 K = Ret (6, [1; 2; 3; toy_junk 3; toy_junk 4; 9], K').
Proof. eexists. vm_compute. reflexivity. Qed.

(** [anx_so_replace_payload] with no data and a length leaves an object whose
    next reader follows a null pointer. *)
Theorem null_replacement_breaks_reads :
  ∃ W, anx_so_replace_payload toy_hash None 9 (rw_handle 100) None 4 (objs k_doc) = Ret (ANX_OK, W) ∧
    anx_so_read_payload None (Some (rw_handle 100)) 0 true 2 (with_objs k_doc W) = Panic.
Proof.
  destruct (anx_so_replace_payload toy_hash None 9 (rw_handle 100) None 4 (objs k_doc)) as [[r W]| |] eqn:E; vm_compute in E; try discriminate E.
  injection E as <- <-. eexists. split; [reflexivity|]. vm_compute. reflexivity.
Qed.

(** The end of a write is computed modulo [2^64]: a write near the top of the
    offset range passes the bound check and lands outside the payload. *)
Theorem wrapped_write_escapes :
  anx_so_write_payload toy_hash toy_junk None 9 (rw_handle 100) (2 ^ 64 - 1) (Some [9; 9]) 2 (objs k_doc) = Panic.
Proof. vm_compute. reflexivity. Qed.

(** A deleted object is still written through a handle opened before. *)
Theorem deleted_object_written :
  let W := (anx_so_delete doc true (objs k_doc)).2 in
  let K := (write_at None 0 [9] (with_objs k_doc W)).2 in
  so_state (obj_at K 100) = ANX_OBJ_DELETED ∧ so_payload (obj_at K 100) = Some [9; 2; 3] ∧ so_version (obj_at K 100) = 2.
Proof. vm_compute. done. Qed.
