(* ===== verification/MemPlane.v ===== *)
(** * The memory plane: [kernel/core/mem/memplane.c], [decay.c], [retention.c], [memplane.h]

    Which state objects the tiers of memory hold, how far their content is
    trusted, and whose budget they are charged to.  The hash table is the list of
    its entries with their addresses, newest first: entries with the same id
    share a bucket, and an entry exists exactly while it is in the table.  A
    [struct anx_mem_entry *] is an address, [NULL] is [None], and following a
    pointer to an entry or to an owner that has been freed is [Panic].

    Also here: [anx_wf_cache_needed] of [workflow_object.c], which keeps what
    live workflows still need in memory, and the part of the workflow record it
    reads. *)

From S2P Require Import Prelude Uuid Cell CellStore Review StateObject.

(** ** What live workflows need: [workflow_object.c], [semantic.c] *)

Inductive anx_wf_run_state :=
  | ANX_WF_RUN_IDLE | ANX_WF_RUN_RUNNING | ANX_WF_RUN_WAITING_HUMAN
  | ANX_WF_RUN_SUSPENDED | ANX_WF_RUN_COMPLETED | ANX_WF_RUN_FAILED.

Record anx_wf_semantic_guard := SemanticGuard { sg_oid : anx_uuid; sg_resource_count : Z; sg_resources : list anx_uuid }.

Record anx_wf_object := WfObject {
  wf_in_use : bool;
  wf_semantic : option anx_wf_semantic_guard;
  wf_run_state : anx_wf_run_state;
  wf_cache_live_oids : list anx_uuid;
  wf_cache_live_count : Z;
  wf_cache_liveness_unknown : bool;
}.

Definition ANX_SEMANTIC_RESOURCES_MAX : Z := 16.
Definition ANX_WF_MAX_EDGES : Z := 128.

Definition wf_live (wf : anx_wf_object) : bool :=
  match wf_run_state wf with
  | ANX_WF_RUN_RUNNING | ANX_WF_RUN_SUSPENDED | ANX_WF_RUN_WAITING_HUMAN => true
  | _ => false
  end.

Definition anx_wf_semantic_needed (wf : anx_wf_object) (oid : anx_uuid) : bool :=
  match wf_semantic wf with
  | None => false
  | Some guard =>
      when uuid_eqb oid (sg_oid guard) ret true ;;
      when sg_resource_count guard >? ANX_SEMANTIC_RESOURCES_MAX ret true ;;
      existsb (uuid_eqb oid) (firstn (Z.to_nat (sg_resource_count guard)) (sg_resources guard))
  end.

Definition wf_needs (oid : anx_uuid) (wf : anx_wf_object) : bool :=
  when negb (wf_in_use wf) || negb (wf_live wf) ret false ;;
  when anx_wf_semantic_needed wf oid ret true ;;
  when wf_cache_liveness_unknown wf || (wf_cache_live_count wf >? ANX_WF_MAX_EDGES) ret true ;;
  existsb (cid_eq oid) (firstn (Z.to_nat (wf_cache_live_count wf)) (wf_cache_live_oids wf)).

Definition anx_wf_cache_needed (wfs : list anx_wf_object) (oid : anx_uuid) : bool :=
  when (hi oid =? 0) && (lo oid =? 0) ret false ;;
  existsb (wf_needs oid) wfs.

(** ** Entries *)

Definition ANX_MEM_L0 : Z := 0.
Definition ANX_MEM_L1 : Z := 1.
Definition ANX_MEM_L2 : Z := 2.
Definition ANX_MEM_L3 : Z := 3.
Definition ANX_MEM_L4 : Z := 4.
Definition ANX_MEM_L5 : Z := 5.
Definition ANX_MEM_TIER_COUNT : Z := 6.

Inductive anx_admission_profile :=
  | ANX_ADMIT_EPHEMERAL_ONLY | ANX_ADMIT_CACHEABLE | ANX_ADMIT_RETRIEVAL_CANDIDATE
  | ANX_ADMIT_LONG_TERM_CANDIDATE | ANX_ADMIT_GRAPH_CANDIDATE | ANX_ADMIT_QUARANTINED.

Inductive anx_mem_validation_state :=
  | ANX_MEMVAL_UNVALIDATED | ANX_MEMVAL_PROVISIONAL | ANX_MEMVAL_VALIDATED | ANX_MEMVAL_CONTESTED
  | ANX_MEMVAL_SUPERSEDED | ANX_MEMVAL_STALE | ANX_MEMVAL_QUARANTINED.

Inductive anx_freshness_class :=
  | ANX_FRESH_VOLATILE | ANX_FRESH_SHORT_HORIZON | ANX_FRESH_MEDIUM_HORIZON | ANX_FRESH_LONG_HORIZON | ANX_FRESH_ARCHIVAL.

Inductive anx_forget_mode := ANX_FORGET_HARD_DELETE | ANX_FORGET_TOMBSTONE | ANX_FORGET_ARCHIVE | ANX_FORGET_REDERIVE.

#[export] Instance memval_eq_dec : EqDecision anx_mem_validation_state.
Proof. solve_decision. Defined.
#[export] Instance forget_eq_dec : EqDecision anx_forget_mode.
Proof. solve_decision. Defined.

(** The enumerator of a C integer. *)
Definition of_int {A} (all : list A) (z : Z) : option A := if z <? 0 then None else all !! Z.to_nat z.

Definition profile_of_int : Z → option anx_admission_profile :=
  of_int [ANX_ADMIT_EPHEMERAL_ONLY; ANX_ADMIT_CACHEABLE; ANX_ADMIT_RETRIEVAL_CANDIDATE;
          ANX_ADMIT_LONG_TERM_CANDIDATE; ANX_ADMIT_GRAPH_CANDIDATE; ANX_ADMIT_QUARANTINED].
Definition memval_of_int : Z → option anx_mem_validation_state :=
  of_int [ANX_MEMVAL_UNVALIDATED; ANX_MEMVAL_PROVISIONAL; ANX_MEMVAL_VALIDATED; ANX_MEMVAL_CONTESTED;
          ANX_MEMVAL_SUPERSEDED; ANX_MEMVAL_STALE; ANX_MEMVAL_QUARANTINED].
Definition forget_of_int : Z → option anx_forget_mode :=
  of_int [ANX_FORGET_HARD_DELETE; ANX_FORGET_TOMBSTONE; ANX_FORGET_ARCHIVE; ANX_FORGET_REDERIVE].

Definition ANX_MEM_RETENTION_PRIORITY_MAX : Z := 100.
Definition ANX_MEM_RETENTION_SWEEPS_MAX : Z := 16.
Definition ANX_MEM_EVICTION_CANDIDATES_MAX : Z := 32.

Record anx_mem_retention_hint := RetentionHint { hint_priority : Z; hint_sweeps : Z }.

Record anx_mem_entry := MemEntry {
  me_oid : anx_uuid;
  tier_mask : Z;  (* uint8_t *)
  me_profile : anx_admission_profile;
  me_validation : anx_mem_validation_state;
  me_freshness : anx_freshness_class;
  confidence_pct : Z;
  contradiction_count : Z;
  last_validated_at : Z;
  validation_generation : Z;
  last_accessed_at : Z;
  decay_score : Z;
  access_count : Z;
  me_retention : anx_mem_retention_hint;
  protected_tiers : Z;  (* uint8_t *)
  admitted_bytes : Z;
  admission_owner : option anx_uuid;
}.

#[export] Instance eta_mem_entry : Settable anx_mem_entry := λ r,
  MemEntry (me_oid r) (tier_mask r) (me_profile r) (me_validation r) (me_freshness r) (confidence_pct r) (contradiction_count r)
    (last_validated_at r) (validation_generation r) (last_accessed_at r) (decay_score r) (access_count r) (me_retention r)
    (protected_tiers r) (admitted_bytes r) (admission_owner r).

Definition ANX_TIER_BIT (tier : Z) : Z := Z.shiftl 1 tier.

Definition anx_mem_in_tier (e : anx_mem_entry) (tier : Z) : bool := negb (Z.land (tier_mask e) (ANX_TIER_BIT tier) =? 0).

(** ** State *)

Record memplane := MemPlane { mem_table : list (Z * anx_mem_entry); validation_sequence : Z }.

(** The memory plane with what it works on. *)
Record mstate := MState { kern : kernel; plane : memplane; wf_table : list anx_wf_object }.

#[export] Instance eta_memplane : Settable memplane := λ r, MemPlane (mem_table r) (validation_sequence r).
#[export] Instance eta_mstate : Settable mstate := λ r, MState (kern r) (plane r) (wf_table r).

Definition anx_memplane_init : memplane := MemPlane [] 0.

Definition entries_of (M : mstate) : list (Z * anx_mem_entry) := mem_table (plane M).

(** What a pointer points to. *)
Definition entry_at (a : Z) (M : mstate) : option anx_mem_entry := snd <$> List.find (λ x, fst x =? a) (entries_of M).

Definition upd_entry (a : Z) (f : anx_mem_entry → anx_mem_entry) (M : mstate) : mstate :=
  M <| plane ::= λ P, P <| mem_table ::= map (λ x, if fst x =? a then (fst x, f (snd x)) else x) |> |>.

Definition set_objs (W : objstore) (M : mstate) : mstate := M <| kern ::= λ K, K <| objs := W |> |>.
Definition set_cells (st : cell_store) (M : mstate) : mstate := M <| kern ::= λ K, K <| cells := st |> |>.

(** ** Operations *)

Definition profile_to_tiers (profile : anx_admission_profile) : Z :=
  match profile with
  | ANX_ADMIT_EPHEMERAL_ONLY => ANX_TIER_BIT ANX_MEM_L0
  | ANX_ADMIT_CACHEABLE => Z.lor (ANX_TIER_BIT ANX_MEM_L0) (ANX_TIER_BIT ANX_MEM_L1)
  | ANX_ADMIT_RETRIEVAL_CANDIDATE => Z.lor (ANX_TIER_BIT ANX_MEM_L2) (ANX_TIER_BIT ANX_MEM_L3)
  | ANX_ADMIT_LONG_TERM_CANDIDATE => ANX_TIER_BIT ANX_MEM_L2
  | ANX_ADMIT_GRAPH_CANDIDATE => Z.lor (ANX_TIER_BIT ANX_MEM_L2) (ANX_TIER_BIT ANX_MEM_L4)
  | ANX_ADMIT_QUARANTINED => ANX_TIER_BIT ANX_MEM_L1
  end.

Definition profile_to_freshness (profile : anx_admission_profile) : anx_freshness_class :=
  match profile with
  | ANX_ADMIT_EPHEMERAL_ONLY => ANX_FRESH_VOLATILE
  | ANX_ADMIT_CACHEABLE => ANX_FRESH_SHORT_HORIZON
  | ANX_ADMIT_RETRIEVAL_CANDIDATE => ANX_FRESH_MEDIUM_HORIZON
  | ANX_ADMIT_LONG_TERM_CANDIDATE => ANX_FRESH_LONG_HORIZON
  | ANX_ADMIT_GRAPH_CANDIDATE => ANX_FRESH_LONG_HORIZON
  | ANX_ADMIT_QUARANTINED => ANX_FRESH_SHORT_HORIZON
  end.

Definition anx_memplane_lookup (oid : anx_uuid) (M : mstate) : option Z :=
  fst <$> List.find (λ x, uuid_eqb (me_oid (snd x)) oid) (entries_of M).

(** [anx_memplane_lookup(&entry->oid) == entry]. *)
Definition registered (a : Z) (e : anx_mem_entry) (M : mstate) : bool :=
  bool_decide (anx_memplane_lookup (me_oid e) M = Some a).

Definition tier_ok (tier : Z) : bool := (0 <=? tier) && (tier <? ANX_MEM_TIER_COUNT).

Section operations.
(** The running cell. *)
Context (current : option anx_uuid).

(** The cell to charge, with a reference to it, if it has a limit. *)
Definition admission_cell (st : cell_store) : option anx_uuid * cell_store :=
  match current with
  | None => (None, st)
  | Some c =>
      match anx_cell_store_lookup st c with
      | (None, st) => (None, st)
      | (Some owner, st) =>
          if max_memory_admission_bytes (constraints owner) =? 0 then (None, anx_cell_store_release st c) else (Some c, st)
      end
  end.

(** [if (owner) anx_cell_store_release(owner)]. *)
Definition drop_owner (owner : option anx_uuid) (M : mstate) : mstate :=
  match owner with None => M | Some c => set_cells (anx_cell_store_release (cells (kern M)) c) M end.

(** The charge to the owner; [false] if it does not fit. *)
Definition charge_owner (owner : option anx_uuid) (bytes : Z) (st : cell_store) : outcome (bool * cell_store) :=
  match owner with
  | None => Ret (true, st)
  | Some c =>
      match st !! c with
      | None => Panic
      | Some cell =>
          let limit := max_memory_admission_bytes (constraints cell) in
          when (memory_admission_count cell =? MAX32) || (memory_admitted_bytes cell >? limit)
               || (bytes >? limit - memory_admitted_bytes cell)
            ret Ret (false, st) ;;
          Ret (true, <[c := cell <| memory_admitted_bytes ::= λ n, u64 (n + bytes) |>
                                 <| memory_admission_count ::= λ n, u32 (n + 1) |>]> st)
      end
  end.

Definition new_entry (now : Z) (oid : anx_uuid) (profile : anx_admission_profile) (bytes : Z) (owner : option anx_uuid) : anx_mem_entry :=
  MemEntry oid (profile_to_tiers profile) profile ANX_MEMVAL_UNVALIDATED (profile_to_freshness profile) 50 0 0 0 now 0 0
    (RetentionHint 0 0) 0 bytes owner.

(** [addr] is the address of the new entry; the result has [*out]. *)
Definition anx_memplane_admit (now addr : Z) (oidp : option anx_uuid) (profile : Z) (M : mstate)
    : outcome (Z * option Z * mstate) :=
  match oidp, profile_of_int profile with
  | Some oid, Some profile =>
      when bool_decide (is_Some (anx_memplane_lookup oid M)) ret Ret (ANX_EEXIST, None, M) ;;
      let '(r, object, W) := anx_so_open current (Some oid) ANX_OPEN_READ (Some (Handle None 0 0)) (objs (kern M)) in
      let M := set_objs W M in
      when negb (r =? ANX_OK) ret Ret (r, None, M) ;;
      match (object ≫= h_obj) ≫= (so_heap W !!.) with
      | None => Panic
      | Some obj =>
          let bytes := so_payload_size obj in
          let '(owner, st) := admission_cell (cells (kern M)) in
          let M := set_cells st M in
          let closed := set_objs (anx_so_close object (objs (kern M))).2 M in
          when bool_decide (is_Some owner) && negb (so_state obj =? ANX_OBJ_SEALED)
            ret Ret (ANX_EPERM, None, drop_owner owner closed) ;;
          let '(ok, W) := so_alloc (objs (kern closed)) in
          let M := set_objs W closed in
          when negb ok ret Ret (ANX_ENOMEM, None, drop_owner owner M) ;;
          let! (fits, st) := charge_owner owner bytes (cells (kern M)) in
          when negb fits ret Ret (ANX_ENOMEM, None, drop_owner owner M) ;;
          Ret (ANX_OK, Some addr,
               set_cells st M <| plane ::= λ P, P <| mem_table ::= cons (addr, new_entry now oid profile bytes owner) |> |>)
      end
  | _, _ => Ret (ANX_EINVAL, None, M)
  end.

(** The controller operations open with these checks: no cell is running, the
    entry is in the table, and the value passed is in range. *)
Definition controller (entryp : option Z) (arg_ok : bool) (M : mstate) (k : Z → anx_mem_entry → outcome (Z * mstate)) : outcome (Z * mstate) :=
  when bool_decide (is_Some current) ret Ret (ANX_EPERM, M) ;;
  match entryp with
  | None => Ret (ANX_EINVAL, M)
  | Some a =>
      match entry_at a M with
      | None => Panic
      | Some e => when negb (registered a e M) || negb arg_ok ret Ret (ANX_EINVAL, M) ;; k a e
      end
  end.

Definition anx_memplane_promote (entryp : option Z) (target_tier : Z) (M : mstate) : outcome (Z * mstate) :=
  controller entryp (tier_ok target_tier) M (λ a e,
    when target_tier =? ANX_MEM_L5 ret Ret (ANX_EPERM, M) ;;
    when (target_tier =? ANX_MEM_L4) && negb (bool_decide (me_validation e = ANX_MEMVAL_PROVISIONAL))
         && negb (bool_decide (me_validation e = ANX_MEMVAL_VALIDATED))
      ret Ret (ANX_EPERM, M) ;;
    Ret (ANX_OK, upd_entry a (λ e, e <| tier_mask ::= λ m, Z.lor m (ANX_TIER_BIT target_tier) |>) M)).

(** [mask &= ~bits]. *)
Definition clear (bits mask : Z) : Z := Z.ldiff mask bits.

Definition anx_memplane_demote (entryp : option Z) (tier : Z) (M : mstate) : outcome (Z * mstate) :=
  controller entryp (tier_ok tier) M (λ a e,
    when anx_mem_in_tier e tier && anx_wf_cache_needed (wf_table M) (me_oid e) ret Ret (ANX_EBUSY, M) ;;
    when negb (Z.land (protected_tiers e) (ANX_TIER_BIT tier) =? 0) ret Ret (ANX_EBUSY, M) ;;
    Ret (ANX_OK, upd_entry a (λ e, e <| tier_mask ::= clear (ANX_TIER_BIT tier) |>) M)).

Definition anx_memplane_set_validation (now : Z) (entryp : option Z) (state : Z) (M : mstate) : outcome (Z * mstate) :=
  match memval_of_int state with
  | None => Ret (if bool_decide (is_Some current) then ANX_EPERM else ANX_EINVAL, M)
  | Some v =>
      controller entryp true M (λ a e,
        let seq := validation_sequence (plane M) in
        when seq =? MAX64 ret Ret (ANX_EFULL, M) ;;
        Ret (ANX_OK, upd_entry a (λ e, e <| validation_generation := seq + 1 |> <| me_validation := v |> <| last_validated_at := now |>)
                       (M <| plane ::= λ P, P <| validation_sequence := seq + 1 |> |>)))
  end.

(** The operations that take any entry. *)
Definition on_entry (entryp : option Z) (f : anx_mem_entry → anx_mem_entry) (M : mstate) : outcome (Z * mstate) :=
  match entryp with
  | None => Ret (ANX_EINVAL, M)
  | Some a => match entry_at a M with None => Panic | Some _ => Ret (ANX_OK, upd_entry a f M) end
  end.

Definition contradict (e : anx_mem_entry) : anx_mem_entry :=
  let e := e <| contradiction_count ::= λ n, u32 (n + 1) |> in
  if (2 <=? contradiction_count e) && negb (bool_decide (me_validation e = ANX_MEMVAL_QUARANTINED))
  then e <| me_validation := ANX_MEMVAL_CONTESTED |> else e.

Definition anx_memplane_add_contradiction (entryp : option Z) (M : mstate) : outcome (Z * mstate) := on_entry entryp contradict M.

(** Returns nothing. *)
Definition anx_memplane_record_access (now : Z) (entryp : option Z) (M : mstate) : outcome (Z * mstate) :=
  on_entry entryp (λ e, e <| access_count ::= λ n, u32 (n + 1) |> <| last_accessed_at := now |>
                          <| decay_score ::= λ d, if 10 <? d then d - 10 else 0 |>) M.

Definition REDERIVED : Z := Z.lor (Z.lor (ANX_TIER_BIT ANX_MEM_L0) (ANX_TIER_BIT ANX_MEM_L1)) (ANX_TIER_BIT ANX_MEM_L3).

(** The tiers a mode takes the entry out of. *)
Definition removed_tiers (mode : anx_forget_mode) (mask : Z) : Z :=
  match mode with
  | ANX_FORGET_ARCHIVE => clear (ANX_TIER_BIT ANX_MEM_L2) mask
  | ANX_FORGET_REDERIVE => Z.land mask REDERIVED
  | _ => mask
  end.

(** Whether the running cell may not forget the entry. *)
Definition forget_denied (mode : anx_forget_mode) (e : anx_mem_entry) (st : cell_store) : outcome bool :=
  match current with
  | None => Ret false
  | Some caller =>
      when negb (bool_decide (mode = ANX_FORGET_HARD_DELETE)) ret Ret true ;;
      match admission_owner e with
      | None => Ret true
      | Some c => match st !! c with
                  | None => Panic
                  | Some owner => Ret (negb (anx_uuid_compare caller (cid owner) =? 0))
                  end
      end
  end.

Definition unlink (a : Z) (M : mstate) : mstate :=
  M <| plane ::= λ P, P <| mem_table ::= List.filter (λ x, negb (fst x =? a)) |> |>.

Definition hard_delete (a : Z) (e : anx_mem_entry) (M : mstate) : outcome (Z * mstate) :=
  match admission_owner e with
  | None => Ret (ANX_OK, unlink a M)
  | Some c =>
      match cells (kern M) !! c with
      | None => Panic
      | Some owner =>
          when (memory_admission_count owner =? 0) || (memory_admitted_bytes owner <? admitted_bytes e) ret Ret (ANX_EINVAL, M) ;;
          let owner := owner <| memory_admitted_bytes ::= λ n, n - admitted_bytes e |>
                             <| memory_admission_count ::= λ n, n - 1 |> in
          Ret (ANX_OK, unlink a (set_cells (anx_cell_store_release (<[c := owner]> (cells (kern M))) c) M))
      end
  end.

Definition anx_memplane_forget (entryp : option Z) (mode : Z) (M : mstate) : outcome (Z * mstate) :=
  match entryp with
  | None => Ret (ANX_EINVAL, M)
  | Some a =>
      match entry_at a M with
      | None => Panic
      | Some e =>
          when negb (registered a e M) ret Ret (ANX_EINVAL, M) ;;
          match forget_of_int mode with
          | None => Ret (ANX_EINVAL, M)
          | Some mode =>
              let! denied := forget_denied mode e (cells (kern M)) in
              when denied ret Ret (ANX_EPERM, M) ;;
              let removed := removed_tiers mode (tier_mask e) in
              when negb (Z.land (protected_tiers e) removed =? 0) ret Ret (ANX_EBUSY, M) ;;
              when (negb (removed =? 0) || bool_decide (mode = ANX_FORGET_HARD_DELETE)) && anx_wf_cache_needed (wf_table M) (me_oid e)
                ret Ret (ANX_EBUSY, M) ;;
              match mode with
              | ANX_FORGET_HARD_DELETE => hard_delete a e M
              | ANX_FORGET_TOMBSTONE =>
                  Ret (ANX_OK, upd_entry a (λ e, e <| tier_mask := 0 |> <| me_validation := ANX_MEMVAL_SUPERSEDED |>) M)
              | ANX_FORGET_ARCHIVE =>
                  Ret (ANX_OK, upd_entry a (λ e, e <| tier_mask := ANX_TIER_BIT ANX_MEM_L2 |> <| me_freshness := ANX_FRESH_ARCHIVAL |>) M)
              | ANX_FORGET_REDERIVE => Ret (ANX_OK, upd_entry a (λ e, e <| tier_mask ::= clear REDERIVED |>) M)
              end
          end
      end
  end.

(** *** Retention, [retention.c] *)

Definition ANX_ACCESS_WRITE_META : Z := 8.

Definition hint_ok (hint : anx_mem_retention_hint) : bool :=
  negb ((hint_priority hint >? ANX_MEM_RETENTION_PRIORITY_MAX) || (hint_sweeps hint >? ANX_MEM_RETENTION_SWEEPS_MAX)
        || ((hint_sweeps hint =? 0) && negb (hint_priority hint =? 0))).

Definition anx_memplane_hint (entryp : option Z) (hintp : option anx_mem_retention_hint) (M : mstate) : outcome (Z * mstate) :=
  match entryp with
  | None => Ret (ANX_EINVAL, M)
  | Some a =>
      match entry_at a M, hintp with
      | None, _ => Panic
      | Some e, None => Ret (ANX_EINVAL, M)
      | Some e, Some hint =>
          when negb (registered a e M) || negb (hint_ok hint) ret Ret (ANX_EINVAL, M) ;;
          match anx_objstore_lookup (me_oid e) (objs (kern M)) with
          | (None, W) => Ret (ANX_ENOENT, set_objs W M)
          | (Some o, W) =>
              match so_heap W !! o with
              | None => Panic
              | Some object =>
                  let r := if negb (so_state object =? ANX_OBJ_ACTIVE) && negb (so_state object =? ANX_OBJ_SEALED) then ANX_EINVAL
                           else anx_access_evaluate (Some (so_access_policy object)) current ANX_ACCESS_WRITE_META in
                  let M := set_objs (anx_objstore_release o W) M in
                  when negb (r =? ANX_OK) ret Ret (r, M) ;;
                  Ret (ANX_OK, upd_entry a (λ e, e <| me_retention := hint |>) M)
              end
          end
      end
  end.

Definition anx_memplane_protect (entryp : option Z) (tiers : Z) (M : mstate) : outcome (Z * mstate) :=
  controller entryp (clear (ANX_TIER_BIT ANX_MEM_TIER_COUNT - 1) tiers =? 0) M (λ a e,
    when negb (clear (tier_mask e) tiers =? 0) ret Ret (ANX_EINVAL, M) ;;
    Ret (ANX_OK, upd_entry a (λ e, e <| protected_tiers := tiers mod 256 |>) M)).

(** The candidates' entries; [inl] is the error. *)
Fixpoint evict_pool (seen candidates : list anx_uuid) (M : mstate) : Z + list Z :=
  match candidates with
  | [] => inr []
  | oid :: candidates =>
      when existsb (uuid_eqb oid) seen ret inl ANX_EINVAL ;;
      match anx_memplane_lookup oid M with
      | None => inl ANX_ENOENT
      | Some a => match evict_pool (seen ++ [oid]) candidates M with inl r => inl r | inr l => inr (a :: l) end
      end
  end.

Definition evict_score (e : anx_mem_entry) : Z :=
  let decay := if decay_score e >? 1000 then 1000 else decay_score e in
  let priority := if hint_sweeps (me_retention e) =? 0 then 0 else hint_priority (me_retention e) in
  let priority := if priority >? ANX_MEM_RETENTION_PRIORITY_MAX then ANX_MEM_RETENTION_PRIORITY_MAX else priority in
  decay - priority * 10.

Definition evictable (tier : Z) (e : anx_mem_entry) (M : mstate) : bool :=
  negb (negb (anx_mem_in_tier e tier) || negb (Z.land (protected_tiers e) (ANX_TIER_BIT tier) =? 0)
        || anx_wf_cache_needed (wf_table M) (me_oid e)).

(** One turn of the selection loop; the victim so far and its score. *)
Definition evict_pick (tier : Z) (M : mstate) (best : option (Z * anx_uuid * Z)) (a : Z) : option (Z * anx_uuid * Z) :=
  match entry_at a M with
  | None => best
  | Some e =>
      when negb (evictable tier e M) ret best ;;
      let score := evict_score e in
      match best with
      | None => Some (a, me_oid e, score)
      | Some (_, oid, best_score) =>
          if (score >? best_score) || ((score =? best_score) && (anx_uuid_compare (me_oid e) oid <? 0))
          then Some (a, me_oid e, score) else best
      end
  end.

(** The result has [*victim_out]. *)
Definition anx_memplane_evict (candidates : option (list anx_uuid)) (count tier : Z) (out : bool) (M : mstate)
    : outcome (Z * option anx_uuid * mstate) :=
  when bool_decide (is_Some current) ret Ret (ANX_EPERM, None, M) ;;
  match candidates with
  | None => Ret (ANX_EINVAL, None, M)
  | Some candidates =>
      when negb out || (count =? 0) || (count >? ANX_MEM_EVICTION_CANDIDATES_MAX)
           || (negb (tier =? ANX_MEM_L0) && negb (tier =? ANX_MEM_L1) && negb (tier =? ANX_MEM_L3))
        ret Ret (ANX_EINVAL, None, M) ;;
      match evict_pool [] (firstn (Z.to_nat count) candidates) M with
      | inl r => Ret (r, None, M)
      | inr pool =>
          match foldl (evict_pick tier M) None pool with
          | None => Ret (ANX_ENOENT, None, M)
          | Some (victim, oid, _) =>
              let! (r, M) := anx_memplane_demote (Some victim) tier M in
              Ret (r, if r =? ANX_OK then Some oid else None, M)
          end
      end
  end.
End operations.

(** ** Decay, [decay.c] *)

Definition decay_rate (fc : anx_freshness_class) : Z :=
  match fc with
  | ANX_FRESH_VOLATILE => 50
  | ANX_FRESH_SHORT_HORIZON => 20
  | ANX_FRESH_MEDIUM_HORIZON => 10
  | ANX_FRESH_LONG_HORIZON => 5
  | ANX_FRESH_ARCHIVAL => 1
  end.

Definition DECAY_STALE_THRESHOLD : Z := 500.

Definition decay (e : anx_mem_entry) : anx_mem_entry :=
  let rate := decay_rate (me_freshness e) in
  let e := e <| decay_score ::= λ d, if 1000 - rate <=? d then 1000 else d + rate |> in
  let e := if hint_sweeps (me_retention e) =? 0 then e
           else e <| me_retention ::= λ h, RetentionHint (if hint_sweeps h - 1 =? 0 then 0 else hint_priority h) (hint_sweeps h - 1) |> in
  if (DECAY_STALE_THRESHOLD <=? decay_score e) && bool_decide (me_validation e = ANX_MEMVAL_VALIDATED)
  then e <| me_validation := ANX_MEMVAL_STALE |> else e.

Definition anx_memplane_decay_entry (entryp : option Z) (M : mstate) : outcome (Z * mstate) := on_entry entryp decay M.

(** The walk over all buckets. *)
Definition anx_memplane_decay_sweep (M : mstate) : Z * mstate :=
  (ANX_OK, foldl (λ M x, upd_entry (fst x) decay M) M (entries_of M)).
