(* ===== verification/MemPlaneProofs.v ===== *)
(** * What can happen to the memory plane

    Every call of [MemPlane.v], by any cell or by the controller, with any
    arguments, acts on the table as a sequence of the steps of [mchange]; so do
    the creation and destruction of cells and every operation on state objects.
    The invariant [minv] is preserved by each step. *)

From S2P Require Import Prelude Uuid Cell Sched CellStore EffectFence Meta Review StateObject Stage ObjectProofs Objects MemPlane.

(** ** Accounts *)

(** Id, bytes, number of admissions and limit of a cell. *)
Definition account (cell : anx_cell) : anx_uuid * Z * Z * Z :=
  (cid cell, memory_admitted_bytes cell, memory_admission_count cell, max_memory_admission_bytes (constraints cell)).

Definition accounts (st : cell_store) (c : anx_uuid) : option (anx_uuid * Z * Z * Z) := account <$> st !! c.

Definition same_accounts (st st' : cell_store) : Prop := ∀ c, accounts st' c = accounts st c.

Lemma accounts_insert st c cell : accounts (<[c := cell]> st) c = Some (account cell).
Proof. unfold accounts. by rewrite lookup_insert_eq. Qed.

Lemma accounts_insert_ne st c d cell : c ≠ d → accounts (<[c := cell]> st) d = accounts st d.
Proof. intros. unfold accounts. by rewrite lookup_insert_ne. Qed.

Lemma same_accounts_insert st c cell cell' : st !! c = Some cell → account cell' = account cell → same_accounts st (<[c := cell']> st).
Proof.
  intros Hc Ha d. destruct (decide (c = d)) as [->|Hne]; [|by apply accounts_insert_ne].
  rewrite accounts_insert. unfold accounts. by rewrite Hc, Ha.
Qed.

Lemma lookup_accounts st c : same_accounts st (anx_cell_store_lookup st c).2.
Proof. unfold anx_cell_store_lookup. destruct (st !! c) as [cell|] eqn:E; [|done]. by apply (same_accounts_insert _ _ cell). Qed.

Lemma release_accounts st c : same_accounts st (anx_cell_store_release st c).
Proof.
  unfold anx_cell_store_release. destruct (st !! c) as [cell|] eqn:E; [|done].
  destruct (0 <? refcount cell); [|done]. by apply (same_accounts_insert _ _ cell).
Qed.

Lemma same_accounts_trans st1 st2 st3 : same_accounts st1 st2 → same_accounts st2 st3 → same_accounts st1 st3.
Proof. intros H1 H2 c. by rewrite H2, H1. Qed.

(** Creation and destruction open and close empty accounts. *)
Definition opens_closes (st st' : cell_store) : Prop :=
  ∀ c, accounts st' c = accounts st c ∨ (accounts st c = None ∧ accounts st' c = Some (c, 0, 0, 0)) ∨
       (∃ i b l, accounts st c = Some (i, b, 0, l) ∧ accounts st' c = None).

Lemma create_accounts alloc fresh now st type it : st !! fresh = None → opens_closes st (anx_cell_create alloc fresh now st type it).2.
Proof.
  intros Hf c. unfold anx_cell_create. destruct it as [it|]; [|by left]. destruct (cell_type_of_int type); [|by left].
  destruct alloc; [|by left]. cbn [negb snd]. destruct (decide (fresh = c)) as [->|Hne].
  - right; left. rewrite accounts_insert. split; [unfold accounts; by rewrite Hf|done].
  - left. by apply accounts_insert_ne.
Qed.

Lemma destroy_accounts st s p : opens_closes st (anx_cell_destroy st s p).1.2.
Proof.
  unfold anx_cell_destroy. destruct p as [p|]; [|by left]. cbn [mbind option_bind]. destruct (st !! p) as [cell|] eqn:Hp; [|by left].
  destruct (_ || _) eqn:G; [by left|]. cbn [fst snd].
  match goal with |- opens_closes _ (delete _ ?x) => set (st1 := x) end.
  assert (same_accounts st st1) as H1.
  { subst st1. destruct (anx_uuid_is_nil (parent_cid cell)); [done|]. pose proof (lookup_accounts st (parent_cid cell)) as Hl.
    destruct (anx_cell_store_lookup st (parent_cid cell)) as [[x|] st2]; cbn in Hl; [|done].
    eapply same_accounts_trans; [exact Hl|]. eapply same_accounts_trans; [|apply release_accounts].
    intros c. unfold accounts. destruct (decide (parent_cid cell = c)) as [<-|Hne]; [|by rewrite lookup_alter_ne].
    rewrite lookup_alter_eq. by destruct (st2 !! parent_cid cell). }
  intros c. destruct (decide (p = c)) as [<-|Hne].
  - right; right. exists (cid cell), (memory_admitted_bytes cell), (max_memory_admission_bytes (constraints cell)).
    unfold accounts. rewrite lookup_delete_eq, Hp. split; [|done]. cbn. unfold account.
    assert (memory_admission_count cell = 0) as -> by (to_prop; lia). done.
  - left. unfold accounts. rewrite lookup_delete_ne by done. apply H1.
Qed.

(** ** The table *)

Definition addresses (M : mstate) : list Z := fst <$> entries_of M.

Lemma entry_at_split M a e : entry_at a M = Some e →
  ∃ l1 l2, entries_of M = l1 ++ (a, e) :: l2 ∧ a ∉ l1.*1.
Proof.
  unfold entry_at. generalize (entries_of M). intros l. induction l as [|[b x] l IH]; cbn; [done|].
  destruct (Z.eqb_spec b a) as [->|Hne]; cbn.
  - intros [= ->]. exists [], l. split; [done|]. apply not_elem_of_nil.
  - intros H. destruct (IH H) as (l1 & l2 & -> & Hn). exists ((b, x) :: l1), l2. split; [done|]. cbn. rewrite not_elem_of_cons. naive_solver.
Qed.

Lemma entry_at_elem M a e : NoDup (addresses M) → entry_at a M = Some e ↔ (a, e) ∈ entries_of M.
Proof.
  unfold entry_at, addresses. generalize (entries_of M). intros l. induction l as [|[b x] l IH]; cbn; intros Hnd.
  - split; [done|]. intros H. by apply not_elem_of_nil in H.
  - apply NoDup_cons in Hnd as [Hb Hnd]. rewrite elem_of_cons. destruct (Z.eqb_spec b a) as [->|Hne]; cbn.
    + split; [intros [= ->]; by left|]. intros [[= ->]|H]; [done|]. exfalso. apply Hb. by apply (list_elem_of_fmap_2 fst) in H.
    + rewrite <- IH by done. naive_solver.
Qed.

Lemma same_address M x y : NoDup (addresses M) → x ∈ entries_of M → y ∈ entries_of M → fst x = fst y → x = y.
Proof.
  intros Hnd. destruct x as [a e], y as [b e']. cbn. rewrite <- !entry_at_elem by done. intros H1 H2 <-. congruence.
Qed.

(** Changing the entry in place. *)
Lemma upd_split M l1 a e l2 f : entries_of M = l1 ++ (a, e) :: l2 → NoDup (addresses M) →
  entries_of (upd_entry a f M) = l1 ++ (a, f e) :: l2.
Proof.
  intros E Hnd. unfold addresses in Hnd. rewrite E in Hnd. unfold entries_of in *. cbn. rewrite E.
  rewrite fmap_app, fmap_cons in Hnd. cbn in Hnd. apply NoDup_app in Hnd as (_ & H1 & H2). apply NoDup_cons in H2 as [H2 _].
  assert (∀ l : list (Z * anx_mem_entry), a ∉ l.*1 → map (λ x, if x.1 =? a then (x.1, f x.2) else x) l = l) as Hid.
  { intros l. induction l as [|[b x] l IH]; intros Hl; [done|]. cbn in *. apply not_elem_of_cons in Hl as [Hne Hl].
    destruct (Z.eqb_spec b a); [congruence|]. by rewrite IH. }
  rewrite map_app. cbn. rewrite Z.eqb_refl, !Hid; [done|done|]. intros Ha. apply (H1 a Ha), list_elem_of_here.
Qed.

Lemma unlink_split M l1 a e l2 : entries_of M = l1 ++ (a, e) :: l2 → NoDup (addresses M) → entries_of (unlink a M) = l1 ++ l2.
Proof.
  intros E Hnd. unfold addresses in Hnd. rewrite E in Hnd. unfold entries_of in *. cbn. rewrite E.
  rewrite fmap_app, fmap_cons in Hnd. cbn in Hnd. apply NoDup_app in Hnd as (_ & H1 & H2). apply NoDup_cons in H2 as [H2 _].
  assert (∀ l : list (Z * anx_mem_entry), a ∉ l.*1 → List.filter (λ x, negb (x.1 =? a)) l = l) as Hid.
  { intros l. induction l as [|[b x] l IH]; intros Hl; [done|]. cbn in *. apply not_elem_of_cons in Hl as [Hne Hl].
    destruct (Z.eqb_spec b a); [congruence|]. cbn. by rewrite IH. }
  rewrite List.filter_app. cbn. rewrite Z.eqb_refl. cbn. rewrite !Hid; [done|done|]. intros Ha. apply (H1 a Ha), list_elem_of_here.
Qed.

Lemma lookup_None_oid oid M : anx_memplane_lookup oid M = None → oid ∉ (me_oid ∘ snd <$> entries_of M).
Proof.
  unfold anx_memplane_lookup. intros H%fmap_None. intros (x & -> & Hx)%list_elem_of_fmap.
  apply list_elem_of_In in Hx. pose proof (List.find_none _ _ H x Hx) as Hf. cbn in Hf. apply uuid_eqb_false in Hf. done.
Qed.

Lemma lookup_Some_oid oid M a : anx_memplane_lookup oid M = Some a → ∃ e, (a, e) ∈ entries_of M ∧ me_oid e = oid.
Proof.
  unfold anx_memplane_lookup. intros ([b e] & Hf & ->)%fmap_Some. apply List.find_some in Hf as [Hin Heq].
  apply uuid_eqb_true in Heq. exists e. split; [by apply list_elem_of_In|done].
Qed.

(** ** Steps *)

Definition trusted (v : anx_mem_validation_state) : Prop := v = ANX_MEMVAL_PROVISIONAL ∨ v = ANX_MEMVAL_VALIDATED.

Section steps.
Context (sha256 : list Z → list Z).

(** What a call by [current] may do to an entry, in a state where the workflow
    table is [wfs] and the last generation issued is [seq]; [seq'] is the last
    one afterwards.  [protecting]: the call may set the protection. *)
Inductive edit (protecting : bool) (current : option anx_uuid) (wfs : list anx_wf_object) (seq : Z) : Z → anx_mem_entry → anx_mem_entry → Prop :=
  | EPromote e tier : current = None → 0 ≤ tier < ANX_MEM_L5 → (tier = ANX_MEM_L4 → trusted (me_validation e)) →
      edit protecting current wfs seq seq e (e <| tier_mask ::= λ m, Z.lor m (ANX_TIER_BIT tier) |>)
  | EShrink e mask v fc : current = None → (∀ i, Z.testbit mask i = true → Z.testbit (tier_mask e) i = true ∨ i = ANX_MEM_L2) → 0 ≤ mask →
      (∀ i, Z.testbit (protected_tiers e) i = true → Z.testbit (tier_mask e) i = true → Z.testbit mask i = true) →
      (anx_wf_cache_needed wfs (me_oid e) = true → ∀ i, Z.testbit (tier_mask e) i = true → Z.testbit mask i = true) →
      (v = me_validation e ∨ v = ANX_MEMVAL_SUPERSEDED) →
      edit protecting current wfs seq seq e (e <| tier_mask := mask |> <| me_validation := v |> <| me_freshness := fc |>)
  | EValidate e v now : current = None → seq < MAX64 →
      edit protecting current wfs seq (seq + 1) e (e <| validation_generation := seq + 1 |> <| me_validation := v |> <| last_validated_at := now |>)
  | EProtect e tiers : protecting = true → current = None → 0 ≤ tiers < 64 → (∀ i, Z.testbit tiers i = true → Z.testbit (tier_mask e) i = true) →
      edit protecting current wfs seq seq e (e <| protected_tiers := tiers |>)
  | EContradict e : edit protecting current wfs seq seq e (contradict e)
  | EAccess e now n : edit protecting current wfs seq seq e (e <| access_count := n |> <| last_accessed_at := now |>
      <| decay_score ::= λ d, if 10 <? d then d - 10 else 0 |>)
  | EHint e hint : hint_ok hint = true → 0 ≤ hint_priority hint → 0 ≤ hint_sweeps hint → edit protecting current wfs seq seq e (e <| me_retention := hint |>)
  | EDecay e : edit protecting current wfs seq seq e (decay e).

(** Objects change as in [Objects.v], and new ones appear. *)
Definition objs_step (W W' : objstore) : Prop :=
  ∀ a, match so_heap W !! a with
       | Some o => ∃ o', so_heap W' !! a = Some o' ∧ rtc (change sha256 true) o o'
       | None => ∀ o', so_heap W' !! a = Some o' → newborn sha256 true o'
       end.

(** The object [oid] is sealed and has [bytes] bytes. *)
Definition sealed_as (W : objstore) (oid : anx_uuid) (bytes : Z) : Prop :=
  ∃ b o, so_heap W !! b = Some o ∧ so_oid o = oid ∧ so_state o = ANX_OBJ_SEALED ∧ so_payload_size o = bytes.

(** The account of [c] is charged [bytes]. *)
Definition charged (st st' : cell_store) (c : anx_uuid) (bytes : Z) : Prop :=
  (∀ d, d ≠ c → accounts st' d = accounts st d) ∧
  ∃ i b n l, accounts st c = Some (i, b, n, l) ∧ l ≠ 0 ∧ b + bytes ≤ l ∧ n ≠ MAX32 ∧ accounts st' c = Some (i, u64 (b + bytes), u32 (n + 1), l).

Definition refunded (st st' : cell_store) (c : anx_uuid) (bytes : Z) : Prop :=
  (∀ d, d ≠ c → accounts st' d = accounts st d) ∧
  ∃ i b n l, accounts st c = Some (i, b, n, l) ∧ accounts st' c = Some (i, b - bytes, n - 1, l).

(** One change of the table.  [dropping]: the call may take an entry out of it. *)
Inductive mchange (protecting dropping : bool) (current : option anx_uuid) (M M' : mstate) : Prop :=
  | CQuiet : plane M' = plane M → wf_table M' = wf_table M → opens_closes (cells (kern M)) (cells (kern M')) → objs_step (objs (kern M)) (objs (kern M')) →
      mchange protecting dropping current M M'
  | CEdit l1 a e e' l2 : entries_of M = l1 ++ (a, e) :: l2 → entries_of M' = l1 ++ (a, e') :: l2 →
      edit protecting current (wf_table M) (validation_sequence (plane M)) (validation_sequence (plane M')) e e' → wf_table M' = wf_table M →
      cells (kern M') = cells (kern M) → objs_step (objs (kern M)) (objs (kern M')) → mchange protecting dropping current M M'
  | CAdmit now a oid profile bytes owner : entries_of M' = (a, new_entry now oid profile bytes owner) :: entries_of M →
      validation_sequence (plane M') = validation_sequence (plane M) → wf_table M' = wf_table M →
      a ∉ addresses M → oid ∉ (me_oid ∘ snd <$> entries_of M) → objs_step (objs (kern M)) (objs (kern M')) →
      (∃ b o, so_heap (objs (kern M)) !! b = Some o ∧ so_payload_size o = bytes) →
      match owner with
      | None => same_accounts (cells (kern M)) (cells (kern M'))
      | Some c => current = Some c ∧ charged (cells (kern M)) (cells (kern M')) c bytes ∧ sealed_as (objs (kern M)) oid bytes
      end → mchange protecting dropping current M M'
  | CDrop l1 a e l2 : dropping = true → entries_of M = l1 ++ (a, e) :: l2 → entries_of M' = l1 ++ l2 →
      validation_sequence (plane M') = validation_sequence (plane M) → wf_table M' = wf_table M →
      Z.land (protected_tiers e) (tier_mask e) = 0 → anx_wf_cache_needed (wf_table M) (me_oid e) = false →
      objs_step (objs (kern M)) (objs (kern M')) →
      (∀ c, current = Some c → ∃ d cell, admission_owner e = Some d ∧ cells (kern M) !! d = Some cell ∧ cid cell = c) →
      match admission_owner e with
      | None => same_accounts (cells (kern M)) (cells (kern M'))
      | Some c => refunded (cells (kern M)) (cells (kern M')) c (admitted_bytes e)
      end → mchange protecting dropping current M M'.

(** ** The invariant *)

Record entry_ok (seq : Z) (e : anx_mem_entry) : Prop := {
  eo_mask : 0 ≤ tier_mask e < 32;
  eo_protected : ∀ i, Z.testbit (protected_tiers e) i = true → Z.testbit (tier_mask e) i = true;
  eo_protected_range : 0 ≤ protected_tiers e < 64;
  eo_decay : 0 ≤ decay_score e ≤ 1000;
  eo_hint : hint_ok (me_retention e) = true ∧ 0 ≤ hint_priority (me_retention e) ∧ 0 ≤ hint_sweeps (me_retention e);
  eo_generation : 0 ≤ validation_generation e ≤ seq;
  eo_bytes : 0 ≤ admitted_bytes e;
}.

(** What [c] is charged for an entry. *)
Definition share (c : anx_uuid) (amount : anx_mem_entry → Z) (x : Z * anx_mem_entry) : Z :=
  if bool_decide (admission_owner (snd x) = Some c) then amount (snd x) else 0.

Definition bytes_charged (c : anx_uuid) (M : mstate) : Z := sumZ (share c admitted_bytes) (entries_of M).
Definition entries_charged (c : anx_uuid) (M : mstate) : Z := sumZ (share c (λ _, 1)) (entries_of M).

(** The object of a charged entry has not grown. *)
Definition content_fixed (W : objstore) (e : anx_mem_entry) : Prop :=
  ∃ b o, so_heap W !! b = Some o ∧ so_oid o = me_oid e ∧ ANX_OBJ_SEALED ≤ so_state o ∧
    (so_state o = ANX_OBJ_SEALED → so_payload_size o = admitted_bytes e).

Record minv (M : mstate) : Prop := {
  mi_addresses : NoDup (addresses M);
  mi_oids : NoDup (me_oid ∘ snd <$> entries_of M);
  mi_sequence : 0 ≤ validation_sequence (plane M) ≤ MAX64;
  mi_entries : ∀ x, x ∈ entries_of M → entry_ok (validation_sequence (plane M)) (snd x);
  mi_generations : ∀ x y, x ∈ entries_of M → y ∈ entries_of M → validation_generation (snd x) = validation_generation (snd y) →
    validation_generation (snd x) ≠ 0 → x = y;
  mi_owners : ∀ x c, x ∈ entries_of M → admission_owner (snd x) = Some c → is_Some (cells (kern M) !! c);
  mi_accounts : ∀ c i b n l, accounts (cells (kern M)) c = Some (i, b, n, l) →
    i = c ∧ b = bytes_charged c M ∧ n = entries_charged c M ∧ b ≤ l ∧ n ≤ MAX32 ∧ is_u64 l;
  mi_objects : ∀ a o, so_heap (objs (kern M)) !! a = Some o → object_inv sha256 true o;
  mi_content : ∀ x c, x ∈ entries_of M → admission_owner (snd x) = Some c → content_fixed (objs (kern M)) (snd x);
}.

(** *** Objects *)

Lemma objs_step_refl W W' : so_heap W' = so_heap W → objs_step W W'.
Proof. intros HE a. rewrite HE. destruct (so_heap W !! a) as [o|]; [by exists o|done]. Qed.

Lemma advances_objs W W' : advances sha256 true W W' → objs_step W W'.
Proof. intros H a. specialize (H a). destruct (so_heap W !! a); [done|]. by rewrite H. Qed.

Lemma objs_step_inv W W' : objs_step W W' → (∀ a o, so_heap W !! a = Some o → object_inv sha256 true o) →
  ∀ a o, so_heap W' !! a = Some o → object_inv sha256 true o.
Proof.
  intros Hs Hi a o Ho. specialize (Hs a). specialize (Hi a). destruct (so_heap W !! a) as [o0|].
  - destruct Hs as (o' & Ho' & Hc). simplify_eq. by eapply changes_inv; [exact Hc|apply Hi].
  - eapply newborn_inv. by apply Hs.
Qed.

Lemma objs_step_fixed W W' e : objs_step W W' → (∀ a o, so_heap W !! a = Some o → object_inv sha256 true o) →
  content_fixed W e → content_fixed W' e.
Proof.
  intros Hs Hi (b & o & Ho & Hid & Hst & Hsz). pose proof (Hs b) as Hb. rewrite Ho in Hb. destruct Hb as (o' & Ho' & Hc).
  pose proof (changes_same _ _ _ _ Hc) as [Hoid _ _ _ _ Hup _]. exists b, o'. split_and!; [done|congruence|lia|]. intros Hst'.
  assert (so_state o = ANX_OBJ_SEALED) as Hso by lia. pose proof (sealed_frozen _ _ _ _ Hc (Hi _ _ Ho) Hso Hst') as Hf.
  unfold content in Hf. rewrite <- (Hsz Hso). congruence.
Qed.

Lemma object_size_nonneg o : object_inv sha256 true o → 0 ≤ so_payload_size o.
Proof. intros Hi. destruct (oi_size _ _ _ Hi eq_refl) as [Hb _]. unfold buf_ok in Hb. destruct (so_payload o); lia. Qed.

(** *** Entries *)

Lemma lor_bound m t : 0 ≤ m < 32 → 0 ≤ t < 5 → 0 ≤ Z.lor m (ANX_TIER_BIT t) < 32.
Proof.
  intros Hm Ht. assert (m = 0 ∨ 0 < m) as [->|Hp] by lia.
  - rewrite Z.lor_0_l. unfold ANX_TIER_BIT. rewrite Z.shiftl_1_l. pose proof (Z.pow_le_mono_r 2 t 4). pose proof (Z.pow_pos_nonneg 2 t). lia.
  - assert (0 ≤ Z.lor m (ANX_TIER_BIT t)) by (apply Z.lor_nonneg; split; [lia|apply Z.shiftl_nonneg; lia]). split; [done|].
    apply (Z.log2_lt_cancel). unfold ANX_TIER_BIT. rewrite Z.log2_lor by (try lia; apply Z.shiftl_nonneg; lia).
    rewrite Z.log2_shiftl by lia. change (Z.log2 32) with 5. change (Z.log2 1) with 0.
    assert (Z.log2 m < 5) by (apply Z.log2_lt_pow2; lia). lia.
Qed.

Lemma bits_bound m k : 0 ≤ m → 0 ≤ k → (∀ i, Z.testbit m i = true → i < k) → m < 2 ^ k.
Proof.
  intros Hm Hk H. destruct (Z.eq_dec m 0) as [->|]; [by apply Z.pow_pos_nonneg; lia|]. apply Z.log2_lt_pow2; [lia|].
  apply H, Z.bit_log2. lia.
Qed.

Lemma bound_bits m k i : 0 ≤ k → 0 ≤ m < 2 ^ k → Z.testbit m i = true → i < k.
Proof.
  intros Hk Hm Hi. destruct (Z.lt_ge_cases i k) as [|Hge]; [done|].
  rewrite Z.bits_above_log2 in Hi; [done|lia|]. destruct (Z.eq_dec m 0) as [->|]; [by rewrite Z.bits_0 in Hi|].
  assert (Z.log2 m < k) by (apply Z.log2_lt_pow2; lia). lia.
Qed.

Lemma decay_ok e seq : entry_ok seq e → entry_ok seq (decay e).
Proof.
  intros [Hm Hp Hpr Hd Hh Hg Hb]. unfold decay. destruct e as [oid tm pf v f cp cc lv vg la ds ac [pr sw] pt ab ow]. cbn in *.
  assert (0 ≤ (if 1000 - decay_rate f <=? ds then 1000 else ds + decay_rate f) ≤ 1000) as Hd'
    by (destruct (Z.leb_spec (1000 - decay_rate f) ds); destruct f; cbn in *; lia).
  destruct (Z.eqb_spec sw 0) as [->|Hs]; cbn.
  - destruct (_ && _); constructor; cbn; first [exact Hd'|done].
  - assert (hint_ok (RetentionHint (if sw - 1 =? 0 then 0 else pr) (sw - 1)) = true ∧ 0 ≤ (if sw - 1 =? 0 then 0 else pr) ∧ 0 ≤ sw - 1) as Hh'.
    { destruct Hh as (Hh & Hpr0 & Hsw). unfold hint_ok in *. cbn in *. unfold ANX_MEM_RETENTION_PRIORITY_MAX, ANX_MEM_RETENTION_SWEEPS_MAX in *.
      destruct (Z.eqb_spec (sw - 1) 0); cbn; lia. }
    destruct (_ && _); constructor; cbn; first [exact Hd'|exact Hh'|done].
Qed.

Lemma edit_ok protecting current wfs seq seq' e e' : edit protecting current wfs seq seq' e e' → 0 ≤ seq → entry_ok seq e → entry_ok seq' e'.
Proof.
  intros He Hseq Hok. pose proof Hok as [Hm Hp Hpr Hd Hh Hg Hb].
  destruct He as [e tier _ Ht _|e mask v fc _ Hin Hmask Hprot _ _|e v now _ Hs|e tiers _ _ Hr Hsub|e|e now n|e hint H1 H2 H3|e].
  - constructor; cbn; try done; [by apply lor_bound|]. intros i Hi. rewrite Z.lor_spec, (Hp i Hi). done.
  - constructor; cbn; try done.
    + split; [done|]. apply (bits_bound mask 5); [lia|lia|]. intros i Hi. destruct (Hin i Hi) as [Ht| ->]; [|done].
      by apply (bound_bits (tier_mask e) 5 i).
    + intros i Hi. apply Hprot; [done|]. by apply Hp.
  - constructor; cbn; try done. lia.
  - by constructor.
  - unfold contradict. destruct (_ && _); by constructor.
  - constructor; cbn; try done. destruct (Z.ltb_spec 10 (decay_score e)); lia.
  - by constructor.
  - by apply decay_ok.
Qed.

(** An edit changes neither the object of an entry nor what it is charged. *)
Lemma edit_same protecting current wfs seq seq' e e' : edit protecting current wfs seq seq' e e' →
  me_oid e' = me_oid e ∧ admission_owner e' = admission_owner e ∧ admitted_bytes e' = admitted_bytes e ∧ me_profile e' = me_profile e.
Proof.
  intros []; cbn; try done.
  - unfold contradict. by destruct (_ && _).
  - unfold decay. cbn. repeat (case_match; cbn; try done).
Qed.

(** A generation is kept, or is the next one. *)
Lemma edit_generation protecting current wfs seq seq' e e' : edit protecting current wfs seq seq' e e' →
  (seq' = seq ∧ validation_generation e' = validation_generation e) ∨ (seq' = seq + 1 ∧ seq < MAX64 ∧ validation_generation e' = seq + 1).
Proof.
  intros []; cbn; try (by left); [by right| |].
  - left. unfold contradict. by destruct (_ && _).
  - left. unfold decay. cbn. repeat (case_match; cbn; try done).
Qed.

(** *** Sums *)

Lemma share_nonneg c l : 0 ≤ sumZ (share c (λ _, 1)) l.
Proof. apply sumZ_nonneg. intros x _. unfold share. case_bool_decide; lia. Qed.

Lemma share_none c amount l : (∀ x, x ∈ l → admission_owner (snd x) ≠ Some c) → sumZ (share c amount) l = 0.
Proof.
  intros H. rewrite (sumZ_ext _ (λ _, 0)); [by induction l; [|rewrite sumZ_cons, IHl by (intros; apply H; by right)]|].
  intros x Hx. unfold share. rewrite bool_decide_eq_false_2; [done|by apply H].
Qed.

Lemma share_some c x l : x ∈ l → admission_owner (snd x) = Some c → 1 ≤ sumZ (share c (λ _, 1)) l.
Proof.
  intros Hx Ho. transitivity (share c (λ _, 1) x); [unfold share; by rewrite bool_decide_eq_true_2|].
  apply sumZ_elem; [|done]. intros y _. unfold share. case_bool_decide; lia.
Qed.

Lemma accounts_Some st c : is_Some (accounts st c) ↔ is_Some (st !! c).
Proof. unfold accounts. by rewrite fmap_is_Some. Qed.

(** *** Preservation *)

Lemma quiet_inv M M' : plane M' = plane M → opens_closes (cells (kern M)) (cells (kern M')) →
  objs_step (objs (kern M)) (objs (kern M')) → minv M → minv M'.
Proof.
  intros HP HC HO [Ha Hoid Hs He Hg Hw Hacc Hobj Hcon]. unfold addresses, entries_of, bytes_charged, entries_charged in *.
  assert (∀ x c, x ∈ mem_table (plane M) → admission_owner (snd x) = Some c → is_Some (cells (kern M') !! c)) as Hw'.
  { intros x c Hx Ho. pose proof (Hw x c Hx Ho) as Hc. rewrite <- accounts_Some in *.
    destruct (HC c) as [->|[[Hn _]|(i & b & l & Hb & _)]]; [done|by rewrite Hn in Hc; destruct Hc|].
    destruct (Hacc c i b 0 l Hb) as (_ & _ & Hz & _). unfold entries_of in *.
    pose proof (share_some c x _ Hx Ho). lia. }
  constructor; unfold addresses, entries_of, bytes_charged, entries_charged; rewrite ?HP; try done.
  - intros c i b n l Hc. destruct (HC c) as [HE|[[Hn HE]|(? & ? & ? & _ & HE)]]; [|rewrite HE in Hc; simplify_eq|by rewrite HE in Hc].
    + rewrite HE in Hc. unfold entries_of. rewrite HP. by apply Hacc.
    + assert (∀ x, x ∈ mem_table (plane M) → admission_owner (snd x) ≠ Some i) as Hno.
      { intros x Hx Ho. pose proof (Hw x i Hx Ho) as Hi. apply accounts_Some in Hi. rewrite Hn in Hi. by destruct Hi. }
      unfold entries_of. rewrite HP. rewrite !(share_none i) by done. split_and!; try done.
  - by apply (objs_step_inv _ _ HO).
  - intros x c Hx Ho. eapply objs_step_fixed; [done|done|by eapply Hcon].
Qed.

Lemma edit_inv protecting current M M' l1 a e e' l2 : entries_of M = l1 ++ (a, e) :: l2 → entries_of M' = l1 ++ (a, e') :: l2 →
  edit protecting current (wf_table M) (validation_sequence (plane M)) (validation_sequence (plane M')) e e' →
  cells (kern M') = cells (kern M) → objs_step (objs (kern M)) (objs (kern M')) → minv M → minv M'.
Proof.
  intros E E' He HC HO [Ha Hoid Hs Hen Hg Hw Hacc Hobj Hcon]. destruct (edit_same _ _ _ _ _ _ _ He) as (Hid & How & Hby & _).
  pose proof (edit_generation _ _ _ _ _ _ _ He) as Hgen.
  assert (∀ x, x ∈ entries_of M' → ∃ y, y ∈ entries_of M ∧ me_oid (snd y) = me_oid (snd x) ∧ admission_owner (snd y) = admission_owner (snd x) ∧
    admitted_bytes (snd y) = admitted_bytes (snd x) ∧ fst y = fst x ∧ (y = x ∨ (y = (a, e) ∧ x = (a, e')))) as Hback.
  { intros x Hx. rewrite E', elem_of_app, elem_of_cons in Hx. destruct Hx as [Hx|[->|Hx]].
    - exists x. split_and!; [|by try left..]. rewrite E. set_solver.
    - exists (a, e). split_and!; [rewrite E; set_solver|done..|by right].
    - exists x. split_and!; [|by try left..]. rewrite E. set_solver. }
  assert (∀ c amount, amount e' = amount e → sumZ (share c amount) (entries_of M') = sumZ (share c amount) (entries_of M)) as Hsum.
  { intros c amount Ham. rewrite E, E', !sumZ_app, !sumZ_cons. unfold share at 2 5. cbn. by rewrite How, Ham. }
  assert ((a, e) ∈ entries_of M) as Hin by (rewrite E; set_solver).
  assert (0 ≤ validation_sequence (plane M') ≤ MAX64 ∧ validation_sequence (plane M) ≤ validation_sequence (plane M')) as [Hs' Hle].
  { destruct Hgen as [[-> _]|(-> & ? & _)]; lia. }
  assert (NoDup (addresses M')) as Ha'.
  { unfold addresses in *. rewrite E', fmap_app, fmap_cons. by rewrite E, fmap_app, fmap_cons in Ha. }
  constructor; [done| |done|..].
  - rewrite E', fmap_app, fmap_cons. rewrite E, fmap_app, fmap_cons in Hoid. cbn in *. by rewrite Hid.
  - intros x Hx. destruct (Hback x Hx) as (y & Hy & _ & _ & _ & _ & [->|[-> ->]]).
    + destruct (Hen x Hy). constructor; try done. lia.
    + cbn. eapply edit_ok; [done|lia|by apply (Hen (a, e))].
  - intros x1 x2 Hx1 Hx2 Hsame Hnz.
    destruct (Hback x1 Hx1) as (y1 & Hy1 & _ & _ & _ & Hf1 & C1), (Hback x2 Hx2) as (y2 & Hy2 & _ & _ & _ & Hf2 & C2).
    pose proof (eo_generation _ _ (Hen y1 Hy1)). pose proof (eo_generation _ _ (Hen y2 Hy2)).
    apply (same_address M'); [done..|]. rewrite <- Hf1, <- Hf2. f_equal. clear Hf1 Hf2.
    destruct C1 as [->|[-> ->]], C2 as [->|[-> ->]]; cbn in *; [by apply Hg| | |done];
      (destruct Hgen as [[_ Hk]|(_ & _ & Hk)]; [|rewrite Hk in *; lia]); rewrite Hk in *; by apply Hg.
  - intros x c Hx Ho. destruct (Hback x Hx) as (y & Hy & _ & Hyo & _). rewrite HC. eapply Hw; [done|by rewrite Hyo].
  - intros c i b n l Hc. rewrite HC in Hc. unfold bytes_charged, entries_charged. rewrite !Hsum by done. by eapply Hacc.
  - by apply (objs_step_inv _ _ HO).
  - intros x c Hx Ho. destruct (Hback x Hx) as (y & Hy & Hyi & Hyo & Hyb & _).
    destruct (objs_step_fixed _ _ (snd y) HO Hobj) as (b & o & ? & ? & ? & ?); [by eapply Hcon; [done|rewrite Hyo]|].
    exists b, o. split_and!; [done|congruence|done|]. rewrite <- Hyb. done.
Qed.

Lemma admit_inv current M M' now a oid profile bytes owner :
  entries_of M' = (a, new_entry now oid profile bytes owner) :: entries_of M →
  validation_sequence (plane M') = validation_sequence (plane M) →
  a ∉ addresses M → oid ∉ (me_oid ∘ snd <$> entries_of M) → objs_step (objs (kern M)) (objs (kern M')) →
  (∃ b o, so_heap (objs (kern M)) !! b = Some o ∧ so_payload_size o = bytes) →
  match owner with
  | None => same_accounts (cells (kern M)) (cells (kern M'))
  | Some c => current = Some c ∧ charged (cells (kern M)) (cells (kern M')) c bytes ∧ sealed_as (objs (kern M)) oid bytes
  end → minv M → minv M'.
Proof.
  intros E HS Hnew Hfresh HO (b0 & o0 & Ho0 & Hsz) HC [Ha Hoid Hs Hen Hg Hw Hacc Hobj Hcon].
  pose proof (object_size_nonneg _ (Hobj _ _ Ho0)) as Hnn.
  assert (∀ c amount, sumZ (share c amount) (entries_of M') = share c amount (a, new_entry now oid profile bytes owner) + sumZ (share c amount) (entries_of M)) as Hsum.
  { intros c amount. by rewrite E. }
  constructor.
  - unfold addresses. rewrite E, fmap_cons. by constructor.
  - rewrite E, fmap_cons. by constructor.
  - by rewrite HS.
  - intros x. rewrite E, elem_of_cons, HS. intros [->|Hx]; [|by apply Hen]. cbn. constructor; cbn; try done; try lia.
    + by destruct profile; vm_compute.
    + intros i. by rewrite Z.bits_0.
  - intros x y. rewrite E, !elem_of_cons. intros [->|Hx] [->|Hy]; cbn; [done|done|congruence|by apply Hg].
  - intros x c. rewrite E, elem_of_cons. rewrite <- accounts_Some. intros [->|Hx] Ho.
    + cbn in Ho. subst owner. destruct HC as (_ & [_ (i & b & n & l & _ & _ & _ & _ & ->)] & _). done.
    + pose proof (Hw x c Hx Ho) as Hc. rewrite <- accounts_Some in Hc. destruct owner as [d|]; [|by rewrite HC].
      destruct HC as (_ & [Hne (i & b & n & l & _ & _ & _ & _ & Hd)] & _).
      destruct (decide (c = d)) as [->|]; [by rewrite Hd|by rewrite Hne].
  - intros c i b n l Hc. unfold bytes_charged, entries_charged. rewrite !Hsum. unfold share at 1 3. cbn.
    destruct owner as [d|].
    + destruct HC as (_ & [Hne (i' & b' & n' & l' & Hold & Hl0 & Hfit & Hn & Hd)] & _). destruct (decide (c = d)) as [->|Hcd].
      * rewrite Hd in Hc. simplify_eq. destruct (Hacc _ _ _ _ _ Hold) as (-> & Hb & Hn' & Hle & Hmx & Hu).
        rewrite bool_decide_eq_true_2 by done. unfold bytes_charged, entries_charged in *.
        pose proof (share_nonneg d (entries_of M)). assert (0 ≤ b').
        { rewrite Hb. apply sumZ_nonneg. intros x Hx. unfold share. case_bool_decide; [|lia]. apply (Hen x Hx). }
        rewrite u64_small, u32_small by (unfold is_u64, is_u32, MAX32 in *; lia). unfold MAX32 in *. split_and!; [done|lia..|lia|lia|done].
      * rewrite bool_decide_eq_false_2 by congruence. rewrite Hne in Hc by done. by apply Hacc.
    + rewrite HC in Hc. rewrite bool_decide_eq_false_2 by done. by apply Hacc.
  - by apply (objs_step_inv _ _ HO).
  - intros x c. rewrite E, elem_of_cons. intros [->|Hx] Ho; (eapply objs_step_fixed; [done|done|]).
    + cbn in Ho. subst owner. destruct HC as (_ & _ & b & o & Hb & Hid & Hst & Hz). exists b, o. split_and!; [done|done|lia|done].
    + by eapply Hcon.
Qed.

Lemma drop_inv M M' l1 a e l2 : entries_of M = l1 ++ (a, e) :: l2 → entries_of M' = l1 ++ l2 →
  validation_sequence (plane M') = validation_sequence (plane M) → objs_step (objs (kern M)) (objs (kern M')) →
  match admission_owner e with
  | None => same_accounts (cells (kern M)) (cells (kern M'))
  | Some c => refunded (cells (kern M)) (cells (kern M')) c (admitted_bytes e)
  end → minv M → minv M'.
Proof.
  intros E E' HS HO HC [Ha Hoid Hs Hen Hg Hw Hacc Hobj Hcon].
  assert (entries_of M' `sublist_of` entries_of M) as Hsub by (rewrite E, E'; apply sublist_app; [done|by apply sublist_cons]).
  assert (∀ x, x ∈ entries_of M' → x ∈ entries_of M) as Hin by (rewrite E, E'; set_solver).
  assert (∀ c amount, sumZ (share c amount) (entries_of M) = share c amount (a, e) + sumZ (share c amount) (entries_of M')) as Hsum.
  { intros c amount. rewrite E, E', !sumZ_app, sumZ_cons. lia. }
  assert (∀ c, is_Some (accounts (cells (kern M)) c) → is_Some (accounts (cells (kern M')) c)) as Hkeep.
  { intros c Hc. destruct (admission_owner e) as [d|]; [|by rewrite HC]. destruct HC as [Hne (i & b & n & l & _ & Hd)].
    destruct (decide (c = d)) as [->|]; [by rewrite Hd|by rewrite Hne]. }
  constructor.
  - eapply sublist_NoDup; [exact Ha|]. unfold addresses. by apply fmap_sublist.
  - eapply sublist_NoDup; [exact Hoid|]. by apply fmap_sublist.
  - by rewrite HS.
  - intros x Hx. rewrite HS. by apply Hen, Hin.
  - intros x y Hx Hy. apply Hg; by apply Hin.
  - intros x c Hx Ho. apply accounts_Some, Hkeep, accounts_Some. by eapply Hw; [apply Hin|].
  - intros c i b n l Hc. unfold bytes_charged, entries_charged. pose proof (Hsum c admitted_bytes) as H1. pose proof (Hsum c (λ _, 1)) as H2.
    unfold share at 2 in H1. unfold share at 2 in H2. cbn in H1, H2. destruct (admission_owner e) as [d|] eqn:Hd.
    + destruct HC as [Hne (i' & b' & n' & l' & Hold & Hnew)]. destruct (decide (c = d)) as [->|Hcd].
      * rewrite Hnew in Hc. simplify_eq. destruct (Hacc _ _ _ _ _ Hold) as (-> & Hb & Hn' & Hle & Hmx & Hu).
        rewrite bool_decide_eq_true_2 in H1, H2 by done. unfold bytes_charged, entries_charged in *.
        assert (0 ≤ admitted_bytes e) by (apply (Hen (a, e)); rewrite E; set_solver). split_and!; [done|lia..|done].
      * rewrite bool_decide_eq_false_2 in H1, H2 by congruence. rewrite Hne in Hc by done.
        destruct (Hacc _ _ _ _ _ Hc) as (-> & Hb & Hn' & Hle & Hmx & Hu). unfold bytes_charged, entries_charged in *. split_and!; [done|lia..|done].
    + rewrite bool_decide_eq_false_2 in H1, H2 by done. rewrite HC in Hc.
      destruct (Hacc _ _ _ _ _ Hc) as (-> & Hb & Hn' & Hle & Hmx & Hu). unfold bytes_charged, entries_charged in *. split_and!; [done|lia..|done].
  - by apply (objs_step_inv _ _ HO).
  - intros x c Hx Ho. eapply objs_step_fixed; [done|done|]. by eapply Hcon; [apply Hin|].
Qed.

Lemma mchange_inv protecting dropping current M M' : mchange protecting dropping current M M' → minv M → minv M'.
Proof.
  intros []; [by apply quiet_inv|by eapply edit_inv|by eapply admit_inv|by eapply drop_inv].
Qed.

(** ** The operations *)

Lemma objs_step_trans_adv W1 W2 W3 : advances sha256 true W1 W2 → advances sha256 true W2 W3 → objs_step W1 W3.
Proof. intros H1 H2. apply advances_objs. by eapply advances_trans. Qed.

Lemma quiet_objs_change protecting dropping current W M : advances sha256 true (objs (kern M)) W → mchange protecting dropping current M (set_objs W M).
Proof. intros H. apply CQuiet; [done|done|by left|by apply advances_objs]. Qed.

Lemma upd_change protecting dropping current M a e f : entry_at a M = Some e → NoDup (addresses M) →
  edit protecting current (wf_table M) (validation_sequence (plane M)) (validation_sequence (plane M)) e (f e) → mchange protecting dropping current M (upd_entry a f M).
Proof.
  intros He Hnd Hed. destruct (entry_at_split M a e He) as (l1 & l2 & E & _).
  eapply (CEdit _ _ _ _ _ l1 a e (f e) l2); [done|by apply upd_split|done|done|done|by apply objs_step_refl].
Qed.

Lemma controller_cases current entryp arg_ok M k r M' : controller current entryp arg_ok M k = Ret (r, M') →
  M' = M ∨ (current = None ∧ arg_ok = true ∧ ∃ a e, entryp = Some a ∧ entry_at a M = Some e ∧ k a e = Ret (r, M')).
Proof.
  unfold controller. destruct current; cbn; [intros [= _ <-]; by left|]. destruct entryp as [a|]; [|intros [= _ <-]; by left].
  destruct (entry_at a M) as [e|] eqn:He; [|done]. destruct (_ || _) eqn:G; [intros [= _ <-]; by left|].
  intros Hk. right. apply orb_false_elim in G as [_ G%negb_false_iff]. split; [done|]. split; [done|]. by exists a, e.
Qed.

Lemma on_entry_change protecting dropping current entryp f M r M' : on_entry entryp f M = Ret (r, M') → NoDup (addresses M) →
  (∀ e, edit protecting current (wf_table M) (validation_sequence (plane M)) (validation_sequence (plane M)) e (f e)) → rtc (mchange protecting dropping current) M M'.
Proof.
  unfold on_entry. destruct entryp as [a|]; [|by intros [= _ <-]]. destruct (entry_at a M) as [e|] eqn:He; [|done].
  intros [= _ <-] Hnd Hf. apply rtc_once. by eapply upd_change.
Qed.

Lemma tier_ok_range t : tier_ok t = true → 0 ≤ t < 6.
Proof. unfold tier_ok, ANX_MEM_TIER_COUNT. lia. Qed.

Lemma promote_change protecting dropping current entryp t M r M' : anx_memplane_promote current entryp t M = Ret (r, M') → NoDup (addresses M) → rtc (mchange protecting dropping current) M M'.
Proof.
  intros [->|(Hc & Ht%tier_ok_range & a & e & _ & He & Hk)]%controller_cases Hnd; [done|].
  destruct (Z.eqb_spec t ANX_MEM_L5) as [|H5]; [by simplify_eq|].
  destruct ((t =? ANX_MEM_L4) && _ && _) eqn:H4; [by simplify_eq|]. injection Hk as _ <-. apply rtc_once.
  eapply upd_change; [done|done|]. apply EPromote; [done|unfold ANX_MEM_L5 in *; lia|]. intros ->. unfold trusted.
  rewrite Z.eqb_refl in H4. cbn in H4. repeat case_bool_decide; auto; done.
Qed.

Lemma testbit_tier t i : 0 ≤ t → Z.testbit (ANX_TIER_BIT t) i = bool_decide (i = t).
Proof.
  intros Ht. unfold ANX_TIER_BIT. rewrite Z.shiftl_1_l. case_bool_decide as Hi; [subst; by apply Z.pow2_bits_true|].
  by apply Z.pow2_bits_false.
Qed.

Lemma land_zero_bits a b : Z.land a b = 0 ↔ ∀ i, Z.testbit a i = true → Z.testbit b i = false.
Proof.
  split.
  - intros H i Hi. pose proof (f_equal (λ z, Z.testbit z i) H) as Hb. cbn in Hb. rewrite Z.land_spec, Z.bits_0, Hi in Hb. done.
  - intros H. apply Z.bits_inj'. intros i _. rewrite Z.land_spec, Z.bits_0. destruct (Z.testbit a i) eqn:E; [by rewrite H|done].
Qed.

(** Taking an entry out of some tiers. *)
Lemma shrink_edit protecting wfs seq e bits v fc : Z.land (protected_tiers e) (Z.land (tier_mask e) bits) = 0 → 0 ≤ tier_mask e →
  (anx_wf_cache_needed wfs (me_oid e) = true → Z.land (tier_mask e) bits = 0) → (v = me_validation e ∨ v = ANX_MEMVAL_SUPERSEDED) →
  edit protecting None wfs seq seq e (e <| tier_mask := clear bits (tier_mask e) |> <| me_validation := v |> <| me_freshness := fc |>).
Proof.
  intros Hp Hm Hn Hv. apply EShrink; [done|..|done]; unfold clear.
  - intros i. rewrite Z.ldiff_spec. intros [? _]%andb_prop. by left.
  - apply Z.ldiff_nonneg. by left.
  - intros i Hi Ht. rewrite Z.ldiff_spec, Ht. pose proof (proj1 (land_zero_bits _ _) Hp i Hi) as Hb. rewrite Z.land_spec, Ht in Hb. cbn in *. by rewrite Hb.
  - intros Hw i Ht. rewrite Z.ldiff_spec, Ht. pose proof (proj1 (land_zero_bits _ _) (Hn Hw) i Ht) as Hb. by rewrite Hb.
Qed.

Lemma entry_at_in M a e : entry_at a M = Some e → (a, e) ∈ entries_of M.
Proof. intros (l1 & l2 & -> & _)%entry_at_split. set_solver. Qed.

Lemma entry_at_ok M a e : minv M → entry_at a M = Some e → entry_ok (validation_sequence (plane M)) e.
Proof. intros Hi He. apply (mi_entries _ Hi (a, e)). by apply entry_at_in. Qed.

Lemma demote_change protecting dropping current entryp t M r M' : anx_memplane_demote current entryp t M = Ret (r, M') → minv M → rtc (mchange protecting dropping current) M M'.
Proof.
  intros [->|(Hc & Ht%tier_ok_range & a & e & _ & He & Hk)]%controller_cases Hi; [done|].
  destruct (_ && _) eqn:Hw in Hk; [by simplify_eq|]. destruct (negb _) eqn:Hp in Hk; [by simplify_eq|]. injection Hk as _ <-.
  apply rtc_once. eapply upd_change; [done|apply Hi|]. subst current.
  replace (e <| tier_mask ::= clear (ANX_TIER_BIT t) |>) with
    (e <| tier_mask := clear (ANX_TIER_BIT t) (tier_mask e) |> <| me_validation := me_validation e |> <| me_freshness := me_freshness e |>)
    by (by destruct e).
  pose proof (entry_at_ok _ _ _ Hi He) as Hok. to_prop.
  apply shrink_edit; [|apply Hok| |by left].
  - apply land_zero_bits. intros i Hb. rewrite Z.land_spec. rewrite (proj1 (land_zero_bits _ _) Hp i Hb). by rewrite andb_false_r.
  - intros Hn. unfold anx_mem_in_tier in Hw. destruct Hw as [Hw|Hw]; [|congruence]. by to_prop.
Qed.

Lemma validate_change protecting dropping current now entryp v M r M' : anx_memplane_set_validation current now entryp v M = Ret (r, M') → minv M → rtc (mchange protecting dropping current) M M'.
Proof.
  unfold anx_memplane_set_validation. destruct (memval_of_int v) as [w|]; [|by intros [= _ <-]].
  intros [->|(Hc & _ & a & e & _ & He & Hk)]%controller_cases Hi; [done|].
  destruct (Z.eqb_spec (validation_sequence (plane M)) MAX64) as [|Hs]; [by simplify_eq|]. injection Hk as _ <-. apply rtc_once.
  destruct (entry_at_split M a e He) as (l1 & l2 & E & _). pose proof (mi_sequence _ Hi).
  pose proof (upd_split (M <| plane ::= λ P, P <| validation_sequence := validation_sequence (plane M) + 1 |> |>) l1 a e l2
    (λ e, e <| validation_generation := validation_sequence (plane M) + 1 |> <| me_validation := w |> <| last_validated_at := now |>)
    E (mi_addresses _ Hi)) as HU.
  eapply CEdit; [exact E|exact HU| |done|done|by apply objs_step_refl]. cbn. apply EValidate; [done|lia].
Qed.

Lemma protect_change current entryp tiers M r M' : anx_memplane_protect current entryp tiers M = Ret (r, M') → minv M → M' = M ∨ mchange true false current M M'.
Proof.
  intros [->|(Hc & Ht & a & e & _ & He & Hk)]%controller_cases Hi; [by left|]. destruct (negb _) eqn:Hsub in Hk; [simplify_eq; by left|].
  injection Hk as _ <-. right. to_prop. eapply upd_change; [done|apply Hi|].
  assert (tiers = Z.land tiers (Z.ones 6)) as Hl.
  { apply Z.bits_inj'. intros i Hi0. rewrite Z.land_spec. pose proof (f_equal (λ z, Z.testbit z i) Ht) as Hb. unfold clear in Hb. cbn beta in Hb.
    rewrite Z.ldiff_spec, Z.bits_0 in Hb. change (ANX_TIER_BIT ANX_MEM_TIER_COUNT - 1) with (Z.ones 6) in Hb.
    destruct (Z.testbit tiers i), (Z.testbit (Z.ones 6) i); done. }
  rewrite Z.land_ones in Hl by lia. pose proof (Z.mod_pos_bound tiers (2 ^ 6)). assert (0 ≤ tiers < 64) by lia.
  rewrite Z.mod_small by lia. apply EProtect; [done|done|done|]. intros i Hb. pose proof (f_equal (λ z, Z.testbit z i) Hsub) as Hx.
  unfold clear in Hx. cbn beta in Hx. rewrite Z.ldiff_spec, Z.bits_0, Hb in Hx. by destruct (Z.testbit (tier_mask e) i).
Qed.

Lemma hint_change protecting dropping current entryp hint M r M' : anx_memplane_hint current entryp hint M = Ret (r, M') → NoDup (addresses M) →
  (∀ h, hint = Some h → 0 ≤ hint_priority h ∧ 0 ≤ hint_sweeps h) → rtc (mchange protecting dropping current) M M'.
Proof.
  unfold anx_memplane_hint. destruct entryp as [a|]; [|by intros [= _ <-]]. destruct (entry_at a M) as [e|] eqn:He; [|done].
  destruct hint as [h|]; [|by intros [= _ <-]]. destruct (_ || _) eqn:G; [by intros [= _ <-]|]. intros Hk Hnd Hh.
  destruct (Hh h eq_refl) as [H1 H2]. pose proof (lookup_advances sha256 true (objs (kern M)) (me_oid e)) as Hl.
  destruct (anx_objstore_lookup (me_oid e) (objs (kern M))) as [[o|] W]; cbn in Hl.
  2:{ injection Hk as _ <-. by apply rtc_once, quiet_objs_change. }
  destruct (so_heap W !! o) as [object|]; [|done].
  assert (advances sha256 true (objs (kern M)) (anx_objstore_release o W)) as Hadv by (eapply advances_trans; [done|apply release_advances]).
  destruct (negb (_ =? ANX_OK)) eqn:Gr in Hk; injection Hk as _ <-; [by apply rtc_once, quiet_objs_change|].
  eapply rtc_l; [by apply quiet_objs_change|]. apply rtc_once. eapply upd_change; [exact He|exact Hnd|]. to_prop.
  by apply EHint.
Qed.

Lemma decay_sweep_change protecting dropping current M : minv M → rtc (mchange protecting dropping current) M (anx_memplane_decay_sweep M).2.
Proof.
  unfold anx_memplane_decay_sweep. cbn [snd]. generalize (entries_of M) at 1 as todo. intros todo. revert M.
  induction todo as [|[a e] todo IH]; intros M Hi; [done|]. cbn [foldl fst]. destruct (entry_at a M) as [e'|] eqn:He.
  - assert (mchange protecting dropping current M (upd_entry a decay M)) as Hc by (eapply upd_change; [done|apply Hi|apply EDecay]).
    eapply rtc_l; [exact Hc|]. apply IH. by eapply mchange_inv.
  - enough (upd_entry a decay M = M) as -> by (by apply IH). unfold upd_entry. destruct M as [K [t seq] wfs]. unfold entry_at, entries_of in He. cbn in *.
    do 2 f_equal. apply fmap_None in He. rewrite <- (map_id t) at 2. apply map_ext_in. intros x Hx.
    pose proof (List.find_none _ _ He x Hx) as Hn. cbn in Hn. by rewrite Hn.
Qed.

Lemma hard_delete_change protecting current a e M r M' : entry_at a M = Some e → minv M →
  Z.land (protected_tiers e) (tier_mask e) = 0 → anx_wf_cache_needed (wf_table M) (me_oid e) = false →
  (∀ c, current = Some c → ∃ d cell, admission_owner e = Some d ∧ cells (kern M) !! d = Some cell ∧ cid cell = c) →
  hard_delete a e M = Ret (r, M') → mchange protecting true current M M'.
Proof.
  intros He Hi Hp Hn Hc Hk. destruct (entry_at_split M a e He) as (l1 & l2 & E & _). unfold hard_delete in Hk.
  destruct (admission_owner e) as [c|] eqn:Ho.
  - destruct (cells (kern M) !! c) as [owner|] eqn:Hcell; [|done].
    destruct (_ || _); injection Hk as _ <-; [apply CQuiet; [done|done|by left|by apply objs_step_refl]|].
    eapply (CDrop _ _ _ _ _ l1 a e l2); [done|done|apply (unlink_split _ l1 a e l2 E), Hi|done|done|done|done|by apply objs_step_refl|rewrite Ho; done|].
    rewrite Ho. cbn. split.
    + intros d Hd. rewrite (release_accounts _ c d). by apply accounts_insert_ne.
    + rewrite (release_accounts _ c c), accounts_insert. unfold accounts. rewrite Hcell. cbn. unfold account. eauto 10.
  - injection Hk as _ <-.
    eapply (CDrop _ _ _ _ _ l1 a e l2); [done|done|apply (unlink_split _ l1 a e l2 E), Hi|done|done|done|done|by apply objs_step_refl| |by rewrite Ho].
    intros c Hcur. destruct (Hc c Hcur) as (d & _ & Hd & _). done.
Qed.

Lemma forget_change protecting current entryp mode M r M' : anx_memplane_forget current entryp mode M = Ret (r, M') → minv M → M' = M ∨ mchange protecting true current M M'.
Proof.
  unfold anx_memplane_forget. destruct entryp as [a|]; [|intros [= _ <-]; by left]. destruct (entry_at a M) as [e|] eqn:He; [|done].
  destruct (negb (registered a e M)); [intros [= _ <-]; by left|]. destruct (forget_of_int mode) as [m|]; [|intros [= _ <-]; by left].
  destruct (forget_denied current m e (cells (kern M))) as [denied| |] eqn:Hd; [|done..]. cbn [obind].
  destruct denied; [intros [= _ <-]; by left|]. destruct (negb _) eqn:Hp; [intros [= _ <-]; by left|].
  destruct (_ && _) eqn:Hn; [intros [= _ <-]; by left|]. intros Hk Hi. to_prop. pose proof (entry_at_ok _ _ _ Hi He) as Hok.
  assert (m ≠ ANX_FORGET_HARD_DELETE → current = None) as Hcur.
  { unfold forget_denied in Hd. destruct current; [|done]. intros Hm. by rewrite bool_decide_eq_false_2 in Hd. }
  assert (anx_wf_cache_needed (wf_table M) (me_oid e) = true → removed_tiers m (tier_mask e) = 0) as Hn'.
  { intros Hw. destruct Hn as [Hn|Hn]; [|congruence]. to_prop. done. }
  destruct m.
  - right. assert (anx_wf_cache_needed (wf_table M) (me_oid e) = false) as Hnw by (destruct Hn as [Hn|Hn]; [to_prop; done|done]).
    apply (hard_delete_change protecting current a e M r M'); [done|done|done|done| |done]. unfold forget_denied in Hd. intros c ->. cbn in Hd.
    destruct (admission_owner e) as [d|]; [|done]. destruct (cells (kern M) !! d) as [cell|] eqn:Hcell; [|done].
    exists d, cell. split_and!; [done|done|]. injection Hd as Hd. to_prop. symmetry. by apply anx_uuid_compare_eq.
  - rewrite Hcur by done. injection Hk as _ <-. right. eapply upd_change; [done|apply Hi|].
    assert (clear (-1) (tier_mask e) = 0) as Hz by (unfold clear; apply Z.ldiff_m1_r).
    pose proof (shrink_edit protecting (wf_table M) (validation_sequence (plane M)) e (-1) ANX_MEMVAL_SUPERSEDED (me_freshness e)) as Hs.
    rewrite Hz, !Z.land_m1_r in Hs. specialize (Hs Hp (proj1 (eo_mask _ _ Hok)) Hn' (or_intror eq_refl)). by destruct e.
  - rewrite Hcur by done. injection Hk as _ <-. right. eapply upd_change; [done|apply Hi|]. cbn [removed_tiers] in *. unfold clear in *.
    replace (e <| tier_mask := ANX_TIER_BIT ANX_MEM_L2 |> <| me_freshness := ANX_FRESH_ARCHIVAL |>) with
      (e <| tier_mask := ANX_TIER_BIT ANX_MEM_L2 |> <| me_validation := me_validation e |> <| me_freshness := ANX_FRESH_ARCHIVAL |>) by (by destruct e).
    assert (∀ i, Z.testbit (Z.ldiff (tier_mask e) (ANX_TIER_BIT ANX_MEM_L2)) i = false → Z.testbit (tier_mask e) i = true →
      Z.testbit (ANX_TIER_BIT ANX_MEM_L2) i = true) as Hkeep.
    { intros i Hx Ht. rewrite Z.ldiff_spec, Ht in Hx. by destruct (Z.testbit (ANX_TIER_BIT ANX_MEM_L2) i). }
    apply (EShrink protecting None (wf_table M) (validation_sequence (plane M)) e (ANX_TIER_BIT ANX_MEM_L2) (me_validation e) ANX_FRESH_ARCHIVAL);
      [done| |done| | |by left].
    + intros i.  rewrite testbit_tier by done. intros ?%bool_decide_eq_true. by right.
    + intros i Hb Ht. apply Hkeep; [|done]. by apply (proj1 (land_zero_bits _ _) Hp).
    + intros Hw i Ht. apply Hkeep; [|done]. by rewrite (Hn' Hw), Z.bits_0.
  - rewrite Hcur by done. injection Hk as _ <-. right. eapply upd_change; [done|apply Hi|].
    pose proof (shrink_edit protecting (wf_table M) (validation_sequence (plane M)) e REDERIVED (me_validation e) (me_freshness e)
      Hp (proj1 (eo_mask _ _ Hok)) Hn' (or_introl eq_refl)) as Hs. by destruct e.
Qed.

Lemma evict_change protecting dropping current candidates count t out M r v M' : anx_memplane_evict current candidates count t out M = Ret (r, v, M') → minv M →
  rtc (mchange protecting dropping current) M M'.
Proof.
  unfold anx_memplane_evict. destruct (bool_decide _); [by intros [= _ _ <-]|]. destruct candidates as [l|]; [|by intros [= _ _ <-]].
  destruct (_ || _); [by intros [= _ _ <-]|]. destruct (evict_pool _ _ _) as [e|pool]; [by intros [= _ _ <-]|].
  destruct (foldl _ _ _) as [[[victim oid] score]|]; [|by intros [= _ _ <-]].
  destruct (anx_memplane_demote current (Some victim) t M) as [[rc M1]| |] eqn:Hd; [|done..]. cbn. intros [= _ _ <-] Hi.
  by eapply demote_change.
Qed.

(** A successful open for reading: the object, and its state and size. *)
Lemma open_read current oid W object W' : anx_so_open current (Some oid) ANX_OPEN_READ (Some (Handle None 0 0)) W = (ANX_OK, object, W') →
  ∃ b o o', so_heap W !! b = Some o ∧ so_oid o = oid ∧ (object ≫= h_obj) = Some b ∧ so_heap W' !! b = Some o' ∧
    so_state o' = so_state o ∧ so_payload_size o' = so_payload_size o ∧ (so_state o = ANX_OBJ_ACTIVE ∨ so_state o = ANX_OBJ_SEALED).
Proof.
  unfold anx_so_open. cbn [mode_ok negb]. change (mode_ok ANX_OPEN_READ) with true. cbn [negb]. unfold anx_objstore_lookup.
  destruct (find_oid W oid) as [b|] eqn:Hf; [|discriminate]. unfold find_oid in Hf. apply List.find_some in Hf as [_ Hf]. unfold has_oid in Hf.
  destruct (so_heap W !! b) as [o|] eqn:Ho; [|done]. to_prop. apply anx_uuid_compare_eq in Hf. unfold so_update. cbn [so_heap update_field].
  intros H. exists b, o, (o <| so_refcount ::= λ n, u32 (n + 1) |>).
  cbn in H. rewrite lookup_alter_eq, Ho in H. cbn in H. destruct (negb _ && negb _) eqn:Hs; [discriminate|].
  destruct (negb (_ =? _)) eqn:Ha in H; [injection H as H; rewrite H in Ha; discriminate|]. injection H as <- <-.
  split_and!; try done; [cbn; by rewrite lookup_alter_eq, Ho|]. to_prop. destruct Hs as [Hs|Hs]; to_prop; auto.
Qed.

Lemma admission_cell_spec current st owner st' : admission_cell current st = (owner, st') → same_accounts st st' ∧
  ∀ c, owner = Some c → current = Some c ∧ ∃ cell, st' !! c = Some cell ∧ max_memory_admission_bytes (constraints cell) ≠ 0.
Proof.
  unfold admission_cell. destruct current as [c|]; [|intros [= <- <-]; done]. pose proof (lookup_accounts st c) as Hl.
  unfold anx_cell_store_lookup in *. destruct (st !! c) as [cell|] eqn:Hc; [|intros [= <- <-]; done]. cbn in Hl.
  destruct (_ =? 0) eqn:Hz; intros [= <- <-].
  - split; [|done]. eapply same_accounts_trans; [exact Hl|]. apply release_accounts.
  - split; [exact Hl|]. intros d [= <-]. split; [done|]. to_prop. eexists. by rewrite lookup_insert_eq.
Qed.

Lemma charge_spec c bytes st ok st' : charge_owner (Some c) bytes st = Ret (ok, st') →
  (∀ cell, st !! c = Some cell → max_memory_admission_bytes (constraints cell) ≠ 0) →
  if ok then charged st st' c bytes else st' = st.
Proof.
  cbn. destruct (st !! c) as [cell|] eqn:Hc; [|done]. destruct (_ || _) eqn:G; intros [= <- <-] Hz; [done|]. to_prop. split.
  - intros d Hd. by apply accounts_insert_ne.
  - rewrite accounts_insert. unfold accounts. rewrite Hc. cbn. specialize (Hz cell eq_refl).
    eexists _, _, _, _. split_and!; [done|done|lia|done|done].
Qed.

Lemma drop_owner_quiet protecting dropping current owner M : mchange protecting dropping current M (drop_owner owner M).
Proof.
  destruct owner as [c|]; cbn; apply CQuiet; try done; try (by left); try (by apply objs_step_refl).
  intros d. left. apply release_accounts.
Qed.

Lemma set_cells_quiet protecting dropping current M st : same_accounts (cells (kern M)) st → mchange protecting dropping current M (set_cells st M).
Proof. intros H. apply CQuiet; [done|done|intros d; left; apply H|by apply objs_step_refl]. Qed.

Lemma admit_change protecting dropping current now addr oidp profile M r v M' : anx_memplane_admit current now addr oidp profile M = Ret (r, v, M') →
  addr ∉ addresses M → rtc (mchange protecting dropping current) M M'.
Proof.
  unfold anx_memplane_admit. destruct oidp as [oid|]; [|by intros [= _ _ <-]]. destruct (profile_of_int profile) as [p|]; [|by intros [= _ _ <-]].
  destruct (bool_decide _) eqn:Hl; [by intros [= _ _ <-]|]. to_prop. rewrite <- eq_None_not_Some in Hl. apply lookup_None_oid in Hl.
  pose proof (open_advances sha256 true current (Some oid) ANX_OPEN_READ (Some (Handle None 0 0)) (objs (kern M))) as Hadv.
  destruct (anx_so_open current (Some oid) ANX_OPEN_READ (Some (Handle None 0 0)) (objs (kern M))) as [[rc object] W] eqn:Hop. cbn [snd] in Hadv.
  destruct (Z.eqb_spec rc ANX_OK) as [->|]; cbn [negb]; [|intros [= _ _ <-] _; by apply rtc_once, quiet_objs_change].
  destruct (open_read _ _ _ _ _ Hop) as (b & o & o' & Hb & Hid & Hobj & Hb' & Hst & Hsz & _). rewrite Hobj. cbn [mbind option_bind]. rewrite Hb'.
  destruct (admission_cell current (cells (kern (set_objs W M)))) as [owner st] eqn:Hac. apply admission_cell_spec in Hac as [Hsame Hown].
  cbn in Hsame. set (M1 := set_cells st (set_objs W M)). cbv zeta.
  set (M2 := set_objs (anx_so_close object (objs (kern M1))).2 M1).
  assert (advances sha256 true (objs (kern M)) (objs (kern M2))) as Hadv2 by (eapply advances_trans; [exact Hadv|apply close_advances]).
  assert (mchange protecting dropping current M M2) as Hq by (apply CQuiet; [done|done|intros d; left; apply Hsame|by apply advances_objs]).
  destruct (_ && _) eqn:Hperm; [intros [= _ _ <-] _; eapply rtc_l; [exact Hq|apply rtc_once, drop_owner_quiet]|].
  pose proof (alloc_advances sha256 true (objs (kern M2))) as Hal. destruct (so_alloc (objs (kern M2))) as [ok W3]. cbn [snd] in Hal.
  assert (advances sha256 true (objs (kern M)) W3) as Hadv3 by (by eapply advances_trans).
  assert (mchange protecting dropping current M (set_objs W3 M2)) as Hq3 by (apply CQuiet; [done|done|intros d; left; apply Hsame|by apply advances_objs]).
  destruct ok; cbn [negb]; [|intros [= _ _ <-] _; eapply rtc_l; [exact Hq3|apply rtc_once, drop_owner_quiet]].
  change (cells (kern (set_objs W3 M2))) with st.
  destruct (charge_owner owner (so_payload_size o') st) as [[fits st4]| |] eqn:Hch; [|done..]. cbn [obind].
  destruct fits; cbn [negb]; [|intros [= _ _ <-] _; eapply rtc_l; [exact Hq3|apply rtc_once, drop_owner_quiet]].
  intros [= _ _ <-] Hnew. apply rtc_once.
  eapply (CAdmit _ _ _ _ _ now addr oid p (so_payload_size o') owner); [done|done|done|done|done|by apply advances_objs|by exists b, o|].
  destruct owner as [c|]; cbn [kern cells set_cells].
  - destruct (Hown c eq_refl) as (Hcur & cell & Hcell & Hlim). split; [done|]. split.
    + apply charge_spec in Hch; [|intros x Hx; congruence]. destruct Hch as [Hne (i & b1 & n & l & H1 & H2 & H3 & H4 & H5)].
      split; [intros d Hd; cbn; rewrite Hne by done; apply Hsame|]. exists i, b1, n, l. by rewrite <- Hsame.
    + exists b, o. split_and!; [done|done| |done]. cbn in Hperm. to_prop. congruence.
  - injection Hch as <-. exact Hsame.
Qed.
End steps.
