(* ===== verification/Memory.v ===== *)
(** * The memory plane: its guarantees

    The properties of [core/mem]: exact charging of the cells that admit
    objects, what a running cell cannot do, what protection and workflow
    dependencies guarantee, validation generations, and eviction. *)

From S2P Require Import Prelude Uuid Cell Sched CellStore EffectFence Meta Review StateObject Stage ObjectProofs Objects MemPlane MemPlaneProofs.

Section guarantees.
Context (sha256 : list Z → list Z).
Context (uor_attach : anx_state_object → list bool → anx_meta_store * list bool) (junk : Z → Z).

Abbreviation mchange := (mchange sha256).
Abbreviation minv := (minv sha256).

(** One call of the memory plane by [current], with any arguments; the creation or
    destruction of a cell; a call of the object interface or anything else the
    kernel does without touching the accounts; a change of the workflows. *)
Inductive mstep (current : option anx_uuid) : mstate → mstate → Prop :=
  | MAdmit now addr oidp profile M r v M' : addr ∉ addresses M →
      anx_memplane_admit current now addr oidp profile M = Ret (r, v, M') → mstep current M M'
  | MPromote entryp tier M r M' : anx_memplane_promote current entryp tier M = Ret (r, M') → mstep current M M'
  | MDemote entryp tier M r M' : anx_memplane_demote current entryp tier M = Ret (r, M') → mstep current M M'
  | MValidate now entryp state M r M' : anx_memplane_set_validation current now entryp state M = Ret (r, M') → mstep current M M'
  | MContradict entryp M r M' : anx_memplane_add_contradiction entryp M = Ret (r, M') → mstep current M M'
  | MAccess now entryp M r M' : anx_memplane_record_access now entryp M = Ret (r, M') → mstep current M M'
  | MForget entryp mode M r M' : anx_memplane_forget current entryp mode M = Ret (r, M') → mstep current M M'
  | MHint entryp hint M r M' : (∀ h, hint = Some h → 0 ≤ hint_priority h ∧ 0 ≤ hint_sweeps h) →
      anx_memplane_hint current entryp hint M = Ret (r, M') → mstep current M M'
  | MProtect entryp tiers M r M' : anx_memplane_protect current entryp tiers M = Ret (r, M') → mstep current M M'
  | MEvict candidates count tier out M r v M' : anx_memplane_evict current candidates count tier out M = Ret (r, v, M') → mstep current M M'
  | MDecay entryp M r M' : anx_memplane_decay_entry entryp M = Ret (r, M') → mstep current M M'
  | MSweep M : mstep current M (anx_memplane_decay_sweep M).2
  | MCreate alloc fresh now type it M : cells (kern M) !! fresh = None →
      mstep current M (set_cells (anx_cell_create alloc fresh now (cells (kern M)) type it).2 M)
  | MDestroy s p M : mstep current M (set_cells (anx_cell_destroy (cells (kern M)) s p).1.2 M)
  | MKernel M K : kstep sha256 true uor_attach junk (kern M) K → same_accounts (cells (kern M)) (cells K) → mstep current M (M <| kern := K |>)
  | MWorkflows M wfs : mstep current M (M <| wf_table := wfs |>).

Definition mreach (M M' : mstate) : Prop := rtc (λ M M', ∃ current, mstep current M M') M M'.

(** No objects, no entries, no charges. *)
Definition mem_boot (M : mstate) : Prop :=
  so_heap (objs (kern M)) = ∅ ∧ plane M = anx_memplane_init ∧
  ∀ c cell, cells (kern M) !! c = Some cell → account cell = (c, 0, 0, max_memory_admission_bytes (constraints cell)) ∧
    is_u64 (max_memory_admission_bytes (constraints cell)).

(** Every call is a sequence of changes that neither protect nor drop an entry, or
    one change that protects or drops one, or a change of the workflows. *)
Lemma mstep_changes current M M' : mstep current M M' → minv M →
  rtc (mchange false false current) M M' ∨ (∃ p d, mchange p d current M M') ∨ ∃ wfs, M' = M <| wf_table := wfs |>.
Proof.
  intros Hs Hi. pose proof (mi_addresses _ _ Hi) as Hnd.
  destruct Hs as [? ? ? ? ? ? ? ? Ha H|? ? ? ? ? H|? ? ? ? ? H|? ? ? ? ? ? H|? ? ? ? H|? ? ? ? ? H|? ? ? ? ? H|? ? ? ? ? Hh H|? ? ? ? ? H
    |? ? ? ? ? ? ? ? H|? ? ? ? H|M|? ? ? ? ? M Hf|? ? M|M K HK HA|M wfs].
  - left. by eapply admit_change.
  - left. by eapply promote_change.
  - left. by eapply demote_change.
  - left. by eapply validate_change.
  - left. eapply on_entry_change; [done|done|]. intros e. apply EContradict.
  - left. eapply on_entry_change; [done|done|]. intros e. apply EAccess.
  - destruct (forget_change sha256 false _ _ _ _ _ _ H Hi) as [->|Hc]; [by left|right; left; eauto].
  - left. by eapply hint_change.
  - destruct (protect_change sha256 _ _ _ _ _ _ H Hi) as [->|Hc]; [by left|right; left; eauto].
  - left. by eapply evict_change.
  - left. eapply on_entry_change; [done|done|]. intros e. apply EDecay.
  - left. by apply decay_sweep_change.
  - left. apply rtc_once, CQuiet; [done|done|by apply create_accounts|by apply objs_step_refl].
  - left. apply rtc_once, CQuiet; [done|done|by apply destroy_accounts|by apply objs_step_refl].
  - left. apply rtc_once, CQuiet; [done|done|intros c; left; apply HA|]. intros a. by eapply kstep_objects.
  - right; right. by exists wfs.
Qed.

Lemma mchanges_inv protecting dropping current M M' : rtc (mchange protecting dropping current) M M' → minv M → minv M'.
Proof. induction 1 as [|M1 M2 M3 Hc _ IH]; [done|]. intros Hi. apply IH. by eapply mchange_inv. Qed.

Lemma mstep_inv current M M' : mstep current M M' → minv M → minv M'.
Proof.
  intros Hs Hi. destruct (mstep_changes _ _ _ Hs Hi) as [Hc|[(p & d & Hc)|[wfs ->]]]; [by eapply mchanges_inv|by eapply mchange_inv|].
  destruct Hi. by constructor.
Qed.

Lemma boot_inv M : mem_boot M → minv M.
Proof.
  intros (HO & HP & HC). constructor; unfold addresses, bytes_charged, entries_charged, entries_of; rewrite ?HP; cbn; try done.
  - constructor.
  - constructor.
  - intros x Hx. by apply not_elem_of_nil in Hx.
  - intros x y Hx. by apply not_elem_of_nil in Hx.
  - intros x c Hx. by apply not_elem_of_nil in Hx.
  - unfold accounts. intros c i b n l (cell & Hc & Ha)%fmap_Some. destruct (HC c cell Hc) as [E Hl]. rewrite E in Ha. simplify_eq. unfold is_u64, MAX32 in *.
    split_and!; try done; lia.
  - intros a o. by rewrite HO, lookup_empty.
  - intros x c Hx. by apply not_elem_of_nil in Hx.
Qed.

Lemma mreach_inv M0 M : mem_boot M0 → mreach M0 M → minv M.
Proof.
  intros H0 Hr. assert (minv M0) as Hi by (by apply boot_inv). clear H0. induction Hr as [|M1 M2 M3 [c Hs] _ IH]; [done|]. apply IH. by eapply mstep_inv.
Qed.

(** ** Charges *)

(** C22: Memory is charged exactly.  In every reachable state, whatever cells and the
    controller have admitted, forgotten, promoted or demoted and whatever cells
    have been created and destroyed, the account of each cell is the number and
    the total size of the entries it has admitted and not yet forgotten, never
    more than its limit; the owner of every charged entry still exists; and the
    object behind it is sealed with the size charged, or has been deleted. *)
Theorem memory_charges_exact M0 M : mem_boot M0 → mreach M0 M →
  (∀ c cell, cells (kern M) !! c = Some cell → memory_admitted_bytes cell = bytes_charged c M ∧ memory_admission_count cell = entries_charged c M ∧
     memory_admitted_bytes cell ≤ max_memory_admission_bytes (constraints cell)) ∧
  (∀ a e c, entry_at a M = Some e → admission_owner e = Some c → is_Some (cells (kern M) !! c) ∧ content_fixed (objs (kern M)) e).
Proof.
  intros H0 Hr. pose proof (mreach_inv _ _ H0 Hr) as Hi. split.
  - intros c cell Hc. destruct (mi_accounts _ _ Hi c (cid cell) (memory_admitted_bytes cell) (memory_admission_count cell)
      (max_memory_admission_bytes (constraints cell))) as (_ & H1 & H2 & H3 & _); [|done]. unfold accounts. by rewrite Hc.
  - intros a e c He Ho. apply entry_at_in in He. split; [by apply (mi_owners _ _ Hi (a, e))|by apply (mi_content _ _ Hi (a, e) c)].
Qed.

(** ** What a running cell cannot do *)

(** What doubts and ageing do to a validation state. *)
Definition trust_falls (v v' : anx_mem_validation_state) : Prop :=
  v' = v ∨ (v ≠ ANX_MEMVAL_QUARANTINED ∧ v' = ANX_MEMVAL_CONTESTED) ∨ (v = ANX_MEMVAL_VALIDATED ∧ v' = ANX_MEMVAL_STALE).

(** Placement, protection, validation generation, profile, freshness class and
    charge are the same; the state is the same, or contested after contradictions,
    or stale after having been validated. *)
Record ungoverned (e e' : anx_mem_entry) : Prop := {
  ug_oid : me_oid e' = me_oid e;
  ug_tiers : tier_mask e' = tier_mask e;
  ug_protected : protected_tiers e' = protected_tiers e;
  ug_generation : validation_generation e' = validation_generation e;
  ug_profile : me_profile e' = me_profile e;
  ug_charge : admission_owner e' = admission_owner e ∧ admitted_bytes e' = admitted_bytes e;
  ug_freshness : me_freshness e' = me_freshness e;
  ug_trust : trust_falls (me_validation e) (me_validation e');
}.

Lemma ungoverned_trans e1 e2 e3 : ungoverned e1 e2 → ungoverned e2 e3 → ungoverned e1 e3.
Proof.
  intros [? ? ? ? ? [? ?] ? Ht1] [? ? ? ? ? [? ?] ? Ht2]. constructor; try congruence; [split; congruence|]. unfold trust_falls in *.
  destruct Ht1 as [Ht1|[[? Ht1]|[? Ht1]]], Ht2 as [Ht2|[[? Ht2]|[? Ht2]]]; rewrite Ht1 in *; rewrite ?Ht2; auto; right; left; split; congruence.
Qed.

Lemma contradict_ungoverned e : ungoverned e (contradict e).
Proof.
  unfold contradict, trust_falls. destruct (_ && _) eqn:E; constructor; cbn; auto; [|by left].
  apply andb_true_iff in E as [_ E%negb_true_iff%bool_decide_eq_false]. right. by left.
Qed.

Lemma decay_ungoverned e : ungoverned e (decay e).
Proof.
  unfold decay. cbn. destruct (hint_sweeps (me_retention e) =? 0); cbn; destruct (_ && _) eqn:E; constructor; cbn; auto; try (by left);
    apply andb_true_iff in E as [_ E%bool_decide_eq_true]; right; by right.
Qed.

(** The cell [c] gave up an entry charged to it: the entry is gone, it was in no
    protected tier and needed by no workflow, and the charge is returned. *)
Record given_up (c : anx_uuid) (M M' : mstate) (a : Z) (e : anx_mem_entry) : Prop := {
  gu_gone : a ∉ addresses M';
  gu_protected : Z.land (protected_tiers e) (tier_mask e) = 0;
  gu_needed : anx_wf_cache_needed (wf_table M) (me_oid e) = false;
  gu_owner : admission_owner e = Some c;
  gu_refund : refunded (cells (kern M)) (cells (kern M')) c (admitted_bytes e);
}.

Lemma ungoverned_refl e : ungoverned e e.
Proof. constructor; auto. by left. Qed.

Lemma edit_running p c wfs seq seq' e e' : edit p (Some c) wfs seq seq' e e' → ungoverned e e'.
Proof.
  intros He. inversion He; subst; try done; try (constructor; cbn; try done; by left);
    [apply contradict_ungoverned|apply decay_ungoverned].
Qed.

(** An entry of the table after a change: the same one, edited, or dropped. *)
Lemma mchange_entry p d current M M' a e : mchange p d current M M' → minv M → (a, e) ∈ entries_of M →
  (∃ e', (a, e') ∈ entries_of M' ∧ wf_table M' = wf_table M ∧
     (e' = e ∨ edit p current (wf_table M) (validation_sequence (plane M)) (validation_sequence (plane M')) e e')) ∨
  (d = true ∧ (a ∉ addresses M') ∧ Z.land (protected_tiers e) (tier_mask e) = 0 ∧ anx_wf_cache_needed (wf_table M) (me_oid e) = false ∧
     ∀ c, current = Some c → admission_owner e = Some c ∧ refunded (cells (kern M)) (cells (kern M')) c (admitted_bytes e)).
Proof.
  intros [HP HW _ _|l1 b x x' l2 E E' He HW _ _|now b oid pr sz ow E HS HW _ _ _ _ _|l1 b x l2 Hd E E' HS HW Hp Hn _ Hc Hre] Hi Hin.
  - left. exists e. unfold entries_of in *. rewrite HP. auto.
  - left. rewrite E, elem_of_app, elem_of_cons in Hin. destruct Hin as [Hin|[[= -> ->]|Hin]].
    + exists e. split_and!; [rewrite E'; set_solver|done|by left].
    + exists x'. split_and!; [rewrite E'; set_solver|done|by right].
    + exists e. split_and!; [rewrite E'; set_solver|done|by left].
  - left. exists e. split_and!; [rewrite E; set_solver|done|by left].
  - rewrite E, elem_of_app, elem_of_cons in Hin. destruct Hin as [Hin|[[= -> ->]|Hin]].
    + left. exists e. split_and!; [rewrite E'; set_solver|done|by left].
    + right. split_and!; [done| |done|done|].
      * pose proof (mi_addresses _ _ Hi) as Hnd. unfold addresses in *. rewrite E, fmap_app, fmap_cons in Hnd. rewrite E', fmap_app. cbn in Hnd.
        apply NoDup_app in Hnd as (_ & Hd1 & Hd2). apply NoDup_cons in Hd2 as [Hd2 _]. rewrite elem_of_app. intros [Hx|Hx]; [|done].
        apply (Hd1 _ Hx). by left.
      * intros c Hcur. destruct (Hc c Hcur) as (d1 & cell & Hd1 & Hcell & Hid).
        destruct (mi_accounts _ _ Hi d1 (cid cell) (memory_admitted_bytes cell) (memory_admission_count cell)
          (max_memory_admission_bytes (constraints cell))) as (Hcid & _); [unfold accounts; by rewrite Hcell|].
        assert (d1 = c) as -> by congruence. by rewrite Hd1 in Hre |- *.
    + left. exists e. split_and!; [rewrite E'; set_solver|done|by left].
Qed.

(** What a change by a running cell leaves of an entry. *)
Lemma mchange_running p d c M M' a e : mchange p d (Some c) M M' → minv M → (a, e) ∈ entries_of M →
  (∃ e', (a, e') ∈ entries_of M' ∧ ungoverned e e') ∨ (d = true ∧ given_up c M M' a e).
Proof.
  intros Hc Hi Hin. destruct (mchange_entry _ _ _ _ _ _ _ Hc Hi Hin) as [(e1 & Hin1 & _ & He)|(Hd & Ha & Hp & Hn & Ho)]; [left|right].
  - exists e1. split; [done|]. destruct He as [->|He]; [apply ungoverned_refl|by eapply edit_running].
  - destruct (Ho c eq_refl). split; [done|]. by constructor.
Qed.

Lemma mchanges_running p c M M' a e : rtc (mchange p false (Some c)) M M' → minv M → (a, e) ∈ entries_of M →
  ∃ e', (a, e') ∈ entries_of M' ∧ ungoverned e e'.
Proof.
  intros Hr. revert e. induction Hr as [M|M1 M2 M3 Hc _ IH]; intros e Hi Hin; [exists e; split; [done|apply ungoverned_refl]|].
  pose proof (mchange_inv _ _ _ _ _ _ Hc Hi) as Hi2. destruct (mchange_running _ _ _ _ _ _ _ Hc Hi Hin) as [(e1 & Hin1 & Hu)|[? _]]; [|done].
  destruct (IH e1 Hi2 Hin1) as (e2 & Hin2 & Hu2). exists e2. split; [done|by eapply ungoverned_trans].
Qed.

(** C23: A running cell cannot govern memory.  Whatever a cell calls while it runs, each
    entry of the table, its own included, is afterwards still there with the same
    tiers, protection, validation generation, profile, freshness class and charge,
    in the same validation state or contested or (if it was validated) stale; or
    it is gone, and then it was charged to that very cell, in no protected tier
    and needed by no workflow, and exactly its charge has been returned. *)
Theorem running_cell_cannot_govern M0 M M' c a e : mem_boot M0 → mreach M0 M → mstep (Some c) M M' → entry_at a M = Some e →
  (∃ e', entry_at a M' = Some e' ∧ ungoverned e e') ∨ given_up c M M' a e.
Proof.
  intros H0 Hr Hs He%entry_at_in. pose proof (mreach_inv _ _ H0 Hr) as Hi. pose proof (mstep_inv _ _ _ Hs Hi) as Hi'.
  assert ((∃ e', (a, e') ∈ entries_of M' ∧ ungoverned e e') ∨ given_up c M M' a e) as Hx.
  { destruct (mstep_changes _ _ _ Hs Hi) as [Hc|[(p & d & Hc)|[wfs ->]]].
    - left. by eapply mchanges_running.
    - destruct (mchange_running _ _ _ _ _ _ _ Hc Hi He) as [?|[_ ?]]; [by left|by right].
    - left. exists e. split; [done|apply ungoverned_refl]. }
  destruct Hx as [(e' & Hin & Hu)|Ho]; [left|by right]. exists e'. split; [|done]. apply entry_at_elem; [apply Hi'|done].
Qed.

(** ** Protection *)

Lemma edit_keeps p current wfs seq seq' e e' : edit p current wfs seq seq' e e' → entry_ok seq e →
  (∀ i, Z.testbit (protected_tiers e) i = true → Z.testbit (tier_mask e') i = true) ∧
  (anx_wf_cache_needed wfs (me_oid e) = true → ∀ i, Z.testbit (tier_mask e) i = true → Z.testbit (tier_mask e') i = true) ∧
  (p = false → protected_tiers e' = protected_tiers e) ∧ me_oid e' = me_oid e.
Proof.
  intros He Hok. pose proof (eo_protected _ _ Hok) as Hp. destruct He as [e tier|e mask v fc _ _ _ Hprot Hn _|e v now|e tiers Hpr|e|e now n|e hint|e]; cbn; try done.
  - split_and!; try done; intros; rewrite Z.lor_spec; [by rewrite Hp|by apply orb_true_iff; left].
  - split_and!; auto.
  - split_and!; try done. by intros ->.
  - destruct (contradict_ungoverned e) as [-> -> -> _ _ _ _ _]. done.
  - destruct (decay_ungoverned e) as [-> -> -> _ _ _ _ _]. done.
Qed.

Lemma mchange_kept p d current M M' a e : mchange p d current M M' → minv M → (a, e) ∈ entries_of M →
  (∃ i, Z.testbit (protected_tiers e) i = true) ∨ anx_wf_cache_needed (wf_table M) (me_oid e) = true →
  ∃ e', (a, e') ∈ entries_of M' ∧ wf_table M' = wf_table M ∧ me_oid e' = me_oid e ∧ (p = false → protected_tiers e' = protected_tiers e) ∧
    (∀ i, Z.testbit (protected_tiers e) i = true → Z.testbit (tier_mask e') i = true) ∧
    (anx_wf_cache_needed (wf_table M) (me_oid e) = true → ∀ i, Z.testbit (tier_mask e) i = true → Z.testbit (tier_mask e') i = true).
Proof.
  intros Hc Hi Hin Hwhy. pose proof (mi_entries _ _ Hi _ Hin) as Hok. cbn in Hok.
  destruct (mchange_entry _ _ _ _ _ _ _ Hc Hi Hin) as [(e' & Hin' & HW & [->|He])|(_ & _ & Hp & Hn & _)].
  - exists e. pose proof (eo_protected _ _ Hok). by split_and!.
  - destruct (edit_keeps _ _ _ _ _ _ _ He Hok) as (H1 & H2 & H3 & H4). exists e'. by split_and!.
  - exfalso. destruct Hwhy as [[i Hb]|Hw]; [|congruence]. pose proof (proj1 (land_zero_bits _ _) Hp i Hb) as Hm.
    by rewrite (eo_protected _ _ Hok i Hb) in Hm.
Qed.

Lemma mchanges_kept d current M M' a e : rtc (mchange false d current) M M' → minv M → (a, e) ∈ entries_of M →
  (∃ i, Z.testbit (protected_tiers e) i = true) ∨ anx_wf_cache_needed (wf_table M) (me_oid e) = true →
  ∃ e', (a, e') ∈ entries_of M' ∧ (∀ i, Z.testbit (protected_tiers e) i = true → Z.testbit (tier_mask e') i = true) ∧
    (anx_wf_cache_needed (wf_table M) (me_oid e) = true → ∀ i, Z.testbit (tier_mask e) i = true → Z.testbit (tier_mask e') i = true).
Proof.
  intros Hr. revert e. induction Hr as [M|M1 M2 M3 Hc _ IH]; intros e Hi Hin Hwhy.
  - exists e. split_and!; [done|apply (mi_entries _ _ Hi _ Hin)|done].
  - pose proof (mchange_inv _ _ _ _ _ _ Hc Hi) as Hi2.
    destruct (mchange_kept _ _ _ _ _ _ _ Hc Hi Hin Hwhy) as (e1 & Hin1 & HW & Hid & Hpr & H1 & H2). specialize (Hpr eq_refl).
    destruct (IH e1 Hi2 Hin1) as (e2 & Hin2 & H3 & H4); [by rewrite Hpr, HW, Hid|]. exists e2. rewrite Hpr, HW, Hid in *. split_and!; [done|done|]. auto.
Qed.

(** C24: Protected and needed placements survive.  Whatever is called, by the
    controller or by a cell, an entry stays in the table and in each tier it was
    protected in when the call was made; and while a running or paused workflow
    needs the object, the entry stays in every tier it is in.  Eviction,
    demotion and all modes of forgetting are subject to this. *)
Theorem protected_placement_kept M0 M M' current a e i : mem_boot M0 → mreach M0 M → mstep current M M' → entry_at a M = Some e →
  Z.testbit (protected_tiers e) i = true ∨ (anx_wf_cache_needed (wf_table M) (me_oid e) = true ∧ Z.testbit (tier_mask e) i = true) →
  ∃ e', entry_at a M' = Some e' ∧ Z.testbit (tier_mask e') i = true.
Proof.
  intros H0 Hr Hs He%entry_at_in Hwhy. pose proof (mreach_inv _ _ H0 Hr) as Hi. pose proof (mstep_inv _ _ _ Hs Hi) as Hi'.
  assert ((∃ i, Z.testbit (protected_tiers e) i = true) ∨ anx_wf_cache_needed (wf_table M) (me_oid e) = true) as Hwhy' by naive_solver.
  assert (∃ e', (a, e') ∈ entries_of M' ∧ (∀ i, Z.testbit (protected_tiers e) i = true → Z.testbit (tier_mask e') i = true) ∧
    (anx_wf_cache_needed (wf_table M) (me_oid e) = true → ∀ i, Z.testbit (tier_mask e) i = true → Z.testbit (tier_mask e') i = true)) as (e' & Hin & H1 & H2).
  { destruct (mstep_changes _ _ _ Hs Hi) as [Hc|[(p & d & Hc)|[wfs ->]]].
    - by eapply mchanges_kept.
    - destruct (mchange_kept _ _ _ _ _ _ _ Hc Hi He Hwhy') as (e' & ? & _ & _ & _ & ? & ?). by exists e'.
    - exists e. split_and!; [done|apply (mi_entries _ _ Hi _ He)|done]. }
  exists e'. split; [apply entry_at_elem; [apply Hi'|done]|]. destruct Hwhy as [Hp|[Hw Ht]]; auto.
Qed.

(** ** Validation generations *)

Lemma mchange_sequence p d current M M' : mchange p d current M M' → validation_sequence (plane M) ≤ validation_sequence (plane M').
Proof.
  intros [HP _ _ _|? ? ? ? ? _ _ He _ _ _|? ? ? ? ? ? _ HS _ _ _ _ _ _|? ? ? ? _ _ _ HS _ _ _ _ _ _]; [by rewrite HP| |by rewrite HS|by rewrite HS].
  destruct (edit_generation _ _ _ _ _ _ _ He) as [[-> _]|[-> _]]; lia.
Qed.

Lemma mreach_sequence M M' : mreach M M' → minv M → validation_sequence (plane M) ≤ validation_sequence (plane M').
Proof.
  induction 1 as [|M1 M2 M3 [c Hs] _ IH]; [done|]. intros Hi. etrans; [|apply IH; by eapply mstep_inv].
  destruct (mstep_changes _ _ _ Hs Hi) as [Hc|[(p & d & Hc)|[wfs ->]]]; [|by eapply mchange_sequence|done].
  clear - Hc. induction Hc as [|? ? ? Hc _ IH]; [done|]. etrans; [by eapply mchange_sequence|done].
Qed.

(** Validation generations are never reused.  A successful
    [anx_memplane_set_validation] was called by the controller, sets the state
    asked for, and gives the entry a generation above every generation any
    entry has had in any earlier state; and in no later state do two entries
    share one. *)
Theorem validation_generation_fresh M0 M current now a v M' : mem_boot M0 → mreach M0 M →
  anx_memplane_set_validation current now (Some a) v M = Ret (ANX_OK, M') →
  current = None ∧ ∃ e', entry_at a M' = Some e' ∧ memval_of_int v = Some (me_validation e') ∧
  (∀ M1 b x, mreach M0 M1 → mreach M1 M → entry_at b M1 = Some x → validation_generation x < validation_generation e') ∧
  (∀ M2 b c x y, mreach M' M2 → entry_at b M2 = Some x → entry_at c M2 = Some y →
     validation_generation x = validation_generation y → validation_generation x ≠ 0 → b = c).
Proof.
  intros H0 Hr Hv. pose proof (mreach_inv _ _ H0 Hr) as Hi. assert (mstep current M M') as Hs by (by eapply MValidate).
  pose proof (mstep_inv _ _ _ Hs Hi) as Hi'.
  unfold anx_memplane_set_validation in Hv. destruct (memval_of_int v) as [w|] eqn:Hw; [|by destruct current].
  unfold controller in Hv. destruct current; [done|]. cbn [bool_decide is_Some_dec] in Hv. split; [done|].
  change (bool_decide (is_Some None)) with false in Hv. cbn iota in Hv.
  destruct (entry_at a M) as [e|] eqn:He; [|done]. destruct (_ || _); [done|]. destruct (_ =? _) eqn:Hmax; [done|]. injection Hv as Hv.
  destruct (entry_at_split M a e He) as (l1 & l2 & E & _).
  pose proof (upd_split (M <| plane ::= λ P, P <| validation_sequence := validation_sequence (plane M) + 1 |> |>) l1 a e l2
    (λ e, e <| validation_generation := validation_sequence (plane M) + 1 |> <| me_validation := w |> <| last_validated_at := now |>)
    E (mi_addresses _ _ Hi)) as HU.
  assert (entries_of M' = l1 ++ (a, e <| validation_generation := validation_sequence (plane M) + 1 |> <| me_validation := w |>
    <| last_validated_at := now |>) :: l2) as HE by (rewrite <- Hv; exact HU).
  eexists. split_and!.
  - apply entry_at_elem; [apply Hi'|]. rewrite HE. apply elem_of_app. right. by left.
  - done.
  - cbn. intros M1 b x Hr1 Hr2 Hx%entry_at_in. pose proof (mreach_inv _ _ H0 Hr1) as Hi1. pose proof (mreach_sequence _ _ Hr2 Hi1).
    pose proof (eo_generation _ _ (mi_entries _ _ Hi1 _ Hx)). cbn in *. lia.
  - intros M2 b c x y Hr2 Hx%entry_at_in Hy%entry_at_in Hsame Hnz.
    assert (minv M2) as Hi2 by (apply (mreach_inv M0); [done|]; unfold mreach in *; etrans; [exact Hr|]; eapply rtc_l; [by exists None|done]).
    pose proof (mi_generations _ _ Hi2 _ _ Hx Hy Hsame Hnz). congruence.
Qed.

(** ** Eviction *)

(** [e] goes before [x]. *)
Definition evicts_before (e x : anx_mem_entry) : Prop :=
  evict_score x < evict_score e ∨ (evict_score x = evict_score e ∧ anx_uuid_compare (me_oid e) (me_oid x) ≤ 0).

Lemma evicts_before_trans e1 e2 e3 : evicts_before e1 e2 → evicts_before e2 e3 → evicts_before e1 e3.
Proof.
  unfold evicts_before. assert (∀ a b, anx_uuid_compare a b ≤ 0 ↔ hi a < hi b ∨ (hi a = hi b ∧ lo a ≤ lo b)) as Hle.
  { intros a b. pose proof (anx_uuid_compare_lt a b). pose proof (anx_uuid_compare_lt b a). pose proof (anx_uuid_compare_antisym a b). lia. }
  rewrite !Hle. lia.
Qed.

(** The victim so far is the best of the entries seen. *)
Definition best_of (tier : Z) (M : mstate) (seen : list Z) (best : option (Z * anx_uuid * Z)) : Prop :=
  match best with
  | None => ∀ b x, b ∈ seen → entry_at b M = Some x → evictable tier x M = false
  | Some (a, oid, score) => ∃ e, a ∈ seen ∧ entry_at a M = Some e ∧ me_oid e = oid ∧ score = evict_score e ∧ evictable tier e M = true ∧
      ∀ b x, b ∈ seen → entry_at b M = Some x → evictable tier x M = true → evicts_before e x
  end.

Lemma evict_pick_best tier M seen best a : best_of tier M seen best → best_of tier M (seen ++ [a]) (evict_pick tier M best a).
Proof.
  intros Hb. assert (∀ b, b ∈ seen ++ [a] ↔ b ∈ seen ∨ b = a) as Hin by (intros b; rewrite elem_of_app, list_elem_of_singleton; done).
  unfold evict_pick. destruct (entry_at a M) as [e|] eqn:He.
  2:{ destruct best as [[[v oid] score]|]; cbn in *.
      - destruct Hb as (x & Hv & Hx & Hid & Hsc & Hev & Hall). exists x. split_and!; try done; [by apply Hin; left|].
        intros b y [Hbs| ->]%Hin Hy; [by eapply Hall|congruence].
      - intros b y [Hbs| ->]%Hin Hy; [by eapply Hb|congruence]. }
  destruct (evictable tier e M) eqn:Hev; cbn [negb].
  2:{ destruct best as [[[v oid] score]|]; cbn in *.
      - destruct Hb as (x & Hv & Hx & Hid & Hsc & Hvx & Hall). exists x. split_and!; try done; [by apply Hin; left|].
        intros b y [Hbs| ->]%Hin Hy; [by eapply Hall|congruence].
      - intros b y [Hbs| ->]%Hin Hy; [by eapply Hb|congruence]. }
  assert (evicts_before e e) as Hrefl by (right; rewrite (proj2 (anx_uuid_compare_eq _ _) eq_refl); done).
  destruct best as [[[v oid] score]|].
  - destruct Hb as (x & Hv & Hx & Hid & Hsc & Hvx & Hall). subst oid score. pose proof (anx_uuid_compare_antisym (me_oid e) (me_oid x)) as Has.
    destruct ((_ >? _) || _) eqn:Hcmp.
    + assert (evicts_before e x) as Hbe by (unfold evicts_before; lia). exists e. split_and!; try done; [apply Hin; by right|].
      intros b y [Hbs| ->]%Hin Hy Hye; [by eapply evicts_before_trans; [|eapply Hall]|congruence].
    + assert (evicts_before x e) as Hbe by (unfold evicts_before; lia). exists x. split_and!; try done; [apply Hin; by left|].
      intros b y [Hbs| ->]%Hin Hy Hye; [by eapply Hall|congruence].
  - exists e. split_and!; try done; [apply Hin; by right|]. intros b y [Hbs| ->]%Hin Hy Hye; [|congruence]. cbn in Hb. by rewrite (Hb b y) in Hye.
Qed.

Lemma evict_fold tier M pool : best_of tier M pool (foldl (evict_pick tier M) None pool).
Proof.
  assert (∀ todo seen best, best_of tier M seen best → best_of tier M (seen ++ todo) (foldl (evict_pick tier M) best todo)) as H.
  { induction todo as [|a todo IH]; intros seen best Hb; [by rewrite app_nil_r|]. cbn [foldl].
    replace (seen ++ a :: todo) with ((seen ++ [a]) ++ todo) by (by rewrite <- app_assoc). by apply IH, evict_pick_best. }
  apply (H pool []). intros b x Hx. by apply not_elem_of_nil in Hx.
Qed.

(** The pool is accepted when the candidates are different and all known. *)
Lemma evict_pool_spec M seen l : 
  match evict_pool seen l M with
  | inr pool => NoDup l ∧ (∀ oid, oid ∈ l → oid ∉ seen) ∧ Forall2 (λ oid a, anx_memplane_lookup oid M = Some a) l pool
  | inl r => r ≠ ANX_OK ∧ ¬ (NoDup l ∧ (∀ oid, oid ∈ l → oid ∉ seen) ∧ ∀ oid, oid ∈ l → is_Some (anx_memplane_lookup oid M))
  end.
Proof.
  revert seen. induction l as [|oid l IH]; intros seen; cbn [evict_pool].
  { split_and!; [constructor|set_solver|constructor]. }
  destruct (existsb (uuid_eqb oid) seen) eqn:Hs.
  { split; [done|]. intros (_ & Hn & _). apply existsb_exists in Hs as (x & Hx & ->%uuid_eqb_true). apply (Hn x); [by left|by apply list_elem_of_In]. }
  assert (oid ∉ seen) as Hns.
  { intros Hx%list_elem_of_In. assert (existsb (uuid_eqb oid) seen = true); [|congruence]. apply existsb_exists. exists oid. by rewrite uuid_eqb_refl. }
  destruct (anx_memplane_lookup oid M) as [a|] eqn:Hl.
  2:{ split; [done|]. intros (_ & _ & Hk). destruct (Hk oid) as [? ?]; [by left|congruence]. }
  specialize (IH (seen ++ [oid])). destruct (evict_pool (seen ++ [oid]) l M) as [r|pool].
  - destruct IH as [Hr Hn]. split; [done|]. intros (Hnd & Hd & Hk). apply NoDup_cons in Hnd as [Hoid Hnd]. apply Hn. split_and!; [done| |].
    + intros x Hx. rewrite elem_of_app, list_elem_of_singleton. intros [Hy|Hy]; [|congruence]. by apply (Hd x); [right|].
    + intros x Hx. apply Hk. by right.
  - destruct IH as (Hnd & Hd & Hf). split_and!; [|intros x [->|Hx]%elem_of_cons; [done|]; specialize (Hd x Hx); set_solver|by constructor].
    apply NoDup_cons. split; [|done]. intros Hx. specialize (Hd oid Hx). set_solver.
Qed.

Lemma lookup_registered M a e : minv M → entry_at a M = Some e → anx_memplane_lookup (me_oid e) M = Some a.
Proof.
  intros Hi He%entry_at_in. destruct (anx_memplane_lookup (me_oid e) M) as [b|] eqn:Hl.
  - apply lookup_Some_oid in Hl as (x & Hx & Hid). pose proof (mi_oids _ _ Hi) as Hnd.
    destruct (list_elem_of_lookup_1 _ _ He) as [i Hi1]. destruct (list_elem_of_lookup_1 _ _ Hx) as [j Hj].
    assert (i = j) as <-; [|congruence]. eapply (NoDup_lookup _ i j (me_oid e) Hnd); rewrite list_lookup_fmap; [by rewrite Hi1|by rewrite Hj; cbn; rewrite Hid].
  - apply lookup_None_oid in Hl. exfalso. apply Hl. by apply (list_elem_of_fmap_2 (me_oid ∘ snd)) in He.
Qed.

Lemma lookup_entry M oid a : minv M → anx_memplane_lookup oid M = Some a → ∃ e, entry_at a M = Some e ∧ me_oid e = oid.
Proof. intros Hi (e & He & Hid)%lookup_Some_oid. exists e. split; [|done]. apply entry_at_elem; [apply Hi|done]. Qed.

Lemma demote_evictable M a e tier : minv M → entry_at a M = Some e → evictable tier e M = true → 0 ≤ tier < 6 →
  anx_memplane_demote None (Some a) tier M = Ret (ANX_OK, upd_entry a (λ e, e <| tier_mask ::= clear (ANX_TIER_BIT tier) |>) M).
Proof.
  intros Hi He Hev Ht. unfold anx_memplane_demote, controller. change (bool_decide (is_Some None)) with false. cbn iota. rewrite He.
  unfold registered. rewrite (lookup_registered _ _ _ Hi He), bool_decide_eq_true_2 by done.
  replace (tier_ok tier) with true by (unfold tier_ok, ANX_MEM_TIER_COUNT; lia). cbn [negb orb].
  unfold evictable in Hev. apply negb_true_iff, orb_false_elim in Hev as [[H1 H2]%orb_false_elim H3]. rewrite H3, andb_false_r, H2. done.
Qed.

(** The candidates that may be evicted from the tier. *)
Definition evictable_candidate (tier : Z) (l : list anx_uuid) (M : mstate) (a : Z) (e : anx_mem_entry) : Prop :=
  me_oid e ∈ l ∧ entry_at a M = Some e ∧ evictable tier e M = true.

(** Eviction takes the right victim and nothing else.  For a pool of 1 to 32
    candidates and a cache tier, [anx_memplane_evict] succeeds exactly when the
    candidates are distinct, all known, and one of them is in the tier,
    unprotected and not needed by a workflow.  It then takes the one with the
    highest score (ties go to the smaller id) out of that tier and reports it;
    no other entry, tier or account changes.  Otherwise nothing changes. *)
Theorem evict_exact M0 M candidates count tier : mem_boot M0 → mreach M0 M → 0 < count ≤ ANX_MEM_EVICTION_CANDIDATES_MAX →
  tier ∈ [ANX_MEM_L0; ANX_MEM_L1; ANX_MEM_L3] →
  let l := firstn (Z.to_nat count) candidates in
  ∃ r v M', anx_memplane_evict None (Some candidates) count tier true M = Ret (r, v, M') ∧
    (r = ANX_OK ↔ NoDup l ∧ (∀ oid, oid ∈ l → is_Some (anx_memplane_lookup oid M)) ∧ ∃ a e, evictable_candidate tier l M a e) ∧
    (r ≠ ANX_OK → v = None ∧ M' = M) ∧
    (r = ANX_OK → ∃ a e, evictable_candidate tier l M a e ∧ v = Some (me_oid e) ∧
       (∀ b x, evictable_candidate tier l M b x → evicts_before e x) ∧
       M' = upd_entry a (λ e, e <| tier_mask ::= clear (ANX_TIER_BIT tier) |>) M).
Proof.
  intros H0 Hr Hc Ht l. pose proof (mreach_inv _ _ H0 Hr) as Hi. unfold anx_memplane_evict. change (bool_decide (is_Some None)) with false.
  cbn iota beta. fold l. unfold ANX_MEM_EVICTION_CANDIDATES_MAX in *. rewrite !elem_of_cons, elem_of_nil in Ht.
  assert (0 ≤ tier < 6) as Htr by (unfold ANX_MEM_L0, ANX_MEM_L1, ANX_MEM_L3 in *; lia).
  replace (_ || _) with false by (unfold ANX_MEM_L0, ANX_MEM_L1, ANX_MEM_L3 in *; lia).
  pose proof (evict_pool_spec M [] l) as Hp. destruct (evict_pool [] l M) as [r|pool].
  { destruct Hp as [Hr0 Hn]. exists r, None, M. split_and!; [done| |done|done]. split; [done|]. intros (H1 & H2 & _). exfalso. apply Hn.
    split_and!; [done|set_solver|done]. }
  destruct Hp as (Hnd & _ & Hf).
  assert (∀ oid, oid ∈ l → is_Some (anx_memplane_lookup oid M)) as Hk.
  { intros oid (i & Hx)%list_elem_of_lookup_1. destruct (Forall2_lookup_l _ _ _ _ _ Hf Hx) as (a & _ & Ha). by rewrite Ha. }
  assert (∀ b x, entry_at b M = Some x → b ∈ pool ↔ me_oid x ∈ l) as Hpool.
  { intros b x Hx. pose proof (lookup_registered _ _ _ Hi Hx) as Hl. split.
    - intros (i & Hb)%list_elem_of_lookup_1. destruct (Forall2_lookup_r _ _ _ _ _ Hf Hb) as (oid & Hoid & Ha).
      destruct (lookup_entry _ _ _ Hi Ha) as (y & Hy & <-). simplify_eq. by eapply list_elem_of_lookup_2.
    - intros (i & Hb)%list_elem_of_lookup_1. destruct (Forall2_lookup_l _ _ _ _ _ Hf Hb) as (a & Ha & Hla). simplify_eq. by eapply list_elem_of_lookup_2. }
  pose proof (evict_fold tier M pool) as Hb. destruct (foldl (evict_pick tier M) None pool) as [[[a oid] score]|]; cbn in Hb.
  - destruct Hb as (e & Hin & He & <- & _ & Hev & Hall). rewrite (demote_evictable _ _ e) by done. cbn [obind]. eexists _, _, _. split; [done|].
    assert (evictable_candidate tier l M a e) as Hcand by (split_and!; [by apply (Hpool a)|done|done]).
    split_and!; [split; [intros _; split_and!; eauto|done]|done|]. intros _. exists a, e. split_and!; [done|done| |done].
    intros b x (H1 & H2 & H3). eapply Hall; [by apply (Hpool b x)|done|done].
  - eexists _, _, _. split; [done|]. split_and!; [split; [done|]|done|done]. intros (_ & _ & a & e & H1 & H2 & H3). rewrite (Hb a e) in H3; [done|by apply (Hpool a e)|done].
Qed.

(** ** Giving up an admission *)

(** An admission can always be given back.  In every reachable state, a hard
    delete of an entry that is unprotected and not needed by a workflow, by the
    controller or by the cell charged for it, succeeds: the entry is gone, the
    owner's account drops by exactly its bytes and one admission, and no other
    entry or account changes. *)
Theorem hard_forget_refunds M0 M current a e : mem_boot M0 → mreach M0 M → entry_at a M = Some e →
  protected_tiers e = 0 → anx_wf_cache_needed (wf_table M) (me_oid e) = false → (current = None ∨ (is_Some current ∧ current = admission_owner e)) →
  ∃ M', anx_memplane_forget current (Some a) 0 M = Ret (ANX_OK, M') ∧ entry_at a M' = None ∧
    (∀ b, b ≠ a → entry_at b M' = entry_at b M) ∧
    (∀ c, accounts (cells (kern M')) c =
       (λ '(i, n, k, l), if bool_decide (admission_owner e = Some c) then (i, n - admitted_bytes e, k - 1, l) else (i, n, k, l)) <$> accounts (cells (kern M)) c).
Proof.
  intros H0 Hr He Hp Hn Hcur. pose proof (mreach_inv _ _ H0 Hr) as Hi. unfold anx_memplane_forget. rewrite He.
  unfold registered. rewrite (lookup_registered _ _ _ Hi He), bool_decide_eq_true_2 by done. cbn [negb]. change (forget_of_int 0) with (Some ANX_FORGET_HARD_DELETE). cbv beta iota.
  pose proof (entry_at_in _ _ _ He) as Hin.
  assert (∀ N, entries_of N = entries_of M → entry_at a (unlink a N) = None ∧ ∀ b, b ≠ a → entry_at b (unlink a N) = entry_at b M) as Hun.
  { intros N HN. unfold entry_at, entries_of, unlink in *. cbn. rewrite HN. generalize (mem_table (plane M)). intros t. split.
    - induction t as [|[b x] t IH]; [done|]. cbn. destruct (Z.eqb_spec b a) as [->|Hne]; cbn; [done|]. destruct (Z.eqb_spec b a); [done|]. apply IH.
    - intros b Hb. induction t as [|[c x] t IH]; [done|]. cbn. destruct (Z.eqb_spec c a) as [->|Hne]; cbn.
      + destruct (Z.eqb_spec a b); [congruence|]. apply IH.
      + destruct (Z.eqb_spec c b); [done|]. apply IH. }
  assert (forget_denied current ANX_FORGET_HARD_DELETE e (cells (kern M)) = Ret false) as ->.
  { unfold forget_denied. destruct Hcur as [->|[[c ->] Hc]]; [done|]. rewrite bool_decide_eq_true_2 by done. cbn [negb]. rewrite <- Hc.
    destruct (mi_owners _ _ Hi (a, e) c Hin (eq_sym Hc)) as [cell Hcell]. rewrite Hcell.
    destruct (mi_accounts _ _ Hi c (cid cell) (memory_admitted_bytes cell) (memory_admission_count cell)
        (max_memory_admission_bytes (constraints cell))) as (<- & _); [unfold accounts; by rewrite Hcell|]. by rewrite (proj2 (anx_uuid_compare_eq _ _) eq_refl). }
  cbn [obind]. rewrite Hp, Hn, Z.land_0_l, andb_false_r. cbn [Z.eqb negb]. unfold hard_delete. destruct (admission_owner e) as [c|] eqn:Ho.
  - destruct (mi_owners _ _ Hi (a, e) c Hin Ho) as [cell Hcell]. rewrite Hcell.
    destruct (mi_accounts _ _ Hi c (cid cell) (memory_admitted_bytes cell) (memory_admission_count cell)
        (max_memory_admission_bytes (constraints cell))) as (Hcid & Hb & Hk & _); [unfold accounts; by rewrite Hcell|].
    pose proof (share_some c (a, e) _ Hin Ho) as H1.
    assert (admitted_bytes e ≤ bytes_charged c M) as H2.
    { transitivity (share c admitted_bytes (a, e)); [unfold share; cbn; by rewrite bool_decide_eq_true_2|]. apply sumZ_elem; [|done].
      intros y Hy. unfold share. case_bool_decide; [|lia]. apply (mi_entries _ _ Hi y Hy). }
    unfold entries_charged in Hk. replace (_ || _) with false by lia. eexists. split; [done|].
    destruct (Hun (set_cells (anx_cell_store_release (<[c := cell <| memory_admitted_bytes ::= λ n, n - admitted_bytes e |>
      <| memory_admission_count ::= λ n, n - 1 |>]> (cells (kern M))) c) M) eq_refl) as [Hg Hoth]. split_and!; [exact Hg|exact Hoth|].
    intros d. cbn [kern cells unlink set_cells update_field]. cbn. rewrite (release_accounts _ c d). destruct (decide (c = d)) as [<-|Hne].
    + rewrite accounts_insert, bool_decide_eq_true_2 by done. unfold accounts. by rewrite Hcell.
    + rewrite accounts_insert_ne by done. rewrite bool_decide_eq_false_2 by congruence. by destruct (accounts (cells (kern M)) d) as [[[[? ?] ?] ?]|].
  - eexists. split; [done|]. destruct (Hun M eq_refl) as [Hg Hoth]. split_and!; [exact Hg|exact Hoth|]. intros d. cbn.
    rewrite bool_decide_eq_false_2 by done. by destruct (accounts (cells (kern M)) d) as [[[[? ?] ?] ?]|].
Qed.
End guarantees.

(** ** A small memory plane *)

(** A cell that may admit 16 bytes. *)
Definition saver : anx_uuid := Uuid 1 1.
Definition saver_cell : anx_cell := zero_cell saver <| constraints ::= λ k, k <| max_memory_admission_bytes := 16 |> |>.

Abbreviation mem_step := (mstep toy_hash toy_uor toy_junk).
Abbreviation mem_reach := (mreach toy_hash toy_uor toy_junk).

Definition m_boot : mstate := MState (Kernel anx_objstore_init {[ saver := saver_cell ]} leased_table epistemic_boot) anx_memplane_init [].
Definition m_doc : mstate :=
  m_boot <| kern := with_objs (kern m_boot) (anx_so_create toy_hash toy_uor 5 6 doc 100 (Some (doc_params 0 None)) true (objs (kern m_boot))).2 |>.
Definition m_sealed : mstate := m_doc <| kern := with_objs (kern m_doc) (anx_so_seal toy_uor 8 doc (objs (kern m_doc))).2 |>.

Definition after {A} (x : outcome (A * mstate)) : mstate := match x with Ret (_, M) => M | _ => m_boot end.

(** The cell admits the sealed document for retrieval, at address 500; the
    controller protects it in [L3]. *)
Definition m_admitted : mstate := after (anx_memplane_admit (Some saver) 10 500 (Some doc) 2 m_sealed).
Definition m_protected : mstate := after (anx_memplane_protect None (Some 500) 8 m_admitted).

Definition mem_at (a : Z) (M : mstate) : anx_mem_entry :=
  default (new_entry 0 doc ANX_ADMIT_CACHEABLE 0 None) (entry_at a M).

Lemma m_boot_ok : mem_boot m_boot.
Proof.
  split; [reflexivity|]. split; [reflexivity|]. intros c cell. change (cells (kern m_boot)) with ({[ saver := saver_cell ]} : cell_store).
  destruct (decide (saver = c)) as [<-|Hne].
  - rewrite lookup_singleton_eq. intros [= <-]. split; [reflexivity|]. unfold is_u64. cbn. lia.
  - by rewrite lookup_singleton_ne.
Qed.

Lemma kernel_step M W : kstep toy_hash true toy_uor toy_junk (kern M) (with_objs (kern M) W) → mem_reach M (M <| kern := with_objs (kern M) W |>).
Proof. intros H. apply rtc_once. exists None. by apply (MKernel toy_hash toy_uor toy_junk None M). Qed.

Lemma m_sealed_reached : mem_reach m_boot m_sealed.
Proof.
  unfold mreach. etransitivity; [|apply (kernel_step m_doc), (KSeal toy_hash true toy_uor toy_junk 8 doc (kern m_doc))].
  apply (kernel_step m_boot). apply (KCreate toy_hash true toy_uor toy_junk 5 6 doc 100 (Some (doc_params 0 None)) true (kern m_boot)); [done|].
  intros _ p l [= <-] [= <-]. done.
Qed.

Lemma m_admitted_step : mem_step (Some saver) m_sealed m_admitted.
Proof.
  apply (MAdmit toy_hash toy_uor toy_junk (Some saver) 10 500 (Some doc) 2 m_sealed ANX_OK (Some 500) m_admitted).
  - vm_compute. intros H. by apply not_elem_of_nil in H.
  - vm_compute. reflexivity.
Qed.

Lemma m_admitted_reached : mem_reach m_boot m_admitted.
Proof. unfold mreach. etransitivity; [apply m_sealed_reached|]. apply rtc_once. exists (Some saver). apply m_admitted_step. Qed.

Lemma m_protected_reached : mem_reach m_boot m_protected.
Proof.
  unfold mreach. etransitivity; [apply m_admitted_reached|]. apply rtc_once. exists None.
  apply (MProtect toy_hash toy_uor toy_junk None (Some 500) 8 m_admitted ANX_OK). vm_compute. reflexivity.
Qed.

Lemma memory_charges_exact_witness :
  bytes_charged saver m_admitted = 3 ∧ ∃ cell, cells (kern m_admitted) !! saver = Some cell ∧ memory_admitted_bytes cell = 3 ∧ memory_admission_count cell = 1.
Proof.
  split; [vm_compute; reflexivity|].
  destruct (memory_charges_exact toy_hash toy_uor toy_junk m_boot m_admitted m_boot_ok m_admitted_reached) as [H _].
  destruct (cells (kern m_admitted) !! saver) as [cell|] eqn:E; [|vm_compute in E; discriminate]. exists cell. split; [reflexivity|].
  destruct (H saver cell E) as (H1 & H2 & _). rewrite H1, H2. vm_compute. split; reflexivity.
Defined.

(** The owner of an entry cannot promote it; it can give it up. *)
Lemma running_cell_cannot_govern_witness :
  let M1 := after (anx_memplane_promote (Some saver) (Some 500) 0 m_admitted) in
  let M2 := after (anx_memplane_forget (Some saver) (Some 500) 0 m_admitted) in
  admission_owner (mem_at 500 m_admitted) = Some saver ∧
  (∃ e', entry_at 500 M1 = Some e' ∧ ungoverned (mem_at 500 m_admitted) e') ∧ given_up saver m_admitted M2 500 (mem_at 500 m_admitted).
Proof.
  cbv zeta. assert (entry_at 500 m_admitted = Some (mem_at 500 m_admitted)) as He by (vm_compute; reflexivity). split; [vm_compute; reflexivity|]. split.
  - destruct (running_cell_cannot_govern toy_hash toy_uor toy_junk m_boot m_admitted (after (anx_memplane_promote (Some saver) (Some 500) 0 m_admitted)) saver 500
      (mem_at 500 m_admitted) m_boot_ok m_admitted_reached) as [Hk|[Hg _ _ _ _]]; [|exact He|exact Hk|].
    + apply (MPromote toy_hash toy_uor toy_junk (Some saver) (Some 500) 0 m_admitted ANX_EPERM). vm_compute. reflexivity.
    + destruct Hg. vm_compute. left.
  - destruct (running_cell_cannot_govern toy_hash toy_uor toy_junk m_boot m_admitted (after (anx_memplane_forget (Some saver) (Some 500) 0 m_admitted)) saver 500
      (mem_at 500 m_admitted) m_boot_ok m_admitted_reached) as [(e' & Hk & _)|Hg]; [|exact He| |exact Hg].
    + apply (MForget toy_hash toy_uor toy_junk (Some saver) (Some 500) 0 m_admitted ANX_OK). vm_compute. reflexivity.
    + vm_compute in Hk. discriminate Hk.
Defined.

Lemma protected_placement_kept_witness :
  Z.testbit (protected_tiers (mem_at 500 m_protected)) 3 = true ∧
  ∃ e', entry_at 500 (after (anx_memplane_forget None (Some 500) 1 m_protected)) = Some e' ∧ Z.testbit (tier_mask e') 3 = true.
Proof.
  split; [vm_compute; reflexivity|].
  apply (protected_placement_kept toy_hash toy_uor toy_junk m_boot m_protected _ None 500 (mem_at 500 m_protected)).
  - apply m_boot_ok.
  - apply m_protected_reached.
  - apply (MForget toy_hash toy_uor toy_junk None (Some 500) 1 m_protected ANX_EBUSY). vm_compute. reflexivity.
  - vm_compute. reflexivity.
  - left. vm_compute. reflexivity.
Defined.

Lemma validation_generation_fresh_witness :
  ∃ e', entry_at 500 (after (anx_memplane_set_validation None 20 (Some 500) 2 m_admitted)) = Some e' ∧ Some (me_validation e') = memval_of_int 2.
Proof.
  destruct (validation_generation_fresh toy_hash toy_uor toy_junk m_boot m_admitted None 20 500 2
    (after (anx_memplane_set_validation None 20 (Some 500) 2 m_admitted)) m_boot_ok m_admitted_reached) as (_ & e' & H1 & H2 & _); [vm_compute; reflexivity|].
  exists e'. split; [exact H1|symmetry; exact H2].
Defined.

Lemma evict_exact_witness :
  ∃ v M', anx_memplane_evict None (Some [doc]) 1 3 true m_admitted = Ret (ANX_OK, v, M') ∧ ∃ a e,
    evictable_candidate 3 [doc] m_admitted a e ∧ M' = upd_entry a (λ e, e <| tier_mask ::= clear (ANX_TIER_BIT 3) |>) m_admitted.
Proof.
  destruct (evict_exact toy_hash toy_uor toy_junk m_boot m_admitted [doc] 1 3 m_boot_ok m_admitted_reached) as (r & v & M' & E & Hr & _ & Hok).
  - unfold ANX_MEM_EVICTION_CANDIDATES_MAX. lia.
  - right. right. left.
  - assert (r = ANX_OK) as ->.
    { apply Hr. split; [apply NoDup_singleton|]. split.
      - intros oid Ho. apply list_elem_of_singleton in Ho. subst oid. vm_compute. by eexists.
      - exists 500, (mem_at 500 m_admitted). split; [left|]. vm_compute. split; reflexivity. }
    exists v, M'. split; [exact E|]. destruct (Hok eq_refl) as (a & e & H1 & _ & _ & H2). exists a, e. split; [exact H1|exact H2].
Defined.

Lemma hard_forget_refunds_witness :
  ∃ M', anx_memplane_forget (Some saver) (Some 500) 0 m_admitted = Ret (ANX_OK, M') ∧ entry_at 500 M' = None.
Proof.
  destruct (hard_forget_refunds toy_hash toy_uor toy_junk m_boot m_admitted (Some saver) 500 (mem_at 500 m_admitted) m_boot_ok m_admitted_reached)
    as (M' & H1 & H2 & _).
  - vm_compute. reflexivity.
  - vm_compute. reflexivity.
  - vm_compute. reflexivity.
  - right. split; [by eexists|vm_compute; reflexivity].
  - exists M'. split; [exact H1|exact H2].
Defined.

(** [memplane.h] says that [L4] accepts only provisional or validated entries.
    Promotion checks that, but admission as a graph candidate places the
    unvalidated entry in [L4]. *)
Theorem unvalidated_admitted_to_L4 :
  let e := mem_at 500 (after (anx_memplane_admit (Some saver) 10 500 (Some doc) 4 m_sealed)) in
  me_validation e = ANX_MEMVAL_UNVALIDATED ∧ anx_mem_in_tier e ANX_MEM_L4 = true.
Proof. vm_compute. split; reflexivity. Qed.
