(* ===== verification/ReviewCut.v ===== *)
(** * The structural cut of a review

    [assess] looks for the smallest set of evidence roots on which a decisive
    number of valid approvals rests.  Sets of roots and of votes are bit masks. *)

From S2P Require Import Prelude Uuid Review StateObject Epistemic.

(** The members of a set of at most eight. *)
Definition members (m : Z) : list nat := List.filter (λ i, Z.testbit m (Z.of_nat i)) (seq 0 8).
Definition weight (m : Z) : Z := Z.of_nat (length (members m)).

(** A set of some of [n] things. *)
Definition subset_of (m : Z) (n : nat) : Prop := 0 ≤ m < bit n.

Lemma bits_weight m : subset_of m 8 → bits m = weight m.
Proof.
  intros Hm. assert (forallb (λ m, bits m =? weight m) (seqZ 0 256) = true) as H by (vm_compute; reflexivity).
  rewrite forallb_forall in H. apply Z.eqb_eq, H, list_elem_of_In, elem_of_seqZ. unfold subset_of in Hm. change (bit 8) with 256 in Hm. lia.
Qed.

Lemma weight_pos m : 0 < m → subset_of m 8 → 0 < weight m.
Proof.
  intros H0 Hm. assert (forallb (λ m, 0 <? weight m) (seqZ 1 255) = true) as H by (vm_compute; reflexivity).
  rewrite forallb_forall in H. apply Z.ltb_lt, H, list_elem_of_In, elem_of_seqZ. unfold subset_of in Hm. change (bit 8) with 256 in Hm. lia.
Qed.

Lemma bit_pos i : 0 < bit i.
Proof. unfold bit. rewrite Z.shiftl_1_l. lia. Qed.

Lemma bit_testbit i j : Z.testbit (bit i) (Z.of_nat j) = bool_decide (i = j).
Proof.
  unfold bit. rewrite Z.shiftl_1_l, Z.pow2_bits_eqb by lia. destruct (Z.eqb_spec (Z.of_nat i) (Z.of_nat j)); symmetry;
    [apply bool_decide_eq_true|apply bool_decide_eq_false]; lia.
Qed.

Lemma bit_mono i j : (i ≤ j)%nat → bit i ≤ bit j.
Proof. intros. unfold bit. rewrite !Z.shiftl_1_l. apply Z.pow_le_mono_r; lia. Qed.

(** The C test [mask & (1U << i)]. *)
Lemma land_bit m i : (Z.land m (bit i) =? 0) = negb (Z.testbit m (Z.of_nat i)).
Proof.
  destruct (Z.testbit m (Z.of_nat i)) eqn:E; cbn.
  - apply Z.eqb_neq. intros H. apply (f_equal (λ z, Z.testbit z (Z.of_nat i))) in H. rewrite Z.land_spec, E, bit_testbit, Z.bits_0 in H.
    by rewrite bool_decide_eq_true_2 in H.
  - apply Z.eqb_eq. apply Z.bits_inj'. intros n Hn. rewrite Z.bits_0, Z.land_spec. unfold bit. rewrite Z.shiftl_1_l, Z.pow2_bits_eqb by lia.
    destruct (Z.eqb_spec (Z.of_nat i) n) as [<-|]; [by rewrite E|by rewrite andb_false_r].
Qed.

(** Bits outside the range are clear. *)
Lemma subset_testbit m n i : subset_of m n → Z.testbit m (Z.of_nat i) = true → (i < n)%nat.
Proof.
  intros [H0 H1] Ht. destruct (decide (i < n)%nat) as [|Hge]; [done|]. exfalso.
  destruct (decide (m = 0)) as [->|Hnz]; [by rewrite Z.bits_0 in Ht|]. rewrite Z.bits_above_log2 in Ht; [done|lia|].
  apply Z.log2_lt_pow2; [lia|]. unfold bit in H1. rewrite Z.shiftl_1_l in H1. eapply Z.lt_le_trans; [exact H1|]. apply Z.pow_le_mono_r; lia.
Qed.

Lemma subset_intro m n : 0 ≤ m → (∀ i, Z.testbit m (Z.of_nat i) = true → (i < n)%nat) → subset_of m n.
Proof.
  intros H0 Hi. split; [done|]. destruct (decide (m = 0)) as [->|Hnz]; [apply bit_pos|]. unfold bit. rewrite Z.shiftl_1_l.
  apply Z.log2_lt_pow2; [lia|]. specialize (Hi (Z.to_nat (Z.log2 m))). pose proof (Z.log2_nonneg m). rewrite Z2Nat.id in Hi by done.
  specialize (Hi (Z.bit_log2 m ltac:(lia))). lia.
Qed.

Lemma subset_mono m n n' : subset_of m n → (n ≤ n')%nat → subset_of m n'.
Proof. intros [? ?] Hn. split; [done|]. pose proof (bit_mono n n' Hn). lia. Qed.

Lemma subset_lor m m' n : subset_of m n → subset_of m' n → subset_of (Z.lor m m') n.
Proof.
  intros H H'. apply subset_intro; [apply Z.lor_nonneg; by destruct H, H'|]. intros i. rewrite Z.lor_spec. intros [Hi|Hi]%orb_true_iff; [exact (subset_testbit _ _ _ H Hi)|exact (subset_testbit _ _ _ H' Hi)].
Qed.

Lemma subset_bit i n : (i < n)%nat → subset_of (bit i) n.
Proof. intros Hi. apply subset_intro; [pose proof (bit_pos i); lia|]. intros j. rewrite bit_testbit. intros ->%bool_decide_eq_true. done. Qed.

Lemma subset_zero n : subset_of 0 n.
Proof. split; [done|apply bit_pos]. Qed.

Section cut.
Context (r : epistemic_record) (valid : Z).

(** The valid approvals that rest on a root of [F]. *)
Definition resting (F : Z) : list nat :=
  List.filter (λ i, Z.testbit valid (Z.of_nat i) && negb (Z.land (v_roots (vote_of r i)) F =? 0)) (panel r).

(** A decisive number of them does. *)
Definition decisive (F : Z) : Prop := sp_threshold (e_spec r) ≤ Z.of_nat (length (resting F)).

Context (Hcount : 0 ≤ sp_count (e_spec r) ≤ 8).

Lemma covered_testbit F i : Z.testbit (covered r valid F) (Z.of_nat i) = true ↔ i ∈ resting F.
Proof using.
  clear Hcount. unfold covered, resting. set (p := λ i, negb (Z.land valid (bit i) =? 0) && negb (Z.land (v_roots (vote_of r i)) F =? 0)).
  rewrite (filter_ext _ p) by (intros x; unfold p; by rewrite land_bit, negb_involutive).
  assert (∀ l acc, Z.testbit (foldl (λ acc i, if p i then Z.lor acc (bit i) else acc) acc l) (Z.of_nat i) = true ↔
    Z.testbit acc (Z.of_nat i) = true ∨ i ∈ List.filter p l) as Hg; [|etrans; [exact (Hg (panel r) 0)|]; rewrite Z.bits_0; naive_solver].
  intros l. induction l as [|x l IH]; intros acc; cbn [foldl List.filter]; [rewrite elem_of_nil; tauto|].
  rewrite IH. destruct (p x); [|done]. rewrite Z.lor_spec, orb_true_iff, bit_testbit, bool_decide_eq_true, elem_of_cons. naive_solver.
Qed.

Lemma covered_nonneg F : 0 ≤ covered r valid F.
Proof using.
  clear Hcount. unfold covered.
  assert (∀ l acc, 0 ≤ acc → 0 ≤ foldl (λ acc i, if negb (Z.land valid (bit i) =? 0) && negb (Z.land (v_roots (vote_of r i)) F =? 0)
    then Z.lor acc (bit i) else acc) acc l) as H; [|by apply H].
  intros l. induction l as [|x l IH]; intros acc Hacc; cbn [foldl]; [done|]. apply IH.
  destruct (_ && _); [|done]. apply Z.lor_nonneg. pose proof (bit_pos x). lia.
Qed.

Lemma resting_lt F i : i ∈ resting F → (i < Z.to_nat (sp_count (e_spec r)))%nat.
Proof using.
  clear Hcount. unfold resting, panel. rewrite list_elem_of_In, filter_In, <- list_elem_of_In, elem_of_seq. lia.
Qed.

Lemma covered_weight F : weight (covered r valid F) = Z.of_nat (length (resting F)).
Proof.
  unfold weight, members. f_equal. f_equal.
  rewrite (filter_ext _ (λ i, bool_decide (i ∈ resting F))).
  2: { intros i. apply eq_bool_prop_intro. rewrite !Is_true_true, covered_testbit, bool_decide_eq_true. done. }
  replace 8%nat with (Z.to_nat (sp_count (e_spec r)) + (8 - Z.to_nat (sp_count (e_spec r))))%nat at 1 by lia.
  rewrite seq_app, List.filter_app. replace (List.filter _ (seq (0 + _) _)) with (@nil nat).
  2: { symmetry. generalize (8 - Z.to_nat (sp_count (e_spec r)))%nat as k. intros k.
       destruct (List.filter _ _) as [|x l] eqn:E; [done|]. assert (x ∈ x :: l) as Hx by left. rewrite <- E in Hx.
       apply list_elem_of_In, filter_In in Hx as [Hx%list_elem_of_In%elem_of_seq Hr%bool_decide_eq_true%resting_lt]. lia. }
  rewrite app_nil_r. fold (panel r). unfold resting at 2. apply filter_ext_in. intros i Hi%list_elem_of_In.
  apply eq_bool_prop_intro. rewrite !Is_true_true, bool_decide_eq_true. unfold resting. rewrite list_elem_of_In, filter_In, <- list_elem_of_In. tauto.
Qed.

Lemma covered_bits F : bits (covered r valid F) = Z.of_nat (length (resting F)).
Proof.
  rewrite bits_weight; [apply covered_weight|]. apply subset_intro; [apply covered_nonneg|]. intros i Hi%covered_testbit%resting_lt. lia.
Qed.

(** What the search over the sets of roots finds. *)
Lemma minimum_cut_spec : (length (e_roots r) ≤ 8)%nat →
  let m := minimum_cut r valid in
  (m = 9 ∨ ∃ F, 0 < F ∧ subset_of F (length (e_roots r)) ∧ weight F = m ∧ decisive F) ∧
  (∀ F, 0 < F → subset_of F (length (e_roots r)) → decisive F → m ≤ weight F).
Proof.
  intros Hroots. cbv zeta. unfold minimum_cut. change (ANX_EPISTEMIC_ROOTS + 1) with 9. set (k := length (e_roots r)) in *.
  assert (∀ F, F ∈ seqZ 1 (bit k - 1) ↔ 0 < F ∧ subset_of F k) as Hin.
  { intros F. rewrite elem_of_seqZ. unfold subset_of. pose proof (bit_pos k). lia. }
  revert Hin. generalize (seqZ 1 (bit k - 1)) as l. intros l Hin.
  assert (∀ F, F ∈ l → bits F = weight F) as Hb.
  { intros F [_ HF]%Hin. apply bits_weight. by eapply subset_mono. }
  set (step := λ minimum faults, _).
  assert (∀ l' acc, (∀ F, F ∈ l' → F ∈ l) → (acc = 9 ∨ ∃ F, F ∈ l ∧ weight F = acc ∧ decisive F) →
    let m := foldl step acc l' in m ≤ acc ∧ (m = 9 ∨ ∃ F, F ∈ l ∧ weight F = m ∧ decisive F) ∧ (∀ F, F ∈ l' → decisive F → m ≤ weight F)) as Hg.
  { intros l'. induction l' as [|F l' IH]; intros acc Hl Hacc; cbn [foldl].
    { split_and!; [lia|done|]. intros F HF. by apply not_elem_of_nil in HF. }
    assert (∃ x, step acc F = x ∧ x ≤ acc ∧ (x = 9 ∨ ∃ G, G ∈ l ∧ weight G = x ∧ decisive G) ∧ (decisive F → x ≤ weight F)) as (x & -> & H1 & H2 & H3).
    { unfold step. rewrite Hb by (apply Hl; left). rewrite covered_bits.
      destruct (Z.geb_spec (weight F) acc); [exists acc; by split_and!|].
      destruct (Z.geb_spec (Z.of_nat (length (resting F))) (sp_threshold (e_spec r))) as [Hd|Hd].
      - exists (weight F). split; [done|]. split; [lia|]. split; [|lia]. right. exists F. split; [apply Hl; left|]. by split.
      - exists acc. split; [done|]. split; [lia|]. split; [done|]. unfold decisive. lia. }
    destruct (IH x) as (I1 & I2 & I3); [intros; apply Hl; by right|done|]. split_and!; [lia|done|].
    intros F' [->|HF']%elem_of_cons Hd; [specialize (H3 Hd); lia|by apply I3]. }
  destruct (Hg l 9) as (_ & H2 & H3); [done|by left|]. split.
  - destruct H2 as [H2|(F & HF & Hw & Hd)]; [by left|right]. exists F. apply Hin in HF as [? ?]. by split_and!.
  - intros F HF1 HF2. apply H3. by apply Hin.
Qed.

(** Nothing rests on no root. *)
Lemma resting_zero : resting 0 = [].
Proof using.
  clear Hcount. unfold resting. induction (panel r) as [|i l IH]; cbn [List.filter]; [done|]. by rewrite Z.land_0_r, andb_false_r.
Qed.

Lemma weight_le F : weight F ≤ 8.
Proof using. clear. unfold weight, members. pose proof (List.filter_length_le (λ i, Z.testbit F (Z.of_nat i)) (seq 0 8)). rewrite length_seq in H. lia. Qed.
End cut.

Lemma assessed_view r valid :
  let w := e_view (assessed r valid) in
  let enough := bits valid >=? sp_threshold (e_spec r) in
  w_valid_approvals w = bits valid ∧
  w_structural_cut w = (if enough && (minimum_cut r valid <=? ANX_EPISTEMIC_ROOTS) then minimum_cut r valid else 0) ∧
  w_ready w = enough && (w_structural_cut w >=? sp_minimum_cut (e_spec r)).
Proof.
  intros w enough. subst w enough. unfold assessed. cbv zeta. generalize (bits valid) (minimum_cut r valid). intros b m.
  split; [reflexivity|]. split; reflexivity.
Qed.

(** The verdict, by the search of [minimum_cut_spec]. *)
Lemma assessed_cut r valid :
  0 ≤ sp_count (e_spec r) ≤ 8 → (length (e_roots r) ≤ 8)%nat → 0 < sp_threshold (e_spec r) → subset_of valid 8 →
  let w := e_view (assessed r valid) in
  w_valid_approvals w = weight valid ∧
  (w_ready w = true ↔ sp_threshold (e_spec r) ≤ weight valid ∧ sp_minimum_cut (e_spec r) ≤ w_structural_cut w) ∧
  (sp_threshold (e_spec r) ≤ weight valid →
     (w_structural_cut w = 0 ∧ ∀ F, subset_of F (length (e_roots r)) → ¬ decisive r valid F) ∨
     (0 < w_structural_cut w ∧
      (∃ F, subset_of F (length (e_roots r)) ∧ weight F = w_structural_cut w ∧ decisive r valid F) ∧
      (∀ F, subset_of F (length (e_roots r)) → decisive r valid F → w_structural_cut w ≤ weight F))).
Proof.
  intros Hcount Hroots Hth Hv w.
  assert (∀ F, subset_of F (length (e_roots r)) → decisive r valid F → 0 < F) as Hpos.
  { intros F [HF _] Hd. destruct (decide (F = 0)) as [->|]; [|lia]. unfold decisive in Hd. rewrite resting_zero in Hd. cbn in Hd. lia. }
  destruct (minimum_cut_spec r valid Hcount Hroots) as [H1 H2].
  destruct (assessed_view r valid) as (HA & HC & HR). fold w in HA, HC, HR. rewrite bits_weight in HA, HC, HR by done.
  split; [exact HA|]. split; [by rewrite HR, andb_true_iff, !Z.geb_le|]. intros Hen.
  rewrite (proj2 (Z.geb_le _ _) Hen) in HC. cbn [andb] in HC. change ANX_EPISTEMIC_ROOTS with 8 in HC.
  destruct H1 as [H1|(F & HF & Hsub & Hw & Hd)].
  - rewrite H1 in HC. left. split; [exact HC|]. intros F HF Hd. specialize (H2 F (Hpos F HF Hd) HF Hd). pose proof (weight_le F). lia.
  - pose proof (weight_le F). pose proof (weight_pos F HF ltac:(by eapply subset_mono)). rewrite <- Hw in HC, H2.
    rewrite (proj2 (Z.leb_le _ _)) in HC by done. rewrite HC. right. split; [done|]. split; [by exists F|]. intros G HG HGd. apply H2; auto.
Qed.

(** C19: The structural cut measures how few roots decide.  With a valid approval
    mask, [assess] counts the approvals that stand; if they reach the threshold,
    the structural cut it reports is the size of the smallest set of evidence
    roots on which a decisive number of them rests (0 if no set of roots has
    that power), and the review is ready exactly when there are enough approvals
    and the cut is at least the required one. *)
Theorem structural_cut_exact r valid :
  0 ≤ sp_count (e_spec r) ≤ 8 → (length (e_roots r) ≤ 8)%nat → 0 < sp_threshold (e_spec r) → subset_of valid 8 →
  let w := e_view (assessed r valid) in
  w_valid_approvals w = weight valid ∧
  (w_ready w = true ↔ sp_threshold (e_spec r) ≤ weight valid ∧ sp_minimum_cut (e_spec r) ≤ w_structural_cut w) ∧
  (sp_threshold (e_spec r) ≤ weight valid →
     (w_structural_cut w = 0 ∧ ∀ F, subset_of F (length (e_roots r)) → ¬ decisive r valid F) ∨
     (0 < w_structural_cut w ∧
      (∃ F, subset_of F (length (e_roots r)) ∧ weight F = w_structural_cut w ∧ decisive r valid F) ∧
      (∀ F, subset_of F (length (e_roots r)) → decisive r valid F → w_structural_cut w ≤ weight F))).
Proof. apply assessed_cut. Qed.

(** Two approvals from different roots: two roots have to fail together. *)
Definition two_votes : epistemic_record :=
  EpistemicRecord (EpistemicView 1 (Uuid 1 1) (Uuid 7 7) [] 2 0 0 2 2 0 ANX_EPISTEMIC_OPEN false)
    (EpistemicSpec 3 2 2 [Uuid 2 2; Uuid 3 3; Uuid 4 4]) (Some (Uuid 1 1)) [] ANX_UUID_NIL [] [Uuid 8 1; Uuid 8 2] []
    [EvidenceVote true true 1 1; EvidenceVote true true 2 2; no_vote] 0 0 1.

Lemma structural_cut_exact_witness :
  w_structural_cut (e_view (assessed two_votes 3)) = 2 ∧ w_ready (e_view (assessed two_votes 3)) = true ∧
  ∀ F, subset_of F 2 → decisive two_votes 3 F → 2 ≤ weight F.
Proof.
  destruct (structural_cut_exact two_votes 3) as (_ & _ & H).
  - cbn. lia.
  - cbn. lia.
  - cbn. lia.
  - split; [lia|reflexivity].
  - split; [reflexivity|]. split; [reflexivity|]. destruct H as [[H _]|(_ & _ & H)]; [vm_compute; discriminate|discriminate H|exact H].
Defined.
