(* ===== verification/ReviewGraph.v ===== *)
(** * The evidence graph of a review

    [capture] walks the objects a piece of evidence derives from.  The masks it
    leaves in a node are exactly the captured objects and the roots that can be
    reached from it; what it cannot finish is rolled back. *)

From S2P Require Import Prelude Uuid Cell CellStore EffectFence Meta Review StateObject Epistemic ReviewCut.

Implicit Types (r : epistemic_record) (n : evidence_node).

(** [p] is a recorded parent of [a]. *)
Definition parent_of r (a p : anx_uuid) : Prop := ∃ n, n ∈ e_nodes r ∧ n_oid n = a ∧ p ∈ n_parents n.
Definition derives r : anx_uuid → anx_uuid → Prop := rtc (parent_of r).

Abbreviation has m i := (Z.testbit m (Z.of_nat i) = true).

(** Only nodes and roots were added. *)
Definition grown r r' : Prop :=
  ∃ N R, r' = r <| e_nodes := e_nodes r ++ N |> <| e_roots := e_roots r ++ R |>.

(** ** The invariant while the nodes of [v] are being captured *)

Record node_sound r n : Prop := {
  ns_roots : ∀ k, has (n_roots n) k → ∃ b, e_roots r !! k = Some b ∧ derives r (n_oid n) b;
  ns_nodes : ∀ j, has (n_nodes n) j → ∃ m, e_nodes r !! j = Some m ∧ derives r (n_oid n) (n_oid m);
  ns_nonneg : 0 ≤ n_roots n ∧ 0 ≤ n_nodes n;
}.

(** What was recorded below [p] is recorded in [n]. *)
Definition joined r (v : Z) n (p : anx_uuid) : Prop :=
  ∃ j m, e_nodes r !! j = Some m ∧ n_oid m = p ∧ Z.testbit v (Z.of_nat j) = false ∧
    (∀ k, has (n_roots m) k → has (n_roots n) k) ∧ (∀ i, has (n_nodes m) i → has (n_nodes n) i).

Record node_own r (i : nat) n : Prop := {
  no_self : has (n_nodes n) i;
  no_root : ∀ k, e_roots r !! k = Some (n_oid n) → has (n_roots n) k;
  no_source : n_parents n = [] → ∃ k, e_roots r !! k = Some (n_oid n);
}.

Record graph_ok r (v : Z) : Prop := {
  go_nodes : (length (e_nodes r) ≤ 32)%nat;
  go_roots : (length (e_roots r) ≤ 8)%nat;
  go_uniq : ∀ i j n m, e_nodes r !! i = Some n → e_nodes r !! j = Some m → n_oid n = n_oid m → i = j;
  go_named : ∀ k b, e_roots r !! k = Some b → ∃ n, n ∈ e_nodes r ∧ n_oid n = b;
  go_sound : ∀ n, n ∈ e_nodes r → node_sound r n;
  go_own : ∀ i n, e_nodes r !! i = Some n → node_own r i n;
  go_joined : ∀ i n p, e_nodes r !! i = Some n → Z.testbit v (Z.of_nat i) = false → p ∈ n_parents n → joined r v n p;
  go_rooted : ∀ i n, e_nodes r !! i = Some n → Z.testbit v (Z.of_nat i) = false → ∃ k, has (n_roots n) k;
  go_visiting : ∀ i, has v i → (i < length (e_nodes r))%nat;
}.

Lemma slot_where_Some {A} (p : A → bool) l i : slot_where p l = Some i → ∃ x, l !! i = Some x ∧ p x = true.
Proof.
  revert i. induction l as [|x l IH]; intros i; cbn [slot_where]; [done|]. destruct (p x) eqn:E; [intros [= <-]; eauto|].
  destruct (slot_where p l) as [j|]; [|done]. intros [= <-]. by apply IH.
Qed.

Lemma slot_where_None {A} (p : A → bool) l x : slot_where p l = None → x ∈ l → p x = false.
Proof.
  induction l as [|y l IH]; cbn [slot_where]; [by intros _ ?%not_elem_of_nil|]. destruct (p y) eqn:E; [done|].
  destruct (slot_where p l); [done|]. intros _ [->|Hx]%elem_of_cons; [done|by apply IH].
Qed.

Lemma node_named_spec oid n : node_named oid n = true ↔ n_oid n = oid.
Proof. unfold node_named. rewrite Z.eqb_eq, anx_uuid_compare_eq. naive_solver. Qed.

(** ** What the masks mean once everything is captured *)

Section exact.
Context r (G : graph_ok r 0).

Lemma derives_mask a b : derives r a b → ∀ i n, e_nodes r !! i = Some n → n_oid n = a →
  ∃ j m, e_nodes r !! j = Some m ∧ n_oid m = b ∧ (∀ k, has (n_roots m) k → has (n_roots n) k) ∧ (∀ x, has (n_nodes m) x → has (n_nodes n) x).
Proof.
  induction 1 as [a|a p b (n0 & Hin & Ha & Hp) _ IH]; intros i n Hn Hid; [by exists i, n|].
  assert (n0 = n) as -> by (apply list_elem_of_lookup in Hin as [i0 Hi0]; pose proof (go_uniq _ _ G i0 i n0 n Hi0 Hn ltac:(congruence)); congruence).
  destruct (go_joined _ _ G i n p Hn (Z.bits_0 _) Hp) as (j & m & Hm & Hmid & _ & H1 & H2).
  destruct (IH j m Hm Hmid) as (j' & m' & ? & ? & H3 & H4). exists j', m'. split_and!; auto.
Qed.

Lemma roots_exact i n k : e_nodes r !! i = Some n → has (n_roots n) k ↔ ∃ b, e_roots r !! k = Some b ∧ derives r (n_oid n) b.
Proof.
  intros Hn. split; [apply (ns_roots _ _ (go_sound _ _ G n ltac:(by apply list_elem_of_lookup; exists i)))|].
  intros (b & Hb & Hd). destruct (derives_mask _ _ Hd i n Hn eq_refl) as (j & m & Hm & <- & H1 & _). apply H1. by apply (no_root _ _ _ (go_own _ _ G j m Hm)).
Qed.

Lemma nodes_exact i n j : e_nodes r !! i = Some n → has (n_nodes n) j ↔ ∃ m, e_nodes r !! j = Some m ∧ derives r (n_oid n) (n_oid m).
Proof.
  intros Hn. split; [apply (ns_nodes _ _ (go_sound _ _ G n ltac:(by apply list_elem_of_lookup; exists i)))|].
  intros (m & Hm & Hd). destruct (derives_mask _ _ Hd i n Hn eq_refl) as (j' & m' & Hm' & E & _ & H2).
  pose proof (go_uniq _ _ G j' j m' m Hm' Hm E) as ->. assert (m' = m) as -> by congruence. apply H2, (no_self _ _ _ (go_own _ _ G j m Hm)).
Qed.
End exact.

(** ** Growing the graph *)

(** The shape: ids, parents and roots, without the masks. *)
Definition below r r' : Prop :=
  (∀ a p, parent_of r a p → parent_of r' a p) ∧ (∀ k b, e_roots r !! k = Some b → e_roots r' !! k = Some b) ∧
  (∀ j m, e_nodes r !! j = Some m → ∃ m', e_nodes r' !! j = Some m' ∧ n_oid m' = n_oid m).

Lemma derives_mono r r' a b : below r r' → derives r a b → derives r' a b.
Proof. intros [Hp _]. induction 1; [by apply rtc_refl|]. eapply rtc_l; [by apply Hp|done]. Qed.

Lemma sound_mono r r' n : below r r' → node_sound r n → node_sound r' n.
Proof.
  intros Hb [H1 H2 H3]. split; [| |done].
  - intros k (b & Hk & Hd)%H1. exists b. split; [by apply Hb|by eapply derives_mono].
  - intros j (m & Hj & Hd)%H2. destruct Hb as (B1 & B2 & B3). destruct (B3 j m Hj) as (m' & Hj' & E). exists m'. rewrite E. split; [done|].
    eapply derives_mono; [|done]. by split_and!.
Qed.

Lemma has_lor m m' i : has (Z.lor m m') i ↔ has m i ∨ has m' i.
Proof. by rewrite Z.lor_spec, orb_true_iff. Qed.

Lemma lor_bit_false v i j : Z.testbit (Z.lor v (bit i)) (Z.of_nat j) = false ↔ Z.testbit v (Z.of_nat j) = false ∧ j ≠ i.
Proof. rewrite Z.lor_spec, orb_false_iff, bit_testbit, bool_decide_eq_false. naive_solver. Qed.

(** The new node, before its parents. *)
Section add.
Context (R0 : epistemic_record) (v : Z) (value : evidence_node) (G : graph_ok R0 v).
Let i := length (e_nodes R0).
Let source := bool_decide (n_parents value = []).
Let mask := if source && negb (Z.of_nat (length (e_roots R0)) =? ANX_EPISTEMIC_ROOTS) then bit (length (e_roots R0)) else 0.
Let node := value <| n_nodes := bit i |> <| n_roots := mask |>.
Let r1 := R0 <| e_nodes ::= λ l, l ++ [node] |>.
Let r2 := if source then r1 <| e_roots ::= λ l, l ++ [n_oid value] |> else r1.
Context (Hfresh : slot_where (node_named (n_oid value)) (e_nodes R0) = None).
Context (Hroom : (Z.of_nat i =? ANX_EPISTEMIC_NODES) = false).
Context (Hroots : (source && (Z.of_nat (length (e_roots R0)) =? ANX_EPISTEMIC_ROOTS)) = false).

Lemma add_nodes : e_nodes r2 = e_nodes R0 ++ [node].
Proof. unfold r2. by destruct source. Qed.

Lemma add_roots : e_roots r2 = e_roots R0 ++ if source then [n_oid value] else [].
Proof. unfold r2. destruct source; [done|]. by rewrite app_nil_r. Qed.

Lemma add_fresh n : n ∈ e_nodes R0 → n_oid n ≠ n_oid value.
Proof. intros Hn E. pose proof (slot_where_None _ _ _ Hfresh Hn) as Hx. apply (proj2 (node_named_spec (n_oid value) n)) in E. congruence. Qed.

Lemma add_below : below R0 r2.
Proof.
  split_and!.
  - intros a p (n & Hn & ?). exists n. rewrite add_nodes. split; [by apply elem_of_app; left|done].
  - intros k b Hk. rewrite add_roots. by apply lookup_app_l_Some.
  - intros j m Hj. exists m. rewrite add_nodes. split; [by apply lookup_app_l_Some|done].
Qed.

Lemma add_lookup j n : e_nodes r2 !! j = Some n → e_nodes R0 !! j = Some n ∨ (j = i ∧ n = node).
Proof.
  rewrite add_nodes. intros [Hj|[Hj Hn]]%lookup_app_Some; [by left|right]. destruct (j - length (e_nodes R0))%nat as [|x] eqn:E; [|done].
  injection Hn as <-. split; [unfold i; lia|done].
Qed.

Lemma add_at : e_nodes r2 !! i = Some node.
Proof. rewrite add_nodes. unfold i. by rewrite lookup_app_r, Nat.sub_diag by lia. Qed.

Lemma add_root_lookup k b : e_roots r2 !! k = Some b → e_roots R0 !! k = Some b ∨ (k = length (e_roots R0) ∧ b = n_oid value ∧ n_parents value = []).
Proof.
  rewrite add_roots. intros [Hk|[Hk Hn]]%lookup_app_Some; [by left|right]. unfold source in Hn. case_bool_decide; [|done].
  destruct (k - length (e_roots R0))%nat as [|x] eqn:E; [|done]. injection Hn as <-. split_and!; [lia|done|done].
Qed.

Lemma add_mask_source : n_parents value = [] → mask = bit (length (e_roots R0)) ∧ e_roots r2 !! length (e_roots R0) = Some (n_oid value).
Proof.
  intros Hs. rewrite add_roots. unfold mask, source in *. rewrite bool_decide_true in * by done. cbn [andb] in *. rewrite Hroots. split; [done|].
  by rewrite lookup_app_r, Nat.sub_diag by lia.
Qed.

Lemma add_mask_other : n_parents value ≠ [] → mask = 0.
Proof. intros Hs. unfold mask, source. by rewrite bool_decide_false. Qed.

Lemma add_own_new : node_own r2 i node.
Proof.
  split; cbn.
  - by rewrite bit_testbit, bool_decide_true.
  - intros k [Hk|(-> & _ & Hs)]%add_root_lookup.
    + destruct (go_named _ _ G k _ Hk) as (n & Hn & E). by destruct (add_fresh n Hn).
    + destruct (add_mask_source Hs) as [-> _]. by rewrite bit_testbit, bool_decide_true.
  - intros Hs. destruct (add_mask_source Hs) as [_ ?]. eauto.
Qed.

Lemma add_sound_new : node_sound r2 node.
Proof.
  split; cbn.
  - intros k Hk. destruct (decide (n_parents value = [])) as [Hs|Hs]; [|by rewrite (add_mask_other Hs), Z.bits_0 in Hk].
    destruct (add_mask_source Hs) as [E1 E2]. rewrite E1, bit_testbit in Hk. apply bool_decide_eq_true in Hk as <-. exists (n_oid value). split; [done|apply rtc_refl].
  - intros j Hj. rewrite bit_testbit in Hj. apply bool_decide_eq_true in Hj as <-. exists node. split; [apply add_at|apply rtc_refl].
  - pose proof (bit_pos i). split; [|lia]. unfold mask. destruct (_ && _); [|done]. pose proof (bit_pos (length (e_roots R0))). lia.
Qed.

Lemma add_graph : graph_ok r2 (Z.lor v (bit i)).
Proof.
  assert (∀ j n, e_nodes R0 !! j = Some n → j ≠ i) as Hne by (intros j n Hj%lookup_lt_Some; unfold i; lia).
  split.
  - rewrite add_nodes, length_app. cbn. pose proof (go_nodes _ _ G). apply Z.eqb_neq in Hroom. unfold i, ANX_EPISTEMIC_NODES in Hroom. lia.
  - rewrite add_roots, length_app. pose proof (go_roots _ _ G). destruct source; cbn in *; [|lia]. apply Z.eqb_neq in Hroots. unfold ANX_EPISTEMIC_ROOTS in Hroots. lia.
  - intros x y n m [Hx|[-> ->]]%add_lookup [Hy|[-> ->]]%add_lookup E; [by eapply (go_uniq _ _ G)| | |done].
    + by destruct (add_fresh n (list_elem_of_lookup_2 _ _ _ Hx)).
    + by destruct (add_fresh m (list_elem_of_lookup_2 _ _ _ Hy)).
  - intros k b [Hk|(_ & -> & _)]%add_root_lookup.
    + destruct (go_named _ _ G k b Hk) as (n & Hn & E). exists n. rewrite add_nodes. split; [by apply elem_of_app; left|done].
    + exists node. split; [apply (list_elem_of_lookup_2 _ i), add_at|done].
  - intros n [x [Hx|[-> ->]]%add_lookup]%list_elem_of_lookup; [|apply add_sound_new].
    eapply sound_mono; [apply add_below|]. by eapply (go_sound _ _ G), list_elem_of_lookup_2.
  - intros x n [Hx|[-> ->]]%add_lookup; [|apply add_own_new]. destruct (go_own _ _ G x n Hx) as [H1 H2 H3]. split; [done| |].
    + intros k [Hk|(_ & E & _)]%add_root_lookup; [by apply H2|]. by destruct (add_fresh n (list_elem_of_lookup_2 _ _ _ Hx)).
    + intros Hs. destruct (H3 Hs) as (k & Hk). exists k. by apply add_below.
  - intros x n p [Hx|[-> ->]]%add_lookup [Hv Hxi]%lor_bit_false; [|done]. intros (j & m & Hj & Hm & Hjv & Hrest)%(go_joined _ _ G x n p Hx Hv).
    exists j, m. split; [rewrite add_nodes; by apply lookup_app_l_Some|]. split; [done|]. split; [|done]. apply lor_bit_false. split; [done|by eapply Hne].
  - intros x n [Hx|[-> ->]]%add_lookup [Hv Hxi]%lor_bit_false; [|done]. by apply (go_rooted _ _ G x n).
  - intros x [Hx|Hx]%has_lor; rewrite add_nodes, length_app; cbn; [pose proof (go_visiting _ _ G x Hx); lia|].
    rewrite bit_testbit in Hx. apply bool_decide_eq_true in Hx as <-. unfold i. lia.
Qed.
End add.

(** ** Taking in a parent *)

Definition with_masks (n : evidence_node) (nodes roots : Z) : evidence_node :=
  n <| n_nodes ::= λ m, Z.lor m nodes |> <| n_roots ::= λ m, Z.lor m roots |>.

Section join.
Context (R0 : epistemic_record) (v : Z) (i j : nat) (n m : evidence_node) (G : graph_ok R0 v).
Context (Hi : e_nodes R0 !! i = Some n) (Hj : e_nodes R0 !! j = Some m).
Context (Hvi : has v i) (Hvj : Z.testbit v (Z.of_nat j) = false) (Hp : n_oid m ∈ n_parents n).
Let r1 := join_node i j R0.
Let n' := with_masks n (n_nodes m) (n_roots m).

Lemma join_nodes : e_nodes r1 = <[i := n']> (e_nodes R0).
Proof.
  unfold r1, join_node. rewrite Hj. cbn. apply list_eq. intros x. destruct (decide (x = i)) as [->|Hne].
  - rewrite list_lookup_alter_eq, Hi. rewrite list_lookup_insert_eq by (by eapply lookup_lt_Some). done.
  - by rewrite list_lookup_alter_ne, list_lookup_insert_ne.
Qed.

Lemma join_fields : r1 = R0 <| e_nodes := e_nodes r1 |>.
Proof. unfold r1, join_node. rewrite Hj. by destruct R0. Qed.

Lemma join_roots : e_roots r1 = e_roots R0.
Proof. by rewrite join_fields. Qed.

Lemma join_lookup x y : e_nodes r1 !! x = Some y → (x = i ∧ y = n') ∨ (x ≠ i ∧ e_nodes R0 !! x = Some y).
Proof.
  rewrite join_nodes. destruct (decide (x = i)) as [->|Hne].
  - rewrite list_lookup_insert_eq by by eapply lookup_lt_Some. intros [= <-]. by left.
  - rewrite list_lookup_insert_ne by done. by right.
Qed.

Lemma join_at : e_nodes r1 !! i = Some n'.
Proof. rewrite join_nodes. apply list_lookup_insert_eq. by eapply lookup_lt_Some. Qed.

Lemma join_other x : x ≠ i → e_nodes r1 !! x = e_nodes R0 !! x.
Proof. intros Hne. by rewrite join_nodes, list_lookup_insert_ne. Qed.

Lemma join_parent_of a p : parent_of r1 a p ↔ parent_of R0 a p.
Proof.
  unfold parent_of. split.
  - intros (y & [x [[-> ->]|[_ Hx]]%join_lookup]%list_elem_of_lookup & Ha & Hin).
    + exists n. split; [by eapply list_elem_of_lookup_2|done].
    + exists y. split; [by eapply list_elem_of_lookup_2|done].
  - intros (y & [x Hx]%list_elem_of_lookup & Ha & Hin). destruct (decide (x = i)) as [->|Hne].
    + assert (y = n) as -> by congruence. exists n'. split; [eapply list_elem_of_lookup_2, join_at|done].
    + exists y. split; [eapply (list_elem_of_lookup_2 _ x); by rewrite join_other|done].
Qed.

Lemma join_below : below R0 r1.
Proof.
  split_and!.
  - intros a p. apply join_parent_of.
  - intros k b. by rewrite join_roots.
  - intros x y Hx. destruct (decide (x = i)) as [->|Hne]; [exists n'; split; [apply join_at|]; by simplify_eq|]. exists y. by rewrite join_other.
Qed.

Lemma join_sound_new : node_sound r1 n'.
Proof.
  eapply sound_mono; [apply join_below|]. destruct (go_sound _ _ G n (list_elem_of_lookup_2 _ _ _ Hi)) as [H1 H2 H3].
  destruct (go_sound _ _ G m (list_elem_of_lookup_2 _ _ _ Hj)) as [I1 I2 I3].
  assert (parent_of R0 (n_oid n) (n_oid m)) as Hpar by (exists n; split; [by eapply list_elem_of_lookup_2|done]). split; cbn.
  - intros k [Hk|Hk]%has_lor; [by apply H1|]. destruct (I1 k Hk) as (b & ? & ?). exists b. split; [done|]. by eapply rtc_l.
  - intros k [Hk|Hk]%has_lor; [by apply H2|]. destruct (I2 k Hk) as (b & ? & ?). exists b. split; [done|]. by eapply rtc_l.
  - rewrite !Z.lor_nonneg. tauto.
Qed.

(** What was joined stays joined. *)
Lemma join_joined x p : joined R0 v x p → joined r1 v x p.
Proof. intros (k & y & Hk & Hy & Hv & Hrest). exists k, y. rewrite join_other by (intros ->; congruence). done. Qed.

Lemma join_joined_self p : joined R0 v n p → joined r1 v n' p.
Proof.
  intros (k & y & Hk & Hy & Hv & H1 & H2)%join_joined. exists k, y. split_and!; [done..| |]; intros; apply has_lor; left; auto.
Qed.

Lemma join_joined_new : joined r1 v n' (n_oid m).
Proof.
  exists j, m. rewrite join_other by (intros ->; congruence). split_and!; [done..| |]; intros; apply has_lor; by right.
Qed.

Lemma join_graph : graph_ok r1 v.
Proof.
  split.
  - rewrite join_nodes, length_insert. apply G.
  - rewrite join_roots. apply G.
  - intros x y a b Hx Hy E.
    assert (∀ z c, e_nodes r1 !! z = Some c → ∃ c0, e_nodes R0 !! z = Some c0 ∧ n_oid c0 = n_oid c) as Hold.
    { intros z c [[-> ->]|[_ Hz]]%join_lookup; eauto. }
    destruct (Hold x a Hx) as (a0 & Ha & E1), (Hold y b Hy) as (b0 & Hb & E2). apply (go_uniq _ _ G x y a0 b0 Ha Hb). congruence.
  - intros k b. rewrite join_roots. intros (y & [x Hx]%list_elem_of_lookup & E)%(go_named _ _ G).
    destruct join_below as (_ & _ & B). destruct (B x y Hx) as (y' & Hy' & E'). exists y'. split; [by eapply list_elem_of_lookup_2|congruence].
  - intros y [x [[-> ->]|[_ Hx]]%join_lookup]%list_elem_of_lookup; [apply join_sound_new|].
    eapply sound_mono; [apply join_below|]. by eapply (go_sound _ _ G), list_elem_of_lookup_2.
  - intros x y Hx. assert (∃ y0, e_nodes R0 !! x = Some y0 ∧ n_oid y = n_oid y0 ∧ n_parents y = n_parents y0 ∧
      (∀ k, has (n_nodes y0) k → has (n_nodes y) k) ∧ (∀ k, has (n_roots y0) k → has (n_roots y) k)) as (y0 & Hy0 & E1 & E2 & M1 & M2).
    { apply join_lookup in Hx as [[-> ->]|[_ Hx]]; [exists n; split_and!; [done..| |]; intros; apply has_lor; by left|by exists y]. }
    destruct (go_own _ _ G x y0 Hy0) as [H1 H2 H3]. split; [by apply M1| |]; rewrite join_roots, ?E1, ?E2; auto.
  - intros x y p [[-> ->]|[_ Hx]]%join_lookup Hv Hin; [congruence|]. apply join_joined. by apply (go_joined _ _ G x y p).
  - intros x y [[-> ->]|[_ Hx]]%join_lookup Hv; [congruence|]. by apply (go_rooted _ _ G x y).
  - intros x Hx. rewrite join_nodes, length_insert. by apply (go_visiting _ _ G).
Qed.
End join.

(** ** The walk *)

(** What a call of [capture] for [p] does. *)
Definition captured (v : Z) r (p : anx_uuid) (rc : Z) (j : nat) r' : Prop :=
  grown r r' ∧ (rc = ANX_OK → graph_ok r' v ∧ ∃ m, e_nodes r' !! j = Some m ∧ n_oid m = p ∧ Z.testbit v (Z.of_nat j) = false).

Lemma graph_grown_refl r : grown r r.
Proof. exists [], []. rewrite !app_nil_r. by destruct r. Qed.

Lemma grown_lookup r r' i n : grown r r' → e_nodes r !! i = Some n → e_nodes r' !! i = Some n.
Proof. intros (N & R & ->) Hn. cbn. by apply lookup_app_l_Some. Qed.

Lemma grown_joined r r' v n p : grown r r' → joined r v n p → joined r' v n p.
Proof. intros Hg (j & m & Hj & Hrest). exists j, m. split; [by eapply grown_lookup|done]. Qed.

(** Nodes before [i] and all roots are kept, and only nodes and roots change. *)
Definition kept (i : nat) r r' : Prop :=
  firstn i (e_nodes r') = firstn i (e_nodes r) ∧ e_roots r `prefix_of` e_roots r' ∧
  r' = r <| e_nodes := e_nodes r' |> <| e_roots := e_roots r' |>.

Lemma graph_kept_trans i r1 r2 r3 : kept i r1 r2 → kept i r2 r3 → kept i r1 r3.
Proof. intros (A1 & A2 & A3) (B1 & B2 & B3). split_and!; [congruence|by etrans|]. rewrite B3, A3. by destruct r1. Qed.

Lemma grown_kept i r r' : (i ≤ length (e_nodes r))%nat → grown r r' → kept i r r'.
Proof. intros Hi (N & R & ->). split_and!; cbn; [by rewrite take_app_le|by apply prefix_app_r|]. by destruct r. Qed.

Section loop.
Context (cap : epistemic_record → anx_uuid → kernel → Z * nat * epistemic_record * kernel) (v : Z) (i : nat).
Context (Hcap : ∀ r p K, graph_ok r v → let '(rc, j, r', _) := cap r p K in captured v r p rc j r').

Lemma capture_parents_spec parents r K n before :
  graph_ok r v → has v i → e_nodes r !! i = Some n → n_parents n = before ++ parents → (∀ p, p ∈ before → joined r v n p) →
  let '(rc, r', _) := capture_parents cap parents i r K in
  kept i r r' ∧ (rc = ANX_OK → graph_ok r' v ∧
    ∃ n', e_nodes r' !! i = Some n' ∧ n_oid n' = n_oid n ∧ n_parents n' = n_parents n ∧ ∀ p, p ∈ n_parents n → joined r' v n' p).
Proof.
  revert r K n before. induction parents as [|p parents IH]; intros r K n before G Hvi Hn Hpar Hbefore; cbn [capture_parents].
  { split; [by split_and!; [| |destruct r]|]. intros _. split; [done|]. exists n. split_and!; [done..|]. rewrite Hpar, app_nil_r. done. }
  pose proof (Hcap r p K G) as Hc. destruct (cap r p K) as [[[rc j] r1] K1]. destruct Hc as [Hg Hok].
  assert (kept i r r1) as Hk by (apply grown_kept; [apply lookup_lt_Some in Hn; lia|done]).
  destruct (Z.eqb_spec rc ANX_OK) as [->|Hrc]; cbn [negb]; [|by split].
  destruct (Hok eq_refl) as (G1 & m & Hm & <- & Hvj). pose proof (grown_lookup _ _ _ _ Hg Hn) as Hn1.
  assert (n_oid m ∈ n_parents n) as Hin by (rewrite Hpar; apply elem_of_app; right; left).
  pose proof (join_graph r1 v i j n m G1 Hn1 Hm Hvi Hvj Hin) as G2. pose proof (join_at r1 i j n m Hn1 Hm) as Hn2.
  assert (kept i r1 (join_node i j r1)) as Hk2.
  { split_and!; [rewrite (join_nodes r1 i j n m Hn1 Hm); by apply take_insert_ge|by unfold join_node; rewrite Hm|].
    unfold join_node. rewrite Hm. by destruct r1. }
  specialize (IH (join_node i j r1) K1 (with_masks n (n_nodes m) (n_roots m)) (before ++ [n_oid m]) G2 Hvi Hn2).
  destruct (capture_parents cap parents i (join_node i j r1) K1) as [[rc2 r2] K2]. destruct IH as [Hk3 Hok3].
  - cbn. rewrite Hpar, <- app_assoc. done.
  - intros q [Hq| ->%list_elem_of_singleton]%elem_of_app; [|by apply join_joined_new].
    apply join_joined_self; [done..|]. eapply grown_joined; [done|by apply Hbefore].
  - split; [by eapply graph_kept_trans, graph_kept_trans|]. intros Hr. destruct (Hok3 Hr) as (G3 & n' & ? & ? & ? & ?). split; [done|]. by exists n'.
Qed.
End loop.

(** A node whose parents are all in is finished. *)
Lemma finish_graph r v i n : graph_ok r (Z.lor v (bit i)) → Z.testbit v (Z.of_nat i) = false → e_nodes r !! i = Some n →
  (∀ p, p ∈ n_parents n → joined r (Z.lor v (bit i)) n p) → graph_ok r v.
Proof.
  intros G Hv Hn Hall. assert (∀ x p, joined r (Z.lor v (bit i)) x p → joined r v x p) as Hweak.
  { intros x p (j & m & ? & ? & [? _]%lor_bit_false & ?). by exists j, m. }
  destruct G as [G1 G2 G3 G4 G5 G6 G7 G8 G9]. split; try done.
  - intros x y p Hx Hvx Hp. apply Hweak. destruct (decide (x = i)) as [->|Hne]; [assert (y = n) as -> by congruence; by apply Hall|].
    apply (G7 x y p Hx); [by apply lor_bit_false|done].
  - intros x y Hx Hvx. destruct (decide (x = i)) as [->|Hne]; [|apply (G8 x y Hx); by apply lor_bit_false]. assert (y = n) as -> by congruence.
    destruct (n_parents n) as [|p ps] eqn:Hp.
    + destruct (G6 i n Hn) as [_ H2 H3]. destruct (H3 Hp) as (k & Hk). exists k. by apply H2.
    + destruct (Hall p ltac:(left)) as (j & m & Hj & _ & Hvj & Hr & _). destruct (G8 j m Hj Hvj) as (k & Hk). exists k. by apply Hr.
  - intros x Hx. apply G9, has_lor. by left.
Qed.

Lemma kept_grown r r' N R : kept (length (e_nodes r)) (r <| e_nodes := e_nodes r ++ N |> <| e_roots := e_roots r ++ R |>) r' → grown r r'.
Proof.
  intros (H1 & (R' & H2) & H3). cbn in H1, H2. rewrite take_app_length in H1. exists (skipn (length (e_nodes r)) (e_nodes r')), (R ++ R').
  assert (e_nodes r ++ skipn (length (e_nodes r)) (e_nodes r') = e_nodes r') as ->.
  { transitivity (firstn (length (e_nodes r)) (e_nodes r') ++ skipn (length (e_nodes r)) (e_nodes r')); [by rewrite H1|apply take_drop]. }
  rewrite app_assoc, <- H2. rewrite H3 at 1. by destruct r.
Qed.

Section capture.
Context (sha256 : list Z → list Z) (current : option anx_uuid).
Abbreviation snapshot := (snapshot sha256 current).
Abbreviation capture := (capture sha256 current).

Lemma snapshot_node (r0 : epistemic_record) oid voter K : let '(rc, value, _) := snapshot r0 oid voter K in
  match value with Some n => rc = ANX_OK ∧ n_oid n = oid | None => rc ≠ ANX_OK end.
Proof.
  unfold Epistemic.snapshot. destruct (_ =? 0); [done|]. destruct (anx_objstore_lookup oid (objs K)) as [[a|] W]; [|done].
  destruct (so_heap W !! a) as [object|]; [|done]. destruct (if _ && _ then _ else _) as [rc K1]. destruct (Z.eqb_spec rc ANX_OK); done.
Qed.

Lemma capture_spec room (r0 : epistemic_record) oid voter v K : graph_ok r0 v →
  let '(rc, j, r', _) := capture room r0 oid voter v K in captured v r0 oid rc j r'.
Proof.
  revert r0 oid v K. induction room as [|room IH]; intros r0 oid v K G; cbn [Epistemic.capture]; [by split; [apply graph_grown_refl|]|].
  destruct (anx_uuid_is_nil oid); [by split; [apply graph_grown_refl|]|].
  destruct (slot_where (node_named oid) (e_nodes r0)) as [i|] eqn:Es.
  { rewrite land_bit, negb_involutive. destruct (Z.testbit v (Z.of_nat i)) eqn:Ev; [by split; [apply graph_grown_refl|]|].
    destruct (node_current sha256 current r0 i voter K) as [rc K1]. split; [apply graph_grown_refl|]. intros ->. split; [done|].
    apply slot_where_Some in Es as (m & Hm & Hid%node_named_spec). by exists m. }
  destruct (Z.of_nat (length (e_nodes r0)) =? ANX_EPISTEMIC_NODES) eqn:Eroom; [by split; [apply graph_grown_refl|]|].
  pose proof (snapshot_node r0 oid voter K) as Hsnap. destruct (snapshot r0 oid voter K) as [[rc0 [value|]] K1].
  2: by split; [apply graph_grown_refl|]. destruct Hsnap as [_ <-]. cbv zeta.
  set (i := length (e_nodes r0)). set (source := bool_decide (n_parents value = [])). set (mask := if source && negb (Z.of_nat (length (e_roots r0)) =? ANX_EPISTEMIC_ROOTS) then bit (length (e_roots r0)) else 0).
  set (node := value <| n_nodes := bit i |> <| n_roots := mask |>).
  destruct (source && (Z.of_nat (length (e_roots r0)) =? ANX_EPISTEMIC_ROOTS)) eqn:Efull.
  { split; [|done]. exists [node], []. rewrite app_nil_r. by destruct r0. }
  pose proof (add_graph r0 v value G Es Eroom Efull) as G2. pose proof (add_at r0 value) as Hnode.
  set (r2 := if source then r0 <| e_nodes ::= λ l, l ++ [node] |> <| e_roots ::= λ l, l ++ [n_oid value] |> else r0 <| e_nodes ::= λ l, l ++ [node] |>). fold source i mask node r2 in G2, Hnode.
  assert (r2 = r0 <| e_nodes := e_nodes r0 ++ [node] |> <| e_roots := e_roots r0 ++ if source then [n_oid value] else [] |>) as Er2.
  { unfold r2. destruct source; [by destruct r0|]. rewrite app_nil_r. by destruct r0. }
  assert (Z.testbit v (Z.of_nat i) = false) as Hvi.
  { apply not_true_iff_false. intros Hx%(go_visiting _ _ G). unfold i in Hx. lia. }
  pose proof (capture_parents_spec (λ r p K, capture room r p voter (Z.lor v (bit i)) K) (Z.lor v (bit i)) i
    (λ r p K G, IH r p (Z.lor v (bit i)) K G) (n_parents value) r2 K1 node [] G2) as Hloop.
  destruct (capture_parents _ (n_parents value) i r2 K1) as [[rc r3] K2]. destruct Hloop as [Hk Hok].
  - apply has_lor. right. by rewrite bit_testbit, bool_decide_true.
  - by apply Hnode.
  - done.
  - intros p Hp. by apply not_elem_of_nil in Hp.
  - split; [rewrite Er2 in Hk; by apply kept_grown in Hk|]. intros Hr. destruct (Hok Hr) as (G3 & n' & Hn' & Hid & Hpar & Hall).
    split; [|by exists n']. eapply finish_graph; [done|done|exact Hn'|]. by rewrite Hpar.
Qed.

(** What could not be finished is rolled back. *)
Lemma rolled_back_grown (r0 r' : epistemic_record) : grown r0 r' → rolled_back (length (e_nodes r0)) (length (e_roots r0)) r' = r0.
Proof. intros (N & R & ->). unfold rolled_back. cbn. rewrite !take_app_length. by destruct r0. Qed.
End capture.

(** The graph is the nodes and the roots. *)
Lemma graph_ext (x y : epistemic_record) v : e_nodes y = e_nodes x → e_roots y = e_roots x → graph_ok x v → graph_ok y v.
Proof.
  intros Hn Hr [G1 G2 G3 G4 G5 G6 G7 G8 G9]. assert (∀ a b, derives x a b → derives y a b) as Hd.
  { intros a b. unfold derives. apply rtc_congruence with (f := id). intros u p (m & Hm & ?). exists m. by rewrite Hn. }
  split; rewrite ?Hn, ?Hr; try done.
  - intros n Hin. destruct (G5 n Hin) as [S1 S2 S3]. split; rewrite ?Hn, ?Hr; [| |done].
    + intros k (b & ? & ?)%S1. exists b. auto.
    + intros k (b & ? & ?)%S2. exists b. auto.
  - intros i n Hi. destruct (G6 i n Hi) as [S1 S2 S3]. by split; rewrite ?Hr.
  - intros i n p Hi Hv' Hp. destruct (G7 i n p Hi Hv' Hp) as (j & m & Hm & Hrest). exists j, m. by rewrite Hn.
Qed.
