(* ===== verification/Reviews.v ===== *)
(** * Reviews over the life of the kernel

    What reviews promise whoever calls and in whatever order: a review keeps what
    it was opened on, every reviewer votes at most once, and a reviewed stage is
    published only while enough approvals stand. *)

From S2P Require Import Prelude Uuid Cell CellScope Sched CellStore EffectFence Meta Review StateObject Epistemic Stage ObjectProofs EpistemicProofs StageProofs Objects ReviewCut ReviewGraph.

(** ** Records *)

(** What a review was opened on and by whom. *)
Definition binding (x : epistemic_record) :=
  ((w_id (e_view x), w_owner (e_view x), w_target (e_view x), w_proposal_digest (e_view x), w_threshold (e_view x), w_minimum_cut (e_view x)),
   (e_spec x, e_owner x, e_reviewers x, e_owner_identity x, e_reviewer_identity x, e_proposal_size x, e_sensitivity x, e_base_version x)).

Record spec_ok (sp : anx_epistemic_spec) : Prop := {
  sk_count : 0 < sp_count sp ≤ 8;
  sk_threshold : 0 < sp_threshold sp ≤ sp_count sp;
  sk_cut : 0 < sp_minimum_cut sp ≤ sp_threshold sp;
}.

(** The masks of a vote are those of the node its evidence was captured as. *)
Definition vote_recorded (x : epistemic_record) (vote : evidence_vote) : Prop :=
  ∃ j n, e_nodes x !! j = Some n ∧ v_roots vote = n_roots n ∧ v_nodes vote = n_nodes n.

Record record_ok (x : epistemic_record) : Prop := {
  rk_spec : spec_ok (e_spec x);
  rk_graph : graph_ok x 0;
  rk_seats : length (e_votes x) = 8%nat;
  rk_votes : ∀ i, v_cast (vote_of x i) = true → vote_recorded x (vote_of x i);
}.

Record evolves (x y : epistemic_record) : Prop := {
  ev_binding : binding y = binding x;
  ev_nodes : e_nodes x `prefix_of` e_nodes y;
  ev_roots : e_roots x `prefix_of` e_roots y;
  ev_votes : ∀ i, v_cast (vote_of x i) = true → vote_of y i = vote_of x i;
  ev_state : w_state (e_view x) ≠ ANX_EPISTEMIC_OPEN → w_state (e_view y) = w_state (e_view x);
  ev_closed : w_state (e_view x) ≠ ANX_EPISTEMIC_OPEN → e_votes y = e_votes x;
  ev_ok : record_ok x → record_ok y;
}.

#[export] Instance evolves_po : PreOrder evolves.
Proof.
  split.
  - intros x. by split.
  - intros x y z [A1 A2 A3 A4 A5 A6 A7] [B1 B2 B3 B4 B5 B6 B7]. split; [congruence|by etrans|by etrans| | | |auto].
    + intros i Hi. rewrite B4 by (by rewrite A4). by apply A4.
    + intros Hx. rewrite B5; rewrite A5; done.
    + intros Hx. rewrite B6; [by apply A6|by rewrite A5].
Qed.

(** Only the view's counters and verdict change. *)
Lemma same_evolves x y : binding y = binding x → e_nodes y = e_nodes x → e_roots y = e_roots x → e_votes y = e_votes x →
  (w_state (e_view x) ≠ ANX_EPISTEMIC_OPEN → w_state (e_view y) = w_state (e_view x)) → evolves x y.
Proof.
  intros Hb Hn Hr Hv Hs. assert (∀ i, vote_of y i = vote_of x i) as Hvote by (intros i; unfold vote_of; by rewrite Hv).
  assert (e_spec y = e_spec x) as Hspec by (unfold binding in Hb; congruence). split; [done|by rewrite Hn|by rewrite Hr|done|done|done|].
  intros [K1 K2 K3 K4]. split; [by rewrite Hspec|by eapply graph_ext|by rewrite Hv|].
  intros i Hi. rewrite Hvote in Hi |- *. destruct (K4 i Hi) as (j & n & Hj & Hrest). exists j, n. by rewrite Hn.
Qed.

Lemma assessed_evolves x valid : evolves x (assessed x valid).
Proof. by apply same_evolves. Qed.

Lemma assess_evolves sha256 identity fuel current x K y K' : assess sha256 identity fuel current x K = Ret (y, K') →
  ∃ valid, y = assessed x valid ∧ valid_loop sha256 identity fuel current x (panel x) 0 K = Ret (valid, K').
Proof.
  unfold assess. destruct (valid_loop _ _ _ _ _ _ _ _) as [[v K1]| |]; try done. cbn [obind]. intros [= <- <-]. eauto.
Qed.

(** ** Casting a vote *)

Section vote.
Context (sha256 : list Z → list Z) (identity : anx_cell → Z * anx_uuid) (fuel : nat) (current : option anx_uuid).

(** The vote that [cast_vote] records for evidence [source]. *)
Definition vote_for (source : anx_uuid) (approve : bool) (y : epistemic_record) (vote : evidence_vote) : Prop :=
  v_cast vote = true ∧ v_approve vote = approve ∧
  ∃ j n, e_nodes y !! j = Some n ∧ n_oid n = source ∧ v_roots vote = n_roots n ∧ v_nodes vote = n_nodes n.

Lemma cast_vote_spec x voter source approve K rc y K' : record_ok x → v_cast (vote_of x voter) = false → (voter < 8)%nat →
  w_state (e_view x) = ANX_EPISTEMIC_OPEN →
  cast_vote sha256 identity fuel current x voter source approve K = Ret (rc, y, K') →
  (rc ≠ ANX_OK → y = x) ∧
  (rc = ANX_OK → evolves x y ∧ ∃ vote, vote_for source approve y vote ∧ e_votes y = <[voter := vote]> (e_votes x)).
Proof.
  intros Hok Hcast Hlt Hopen. unfold cast_vote. destruct (voter_current _ _ _ _ _) as [[rc0 K1]| |]; try done. cbn [obind].
  destruct (Z.eqb_spec rc0 ANX_OK) as [->|Hrc0]; cbn [negb]; [|by intros [= <- <- <-]].
  pose proof (capture_spec sha256 current (Z.to_nat ANX_EPISTEMIC_ROOTS) x source voter 0 K1 (rk_graph _ Hok)) as Hc.
  destruct (capture _ _ _ _ _ _ _ _) as [[[rc1 root] x1] K2]. destruct Hc as [Hg Hc]. cbv zeta.
  destruct (Z.eqb_spec rc1 ANX_OK) as [->|Hrc1]; cbn [negb]; [|intros [= <- <- <-]; split; [|done]; intros _; by apply rolled_back_grown].
  destruct (Hc eq_refl) as (G1 & n & Hn & Hid & _). rewrite Hn. destruct (nodes_current _ _ _ _ _ _ _) as [fresh K3].
  destruct fresh; cbn [negb]; [|intros [= <- <- <-]; split; [|done]; intros _; by apply rolled_back_grown].
  set (vote := EvidenceVote true approve (n_nodes n) (n_roots n)). set (x2 := x1 <| e_votes ::= _ |> <| e_view ::= _ |>).
  destruct (assess sha256 identity fuel current x2 K3) as [[y0 K4]| |] eqn:Ea; try done. cbn [obind]. intros [= <- <- <-]. split; [done|]. intros _.
  apply assess_evolves in Ea as (valid & -> & _).
  destruct Hg as (N & R & ->). cbn in Hn. destruct Hok as [K1' K2' K3' K4'].
  assert (∀ i, vote_of x2 i = if decide (i = voter) then vote else vote_of x i) as Hvotes.
  { intros i. unfold vote_of, x2. cbn. destruct (decide (i = voter)) as [->|Hne]; [by rewrite list_lookup_insert_eq by lia|by rewrite list_lookup_insert_ne]. }
  assert (evolves x x2) as Hev.
  { split; [done|by apply prefix_app_r|by apply prefix_app_r| |done|done|].
    - intros i Hi. rewrite Hvotes. destruct (decide (i = voter)) as [->|]; [congruence|done].
    - intros _. split; [done|refine (graph_ext _ x2 0 _ _ G1); done|cbn; by rewrite length_insert|]. intros i. rewrite Hvotes.
      destruct (decide (i = voter)) as [->|]; [intros _; by exists root, n|]. intros (j & m & Hj & Hrest)%K4'. exists j, m. cbn.
      split; [by apply lookup_app_l_Some|done]. }
  split; [etrans; [exact Hev|apply assessed_evolves]|]. exists vote. split; [|done]. split_and!; [done..|]. by exists root, n.
Qed.
End vote.

(** ** The table *)

(** A record as [anx_epistemic_begin] enters it. *)
Record opened (x : epistemic_record) : Prop := {
  op_ok : record_ok x;
  op_open : w_state (e_view x) = ANX_EPISTEMIC_OPEN;
  op_votes : ∀ i, v_cast (vote_of x i) = false;
}.

Inductive tstep : epistemic_table → epistemic_table → Prop :=
  | TUpdate i x y E : records E !! i = Some (Some x) → (record_ok x → evolves x y) → tstep E (put_record i y E)
  | TOpen i x E : records E !! i = Some None → opened x → w_id (e_view x) = sequence E + 1 →
      tstep E (put_record i x (E <| sequence := sequence E + 1 |>))
  | TForget i x E : records E !! i = Some (Some x) → w_state (e_view x) ≠ ANX_EPISTEMIC_OPEN →
      tstep E (E <| records ::= <[i := None]> |>).

Lemma find_record_Some E id i x : find_record E id = Some (i, x) → records E !! i = Some (Some x) ∧ w_id (e_view x) = id.
Proof.
  unfold find_record. destruct (slot_where (is_record id) (records E)) as [j|] eqn:Es; [|done]. apply slot_where_Some in Es as (o & Ho & Hp).
  rewrite Ho. destruct o as [y|]; [|done]. intros [= <- <-]. split; [done|]. by apply Z.eqb_eq.
Qed.

Lemma put_same E i x : records E !! i = Some (Some x) → put_record i x E = E.
Proof. intros Hx. unfold put_record. destruct E as [l sq]. cbn in *. f_equal. by apply list_insert_id. Qed.

Lemma put_steps E i x y : records E !! i = Some (Some x) → (record_ok x → evolves x y) → rtc tstep E (put_record i y E).
Proof. intros. by apply rtc_once, (TUpdate i x). Qed.

(** A table whose records are well formed, with ids of their own. *)
Record table_ok (E : epistemic_table) : Prop := {
  tk_records : ∀ i x, records E !! i = Some (Some x) → record_ok x ∧ 1 ≤ w_id (e_view x) ≤ sequence E;
  tk_ids : ∀ i j x y, records E !! i = Some (Some x) → records E !! j = Some (Some y) → w_id (e_view x) = w_id (e_view y) → i = j;
  tk_sequence : 0 ≤ sequence E;
}.

Lemma evolves_id x y : evolves x y → w_id (e_view y) = w_id (e_view x).
Proof. intros Hev. pose proof (ev_binding _ _ Hev) as Hb. unfold binding in Hb. congruence. Qed.

(** The slots of a table after one of them was written. *)
Lemma insert_slot (l : list (option epistemic_record)) i j o x : (<[i := o]> l) !! j = Some (Some x) →
  (i = j ∧ o = Some x) ∨ (i ≠ j ∧ l !! j = Some (Some x)).
Proof. intros [(-> & <- & _)|[Hne Hj]]%list_lookup_insert_Some; [by left|by right]. Qed.

Lemma tstep_ok E E' : tstep E E' → table_ok E → table_ok E'.
Proof.
  intros Hs [T1 T2 T3]. destruct Hs as [i x y E Hi Hev|i x E Hi Ho Hid|i x E Hi Hst]; split; cbn; try done; try lia.
  - intros j z [[<- [= <-]]|[_ Hj]]%insert_slot; [|by apply T1 with j]. destruct (T1 i x Hi) as [Hx ?]. specialize (Hev Hx). rewrite (evolves_id _ _ Hev).
    split; [by apply (ev_ok _ _ Hev)|done].
  - assert (∀ j z, <[i := Some y]> (records E) !! j = Some (Some z) → ∃ z0, records E !! j = Some (Some z0) ∧ w_id (e_view z0) = w_id (e_view z)) as Hold.
    { intros j z [[-> [= ->]]|[_ Hj]]%insert_slot; [|eauto]. exists x. split; [done|]. symmetry. apply evolves_id, Hev. by apply (T1 j x). }
    intros j k a b (a0 & Ha & <-)%Hold (b0 & Hb & <-)%Hold E1. by eapply (T2 _ _ a0 b0).
  - intros j z [[-> [= ->]]|[_ Hj]]%insert_slot; [rewrite Hid; split; [apply Ho|lia]|]. destruct (T1 j z Hj). split; [done|lia].
  - intros j k a b [[-> [= ->]]|[_ Ha]]%insert_slot [[-> [= ->]]|[_ Hb]]%insert_slot E1; [done| | |by eapply (T2 _ _ a b)].
    + destruct (T1 _ _ Hb). lia.
    + destruct (T1 _ _ Ha). lia.
  - intros j z [[_ ?]|[_ Hj]]%insert_slot; [done|by apply T1 with j].
  - intros j k a b [[_ ?]|[_ Ha]]%insert_slot; [done|]. intros [[_ ?]|[_ Hb]]%insert_slot E1; [done|]. by eapply (T2 _ _ a b).
Qed.

Lemma tsteps_ok E E' : rtc tstep E E' → table_ok E → table_ok E'.
Proof. induction 1 as [|E1 E2 E3 Hs _ IH]; [done|]. intros. by eapply IH, tstep_ok. Qed.

Lemma boot_table_ok : table_ok epistemic_boot.
Proof.
  assert (∀ i x, records epistemic_boot !! i ≠ Some (Some x)) as Hn by (intros i x Hx; by apply lookup_replicate in Hx as [? _]).
  split; [intros i x Hx; by destruct (Hn i x)|intros i j x y Hx; by destruct (Hn i x)|done].
Qed.

(** An id that was given out and that no record has. *)
Definition gone (id : Z) (E : epistemic_table) : Prop :=
  id ≤ sequence E ∧ ∀ j y, records E !! j = Some (Some y) → w_id (e_view y) ≠ id.

Lemma tstep_gone id E E' : tstep E E' → table_ok E → gone id E → gone id E'.
Proof.
  intros Hs HT [Hle Hno]. assert (sequence E ≤ sequence E') as Hsq by (destruct Hs; cbn; lia). split; [lia|].
  destruct Hs as [j a b E Hj Hab|j a E Hj Ho Hid|j a E Hj Hst]; cbn.
  - intros k z [[-> [= ->]]|[_ Hz]]%insert_slot; [|by eapply Hno]. rewrite (evolves_id _ _ (Hab (proj1 (tk_records _ HT k a Hj)))). by eapply Hno.
  - intros k z [[-> [= ->]]|[_ Hz]]%insert_slot; [lia|by eapply Hno].
  - intros k z [[_ ?]|[_ Hz]]%insert_slot; [done|by eapply Hno].
Qed.

Lemma tsteps_gone id E E' : rtc tstep E E' → table_ok E → gone id E → gone id E'.
Proof. induction 1 as [|E1 E2 E3 Hs _ IH]; [done|]. intros HT HF. apply IH; [by eapply tstep_ok|by eapply tstep_gone]. Qed.

(** A record and what becomes of it: it evolves in its slot until it is forgotten. *)
Definition follows (i : nat) (x : epistemic_record) (E : epistemic_table) : Prop :=
  (∃ y, records E !! i = Some (Some y) ∧ evolves x y) ∨ gone (w_id (e_view x)) E.

Lemma tstep_follows i x E E' : tstep E E' → table_ok E → follows i x E → follows i x E'.
Proof.
  intros Hs HT [(y & Hy & Hev)|Hg]; [|right; by eapply tstep_gone]. destruct Hs as [j a b E Hj Hab|j a E Hj Ho Hid|j a E Hj Hst].
  - destruct (decide (j = i)) as [->|Hne].
    + assert (a = y) as -> by congruence. left. exists b. cbn. rewrite list_lookup_insert_eq by by eapply lookup_lt_Some. split; [done|].
      etrans; [exact Hev|]. by apply Hab, (tk_records _ HT i y).
    + left. exists y. cbn. by rewrite list_lookup_insert_ne.
  - destruct (decide (j = i)) as [->|Hne]; [congruence|]. left. exists y. cbn. by rewrite list_lookup_insert_ne.
  - destruct (decide (j = i)) as [->|Hne]; [|left; exists y; cbn; by rewrite list_lookup_insert_ne]. right.
    pose proof (evolves_id _ _ Hev) as Hid. destruct (tk_records _ HT i y Hy) as [_ Hrange]. split; [cbn; lia|]. cbn.
    intros k z [[_ ?]|[Hne Hz]]%insert_slot; [done|]. intros E1. apply Hne. eapply (tk_ids _ HT i k y z); [done|done|congruence].
Qed.

Lemma tsteps_follows i x E E' : rtc tstep E E' → table_ok E → follows i x E → follows i x E'.
Proof. induction 1 as [|E1 E2 E3 Hs _ IH]; [done|]. intros HT HF. apply IH; [by eapply tstep_ok|by eapply tstep_follows]. Qed.

(** ** The operations on the table *)

Section steps.
Context (sha256 : list Z → list Z) (identity : anx_cell → Z * anx_uuid) (fuel : nat) (current : option anx_uuid).

Lemma assess_steps E i x K y K' : records E !! i = Some (Some x) → assess sha256 identity fuel current x K = Ret (y, K') →
  rtc tstep E (put_record i y E).
Proof. intros Hi (valid & -> & _)%assess_evolves. eapply put_steps; [done|]. intros _. apply assessed_evolves. Qed.

Lemma assess_reviews x K y K' : assess sha256 identity fuel current x K = Ret (y, K') → reviews K' = reviews K.
Proof. intros H. by apply assess_quiet in H as []. Qed.

Lemma stage_check_steps object K rc K' : anx_epistemic_stage_check sha256 identity fuel current object K = Ret (rc, K') →
  rtc tstep (reviews K) (reviews K').
Proof.
  unfold anx_epistemic_stage_check. destruct (so_staged object) as [stage|]; [|by intros [= _ <-]].
  destruct (_ =? 0); [by intros [= _ <-]|]. destruct (negb _); [by intros [= _ <-]|].
  destruct (find_record _ _) as [[slot x]|] eqn:Ef; [|by intros [= _ <-]]. destruct (negb _); [by intros [= _ <-]|]. destruct (negb _); [by intros [= _ <-]|].
  destruct (_ ≫= _) as [owner|]; [|done]. destruct (identity owner) as [rc0 idrec]. destruct (negb _); [by intros [= _ <-]|].
  destruct (assess sha256 identity fuel current x K) as [[y K1]| |] eqn:E; try done. cbn [obind]. intros [= _ <-].
  apply find_record_Some in Ef as [Hi _]. cbn. rewrite (assess_reviews _ _ _ _ E). by eapply assess_steps.
Qed.

Lemma resolve_steps object committed E : rtc tstep E (anx_epistemic_stage_resolve object committed E).
Proof.
  unfold anx_epistemic_stage_resolve. destruct (so_staged object) as [stage|]; [|done]. destruct (_ =? 0); [done|].
  destruct (find_record E _) as [[slot x]|] eqn:Ef; [|done]. apply find_record_Some in Ef as [Hi _].
  case_bool_decide as Hst; cbn [andb]; [|done]. destruct (_ && _); [|done]. eapply put_steps; [done|]. intros _. by apply same_evolves.
Qed.

Context (branch : anx_uuid → Z).

Lemma commit_check_steps now a K r K' : commit_check sha256 identity fuel branch current now a K = Ret (r, K') → rtc tstep (reviews K) (reviews K').
Proof.
  unfold commit_check. destruct (so_heap (objs K) !! a) as [o|]; [|done]. destruct (so_staged o) as [s|]; [|by intros [= _ <-]].
  pose proof (commit_authority_objs identity branch current now o s K) as [_ Hrev]. destruct (commit_authority _ _ _ _ _ _ _) as [rc K1]. cbn in Hrev. cbv zeta.
  destruct (_ =? ANX_OK); [|intros [= _ <-]; by rewrite Hrev]. intros Hs%stage_check_steps. by rewrite Hrev in Hs.
Qed.

Lemma resolve_one_steps now commit K a : rtc tstep (reviews K) (reviews (resolve_one sha256 now commit K a)).
Proof.
  unfold resolve_one, commit_publish, abort_discard. destruct commit; (destruct (so_heap (objs K) !! a) as [o|]; [|done]); (destruct (so_staged o); [|done]);
    apply resolve_steps.
Qed.

Lemma commit_steps now h K r K' : anx_object_commit sha256 identity fuel branch current now h K = Ret (r, K') → rtc tstep (reviews K) (reviews K').
Proof.
  unfold anx_object_commit. destruct (negb _); [by intros [= _ <-]|]. destruct (h ≫= h_obj) as [a|]; [|by intros [= _ <-]].
  destruct (commit_check _ _ _ _ _ _ _ _) as [[r1 K1]| |] eqn:E; try done. cbn [obind]. intros [= _ <-]. etrans; [by eapply commit_check_steps|].
  destruct (r1 =? ANX_OK); [|done]. apply (resolve_one_steps now true).
Qed.

Lemma abort_steps now h K r K' : anx_object_abort current now h K = Ret (r, K') → rtc tstep (reviews K) (reviews K').
Proof.
  unfold anx_object_abort. destruct (negb _); [by intros [= _ <-]|]. destruct (h ≫= h_obj) as [a|]; [|by intros [= _ <-]].
  destruct (abort_check _ _ _) as [r1| |]; try done. cbn [obind]. intros [= _ <-]. destruct (r1 =? ANX_OK); [|done]. apply (resolve_one_steps now false).
Qed.

Lemma check_all_steps now commit l K r K' : check_all sha256 identity fuel branch current now commit l K = Ret (r, K') → rtc tstep (reviews K) (reviews K').
Proof.
  revert K. induction l as [|a l IH]; intros K; cbn [check_all]; [by intros [= _ <-]|].
  destruct (if commit then _ else _) as [[r1 K1]| |] eqn:E; try done. cbn [obind].
  assert (rtc tstep (reviews K) (reviews K1)) as H1.
  { destruct commit; [by eapply commit_check_steps|]. destruct (abort_check _ _ _); try done. by injection E as _ <-. }
  destruct (negb _); [by intros [= _ <-]|]. intros HE. etrans; [exact H1|by apply IH].
Qed.

Lemma batch_steps now handles commit K r K' : resolve_batch sha256 identity fuel branch current now handles commit K = Ret (r, K') →
  rtc tstep (reviews K) (reviews K').
Proof.
  unfold resolve_batch. destruct handles as [hs|]; [|by intros [= _ <-]]. destruct (_ || _); [by intros [= _ <-]|].
  destruct (collect _ _ _) as [r1 l]. destruct (negb _); [by intros [= _ <-]|]. destruct (negb _); [by intros [= _ <-]|].
  destruct (check_all _ _ _ _ _ _ _ _ _) as [[r2 K2]| |] eqn:E; try done. cbn [obind]. intros [= _ <-]. etrans; [by eapply check_all_steps|].
  destruct (r2 =? ANX_OK); [|done]. generalize (sort_objects (objs K) l) as ls. intros ls. revert K2 E.
  assert (∀ K2, rtc tstep (reviews K2) (reviews (foldl (resolve_one sha256 now commit) K2 ls))) as Hf; [|auto].
  induction ls as [|a ls IH]; intros K2; cbn [foldl]; [done|]. etrans; [apply resolve_one_steps|apply IH].
Qed.

Lemma panel_loop_record l i x K rc y K' : panel_loop identity fuel l i x K = Ret (rc, y, K') →
  ∃ a b, y = x <| e_reviewers := a |> <| e_reviewer_identity := b |>.
Proof.
  assert (∀ x : epistemic_record, ∃ a b, x = x <| e_reviewers := a |> <| e_reviewer_identity := b |>) as Hid.
  { intros z. exists (e_reviewers z), (e_reviewer_identity z). by destruct z. }
  revert i x K. induction l as [|c l IH]; intros i x K; cbn [panel_loop]; [by intros [= _ <- _]|].
  destruct (_ >=? _). { destruct (negb _); [by intros [= _ <- _]|apply IH]. }
  destruct (_ || _); [by intros [= _ <- _]|]. destruct (existsb _ _); [by intros [= _ <- _]|].
  destruct (anx_cell_store_lookup (cells K) c) as [[cell|] st]; [|by intros [= _ <- _]]. destruct (identity cell) as [rc0 idrec]. cbv zeta.
  set (x1 := x <| e_reviewers ::= _ |> <| e_reviewer_identity ::= _ |>).
  assert (∃ a b, x1 = x <| e_reviewers := a |> <| e_reviewer_identity := b |>) as H1 by (eexists _, _; reflexivity).
  destruct (negb _); [by intros [= _ <- _]|]. destruct (voter_current _ _ x1 i _) as [[rc1 K1]| |]; try done. cbn [obind].
  destruct (negb _); [by intros [= _ <- _]|]. intros (a & b & ->)%IH. exists a, b. by unfold x1.
Qed.

Lemma new_graph_ok (x : epistemic_record) : e_nodes x = [] → e_roots x = [] → graph_ok x 0.
Proof using.
  intros Hn Hr. assert (∀ i n, e_nodes x !! i ≠ Some n) as H1 by (intros i n; by rewrite Hn).
  assert (∀ n, n ∉ e_nodes x) as H2 by (intros n; rewrite Hn; apply not_elem_of_nil).
  split; [rewrite Hn; cbn; lia|rewrite Hr; cbn; lia|intros i j n m Hi; by destruct (H1 i n)|intros k b; by rewrite Hr|intros n Hi; by destruct (H2 n)|
    intros i n Hi; by destruct (H1 i n)|intros i n p Hi; by destruct (H1 i n)|intros i n Hi; by destruct (H1 i n)|intros i; by rewrite Z.bits_0].
Qed.

Lemma spec_bad_ok sp : 0 ≤ sp_count sp ∧ 0 ≤ sp_threshold sp ∧ 0 ≤ sp_minimum_cut sp → spec_bad sp = false → spec_ok sp.
Proof using.
  intros (H1 & H2 & H3). unfold spec_bad, ANX_EPISTEMIC_REVIEWERS. rewrite !orb_false_iff, !Z.eqb_neq, !Z.gtb_ltb, !Z.ltb_ge. intros. split; lia.
Qed.

Lemma no_votes i : default no_vote (replicate 8 no_vote !! i) = no_vote.
Proof using. destruct (replicate 8 no_vote !! i) eqn:Er; [by apply lookup_replicate in Er as [-> _]|done]. Qed.

Lemma enter_steps a stage x K : opened x → rtc tstep (reviews K) (reviews (enter_record sha256 a stage x K).2).
Proof using.
  intros [Hok Hopen Hvotes]. unfold enter_record. destruct (slot_where _ _) as [slot|] eqn:Es; [|done].
  apply slot_where_Some in Es as (o & Ho & Hn). destruct o as [z|]; [by rewrite bool_decide_true in Hn|]. destruct (_ =? MAX64); [done|]. cbv zeta.
  apply rtc_once. eapply (TOpen slot _ (reviews K) Ho); [|reflexivity]. split; [|done|done].
  destruct Hok as [K1 K2 K3 K4]. split; [done|refine (graph_ext x _ 0 _ _ K2); done|done|done].
Qed.

Lemma begin_steps handlep specp out K rc view K' :
  (∀ sp, specp = Some sp → 0 ≤ sp_count sp ∧ 0 ≤ sp_threshold sp ∧ 0 ≤ sp_minimum_cut sp) →
  anx_epistemic_begin sha256 identity fuel current handlep specp out K = Ret (rc, view, K') → rtc tstep (reviews K) (reviews K').
Proof using.
  intros Hsp. unfold anx_epistemic_begin. destruct (bool_decide _); [by intros [= _ _ <-]|].
  destruct handlep as [[[a|] mode v]|], specp as [spec|]; try by intros [= _ _ <-].
  destruct (negb out); [by intros [= _ _ <-]|]. destruct (_ && _); [by intros [= _ _ <-]|]. destruct (so_alloc (objs K)) as [okm W].
  destruct (negb okm); [by intros [= _ _ <-]|]. destruct (so_heap W !! a) as [object|]; [|done]. destruct (spec_bad spec) eqn:Hbad; [by intros [= _ _ <-]|].
  destruct (so_staged object) as [stage|]; [|by intros [= _ _ <-]]. destruct (stage_bad object stage); [by intros [= _ _ <-]|].
  destruct (anx_cell_store_lookup _ _) as [[owner|] st]; [|by intros [= _ _ <-]]. destruct (identity owner) as [rc0 idrec]. cbv zeta.
  set (x0 := new_record _ _ _ _). set (K1 := K <| objs := W |> <| cells := st |>).
  destruct (if rc0 =? ANX_OK then panel_loop identity fuel (sp_reviewers spec) 0 x0 K1 else Ret (rc0, x0, K1)) as [[[rc1 x1] K2]| |] eqn:E; try done. cbn [obind].
  assert (reviews K2 = reviews K ∧ ∃ c d, x1 = x0 <| e_reviewers := c |> <| e_reviewer_identity := d |>) as (HR & c & d & ->).
  { destruct (rc0 =? ANX_OK); [split; [by apply panel_loop_objs in E as [_ ->]|by eapply panel_loop_record]|].
    injection E as _ <- <-. split; [done|]. by exists [], []. }
  set (x1 := x0 <| e_reviewers := c |> <| e_reviewer_identity := d |>).
  assert (opened x1) as Hopen.
  { assert (∀ i, vote_of x1 i = no_vote) as Hv by exact no_votes.
    split; [|done|intros i; by rewrite Hv]. split; [apply spec_bad_ok; [by apply Hsp|done]|by apply new_graph_ok|done|]. intros i. by rewrite Hv. }
  assert (rtc tstep (reviews K) (reviews (if rc1 =? ANX_OK then enter_record sha256 a stage x1 K2 else (rc1, None, K2)).2)) as Hs.
  { rewrite <- HR. destruct (rc1 =? ANX_OK); [by apply enter_steps|done]. }
  destruct (if rc1 =? ANX_OK then _ else _) as [[rc2 view2] K3]. cbn [snd] in Hs. intros [= _ _ <-]. by destruct (rc2 =? ANX_OK).
Qed.

Lemma cast_vote_reviews x voter source approve K rc y K' : cast_vote sha256 identity fuel current x voter source approve K = Ret (rc, y, K') → reviews K' = reviews K.
Proof using. intros H. by apply cast_vote_quiet in H as []. Qed.

Lemma voter_of_lt x caller voter : voter_of x caller = Some voter → (voter < Z.to_nat (sp_count (e_spec x)))%nat ∧ reviewer x voter = caller.
Proof using.
  unfold voter_of. intros (c & Hc & Hcmp)%slot_where_Some. apply lookup_take_Some in Hc as [Hc Hlt]. split; [done|].
  unfold reviewer. rewrite Hc. symmetry. by apply anx_uuid_compare_eq, Z.eqb_eq.
Qed.

Lemma vote_steps id evidence approve out K rc view K' :
  anx_epistemic_vote sha256 identity fuel current id evidence approve out K = Ret (rc, view, K') → rtc tstep (reviews K) (reviews K').
Proof using.
  unfold anx_epistemic_vote. destruct current as [caller|] eqn:Ecur; [|by intros [= _ _ <-]]. destruct evidence as [source|]; [|by intros [= _ _ <-]].
  destruct (_ || _); [by intros [= _ _ <-]|]. destruct (find_record _ _) as [[slot x]|] eqn:Ef; [|by intros [= _ _ <-]].
  destruct (voter_of x caller) as [voter|] eqn:Ev; [|by intros [= _ _ <-]]. case_bool_decide as Hst; cbn [negb]; [|by intros [= _ _ <-]].
  destruct (v_cast (vote_of x voter)) eqn:Hcast; [by intros [= _ _ <-]|]. rewrite <- Ecur.
  destruct (cast_vote _ _ _ _ _ _ _ _ _) as [[[rc1 y] K1]| |] eqn:E; try done. cbn [obind]. intros [= _ _ <-].
  apply find_record_Some in Ef as [Hi _]. cbn. rewrite (cast_vote_reviews _ _ _ _ _ _ _ _ E). eapply put_steps; [done|]. intros Hok.
  assert (voter < 8)%nat as Hlt by (apply voter_of_lt in Ev as [Ev _]; pose proof (sk_count _ (rk_spec _ Hok)); lia).
  destruct (cast_vote_spec _ _ _ _ x voter source approve K rc1 y K1 Hok Hcast Hlt Hst E) as [Hno Hyes].
  destruct (decide (rc1 = ANX_OK)) as [->|Hne]; [by apply Hyes|by rewrite (Hno Hne)].
Qed.

Lemma get_steps id out K rc view K' :
  anx_epistemic_get sha256 identity fuel current id out K = Ret (rc, view, K') → rtc tstep (reviews K) (reviews K').
Proof using.
  unfold anx_epistemic_get. destruct (_ || _); [by intros [= _ _ <-]|]. destruct (negb _); [by intros [= _ _ <-]|].
  destruct (find_record _ _) as [[slot x]|] eqn:Ef; [|by intros [= _ _ <-]]. apply find_record_Some in Ef as [Hi _].
  destruct (bool_decide _); [|intros [= _ _ <-]; cbn; by rewrite put_same].
  destruct (assess sha256 identity fuel current x K) as [[y K1]| |] eqn:E; try done. cbn [obind]. intros [= _ _ <-].
  cbn. rewrite (assess_reviews _ _ _ _ E). by eapply assess_steps.
Qed.

Lemma destroy_steps id K : rtc tstep (reviews K) (reviews (anx_epistemic_destroy current id K).2).
Proof using.
  unfold anx_epistemic_destroy. destruct (bool_decide _); [done|]. destruct (_ =? 0); [done|].
  destruct (find_record _ _) as [[slot x]|] eqn:Ef; [|done]. apply find_record_Some in Ef as [Hi _]. case_bool_decide as Hst; [done|].
  apply rtc_once. by apply (TForget slot x).
Qed.
End steps.

(** ** Runs *)

Section runs.
Context (sha256 : list Z → list Z) (ok : bool).
Context (uor_attach : anx_state_object → list bool → anx_meta_store * list bool).
Context (junk : Z → Z).
Abbreviation kstep := (kstep sha256 ok uor_attach junk).

Lemma read_reviews current h offset buf len K r d K' : anx_so_read_payload current h offset buf len K = Ret (r, d, K') → reviews K' = reviews K.
Proof.
  unfold anx_so_read_payload. destruct h as [[[a|] mode v]|]; try by intros [= _ _ <-].
  destruct (negb buf); [by intros [= _ _ <-]|]. destruct (negb _ && negb _); [by intros [= _ _ <-]|].
  destruct (so_heap (objs K) !! a) as [o|]; [|done]. destruct (_ || _); [by intros [= _ _ <-]|].
  destruct (_ >? 0x7fffffff); [by intros [= _ _ <-]|].
  destruct (anx_effect_fence_observe_read _ _ _ _ _) as [[e st] F]. destruct (negb _); [by intros [= _ _ <-]|].
  destruct (so_payload o) as [l|]; [|done]. destruct (_ >? Z.of_nat _); [done|]. by intros [= _ _ <-].
Qed.

Lemma kstep_reviews K K' : kstep K K' → rtc tstep (reviews K) (reviews K').
Proof.
  intros []; cbn; try done.
  - by rewrite (read_reviews _ _ _ _ _ _ _ _ _ H).
  - by eapply commit_steps.
  - by eapply abort_steps.
  - by eapply batch_steps.
  - by eapply begin_steps.
  - by eapply vote_steps.
  - by eapply get_steps.
  - apply destroy_steps.
Qed.

Lemma ksteps_reviews K K' : rtc kstep K K' → rtc tstep (reviews K) (reviews K').
Proof. induction 1 as [|K1 K2 K3 Hs _ IH]; [done|]. etrans; [by apply kstep_reviews|done]. Qed.

(** The kernel before any review exists. *)
Definition no_reviews (K : kernel) : Prop := reviews K = epistemic_boot.

Lemma reachable_table K0 K : no_reviews K0 → rtc kstep K0 K → table_ok (reviews K).
Proof. intros H0 Hr. eapply tsteps_ok; [by apply ksteps_reviews|]. rewrite H0. apply boot_table_ok. Qed.

(** A review keeps what it was opened on.  Take a review of any reachable
    state and let anything happen.  If a review with its id still exists, it is
    the same one in the same slot: bound to the same target, proposal digest,
    owner, panel and thresholds; every vote cast before stands unchanged, with
    its evidence; once committed or aborted it stays so and takes no more
    votes.  If it is gone, its id is never given to another review. *)
Theorem review_history K0 K K' id i x :
  no_reviews K0 → rtc kstep K0 K → find_record (reviews K) id = Some (i, x) → rtc kstep K K' →
  (∀ j y, find_record (reviews K') id = Some (j, y) → j = i ∧ evolves x y ∧ record_ok y) ∧
  (find_record (reviews K') id = None → ∀ K2 j y, rtc kstep K' K2 → find_record (reviews K2) id ≠ Some (j, y)).
Proof.
  intros H0 Hr Hf Hr'. pose proof (reachable_table K0 K H0 Hr) as HT. pose proof (ksteps_reviews K K' Hr') as Hs.
  pose proof (find_record_Some _ _ _ _ Hf) as [Hi Hid]. pose proof (tsteps_ok _ _ Hs HT) as HT'.
  assert (follows i x (reviews K')) as HF by (eapply tsteps_follows; [done|done|]; left; exists x; by split). split.
  - intros j y [Hj Hy]%find_record_Some. destruct HF as [(z & Hz & Hev)|[_ Hno]]; [|by destruct (Hno j y Hj); congruence].
    assert (j = i) as -> by (eapply (tk_ids _ HT' _ _ y z); [done|done|]; rewrite (evolves_id _ _ Hev); congruence).
    assert (y = z) as -> by congruence. split_and!; [done|done|]. by apply (tk_records _ HT' i z).
  - intros Hnone K2 j y Hr2 [Hj Hy]%find_record_Some. destruct HF as [(z & Hz & Hev)|HF].
    { unfold find_record in Hnone. destruct (slot_where _ _) as [k|] eqn:Es.
      - apply slot_where_Some in Es as (o & Ho & Hp). rewrite Ho in Hnone. by destruct o.
      - pose proof (slot_where_None _ _ (Some z) Es (list_elem_of_lookup_2 _ _ _ Hz)) as Hp. cbn in Hp.
        rewrite (evolves_id _ _ Hev) in Hp. apply Z.eqb_neq in Hp. congruence. }
    destruct (tsteps_gone _ _ _ (ksteps_reviews K' K2 Hr2) HT' HF) as [_ Hno]. destruct (Hno j y Hj). congruence.
Qed.
(** A vote rests on exactly what its evidence derives from.  In a reachable
    state, the vote any reviewer has cast names a captured object, and its masks
    are exactly the captured objects and the roots reachable from it over the
    recorded parents; there is at least one such root. *)
Theorem vote_evidence_exact K0 K id slot x i :
  no_reviews K0 → rtc kstep K0 K → find_record (reviews K) id = Some (slot, x) → v_cast (vote_of x i) = true →
  ∃ source, (∃ n, n ∈ e_nodes x ∧ n_oid n = source) ∧
    (∀ k, has (v_roots (vote_of x i)) k ↔ ∃ b, e_roots x !! k = Some b ∧ derives x source b) ∧
    (∀ j, has (v_nodes (vote_of x i)) j ↔ ∃ m, e_nodes x !! j = Some m ∧ derives x source (n_oid m)) ∧
    ∃ k, has (v_roots (vote_of x i)) k.
Proof.
  intros H0 Hr [Hi _]%find_record_Some Hc. destruct (tk_records _ (reachable_table K0 K H0 Hr) slot x Hi) as [[_ G _ Hv] _].
  destruct (Hv i Hc) as (j & n & Hj & -> & ->). exists (n_oid n). split_and!.
  - exists n. split; [by eapply list_elem_of_lookup_2|done].
  - intros k. by apply (roots_exact x G j n).
  - intros k. by apply (nodes_exact x G j n).
  - by apply (go_rooted _ _ G j n), Z.bits_0.
Qed.

(** ** What stands when a reviewed stage is published *)

Section standing.
Context (identity : anx_cell → Z * anx_uuid) (fuel : nat) (current : option anx_uuid).
Implicit Types (x : epistemic_record) (K : kernel).

(** The object behind a node is still the sealed, fitting, readable object
    that was captured. *)
Definition stands (W : objstore) x (reader : anx_uuid) (n : evidence_node) : Prop :=
  ∃ a object, find_oid W (n_oid n) = Some a ∧ so_heap W !! a = Some object ∧ so_state object = ANX_OBJ_SEALED ∧ evidence_fit x object = true ∧
    anx_access_evaluate (Some (so_access_policy object)) (Some reader) ANX_ACCESS_READ_PAYLOAD = ANX_OK ∧
    same_evidence (node_of sha256 (n_oid n) object) n = true.

(** An approval whose reviewer passed the identity and scope checks and all of
    whose evidence stands. *)
Definition approval_stands (W : objstore) x (i : nat) : Prop :=
  v_cast (vote_of x i) = true ∧ v_approve (vote_of x i) = true ∧
  (∃ K1 K2, objs K1 = W ∧ voter_current identity fuel x i K1 = Ret (ANX_OK, K2)) ∧
  ∀ j n, has (v_nodes (vote_of x i)) j → e_nodes x !! j = Some n → stands W x (reviewer x i) n.

Lemma snapshot_stands x oid voter K rc n K' : snapshot sha256 current x oid voter K = (rc, Some n, K') →
  ∃ a object, find_oid (objs K) oid = Some a ∧ so_heap (objs K) !! a = Some object ∧ so_state object = ANX_OBJ_SEALED ∧ evidence_fit x object = true ∧
    anx_access_evaluate (Some (so_access_policy object)) (Some (reviewer x voter)) ANX_ACCESS_READ_PAYLOAD = ANX_OK ∧ n = node_of sha256 oid object.
Proof.
  unfold snapshot. destruct (_ =? 0); [done|]. unfold anx_objstore_lookup. destruct (find_oid (objs K) oid) as [a|] eqn:Ef; [|done].
  cbn [so_heap so_update]. change (so_heap (so_update a ?f ?W)) with (alter f a (so_heap W)). rewrite lookup_alter_eq.
  destruct (so_heap (objs K) !! a) as [object|] eqn:Ho; cbn [fmap option_fmap option_map]; [|done].
  set (o1 := object <| so_refcount ::= _ |>). assert (evidence_fit x o1 = evidence_fit x object) as -> by done.
  destruct (evidence_fit x object) eqn:Ha; cbn [Z.eqb ANX_OK]; [|done].
  destruct (Z.eqb_spec (anx_access_evaluate (Some (so_access_policy o1)) (Some (reviewer x voter)) ANX_ACCESS_READ_PAYLOAD) ANX_OK) as [Hacc|Hacc]; cbn [andb].
  2: by rewrite (proj2 (Z.eqb_neq _ _) Hacc).
  assert (so_state object = ANX_OBJ_SEALED) as Hst by (unfold evidence_fit in Ha; rewrite !andb_true_iff in Ha; apply Z.eqb_eq; tauto).
  assert (∀ m : evidence_node, n = m → m = node_of sha256 oid o1 → ∃ a0 object0, Some a = Some a0 ∧ so_heap (objs K) !! a0 = Some object0 ∧ so_state object0 = ANX_OBJ_SEALED ∧
    evidence_fit x object0 = true ∧ anx_access_evaluate (Some (so_access_policy object0)) (Some (reviewer x voter)) ANX_ACCESS_READ_PAYLOAD = ANX_OK ∧
    n = node_of sha256 oid object0) as Hdone by (intros m -> ->; exists a, object; by split_and!).
  destruct (match current with Some caller => anx_uuid_compare caller (reviewer x voter) =? 0 | None => false end);
    [|destruct (_ =? ANX_OK); [|done]; intros [= _ <- _]; by eapply Hdone].
  destruct (anx_effect_fence_observe_read _ _ _ _ _) as [[rc1 st] F]. destruct (rc1 =? ANX_OK); [|done]. intros [= _ <- _]. by eapply Hdone.
Qed.

Lemma node_current_stands x j voter K K' n : node_current sha256 current x j voter K = (ANX_OK, K') → e_nodes x !! j = Some n →
  stands (objs K) x (reviewer x voter) n.
Proof.
  intros HE Hn. unfold node_current in HE. rewrite Hn in HE. pose proof (snapshot_node sha256 current x (n_oid n) voter K) as Hx.
  destruct (snapshot sha256 current x (n_oid n) voter K) as [[rc [now|]] K1] eqn:Es; [|by injection HE as -> _].
  destruct (same_evidence now n) eqn:E; [|discriminate]. apply snapshot_stands in Es as (a & object & ? & ? & ? & ? & ? & ->). exists a, object. by split_and!.
Qed.

Lemma nodes_current_stands x mask voter js K K' : refs_ok (objs K) → nodes_current sha256 current x mask voter js K = (true, K') →
  ∀ j n, j ∈ js → has mask j → e_nodes x !! j = Some n → stands (objs K) x (reviewer x voter) n.
Proof.
  intros Hrefs. revert K Hrefs. induction js as [|i js IH]; intros K Hrefs; cbn [nodes_current]; [by intros _ j n ?%not_elem_of_nil|].
  rewrite land_bit, negb_involutive. destruct (Z.testbit mask (Z.of_nat i)) eqn:Et.
  - pose proof (node_current_quiet sha256 current x i voter K) as [_ Hq _]. specialize (Hq Hrefs).
    destruct (node_current sha256 current x i voter K) as [rc K1] eqn:En. cbn in Hq. destruct (Z.eqb_spec rc ANX_OK) as [->|]; cbn [negb]; [|done].
    intros HE j n [->|Hj]%elem_of_cons Hm Hn; [by eapply node_current_stands|]. rewrite <- Hq. eapply (IH K1); [by rewrite Hq|done..].
  - intros HE j n [->|Hj]%elem_of_cons Hm Hn; [congruence|]. by eapply (IH K).
Qed.

Lemma vote_current_stands x i K K' : refs_ok (objs K) → vote_current sha256 identity fuel current x i K = Ret (true, K') → approval_stands (objs K) x i.
Proof.
  intros Hrefs. unfold vote_current. destruct (v_cast (vote_of x i)) eqn:Hc, (v_approve (vote_of x i)) eqn:Ha; cbn [negb orb]; try done.
  destruct (voter_current identity fuel x i K) as [[rc K1]| |] eqn:Ev; try done. cbn [obind]. destruct (Z.eqb_spec rc ANX_OK) as [->|]; cbn [negb]; [|done].
  destruct (voter_current_objs _ _ _ _ _ _ _ Ev) as [Ho _]. intros [= HE]. split_and!; [done|done|by exists K, K1|].
  intros j n Hj Hn. rewrite <- Ho. eapply nodes_current_stands; [by rewrite Ho|exact HE| |done|done]. apply elem_of_seq. apply lookup_lt_Some in Hn. lia.
Qed.

Lemma valid_loop_stands x js v K v' K' : refs_ok (objs K) → valid_loop sha256 identity fuel current x js v K = Ret (v', K') →
  ∀ i, has v' i → has v i ∨ (i ∈ js ∧ approval_stands (objs K) x i).
Proof.
  revert v K. induction js as [|i js IH]; intros v K Hrefs; cbn [valid_loop]; [intros [= -> _]; by left|].
  destruct (vote_current sha256 identity fuel current x i K) as [[b K1]| |] eqn:Ev; try done. cbn [obind]. intros HE j Hj.
  destruct (vote_current_quiet _ _ _ _ _ _ _ _ _ Ev) as [_ Hq _]. specialize (Hq Hrefs).
  destruct (IH _ K1 ltac:(by rewrite Hq) HE j Hj) as [H1|[H1 H2]]; [|right; rewrite Hq in H2; split; [by right|done]].
  destruct b; [|by left]. apply has_lor in H1 as [H1|H1]; [by left|right]. rewrite bit_testbit in H1. apply bool_decide_eq_true in H1 as <-.
  split; [left|by eapply vote_current_stands].
Qed.

Lemma valid_loop_nonneg x js v K v' K' : 0 ≤ v → valid_loop sha256 identity fuel current x js v K = Ret (v', K') → 0 ≤ v'.
Proof.
  revert v K. induction js as [|i js IH]; intros v K Hv; cbn [valid_loop]; [by intros [= <- _]|].
  destruct (vote_current sha256 identity fuel current x i K) as [[b K1]| |] eqn:Ev; try done. cbn [obind]. apply IH.
  destruct b; [|done]. apply Z.lor_nonneg. pose proof (bit_pos i). lia.
Qed.

(** What a ready verdict means for the approvals that stand. *)
Record decided (W : objstore) x (S0 : list nat) : Prop := {
  dc_distinct : NoDup S0;
  dc_stand : ∀ i, i ∈ S0 → Z.of_nat i < sp_count (e_spec x) ∧ approval_stands W x i;
  dc_enough : sp_threshold (e_spec x) ≤ Z.of_nat (length S0);
  dc_cut : ∀ F, subset_of F (length (e_roots x)) → weight F < sp_minimum_cut (e_spec x) →
    Z.of_nat (length (List.filter (λ i, negb (Z.land (v_roots (vote_of x i)) F =? 0)) S0)) < sp_threshold (e_spec x);
}.

Lemma assess_decided x K y K' : record_ok x → refs_ok (objs K) → assess sha256 identity fuel current x K = Ret (y, K') →
  w_ready (e_view y) = true → ∃ S0, decided (objs K) x S0.
Proof.
  intros [Hsp G _ _] Hrefs (valid & -> & Hloop)%assess_evolves Hready. pose proof (sk_count _ Hsp) as Hcount. pose proof (sk_threshold _ Hsp) as Hth.
  assert (∀ i, has valid i → i ∈ panel x ∧ approval_stands (objs K) x i) as Hst.
  { intros i Hi. destruct (valid_loop_stands x (panel x) 0 K valid K' Hrefs Hloop i Hi) as [H|H]; [by rewrite Z.bits_0 in H|done]. }
  assert (∀ i, i ∈ panel x → Z.of_nat i < sp_count (e_spec x)) as Hpanel by (intros i Hi%elem_of_seq; lia).
  assert (subset_of valid 8) as Hsub.
  { apply subset_intro; [by eapply valid_loop_nonneg in Hloop|]. intros i [Hi%Hpanel _]%Hst. lia. }
  destruct (assessed_cut x valid ltac:(lia) (go_roots _ _ G) ltac:(lia) Hsub) as (_ & Hr & Hc). apply Hr in Hready as [Hen Hmin].
  pose proof (sk_cut _ Hsp) as Hsk. destruct (Hc Hen) as [[E _]|(_ & _ & Hleast)]; [lia|].
  assert (∀ i, i ∈ members valid ↔ has valid i ∧ (i < 8)%nat) as Hmem.
  { intros i. unfold members. rewrite list_elem_of_In, filter_In, <- list_elem_of_In, elem_of_seq. split; intros [? ?]; split; try done; lia. }
  assert (NoDup (members valid)) as Hnd by (apply NoDup_ListNoDup, List.NoDup_filter, NoDup_ListNoDup, NoDup_seq).
  exists (members valid). split; [done| |exact Hen|].
  - intros i [Hi _]%Hmem. destruct (Hst i Hi) as [Hp Ha]. split; [by apply Hpanel|done].
  - intros F HF Hw. assert (¬ decisive x valid F) as Hd by (intros Hd; specialize (Hleast F HF Hd); lia). unfold decisive in Hd.
    apply (Z.le_lt_trans _ (Z.of_nat (length (resting x valid F)))); [|lia]. apply inj_le, NoDup_incl_length.
    + by apply List.NoDup_filter, NoDup_ListNoDup.
    + intros i [Hi%list_elem_of_In Hf]%filter_In. apply Hmem in Hi as [Hi _]. unfold resting. apply filter_In.
      split; [apply list_elem_of_In, Hst, Hi|by rewrite Hi, Hf].
Qed.

(** The check of [anx_object_commit] on a stage under review. *)
Lemma stage_check_decided object stage K K' : so_staged object = Some stage → epistemic_id stage ≠ 0 → table_ok (reviews K) → refs_ok (objs K) →
  anx_epistemic_stage_check sha256 identity fuel current object K = Ret (ANX_OK, K') →
  ∃ slot x, find_record (reviews K) (epistemic_id stage) = Some (slot, x) ∧ stage_matches object stage x = true ∧
    sha256 (firstn (Z.to_nat (e_proposal_size x)) (default [] (shadow_payload stage))) = w_proposal_digest (e_view x) ∧
    ∃ S0, decided (objs K) x S0.
Proof.
  intros Hs Hid HT Hrefs. unfold anx_epistemic_stage_check. rewrite Hs. rewrite (proj2 (Z.eqb_neq _ _) Hid).
  destruct (Z.eqb_spec (access current (snd <$> find_record (reviews K) (epistemic_id stage))) ANX_OK) as [_|Hacc]; cbn [negb]; [|by intros [= ? _]].
  destruct (find_record (reviews K) (epistemic_id stage)) as [[slot x]|] eqn:Ef; [|done].
  destruct (stage_matches object stage x) eqn:Em; cbn [negb]; [|done]. case_bool_decide as Hdig; cbn [negb]; [|done].
  destruct (_ ≫= _) as [owner|]; [|done]. destruct (identity owner) as [rc idrec].
  set (rc' := if (rc =? ANX_OK) && negb _ then ANX_EBUSY else rc). destruct (Z.eqb_spec rc' ANX_OK) as [_|Hrc]; cbn [negb]; [|by intros [= ? _]].
  destruct (assess sha256 identity fuel current x K) as [[y K1]| |] eqn:Ea; try done. cbn [obind].
  destruct (w_ready (e_view y)) eqn:Er; [|done]. intros _. exists slot, x. split_and!; [done..|].
  apply find_record_Some in Ef as [Hi _]. eapply assess_decided; [by apply (tk_records _ HT slot x)|done|done|done].
Qed.
End standing.

(** C18: A reviewed stage is published only as reviewed.  If a commit of a stage
    under review succeeds, the review is open and bound to that object, owner
    and version, the bytes published have the digest that was reviewed, and a
    set of approvals stands that reaches the threshold: distinct reviewers who
    approved, pass the identity and scope checks now, and whose evidence, down
    to its roots, is still the sealed evidence they voted on.  Whichever fewer
    than the required number of roots are discounted, the approvals that rest on
    them stay below the threshold. *)
Theorem reviewed_commit_sound K0 K K' a o s h identity fuel branch current now :
  no_reviews K0 → rtc kstep K0 K → refs_ok (objs K) → so_heap (objs K) !! a = Some o → so_staged o = Some s → h_obj h = Some a → epistemic_id s ≠ 0 →
  anx_object_commit sha256 identity fuel branch current now (Some h) K = Ret (ANX_OK, K') →
  ∃ slot x, find_record (reviews K) (epistemic_id s) = Some (slot, x) ∧ stage_matches o s x = true ∧
    sha256 (firstn (Z.to_nat (e_proposal_size x)) (default [] (shadow_payload s))) = w_proposal_digest (e_view x) ∧
    ∃ S0, decided identity fuel (objs K) x S0.
Proof.
  intros H0 Hr Hrefs Ho Hs Hh Hid. unfold anx_object_commit. destruct (Z.eqb_spec (writable_handle (Some h)) ANX_OK) as [_|Hw]; cbn [negb]; [|by intros [= ? _]].
  cbn [mbind option_bind]. rewrite Hh. destruct (commit_check _ _ _ _ _ _ _ _) as [[r1 K1]| |] eqn:E; try done. cbn [obind]. intros [= -> _].
  destruct (commit_check_spec _ _ _ _ _ _ _ _ _ _ E) as (_ & _ & Hok). destruct (Hok eq_refl) as (o' & s' & K2 & Ho' & Hp & _ & Hobj & Hrev & Hchk).
  pose proof (pb_staged _ _ _ Hp). assert (o' = o) as -> by congruence. rewrite <- Hrev, <- Hobj.
  eapply (stage_check_decided identity fuel current o s K2 K1); [done|done|rewrite Hrev; by eapply reachable_table|by rewrite Hobj|done].
Qed.
End runs.

(** ** A small review *)

Definition evidence (n : Z) : anx_uuid := Uuid 8 n.
Definition with_evidence (n addr : Z) (K : kernel) : kernel :=
  let W := (anx_so_create toy_hash toy_uor 5 6 (evidence n) addr (Some (doc_params 0 None)) true (objs K)).2 in
  with_objs K (anx_so_seal toy_uor 8 (evidence n) W).2.

(** The document of [k_doc], two sealed pieces of evidence, an owner and two reviewers. *)
Definition office : cell_store :=
  <[Uuid 1 1 := staff_cell]> (<[Uuid 2 2 := zero_cell (Uuid 2 2)]> {[ Uuid 3 3 := zero_cell (Uuid 3 3) ]}).
Definition k_evidence : kernel := with_evidence 2 400 (with_evidence 1 300 k_doc).
Definition k_office : kernel := Kernel (objs k_evidence) office (fences k_evidence) (reviews k_evidence).
Definition k_proposal : kernel := stage_at 100 k_office.

Definition two_reviewers : anx_epistemic_spec := EpistemicSpec 2 2 2 ([Uuid 2 2; Uuid 3 3] ++ replicate 6 ANX_UUID_NIL).
Definition begin_at (K : kernel) : kernel :=
  match anx_epistemic_begin toy_hash toy_identity 9 None (Some (rw_handle 100)) (Some two_reviewers) true K with Ret (_, _, K') => K' | _ => K end.
Definition vote_at (who : anx_uuid) (n : Z) (K : kernel) : kernel :=
  match anx_epistemic_vote toy_hash toy_identity 9 (Some who) 1 (Some (evidence n)) true true K with Ret (_, _, K') => K' | _ => K end.
Definition k_reviewed : kernel := vote_at (Uuid 3 3) 2 (vote_at (Uuid 2 2) 1 (begin_at k_proposal)).

Lemma evidence_step n addr K : so_heap (objs K) !! addr = None → rtc toy_step K (with_evidence n addr K).
Proof.
  intros Hn. eapply rtc_l; [apply (KCreate toy_hash true toy_uor toy_junk 5 6 (evidence n) addr (Some (doc_params 0 None)) true K); [done|]|].
  { intros _ p l [= <-] [= <-]. done. }
  apply rtc_once. apply (KSeal toy_hash true toy_uor toy_junk 8 (evidence n) (with_objs K _)).
Qed.

Lemma stage_step a K : rtc toy_step K (stage_at a K).
Proof.
  unfold stage_at. destruct (anx_object_stage _ _ _ _) as [[r W]| |] eqn:E; [|done|done]. apply rtc_once.
  by eapply (KStage toy_hash true toy_uor toy_junk).
Qed.

Lemma begin_step K : rtc toy_step K (begin_at K).
Proof.
  unfold begin_at. destruct (anx_epistemic_begin _ _ _ _ _ _ _ _) as [[[r v] K']| |] eqn:E; [|done|done]. apply rtc_once.
  eapply (KReview toy_hash true toy_uor toy_junk); [|exact E]. intros sp [= <-]. done.
Qed.

Lemma vote_step who n K : rtc toy_step K (vote_at who n K).
Proof.
  unfold vote_at. destruct (anx_epistemic_vote _ _ _ _ _ _ _ _ _) as [[[r v] K']| |] eqn:E; [|done|done]. apply rtc_once.
  by eapply (KVote toy_hash true toy_uor toy_junk).
Qed.

Lemma proposal_made : rtc toy_step k_boot k_proposal.
Proof.
  etrans; [apply doc_created|]. etrans; [apply (evidence_step 1 300); vm_compute; reflexivity|].
  etrans; [apply (evidence_step 2 400); vm_compute; reflexivity|].
  eapply rtc_l; [apply (KOther toy_hash true toy_uor toy_junk k_evidence office (fences k_evidence))|]. apply stage_step.
Qed.

Lemma review_made : rtc toy_step k_boot (vote_at (Uuid 2 2) 1 (begin_at k_proposal)).
Proof. etrans; [apply proposal_made|]. etrans; [apply begin_step|apply vote_step]. Qed.

Lemma reviewed_made : rtc toy_step k_boot k_reviewed.
Proof. etrans; [apply review_made|apply vote_step]. Qed.

Definition record_at (K : kernel) : epistemic_record := default two_votes (snd <$> find_record (reviews K) 1).
Definition staged_at (K : kernel) : anx_staged_mutation := default (StagedMutation None 0 ANX_UUID_NIL 0 0) (so_staged (obj_at K 100)).

(** The second vote leaves the first as it was. *)
Lemma review_history_witness :
  find_record (reviews k_reviewed) 1 = Some (0%nat, record_at k_reviewed) ∧
  evolves (record_at (vote_at (Uuid 2 2) 1 (begin_at k_proposal))) (record_at k_reviewed) ∧ record_ok (record_at k_reviewed).
Proof.
  split; [vm_compute; reflexivity|].
  destruct (review_history toy_hash true toy_uor toy_junk k_boot (vote_at (Uuid 2 2) 1 (begin_at k_proposal)) k_reviewed 1 0
    (record_at (vote_at (Uuid 2 2) 1 (begin_at k_proposal)))) as [H _].
  - reflexivity.
  - apply review_made.
  - vm_compute. reflexivity.
  - apply vote_step.
  - refine (proj2 (H 0%nat (record_at k_reviewed) _)). vm_compute. reflexivity.
Defined.

Lemma vote_evidence_exact_witness :
  v_cast (vote_of (record_at k_reviewed) 1) = true ∧ v_roots (vote_of (record_at k_reviewed) 1) = 2 ∧
  ∃ source, (∃ n, n ∈ e_nodes (record_at k_reviewed) ∧ n_oid n = source) ∧
    ∀ k, has (v_roots (vote_of (record_at k_reviewed) 1)) k ↔ ∃ b, e_roots (record_at k_reviewed) !! k = Some b ∧ derives (record_at k_reviewed) source b.
Proof.
  destruct (vote_evidence_exact toy_hash true toy_uor toy_junk k_boot k_reviewed 1 0 (record_at k_reviewed) 1) as (source & Hn & Hk & _ & _).
  - reflexivity.
  - apply reviewed_made.
  - vm_compute. reflexivity.
  - vm_compute. reflexivity.
  - split; [vm_compute; reflexivity|]. split; [vm_compute; reflexivity|]. exists source. split; [exact Hn|exact Hk].
Defined.

(** The proposal is published with both approvals. *)
Lemma reviewed_commit_sound_witness :
  ∃ K' slot x, toy_commit (Some (rw_handle 100)) k_reviewed = Ret (ANX_OK, K') ∧ find_record (reviews k_reviewed) 1 = Some (slot, x) ∧
    ∃ S0, decided toy_hash toy_identity 9 (objs k_reviewed) x S0.
Proof.
  destruct (toy_commit (Some (rw_handle 100)) k_reviewed) as [[r K']| |] eqn:E.
  2, 3: vm_compute in E; discriminate E.
  assert (r = ANX_OK) as -> by (apply (f_equal code) in E; vm_compute in E; symmetry; exact E).
  destruct (reviewed_commit_sound toy_hash true toy_uor toy_junk k_boot k_reviewed K' 100 (obj_at k_reviewed 100) (staged_at k_reviewed)
    (rw_handle 100) toy_identity 9 (λ _, ANX_OK) None 9) as (slot & x & Hf & _ & _ & Hd).
  - reflexivity.
  - apply reviewed_made.
  - apply refs_ok_dec. vm_compute. reflexivity.
  - vm_compute. reflexivity.
  - vm_compute. reflexivity.
  - reflexivity.
  - vm_compute. discriminate.
  - exact E.
  - exists K', slot, x. split; [reflexivity|]. split; [|exact Hd]. rewrite <- Hf. f_equal.
Defined.
