(* ===== verification/Effect.v ===== *)
(** * Protected operations: [kernel/core/cap/effect.c], [kernel/core/cap/sink.c]

    Prepare, dispatch, settle.  The identity check, the branch-group check and
    the object store are the services [effect.c] consults; they are parameters
    here.  A sink pointer is its slot in the registry. *)

From S2P Require Import Prelude Uuid Cell Sched CellStore EffectFence.

(** ** Sinks *)

Definition ANX_SINK_MAX : nat := 16.
Definition SINK_NAME_MAX : nat := 64.

Record anx_sink := Sink {
  sink_name : list Z;  (* without its terminator *)
  max_sensitivity : Z;
}.

Record sink_registry := SinkRegistry {
  sinks : list (anx_sink * bool);  (* [sinks[i]], [sink_active[i]] *)
  initialized : bool;
}.

Definition anx_sink_registry_init (current : option anx_uuid) (R : sink_registry) : sink_registry :=
  when bool_decide (is_Some current) ret R ;;
  SinkRegistry (replicate ANX_SINK_MAX (Sink [] ANX_SENSITIVITY_PUBLIC, false)) true.

Fixpoint sink_find (l : list (anx_sink * bool)) (nm : list Z) (i : Z) : option Z :=
  match l with
  | [] => None
  | (s, active) :: l => if active && bool_decide (sink_name s = nm) then Some i else sink_find l nm (i + 1)
  end.

Definition anx_sink_lookup (R : sink_registry) (namep : option (list Z)) : option Z :=
  namep ≫= λ nm, sink_find (sinks R) nm 0.

Fixpoint sink_free (l : list (anx_sink * bool)) (i : Z) : option Z :=
  match l with
  | [] => None
  | (_, active) :: l => if active then sink_free l (i + 1) else Some i
  end.

Definition anx_sink_register (current : option anx_uuid) (R : sink_registry) (namep : option (list Z))
    (max : Z) : Z * option Z * sink_registry :=
  when bool_decide (is_Some current) ret (ANX_EPERM, None, R) ;;
  match namep with
  | None => (ANX_EINVAL, None, R)
  | Some nm =>
      when bool_decide (nm = []) || (max <? 0) || (max >? ANX_SENSITIVITY_RESTRICTED)
        ret (ANX_EINVAL, None, R) ;;
      let R := if initialized R then R else anx_sink_registry_init current R in
      match anx_sink_lookup R (Some nm) with
      | Some i =>
          let s := rd (Sink [] 0, false) (sinks R) i in
          (ANX_OK, Some i, SinkRegistry (wr (sinks R) i (Sink (sink_name s.1) max, s.2)) (initialized R))
      | None =>
          match sink_free (sinks R) 0 with
          | Some i => (ANX_OK, Some i,
              SinkRegistry (wr (sinks R) i (Sink (anx_strlcpy nm SINK_NAME_MAX) max, true)) (initialized R))
          | None => (ANX_ENOMEM, None, R)
          end
      end
  end.

(** [sink->max_sensitivity]. *)
Definition sink_ceiling (R : sink_registry) (i : Z) : Z := max_sensitivity (rd (Sink [] 0, false) (sinks R) i).1.

(** ** Effects *)

Definition effect_transitions (old new_phase : Z) : bool :=
  ((old =? ANX_EFFECT_PREPARED) && (new_phase =? ANX_EFFECT_DISPATCHING))
  || ((old =? ANX_EFFECT_DISPATCHING)
      && ((new_phase =? ANX_EFFECT_COMMITTED) || (new_phase =? ANX_EFFECT_RESTORED)
          || (new_phase =? ANX_EFFECT_UNKNOWN))).

Definition effect_transition (effectp : option anx_pending_effect) (new_phase : Z)
    : Z * option anx_pending_effect :=
  match effectp with
  | None => (ANX_EINVAL, None)
  | Some effect =>
      let old := e_phase effect in
      when (old <? 0) || (old >? ANX_EFFECT_UNKNOWN) ret (ANX_EINVAL, effectp) ;;
      when (new_phase <? 0) || (new_phase >? ANX_EFFECT_UNKNOWN) ret (ANX_EINVAL, effectp) ;;
      when negb (effect_transitions old new_phase) ret (ANX_EINVAL, effectp) ;;
      (ANX_OK, Some (effect <| e_phase := new_phase |>))
  end.

Definition anx_effect_commit effectp := effect_transition effectp ANX_EFFECT_COMMITTED.
Definition anx_effect_restore effectp := effect_transition effectp ANX_EFFECT_RESTORED.
Definition anx_effect_mark_unknown effectp := effect_transition effectp ANX_EFFECT_UNKNOWN.

(** What the object store answers: the life-cycle state of an object, if it is
    there, and its sensitivity (public if it is not). *)
Inductive obj_state := ObjLive | ObjDeleted | ObjTombstone.

Section effect.
Context (identity_admit : anx_cell → Z).
Context (branch_group_effect_check : anx_uuid → Z).
Context (object_state : anx_uuid → option obj_state).
Context (object_sensitivity : anx_uuid → Z).

Definition anx_sink_check_send (R : sink_registry) (sink : option Z) (oidp : option anx_uuid) : Z :=
  match sink, oidp with
  | Some k, Some oid => if object_sensitivity oid >? sink_ceiling R k then ANX_EPERM else ANX_OK
  | _, _ => ANX_EINVAL
  end.

Definition effect_check_authority (current : option anx_uuid) (R : sink_registry) (st : cell_store)
    (F : fence_table) (cell_id : anx_uuid) (sink : option Z) (oidp : option anx_uuid) : Z * cell_store :=
  when match current with Some a => negb (uuid_eqb a cell_id) | None => false end
    ret (ANX_EPERM, st) ;;
  match anx_cell_store_lookup st cell_id with
  | (None, st) => (ANX_ENOENT, st)
  | (Some cell, st) =>
      let permitted := allow_side_effects (policy cell) && negb (anx_cell_status_terminal (status cell))
                       && (identity_admit cell =? ANX_OK) in
      let e := if permitted then anx_effect_fence_check_sink F (Some cell) (sink_ceiling R <$> sink)
               else ANX_EPERM in
      let e := if e =? ANX_OK then branch_group_effect_check cell_id else e in
      let st := anx_cell_store_release st cell_id in
      when negb (e =? ANX_OK) ret (e, st) ;;
      match sink with
      | None => (ANX_OK, st)
      | Some k =>
          let send := anx_sink_check_send R sink (Some (default ANX_UUID_NIL oidp)) in
          match oidp with
          | None => (send, st)
          | Some oid =>
              if anx_uuid_is_nil oid then (send, st)
              else match object_state oid with
                   | Some ObjLive => (send, st)
                   | _ => (ANX_ENOENT, st)
                   end
          end
      end
  end.

(** [alloc]: whether [anx_zalloc] succeeds. *)
Definition anx_effect_prepare (current : option anx_uuid) (alloc : bool) (now : Z) (R : sink_registry)
    (st : cell_store) (F : fence_table) (cell_id : anx_uuid) (sink : option Z) (oidp : option anx_uuid)
    : Z * option anx_pending_effect * cell_store * fence_table :=
  let '(e, st) := effect_check_authority current R st F cell_id sink oidp in
  when negb (e =? ANX_OK) ret (e, None, st, F) ;;
  match anx_cell_store_lookup st cell_id with
  | (None, st) => (ANX_ENOENT, None, st, F)
  | (Some owner, st) =>
      let '(e, fence_id, fence_epoch, F) := anx_effect_fence_check now F (Some owner) in
      let st := anx_cell_store_release st cell_id in
      when negb (e =? ANX_OK) ret (e, None, st, F) ;;
      when negb alloc ret (ANX_ENOMEM, None, st, F) ;;
      (ANX_OK, Some (PendingEffect cell_id sink (default ANX_UUID_NIL oidp) ANX_EFFECT_PREPARED
                       fence_id fence_epoch), st, F)
  end.

Definition anx_effect_mark_dispatching (current : option anx_uuid) (now : Z) (R : sink_registry)
    (st : cell_store) (F : fence_table) (effectp : option anx_pending_effect)
    : Z * cell_store * fence_table * option anx_pending_effect :=
  match effectp with
  | None => (ANX_EINVAL, st, F, None)
  | Some effect =>
      when negb (e_phase effect =? ANX_EFFECT_PREPARED) ret (ANX_EINVAL, st, F, effectp) ;;
      let '(e, st) := effect_check_authority current R st F (e_cell effect) (e_sink effect)
                        (Some (e_object_oid effect)) in
      when negb (e =? ANX_OK) ret (e, st, F, effectp) ;;
      anx_effect_fence_dispatch now (sink_ceiling R) st F effectp
  end.

(** ** Authority at dispatch *)

(** Everything the code promises to re-check before data leaves. *)
Record authorized (R : sink_registry) (st : cell_store) (F : fence_table) (eff : anx_pending_effect) : Prop := {
  au_cell : ∃ cell, st !! e_cell eff = Some cell ∧ allow_side_effects (policy cell) = true ∧
    anx_cell_status_terminal (status cell) = false ∧ effect_fence_id cell = e_fence_id eff;
  au_fence : anx_uuid_is_nil (e_fence_id eff) = false →
    ∃ i f, find_fence F (e_fence_id eff) = Some (i, f) ∧ f_state f = ANX_FENCE_RUNNING ∧
      f_epoch f = e_fence_epoch eff ∧
      match e_sink eff with
      | None => f_read_sensitivity f = ANX_SENSITIVITY_PUBLIC
      | Some k => f_read_sensitivity f ≤ sink_ceiling R k
      end;
  au_object : ∀ k, e_sink eff = Some k →
    object_sensitivity (e_object_oid eff) ≤ sink_ceiling R k ∧
    (anx_uuid_is_nil (e_object_oid eff) = false → object_state (e_object_oid eff) = Some ObjLive);
}.

Lemma check_authority_ok current R st F cell_id sink oidp st' :
  effect_check_authority current R st F cell_id sink oidp = (ANX_OK, st') →
  ∃ cell, st !! cell_id = Some cell ∧ allow_side_effects (policy cell) = true ∧
    anx_cell_status_terminal (status cell) = false ∧
    (∀ k, sink = Some k → object_sensitivity (default ANX_UUID_NIL oidp) ≤ sink_ceiling R k ∧
       (∀ oid, oidp = Some oid → anx_uuid_is_nil oid = false → object_state oid = Some ObjLive)) ∧
    st' = anx_cell_store_release (anx_cell_store_lookup st cell_id).2 cell_id.
Proof.
  unfold effect_check_authority, anx_cell_store_lookup.
  case_match; [discriminate|]. destruct (st !! cell_id) as [cell|] eqn:Hc; [|discriminate]. cbv zeta.
  set (c1 := cell <| refcount ::= _ |>).
  change (policy c1) with (policy cell). change (status c1) with (status cell).
  destruct (allow_side_effects (policy cell) && negb (anx_cell_status_terminal (status cell)) && _) eqn:Hp;
    [|intros Hx; cbn in Hx; discriminate].
  apply andb_true_iff in Hp as [Hp _]. apply andb_true_iff in Hp as [Hp1 Hp2%negb_true_iff].
  set (e1 := if _ =? ANX_OK then branch_group_effect_check cell_id else _).
  destruct (Z.eqb_spec e1 ANX_OK) as [_|Hne]; cbn [negb]; [|intros Hx; injection Hx as ? _; congruence].
  clear H. intros H. exists cell. cbn [snd].
  assert (∀ k, sink = Some k → anx_sink_check_send R sink (Some (default ANX_UUID_NIL oidp)) = ANX_OK →
    object_sensitivity (default ANX_UUID_NIL oidp) ≤ sink_ceiling R k) as Hsend.
  { intros k -> Hs. unfold anx_sink_check_send in Hs.
    destruct (Z.gtb_spec (object_sensitivity (default ANX_UUID_NIL oidp)) (sink_ceiling R k)); [discriminate|done]. }
  split_and!; try done.
  - intros k ->. destruct oidp as [oid|].
    + destruct (anx_uuid_is_nil oid) eqn:En.
      * injection H as H _. split; [by apply Hsend|]. intros o [= <-]. congruence.
      * destruct (object_state oid) as [[]|] eqn:Eo; try discriminate. injection H as H _.
        split; [by apply Hsend|]. by intros o [= <-].
    + injection H as H _. split; [by apply Hsend|]. done.
  - destruct sink as [k|]; [|by injection H as <-].
    destruct oidp as [oid|]; [|by injection H as _ <-].
    destruct (anx_uuid_is_nil oid); [by injection H as _ <-|].
    destruct (object_state oid) as [[]|]; try discriminate. by injection H as _ <-.
Qed.
End effect.

(** A fence that lets an effect through is running and stays as it is. *)
Lemma state_check_pass now f f' :
  fence_ok f → state_check now f = (ANX_OK, f') → f' = f ∧ f_state f = ANX_FENCE_RUNNING.
Proof.
  intros Hok H. destruct (state_check_ok now f ANX_OK f' Hok H) as (_ & _ & He & Hcl & Hexp).
  destruct (closed (f_state f)) eqn:Hc; [rewrite state_check_closed_id in H by done; discriminate|].
  destruct (expired now f) eqn:Ex.
  { destruct (state_check_expired now f Hc Ex Hok) as (f2 & E & _). rewrite E in H. discriminate. }
  rewrite state_check_open in H by done. destruct (Z.eqb_spec (f_state f) ANX_FENCE_HELD); [discriminate|].
  injection H as <-. split; [done|]. pose proof (fo_state _ Hok). unfold closed in Hc. to_prop.
  unfold ANX_FENCE_RUNNING, ANX_FENCE_HELD, ANX_FENCE_REJECTED in *. lia.
Qed.

Lemma store_bump_policy st c c' cell :
  st !! c' = Some cell →
  ∃ n, (anx_cell_store_release (anx_cell_store_lookup st c).2 c) !! c' = Some (cell <| refcount := n |>).
Proof.
  intros H. unfold anx_cell_store_lookup. destruct (st !! c) as [x|] eqn:Hc; cbn [snd].
  2: { unfold anx_cell_store_release. rewrite Hc. exists (refcount cell). rewrite H. by destruct cell. }
  unfold anx_cell_store_release. rewrite lookup_insert_eq.
  destruct (decide (c = c')) as [->|Hne].
  - rewrite H in Hc. injection Hc as <-.
    case_match; [rewrite lookup_insert_eq|rewrite lookup_insert_eq]; eexists; cbn; by destruct cell.
  - exists (refcount cell). case_match; rewrite !lookup_insert_ne by done; rewrite H; by destruct cell.
Qed.

(** C4: Dispatch re-checks everything.  When [anx_effect_mark_dispatching]
    succeeds, at that moment the owning cell exists, is not terminal, permits
    side effects and is still bound to the fence the effect was prepared under;
    that fence is running, in the epoch of the preparation, and the label of
    what the run has read fits the sink; the object being sent is live and its
    sensitivity is within the ceiling of the sink.  A refused dispatch leaves
    the effect as it was. *)
Theorem dispatch_authorized identity branch ostate osens current now R st F eff e st' F' eff' :
  rtc fence_step [] F →
  anx_effect_mark_dispatching identity branch ostate osens current now R st F (Some eff) = (e, st', F', eff') →
  if decide (e = ANX_OK)
  then authorized ostate osens R st F eff ∧ F' = F ∧ eff' = Some (eff <| e_phase := ANX_EFFECT_DISPATCHING |>)
  else eff' = Some eff.
Proof.
  intros Hr. destruct (steps_good [] F empty_table_ok Hr) as [Hok _].
  unfold anx_effect_mark_dispatching. destruct (negb (e_phase eff =? ANX_EFFECT_PREPARED)) eqn:Hph; [by intros [= <- <- <- <-]|].
  destruct (effect_check_authority _ _ _ _ _ _ _ _ _ _ _) as [e1 st1] eqn:Ha.
  destruct (Z.eqb_spec e1 ANX_OK) as [->|]; cbn [negb]; [|intros [= <- <- <- <-]; by rewrite decide_False].
  apply check_authority_ok in Ha as (cell & Hcell & Hse & Hterm & Hobj & ->).
  destruct (store_bump_policy st (e_cell eff) _ cell Hcell) as [n Hn].
  unfold anx_effect_fence_dispatch. rewrite Hph.
  unfold anx_cell_store_lookup at 1. rewrite Hn. cbv beta iota zeta.
  match goal with |- context [effect_fence_id ?c] => change (effect_fence_id c) with (effect_fence_id cell) end.
  destruct (uuid_eqb_spec (effect_fence_id cell) (e_fence_id eff)) as [Hfid|]; cbn [negb]; [|by intros [= <- <- <- <-]].
  assert (∀ (G : anx_uuid_is_nil (e_fence_id eff) = false →
      ∃ i f, find_fence F (e_fence_id eff) = Some (i, f) ∧ f_state f = ANX_FENCE_RUNNING ∧
        f_epoch f = e_fence_epoch eff ∧
        match e_sink eff with
        | None => f_read_sensitivity f = ANX_SENSITIVITY_PUBLIC
        | Some k => f_read_sensitivity f ≤ sink_ceiling R k
        end), authorized ostate osens R st F eff) as Hauth.
  { intros G. constructor; [by exists cell|done|]. intros k Hk. destruct (Hobj k Hk). split; [done|]. eauto. }
  destruct (anx_uuid_is_nil (e_fence_id eff)) eqn:Hnil.
  { destruct (e_fence_epoch eff =? 0); intros [= <- <- <- <-]; [|done]. split_and!; [by apply Hauth|done|done]. }
  destruct (find_fence F (e_fence_id eff)) as [[i f]|] eqn:Hf; [|by intros [= <- <- <- <-]].
  destruct (Z.eqb_spec (f_epoch f) (e_fence_epoch eff)) as [Hep|]; cbn [negb]; [|by intros [= <- <- <- <-]].
  destruct (state_check now f) as [e2 f2] eqn:Hsc. pose proof (find_fence_Some _ _ _ _ Hf) as [Hi _].
  destruct (Z.eqb_spec e2 ANX_OK) as [->|Hne].
  2: { intros [= <- <- <- <-]. rewrite decide_False by done. by rewrite (proj2 (Z.eqb_neq _ _) Hne). }
  apply state_check_pass in Hsc as [-> Hrun]; [|by eapply table_fence].
  destruct (Z.eqb_spec (sink_check (Some f) (sink_ceiling R <$> e_sink eff)) ANX_OK) as [Es|Es];
    intros [= <- <- <- <-]; [rewrite decide_True by done|by rewrite decide_False].
  split_and!; [|by apply list_insert_id|done]. apply Hauth. intros _. exists i, f. split_and!; try done.
  apply sink_check_ok in Es. by destruct (e_sink eff).
Qed.

(** A cell that may act, bound to a running fence, and one registered sink. *)
Definition acting_cell : anx_cell :=
  run_cell <| status := ANX_CELL_RUNNING |> <| policy ::= λ p, p <| allow_side_effects := true |> |>.
Definition acting_store : cell_store := {[ Uuid 1 1 := acting_cell ]}.
Definition one_sink : sink_registry :=
  (anx_sink_register None (SinkRegistry [] false) (Some [110; 101; 116]) 2).2.
Definition sent_effect : anx_pending_effect :=
  PendingEffect (Uuid 1 1) (Some 0) (Uuid 9 9) ANX_EFFECT_PREPARED fence0 1.

Lemma dispatch_authorized_witness :
  ∃ st' F' eff', anx_effect_mark_dispatching (λ _, ANX_OK) (λ _, ANX_OK) (λ _, Some ObjLive) (λ _, 2)
      (Some (Uuid 1 1)) 9 one_sink acting_store leased_table (Some sent_effect) = (ANX_OK, st', F', eff') ∧
    (if decide (ANX_OK = ANX_OK)
     then authorized (λ _, Some ObjLive) (λ _, 2) one_sink acting_store leased_table sent_effect ∧
       F' = leased_table ∧ eff' = Some (sent_effect <| e_phase := ANX_EFFECT_DISPATCHING |>)
     else eff' = Some sent_effect).
Proof.
  eexists _, _, _. split; [vm_compute; reflexivity|].
  eapply (dispatch_authorized (λ _, ANX_OK) (λ _, ANX_OK) (λ _, Some ObjLive) (λ _, 2)
    (Some (Uuid 1 1)) 9 one_sink acting_store leased_table sent_effect ANX_OK).
  - unfold leased_table. cbv zeta. eapply rtc_r; [eapply rtc_r; [apply rtc_refl|]|]; constructor. lia.
  - vm_compute. reflexivity.
Defined.

(** ** The life of an effect *)

(** The calls on a pending effect, with what the world looks like at a
    dispatch. *)
Inductive effect_op :=
  | OpDispatch (identity : anx_cell → Z) (branch : anx_uuid → Z) (ostate : anx_uuid → option obj_state)
      (osens : anx_uuid → Z) (current : option anx_uuid) (now : Z) (R : sink_registry) (st : cell_store) (F : fence_table)
  | OpCommit | OpRestore | OpUnknown.

Definition run_effect_op (eff : anx_pending_effect) (op : effect_op) : Z * anx_pending_effect :=
  match op with
  | OpDispatch identity branch ostate osens current now R st F =>
      let '(e, _, _, eff') := anx_effect_mark_dispatching identity branch ostate osens current now R st F (Some eff) in
      (e, default eff eff')
  | OpCommit => let '(e, eff') := anx_effect_commit (Some eff) in (e, default eff eff')
  | OpRestore => let '(e, eff') := anx_effect_restore (Some eff) in (e, default eff eff')
  | OpUnknown => let '(e, eff') := anx_effect_mark_unknown (Some eff) in (e, default eff eff')
  end.

(** The phases an effect enters under a sequence of calls. *)
Fixpoint phases (eff : anx_pending_effect) (ops : list effect_op) : list Z :=
  match ops with
  | [] => []
  | op :: ops =>
      let '(e, eff') := run_effect_op eff op in
      if e =? ANX_OK then e_phase eff' :: phases eff' ops else phases eff' ops
  end.

Definition settled (p : Z) : Prop := p = ANX_EFFECT_COMMITTED ∨ p = ANX_EFFECT_RESTORED ∨ p = ANX_EFFECT_UNKNOWN.

(** A dispatch only ever moves the phase, and only on success. *)
Lemma dispatch_phase now sink_max st F eff :
  ∃ e st' F', anx_effect_fence_dispatch now sink_max st F (Some eff)
    = (e, st', F', Some (if e =? ANX_OK then eff <| e_phase := ANX_EFFECT_DISPATCHING |> else eff)).
Proof.
  unfold anx_effect_fence_dispatch. destruct (anx_cell_store_lookup st (e_cell eff)) as [[c|] st2]; [|by exists ANX_ENOENT, st2, F].
  match goal with |- context [(if negb (e_phase eff =? ?p) then ?a else ?b)] =>
    destruct (if negb (e_phase eff =? p) then a else b) as [e2 F2] end.
  eexists e2, _, F2. by destruct (e2 =? ANX_OK).
Qed.

(** One call: it fails and changes nothing, or takes an edge of the table. *)
Lemma run_effect_op_spec eff op e eff' :
  run_effect_op eff op = (e, eff') →
  (e ≠ ANX_OK ∧ eff' = eff) ∨
  (e = ANX_OK ∧ e_phase eff = ANX_EFFECT_PREPARED ∧ e_phase eff' = ANX_EFFECT_DISPATCHING) ∨
  (e = ANX_OK ∧ e_phase eff = ANX_EFFECT_DISPATCHING ∧ settled (e_phase eff')).
Proof.
  assert (∀ p, settled p → ∀ e eff', (let '(e, eff') := effect_transition (Some eff) p in (e, default eff eff')) = (e, eff') →
    (e ≠ ANX_OK ∧ eff' = eff) ∨ (e = ANX_OK ∧ e_phase eff = ANX_EFFECT_DISPATCHING ∧ settled (e_phase eff'))) as Hset.
  { intros p Hp e0 eff0. unfold effect_transition. cbv zeta.
    destruct ((e_phase eff <? 0) || _); [intros [= <- <-]; by left|].
    destruct ((p <? 0) || _); [intros [= <- <-]; by left|].
    destruct (effect_transitions (e_phase eff) p) eqn:Et; cbn [negb]; intros [= <- <-]; [right|by left].
    split_and!; [done| |done]. unfold effect_transitions in Et. apply orb_true_iff in Et as [Et|Et].
    - apply andb_true_iff in Et as [_ Et%Z.eqb_eq]. subst p. by destruct Hp as [?|[?|?]].
    - by apply andb_true_iff in Et as [Et%Z.eqb_eq _]. }
  destruct op as [identity branch ostate osens current now R st F| | |]; cbn [run_effect_op].
  - unfold anx_effect_mark_dispatching. destruct (Z.eqb_spec (e_phase eff) ANX_EFFECT_PREPARED) as [Hp|]; cbn [negb].
    2: { intros [= <- <-]. by left. }
    destruct (effect_check_authority _ _ _ _ _ _ _ _ _ _ _) as [e1 st1].
    destruct (Z.eqb_spec e1 ANX_OK) as [->|]; cbn [negb]; [|intros [= <- <-]; by left].
    destruct (dispatch_phase now (sink_ceiling R) st1 F eff) as (e2 & st2 & F2 & ->).
    destruct (Z.eqb_spec e2 ANX_OK) as [->|]; intros [= <- <-]; [right; left|by left]. by split_and!.
  - intros H. apply Hset in H as [?|?]; [by left|by right; right|by left].
  - intros H. apply Hset in H as [?|?]; [by left|by right; right|by right; left].
  - intros H. apply Hset in H as [?|?]; [by left|by right; right|by right; right].
Qed.

Lemma phases_settled eff ops : settled (e_phase eff) → phases eff ops = [].
Proof.
  intros Hs. induction ops as [|op ops IH]; [done|]. cbn [phases].
  destruct (run_effect_op eff op) as [e eff'] eqn:E.
  destruct (run_effect_op_spec eff op e eff' E) as [[He ->]|[(_ & Hp & _)|(_ & Hp & _)]].
  - by rewrite (proj2 (Z.eqb_neq _ _) He).
  - rewrite Hp in Hs. by destruct Hs as [?|[?|?]].
  - rewrite Hp in Hs. by destruct Hs as [?|[?|?]].
Qed.

Lemma phases_dispatching eff ops :
  e_phase eff = ANX_EFFECT_DISPATCHING → phases eff ops = [] ∨ ∃ p, phases eff ops = [p] ∧ settled p.
Proof.
  intros Hs. induction ops as [|op ops IH]; [by left|]. cbn [phases].
  destruct (run_effect_op eff op) as [e eff'] eqn:E.
  destruct (run_effect_op_spec eff op e eff' E) as [[He ->]|[(_ & Hp & _)|(-> & _ & Hp)]].
  - by rewrite (proj2 (Z.eqb_neq _ _) He).
  - by rewrite Hp in Hs.
  - right. exists (e_phase eff'). split; [|done]. cbn. by rewrite phases_settled.
Qed.

(** Whatever calls are made on a prepared effect, in whatever order and
    however often, it is dispatched at most once and settled at most once, and
    never settled before it was dispatched: the phases it enters are none,
    [DISPATCHING], or [DISPATCHING] and then one of [COMMITTED], [RESTORED] and
    [UNKNOWN], from which there is no way out. *)
Theorem effect_at_most_once eff ops :
  e_phase eff = ANX_EFFECT_PREPARED →
  phases eff ops = [] ∨ phases eff ops = [ANX_EFFECT_DISPATCHING] ∨
  ∃ p, phases eff ops = [ANX_EFFECT_DISPATCHING; p] ∧ settled p.
Proof.
  intros Hs. induction ops as [|op ops IH]; [by left|]. cbn [phases].
  destruct (run_effect_op eff op) as [e eff'] eqn:E.
  destruct (run_effect_op_spec eff op e eff' E) as [[He ->]|[(-> & _ & Hp)|(_ & Hp & _)]].
  - by rewrite (proj2 (Z.eqb_neq _ _) He).
  - right. cbn. rewrite Hp. destruct (phases_dispatching eff' ops Hp) as [->|(p & -> & ?)]; [by left|right].
    by exists p.
  - by rewrite Hp in Hs.
Qed.

Lemma effect_at_most_once_witness :
  let D := OpDispatch (λ _, ANX_OK) (λ _, ANX_OK) (λ _, Some ObjLive) (λ _, 2) None 9 one_sink acting_store leased_table in
  phases sent_effect [OpCommit; D; D; OpUnknown; OpCommit] = [ANX_EFFECT_DISPATCHING; ANX_EFFECT_UNKNOWN] ∧
  (phases sent_effect [OpCommit; D; D; OpUnknown; OpCommit] = [] ∨
   phases sent_effect [OpCommit; D; D; OpUnknown; OpCommit] = [ANX_EFFECT_DISPATCHING] ∨
   ∃ p, phases sent_effect [OpCommit; D; D; OpUnknown; OpCommit] = [ANX_EFFECT_DISPATCHING; p] ∧ settled p).
Proof.
  split; [vm_compute; reflexivity|]. apply (effect_at_most_once sent_effect). reflexivity.
Defined.
