(* ===== verification/CellDerive.v ===== *)
(** * Derived cells: [anx_cell_derive_child] of [kernel/core/exec/runtime.c]

    A running cell delegates by deriving a child.  The child copies every
    policy of its parent and draws on the child budget of the run's fence.
    [identity_admit] is the identity service. *)

From S2P Require Import Prelude Uuid Cell CellScope Sched CellStore EffectFence.

(** The lineage and the policies the child takes over. *)
Definition inherit (parent child : anx_cell) : anx_cell :=
  child <| parent_cid := cid parent |> <| identity_id := identity_id parent |>
        <| effect_fence_id := effect_fence_id parent |> <| tool_namespace_id := tool_namespace_id parent |>
        <| revision_lease_id := revision_lease_id parent |>
        <| recursion_depth := u32 (recursion_depth parent + 1) |>
        <| constraints := constraints parent |> <| policy := policy parent |>
        <| cognitive_max_tokens := cognitive_max_tokens parent |>
        <| cognitive_max_reasoning_depth := cognitive_max_reasoning_depth parent |>
        <| contract_consistency := contract_consistency parent |>
        <| contract_effect_mode := contract_effect_mode parent |>.

Section derive.
Context (identity_admit : anx_cell → Z).

Definition anx_cell_derive_child (fuel : nat) (current : option anx_uuid) (alloc : bool) (fresh : anx_uuid)
    (now : Z) (st : cell_store) (F : fence_table) (parentp : option anx_uuid) (type : Z)
    (intentp : option anx_cell_intent) : outcome (Z * option anx_uuid * cell_store * fence_table) :=
  match parentp, parentp ≫= (st !!.) with
  | Some p, Some parent =>
      when match current with Some a => negb (uuid_eqb a (cid parent)) | None => false end
        ret Ret (ANX_EPERM, None, st, F) ;;
      let! (e, st) := anx_cell_check_scope fuel st parentp in
      when negb (e =? ANX_OK) ret Ret (e, None, st, F) ;;
      let e := identity_admit parent in
      when negb (e =? ANX_OK) ret Ret (e, None, st, F) ;;
      when anx_cell_status_terminal (status parent) || negb (allow_recursive_cells (policy parent))
           || (recursion_depth parent >=? exec_max_recursion_depth (policy parent))
           || (recursion_depth parent >=? max_recursion_depth (constraints parent))
        ret Ret (ANX_EPERM, None, st, F) ;;
      when (child_count parent >=? ANX_MAX_CHILD_CELLS)
           || (child_count parent >=? max_child_cells (constraints parent))
        ret Ret (ANX_ENOMEM, None, st, F) ;;
      match anx_effect_fence_create_child alloc fresh now st F (Some parent) type intentp with
      | (e, Some c, st, F) =>
          when negb (e =? ANX_OK) ret Ret (e, None, st, F) ;;
          let st := alter (inherit parent) c st in
          let st := alter (λ pc, pc <| child_cids ::= λ l, l ++ [c] |>) p st in
          Ret (ANX_OK, Some c, st, F)
      | (e, None, st, F) => Ret (e, None, st, F)
      end
  | _, _ => Ret (ANX_EINVAL, None, st, F)
  end.

(** ** The child stays in scope *)

(** A cell that only gained children. *)
Definition grown (n n' : anx_cell) : Prop :=
  ∃ l, n' = n <| child_cids := l |> ∧ (∀ c, c ∈ child_cids n → c ∈ l) ∧
    (child_count n ≤ ANX_MAX_CHILD_CELLS → Z.of_nat (length l) ≤ ANX_MAX_CHILD_CELLS).

Lemma grown_refl n : grown n n.
Proof. exists (child_cids n). split_and!; [by destruct n|done|done]. Qed.

Lemma scope_contains_grown parent parent' child child' :
  grown parent parent' → grown child child' → scope_contains parent child = true →
  scope_contains parent' child' = true.
Proof.
  intros (l & -> & Hl & Hlen) (l2 & -> & _ & _) Hc.
  pose proof (scope_contains_spec _ _ Hc) as (_ & _ & _ & _ & Hin).
  unfold scope_contains in *. cbv zeta in *.
  change (scope_contains (parent <| child_cids := l |>) (child <| child_cids := l2 |>)) with
    (scope_contains (parent <| child_cids := l |>) child).
  change (child_count (parent <| child_cids := l |>)) with (Z.of_nat (length l)).
  change (child_cids (parent <| child_cids := l |>)) with l.
  destruct (Z.gtb_spec (child_count parent) ANX_MAX_CHILD_CELLS) as [|Hle]; [done|].
  destruct (Z.gtb_spec (Z.of_nat (length l)) ANX_MAX_CHILD_CELLS); [specialize (Hlen Hle); lia|].
  assert (∀ k, cid child ∈ k → existsb (λ c, uuid_eqb c (cid child)) k = true) as Hex.
  { intros k Hk. apply existsb_exists. exists (cid child). split; [by apply list_elem_of_In|apply uuid_eqb_refl]. }
  change (cid (child <| child_cids := l2 |>)) with (cid child).
  rewrite (Hex (child_cids parent)) in Hc by done. rewrite (Hex l) by (by apply Hl). exact Hc.
Qed.

(** Scope survives growth of the store. *)
Lemma in_scope_grown st st' q :
  (∀ x n, st !! x = Some n → ∃ n', st' !! x = Some n' ∧ grown n n') → in_scope st q → in_scope st' q.
Proof.
  intros Hst. induction 1 as [p c Hp Hnil Hd|p c parent Hp Hnil Hpar Hc _ IH].
  - destruct (Hst p c Hp) as (c' & Hc' & l & -> & _). by eapply in_scope_root.
  - destruct (Hst p c Hp) as (c' & Hc' & Hg). destruct (Hst _ _ Hpar) as (par' & Hpar' & Hg').
    pose proof (scope_contains_grown _ _ _ _ Hg' Hg Hc) as Hcont.
    destruct Hg as (l & -> & _). by eapply in_scope_child.
Qed.

Lemma scope_widens_refl x : scope_widens x x = false.
Proof.
  unfold scope_widens. destruct (Z.eqb_spec x 0); [done|]. cbn.
  destruct (Z.gtb_spec x x); [lia|done].
Qed.

Lemma gtb_refl x : (x >? x) = false.
Proof. destruct (Z.gtb_spec x x); [lia|done]. Qed.

(** A child that inherited everything fits under its parent. *)
Lemma inherited_contained parent child c :
  cid child = c → child_count parent < ANX_MAX_CHILD_CELLS →
  anx_cell_status_terminal (status parent) || negb (allow_recursive_cells (policy parent))
    || (recursion_depth parent >=? exec_max_recursion_depth (policy parent))
    || (recursion_depth parent >=? max_recursion_depth (constraints parent)) = false →
  scope_contains (parent <| child_cids ::= λ l, l ++ [c] |>) (inherit parent child) = true.
Proof.
  intros Hcid Hcount Hg. unfold scope_contains. cbv zeta. cbn [inherit].
  repeat match goal with H : (_ || _)%bool = false |- _ => apply orb_false_iff in H as [H ?] end.
  change (child_count (parent <| child_cids ::= λ l, l ++ [c] |>)) with (Z.of_nat (length (child_cids parent ++ [c]))).
  rewrite length_app. destruct (Z.gtb_spec (Z.of_nat (length (child_cids parent) + length [c])) ANX_MAX_CHILD_CELLS).
  { unfold child_count in Hcount. cbn in *. lia. }
  assert (existsb (λ x, uuid_eqb x (cid (inherit parent child)))
            (child_cids (parent <| child_cids ::= λ l, l ++ [c] |>)) = true) as ->.
  { apply existsb_exists. exists c. split; [apply in_app_iff; right; by left|].
    change (cid (inherit parent child)) with (cid child). rewrite Hcid. apply uuid_eqb_refl. }
  cbn. rewrite !uuid_eqb_refl, Z.eqb_refl, !andb_negb_r, !scope_widens_refl, !gtb_refl.
  repeat match goal with H : _ = false |- _ => rewrite H end.
  rewrite bool_decide_eq_true_2 by done. cbn. by rewrite andb_false_r.
Qed.
End derive.

(** The store after linking the child. *)
Lemma derived_store st p parent fresh new :
  depths_ok st → st !! p = Some parent → cid parent = p → p ≠ ANX_UUID_NIL → fresh ≠ p →
  st !! fresh = None → cid new = fresh → status new = ANX_CELL_CREATED → in_scope st p →
  child_count parent < ANX_MAX_CHILD_CELLS →
  anx_cell_status_terminal (status parent) || negb (allow_recursive_cells (policy parent))
    || (recursion_depth parent >=? exec_max_recursion_depth (policy parent))
    || (recursion_depth parent >=? max_recursion_depth (constraints parent)) = false →
  let st' := alter (λ pc, pc <| child_cids ::= λ l, l ++ [fresh] |>) p
               (alter (inherit parent) fresh (<[fresh := new]> st)) in
  in_scope st' fresh ∧
  (∃ c, st' !! fresh = Some c ∧ status c = ANX_CELL_CREATED ∧ parent_cid c = p ∧ attenuates parent c ∧
     recursion_depth c = recursion_depth parent + 1 ∧ policy c = policy parent ∧ constraints c = constraints parent) ∧
  st' !! p = Some (parent <| child_cids ::= λ l, l ++ [fresh] |>) ∧
  (∀ q, q ≠ p → q ≠ fresh → st' !! q = st !! q).
Proof.
  intros Hd Hp Hcid Hnil Hfp Hfresh Hnew Hst Hin Hcount Hg st'.
  assert (st' !! fresh = Some (inherit parent new)) as H1.
  { unfold st'. by rewrite lookup_alter_ne, lookup_alter_eq, lookup_insert_eq by done. }
  assert (st' !! p = Some (parent <| child_cids ::= λ l, l ++ [fresh] |>)) as H2.
  { unfold st'. by rewrite lookup_alter_eq, lookup_alter_ne, lookup_insert_ne, Hp by done. }
  assert (∀ q, q ≠ p → q ≠ fresh → st' !! q = st !! q) as H3.
  { intros q ??. unfold st'. by rewrite !lookup_alter_ne, lookup_insert_ne by done. }
  pose proof (inherited_contained parent new fresh Hnew Hcount Hg) as Hcont.
  pose proof (scope_contains_spec _ _ Hcont) as (Hatt & Hlt & _ & _).
  destruct (Hd p parent Hp) as [Hu1 Hu2]. unfold is_u32 in *.
  assert (recursion_depth (inherit parent new) = recursion_depth parent + 1) as Hdep'
    by (apply u32_small; unfold is_u32; cbn in Hlt; lia).
  assert (attenuates parent (inherit parent new)) as Hatt' by (destruct Hatt; by constructor).
  split_and!; [|exists (inherit parent new); split_and!; try done|done|done].
  apply (in_scope_child st' fresh (inherit parent new) (parent <| child_cids ::= λ l, l ++ [fresh] |>));
    [done|by rewrite <- Hcid in Hnil|by rewrite <- Hcid in H2|done|].
  change (parent_cid (inherit parent new)) with (cid parent). rewrite Hcid.
  apply (in_scope_grown st); [|done]. intros q n Hq. destruct (decide (q = p)) as [->|Hqp].
  - exists (parent <| child_cids ::= λ l, l ++ [fresh] |>). split; [done|]. rewrite Hp in Hq. injection Hq as <-.
    exists (child_cids parent ++ [fresh]). split_and!; [done|intros c; rewrite elem_of_app; by left|].
    intros _. unfold child_count in *. rewrite length_app. cbn. lia.
  - exists n. split; [|apply grown_refl]. rewrite H3; [done|done|]. intros ->. congruence.
Qed.

Lemma cell_create_result alloc fresh now st type intentp e child st' :
  anx_cell_create alloc fresh now st type intentp = (e, child, st') →
  (e = ANX_OK ∧ child = Some fresh ∧ ∃ ty it, st' = <[fresh := new_cell fresh ty it now]> st) ∨
  (e ≠ ANX_OK ∧ child = None ∧ st' = st).
Proof.
  unfold anx_cell_create. intros H. destruct intentp as [it|]; [|injection H as <- <- <-; by right].
  destruct (cell_type_of_int type) as [ty|]; [|injection H as <- <- <-; by right].
  destruct alloc; injection H as <- <- <-; [left|by right]. split_and!; [done|done|by exists ty, it].
Qed.

Lemma create_child_result alloc fresh now st F parent type intentp e child st' F' :
  anx_effect_fence_create_child alloc fresh now st F (Some parent) type intentp = (e, child, st', F') →
  (e = ANX_OK ∧ child = Some fresh ∧ ∃ ty it, st' = <[fresh := new_cell fresh ty it now]> st) ∨
  (e ≠ ANX_OK ∧ child = None ∧ st' = st).
Proof.
  unfold anx_effect_fence_create_child. destruct (anx_uuid_is_nil _).
  { intros H. injection H as H <-. by apply cell_create_result in H. }
  destruct (find_fence F _) as [[i f]|]; [|intros [= <- <- <- <-]; by right].
  destruct (state_check now f) as [e1 f1]. cbv zeta.
  destruct (Z.eqb_spec (if e1 =? ANX_EBUSY then ANX_OK else e1) ANX_OK) as [_|Hne]; cbn [negb];
    [|intros [= <- <- <- <-]; by right].
  destruct ((f_child_creations f1 =? MAX64) || _); [intros [= <- <- <- <-]; by right|].
  destruct (anx_cell_create alloc fresh now st type intentp) as [[e2 c2] st2] eqn:Hc.
  intros [= <- <- <- _]. by apply cell_create_result in Hc.
Qed.

(** A branch that refuses the request. *)
Ltac refused := eexists _, _, _, _; split; [done|]; rewrite decide_False; [split; reflexivity|done].

(** C2: A derived child can never do more than its parent.  When
    [anx_cell_derive_child] succeeds, the new cell is linked under the parent
    and in scope, so it and every ancestor of the parent pass the containment
    check; it has exactly the parent's ceilings, policies, fence, identity and
    namespaces, one level deeper; no other cell changes, and the parent only
    gains the child.  The call always returns, and when it fails the store and
    all reference counts are as before. *)
Theorem derive_child_in_scope admits st p parent fuel current alloc fresh now F type intentp :
  store_ok 2 st → depths_ok st → st !! p = Some parent → cid parent = p → p ≠ ANX_UUID_NIL →
  st !! fresh = None → (Z.to_nat (recursion_depth parent) < fuel)%nat →
  ∃ e child st' F',
    anx_cell_derive_child admits fuel current alloc fresh now st F (Some p) type intentp = Ret (e, child, st', F') ∧
    if decide (e = ANX_OK) then
      child = Some fresh ∧ in_scope st' fresh ∧
      (∃ c, st' !! fresh = Some c ∧ status c = ANX_CELL_CREATED ∧ parent_cid c = p ∧ attenuates parent c ∧
         recursion_depth c = recursion_depth parent + 1 ∧
         policy c = policy parent ∧ constraints c = constraints parent) ∧
      st' !! p = Some (parent <| child_cids ::= λ l, l ++ [fresh] |>) ∧
      (∀ q, q ≠ p → q ≠ fresh → st' !! q = st !! q)
    else child = None ∧ st' = st.
Proof.
  intros Hok Hd Hp Hcid Hnil Hfresh Hfuel. unfold anx_cell_derive_child. cbn [mbind option_bind]. rewrite Hp.
  case_match. { by refused. }
  destruct (scope_walk_spec st p parent fuel p parent) as (r & E & Hr & Hiff); [done..|by left|done|].
  unfold hold in E. rewrite uuid_eqb_refl in E. unfold anx_cell_check_scope. rewrite E. cbn [obind].
  destruct (Z.eqb_spec r ANX_OK) as [->|Hne]; cbn [negb].
  2: { by refused. }
  cbv zeta. destruct (Z.eqb_spec (admits parent) ANX_OK) as [_|Hna]; cbn [negb].
  2: { by refused. }
  destruct (anx_cell_status_terminal (status parent) || _ || _ || _) eqn:Hg. { by refused. }
  destruct ((child_count parent >=? ANX_MAX_CHILD_CELLS) || _) eqn:Hcc. { by refused. }
  apply orb_false_iff in Hcc as [Hcc _]. rewrite Z.geb_leb in Hcc. apply Z.leb_gt in Hcc.
  destruct (anx_effect_fence_create_child alloc fresh now st F (Some parent) type intentp)
    as [[[e c] st1] F1] eqn:Hcr.
  apply create_child_result in Hcr as [(-> & -> & ty & it & ->)|(Hne & -> & ->)].
  2: { by refused. }
  change (negb (ANX_OK =? ANX_OK)) with false. cbv iota. eexists _, _, _, _. split; [done|].
  rewrite decide_True by done. split; [done|].
  assert (fresh ≠ p) as Hfp by (intros ->; congruence).
  apply derived_store; try done; by apply Hiff.
Qed.

(** A root that may delegate. *)
Definition delegating : cell_store :=
  {[ Uuid 1 1 := zero_cell (Uuid 1 1) <| refcount := 1 |>
       <| constraints ::= λ k, k <| max_child_cells := 4 |> <| max_recursion_depth := 4 |> |>
       <| policy ::= λ p, p <| allow_recursive_cells := true |> <| exec_max_recursion_depth := 4 |> |> ]}.

Lemma derive_child_in_scope_witness :
  ∃ e child st' F',
    anx_cell_derive_child (λ _, ANX_OK) 5 None true (Uuid 2 2) 9 delegating [] (Some (Uuid 1 1)) 0 (Some zero_intent)
      = Ret (e, child, st', F') ∧ e = ANX_OK ∧ in_scope st' (Uuid 2 2).
Proof.
  destruct (delegating !! Uuid 1 1) as [parent|] eqn:Hp; [|vm_compute in Hp; discriminate].
  destruct (derive_child_in_scope (λ _, ANX_OK) delegating (Uuid 1 1) parent 5 None true (Uuid 2 2) 9 [] 0
              (Some zero_intent)) as (e & child & st' & F' & E & H).
  - intros c n Hn. unfold delegating in Hn. apply lookup_singleton_Some in Hn as [<- <-]. vm_compute. repeat split; congruence.
  - intros c n Hn. unfold delegating in Hn. apply lookup_singleton_Some in Hn as [<- <-]. vm_compute. repeat split; congruence.
  - exact Hp.
  - vm_compute in Hp. injection Hp as <-. reflexivity.
  - discriminate.
  - vm_compute. reflexivity.
  - vm_compute in Hp. injection Hp as <-. cbn. lia.
  - exists e, child, st', F'. split; [exact E|].
    assert (e = ANX_OK) as He by (vm_compute in E; injection E as <- _ _ _; reflexivity).
    split; [exact He|]. rewrite decide_True in H by exact He. apply H.
Defined.
