(* ===== verification/Lease.v ===== *)
(** * Resource leases: [kernel/core/route/lease.c], [engine_lease.h]

    Memory and accelerator reservations of the model engines, delegated down a
    tree.  A [struct anx_engine_lease *] is the address [anx_zalloc] returned
    for it; the records on [lease_list] are a list in registration order.
    [lease_lock] makes each call one step. *)

From S2P Require Import Prelude Uuid.

Definition ANX_MEM_TIER_COUNT : Z := 6.
Definition ANX_ACCEL_NONE : Z := 0.
Definition ANX_ACCEL_COUNT : Z := 3.
Definition ANX_LEASE_DEPTH_MAX : Z := 8.

Record anx_engine_lease := Lease {
  l_addr : Z;
  engine_id : anx_uuid;
  mem_tier : Z;
  mem_reserved_bytes : Z;
  mem_used_bytes : Z;
  accel : Z;
  accel_pct : Z;
  granted_at : Z;
  l_expires_at : Z;  (* 0 = no expiry *)
  l_parent : option Z;
  l_depth : Z;
  revoked : bool;
}.

#[export] Instance eta_lease : Settable anx_engine_lease := λ r,
  Lease (l_addr r) (engine_id r) (mem_tier r) (mem_reserved_bytes r) (mem_used_bytes r)
    (accel r) (accel_pct r) (granted_at r) (l_expires_at r) (l_parent r) (l_depth r) (revoked r).

Record lease_state := LeaseState {
  total_mem_per_tier : list Z;
  total_accel_pct : list Z;
  lease_list : list anx_engine_lease;
  lease_initialized : bool;
}.

#[export] Instance eta_lease_state : Settable lease_state := λ r,
  LeaseState (total_mem_per_tier r) (total_accel_pct r) (lease_list r) (lease_initialized r).

Definition anx_lease_init : lease_state :=
  LeaseState (replicate (Z.to_nat ANX_MEM_TIER_COUNT) (16 * 1024 * 1024 * 1024))
             (replicate (Z.to_nat ANX_ACCEL_COUNT) 100) [] true.

Definition is_root (l : anx_engine_lease) : bool := bool_decide (l_parent l = None).

Definition sum_reserved_mem (s : lease_state) (tier : Z) : Z :=
  foldl (λ total l,
    if is_root l && negb (revoked l) && (mem_tier l =? tier)
    then u64 (total + mem_reserved_bytes l) else total) 0 (lease_list s).

Definition sum_reserved_accel (s : lease_state) (a : Z) : Z :=
  foldl (λ total l,
    if is_root l && negb (revoked l) && (accel l =? a)
    then u32 (total + accel_pct l) else total) 0 (lease_list s).

(** [registered], with the record the pointer points to. *)
Fixpoint lease_at (l : list anx_engine_lease) (p : Z) : option anx_engine_lease :=
  match l with
  | [] => None
  | x :: l => if l_addr x =? p then Some x else lease_at l p
  end.

Definition registered (s : lease_state) (p : Z) : option anx_engine_lease :=
  lease_at (lease_list s) p.

Definition engine_leased (s : lease_state) (id : anx_uuid) : bool :=
  existsb (λ l, uuid_eqb (engine_id l) id) (lease_list s).

(** [alloc] is the address [anx_zalloc] returns, [None] when it fails. *)
Definition create_lease (alloc : option Z) (now : Z) (s : lease_state) (id : anx_uuid)
    (parent : option anx_engine_lease) (tier bytes a pct : Z) : Z * option Z * lease_state :=
  match alloc with
  | None => (ANX_ENOMEM, None, s)
  | Some p =>
      let lease := Lease p id tier bytes 0 a pct now 0 (l_addr <$> parent)
                     match parent with Some q => l_depth q + 1 | None => 0 end false in
      (ANX_OK, Some p, s <| lease_list ::= λ l, l ++ [lease] |>)
  end.

Definition anx_lease_grant (alloc : option Z) (now : Z) (s : lease_state)
    (engine : option anx_uuid) (tier bytes a pct : Z) : Z * option Z * lease_state :=
  match engine with
  | None => (ANX_EINVAL, None, s)
  | Some id =>
      when anx_uuid_is_nil id ret (ANX_EINVAL, None, s) ;;
      when (tier <? 0) || (tier >=? ANX_MEM_TIER_COUNT) ret (ANX_EINVAL, None, s) ;;
      when (a <? 0) || (a >=? ANX_ACCEL_COUNT) ret (ANX_EINVAL, None, s) ;;
      when (pct >? 100) || ((a =? ANX_ACCEL_NONE) && negb (pct =? 0))
        ret (ANX_EINVAL, None, s) ;;
      when engine_leased s id ret (ANX_EEXIST, None, s) ;;
      let mem_avail := u64 (rd 0 (total_mem_per_tier s) tier - sum_reserved_mem s tier) in
      when bytes >? mem_avail ret (ANX_ENOMEM, None, s) ;;
      let accel_avail := u32 (rd 0 (total_accel_pct s) a - sum_reserved_accel s a) in
      when negb (a =? ANX_ACCEL_NONE) && (pct >? accel_avail) ret (ANX_ENOMEM, None, s) ;;
      create_lease alloc now s id None tier bytes a pct
  end.

Fixpoint lookup_engine (l : list anx_engine_lease) (id : anx_uuid) : option anx_engine_lease :=
  match l with
  | [] => None
  | x :: l => if negb (revoked x) && uuid_eqb (engine_id x) id then Some x else lookup_engine l id
  end.

Definition anx_lease_lookup (s : lease_state) (engine : option anx_uuid) : option Z :=
  match engine with
  | None => None
  | Some id => l_addr <$> lookup_engine (lease_list s) id
  end.

(** The loop over the live children of [p], taking each one's reservation off
    what is available; [None] when one does not fit. *)
Fixpoint children_loop (l : list anx_engine_lease) (p : Z) (available pct : Z) : option (Z * Z) :=
  match l with
  | [] => Some (available, pct)
  | child :: l =>
      if negb (bool_decide (l_parent child = Some p)) || revoked child
      then children_loop l p available pct
      else if (mem_reserved_bytes child >? available) || (accel_pct child >? pct) then None
      else children_loop l p (available - mem_reserved_bytes child) (pct - accel_pct child)
  end.

(** The loop over the live siblings of [lease] (roots when it is a root). *)
Fixpoint siblings_loop (l : list anx_engine_lease) (lease : anx_engine_lease)
    (available percent : Z) : option (Z * Z) :=
  match l with
  | [] => Some (available, percent)
  | other :: l =>
      if (l_addr other =? l_addr lease) || revoked other
         || negb (bool_decide (l_parent other = l_parent lease))
      then siblings_loop l lease available percent
      else
        let mem := negb (is_root lease) || (mem_tier other =? mem_tier lease) in
        when mem && (mem_reserved_bytes other >? available) ret None ;;
        let available := if mem then available - mem_reserved_bytes other else available in
        let acc := negb (accel lease =? ANX_ACCEL_NONE)
                   && (negb (is_root lease) || (accel other =? accel lease)) in
        when acc && (accel_pct other >? percent) ret None ;;
        let percent := if acc then percent - accel_pct other else percent in
        siblings_loop l lease available percent
  end.

Definition update_lease (p : Z) (f : anx_engine_lease → anx_engine_lease) (s : lease_state)
    : lease_state :=
  s <| lease_list ::= fmap (λ l, if l_addr l =? p then f l else l) |>.

Definition anx_lease_resize (current : option anx_uuid) (s : lease_state) (leasep : option Z)
    (bytes pct : Z) : Z * lease_state :=
  when bool_decide (is_Some current) ret (ANX_EPERM, s) ;;
  match leasep with
  | None => (ANX_EINVAL, s)
  | Some p =>
      when pct >? 100 ret (ANX_EINVAL, s) ;;
      match registered s p with
      | None => (ANX_ENOENT, s)
      | Some lease =>
          when revoked lease ret (ANX_EPERM, s) ;;
          when (mem_tier lease <? 0) || (mem_tier lease >=? ANX_MEM_TIER_COUNT)
               || (accel lease <? 0) || (accel lease >=? ANX_ACCEL_COUNT)
               || ((accel lease =? ANX_ACCEL_NONE) && negb (pct =? 0))
            ret (ANX_EINVAL, s) ;;
          when mem_used_bytes lease >? bytes ret (ANX_EBUSY, s) ;;
          match children_loop (lease_list s) p (bytes - mem_used_bytes lease) pct with
          | None => (ANX_EBUSY, s)
          | Some _ =>
              let within :=
                match l_parent lease with
                | None => inr (rd 0 (total_mem_per_tier s) (mem_tier lease),
                               rd 0 (total_accel_pct s) (accel lease))
                | Some q =>
                    match registered s q with
                    | None => inl ANX_EPERM
                    | Some parent =>
                        if revoked parent then inl ANX_EPERM
                        else if mem_used_bytes parent >? mem_reserved_bytes parent
                        then inl ANX_ENOMEM
                        else inr (mem_reserved_bytes parent - mem_used_bytes parent,
                                  accel_pct parent)
                    end
                end in
              match within with
              | inl r => (r, s)
              | inr (available, percent) =>
                  match siblings_loop (lease_list s) lease available percent with
                  | None => (ANX_ENOMEM, s)
                  | Some (available, percent) =>
                      when (bytes >? available) || (pct >? percent) ret (ANX_ENOMEM, s) ;;
                      (ANX_OK, update_lease p (λ l, l <| mem_reserved_bytes := bytes |>
                                                      <| accel_pct := pct |>) s)
                  end
              end
          end
      end
  end.

Definition anx_lease_grant_child (alloc : option Z) (now : Z) (s : lease_state)
    (parentp : option Z) (engine : option anx_uuid) (bytes pct : Z) : Z * option Z * lease_state :=
  match parentp, engine with
  | Some p, Some id =>
      when anx_uuid_is_nil id || (pct >? 100) ret (ANX_EINVAL, None, s) ;;
      match registered s p with
      | None => (ANX_ENOENT, None, s)
      | Some parent =>
          when revoked parent || (l_depth parent >=? ANX_LEASE_DEPTH_MAX)
            ret (ANX_EPERM, None, s) ;;
          when (accel parent =? ANX_ACCEL_NONE) && negb (pct =? 0) ret (ANX_EINVAL, None, s) ;;
          when engine_leased s id ret (ANX_EEXIST, None, s) ;;
          when mem_used_bytes parent >? mem_reserved_bytes parent ret (ANX_ENOMEM, None, s) ;;
          match children_loop (lease_list s) p
                  (mem_reserved_bytes parent - mem_used_bytes parent) (accel_pct parent) with
          | None => (ANX_ENOMEM, None, s)
          | Some (available, percent) =>
              when (bytes >? available) || (pct >? percent) ret (ANX_ENOMEM, None, s) ;;
              create_lease alloc now s id (Some parent) (mem_tier parent) bytes (accel parent) pct
          end
      end
  | _, _ => (ANX_EINVAL, None, s)
  end.

(** [n] iterations of the walk to the root. *)
Fixpoint in_subtree_walk (n : nat) (s : lease_state) (candidate : option anx_engine_lease)
    (root : Z) : bool :=
  match n, candidate with
  | O, _ | _, None => false
  | S n, Some c =>
      if l_addr c =? root then true
      else in_subtree_walk n s (l_parent c ≫= registered s) root
  end.

Definition in_subtree (s : lease_state) (candidate : anx_engine_lease) (root : Z) : bool :=
  in_subtree_walk (S (Z.to_nat ANX_LEASE_DEPTH_MAX)) s (Some candidate) root.

#[global] Arguments in_subtree : simpl never.

Definition anx_lease_revoke (s : lease_state) (leasep : option Z) : Z * lease_state :=
  match leasep with
  | None => (ANX_EINVAL, s)
  | Some p =>
      match registered s p with
      | None => (ANX_ENOENT, s)
      | Some _ =>
          when existsb (λ c, in_subtree s c p && negb (mem_used_bytes c =? 0)) (lease_list s)
            ret (ANX_EBUSY, s) ;;
          (ANX_OK, s <| lease_list ::= fmap (λ c, if in_subtree s c p
                                                  then c <| revoked := true |> else c) |>)
      end
  end.

Definition anx_lease_release (s : lease_state) (leasep : option Z) : Z * lease_state :=
  match leasep with
  | None => (ANX_EINVAL, s)
  | Some p =>
      match registered s p with
      | None => (ANX_ENOENT, s)
      | Some lease =>
          when negb (mem_used_bytes lease =? 0) ret (ANX_EBUSY, s) ;;
          when existsb (λ c, bool_decide (l_parent c = Some p)) (lease_list s)
            ret (ANX_EBUSY, s) ;;
          (ANX_OK, s <| lease_list ::= filter (λ l, l_addr l ≠ p) |>)
      end
  end.

Definition anx_lease_avail_mem (s : lease_state) (tier : Z) : Z * option Z :=
  when (tier <? 0) || (tier >=? ANX_MEM_TIER_COUNT) ret (ANX_EINVAL, None) ;;
  (ANX_OK, Some (u64 (rd 0 (total_mem_per_tier s) tier - sum_reserved_mem s tier))).

Definition anx_lease_avail_accel (s : lease_state) (a : Z) : Z * option Z :=
  when (a <? 0) || (a >=? ANX_ACCEL_COUNT) ret (ANX_EINVAL, None) ;;
  (ANX_OK, Some (u32 (rd 0 (total_accel_pct s) a - sum_reserved_accel s a))).

(** The ledger loop of the snapshot. *)
Fixpoint snapshot_loop (l : list anx_engine_lease) (free_memory free_accelerator : list Z)
    : option (list Z * list Z) :=
  match l with
  | [] => Some (free_memory, free_accelerator)
  | lease :: l =>
      if negb (is_root lease) || revoked lease
      then snapshot_loop l free_memory free_accelerator
      else if (u32 (mem_tier lease) >=? ANX_MEM_TIER_COUNT)
              || (u32 (accel lease) >=? ANX_ACCEL_COUNT)
              || (mem_reserved_bytes lease >? rd 0 free_memory (mem_tier lease))
              || (accel_pct lease >? rd 0 free_accelerator (accel lease))
      then None
      else snapshot_loop l
             (wr free_memory (mem_tier lease)
                (rd 0 free_memory (mem_tier lease) - mem_reserved_bytes lease))
             (wr free_accelerator (accel lease)
                (rd 0 free_accelerator (accel lease) - accel_pct lease))
  end.

Definition anx_lease_snapshot_capacity (s : lease_state) : Z * option (list Z * list Z) :=
  when negb (lease_initialized s) ret (ANX_ENODEV, None) ;;
  match snapshot_loop (lease_list s) (total_mem_per_tier s) (total_accel_pct s) with
  | None => (ANX_EIO, None)
  | Some free => (ANX_OK, Some free)
  end.

(** ** Sums over the ledger *)

Definition live_root (tier : Z) (l : anx_engine_lease) : bool :=
  is_root l && negb (revoked l) && (mem_tier l =? tier).
Definition live_root_accel (a : Z) (l : anx_engine_lease) : bool :=
  is_root l && negb (revoked l) && (accel l =? a).
Definition live_child (p : Z) (l : anx_engine_lease) : bool :=
  bool_decide (l_parent l = Some p) && negb (revoked l).

(** The sum of [f] over the leases that satisfy [b]. *)
Definition total (b : anx_engine_lease → bool) (f : anx_engine_lease → Z)
    (l : list anx_engine_lease) : Z := sumZ (λ x, if b x then f x else 0) l.

Definition root_mem (s : lease_state) (tier : Z) : Z :=
  total (live_root tier) mem_reserved_bytes (lease_list s).
Definition root_pct (s : lease_state) (a : Z) : Z :=
  total (live_root_accel a) accel_pct (lease_list s).
Definition child_mem (s : lease_state) (p : Z) : Z :=
  total (live_child p) mem_reserved_bytes (lease_list s).
Definition child_pct (s : lease_state) (p : Z) : Z :=
  total (live_child p) accel_pct (lease_list s).

Record lease_ok (l : anx_engine_lease) : Prop := {
  lo_mem : 0 ≤ mem_reserved_bytes l;
  lo_used : 0 ≤ mem_used_bytes l;
  lo_pct : 0 ≤ accel_pct l ≤ 100;
  lo_tier : 0 ≤ mem_tier l < ANX_MEM_TIER_COUNT;
  lo_accel : 0 ≤ accel l < ANX_ACCEL_COUNT;
  lo_none : accel l = ANX_ACCEL_NONE → accel_pct l = 0;
  lo_depth : 0 ≤ l_depth l ≤ ANX_LEASE_DEPTH_MAX;
  lo_root : l_parent l = None → l_depth l = 0;
}.

(** A child lies one level below its parent, in the same tier and on the same
    accelerator, and is revoked with it. *)
Record delegated (l p : anx_engine_lease) : Prop := {
  de_depth : l_depth l = l_depth p + 1;
  de_tier : mem_tier l = mem_tier p;
  de_accel : accel l = accel p;
  de_revoked : revoked p = true → revoked l = true;
}.

Record lease_inv (s : lease_state) : Prop := {
  li_totals : length (total_mem_per_tier s) = Z.to_nat ANX_MEM_TIER_COUNT ∧
              length (total_accel_pct s) = Z.to_nat ANX_ACCEL_COUNT ∧
              (∀ i, is_u64 (rd 0 (total_mem_per_tier s) i)) ∧
              (∀ i, is_u32 (rd 0 (total_accel_pct s) i));
  li_uniq : NoDup (l_addr <$> lease_list s);
  li_engines : NoDup (engine_id <$> lease_list s);
  li_ok : ∀ l, l ∈ lease_list s → lease_ok l;
  li_mem : ∀ tier, 0 ≤ tier < ANX_MEM_TIER_COUNT →
             root_mem s tier ≤ rd 0 (total_mem_per_tier s) tier;
  li_pct : ∀ a, 0 ≤ a < ANX_ACCEL_COUNT → root_pct s a ≤ rd 0 (total_accel_pct s) a;
  li_children : ∀ l, l ∈ lease_list s →
    mem_used_bytes l + child_mem s (l_addr l) ≤ mem_reserved_bytes l ∧
    child_pct s (l_addr l) ≤ accel_pct l;
  li_parent : ∀ l q, l ∈ lease_list s → l_parent l = Some q →
    ∃ p, p ∈ lease_list s ∧ l_addr p = q ∧ delegated l p;
}.

Lemma total_nonneg b f l : (∀ x, x ∈ l → 0 ≤ f x) → 0 ≤ total b f l.
Proof. intros H. apply sumZ_nonneg. intros x Hx. destruct (b x); [by apply H|done]. Qed.

Lemma total_app b f l1 l2 : total b f (l1 ++ l2) = total b f l1 + total b f l2.
Proof. apply sumZ_app. Qed.

Lemma total_cons b f x l : total b f (x :: l) = (if b x then f x else 0) + total b f l.
Proof. done. Qed.

Lemma total_none b f l : (∀ x, x ∈ l → b x = false) → total b f l = 0.
Proof.
  intros H. unfold total. induction l as [|x l IH]; [done|]. rewrite sumZ_cons, IH.
  - by rewrite (H x (list_elem_of_here _ _)).
  - intros y Hy. apply H. by right.
Qed.

(** A wrapping accumulator does not wrap while the sum fits. *)
Lemma foldl_wrap M b f l acc :
  0 ≤ acc → (∀ x, x ∈ l → 0 ≤ f x) → acc + total b f l < M →
  foldl (λ t x, if b x then (t + f x) mod M else t) acc l = acc + total b f l.
Proof.
  revert acc. induction l as [|x l IH]; intros acc Ha Hf Hs; [simpl; unfold total; simpl; lia|].
  rewrite total_cons in *. cbn [foldl].
  pose proof (Hf x (list_elem_of_here _ _)).
  assert (∀ y, y ∈ l → 0 ≤ f y) as Hf' by (intros y Hy; apply Hf; by right).
  pose proof (total_nonneg b f l Hf').
  destruct (b x); [rewrite Z.mod_small by lia|]; rewrite IH; auto; lia.
Qed.

Lemma sum_mem_exact s tier :
  lease_inv s → 0 ≤ tier < ANX_MEM_TIER_COUNT → sum_reserved_mem s tier = root_mem s tier.
Proof.
  intros Hi Ht. unfold sum_reserved_mem, u64.
  apply (foldl_wrap (2 ^ 64) (live_root tier) mem_reserved_bytes (lease_list s) 0); [lia| |].
  - intros x Hx. apply (li_ok s Hi x Hx).
  - pose proof (li_mem s Hi tier Ht) as H. unfold root_mem in H.
    destruct (li_totals s Hi) as (_ & _ & Hm & _). specialize (Hm tier). unfold is_u64 in Hm. lia.
Qed.

Lemma sum_accel_exact s a :
  lease_inv s → 0 ≤ a < ANX_ACCEL_COUNT → sum_reserved_accel s a = root_pct s a.
Proof.
  intros Hi Ha. unfold sum_reserved_accel, u32.
  apply (foldl_wrap (2 ^ 32) (live_root_accel a) accel_pct (lease_list s) 0); [lia| |].
  - intros x Hx. apply (li_ok s Hi x Hx).
  - pose proof (li_pct s Hi a Ha) as H. unfold root_pct in H.
    destruct (li_totals s Hi) as (_ & _ & _ & Hm). specialize (Hm a). unfold is_u32 in Hm. lia.
Qed.

Lemma root_mem_nonneg s tier : lease_inv s → 0 ≤ root_mem s tier.
Proof. intros Hi. apply total_nonneg. intros x Hx. apply (li_ok s Hi x Hx). Qed.

Lemma root_pct_nonneg s a : lease_inv s → 0 ≤ root_pct s a.
Proof. intros Hi. apply total_nonneg. intros x Hx. apply (li_ok s Hi x Hx). Qed.

(** ** The admission loops *)

(** What the loop over the children leaves of [a] and [pc]. *)
Lemma children_loop_spec l p a pc :
  (∀ x, x ∈ l → lease_ok x) → 0 ≤ a → 0 ≤ pc →
  children_loop l p a pc =
  (if (total (live_child p) mem_reserved_bytes l <=? a)
      && (total (live_child p) accel_pct l <=? pc)
   then Some (a - total (live_child p) mem_reserved_bytes l, pc - total (live_child p) accel_pct l)
   else None).
Proof.
  revert a pc. induction l as [|x l IH]; intros a pc Hok Ha Hpc.
  { unfold total. simpl. destruct (Z.leb_spec 0 a); [|lia]. destruct (Z.leb_spec 0 pc); [|lia].
    simpl. do 2 f_equal; lia. }
  assert (∀ y, y ∈ l → lease_ok y) as Hok' by (intros y Hy; apply Hok; by right).
  assert (0 ≤ total (live_child p) mem_reserved_bytes l)
    by (apply total_nonneg; intros y Hy; apply (Hok' y Hy)).
  assert (0 ≤ total (live_child p) accel_pct l)
    by (apply total_nonneg; intros y Hy; apply (Hok' y Hy)).
  destruct (Hok x (list_elem_of_here _ _)).
  rewrite !total_cons. cbn [children_loop].
  assert (live_child p x = bool_decide (l_parent x = Some p) && negb (revoked x)) as -> by done.
  destruct (bool_decide (l_parent x = Some p)), (revoked x); simpl; rewrite ?Z.add_0_l;
    try (by apply IH).
  destruct (_ || _) eqn:G.
  - destruct (_ && _) eqn:G2; [|done]. exfalso. lia.
  - rewrite IH by (auto; lia).
    destruct ((_ <=? _ - _) && _) eqn:G2; destruct ((_ + _ <=? _) && _) eqn:G3;
      try (exfalso; lia); [|done].
    do 2 f_equal; lia.
Qed.

Definition sibling (lease x : anx_engine_lease) : bool :=
  negb (l_addr x =? l_addr lease) && negb (revoked x) && bool_decide (l_parent x = l_parent lease).
Definition sibling_mem (lease x : anx_engine_lease) : bool :=
  sibling lease x && (negb (is_root lease) || (mem_tier x =? mem_tier lease)).
Definition sibling_acc (lease x : anx_engine_lease) : bool :=
  sibling lease x && (negb (accel lease =? ANX_ACCEL_NONE)
                      && (negb (is_root lease) || (accel x =? accel lease))).

Lemma siblings_loop_spec l lease a pc :
  (∀ x, x ∈ l → lease_ok x) → 0 ≤ a → 0 ≤ pc →
  siblings_loop l lease a pc =
  (if (total (sibling_mem lease) mem_reserved_bytes l <=? a)
      && (total (sibling_acc lease) accel_pct l <=? pc)
   then Some (a - total (sibling_mem lease) mem_reserved_bytes l,
              pc - total (sibling_acc lease) accel_pct l)
   else None).
Proof.
  revert a pc. induction l as [|x l IH]; intros a pc Hok Ha Hpc.
  { unfold total. simpl. destruct (Z.leb_spec 0 a); [|lia]. destruct (Z.leb_spec 0 pc); [|lia].
    simpl. do 2 f_equal; lia. }
  assert (∀ y, y ∈ l → lease_ok y) as Hok' by (intros y Hy; apply Hok; by right).
  assert (0 ≤ total (sibling_mem lease) mem_reserved_bytes l)
    by (apply total_nonneg; intros y Hy; apply (Hok' y Hy)).
  assert (0 ≤ total (sibling_acc lease) accel_pct l)
    by (apply total_nonneg; intros y Hy; apply (Hok' y Hy)).
  destruct (Hok x (list_elem_of_here _ _)).
  rewrite !total_cons. cbn [siblings_loop]. unfold sibling_mem at 1 3, sibling_acc at 1 3.
  assert ((l_addr x =? l_addr lease) || revoked x || negb (bool_decide (l_parent x = l_parent lease))
          = negb (sibling lease x)) as ->.
  { unfold sibling. by destruct (_ =? _), (revoked x), (bool_decide _). }
  destruct (sibling lease x); simpl; rewrite ?Z.add_0_l; [|by apply IH].
  set (m := negb (is_root lease) || (mem_tier x =? mem_tier lease)).
  set (c := negb (accel lease =? ANX_ACCEL_NONE) && (negb (is_root lease) || (accel x =? accel lease))).
  destruct m, c; simpl; rewrite ?Z.add_0_l;
    repeat (match goal with |- context [?u >? ?v] =>
      rewrite (Z.gtb_ltb u v); destruct (Z.ltb_spec v u) end);
    rewrite ?IH by (auto; lia);
    repeat (match goal with |- context [?u <=? ?v] => destruct (Z.leb_spec u v) end);
    simpl; try (exfalso; lia); try done; do 2 f_equal; lia.
Qed.

(** ** Splitting a sum at one lease *)

Lemma lease_at_Some l p x : lease_at l p = Some x → x ∈ l ∧ l_addr x = p.
Proof.
  induction l as [|y l IH]; simpl; [done|]. destruct (Z.eqb_spec (l_addr y) p) as [<-|].
  - intros [= ->]. split; [left|done].
  - intros H. apply IH in H as [? ?]. split; [by right|done].
Qed.

Lemma lease_at_elem l x : NoDup (l_addr <$> l) → x ∈ l → lease_at l (l_addr x) = Some x.
Proof.
  induction l as [|y l IH]; simpl; intros Hn Hx; [by apply not_elem_of_nil in Hx|].
  apply NoDup_cons in Hn as [Hy Hn]. apply elem_of_cons in Hx as [->|Hx].
  - by rewrite Z.eqb_refl.
  - destruct (Z.eqb_spec (l_addr y) (l_addr x)) as [E|]; [|by apply IH].
    exfalso. apply Hy. rewrite E. apply list_elem_of_fmap. by exists x.
Qed.

Lemma lease_inj l x y : NoDup (l_addr <$> l) → x ∈ l → y ∈ l → l_addr x = l_addr y → x = y.
Proof.
  intros Hn Hx Hy E. pose proof (lease_at_elem l x Hn Hx) as H1.
  rewrite E, (lease_at_elem l y Hn Hy) in H1. congruence.
Qed.

Definition others (x y : anx_engine_lease) : bool := negb (l_addr y =? l_addr x).

Lemma total_split b f l x :
  NoDup (l_addr <$> l) → x ∈ l →
  total b f l = (if b x then f x else 0) + total (λ y, others x y && b y) f l.
Proof.
  induction l as [|y l IH]; intros Hn Hx; [by apply not_elem_of_nil in Hx|].
  rewrite fmap_cons in Hn. apply NoDup_cons in Hn as [Hy Hn]. rewrite !total_cons.
  apply elem_of_cons in Hx as [->|Hx].
  - unfold others at 1. rewrite Z.eqb_refl. simpl. f_equal.
    apply sumZ_ext. intros z Hz. unfold others.
    destruct (Z.eqb_spec (l_addr z) (l_addr y)) as [E|]; [|done].
    exfalso. apply Hy. rewrite <- E. apply list_elem_of_fmap. by exists z.
  - rewrite (IH Hn Hx). unfold others at 2. destruct (Z.eqb_spec (l_addr y) (l_addr x)) as [E|]; simpl; [|lia].
    exfalso. apply Hy. rewrite E. apply list_elem_of_fmap. by exists x.
Qed.

(** The sum after the lease [x] has been replaced by [x']. *)
Lemma total_update b f l x x' :
  NoDup (l_addr <$> l) → x ∈ l →
  total b f ((λ y, if l_addr y =? l_addr x then x' else y) <$> l)
  = (if b x' then f x' else 0) + total (λ y, others x y && b y) f l.
Proof.
  intros Hn Hx. unfold total. rewrite sumZ_fmap.
  assert (∀ l, sumZ (λ y, if b (if l_addr y =? l_addr x then x' else y)
                          then f (if l_addr y =? l_addr x then x' else y) else 0) l
     = total (λ y, l_addr y =? l_addr x) (λ _, if b x' then f x' else 0) l
       + sumZ (λ y, if others x y && b y then f y else 0) l) as ->.
  { clear. induction l as [|y l IH]; [done|]. rewrite total_cons, !sumZ_cons, IH. unfold others.
    destruct (_ =? _); simpl; lia. }
  f_equal. rewrite (total_split _ _ l x Hn Hx), Z.eqb_refl.
  rewrite total_none; [lia|]. intros y _. unfold others. by destruct (_ =? _).
Qed.

(** ** The invariant is preserved: adding a lease *)

Definition add_lease (n : anx_engine_lease) (s : lease_state) : lease_state :=
  s <| lease_list ::= λ l, l ++ [n] |>.

Lemma total_snoc b f l n : total b f (l ++ [n]) = total b f l + (if b n then f n else 0).
Proof. rewrite total_app. f_equal. unfold total, sumZ. simpl. lia. Qed.

Lemma no_child_fresh s p x :
  lease_inv s → p ∉ l_addr <$> lease_list s → x ∈ lease_list s → live_child p x = false.
Proof.
  intros Hi Hp Hx. unfold live_child. destruct (bool_decide_reflect (l_parent x = Some p)) as [E|]; [|done].
  exfalso. destruct (li_parent s Hi x p Hx E) as (q & Hq & <- & _). apply Hp.
  apply list_elem_of_fmap. by exists q.
Qed.

Lemma inv_add s n :
  lease_inv s → l_addr n ∉ l_addr <$> lease_list s → engine_leased s (engine_id n) = false →
  lease_ok n → revoked n = false → mem_used_bytes n = 0 →
  (l_parent n = None →
     root_mem s (mem_tier n) + mem_reserved_bytes n ≤ rd 0 (total_mem_per_tier s) (mem_tier n) ∧
     root_pct s (accel n) + accel_pct n ≤ rd 0 (total_accel_pct s) (accel n)) →
  (∀ q, l_parent n = Some q → ∃ p, p ∈ lease_list s ∧ l_addr p = q ∧ delegated n p ∧
     mem_used_bytes p + child_mem s q + mem_reserved_bytes n ≤ mem_reserved_bytes p ∧
     child_pct s q + accel_pct n ≤ accel_pct p) →
  lease_inv (add_lease n s).
Proof.
  intros Hi Hfresh Heng Hok Hrev Hused Hroot Hchild. pose proof Hok as [].
  assert (∀ p, child_mem (add_lease n s) p = child_mem s p + (if live_child p n then mem_reserved_bytes n else 0))
    as Hcm by (intros; apply total_snoc).
  assert (∀ p, child_pct (add_lease n s) p = child_pct s p + (if live_child p n then accel_pct n else 0))
    as Hcp by (intros; apply total_snoc).
  constructor; simpl.
  - apply Hi.
  - rewrite fmap_app. apply NoDup_app. split; [apply Hi|]. split; [set_solver|apply NoDup_singleton].
  - rewrite fmap_app. apply NoDup_app. split; [apply Hi|]. split; [|apply NoDup_singleton].
    intros e He%list_elem_of_fmap Hn. destruct He as (x & -> & Hx).
    apply list_elem_of_singleton in Hn. apply not_true_iff_false in Heng. apply Heng, existsb_exists.
    exists x. split; [by apply list_elem_of_In|by apply uuid_eqb_true].
  - intros l [Hl| ->%list_elem_of_singleton]%elem_of_app; [by apply (li_ok s Hi)|done].
  - intros tier Ht. unfold root_mem. simpl. rewrite total_snoc.
    pose proof (li_mem s Hi tier Ht) as H. unfold root_mem in *. unfold live_root at 2, is_root.
    destruct (bool_decide_reflect (l_parent n = None)) as [E|]; simpl; [|lia].
    destruct (_ && _) eqn:G; [|lia]. apply andb_true_iff in G as [_ <-%Z.eqb_eq].
    apply (Hroot E).
  - intros a Ha. unfold root_pct. simpl. rewrite total_snoc.
    pose proof (li_pct s Hi a Ha) as H. unfold root_pct in *. unfold live_root_accel at 2, is_root.
    destruct (bool_decide_reflect (l_parent n = None)) as [E|]; simpl; [|lia].
    destruct (_ && _) eqn:G; [|lia]. apply andb_true_iff in G as [_ <-%Z.eqb_eq].
    apply (Hroot E).
  - intros l Hl. rewrite Hcm, Hcp. apply elem_of_app in Hl as [Hl| ->%list_elem_of_singleton].
    + destruct (li_children s Hi l Hl) as [H1 H2]. unfold live_child.
      destruct (bool_decide_reflect (l_parent n = Some (l_addr l))) as [E|]; simpl; [|lia].
      destruct (Hchild _ E) as (p & Hp & Ep & _ & H3 & H4).
      rewrite (lease_inj _ p l (li_uniq s Hi) Hp Hl Ep) in *. rewrite Hrev. simpl. lia.
    + assert (child_mem s (l_addr n) = 0 ∧ child_pct s (l_addr n) = 0) as [-> ->].
      { split; apply total_none; intros x Hx; by apply (no_child_fresh s). }
      assert (live_child (l_addr n) n = false) as ->; [|lia].
      unfold live_child. destruct (bool_decide_reflect (l_parent n = Some (l_addr n))) as [E|]; [|done].
      destruct (Hchild _ E) as (p & Hp & Ep & _). exfalso. apply Hfresh. rewrite <- Ep.
      apply list_elem_of_fmap. by exists p.
  - intros l q [Hl| ->%list_elem_of_singleton]%elem_of_app Hq.
    + destruct (li_parent s Hi l q Hl Hq) as (p & Hp & ? & ?). exists p. set_solver.
    + destruct (Hchild q Hq) as (p & Hp & ? & ? & _). exists p. set_solver.
Qed.

(** ** Replacing one lease *)

Definition replace_lease (x x' : anx_engine_lease) (s : lease_state) : lease_state :=
  s <| lease_list ::= fmap (λ y, if l_addr y =? l_addr x then x' else y) |>.

(** Only the amounts differ. *)
Record same_place (x x' : anx_engine_lease) : Prop := {
  sp_addr : l_addr x' = l_addr x;
  sp_engine : engine_id x' = engine_id x;
  sp_tier : mem_tier x' = mem_tier x;
  sp_accel : accel x' = accel x;
  sp_parent : l_parent x' = l_parent x;
  sp_depth : l_depth x' = l_depth x;
  sp_revoked : revoked x' = revoked x;
}.

Lemma replace_elem s x x' y :
  y ∈ lease_list (replace_lease x x' s) → y = x' ∨ (y ∈ lease_list s ∧ l_addr y ≠ l_addr x).
Proof.
  intros Hy. simpl in Hy. apply list_elem_of_fmap in Hy as (z & -> & Hz).
  destruct (Z.eqb_spec (l_addr z) (l_addr x)); auto.
Qed.

Lemma elem_replace s x x' y :
  x ∈ lease_list s → y ∈ lease_list s →
  (if l_addr y =? l_addr x then x' else y) ∈ lease_list (replace_lease x x' s).
Proof. intros Hx Hy. simpl. apply list_elem_of_fmap. by exists y. Qed.

Lemma fmap_replace {B} (g : anx_engine_lease → B) s x x' :
  NoDup (l_addr <$> lease_list s) → x ∈ lease_list s → g x' = g x →
  g <$> lease_list (replace_lease x x' s) = g <$> lease_list s.
Proof.
  intros Hn Hx Hg. simpl. rewrite <- list_fmap_compose. apply list_fmap_ext.
  intros i y Hy%list_elem_of_lookup_2. simpl.
  destruct (Z.eqb_spec (l_addr y) (l_addr x)) as [E|]; [|done].
  by rewrite (lease_inj _ y x Hn Hy Hx E).
Qed.

Lemma live_same x x' :
  same_place x x' →
  (∀ t, live_root t x' = live_root t x) ∧ (∀ a, live_root_accel a x' = live_root_accel a x) ∧
  (∀ p, live_child p x' = live_child p x).
Proof.
  intros []. unfold live_root, live_root_accel, live_child, is_root.
  by rewrite sp_parent0, sp_revoked0, sp_tier0, sp_accel0.
Qed.

(** The new amounts must fit where the lease is, and hold what is below it. *)
Record fits_in (s : lease_state) (x x' : anx_engine_lease) : Prop := {
  fi_mem : ∀ t, live_root t x = true →
    mem_reserved_bytes x' + total (λ y, others x y && live_root t y) mem_reserved_bytes (lease_list s)
    ≤ rd 0 (total_mem_per_tier s) t;
  fi_pct : ∀ a, live_root_accel a x = true →
    accel_pct x' + total (λ y, others x y && live_root_accel a y) accel_pct (lease_list s)
    ≤ rd 0 (total_accel_pct s) a;
  fi_own : mem_used_bytes x' + child_mem s (l_addr x) ≤ mem_reserved_bytes x' ∧
           child_pct s (l_addr x) ≤ accel_pct x';
  fi_parent : ∀ p, p ∈ lease_list s → live_child (l_addr p) x = true →
    mem_used_bytes p + (mem_reserved_bytes x' +
      total (λ y, others x y && live_child (l_addr p) y) mem_reserved_bytes (lease_list s))
    ≤ mem_reserved_bytes p ∧
    accel_pct x' + total (λ y, others x y && live_child (l_addr p) y) accel_pct (lease_list s)
    ≤ accel_pct p;
}.

Lemma not_own_child s x : lease_inv s → x ∈ lease_list s → l_parent x ≠ Some (l_addr x).
Proof.
  intros Hi Hx E. destruct (li_parent s Hi x _ Hx E) as (p & Hp & Ep & []).
  rewrite (lease_inj _ p x (li_uniq s Hi) Hp Hx Ep) in *. lia.
Qed.

Lemma inv_replace s x x' :
  lease_inv s → x ∈ lease_list s → same_place x x' → lease_ok x' → fits_in s x x' →
  lease_inv (replace_lease x x' s).
Proof.
  intros Hi Hx Hsame Hok []. pose proof (li_uniq s Hi) as Hn.
  destruct (live_same x x' Hsame) as (E1 & E2 & E3).
  assert (∀ b f, total b f (lease_list (replace_lease x x' s))
    = (if b x' then f x' else 0) + total (λ y, others x y && b y) f (lease_list s)) as Hup
    by (intros; by apply total_update).
  assert (∀ b f, total b f (lease_list s)
    = (if b x then f x else 0) + total (λ y, others x y && b y) f (lease_list s)) as Hsplit
    by (intros; by apply total_split).
  constructor.
  - apply Hi.
  - rewrite (fmap_replace l_addr); [done..|apply Hsame].
  - rewrite (fmap_replace engine_id); [apply Hi|done|done|apply Hsame].
  - intros l [->|[Hl _]]%replace_elem; [done|by apply (li_ok s Hi)].
  - intros t Ht. unfold root_mem. rewrite Hup, E1. destruct (live_root t x) eqn:E; [by apply fi_mem0|].
    pose proof (li_mem s Hi t Ht) as H. unfold root_mem in H. rewrite Hsplit, E in H. done.
  - intros a Ha. unfold root_pct. rewrite Hup, E2.
    destruct (live_root_accel a x) eqn:E; [by apply fi_pct0|].
    pose proof (li_pct s Hi a Ha) as H. unfold root_pct in H. rewrite Hsplit, E in H. done.
  - intros l Hl. unfold child_mem, child_pct. rewrite !Hup, !E3.
    apply replace_elem in Hl as [->|[Hl Hne]].
    + rewrite (sp_addr _ _ Hsame). destruct fi_own0 as [H1 H2]. unfold child_mem, child_pct in H1, H2.
      rewrite Hsplit in H1, H2.
      assert (live_child (l_addr x) x = false) as E; [|rewrite E in *; done].
      unfold live_child. rewrite bool_decide_eq_false_2; [done|by apply (not_own_child s)].
    + destruct (live_child (l_addr l) x) eqn:E; [by apply fi_parent0|].
      destruct (li_children s Hi l Hl) as [H1 H2]. unfold child_mem, child_pct in H1, H2.
      rewrite Hsplit, E in H1, H2. done.
  - intros l q Hl Hq. apply replace_elem in Hl as [->|[Hl Hne]].
    + rewrite (sp_parent _ _ Hsame) in Hq. destruct (li_parent s Hi x q Hx Hq) as (p & Hp & Ep & Hd).
      exists p. split_and!; [|done|destruct Hd, Hsame; constructor; rewrite ?sp_revoked0; first [done | congruence]].
      pose proof (elem_replace s x x' p Hx Hp) as H.
      destruct (Z.eqb_spec (l_addr p) (l_addr x)) as [E|]; [|done].
      exfalso. apply (not_own_child s x Hi Hx). congruence.
    + destruct (li_parent s Hi l q Hl Hq) as (p & Hp & Ep & Hd).
      pose proof (elem_replace s x x' p Hx Hp) as H.
      destruct (Z.eqb_spec (l_addr p) (l_addr x)) as [E|]; [|by exists p].
      rewrite (lease_inj _ p x Hn Hp Hx E) in *. exists x'.
      split_and!; [done|rewrite (sp_addr _ _ Hsame); done|destruct Hd, Hsame; constructor; rewrite ?sp_revoked0; first [done | congruence]].
Qed.

(** ** Granting *)

(** A new allocation is at an address no live lease has. *)
Definition fresh_alloc (alloc : option Z) (s : lease_state) : Prop :=
  ∀ p, alloc = Some p → p ∉ l_addr <$> lease_list s.

Lemma avail_mem_exact s tier :
  lease_inv s → 0 ≤ tier < ANX_MEM_TIER_COUNT →
  u64 (rd 0 (total_mem_per_tier s) tier - sum_reserved_mem s tier)
  = rd 0 (total_mem_per_tier s) tier - root_mem s tier.
Proof.
  intros Hi Ht. rewrite sum_mem_exact by done. apply u64_small.
  pose proof (li_mem s Hi tier Ht). pose proof (root_mem_nonneg s tier Hi).
  destruct (li_totals s Hi) as (_ & _ & Hm & _). specialize (Hm tier). unfold is_u64 in *. lia.
Qed.

Lemma avail_accel_exact s a :
  lease_inv s → 0 ≤ a < ANX_ACCEL_COUNT →
  u32 (rd 0 (total_accel_pct s) a - sum_reserved_accel s a)
  = rd 0 (total_accel_pct s) a - root_pct s a.
Proof.
  intros Hi Ha. rewrite sum_accel_exact by done. apply u32_small.
  pose proof (li_pct s Hi a Ha). pose proof (root_pct_nonneg s a Hi).
  destruct (li_totals s Hi) as (_ & _ & _ & Hm). specialize (Hm a). unfold is_u32 in *. lia.
Qed.

Lemma root_pct_none s : lease_inv s → root_pct s ANX_ACCEL_NONE = 0.
Proof.
  intros Hi. unfold root_pct, total.
  rewrite (sumZ_ext _ (λ _, 0)); [by induction (lease_list s)|].
  intros x Hx. unfold live_root_accel. destruct (_ && _) eqn:G; [|done].
  apply andb_true_iff in G as [_ G%Z.eqb_eq]. by apply (li_ok s Hi x Hx).
Qed.

Lemma grant_spec alloc now s id tier bytes a pct :
  lease_inv s → fresh_alloc alloc s → 0 ≤ bytes → 0 ≤ pct →
  let '(r, o, s') := anx_lease_grant alloc now s (Some id) tier bytes a pct in
  lease_inv s' ∧ (r ≠ ANX_OK → s' = s) ∧
  (r = ANX_OK ↔ id ≠ ANX_UUID_NIL ∧ 0 ≤ tier < ANX_MEM_TIER_COUNT ∧ 0 ≤ a < ANX_ACCEL_COUNT ∧
     pct ≤ 100 ∧ (a = ANX_ACCEL_NONE → pct = 0) ∧ engine_leased s id = false ∧
     root_mem s tier + bytes ≤ rd 0 (total_mem_per_tier s) tier ∧
     (a ≠ ANX_ACCEL_NONE → root_pct s a + pct ≤ rd 0 (total_accel_pct s) a) ∧ is_Some alloc).
Proof.
  intros Hi Hfresh Hb Hp. unfold anx_lease_grant.
  destruct (uuid_is_nil_spec id) as [->|Hnil]; [naive_solver|].
  destruct ((tier <? 0) || _) eqn:G1; [split_and!; [done|done|split; [done|lia]]|].
  destruct ((a <? 0) || _) eqn:G2; [split_and!; [done|done|split; [done|lia]]|].
  destruct ((pct >? 100) || _) eqn:G3; [split_and!; [done|done|split; [done|lia]]|].
  destruct (engine_leased s id) eqn:G4; [naive_solver|]. cbv zeta.
  rewrite avail_mem_exact, avail_accel_exact by (done || lia).
  destruct (bytes >? _) eqn:G5; [split_and!; [done|done|split; [done|lia]]|].
  destruct (negb _ && _) eqn:G6; [split_and!; [done|done|split; [done|lia]]|].
  destruct alloc as [p|]; simpl; [|split_and!; [done|done|split; [done|naive_solver]]].
  split_and!; [|done|split; [intros _|done]].
  - apply (inv_add s (Lease p id tier bytes 0 a pct now 0 None 0 false)); try done.
    + by apply Hfresh.
    + constructor; simpl; unfold ANX_LEASE_DEPTH_MAX; try lia; done.
    + intros _. simpl. split; [lia|]. destruct (Z.eqb_spec a ANX_ACCEL_NONE) as [->|]; [|lia].
      rewrite (root_pct_none s Hi). destruct (li_totals s Hi) as (_ & _ & _ & Hm).
      specialize (Hm ANX_ACCEL_NONE). unfold is_u32 in Hm. lia.
  - split_and!; try lia; try done.
Qed.

Lemma grant_child_spec alloc now s p id bytes pct :
  lease_inv s → fresh_alloc alloc s → 0 ≤ bytes → 0 ≤ pct →
  let '(r, o, s') := anx_lease_grant_child alloc now s (Some p) (Some id) bytes pct in
  lease_inv s' ∧ (r ≠ ANX_OK → s' = s) ∧
  (r = ANX_OK → ∃ parent, registered s p = Some parent ∧ revoked parent = false ∧
     mem_used_bytes parent + child_mem s p + bytes ≤ mem_reserved_bytes parent ∧
     child_pct s p + pct ≤ accel_pct parent).
Proof.
  intros Hi Hfresh Hb Hp. unfold anx_lease_grant_child.
  destruct (_ || _) eqn:G1; [done|].
  destruct (registered s p) as [parent|] eqn:Hreg; [|done].
  pose proof Hreg as Hreg0. apply lease_at_Some in Hreg as [Hin Haddr].
  destruct (revoked parent || _) eqn:G2; [done|].
  destruct (_ && _) eqn:G3; [done|].
  destruct (engine_leased s id) eqn:G4; [done|].
  destruct (mem_used_bytes parent >? _) eqn:G5; [done|].
  pose proof (li_ok s Hi parent Hin) as Hok.
  rewrite children_loop_spec; [|apply (li_ok s Hi)|lia|apply Hok].
  fold (child_mem s p). fold (child_pct s p).
  destruct ((child_mem s p <=? _) && _) eqn:G6; [|done].
  destruct ((bytes >? _) || _) eqn:G7; [done|].
  destruct alloc as [q|]; simpl; [|done].
  to_prop. split_and!; [|done|].
  - apply (inv_add s (Lease q id (mem_tier parent) bytes 0 (accel parent) pct now 0
                        (Some (l_addr parent)) (l_depth parent + 1) false)); try done.
    + by apply Hfresh.
    + assert (accel parent = ANX_ACCEL_NONE → pct = 0) by lia.
      destruct Hok. unfold ANX_LEASE_DEPTH_MAX in *. constructor; simpl; try lia; try done. unfold ANX_LEASE_DEPTH_MAX; lia.
    + intros q' [= <-]. exists parent. rewrite Haddr. simpl. split_and!; [done|done| |lia|lia].
      constructor; simpl; try done. congruence.
  - intros _. exists parent. split_and!; [done|done|lia|lia].
Qed.

(** ** Resizing *)

Lemma total_ext b1 b2 f l : (∀ x, x ∈ l → b1 x = b2 x) → total b1 f l = total b2 f l.
Proof. intros H. apply sumZ_ext. intros x Hx. by rewrite (H x Hx). Qed.

Lemma update_replace s p f x :
  NoDup (l_addr <$> lease_list s) → registered s p = Some x →
  update_lease p f s = replace_lease x (f x) s.
Proof.
  intros Hn [Hx <-]%lease_at_Some. unfold update_lease, replace_lease. cbn. f_equal.
  apply list_fmap_ext. intros i y Hy%list_elem_of_lookup_2.
  destruct (Z.eqb_spec (l_addr y) (l_addr x)) as [E|]; [|done].
  by rewrite (lease_inj _ y x Hn Hy Hx E).
Qed.

Lemma sibling_root_mem x y t :
  live_root t x = true → sibling_mem x y = others x y && live_root t y.
Proof.
  unfold live_root, sibling_mem, sibling, others, is_root.
  destruct (bool_decide_reflect (l_parent x = None)) as [->|]; [|done].
  intros [_ <-%Z.eqb_eq]%andb_true_iff.
  repeat case_bool_decide; try congruence;
    destruct (revoked y), (_ =? l_addr x), (mem_tier y =? mem_tier x); done.
Qed.

Lemma sibling_root_acc x y a :
  live_root_accel a x = true → a ≠ ANX_ACCEL_NONE →
  sibling_acc x y = others x y && live_root_accel a y.
Proof.
  unfold live_root_accel, sibling_acc, sibling, others, is_root.
  destruct (bool_decide_reflect (l_parent x = None)) as [->|]; [|done].
  intros [_ <-%Z.eqb_eq]%andb_true_iff Hne.
  destruct (Z.eqb_spec (accel x) ANX_ACCEL_NONE); [done|].
  repeat case_bool_decide; try congruence;
    destruct (revoked y), (_ =? l_addr x), (accel y =? accel x); done.
Qed.

Lemma sibling_child x y p :
  live_child p x = true →
  sibling_mem x y = others x y && live_child p y ∧
  (accel x ≠ ANX_ACCEL_NONE → sibling_acc x y = others x y && live_child p y).
Proof.
  unfold live_child, sibling_mem, sibling_acc, sibling, others, is_root.
  intros [E%bool_decide_eq_true _]%andb_true_iff. rewrite E.
  rewrite (bool_decide_eq_false_2 (Some p = None)) by done. simpl. split.
  - destruct (_ =? _), (revoked y), (bool_decide _); done.
  - intros Hne. destruct (Z.eqb_spec (accel x) ANX_ACCEL_NONE); [done|].
    destruct (_ =? l_addr x), (revoked y), (bool_decide _); done.
Qed.

(** Within one lease's siblings nobody holds a share of no accelerator. *)
Lemma others_le b f l x : (∀ y, y ∈ l → 0 ≤ f y) → total (λ y, others x y && b y) f l ≤ total b f l.
Proof.
  intros Hf. apply sumZ_le. intros y Hy. specialize (Hf y Hy).
  destruct (others x y), (b y); simpl; lia.
Qed.

Lemma resize_fits s x bytes pct available percent :
  lease_inv s → x ∈ lease_list s → revoked x = false →
  (accel x = ANX_ACCEL_NONE → pct = 0) →
  mem_used_bytes x + child_mem s (l_addr x) ≤ bytes → child_pct s (l_addr x) ≤ pct →
  (l_parent x = None → available = rd 0 (total_mem_per_tier s) (mem_tier x) ∧
                       percent = rd 0 (total_accel_pct s) (accel x)) →
  (∀ p, p ∈ lease_list s → l_parent x = Some (l_addr p) →
     available = mem_reserved_bytes p - mem_used_bytes p ∧ percent = accel_pct p) →
  bytes ≤ available - total (sibling_mem x) mem_reserved_bytes (lease_list s) →
  pct ≤ percent - total (sibling_acc x) accel_pct (lease_list s) →
  fits_in s x (x <| mem_reserved_bytes := bytes |> <| accel_pct := pct |>).
Proof.
  intros Hi Hx Hrev Hnone Hown Hownp Hroot Hpar Hb Hp.
  assert (∀ y, y ∈ lease_list s → 0 ≤ accel_pct y) as Hpos by (intros y Hy; apply (li_ok s Hi y Hy)).
  constructor; cbn.
  - intros t Ht. rewrite (total_ext _ (sibling_mem x)) by (intros; by rewrite (sibling_root_mem x _ t)).
    unfold live_root, is_root in Ht. to_prop. destruct Hroot as [-> _]; [done|]. subst t. lia.
  - intros a Ha. pose proof Ha as Ha'. unfold live_root_accel, is_root in Ha. to_prop. subst a.
    destruct Hroot as [_ ->]; [done|].
    destruct (decide (accel x = ANX_ACCEL_NONE)) as [E|E].
    + rewrite (Hnone E).
      pose proof (others_le (live_root_accel (accel x)) accel_pct (lease_list s) x Hpos) as Hle.
      pose proof (li_pct s Hi (accel x) (lo_accel x (li_ok s Hi x Hx))) as Hcap.
      unfold root_pct in Hcap. lia.
    + rewrite (total_ext _ (sibling_acc x)) by (intros; by rewrite (sibling_root_acc x _ (accel x))). lia.
  - done.
  - intros p Hp' Hc. pose proof (sibling_child x) as Hsib.
    pose proof Hc as Hc'. unfold live_child in Hc'. to_prop.
    destruct (Hpar p) as [-> ->]; [done|done|]. split.
    + rewrite (total_ext _ (sibling_mem x)) by (intros y _; by destruct (Hsib y (l_addr p) Hc) as [-> _]).
      lia.
    + destruct (decide (accel x = ANX_ACCEL_NONE)) as [E|E].
      * rewrite (Hnone E).
        pose proof (others_le (live_child (l_addr p)) accel_pct (lease_list s) x Hpos) as Hle.
        destruct (li_children s Hi p Hp') as [_ Hcap]. unfold child_pct in Hcap. lia.
      * rewrite (total_ext _ (sibling_acc x)) by (intros y _; by destruct (Hsib y (l_addr p) Hc) as [_ ->]).
        lia.
Qed.

Lemma resize_spec current s p bytes pct :
  lease_inv s → 0 ≤ bytes → 0 ≤ pct →
  let '(r, s') := anx_lease_resize current s (Some p) bytes pct in
  lease_inv s' ∧ (r ≠ ANX_OK → s' = s).
Proof.
  intros Hi Hb Hp. unfold anx_lease_resize.
  destruct (bool_decide _); [done|]. destruct (pct >? 100) eqn:G1; [done|].
  destruct (registered s p) as [x|] eqn:Hreg; [|done].
  pose proof Hreg as Hreg0. apply lease_at_Some in Hreg as [Hx Haddr].
  destruct (revoked x) eqn:Hrev; [done|].
  destruct ((mem_tier x <? 0) || _ || _ || _ || _) eqn:G2; [done|].
  destruct (mem_used_bytes x >? bytes) eqn:G3; [done|].
  rewrite children_loop_spec; [|apply (li_ok s Hi)|lia|lia].
  fold (child_mem s p). fold (child_pct s p).
  destruct ((child_mem s p <=? _) && _) eqn:G4; [|done].
  pose proof (li_ok s Hi x Hx) as Hok.
  assert (∀ available percent, 0 ≤ available → 0 ≤ percent →
    (l_parent x = None → available = rd 0 (total_mem_per_tier s) (mem_tier x) ∧
                         percent = rd 0 (total_accel_pct s) (accel x)) →
    (∀ q, q ∈ lease_list s → l_parent x = Some (l_addr q) →
       available = mem_reserved_bytes q - mem_used_bytes q ∧ percent = accel_pct q) →
    let '(r, s') :=
      match siblings_loop (lease_list s) x available percent with
      | None => (ANX_ENOMEM, s)
      | Some (available, percent) =>
          when (bytes >? available) || (pct >? percent) ret (ANX_ENOMEM, s) ;;
          (ANX_OK, update_lease p (λ l, l <| mem_reserved_bytes := bytes |> <| accel_pct := pct |>) s)
      end in
    lease_inv s' ∧ (r ≠ ANX_OK → s' = s)) as Hgo.
  { intros av pc Hav Hpc Hr Hc. rewrite siblings_loop_spec; [|apply (li_ok s Hi)|done|done].
    destruct ((total (sibling_mem x) _ _ <=? _) && _); [|done].
    destruct ((bytes >? _) || _) eqn:G5; [done|]. split; [|done].
    rewrite (update_replace s p _ x); [|apply Hi|done].
    apply inv_replace; [done|done|by constructor| |].
    - assert (accel x = ANX_ACCEL_NONE → pct = 0) by lia.
      destruct Hok. constructor; cbn; try done; lia.
    - apply (resize_fits s x bytes pct av pc); rewrite ?Haddr; try done; lia. }
  destruct (li_totals s Hi) as (_ & _ & Hm & Ha).
  destruct (l_parent x) as [q|] eqn:Hq.
  - destruct (registered s q) as [parent|] eqn:Hreg; [|done].
    apply lease_at_Some in Hreg as [Hpin Hpaddr].
    destruct (revoked parent); [done|]. destruct (mem_used_bytes parent >? _) eqn:G6; [done|].
    apply Hgo; [lia|apply (li_ok s Hi parent Hpin)|done|].
    intros p' Hp' [= E]. rewrite E in Hpaddr.
    by rewrite (lease_inj _ p' parent (li_uniq s Hi) Hp' Hpin).
  - apply Hgo; [apply Hm|apply Ha|done|done].
Qed.

(** ** Revocation *)

Lemma registered_elem s p : lease_inv s → p ∈ lease_list s → registered s (l_addr p) = Some p.
Proof. intros Hi. apply lease_at_elem, Hi. Qed.

Lemma walk_step n s c root :
  in_subtree_walk (S n) s (Some c) root
  = if l_addr c =? root then true else in_subtree_walk n s (l_parent c ≫= registered s) root.
Proof. done. Qed.

(** Nine steps reach the root of every lease. *)
Lemma walk_enough s root n x :
  lease_inv s → x ∈ lease_list s → l_depth x < Z.of_nat n →
  in_subtree_walk (S n) s (Some x) root = in_subtree_walk n s (Some x) root.
Proof.
  intros Hi. revert x. induction n as [|n IH]; intros x Hx Hn.
  { pose proof (lo_depth x (li_ok s Hi x Hx)). lia. }
  rewrite (walk_step (S n)), (walk_step n). destruct (l_addr x =? root); [done|].
  destruct (l_parent x) as [q|] eqn:Hq; [|by destruct n].
  destruct (li_parent s Hi x q Hx Hq) as (p & Hp & <- & []). cbn [mbind option_bind].
  rewrite (registered_elem s p Hi Hp). apply IH; [done|lia].
Qed.

Lemma in_subtree_child s x p root :
  lease_inv s → x ∈ lease_list s → p ∈ lease_list s → l_parent x = Some (l_addr p) →
  in_subtree s x root = (l_addr x =? root) || in_subtree s p root.
Proof.
  intros Hi Hx Hp E. unfold in_subtree.
  rewrite <- (walk_enough s root _ x Hi Hx).
  2:{ pose proof (lo_depth x (li_ok s Hi x Hx)). unfold ANX_LEASE_DEPTH_MAX in *. lia. }
  rewrite walk_step, E. cbn [mbind option_bind]. rewrite (registered_elem s p Hi Hp).
  by destruct (_ =? _).
Qed.

Definition revoke_lease (s : lease_state) (root : Z) (c : anx_engine_lease) : anx_engine_lease :=
  if in_subtree s c root then c <| revoked := true |> else c.

Lemma revoke_fields s root c :
  same_place c (revoke_lease s root c <| revoked := revoked c |>) ∧
  mem_reserved_bytes (revoke_lease s root c) = mem_reserved_bytes c ∧
  mem_used_bytes (revoke_lease s root c) = mem_used_bytes c ∧
  accel_pct (revoke_lease s root c) = accel_pct c ∧
  revoked (revoke_lease s root c) = revoked c || in_subtree s c root.
Proof.
  unfold revoke_lease. destruct (in_subtree s c root); cbn; rewrite ?orb_true_r, ?orb_false_r; done.
Qed.

Definition revoke_state (s : lease_state) (root : Z) : lease_state :=
  s <| lease_list ::= fmap (revoke_lease s root) |>.

Lemma revoke_total s root b f :
  (∀ c, f (revoke_lease s root c) = f c) →
  (∀ c, b (revoke_lease s root c) = true → b c = true) →
  (∀ c, c ∈ lease_list s → 0 ≤ f c) →
  total b f (lease_list (revoke_state s root)) ≤ total b f (lease_list s).
Proof.
  intros Hf Hb Hpos. unfold total. simpl. rewrite sumZ_fmap. apply sumZ_le. intros c Hc.
  rewrite Hf. specialize (Hb c). specialize (Hpos c Hc).
  destruct (b (revoke_lease s root c)); [by rewrite Hb|destruct (b c); lia].
Qed.

Lemma live_revoke s root c :
  let c' := revoke_lease s root c in
  (∀ t, live_root t c' = true → live_root t c = true) ∧
  (∀ a, live_root_accel a c' = true → live_root_accel a c = true) ∧
  (∀ p, live_child p c' = true → live_child p c = true).
Proof.
  unfold revoke_lease. destruct (in_subtree s c root); [|done].
  unfold live_root, live_root_accel, live_child, is_root. cbn.
  split_and!; intros ?; by rewrite ?andb_false_r.
Qed.

Lemma inv_revoke s root : lease_inv s → lease_inv (revoke_state s root).
Proof.
  intros Hi.
  assert (∀ b f, (∀ c, f (revoke_lease s root c) = f c) →
    (∀ c, b (revoke_lease s root c) = true → b c = true) →
    (∀ c, c ∈ lease_list s → 0 ≤ f c) →
    total b f (lease_list (revoke_state s root)) ≤ total b f (lease_list s)) as Htot
    by (intros; by apply revoke_total).
  assert (∀ c, mem_reserved_bytes (revoke_lease s root c) = mem_reserved_bytes c) as Hmem
    by (intros c; apply (revoke_fields s root c)).
  assert (∀ c, accel_pct (revoke_lease s root c) = accel_pct c) as Hpct
    by (intros c; apply (revoke_fields s root c)).
  assert (∀ c, c ∈ lease_list s → 0 ≤ mem_reserved_bytes c) by (intros c Hc; apply (li_ok s Hi c Hc)).
  assert (∀ c, c ∈ lease_list s → 0 ≤ accel_pct c) by (intros c Hc; apply (li_ok s Hi c Hc)).
  assert (∀ {B} (g : anx_engine_lease → B), (∀ c, g (c <| revoked := true |>) = g c) →
    g <$> lease_list (revoke_state s root) = g <$> lease_list s) as Hmap.
  { intros B g Hg. simpl. rewrite <- list_fmap_compose. apply list_fmap_ext. intros i c _.
    simpl. unfold revoke_lease. by destruct (in_subtree s c root). }
  constructor.
  - apply Hi.
  - rewrite Hmap by done. apply Hi.
  - rewrite Hmap by done. apply Hi.
  - intros c' Hc'. simpl in Hc'. apply list_elem_of_fmap in Hc' as (c & -> & Hc).
    destruct (li_ok s Hi c Hc). unfold revoke_lease. destruct (in_subtree s c root); by constructor.
  - intros t Ht. etransitivity; [|by apply (li_mem s Hi)].
    apply Htot; [done| |done]. intros c. by apply live_revoke.
  - intros a Ha. etransitivity; [|by apply (li_pct s Hi)].
    apply Htot; [done| |done]. intros c. by apply live_revoke.
  - intros c' Hc'. simpl in Hc'. apply list_elem_of_fmap in Hc' as (c & -> & Hc).
    destruct (revoke_fields s root c) as ([E _ _ _ _ _ _] & -> & -> & -> & _). cbn in E. rewrite E.
    destruct (li_children s Hi c Hc) as [H1 H2]. unfold child_mem, child_pct in *. split.
    + etransitivity; [|exact H1]. apply Z.add_le_mono_l, Htot; [done| |done].
      intros c'. by apply live_revoke.
    + etransitivity; [|exact H2]. apply Htot; [done| |done]. intros c'. by apply live_revoke.
  - intros c' q Hc' Hq. simpl in Hc'. apply list_elem_of_fmap in Hc' as (c & -> & Hc).
    destruct (revoke_fields s root c) as ([_ _ Et Ea Ep Ed _] & _ & _ & _ & Er). cbn in Et, Ea, Ep, Ed.
    rewrite Ep in Hq. destruct (li_parent s Hi c q Hc Hq) as (p & Hp & <- & []).
    destruct (revoke_fields s root p) as ([Ead' _ Et' Ea' _ Ed' _] & _ & _ & _ & Er').
    cbn in Ead', Et', Ea', Ed'. exists (revoke_lease s root p).
    split_and!; [simpl; apply list_elem_of_fmap; by exists p|done|].
    constructor; [congruence|congruence|congruence|].
    rewrite Er, Er', (in_subtree_child s c p root Hi Hc Hp Hq).
    destruct (revoked p); simpl; [rewrite de_revoked0 by done; done|].
    intros ->. by rewrite !orb_true_r.
Qed.

Lemma lease_revoke_cases s p :
  let '(r, s') := anx_lease_revoke s (Some p) in
  (r ≠ ANX_OK ∧ s' = s) ∨
  (r = ANX_OK ∧ s' = revoke_state s p ∧ is_Some (registered s p) ∧
   ∀ c, c ∈ lease_list s → in_subtree s c p = true → mem_used_bytes c = 0).
Proof.
  unfold anx_lease_revoke. destruct (registered s p) as [x|]; [|by left].
  destruct (existsb _ _) eqn:E; [by left|]. right. split_and!; [done|done|done|].
  intros c Hc Hs. destruct (Z.eqb_spec (mem_used_bytes c) 0) as [|Hne]; [done|]. exfalso.
  apply not_true_iff_false in E. apply E, existsb_exists. exists c.
  split; [by apply list_elem_of_In|]. rewrite Hs. simpl. by destruct (Z.eqb_spec (mem_used_bytes c) 0).
Qed.

(** ** Release *)

Lemma filter_total b f l p :
  (∀ c, c ∈ l → 0 ≤ f c) → total b f (filter (λ x, l_addr x ≠ p) l) ≤ total b f l.
Proof.
  induction l as [|x l IH]; intros Hpos; [done|].
  assert (total b f (filter (λ x, l_addr x ≠ p) l) ≤ total b f l)
    by (apply IH; intros c Hc; apply Hpos; by right).
  pose proof (Hpos x (list_elem_of_here _ _)). rewrite filter_cons.
  destruct (decide _); rewrite ?total_cons; destruct (b x); lia.
Qed.

Lemma NoDup_fmap_filter {B} (g : anx_engine_lease → B) p l :
  NoDup (g <$> l) → NoDup (g <$> filter (λ x, l_addr x ≠ p) l).
Proof.
  induction l as [|x l IH]; [done|]. rewrite fmap_cons. intros [Hx Hn]%NoDup_cons.
  rewrite filter_cons. destruct (decide _); [|by apply IH].
  rewrite fmap_cons. apply NoDup_cons. split; [|by apply IH].
  intros (y & E & [_ Hy]%list_elem_of_filter)%list_elem_of_fmap.
  apply Hx. rewrite E. apply list_elem_of_fmap. by exists y.
Qed.

Lemma inv_release s p :
  lease_inv s → (∀ c, c ∈ lease_list s → l_parent c ≠ Some p) →
  lease_inv (s <| lease_list ::= filter (λ l, l_addr l ≠ p) |>).
Proof.
  intros Hi Hno.
  assert (∀ c, c ∈ lease_list s → 0 ≤ mem_reserved_bytes c) by (intros c Hc; apply (li_ok s Hi c Hc)).
  assert (∀ c, c ∈ lease_list s → 0 ≤ accel_pct c) by (intros c Hc; apply (li_ok s Hi c Hc)).
  constructor; simpl.
  - apply Hi.
  - apply NoDup_fmap_filter, Hi.
  - apply NoDup_fmap_filter, Hi.
  - intros l [_ Hl]%list_elem_of_filter. by apply (li_ok s Hi).
  - intros t Ht. etransitivity; [|by apply (li_mem s Hi)]. by apply filter_total.
  - intros a Ha. etransitivity; [|by apply (li_pct s Hi)]. by apply filter_total.
  - intros l [_ Hl]%list_elem_of_filter. destruct (li_children s Hi l Hl) as [H1 H2].
    unfold child_mem, child_pct in *. split; (etransitivity; [|done]); [apply Z.add_le_mono_l|];
      by apply filter_total.
  - intros l q [_ Hl]%list_elem_of_filter Hq. destruct (li_parent s Hi l q Hl Hq) as (x & Hx & <- & Hd).
    exists x. split_and!; [|done|done]. apply list_elem_of_filter. split; [|done].
    intros E. apply (Hno l Hl). congruence.
Qed.

Lemma release_cases s p :
  let '(r, s') := anx_lease_release s (Some p) in
  (r ≠ ANX_OK ∧ s' = s) ∨
  (r = ANX_OK ∧ s' = s <| lease_list ::= filter (λ l, l_addr l ≠ p) |> ∧
   ∀ c, c ∈ lease_list s → l_parent c ≠ Some p).
Proof.
  unfold anx_lease_release. destruct (registered s p) as [x|]; [|by left].
  destruct (negb _); [by left|]. destruct (existsb _ _) eqn:E; [by left|].
  right. split_and!; [done|done|]. intros c Hc Hp. apply not_true_iff_false in E.
  apply E, existsb_exists. exists c. split; [by apply list_elem_of_In|by apply bool_decide_eq_true].
Qed.

(** ** All transitions *)

(** A step is one call of the lease API, or an engine recording in its own
    lease what it uses of what it has not delegated. *)
Inductive lease_step (s : lease_state) : lease_state → Prop :=
  | step_grant alloc now id tier bytes a pct :
      fresh_alloc alloc s → 0 ≤ bytes → 0 ≤ pct →
      lease_step s (anx_lease_grant alloc now s (Some id) tier bytes a pct).2
  | step_grant_child alloc now p id bytes pct :
      fresh_alloc alloc s → 0 ≤ bytes → 0 ≤ pct →
      lease_step s (anx_lease_grant_child alloc now s (Some p) (Some id) bytes pct).2
  | step_resize current p bytes pct :
      0 ≤ bytes → 0 ≤ pct → lease_step s (anx_lease_resize current s (Some p) bytes pct).2
  | step_revoke p : lease_step s (anx_lease_revoke s (Some p)).2
  | step_release p : lease_step s (anx_lease_release s (Some p)).2
  | step_use p x used :
      registered s p = Some x → 0 ≤ used → used + child_mem s p ≤ mem_reserved_bytes x →
      lease_step s (update_lease p (λ l, l <| mem_used_bytes := used |>) s).

Lemma use_fits s x used :
  lease_inv s → x ∈ lease_list s → 0 ≤ used →
  used + child_mem s (l_addr x) ≤ mem_reserved_bytes x →
  fits_in s x (x <| mem_used_bytes := used |>).
Proof.
  intros Hi Hx Hu Hle. pose proof (li_uniq s Hi) as Hn.
  assert (∀ b f, total b f (lease_list s)
    = (if b x then f x else 0) + total (λ y, others x y && b y) f (lease_list s)) as Hsplit
    by (intros; by apply total_split).
  constructor; cbn.
  - intros t Ht. pose proof Ht as Ht'. unfold live_root in Ht'. to_prop. subst t.
    pose proof (li_mem s Hi _ (lo_tier x (li_ok s Hi x Hx))) as H'.
    unfold root_mem in H'. rewrite Hsplit, Ht in H'. done.
  - intros a Ha. pose proof Ha as Ha'. unfold live_root_accel in Ha'. to_prop. subst a.
    pose proof (li_pct s Hi _ (lo_accel x (li_ok s Hi x Hx))) as H'.
    unfold root_pct in H'. rewrite Hsplit, Ha in H'. done.
  - split; [done|]. by apply (li_children s Hi x Hx).
  - intros p Hp Hc. destruct (li_children s Hi p Hp) as [H1 H2].
    unfold child_mem, child_pct in H1, H2. rewrite Hsplit, Hc in H1, H2. done.
Qed.

Lemma lease_step_inv s s' : lease_inv s → lease_step s s' → lease_inv s'.
Proof.
  intros Hi [alloc now id tier bytes a pct Hf Hb Hp|alloc now p id bytes pct Hf Hb Hp
            |current p bytes pct Hb Hp|p|p|p x used Hreg Hu Hle].
  - pose proof (grant_spec alloc now s id tier bytes a pct Hi Hf Hb Hp) as H.
    destruct (anx_lease_grant _ _ _ _ _ _ _ _) as [[r o] s1]. apply H.
  - pose proof (grant_child_spec alloc now s p id bytes pct Hi Hf Hb Hp) as H.
    destruct (anx_lease_grant_child _ _ _ _ _ _ _) as [[r o] s1]. apply H.
  - pose proof (resize_spec current s p bytes pct Hi Hb Hp) as H.
    destruct (anx_lease_resize _ _ _ _ _) as [r s1]. apply H.
  - pose proof (lease_revoke_cases s p) as H. destruct (anx_lease_revoke _ _) as [r s1].
    destruct H as [[_ ->]|(_ & -> & _)]; [done|by apply inv_revoke].
  - pose proof (release_cases s p) as H. destruct (anx_lease_release _ _) as [r s1].
    destruct H as [[_ ->]|(_ & -> & Hno)]; [done|by apply inv_release].
  - pose proof Hreg as [Hx Ha]%lease_at_Some. rewrite (update_replace s p _ x); [|apply Hi|done].
    apply inv_replace; [done|done|by constructor| |].
    + destruct (li_ok s Hi x Hx). by constructor.
    + apply use_fits; [done..|by rewrite Ha].
Qed.

Lemma lease_inv_init : lease_inv anx_lease_init.
Proof.
  assert (∀ (v : Z) n i, 0 ≤ v → 0 ≤ rd 0 (replicate n v) i ≤ v) as Hrep.
  { intros v n i Hv. unfold rd. rewrite nth_lookup.
    destruct (replicate n v !! Z.to_nat i) as [x|] eqn:E; simpl; [|lia].
    apply lookup_replicate in E as [-> _]. lia. }
  constructor; try (by constructor); try (intros l Hl; by apply not_elem_of_nil in Hl).
  - split_and!; [done|done| |]; intros i.
    + pose proof (Hrep (16 * 1024 * 1024 * 1024) (Z.to_nat ANX_MEM_TIER_COUNT) i) as H.
      unfold is_u64, anx_lease_init. cbn [total_mem_per_tier]. lia.
    + pose proof (Hrep 100 (Z.to_nat ANX_ACCEL_COUNT) i) as H.
      unfold is_u32, anx_lease_init. cbn [total_accel_pct]. lia.
  - intros t Ht. unfold root_mem. simpl lease_list.
    pose proof (Hrep (16 * 1024 * 1024 * 1024) (Z.to_nat ANX_MEM_TIER_COUNT) t) as H.
    cbn [total_mem_per_tier anx_lease_init]. unfold total. simpl sumZ. lia.
  - intros a Ha. unfold root_pct. simpl lease_list.
    pose proof (Hrep 100 (Z.to_nat ANX_ACCEL_COUNT) a) as H.
    cbn [total_accel_pct anx_lease_init]. unfold total. simpl sumZ. lia.
  - intros l q Hl. by apply not_elem_of_nil in Hl.
Qed.

Lemma lease_inv_reachable s : rtc lease_step anx_lease_init s → lease_inv s.
Proof.
  intros H. assert (∀ a b, rtc lease_step a b → lease_inv a → lease_inv b) as Hgo.
  { clear. induction 1 as [|a b c Hab _ IH]; [done|]. intros Hi. by apply IH, (lease_step_inv a). }
  apply (Hgo _ _ H), lease_inv_init.
Qed.

(** ** Theorems *)

(** C9: In every state the lease API can reach, the live root reservations of a
    tier add up to no more than its capacity (so the 64-bit sums of the code
    have not wrapped and [anx_lease_avail_mem] is the exact difference), the
    same holds for each accelerator, and no lease has delegated, together with
    what it uses, more than it holds. *)
Theorem lease_conservation s :
  rtc lease_step anx_lease_init s →
  (∀ tier, 0 ≤ tier < ANX_MEM_TIER_COUNT →
     0 ≤ root_mem s tier ≤ rd 0 (total_mem_per_tier s) tier ∧
     anx_lease_avail_mem s tier = (ANX_OK, Some (rd 0 (total_mem_per_tier s) tier - root_mem s tier))) ∧
  (∀ a, 0 ≤ a < ANX_ACCEL_COUNT →
     0 ≤ root_pct s a ≤ rd 0 (total_accel_pct s) a ∧
     anx_lease_avail_accel s a = (ANX_OK, Some (rd 0 (total_accel_pct s) a - root_pct s a))) ∧
  (∀ l, l ∈ lease_list s →
     mem_used_bytes l + child_mem s (l_addr l) ≤ mem_reserved_bytes l ∧
     child_pct s (l_addr l) ≤ accel_pct l).
Proof.
  intros Hi%lease_inv_reachable. split_and!.
  - intros tier Ht. pose proof (root_mem_nonneg s tier Hi). pose proof (li_mem s Hi tier Ht).
    split; [lia|]. unfold anx_lease_avail_mem. destruct (_ || _) eqn:G; [lia|].
    by rewrite avail_mem_exact.
  - intros a Ha. pose proof (root_pct_nonneg s a Hi). pose proof (li_pct s Hi a Ha).
    split; [lia|]. unfold anx_lease_avail_accel. destruct (_ || _) eqn:G; [lia|].
    by rewrite avail_accel_exact.
  - apply (li_children s Hi).
Qed.

Definition leased_once : lease_state :=
  (anx_lease_grant (Some 100) 7 anx_lease_init (Some (Uuid 0 1)) 2 4096 1 30).2.
Definition leased_twice : lease_state :=
  (anx_lease_grant_child (Some 200) 8 leased_once (Some 100) (Some (Uuid 0 2)) 1024 10).2.

Lemma leased_twice_reachable : rtc lease_step anx_lease_init leased_twice.
Proof.
  eapply rtc_l; [|eapply rtc_l; [|apply rtc_refl]].
  - apply (step_grant anx_lease_init (Some 100) 7 (Uuid 0 1) 2 4096 1 30); [|lia|lia].
    intros p [= <-] Hp. by apply not_elem_of_nil in Hp.
  - apply (step_grant_child leased_once (Some 200) 8 100 (Uuid 0 2) 1024 10); [|lia|lia].
    intros p [= <-] Hp. apply list_elem_of_In in Hp. vm_compute in Hp. intuition discriminate.
Qed.

Lemma lease_conservation_witness :
  anx_lease_avail_mem leased_twice 2 = (ANX_OK, Some (16 * 1024 * 1024 * 1024 - 4096)).
Proof.
  destruct (lease_conservation leased_twice leased_twice_reachable) as (H & _).
  destruct (H 2) as [_ ->]; [done|]. vm_compute. reflexivity.
Defined.

(** [anx_lease_grant] is exact: in a reachable state it succeeds if and only
    if its arguments are valid, the engine holds no lease yet, the bytes fit in
    what is left of the tier and the share in what is left of the accelerator,
    and the allocation succeeds; when it fails nothing has changed. *)
Theorem lease_grant_exact alloc now s id tier bytes a pct :
  rtc lease_step anx_lease_init s → fresh_alloc alloc s → 0 ≤ bytes → 0 ≤ pct →
  let '(r, o, s') := anx_lease_grant alloc now s (Some id) tier bytes a pct in
  (r ≠ ANX_OK → s' = s) ∧
  (r = ANX_OK ↔ id ≠ ANX_UUID_NIL ∧ 0 ≤ tier < ANX_MEM_TIER_COUNT ∧ 0 ≤ a < ANX_ACCEL_COUNT ∧
     pct ≤ 100 ∧ (a = ANX_ACCEL_NONE → pct = 0) ∧ engine_leased s id = false ∧
     root_mem s tier + bytes ≤ rd 0 (total_mem_per_tier s) tier ∧
     (a ≠ ANX_ACCEL_NONE → root_pct s a + pct ≤ rd 0 (total_accel_pct s) a) ∧ is_Some alloc).
Proof.
  intros Hi%lease_inv_reachable Hf Hb Hp.
  pose proof (grant_spec alloc now s id tier bytes a pct Hi Hf Hb Hp) as H.
  destruct (anx_lease_grant _ _ _ _ _ _ _ _) as [[r o] s']. naive_solver.
Qed.

Lemma lease_grant_exact_witness :
  (anx_lease_grant (Some 300) 9 leased_twice (Some (Uuid 0 3)) 2 (16 * 1024 * 1024 * 1024) 0 0).1.1
  ≠ ANX_OK.
Proof.
  pose proof (lease_grant_exact (Some 300) 9 leased_twice (Uuid 0 3) 2 (16 * 1024 * 1024 * 1024) 0 0
    leased_twice_reachable) as H.
  destruct (anx_lease_grant _ _ _ _ _ _ _ _) as [[r o] s'].
  destruct H as [_ [H _]]; [|lia|lia|].
  { intros p [= <-] Hp. apply list_elem_of_In in Hp. vm_compute in Hp. intuition discriminate. }
  intros E. destruct (H E) as (_ & _ & _ & _ & _ & _ & Hm & _). vm_compute in Hm. by apply Hm.
Defined.

(** The live leases delegated, directly or not, from the one at [p]. *)
Definition delegates (s : lease_state) (x y : anx_engine_lease) : Prop :=
  x ∈ lease_list s ∧ y ∈ lease_list s ∧ l_parent x = Some (l_addr y).

Definition below (s : lease_state) (p : Z) (c : anx_engine_lease) : Prop :=
  rtc (delegates s) c (default c (registered s p)).

Lemma delegates_subtree s c x :
  lease_inv s → rtc (delegates s) c x → in_subtree s c (l_addr x) = true.
Proof.
  intros Hi. induction 1 as [w|w y z (H1 & H2 & H3) _ IH].
  - unfold in_subtree. rewrite walk_step. by rewrite Z.eqb_refl.
  - rewrite (in_subtree_child s w y _ Hi H1 H2 H3), IH. apply orb_true_r.
Qed.

Lemma in_subtree_below s c x p :
  lease_inv s → c ∈ lease_list s → registered s p = Some x →
  in_subtree s c p = true ↔ below s p c.
Proof.
  intros Hi Hc Hreg. pose proof Hreg as [Hx <-]%lease_at_Some.
  unfold below. rewrite Hreg. cbn [default]. split.
  - revert Hc. unfold in_subtree. generalize (S (Z.to_nat ANX_LEASE_DEPTH_MAX)). intros n.
    revert c. induction n as [|n IH]; intros c Hc; [done|]. rewrite walk_step.
    destruct (Z.eqb_spec (l_addr c) (l_addr x)) as [E|].
    { intros _. by rewrite (lease_inj _ c x (li_uniq s Hi) Hc Hx E). }
    destruct (l_parent c) as [q|] eqn:Hq; [|by destruct n].
    destruct (li_parent s Hi c q Hc Hq) as (y & Hy & <- & _). cbn [mbind option_bind].
    rewrite (registered_elem s y Hi Hy). intros H. eapply rtc_l; [|by apply IH]. done.
  - intros H. by apply (delegates_subtree s c x).
Qed.

(** [anx_lease_revoke] is all or nothing on the subtree: if any lease in it
    is in use the call returns [ANX_EBUSY] and changes nothing; otherwise it
    revokes exactly the lease and everything delegated from it, however deep,
    and leaves every other lease as it was. *)
Theorem lease_revoke_subtree s p x :
  rtc lease_step anx_lease_init s → registered s p = Some x →
  let '(r, s') := anx_lease_revoke s (Some p) in
  (r = ANX_OK ↔ ∀ c, c ∈ lease_list s → below s p c → mem_used_bytes c = 0) ∧
  (r ≠ ANX_OK → r = ANX_EBUSY ∧ s' = s) ∧
  (r = ANX_OK → ∀ c, c ∈ lease_list s →
     (below s p c → c <| revoked := true |> ∈ lease_list s') ∧ (¬ below s p c → c ∈ lease_list s')).
Proof.
  intros Hi%lease_inv_reachable Hreg. unfold anx_lease_revoke. rewrite Hreg.
  assert (∀ c, c ∈ lease_list s → in_subtree s c p = true ↔ below s p c) as Hsub
    by (intros; by apply (in_subtree_below s c x)).
  destruct (existsb _ _) eqn:E.
  - apply existsb_exists in E as (c & Hc%list_elem_of_In & [Hs Hu]%andb_true_iff).
    split_and!; [|done|done]. split; [done|]. intros H. rewrite (H c Hc) in Hu; [done|by apply Hsub].
  - split_and!; [|done|].
    + split; [intros _ c Hc Hb|done]. apply Hsub in Hb; [|done].
      destruct (Z.eqb_spec (mem_used_bytes c) 0) as [|Hne]; [done|]. exfalso.
      apply not_true_iff_false in E. apply E, existsb_exists. exists c.
      split; [by apply list_elem_of_In|]. rewrite Hb. by destruct (Z.eqb_spec (mem_used_bytes c) 0).
    + intros _ c Hc. cbn. destruct (Hsub c Hc) as [H1 H2]. split; intros Hb;
        apply list_elem_of_fmap; exists c; (split; [|done]).
      * by rewrite H2.
      * destruct (in_subtree s c p); [|done]. exfalso. by apply Hb, H1.
Qed.

Lemma lease_revoke_subtree_witness :
  (anx_lease_revoke leased_twice (Some 100)).1 = ANX_OK.
Proof.
  assert (∃ x, registered leased_twice 100 = Some x) as [x Hx] by (eexists; vm_compute; reflexivity).
  pose proof (lease_revoke_subtree leased_twice 100 x leased_twice_reachable Hx) as H.
  destruct (anx_lease_revoke leased_twice (Some 100)) as [r s']. apply H.
  intros c Hc _. apply list_elem_of_In in Hc. vm_compute in Hc.
  destruct Hc as [<-|[<-|[]]]; reflexivity.
Defined.
