(* ===== verification/Identity.v ===== *)
(** * Identities: [kernel/core/identity.c], [identity.h]

    An identity is a chain of signed commitments: generation 1 is installed by
    trusted code, every later one must name its predecessor's digest and carry
    a signature by the operator key the chain began with.  Each commitment is
    stored as a sealed state object.  The list [identities] is the registry,
    newest first; the digest (SHA-256) and the signature check (Ed25519, 0 for a
    good signature) are parameters. *)

From stdpp Require Import strings.
From S2P Require Import Prelude Uuid Cell Sched CellStore EffectFence Meta Review StateObject Stage ObjectProofs.
#[local] Open Scope Z_scope.

Definition ANX_IDENTITY_WIRE_BYTES : Z := 108.
Definition ANX_IDENTITY_RECORD_BYTES : Z := ANX_IDENTITY_WIRE_BYTES + 64.
Definition ANX_IDENTITY_MAX : Z := 256.
Definition ANX_IDENTITY_SCHEMA : list Z := bytes_of "anx:identity/commitment"%string.

Definition ANX_CAP_AUTH_NETWORK : Z := Z.shiftl 1 0.
Definition ANX_CAP_AUTH_REMOTE_MODEL : Z := Z.shiftl 1 1.
Definition ANX_CAP_AUTH_DERIVE_CELL : Z := Z.shiftl 1 2.
Definition ANX_CAP_AUTH_SIDE_EFFECT : Z := Z.shiftl 1 3.
Definition ANX_CAP_AUTH_ALL : Z := Z.shiftl 1 4 - 1.

Record anx_identity_commitment := Commitment {
  c_schema : Z;
  c_identity_id : anx_uuid;
  c_generation : Z;
  c_authority : Z;
  c_operator_key : list Z;  (* 32 bytes *)
  c_previous_digest : list Z;  (* 32 bytes *)
}.

Record anx_identity_view := IdentityView {
  commitment : anx_identity_commitment;
  v_digest : list Z;
  record_oid : anx_uuid;
}.

Record identity_registry := Registry {
  identities : list anx_identity_view;
  identity_count : Z;
  writing : bool;
}.

#[export] Instance eta_registry : Settable identity_registry := λ r,
  Registry (identities r) (identity_count r) (writing r).

Definition identity_boot : identity_registry := Registry [] 0 false.

Definition begin_write (R : identity_registry) : Z * identity_registry :=
  if writing R then (ANX_EBUSY, R) else (ANX_OK, R <| writing := true |>).

Definition end_write (R : identity_registry) : identity_registry := R <| writing := false |>.

Definition named (id : anx_uuid) (v : anx_identity_view) : bool :=
  anx_uuid_compare (c_identity_id (commitment v)) id =? 0.

Definition find_entry (R : identity_registry) (id : anx_uuid) : option anx_identity_view :=
  List.find (named id) (identities R).

(** [entry->current = view] for the entry [find_entry] returns. *)
Fixpoint set_entry (id : anx_uuid) (v : anx_identity_view) (l : list anx_identity_view) : list anx_identity_view :=
  match l with
  | [] => []
  | x :: l => if named id x then v :: l else x :: set_entry id v l
  end.

(** The bytes of [value], least significant first. *)
Definition put_bytes (n : nat) (value : Z) : list Z :=
  map (λ i, Z.land (Z.shiftr value (8 * i)) 255) (seqZ 0 (Z.of_nat n)).

Definition put64 (value : Z) : list Z := put_bytes 8 value.

Definition encode (cp : option anx_identity_commitment) : Z * list Z :=
  match cp with
  | None => (ANX_EINVAL, [])
  | Some c =>
      when negb (c_schema c =? 1) || anx_uuid_is_nil (c_identity_id c) || (c_generation c =? 0)
           || negb (Z.land (c_authority c) (Z.lxor MAX32 ANX_CAP_AUTH_ALL) =? 0)
        ret (ANX_EINVAL, []) ;;
      (ANX_OK, (bytes_of "ANX-IDENTITY-v1"%string ++ [0])
               ++ put64 (hi (c_identity_id c)) ++ put64 (lo (c_identity_id c))
               ++ put64 (c_generation c) ++ put_bytes 4 (c_authority c)
               ++ c_operator_key c ++ c_previous_digest c)
  end.

Definition zero32 : list Z := replicate 32 0.

Definition differ (a b : list Z) : bool := negb (bool_decide (a = b)).

Definition hold_retention (r : anx_retention_policy) : anx_retention_policy :=
  RetentionPolicy (ttl_ns r) (min_versions r) (max_versions r) true (replicas r).

Section operations.
Context (sha256 : list Z → list Z).
Context (ed25519_verify : list Z → list Z → list Z → Z).
Context (uor_attach : anx_state_object → list bool → anx_meta_store * list bool).

Definition anx_identity_digest (cp : option anx_identity_commitment) (out : bool) : Z * list Z :=
  when negb out ret (ANX_EINVAL, []) ;;
  let '(r, bytes) := encode cp in
  when negb (r =? ANX_OK) ret (ANX_EINVAL, []) ;;
  (ANX_OK, sha256 bytes).

(** What the environment supplies to the creation of an object: the clock at its
    creation, its event and its sealing, the new id and the new address. *)
Record so_env := SoEnv { now_create : Z; now_event : Z; now_seal : Z; new_oid : anx_uuid; new_addr : Z }.

Definition record_params (payload : list Z) (parent : option anx_uuid) : anx_so_create_params :=
  CreateParams ANX_OBJ_STRUCTURED_DATA (Some ANX_IDENTITY_SCHEMA) (Some (bytes_of "1"%string))
    (Some payload) ANX_IDENTITY_RECORD_BYTES ((λ p, [p]) <$> parent)
    (match parent with Some _ => 1 | None => 0 end) ANX_UUID_NIL ANX_SENSITIVITY_PUBLIC.

Definition make_record (env : so_env) (c : anx_identity_commitment) (signature : list Z)
    (parent : option anx_uuid) (W : objstore) : Z * option anx_identity_view * objstore :=
  let '(r, wire) := encode (Some c) in
  when negb (r =? ANX_OK) ret (r, None, W) ;;
  match anx_so_create sha256 uor_attach (now_create env) (now_event env) (new_oid env) (new_addr env)
          (Some (record_params (wire ++ signature) parent)) true W with
  | (r, Some object, W) =>
      when negb (r =? ANX_OK) ret (r, None, W) ;;
      let oid := default ANX_UUID_NIL (so_oid <$> so_heap W !! object) in
      let '(r, W) := anx_so_seal uor_attach (now_seal env) oid W in
      if r =? ANX_OK then
        let W := so_update object (λ o, o <| so_retention ::= hold_retention |>) W in
        (r, Some (IdentityView c (sha256 wire) oid), anx_objstore_release object W)
      else (r, None, anx_objstore_release object (anx_so_delete oid true W).2)
  | (r, None, W) => (r, None, W)
  end.

(** [alloc]: whether the entry can be allocated. *)
Definition anx_identity_create (current : option anx_uuid) (alloc : bool) (env : so_env)
    (rootp : option anx_identity_commitment) (signaturep : option (list Z))
    (R : identity_registry) (W : objstore) : Z * identity_registry * objstore :=
  match signaturep, rootp with
  | Some signature, Some root =>
      let '(r, digest) := anx_identity_digest rootp true in
      when negb (r =? ANX_OK) || negb (c_generation root =? 1) || differ (c_previous_digest root) zero32
        ret (ANX_EINVAL, R, W) ;;
      when bool_decide (is_Some current) || negb (differ (c_operator_key root) zero32)
           || negb (ed25519_verify signature digest (c_operator_key root) =? 0)
        ret (ANX_EPERM, R, W) ;;
      let '(r, R) := begin_write R in
      when negb (r =? ANX_OK) ret (r, R, W) ;;
      when bool_decide (is_Some (find_entry R (c_identity_id root))) ret (ANX_EEXIST, end_write R, W) ;;
      when identity_count R =? ANX_IDENTITY_MAX ret (ANX_EFULL, end_write R, W) ;;
      when negb alloc ret (ANX_ENOMEM, end_write R, W) ;;
      match make_record env root signature None W with
      | (r, Some view, W) =>
          (r, end_write (R <| identities ::= λ l, view :: l |> <| identity_count ::= λ n, u32 (n + 1) |>), W)
      | (r, None, W) => (r, end_write R, W)
      end
  | _, _ => (ANX_EINVAL, R, W)
  end.

Definition anx_identity_transition (env : so_env) (nextp : option anx_identity_commitment)
    (signaturep : option (list Z)) (R : identity_registry) (W : objstore) : Z * identity_registry * objstore :=
  match signaturep, nextp with
  | Some signature, Some next =>
      let '(r, digest) := anx_identity_digest nextp true in
      when negb (r =? ANX_OK) ret (ANX_EINVAL, R, W) ;;
      let '(r, R) := begin_write R in
      when negb (r =? ANX_OK) ret (r, R, W) ;;
      match find_entry R (c_identity_id next) with
      | None => (ANX_ENOENT, end_write R, W)
      | Some entry =>
          when (c_generation (commitment entry) =? MAX64)
               || negb (c_generation next =? u64 (c_generation (commitment entry) + 1))
               || differ (c_previous_digest next) (v_digest entry)
            ret (ANX_EBUSY, end_write R, W) ;;
          when differ (c_operator_key next) (c_operator_key (commitment entry))
               || negb (ed25519_verify signature digest (c_operator_key (commitment entry)) =? 0)
            ret (ANX_EPERM, end_write R, W) ;;
          match make_record env next signature (Some (record_oid entry)) W with
          | (r, Some view, W) => (r, end_write (R <| identities ::= set_entry (c_identity_id next) view |>), W)
          | (r, None, W) => (r, end_write R, W)
          end
      end
  | _, _ => (ANX_EINVAL, R, W)
  end.
End operations.

(** The result and [*out]. *)
Definition anx_identity_get (R : identity_registry) (idp : option anx_uuid) (out : bool)
    : Z * option anx_identity_view :=
  match idp with
  | None => (ANX_EINVAL, None)
  | Some id =>
      when anx_uuid_is_nil id || negb out ret (ANX_EINVAL, None) ;;
      match find_entry R id with
      | Some entry => (ANX_OK, Some entry)
      | None => (ANX_ENOENT, None)
      end
  end.

Definition anx_identity_bind (current : option anx_uuid) (R : identity_registry) (st : cell_store)
    (cellp idp : option anx_uuid) : Z * cell_store :=
  when bool_decide (is_Some current) ret (ANX_EPERM, st) ;;
  match cellp, cellp ≫= (st !!.) with
  | Some p, Some cell =>
      let '(r, _) := anx_identity_get R idp true in
      when negb (r =? ANX_OK) ret (r, st) ;;
      match anx_cell_store_lookup st (cid cell) with
      | (None, st) => (ANX_ENOENT, st)
      | (Some registered, st) =>
          when negb (bool_decide (cid cell = p)) ret (ANX_EPERM, anx_cell_store_release st (cid cell)) ;;
          let busy := negb (bool_decide (status registered = ANX_CELL_CREATED)) || runtime_active registered in
          let st := if busy then st else alter (λ c, c <| identity_id := default ANX_UUID_NIL idp |>) p st in
          (if busy then ANX_EBUSY else r, anx_cell_store_release st (cid cell))
      end
  | _, _ => (ANX_EINVAL, st)
  end.

(** The authority bits a cell's execution policy needs. *)
Definition required_authority (p : anx_cell_policy) : Z :=
  let required := 0 in
  let required := if allow_network p then Z.lor required ANX_CAP_AUTH_NETWORK else required in
  let required := if allow_remote_models p then Z.lor required ANX_CAP_AUTH_REMOTE_MODEL else required in
  let required := if allow_recursive_cells p then Z.lor required ANX_CAP_AUTH_DERIVE_CELL else required in
  if allow_side_effects p then Z.lor required ANX_CAP_AUTH_SIDE_EFFECT else required.

(** The result and [*record_out]. *)
Definition anx_identity_admit (R : identity_registry) (cellp : option anx_cell) : Z * anx_uuid :=
  match cellp with
  | None => (ANX_EINVAL, ANX_UUID_NIL)
  | Some cell =>
      when anx_uuid_is_nil (identity_id cell) ret (ANX_OK, ANX_UUID_NIL) ;;
      match anx_identity_get R (Some (identity_id cell)) true with
      | (_, Some view) =>
          (if Z.land (required_authority (policy cell)) (Z.lxor MAX32 (c_authority (commitment view))) =? 0
           then ANX_OK else ANX_EPERM, record_oid view)
      | (r, None) => (r, ANX_UUID_NIL)
      end
  end.

(** ** Signed chains of commitments *)

Section proofs.
Context (sha256 : list Z → list Z).
Context (ed25519_verify : list Z → list Z → list Z → Z).
Context (uor_attach : anx_state_object → list bool → anx_meta_store * list bool).
Implicit Types (R : identity_registry) (W : objstore) (v : anx_identity_view) (c : anx_identity_commitment).

Abbreviation anx_identity_create := (anx_identity_create sha256 ed25519_verify uor_attach).
Abbreviation anx_identity_transition := (anx_identity_transition sha256 ed25519_verify uor_attach).
Abbreviation make_record := (make_record sha256 uor_attach).

(** A view whose digest is that of its commitment, signed with the key [key]. *)
Definition signed_by (key : list Z) v : Prop :=
  ∃ wire signature, encode (Some (commitment v)) = (ANX_OK, wire) ∧ v_digest v = sha256 wire ∧
    ed25519_verify signature (v_digest v) key = 0.

Record root_view v : Prop := {
  rv_generation : c_generation (commitment v) = 1;
  rv_previous : c_previous_digest (commitment v) = zero32;
  rv_key : c_operator_key (commitment v) ≠ zero32;
  rv_signed : signed_by (c_operator_key (commitment v)) v;
}.

Record extends v v' : Prop := {
  ex_id : c_identity_id (commitment v') = c_identity_id (commitment v);
  ex_key : c_operator_key (commitment v') = c_operator_key (commitment v);
  ex_generation : c_generation (commitment v') = c_generation (commitment v) + 1;
  ex_previous : c_previous_digest (commitment v') = v_digest v;
  ex_signed : signed_by (c_operator_key (commitment v)) v';
}.

(** A view at the end of a chain that begins at a root. *)
Definition certified v : Prop := ∃ r, root_view r ∧ rtc extends r v.

Lemma extends_keeps v v' : rtc extends v v' →
  c_identity_id (commitment v') = c_identity_id (commitment v) ∧
  c_operator_key (commitment v') = c_operator_key (commitment v) ∧
  (v' = v ∨ c_generation (commitment v) < c_generation (commitment v')).
Proof.
  induction 1 as [v|v1 v2 v3 [] _ (H1 & H2 & H3)]; [auto|]. split; [congruence|]. split; [congruence|].
  right. destruct H3 as [->|]; lia.
Qed.

Lemma certified_positive v : certified v → 1 ≤ c_generation (commitment v).
Proof. intros (r & [Hg _ _ _] & Hr). destruct (extends_keeps _ _ Hr) as (_ & _ & [->|]); lia. Qed.

(** ** What the registry does *)

Lemma named_true id v : named id v = true ↔ c_identity_id (commitment v) = id.
Proof. unfold named. rewrite Z.eqb_eq. apply anx_uuid_compare_eq. Qed.

Lemma find_entry_Some R id v : find_entry R id = Some v → v ∈ identities R ∧ c_identity_id (commitment v) = id.
Proof. intros [H1 H2%named_true]%find_some. split; [by apply list_elem_of_In|done]. Qed.

Lemma find_entry_None R id : find_entry R id = None → id ∉ (c_identity_id ∘ commitment <$> identities R).
Proof.
  unfold find_entry. intros HN (v & -> & Hv)%list_elem_of_fmap. apply list_elem_of_In in Hv.
  pose proof (find_none _ _ HN v Hv) as Hf. apply not_true_iff_false in Hf. apply Hf. by apply named_true.
Qed.

Lemma make_record_view env c signature parent W r v W' : make_record env c signature parent W = (r, Some v, W') →
  r = ANX_OK ∧ commitment v = c ∧ ∃ wire, encode (Some c) = (ANX_OK, wire) ∧ v_digest v = sha256 wire.
Proof.
  unfold Identity.make_record. destruct (encode (Some c)) as [r0 wire]. destruct (r0 =? ANX_OK) eqn:E0; [|done]. cbn [negb].
  apply Z.eqb_eq in E0 as ->. destruct (anx_so_create _ _ _ _ _ _ _ _ _) as [[r1 [a|]] W1]; [|done].
  destruct (negb (r1 =? ANX_OK)); [done|]. destruct (anx_so_seal _ _ _ _) as [r2 W2]. destruct (r2 =? ANX_OK) eqn:E2; [|done].
  apply Z.eqb_eq in E2 as ->. intros [= <- <- _]. cbn. eauto.
Qed.

Lemma make_record_failed env c signature parent W r W' : make_record env c signature parent W = (r, None, W') → r ≠ ANX_OK.
Proof.
  unfold Identity.make_record. destruct (encode (Some c)) as [r0 wire]. destruct (r0 =? ANX_OK) eqn:E0; cbn [negb]; [|intros [= <- _]; lia].
  pose proof (so_create_cases sha256 uor_attach (now_create env) (now_event env) (new_oid env) (new_addr env)
    (Some (record_params (wire ++ signature) parent)) true W) as HC.
  destruct (anx_so_create _ _ _ _ _ _ _ _ _) as [[r1 [a|]] W1].
  - destruct (r1 =? ANX_OK) eqn:E1; cbn [negb]; [|intros [= <- _]; lia].
    destruct (anx_so_seal _ _ _ _) as [r2 W2]. destruct (r2 =? ANX_OK) eqn:E2; [done|]. intros [= <- _]. lia.
  - destruct HC as [(HC & _)|(p & W0 & sm & um & _ & _ & _ & HC)]; cbn in HC; [intros [= <- _]; done|].
    by destruct (label_for p W0) as [[??]?].
Qed.

(** What one call does to the entries: nothing, a new signed root, or the next
    signed generation of one of them. *)
Inductive rchange (l : list anx_identity_view) : list anx_identity_view → Prop :=
  | RSame : rchange l l
  | RRoot v : root_view v → c_identity_id (commitment v) ∉ (c_identity_id ∘ commitment <$> l) → rchange l (v :: l)
  | RNext l1 v v' l2 : l = l1 ++ v :: l2 → extends v v' → c_generation (commitment v') ≤ MAX64 → rchange l (l1 ++ v' :: l2).

Lemma set_entry_split id v' l v : List.find (named id) l = Some v → ∃ l1 l2, l = l1 ++ v :: l2 ∧ set_entry id v' l = l1 ++ v' :: l2.
Proof.
  induction l as [|x l IH]; cbn; [done|]. destruct (named id x) eqn:E.
  - intros [= <-]. by exists [], l.
  - intros (l1 & l2 & -> & H2)%IH. exists (x :: l1), l2. split; [done|]. by rewrite H2.
Qed.

Definition counted (R : identity_registry) : Prop :=
  identity_count R = Z.of_nat (length (identities R)) ∧ identity_count R ≤ ANX_IDENTITY_MAX.

(** What a call that writes does to the registry, with the code it returns. *)
Record rstep (R : identity_registry) (r : Z) (R' : identity_registry) : Prop := {
  rs_change : rchange (identities R) (identities R');
  rs_failed : r ≠ ANX_OK → R' = R;
  rs_counted : counted R → counted R';
}.

Lemma rstep_refl R r R' : R' = R → rstep R r R'.
Proof. intros ->. split; [constructor|done|done]. Qed.

Lemma begin_end R : writing R = false → end_write (R <| writing := true |>) = R.
Proof. destruct R as [l n w]. cbn. intros ->. done. Qed.

Lemma create_rstep current alloc env rootp sigp R W r R' W' :
  anx_identity_create current alloc env rootp sigp R W = (r, R', W') → rstep R r R' ∧ (is_Some current → R' = R).
Proof.
  unfold Identity.anx_identity_create. destruct sigp as [signature|], rootp as [root|]; try (intros [= <- <- _]; split; [by apply rstep_refl|done]).
  unfold anx_identity_digest. cbn [negb]. destruct (encode (Some root)) as [r0 wire] eqn:Ew.
  assert (∀ r1 W1, (r1, R, W1) = (r, R', W') → rstep R r R' ∧ (is_Some current → R' = R)) as Hsame
    by (intros r1 W1 [= <- <- _]; split; [by apply rstep_refl|done]).
  destruct (r0 =? ANX_OK) eqn:E0; cbn [negb]; [|apply Hsame]. apply Z.eqb_eq in E0 as ->. cbn [negb orb Z.eqb ANX_OK].
  change (0 =? 0) with true. cbn [negb orb].
  destruct (negb (c_generation root =? 1) || differ (c_previous_digest root) zero32) eqn:E1; [apply Hsame|].
  destruct (bool_decide (is_Some current) || _ || _) eqn:E2; [apply Hsame|].
  unfold begin_write. destruct (writing R) eqn:Hw; [apply Hsame|]. cbn [negb]. change (ANX_OK =? ANX_OK) with true. cbn [negb].
  change (find_entry (R <| writing := true |>) (c_identity_id root)) with (find_entry R (c_identity_id root)).
  destruct (find_entry R (c_identity_id root)) as [x|] eqn:Ef; [rewrite bool_decide_true by eauto; rewrite begin_end by done; apply Hsame|].
  rewrite bool_decide_false by (by intros []).
  change (identity_count (R <| writing := true |>)) with (identity_count R).
  destruct (identity_count R =? ANX_IDENTITY_MAX) eqn:Ec; [rewrite begin_end by done; apply Hsame|].
  destruct alloc; cbn [negb]; [|rewrite begin_end by done; apply Hsame].
  destruct (make_record env root signature None W) as [[r1 [v|]] W1] eqn:Em; [|rewrite begin_end by done; apply Hsame].
  apply make_record_view in Em as (-> & Hv & wire' & Hw' & Hd). rewrite Ew in Hw'. injection Hw' as <-.
  unfold differ in *. apply orb_false_iff in E1 as [Hg Hp]. apply orb_false_iff in E2 as [[Hcur Hk]%orb_false_iff Hs]. to_prop.
  intros [= <- <- _]. split; [|done]. split; cbn; [|done|].
  - apply RRoot; rewrite ?Hv; [|by apply find_entry_None]. split; rewrite ?Hv; [done..|].
    exists wire, signature. rewrite Hv, Hd. done.
  - intros [H1 H2]. unfold counted, ANX_IDENTITY_MAX in *. cbn. rewrite u32_small by (unfold is_u32; lia). lia.
Qed.

Lemma transition_rstep env nextp sigp R W r R' W' :
  counted R → (∀ v, v ∈ identities R → 0 ≤ c_generation (commitment v) ≤ MAX64) →
  anx_identity_transition env nextp sigp R W = (r, R', W') → rstep R r R'.
Proof.
  intros Hc Hgen. unfold Identity.anx_identity_transition.
  destruct sigp as [signature|], nextp as [next|]; try (intros [= <- <- _]; by apply rstep_refl).
  unfold anx_identity_digest. cbn [negb]. destruct (encode (Some next)) as [r0 wire] eqn:Ew.
  assert (∀ r1 W1, (r1, R, W1) = (r, R', W') → rstep R r R') as Hsame by (intros r1 W1 [= <- <- _]; by apply rstep_refl).
  destruct (r0 =? ANX_OK) eqn:E0; cbn [negb]; [|apply Hsame]. apply Z.eqb_eq in E0 as ->.
  change (ANX_OK =? ANX_OK) with true. cbn [negb].
  unfold begin_write. destruct (writing R) eqn:Hw; [apply Hsame|]. change (negb (ANX_OK =? ANX_OK)) with false. cbn iota.
  change (find_entry (R <| writing := true |>) (c_identity_id next)) with (find_entry R (c_identity_id next)).
  destruct (find_entry R (c_identity_id next)) as [v|] eqn:Ef; [|rewrite begin_end by done; apply Hsame].
  destruct (_ || _ || _) eqn:E1; [rewrite begin_end by done; apply Hsame|].
  destruct (differ (c_operator_key next) _ || _) eqn:E2; [rewrite begin_end by done; apply Hsame|].
  destruct (make_record env next signature _ W) as [[r1 [v'|]] W1] eqn:Em; [|rewrite begin_end by done; apply Hsame].
  apply make_record_view in Em as (-> & Hv & wire' & Hw' & Hd). rewrite Ew in Hw'. injection Hw' as <-.
  unfold differ in *. apply orb_false_iff in E1 as [[Hmax Hnext]%orb_false_iff Hprev]. apply orb_false_iff in E2 as [Hk Hs].
  to_prop. intros [= <- <- _]. destruct (find_entry_Some _ _ _ Ef) as [Hin Hid]. specialize (Hgen v Hin). unfold MAX64 in *.
  rewrite u64_small in Hnext by (unfold is_u64; lia).
  destruct (set_entry_split _ v' _ _ Ef) as (l1 & l2 & E1 & E2).
  split; cbn; [|done|].
  - rewrite E2. eapply RNext; [exact E1| |rewrite Hv; unfold MAX64; lia]. split; rewrite ?Hv; [done..|].
    exists wire, signature. rewrite Hv, Hd. done.
  - intros _. unfold counted in *. cbn. rewrite E2. rewrite E1 in Hc. rewrite length_app in *. exact Hc.
Qed.

(** ** Runs *)

(** One call of the interface, by any caller and with any arguments; a writer
    elsewhere that takes or gives back the reservation; or anything else that
    happens to the objects. *)
Inductive istep : identity_registry * objstore → identity_registry * objstore → Prop :=
  | ICreate current alloc env rootp sigp R W r R' W' :
      anx_identity_create current alloc env rootp sigp R W = (r, R', W') → istep (R, W) (R', W')
  | ITransition env nextp sigp R W r R' W' :
      anx_identity_transition env nextp sigp R W = (r, R', W') → istep (R, W) (R', W')
  | IBegin R W : istep (R, W) ((begin_write R).2, W)
  | IEnd R W : istep (R, W) (end_write R, W)
  | IObjects R W W' : istep (R, W) (R, W').

Record registry_inv R : Prop := {
  ri_names : NoDup (c_identity_id ∘ commitment <$> identities R);
  ri_counted : counted R;
  ri_certified : ∀ v, v ∈ identities R → certified v ∧ c_generation (commitment v) ≤ MAX64;
}.

Lemma rchange_later l l' v : rchange l l' → v ∈ l → ∃ v', v' ∈ l' ∧ rtc extends v v'.
Proof.
  intros [|x Hx Hn|l1 x x' l2 -> He _] Hv; [by exists v|exists v; split; [by right|done]|].
  rewrite elem_of_app, elem_of_cons in Hv. destruct Hv as [Hv|[->|Hv]].
  - exists v. split; [apply elem_of_app; by left|done].
  - exists x'. split; [apply elem_of_app; right; by left|by apply rtc_once].
  - exists v. split; [apply elem_of_app; right; by right|done].
Qed.

Lemma rchange_inv l l' : rchange l l' → NoDup (c_identity_id ∘ commitment <$> l) →
  (∀ v, v ∈ l → certified v ∧ c_generation (commitment v) ≤ MAX64) →
  NoDup (c_identity_id ∘ commitment <$> l') ∧ (∀ v, v ∈ l' → certified v ∧ c_generation (commitment v) ≤ MAX64).
Proof.
  intros [|x Hx Hn|l1 x x' l2 -> He Hm] Hnd Hall; [done|split|split].
  - cbn. by constructor.
  - intros v [->|Hv]%elem_of_cons; [|by apply Hall]. split; [by exists x|]. rewrite (rv_generation _ Hx). done.
  - revert Hnd. rewrite !fmap_app, !fmap_cons. cbn. by rewrite (ex_id _ _ He).
  - intros v. rewrite elem_of_app, elem_of_cons. intros [Hv|[->|Hv]]; [apply Hall; set_solver| |apply Hall; set_solver].
    split; [|done]. destruct (Hall x) as [(r & Hr & Hc) _]; [set_solver|]. exists r. split; [done|]. eapply rtc_r; eauto.
Qed.

Lemma istep_rstep R W R' W' : registry_inv R → istep (R, W) (R', W') → rchange (identities R) (identities R') ∧ counted R'.
Proof.
  intros [Hn Hc Hall] Hs. inversion Hs as [? ? ? ? ? ? ? ? ? ? HE|? ? ? ? ? ? ? ? HE| | |]; subst.
  - apply create_rstep in HE as [[H1 H2 H3] _]. split; [exact H1|exact (H3 Hc)].
  - apply transition_rstep in HE as [H1 H2 H3]; [split; [exact H1|exact (H3 Hc)]|exact Hc|]. intros v Hv. destruct (Hall v Hv) as [Hc' ?].
    apply certified_positive in Hc'. lia.
  - unfold begin_write. destruct (writing R); (split; [constructor|exact Hc]).
  - split; [constructor|exact Hc].
  - split; [constructor|exact Hc].
Qed.

Lemma istep_inv R W R' W' : registry_inv R → istep (R, W) (R', W') → registry_inv R'.
Proof.
  intros Hi Hs. destruct (istep_rstep _ _ _ _ Hi Hs) as [Hc Hn]. destruct Hi as [H1 _ H3].
  destruct (rchange_inv _ _ Hc H1 H3). by split.
Qed.

Lemma isteps_inv x y : rtc istep x y → registry_inv x.1 → registry_inv y.1.
Proof. induction 1 as [|[R W] [R1 W1] z Hs _ IH]; [done|]. intros Hi. apply IH. by eapply istep_inv. Qed.

Lemma isteps_later x y v : rtc istep x y → registry_inv x.1 → v ∈ identities x.1 → ∃ v', v' ∈ identities y.1 ∧ rtc extends v v'.
Proof.
  intros Hr. revert v. induction Hr as [|[R W] [R1 W1] z Hs _ IH]; intros v Hi Hv; [by exists v|].
  destruct (istep_rstep _ _ _ _ Hi Hs) as [Hc _]. destruct (rchange_later _ _ _ Hc Hv) as (v1 & Hv1 & E1).
  destruct (IH v1 (istep_inv _ _ _ _ Hi Hs) Hv1) as (v2 & Hv2 & E2). exists v2. split; [done|]. by etrans.
Qed.

Lemma registry_inv_boot : registry_inv identity_boot.
Proof. split; [constructor|done|]. intros v Hv. by apply not_elem_of_nil in Hv. Qed.

(** C17: Every identity is a chain of signed commitments that only grows.
    Whatever calls are made, in any order, by cells or by trusted code, each
    registered identity has one current commitment, reached from a generation-1
    root through successors each of which names the digest of the one before,
    keeps the id and the operator key and is signed with that key; at any later
    time the identity is still there, and its commitment is the same one or a
    later generation of the same chain. *)
Theorem identity_lineage W0 R W R' W' v :
  rtc istep (identity_boot, W0) (R, W) → v ∈ identities R → rtc istep (R, W) (R', W') →
  NoDup (c_identity_id ∘ commitment <$> identities R) ∧ Z.of_nat (length (identities R)) ≤ ANX_IDENTITY_MAX ∧ certified v ∧
  ∃ v', v' ∈ identities R' ∧ rtc extends v v' ∧
    c_identity_id (commitment v') = c_identity_id (commitment v) ∧
    c_operator_key (commitment v') = c_operator_key (commitment v) ∧
    (v' = v ∨ c_generation (commitment v) < c_generation (commitment v')).
Proof.
  intros H0 Hv Hr. pose proof (isteps_inv _ _ H0 registry_inv_boot) as Hi. cbn in Hi.
  destruct (isteps_later _ _ v Hr Hi Hv) as (v' & Hv' & He). destruct Hi as [H1 [H2 H3] H4].
  split; [done|]. split; [lia|]. split; [by apply H4|]. exists v'. split; [done|]. split; [done|]. by apply extends_keeps.
Qed.

(** ** The record of a commitment *)

(** What bookkeeping leaves alone. *)
Definition holds (P : anx_state_object → Prop) (a : Z) W : Prop := ∃ o, so_heap W !! a = Some o ∧ P o.

Definition lasting (P : anx_state_object → Prop) : Prop := ∀ o n m l, P o → P (bookkept o n m l).

Lemma holds_update (P Q : anx_state_object → Prop) a f W : (∀ o, P o → Q (f o)) → holds P a W → holds Q a (so_update a f W).
Proof. intros Hf (o & Ho & HP). exists (f o). split; [cbn; by rewrite lookup_alter_eq, Ho|by apply Hf]. Qed.

Lemma holds_mem P a W mem : holds P a W → holds P a (W <| so_mem := mem |>).
Proof. done. Qed.

Lemma holds_release P a W : lasting P → holds P a W → holds P a (anx_objstore_release a W).
Proof.
  intros HL. apply holds_update. intros o HP. destruct (_ >? _); [|done].
  exact (HL o (so_refcount o - 1) (so_system_meta o) (so_provenance o) HP).
Qed.

Lemma holds_meta P a W m : lasting P → holds P a W → holds P a (so_update a (λ o, o <| so_system_meta := m |>) W).
Proof. intros HL. apply holds_update. intros o HP. exact (HL o (so_refcount o) m (so_provenance o) HP). Qed.

Lemma holds_log P a e W : lasting P → holds P a W → holds P a (so_log a e W).
Proof.
  intros HL (o & Ho & HP). destruct (so_log_spec W a e o Ho) as (l & HE & _ & _). eexists. rewrite HE, lookup_insert_eq.
  split; [done|]. exact (HL o (so_refcount o) (so_system_meta o) l HP).
Qed.

Lemma holds_uor P a W : lasting P → holds P a W → holds P a (uor_project uor_attach a W).
Proof.
  intros HL (o & Ho & HP). destruct (uor_project_spec uor_attach W a o Ho) as (m & HE & _). eexists. rewrite HE, lookup_insert_eq.
  split; [done|]. exact (HL o (so_refcount o) m (so_provenance o) HP).
Qed.

(** Sealing an active object that nobody has staged. *)
Lemma seal_active now oid a o W (P Q : anx_state_object → Prop) :
  find_oid W oid = Some a → so_heap W !! a = Some o → so_state o = ANX_OBJ_ACTIVE → so_staged o = None →
  lasting P → lasting Q → P o → (∀ x, P x → Q (x <| so_state := ANX_OBJ_SEALED |>)) →
  (anx_so_seal uor_attach now oid W).1 = ANX_OK ∧ holds Q a (anx_so_seal uor_attach now oid W).2.
Proof.
  intros Hf Ho Hst Hsg HL HQ HP Hup. unfold anx_so_seal, anx_objstore_lookup. rewrite Hf.
  set (W1 := so_update a _ W). assert (so_heap W1 !! a = Some (o <| so_refcount ::= λ n, u32 (n + 1) |>)) as Ho1
    by (unfold W1; cbn; by rewrite lookup_alter_eq, Ho).
  rewrite Ho1. cbn [so_staged]. change (so_staged (o <| so_refcount ::= λ n, u32 (n + 1) |>)) with (so_staged o). rewrite Hsg.
  rewrite bool_decide_false by (by intros []).
  change (so_state (o <| so_refcount ::= λ n, u32 (n + 1) |>)) with (so_state o). rewrite Hst.
  change (anx_lifecycle_transition ANX_OBJ_ACTIVE ANX_OBJ_SEALED) with (ANX_OK, ANX_OBJ_SEALED). cbv beta iota.
  change (ANX_OK =? ANX_OK) with true. cbv iota zeta.
  destruct (anx_meta_set_bool _ _ _ _) as [[r m] mem]. cbv beta iota. split; [done|].
  apply holds_release, holds_log, holds_uor, holds_mem, holds_meta; try done.
  apply (holds_update P); [exact Hup|]. exists (o <| so_refcount ::= λ n, u32 (n + 1) |>). split; [done|].
  exact (HL o (u32 (so_refcount o + 1)) (so_system_meta o) (so_provenance o) HP).
Qed.

(** The object that keeps a commitment. *)
Record commitment_record (oid : anx_uuid) (payload : list Z) (parents : list anx_uuid) (hold : bool) (state : Z)
    (o : anx_state_object) : Prop := {
  cr_oid : so_oid o = oid;
  cr_payload : so_payload o = Some payload ∧ so_payload_size o = ANX_IDENTITY_RECORD_BYTES;
  cr_hash : so_content_hash o = sha256 payload;
  cr_parents : so_parent_oids o = parents;
  cr_hold : deletion_hold (so_retention o) = hold;
  cr_state : so_state o = state;
  cr_staged : so_staged o = None;
}.

Lemma record_lasting oid payload parents hold state : lasting (commitment_record oid payload parents hold state).
Proof. intros o n m l []. by split. Qed.

Lemma make_record_object env c signature parent W v W' wire :
  make_record env c signature parent W = (ANX_OK, Some v, W') →
  encode (Some c) = (ANX_OK, wire) → length (wire ++ signature) = Z.to_nat ANX_IDENTITY_RECORD_BYTES →
  record_oid v = new_oid env ∧
  holds (commitment_record (new_oid env) (wire ++ signature) (option_list parent) true ANX_OBJ_SEALED) (new_addr env) W'.
Proof.
  intros Hm He Hlen. unfold Identity.make_record in Hm. rewrite He in Hm. change (negb (ANX_OK =? ANX_OK)) with false in Hm. cbv iota in Hm.
  set (p := record_params (wire ++ signature) parent) in *.
  assert (has_payload p = true) as Hhp by done.
  assert (parents_of p = option_list parent) as Hpar by (by destruct parent).
  destruct (so_create_cases sha256 uor_attach (now_create env) (now_event env) (new_oid env) (new_addr env) (Some p) true W)
    as [(HN & HN' & _)|(p' & W0 & sm & um & Hp & _ & _ & HC)].
  { destruct (anx_so_create _ _ _ _ _ _ _ _ _) as [[r1 [a|]] W1]; cbn in HN, HN'; [discriminate HN'|]. by injection Hm as -> _. }
  injection Hp as <-. destruct (label_for p W0) as [[sens origin] W1]. cbv zeta in HC. rewrite HC in Hm. clear HC.
  change (negb (ANX_OK =? ANX_OK)) with false in Hm. cbv iota in Hm.
  set (o := new_object sha256 p (new_oid env) sens origin sm um (ProvLog [] PROV_INITIAL_CAP)) in *.
  destruct (install_spec uor_attach (now_event env) (new_addr env) o W1 eq_refl) as (m & l & HI & HT & _).
  set (W2 := install _ _ _ _ _) in *. set (o2 := o <| so_state := _ |> <| so_system_meta := m |> <| so_provenance := l |>) in *.
  assert (so_heap W2 !! new_addr env = Some o2) as Ho2 by (rewrite HI; apply lookup_insert_eq).
  assert (take (Z.to_nat ANX_IDENTITY_RECORD_BYTES) (wire ++ signature) = wire ++ signature) as Htake
    by (apply take_ge; rewrite Hlen; lia).
  assert (commitment_record (new_oid env) (wire ++ signature) (option_list parent) false ANX_OBJ_ACTIVE o2) as Hrec.
  { split; [done| | |exact Hpar|done|done|done].
    - split; [|done]. exact (f_equal Some Htake).
    - change (so_content_hash o2) with (sha256 (take (Z.to_nat (u32 ANX_IDENTITY_RECORD_BYTES))
        (take (Z.to_nat ANX_IDENTITY_RECORD_BYTES) (wire ++ signature)))).
      rewrite Htake. change (u32 ANX_IDENTITY_RECORD_BYTES) with ANX_IDENTITY_RECORD_BYTES. by rewrite Htake. }
  rewrite Ho2 in Hm. cbn [fmap option_fmap option_map default] in Hm. change (so_oid o2) with (new_oid env) in Hm.
  assert (find_oid W2 (new_oid env) = Some (new_addr env)) as Hf.
  { unfold find_oid. rewrite HT. cbn [List.find]. unfold has_oid. rewrite Ho2.
    rewrite (proj2 (anx_uuid_compare_eq (so_oid o2) (new_oid env)) eq_refl). done. }
  destruct (seal_active (now_seal env) (new_oid env) (new_addr env) o2 W2
    (commitment_record (new_oid env) (wire ++ signature) (option_list parent) false ANX_OBJ_ACTIVE)
    (commitment_record (new_oid env) (wire ++ signature) (option_list parent) false ANX_OBJ_SEALED)
    Hf Ho2 eq_refl eq_refl (record_lasting _ _ _ _ _) (record_lasting _ _ _ _ _) Hrec) as [Hok Hh].
  { intros x []. by split. }
  destruct (anx_so_seal _ _ _ _) as [r2 W3]. cbn in Hok, Hh. subst r2. change (ANX_OK =? ANX_OK) with true in Hm. cbv iota zeta in Hm.
  injection Hm as <- <-. split; [done|]. apply holds_release; [apply record_lasting|].
  eapply holds_update; [|exact Hh]. intros x []. by split.
Qed.
End proofs.

(** ** Wire format *)

Lemma put_bytes_length n x : length (put_bytes n x) = n.
Proof. unfold put_bytes. rewrite length_map, length_seqZ. lia. Qed.

Lemma put_bytes_bit n x k b : put_bytes n x !! (k / 8)%nat = Some b → Z.testbit b (Z.of_nat (k mod 8)) = Z.testbit x (Z.of_nat k).
Proof.
  unfold put_bytes. rewrite list_lookup_fmap, fmap_Some. intros (i & Hi & ->). apply lookup_seqZ in Hi as [-> Hi].
  rewrite Z.land_spec, Z.shiftr_spec by lia. pose proof (Nat.div_mod k 8 ltac:(lia)). pose proof (Nat.mod_upper_bound k 8 ltac:(lia)).
  change 255 with (Z.ones 8). rewrite Z.ones_spec_low by lia. rewrite andb_true_r. f_equal. lia.
Qed.

Lemma high_bit n z k : 0 ≤ z < 2 ^ n → 0 ≤ n ≤ k → Z.testbit z k = false.
Proof.
  intros Hz Hk. destruct (decide (z = 0)) as [->|]; [apply Z.bits_0|]. apply Z.bits_above_log2; [lia|].
  apply Z.log2_lt_pow2; [lia|]. eapply Z.lt_le_trans; [apply Hz|]. apply Z.pow_le_mono_r; lia.
Qed.

Lemma put_bytes_inj n x y : 0 ≤ x < 2 ^ (8 * Z.of_nat n) → 0 ≤ y < 2 ^ (8 * Z.of_nat n) → put_bytes n x = put_bytes n y → x = y.
Proof.
  intros Hx Hy He. apply Z.bits_inj'. intros k Hk. destruct (decide (k < 8 * Z.of_nat n)) as [Hlt|].
  - destruct (lookup_lt_is_Some_2 (put_bytes n x) (Z.to_nat k / 8)) as [b Hb].
    { rewrite put_bytes_length. apply Nat.Div0.div_lt_upper_bound. lia. }
    pose proof (put_bytes_bit n x (Z.to_nat k) b Hb) as H1. rewrite He in Hb. pose proof (put_bytes_bit n y (Z.to_nat k) b Hb) as H2.
    rewrite Z2Nat.id in H1, H2 by lia. congruence.
  - by rewrite !(high_bit (8 * Z.of_nat n)) by (done || lia).
Qed.

(** The ranges of the fields. *)
Record commitment_typed (c : anx_identity_commitment) : Prop := {
  ct_id : is_u64 (hi (c_identity_id c)) ∧ is_u64 (lo (c_identity_id c));
  ct_generation : is_u64 (c_generation c);
  ct_authority : is_u32 (c_authority c);
  ct_key : length (c_operator_key c) = 32%nat;
  ct_previous : length (c_previous_digest c) = 32%nat;
}.

Lemma encode_wire c wire : encode (Some c) = (ANX_OK, wire) →
  c_schema c = 1 ∧ wire = (bytes_of "ANX-IDENTITY-v1"%string ++ [0]) ++ put64 (hi (c_identity_id c)) ++ put64 (lo (c_identity_id c))
     ++ put64 (c_generation c) ++ put_bytes 4 (c_authority c) ++ c_operator_key c ++ c_previous_digest c.
Proof. unfold encode. destruct (_ || _) eqn:E; [done|]. intros [= <-]. to_prop. done. Qed.

(** The wire format is fixed-width and loses nothing: a commitment that encodes
    takes 108 bytes, and two commitments with the same bytes are the same, so a
    signature over the digest covers every field. *)
Theorem wire_injective c c' wire : commitment_typed c → commitment_typed c' →
  encode (Some c) = (ANX_OK, wire) → encode (Some c') = (ANX_OK, wire) → c = c' ∧ Z.of_nat (length wire) = ANX_IDENTITY_WIRE_BYTES.
Proof.
  intros [[] ? ? ? ?] [[] ? ? ? ?] [Hs ->]%encode_wire [Hs' He]%encode_wire. unfold put64 in *. split.
  - apply app_inj_1 in He as [_ He]; [|done]. repeat (apply app_inj_1 in He as [? He]; [|rewrite ?put_bytes_length; congruence]).
    assert (∀ x, is_u64 x → 0 ≤ x < 2 ^ (8 * Z.of_nat 8)) as H64 by done. assert (∀ x, is_u32 x → 0 ≤ x < 2 ^ (8 * Z.of_nat 4)) as H32 by done.
    repeat match goal with H : put_bytes _ _ = put_bytes _ _ |- _ => apply put_bytes_inj in H; [|by auto..] end.
    destruct c as [? [] ? ? ? ?], c' as [? [] ? ? ? ?]. cbn in *. congruence.
  - rewrite !length_app, !put_bytes_length, ct_key0, ct_previous0. done.
Qed.

(** A successful update is on record: the new commitment with its signature is
    a sealed object under deletion hold whose only parent is the record of the
    generation before, and the identity's entry names it. *)
Theorem identity_update_recorded sha verify uor env next signature R W R' W' :
  commitment_typed next → length signature = 64%nat →
  anx_identity_transition sha verify uor env (Some next) (Some signature) R W = (ANX_OK, R', W') →
  ∃ old v wire, find_entry R (c_identity_id next) = Some old ∧ v ∈ identities R' ∧ commitment v = next ∧
    record_oid v = new_oid env ∧ encode (Some next) = (ANX_OK, wire) ∧
    holds (commitment_record sha (new_oid env) (wire ++ signature) [record_oid old] true ANX_OBJ_SEALED) (new_addr env) W'.
Proof.
  intros Ht Hs. unfold anx_identity_transition, anx_identity_digest. cbn [negb].
  destruct (encode (Some next)) as [r0 wire] eqn:Ew. destruct (r0 =? ANX_OK) eqn:E0; [|done]. apply Z.eqb_eq in E0 as ->.
  change (ANX_OK =? ANX_OK) with true. cbn [negb]. unfold begin_write. destruct (writing R); [done|].
  change (negb (ANX_OK =? ANX_OK)) with false. cbv iota beta.
  change (find_entry (R <| writing := true |>) (c_identity_id next)) with (find_entry R (c_identity_id next)).
  destruct (find_entry R (c_identity_id next)) as [old|] eqn:Ef; [|done]. destruct (_ || _ || _); [done|].
  destruct (differ (c_operator_key next) _ || _); [done|].
  destruct (make_record sha uor env next signature _ W) as [[r1 [v|]] W1] eqn:Em;
    [|intros [= -> _ _]; by apply make_record_failed in Em].
  intros [= -> <- <-]. destruct (make_record_view _ _ _ _ _ _ _ _ _ _ Em) as (_ & Hv & _).
  destruct (make_record_object _ _ _ _ _ _ _ _ _ wire Em Ew) as [Hoid Hh].
  { destruct Ht. apply encode_wire in Ew as [_ ->]. unfold put64. rewrite !length_app, !put_bytes_length, ct_key0, ct_previous0, Hs. done. }
  destruct (set_entry_split _ v _ _ Ef) as (l1 & l2 & _ & E2).
  exists old, v, wire. split; [done|]. split; [cbn; rewrite E2; apply elem_of_app; right; by left|]. done.
Qed.

(** ** Admission *)

Lemma required_bits p : required_authority p = (if allow_network p then 1 else 0) + (if allow_remote_models p then 2 else 0)
  + (if allow_recursive_cells p then 4 else 0) + (if allow_side_effects p then 8 else 0).
Proof. unfold required_authority. by destruct (allow_network p), (allow_remote_models p), (allow_recursive_cells p), (allow_side_effects p). Qed.

Lemma authority_bits a x : is_u32 a → is_u32 x →
  Z.land a (Z.lxor MAX32 x) = 0 ↔ ∀ k, 0 ≤ k < 32 → Z.testbit a k = true → Z.testbit x k = true.
Proof.
  intros Ha Hx. assert (∀ k, 0 ≤ k → Z.testbit MAX32 k = (k <? 32)) as Hm.
  { intros k Hk. change MAX32 with (Z.ones 32). destruct (k <? 32) eqn:E; to_prop; [by apply Z.ones_spec_low|by apply Z.ones_spec_high]. }
  split.
  - intros Hl k Hk Hak. apply (f_equal (λ z, Z.testbit z k)) in Hl. rewrite Z.land_spec, Z.lxor_spec, Z.bits_0, Hak, Hm in Hl by lia.
    destruct (Z.testbit x k); [done|]. rewrite (proj2 (Z.ltb_lt k 32)) in Hl by lia. done.
  - intros Hc. apply Z.bits_inj'. intros k Hk. rewrite Z.land_spec, Z.lxor_spec, Z.bits_0, Hm by done.
    destruct (k <? 32) eqn:E.
    + destruct (Z.testbit a k) eqn:Ek; [|done]. rewrite (Hc k) by (done || lia). done.
    + destruct (Z.testbit a k) eqn:Ek; [|done]. exfalso. apply Z.ltb_ge in E.
      rewrite (high_bit 32) in Ek by (done || lia). done.
Qed.

Lemma required_testbit p k : Z.testbit (required_authority p) k =
  ((k =? 0) && allow_network p) || ((k =? 1) && allow_remote_models p)
  || ((k =? 2) && allow_recursive_cells p) || ((k =? 3) && allow_side_effects p).
Proof.
  rewrite required_bits. destruct (decide (0 ≤ k < 4)) as [Hk|Hk].
  - assert (k = 0 ∨ k = 1 ∨ k = 2 ∨ k = 3) as [-> |[-> |[-> | ->]]] by lia;
      by destruct (allow_network p), (allow_remote_models p), (allow_recursive_cells p), (allow_side_effects p).
  - rewrite !(proj2 (Z.eqb_neq k _)) by lia. cbn. destruct (decide (k < 0)); [by apply Z.testbit_neg_r|].
    apply (high_bit 4); [|lia]. destruct (allow_network p), (allow_remote_models p), (allow_recursive_cells p), (allow_side_effects p); lia.
Qed.

(** The identity of a cell allows what the cell's policy allows itself. *)
Record authority_covers (v : anx_identity_view) (p : anx_cell_policy) : Prop := {
  ac_network : allow_network p = true → Z.testbit (c_authority (commitment v)) 0 = true;
  ac_models : allow_remote_models p = true → Z.testbit (c_authority (commitment v)) 1 = true;
  ac_recursive : allow_recursive_cells p = true → Z.testbit (c_authority (commitment v)) 2 = true;
  ac_effects : allow_side_effects p = true → Z.testbit (c_authority (commitment v)) 3 = true;
}.

(** Admission is exactly what the identity's current commitment grants.  A
    cell without an identity is admitted and no record is named; a cell whose
    identity is not registered is refused; otherwise the record of the current
    commitment is named, and the cell is admitted if and only if each of the four
    powers its policy claims (network, remote models, deriving cells, side
    effects) is in the commitment's authority. *)
Theorem identity_admit_exact R cell : (∀ v, v ∈ identities R → is_u32 (c_authority (commitment v))) →
  (identity_id cell = ANX_UUID_NIL → anx_identity_admit R (Some cell) = (ANX_OK, ANX_UUID_NIL)) ∧
  (identity_id cell ≠ ANX_UUID_NIL →
   match find_entry R (identity_id cell) with
   | None => anx_identity_admit R (Some cell) = (ANX_ENOENT, ANX_UUID_NIL)
   | Some v => c_identity_id (commitment v) = identity_id cell ∧
       ((anx_identity_admit R (Some cell) = (ANX_OK, record_oid v) ∧ authority_covers v (policy cell)) ∨
        (anx_identity_admit R (Some cell) = (ANX_EPERM, record_oid v) ∧ ¬ authority_covers v (policy cell)))
   end).
Proof.
  intros Ht. unfold anx_identity_admit, anx_identity_get. destruct (uuid_is_nil_spec (identity_id cell)) as [Hn|Hn]; [done|].
  split; [done|]. intros _. cbn [orb negb]. destruct (find_entry R (identity_id cell)) as [v|] eqn:Ef; [|done].
  destruct (find_entry_Some _ _ _ Ef) as [Hin Hid]. split; [done|].
  destruct (authority_bits (required_authority (policy cell)) (c_authority (commitment v))) as [H1 H2]; [|by apply Ht|].
  { rewrite required_bits. unfold is_u32. repeat case_match; lia. }
  destruct (_ =? 0) eqn:E; to_prop; [left|right]; (split; [done|]).
  - specialize (H1 E). split; intros Hp; apply H1; (lia || rewrite required_testbit, Hp; by rewrite ?orb_true_r).
  - intros [P0 P1 P2 P3]. apply E, H2. intros k _. rewrite required_testbit.
    intros [[[[Hk Hp]%andb_true_iff|[Hk Hp]%andb_true_iff]%orb_true_iff|[Hk Hp]%andb_true_iff]%orb_true_iff|[Hk Hp]%andb_true_iff]%orb_true_iff;
      apply Z.eqb_eq in Hk as ->; auto.
Qed.

(** ** Example: an identity created, then restricted *)

Definition toy_digest (l : list Z) : list Z := firstn 32 (rev l ++ replicate 32 0).
Definition toy_verify (signature digest key : list Z) : Z := if bool_decide (signature = digest ++ key) then 0 else 1.
Definition toy_meta (o : anx_state_object) (mem : list bool) : anx_meta_store * list bool := (so_system_meta o, mem).

Definition op_key : list Z := replicate 32 9.
Definition alice : anx_uuid := Uuid 3 3.
Definition alice1 : anx_identity_commitment := Commitment 1 alice 1 15 op_key zero32.
Definition sign (c : anx_identity_commitment) : list Z := toy_digest (encode (Some c)).2 ++ op_key.
Definition alice2 : anx_identity_commitment := Commitment 1 alice 2 1 op_key (toy_digest (encode (Some alice1)).2).

Definition id_world1 : identity_registry * objstore :=
  let '(_, R, W) := anx_identity_create toy_digest toy_verify toy_meta None true (SoEnv 1 1 1 (Uuid 50 1) 1000)
    (Some alice1) (Some (sign alice1)) identity_boot anx_objstore_init in (R, W).
Definition id_world2 : identity_registry * objstore :=
  let '(_, R, W) := anx_identity_transition toy_digest toy_verify toy_meta (SoEnv 2 2 2 (Uuid 50 2) 2000)
    (Some alice2) (Some (sign alice2)) id_world1.1 id_world1.2 in (R, W).

Definition networked_cell : anx_cell :=
  zero_cell (Uuid 1 1) <| identity_id := alice |> <| policy ::= λ p, p <| allow_network := true |> |>.

Lemma identity_lineage_witness :
  rtc (istep toy_digest toy_verify toy_meta) id_world1 id_world2 ∧
  ∃ v v', v ∈ identities id_world1.1 ∧ v' ∈ identities id_world2.1 ∧ c_authority (commitment v) = 15 ∧ c_authority (commitment v') = 1 ∧
    certified toy_digest toy_verify v ∧ rtc (extends toy_digest toy_verify) v v'.
Proof.
  assert (rtc (istep toy_digest toy_verify toy_meta) (identity_boot, anx_objstore_init) id_world1) as H1.
  { unfold id_world1. destruct (anx_identity_create _ _ _ _ _ _ _ _ _ _) as [[r R] W] eqn:E. by eapply rtc_once, ICreate. }
  assert (rtc (istep toy_digest toy_verify toy_meta) id_world1 id_world2) as H2.
  { unfold id_world2. destruct (anx_identity_transition _ _ _ _ _ _ _ _) as [[r R] W] eqn:E.
    rewrite (surjective_pairing id_world1). by eapply rtc_once, ITransition. }
  split; [exact H2|].
  set (v := IdentityView alice1 (toy_digest (encode (Some alice1)).2) (Uuid 50 1)).
  set (v' := IdentityView alice2 (toy_digest (encode (Some alice2)).2) (Uuid 50 2)).
  assert (identities id_world1.1 = [v]) as E1 by (vm_compute; reflexivity).
  assert (identities id_world2.1 = [v']) as E2 by (vm_compute; reflexivity).
  rewrite (surjective_pairing id_world1) in H1, H2. rewrite (surjective_pairing id_world2) in H2.
  destruct (identity_lineage toy_digest toy_verify toy_meta _ _ _ _ _ v H1 ltac:(rewrite E1; by left) H2) as (_ & _ & Hc & x & Hx & He & _).
  rewrite E2 in Hx. apply list_elem_of_singleton in Hx as ->. exists v, v'. rewrite E1, E2.
  repeat (split; [first [by left|done]|]). done.
Defined.

Lemma identity_admit_exact_witness :
  anx_identity_admit id_world2.1 (Some networked_cell) = (ANX_OK, Uuid 50 2) ∧
  (anx_identity_admit id_world2.1 (Some (networked_cell <| policy ::= λ p, p <| allow_side_effects := true |> |>))).1 = ANX_EPERM.
Proof.
  assert (∀ v, v ∈ identities id_world2.1 → is_u32 (c_authority (commitment v))) as Ht.
  { assert (identities id_world2.1 = [IdentityView alice2 (toy_digest (encode (Some alice2)).2) (Uuid 50 2)]) as -> by (vm_compute; reflexivity).
    intros v ->%list_elem_of_singleton. done. }
  destruct (identity_admit_exact id_world2.1 networked_cell Ht) as [_ H]. specialize (H ltac:(done)).
  split; [|vm_compute; reflexivity]. revert H.
  assert (find_entry id_world2.1 (identity_id networked_cell) = Some (IdentityView alice2 (toy_digest (encode (Some alice2)).2) (Uuid 50 2)))
    as -> by (vm_compute; reflexivity).
  intros [_ [[H _]|[_ H]]]; [exact H|]. exfalso. apply H. by split.
Defined.
