(* ===== verification/Continuation.v ===== *)
(** * Continuation groups: [kernel/core/sched/continuation_group.c]

    A continuation group lets up to four sibling cells share one scratch area:
    it holds pages, a memory lease for them and a reference on each cell, and
    one member at a time, the holder, may run and use the area.  A group is a
    slot of the table; the pointers it keeps are the keys of the cells, the
    address of the lease and the addresses of its pages (0 for none).  A frame is
    the contents of one page.  The world the functions work on brings together
    the page allocator, the leases, the cells, the scheduling domains, the
    fences and the identities.  [group_lock] makes a call one step, during which
    the clock shows one time. *)

From S2P Require Import Prelude PageAlloc Uuid Cell CellScope SchedDomain Sched CellStore EffectFence Meta Review StateObject Identity Lease.
#[local] Open Scope Z_scope.

Definition ANX_CONTINUATION_GROUP_MAX : nat := 16.
Definition ANX_CONTINUATION_GROUP_MEMBERS : nat := 4.
Definition ANX_CONTINUATION_GROUP_PAGES : nat := 4.
(** [ANX_MEM_L0] of [memplane.h], and [ANX_PAGE_SIZE]. *)
Definition TIER_L0 : Z := 0.
Definition PAGE : Z := Page.ANX_PAGE_SIZE.

Record anx_continuation_group_view := GroupView {
  cg_id : Z;
  cg_epoch : Z;
  cg_owner : anx_uuid;
  cg_members : list anx_uuid;  (* 4 *)
  cg_lease_id : anx_uuid;
  cg_count : Z;
  cg_holder : Z;
  cg_cpu_slots : Z;
  cg_memory_bytes : Z;
  cg_physical_pages : Z;
  cg_revoked : bool;
}.

#[export] Instance eta_group_view : Settable anx_continuation_group_view := λ r,
  GroupView (cg_id r) (cg_epoch r) (cg_owner r) (cg_members r) (cg_lease_id r) (cg_count r) (cg_holder r)
    (cg_cpu_slots r) (cg_memory_bytes r) (cg_physical_pages r) (cg_revoked r).

Record continuation_group := Group {
  g_view : anx_continuation_group_view;
  g_owner : option anx_uuid;
  g_members : list (option anx_uuid);  (* 4 *)
  g_identity : anx_uuid;
  g_member_identity : list anx_uuid;  (* 4 *)
  g_lease : option Z;
  g_pages : list Z;  (* 4 *)
}.

#[export] Instance eta_group : Settable continuation_group := λ r,
  Group (g_view r) (g_owner r) (g_members r) (g_identity r) (g_member_identity r) (g_lease r) (g_pages r).

Record cworld := CWorld {
  groups : list (option continuation_group);
  cg_sequence : Z;
  frames : gmap Z (list Z);
  w_pages : Page.pstate;
  w_leases : lease_state;
  w_cells : cell_store;
  w_domains : domain_table;
  w_fences : fence_table;
  w_ids : identity_registry;
}.

#[export] Instance eta_cworld : Settable cworld := λ r,
  CWorld (groups r) (cg_sequence r) (frames r) (w_pages r) (w_leases r) (w_cells r) (w_domains r) (w_fences r) (w_ids r).

(** The slot and the group of an id. *)
Fixpoint find_group (l : list (option continuation_group)) (id : Z) : option (nat * continuation_group) :=
  match l with
  | [] => None
  | Some g :: l =>
      if cg_id (g_view g) =? id then Some (O, g)
      else (λ x : nat * continuation_group, (S x.1, x.2)) <$> find_group l id
  | None :: l => (λ x : nat * continuation_group, (S x.1, x.2)) <$> find_group l id
  end.

(** The members that count. *)
Definition members_of (v : anx_continuation_group_view) : list anx_uuid := firstn (Z.to_nat (cg_count v)) (cg_members v).

Fixpoint index_of (l : list anx_uuid) (c : anx_uuid) : option nat :=
  match l with
  | [] => None
  | x :: l => if anx_uuid_compare c x =? 0 then Some O else S <$> index_of l c
  end.

(** [None] is -1. *)
Definition member_index (g : continuation_group) (c : anx_uuid) : option nat := index_of (members_of (g_view g)) c.

Definition in_group (c : anx_uuid) (slot : option continuation_group) : bool :=
  match slot with
  | None => false
  | Some g => (anx_uuid_compare c (cg_owner (g_view g)) =? 0) || bool_decide (is_Some (member_index g c))
  end.

Definition enrolled (l : list (option continuation_group)) (c : anx_uuid) : bool := existsb (in_group c) l.

(** [current] is the running cell. *)
Definition inspect (current : option anx_uuid) (gp : option continuation_group) : Z :=
  match gp with
  | None => ANX_ENOENT
  | Some g =>
      match current with
      | Some caller =>
          if negb (anx_uuid_compare caller (cg_owner (g_view g)) =? 0) && negb (bool_decide (is_Some (member_index g caller)))
          then ANX_EPERM else ANX_OK
      | None => ANX_OK
      end
  end.

Definition cell_current (fuel : nat) (now : Z) (cellp : option anx_uuid) (identity : anx_uuid) (w : cworld)
    : outcome (Z * cworld) :=
  match cellp ≫= (w_cells w !!.) with
  | None => Panic
  | Some cell =>
      when anx_cell_status_terminal (status cell) ret Ret (ANX_EPERM, w) ;;
      let! (r, st) := anx_cell_check_scope fuel (w_cells w) cellp in
      let r := if r =? ANX_OK then anx_cell_check_contract (Some cell) else r in
      let! (r, st) := if r =? ANX_OK then anx_sched_domain_check fuel now st (w_domains w) cellp else Ret (r, st) in
      let '(r, record) := if r =? ANX_OK then anx_identity_admit (w_ids w) (Some cell) else (r, ANX_UUID_NIL) in
      let r := if (r =? ANX_OK) && negb (anx_uuid_compare record identity =? 0) then ANX_EBUSY else r in
      let '(r, F) := if r =? ANX_OK then let '(e, _, _, F) := anx_effect_fence_check now (w_fences w) (Some cell) in (e, F)
                     else (r, w_fences w) in
      Ret (r, w <| w_cells := st |> <| w_fences := F |>)
  end.

(** What the lease of a group must be. *)
Definition lease_current (now : Z) (g : continuation_group) (w : cworld) : outcome Z :=
  match g_lease g with
  | None => Panic
  | Some p =>
      when negb (bool_decide (anx_lease_lookup (w_leases w) (Some (cg_lease_id (g_view g))) = Some p)) ret Ret ANX_EPERM ;;
      match registered (w_leases w) p with
      | None => Panic
      | Some lease =>
          when negb (is_root lease) || negb (mem_tier lease =? TIER_L0) || negb (accel lease =? ANX_ACCEL_NONE)
               || negb (accel_pct lease =? 0) || negb (mem_reserved_bytes lease =? cg_memory_bytes (g_view g))
               || negb (mem_used_bytes lease =? cg_memory_bytes (g_view g))
            ret Ret ANX_EBUSY ;;
          when negb (l_expires_at lease =? 0) && (now >=? l_expires_at lease) ret Ret ANX_ETIMEDOUT ;;
          Ret ANX_OK
      end
  end.

Definition group_current (fuel : nat) (now : Z) (g : continuation_group) (w : cworld) : outcome (Z * cworld) :=
  when cg_revoked (g_view g) ret Ret (ANX_EPERM, w) ;;
  match g_owner g ≫= (w_cells w !!.) with
  | None => Panic
  | Some owner =>
      when negb (anx_uuid_is_nil (parent_cid owner)) ret Ret (ANX_EPERM, w) ;;
      let! (r, w) := cell_current fuel now (g_owner g) (g_identity g) w in
      when negb (r =? ANX_OK) ret Ret (r, w) ;;
      let! r := lease_current now g w in
      Ret (r, w)
  end.

Definition member_pointer (g : continuation_group) (member : nat) : option anx_uuid := rd None (g_members g) (Z.of_nat member).

Definition member_current (fuel : nat) (now : Z) (g : continuation_group) (member : nat) (w : cworld) : outcome (Z * cworld) :=
  match member_pointer g member ≫= (w_cells w !!.) with
  | None => Panic
  | Some cell =>
      when negb (anx_uuid_compare (parent_cid cell) (cg_owner (g_view g)) =? 0) ret Ret (ANX_EPERM, w) ;;
      cell_current fuel now (member_pointer g member) (rd ANX_UUID_NIL (g_member_identity g) (Z.of_nat member)) w
  end.

(** Whether the cell a pointer names is running; a dangling pointer is [Panic]. *)
Definition running (w : cworld) (p : option anx_uuid) : outcome bool :=
  match p ≫= (w_cells w !!.) with
  | None => Panic
  | Some cell => Ret (runtime_active cell)
  end.

Fixpoint any_running (w : cworld) (l : list (option anx_uuid)) : outcome bool :=
  match l with
  | [] => Ret false
  | p :: l => let! b := running w p in if b : bool then Ret true else any_running w l
  end.

Definition group_active (g : continuation_group) (w : cworld) : outcome bool :=
  any_running w (g_owner g :: firstn (Z.to_nat (cg_count (g_view g))) (g_members g)).

Definition zero_frame : list Z := replicate (Z.to_nat PAGE) 0.

(** One iteration of the loop of [free_pages]. *)
Definition free_one (w : cworld) (page : Z) : outcome cworld :=
  if page =? 0 then Ret w
  else
    let w := w <| frames ::= <[page := zero_frame]> |> in
    let! st := Page.anx_page_free page 0 (w_pages w) in
    Ret (w <| w_pages := st |>).

Fixpoint free_each (w : cworld) (l : list Z) : outcome cworld :=
  match l with
  | [] => Ret w
  | page :: l => let! w := free_one w page in free_each w l
  end.

Definition free_pages (g : continuation_group) (w : cworld) : outcome (continuation_group * cworld) :=
  let! w := free_each w (g_pages g) in
  Ret (g <| g_pages := replicate ANX_CONTINUATION_GROUP_PAGES 0 |> <| g_view ::= λ v, v <| cg_physical_pages := 0 |> |>, w).

Definition release_pointer (st : cell_store) (p : option anx_uuid) : cell_store :=
  match p with Some c => anx_cell_store_release st c | None => st end.

Definition release_group_cells (g : continuation_group) (w : cworld) : cworld :=
  w <| w_cells ::= λ st, release_pointer (foldl release_pointer st (firstn (Z.to_nat (cg_count (g_view g))) (g_members g))) (g_owner g) |>.

(** ** Creation *)

(** The checks on one member, which also takes a reference on it. *)
Definition enroll (fuel : nat) (now : Z) (owner : anx_uuid) (i : nat) (g : continuation_group) (w : cworld)
    : outcome (Z * continuation_group * cworld) :=
  let m := rd ANX_UUID_NIL (cg_members (g_view g)) (Z.of_nat i) in
  when anx_uuid_is_nil m || (anx_uuid_compare m owner =? 0) ret Ret (ANX_EINVAL, g, w) ;;
  when enrolled (groups w) m ret Ret (ANX_EEXIST, g, w) ;;
  when existsb (λ x, anx_uuid_compare m x =? 0) (firstn i (cg_members (g_view g))) ret Ret (ANX_EEXIST, g, w) ;;
  let '(found, st) := anx_cell_store_lookup (w_cells w) m in
  let w := w <| w_cells := st |> in
  match found with
  | None => Ret (ANX_ENOENT, g, w)
  | Some cell =>
      let g := g <| g_members ::= λ l, wr l (Z.of_nat i) (Some m) |> in
      when negb (bool_decide (status cell = ANX_CELL_CREATED)) || runtime_active cell ret Ret (ANX_EPERM, g, w) ;;
      let '(r, record) := anx_identity_admit (w_ids w) (Some cell) in
      let g := g <| g_member_identity ::= λ l, wr l (Z.of_nat i) record |> in
      when negb (r =? ANX_OK) ret Ret (r, g, w) ;;
      let! (r, w) := member_current fuel now g i w in
      Ret (r, g, w)
  end.

(** The loop over the members from [i], [n] of them. *)
Fixpoint enroll_loop (fuel : nat) (now : Z) (owner : anx_uuid) (n i : nat) (g : continuation_group) (w : cworld)
    : outcome (Z * continuation_group * cworld) :=
  match n with
  | O => Ret (ANX_OK, g, w)
  | S n =>
      let! (r, g, w) := enroll fuel now owner i g w in
      if r =? ANX_OK then enroll_loop fuel now owner n (S i) g w else Ret (r, g, w)
  end.

(** The first empty slot, or the number of slots. *)
Fixpoint empty_slot (l : list (option continuation_group)) : nat :=
  match l with
  | [] => O
  | None :: _ => O
  | Some _ :: l => S (empty_slot l)
  end.

(** The loop that takes and clears the pages from [i], [n] of them. *)
Fixpoint page_loop (n i : nat) (g : continuation_group) (w : cworld) : outcome (Z * continuation_group * cworld) :=
  match n with
  | O => Ret (ANX_OK, g, w)
  | S n =>
      let! (page, st) := Page.anx_page_alloc 0 (w_pages w) in
      let g := g <| g_pages ::= λ l, wr l (Z.of_nat i) page |> in
      let w := w <| w_pages := st |> in
      if page =? 0 then Ret (ANX_ENOMEM, g, w)
      else page_loop n (S i) (g <| g_view ::= λ v, v <| cg_physical_pages ::= λ x, x + 1 |> |>)
             (w <| frames ::= <[page := zero_frame]> |>)
  end.

(** The group as its fields are first filled in. *)
Definition new_group (owner : anx_uuid) (members : list anx_uuid) (count pages : Z) : continuation_group :=
  Group (GroupView 0 1 owner (firstn (Z.to_nat count) members ++ replicate (ANX_CONTINUATION_GROUP_MEMBERS - Z.to_nat count) ANX_UUID_NIL)
           ANX_UUID_NIL count 0 1 (u32 (pages * PAGE)) 0 false)
    None (replicate ANX_CONTINUATION_GROUP_MEMBERS None) ANX_UUID_NIL (replicate ANX_CONTINUATION_GROUP_MEMBERS ANX_UUID_NIL)
    None (replicate ANX_CONTINUATION_GROUP_PAGES 0).

(** The checks on the owner. *)
Definition enroll_owner (fuel : nat) (now : Z) (owner : anx_uuid) (g : continuation_group) (w : cworld)
    : outcome (Z * continuation_group * cworld) :=
  match w_cells w !! owner with
  | None => Ret (ANX_ENOENT, g, w)
  | Some cell =>
      let w := w <| w_cells := (anx_cell_store_lookup (w_cells w) owner).2 |> in
      let g := g <| g_owner := Some owner |> in
      when enrolled (groups w) owner ret Ret (ANX_EEXIST, g, w) ;;
      when negb (anx_uuid_is_nil (parent_cid cell)) || negb (bool_decide (status cell = ANX_CELL_CREATED)) || runtime_active cell
        ret Ret (ANX_EPERM, g, w) ;;
      let '(r, record) := anx_identity_admit (w_ids w) (Some cell) in
      let g := g <| g_identity := record |> in
      when negb (r =? ANX_OK) ret Ret (r, g, w) ;;
      let! (r, w) := cell_current fuel now (g_owner g) (g_identity g) w in
      Ret (r, g, w)
  end.

(** The lease and the pages of a group that is to go into [slot]; [fresh] is the
    generated lease id, [lease_alloc] the address for the lease. *)
Definition reserve_group (now : Z) (fresh : anx_uuid) (lease_alloc : option Z) (pages : Z) (slot : nat)
    (g : continuation_group) (w : cworld) : outcome (Z * continuation_group * cworld) :=
  when bool_decide (slot = ANX_CONTINUATION_GROUP_MAX) || (cg_sequence w =? MAX64) ret Ret (ANX_EFULL, g, w) ;;
  let g := g <| g_view ::= λ v, v <| cg_lease_id := fresh |> |> in
  let '(r, lease, s) := anx_lease_grant lease_alloc now (w_leases w) (Some fresh) TIER_L0 (cg_memory_bytes (g_view g)) ANX_ACCEL_NONE 0 in
  let g := g <| g_lease := lease |> in
  let w := w <| w_leases := s |> in
  when negb (r =? ANX_OK) ret Ret (r, g, w) ;;
  page_loop (Z.to_nat pages) 0 g w.

(** [lease->mem_used_bytes = used]. *)
Definition set_used (p : option Z) (used : Z) (w : cworld) : cworld :=
  match p with
  | Some p => w <| w_leases ::= update_lease p (λ l, l <| mem_used_bytes := used |>) |>
  | None => w
  end.

(** The failure path. *)
Definition undo (g : continuation_group) (w : cworld) : outcome cworld :=
  let! (g, w) := free_pages g w in
  let w := match g_lease g with Some p => w <| w_leases ::= λ s, (anx_lease_release s (Some p)).2 |> | None => w end in
  Ret (release_group_cells g w).

Definition anx_continuation_group_create (fuel : nat) (current : option anx_uuid) (alloc : bool) (now : Z) (fresh : anx_uuid)
    (lease_alloc : option Z) (ownerp : option anx_uuid) (membersp : option (list anx_uuid)) (count pages : Z) (out : bool)
    (w : cworld) : outcome (Z * option anx_continuation_group_view * cworld) :=
  when bool_decide (is_Some current) ret Ret (ANX_EPERM, None, w) ;;
  match ownerp, membersp with
  | Some owner, Some members =>
      when anx_uuid_is_nil owner || negb out || (count =? 0) || (count >? Z.of_nat ANX_CONTINUATION_GROUP_MEMBERS)
           || (pages =? 0) || (pages >? Z.of_nat ANX_CONTINUATION_GROUP_PAGES)
        ret Ret (ANX_EINVAL, None, w) ;;
      when negb alloc ret Ret (ANX_ENOMEM, None, w) ;;
      let! (r, g, w) := enroll_owner fuel now owner (new_group owner members count pages) w in
      let! (r, g, w) := if r =? ANX_OK then enroll_loop fuel now owner (Z.to_nat count) 0 g w else Ret (r, g, w) in
      let slot := empty_slot (groups w) in
      let! (r, g, w) := if r =? ANX_OK then reserve_group now fresh lease_alloc pages slot g w else Ret (r, g, w) in
      if r =? ANX_OK then
        let w := set_used (g_lease g) (cg_memory_bytes (g_view g)) w in
        let g := g <| g_view ::= λ v, v <| cg_id := cg_sequence w + 1 |> |> in
        Ret (ANX_OK, Some (g_view g), w <| cg_sequence ::= λ n, n + 1 |> <| groups ::= <[slot := Some g]> |>)
      else let! w := undo g w in Ret (r, None, w)
  | _, _ => Ret (ANX_EINVAL, None, w)
  end.

(** ** Operations on a group *)

Definition anx_continuation_group_get (current : option anx_uuid) (id : Z) (out : bool) (w : cworld)
    : Z * option anx_continuation_group_view :=
  when (id =? 0) || negb out ret (ANX_EINVAL, None) ;;
  let g := snd <$> find_group (groups w) id in
  let r := inspect current g in
  (r, if r =? ANX_OK then g_view <$> g else None).

Definition put_group (i : nat) (g : continuation_group) (w : cworld) : cworld := w <| groups ::= <[i := Some g]> |>.

(** What a hand-over to [target] requires; the member's index when it is granted. *)
Definition handoff_check (fuel : nat) (now epoch : Z) (target : anx_uuid) (g : continuation_group) (w : cworld)
    : outcome (Z * nat * cworld) :=
  when negb (cg_epoch (g_view g) =? epoch) ret Ret (ANX_EBUSY, O, w) ;;
  let! (r, w) := group_current fuel now g w in
  when negb (r =? ANX_OK) ret Ret (r, O, w) ;;
  let! b := group_active g w in
  when b ret Ret (ANX_EBUSY, O, w) ;;
  match member_index g target with
  | None => Ret (ANX_EPERM, O, w)
  | Some member =>
      when Z.of_nat member =? cg_holder (g_view g) ret Ret (ANX_EBUSY, O, w) ;;
      match member_pointer g member ≫= (w_cells w !!.) with
      | None => Panic
      | Some cell =>
          when negb (bool_decide (status cell = ANX_CELL_CREATED)) ret Ret (ANX_EBUSY, O, w) ;;
          let! (r, w) := member_current fuel now g member w in
          when negb (r =? ANX_OK) ret Ret (r, O, w) ;;
          when epoch =? MAX64 ret Ret (ANX_EFULL, O, w) ;;
          Ret (ANX_OK, member, w)
      end
  end.

Definition anx_continuation_group_handoff (fuel : nat) (current : option anx_uuid) (now id epoch : Z) (targetp : option anx_uuid)
    (out : bool) (w : cworld) : outcome (Z * option anx_continuation_group_view * cworld) :=
  when bool_decide (is_Some current) ret Ret (ANX_EPERM, None, w) ;;
  match targetp with
  | None => Ret (ANX_EINVAL, None, w)
  | Some target =>
      when (id =? 0) || (epoch =? 0) || negb out ret Ret (ANX_EINVAL, None, w) ;;
      match find_group (groups w) id with
      | None => Ret (ANX_ENOENT, None, w)
      | Some (i, g) =>
          let! (r, member, w) := handoff_check fuel now epoch target g w in
          when negb (r =? ANX_OK) ret Ret (r, None, w) ;;
          let g := g <| g_view ::= λ v, v <| cg_holder := Z.of_nat member |> <| cg_epoch ::= λ e, u64 (e + 1) |> |> in
          Ret (ANX_OK, Some (g_view g), put_group i g w)
      end
  end.

(** The first group a cell is a member of, and its index there. *)
Fixpoint member_group (l : list (option continuation_group)) (c : anx_uuid) : option (continuation_group * nat) :=
  match l with
  | [] => None
  | Some g :: l => match member_index g c with Some m => Some (g, m) | None => member_group l c end
  | None :: l => member_group l c
  end.

Definition anx_continuation_group_check (fuel : nat) (now : Z) (cellp : option anx_uuid) (w : cworld) : outcome (Z * cworld) :=
  match cellp with
  | None => Ret (ANX_EINVAL, w)
  | Some p =>
      match w_cells w !! p with
      | None => Panic
      | Some cell =>
          match member_group (groups w) (cid cell) with
          | None => Ret (ANX_OK, w)
          | Some (g, member) =>
              when negb (bool_decide (member_pointer g member = Some p)) ret Ret (ANX_EPERM, w) ;;
              let! (r, w) := group_current fuel now g w in
              when negb (r =? ANX_OK) ret Ret (r, w) ;;
              when negb (Z.of_nat member =? cg_holder (g_view g)) ret Ret (ANX_EBUSY, w) ;;
              member_current fuel now g member w
          end
      end
  end.

(** ** The scratch area *)

(** The checks of [memory_access] before its loop, and the group. *)
Definition access_check (fuel : nat) (current : option anx_uuid) (now id epoch offset size : Z) (w : cworld)
    : outcome (Z * option continuation_group * cworld) :=
  let gp := snd <$> find_group (groups w) id in
  let r := inspect current gp in
  match gp with
  | None => Ret (r, None, w)
  | Some g =>
      when negb (r =? ANX_OK) ret Ret (r, None, w) ;;
      when match current with
           | Some caller => negb (anx_uuid_compare caller (rd ANX_UUID_NIL (cg_members (g_view g)) (cg_holder (g_view g))) =? 0)
           | None => false
           end ret Ret (ANX_EPERM, None, w) ;;
      when negb (cg_epoch (g_view g) =? epoch) ret Ret (ANX_EBUSY, None, w) ;;
      let! (r, w) := group_current fuel now g w in
      when negb (r =? ANX_OK) ret Ret (r, None, w) ;;
      let! (r, w) := member_current fuel now g (Z.to_nat (cg_holder (g_view g))) w in
      when negb (r =? ANX_OK) ret Ret (r, None, w) ;;
      when (offset >? cg_memory_bytes (g_view g)) || (size >? cg_memory_bytes (g_view g) - offset) ret Ret (ANX_EINVAL, None, w) ;;
      Ret (ANX_OK, Some g, w)
  end.

(** The loop that copies between the caller's [buffer] (from [pos]) and the pages:
    the buffer and the frames afterwards.  An address without a frame is [Panic]. *)
Fixpoint copy_loop (n : nat) (pages : list Z) (write : bool) (buffer : list Z) (pos : nat) (offset size : Z)
    (fr : gmap Z (list Z)) : outcome (list Z * gmap Z (list Z)) :=
  if size =? 0 then Ret (buffer, fr)
  else
    match n with
    | O => OutOfFuel
    | S n =>
        let pos_in := offset mod PAGE in
        let len := Z.min (PAGE - pos_in) size in
        let page := rd 0 pages (offset / PAGE) in
        match fr !! page with
        | None => Panic
        | Some frame =>
            if write then
              copy_loop n pages write buffer (pos + Z.to_nat len) (offset + len) (size - len)
                (<[page := splice (Z.to_nat pos_in) (firstn (Z.to_nat len) (skipn pos buffer)) frame]> fr)
            else
              copy_loop n pages write (splice pos (firstn (Z.to_nat len) (skipn (Z.to_nat pos_in) frame)) buffer)
                (pos + Z.to_nat len) (offset + len) (size - len) fr
        end
    end.

(** The result, the caller's buffer and the world. *)
Definition memory_access (fuel : nat) (current : option anx_uuid) (now id epoch offset : Z) (bytes : option (list Z))
    (size : Z) (write : bool) (w : cworld) : outcome (Z * option (list Z) * cworld) :=
  match bytes with
  | None => Ret (ANX_EINVAL, bytes, w)
  | Some buffer =>
      when (id =? 0) || (epoch =? 0) || (size =? 0) ret Ret (ANX_EINVAL, bytes, w) ;;
      let! (r, gp, w) := access_check fuel current now id epoch offset size w in
      match gp with
      | None => Ret (r, bytes, w)
      | Some g =>
          let! (buffer, fr) := copy_loop (Z.to_nat size) (g_pages g) write buffer 0 offset size (frames w) in
          Ret (ANX_OK, Some buffer, w <| frames := fr |>)
      end
  end.

Definition anx_continuation_group_read fuel current now id epoch offset bytes size w :=
  memory_access fuel current now id epoch offset bytes size false w.
Definition anx_continuation_group_write fuel current now id epoch offset bytes size w :=
  memory_access fuel current now id epoch offset bytes size true w.

(** ** Revocation and destruction *)

(** Set the use of the lease to 0 and apply [f] to it; when that fails, put the
    use back. *)
Definition drop_lease (f : lease_state → option Z → Z * lease_state) (lease : option Z) (w : cworld) : outcome (Z * cworld) :=
  match lease ≫= registered (w_leases w) with
  | None => Panic
  | Some l =>
      let w := set_used lease 0 w in
      let '(r, s) := f (w_leases w) lease in
      let w := w <| w_leases := s |> in
      Ret (r, if r =? ANX_OK then w else set_used lease (mem_used_bytes l) w)
  end.

Definition anx_continuation_group_revoke (current : option anx_uuid) (id epoch : Z) (out : bool) (w : cworld)
    : outcome (Z * option anx_continuation_group_view * cworld) :=
  when bool_decide (is_Some current) ret Ret (ANX_EPERM, None, w) ;;
  when (id =? 0) || (epoch =? 0) || negb out ret Ret (ANX_EINVAL, None, w) ;;
  match find_group (groups w) id with
  | None => Ret (ANX_ENOENT, None, w)
  | Some (i, g) =>
      when negb (cg_epoch (g_view g) =? epoch) || cg_revoked (g_view g) ret Ret (ANX_EBUSY, None, w) ;;
      let! b := group_active g w in
      when b ret Ret (ANX_EBUSY, None, w) ;;
      when epoch =? MAX64 ret Ret (ANX_EFULL, None, w) ;;
      let! (r, w) := drop_lease anx_lease_revoke (g_lease g) w in
      when negb (r =? ANX_OK) ret Ret (r, None, w) ;;
      let! (g, w) := free_pages g w in
      let g := g <| g_view ::= λ v, v <| cg_revoked := true |> <| cg_epoch ::= λ e, u64 (e + 1) |> |> in
      Ret (ANX_OK, Some (g_view g), put_group i g w)
  end.

Definition anx_continuation_group_destroy (current : option anx_uuid) (id : Z) (w : cworld) : outcome (Z * cworld) :=
  when bool_decide (is_Some current) ret Ret (ANX_EPERM, w) ;;
  when id =? 0 ret Ret (ANX_EINVAL, w) ;;
  match find_group (groups w) id with
  | None => Ret (ANX_ENOENT, w)
  | Some (i, g) =>
      let! b := group_active g w in
      when b ret Ret (ANX_EBUSY, w) ;;
      let! (r, w) := drop_lease anx_lease_release (g_lease g) w in
      when negb (r =? ANX_OK) ret Ret (r, w) ;;
      let! (g, w) := free_pages g w in
      Ret (ANX_OK, release_group_cells g w <| groups ::= <[i := None]> |>)
  end.
