(* ===== verification/ContinuationProofs.v ===== *)
(** * Continuation groups: what the operations do

    The invariant of the group table and the lemmas that show that each
    operation of [Continuation.v] keeps it. *)

From S2P Require Import Prelude PageAlloc Uuid Cell CellScope SchedDomain Sched CellStore EffectFence Meta Review StateObject ObjectProofs Identity Lease Continuation.
#[local] Open Scope Z_scope.

(** ** Pages *)

(** A page of the span that is in use, or free. *)
Definition page_bit (st : Page.pstate) (b : bool) (p : Z) : Prop :=
  ∃ f, 0 ≤ f < Page.total_pages st ∧ p = Page.heap_base st + f * PAGE ∧ Page.bit_test (Page.bitmap st) f = b.

Abbreviation page_held st := (page_bit st false).

(** Only the pages of [l] went from [b] to [negb b]. *)
Record flips (b : bool) (l : list Z) (st st' : Page.pstate) : Prop := {
  fl_base : Page.heap_base st' = Page.heap_base st;
  fl_total : Page.total_pages st' = Page.total_pages st;
  fl_free : Page.free_count st' = Page.free_count st + (if b then - Z.of_nat (length l) else Z.of_nat (length l));
  fl_in : ∀ p, p ∈ l → page_bit st b p ∧ page_bit st' (negb b) p;
  fl_out : ∀ p c, p ∉ l → page_bit st c p ↔ page_bit st' c p;
}.

Lemma flips_nil b st : flips b [] st st.
Proof. split; [done|done|destruct b; cbn; lia| |done]. intros p Hp. by apply not_elem_of_nil in Hp. Qed.

Lemma page_bit_fun st b c p : page_bit st b p → page_bit st c p → b = c.
Proof. intros (f & _ & Hf & <-) (h & _ & Hh & <-). assert (f = h) as -> by (unfold PAGE, Page.ANX_PAGE_SIZE in *; lia). done. Qed.

Lemma flips_cons b p l st st1 st2 : flips b [p] st st1 → p ∉ l → flips b l st1 st2 → flips b (p :: l) st st2.
Proof.
  intros [B1 T1 F1 I1 O1] Hp [B2 T2 F2 I2 O2]. split; [congruence|congruence| | |].
  - rewrite F2, F1. cbn [length]. destruct b; lia.
  - intros q [->|Hq]%elem_of_cons.
    + destruct (I1 p ltac:(by left)) as [H1 H2]. split; [done|]. by apply O2.
    + destruct (I2 q Hq) as [H1 H2]. split; [|done]. apply O1; [|done]. intros ->%list_elem_of_singleton. done.
  - intros q c [Hq1 Hq2]%not_elem_of_cons. rewrite O1 by (intros ->%list_elem_of_singleton; done). by apply O2.
Qed.

Lemma free_page st p : Page.page_inv st → page_held st p →
  ∃ st', Page.anx_page_free p 0 st = Ret st' ∧ Page.page_inv st' ∧ flips false [p] st st'.
Proof.
  intros Hi (f & Hf & -> & Hb). pose proof (Page.inv_total _ Hi) as Ht. pose proof (Page.free_count_bounds _ Hi) as Hc.
  change Page.MAX_PAGES with 1048576 in *.
  unfold PAGE. rewrite Page.page_free_unfold by (done || (change (Z.shiftl 1 0) with 1; lia)). change (Z.shiftl 1 0) with 1.
  destruct (Page.free_range (Page.bitmap st) f 1) as (bm & -> & Hok & Hbm);
    [lia|apply (Page.inv_bm _ Hi)|lia|change Page.MAX_PAGES with 1048576; lia|intros q Hq; by replace q with f by lia|]. cbn [obind].
  assert (∀ q, 0 ≤ q < 1048576 → Page.bit_test bm q = Page.bit_test (Page.bitmap st) q || (q =? f)) as Hbits.
  { intros q Hq. rewrite Hbm by done. f_equal. destruct (Z.leb_spec f q), (Z.ltb_spec q (f + 1)), (Z.eqb_spec q f); done || lia. }
  assert (Page.bit_test bm f = true) as Hbf by (rewrite Hbits, Z.eqb_refl, orb_true_r by lia; done).
  eexists. split; [done|]. rewrite u64_small by (unfold is_u64; lia). split; split; cbn [Page.bitmap Page.heap_base Page.total_pages Page.free_count].
  - done.
  - done.
  - intros q Hq. change Page.MAX_PAGES with 1048576 in Hq. rewrite Hbits by lia. rewrite (Page.inv_hole _ Hi) by done.
    by destruct (Z.eqb_spec q f); [lia|].
  - rewrite (Page.cnt_range (Page.bitmap st) bm _ f 1 false true); [rewrite (Page.inv_count _ Hi); lia|lia..| |].
    + intros q Hq. replace q with f by lia. done.
    + intros q Hq Hn. rewrite Hbits by lia. destruct (Z.eqb_spec q f); [lia|]. by rewrite orb_false_r.
  - apply (Page.inv_base _ Hi).
  - apply (Page.inv_end _ Hi).
  - done.
  - done.
  - cbn. lia.
  - intros q ->%list_elem_of_singleton. split; exists f; cbn; auto.
  - intros q c Hq. rewrite list_elem_of_singleton in Hq. unfold page_bit. cbn.
    split; intros (h & Hh & -> & Hbh); exists h; (split; [done|]; split; [done|]).
    + rewrite Hbits, Hbh by lia. destruct (Z.eqb_spec h f); [subst; done|]. by rewrite orb_false_r.
    + rewrite Hbits in Hbh by lia. destruct (Z.eqb_spec h f); [subst; done|]. by rewrite orb_false_r in Hbh.
Qed.

Lemma take_page st p st' : Page.page_inv st → Page.anx_page_alloc 0 st = Ret (p, st') → p ≠ 0 →
  Page.page_inv st' ∧ flips true [p] st st'.
Proof.
  intros Hi He Hp. destruct (Page.page_alloc_spec st 0 Hi ltac:(lia)) as [(f & st1 & E & Hf & Hle & Hall & Ht & Hi')|[E _]];
    rewrite E in He; [|congruence]. injection He as <- <-. change (Z.shiftl 1 0) with 1 in *. split; [done|].
  pose proof (Page.inv_total _ Hi) as Htt. change Page.MAX_PAGES with 1048576 in *.
  destruct Ht as [Hbits Hfree Hb Htot _].
  assert (∀ q, 0 ≤ q < 1048576 → Page.bit_test (Page.bitmap st1) q = Page.bit_test (Page.bitmap st) q && negb (q =? f)) as Hq.
  { intros q Hq. rewrite Hbits by done. do 2 f_equal. destruct (Z.leb_spec f q), (Z.ltb_spec q (f + 1)), (Z.eqb_spec q f); done || lia. }
  split; [done|done|cbn; lia| |].
  - intros q ->%list_elem_of_singleton. split; exists f; rewrite ?Htot, ?Hb; (split; [lia|]; split; [done|]); [apply Hall; lia|].
    rewrite Hq by lia. by rewrite Z.eqb_refl, andb_false_r.
  - intros q c Hn. rewrite list_elem_of_singleton in Hn. unfold page_bit. rewrite Hb, Htot. fold PAGE in Hn.
    split; intros (h & Hh & -> & Hbh); exists h; (split; [done|]; split; [done|]).
    + rewrite Hq, Hbh by lia. destruct (Z.eqb_spec h f); [subst; done|]. by rewrite andb_true_r.
    + rewrite Hq in Hbh by lia. destruct (Z.eqb_spec h f); [subst; done|]. by rewrite andb_true_r in Hbh.
Qed.

(** Allocation never gets stuck. *)
Lemma alloc_page st : Page.page_inv st → (∃ p st', Page.anx_page_alloc 0 st = Ret (p, st') ∧ p ≠ 0) ∨
  ∃ st', Page.anx_page_alloc 0 st = Ret (0, st') ∧ (st' = st ∨ Page.heap_base st = 0).
Proof.
  intros Hi. destruct (Page.page_alloc_spec st 0 Hi ltac:(lia)) as [(f & st1 & E & Hf & _)|[E _]]; [|right; eauto].
  destruct (decide (Page.heap_base st + f * Page.ANX_PAGE_SIZE = 0)) as [E0|]; [|left; eauto].
  right. exists st1. rewrite E, E0. split; [done|]. right. pose proof (Page.inv_base _ Hi). unfold Page.ANX_PAGE_SIZE in *. lia.
Qed.

Definition real (l : list Z) : list Z := filter (λ p, p ≠ 0) l.

Definition zeroed (l : list Z) (fr fr' : gmap Z (list Z)) : Prop :=
  ∀ p, fr' !! p = if decide (p ∈ l) then Some zero_frame else fr !! p.

(** Giving back a list of pages in use succeeds, clears each of them and changes
    nothing else. *)
Lemma free_each_spec l w : Page.page_inv (w_pages w) → NoDup (real l) → (∀ p, p ∈ real l → page_held (w_pages w) p) →
  ∃ st fr, free_each w l = Ret (w <| w_pages := st |> <| frames := fr |>) ∧ Page.page_inv st ∧
    flips false (real l) (w_pages w) st ∧ zeroed (real l) (frames w) fr.
Proof.
  revert w. induction l as [|p l IH]; intros w Hi Hn Hh.
  - exists (w_pages w), (frames w). split; [by destruct w|]. split; [done|]. split; [apply flips_nil|].
    intros p. by rewrite decide_False by apply not_elem_of_nil.
  - cbn [free_each]. unfold free_one. unfold real in *. rewrite filter_cons in *. destruct (Z.eqb_spec p 0) as [->|Hp].
    + rewrite decide_False in * by auto. by apply IH.
    + rewrite decide_True in * by done. apply NoDup_cons in Hn as [Hp' Hn].
      destruct (free_page (w_pages w) p Hi) as (st & E & Hi1 & Hf); [apply Hh; by left|]. cbn [w_pages]. cbn. rewrite E. cbn [obind].
      set (w1 := w <| frames ::= <[p := zero_frame]> |> <| w_pages := st |>).
      destruct (IH w1) as (st2 & fr2 & E2 & Hi2 & Hf2 & Hz).
      { done. } { done. }
      { intros q Hq. apply (fl_out _ _ _ _ Hf); [intros ->%list_elem_of_singleton; done|]. apply Hh. by right. }
      exists st2, fr2. split; [exact E2|]. split; [done|]. split; [by eapply flips_cons|].
      intros q. rewrite (Hz q). cbn. destruct (decide (q ∈ filter _ l)) as [Hq|Hq].
      * by rewrite decide_True by (by right).
      * destruct (decide (q = p)) as [->|Hqp]; [by rewrite lookup_insert_eq, decide_True by (by left)|].
        rewrite lookup_insert_ne, decide_False by (rewrite ?elem_of_cons; tauto || done). done.
Qed.

(** ** Checks look, and change only references and fences *)

Record quiet (w w' : cworld) : Prop := {
  qu_groups : groups w' = groups w;
  qu_sequence : cg_sequence w' = cg_sequence w;
  qu_frames : frames w' = frames w;
  qu_pages : w_pages w' = w_pages w;
  qu_leases : w_leases w' = w_leases w;
}.

#[export] Instance quiet_preorder : PreOrder quiet.
Proof. split; [by intros w|]. intros x y z [] []. split; congruence. Qed.

Lemma cell_current_quiet fuel now p id w r w' : cell_current fuel now p id w = Ret (r, w') → quiet w w'.
Proof.
  unfold cell_current. destruct (p ≫= _) as [cell|]; [|done]. destruct (anx_cell_status_terminal _); [by intros [= _ <-]|].
  destruct (anx_cell_check_scope _ _ _) as [[r1 st]| |]; [|done..]. cbn [obind].
  destruct (if _ =? ANX_OK then anx_sched_domain_check _ _ _ _ _ else _) as [[r2 st2]| |]; [|done..]. cbn [obind].
  destruct (if r2 =? ANX_OK then anx_identity_admit _ _ else _) as [r3 rec].
  destruct (if _ =? ANX_OK then _ else (_, w_fences w)) as [r4 F]. intros [= _ <-]. done.
Qed.

Lemma group_current_quiet fuel now g w r w' : group_current fuel now g w = Ret (r, w') → quiet w w'.
Proof.
  unfold group_current. destruct (cg_revoked _); [by intros [= _ <-]|]. destruct (g_owner g ≫= _) as [o|]; [|done].
  destruct (negb _); [by intros [= _ <-]|]. destruct (cell_current _ _ _ _ w) as [[r1 w1]| |] eqn:E; [|done..].
  apply cell_current_quiet in E. cbn [obind]. destruct (negb _); [by intros [= _ <-]|].
  destruct (lease_current _ _ _) as [r2| |]; [|done..]. by intros [= _ <-].
Qed.

Lemma member_current_quiet fuel now g m w r w' : member_current fuel now g m w = Ret (r, w') → quiet w w'.
Proof.
  unfold member_current. destruct (_ ≫= _) as [o|]; [|done]. destruct (negb _); [by intros [= _ <-]|]. apply cell_current_quiet.
Qed.

Lemma handoff_check_quiet fuel now epoch t g w r m w' : handoff_check fuel now epoch t g w = Ret (r, m, w') →
  quiet w w' ∧ (r = ANX_OK → cg_epoch (g_view g) = epoch ∧ epoch ≠ MAX64 ∧ cg_revoked (g_view g) = false ∧
    member_index g t = Some m ∧ Z.of_nat m ≠ cg_holder (g_view g)).
Proof.
  unfold handoff_check. destruct (negb _) eqn:E0; [by intros [= <- _ <-]|]. apply negb_false_iff, Z.eqb_eq in E0.
  destruct (group_current _ _ _ _) as [[r1 w1]| |] eqn:E1; [|done..]. pose proof (group_current_quiet _ _ _ _ _ _ E1) as Q1. cbn [obind].
  destruct (negb (r1 =? ANX_OK)) eqn:Er1; [by intros [= <- _ <-]; split; [done|]; intros ->|].
  destruct (group_active g w1) as [[]| |]; [by intros [= <- _ <-]| |done..]. cbn [obind].
  destruct (member_index g t) as [k|]; [|by intros [= <- _ <-]]. destruct (Z.eqb_spec (Z.of_nat k) (cg_holder (g_view g))) as [|Hk]; [by intros [= <- _ <-]|].
  destruct (_ ≫= _) as [c|]; [|done]. destruct (negb (bool_decide _)); [by intros [= <- _ <-]|].
  destruct (member_current _ _ _ _ _) as [[r2 w2]| |] eqn:E2; [|done..]. apply member_current_quiet in E2. cbn [obind].
  assert (quiet w w2) by (by etrans). destruct (negb (r2 =? ANX_OK)) eqn:Er2; [by intros [= <- _ <-]; split; [done|]; intros ->|].
  destruct (Z.eqb_spec epoch MAX64); [by intros [= <- _ <-]|]. intros [= <- <- <-]. split; [done|]. intros _. split; [done|]. split; [done|].
  split; [|done]. unfold group_current in E1. destruct (cg_revoked (g_view g)); [|done]. injection E1 as <- <-. done.
Qed.

Lemma access_check_quiet fuel current now id epoch offset size w r gp w' :
  access_check fuel current now id epoch offset size w = Ret (r, gp, w') →
  quiet w w' ∧ match gp with
  | None => r ≠ ANX_OK
  | Some g => r = ANX_OK ∧ (∃ i, find_group (groups w) id = Some (i, g)) ∧ cg_epoch (g_view g) = epoch ∧ cg_revoked (g_view g) = false ∧
      offset ≤ cg_memory_bytes (g_view g) ∧ size ≤ cg_memory_bytes (g_view g) - offset ∧
      (∀ caller, current = Some caller → caller = rd ANX_UUID_NIL (cg_members (g_view g)) (cg_holder (g_view g)))
  end.
Proof.
  unfold access_check. destruct (find_group (groups w) id) as [[i g]|]; cbn [fmap option_fmap option_map snd]; [|by intros [= <- <- <-]].
  destruct (negb (inspect _ _ =? ANX_OK)) eqn:Ei; [intros [= <- <- <-]; split; [done|]; exact (proj1 (Z.eqb_neq _ _) (proj1 (negb_true_iff _) Ei))|].
  destruct (match current with Some _ => _ | None => _ end) eqn:Ec; [by intros [= <- <- <-]|].
  destruct (negb (cg_epoch _ =? epoch)) eqn:Ee; [by intros [= <- <- <-]|]. apply negb_false_iff, Z.eqb_eq in Ee.
  destruct (group_current _ _ _ _) as [[r1 w1]| |] eqn:E1; [|done..]. pose proof (group_current_quiet _ _ _ _ _ _ E1) as Q1. cbn [obind].
  destruct (negb (r1 =? ANX_OK)) eqn:Er1; [intros [= <- <- <-]; split; [done|]; by intros ->|].
  destruct (member_current _ _ _ _ _) as [[r2 w2]| |] eqn:E2; [|done..]. apply member_current_quiet in E2. cbn [obind].
  assert (quiet w w2) by (by etrans).
  destruct (negb (r2 =? ANX_OK)) eqn:Er2; [intros [= <- <- <-]; split; [done|]; by intros ->|].
  destruct (_ || _) eqn:Eb; [by intros [= <- <- <-]|]. intros [= <- <- <-]. split; [done|]. split; [done|]. split; [by eexists|]. split; [done|].
  split. { unfold group_current in E1. destruct (cg_revoked (g_view g)); [|done]. injection E1 as <- <-. done. }
  to_prop. split; [done|]. split; [done|]. intros caller ->. apply negb_false_iff, Z.eqb_eq, anx_uuid_compare_eq in Ec. done.
Qed.

(** ** The table *)

Definition live_groups (l : list (option continuation_group)) : list continuation_group := omap id l.

Definition cells_of (g : continuation_group) : list anx_uuid := cg_owner (g_view g) :: members_of (g_view g).

(** The pages a group holds. *)
Definition area_of (g : continuation_group) : list Z := real (g_pages g).

Definition gid (g : continuation_group) : Z := cg_id (g_view g).

Lemma find_group_Some l id i g : find_group l id = Some (i, g) → l !! i = Some (Some g) ∧ gid g = id.
Proof.
  revert i. induction l as [|[x|] l IH]; intros i; cbn; [done| |].
  - destruct (Z.eqb_spec (cg_id (g_view x)) id) as [E|].
    + intros [= <- <-]. done.
    + destruct (find_group l id) as [[j y]|]; [|done]. intros [= <- <-]. by apply IH.
  - destruct (find_group l id) as [[j y]|]; [|done]. intros [= <- <-]. by apply IH.
Qed.

Lemma live_elem l g : g ∈ live_groups l ↔ Some g ∈ l.
Proof. unfold live_groups. rewrite list_elem_of_omap. split; [by intros (x & Hx & [= ->])|by exists (Some g)]. Qed.

Lemma live_at l i o x : l !! i = Some o → live_groups l ≡ₚ option_list o ++ live_groups (<[i := None]> l) ∧
  live_groups (<[i := x]> l) ≡ₚ option_list x ++ live_groups (<[i := None]> l).
Proof.
  intros Hi. rewrite <- (list_insert_id l i o Hi) at 1. revert i Hi. unfold live_groups.
  induction l as [|y l IH]; intros i Hi; [done|]. destruct i as [|i]; cbn in *.
  - injection Hi as ->. destruct o, x; done.
  - destruct (IH i Hi) as [H1 H2]. destruct y as [y|]; cbn; [|done]. rewrite H1, H2. by rewrite <- !Permutation_middle.
Qed.

Lemma find_group_live l id i g : find_group l id = Some (i, g) → g ∈ live_groups l.
Proof. intros [H _]%find_group_Some. apply live_elem. by eapply list_elem_of_lookup_2. Qed.

Lemma find_group_None l id : find_group l id = None → ∀ g, g ∈ live_groups l → gid g ≠ id.
Proof.
  intros Hf g Hg. apply live_elem in Hg. revert Hf. induction l as [|[x|] l IH]; cbn; [by apply not_elem_of_nil in Hg| |].
  - destruct (Z.eqb_spec (cg_id (g_view x)) id) as [|Hne]; [done|]. destruct (find_group l id); [done|]. intros _.
    apply elem_of_cons in Hg as [[= ->]|Hg]; [done|]. by apply IH.
  - destruct (find_group l id); [done|]. intros _. apply elem_of_cons in Hg as [|Hg]; [done|]. by apply IH.
Qed.

(** ** The invariant *)

Record group_ok (g : continuation_group) : Prop := {
  go_count : 1 ≤ cg_count (g_view g) ≤ 4;
  go_members : length (cg_members (g_view g)) = 4%nat;
  go_holder : 0 ≤ cg_holder (g_view g) < cg_count (g_view g);
  go_epoch : 1 ≤ cg_epoch (g_view g) ≤ MAX64;
  go_owner : g_owner g = Some (cg_owner (g_view g));
  go_pointers : firstn (Z.to_nat (cg_count (g_view g))) (g_members g) = Some <$> members_of (g_view g);
  go_area : if cg_revoked (g_view g) then g_pages g = replicate 4 0
            else ∃ area, g_pages g = area ++ replicate (4 - length area) 0 ∧ (length area ≤ 4)%nat ∧ (∀ p, p ∈ area → p ≠ 0) ∧
              cg_memory_bytes (g_view g) = Z.of_nat (length area) * PAGE ∧ cg_physical_pages (g_view g) = Z.of_nat (length area);
}.

(** The lease of a group: a root registered under the group's lease id, fully used
    while the group is not revoked. *)
Definition lease_held (ls : lease_state) (g : continuation_group) : Prop :=
  ∃ p l, g_lease g = Some p ∧ registered ls p = Some l ∧ engine_id l = cg_lease_id (g_view g) ∧ l_parent l = None ∧
    if cg_revoked (g_view g) then mem_used_bytes l = 0 else revoked l = false ∧ mem_used_bytes l = cg_memory_bytes (g_view g).

Definition frame_held (fr : gmap Z (list Z)) (ps : Page.pstate) (p : Z) : Prop :=
  page_held ps p ∧ ∃ f, fr !! p = Some f ∧ length f = Z.to_nat PAGE.

Record tinv (seq : Z) (fr : gmap Z (list Z)) (ps : Page.pstate) (ls : lease_state) (L : list continuation_group) : Prop := {
  ti_seq : 0 ≤ seq ≤ MAX64;
  ti_pages : Page.page_inv ps ∧ 0 < Page.heap_base ps;
  ti_leases : lease_inv ls;
  ti_ids : NoDup (gid <$> L);
  ti_cells : NoDup (L ≫= cells_of);
  ti_area : NoDup (L ≫= area_of);
  ti_lease : NoDup (g_lease <$> L);
  ti_each : ∀ g, g ∈ L → 1 ≤ gid g ≤ seq ∧ group_ok g ∧ lease_held ls g ∧ ∀ p, p ∈ area_of g → frame_held fr ps p;
}.

#[export] Instance tinv_perm seq fr ps ls : Proper ((≡ₚ) ==> iff) (tinv seq fr ps ls).
Proof.
  assert (∀ L L', L ≡ₚ L' → tinv seq fr ps ls L → tinv seq fr ps ls L') as H.
  { intros L L' HP [? ? ? ? ? ? ? He]. split; try done; try by rewrite <- HP. intros g Hg. apply He. by rewrite HP. }
  intros L L' HP. split; apply H; [done|by symmetry].
Qed.

(** What a group adds to a table. *)
Record joins (seq : Z) (fr : gmap Z (list Z)) (ps : Page.pstate) (ls : lease_state) (g : continuation_group) (L : list continuation_group) : Prop := {
  jo_id : gid g ∉ gid <$> L;
  jo_cells : NoDup (cells_of g) ∧ ∀ c, c ∈ cells_of g → c ∉ (L ≫= cells_of);
  jo_area : NoDup (area_of g) ∧ ∀ p, p ∈ area_of g → p ∉ (L ≫= area_of);
  jo_lease : g_lease g ∉ g_lease <$> L;
  jo_each : 1 ≤ gid g ≤ seq ∧ group_ok g ∧ lease_held ls g ∧ ∀ p, p ∈ area_of g → frame_held fr ps p;
}.

Lemma tinv_cons seq fr ps ls g L : tinv seq fr ps ls (g :: L) ↔ tinv seq fr ps ls L ∧ joins seq fr ps ls g L.
Proof.
  split.
  - intros [H1 H2 H3 H4 H5 H6 H7 H8]. apply NoDup_cons in H4 as [H4a H4]. apply NoDup_cons in H7 as [H7a H7].
    change ((g :: L) ≫= cells_of) with (cells_of g ++ (L ≫= cells_of)) in H5. apply NoDup_app in H5 as (C1 & C2 & C3).
    change ((g :: L) ≫= area_of) with (area_of g ++ (L ≫= area_of)) in H6. apply NoDup_app in H6 as (A1 & A2 & A3).
    split; split; try done; [|apply H8; by left]. intros x Hx. apply H8. by right.
  - intros [[H1 H2 H3 H4 H5 H6 H7 H8] [J1 [J2 J3] [J4 J5] J6 J7]]. split; try done.
    + by constructor.
    + change ((g :: L) ≫= cells_of) with (cells_of g ++ (L ≫= cells_of)). by apply NoDup_app.
    + change ((g :: L) ≫= area_of) with (area_of g ++ (L ≫= area_of)). by apply NoDup_app.
    + by constructor.
    + intros x [->|Hx]%elem_of_cons; [done|by apply H8].
Qed.

(** What the rest of the kernel may do to pages, frames and leases. *)
Lemma tinv_env seq fr ps ls seq' fr' ps' ls' L : tinv seq fr ps ls L →
  seq ≤ seq' ≤ MAX64 → Page.page_inv ps' → 0 < Page.heap_base ps' → lease_inv ls' →
  (∀ p, p ∈ (L ≫= area_of) → frame_held fr ps p → frame_held fr' ps' p) →
  (∀ g, g ∈ L → lease_held ls g → lease_held ls' g) → tinv seq' fr' ps' ls' L.
Proof.
  intros [H1 H2 H3 H4 H5 H6 H7 H8] Hs Hp Hb Hl Hpg Hls. split; try done; [lia|]. intros g Hg.
  destruct (H8 g Hg) as ((? & ?) & ? & ? & Hf). split; [lia|]. split; [done|]. split; [by apply Hls|].
  intros p Hpp. apply Hpg; [|by apply Hf]. apply list_elem_of_bind. by exists g.
Qed.

Definition winv (w : cworld) : Prop :=
  length (groups w) = ANX_CONTINUATION_GROUP_MAX ∧
  tinv (cg_sequence w) (frames w) (w_pages w) (w_leases w) (live_groups (groups w)).

Lemma winv_quiet w w' : quiet w w' → winv w → winv w'.
Proof. intros [E1 E2 E3 E4 E5]. unfold winv. by rewrite E1, E2, E3, E4, E5. Qed.

(** Opening the table at a slot in use. *)
Lemma winv_at w i g x : winv w → groups w !! i = Some (Some g) → ∃ L,
  tinv (cg_sequence w) (frames w) (w_pages w) (w_leases w) L ∧
  joins (cg_sequence w) (frames w) (w_pages w) (w_leases w) g L ∧
  live_groups (groups w) ≡ₚ g :: L ∧ live_groups (<[i := x]> (groups w)) ≡ₚ option_list x ++ L.
Proof.
  intros [_ Ht] Hi. destruct (live_at _ _ _ x Hi) as [H1 H2]. exists (live_groups (<[i := None]> (groups w))).
  rewrite H1 in Ht. cbn in Ht. apply tinv_cons in Ht as [Ht Hj]. done.
Qed.

(** ** How a group changes *)

(** A group that changed has a later epoch and was not revoked before; what it was
    created with stays. *)
Record advanced (g g' : continuation_group) : Prop := {
  ad_id : gid g' = gid g;
  ad_cells : cells_of g' = cells_of g;
  ad_lease : g_lease g' = g_lease g;
  ad_bytes : cg_memory_bytes (g_view g') = cg_memory_bytes (g_view g);
  ad_epoch : cg_epoch (g_view g) < cg_epoch (g_view g');
  ad_live : cg_revoked (g_view g) = false;
}.

Definition gevolves (g g' : continuation_group) : Prop := g' = g ∨ advanced g g'.

#[export] Instance gevolves_preorder : PreOrder gevolves.
Proof.
  split; [by left|]. intros x y z [->|[]] [->|[]]; [by left|by right..|]. right. split; [congruence..|lia|done].
Qed.

(** Every group of the later table comes from one of the earlier, or is new. *)
Definition tevolves (w w' : cworld) : Prop :=
  cg_sequence w ≤ cg_sequence w' ∧
  ∀ g', g' ∈ live_groups (groups w') → (∃ g, g ∈ live_groups (groups w) ∧ gevolves g g') ∨ cg_sequence w < gid g'.

#[export] Instance tevolves_preorder : PreOrder tevolves.
Proof.
  split; [intros w; split; [lia|]; intros g Hg; left; by exists g|].
  intros x y z [S1 H1] [S2 H2]. split; [lia|]. intros g3 [(g2 & Hg2 & E2)|?]%H2; [|right; lia].
  destruct (H1 g2 Hg2) as [(g1 & Hg1 & E1)|Hn].
  - left. exists g1. split; [done|]. by etrans.
  - right. destruct E2 as [->|[]]; lia.
Qed.

Definition step_ok (w w' : cworld) : Prop := winv w' ∧ tevolves w w'.

Abbreviation tinv_of w := (tinv (cg_sequence w) (frames w) (w_pages w) (w_leases w)).
Abbreviation joins_of w := (joins (cg_sequence w) (frames w) (w_pages w) (w_leases w)).

Lemma quiet_ok w w' : winv w → quiet w w' → step_ok w w'.
Proof.
  intros Hi Hq. split; [by eapply winv_quiet|]. split; [by rewrite (qu_sequence _ _ Hq)|].
  intros g Hg. rewrite (qu_groups _ _ Hq) in Hg. left. by exists g.
Qed.

Lemma replace_ok w w' i g g' : winv w → groups w !! i = Some (Some g) → groups w' = <[i := Some g']> (groups w) →
  cg_sequence w' = cg_sequence w → gevolves g g' →
  (∀ L, tinv_of w L → joins_of w g L → tinv_of w' L ∧ joins_of w' g' L) → step_ok w w'.
Proof.
  intros Hi Hg HE Hs He Hj. destruct (winv_at w i g (Some g') Hi Hg) as (L & Ht & Hjg & HL & HL').
  destruct (Hj L Ht Hjg) as [Ht' Hj']. split; [split|split].
  - rewrite HE, length_insert. apply Hi.
  - rewrite HE, HL'. cbn. by apply tinv_cons.
  - lia.
  - intros x. rewrite HE, HL'. cbn. intros [->|Hx]%elem_of_cons; left; [exists g|exists x]; rewrite HL; split; try done; [by left|by right].
Qed.

Lemma remove_ok w w' i g : winv w → groups w !! i = Some (Some g) → groups w' = <[i := None]> (groups w) →
  cg_sequence w' = cg_sequence w → (∀ L, tinv_of w L → joins_of w g L → tinv_of w' L) → step_ok w w'.
Proof.
  intros Hi Hg HE Hs Hj. destruct (winv_at w i g None Hi Hg) as (L & Ht & Hjg & HL & HL').
  split; [split|split].
  - rewrite HE, length_insert. apply Hi.
  - rewrite HE, HL'. by apply Hj.
  - lia.
  - intros x. rewrite HE, HL'. cbn. intros Hx. left. exists x. rewrite HL. split; [by right|done].
Qed.

Lemma add_ok w w' i g : winv w → groups w !! i = Some None → groups w' = <[i := Some g]> (groups w) →
  cg_sequence w < gid g → cg_sequence w ≤ cg_sequence w' →
  (tinv_of w (live_groups (groups w)) → tinv_of w' (live_groups (groups w)) ∧ joins_of w' g (live_groups (groups w))) → step_ok w w'.
Proof.
  intros Hi Hg HE Hid Hs Hj. destruct (live_at _ _ _ (Some g) Hg) as [H1 H2]. cbn in H1. destruct (Hj (proj2 Hi)) as [Ht' Hj'].
  split; [split|split].
  - rewrite HE, length_insert. apply Hi.
  - rewrite HE, H2, <- H1. cbn. by apply tinv_cons.
  - done.
  - intros x. rewrite HE, H2, <- H1. cbn. intros [->|Hx]%elem_of_cons; [by right|]. left. by exists x.
Qed.

(** ** Handing over, reading and writing *)

Lemma index_of_lt l c i : index_of l c = Some i → l !! i = Some c.
Proof.
  revert i. induction l as [|x l IH]; intros i; cbn; [done|]. destruct (anx_uuid_compare c x =? 0) eqn:E.
  - intros [= <-]. apply Z.eqb_eq, anx_uuid_compare_eq in E as ->. done.
  - destruct (index_of l c) as [j|]; [|done]. intros [= <-]. by apply IH.
Qed.

Lemma member_index_lt g c i : group_ok g → member_index g c = Some i → members_of (g_view g) !! i = Some c ∧ 0 ≤ Z.of_nat i < cg_count (g_view g).
Proof.
  intros Hg Hm%index_of_lt. split; [done|]. apply lookup_lt_Some in Hm. unfold members_of in Hm. rewrite length_take in Hm.
  destruct Hg. lia.
Qed.

Lemma joins_like seq fr ps ls g g' L : joins seq fr ps ls g L → gid g' = gid g → cells_of g' = cells_of g → area_of g' = area_of g →
  g_lease g' = g_lease g → group_ok g' → lease_held ls g' → joins seq fr ps ls g' L.
Proof.
  intros [J1 J2 J3 J4 (J5 & _ & _ & J6)] E1 E2 E3 E4 Hok Hl. split; rewrite ?E1, ?E2, ?E3, ?E4; done.
Qed.

Lemma handoff_ok fuel current now id epoch t out w r v w' : winv w →
  anx_continuation_group_handoff fuel current now id epoch t out w = Ret (r, v, w') → step_ok w w'.
Proof.
  intros Hi. unfold anx_continuation_group_handoff. assert (step_ok w w) as Hsame by (by apply quiet_ok).
  destruct (bool_decide _); [by intros [= _ _ <-]|]. destruct t as [t|]; [|by intros [= _ _ <-]].
  destruct (_ || _); [by intros [= _ _ <-]|]. destruct (find_group (groups w) id) as [[i g]|] eqn:Ef; [|by intros [= _ _ <-]].
  destruct (handoff_check _ _ _ _ _ _) as [[[r1 m] w1]| |] eqn:Eh; [|done..]. cbn [obind].
  apply handoff_check_quiet in Eh as [Hq Hok]. destruct (Z.eqb_spec r1 ANX_OK) as [E1|]; cbn [negb]; [|intros [= _ _ <-]; by apply quiet_ok].
  destruct (Hok E1) as (He & Hmax & Hrev & Hm & _). destruct (find_group_Some _ _ _ _ Ef) as [Hslot _].
  set (g' := g <| g_view ::= λ v, v <| cg_holder := Z.of_nat m |> <| cg_epoch ::= λ e, u64 (e + 1) |> |>).
  intros [= _ _ <-]. eapply (replace_ok w _ i g g'); [done|done|cbn; by rewrite (qu_groups _ _ Hq)|apply Hq| |].
  - right. assert (0 ≤ cg_epoch (g_view g) < MAX64).
    { destruct (winv_at w i g None Hi Hslot) as (L & _ & [_ _ _ _ (_ & [] & _)] & _). lia. }
    split; try done. cbn. rewrite u64_small by (unfold is_u64, MAX64 in *; lia). lia.
  - intros L Ht Hj. cbn. rewrite (qu_sequence _ _ Hq), (qu_frames _ _ Hq), (qu_pages _ _ Hq), (qu_leases _ _ Hq). split; [done|].
    destruct (jo_each _ _ _ _ _ _ Hj) as (_ & Hgo & Hl & _). apply (joins_like _ _ _ _ g); try done.
    destruct (member_index_lt _ _ _ Hgo Hm) as [_ Hlt]. destruct Hgo. split; try done; cbn.
    rewrite u64_small by (unfold is_u64, MAX64 in *; lia). unfold MAX64 in *. lia.
Qed.

(** ** The scratch area as one flat memory *)

Definition flat (area : list Z) (fr : gmap Z (list Z)) : list Z := concat (map (λ p, default [] (fr !! p)) area).

Definition framed (fr : gmap Z (list Z)) (area : list Z) : Prop := ∀ p, p ∈ area → ∃ f, fr !! p = Some f ∧ length f = Z.to_nat PAGE.

Lemma flat_app l1 l2 fr : flat (l1 ++ l2) fr = flat l1 fr ++ flat l2 fr.
Proof. unfold flat. by rewrite map_app, concat_app. Qed.

Lemma flat_cons p l fr f : fr !! p = Some f → flat (p :: l) fr = f ++ flat l fr.
Proof. unfold flat. cbn. by intros ->. Qed.

Lemma flat_length area fr : framed fr area → length (flat area fr) = (length area * Z.to_nat PAGE)%nat.
Proof.
  induction area as [|p l IH]; intros Hf; [done|]. destruct (Hf p) as (f & Hp & Hl); [by left|].
  rewrite (flat_cons p l fr f Hp), length_app, Hl, IH by (intros q Hq; apply Hf; by right). cbn. lia.
Qed.

Lemma flat_ext area fr fr' : (∀ p, p ∈ area → fr' !! p = fr !! p) → flat area fr' = flat area fr.
Proof.
  intros HE. unfold flat. f_equal. apply map_ext_in. intros p Hp. rewrite HE; [done|]. by apply list_elem_of_In.
Qed.

Lemma chunk_read (A f B : list Z) a n : (a + n ≤ length f)%nat → take n (drop (length A + a) (A ++ f ++ B)) = take n (drop a f).
Proof.
  intros Hl. rewrite <- drop_drop, drop_app_length, drop_app_le by lia. apply take_app_le. rewrite length_drop. lia.
Qed.

Lemma chunk_write (A f B x : list Z) a : (a + length x ≤ length f)%nat →
  splice (length A + a) x (A ++ f ++ B) = A ++ splice a x f ++ B.
Proof.
  intros Hl. unfold splice. rewrite take_app_add, take_app_le by lia. rewrite <- Nat.add_assoc, <- drop_drop, drop_app_length, drop_app_le by lia.
  by rewrite <- !app_assoc.
Qed.

Lemma splice_splice pos (x y l : list Z) : (pos + length x + length y ≤ length l)%nat →
  splice (pos + length x) y (splice pos x l) = splice pos (x ++ y) l.
Proof.
  intros Hl. assert (splice pos x l = (take pos l ++ x) ++ drop (pos + length x) l) as -> by (unfold splice; by rewrite app_assoc).
  assert (length (take pos l ++ x) = (pos + length x)%nat) as Ht by (rewrite length_app, length_take; lia).
  unfold splice. rewrite <- Ht at 1. rewrite take_app_length. rewrite <- Ht at 1. rewrite <- drop_drop, drop_app_length, drop_drop, length_app.
  by rewrite <- !app_assoc, Nat.add_assoc.
Qed.

Lemma splice_nil pos l : splice pos [] l = l.
Proof. unfold splice. cbn. rewrite Nat.add_0_r. apply take_drop. Qed.

(** One iteration: the page, and what the area looks like around it. *)
Lemma copy_page area pages fr offset size : framed fr area → pages = area ++ replicate (4 - length area) 0 →
  0 ≤ offset → 0 < size → offset + size ≤ Z.of_nat (length area) * PAGE →
  let a := Z.to_nat (offset mod PAGE) in let n := Z.to_nat (Z.min (PAGE - offset mod PAGE) size) in
  ∃ l1 p l2 f, area = l1 ++ p :: l2 ∧ rd 0 pages (offset / PAGE) = p ∧ fr !! p = Some f ∧ length f = Z.to_nat PAGE ∧
    (0 < n)%nat ∧ Z.of_nat n ≤ size ∧ (a + n ≤ length f)%nat ∧ Z.to_nat offset = (length (flat l1 fr) + a)%nat.
Proof.
  intros Hf -> Ho Hs Hle a n. unfold PAGE, Page.ANX_PAGE_SIZE in *.
  pose proof (Z.div_mod offset 4096 ltac:(lia)) as Hdm. pose proof (Z.mod_pos_bound offset 4096 ltac:(lia)) as Hmod.
  assert (0 ≤ offset / 4096 < Z.of_nat (length area)) as Hk by lia.
  destruct (lookup_lt_is_Some_2 area (Z.to_nat (offset / 4096))) as [p Hp]; [lia|].
  destruct (Hf p) as (f & Hfp & Hl); [by eapply list_elem_of_lookup_2|].
  exists (take (Z.to_nat (offset / 4096)) area), p, (drop (S (Z.to_nat (offset / 4096))) area), f.
  split; [by rewrite take_drop_middle|]. split; [unfold rd; rewrite nth_lookup, lookup_app_l, Hp by lia; done|].
  split; [done|]. split; [done|]. split; [lia|]. split; [lia|].
  split; [rewrite Hl; unfold a, n, PAGE, Page.ANX_PAGE_SIZE; lia|].
  rewrite flat_length; [|intros q (i & Hq & _)%elem_of_take; apply Hf; by eapply list_elem_of_lookup_2].
  rewrite length_take, Nat.min_l by lia. unfold PAGE, Page.ANX_PAGE_SIZE. apply Nat2Z.inj.
  rewrite Nat2Z.inj_add, Nat2Z.inj_mul, !Z2Nat.id by lia. lia.
Qed.

Lemma flat_split l1 p l2 fr f : fr !! p = Some f → flat (l1 ++ p :: l2) fr = flat l1 fr ++ f ++ flat l2 fr.
Proof. intros Hp. by rewrite flat_app, (flat_cons p l2 fr f). Qed.

Lemma copy_read area pages fr n buffer pos offset size : framed fr area → pages = area ++ replicate (4 - length area) 0 →
  size ≤ Z.of_nat n → 0 ≤ offset → 0 ≤ size → offset + size ≤ Z.of_nat (length area) * PAGE → Z.of_nat pos + size ≤ Z.of_nat (length buffer) →
  copy_loop n pages false buffer pos offset size fr =
    Ret (splice pos (take (Z.to_nat size) (drop (Z.to_nat offset) (flat area fr))) buffer, fr).
Proof.
  intros Hf Hpg. revert buffer pos offset size. induction n as [|n IH]; intros buffer pos offset size Hn Ho Hs Hle Hb; cbn [copy_loop].
  { replace size with 0 by lia. cbn. by rewrite splice_nil. }
  destruct (Z.eqb_spec size 0) as [->|Hnz]; [cbn; by rewrite splice_nil|].
  destruct (copy_page area pages fr offset size Hf Hpg Ho ltac:(lia) Hle) as (l1 & p & l2 & f & -> & -> & Hp & Hl & Hn0 & Hns & Han & Hoff).
  rewrite Hp. set (len := Z.min (PAGE - offset mod PAGE) size) in *. set (x := take (Z.to_nat len) (drop _ f)).
  assert (length x = Z.to_nat len) as Hx by (unfold x; rewrite length_take, length_drop; lia).
  rewrite IH; [|lia..|rewrite splice_length; lia]. do 2 f_equal. rewrite <- Hx at 1. rewrite splice_splice.
  - f_equal. rewrite (flat_split l1 p l2 fr f Hp). replace (Z.to_nat size) with (Z.to_nat len + Z.to_nat (size - len))%nat by lia.
    rewrite <- take_take_drop. unfold x. rewrite Hoff, <- (chunk_read (flat l1 fr) f (flat l2 fr)) by lia. f_equal.
    rewrite drop_drop. do 2 f_equal. lia.
  - rewrite Hx, length_take, length_drop. lia.
Qed.

Lemma flat_write l1 p l2 fr f a x : NoDup (l1 ++ p :: l2) → fr !! p = Some f → (a + length x ≤ length f)%nat →
  flat (l1 ++ p :: l2) (<[p := splice a x f]> fr) = splice (length (flat l1 fr) + a) x (flat (l1 ++ p :: l2) fr).
Proof.
  intros (_ & H1 & [Hp2 _]%NoDup_cons)%NoDup_app Hp Hl. rewrite (flat_split l1 p l2 _ (splice a x f)) by apply lookup_insert_eq.
  rewrite (flat_split l1 p l2 fr f Hp), chunk_write by done.
  rewrite !(flat_ext _ fr (<[p := _]> fr)); [done|intros q Hq; apply lookup_insert_ne; by intros ->|].
  intros q Hq. apply lookup_insert_ne. intros ->. by apply (H1 q Hq); left.
Qed.

Lemma copy_write area pages n buffer pos offset size fr : NoDup area → pages = area ++ replicate (4 - length area) 0 →
  framed fr area → size ≤ Z.of_nat n → 0 ≤ offset → 0 ≤ size → offset + size ≤ Z.of_nat (length area) * PAGE →
  Z.of_nat pos + size ≤ Z.of_nat (length buffer) →
  ∃ fr', copy_loop n pages true buffer pos offset size fr = Ret (buffer, fr') ∧ framed fr' area ∧ (∀ p, p ∉ area → fr' !! p = fr !! p) ∧
    flat area fr' = splice (Z.to_nat offset) (take (Z.to_nat size) (drop pos buffer)) (flat area fr).
Proof.
  intros Hnd Hpg. revert pos offset size fr. induction n as [|n IH]; intros pos offset size fr Hf Hn Ho Hs Hle Hb; cbn [copy_loop].
  { replace size with 0 by lia. cbn. exists fr. by rewrite splice_nil. }
  destruct (Z.eqb_spec size 0) as [->|Hnz]; [exists fr; cbn; by rewrite splice_nil|].
  destruct (copy_page area pages fr offset size Hf Hpg Ho ltac:(lia) Hle) as (l1 & p & l2 & f & Ea & -> & Hp & Hl & Hn0 & Hns & Han & Hoff).
  rewrite Hp. set (len := Z.min (PAGE - offset mod PAGE) size) in *. set (x := take (Z.to_nat len) (drop pos buffer)).
  assert (length x = Z.to_nat len) as Hx by (unfold x; rewrite length_take, length_drop; lia).
  set (f' := splice _ x f). assert (length f' = Z.to_nat PAGE) as Hl' by (unfold f'; rewrite splice_length; lia).
  destruct (IH (pos + Z.to_nat len)%nat (offset + len) (size - len) (<[p := f']> fr)) as (fr' & E & Hf' & Hout & Hfl); [|lia..|].
  { intros q Hq. destruct (decide (q = p)) as [->|]; [exists f'; by rewrite lookup_insert_eq|]. rewrite lookup_insert_ne by done. by apply Hf. }
  exists fr'. split; [exact E|]. split; [done|]. split.
  - intros q Hq. rewrite Hout by done. apply lookup_insert_ne. intros ->. apply Hq. rewrite Ea. apply elem_of_app. right. by left.
  - rewrite Hfl, Ea. unfold f'. rewrite flat_write, <- Hoff by (rewrite ?Hx; done || lia || congruence). rewrite <- Ea.
    replace (Z.to_nat (offset + len)) with (Z.to_nat offset + length x)%nat by lia. rewrite splice_splice.
    + f_equal. replace (Z.to_nat size) with (Z.to_nat len + Z.to_nat (size - len))%nat by lia.
      rewrite <- take_take_drop. unfold x. by rewrite drop_drop.
    + rewrite Hx, length_take, length_drop, flat_length by done. unfold PAGE, Page.ANX_PAGE_SIZE in *. lia.
Qed.

Lemma real_area area n : (∀ p, p ∈ area → p ≠ 0) → real (area ++ replicate n 0) = area.
Proof.
  intros Hz. unfold real. rewrite filter_app. assert (filter (λ p, p ≠ 0) (replicate n 0) = []) as -> by (by induction n).
  rewrite app_nil_r. induction area as [|p l IH]; [done|]. rewrite filter_cons, decide_True by (apply Hz; by left).
  rewrite IH; [done|]. intros q Hq. apply Hz. by right.
Qed.

Lemma area_spec g : group_ok g → cg_revoked (g_view g) = false →
  g_pages g = area_of g ++ replicate (4 - length (area_of g)) 0 ∧ cg_memory_bytes (g_view g) = Z.of_nat (length (area_of g)) * PAGE.
Proof.
  intros Hg Hr. pose proof (go_area g Hg) as Ha. rewrite Hr in Ha. destruct Ha as (area & Hp & _ & Hz & Hb & _).
  assert (area_of g = area) as -> by (unfold area_of; rewrite Hp; by apply real_area). done.
Qed.

Lemma winv_group w g : winv w → g ∈ live_groups (groups w) →
  group_ok g ∧ NoDup (area_of g) ∧ framed (frames w) (area_of g) ∧ 1 ≤ gid g ≤ cg_sequence w.
Proof.
  intros [_ [_ _ _ _ _ Ha _ He]] Hg. destruct (He g Hg) as (Hid & Hok & _ & Hf). split; [done|].
  split; [|split; [|done]].
  - apply list_elem_of_split in Hg as (l1 & l2 & HL). rewrite HL, bind_app in Ha.
    change ((g :: l2) ≫= area_of) with (area_of g ++ (l2 ≫= area_of)) in Ha.
    apply NoDup_app in Ha as (_ & _ & Ha). by apply NoDup_app in Ha as [Ha _].
  - intros p Hp. apply (Hf p Hp).
Qed.

(** The scratch area of a group. *)
Definition scratch (w : cworld) (g : continuation_group) : list Z := flat (area_of g) (frames w).

Lemma areas_disjoint w g1 g2 p : winv w → g1 ∈ live_groups (groups w) → g2 ∈ live_groups (groups w) →
  p ∈ area_of g1 → p ∈ area_of g2 → g1 = g2.
Proof.
  intros [_ [_ _ _ Hn _ Ha _ _]] H1 H2 P1 P2. destruct (decide (gid g1 = gid g2)) as [E|E].
  - apply list_elem_of_lookup_1 in H1 as [i Hi]. apply list_elem_of_lookup_1 in H2 as [j Hj].
    assert (i = j) as ->; [|congruence]. eapply (NoDup_lookup _ _ _ (gid g1) Hn); rewrite list_lookup_fmap, ?Hi, ?Hj; cbn; congruence.
  - exfalso. apply list_elem_of_split in H1 as (l1 & l2 & HL). rewrite HL in *. rewrite bind_app in Ha.
    change ((g1 :: l2) ≫= area_of) with (area_of g1 ++ (l2 ≫= area_of)) in Ha.
    apply NoDup_app in Ha as (_ & Ha & (_ & Hb & _)%NoDup_app).
    apply elem_of_app in H2 as [H2|[->|H2]%elem_of_cons]; [|done|].
    + apply (Ha p); [|apply elem_of_app; by left]. apply list_elem_of_bind. by exists g2.
    + apply (Hb p); [done|]. apply list_elem_of_bind. by exists g2.
Qed.

(** What an accepted access does. *)
Lemma access_spec fuel current now id epoch offset buffer size write w g w1 :
  winv w → 0 ≤ offset → 0 < size → size ≤ Z.of_nat (length buffer) → id ≠ 0 → epoch ≠ 0 →
  access_check fuel current now id epoch offset size w = Ret (ANX_OK, Some g, w1) →
  ∃ fr', memory_access fuel current now id epoch offset (Some buffer) size write w =
    Ret (ANX_OK, Some (if write then buffer else splice 0 (take (Z.to_nat size) (drop (Z.to_nat offset) (scratch w g))) buffer),
         w1 <| frames := fr' |>) ∧
    quiet w w1 ∧ g ∈ live_groups (groups w) ∧ framed fr' (area_of g) ∧ (∀ p, p ∉ area_of g → fr' !! p = frames w !! p) ∧
    flat (area_of g) fr' = if write then splice (Z.to_nat offset) (take (Z.to_nat size) buffer) (scratch w g) else scratch w g.
Proof.
  intros Hi Ho Hs Hb Hid Hep Hc. unfold memory_access. rewrite (proj2 (Z.eqb_neq id 0)), (proj2 (Z.eqb_neq epoch 0)), (proj2 (Z.eqb_neq size 0)) by lia.
  cbn [orb]. rewrite Hc. cbn [obind]. destruct (access_check_quiet _ _ _ _ _ _ _ _ _ _ _ Hc) as (Hq & _ & (i & Hf) & _ & Hr & Hb1 & Hb2 & _).
  apply find_group_live in Hf as Hg. destruct (winv_group w g Hi Hg) as (Hok & Hnd & Hfr & _). destruct (area_spec g Hok Hr) as [Hp Hm].
  rewrite (qu_frames _ _ Hq). destruct write.
  - destruct (copy_write (area_of g) (g_pages g) (Z.to_nat size) buffer 0 offset size (frames w)) as (fr' & E & H1 & H2 & H3); [done..|lia|lia|lia|lia|lia|].
    exists fr'. rewrite E. cbn [obind]. split; [done|]. split; [done|]. split; [done|]. split; [done|]. split; [done|]. rewrite H3. done.
  - exists (frames w). rewrite (copy_read (area_of g) (g_pages g) (frames w)); [|done|done|lia|lia|lia|lia|lia]. cbn [obind]. done.
Qed.

Lemma access_step_ok fuel current now id epoch offset buffer size write w r b w' :
  winv w → 0 ≤ offset → 0 ≤ size → size ≤ Z.of_nat (length buffer) →
  memory_access fuel current now id epoch offset (Some buffer) size write w = Ret (r, b, w') → step_ok w w'.
Proof.
  intros Hi Ho Hs Hb He. assert (step_ok w w) as Hsame by (by apply quiet_ok). pose proof He as He'. unfold memory_access in He.
  destruct (_ || _) eqn:Eg; [by injection He as _ _ <-|].
  destruct (access_check _ _ _ _ _ _ _ _) as [[[r1 gp] w1]| |] eqn:Ec; [|done..]. cbn [obind] in He.
  destruct gp as [g|]; [|injection He as _ _ <-; apply quiet_ok; [done|]; by apply access_check_quiet in Ec as [? _]].
  apply orb_false_iff in Eg as [[E1 E2]%orb_false_iff E3]. to_prop.
  assert (r1 = ANX_OK) as -> by (by apply access_check_quiet in Ec as (_ & ? & _)).
  destruct (access_spec fuel current now id epoch offset buffer size write w g w1) as (fr' & E & Hq & Hg & Hf & Hout & _); [done|done|lia|done..|].
  rewrite E in He'. injection He' as _ _ <-. destruct (winv_group w g Hi Hg) as (_ & _ & _ & _).
  split; [|split].
  - destruct Hi as [Hl Ht]. split; cbn; [by rewrite (qu_groups _ _ Hq)|]. rewrite (qu_groups _ _ Hq), (qu_sequence _ _ Hq), (qu_pages _ _ Hq), (qu_leases _ _ Hq).
    destruct (ti_pages _ _ _ _ _ Ht). pose proof (ti_seq _ _ _ _ _ Ht).
    apply (tinv_env _ _ _ _ _ _ _ _ _ Ht); [lia|done|done|apply Ht| |done].
    intros p _ [Hp1 Hp2]. split; [done|]. destruct (decide (p ∈ area_of g)) as [Hp|Hp]; [by apply Hf|]. by rewrite Hout.
  - cbn. by rewrite (qu_sequence _ _ Hq).
  - cbn. rewrite (qu_groups _ _ Hq). intros x Hx. left. by exists x.
Qed.

(** ** Leases *)

Lemma lease_at_fmap (h : anx_engine_lease → anx_engine_lease) l q : (∀ x, l_addr (h x) = l_addr x) →
  lease_at (h <$> l) q = h <$> lease_at l q.
Proof. intros Hh. induction l as [|x l IH]; cbn; [done|]. rewrite Hh. by destruct (l_addr x =? q). Qed.

Lemma registered_update s p f q : (∀ x, l_addr (f x) = l_addr x) →
  registered (update_lease p f s) q = (λ x, if l_addr x =? p then f x else x) <$> registered s q.
Proof. intros Hf. unfold registered, update_lease. cbn. apply lease_at_fmap. intros x. by destruct (l_addr x =? p). Qed.

Lemma registered_revoke s p q : registered (revoke_state s p) q = revoke_lease s p <$> registered s q.
Proof. unfold registered, revoke_state. cbn. apply lease_at_fmap. intros x. unfold revoke_lease. by destruct (in_subtree s x p). Qed.

Lemma registered_filter s p q : q ≠ p → registered (s <| lease_list ::= filter (λ l, l_addr l ≠ p) |>) q = registered s q.
Proof.
  intros Hne. unfold registered. cbn. induction (lease_list s) as [|x l IH]; [done|]. rewrite filter_cons. cbn [lease_at].
  destruct (decide (l_addr x ≠ p)) as [Hx|Hx]; cbn [lease_at]; [by rewrite IH|]. rewrite IH. destruct (Z.eqb_spec (l_addr x) q); [|done]. exfalso. apply Hx. lia.
Qed.

Lemma subtree_root s c p : l_parent c = None → l_addr c ≠ p → in_subtree s c p = false.
Proof. intros Hp Hne. unfold in_subtree. cbn [in_subtree_walk]. rewrite (proj2 (Z.eqb_neq _ _) Hne), Hp. done. Qed.

(** The use set to 0 and back. *)
Lemma use_back s p l : lease_inv s → registered s p = Some l →
  update_lease p (λ x, x <| mem_used_bytes := mem_used_bytes l |>) (update_lease p (λ x, x <| mem_used_bytes := 0 |>) s) = s.
Proof.
  intros Hi Hl. destruct (lease_at_Some _ _ _ Hl) as [Hin Ha]. unfold update_lease. destruct s as [a b ls c]. cbn in *. f_equal.
  rewrite <- list_fmap_compose. etrans; [|apply (list_fmap_id ls)]. apply list_fmap_ext. intros i x Hx. cbn.
  destruct (Z.eqb_spec (l_addr x) p) as [E|E]; cbn; [|by rewrite (proj2 (Z.eqb_neq _ _) E)]. rewrite (proj2 (Z.eqb_eq _ _) E).
  assert (x = l) as ->. { apply (lease_inj ls); [apply (li_uniq _ Hi)|by eapply list_elem_of_lookup_2|done|congruence]. } by destruct l.
Qed.

Lemma use_inv s p l used : lease_inv s → registered s p = Some l → 0 ≤ used ≤ mem_used_bytes l →
  lease_inv (update_lease p (λ x, x <| mem_used_bytes := used |>) s).
Proof.
  intros Hi Hl Hu. destruct (lease_at_Some _ _ _ Hl) as [Hin Ha]. destruct (li_children _ Hi l Hin) as [Hc _].
  eapply lease_step_inv; [done|]. apply (step_use s p l used Hl); [lia|]. rewrite Ha in Hc. lia.
Qed.

(** Giving up a lease: it fails and changes nothing, or the lease is released
    of all use; the leases of other groups are as before. *)
Lemma drop_lease_spec (rel : bool) w g : let f := if rel then anx_lease_release else anx_lease_revoke in
  lease_inv (w_leases w) → lease_held (w_leases w) g →
  ∃ r s, drop_lease f (g_lease g) w = Ret (r, w <| w_leases := s |>) ∧ lease_inv s ∧ (r ≠ ANX_OK → s = w_leases w) ∧
    (∀ g', lease_held (w_leases w) g' → g_lease g' ≠ g_lease g → lease_held s g') ∧
    (r = ANX_OK → rel = false → ∃ p l, g_lease g = Some p ∧ registered s p = Some l ∧ engine_id l = cg_lease_id (g_view g) ∧
       l_parent l = None ∧ mem_used_bytes l = 0) ∧
    (r = ANX_OK → rel = true → ∀ p, g_lease g = Some p → registered s p = None).
Proof.
  intros f Hi (p & l & Hp & Hl & He & Hroot & _). unfold drop_lease. rewrite Hp. cbn [mbind option_bind set_used]. rewrite Hl.
  set (s1 := update_lease p (λ x, x <| mem_used_bytes := 0 |>) (w_leases w)).
  destruct (lease_at_Some _ _ _ Hl) as [Hin Ha]. pose proof (lo_used l (li_ok _ Hi l Hin)) as Hu.
  assert (lease_inv s1) as Hi1 by (apply (use_inv _ _ l); [done|done|lia]).
  assert (registered s1 p = Some (l <| mem_used_bytes := 0 |>)) as Hl1.
  { unfold s1. rewrite registered_update, Hl by done. cbn. by rewrite (proj2 (Z.eqb_eq _ _) Ha). }
  assert (∀ q, q ≠ p → registered s1 q = registered (w_leases w) q) as Hother.
  { intros q Hq. unfold s1. rewrite registered_update by done. destruct (registered (w_leases w) q) as [x|] eqn:Ex; [|done]. cbn.
    apply lease_at_Some in Ex as [_ <-]. by rewrite (proj2 (Z.eqb_neq _ _) Hq). }
  cbn [w_leases]. change (w_leases (w <| w_leases ::= update_lease p (λ x, x <| mem_used_bytes := 0 |>) |>)) with s1.
  assert (∀ r s, f s1 (Some p) = (r, s) → r ≠ ANX_OK → s = s1) as Hfail.
  { intros r s E Hr. unfold f in E. destruct rel; [pose proof (release_cases s1 p) as H|pose proof (lease_revoke_cases s1 p) as H];
      rewrite E in H; destruct H as [[_ ->]|(-> & _)]; done. }
  destruct (f s1 (Some p)) as [r s] eqn:Es. specialize (Hfail _ _ eq_refl). destruct (Z.eqb_spec r ANX_OK) as [->|Hr].
  2:{ exists r, (w_leases w). rewrite (Hfail Hr).
      split; [exact (f_equal (λ x, Ret (r, w <| w_leases := x |>)) (use_back _ _ _ Hi Hl))|done]. }
  exists ANX_OK, s. split; [done|]. unfold f in Es. destruct rel; [rename Es into Er|].
  2:{ pose proof (lease_revoke_cases s1 p) as H. rewrite Es in H. destruct H as [[? _]|(_ & -> & _ & _)]; [done|].
    split; [by apply inv_revoke|]. split; [done|]. split; [|split; [|done]].
    + intros g' (q & x & Hq & Hx & Hxe & Hxr & Hxu) Hne. rewrite Hq, ?Hp in Hne. assert (q ≠ p) as Hqp by congruence.
      exists q, x. rewrite registered_revoke, Hother, Hx by done. cbn. unfold revoke_lease.
      rewrite subtree_root; [done|done|]. apply lease_at_Some in Hx as [_ ->]. done.
    + intros _ _. eexists p, _. rewrite registered_revoke, Hl1. split; [done|]. split; [reflexivity|]. unfold revoke_lease.
      destruct (in_subtree _ _ _); done. }
  pose proof (release_cases s1 p) as H. rewrite Er in H. destruct H as [[? _]|(_ & -> & Hno)]; [done|].
  split; [by apply inv_release|]. split; [done|]. split; [|split; [done|]].
  - intros g' (q & x & Hq & Hx & Hxe & Hxr & Hxu) Hne. rewrite Hq, ?Hp in Hne. assert (q ≠ p) as Hqp by congruence.
    exists q, x. by rewrite registered_filter, Hother.
  - intros _ _ q [= <-]. unfold registered. cbn. destruct (lease_at (filter _ _) p) as [x|] eqn:Ex; [|done].
    apply lease_at_Some in Ex as [[Hx _]%list_elem_of_filter Hxa]. done.
Qed.

(** ** Revocation and destruction *)

(** A group whose pages are gone. *)
Definition pageless (g : continuation_group) : continuation_group :=
  g <| g_pages := replicate ANX_CONTINUATION_GROUP_PAGES 0 |> <| g_view ::= λ v, v <| cg_physical_pages := 0 |> |>.

(** The pages of [g] given back: free, cleared, and nothing else touched. *)
Record pages_returned (g : continuation_group) (w w' : cworld) : Prop := {
  pr_inv : Page.page_inv (w_pages w');
  pr_flips : flips false (area_of g) (w_pages w) (w_pages w');
  pr_zeroed : zeroed (area_of g) (frames w) (frames w');
}.

Lemma free_pages_spec g w : Page.page_inv (w_pages w) → NoDup (area_of g) → (∀ p, p ∈ area_of g → page_held (w_pages w) p) →
  ∃ st fr, let w' := w <| w_pages := st |> <| frames := fr |> in free_pages g w = Ret (pageless g, w') ∧ pages_returned g w w'.
Proof.
  intros Hi Hn Hh. destruct (free_each_spec (g_pages g) w Hi Hn Hh) as (st & fr & E & H1 & H2 & H3).
  exists st, fr. cbv zeta. unfold free_pages. rewrite E. split; [done|]. by split.
Qed.

(** What is left of the table when a group gives up its pages and its lease. *)
Lemma tinv_left w w' g s L : tinv_of w L → joins_of w g L → pages_returned g w w' → cg_sequence w' = cg_sequence w → w_leases w' = s →
  lease_inv s → (∀ g', lease_held (w_leases w) g' → g_lease g' ≠ g_lease g → lease_held s g') → tinv_of w' L.
Proof.
  intros Ht [_ _ [_ Ha] Hl _] [Hi Hf Hz] Hs Hls Hli Hkeep. rewrite Hs, Hls. destruct (ti_pages _ _ _ _ _ Ht) as [_ Hb].
  pose proof (ti_seq _ _ _ _ _ Ht) as Hsq.
  apply (tinv_env _ _ _ _ _ _ _ _ _ Ht); [lia|done|by rewrite (fl_base _ _ _ _ Hf)|done| |].
  - intros p Hp [H1 H2]. assert (p ∉ area_of g) as Hn by (intros Hp'; by apply (Ha p)). split; [by apply (fl_out _ _ _ _ Hf)|].
    by rewrite (Hz p), decide_False.
  - intros x Hx Hh. apply Hkeep; [done|]. intros E. apply Hl. rewrite <- E. apply list_elem_of_fmap. by exists x.
Qed.

Lemma winv_open w i g : winv w → groups w !! i = Some (Some g) →
  Page.page_inv (w_pages w) ∧ lease_inv (w_leases w) ∧ group_ok g ∧ NoDup (area_of g) ∧ lease_held (w_leases w) g ∧
  ∀ p, p ∈ area_of g → page_held (w_pages w) p.
Proof.
  intros Hi Hs. assert (g ∈ live_groups (groups w)) as Hg by (apply live_elem; by eapply list_elem_of_lookup_2).
  destruct (winv_group w g Hi Hg) as (H1 & H2 & _). destruct Hi as [_ [_ [? _] ? _ _ _ _ He]]. destruct (He g Hg) as (_ & _ & ? & Hp).
  do 5 (split; [done|]). intros p Hpp. by apply Hp.
Qed.

Definition revoked_group (g : continuation_group) : continuation_group :=
  pageless g <| g_view ::= λ v, v <| cg_revoked := true |> <| cg_epoch ::= λ e, u64 (e + 1) |> |>.

(** Revocation fails and changes nothing, or takes pages and lease from the group. *)
Lemma group_revoke_cases current id epoch out w r v w' : winv w →
  anx_continuation_group_revoke current id epoch out w = Ret (r, v, w') →
  (r ≠ ANX_OK ∧ w' = w) ∨
  (r = ANX_OK ∧ current = None ∧ ∃ i g s, groups w !! i = Some (Some g) ∧ gid g = id ∧ cg_epoch (g_view g) = epoch ∧ epoch ≠ MAX64 ∧
     cg_revoked (g_view g) = false ∧ groups w' = <[i := Some (revoked_group g)]> (groups w) ∧ cg_sequence w' = cg_sequence w ∧
     w_cells w' = w_cells w ∧ pages_returned g w w' ∧ w_leases w' = s ∧ lease_inv s ∧
     (∀ g', lease_held (w_leases w) g' → g_lease g' ≠ g_lease g → lease_held s g') ∧ lease_held s (revoked_group g)).
Proof.
  intros Hi. unfold anx_continuation_group_revoke. destruct current as [c|]; [intros [= <- _ <-]; by left|].
  rewrite bool_decide_false by (by intros []). destruct (_ || _ || _); [intros [= <- _ <-]; by left|].
  destruct (find_group (groups w) id) as [[i g]|] eqn:Ef; [|intros [= <- _ <-]; by left].
  destruct (negb (cg_epoch _ =? epoch) || cg_revoked _) eqn:Ee; [intros [= <- _ <-]; by left|]. to_prop.
  destruct (group_active g w) as [[]| |]; [intros [= <- _ <-]; by left| |done..]. cbn [obind].
  destruct (Z.eqb_spec epoch MAX64); [intros [= <- _ <-]; by left|].
  destruct (find_group_Some _ _ _ _ Ef) as [Hs Hid]. destruct (winv_open w i g Hi Hs) as (Hp & Hl & Hok & Hn & Hh & Hheld).
  destruct (drop_lease_spec false w g Hl Hh) as (r1 & s & Ed & Hli & Hfail & Hkeep & Hmine & _). cbv zeta in Ed. cbv iota in Ed. rewrite Ed. cbn [obind].
  destruct (Z.eqb_spec r1 ANX_OK) as [E1|E1]; cbn [negb]; [|intros [= <- _ <-]; left; split; [done|]; rewrite Hfail by done; by destruct w].
  set (w1 := w <| w_leases := s |>). destruct (free_pages_spec g w1) as (st & fr & Efp & Hpr); [done..|]. cbv zeta in Efp, Hpr. rewrite Efp. cbn [obind].
  assert (∀ x y z, pages_returned g w1 x → w_pages y = w_pages x → frames y = frames x → z = w → pages_returned g z y) as Hpr'.
  { intros x y z [A B C] E2 E3 ->. split; by rewrite ?E2, ?E3. }
  change (pageless g <| g_view ::= λ v0, v0 <| cg_revoked := true |> <| cg_epoch ::= λ e, u64 (e + 1) |> |>) with (revoked_group g).
  set (w2 := w1 <| w_pages := st |> <| frames := fr |>) in *. intros Heq. injection Heq as <- _ <-. right. split; [done|]. split; [done|].
  exists i, g, s. do 8 (split; [done|]). split; [by apply (Hpr' w2)|]. do 3 (split; [done|]).
  destruct (Hmine E1 eq_refl) as (p & l & M1 & M2 & M3 & M4 & M5). exists p, l. done.
Qed.

Lemma revoke_ok current id epoch out w r v w' : winv w →
  anx_continuation_group_revoke current id epoch out w = Ret (r, v, w') → step_ok w w'.
Proof.
  intros Hi He. destruct (group_revoke_cases _ _ _ _ _ _ _ _ Hi He) as
    [[_ ->]|(_ & _ & i & g & s & Hs & Hid & Hep & Hmax & Hr & Hg & Hsq & _ & Hpr & Hls & Hli & Hkeep & Hmine)]; [by apply quiet_ok|].
  destruct (winv_open w i g Hi Hs) as (_ & _ & Hok & _). destruct Hok as [? ? ? ? ? ? ?]. unfold MAX64 in *.
  assert (u64 (cg_epoch (g_view g) + 1) = cg_epoch (g_view g) + 1) as Hu by (apply u64_small; unfold is_u64; lia).
  apply (replace_ok w w' i g (revoked_group g)); [done..| |].
  - right. split; try done. cbn. rewrite Hu. lia.
  - intros L Ht Hj. split; [by eapply tinv_left|]. destruct Hj as [J1 J2 J3 J4 (J5 & _ & _ & _)].
    split; [done|done| |done|].
    + change (area_of (revoked_group g)) with ([] : list Z). split; [constructor|]. intros p Hp. by apply not_elem_of_nil in Hp.
    + rewrite Hsq, Hls. split; [done|]. split; [|split; [done|]].
      * split; try done. cbn. rewrite Hu. unfold MAX64. lia.
      * change (area_of (revoked_group g)) with ([] : list Z). intros p Hp. by apply not_elem_of_nil in Hp.
Qed.

(** Destruction, likewise. *)
Lemma group_destroy_cases current id w r w' : winv w → anx_continuation_group_destroy current id w = Ret (r, w') →
  (r ≠ ANX_OK ∧ w' = w) ∨
  (r = ANX_OK ∧ current = None ∧ ∃ i g s, groups w !! i = Some (Some g) ∧ gid g = id ∧ groups w' = <[i := None]> (groups w) ∧
     cg_sequence w' = cg_sequence w ∧ w_cells w' = w_cells (release_group_cells g w) ∧ pages_returned g w w' ∧ w_leases w' = s ∧ lease_inv s ∧
     (∀ g', lease_held (w_leases w) g' → g_lease g' ≠ g_lease g → lease_held s g') ∧ ∀ p, g_lease g = Some p → registered s p = None).
Proof.
  intros Hi. unfold anx_continuation_group_destroy. destruct current as [c|]; [intros [= <- <-]; by left|].
  rewrite bool_decide_false by (by intros []). destruct (id =? 0); [intros [= <- <-]; by left|].
  destruct (find_group (groups w) id) as [[i g]|] eqn:Ef; [|intros [= <- <-]; by left].
  destruct (group_active g w) as [[]| |]; [intros [= <- <-]; by left| |done..]. cbn [obind].
  destruct (find_group_Some _ _ _ _ Ef) as [Hs Hid]. destruct (winv_open w i g Hi Hs) as (Hp & Hl & Hok & Hn & Hh & Hheld).
  destruct (drop_lease_spec true w g Hl Hh) as (r1 & s & Ed & Hli & Hfail & Hkeep & _ & Hgone). cbv zeta in Ed. cbv iota in Ed. rewrite Ed. cbn [obind].
  destruct (Z.eqb_spec r1 ANX_OK) as [E1|E1]; cbn [negb]; [|intros [= <- <-]; left; split; [done|]; rewrite Hfail by done; by destruct w].
  set (w1 := w <| w_leases := s |>). destruct (free_pages_spec g w1) as (st & fr & Efp & [P1 P2 P3]); [done..|]. cbv zeta in Efp. rewrite Efp. cbn [obind].
  intros Heq. injection Heq as <- <-. right. split; [done|]. split; [done|]. exists i, g, s. do 5 (split; [done|]). split; [by split|].
  do 3 (split; [done|]). by apply Hgone.
Qed.

Lemma destroy_ok current id w r w' : winv w → anx_continuation_group_destroy current id w = Ret (r, w') → step_ok w w'.
Proof.
  intros Hi He. destruct (group_destroy_cases _ _ _ _ _ Hi He) as [[_ ->]|(_ & _ & i & g & s & Hs & Hid & Hg & Hsq & _ & Hpr & Hls & Hli & Hkeep & _)];
    [by apply quiet_ok|].
  apply (remove_ok w w' i g); [done..|]. intros L Ht Hj. by eapply tinv_left.
Qed.

(** ** Creation *)

Lemma enrolled_spec l c : enrolled l c = true ↔ c ∈ (live_groups l ≫= cells_of).
Proof.
  unfold enrolled. rewrite existsb_exists, list_elem_of_bind. split.
  - intros ([g|] & Hg & Hc); [|done]. exists g. split; [|apply live_elem; by apply list_elem_of_In]. cbn in Hc. apply orb_true_iff in Hc as [Hc|Hc].
    + apply Z.eqb_eq, anx_uuid_compare_eq in Hc as ->. by left.
    + apply bool_decide_eq_true in Hc as [i Hi]. apply index_of_lt in Hi. right. by eapply list_elem_of_lookup_2.
  - intros (g & Hc & Hg). exists (Some g). split; [by apply list_elem_of_In, live_elem|]. cbn. apply orb_true_iff.
    apply elem_of_cons in Hc as [->|Hc]; [left; by apply Z.eqb_eq, anx_uuid_compare_eq|]. right. apply bool_decide_eq_true.
    unfold member_index. induction (members_of (g_view g)) as [|x m IH]; [by apply not_elem_of_nil in Hc|]. cbn.
    destruct (anx_uuid_compare c x =? 0) eqn:E; [done|]. apply elem_of_cons in Hc as [->|Hc].
    + apply Z.eqb_neq in E. exfalso. by apply E, anx_uuid_compare_eq.
    + destruct (IH Hc) as [i ->]. done.
Qed.

Lemma not_enrolled l c : enrolled l c = false → c ∉ (live_groups l ≫= cells_of).
Proof. intros E Hc. apply enrolled_spec in Hc. congruence. Qed.

(** What the checks of a creation leave as they were. *)
Record same_plan (g g' : continuation_group) : Prop := {
  sp_view : g_view g' = g_view g;
  sp_lease : g_lease g' = g_lease g;
  sp_pages : g_pages g' = g_pages g;
}.

#[export] Instance same_plan_preorder : PreOrder same_plan.
Proof. split; [by intros g|]. intros x y z [] []. split; congruence. Qed.

Lemma enroll_owner_spec fuel now owner g w r g' w' : enroll_owner fuel now owner g w = Ret (r, g', w') →
  quiet w w' ∧ same_plan g g' ∧ g_members g' = g_members g ∧ (r = ANX_OK → g_owner g' = Some owner ∧ enrolled (groups w) owner = false).
Proof.
  unfold enroll_owner. destruct (w_cells w !! owner) as [cell|]; [|by intros [= <- <- <-]].
  set (w1 := w <| w_cells := _ |>). assert (quiet w w1) as Q1 by done.
  change (enrolled (groups w1) owner) with (enrolled (groups w) owner).
  destruct (enrolled (groups w) owner) eqn:Een; [by intros [= <- <- <-]|].
  destruct (negb _ || _ || _); [by intros [= <- <- <-]|]. destruct (anx_identity_admit _ _) as [r1 rec].
  destruct (negb (r1 =? ANX_OK)) eqn:Er; [by intros [= <- <- <-]|].
  destruct (cell_current _ _ _ _ w1) as [[r2 w2]| |] eqn:Ec; [|done..]. apply cell_current_quiet in Ec. cbn [obind].
  intros [= <- <- <-]. split; [by etrans|]. done.
Qed.

(** Member [i] is enrolled. *)
Record enrolled_at (owner : anx_uuid) (l : list (option continuation_group)) (g : continuation_group) (i : nat) : Prop := {
  ea_owner : rd ANX_UUID_NIL (cg_members (g_view g)) (Z.of_nat i) ≠ owner;
  ea_free : enrolled l (rd ANX_UUID_NIL (cg_members (g_view g)) (Z.of_nat i)) = false;
  ea_new : rd ANX_UUID_NIL (cg_members (g_view g)) (Z.of_nat i) ∉ take i (cg_members (g_view g));
}.

Lemma enroll_spec fuel now owner i g w r g' w' : enroll fuel now owner i g w = Ret (r, g', w') →
  quiet w w' ∧ same_plan g g' ∧ g_owner g' = g_owner g ∧
  (r = ANX_OK → enrolled_at owner (groups w) g i ∧
     g_members g' = wr (g_members g) (Z.of_nat i) (Some (rd ANX_UUID_NIL (cg_members (g_view g)) (Z.of_nat i)))).
Proof.
  unfold enroll. set (m := rd _ _ _). destruct (_ || _) eqn:E1; [by intros [= <- <- <-]|]. apply orb_false_iff in E1 as [_ E1].
  destruct (enrolled (groups w) m) eqn:E2; [by intros [= <- <- <-]|]. destruct (existsb _ _) eqn:E3; [by intros [= <- <- <-]|].
  destruct (anx_cell_store_lookup (w_cells w) m) as [[cell|] st]; [|by intros [= <- <- <-]].
  set (w1 := w <| w_cells := st |>). assert (quiet w w1) as Q1 by done. set (g1 := g <| g_members ::= _ |>).
  destruct (negb _ || _); [by intros [= <- <- <-]|]. destruct (anx_identity_admit _ _) as [r1 rec].
  destruct (negb (r1 =? ANX_OK)) eqn:Er; [intros [= <- <- <-]; split; [done|]; split; [done|]; split; [done|]; by intros ->|].
  destruct (member_current _ _ _ _ w1) as [[r2 w2]| |] eqn:Ec; [|done..]. apply member_current_quiet in Ec. cbn [obind].
  intros [= <- <- <-]. split; [by etrans|]. split; [done|]. split; [done|]. intros _. split; [|done]. split; fold m.
  - apply Z.eqb_neq in E1. intros Em. by apply E1, anx_uuid_compare_eq.
  - done.
  - intros Hm. apply not_true_iff_false in E3. apply E3, existsb_exists. exists m. split; [by apply list_elem_of_In|]. by apply Z.eqb_eq, anx_uuid_compare_eq.
Qed.

Lemma wr_members (l : list (option anx_uuid)) (ms : list anx_uuid) i m : (length l = 4)%nat → (i < 4)%nat → ms !! i = Some m →
  take i l = Some <$> take i ms → take (S i) (wr l (Z.of_nat i) (Some m)) = Some <$> take (S i) ms.
Proof.
  intros Hl Hi Hm Ht. unfold wr. rewrite Nat2Z.id. rewrite (take_S_r ms i m Hm), fmap_app. cbn.
  rewrite (take_S_r _ i (Some m)) by (apply list_lookup_insert_eq; lia). by rewrite take_insert_ge, Ht.
Qed.

Lemma enroll_loop_spec fuel now owner n i g w r g' w' : enroll_loop fuel now owner n i g w = Ret (r, g', w') →
  quiet w w' ∧ same_plan g g' ∧ g_owner g' = g_owner g ∧
  (r = ANX_OK → length (g_members g) = 4%nat → length (cg_members (g_view g)) = 4%nat → (i + n ≤ 4)%nat →
   take i (g_members g) = Some <$> take i (cg_members (g_view g)) →
   (∀ j, (j < i)%nat → enrolled_at owner (groups w) g j) →
   take (i + n) (g_members g') = Some <$> take (i + n) (cg_members (g_view g)) ∧
   ∀ j, (j < i + n)%nat → enrolled_at owner (groups w) g j).
Proof.
  revert i g w. induction n as [|n IH]; intros i g w; cbn [enroll_loop].
  { intros [= <- <- <-]. do 3 (split; [done|]). intros _ _ _ _ Ht Hj. by rewrite Nat.add_0_r. }
  destruct (enroll fuel now owner i g w) as [[[r1 g1] w1]| |] eqn:E; [|done..]. cbn [obind]. apply enroll_spec in E as (Q1 & S1 & O1 & H1).
  destruct (Z.eqb_spec r1 ANX_OK) as [->|Hr]; [|intros [= <- <- <-]; do 3 (split; [done|]); done].
  intros (Q2 & S2 & O2 & H2)%IH. split; [by etrans|]. split; [by etrans|]. split; [congruence|].
  intros Hr Hl Hlm Hi Ht Hj. destruct (H1 eq_refl) as [Hea Hm]. destruct S1 as [V1 _ _]. rewrite V1 in H2. rewrite (qu_groups _ _ Q1) in H2.
  replace (i + S n)%nat with (S i + n)%nat by lia.
  destruct (lookup_lt_is_Some_2 (cg_members (g_view g)) i) as [m Hmi]; [lia|].
  assert (rd ANX_UUID_NIL (cg_members (g_view g)) (Z.of_nat i) = m) as Erd by (unfold rd; rewrite Nat2Z.id, nth_lookup, Hmi; done).
  assert (∀ j, enrolled_at owner (groups w) g1 j ↔ enrolled_at owner (groups w) g j) as Hiff.
  { intros j. split; intros [A B C]; split; by rewrite ?V1 in *. }
  destruct H2 as [H3 H4]; [done|rewrite Hm; unfold wr; by rewrite length_insert|done|lia| | |].
  - rewrite Hm, Erd. apply wr_members; [done|lia|done|done].
  - intros j Hjj. apply Hiff. destruct (decide (j = i)) as [->|]; [done|]. apply Hj. lia.
  - split; [done|]. intros j Hjj. by apply Hiff, H4.
Qed.

(** What the page loop leaves alone of the world. *)
Record same_rest (w w' : cworld) : Prop := {
  sr_groups : groups w' = groups w;
  sr_sequence : cg_sequence w' = cg_sequence w;
  sr_leases : w_leases w' = w_leases w;
  sr_cells : w_cells w' = w_cells w;
}.

(** The new pages [l]: taken from the free ones, different, cleared. *)
Record pages_taken (l : list Z) (w w' : cworld) : Prop := {
  pt_inv : Page.page_inv (w_pages w');
  pt_flips : flips true l (w_pages w) (w_pages w');
  pt_nodup : NoDup l;
  pt_nonzero : ∀ p, p ∈ l → p ≠ 0;
  pt_zeroed : zeroed l (frames w) (frames w');
}.

Definition with_pages (pages : list Z) (n : Z) (g : continuation_group) : continuation_group :=
  g <| g_pages := pages |> <| g_view ::= λ v, v <| cg_physical_pages := n |> |>.

Lemma page_loop_spec n i g w pre k : Page.page_inv (w_pages w) → 0 < Page.heap_base (w_pages w) →
  g_pages g = pre ++ replicate k 0 → length pre = i → (n ≤ k)%nat →
  ∃ r l w', page_loop n i g w =
      Ret (r, with_pages (pre ++ l ++ replicate (k - length l) 0) (cg_physical_pages (g_view g) + Z.of_nat (length l)) g, w') ∧
    same_rest w w' ∧ pages_taken l w w' ∧ (length l ≤ n)%nat ∧ (r = ANX_OK ∧ length l = n ∨ r = ANX_ENOMEM).
Proof.
  revert i g w pre k. induction n as [|n IH]; intros i g w pre k Hi Hb Hp Hl Hk; cbn [page_loop].
  { exists ANX_OK, [], w. split.
    - cbn. rewrite Nat.sub_0_r, <- Hp, Z.add_0_r. by destruct g as [[] ? ? ? ? ? ?].
    - split; [done|]. split; [|split; [cbn; lia|by left]]. split; [done|apply flips_nil|constructor| |].
      + intros p Hpp. by apply not_elem_of_nil in Hpp.
      + intros p. by rewrite decide_False by apply not_elem_of_nil. }
  destruct k as [|k]; [lia|].
  assert (∀ page, wr (g_pages g) (Z.of_nat i) page = pre ++ page :: replicate k 0) as Hwr.
  { intros page. unfold wr. rewrite Hp, Nat2Z.id, <- Hl. cbn [replicate]. by rewrite insert_app_r_alt, Nat.sub_diag by lia. }
  destruct (alloc_page (w_pages w) Hi) as [(p & st & E & Hp0)|(st & E & Hst)]; rewrite E; cbn [obind].
  2:{ assert (st = w_pages w) as -> by (destruct Hst; [done|lia]). rewrite Z.eqb_refl.
      exists ANX_ENOMEM, [], w. split.
      - cbn. rewrite Z.add_0_r. destruct g as [[] ? ? ? ? ? ?], w. cbn in *. by rewrite Hwr.
      - split; [done|]. split; [|split; [cbn; lia|by right]]. split; [done|apply flips_nil|constructor| |].
        + intros q Hpp. by apply not_elem_of_nil in Hpp.
        + intros q. by rewrite decide_False by apply not_elem_of_nil. }
  rewrite (proj2 (Z.eqb_neq _ _) Hp0). destruct (take_page _ _ _ Hi E Hp0) as [Hi1 Hf1].
  set (g1 := (g <| g_pages ::= _ |>) <| g_view ::= _ |>). set (w1 := (w <| w_pages := st |>) <| frames ::= _ |>).
  destruct (IH (S i) g1 w1 (pre ++ [p]) k) as (r & l & w' & El & [R1 R2 R3 R4] & [T1 T2 T3 T4 T5] & Hle & Hr).
  { done. } { cbn. by rewrite (fl_base _ _ _ _ Hf1). }
  { cbn. rewrite Hwr. by rewrite <- app_assoc. } { rewrite length_app. cbn. lia. } { lia. }
  assert (p ∉ l) as Hpl.
  { intros Hin. destruct (fl_in _ _ _ _ T2 p Hin) as [Ht _]. destruct (fl_in _ _ _ _ Hf1 p) as [_ Hh]; [by left|].
    by pose proof (page_bit_fun _ _ _ _ Ht Hh). }
  exists r, (p :: l), w'. split.
  - rewrite El. do 3 f_equal. unfold with_pages, g1. destruct g as [[] ? ? ? ? ? ?]. cbn. rewrite <- app_assoc. cbn. do 2 f_equal. lia.
  - split; [by split|]. split; [|split; [cbn; lia|]].
    + split; [done|by eapply flips_cons|by constructor| |].
      * intros q [->|Hq]%elem_of_cons; [done|by apply T4].
      * intros q. rewrite (T5 q). cbn. destruct (decide (q ∈ l)) as [Hq|Hq]; [by rewrite decide_True by (by right)|].
        destruct (decide (q = p)) as [->|Hqp]; [by rewrite lookup_insert_eq, decide_True by (by left)|].
        rewrite lookup_insert_ne, decide_False by (rewrite ?elem_of_cons; tauto || done). done.
    + cbn. destruct Hr as [[? ?]|?]; [left; split; [done|lia]|by right].
Qed.

Lemma grant_shape alloc now s id tier bytes a pct r o s' :
  anx_lease_grant alloc now s (Some id) tier bytes a pct = (r, o, s') →
  (r ≠ ANX_OK ∧ o = None ∧ s' = s) ∨
  (r = ANX_OK ∧ ∃ p, alloc = Some p ∧ o = Some p ∧ s' = add_lease (Lease p id tier bytes 0 a pct now 0 None 0 false) s).
Proof.
  unfold anx_lease_grant, create_lease. repeat (case_match; [intros [= <- <- <-]; by left|]). destruct alloc as [p|]; intros [= <- <- <-]; [|by left].
  right. split; [done|]. by exists p.
Qed.

Lemma lease_at_app l1 l2 q : lease_at (l1 ++ l2) q = match lease_at l1 q with Some x => Some x | None => lease_at l2 q end.
Proof. induction l1 as [|x l1 IH]; cbn; [done|]. by destruct (l_addr x =? q). Qed.

Lemma lease_at_None l q : q ∉ l_addr <$> l → lease_at l q = None.
Proof.
  induction l as [|x l IH]; [done|]. rewrite fmap_cons. intros [H1 H2]%not_elem_of_cons. cbn. destruct (Z.eqb_spec (l_addr x) q); [congruence|auto].
Qed.

(** The lease of a new group, and the group once it has it. *)
Definition group_lease (p now : Z) (fresh : anx_uuid) (bytes : Z) : anx_engine_lease :=
  Lease p fresh TIER_L0 bytes 0 ANX_ACCEL_NONE 0 now 0 None 0 false.

Definition with_lease (p : Z) (fresh : anx_uuid) (g : continuation_group) : continuation_group :=
  g <| g_view ::= λ v, v <| cg_lease_id := fresh |> |> <| g_lease := Some p |>.

Lemma reserve_group_cases now fresh lease_alloc pages slot g w :
  lease_inv (w_leases w) → Page.page_inv (w_pages w) → 0 < Page.heap_base (w_pages w) →
  g_lease g = None → g_pages g = replicate 4 0 → 0 ≤ pages ≤ 4 → fresh_alloc lease_alloc (w_leases w) → 0 ≤ cg_memory_bytes (g_view g) →
  ∃ r g' w', reserve_group now fresh lease_alloc pages slot g w = Ret (r, g', w') ∧
    ((r ≠ ANX_OK ∧ w' = w ∧ g_lease g' = None ∧ g_pages g' = g_pages g ∧ g_owner g' = g_owner g ∧ g_members g' = g_members g ∧
      cg_count (g_view g') = cg_count (g_view g)) ∨
     ∃ p l, lease_alloc = Some p ∧ cg_sequence w ≠ MAX64 ∧ slot ≠ ANX_CONTINUATION_GROUP_MAX ∧
       w_leases w' = add_lease (group_lease p now fresh (cg_memory_bytes (g_view g))) (w_leases w) ∧
       lease_inv (w_leases w') ∧
       groups w' = groups w ∧ cg_sequence w' = cg_sequence w ∧ w_cells w' = w_cells w ∧ pages_taken l w w' ∧ (length l ≤ Z.to_nat pages)%nat ∧
       g' = with_pages (l ++ replicate (4 - length l) 0) (cg_physical_pages (g_view g) + Z.of_nat (length l)) (with_lease p fresh g) ∧
       (r = ANX_OK ∧ length l = Z.to_nat pages ∨ r = ANX_ENOMEM)).
Proof.
  intros Hl Hp Hb Hgl Hgp Hpages Hfresh Hbytes. unfold reserve_group.
  destruct (_ || _) eqn:E0; [eexists _, _, _; split; [done|]; left; done|]. apply orb_false_iff in E0 as [E0 E0']. to_prop.
  cbn [g_view cg_memory_bytes]. set (bytes := cg_memory_bytes (g_view (g <| g_view ::= _ |>))).
  change bytes with (cg_memory_bytes (g_view g)). clear bytes.
  pose proof (grant_spec lease_alloc now (w_leases w) fresh TIER_L0 (cg_memory_bytes (g_view g)) ANX_ACCEL_NONE 0 Hl Hfresh Hbytes ltac:(lia)) as Hgr.
  destruct (anx_lease_grant _ _ _ _ _ _ _ _) as [[r0 o] s] eqn:Eg. destruct Hgr as [Hli _]. destruct (grant_shape _ _ _ _ _ _ _ _ _ _ _ Eg) as [(Hr & -> & ->)|(-> & p & -> & -> & ->)].
  - destruct (Z.eqb_spec r0 ANX_OK); [done|]. cbn [negb]. eexists _, _, _. split; [done|]. left. split; [done|]. split; [by destruct w|]. done.
  - change (negb (ANX_OK =? ANX_OK)) with false. cbv iota zeta.
    set (w1 := w <| w_leases := _ |>).
    destruct (page_loop_spec (Z.to_nat pages) 0 (with_lease p fresh g) w1 [] 4) as (r & l & w' & E & [R1 R2 R3 R4] & [T1 T2 T3 T4 T5] & Hle & Hr);
      [done|done|exact Hgp|done|lia|].
    eexists _, _, w'. split; [exact E|]. right. exists p, l. do 3 (split; [done|]). split; [by rewrite R3|]. split; [by rewrite R3|].
    do 3 (split; [done|]). split; [by split|]. done.
Qed.

Lemma release_fresh s n : lease_inv s → l_addr n ∉ l_addr <$> lease_list s → l_parent n = None → mem_used_bytes n = 0 →
  (anx_lease_release (add_lease n s) (Some (l_addr n))).2 = s.
Proof.
  intros Hi Hn Hp Hu. unfold anx_lease_release, registered, add_lease. cbn. rewrite lease_at_app, lease_at_None by done. cbn.
  rewrite Z.eqb_refl, Hu. cbn.
  destruct (existsb _ _) eqn:E; cbn.
  - exfalso. apply existsb_exists in E as (x & Hx & Hxp%bool_decide_eq_true). apply list_elem_of_In, elem_of_app in Hx as [Hx| ->%list_elem_of_singleton];
      [|congruence]. destruct (li_parent _ Hi x _ Hx Hxp) as (q & Hq & Ha & _). apply Hn. rewrite <- Ha. apply list_elem_of_fmap. by exists q.
  - destruct s as [a b ls c]. cbn in *. f_equal. rewrite filter_app, filter_cons, decide_False by (intros H; by apply H). rewrite filter_nil, app_nil_r.
    clear -Hn. induction ls as [|x l IH]; [done|]. rewrite fmap_cons in Hn. apply not_elem_of_cons in Hn as [H1 H2].
    rewrite filter_cons, decide_True by congruence. by rewrite IH.
Qed.

(** A failed creation: the table, the leases and the allocation of pages are as
    before, and no page in use was touched. *)
Record undone (w w' : cworld) : Prop := {
  un_groups : groups w' = groups w;
  un_sequence : cg_sequence w' = cg_sequence w;
  un_leases : w_leases w' = w_leases w;
  un_inv : Page.page_inv (w_pages w');
  un_base : Page.heap_base (w_pages w') = Page.heap_base (w_pages w);
  un_free : Page.free_count (w_pages w') = Page.free_count (w_pages w);
  un_bits : ∀ p b, page_bit (w_pages w) b p ↔ page_bit (w_pages w') b p;
  un_frames : ∀ p, page_held (w_pages w) p → frames w' !! p = frames w !! p;
}.

Lemma undone_quiet w w' : Page.page_inv (w_pages w) → quiet w w' → undone w w'.
Proof. intros Hi [E1 E2 E3 E4 E5]. split; rewrite ?E1, ?E2, ?E3, ?E4, ?E5; done. Qed.

Lemma flips_back l st st1 st2 : flips true l st st1 → flips false l st1 st2 →
  Page.heap_base st2 = Page.heap_base st ∧ Page.free_count st2 = Page.free_count st ∧ ∀ p b, page_bit st b p ↔ page_bit st2 b p.
Proof.
  intros [B1 T1 F1 I1 O1] [B2 T2 F2 I2 O2]. split; [congruence|]. split; [lia|]. intros p b.
  destruct (decide (p ∈ l)) as [Hp|Hp].
  - destruct (I1 p Hp) as [A1 _]. destruct (I2 p Hp) as [_ A2]. cbn in A2.
    split; intros Hb; [rewrite (page_bit_fun _ _ _ _ Hb A1)|rewrite (page_bit_fun _ _ _ _ Hb A2)]; done.
  - by rewrite O1, O2.
Qed.

Lemma undone_ok w w' : winv w → undone w w' → step_ok w w'.
Proof.
  intros Hi [E1 E2 E3 H1 H2 _ H3 H4]. split; [|split; [by rewrite E2|]].
  - destruct Hi as [Hl Ht]. split; [by rewrite E1|]. rewrite E1, E2, E3. destruct (ti_pages _ _ _ _ _ Ht). pose proof (ti_seq _ _ _ _ _ Ht).
    apply (tinv_env _ _ _ _ _ _ _ _ _ Ht); [lia|done|by rewrite H2|apply Ht| |done].
    intros p _ [Hp (f & Hf & Hlen)]. split; [by apply H3|]. exists f. by rewrite H4.
  - intros g Hg. rewrite E1 in Hg. left. by exists g.
Qed.

(** The lease of a new group in full use. *)
Lemma used_lease s p now fresh bytes : lease_inv s → p ∉ l_addr <$> lease_list s → 0 ≤ bytes →
  lease_inv (add_lease (group_lease p now fresh bytes) s) →
  let s' := update_lease p (λ l, l <| mem_used_bytes := bytes |>) (add_lease (group_lease p now fresh bytes) s) in
  lease_inv s' ∧ registered s' p = Some (group_lease p now fresh bytes <| mem_used_bytes := bytes |>) ∧
  ∀ q, q ≠ p → registered s' q = registered s q.
Proof.
  intros Hi Hn Hb Hi1 s'. set (n := group_lease p now fresh bytes) in *.
  assert (∀ q, registered (add_lease n s) q = match registered s q with Some x => Some x | None => if p =? q then Some n else None end) as Hreg.
  { intros q. unfold registered, add_lease. cbn. by rewrite lease_at_app. }
  assert (registered (add_lease n s) p = Some n) as Hp.
  { rewrite Hreg. unfold registered. by rewrite lease_at_None, Z.eqb_refl. }
  split; [|split].
  - eapply lease_step_inv; [exact Hi1|]. apply (step_use _ p n bytes Hp Hb).
    change (child_mem (add_lease n s) p) with (total (live_child p) mem_reserved_bytes (lease_list s ++ [n])).
    change (mem_reserved_bytes n) with bytes.
    rewrite total_snoc, total_none; [|intros x Hx; by apply (no_child_fresh s)].
    assert (live_child p n = false) as -> by (unfold live_child; by rewrite bool_decide_false). lia.
  - unfold s'. rewrite registered_update, Hp by done. cbn. by rewrite Z.eqb_refl.
  - intros q Hq. unfold s'. rewrite registered_update, Hreg by done. rewrite (proj2 (Z.eqb_neq p q)) by done.
    destruct (registered s q) as [x|] eqn:Ex; [|done]. cbn. apply lease_at_Some in Ex as [_ Ex]. by rewrite (proj2 (Z.eqb_neq _ _)) by congruence.
Qed.

(** The failure path undoes the reservation. *)
Lemma undo_reserved g w0 w : winv w0 → g_lease g = None → g_pages g = replicate 4 0 → quiet w0 w → ∃ w', undo g w = Ret w' ∧ undone w0 w'.
Proof.
  intros Hi Hl Hp Hq. destruct (ti_pages _ _ _ _ _ (proj2 Hi)) as [Hpi _]. unfold undo, free_pages. rewrite Hp. cbn. rewrite Hl. eexists. split; [done|].
  apply undone_quiet; [done|]. destruct Hq. by split.
Qed.

Lemma undo_taken g w0 w w1 p now fresh bytes l : winv w0 → quiet w0 w → p ∉ l_addr <$> lease_list (w_leases w) → g_lease g = Some p →
  area_of g = l → w_leases w1 = add_lease (group_lease p now fresh bytes) (w_leases w) → groups w1 = groups w → cg_sequence w1 = cg_sequence w →
  pages_taken l w w1 → ∃ w', undo g w1 = Ret w' ∧ undone w0 w'.
Proof.
  intros Hi Hq Hfr Hgl Ha Hls Hg Hs [T1 T2 T3 T4 T5]. destruct (proj2 Hi) as [_ [Hpi _] Hli _ _ _ _ _].
  destruct (free_pages_spec g w1) as (st & fr & E & [P1 P2 P3]); [done|by rewrite Ha|rewrite Ha; intros q Hin; apply (fl_in _ _ _ _ T2 q Hin)|].
  cbv zeta in E. unfold undo. rewrite E. cbn [obind]. change (g_lease (pageless g)) with (g_lease g). rewrite Hgl.
  eexists. split; [done|]. rewrite Ha in P2, P3. cbn in P1, P2, P3.
  destruct (flips_back _ _ _ _ T2 P2) as (B1 & B2 & B3). destruct Hq as [Q1 Q2 Q3 Q4 Q5]. rewrite Q4 in *.
  split; cbn; [congruence|congruence| |done|done|done|done|].
  - rewrite Hls. rewrite Q5 in *. by apply (release_fresh (w_leases w0) (group_lease p now fresh bytes)).
  - intros q Hq. rewrite (P3 q), (T5 q), Q3.
    destruct (decide (q ∈ l)) as [Hin|]; [|done]. destruct (fl_in _ _ _ _ T2 q Hin) as [Ht _]. by pose proof (page_bit_fun _ _ _ _ Ht Hq).
Qed.

Lemma empty_slot_spec l : (empty_slot l < length l)%nat → l !! empty_slot l = Some None.
Proof. induction l as [|[g|] l IH]; cbn; [lia| |done]. intros H. apply IH. lia. Qed.

Lemma empty_slot_le l : (empty_slot l ≤ length l)%nat.
Proof. induction l as [|[g|] l IH]; cbn; lia. Qed.

(** The members of a new group are different cells. *)
Lemma members_nodup owner l ms k : (k ≤ length ms)%nat → (∀ g, g = rd ANX_UUID_NIL ms → ∀ j, (j < k)%nat → g (Z.of_nat j) ≠ owner ∧ enrolled l (g (Z.of_nat j)) = false ∧ g (Z.of_nat j) ∉ take j ms) →
  NoDup (owner :: take k ms) ∧ ∀ m, m ∈ take k ms → enrolled l m = false.
Proof.
  intros Hk Hall. specialize (Hall _ eq_refl).
  assert (∀ j m, (j < k)%nat → ms !! j = Some m → m ≠ owner ∧ enrolled l m = false ∧ m ∉ take j ms) as H.
  { intros j m Hj Hm. assert (rd ANX_UUID_NIL ms (Z.of_nat j) = m) as <- by (unfold rd; by rewrite Nat2Z.id, nth_lookup, Hm). by apply Hall. }
  clear Hall. split; [apply NoDup_cons; split|].
  - intros (j & Hm & Hj)%elem_of_take. destruct (H j owner Hj Hm) as [Hne _]. done.
  - clear Hk. induction k as [|k IH]; [constructor|]. destruct (ms !! k) as [m|] eqn:Em.
    + rewrite (take_S_r ms k m Em). apply NoDup_app. split; [apply IH; intros j x Hj; apply H; lia|]. split; [|apply NoDup_singleton].
      intros x Hx ->%list_elem_of_singleton. destruct (H k m ltac:(lia) Em) as (_ & _ & Hnt). done.
    + rewrite !take_ge by (apply lookup_ge_None in Em; lia). rewrite <- (take_ge ms k) by (apply lookup_ge_None in Em; lia).
      apply IH. intros j x Hj. apply H. lia.
  - intros m (j & Hm & Hj)%elem_of_take. by apply (H j m Hj Hm).
Qed.

(** A new group. *)
Record born (w : cworld) (owner : anx_uuid) (members : list anx_uuid) (pages : Z) (g : continuation_group) : Prop := {
  bo_id : gid g = cg_sequence w + 1;
  bo_epoch : cg_epoch (g_view g) = 1;
  bo_holder : cg_holder (g_view g) = 0;
  bo_live : cg_revoked (g_view g) = false;
  bo_cells : cells_of g = owner :: members;
  bo_pages : length (area_of g) = Z.to_nat pages;
}.

Lemma born_joins w w2 w' owner ms count pages l p now fresh g :
  winv w → quiet w w2 → fresh_alloc (Some p) (w_leases w) → 1 ≤ count ≤ 4 → 1 ≤ pages ≤ 4 → count ≤ Z.of_nat (length ms) → cg_sequence w ≠ MAX64 →
  enrolled (groups w) owner = false → g_owner g = Some owner → g_view g = g_view (new_group owner ms count pages) →
  take (Z.to_nat count) (g_members g) = Some <$> take (Z.to_nat count) (cg_members (g_view g)) →
  (∀ j, (j < Z.to_nat count)%nat → enrolled_at owner (groups w) g j) → length l = Z.to_nat pages → pages_taken l w2 w' →
  lease_inv (add_lease (group_lease p now fresh (u32 (pages * PAGE))) (w_leases w)) →
  let g' := with_pages (l ++ replicate (4 - length l) 0) (Z.of_nat (length l)) (with_lease p fresh g)
              <| g_view ::= λ v, v <| cg_id := cg_sequence w + 1 |> |> in
  let ls := update_lease p (λ x, x <| mem_used_bytes := u32 (pages * PAGE) |>) (add_lease (group_lease p now fresh (u32 (pages * PAGE))) (w_leases w)) in
  tinv (cg_sequence w + 1) (frames w') (w_pages w') ls (live_groups (groups w)) ∧
  joins (cg_sequence w + 1) (frames w') (w_pages w') ls g' (live_groups (groups w)) ∧ born w owner (take (Z.to_nat count) ms) pages g'.
Proof.
  intros Hi Hq Hfr Hc Hpg Hms Hseq Hown Hgo Hgv Hgm Hea Hl [T1 T2 T3 T4 T5] Hli g' ls. destruct (proj2 Hi) as [Sq [Pi Pb] Li In Cn An Ln Ea].
  destruct Hq as [Q1 Q2 Q3 Q4 Q5]. rewrite Q4 in T2. rewrite Q3 in T5. unfold MAX64 in *.
  assert (u32 (pages * PAGE) = pages * PAGE) as Hu by (apply u32_small; unfold is_u32, PAGE, Page.ANX_PAGE_SIZE; lia).
  assert (p ∉ l_addr <$> lease_list (w_leases w)) as Hp by (by apply Hfr).
  destruct (used_lease (w_leases w) p now fresh (u32 (pages * PAGE))) as (Hls & Hreg & Hoth);
    [done|done|rewrite Hu; unfold PAGE, Page.ANX_PAGE_SIZE; lia|done|]. fold ls in Hls, Hreg, Hoth.
  assert (members_of (g_view g') = take (Z.to_nat count) ms) as Hmem.
  { unfold members_of, g'. cbn. rewrite Hgv. cbn. rewrite take_app_le by (rewrite length_take; lia). rewrite take_take. f_equal. lia. }
  assert (area_of g' = l) as Har by (unfold area_of, g'; cbn; by apply real_area).
  assert (cg_members (g_view g) = take (Z.to_nat count) ms ++ replicate (4 - Z.to_nat count) ANX_UUID_NIL) as Hcm by (by rewrite Hgv).
  assert (length (cg_members (g_view g)) = 4%nat) as Hlm by (rewrite Hcm, length_app, length_take, length_replicate; lia).
  assert (take (Z.to_nat count) (cg_members (g_view g)) = take (Z.to_nat count) ms) as Htk.
  { rewrite Hcm, take_app_le by (rewrite length_take; lia). rewrite take_take. f_equal. lia. }
  destruct (members_nodup owner (groups w) (cg_members (g_view g)) (Z.to_nat count)) as [Hnd Hen]; [lia| |].
  { intros h -> j Hj. destruct (Hea j Hj). done. }
  rewrite Htk in Hnd, Hen.
  assert (g_view g' = GroupView (cg_sequence w + 1) 1 owner (cg_members (g_view g)) fresh count 0 1 (u32 (pages * PAGE)) (Z.of_nat (length l)) false) as Hv
    by (unfold g'; cbn; by rewrite Hgv).
  assert (∀ x, x ∈ live_groups (groups w) → ∃ q, g_lease x = Some q ∧ q ≠ p) as Hlp.
  { intros x Hx. destruct (Ea x Hx) as (_ & _ & (q & y & Hxq & Hy & _) & _). exists q. split; [done|]. intros ->. apply lease_at_Some in Hy as [Hy Hya].
    apply Hp. rewrite <- Hya. apply list_elem_of_fmap. by exists y. }
  split; [|split].
  - apply (tinv_env _ _ _ _ _ _ _ _ _ (proj2 Hi)); [unfold MAX64; lia|done|by rewrite (fl_base _ _ _ _ T2)|done| |].
    + intros q Hqq [H1 H2]. assert (q ∉ l) as Hn. { intros Hin. destruct (fl_in _ _ _ _ T2 q Hin) as [Ht _]. by pose proof (page_bit_fun _ _ _ _ Ht H1). }
      split; [by apply (fl_out _ _ _ _ T2)|]. by rewrite (T5 q), decide_False.
    + intros x Hx (q & y & H1 & H2 & H3). destruct (Hlp x Hx) as (q' & Hq' & Hne). exists q, y. rewrite Hoth by congruence. done.
  - split.
    + intros (x & Hx & Hin)%list_elem_of_fmap. destruct (Ea x Hin) as ((_ & ?) & _). change (gid g') with (cg_sequence w + 1) in Hx. lia.
    + unfold cells_of at 1 2. rewrite Hmem. change (cg_owner (g_view g')) with (cg_owner (g_view g)). rewrite Hgv. cbn [cg_owner g_view new_group].
      split; [done|]. intros c [->|Hcc]%elem_of_cons; apply not_enrolled; [done|by apply Hen].
    + rewrite Har. split; [done|]. intros q Hin (x & Hx & Hxl)%list_elem_of_bind. destruct (Ea x Hxl) as (_ & _ & _ & Hf). destruct (Hf q Hx) as [Hh _].
      destruct (fl_in _ _ _ _ T2 q Hin) as [Ht _]. by pose proof (page_bit_fun _ _ _ _ Ht Hh).
    + intros (x & Hx & Hin)%list_elem_of_fmap. destruct (Hlp x Hin) as (q & Hqx & Hne). rewrite Hqx in Hx. change (g_lease g') with (Some p) in Hx. congruence.
    + split; [change (gid g') with (cg_sequence w + 1); lia|]. split; [|split].
      * split; rewrite ?Hv; cbn [cg_count cg_members cg_holder cg_epoch cg_owner cg_revoked cg_memory_bytes cg_physical_pages];
          [lia|exact Hlm|lia|unfold MAX64; lia|exact Hgo| |].
        -- change (g_members g') with (g_members g). rewrite Hgm, Htk, <- Hmem. by rewrite Hv.
        -- exists l. split; [done|]. split; [lia|]. split; [done|]. rewrite Hu, Hl. split; lia.
      * eexists p, _. split; [done|]. split; [exact Hreg|]. rewrite Hv. done.
      * rewrite Har. intros q Hin. split; [by apply (fl_in _ _ _ _ T2 q Hin)|]. exists zero_frame. rewrite (T5 q), decide_True by done.
        split; [done|]. unfold zero_frame. by rewrite length_replicate.
  - split; rewrite ?Hv; try done; [|by rewrite Har]. unfold cells_of. rewrite Hmem. by rewrite Hv.
Qed.

Lemma ret3 {A B C} (a a' : A) (b b' : B) (c c' : C) : Ret (a, b, c) = Ret (a', b', c') → a = a' ∧ b = b' ∧ c = c'.
Proof. by intros [= -> -> ->]. Qed.

(** The arguments of a creation are as wide as announced. *)
Definition create_args (membersp : option (list anx_uuid)) (count pages : Z) : Prop :=
  0 ≤ count ∧ 0 ≤ pages ∧ ∀ ms, membersp = Some ms → count ≤ Z.of_nat (length ms).

(** Creation fails and everything it took is given back, or the new group joins
    the table. *)
Lemma group_create_cases fuel current alloc now fresh lease_alloc ownerp membersp count pages out w r v w' :
  winv w → fresh_alloc lease_alloc (w_leases w) → create_args membersp count pages →
  anx_continuation_group_create fuel current alloc now fresh lease_alloc ownerp membersp count pages out w = Ret (r, v, w') →
  (r ≠ ANX_OK ∧ undone w w') ∨
  (r = ANX_OK ∧ current = None ∧ ∃ owner ms i g, ownerp = Some owner ∧ membersp = Some ms ∧ v = Some (g_view g) ∧
     groups w !! i = Some None ∧ groups w' = <[i := Some g]> (groups w) ∧ cg_sequence w' = cg_sequence w + 1 ∧
     born w owner (take (Z.to_nat count) ms) pages g ∧
     tinv_of w' (live_groups (groups w)) ∧ joins_of w' g (live_groups (groups w))).
Proof.
  intros Hi Hfr (Hc0 & Hp0 & Hms). destruct (ti_pages _ _ _ _ _ (proj2 Hi)) as [Hpi Hpb]. pose proof (ti_leases _ _ _ _ _ (proj2 Hi)) as Hli.
  assert (undone w w) as Hsame by (by apply undone_quiet). unfold anx_continuation_group_create.
  destruct current as [c|]; [intros [= <- _ <-]; by left|]. rewrite bool_decide_false by (by intros []).
  destruct ownerp as [owner|]; [|intros [= <- _ <-]; by left]. destruct membersp as [ms|]; [|intros [= <- _ <-]; by left]. specialize (Hms ms eq_refl).
  destruct (_ || _) eqn:Eg; [intros [= <- _ <-]; by left|].
  assert (1 ≤ count ≤ 4 ∧ 1 ≤ pages ≤ 4) as [Hc Hp] by (unfold ANX_CONTINUATION_GROUP_MEMBERS, ANX_CONTINUATION_GROUP_PAGES in *; to_prop; lia). clear Eg.
  destruct alloc; cbn [negb]; [|intros [= <- _ <-]; by left]. set (g0 := new_group owner ms count pages).
  destruct (enroll_owner _ _ _ _ _) as [[[r1 g1] w1]| |] eqn:E1; [|done..]. cbn [obind].
  apply enroll_owner_spec in E1 as (Q1 & S1 & M1 & H1).
  destruct (if r1 =? ANX_OK then enroll_loop _ _ _ _ _ _ _ else _) as [[[r2 g2] w2]| |] eqn:E2; [|done..]. cbn [obind].
  assert (quiet w w2 ∧ same_plan g0 g2 ∧ (r2 = ANX_OK → g_owner g2 = Some owner ∧ enrolled (groups w) owner = false ∧
    take (Z.to_nat count) (g_members g2) = Some <$> take (Z.to_nat count) (cg_members (g_view g2)) ∧
    ∀ j, (j < Z.to_nat count)%nat → enrolled_at owner (groups w) g2 j)) as (Q2 & S2 & H2).
  { destruct (Z.eqb_spec r1 ANX_OK) as [->|Hr1]; [|injection E2 as <- <- <-; done]. destruct (H1 eq_refl) as [O1 N1].
    apply enroll_loop_spec in E2 as (Q2 & S2 & O2 & H2). split; [by etrans|]. split; [by etrans|]. intros Hr2.
    destruct S1 as [V1 _ _]. destruct S2 as [V2 _ _]. rewrite V1 in H2. rewrite V2, V1. destruct H2 as [H3 H4]; [done|by rewrite M1| |lia|done|intros; lia|].
    { cbn. rewrite length_app, length_take, length_replicate. unfold ANX_CONTINUATION_GROUP_MEMBERS. lia. }
    split; [congruence|]. split; [done|]. split; [done|]. intros j Hj. rewrite (qu_groups _ _ Q1) in H4.
    destruct (H4 j Hj) as [A B C]. rewrite V1 in A, B, C. split; by rewrite V2, V1. }
  destruct S2 as [V2 L2 P2].
  destruct (Z.eqb_spec r2 ANX_OK) as [->|Hr2]; cbn [obind].
  2:{ destruct (Z.eqb_spec r2 ANX_OK); [done|]. destruct (undo_reserved g2 w w2 Hi) as (w3 & E3 & U3); [done..|]. rewrite E3. cbn [obind].
      intros [= <- _ <-]. by left. }
  destruct (H2 eq_refl) as (O2 & N2 & T2 & A2). pose proof Q2 as [Qg Qs Qf Qp Ql].
  destruct (reserve_group_cases now fresh lease_alloc pages (empty_slot (groups w2)) g2 w2) as (r3 & g3 & w3 & E3 & Hcase); rewrite ?Ql, ?Qp; try done; try lia.
  { rewrite V2. cbn. apply u32_range. }
  rewrite E3. cbn [obind]. destruct Hcase as [(Hr3 & -> & L3 & P3 & _)|(p & l & -> & Hseq & Hslot & Hls & Hlsi & Hg3 & Hs3 & _ & Htk & Hlen & -> & Hr3)].
  - destruct (Z.eqb_spec r3 ANX_OK); [done|]. destruct (undo_reserved g3 w w2 Hi) as (w4 & E4 & U4); [done|by rewrite P3, P2|done|]. rewrite E4. cbn [obind].
    intros [= <- _ <-]. by left.
  - assert (p ∉ l_addr <$> lease_list (w_leases w2)) as Hpf by (rewrite Ql; by apply Hfr).
    set (g3 := with_pages _ _ _) in *.
    assert (area_of g3 = l) as Har by (unfold area_of, g3; cbn; apply real_area, Htk).
    destruct Hr3 as [[-> Hll]| ->].
    2:{ change (ANX_ENOMEM =? ANX_OK) with false. cbv iota.
        destruct (undo_taken g3 w w2 w3 p now fresh (cg_memory_bytes (g_view g2)) l) as (w4 & E4 & U4); [done..|]. rewrite E4. cbn [obind].
        intros [= <- _ <-]. by left. }
    change (ANX_OK =? ANX_OK) with true. cbv iota zeta. change (g_lease g3) with (Some p). change (cg_memory_bytes (g_view g3)) with (cg_memory_bytes (g_view g2)).
    rewrite V2 in Hls. rewrite V2. rewrite Ql in Hls.
    destruct (born_joins w w2 w3 owner ms count pages l p now fresh g2) as (B1 & B2 & B3); [done|done|done|done|done|done|congruence|done..|by rewrite Hls in Hlsi|].
    intros (<- & <- & <-)%ret3. right. split; [done|]. split; [done|].
    eexists owner, ms, (empty_slot (groups w2)), _. do 2 (split; [done|]). split; [reflexivity|].
    split; [rewrite <- Qg; apply empty_slot_spec; pose proof (empty_slot_le (groups w2)); destruct Hi as [Hlg _]; rewrite Qg in *; lia|].
    assert (cg_sequence w3 = cg_sequence w) as Hsq by congruence. assert (groups w3 = groups w) as Hgq by congruence.
    assert (cg_physical_pages (g_view g2) = 0) as Hph by (by rewrite V2).
    split; [cbn; by rewrite Hgq|]. split; [cbn; by rewrite Hsq|].
    unfold g3. rewrite Hph, Z.add_0_l. cbn -[u32 with_pages]. rewrite Hsq, Hls. split; [exact B3|]. split; [exact B1|exact B2].
Qed.

Lemma create_ok fuel current alloc now fresh lease_alloc ownerp membersp count pages out w r v w' :
  winv w → fresh_alloc lease_alloc (w_leases w) → create_args membersp count pages →
  anx_continuation_group_create fuel current alloc now fresh lease_alloc ownerp membersp count pages out w = Ret (r, v, w') → step_ok w w'.
Proof.
  intros Hi Hf Ha He. destruct (group_create_cases _ _ _ _ _ _ _ _ _ _ _ _ _ _ _ Hi Hf Ha He) as
    [[_ Hu]|(_ & _ & owner & ms & i & g & _ & _ & _ & Hs & Hg & Hsq & Hb & Ht & Hj)]; [by apply undone_ok|].
  apply (add_ok w w' i g); [done|done|done|rewrite (bo_id _ _ _ _ _ Hb); lia|lia|]. done.
Qed.
