(* ===== verification/Continuations.v ===== *)
(** * Continuation groups: runs and theorems

    Runs interleave calls of the group interface by any cells with whatever the
    rest of the kernel does, as long as that leaves the pages, frames and leases
    of the groups alone. *)

From S2P Require Import Prelude PageAlloc Uuid Cell CellScope SchedDomain Sched CellStore EffectFence Meta Review StateObject ObjectProofs Identity Lease Continuation ContinuationProofs.
#[local] Open Scope Z_scope.

(** What the rest of the kernel may do: anything to cells, domains, fences and
    identities; to pages and leases what does not concern a group. *)
Record environment (w w' : cworld) : Prop := {
  en_groups : groups w' = groups w;
  en_sequence : cg_sequence w' = cg_sequence w;
  en_pages : Page.page_inv (w_pages w') ∧ 0 < Page.heap_base (w_pages w');
  en_leases : lease_inv (w_leases w');
  en_frames : ∀ g p, g ∈ live_groups (groups w) → p ∈ area_of g → page_held (w_pages w') p ∧ frames w' !! p = frames w !! p;
  en_group_leases : ∀ g p, g ∈ live_groups (groups w) → g_lease g = Some p → registered (w_leases w') p = registered (w_leases w) p;
}.

Inductive cstep (w : cworld) : cworld → Prop :=
  | SCreate fuel current alloc now fresh lease_alloc ownerp membersp count pages out r v w' :
      fresh_alloc lease_alloc (w_leases w) → create_args membersp count pages →
      anx_continuation_group_create fuel current alloc now fresh lease_alloc ownerp membersp count pages out w = Ret (r, v, w') → cstep w w'
  | SHandoff fuel current now id epoch target out r v w' :
      anx_continuation_group_handoff fuel current now id epoch target out w = Ret (r, v, w') → cstep w w'
  | SCheck fuel now cell r w' : anx_continuation_group_check fuel now cell w = Ret (r, w') → cstep w w'
  | SAccess fuel current now id epoch offset buffer size write r b w' :
      0 ≤ offset → 0 ≤ size ≤ Z.of_nat (length buffer) →
      memory_access fuel current now id epoch offset (Some buffer) size write w = Ret (r, b, w') → cstep w w'
  | SRevoke current id epoch out r v w' : anx_continuation_group_revoke current id epoch out w = Ret (r, v, w') → cstep w w'
  | SDestroy current id r w' : anx_continuation_group_destroy current id w = Ret (r, w') → cstep w w'
  | SOther w' : environment w w' → cstep w w'.

(** The table before the first group. *)
Record group_boot (w : cworld) : Prop := {
  gb_groups : groups w = replicate ANX_CONTINUATION_GROUP_MAX None;
  gb_sequence : cg_sequence w = 0;
  gb_pages : Page.page_inv (w_pages w) ∧ 0 < Page.heap_base (w_pages w);
  gb_leases : lease_inv (w_leases w);
}.

Definition reached (w : cworld) : Prop := ∃ w0, group_boot w0 ∧ rtc cstep w0 w.

Lemma check_quiet fuel now cell w r w' : anx_continuation_group_check fuel now cell w = Ret (r, w') → quiet w w'.
Proof.
  unfold anx_continuation_group_check. destruct cell as [p|]; [|by intros [= _ <-]]. destruct (w_cells w !! p) as [c|]; [|done].
  destruct (member_group _ _) as [[g m]|]; [|by intros [= _ <-]]. destruct (negb (bool_decide _)); [by intros [= _ <-]|].
  destruct (group_current _ _ _ _) as [[r1 w1]| |] eqn:E1; [|done..]. apply group_current_quiet in E1. cbn [obind].
  destruct (negb (r1 =? ANX_OK)); [by intros [= _ <-]|]. destruct (negb (Z.of_nat m =? _)); [by intros [= _ <-]|].
  intros E2%member_current_quiet. by etrans.
Qed.

Lemma environment_ok w w' : winv w → environment w w' → step_ok w w'.
Proof.
  intros Hi [E1 E2 [E3 E4] E5 E6 E7]. split; [|split; [lia|]].
  - destruct Hi as [Hl Ht]. split; [by rewrite E1|]. rewrite E1, E2. pose proof (ti_seq _ _ _ _ _ Ht).
    apply (tinv_env _ _ _ _ _ _ _ _ _ Ht); [lia|done|done|done| |].
    + intros p (g & Hp & Hg)%list_elem_of_bind [_ Hf]. destruct (E6 g p Hg Hp) as [H1 H2]. split; [done|]. by rewrite H2.
    + intros g Hg (p & l & Hp & Hl' & Hrest). exists p, l. by rewrite (E7 g p Hg Hp).
  - rewrite E1. intros g Hg. left. by exists g.
Qed.

Lemma cstep_ok w w' : winv w → cstep w w' → step_ok w w'.
Proof.
  intros Hi [fuel current alloc now fresh la o ms count pages out r v w1 Hf Ha E|fuel current now id epoch t out r v w1 E|fuel now c r w1 E
    |fuel current now id epoch off buf size wr r b w1 Ho Hs E|current id epoch out r v w1 E|current id r w1 E|w1 E].
  - exact (create_ok _ _ _ _ _ _ _ _ _ _ _ _ _ _ _ Hi Hf Ha E).
  - exact (handoff_ok _ _ _ _ _ _ _ _ _ _ _ Hi E).
  - apply quiet_ok; [done|by eapply check_quiet].
  - exact (access_step_ok _ _ _ _ _ _ _ _ _ _ _ _ _ Hi Ho (proj1 Hs) (proj2 Hs) E).
  - exact (revoke_ok _ _ _ _ _ _ _ _ Hi E).
  - exact (destroy_ok _ _ _ _ _ Hi E).
  - by apply environment_ok.
Qed.

Lemma boot_winv w : group_boot w → winv w.
Proof.
  intros [E1 E2 E3 E4]. split; [by rewrite E1|]. rewrite E1, E2. change (live_groups _) with ([] : list continuation_group).
  split; [unfold MAX64; lia|done|done|constructor|constructor|constructor|constructor|]. intros g Hg. by apply not_elem_of_nil in Hg.
Qed.

Lemma csteps_ok w w' : winv w → rtc cstep w w' → step_ok w w'.
Proof.
  intros Hi Hr. revert Hi. induction Hr as [w|w1 w2 w3 Hs _ IH]; intros Hi; [by apply quiet_ok|].
  destruct (cstep_ok _ _ Hi Hs) as [H1 H2]. destruct (IH H1) as [H3 H4]. split; [done|]. by etrans.
Qed.

Lemma reached_winv w : reached w → winv w.
Proof. intros (w0 & H0 & Hr). by apply (csteps_ok w0 w (boot_winv _ H0) Hr). Qed.

(** ** Exclusive enrolment *)

Lemma same_id w g1 g2 : winv w → g1 ∈ live_groups (groups w) → g2 ∈ live_groups (groups w) → gid g1 = gid g2 → g1 = g2.
Proof.
  intros [_ [_ _ _ Hn _ _ _ _]] H1 H2 E. apply list_elem_of_lookup_1 in H1 as [i Hi]. apply list_elem_of_lookup_1 in H2 as [j Hj].
  assert (i = j) as ->; [|congruence]. eapply (NoDup_lookup _ _ _ (gid g1) Hn); rewrite list_lookup_fmap, ?Hi, ?Hj; cbn; congruence.
Qed.

Lemma cells_disjoint w g1 g2 c : winv w → g1 ∈ live_groups (groups w) → g2 ∈ live_groups (groups w) → c ∈ cells_of g1 → c ∈ cells_of g2 →
  g1 = g2.
Proof.
  intros Hi H1 H2 C1 C2. destruct (decide (gid g1 = gid g2)) as [E|E]; [by eapply same_id|]. exfalso.
  destruct Hi as [_ [_ _ _ _ Hc _ _ _]]. apply list_elem_of_split in H1 as (l1 & l2 & HL). rewrite HL in *. rewrite bind_app in Hc.
  change ((g1 :: l2) ≫= cells_of) with (cells_of g1 ++ (l2 ≫= cells_of)) in Hc. apply NoDup_app in Hc as (_ & Ha & (_ & Hb & _)%NoDup_app).
  apply elem_of_app in H2 as [H2|[->|H2]%elem_of_cons]; [|done|].
  - apply (Ha c); [|apply elem_of_app; by left]. apply list_elem_of_bind. by exists g2.
  - apply (Hb c); [done|]. apply list_elem_of_bind. by exists g2.
Qed.

Lemma cells_nodup w g : winv w → g ∈ live_groups (groups w) → NoDup (cells_of g).
Proof.
  intros [_ [_ _ _ _ Hc _ _ _]] Hg. apply list_elem_of_split in Hg as (l1 & l2 & HL). rewrite HL, bind_app in Hc.
  change ((g :: l2) ≫= cells_of) with (cells_of g ++ (l2 ≫= cells_of)) in Hc. apply NoDup_app in Hc as (_ & _ & Hc). by apply NoDup_app in Hc as [Hc _].
Qed.

Lemma lease_distinct w g1 g2 : winv w → g1 ∈ live_groups (groups w) → g2 ∈ live_groups (groups w) → g_lease g1 = g_lease g2 → g1 = g2.
Proof.
  intros [_ [_ _ _ _ _ _ Hn _]] H1 H2 E. apply list_elem_of_lookup_1 in H1 as [i Hi]. apply list_elem_of_lookup_1 in H2 as [j Hj].
  assert (i = j) as ->; [|congruence]. eapply (NoDup_lookup _ _ _ (g_lease g1) Hn); rewrite list_lookup_fmap, ?Hi, ?Hj; cbn; congruence.
Qed.

(** ** The holder *)

Lemma member_group_Some l c g m : member_group l c = Some (g, m) → g ∈ live_groups l ∧ member_index g c = Some m.
Proof.
  rewrite live_elem. induction l as [|[x|] l IH]; cbn; [done| |].
  - destruct (member_index x c) as [k|] eqn:E; [intros [= <- <-]; split; [by left|done]|]. intros [H1 H2]%IH. split; [by right|done].
  - intros [H1 H2]%IH. split; [by right|done].
Qed.

Lemma member_index_elem g c : c ∈ members_of (g_view g) → is_Some (member_index g c).
Proof.
  unfold member_index. induction (members_of (g_view g)) as [|x l IH]; [by intros ?%not_elem_of_nil|]. cbn. intros Hc.
  destruct (anx_uuid_compare c x =? 0) eqn:E; [done|]. apply elem_of_cons in Hc as [->|Hc].
  - apply Z.eqb_neq in E. exfalso. by apply E, anx_uuid_compare_eq.
  - destruct (IH Hc) as [i ->]. done.
Qed.

Lemma member_group_elem l c g : g ∈ live_groups l → c ∈ members_of (g_view g) → is_Some (member_group l c).
Proof.
  rewrite live_elem. intros Hg Hc. induction l as [|[x|] l IH]; cbn; [by apply not_elem_of_nil in Hg| |].
  - destruct (member_index x c) as [k|] eqn:E; [done|]. apply elem_of_cons in Hg as [[= ->]|Hg]; [|by apply IH].
    destruct (member_index_elem x c Hc) as [? ?]. congruence.
  - apply elem_of_cons in Hg as [|Hg]; [done|by apply IH].
Qed.

Lemma lookup_engine_Some l id x : lookup_engine l id = Some x → x ∈ l ∧ revoked x = false ∧ engine_id x = id.
Proof.
  induction l as [|y l IH]; cbn; [done|]. destruct (negb (revoked y) && uuid_eqb (engine_id y) id) eqn:E.
  - intros [= ->]. apply andb_true_iff in E as [E1 E2]. apply uuid_eqb_true in E2. to_prop. split; [by left|done].
  - intros (H1 & H2)%IH. split; [by right|done].
Qed.

(** A lease that covers the group's scratch area, now. *)
Definition lease_good (now : Z) (w : cworld) (g : continuation_group) : Prop :=
  ∃ p l, g_lease g = Some p ∧ registered (w_leases w) p = Some l ∧ revoked l = false ∧ engine_id l = cg_lease_id (g_view g) ∧
    l_parent l = None ∧ mem_reserved_bytes l = cg_memory_bytes (g_view g) ∧ mem_used_bytes l = cg_memory_bytes (g_view g) ∧
    (l_expires_at l = 0 ∨ now < l_expires_at l).

Lemma lease_current_good now g w : lease_inv (w_leases w) → lease_current now g w = Ret ANX_OK → lease_good now w g.
Proof.
  intros Hi. unfold lease_current. destruct (g_lease g) as [p|] eqn:Hp; [|done]. destruct (negb (bool_decide _)) eqn:El; [done|].
  apply negb_false_iff, bool_decide_eq_true in El. destruct (registered (w_leases w) p) as [l|] eqn:Hl; [|done].
  destruct (_ || _) eqn:E1; [done|]. destruct (_ && _) eqn:E2; [done|]. intros _. unfold anx_lease_lookup in El.
  destruct (lookup_engine _ _) as [x|] eqn:Ex; [|done]. injection El as Ea. apply lookup_engine_Some in Ex as (H1 & H2 & H3).
  destruct (lease_at_Some _ _ _ Hl) as [H4 H5]. assert (x = l) as -> by (apply (lease_inj _ _ _ (li_uniq _ Hi) H1 H4); congruence).
  unfold is_root in E1. apply andb_false_iff in E2. to_prop. exists p, l. do 5 (split; [done|]). split; [done|]. split; [done|].
  destruct E2 as [E2|E2]; to_prop; [by left|by right].
Qed.

Lemma cell_current_alive fuel now p id w w' : cell_current fuel now p id w = Ret (ANX_OK, w') →
  ∃ cell, p ≫= (w_cells w !!.) = Some cell ∧ anx_cell_status_terminal (status cell) = false.
Proof.
  unfold cell_current. destruct (p ≫= _) as [cell|]; [|done]. destruct (anx_cell_status_terminal (status cell)) eqn:E; [done|]. intros _. by exists cell.
Qed.

Lemma group_current_good fuel now g w w' : lease_inv (w_leases w) → group_current fuel now g w = Ret (ANX_OK, w') →
  cg_revoked (g_view g) = false ∧ lease_good now w g.
Proof.
  intros Hi. unfold group_current. destruct (cg_revoked (g_view g)); [done|]. destruct (_ ≫= _) as [o|]; [|done]. destruct (negb _); [done|].
  destruct (cell_current _ _ _ _ _) as [[r1 w1]| |] eqn:E1; [|done..]. apply cell_current_quiet in E1. cbn [obind].
  destruct (Z.eqb_spec r1 ANX_OK) as [->|Hr]; cbn [negb]; [|intros [= -> _]; done].
  destruct (lease_current now g w1) as [r2| |] eqn:E2; [|done..]. cbn [obind]. intros [= -> _]. split; [done|].
  apply lease_current_good in E2; [|by rewrite (qu_leases _ _ E1)]. unfold lease_good in *. by rewrite (qu_leases _ _ E1) in E2.
Qed.

(** Cells are stored under their own ids. *)
Definition keyed (st : cell_store) : Prop := ∀ c n, st !! c = Some n → cid n = c.

Lemma check_holder w g c fuel now w' : winv w → keyed (w_cells w) → g ∈ live_groups (groups w) → c ∈ members_of (g_view g) →
  anx_continuation_group_check fuel now (Some c) w = Ret (ANX_OK, w') →
  members_of (g_view g) !! Z.to_nat (cg_holder (g_view g)) = Some c ∧ cg_revoked (g_view g) = false ∧ lease_good now w g ∧
  ∃ cell w1, w_cells w1 !! c = Some cell ∧ quiet w w1 ∧ parent_cid cell = cg_owner (g_view g) ∧ anx_cell_status_terminal (status cell) = false.
Proof.
  intros Hi Hk Hg Hc. unfold anx_continuation_group_check. destruct (w_cells w !! c) as [cell|] eqn:Hcell; [|done]. rewrite (Hk _ _ Hcell).
  destruct (member_group_elem _ _ _ Hg Hc) as [[g1 m] Em]. rewrite Em. destruct (member_group_Some _ _ _ _ Em) as [Hg1 Hm].
  destruct (winv_group w g1 Hi Hg1) as (Hok & _). destruct (member_index_lt _ _ _ Hok Hm) as [Hmc Hlt].
  assert (g1 = g) as -> by (eapply (cells_disjoint w g1 g c Hi); [done|done|right; by eapply list_elem_of_lookup_2|by right]).
  destruct (negb (bool_decide _)) eqn:Ep; [done|]. apply negb_false_iff, bool_decide_eq_true in Ep.
  pose proof (ti_leases _ _ _ _ _ (proj2 Hi)) as Hli.
  destruct (group_current fuel now g w) as [[r1 w1]| |] eqn:E1; [|done..]. cbn [obind]. pose proof (group_current_quiet _ _ _ _ _ _ E1) as Q1.
  destruct (Z.eqb_spec r1 ANX_OK) as [->|]; cbn [negb]; [|by intros [= -> _]].
  destruct (Z.eqb_spec (Z.of_nat m) (cg_holder (g_view g))) as [Eh|]; cbn [negb]; [|done].
  destruct (group_current_good _ _ _ _ _ Hli E1) as [Hr Hlg]. intros E2. split; [by rewrite <- Eh, Nat2Z.id|]. split; [done|]. split; [done|].
  unfold member_current in E2. rewrite Ep in E2. destruct (_ ≫= _) as [x|] eqn:Ex; [|done]. destruct (negb _) eqn:Epar; [done|].
  apply negb_false_iff, Z.eqb_eq, anx_uuid_compare_eq in Epar. apply cell_current_alive in E2 as (y & Hy & Ht). rewrite Ex in Hy. injection Hy as <-.
  exists x, w1. done.
Qed.

(** C14: At most one member of a group may run.  In any reachable state, a member
    of a group that the scheduler's check admits is the group's current holder,
    its parent is the group's owner and it has not ended, the group is not
    revoked, and its lease is live and reserves exactly the scratch area; no
    other member of the group passes the check.  A cell that is in no group is
    admitted as usual. *)
Theorem single_holder w g c fuel now w' :
  reached w → keyed (w_cells w) → g ∈ live_groups (groups w) → c ∈ members_of (g_view g) →
  anx_continuation_group_check fuel now (Some c) w = Ret (ANX_OK, w') →
  members_of (g_view g) !! Z.to_nat (cg_holder (g_view g)) = Some c ∧ cg_revoked (g_view g) = false ∧ lease_good now w g ∧
  (∃ cell w1, w_cells w1 !! c = Some cell ∧ quiet w w1 ∧ parent_cid cell = cg_owner (g_view g) ∧ anx_cell_status_terminal (status cell) = false) ∧
  (∀ fuel2 now2 c2 w2, c2 ∈ members_of (g_view g) → anx_continuation_group_check fuel2 now2 (Some c2) w = Ret (ANX_OK, w2) → c2 = c) ∧
  (∀ fuel2 now2 c2 n, w_cells w !! c2 = Some n → (∀ g', g' ∈ live_groups (groups w) → c2 ∉ members_of (g_view g')) →
     anx_continuation_group_check fuel2 now2 (Some c2) w = Ret (ANX_OK, w)).
Proof.
  intros Hr%reached_winv Hk Hg Hc He. destruct (check_holder w g c fuel now w' Hr Hk Hg Hc He) as (H1 & H2 & H3 & H4).
  do 4 (split; [done|]). split.
  - intros fuel2 now2 c2 w2 Hc2 He2. destruct (check_holder w g c2 fuel2 now2 w2 Hr Hk Hg Hc2 He2) as (H5 & _). congruence.
  - intros fuel2 now2 c2 n Hn Hno. unfold anx_continuation_group_check. rewrite Hn, (Hk _ _ Hn).
    destruct (member_group (groups w) c2) as [[g' m]|] eqn:E; [|done]. apply member_group_Some in E as [Hg' Hm].
    exfalso. apply (Hno g' Hg'). apply index_of_lt in Hm. by eapply list_elem_of_lookup_2.
Qed.

(** Groups share nothing.  In any reachable state no cell is owner or member
    of two groups, or twice in one; no page belongs to two groups and every page
    of a group is allocated; no lease serves two groups; and each group's id is
    its own. *)
Theorem groups_disjoint w g1 g2 :
  reached w → g1 ∈ live_groups (groups w) → g2 ∈ live_groups (groups w) →
  NoDup (cells_of g1) ∧ NoDup (area_of g1) ∧ (∀ p, p ∈ area_of g1 → page_held (w_pages w) p) ∧
  ((∃ c, c ∈ cells_of g1 ∧ c ∈ cells_of g2) ∨ (∃ p, p ∈ area_of g1 ∧ p ∈ area_of g2) ∨ g_lease g1 = g_lease g2 ∨ gid g1 = gid g2 → g1 = g2).
Proof.
  intros Hr%reached_winv H1 H2. destruct (winv_group w g1 Hr H1) as (_ & Hn & _). split; [by apply (cells_nodup w)|]. split; [done|].
  split; [intros p Hp; destruct Hr as [_ [_ _ _ _ _ _ _ He]]; by destruct (He g1 H1) as (_ & _ & _ & Hf); apply Hf|].
  intros [(c & C1 & C2)|[(p & P1 & P2)|[E|E]]]; [by eapply (cells_disjoint w)|by eapply (areas_disjoint w)|by apply (lease_distinct w)|by apply (same_id w)].
Qed.

(** The scratch area is an isolated flat memory.  An access that passes the
    checks always completes: a read delivers exactly the bytes of the group's
    area at the offset, across page boundaries, and changes nothing; a write
    replaces exactly those bytes; the areas of all other groups stay as they
    are, byte for byte.  An access that does not pass changes no area. *)
Theorem scratch_flat_memory fuel current now id epoch offset buffer size write w :
  reached w → 0 ≤ offset → 0 < size → size ≤ Z.of_nat (length buffer) → id ≠ 0 → epoch ≠ 0 →
  match access_check fuel current now id epoch offset size w with
  | Ret (r, Some g, w1) =>
      offset + size ≤ Z.of_nat (length (scratch w g)) ∧
      ∃ w', memory_access fuel current now id epoch offset (Some buffer) size write w =
          Ret (ANX_OK, Some (if write then buffer else splice 0 (take (Z.to_nat size) (drop (Z.to_nat offset) (scratch w g))) buffer), w') ∧
        groups w' = groups w ∧
        scratch w' g = (if write then splice (Z.to_nat offset) (take (Z.to_nat size) buffer) (scratch w g) else scratch w g) ∧
        ∀ g', g' ∈ live_groups (groups w) → g' ≠ g → scratch w' g' = scratch w g'
  | Ret (r, None, w1) => r ≠ ANX_OK ∧ memory_access fuel current now id epoch offset (Some buffer) size write w = Ret (r, Some buffer, w1) ∧ quiet w w1
  | Panic => memory_access fuel current now id epoch offset (Some buffer) size write w = Panic
  | OutOfFuel => memory_access fuel current now id epoch offset (Some buffer) size write w = OutOfFuel
  end.
Proof.
  intros Hr%reached_winv Ho Hs Hb Hid Hep.
  assert ((id =? 0) || (epoch =? 0) || (size =? 0) = false) as E0 by (rewrite !orb_false_iff, !Z.eqb_neq; lia).
  destruct (access_check fuel current now id epoch offset size w) as [[[r [g|]] w1]| |] eqn:Ec.
  - destruct (access_check_quiet _ _ _ _ _ _ _ _ _ _ _ Ec) as (Hq & -> & (i & Hf) & _ & Hrv & Hb1 & Hb2 & _).
    destruct (access_spec fuel current now id epoch offset buffer size write w g w1) as (fr' & E & _ & Hg & Hfr & Hout & Hfl); [done..|].
    destruct (winv_group w g Hr Hg) as (Hok & _ & Hfr0 & _). destruct (area_spec g Hok Hrv) as [_ Hm].
    split; [unfold scratch; rewrite flat_length by done; unfold PAGE, Page.ANX_PAGE_SIZE in *; lia|].
    eexists. split; [exact E|]. split; [cbn; by rewrite (qu_groups _ _ Hq)|]. split; [exact Hfl|].
    intros g' Hg' Hne. unfold scratch. apply flat_ext. intros p Hp. cbn. apply Hout. intros Hp'. apply Hne. by eapply (areas_disjoint w).
  - apply access_check_quiet in Ec as Hq. destruct Hq as [Hq Hn]. split; [done|]. unfold memory_access. rewrite E0, Ec. done.
  - unfold memory_access. by rewrite E0, Ec.
  - unfold memory_access. by rewrite E0, Ec.
Qed.

(** An access, a hand-over or a revocation under another epoch is refused. *)
Lemma stale_refused fuel current now id epoch offset buffer size write w r b w' g :
  winv w → g ∈ live_groups (groups w) → gid g = id → cg_epoch (g_view g) ≠ epoch →
  memory_access fuel current now id epoch offset (Some buffer) size write w = Ret (r, b, w') → r ≠ ANX_OK ∧ frames w' = frames w.
Proof.
  intros Hi Hg Hid Hep. unfold memory_access. destruct (_ || _); [by intros [= <- _ <-]|].
  destruct (access_check _ _ _ _ _ _ _ _) as [[[r1 [g1|]] w1]| |] eqn:Ec; [| |done..].
  - destruct (access_check_quiet _ _ _ _ _ _ _ _ _ _ _ Ec) as (_ & _ & (i & Hf) & He & _). destruct (find_group_Some _ _ _ _ Hf) as [_ Hid1].
    assert (g1 = g) as -> by (apply (same_id w); [done|by eapply find_group_live|done|congruence]). done.
  - apply access_check_quiet in Ec as [Hq Hn]. cbn [obind]. intros [= <- _ <-]. by rewrite (qu_frames _ _ Hq).
Qed.

(** A hand-over or a revocation invalidates what came before, for good.  Along
    any run a group keeps its id, owner, members, lease and size; whenever its
    holder, its pages or its revocation changed, its epoch has grown; a revoked
    group never changes again; an access that names an earlier epoch is refused
    and touches no memory; and once a group is gone its id is never used again. *)
Theorem group_epochs w w' g g' :
  reached w → rtc cstep w w' → g ∈ live_groups (groups w) →
  (g' ∈ live_groups (groups w') → gid g' = gid g →
     (g' = g ∨ advanced g g') ∧
     (cg_epoch (g_view g) < cg_epoch (g_view g') → ∀ fuel current now offset buffer size write r b w2,
        memory_access fuel current now (gid g) (cg_epoch (g_view g)) offset (Some buffer) size write w' = Ret (r, b, w2) →
        r ≠ ANX_OK ∧ frames w2 = frames w')) ∧
  ((∀ x, x ∈ live_groups (groups w') → gid x ≠ gid g) → ∀ w2 x, rtc cstep w' w2 → x ∈ live_groups (groups w2) → gid x ≠ gid g).
Proof.
  intros Hr%reached_winv Hs Hg. destruct (csteps_ok w w' Hr Hs) as [Hi' [Hq He]]. destruct (winv_group w g Hr Hg) as (_ & _ & _ & Hid). split.
  - intros Hg' Hgid. split.
    + destruct (He g' Hg') as [(g0 & Hg0 & Hev)|Hn]; [|lia]. assert (g0 = g) as ->; [|exact Hev].
      apply (same_id w); [done|done|done|]. destruct Hev as [->|[]]; congruence.
    + intros Hlt fuel current now offset buffer size write r b w2 Hm. assert (cg_epoch (g_view g') ≠ cg_epoch (g_view g)) as Hne by lia.
      exact (stale_refused _ _ _ _ _ _ _ _ _ _ _ _ _ g' Hi' Hg' Hgid Hne Hm).
  - intros Hno w2 x Hr2 Hx E. destruct (csteps_ok w' w2 Hi' Hr2) as [_ [_ He2]]. destruct (He2 x Hx) as [(y & Hy & Hev)|Hn]; [|lia].
    apply (Hno y Hy). destruct Hev as [->|[]]; congruence.
Qed.

(** Groups give back what they take.  A creation that fails leaves the table,
    the leases, the number of free pages and the state of every page as they
    were, and does not write to a page in use; a destruction that succeeds
    clears the group's pages and returns them, as free pages, to the allocator,
    removes its lease, drops its references on its cells and empties its slot;
    a revocation does the same to the pages at once. *)
Theorem group_resources_returned w :
  reached w →
  (∀ fuel current alloc now fresh lease_alloc ownerp membersp count pages out r v w',
     fresh_alloc lease_alloc (w_leases w) → create_args membersp count pages →
     anx_continuation_group_create fuel current alloc now fresh lease_alloc ownerp membersp count pages out w = Ret (r, v, w') →
     r ≠ ANX_OK → undone w w') ∧
  (∀ current id w', anx_continuation_group_destroy current id w = Ret (ANX_OK, w') →
     ∃ i g p, groups w !! i = Some (Some g) ∧ gid g = id ∧ groups w' = <[i := None]> (groups w) ∧ pages_returned g w w' ∧
       g_lease g = Some p ∧ registered (w_leases w') p = None ∧ w_cells w' = w_cells (release_group_cells g w)) ∧
  (∀ current id epoch out v w', anx_continuation_group_revoke current id epoch out w = Ret (ANX_OK, v, w') →
     ∃ i g, groups w !! i = Some (Some g) ∧ gid g = id ∧ groups w' = <[i := Some (revoked_group g)]> (groups w) ∧ pages_returned g w w').
Proof.
  intros Hi%reached_winv. split; [|split].
  - intros fuel current alloc now fresh la o ms count pages out r v w' Hf Ha E Hr.
    destruct (group_create_cases _ _ _ _ _ _ _ _ _ _ _ _ _ _ _ Hi Hf Ha E) as [[_ Hu]|[? _]]; done.
  - intros current id w' E. destruct (group_destroy_cases _ _ _ _ _ Hi E) as [[? _]|(_ & _ & i & g & s & Hs & Hid & Hg & _ & Hc & Hp & <- & _ & _ & Hgone)]; [done|].
    destruct (winv_open w i g Hi Hs) as (_ & _ & _ & _ & (p & l & Hgl & _) & _). exists i, g, p.
    do 5 (split; [done|]). split; [by apply Hgone|done].
  - intros current id epoch out v w' E. destruct (group_revoke_cases _ _ _ _ _ _ _ _ Hi E) as
      [[? _]|(_ & _ & i & g & s & Hs & Hid & _ & _ & _ & Hg & _ & _ & Hp & _)]; [done|]. by exists i, g.
Qed.

(** ** Calls return *)

(** Well-formed cells, and fuel for the walks up their parents. *)
Record sound_store (st : cell_store) (fuel : nat) : Prop := {
  ss_ok : store_ok 2 st;
  ss_depths : depths_ok st;
  ss_lineage : lineage_ok st;
  ss_fuel : enough_fuel st fuel;
}.

Lemma scope_returns fuel st p cell : sound_store st fuel → st !! p = Some cell → ∃ r, anx_cell_check_scope fuel st (Some p) = Ret (r, st).
Proof.
  intros [H1 H2 H3 H4] Hp. destruct (scope_walk_spec st p cell fuel p cell) as (r & E & _); [done..|by left|by eapply H4|].
  exists r. unfold hold in E. by rewrite uuid_eqb_refl in E.
Qed.

Lemma domain_check_returns fuel now st t p cell : sound_store st fuel → st !! p = Some cell →
  ∃ r, anx_sched_domain_check fuel now st t (Some p) = Ret (r, st).
Proof.
  intros Hs Hp. pose proof Hs as [H1 H2 H3 H4]. unfold anx_sched_domain_check, check. cbn [mbind option_bind]. rewrite Hp.
  destruct (H1 p cell Hp) as [Hcid _].
  pose proof (check_walk_chain st t p cell (ANX_SCHED_DOMAIN_DEPTH_MAX - 1) cell cell false false 0 ANX_PRIO_LOW now) as E.
  assert (hold st p (cid cell) = st) as Ehold by (unfold hold; by rewrite Hcid, uuid_eqb_refl).
  rewrite Ehold in E. rewrite E; [|done|done|done|by rewrite Hcid|by left|by left].
  destruct (chain_check _ _ _ _ _ _ _ _ _) as [r m]. destruct (_ && m); [by eapply scope_returns|by exists r].
Qed.

Lemma cell_current_returns fuel now p id w cell : sound_store (w_cells w) fuel → w_cells w !! p = Some cell →
  ∃ r F, cell_current fuel now (Some p) id w = Ret (r, w <| w_fences := F |>).
Proof.
  intros Hs Hp. unfold cell_current. cbn [mbind option_bind]. rewrite Hp.
  assert (∀ r F, Ret (r, w <| w_cells := w_cells w |> <| w_fences := F |>) = Ret (r, w <| w_fences := F |>) :> outcome (Z * cworld)) as Hid
    by (by destruct w).
  destruct (anx_cell_status_terminal _); [exists ANX_EPERM, (w_fences w); by destruct w|].
  destruct (scope_returns fuel _ p cell Hs Hp) as [r1 ->]. cbn [obind].
  destruct (if _ =? ANX_OK then anx_sched_domain_check fuel now (w_cells w) (w_domains w) (Some p) else _) as [[r2 st]| |] eqn:E;
    destruct (domain_check_returns fuel now (w_cells w) (w_domains w) p cell Hs Hp) as [rd Erd]; rewrite Erd in E; destruct (_ =? ANX_OK) in E; try done;
    injection E as <- <-; cbn [obind]; destruct (if _ =? ANX_OK then anx_identity_admit _ _ else _) as [r3 rec];
    destruct (if _ =? ANX_OK then _ else (_, w_fences w)) as [r4 F]; exists r4, F; apply Hid.
Qed.

(** The cells of a group exist. *)
Definition present (w : cworld) (g : continuation_group) : Prop := ∀ c, c ∈ cells_of g → is_Some (w_cells w !! c).

Lemma lease_current_returns now g w : lease_held (w_leases w) g → ∃ r, lease_current now g w = Ret r.
Proof.
  intros (p & l & Hp & Hl & _). unfold lease_current. rewrite Hp, Hl. repeat (case_match; [by eexists|]). by eexists.
Qed.

Section returning.
Context (w : cworld) (fuel : nat) (grp : continuation_group).
Context (Hinv : winv w) (Hstore : sound_store (w_cells w) fuel) (Hlive : grp ∈ live_groups (groups w)) (Hpresent : present w grp).

Lemma group_current_returns now F : ∃ r F', group_current fuel now grp (w <| w_fences := F |>) = Ret (r, w <| w_fences := F' |>).
Proof.
  destruct (winv_group w grp Hinv Hlive) as (Hok & _). unfold group_current. destruct (cg_revoked (g_view grp)); [by eexists _, F|].
  rewrite (go_owner grp Hok). cbn [mbind option_bind]. change (w_cells (w <| w_fences := F |>)) with (w_cells w). destruct (Hpresent (cg_owner (g_view grp))) as [o Ho]; [by left|]. rewrite Ho.
  destruct (negb _); [by eexists _, F|].
  match goal with |- context [cell_current _ _ _ _ ?x] => destruct (cell_current_returns fuel now (cg_owner (g_view grp)) (g_identity grp) x o Hstore Ho) as (r1 & F1 & ->) end.
  cbn [obind]. destruct (negb _); [by eexists _, F1|]. destruct (proj2 Hinv) as [_ _ _ _ _ _ _ He]. destruct (He grp Hlive) as (_ & _ & Hl & _).
  match goal with |- context [lease_current _ _ ?x] => destruct (lease_current_returns now grp x) as [r2 ->]; [done|] end. by eexists _, F1.
Qed.

Lemma member_pointer_spec m : (Z.of_nat m < cg_count (g_view grp)) → ∃ c, members_of (g_view grp) !! m = Some c ∧ member_pointer grp m = Some c.
Proof.
  intros Hm. destruct (winv_group w grp Hinv Hlive) as (Hok & _). destruct Hok as [H1 H2 _ _ _ H5 _].
  destruct (lookup_lt_is_Some_2 (members_of (g_view grp)) m) as [c Hc]; [unfold members_of; rewrite length_take; lia|]. exists c. split; [done|].
  unfold member_pointer, rd. rewrite Nat2Z.id, nth_lookup. rewrite <- (lookup_take_lt (g_members grp) (Z.to_nat (cg_count (g_view grp)))) by lia.
  rewrite H5, list_lookup_fmap, Hc. done.
Qed.

Lemma member_current_returns now F m : (Z.of_nat m < cg_count (g_view grp)) →
  ∃ r F', member_current fuel now grp m (w <| w_fences := F |>) = Ret (r, w <| w_fences := F' |>).
Proof.
  intros Hm. destruct (member_pointer_spec m Hm) as (c & Hc & Hp). unfold member_current. rewrite Hp. cbn [mbind option_bind].
  change (w_cells (w <| w_fences := F |>)) with (w_cells w).
  destruct (Hpresent c) as [n Hn]; [right; by eapply list_elem_of_lookup_2|]. rewrite Hn. destruct (negb _); [by eexists _, F|].
  match goal with |- context [cell_current _ _ _ ?i ?x] => destruct (cell_current_returns fuel now c i x n Hstore Hn) as (r1 & F1 & ->) end.
  by eexists _, F1.
Qed.

Lemma any_running_returns F l : (∀ p, p ∈ l → ∃ c, p = Some c ∧ is_Some (w_cells w !! c)) → ∃ b, any_running (w <| w_fences := F |>) l = Ret b.
Proof.
  induction l as [|p l IH]; intros Hl; [by eexists|]. destruct (Hl p) as (c & -> & n & Hn); [by left|]. cbn [any_running]. unfold running.
  cbn [mbind option_bind]. change (w_cells (w <| w_fences := F |>)) with (w_cells w). rewrite Hn. cbn [obind]. destruct (runtime_active n); [by eexists|]. apply IH. intros q Hq. apply Hl. by right.
Qed.

Lemma group_active_returns F : ∃ b, group_active grp (w <| w_fences := F |>) = Ret b.
Proof.
  destruct (winv_group w grp Hinv Hlive) as (Hok & _). apply any_running_returns. intros p [->|Hp]%elem_of_cons.
  - exists (cg_owner (g_view grp)). split; [apply Hok|]. apply Hpresent. by left.
  - rewrite (go_pointers grp Hok) in Hp. apply list_elem_of_fmap in Hp as (c & -> & Hc). exists c. split; [done|]. apply Hpresent. by right.
Qed.
Lemma same_fences (x : cworld) : x <| w_fences := w_fences x |> = x.
Proof. by destruct x. Qed.

Lemma group_returns now : ∃ r F, group_current fuel now grp w = Ret (r, w <| w_fences := F |>).
Proof. destruct (group_current_returns now (w_fences w)) as (r & F & E). rewrite same_fences in E. eauto. Qed.

Lemma active_returns : ∃ b, group_active grp w = Ret b.
Proof. destruct (group_active_returns (w_fences w)) as (b & E). rewrite same_fences in E. eauto. Qed.

Lemma handoff_check_returns now epoch target : ∃ r m w', handoff_check fuel now epoch target grp w = Ret (r, m, w').
Proof.
  unfold handoff_check. destruct (negb (_ =? epoch)); [eauto|]. destruct (group_returns now) as (r1 & F1 & ->). cbn [obind].
  destruct (negb (r1 =? ANX_OK)); [eauto|]. destruct (group_active_returns F1) as [b ->]. cbn [obind]. destruct b; [eauto|].
  destruct (member_index grp target) as [m|] eqn:Em; [|eauto]. destruct (_ =? cg_holder _); [eauto|].
  destruct (winv_group w grp Hinv Hlive) as (Hok & _). destruct (member_index_lt _ _ _ Hok Em) as [Hc Hm].
  destruct (member_pointer_spec m ltac:(lia)) as (c & Hc' & Hp). destruct (Hpresent c) as [n Hn]; [right; by eapply list_elem_of_lookup_2|].
  destruct (member_current_returns now F1 m ltac:(lia)) as (r2 & F2 & ->). rewrite Hp. cbn [mbind option_bind].
  change (w_cells (w <| w_fences := F1 |>)) with (w_cells w). rewrite Hn. destruct (negb (bool_decide _)); [eauto|]. cbn [obind].
  destruct (negb (r2 =? ANX_OK)); [eauto|]. destruct (epoch =? MAX64); eauto.
Qed.

Lemma access_returns current now id epoch offset size i : find_group (groups w) id = Some (i, grp) →
  ∃ r gp w', access_check fuel current now id epoch offset size w = Ret (r, gp, w') ∧ w_cells w' = w_cells w.
Proof.
  intros Hf. unfold access_check. rewrite Hf. cbn [fmap option_fmap option_map snd]. destruct (winv_group w grp Hinv Hlive) as (Hok & _).
  destruct (negb (inspect _ _ =? ANX_OK)); [eauto|]. destruct (match current with Some _ => _ | None => _ end); [eauto|].
  destruct (negb (cg_epoch _ =? epoch)); [eauto|]. destruct (group_returns now) as (r1 & F1 & ->). cbn [obind].
  destruct (negb (r1 =? ANX_OK)); [eauto|]. destruct (go_holder grp Hok).
  destruct (member_current_returns now F1 (Z.to_nat (cg_holder (g_view grp))) ltac:(lia)) as (r2 & F2 & ->). cbn [obind].
  destruct (negb (r2 =? ANX_OK)); [eauto|]. destruct (_ || _); eauto.
Qed.
End returning.

(** C16: The group interface never gets stuck.  In any reachable state with
    well-formed cells among which those of the groups exist, and with fuel for
    the depth of the cell tree, the scheduler's check, a read or a write, a
    hand-over, a revocation and a destruction all return (no dangling pointer
    is followed, no page is freed twice, every loop ends), and the check gives
    back every reference it takes. *)
Theorem group_calls_return w fuel :
  reached w → sound_store (w_cells w) fuel → (∀ g, g ∈ live_groups (groups w) → present w g) →
  (∀ now c, is_Some (w_cells w !! c) → ∃ r w', anx_continuation_group_check fuel now (Some c) w = Ret (r, w') ∧ w_cells w' = w_cells w) ∧
  (∀ current now id epoch offset buffer size write, 0 ≤ offset → 0 ≤ size ≤ Z.of_nat (length buffer) →
     ∃ x, memory_access fuel current now id epoch offset (Some buffer) size write w = Ret x ∧ w_cells x.2 = w_cells w) ∧
  (∀ current now id epoch target out, ∃ x, anx_continuation_group_handoff fuel current now id epoch target out w = Ret x) ∧
  (∀ current id epoch out, ∃ x, anx_continuation_group_revoke current id epoch out w = Ret x) ∧
  (∀ current id, ∃ x, anx_continuation_group_destroy current id w = Ret x).
Proof.
  intros Hi%reached_winv Hs Hp. assert (keyed (w_cells w)) as Hk by (intros c n Hn; apply (ss_ok _ _ Hs c n Hn)).
  split; [|split; [|split; [|split]]].
  - intros now c [n Hn]. unfold anx_continuation_group_check. rewrite Hn, (Hk _ _ Hn).
    destruct (member_group (groups w) c) as [[g m]|] eqn:Em; [|eauto]. apply member_group_Some in Em as [Hg Hm].
    destruct (negb (bool_decide _)); [eauto|]. destruct (group_returns w fuel g Hi Hs Hg (Hp g Hg) now) as (r1 & F1 & ->). cbn [obind].
    destruct (negb (r1 =? ANX_OK)); [eauto|]. destruct (negb (_ =? cg_holder _)); [eauto|]. destruct (winv_group w g Hi Hg) as (Hok & _).
    destruct (member_index_lt _ _ _ Hok Hm) as [_ Hlt]. destruct (member_current_returns w fuel g Hi Hs Hg (Hp g Hg) now F1 m ltac:(lia)) as (r2 & F2 & ->). eauto.
  - intros current now id epoch offset buffer size write Ho Hsz. pose proof (access_spec fuel current now id epoch offset buffer size write w) as Hacc.
    unfold memory_access in *. destruct (_ || _) eqn:E0; [eauto|]. apply orb_false_iff in E0 as [[E1 E2]%orb_false_iff E3]. to_prop.
    destruct (find_group (groups w) id) as [[i g]|] eqn:Ef.
    + apply find_group_live in Ef as Hg.
      destruct (access_returns w fuel g Hi Hs Hg (Hp g Hg) current now id epoch offset size i Ef) as (r & gp & w1 & E & Hw). rewrite E in Hacc |- *. cbn [obind] in *.
      destruct gp as [g'|]; [|eexists; split; [done|exact Hw]].
      assert (r = ANX_OK) as -> by (by apply access_check_quiet in E as (_ & ? & _)).
      destruct (Hacc g' w1 Hi Ho ltac:(lia) ltac:(lia) E1 E2 eq_refl) as (fr & -> & _). eexists. split; [done|exact Hw].
    + unfold access_check. rewrite Ef. cbn. eauto.
  - intros current now id epoch [target|] out; unfold anx_continuation_group_handoff; (destruct (bool_decide _); [eauto|]); [|eauto]. destruct (_ || _); [eauto|].
    destruct (find_group (groups w) id) as [[i g]|] eqn:Ef; [|eauto]. apply find_group_live in Ef.
    destruct (handoff_check_returns w fuel g Hi Hs Ef (Hp g Ef) now epoch target) as (r & m & w1 & ->). cbn [obind]. destruct (negb _); eauto.
  - intros current id epoch out. unfold anx_continuation_group_revoke. destruct (bool_decide _); [eauto|]. destruct (_ || _ || _); [eauto|].
    destruct (find_group (groups w) id) as [[i g]|] eqn:Ef; [|eauto]. destruct (find_group_Some _ _ _ _ Ef) as [Hsl _]. apply find_group_live in Ef.
    destruct (_ || _); [eauto|]. destruct (active_returns w g Hi Ef (Hp g Ef)) as [b ->]. cbn [obind]. destruct b; [eauto|]. destruct (epoch =? MAX64); [eauto|].
    destruct (winv_open w i g Hi Hsl) as (Hpi & Hl & _ & Hn & Hh & Hheld). destruct (drop_lease_spec false w g Hl Hh) as (r & s & Ed & _).
    cbv zeta iota in Ed. rewrite Ed. cbn [obind]. destruct (negb _); [eauto|].
    match goal with |- context [free_pages _ ?x] => destruct (free_pages_spec g x) as (st & fr & Efp & _); [done..|] end. cbv zeta in Efp. rewrite Efp. cbn [obind]. eauto.
  - intros current id. unfold anx_continuation_group_destroy. destruct (bool_decide _); [eauto|]. destruct (id =? 0); [eauto|].
    destruct (find_group (groups w) id) as [[i g]|] eqn:Ef; [|eauto]. destruct (find_group_Some _ _ _ _ Ef) as [Hsl _]. apply find_group_live in Ef.
    destruct (active_returns w g Hi Ef (Hp g Ef)) as [b ->]. cbn [obind]. destruct b; [eauto|].
    destruct (winv_open w i g Hi Hsl) as (Hpi & Hl & _ & Hn & Hh & Hheld). destruct (drop_lease_spec true w g Hl Hh) as (r & s & Ed & _).
    cbv zeta iota in Ed. rewrite Ed. cbn [obind]. destruct (negb _); [eauto|].
    match goal with |- context [free_pages _ ?x] => destruct (free_pages_spec g x) as (st & fr & Efp & _); [done..|] end. cbv zeta in Efp. rewrite Efp. cbn [obind]. eauto.
Qed.

(** ** With the scheduler *)

(** [anx_continuation_group_check] as the scheduler calls it, on the store it has
    at that moment. *)
Definition group_gate (fuel : nat) (now : Z) (w : cworld) (st : cell_store) (cell : anx_cell) : Z :=
  match anx_continuation_group_check fuel now (Some (cid cell)) (w <| w_cells := st |>) with Ret (r, _) => r | _ => ANX_EPERM end.

Lemma admissible_gate gate fuel st t now queue e n : store_wf st → enough_fuel st fuel → admissible gate fuel st t now queue e →
  st !! cell_id e = Some n → gate (bump (cell_id e) st) (held n) = ANX_OK.
Proof.
  intros Hwf Hf Ha Hn. unfold admissible, entry_allowed in Ha. destruct (wf_lookup st Hwf _ _ Hn) as [E _]. rewrite E in Ha.
  destruct (held_check fuel st t Hwf Hf _ _ now queue (e_priority e) Hn) as (r & Er). rewrite Er in Ha. cbn [obind] in Ha.
  destruct (anx_cell_status_terminal _); [discriminate Ha|]. destruct (Z.eqb_spec r ANX_OK); [by injection Ha|]. injection Ha as ->. done.
Qed.

Lemma reached_cells w st : reached w → reached (w <| w_cells := st |>).
Proof.
  intros Hr. pose proof (reached_winv w Hr) as [_ Ht]. destruct Hr as (w0 & H0 & Hr). exists w0. split; [done|]. eapply rtc_r; [done|]. apply SOther.
  split; try done; [apply Ht|apply Ht|]. intros g p Hg Hp. split; [|done]. destruct (ti_each _ _ _ _ _ Ht g Hg) as (_ & _ & _ & Hf). by apply Hf.
Qed.

(** C15: The scheduler runs a group one member at a time.  When the scheduler,
    with the continuation groups as its admission check, takes a cell from a
    queue and the cell is a member of a group, then it is the group's current
    holder and the group is not revoked; siblings waiting in the queues are not
    handed out until the group is handed over to them. *)
Theorem dispatched_member_holds fuel now w t s queue c s' st' g :
  reached w → store_wf (w_cells w) → enough_fuel (w_cells w) fuel → sched_ok s → initialized s = true → 0 ≤ queue < ANX_QUEUE_CLASS_COUNT →
  anx_sched_dequeue (group_gate fuel now w) fuel now (w_cells w) t s queue = Ret (ANX_OK, Some c, s', st') →
  g ∈ live_groups (groups w) → c ∈ members_of (g_view g) → is_Some (w_cells w !! c) →
  members_of (g_view g) !! Z.to_nat (cg_holder (g_view g)) = Some c ∧ cg_revoked (g_view g) = false ∧ lease_good now w g ∧ st' = w_cells w.
Proof.
  intros Hr Hwf Hf Hs Hi Hq He Hg Hc [n Hn]. unfold anx_sched_dequeue in He. destruct (_ || _) eqn:G1; [lia|]. rewrite Hi in He. cbn [negb] in He.
  destruct (so_queues s Hs queue Hq) as [_ Hdep].
  destruct (dequeue_loop_spec (group_gate fuel now w) fuel (w_cells w) t Hwf Hf now queue _ _ Hdep) as (r & o & l' & dep' & E & _ & Hcase).
  rewrite E in He. cbn [obind] in He. injection He as -> -> _ <-. destruct Hcase as [(_ & dr & e & _ & [= ->] & Ha & _)|(? & _)]; [|done].
  pose proof (admissible_gate _ _ _ _ _ _ _ _ Hwf Hf Ha Hn) as Hgate. unfold group_gate in Hgate.
  assert (cid (held n) = cell_id e) as Hcid by (apply (wf_ok _ Hwf (cell_id e) n Hn)). rewrite Hcid in Hgate.
  set (w2 := w <| w_cells := bump (cell_id e) (w_cells w) |>) in *.
  destruct (anx_continuation_group_check fuel now (Some (cell_id e)) w2) as [[r2 w3]| |] eqn:E2; [|done..]. subst r2.
  assert (keyed (w_cells w2)) as Hk.
  { intros c' n' (n0 & Hn0 & [-> | ->])%bump_inv; apply (wf_ok _ Hwf c' n0 Hn0). }
  destruct (check_holder w2 g (cell_id e) fuel now w3 (reached_winv _ (reached_cells _ _ Hr)) Hk Hg Hc E2) as (H1 & H2 & H3 & _). done.
Qed.

(** ** Example: an owner and two children *)

Definition parent_cell : anx_cell :=
  zero_cell (Uuid 1 1) <| constraints ::= λ k, k <| max_child_cells := 4 |> <| max_recursion_depth := 4 |> |>
    <| policy ::= λ p, p <| allow_recursive_cells := true |> <| exec_max_recursion_depth := 4 |> |>
    <| child_cids := [Uuid 2 2; Uuid 3 3] |>.
Definition child_cell (c : anx_uuid) : anx_cell := zero_cell c <| parent_cid := Uuid 1 1 |> <| recursion_depth := 1 |>.
Definition family : cell_store :=
  <[Uuid 1 1 := parent_cell]> (<[Uuid 2 2 := child_cell (Uuid 2 2)]> {[Uuid 3 3 := child_cell (Uuid 3 3)]}).

Definition cg_boot : cworld :=
  CWorld (replicate ANX_CONTINUATION_GROUP_MAX None) 0 ∅ Page.demo anx_lease_init family domain_init [] identity_boot.

Definition made : outcome (Z * option anx_continuation_group_view * cworld) :=
  anx_continuation_group_create 5 None true 7 (Uuid 9 9) (Some 100) (Some (Uuid 1 1)) (Some [Uuid 2 2; Uuid 3 3]) 2 2 true cg_boot.

Definition w_made : cworld := match made with Ret (_, _, w) => w | _ => cg_boot end.
Definition g_made : continuation_group := default (new_group (Uuid 1 1) [] 1 1) (groups w_made !! 0%nat ≫= id).

Lemma made_eq : ∃ v, made = Ret (ANX_OK, v, w_made).
Proof.
  assert (match made with Ret (r, _, _) => r =? ANX_OK | _ => false end = true) as H by (vm_compute; reflexivity).
  unfold w_made. destruct made as [[[r v] w]| |]; [|done..]. apply Z.eqb_eq in H as ->. by exists v.
Qed.

Lemma cg_boot_ok : group_boot cg_boot.
Proof.
  destruct Page.demo_ok as (H1 & H2 & _). split; [done|done| |apply lease_inv_init].
  change (Page.page_inv Page.demo ∧ 0 < Page.heap_base Page.demo). rewrite H2. split; [exact H1|lia].
Qed.

Lemma w_made_step : cstep cg_boot w_made.
Proof.
  destruct made_eq as [v E]. eapply SCreate; [| |exact E].
  - intros p _ Hp. by apply not_elem_of_nil in Hp.
  - split; [lia|]. split; [lia|]. intros ms [= <-]. done.
Qed.

Lemma w_made_reached : reached w_made.
Proof. exists cg_boot. split; [apply cg_boot_ok|]. apply rtc_once, w_made_step. Qed.

Lemma g_made_live : g_made ∈ live_groups (groups w_made).
Proof.
  apply live_elem. apply (list_elem_of_lookup_2 _ 0%nat). unfold g_made.
  assert (bool_decide (is_Some (groups w_made !! 0%nat ≫= id)) = true) as H by (vm_compute; reflexivity).
  destruct (groups w_made !! 0%nat) as [[g|]|]; [done|discriminate H..].
Qed.

(** A well-formed store, by computation. *)
Definition store_check (st : cell_store) (fuel : nat) : bool :=
  forallb (λ '(c, n), uuid_eqb (cid n) c && (dep_count n <=? ANX_MAX_CELL_DEPS) && (0 <=? refcount n) && (refcount n + 3 <=? MAX32)
      && (0 <=? recursion_depth n) && (recursion_depth n <? 2 ^ 32) && (0 <=? exec_max_recursion_depth (policy n))
      && (exec_max_recursion_depth (policy n) <? 2 ^ 32) && (Z.to_nat (recursion_depth n) <? fuel)%nat
      && match st !! parent_cid n with Some p => recursion_depth p <? recursion_depth n | None => true end) (map_to_list st).

Lemma store_check_sound st fuel : store_check st fuel = true → store_wf st ∧ sound_store st fuel.
Proof.
  unfold store_check. rewrite forallb_forall. intros H.
  assert (∀ c n, st !! c = Some n → cid n = c ∧ dep_count n ≤ ANX_MAX_CELL_DEPS ∧ 0 ≤ refcount n ∧ refcount n + 3 ≤ MAX32 ∧
    is_u32 (recursion_depth n) ∧ is_u32 (exec_max_recursion_depth (policy n)) ∧ (Z.to_nat (recursion_depth n) < fuel)%nat ∧
    ∀ p, st !! parent_cid n = Some p → recursion_depth p < recursion_depth n) as Hall.
  { intros c n Hn. assert (In (c, n) (map_to_list st)) as Hin by (by apply list_elem_of_In, elem_of_map_to_list).
    specialize (H _ Hin). cbn in H. unfold is_u32. rewrite !andb_true_iff in H.
    destruct H as [[[[[[[[[H1 H2] H3] H4] H5] H6] H7] H8] H9] H10].
    apply uuid_eqb_true in H1. apply Nat.ltb_lt in H9. to_prop. do 7 (split; [done || lia|]). intros p Hp. rewrite Hp in H10. lia. }
  assert (store_ok 3 st) as H1 by (intros c n Hn; destruct (Hall c n Hn) as (? & ? & ? & ? & _); done).
  assert (depths_ok st) as H2 by (intros c n Hn; destruct (Hall c n Hn) as (_ & _ & _ & _ & ? & ? & _); done).
  assert (lineage_ok st) as H3 by (intros c n p Hn; by apply (Hall c n Hn)).
  split; [by split|]. split; [|done|done|].
  - eapply store_ok_le; [|exact H1]. lia.
  - intros c n Hn. by apply (Hall c n Hn).
Qed.

Lemma family_sound : store_wf (w_cells w_made) ∧ sound_store (w_cells w_made) 5.
Proof. apply store_check_sound. vm_compute. reflexivity. Qed.

Lemma family_keyed : keyed (w_cells w_made).
Proof. intros c n Hn. apply (ss_ok _ _ (proj2 family_sound) c n Hn). Qed.

Definition run_code {A} (x : outcome (Z * A)) : Z := match x with Ret (r, _) => r | _ => 1 end.

(** The first member passes, the second does not. *)
Lemma single_holder_witness :
  run_code (anx_continuation_group_check 5 8 (Some (Uuid 2 2)) w_made) = ANX_OK ∧
  run_code (anx_continuation_group_check 5 8 (Some (Uuid 3 3)) w_made) = ANX_EBUSY ∧
  members_of (g_view g_made) !! Z.to_nat (cg_holder (g_view g_made)) = Some (Uuid 2 2) ∧ lease_good 8 w_made g_made.
Proof.
  assert (run_code (anx_continuation_group_check 5 8 (Some (Uuid 2 2)) w_made) = ANX_OK) as H by (vm_compute; reflexivity).
  split; [exact H|]. split; [vm_compute; reflexivity|].
  destruct (anx_continuation_group_check 5 8 (Some (Uuid 2 2)) w_made) as [[r w]| |] eqn:E; [|discriminate H..]. cbn in H. subst r.
  assert (Uuid 2 2 ∈ members_of (g_view g_made)) as Hm.
  { assert (members_of (g_view g_made) = [Uuid 2 2; Uuid 3 3]) as -> by (vm_compute; reflexivity). by left. }
  destruct (single_holder w_made g_made (Uuid 2 2) 5 8 w w_made_reached family_keyed g_made_live Hm E) as (H1 & _ & H3 & _).
  split; [exact H1|exact H3].
Defined.

Lemma groups_disjoint_witness : NoDup (cells_of g_made) ∧ (∀ p, p ∈ area_of g_made → page_held (w_pages w_made) p).
Proof.
  destruct (groups_disjoint w_made g_made g_made w_made_reached g_made_live g_made_live) as (H1 & _ & H3 & _). split; [exact H1|exact H3].
Defined.

(** A write across the page boundary, checked against the flat memory. *)
Lemma scratch_flat_memory_witness :
  ∃ w1 w', access_check 5 None 8 1 1 4090 8 w_made = Ret (ANX_OK, Some g_made, w1) ∧
    memory_access 5 None 8 1 1 4090 (Some [1; 2; 3; 4; 5; 6; 7; 8]) 8 true w_made = Ret (ANX_OK, Some [1; 2; 3; 4; 5; 6; 7; 8], w') ∧
    scratch w' g_made = splice 4090 [1; 2; 3; 4; 5; 6; 7; 8] (scratch w_made g_made).
Proof.
  pose proof (scratch_flat_memory 5 None 8 1 1 4090 [1; 2; 3; 4; 5; 6; 7; 8] 8 true w_made w_made_reached
    ltac:(lia) ltac:(lia) ltac:(vm_compute; discriminate) ltac:(lia) ltac:(lia)) as H.
  assert (match access_check 5 None 8 1 1 4090 8 w_made with Ret (_, Some g, _) => gid g =? 1 | _ => false end = true) as Hc by (vm_compute; reflexivity).
  destruct (access_check 5 None 8 1 1 4090 8 w_made) as [[[r [g|]] w1]| |] eqn:E; [|discriminate Hc..].
  destruct (access_check_quiet _ _ _ _ _ _ _ _ _ _ _ E) as (_ & Hr & (i & Hf) & _). subst r. apply Z.eqb_eq in Hc.
  assert (g = g_made) as ->.
  { apply (same_id w_made); [apply reached_winv, w_made_reached|by eapply find_group_live|apply g_made_live|].
    rewrite Hc. vm_compute. reflexivity. }
  destruct H as (_ & w' & H1 & _ & H2 & _). exists w1, w'. split; [reflexivity|]. split; [exact H1|exact H2].
Defined.

(** Handed over to the second member, and then destroyed. *)
Definition handed : outcome (Z * option anx_continuation_group_view * cworld) :=
  anx_continuation_group_handoff 5 None 9 1 1 (Some (Uuid 3 3)) true w_made.
Definition w_handed : cworld := match handed with Ret (_, _, w) => w | _ => w_made end.
Definition g_handed : continuation_group := default g_made (groups w_handed !! 0%nat ≫= id).

Lemma handed_eq : ∃ v, handed = Ret (ANX_OK, v, w_handed).
Proof.
  assert (match handed with Ret (r, _, _) => r =? ANX_OK | _ => false end = true) as H by (vm_compute; reflexivity).
  unfold w_handed. destruct handed as [[[r v] w]| |]; [|done..]. apply Z.eqb_eq in H as ->. by exists v.
Qed.

Lemma g_handed_live : g_handed ∈ live_groups (groups w_handed).
Proof.
  apply live_elem. apply (list_elem_of_lookup_2 _ 0%nat). unfold g_handed.
  assert (bool_decide (is_Some (groups w_handed !! 0%nat ≫= id)) = true) as H by (vm_compute; reflexivity).
  destruct (groups w_handed !! 0%nat) as [[g|]|]; [done|discriminate H..].
Qed.

(** After the hand-over a write under the old epoch is refused. *)
Lemma group_epochs_witness :
  advanced g_made g_handed ∧
  run_code (match memory_access 5 (Some (Uuid 2 2)) 9 1 1 0 (Some [1]) 1 true w_handed with Ret (r, b, w) => Ret (r, w) | _ => Panic end) ≠ ANX_OK.
Proof.
  destruct handed_eq as [v E]. assert (rtc cstep w_made w_handed) as Hr by (apply rtc_once; eapply SHandoff; exact E).
  assert (gid g_handed = gid g_made) as Hid by (vm_compute; reflexivity).
  assert (cg_epoch (g_view g_made) < cg_epoch (g_view g_handed)) as Hep by (vm_compute; reflexivity).
  destruct (group_epochs w_made w_handed g_made g_handed w_made_reached Hr g_made_live) as [H _].
  destruct (H g_handed_live Hid) as [[Heq|Had] Hold]; [rewrite Heq in Hep; lia|]. split; [exact Had|].
  destruct (memory_access 5 (Some (Uuid 2 2)) 9 1 1 0 (Some [1]) 1 true w_handed) as [[[r b] w]| |] eqn:Em; [|discriminate..]. cbn.
  assert (gid g_made = 1 ∧ cg_epoch (g_view g_made) = 1) as [G1 G2] by (vm_compute; split; reflexivity).
  specialize (Hold Hep 5%nat (Some (Uuid 2 2)) 9 0 [1] 1 true r b w). rewrite G1, G2 in Hold. by destruct (Hold Em).
Defined.

Lemma group_resources_returned_witness :
  ∃ w' g p, anx_continuation_group_destroy None 1 w_made = Ret (ANX_OK, w') ∧ pages_returned g w_made w' ∧
    g_lease g = Some p ∧ registered (w_leases w') p = None.
Proof.
  assert (run_code (anx_continuation_group_destroy None 1 w_made) = ANX_OK) as Hc by (vm_compute; reflexivity).
  destruct (group_resources_returned w_made w_made_reached) as (_ & H & _). specialize (H None 1).
  destruct (anx_continuation_group_destroy None 1 w_made) as [[r w']| |]; [|discriminate Hc..]. cbn in Hc. subst r.
  destruct (H w' eq_refl) as (i & g & p & _ & _ & _ & H1 & H2 & H3 & _). exists w', g, p. split; [reflexivity|]. split; [exact H1|]. split; [exact H2|exact H3].
Defined.

Lemma group_calls_return_witness :
  (∃ x, anx_continuation_group_revoke None 1 1 true w_made = Ret x) ∧ ∃ x, anx_continuation_group_destroy None 1 w_made = Ret x.
Proof.
  assert (∀ g, g ∈ live_groups (groups w_made) → present w_made g) as Hp.
  { intros g Hg. assert (length (live_groups (groups w_made)) = 1%nat) as Hl by (vm_compute; reflexivity).
    assert (g = g_made) as ->.
    { pose proof g_made_live as Hm. destruct (live_groups (groups w_made)) as [|x [|y l]]; [discriminate Hl| |discriminate Hl].
      apply list_elem_of_singleton in Hg, Hm. congruence. }
    assert (cells_of g_made = [Uuid 1 1; Uuid 2 2; Uuid 3 3]) as Hc by (vm_compute; reflexivity). unfold present. rewrite Hc.
    intros c Hin. rewrite !elem_of_cons, elem_of_nil in Hin.
    assert (Forall (λ c, bool_decide (is_Some (w_cells w_made !! c)) = true) [Uuid 1 1; Uuid 2 2; Uuid 3 3]) as Hall
      by (repeat constructor; vm_compute; reflexivity).
    rewrite Forall_forall in Hall. apply (bool_decide_eq_true_1 (is_Some (w_cells w_made !! c))). apply Hall. rewrite !elem_of_cons, elem_of_nil. exact Hin. }
  destruct (group_calls_return w_made 5 w_made_reached (proj2 family_sound) Hp) as (_ & _ & _ & H4 & H5). split; [apply H4|apply H5].
Defined.

(** The first member, queued and taken. *)
Definition member_queued : sched_state :=
  match anx_sched_enqueue (group_gate 5 8 w_made) 5 None true 8 (w_cells w_made) domain_init sched_boot (Some (Uuid 2 2)) 2 1 with
  | Ret (_, s, _) => s | _ => sched_boot end.

Lemma dispatched_member_holds_witness :
  ∃ s' st', anx_sched_dequeue (group_gate 5 8 w_made) 5 8 (w_cells w_made) domain_init member_queued 2 = Ret (ANX_OK, Some (Uuid 2 2), s', st') ∧
    members_of (g_view g_made) !! Z.to_nat (cg_holder (g_view g_made)) = Some (Uuid 2 2) ∧ st' = w_cells w_made.
Proof.
  pose proof family_sound as [Hwf [_ _ _ S4]].
  destruct (sched_enqueue_fifo (group_gate 5 8 w_made) 5 None true 8 (w_cells w_made) domain_init sched_boot (Uuid 2 2) 2 1 Hwf S4 sched_ok_boot)
    as (r & s1 & E & Hok & _).
  assert (member_queued = s1) as Hs by exact (f_equal (λ x, match x with Ret (_, s, _) => s | _ => sched_boot end) E). rewrite <- Hs in Hok.
  assert (match anx_sched_dequeue (group_gate 5 8 w_made) 5 8 (w_cells w_made) domain_init member_queued 2 with
    | Ret (r, Some c, _, _) => (r =? ANX_OK) && uuid_eqb c (Uuid 2 2) | _ => false end = true) as Hd by (vm_compute; reflexivity).
  destruct (anx_sched_dequeue _ 5 8 (w_cells w_made) domain_init member_queued 2) as [[[[r2 [c|]] s2] st2]| |] eqn:E2; [|discriminate Hd..].
  apply andb_true_iff in Hd as [H1%Z.eqb_eq H2%uuid_eqb_true]. subst r2 c. exists s2, st2. split; [reflexivity|].
  assert (initialized member_queued = true) as Hin by (vm_compute; reflexivity).
  assert (Uuid 2 2 ∈ members_of (g_view g_made)) as Hm.
  { assert (members_of (g_view g_made) = [Uuid 2 2; Uuid 3 3]) as -> by (vm_compute; reflexivity). by left. }
  assert (is_Some (w_cells w_made !! Uuid 2 2)) as Hp.
  { apply (bool_decide_eq_true_1 (is_Some (w_cells w_made !! Uuid 2 2))). vm_compute. reflexivity. }
  destruct (dispatched_member_holds 5 8 w_made domain_init member_queued 2 (Uuid 2 2) s2 st2 g_made w_made_reached Hwf S4 Hok Hin
    ltac:(vm_compute; split; [discriminate|reflexivity]) E2 g_made_live Hm Hp) as (G1 & _ & _ & G4). split; [exact G1|exact G4].
Defined.
