(* ===== verification/Namespace.v ===== *)
(** * Namespaces: [kernel/core/state/namespace.c], [namespace.h]

    A namespace is a tree of directories: an array of entries, each with a
    name, the OID bound to it and, when it is a directory, an array of its
    own.  Strings are lists of bytes without their terminator (so [anx_strcmp]
    is equality), a pointer into an array is an index, the used part of an array
    is a list and its allocated size a number beside it; writing behind the
    allocated size is [Panic].  Allocations consume the head of [mem].  The
    registry of namespaces is the kernel's hash table; a namespace pointer is
    the address its allocation returned. *)

From stdpp Require Import strings.
From S2P Require Import Prelude Uuid HashTable Cell CellStore Meta StateObject.
#[local] Open Scope Z_scope.

Definition ANX_NS_NAME_MAX : nat := 64.
Definition ANX_NS_SEGMENT_MAX : nat := 255.
Definition NS_HASH_BITS : Z := 4.
Definition SLASH : Z := 47.

(** ** Data *)

Inductive anx_ns_entry := NsEntry {
  e_name : list Z;
  e_oid : anx_uuid;
  e_children : option (list anx_ns_entry);
  e_child_cap : Z;
}.

Record anx_namespace := Namespace {
  ns_name : list Z;
  ns_root : list anx_ns_entry;
  ns_root_cap : Z;
}.

Record ns_registry := NsRegistry {
  ns_table : anx_htable;
  ns_heap : gmap node anx_namespace;
}.

Record anx_ns_list_entry := ListEntry { le_name : list Z; le_oid : anx_uuid; le_is_directory : bool }.

(** ** Registry *)

Fixpoint ns_in_bucket (R : ns_registry) (l : list node) (name : list Z) : option node :=
  match l with
  | [] => None
  | pos :: l =>
      match ns_heap R !! pos with
      | Some ns => if bool_decide (ns_name ns = name) then Some pos else ns_in_bucket R l name
      | None => ns_in_bucket R l name
      end
  end.

Definition ns_find (R : ns_registry) (name : list Z) : option node :=
  ns_in_bucket R (anx_htable_bucket (ns_table R) (anx_hash_bytes name)) name.

Definition ns_alloc (mem : list bool) (name : list Z) : option anx_namespace * list bool :=
  let '(ok, mem) := next_alloc mem in
  when negb ok ret (None, mem) ;;
  let '(ok, mem) := next_alloc mem in
  when negb ok ret (None, mem) ;;
  (Some (Namespace (anx_strlcpy name ANX_NS_NAME_MAX) [] 16), mem).

(** [anx_htable_add] of a namespace placed at [addr]. *)
Definition ns_register (R : ns_registry) (addr : node) (ns : anx_namespace) (name : list Z) : ns_registry :=
  NsRegistry (anx_htable_add (ns_table R) addr (anx_hash_bytes name)) (<[addr := ns]> (ns_heap R)).

Definition system_ns : list (list Z) :=
  [bytes_of "posix"; bytes_of "default"; bytes_of "system"; bytes_of "traces"]%string.

(** One turn of the loop of [anx_ns_init]. *)
Definition init_step (st : ns_registry * list bool) (an : node * list Z) : ns_registry * list bool :=
  match ns_alloc st.2 an.2 with
  | (Some ns, mem) => (ns_register st.1 an.1 ns an.2, mem)
  | (None, mem) => (st.1, mem)
  end.

(** [addrs]: where the four namespaces are allocated. *)
Definition anx_ns_init (addrs : list node) (mem : list bool) : ns_registry * list bool :=
  foldl init_step (NsRegistry (anx_htable_init NS_HASH_BITS) ∅, mem) (zip addrs system_ns).

Definition anx_ns_create (addr : node) (mem : list bool) (namep : option (list Z)) (R : ns_registry) : Z * ns_registry :=
  match namep with
  | None => (ANX_EINVAL, R)
  | Some name =>
      when bool_decide (length name = 0%nat) ret (ANX_EINVAL, R) ;;
      match ns_find R name with
      | Some _ => (ANX_EEXIST, R)
      | None =>
          match ns_alloc mem name with
          | (None, _) => (ANX_ENOMEM, R)
          | (Some ns, _) => (ANX_OK, ns_register R addr ns name)
          end
      end
  end.

(** ** Walking a path *)

(** The segment at the head of the path, and the path from its slash on. *)
Fixpoint scan_segment (path : list Z) : list Z * list Z :=
  match path with
  | [] => ([], [])
  | c :: rest =>
      if c =? SLASH then ([], path)
      else let '(segment, slash) := scan_segment rest in (c :: segment, slash)
  end.

(** [*slash ? slash + 1 : slash] *)
Definition after_slash (slash : list Z) : list Z := match slash with [] => [] | _ :: p => p end.

Definition skip_slash (path : list Z) : list Z :=
  match path with [] => [] | c :: p => if c =? SLASH then p else path end.

Definition entry_find (entries : list anx_ns_entry) (name : list Z) : option (nat * anx_ns_entry) :=
  list_find (λ e, e_name e = name) entries.

Fixpoint resolve_walk (fuel : nat) (entries : list anx_ns_entry) (path : list Z) : outcome (Z * option anx_uuid) :=
  match path, fuel with
  | [], _ => Ret (ANX_ENOENT, None)
  | _, O => OutOfFuel
  | _, S fuel =>
      let '(segment, slash) := scan_segment path in
      when (ANX_NS_SEGMENT_MAX <? length segment)%nat ret Ret (ANX_EINVAL, None) ;;
      match entry_find entries segment with
      | None => Ret (ANX_ENOENT, None)
      | Some (_, entry) =>
          match after_slash slash with
          | [] => Ret (ANX_OK, Some (e_oid entry))
          | path =>
              match e_children entry with
              | None => Ret (ANX_ENOENT, None)
              | Some children => resolve_walk fuel children path
              end
          end
      end
  end.

Definition anx_ns_resolve (R : ns_registry) (name path : list Z) : outcome (Z * option anx_uuid) :=
  match ns_find R name ≫= λ a, ns_heap R !! a with
  | None => Ret (ANX_ENOENT, None)
  | Some ns =>
      let path := skip_slash path in
      when bool_decide (path = []) ret Ret (ANX_EINVAL, None) ;;
      resolve_walk (length path) (ns_root ns) path
  end.

(** Append an entry, doubling the array when it is full.  The new array is
    written at [count]; [new_cap] is a 32-bit product. *)
Definition entry_add (entries : list anx_ns_entry) (cap : Z) (name : list Z) (oid : anx_uuid) (mem : list bool)
    : outcome (Z * list anx_ns_entry * Z * list bool) :=
  let count := Z.of_nat (length entries) in
  let put cap mem :=
    if count <? cap
    then Ret (ANX_OK, entries ++ [NsEntry (anx_strlcpy name (ANX_NS_SEGMENT_MAX + 1)) oid None 0], cap, mem)
    else Panic in
  if cap <=? count then
    let new_cap := u32 (cap * 2) in
    let '(ok, mem) := next_alloc mem in
    when negb ok ret Ret (ANX_ENOMEM, entries, cap, mem) ;;
    put new_cap mem
  else put cap mem.

(** [entry->child_cap = 8; entry->children = anx_zalloc(...)] *)
Definition make_dir (entry : anx_ns_entry) (ok : bool) : anx_ns_entry :=
  NsEntry (e_name entry) (e_oid entry) (if ok then Some [] else None) 8.

Definition set_oid (oid : anx_uuid) (entry : anx_ns_entry) : anx_ns_entry :=
  NsEntry (e_name entry) oid (e_children entry) (e_child_cap entry).

Definition set_children (children : list anx_ns_entry) (cap : Z) (entry : anx_ns_entry) : anx_ns_entry :=
  NsEntry (e_name entry) (e_oid entry) (Some children) cap.

(** The intermediate directory [segment]: its index, its array and the array's
    size, or the error. *)
Definition find_or_make_dir (entries : list anx_ns_entry) (cap : Z) (segment : list Z) (mem : list bool)
    : outcome (Z * option (nat * list anx_ns_entry * Z) * list anx_ns_entry * Z * list bool) :=
  match entry_find entries segment with
  | None =>
      let! (r, entries, cap, mem) := entry_add entries cap segment ANX_UUID_NIL mem in
      when negb (r =? ANX_OK) ret Ret (r, None, entries, cap, mem) ;;
      let i := (length entries - 1)%nat in
      let '(ok, mem) := next_alloc mem in
      let entries := alter (λ e, make_dir e ok) i entries in
      when negb ok ret Ret (ANX_ENOMEM, None, entries, cap, mem) ;;
      Ret (ANX_OK, Some (i, [], 8), entries, cap, mem)
  | Some (i, entry) =>
      match e_children entry with
      | None =>
          let '(ok, mem) := next_alloc mem in
          let entries := alter (λ e, make_dir e ok) i entries in
          when negb ok ret Ret (ANX_ENOMEM, None, entries, cap, mem) ;;
          Ret (ANX_OK, Some (i, [], 8), entries, cap, mem)
      | Some children => Ret (ANX_OK, Some (i, children, e_child_cap entry), entries, cap, mem)
      end
  end.

Fixpoint bind_walk (fuel : nat) (entries : list anx_ns_entry) (cap : Z) (path : list Z) (oid : anx_uuid) (mem : list bool)
    : outcome (Z * list anx_ns_entry * Z * list bool) :=
  match path, fuel with
  | [], _ => Ret (ANX_EINVAL, entries, cap, mem)
  | _, O => OutOfFuel
  | _, S fuel =>
      let '(segment, slash) := scan_segment path in
      when (ANX_NS_SEGMENT_MAX <? length segment)%nat ret Ret (ANX_EINVAL, entries, cap, mem) ;;
      match after_slash slash with
      | [] =>
          match entry_find entries segment with
          | Some (i, _) => Ret (ANX_OK, alter (set_oid oid) i entries, cap, mem)
          | None => entry_add entries cap segment oid mem
          end
      | path =>
          let! (r, sub, entries, cap, mem) := find_or_make_dir entries cap segment mem in
          match sub with
          | None => Ret (r, entries, cap, mem)
          | Some (i, children, child_cap) =>
              let! (r, children, child_cap, mem) := bind_walk fuel children child_cap path oid mem in
              Ret (r, alter (set_children children child_cap) i entries, cap, mem)
          end
      end
  end.

Definition set_root (entries : list anx_ns_entry) (cap : Z) (ns : anx_namespace) : anx_namespace :=
  Namespace (ns_name ns) entries cap.

Definition ns_put (a : node) (entries : list anx_ns_entry) (cap : Z) (R : ns_registry) : ns_registry :=
  NsRegistry (ns_table R) (alter (set_root entries cap) a (ns_heap R)).

Definition anx_ns_bind (mem : list bool) (R : ns_registry) (name path : list Z) (oid : anx_uuid) : outcome (Z * ns_registry) :=
  match ns_find R name with
  | None => Ret (ANX_ENOENT, R)
  | Some a =>
      match ns_heap R !! a with
      | None => Panic
      | Some ns =>
          let path := skip_slash path in
          when bool_decide (path = []) ret Ret (ANX_EINVAL, R) ;;
          let! (r, entries, cap, _) := bind_walk (length path) (ns_root ns) (ns_root_cap ns) path oid mem in
          Ret (r, ns_put a entries cap R)
      end
  end.

(** The entries behind the removed one move down by one. *)
Fixpoint unbind_walk (fuel : nat) (entries : list anx_ns_entry) (path : list Z) : outcome (Z * list anx_ns_entry) :=
  match path, fuel with
  | [], _ => Ret (ANX_ENOENT, entries)
  | _, O => OutOfFuel
  | _, S fuel =>
      let '(segment, slash) := scan_segment path in
      when (ANX_NS_SEGMENT_MAX <? length segment)%nat ret Ret (ANX_EINVAL, entries) ;;
      match after_slash slash with
      | [] =>
          match entry_find entries segment with
          | Some (i, _) => Ret (ANX_OK, delete i entries)
          | None => Ret (ANX_ENOENT, entries)
          end
      | path =>
          match entry_find entries segment with
          | None => Ret (ANX_ENOENT, entries)
          | Some (i, entry) =>
              match e_children entry with
              | None => Ret (ANX_ENOENT, entries)
              | Some children =>
                  let! (r, children) := unbind_walk fuel children path in
                  Ret (r, alter (set_children children (e_child_cap entry)) i entries)
              end
          end
      end
  end.

Definition anx_ns_unbind (R : ns_registry) (name path : list Z) : outcome (Z * ns_registry) :=
  match ns_find R name with
  | None => Ret (ANX_ENOENT, R)
  | Some a =>
      match ns_heap R !! a with
      | None => Panic
      | Some ns =>
          let path := skip_slash path in
          when bool_decide (path = []) ret Ret (ANX_EINVAL, R) ;;
          let! (r, entries) := unbind_walk (length path) (ns_root ns) path in
          Ret (r, ns_put a entries (ns_root_cap ns) R)
      end
  end.

(** ** Listing *)

Definition is_dir (e : anx_ns_entry) : bool := match e_children e with Some _ => true | None => false end.

Definition list_entry (e : anx_ns_entry) : anx_ns_list_entry :=
  ListEntry (anx_strlcpy (e_name e) (ANX_NS_SEGMENT_MAX + 1)) (e_oid e) (is_dir e).

(** The array to list, or what the walk returns at once. *)
Fixpoint list_walk (fuel : nat) (entries : list anx_ns_entry) (path : list Z)
    : outcome (list anx_ns_entry + Z * list anx_ns_list_entry) :=
  match path, fuel with
  | [], _ => Ret (inl entries)
  | _, O => OutOfFuel
  | _, S fuel =>
      let '(segment, slash) := scan_segment path in
      when (ANX_NS_SEGMENT_MAX <? length segment)%nat ret Ret (inr (ANX_EINVAL, [])) ;;
      let path := after_slash slash in
      match entry_find entries segment with
      | None => Ret (inr (ANX_ENOENT, []))
      | Some (_, entry) =>
          match e_children entry with
          | None =>
              when negb (bool_decide (path = [])) ret Ret (inr (ANX_ENOENT, [])) ;;
              Ret (inr (ANX_OK, [list_entry entry]))
          | Some children => list_walk fuel children path
          end
      end
  end.

(** The code, what is stored in [out], and what is stored in [*count_out]:
    a walk that fails stores nothing there. *)
Definition anx_ns_list (R : ns_registry) (namep pathp : option (list Z)) (out : bool) (max_entries : Z)
    : outcome (Z * list anx_ns_list_entry * option Z) :=
  match namep with
  | None => Ret (ANX_EINVAL, [], Some 0)
  | Some name =>
      when negb out || (max_entries =? 0) ret Ret (ANX_EINVAL, [], Some 0) ;;
      match ns_find R name ≫= λ a, ns_heap R !! a with
      | None => Ret (ANX_ENOENT, [], Some 0)
      | Some ns =>
          let path := skip_slash (default [] pathp) in
          let! walk := list_walk (length path) (ns_root ns) path in
          match walk with
          | inr (r, l) => Ret (r, l, if r =? ANX_OK then Some (Z.of_nat (length l)) else None)
          | inl entries =>
              let l := list_entry <$> take (Z.to_nat max_entries) entries in
              Ret (ANX_OK, l, Some (Z.of_nat (length l)))
          end
      end
  end.

(** The names stored, at most [max_names], and the number of namespaces. *)
Definition anx_ns_list_namespaces (R : ns_registry) (max_names : Z) : list (list Z) * Z :=
  let all := concat ((λ b, anx_htable_bucket (ns_table R) b) <$> seqZ 0 (Z.shiftl 1 NS_HASH_BITS)) in
  ((λ a, default [] (ns_name <$> ns_heap R !! a)) <$> take (Z.to_nat max_names) all, Z.of_nat (length all)).
