(* ===== verification/NamespaceProofs.v ===== *)
(** * What the walks through a namespace do

    The abstract namespace is a function from paths (non-empty lists of
    segments) to the OID bound there and whether it is a directory.  [view] is
    the one a directory tree of [Namespace.v] stands for; [bound], [unbound] and
    [grown] are what binding, unbinding and a failed binding do to it.  Each walk
    of [Namespace.v] is shown to return, to keep the directories well formed and
    to answer and act as the abstract namespace does. *)

From S2P Require Import Prelude Uuid HashTable Cell CellStore Meta StateObject Namespace.
#[local] Open Scope Z_scope.

Abbreviation ns_path := (list (list Z)).
Abbreviation ns_map := (ns_path → option (anx_uuid * bool)).

(** ** Paths *)

(** The segments of a path: a trailing slash does not count, two slashes in a
    row have an empty segment between them. *)
Fixpoint segments (path : list Z) : ns_path :=
  match path with
  | [] => []
  | c :: rest =>
      if c =? SLASH then [] :: segments rest
      else match segments rest with [] => [[c]] | s :: ss => (c :: s) :: ss end
  end.

Definition path_of (path : list Z) : ns_path := segments (skip_slash path).

Definition short (p : ns_path) : Prop := Forall (λ s, (length s ≤ ANX_NS_SEGMENT_MAX)%nat) p.

Lemma segments_nil path : segments path = [] ↔ path = [].
Proof. destruct path as [|c p]; [done|]. cbn. destruct (c =? SLASH); [done|]. by destruct (segments p). Qed.

Lemma scan_step path s sl :
  path ≠ [] → scan_segment path = (s, sl) →
  segments path = s :: segments (after_slash sl) ∧ (length (after_slash sl) < length path)%nat.
Proof.
  revert s sl. induction path as [|c p IH]; [done|]. intros s sl _. cbn. destruct (c =? SLASH) eqn:E.
  - intros [= <- <-]. cbn. split; [done|lia].
  - destruct (scan_segment p) as [s' sl'] eqn:Es. intros [= <- <-].
    destruct p as [|d p]; [cbn in Es; simplify_eq; cbn; split; [done|lia]|].
    destruct (IH s' sl' ltac:(done) eq_refl) as [-> Hl]. cbn in *. split; [done|lia].
Qed.

(** One turn of a walk: the segment, the rest, and how the path splits. *)
Lemma walk_split path fuel :
  path ≠ [] → (length path ≤ fuel)%nat →
  ∃ f s sl, fuel = S f ∧ scan_segment path = (s, sl) ∧ segments path = s :: segments (after_slash sl) ∧
    (length (after_slash sl) ≤ f)%nat.
Proof.
  intros Hne Hf. destruct fuel as [|f]; [by destruct path; cbn in *; [|lia]|].
  destruct (scan_segment path) as [s sl] eqn:E. destruct (scan_step path s sl Hne E).
  eexists f, s, sl. repeat split; try done; lia.
Qed.

(** ** The map a tree stands for *)

Definition find_e (es : list anx_ns_entry) (s : list Z) : option anx_ns_entry := snd <$> entry_find es s.

Fixpoint at_path (es : list anx_ns_entry) (p : ns_path) : option anx_ns_entry :=
  match p with
  | [] => None
  | s :: p =>
      e ← find_e es s;
      match p with [] => Some e | _ => e_children e ≫= λ c, at_path c p end
  end.

Definition view_of (e : anx_ns_entry) : anx_uuid * bool := (e_oid e, is_dir e).

Definition view (es : list anx_ns_entry) : ns_map := λ p, view_of <$> at_path es p.

(** The part of a namespace below the segment [s]. *)
Definition below (v : ns_map) (s : list Z) : ns_map := λ q, match q with [] => None | _ => v (s :: q) end.

(** [q] is a directory on the way to [p]. *)
Definition on_way (q p : ns_path) : bool :=
  negb (bool_decide (q = [])) && bool_decide (q `prefix_of` p) && negb (bool_decide (q = p)).

Definition bound (v : ns_map) (p : ns_path) (oid : anx_uuid) : ns_map := λ q,
  if decide (q = p) then Some (oid, default false (snd <$> v p))
  else if on_way q p then Some (default ANX_UUID_NIL (fst <$> v q), true)
  else v q.

Definition unbound (v : ns_map) (p : ns_path) : ns_map := λ q,
  if bool_decide (p `prefix_of` q) then None else v q.

(** Nothing is lost and no OID changes; what is new are directories on the way,
    or unbound names there. *)
Definition grown (v v' : ns_map) (p : ns_path) : Prop :=
  ∀ q, v' q = v q ∨
    on_way q p = true ∧ ∃ d, v' q = Some (default ANX_UUID_NIL (fst <$> v q), d) ∧ (v q = None ∨ d = true).

Lemma on_way_cons s q s' p : q ≠ [] → on_way (s :: q) (s' :: p) = bool_decide (s = s') && on_way q p.
Proof.
  intros Hq. unfold on_way. rewrite (bool_decide_eq_false_2 (s :: q = [])), (bool_decide_eq_false_2 (q = [])) by done. cbn.
  apply eq_bool_prop_intro. rewrite !andb_True, !negb_True, !bool_decide_spec. split.
  - intros [Hp Hne]. pose proof (prefix_cons_inv_1 _ _ _ _ Hp) as ->. apply prefix_cons_inv_2 in Hp. naive_solver.
  - intros (-> & Hp & Hne). split; [by apply prefix_cons|naive_solver].
Qed.

Lemma on_way_one s s' p : on_way [s] (s' :: p) = bool_decide (s = s') && negb (bool_decide (p = [])).
Proof.
  unfold on_way. rewrite (bool_decide_eq_false_2 ([s] = [])) by done. cbn. apply eq_bool_prop_intro.
  rewrite !andb_True, !negb_True, !bool_decide_spec. split.
  - intros [Hp Hne]. pose proof (prefix_cons_inv_1 _ _ _ _ Hp) as ->. naive_solver.
  - intros [-> Hne]. split; [apply prefix_cons, prefix_nil|naive_solver].
Qed.

Lemma on_way_nil p : on_way [] p = false.
Proof. done. Qed.

Lemma view_nil es : view es [] = None.
Proof. done. Qed.

Lemma view_empty p : view [] p = None.
Proof. by destruct p. Qed.

Lemma view_one es s : view es [s] = view_of <$> find_e es s.
Proof. unfold view. cbn. by destruct (find_e es s). Qed.

Lemma view_cons es s q : q ≠ [] → view es (s :: q) = (find_e es s ≫= e_children) ≫= λ c, view c q.
Proof.
  intros Hq. unfold view. cbn. destruct (find_e es s) as [e|]; [|done]. cbn. destruct q; [done|].
  by destruct (e_children e).
Qed.

(** A view is determined by the entry found and the views below. *)
Lemma below_view es s e q :
  find_e es s = Some e → below (view es) s q = e_children e ≫= λ c, view c q.
Proof.
  intros He. destruct q as [|s' q]; [by destruct (e_children e)|]. unfold below. rewrite view_cons, He by done. done.
Qed.

Lemma below_bound v s p oid q : p ≠ [] → below (bound v (s :: p) oid) s q = bound (below v s) p oid q.
Proof.
  intros Hp. unfold below, bound. destruct q as [|s' q].
  - rewrite decide_False by done. by rewrite on_way_nil.
  - rewrite on_way_cons, bool_decide_eq_true_2 by done. cbn [andb]. destruct p as [|x p]; [done|].
    destruct (decide (s :: s' :: q = s :: x :: p)), (decide (s' :: q = x :: p)); naive_solver.
Qed.

(** ** Finding and changing entries *)

Lemma find_e_Some es s e : find_e es s = Some e → ∃ i, entry_find es s = Some (i, e) ∧ es !! i = Some e ∧ e_name e = s.
Proof.
  unfold find_e. destruct (entry_find es s) as [[i x]|] eqn:E; [|done]. intros [= ->]. exists i.
  pose proof E as E'. unfold entry_find in E'. apply list_find_Some in E' as (? & ? & _). done.
Qed.

Lemma entry_find_Some es s i e : entry_find es s = Some (i, e) → find_e es s = Some e ∧ es !! i = Some e ∧ e_name e = s.
Proof. intros E. unfold find_e. rewrite E. apply list_find_Some in E as (? & ? & _). done. Qed.

Lemma find_e_cons x es s : find_e (x :: es) s = if decide (e_name x = s) then Some x else find_e es s.
Proof.
  unfold find_e, entry_find. cbn. destruct (decide (e_name x = s)); [done|].
  by destruct (list_find _ es) as [[]|].
Qed.

Lemma find_e_None es s : find_e es s = None ↔ s ∉ (e_name <$> es).
Proof.
  induction es as [|x es IH]; [split; [set_solver|done]|]. rewrite find_e_cons, fmap_cons, not_elem_of_cons.
  destruct (decide (e_name x = s)) as [<-|Hne]; [split; [done|tauto]|]. rewrite IH. split; [|tauto]. intros H. split; [congruence|done].
Qed.

Lemma find_e_alter es s i e f s' :
  entry_find es s = Some (i, e) → (∀ x, e_name (f x) = e_name x) →
  find_e (alter f i es) s' = if decide (s' = s) then Some (f e) else find_e es s'.
Proof.
  intros E Hf. revert i E. induction es as [|x es IH]; [done|]. intros i E. unfold entry_find in E. cbn in E.
  destruct (decide (e_name x = s)) as [Hx|Hx].
  - simplify_eq. change (alter f 0%nat (e :: es)) with (f e :: es). rewrite !find_e_cons, Hf. destruct (decide (s' = e_name e)) as [->|]; [by rewrite decide_True|].
    by rewrite !decide_False by congruence.
  - destruct (list_find (λ e, e_name e = s) es) as [[j y]|] eqn:E'; [|done]. cbn in E. simplify_eq.
    change (alter f (S j) (x :: es)) with (x :: alter f j es). rewrite !find_e_cons, (IH j) by done. destruct (decide (e_name x = s')), (decide (s' = s)); congruence.
Qed.

Lemma find_e_snoc es x s :
  find_e (es ++ [x]) s = match find_e es s with Some e => Some e | None => if decide (e_name x = s) then Some x else None end.
Proof.
  induction es as [|y es IH]; [change ([] ++ [x]) with [x]; rewrite find_e_cons; by destruct (decide _)|].
  cbn [app]. rewrite !find_e_cons, IH. by destruct (decide (e_name y = s)).
Qed.

Lemma find_e_delete es s i e s' :
  entry_find es s = Some (i, e) → NoDup (e_name <$> es) →
  find_e (delete i es) s' = if decide (s' = s) then None else find_e es s'.
Proof.
  revert i. induction es as [|x es IH]; [done|]. intros i E Hnd. rewrite fmap_cons, NoDup_cons in Hnd. destruct Hnd as [Hx Hnd].
  unfold entry_find in E. cbn in E. destruct (decide (e_name x = s)) as [Hxs|Hxs].
  - simplify_eq. change (delete 0%nat (e :: es)) with es. rewrite find_e_cons. destruct (decide (s' = e_name e)) as [->|]; [by apply find_e_None|].
    by rewrite decide_False by congruence.
  - destruct (list_find (λ e, e_name e = s) es) as [[j y]|] eqn:E'; [|done]. cbn in E. simplify_eq.
    change (delete (S j) (x :: es)) with (x :: delete j es). rewrite !find_e_cons, (IH j) by done.
    destruct (decide (e_name x = s')), (decide (s' = s)); congruence.
Qed.

(** ** Well-formed directories

    [n] bounds the number of entries; the bound keeps the 32-bit size of an
    array exact. *)
Inductive dir_ok (n : Z) (es : list anx_ns_entry) (cap : Z) : Prop :=
  DirOk :
    NoDup (e_name <$> es) →
    Z.of_nat (length es) ≤ cap → Z.of_nat (length es) ≤ n → 8 ≤ cap →
    (∀ e c, e ∈ es → e_children e = Some c → dir_ok n c (e_child_cap e)) →
    (∀ e, e ∈ es → (length (e_name e) ≤ ANX_NS_SEGMENT_MAX)%nat) →
    dir_ok n es cap.

Lemma dir_ok_mono n m es cap : n ≤ m → dir_ok n es cap → dir_ok m es cap.
Proof. intros Hnm. induction 1 as [es cap Hd Hc Hn H8 Hk IH Hs]. constructor; [exact Hd|lia|lia|lia|exact IH|exact Hs]. Qed.

Lemma dir_ok_new n : 0 ≤ n → dir_ok n [] 8.
Proof. intros. constructor; cbn; try lia; [apply NoDup_nil_2|set_solver|set_solver]. Qed.

Lemma alter_names f (i : nat) (es : list anx_ns_entry) : (∀ x, e_name (f x) = e_name x) → e_name <$> alter f i es = e_name <$> es.
Proof.
  intros Hf. apply list_eq. intros j. rewrite !list_lookup_fmap. destruct (decide (i = j)) as [<-|].
  - rewrite list_lookup_alter_eq. destruct (es !! i); cbn; by rewrite ?Hf.
  - by rewrite list_lookup_alter_ne.
Qed.

Lemma elem_of_alter f (i : nat) (es : list anx_ns_entry) x : x ∈ alter f i es → x ∈ es ∨ ∃ e, es !! i = Some e ∧ x = f e.
Proof.
  intros [j Hj]%list_elem_of_lookup. destruct (decide (i = j)) as [<-|].
  - rewrite list_lookup_alter_eq in Hj. destruct (es !! i) as [e|] eqn:E; cbn in Hj; simplify_eq. eauto.
  - rewrite list_lookup_alter_ne in Hj by done. left. by eapply list_elem_of_lookup_2.
Qed.

(** Changing an entry without renaming it. *)
Lemma dir_ok_alter n es cap i e f :
  dir_ok n es cap → es !! i = Some e → (∀ x, e_name (f x) = e_name x) →
  (∀ c, e_children (f e) = Some c → dir_ok n c (e_child_cap (f e))) → dir_ok n (alter f i es) cap.
Proof.
  intros [Hnd Hc Hn H8 Hk Hs] He Hf Hd. constructor; [by rewrite alter_names|by rewrite length_alter|by rewrite length_alter|exact H8| |].
  - intros x c Hx Hxc. apply elem_of_alter in Hx as [Hx|(e' & He' & ->)]; [by eapply Hk|]. simplify_eq. by apply Hd.
  - intros x Hx. apply elem_of_alter in Hx as [Hx|(e' & He' & ->)]; [by apply Hs|]. rewrite Hf. apply Hs. by eapply list_elem_of_lookup_2.
Qed.

Lemma dir_ok_delete n es cap i : dir_ok n es cap → dir_ok n (delete i es) cap.
Proof.
  intros [Hnd Hc Hn H8 Hk Hs]. assert (∀ x, x ∈ delete i es → x ∈ es) as Hsub.
  { intros x. apply list_elem_of_delete_inv. }
  assert (length (delete i es) ≤ length es)%nat by (apply sublist_length, sublist_delete).
  constructor; [|lia|lia|lia|intros e c He; apply Hk, Hsub, He|intros e He; apply Hs, Hsub, He].
  eapply sublist_NoDup; [done|]. apply fmap_sublist, sublist_delete.
Qed.

Lemma next_alloc_fails mem mem' : next_alloc mem = (false, mem') → false ∈ mem.
Proof. destruct mem as [|[] mem]; cbn; intros; simplify_eq. set_solver. Qed.

Lemma next_alloc_sub mem ok mem' : next_alloc mem = (ok, mem') → false ∈ mem' → false ∈ mem.
Proof. destruct mem as [|b mem]; cbn; intros; simplify_eq; set_solver. Qed.

Lemma dir_ok_snoc n es cap name oid :
  dir_ok n es cap → Z.of_nat (length es) < cap → find_e es name = None → (length name ≤ ANX_NS_SEGMENT_MAX)%nat →
  dir_ok (n + 1) (es ++ [NsEntry name oid None 0]) cap.
Proof.
  intros [Hnd Hc Hn H8 Hk Hs] Hlt Hf Hl. apply find_e_None in Hf. constructor.
  - rewrite fmap_app. apply NoDup_app. split; [done|]. split; [set_solver|]. apply NoDup_singleton.
  - rewrite length_app. cbn. lia.
  - rewrite length_app. cbn. lia.
  - done.
  - intros e c [He| ->%list_elem_of_singleton]%elem_of_app Hc'; [|done]. eapply dir_ok_mono, Hk; [lia|exact He|exact Hc'].
  - intros e [He| ->%list_elem_of_singleton]%elem_of_app; [by apply Hs|done].
Qed.

Lemma entry_add_spec n es cap name oid mem :
  dir_ok n es cap → n < 2 ^ 31 → find_e es name = None → (length name ≤ ANX_NS_SEGMENT_MAX)%nat →
  ∃ r es' cap' mem', entry_add es cap name oid mem = Ret (r, es', cap', mem') ∧ (false ∈ mem' → false ∈ mem) ∧
    (r = ANX_OK ∧ es' = es ++ [NsEntry name oid None 0] ∧ dir_ok (n + 1) es' cap' ∨
     r = ANX_ENOMEM ∧ es' = es ∧ cap' = cap ∧ false ∈ mem).
Proof.
  intros Hok Hn Hf Hl. pose proof Hok as [_ Hc Hcn H8 _ _]. unfold entry_add.
  assert (anx_strlcpy name (ANX_NS_SEGMENT_MAX + 1) = name) as ->.
  { unfold anx_strlcpy. apply take_ge. unfold ANX_NS_SEGMENT_MAX in *. lia. }
  destruct (Z.leb_spec cap (Z.of_nat (length es))).
  - destruct (next_alloc mem) as [[] mem'] eqn:E; cbn [negb].
    + assert (u32 (cap * 2) = cap * 2) as -> by (apply u32_small; unfold is_u32; lia).
      destruct (Z.ltb_spec (Z.of_nat (length es)) (cap * 2)); [|lia]. eexists _, _, _, _. split; [done|].
      split; [by eapply next_alloc_sub|]. left. split; [done|]. split; [done|]. apply dir_ok_snoc; [|lia|exact Hf|exact Hl].
      destruct Hok as [Hd _ _ _ Hk Hs]. constructor; [exact Hd|lia|lia|lia|exact Hk|exact Hs].
    + eexists _, _, _, _. split; [done|]. split; [by eapply next_alloc_sub|]. right. repeat split. by eapply next_alloc_fails.
  - destruct (Z.ltb_spec (Z.of_nat (length es)) cap); [|lia]. eexists _, _, _, _. split; [done|]. split; [done|]. left.
    split; [done|]. split; [done|]. apply dir_ok_snoc; [exact Hok|lia|exact Hf|exact Hl].
Qed.

Lemma entry_find_snoc es x : find_e es (e_name x) = None → entry_find (es ++ [x]) (e_name x) = Some (length es, x).
Proof.
  intros H. unfold entry_find. rewrite list_find_app_r.
  - cbn. rewrite decide_True by done. done.
  - unfold find_e, entry_find in H. by destruct (list_find _ es).
Qed.

(** What [find_or_make_dir] leaves: the directory [s] with its old contents,
    all other names as they were. *)
Definition dir_made (n : Z) (es : list anx_ns_entry) (s : list Z) (i : nat) (c : list anx_ns_entry) (ccap : Z)
    (es' : list anx_ns_entry) : Prop :=
  (∃ e, entry_find es' s = Some (i, e) ∧ e_oid e = default ANX_UUID_NIL (e_oid <$> find_e es s)) ∧
  c = default [] (find_e es s ≫= e_children) ∧ dir_ok n c ccap ∧ (∀ s', s' ≠ s → find_e es' s' = find_e es s').

Definition dir_refused (es : list anx_ns_entry) (s : list Z) (es' : list anx_ns_entry) : Prop :=
  (∀ s', s' ≠ s → find_e es' s' = find_e es s') ∧
  (find_e es' s = find_e es s ∨
   ∃ e', find_e es' s = Some e' ∧ e_oid e' = default ANX_UUID_NIL (e_oid <$> find_e es s) ∧ e_children e' = None ∧
     find_e es s ≫= e_children = None).

Lemma make_dir_step n es0 es cap s i e mem ok mem' :
  dir_ok n es0 cap → dir_ok (n + 1) es cap → 0 ≤ n → entry_find es s = Some (i, e) → e_children e = None → next_alloc mem = (ok, mem') →
  e_oid e = default ANX_UUID_NIL (e_oid <$> find_e es0 s) → find_e es0 s ≫= e_children = None →
  (∀ s', s' ≠ s → find_e es s' = find_e es0 s') →
  dir_ok (n + 1) (alter (λ e, make_dir e ok) i es) cap ∧
  (if ok then dir_made n es0 s i [] 8 (alter (λ e, make_dir e ok) i es)
   else dir_refused es0 s (alter (λ e, make_dir e ok) i es)).
Proof.
  intros Hok0 Hok Hn He Hch Hm Ho Hnone Hrest. destruct (entry_find_Some _ _ _ _ He) as (Hfe & Hi & Hname).
  pose proof (λ s', find_e_alter es s i e (λ e, make_dir e ok) s' He ltac:(done)) as Halt. split.
  { eapply dir_ok_alter; [exact Hok|exact Hi|done|]. intros c. destruct ok; [intros [= <-]; apply dir_ok_new; lia|done]. }
  assert (∀ s', s' ≠ s → find_e (alter (λ e, make_dir e ok) i es) s' = find_e es0 s') as Hr.
  { intros s' Hs. rewrite Halt, decide_False by done. by apply Hrest. }
  specialize (Halt s). rewrite decide_True in Halt by done. destruct ok.
  - split; [|split; [by rewrite Hnone|split; [apply dir_ok_new; lia|done]]]. exists (make_dir e true). split; [|done].
    destruct (find_e_Some _ _ _ Halt) as (j & Hj & Hlk & _). rewrite Hj. f_equal. f_equal.
    pose proof (dir_ok_alter _ _ _ _ _ (λ e, make_dir e true) Hok Hi ltac:(done)) as Hd.
    eapply NoDup_lookup; [destruct Hd as [Hnd]; [intros c [= <-]; apply dir_ok_new; lia|exact Hnd]| |].
    + rewrite list_lookup_fmap, Hlk. done.
    + rewrite list_lookup_fmap, list_lookup_alter_eq, Hi. done.
  - split; [done|]. right. exists (make_dir e false). done.
Qed.

Lemma find_or_make_dir_spec n es cap s mem :
  dir_ok n es cap → 0 ≤ n < 2 ^ 31 → (length s ≤ ANX_NS_SEGMENT_MAX)%nat →
  ∃ r sub es' cap' mem', find_or_make_dir es cap s mem = Ret (r, sub, es', cap', mem') ∧ (false ∈ mem' → false ∈ mem) ∧
    dir_ok (n + 1) es' cap' ∧
    (r = ANX_OK ∧ (∃ i c ccap, sub = Some (i, c, ccap) ∧ dir_made n es s i c ccap es') ∨
     r = ANX_ENOMEM ∧ sub = None ∧ false ∈ mem ∧ dir_refused es s es').
Proof.
  intros Hok Hn Hl. unfold find_or_make_dir. destruct (entry_find es s) as [[i e]|] eqn:E.
  - destruct (entry_find_Some _ _ _ _ E) as (Hf & Hi & Hname). destruct (e_children e) as [c|] eqn:Hc.
    + eexists _, _, _, _, _. split; [done|]. split; [done|]. split; [eapply dir_ok_mono, Hok; lia|]. left. split; [done|].
      eexists _, _, _. split; [done|]. split; [exists e; rewrite Hf; done|]. rewrite Hf. cbn. rewrite Hc. split; [done|]. split; [|done].
      destruct Hok as [_ _ _ _ Hk _]. eapply Hk, Hc. by eapply list_elem_of_lookup_2.
    + destruct (next_alloc mem) as [ok mem'] eqn:Em.
      pose proof (make_dir_step n es es cap s i e mem ok mem' Hok (dir_ok_mono n (n + 1) es cap ltac:(lia) Hok) ltac:(lia) E Hc Em) as Hstep.
      rewrite Hf in Hstep. destruct (Hstep eq_refl Hc ltac:(done)) as [Hd Hv]. destruct ok; cbn [negb].
      * eexists _, _, _, _, _. split; [done|]. split; [by eapply next_alloc_sub|]. split; [exact Hd|]. left. eauto 10.
      * eexists _, _, _, _, _. split; [done|]. split; [by eapply next_alloc_sub|]. split; [exact Hd|]. right.
        repeat (split; [done || by eapply next_alloc_fails|]). exact Hv.
  - assert (find_e es s = None) as Hf by (unfold find_e; by rewrite E).
    destruct (entry_add_spec n es cap s ANX_UUID_NIL mem Hok ltac:(lia) Hf Hl) as (r & es' & cap' & mem' & -> & Hsub & [H|H]).
    + destruct H as (-> & -> & Hok'). cbn [obind negb]. rewrite length_app. cbn [length]. rewrite Nat.add_sub.
      set (x := NsEntry s ANX_UUID_NIL None 0) in *. destruct (next_alloc mem') as [ok mem2] eqn:Em.
      pose proof (entry_find_snoc es x Hf) as Ex. cbn in Ex. pose proof (make_dir_step n es (es ++ [x]) cap' s (length es) x mem' ok mem2) as Hstep.
      rewrite Hf in Hstep. assert (dir_ok n es cap') as Hokc.
      { destruct Hok as [Hd _ Hn' _ Hk Hs], Hok' as [_ Hc' _ H8 _ _]. rewrite length_app in Hc'. cbn [length] in Hc'.
        constructor; [exact Hd|lia|lia|lia|exact Hk|exact Hs]. }
      destruct (Hstep Hokc Hok' ltac:(lia) Ex eq_refl Em eq_refl eq_refl) as [Hd Hv].
      { intros s' Hs. rewrite find_e_snoc. destruct (find_e es s'); [done|]. cbn. by rewrite decide_False by congruence. }
      destruct ok; cbn [negb].
      * eexists _, _, _, _, _. split; [done|]. split; [intros; apply Hsub; by eapply next_alloc_sub|]. split; [exact Hd|]. left. eauto 10.
      * eexists _, _, _, _, _. split; [done|]. split; [intros; apply Hsub; by eapply next_alloc_sub|]. split; [exact Hd|]. right.
        repeat (split; [done || (apply Hsub; by eapply next_alloc_fails)|]). exact Hv.
    + destruct H as (-> & -> & -> & Hfail). cbn. eexists _, _, _, _, _. split; [done|]. split; [done|].
      split; [eapply dir_ok_mono, Hok; lia|]. right. do 3 (split; [done|]). split; [done|]. by left.
Qed.

(** *** The walks on views *)

Lemma view_below es s q : q ≠ [] → view es (s :: q) = below (view es) s q.
Proof. by destruct q. Qed.

(** Two trees that differ below [s] only. *)
Lemma grown_below v v' s p :
  p ≠ [] → (∀ s' q, s' ≠ s → v' (s' :: q) = v (s' :: q)) → v' [] = v [] → grown (below v s) (below v' s) p →
  (v' [s] = v [s] ∨ ∃ d, v' [s] = Some (default ANX_UUID_NIL (fst <$> v [s]), d) ∧ (v [s] = None ∨ d = true)) → grown v v' (s :: p).
Proof.
  intros Hp Hother Hnil Hb Hs q. destruct q as [|s' q]; [by left|].
  destruct (decide (s' = s)) as [->|Hne]; [|left; by apply Hother].
  destruct (decide (q = [])) as [->|Hq].
  - destruct Hs as [|Hs]; [by left|]. right. split; [|done]. rewrite on_way_one, bool_decide_eq_true_2, bool_decide_eq_false_2 by done. done.
  - specialize (Hb q). rewrite on_way_cons, bool_decide_eq_true_2 by done. cbn [andb].
    destruct q as [|x q]; [done|]. exact Hb.
Qed.

Lemma view_grown_refl v p : grown v v p.
Proof. intros q. by left. Qed.

Lemma view_other es es' s s' q :
  (∀ s', s' ≠ s → find_e es' s' = find_e es s') → s' ≠ s → view es' (s' :: q) = view es (s' :: q).
Proof.
  intros H Hs. destruct (decide (q = [])) as [->|Hq]; [by rewrite !view_one, H|]. by rewrite !view_cons, H.
Qed.

Lemma refused_grown es es' s p : p ≠ [] → dir_refused es s es' → grown (view es) (view es') (s :: p).
Proof.
  intros Hp [Ho Hs]. apply grown_below; [done|intros; by apply view_other with s|done| |].
  - intros q. left. destruct q as [|x q]; [done|]. unfold below. rewrite !view_cons by done.
    destruct Hs as [->|(e' & -> & _ & Hc & Hn)]; [done|]. cbn. rewrite Hc. by rewrite Hn.
  - rewrite !view_one. destruct Hs as [->|(e' & -> & Ho' & Hc & Hn)]; [by left|]. unfold view_of, is_dir. cbn. rewrite Hc, Ho'.
    destruct (find_e es s) as [e|]; cbn in *; [left; by rewrite Hn|right; eauto].
Qed.

(** Answer and effect of a binding at [p]. *)
Definition bind_spec (mem : list bool) (v v' : ns_map) (p : ns_path) (oid : anx_uuid) (r : Z) : Prop :=
  r = ANX_OK ∧ short p ∧ (∀ q, v' q = bound v p oid q) ∨
  (r = ANX_EINVAL ∧ ¬ short p ∨ r = ANX_ENOMEM ∧ false ∈ mem) ∧ grown v v' p.

Lemma bound_final es es' s e' oid :
  find_e es' s = Some e' → e_oid e' = oid → e_children e' = find_e es s ≫= e_children →
  (∀ s', s' ≠ s → find_e es' s' = find_e es s') → ∀ q, view es' q = bound (view es) [s] oid q.
Proof.
  intros He Ho Hc Hr q. unfold bound. destruct q as [|s' q]; [by rewrite decide_False, on_way_nil|].
  destruct (decide (q = [])) as [->|Hq].
  - rewrite on_way_one, andb_false_r, !view_one. destruct (decide ([s'] = [s])) as [[= ->]|Hne].
    + rewrite He. cbn. unfold view_of, is_dir. rewrite Hc, Ho. by destruct (find_e es s) as [e|].
    + by rewrite Hr by congruence.
  - rewrite on_way_cons, decide_False by (try done; intros [= -> ->]; done).
    assert (on_way q [] = false) as ->. { unfold on_way. destruct q; [done|]. by rewrite andb_comm, (bool_decide_eq_false_2 (_ `prefix_of` _)), !andb_false_r by (intros [? ?]; done). }
    rewrite andb_false_r. destruct (decide (s' = s)) as [->|Hne]; [|by apply view_other with s].
    rewrite !view_cons, He by done. cbn. by rewrite Hc.
Qed.

Lemma view_default es s q : below (view es) s q = view (default [] (find_e es s ≫= e_children)) q.
Proof.
  destruct q as [|x q]; [done|]. unfold below. rewrite view_cons by done.
  destruct (find_e es s ≫= e_children); [done|]. by rewrite view_empty.
Qed.

(** The tree below [s] replaced by [c']. *)
Lemma set_children_below n es s i c ccap es1 c' ccap' :
  dir_made n es s i c ccap es1 →
  let es' := alter (set_children c' ccap') i es1 in
  (∀ q, below (view es') s q = view c' q) ∧ (∀ s' q, s' ≠ s → view es' (s' :: q) = view es (s' :: q)) ∧
  view es' [s] = Some (default ANX_UUID_NIL (fst <$> view es [s]), true).
Proof.
  intros ((e & He & Ho) & -> & _ & Hr) es'.
  pose proof (λ s', find_e_alter es1 s i e (set_children c' ccap') s' He ltac:(done)) as Halt. fold es' in Halt. split_and!.
  - intros q. rewrite view_default, Halt, decide_True by done. done.
  - intros s' q Hs. apply view_other with s; [|done]. intros x Hx. rewrite Halt, decide_False by done. by apply Hr.
  - rewrite !view_one, Halt, decide_True by done. cbn. unfold view_of. cbn. rewrite Ho. by destruct (find_e es s).
Qed.

Lemma bound_inner v v' s p oid :
  p ≠ [] → v' [] = v [] → (∀ s' q, s' ≠ s → v' (s' :: q) = v (s' :: q)) → v' [s] = Some (default ANX_UUID_NIL (fst <$> v [s]), true) →
  (∀ q, below v' s q = bound (below v s) p oid q) → ∀ q, v' q = bound v (s :: p) oid q.
Proof.
  intros Hp Hnil Ho Hs Hb q. destruct q as [|s' q]; [unfold bound; by rewrite decide_False, on_way_nil|].
  destruct (decide (s' = s)) as [->|Hne].
  - destruct (decide (q = [])) as [->|Hq].
    + unfold bound. rewrite decide_False by congruence. rewrite on_way_one, bool_decide_eq_true_2, bool_decide_eq_false_2 by done. done.
    + specialize (Hb q). rewrite <- below_bound in Hb by done. by destruct q.
  - rewrite Ho by done. unfold bound. rewrite decide_False by congruence.
    destruct (decide (q = [])) as [->|Hq]; [rewrite on_way_one|rewrite on_way_cons by done];
      by rewrite bool_decide_eq_false_2.
Qed.

Lemma bind_walk_unfold f es cap path oid mem s sl :
  path ≠ [] → scan_segment path = (s, sl) →
  bind_walk (S f) es cap path oid mem =
  (if (ANX_NS_SEGMENT_MAX <? length s)%nat then Ret (ANX_EINVAL, es, cap, mem) else
   match after_slash sl with
   | [] => match entry_find es s with
           | Some (i, _) => Ret (ANX_OK, alter (set_oid oid) i es, cap, mem)
           | None => entry_add es cap s oid mem
           end
   | path => let! (r, sub, es, cap, mem) := find_or_make_dir es cap s mem in
             match sub with
             | None => Ret (r, es, cap, mem)
             | Some (i, c, ccap) =>
                 let! (r, c, ccap, mem) := bind_walk f c ccap path oid mem in
                 Ret (r, alter (set_children c ccap) i es, cap, mem)
             end
   end).
Proof. intros Hne E. destruct path as [|x path]; [done|]. cbn [bind_walk]. by rewrite E. Qed.

(** The last segment of a binding. *)
Lemma bind_last n es cap s oid mem :
  dir_ok n es cap → 0 ≤ n < 2 ^ 31 → (length s ≤ ANX_NS_SEGMENT_MAX)%nat →
  ∃ r es' cap' mem',
    match entry_find es s with
    | Some (i, _) => Ret (ANX_OK, alter (set_oid oid) i es, cap, mem)
    | None => entry_add es cap s oid mem
    end = Ret (r, es', cap', mem') ∧ (false ∈ mem' → false ∈ mem) ∧ dir_ok (n + 1) es' cap' ∧
    bind_spec mem (view es) (view es') [s] oid r.
Proof.
  intros Hok Hn Hl. assert (short [s]) as Hs by (by constructor; [|constructor]).
  destruct (entry_find es s) as [[i e]|] eqn:E.
  - destruct (entry_find_Some _ _ _ _ E) as (Hf & Hi & _). eexists _, _, _, _. split; [done|]. split; [done|]. split.
    + eapply dir_ok_mono with n; [lia|]. eapply dir_ok_alter; [exact Hok|exact Hi|done|]. intros c Hc.
      destruct Hok as [_ _ _ _ Hk _]. apply (Hk e c); [by eapply list_elem_of_lookup_2|exact Hc].
    + left. split; [done|]. split; [done|].
      pose proof (λ s', find_e_alter es s i e (set_oid oid) s' E ltac:(done)) as Halt.
      apply bound_final with (set_oid oid e); [by rewrite Halt, decide_True|done|by rewrite Hf|].
      intros s' Hs'. by rewrite Halt, decide_False.
  - assert (find_e es s = None) as Hf by (unfold find_e; by rewrite E).
    destruct (entry_add_spec n es cap s oid mem Hok ltac:(lia) Hf Hl) as (r & es' & cap' & mem' & -> & Hsub & [H|H]).
    + destruct H as (-> & -> & Hok'). eexists _, _, _, _. split; [done|]. split; [done|]. split; [exact Hok'|]. left.
      split; [done|]. split; [done|]. apply bound_final with (NsEntry s oid None 0); [|done|by rewrite Hf|].
      * rewrite find_e_snoc, Hf. by rewrite decide_True.
      * intros s' Hs'. rewrite find_e_snoc. destruct (find_e es s'); [done|]. cbn. by rewrite decide_False by congruence.
    + destruct H as (-> & -> & -> & Hfail). eexists _, _, _, _. split; [done|]. split; [done|].
      split; [eapply dir_ok_mono, Hok; lia|]. right. split; [right; done|apply view_grown_refl].
Qed.

Lemma bind_walk_spec oid fuel : ∀ n es cap path mem,
  path ≠ [] → (length path ≤ fuel)%nat → dir_ok n es cap → 0 ≤ n < 2 ^ 31 →
  ∃ r es' cap' mem', bind_walk fuel es cap path oid mem = Ret (r, es', cap', mem') ∧ (false ∈ mem' → false ∈ mem) ∧
    dir_ok (n + 1) es' cap' ∧ bind_spec mem (view es) (view es') (segments path) oid r.
Proof.
  induction fuel as [|f IH]; intros n es cap path mem Hne Hf Hok Hn.
  { destruct (walk_split path 0 Hne Hf) as (? & ? & ? & ? & _). done. }
  destruct (walk_split path (S f) Hne Hf) as (f' & s & sl & [= <-] & Es & Hseg & Hlen).
  rewrite (bind_walk_unfold f es cap path oid mem s sl Hne Es), Hseg. destruct (Nat.ltb_spec ANX_NS_SEGMENT_MAX (length s)) as [Hlong|Hl].
  { eexists _, _, _, _. split; [done|]. split; [done|]. split; [eapply dir_ok_mono, Hok; lia|]. right. split; [|apply view_grown_refl].
    left. split; [done|]. intros [Hs _]%Forall_cons. lia. }
  destruct (after_slash sl) as [|x rest] eqn:Erest; [by apply bind_last|]. set (p := x :: rest) in *.
  assert (p ≠ []) as Hp by done. assert (segments p ≠ []) as Hsp by (by rewrite segments_nil).
  destruct (find_or_make_dir_spec n es cap s mem Hok Hn Hl) as (r & sub & es1 & cap1 & mem1 & -> & Hsub & Hok1 & [H|H]).
  - destruct H as (-> & i & c & ccap & -> & Hmade). cbn [obind]. pose proof Hmade as ((e & He & _) & Hc & Hokc & _).
    destruct (IH n c ccap p mem1 Hp Hlen Hokc Hn) as (r & c' & ccap' & mem2 & -> & Hsub2 & Hokc' & Hspec). cbn [obind].
    eexists _, _, _, _. split; [done|]. split; [auto|]. split.
    { destruct (entry_find_Some _ _ _ _ He) as (_ & Hi & _). eapply dir_ok_alter; [exact Hok1|exact Hi|done|]. intros c0 [= <-]. exact Hokc'. }
    destruct (set_children_below n es s i c ccap es1 c' ccap' Hmade) as (Hb & Ho & Hs).
    destruct Hspec as [(-> & Hshort & Hv)|[Hcode Hg]].
    + left. split; [done|]. split; [by constructor|]. apply bound_inner; [done|done|exact Ho|exact Hs|].
      intros q. rewrite Hb, Hv. unfold bound. rewrite !view_default, <- Hc. done.
    + right. split.
      { destruct Hcode as [[-> Hns]|[-> Hm]]; [left|right; auto]. split; [done|]. intros [_ Hs']%Forall_cons. done. }
      apply grown_below; [done|exact Ho|done| |right; eauto]. intros q. rewrite Hb, view_default, <- Hc. apply Hg.
  - destruct H as (-> & -> & Hm & Href). cbn [obind]. eexists _, _, _, _. split; [done|]. split; [done|]. split; [exact Hok1|]. right.
    split; [by right|]. by apply refused_grown.
Qed.

(** Answer of a lookup at [p]. *)
Definition resolve_spec (v : ns_map) (p : ns_path) (r : Z) (o : option anx_uuid) : Prop :=
  (short p ∧ r = (if v p is Some _ then ANX_OK else ANX_ENOENT) ∨ ¬ short p ∧ (r = ANX_EINVAL ∨ r = ANX_ENOENT)) ∧
  o = (if decide (r = ANX_OK) then fst <$> v p else None).

Lemma resolve_walk_spec fuel : ∀ es path,
  path ≠ [] → (length path ≤ fuel)%nat →
  ∃ r o, resolve_walk fuel es path = Ret (r, o) ∧ resolve_spec (view es) (segments path) r o.
Proof.
  induction fuel as [|f IH]; intros es path Hne Hf.
  { destruct (walk_split path 0 Hne Hf) as (? & ? & ? & ? & _). done. }
  destruct (walk_split path (S f) Hne Hf) as (f' & s & sl & [= <-] & Es & Hseg & Hlen). rewrite Hseg.
  destruct path as [|x0 path0]; [done|]. cbn [resolve_walk]. rewrite Es.
  destruct (Nat.ltb_spec ANX_NS_SEGMENT_MAX (length s)) as [Hlong|Hl].
  { eexists _, _. split; [done|]. split; [right; split; [|by left]; intros [Hs _]%Forall_cons; lia|done]. }
  assert (∀ p, view es (s :: p) = None →
    ∃ r o, Ret (ANX_ENOENT, None) = Ret (r, o) ∧ resolve_spec (view es) (s :: p) r o) as Hmiss.
  { intros p Hv. eexists _, _. split; [done|]. split; [|done]. rewrite Hv.
    destruct (decide (short (s :: p))); [left|right]; eauto. }
  destruct (entry_find es s) as [[i e]|] eqn:E.
  - destruct (entry_find_Some _ _ _ _ E) as (Hfe & _ & _). destruct (after_slash sl) as [|x rest] eqn:Erest.
    + eexists _, _. split; [done|]. unfold resolve_spec. rewrite view_one, Hfe. cbn. split; [left|done].
      split; [by constructor; [|constructor]|done].
    + set (p := x :: rest) in *. assert (segments p ≠ []) as Hp by (by rewrite segments_nil). destruct (e_children e) as [c|] eqn:Hc.
      * destruct (IH c p ltac:(done) Hlen) as (r & o & -> & Hspec). eexists _, _. split; [done|].
        unfold resolve_spec in *. rewrite view_cons, Hfe by done. cbn. rewrite Hc. cbn. destruct Hspec as [Hr Ho]. split; [|done].
        unfold short in *. rewrite Forall_cons. destruct Hr as [[? ->]|[? ?]]; [left|right]; tauto.
      * apply Hmiss. by rewrite view_cons, Hfe by done; cbn; rewrite Hc.
  - apply Hmiss. assert (find_e es s = None) as Hfe by (unfold find_e; by rewrite E).
    destruct (decide (segments (after_slash sl) = [])) as [->|]; [by rewrite view_one, Hfe|by rewrite view_cons, Hfe].
Qed.

(** Answer and effect of removing [p]. *)
Definition unbind_spec (v v' : ns_map) (p : ns_path) (r : Z) : Prop :=
  r = ANX_OK ∧ short p ∧ is_Some (v p) ∧ (∀ q, v' q = unbound v p q) ∨
  (r = ANX_ENOENT ∧ v p = None ∨ r = ANX_EINVAL ∧ ¬ short p) ∧ (∀ q, v' q = v q).

Lemma unbound_last es s i e q :
  entry_find es s = Some (i, e) → NoDup (e_name <$> es) → view (delete i es) q = unbound (view es) [s] q.
Proof.
  intros E Hnd. pose proof (λ s', find_e_delete es s i e s' E Hnd) as Hd. unfold unbound. destruct q as [|s' q].
  { rewrite bool_decide_eq_false_2; [done|]. intros [? ?]. done. }
  destruct (decide (s' = s)) as [->|Hne].
  - rewrite bool_decide_eq_true_2 by (apply prefix_cons, prefix_nil).
    destruct (decide (q = [])) as [->|]; [rewrite view_one|rewrite view_cons by done]; by rewrite Hd, decide_True.
  - rewrite bool_decide_eq_false_2 by (intros Hp; by apply prefix_cons_inv_1 in Hp).
    destruct (decide (q = [])) as [->|]; [rewrite !view_one|rewrite !view_cons by done]; by rewrite Hd, decide_False.
Qed.

Lemma same_inner (v v' : ns_map) s :
  v' [] = v [] → (∀ s' q, s' ≠ s → v' (s' :: q) = v (s' :: q)) → v' [s] = v [s] →
  (∀ q, below v' s q = below v s q) → ∀ q, v' q = v q.
Proof.
  intros Hnil Ho Hs Hb [|s' q]; [done|]. destruct (decide (s' = s)) as [->|]; [|by apply Ho]. destruct q as [|x q]; [done|].
  exact (Hb (x :: q)).
Qed.

Lemma unbound_inner (v v' : ns_map) s p :
  p ≠ [] → v' [] = v [] → (∀ s' q, s' ≠ s → v' (s' :: q) = v (s' :: q)) → v' [s] = v [s] →
  (∀ q, below v' s q = unbound (below v s) p q) → ∀ q, v' q = unbound v (s :: p) q.
Proof.
  intros Hp Hnil Ho Hs Hb q. assert (¬ s :: p `prefix_of` q → unbound v (s :: p) q = v q) as Hno.
  { intros H. unfold unbound. by rewrite bool_decide_eq_false_2. }
  destruct q as [|s' q]; [rewrite Hno; [done|by intros [? ?]]|]. destruct (decide (s' = s)) as [->|Hne].
  - destruct q as [|x q].
    + rewrite Hno; [done|]. intros H%prefix_cons_inv_2. apply prefix_nil_inv in H. done.
    + transitivity (below v' s (x :: q)); [done|]. rewrite Hb. unfold unbound.
      rewrite (bool_decide_ext (p `prefix_of` x :: q) (s :: p `prefix_of` s :: x :: q)); [done|].
      split; [apply prefix_cons|apply prefix_cons_inv_2].
  - rewrite Ho, Hno by (try done; intros H; by apply prefix_cons_inv_1 in H). done.
Qed.

Lemma unbind_walk_spec n fuel : ∀ es cap path,
  path ≠ [] → (length path ≤ fuel)%nat → dir_ok n es cap →
  ∃ r es', unbind_walk fuel es path = Ret (r, es') ∧ dir_ok n es' cap ∧ unbind_spec (view es) (view es') (segments path) r.
Proof.
  induction fuel as [|f IH]; intros es cap path Hne Hf Hok.
  { destruct (walk_split path 0 Hne Hf) as (? & ? & ? & ? & _). done. }
  destruct (walk_split path (S f) Hne Hf) as (f' & s & sl & [= <-] & Es & Hseg & Hlen). rewrite Hseg.
  destruct path as [|x0 path0]; [done|]. cbn [unbind_walk]. rewrite Es.
  destruct (Nat.ltb_spec ANX_NS_SEGMENT_MAX (length s)) as [Hlong|Hl].
  { eexists _, _. split; [done|]. split; [exact Hok|]. right. split; [right|done]. split; [done|]. intros [Hs _]%Forall_cons. lia. }
  assert (∀ p, view es (s :: p) = None →
    ∃ r es', Ret (ANX_ENOENT, es) = Ret (r, es') ∧ dir_ok n es' cap ∧ unbind_spec (view es) (view es') (s :: p) r) as Hmiss.
  { intros p Hv. eexists _, _. split; [done|]. split; [exact Hok|]. right. split; [by left|done]. }
  destruct (entry_find es s) as [[i e]|] eqn:E.
  - destruct (entry_find_Some _ _ _ _ E) as (Hfe & Hi & _). destruct (after_slash sl) as [|x rest] eqn:Erest.
    + eexists _, _. split; [done|]. split; [by apply dir_ok_delete|]. left. split; [done|]. split; [by constructor; [|constructor]|].
      split; [rewrite view_one, Hfe; eauto|]. intros q. destruct Hok as [Hnd]. by apply unbound_last with e.
    + set (p := x :: rest) in *. assert (segments p ≠ []) as Hp by (by rewrite segments_nil). destruct (e_children e) as [c|] eqn:Hc.
      * assert (dir_ok n c (e_child_cap e)) as Hokc.
        { destruct Hok as [_ _ _ _ Hk _]. eapply Hk, Hc. by eapply list_elem_of_lookup_2. }
        destruct (IH c (e_child_cap e) p ltac:(done) Hlen Hokc) as (r & c' & -> & Hokc' & Hspec). cbn [obind].
        eexists _, _. split; [done|]. split.
        { eapply dir_ok_alter; [exact Hok|exact Hi|done|]. intros c0 [= <-]. exact Hokc'. }
        assert (dir_made n es s i c (e_child_cap e) es) as Hmade.
        { split; [exists e; by rewrite Hfe|]. rewrite Hfe. cbn. rewrite Hc. done. }
        destruct (set_children_below n es s i c _ es c' (e_child_cap e) Hmade) as (Hb & Ho & Hs).
        assert (view (alter (set_children c' (e_child_cap e)) i es) [s] = view es [s]) as Hone.
        { rewrite Hs, view_one, Hfe. cbn. unfold view_of, is_dir. by rewrite Hc. }
        assert (∀ q, below (view es) s q = view c q) as Hcv.
        { intros q. rewrite view_default, Hfe. cbn. by rewrite Hc. }
        destruct Hspec as [(-> & Hsh & Hsome & Hv)|[Hcode Hv]].
        -- left. split; [done|]. split; [by constructor|]. split; [by rewrite view_below, Hcv|].
           apply unbound_inner; [done|done|exact Ho|exact Hone|]. intros q. rewrite Hb, Hv. unfold unbound. by rewrite Hcv.
        -- right. split.
           { rewrite view_below, Hcv by done. unfold short in *. rewrite Forall_cons. tauto. }
           apply same_inner with s; [done|exact Ho|exact Hone|]. intros q. by rewrite Hb, Hv, Hcv.
      * apply Hmiss. by rewrite view_cons, Hfe by done; cbn; rewrite Hc.
  - assert (find_e es s = None) as Hfe by (unfold find_e; by rewrite E).
    destruct (after_slash sl) as [|x rest]; apply Hmiss; [by rewrite view_one, Hfe|rewrite view_cons, Hfe; [done|by rewrite segments_nil]].
Qed.

(** *** Listing *)

Lemma list_entry_name n es cap e : dir_ok n es cap → e ∈ es → le_name (list_entry e) = e_name e.
Proof.
  intros [_ _ _ _ _ Hs] He. unfold list_entry. cbn. unfold anx_strlcpy. apply take_ge. specialize (Hs e He).
  unfold ANX_NS_SEGMENT_MAX in *. lia.
Qed.

Lemma list_children n es cap :
  dir_ok n es cap →
  NoDup (le_name <$> (list_entry <$> es)) ∧
  ∀ s o d, ListEntry s o d ∈ list_entry <$> es ↔ view es [s] = Some (o, d).
Proof.
  intros Hok. pose proof (λ e, list_entry_name n es cap e Hok) as Hname. destruct Hok as [Hnd _ _ _ _ _].
  assert (le_name <$> (list_entry <$> es) = e_name <$> es) as Hn.
  { rewrite <- list_fmap_compose. apply list_fmap_ext. intros i e He. apply Hname. by eapply list_elem_of_lookup_2. }
  split; [by rewrite Hn|]. intros s o d. rewrite view_one. split.
  - intros (e & He & Hin)%list_elem_of_fmap. pose proof (Hname e Hin) as Hn'. rewrite <- He in Hn'. cbn in Hn'. subst s.
    destruct (find_e es (e_name e)) as [e'|] eqn:E; [|by apply find_e_None in E; destruct E; apply list_elem_of_fmap_2].
    destruct (find_e_Some _ _ _ E) as (i & _ & Hi & Hne). apply list_elem_of_lookup in Hin as [j Hj].
    assert (i = j) as ->.
    { eapply NoDup_lookup; [exact Hnd| |]; rewrite list_lookup_fmap; [rewrite Hi|rewrite Hj]; cbn; [by rewrite Hne|done]. }
    simplify_eq. cbn. unfold list_entry in He. by simplify_eq.
  - destruct (find_e es s) as [e|] eqn:E; [|done]. cbn. intros [= <- <-].
    destruct (find_e_Some _ _ _ E) as (i & _ & Hi & <-). apply list_elem_of_fmap. exists e. pose proof (list_elem_of_lookup_2 _ _ _ Hi) as Hin.
    split; [|done]. unfold list_entry. f_equal. symmetry. exact (Hname e Hin).
Qed.

Definition list_spec (v : ns_map) (p : ns_path) (max : Z) (r : Z) (l : list anx_ns_list_entry) (cnt : option Z) : Prop :=
  r = ANX_OK ∧ short p ∧ cnt = Some (Z.of_nat (length l)) ∧
    ((p = [] ∨ ∃ o, v p = Some (o, true)) ∧
       (∃ full, l = take (Z.to_nat max) full ∧ NoDup (le_name <$> full) ∧
          ∀ s o d, ListEntry s o d ∈ full ↔ v (p ++ [s]) = Some (o, d)) ∨
     ∃ up s o, p = up ++ [s] ∧ v p = Some (o, false) ∧ l = [ListEntry s o false]) ∨
  (r = ANX_ENOENT ∧ p ≠ [] ∧ v p = None ∨ r = ANX_EINVAL ∧ ¬ short p) ∧ l = [] ∧ cnt = None.

Definition walk_spec (n : Z) (v : ns_map) (p : ns_path) (w : list anx_ns_entry + Z * list anx_ns_list_entry) : Prop :=
  match w with
  | inl es => short p ∧ (p = [] ∨ ∃ o, v p = Some (o, true)) ∧ (∃ cap, dir_ok n es cap) ∧ ∀ q, q ≠ [] → view es q = v (p ++ q)
  | inr (r, l) =>
      r = ANX_OK ∧ short p ∧ (∃ up s o, p = up ++ [s] ∧ v p = Some (o, false) ∧ l = [ListEntry s o false]) ∨
      (r = ANX_ENOENT ∧ p ≠ [] ∧ v p = None ∨ r = ANX_EINVAL ∧ ¬ short p) ∧ l = []
  end.

Lemma walk_spec_inner n v vc s p w :
  p ≠ [] → (length s ≤ ANX_NS_SEGMENT_MAX)%nat → (∀ q, vc q = below v s q) → walk_spec n vc p w → walk_spec n v (s :: p) w.
Proof.
  intros Hp Hl Hvc. assert (short (s :: p) ↔ short p) as Hsh by (unfold short; rewrite Forall_cons; tauto).
  assert (∀ q, vc (p ++ q) = v (s :: p ++ q)) as Hb by (intros q; rewrite Hvc; destruct p; done).
  pose proof (Hb []) as Hb0. rewrite !app_nil_r in Hb0. destruct w as [es|[r l]]; unfold walk_spec; rewrite Hsh, Hb0.
  - intros (? & ? & ? & Hv). split; [done|]. split; [naive_solver|]. split; [done|]. intros q Hq. rewrite Hv by done. apply Hb.
  - intros [(? & ? & up & s' & o & -> & ? & ?)|]; [left|right; naive_solver]. split; [done|]. split; [done|]. exists (s :: up), s', o. done.
Qed.

Lemma list_walk_spec n fuel : ∀ es cap path,
  (length path ≤ fuel)%nat → dir_ok n es cap →
  ∃ w, list_walk fuel es path = Ret w ∧ walk_spec n (view es) (segments path) w.
Proof.
  induction fuel as [|f IH]; intros es cap path Hf Hok; (destruct (decide (path = [])) as [->|Hne];
    [eexists; split; [done|]; split; [constructor|]; split; [by left|]; split; [eauto|done]|]).
  { destruct (walk_split path 0 Hne Hf) as (? & ? & ? & ? & _). done. }
  destruct (walk_split path (S f) Hne Hf) as (f' & s & sl & [= <-] & Es & Hseg & Hlen). rewrite Hseg.
  destruct path as [|x0 path0]; [done|]. cbn [list_walk]. rewrite Es.
  destruct (Nat.ltb_spec ANX_NS_SEGMENT_MAX (length s)) as [Hlong|Hl].
  { eexists. split; [done|]. right. split; [right|done]. split; [done|]. intros [Hs _]%Forall_cons. lia. }
  set (path := after_slash sl) in *. assert (∀ p, view es (s :: p) = None → walk_spec n (view es) (s :: p) (inr (ANX_ENOENT, []))) as Hmiss.
  { intros p Hv. right. split; [left|done]. by repeat split. }
  destruct (entry_find es s) as [[i e]|] eqn:E.
  - destruct (entry_find_Some _ _ _ _ E) as (Hfe & Hi & Hname). pose proof (list_elem_of_lookup_2 _ _ _ Hi) as Hin.
    destruct (e_children e) as [c|] eqn:Hc.
    + assert (dir_ok n c (e_child_cap e)) as Hokc by (destruct Hok as [_ _ _ _ Hk _]; by eapply Hk).
      destruct (IH c (e_child_cap e) path Hlen Hokc) as (w & -> & Hw). eexists. split; [done|].
      destruct (decide (path = [])) as [Hp|Hp].
      * rewrite Hp in *. cbn in Hw |- *. destruct w as [es'|[r l]]; unfold walk_spec in *.
        -- destruct Hw as (_ & _ & Hd & Hv). split; [by constructor; [|constructor]|].
           split; [right; exists (e_oid e); rewrite view_one, Hfe; cbn; unfold view_of, is_dir; by rewrite Hc|]. split; [done|].
           intros q Hq. rewrite Hv by done. change ([s] ++ q) with (s :: q). rewrite view_cons, Hfe by done. cbn. by rewrite Hc.
        -- exfalso. destruct Hw as [(_ & _ & up & ? & ? & Hup & _)|[[(_ & ? & _)|[_ Hns]] _]]; [by destruct up|done|]. apply Hns. constructor.
      * apply walk_spec_inner with (view c); [by rewrite segments_nil|done| |done].
        intros q. rewrite view_default, Hfe. cbn. by rewrite Hc.
    + destruct (decide (path = [])) as [Hp|Hp].
      * rewrite Hp. rewrite bool_decide_eq_true_2 by done. cbn [negb]. eexists. split; [done|]. left. split; [done|].
        split; [by constructor; [|constructor]|]. exists [], s, (e_oid e). split; [done|]. rewrite view_one, Hfe. cbn. unfold view_of, is_dir.
        rewrite Hc. split; [done|]. f_equal. rewrite <- Hname, <- (list_entry_name n es cap e Hok Hin).
        unfold list_entry, is_dir. by rewrite Hc.
      * rewrite bool_decide_eq_false_2 by done. cbn [negb]. eexists. split; [done|]. apply Hmiss.
        rewrite view_cons, Hfe; [cbn; by rewrite Hc|by rewrite segments_nil].
  - assert (find_e es s = None) as Hfe by (unfold find_e; by rewrite E). eexists. split; [done|]. apply Hmiss.
    destruct (decide (segments path = [])) as [->|]; [by rewrite view_one, Hfe|by rewrite view_cons, Hfe].
Qed.
