(* ===== verification/Namespaces.v ===== *)
(** * The registry of namespaces, and naming of objects

    What a sequence of calls on the registry does ([namespaces_refine_maps]):
    the registry is a finite collection of abstract namespaces, each a map from
    paths to OIDs.  A name of 64 bytes or more falls outside it, as
    [long_name_hides_namespace] shows. *)

From stdpp Require Import strings.
From S2P Require Import Prelude Uuid HashTable Cell CellStore Meta StateObject Namespace NamespaceProofs.
#[local] Open Scope Z_scope.

(** ** The registry *)

Definition bucket_no (name : list Z) : Z := Z.land (anx_hash_bytes name) 15.

(** Every namespace is in the bucket of its name, names are unique. *)
Record reg_ok (n : Z) (R : ns_registry) : Prop := {
  ro_bits : ht_bits (ns_table R) = NS_HASH_BITS;
  ro_size : length (buckets (ns_table R)) = 16%nat;
  ro_bucket : ∀ i a, 0 ≤ i < 16 → a ∈ rd [] (buckets (ns_table R)) i →
    ∃ ns, ns_heap R !! a = Some ns ∧ bucket_no (ns_name ns) = i;
  ro_stored : ∀ a ns, ns_heap R !! a = Some ns → a ∈ rd [] (buckets (ns_table R)) (bucket_no (ns_name ns));
  ro_unique : ∀ a b x y, ns_heap R !! a = Some x → ns_heap R !! b = Some y → ns_name x = ns_name y → a = b;
  ro_dirs : ∀ a ns, ns_heap R !! a = Some ns → dir_ok n (ns_root ns) (ns_root_cap ns);
}.

Lemma bucket_no_range name : 0 ≤ bucket_no name < 16.
Proof. unfold bucket_no. change 15 with (Z.ones 4). rewrite Z.land_ones by lia. apply Z.mod_pos_bound. lia. Qed.

Lemma reg_bucket n R name : reg_ok n R → anx_htable_bucket (ns_table R) (anx_hash_bytes name) = rd [] (buckets (ns_table R)) (bucket_no name).
Proof. intros Hok. unfold anx_htable_bucket, bucket_index. by rewrite (ro_bits _ _ Hok). Qed.

Lemma in_bucket_Some R l name a : ns_in_bucket R l name = Some a → ∃ ns, ns_heap R !! a = Some ns ∧ ns_name ns = name.
Proof.
  induction l as [|x l IH]; [done|]. cbn. destruct (ns_heap R !! x) as [ns|] eqn:E; [|done].
  case_bool_decide; [|done]. intros [= <-]. eauto.
Qed.

Lemma in_bucket_None R l name : ns_in_bucket R l name = None → ∀ a ns, a ∈ l → ns_heap R !! a = Some ns → ns_name ns ≠ name.
Proof.
  induction l as [|x l IH]; [set_solver|]. cbn. intros H a ns [->|Ha]%elem_of_cons Hns.
  - rewrite Hns in H. by case_bool_decide.
  - apply (IH) with a; [|done|done]. destruct (ns_heap R !! x); [by case_bool_decide|done].
Qed.

Lemma ns_find_spec n R name a :
  reg_ok n R → ns_find R name = Some a ↔ ∃ ns, ns_heap R !! a = Some ns ∧ ns_name ns = name.
Proof.
  intros Hok. unfold ns_find. rewrite (reg_bucket n) by exact Hok. split; [apply in_bucket_Some|]. intros (ns & Hns & Hname).
  destruct (ns_in_bucket _ _ _) as [b|] eqn:E.
  - destruct (in_bucket_Some _ _ _ _ E) as (ns' & Hb & Hn'). f_equal. apply (ro_unique n R Hok b a ns' ns); congruence.
  - exfalso. pose proof (in_bucket_None _ _ _ E a ns) as H. apply H; [|done|done]. rewrite <- Hname. by eapply (ro_stored n).
Qed.

(** The abstract registry. *)
Definition names (R : ns_registry) (name : list Z) : option ns_map :=
  (λ ns, view (ns_root ns)) <$> (ns_find R name ≫= λ a, ns_heap R !! a).

Lemma find_cases n R name :
  reg_ok n R →
  (ns_find R name = None ∧ names R name = None ∧ (∀ a ns, ns_heap R !! a = Some ns → ns_name ns ≠ name)) ∨
  (∃ a ns, ns_find R name = Some a ∧ ns_heap R !! a = Some ns ∧ ns_name ns = name ∧ names R name = Some (view (ns_root ns))).
Proof.
  intros Hok. unfold names. destruct (ns_find R name) as [a|] eqn:E; [right|left].
  - pose proof E as (ns & Hns & Hname)%(ns_find_spec n) ; [|exact Hok]. exists a, ns. cbn. by rewrite Hns.
  - split; [done|]. split; [done|]. intros a ns Hns Hname.
    assert (ns_find R name = Some a) as E'; [|congruence]. apply (ns_find_spec n); eauto.
Qed.

Lemma reg_ok_mono n m R : n ≤ m → reg_ok n R → reg_ok m R.
Proof. intros Hnm []. constructor; eauto using dir_ok_mono. Qed.

(** A namespace replaced by one of the same name. *)
Lemma reg_put_ok n m R a ns es cap :
  reg_ok n R → n ≤ m → ns_heap R !! a = Some ns → dir_ok m es cap → reg_ok m (ns_put a es cap R).
Proof.
  intros [Hb Hs Hbk Hst Hu Hd] Hnm Ha Hes.
  assert (∀ b y, ns_heap (ns_put a es cap R) !! b = Some y → ∃ x, ns_heap R !! b = Some x ∧ ns_name y = ns_name x ∧
            dir_ok m (ns_root y) (ns_root_cap y)) as Hinv.
  { intros b y. cbn. rewrite lookup_alter. case_decide as Hb'; [subst b; rewrite Ha; cbn; intros [= <-]; eauto|].
    intros Hy. exists y. split; [done|]. split; [done|]. eapply dir_ok_mono, Hd; done. }
  constructor; cbn; [done|done| | | |].
  - intros i b Hi Hin. destruct (Hbk i b Hi Hin) as (x & Hx & Hxi). rewrite lookup_alter. case_decide; [subst b|]; rewrite Hx; eexists; (split; [reflexivity|]); exact Hxi.
  - intros b y Hy. destruct (Hinv b y Hy) as (x & Hx & -> & _). by apply Hst.
  - intros b c x y Hx Hy Hxy. destruct (Hinv b x Hx) as (x' & Hx' & Hnx & _), (Hinv c y Hy) as (y' & Hy' & Hny & _).
    eapply Hu; [done|done|congruence].
  - intros b y Hy. by destruct (Hinv b y Hy) as (x & _ & _ & ?).
Qed.

Lemma put_names n m R a ns es cap name :
  reg_ok n R → n ≤ m → ns_heap R !! a = Some ns → dir_ok m es cap →
  names (ns_put a es cap R) name = if decide (name = ns_name ns) then Some (view es) else names R name.
Proof.
  intros Hok Hnm Ha Hes. pose proof (reg_put_ok n m R a ns es cap Hok Hnm Ha Hes) as Hok'.
  assert (∀ b, ns_find (ns_put a es cap R) name = Some b ↔ ns_find R name = Some b) as Hf.
  { intros b. rewrite (ns_find_spec n R) by exact Hok. rewrite (ns_find_spec m) by exact Hok'. cbn. rewrite lookup_alter.
    case_decide as Hb; [subst b; rewrite Ha; cbn|done]. split; intros (x & [= <-] & ?); eauto. }
  unfold names. destruct (ns_find R name) as [b|] eqn:E.
  - rewrite (proj2 (Hf b) eq_refl). cbn. apply (ns_find_spec n) in E as (x & Hx & Hname); [|exact Hok].
    rewrite lookup_alter. case_decide as Hb.
    + subst b. rewrite Hx. cbn. simplify_eq. by rewrite decide_True.
    + rewrite decide_False; [done|]. intros ->. apply Hb. eapply (ro_unique n R Hok); [exact Ha|exact Hx|done].
  - destruct (ns_find (ns_put a es cap R) name) as [b|] eqn:E'; [discriminate (proj1 (Hf b) eq_refl)|]. cbn. rewrite decide_False; [done|].
    intros ->. assert (ns_find R (ns_name ns) = Some a) as Hs; [|congruence]. apply (ns_find_spec n); eauto.
Qed.

(** A namespace added under a new address and a new name that fits. *)
Lemma register_ok n R addr name :
  reg_ok n R → 0 ≤ n → ns_heap R !! addr = None → (∀ a ns, ns_heap R !! a = Some ns → ns_name ns ≠ name) →
  let R' := ns_register R addr (Namespace name [] 16) name in
  reg_ok n R' ∧ ∀ x, names R' x = if decide (x = name) then Some (view []) else names R x.
Proof.
  intros Hok Hn Hfree Hnew R'. pose proof Hok as [Hb Hs Hbk Hst Hu Hd]. pose proof (bucket_no_range name) as Hrange.
  assert (buckets (ns_table R') = wr (buckets (ns_table R)) (bucket_no name) (addr :: rd [] (buckets (ns_table R)) (bucket_no name))) as Hbuckets.
  { unfold R', ns_register, anx_htable_add, anx_htable_bucket, bucket_index. cbn. by rewrite Hb. }
  assert (∀ i a, 0 ≤ i < 16 → a ∈ rd [] (buckets (ns_table R')) i ↔ a = addr ∧ i = bucket_no name ∨ a ∈ rd [] (buckets (ns_table R)) i) as Hin.
  { intros i a Hi. rewrite Hbuckets. destruct (decide (i = bucket_no name)) as [->|Hne].
    - rewrite rd_wr_eq, elem_of_cons by lia. tauto.
    - rewrite rd_wr_ne by lia. naive_solver. }
  assert (∀ a ns, ns_heap R' !! a = Some ns ↔ a = addr ∧ ns = Namespace name [] 16 ∨ ns_heap R !! a = Some ns) as Hheap.
  { intros a ns. cbn. rewrite lookup_insert. case_decide as Ha; [subst a|]; naive_solver. }
  assert (reg_ok n R') as Hok'.
  { constructor; [exact Hb|by rewrite Hbuckets, wr_length| | | |].
    - intros i a Hi Ha. apply Hin in Ha as [[-> ->]|Ha]; [| |done].
      + eexists. split; [apply Hheap; by left|done].
      + destruct (Hbk i a Hi Ha) as (x & Hx & Hxi). exists x. split; [apply Hheap; by right|done].
    - intros a ns H. apply Hin; [apply bucket_no_range|]. apply Hheap in H as [[-> ->]|H]; [by left|right; by apply Hst].
    - intros a b x y Hx Hy Hxy. apply Hheap in Hx as [[-> ->]|Hx], Hy as [[-> ->]|Hy]; [done| | |by eapply Hu].
      + by destruct (Hnew _ _ Hy).
      + by destruct (Hnew _ _ Hx).
    - intros a ns H. apply Hheap in H as [[-> ->]|H]; [|by apply (Hd a)]. apply (dir_ok_new n) in Hn as [? ? ? ? ? ?].
      constructor; cbn in *; done || lia. }
  split; [done|]. intros x. unfold names.
  assert (∀ a, ns_find R' x = Some a ↔ a = addr ∧ x = name ∨ ns_find R x = Some a) as Hf.
  { intros a. rewrite (ns_find_spec n R' x a Hok'), (ns_find_spec n R x a Hok). setoid_rewrite Hheap. naive_solver. }
  destruct (ns_find R' x) as [a|] eqn:E; cbn.
  - destruct (proj1 (Hf a) eq_refl) as [[-> ->]|E'].
    + rewrite lookup_insert_eq. by rewrite decide_True.
    + rewrite E'. cbn. apply (ns_find_spec n) in E' as (ns & Hns & <-); [|done]. rewrite decide_False by (intros Heq; by apply (Hnew a ns)).
      rewrite lookup_insert_ne by (intros ->; congruence). done.
  - rewrite decide_False by (intros ->; discriminate (proj2 (Hf addr) (or_introl (conj eq_refl eq_refl)))).
    destruct (ns_find R x) as [a|] eqn:E'; [|done]. discriminate (proj2 (Hf a) (or_intror eq_refl)).
Qed.

(** ** Runs *)

Inductive ns_call :=
  | CreateNs (addr : node) (mem : list bool) (name : list Z)
  | BindNs (mem : list bool) (name path : list Z) (oid : anx_uuid)
  | UnbindNs (name path : list Z)
  | ResolveNs (name path : list Z)
  | ListNs (name path : list Z) (max_entries : Z).

(** The code, and what a lookup or a listing stores for the caller. *)
Inductive ns_answer :=
  | NsCode (r : Z)
  | NsOid (r : Z) (o : option anx_uuid)
  | NsEntries (r : Z) (l : list anx_ns_list_entry) (cnt : option Z).

Definition ns_do (c : ns_call) (R : ns_registry) : outcome (ns_answer * ns_registry) :=
  match c with
  | CreateNs addr mem name => let '(r, R) := anx_ns_create addr mem (Some name) R in Ret (NsCode r, R)
  | BindNs mem name path oid => let! (r, R) := anx_ns_bind mem R name path oid in Ret (NsCode r, R)
  | UnbindNs name path => let! (r, R) := anx_ns_unbind R name path in Ret (NsCode r, R)
  | ResolveNs name path => let! (r, o) := anx_ns_resolve R name path in Ret (NsOid r o, R)
  | ListNs name path max => let! (r, l, cnt) := anx_ns_list R (Some name) (Some path) true max in Ret (NsEntries r l cnt, R)
  end.

(** [A'] is [A] except at [name]. *)
Definition only_at (A A' : list Z → option ns_map) (name : list Z) : Prop := ∀ x, x ≠ name → A' x = A x.

(** What the abstract registry allows a call to answer and to do. *)
Definition ns_allowed (c : ns_call) (A : list Z → option ns_map) (ans : ns_answer) (A' : list Z → option ns_map) : Prop :=
  match c, ans with
  | CreateNs _ mem name, NsCode r =>
      match A name with
      | Some _ => r = (if decide (name = []) then ANX_EINVAL else ANX_EEXIST) ∧ A' = A
      | None =>
          if decide (name = []) then r = ANX_EINVAL ∧ A' = A
          else r = ANX_ENOMEM ∧ false ∈ mem ∧ A' = A ∨
               r = ANX_OK ∧ only_at A A' name ∧ ∃ v, A' name = Some v ∧ ∀ p, v p = None
      end
  | BindNs mem name path oid, NsCode r =>
      match A name with
      | None => r = ANX_ENOENT ∧ A' = A
      | Some v =>
          if decide (path_of path = []) then r = ANX_EINVAL ∧ A' = A
          else only_at A A' name ∧ ∃ v', A' name = Some v' ∧ bind_spec mem v v' (path_of path) oid r
      end
  | UnbindNs name path, NsCode r =>
      match A name with
      | None => r = ANX_ENOENT ∧ A' = A
      | Some v =>
          if decide (path_of path = []) then r = ANX_EINVAL ∧ A' = A
          else only_at A A' name ∧ ∃ v', A' name = Some v' ∧ unbind_spec v v' (path_of path) r
      end
  | ResolveNs name path, NsOid r o =>
      A' = A ∧
      match A name with
      | None => r = ANX_ENOENT ∧ o = None
      | Some v => if decide (path_of path = []) then r = ANX_EINVAL ∧ o = None else resolve_spec v (path_of path) r o
      end
  | ListNs name path max, NsEntries r l cnt =>
      A' = A ∧
      if decide (max = 0) then r = ANX_EINVAL ∧ l = [] ∧ cnt = Some 0
      else match A name with
           | None => r = ANX_ENOENT ∧ l = [] ∧ cnt = Some 0
           | Some v => list_spec v (path_of path) max r l cnt
           end
  | _, _ => False
  end.

(** Calls the theorems speak of: a created name fits its field and its block
    comes from free memory. *)
Definition call_ok (R : ns_registry) (c : ns_call) : Prop :=
  match c with
  | CreateNs addr _ name => (length name < ANX_NS_NAME_MAX)%nat ∧ ns_heap R !! addr = None
  | _ => True
  end.

Lemma alloc_cases mem name :
  (length name < ANX_NS_NAME_MAX)%nat →
  (∃ mem', ns_alloc mem name = (None, mem') ∧ false ∈ mem) ∨ ∃ mem', ns_alloc mem name = (Some (Namespace name [] 16), mem').
Proof.
  intros Hl. unfold ns_alloc. assert (anx_strlcpy name ANX_NS_NAME_MAX = name) as ->.
  { unfold anx_strlcpy. apply take_ge. unfold ANX_NS_NAME_MAX in *. lia. }
  destruct (next_alloc mem) as [[] mem1] eqn:E1; cbn [negb]; [|left; eauto using next_alloc_fails].
  destruct (next_alloc mem1) as [[] mem2] eqn:E2; cbn [negb]; [right; eauto|].
  left. eauto using next_alloc_fails, next_alloc_sub.
Qed.

Lemma init_steps l : ∀ used R mem,
  NoDup (used.*1 ++ l.*1) → NoDup (used.*2 ++ l.*2) → Forall (λ an, (length an.2 < ANX_NS_NAME_MAX)%nat) l →
  reg_ok 0 R → (∀ a ns, ns_heap R !! a = Some ns → (a, ns_name ns) ∈ used) → (∀ x v p, names R x = Some v → v p = None) →
  let R' := (foldl init_step (R, mem) l).1 in
  reg_ok 0 R' ∧ (∀ x v p, names R' x = Some v → v p = None) ∧
  (mem = [] → ∀ x, is_Some (names R' x) ↔ is_Some (names R x) ∨ x ∈ l.*2).
Proof.
  induction l as [|[a name] l IH]; intros used R mem Hn1 Hn2 Hs Hok Hused Hempty; [cbn; split; [done|]; split; [done|]; set_solver|].
  apply Forall_cons in Hs as [Hl Hs]. cbn [foldl]. cbn [fst snd] in *.
  rewrite !fmap_cons in *. cbn [fst snd] in *.
  assert ((a ∉ used.*1) ∧ (name ∉ used.*2)) as [Ha Hname].
  { apply NoDup_app in Hn1 as (_ & H1 & _), Hn2 as (_ & H2 & _). split; [intros H%H1|intros H%H2]; set_solver. }
  destruct (alloc_cases mem name Hl) as [(mem' & E & Hf)|(mem' & E)].
  - assert (init_step (R, mem) (a, name) = (R, mem')) as -> by (unfold init_step; cbn [fst snd]; by rewrite E). destruct (IH used R mem') as (H1 & H2 & _); try done.
    + eapply sublist_NoDup; [exact Hn1|]. apply sublist_app; [done|]. by apply sublist_cons.
    + eapply sublist_NoDup; [exact Hn2|]. apply sublist_app; [done|]. by apply sublist_cons.
    + split; [exact H1|]. split; [exact H2|]. intros ->. set_solver.
  - assert (init_step (R, mem) (a, name) = (ns_register R a (Namespace name [] 16) name, mem')) as -> by (unfold init_step; cbn [fst snd]; by rewrite E).
    assert (mem = [] → mem' = []) as Hmem by (intros ->; unfold ns_alloc in E; cbn in E; congruence).
    destruct (register_ok 0 R a name Hok ltac:(lia)) as [Hok' Hnames'].
    + destruct (ns_heap R !! a) as [ns|] eqn:Ea; [|done]. destruct Ha. apply Hused in Ea. apply list_elem_of_fmap. by exists (a, ns_name ns).
    + intros b ns Hb Hbn. apply Hname. apply Hused in Hb. apply list_elem_of_fmap. by exists (b, ns_name ns); rewrite <- Hbn.
    + destruct (IH ((a, name) :: used) (ns_register R a (Namespace name [] 16) name) mem') as (H1 & H2 & H3); try done.
      * rewrite fmap_cons. cbn. by rewrite Permutation_middle.
      * rewrite fmap_cons. cbn. by rewrite Permutation_middle.
      * intros b ns. cbn. rewrite lookup_insert. case_decide; [intros [= <-]; subst; apply elem_of_cons; by left|]. intros Hb%Hused. apply elem_of_cons. by right.
      * intros x v p. rewrite Hnames'. case_decide; [intros [= <-]; apply view_empty|apply Hempty].
      * split; [exact H1|]. split; [exact H2|]. intros Hm x. rewrite (H3 (Hmem Hm)), Hnames'. case_decide; [subst; set_solver|].
        rewrite elem_of_cons. tauto.
Qed.

Lemma init_ok addrs mem :
  NoDup addrs → length addrs = 4%nat →
  reg_ok 0 (anx_ns_init addrs mem).1 ∧ (∀ x v p, names (anx_ns_init addrs mem).1 x = Some v → v p = None) ∧
  (mem = [] → ∀ x, is_Some (names (anx_ns_init addrs mem).1 x) ↔ x ∈ system_ns).
Proof.
  intros Hnd Hlen. unfold anx_ns_init. set (R0 := NsRegistry (anx_htable_init NS_HASH_BITS) ∅).
  assert (∀ i, rd [] (buckets (ns_table R0)) i = []) as Hnil.
  { intros i. change (buckets (ns_table R0)) with (replicate 16 ([] : list node)). unfold rd. rewrite nth_lookup.
    destruct (replicate 16 _ !! _) as [l|] eqn:E; [|done]. by apply lookup_replicate in E as [-> _]. }
  assert (∀ x, names R0 x = None) as Hno by (intros x; unfold names, ns_find, anx_htable_bucket; by rewrite Hnil).
  assert ((zip addrs system_ns).*1 = addrs) as H1 by (apply fst_zip; rewrite Hlen; done).
  assert ((zip addrs system_ns).*2 = system_ns) as H2 by (apply snd_zip; rewrite Hlen; done).
  destruct (init_steps (zip addrs system_ns) [] R0 mem) as (Hok & He & Hs).
  - cbn. by rewrite H1.
  - cbn [fmap list_fmap app]. rewrite H2. apply (bool_decide_unpack (NoDup system_ns)). vm_compute. exact I.
  - apply Forall_forall. intros [a nm] Hin. apply (list_elem_of_fmap_2 snd) in Hin. rewrite H2 in Hin. cbn in *.
    revert nm Hin. apply Forall_forall. apply (bool_decide_unpack _). vm_compute. exact I.
  - constructor; [done|done| |done|done|done]. intros i a Hi Ha. rewrite Hnil in Ha. by apply elem_of_nil in Ha.
  - done.
  - intros x v p. by rewrite Hno.
  - split; [done|]. split; [done|]. intros Hm x. rewrite (Hs Hm), H2. split; [|tauto]. intros [[? H]|]; [|done].
    by rewrite Hno in H.
Qed.

Lemma path_of_nil path : path_of path = [] ↔ skip_slash path = [].
Proof. apply segments_nil. Qed.

Section steps.
Context (n : Z) (R : ns_registry) (Hok : reg_ok n R) (Hn : 0 ≤ n < 2 ^ 31).

(** The call returns, keeps the registry well formed, answers and acts as the
    abstract registry. *)
Definition step_ok (c : ns_call) : Prop :=
  ∃ ans R', ns_do c R = Ret (ans, R') ∧ reg_ok (n + 1) R' ∧ ns_allowed c (names R) ans (names R').

Lemma step_same c ans : ns_do c R = Ret (ans, R) → ns_allowed c (names R) ans (names R) → step_ok c.
Proof. intros ? ?. eexists _, _. split; [done|]. split; [eapply reg_ok_mono, Hok; lia|done]. Qed.

Lemma create_allowed addr mem name : call_ok R (CreateNs addr mem name) → step_ok (CreateNs addr mem name).
Proof.
  intros [Hl Hfree]. destruct (decide (name = [])) as [->|Hne].
  { apply step_same with (NsCode ANX_EINVAL); [done|]. cbn. by destruct (names R []). }
  assert (anx_ns_create addr mem (Some name) R = match ns_find R name with Some _ => (ANX_EEXIST, R) | None =>
    match ns_alloc mem name with (None, _) => (ANX_ENOMEM, R) | (Some ns, _) => (ANX_OK, ns_register R addr ns name) end end) as E.
  { unfold anx_ns_create. by rewrite bool_decide_eq_false_2 by (by destruct name). }
  destruct (find_cases n R name Hok) as [(Hf & HA & Hno)|(a & ns & Hf & _ & _ & HA)]; rewrite Hf in E.
  - destruct (alloc_cases mem name Hl) as [(mem' & Ea & Hfail)|(mem' & Ea)]; rewrite Ea in E.
    + apply step_same with (NsCode ANX_ENOMEM); cbn [ns_do ns_allowed]; [by rewrite E|]. rewrite HA. case_decide; [done|]. by left.
    + destruct (register_ok n R addr name Hok ltac:(lia) Hfree Hno) as [Hok' Hnames].
      eexists _, _. cbn [ns_do ns_allowed]. rewrite E, HA. split; [done|].
      split; [eapply reg_ok_mono, Hok'; lia|]. case_decide; [done|]. right. split; [done|]. split.
      * intros x Hx. by rewrite Hnames, decide_False.
      * exists (view []). rewrite Hnames, decide_True by done. split; [done|apply view_empty].
  - apply step_same with (NsCode ANX_EEXIST); cbn [ns_do ns_allowed]; [by rewrite E|]. rewrite HA. by case_decide.
Qed.

Lemma put_only a ns es cap m :
  ns_heap R !! a = Some ns → n ≤ m → dir_ok m es cap →
  only_at (names R) (names (ns_put a es cap R)) (ns_name ns) ∧ names (ns_put a es cap R) (ns_name ns) = Some (view es).
Proof.
  intros Ha Hm Hd. pose proof (λ x, put_names n m R a ns es cap x Hok Hm Ha Hd) as Hnames.
  split; [intros x Hx; by rewrite Hnames, decide_False|by rewrite Hnames, decide_True].
Qed.

Lemma bind_allowed mem name path oid : step_ok (BindNs mem name path oid).
Proof.
  destruct (find_cases n R name Hok) as [(Hf & HA & _)|(a & ns & Hf & Ha & <- & HA)].
  { apply step_same with (NsCode ANX_ENOENT); cbn [ns_do ns_allowed]; unfold anx_ns_bind; by rewrite ?Hf, ?HA. }
  destruct (decide (path_of path = [])) as [Hp|Hp]; pose proof Hp as Hp'; rewrite path_of_nil in Hp'.
  { apply step_same with (NsCode ANX_EINVAL); cbn [ns_do ns_allowed]; unfold anx_ns_bind;
      [by rewrite Hf, Ha, bool_decide_eq_true_2|rewrite HA; by case_decide]. }
  destruct (bind_walk_spec oid _ n (ns_root ns) (ns_root_cap ns) (skip_slash path) mem Hp' ltac:(reflexivity) (ro_dirs _ _ Hok _ _ Ha) Hn)
    as (r & es & cap & mem' & Ew & _ & Hd & Hs).
  eexists _, _. cbn [ns_do ns_allowed]. unfold anx_ns_bind. rewrite Hf, Ha, bool_decide_eq_false_2 by done. rewrite Ew, HA. case_decide; [done|].
  split; [done|]. split; [eapply reg_put_ok; [exact Hok|lia|exact Ha|exact Hd]|].
  destruct (put_only a ns es cap (n + 1) Ha ltac:(lia) Hd). eauto.
Qed.

Lemma unbind_allowed name path : step_ok (UnbindNs name path).
Proof.
  destruct (find_cases n R name Hok) as [(Hf & HA & _)|(a & ns & Hf & Ha & <- & HA)].
  { apply step_same with (NsCode ANX_ENOENT); cbn [ns_do ns_allowed]; unfold anx_ns_unbind; by rewrite ?Hf, ?HA. }
  destruct (decide (path_of path = [])) as [Hp|Hp]; pose proof Hp as Hp'; rewrite path_of_nil in Hp'.
  { apply step_same with (NsCode ANX_EINVAL); cbn [ns_do ns_allowed]; unfold anx_ns_unbind;
      [by rewrite Hf, Ha, bool_decide_eq_true_2|rewrite HA; by case_decide]. }
  destruct (unbind_walk_spec n _ (ns_root ns) (ns_root_cap ns) (skip_slash path) Hp' ltac:(reflexivity) (ro_dirs _ _ Hok _ _ Ha))
    as (r & es & Ew & Hd & Hs).
  eexists _, _. cbn [ns_do ns_allowed]. unfold anx_ns_unbind. rewrite Hf, Ha, bool_decide_eq_false_2 by done. rewrite Ew, HA. case_decide; [done|].
  split; [done|]. split; [eapply reg_ok_mono, reg_put_ok; [|exact Hok|reflexivity|exact Ha|exact Hd]; lia|].
  destruct (put_only a ns es (ns_root_cap ns) n Ha ltac:(lia) Hd). eauto.
Qed.

Lemma resolve_allowed name path : step_ok (ResolveNs name path).
Proof.
  destruct (find_cases n R name Hok) as [(Hf & HA & _)|(a & ns & Hf & Ha & <- & HA)].
  { apply step_same with (NsOid ANX_ENOENT None); cbn [ns_do ns_allowed]; unfold anx_ns_resolve; by rewrite ?Hf, ?HA. }
  destruct (decide (path_of path = [])) as [Hp|Hp]; pose proof Hp as Hp'; rewrite path_of_nil in Hp'.
  { apply step_same with (NsOid ANX_EINVAL None); cbn [ns_do ns_allowed]; unfold anx_ns_resolve;
      [cbn [mbind option_bind]; rewrite Hf; cbn [mbind option_bind]; by rewrite Ha, bool_decide_eq_true_2|rewrite HA; by case_decide]. }
  destruct (resolve_walk_spec _ (ns_root ns) (skip_slash path) Hp' ltac:(reflexivity)) as (r & o & Ew & Hs).
  apply step_same with (NsOid r o); cbn [ns_do ns_allowed]; [|rewrite HA; by case_decide].
  unfold anx_ns_resolve. rewrite Hf. cbn [mbind option_bind]. rewrite Ha, bool_decide_eq_false_2 by done. by rewrite Ew.
Qed.

Lemma list_allowed name path max : step_ok (ListNs name path max).
Proof.
  destruct (decide (max = 0)) as [->|Hm].
  { apply step_same with (NsEntries ANX_EINVAL [] (Some 0)); [done|]. split; [done|]. by case_decide. }
  apply Z.eqb_neq in Hm as Hm'.
  destruct (find_cases n R name Hok) as [(Hf & HA & _)|(a & ns & Hf & Ha & <- & HA)].
  { apply step_same with (NsEntries ANX_ENOENT [] (Some 0)); cbn [ns_do ns_allowed]; unfold anx_ns_list;
      [by rewrite Hm', Hf|rewrite HA; by case_decide]. }
  destruct (list_walk_spec n _ (ns_root ns) (ns_root_cap ns) (skip_slash path) ltac:(reflexivity) (ro_dirs _ _ Hok _ _ Ha)) as (w & Hw & Hs).
  fold (path_of path) in Hs. set (wr := match w with
    | inr (r, l) => (r, l, if r =? ANX_OK then Some (Z.of_nat (length l)) else None)
    | inl es => let l := list_entry <$> take (Z.to_nat max) es in (ANX_OK, l, Some (Z.of_nat (length l))) end).
  apply step_same with (NsEntries wr.1.1 wr.1.2 wr.2); cbn [ns_do ns_allowed].
  { unfold anx_ns_list. change (default [] (Some path)) with path. rewrite Hm'. cbn [negb orb]. rewrite Hf.
    cbn [mbind option_bind]. rewrite Ha, Hw.
    unfold wr. cbn [obind]. by destruct w as [|[]]. }
  split; [done|]. case_decide; [done|]. rewrite HA. unfold wr. destruct w as [es|[r l]]; unfold walk_spec in Hs; cbn [fst snd].
  - destruct Hs as (Hsh & Hd & (cap & Hes) & Hv). left. split; [done|]. split; [done|]. split; [done|]. left. split; [done|].
    exists (list_entry <$> es). destruct (list_children n es cap Hes) as [Hnd Hin]. split; [by rewrite fmap_take|]. split; [done|].
    intros s o d. rewrite Hin. by rewrite Hv.
  - destruct Hs as [(-> & Hsh & Hs)|[Hr ->]].
    + left. split; [done|]. split; [done|]. split; [done|]. by right.
    + right. split; [done|]. split; [done|]. by destruct Hr as [[-> _]|[-> _]].
Qed.

Lemma ns_do_ok c : call_ok R c → step_ok c.
Proof.
  destruct c; [apply create_allowed|intros; apply bind_allowed|intros; apply unbind_allowed|intros; apply resolve_allowed|intros; apply list_allowed].
Qed.
End steps.

(** Registries after [n] calls since boot. *)
Inductive ns_reach : Z → ns_registry → Prop :=
  | ReachBoot addrs mem : NoDup addrs → length addrs = 4%nat → ns_reach 0 (anx_ns_init addrs mem).1
  | ReachCall n R c ans R' : ns_reach n R → call_ok R c → ns_do c R = Ret (ans, R') → ns_reach (n + 1) R'.

Lemma reach_ok n R : ns_reach n R → n < 2 ^ 31 → reg_ok n R ∧ 0 ≤ n.
Proof.
  induction 1 as [addrs mem Hnd Hl|n R c ans R' _ IH Hc E]; intros Hlt.
  - split; [|lia]. by apply init_ok.
  - destruct IH as [Hok Hn]; [lia|]. destruct (ns_do_ok n R Hok ltac:(lia) c Hc) as (ans' & R1 & E' & Hok' & _).
    rewrite E in E'. simplify_eq. split; [exact Hok'|lia].
Qed.

(** C33: the registry of namespaces is a collection of maps from paths to OIDs.
    At boot the four system namespaces exist and are empty.  From then on, for
    fewer than 2^31 calls in any order (names of new namespaces shorter than 64
    bytes), every call returns, and what it answers and leaves is what the maps
    prescribe: a successful binding makes the path and the directories on its way
    and nothing else; a failed one (a segment of more than 255 bytes, no memory)
    loses no binding and changes no OID; removing a path removes exactly it and
    what is below it; a lookup returns the OID bound to the path; a listing
    returns the children of the directory, each once, up to the given number;
    other namespaces are not touched. *)
Theorem namespaces_refine_maps n R :
  ns_reach n R → n < 2 ^ 31 - 1 →
  (n = 0 → ∀ x v p, names R x = Some v → v p = None) ∧
  (∀ addrs, NoDup addrs → length addrs = 4%nat → ∀ x, is_Some (names (anx_ns_init addrs []).1 x) ↔ x ∈ system_ns) ∧
  ∀ c, call_ok R c → ∃ ans R', ns_do c R = Ret (ans, R') ∧ ns_allowed c (names R) ans (names R').
Proof.
  intros Hr Hn. destruct (reach_ok n R Hr ltac:(lia)) as [Hok Hn0]. split; [|split].
  - destruct Hr as [addrs mem Hnd Hl|m R c ans R' Hr' _ _]; [intros _; by apply init_ok|].
    intros H0. destruct (reach_ok m R Hr'); lia.
  - intros addrs Hnd Hl. by apply init_ok.
  - intros c Hc. destruct (ns_do_ok n R Hok ltac:(lia) c Hc) as (ans & R' & ? & _ & ?). eauto.
Qed.

Lemma namespaces_refine_maps_witness :
  ∃ R o, ns_do (BindNs [] (bytes_of "default"%string) (bytes_of "/a/b"%string) (Uuid 7 9)) (anx_ns_init [1; 2; 3; 4] []).1 = Ret (NsCode ANX_OK, R) ∧
    anx_ns_resolve R (bytes_of "default"%string) (bytes_of "a/b/"%string) = Ret (ANX_OK, Some (Uuid 7 9)) ∧
    ns_do (ListNs (bytes_of "default"%string) (bytes_of "/a"%string) 10) R = Ret (o, R) ∧
    ns_allowed (ListNs (bytes_of "default"%string) (bytes_of "/a"%string) 10) (names R) o (names R).
Proof.
  assert (NoDup [1; 2; 3; 4]) as Hnd by (apply (bool_decide_unpack _); vm_compute; exact I).
  pose proof (ReachBoot [1; 2; 3; 4] [] Hnd eq_refl) as H0.
  set (bind := BindNs [] (bytes_of "default"%string) (bytes_of "/a/b"%string) (Uuid 7 9)).
  destruct (ns_do bind (anx_ns_init [1; 2; 3; 4] []).1) as [[ans R]| |] eqn:E; [|vm_compute in E; discriminate E|vm_compute in E; discriminate E].
  pose proof (ReachCall 0 _ bind ans R H0 I E) as H1.
  destruct (namespaces_refine_maps 1 R H1 ltac:(lia)) as (_ & _ & Hall).
  destruct (Hall (ListNs (bytes_of "default"%string) (bytes_of "/a"%string) 10) I) as (o & R' & Ho & Hallow).
  assert (R' = R) as -> by (vm_compute in E; injection E as <- <-; vm_compute in Ho; injection Ho as <- <-; vm_compute; reflexivity).
  exists R, o. split; [vm_compute in E; injection E as <- <-; vm_compute; reflexivity|].
  split; [vm_compute in E; injection E as <- <-; vm_compute; reflexivity|]. split; [exact Ho|exact Hallow].
Defined.

(** Creating a namespace under a name of 64 bytes or more stores the name cut to
    63 bytes in the bucket of the whole name: it cannot be found under the name
    it was created with, can be created again, and, when the buckets agree, hides
    the namespace that has the cut name, whose bindings are then out of reach. *)
Theorem long_name_hides_namespace :
  let short_name := replicate 63 97 in
  let long_name := replicate 63 97 ++ [100] in
  let '(r1, R1) := anx_ns_create 5 [] (Some short_name) (anx_ns_init [1; 2; 3; 4] []).1 in
  match anx_ns_bind [] R1 short_name [120] (Uuid 7 9) with
  | Ret (r2, R2) =>
      let '(r3, R3) := anx_ns_create 6 [] (Some long_name) R2 in
      r1 = ANX_OK ∧ r2 = ANX_OK ∧ anx_ns_resolve R2 short_name [120] = Ret (ANX_OK, Some (Uuid 7 9)) ∧
      r3 = ANX_OK ∧ anx_ns_resolve R3 short_name [120] = Ret (ANX_ENOENT, None) ∧
      ns_find R3 long_name = None ∧ (anx_ns_create 7 [] (Some long_name) R3).1 = ANX_OK
  | _ => False
  end.
Proof. vm_compute. repeat (split; [reflexivity|]). reflexivity. Qed.
