(* ===== verification/Resolve.v ===== *)
(** * Naming an object: [kernel/core/state/resolve.c], [anx_uuid_to_string]

    A tool argument is a path in a given namespace ([ns:path]), a path in
    [default] or [posix], or the text of an OID, possibly abbreviated.  The
    object table is one list in the model of the store; the order in which
    [anx_objstore_iterate] visits it (bucket by bucket) is an argument and the
    theorems hold for every order. *)

From stdpp Require Import strings.
From S2P Require Import Prelude Uuid HashTable Cell CellStore Meta StateObject Namespace NamespaceProofs Namespaces.
#[local] Open Scope Z_scope.

(** ** Text of a UUID *)

Definition hex_digit (d : Z) : Z := if d <? 10 then 48 + d else 87 + d.

(** [put_hex]: the digits are stored from the last to the first. *)
Fixpoint put_hex (val : Z) (nibbles : nat) : list Z :=
  match nibbles with
  | O => []
  | S n => put_hex (Z.shiftr val 4) n ++ [hex_digit (Z.land val 15)]
  end.

Definition DASH : Z := 45.

Definition anx_uuid_to_string (u : anx_uuid) : list Z :=
  put_hex (Z.shiftr (hi u) 32) 8 ++ [DASH] ++ put_hex (Z.shiftr (hi u) 16) 4 ++ [DASH] ++ put_hex (hi u) 4 ++ [DASH]
  ++ put_hex (Z.shiftr (lo u) 48) 4 ++ [DASH] ++ put_hex (lo u) 12.

(** ** The resolver *)

Fixpoint anx_strncmp (a b : list Z) (n : nat) {struct n} : Z :=
  match n with
  | O => 0
  | S n =>
      match a, b with
      | [], [] => 0
      | [], y :: _ => - y
      | x :: _, [] => x
      | x :: a, y :: b => if x =? y then anx_strncmp a b n else x - y
      end
  end.

(** The callback returns non-zero to stop. *)
Fixpoint anx_objstore_iterate {A : Type} (W : objstore) (order : list Z) (cb : anx_state_object → A → Z * A) (arg : A) : Z * A :=
  match order with
  | [] => (ANX_OK, arg)
  | a :: order =>
      match so_heap W !! a with
      | None => anx_objstore_iterate W order cb arg
      | Some obj =>
          let '(r, arg) := cb obj arg in
          when negb (r =? 0) ret (r, arg) ;;
          anx_objstore_iterate W order cb arg
      end
  end.

Record prefix_match := PrefixMatch { pm_prefix : list Z; pm_hits : Z; pm_oid : anx_uuid }.

Definition match_prefix (obj : anx_state_object) (m : prefix_match) : Z * prefix_match :=
  if anx_strncmp (anx_uuid_to_string (so_oid obj)) (pm_prefix m) (length (pm_prefix m)) =? 0 then
    let hits := if (pm_hits m =? 0) || negb (anx_uuid_compare (pm_oid m) (so_oid obj) =? 0) then u32 (pm_hits m + 1) else pm_hits m in
    (0, PrefixMatch (pm_prefix m) hits (so_oid obj))
  else (0, m).

Definition oid_char (c : Z) : bool :=
  (48 <=? c) && (c <=? 57) || (97 <=? c) && (c <=? 102) || (65 <=? c) && (c <=? 70) || (c =? DASH).

Definition is_oid_prefix (s : list Z) : bool :=
  forallb oid_char s && (4 <=? Z.of_nat (length s)) && (Z.of_nat (length s) <=? 36).

Definition to_lower (c : Z) : Z := if (65 <=? c) && (c <=? 70) then c - 65 + 97 else c.

Definition COLON : Z := 58.

(** The argument up to a colon, and what follows the colon if there is one. *)
Fixpoint split_colon (arg : list Z) : list Z * option (list Z) :=
  match arg with
  | [] => ([], None)
  | c :: rest => if c =? COLON then ([], Some rest) else let '(a, b) := split_colon rest in (c :: a, b)
  end.

Definition anx_so_resolve (R : ns_registry) (W : objstore) (order : list Z) (arg : list Z) : outcome (Z * option anx_uuid) :=
  match split_colon arg with
  | (ns, Some path) =>
      when (64 <=? length ns)%nat ret Ret (ANX_EINVAL, None) ;;
      anx_ns_resolve R ns path
  | (_, None) =>
      let! (r, oid) := anx_ns_resolve R (bytes_of "default"%string) arg in
      when r =? ANX_OK ret Ret (ANX_OK, oid) ;;
      let! (r, oid) := anx_ns_resolve R (bytes_of "posix"%string) arg in
      when r =? ANX_OK ret Ret (ANX_OK, oid) ;;
      when negb (is_oid_prefix arg) ret Ret (ANX_ENOENT, None) ;;
      let '(_, m) := anx_objstore_iterate W order match_prefix (PrefixMatch (map to_lower arg) 0 ANX_UUID_NIL) in
      when pm_hits m =? 0 ret Ret (ANX_ENOENT, None) ;;
      when pm_hits m >? 1 ret Ret (ANX_EEXIST, None) ;;
      Ret (ANX_OK, Some (pm_oid m))
  end.

(** ** Lemmas *)

Lemma strncmp_prefix a b : anx_strncmp a b (length b) = 0 → Forall (λ c, 0 < c) a → b `prefix_of` a ∨ ∃ x, x ∈ b ∧ x ≤ 0.
Proof.
  revert a. induction b as [|y b IH]; [intros; left; apply prefix_nil|]. intros [|x a]; cbn.
  - intros Hy _. right. exists y. split; [apply elem_of_cons; by left|lia].
  - destruct (Z.eqb_spec x y) as [->|Hne]; [|lia]. intros H [_ Ha]%Forall_cons.
    destruct (IH a H Ha) as [Hp|(z & Hz & ?)]; [left; by apply prefix_cons|right; exists z; split; [apply elem_of_cons; by right|done]].
Qed.

Lemma strncmp_of_prefix a b : b `prefix_of` a → anx_strncmp a b (length b) = 0.
Proof.
  revert a. induction b as [|y b IH]; [done|]. intros [|x a] Hp; [by apply prefix_nil_not in Hp|].
  pose proof (prefix_cons_inv_1 _ _ _ _ Hp) as ->. apply prefix_cons_inv_2 in Hp. cbn. rewrite Z.eqb_refl. by apply IH.
Qed.

Lemma hex_digit_range d : 0 ≤ d < 16 → 48 ≤ hex_digit d ≤ 102.
Proof. intros. unfold hex_digit. destruct (Z.ltb_spec d 10); lia. Qed.

Lemma hex_digit_inj d e : 0 ≤ d < 16 → 0 ≤ e < 16 → hex_digit d = hex_digit e → d = e.
Proof. intros ??. unfold hex_digit. destruct (Z.ltb_spec d 10), (Z.ltb_spec e 10); lia. Qed.

Lemma low_nibble v : 0 ≤ Z.land v 15 < 16.
Proof. change 15 with (Z.ones 4). rewrite Z.land_ones by lia. apply Z.mod_pos_bound. lia. Qed.

Lemma length_put_hex v n : length (put_hex v n) = n.
Proof. revert v. induction n as [|n IH]; intros v; cbn; [done|]. rewrite length_app, IH. cbn. lia. Qed.

(** The text determines the low [4 n] bits. *)
Lemma put_hex_inj n : ∀ v w, put_hex v n = put_hex w n → v mod 16 ^ Z.of_nat n = w mod 16 ^ Z.of_nat n.
Proof.
  induction n as [|n IH]; intros v w; [by rewrite !Z.mod_1_r|]. cbn [put_hex]. intros [H1 [= H2]]%app_inj_2; [|done].
  apply IH in H1. apply hex_digit_inj in H2; [|apply low_nibble|apply low_nibble].
  change 15 with (Z.ones 4) in H2. rewrite !Z.land_ones in H2 by lia. rewrite !Z.shiftr_div_pow2 in H1 by lia.
  change (2 ^ 4) with 16 in *. rewrite Nat2Z.inj_succ, Z.pow_succ_r by lia.
  rewrite !(Z.rem_mul_r _ 16 (16 ^ Z.of_nat n)) by (try apply Z.pow_pos_nonneg; lia). lia.
Qed.

Definition uuid_ok (u : anx_uuid) : Prop := is_u64 (hi u) ∧ is_u64 (lo u).

Lemma text_length u : length (anx_uuid_to_string u) = 36%nat.
Proof. unfold anx_uuid_to_string. repeat (rewrite !length_app || rewrite !length_put_hex). done. Qed.

Lemma mod_split a b k : 0 ≤ k → a mod 2 ^ k = b mod 2 ^ k → Z.shiftr a k = Z.shiftr b k → a = b.
Proof.
  intros Hk Hm Hd. rewrite !Z.shiftr_div_pow2 in Hd by lia. assert (0 < 2 ^ k) by (apply Z.pow_pos_nonneg; lia).
  rewrite (Z.div_mod a (2 ^ k)), (Z.div_mod b (2 ^ k)) by lia. congruence.
Qed.

Lemma shiftr_small a k m : is_u64 a → 0 ≤ k → k + m = 64 → 0 ≤ m → Z.shiftr a k mod 2 ^ m = Z.shiftr a k.
Proof.
  intros [? Ha] Hk Hm Hm0. apply Z.mod_small. rewrite Z.shiftr_div_pow2 by lia. split; [apply Z.div_pos; [lia|apply Z.pow_pos_nonneg; lia]|].
  apply Z.div_lt_upper_bound; [apply Z.pow_pos_nonneg; lia|]. rewrite <- Z.pow_add_r by lia. by rewrite Hm.
Qed.

(** Different 128-bit identifiers have different texts. *)
Lemma text_inj u w : uuid_ok u → uuid_ok w → anx_uuid_to_string u = anx_uuid_to_string w → u = w.
Proof.
  intros [Hu1 Hu2] [Hw1 Hw2]. unfold anx_uuid_to_string.
  intros [E1 E]%app_inj_1; [|by rewrite !length_put_hex]. apply app_inj_1 in E as [_ E]; [|done].
  apply app_inj_1 in E as [E2 E]; [|by rewrite !length_put_hex]. apply app_inj_1 in E as [_ E]; [|done].
  apply app_inj_1 in E as [E3 E]; [|by rewrite !length_put_hex]. apply app_inj_1 in E as [_ E]; [|done].
  apply app_inj_1 in E as [E4 E]; [|by rewrite !length_put_hex]. apply app_inj_1 in E as [_ E5]; [|done].
  apply put_hex_inj in E1, E2, E3, E4, E5. change (16 ^ Z.of_nat 8) with (2 ^ 32) in *. change (16 ^ Z.of_nat 4) with (2 ^ 16) in *.
  change (16 ^ Z.of_nat 12) with (2 ^ 48) in *. rewrite !shiftr_small in E1, E4 by (done || lia).
  assert (∀ a, Z.shiftr a 32 = Z.shiftr (Z.shiftr a 16) 16) as Hs by (intros a; rewrite Z.shiftr_shiftr by lia; done). rewrite !Hs in E1.
  destruct u as [uh ul], w as [wh wl]; cbn in *. f_equal.
  - apply (mod_split _ _ 16); [lia|done|]. by apply (mod_split _ _ 16).
  - by apply (mod_split _ _ 48).
Qed.

Definition text_char (c : Z) : Prop := 48 ≤ c ≤ 57 ∨ 97 ≤ c ≤ 102 ∨ c = DASH.

Lemma text_chars u : Forall text_char (anx_uuid_to_string u).
Proof.
  assert (∀ v n, Forall text_char (put_hex v n)) as H.
  { intros v n. revert v. induction n as [|n IH]; intros v; cbn; [constructor|]. apply Forall_app. split; [apply IH|].
    constructor; [|constructor]. pose proof (low_nibble v). unfold text_char, hex_digit. destruct (Z.ltb_spec (Z.land v 15) 10); lia. }
  assert (Forall text_char [DASH]) as Hd by (constructor; [by right; right|constructor]).
  unfold anx_uuid_to_string. rewrite !Forall_app. auto 20.
Qed.

(** ** What the object search finds *)

Lemma last_step {A} (l : list A) : ∀ x d, List.last (x :: l) d = List.last l x.
Proof. induction l as [|y l IH]; intros x d; [done|]. by rewrite (IH y x), <- (IH y d). Qed.

Section search.
Context (W : objstore) (prefix : list Z).

Definition starts (o : anx_uuid) : bool := anx_strncmp (anx_uuid_to_string o) prefix (length prefix) =? 0.

(** The OIDs visited that have the prefix. *)
Definition hits_in (order : list Z) : list anx_uuid :=
  List.filter starts (omap (λ a, so_oid <$> so_heap W !! a) order).

Lemma hits_cons a order :
  hits_in (a :: order) =
  match so_heap W !! a with
  | None => hits_in order
  | Some obj => if starts (so_oid obj) then so_oid obj :: hits_in order else hits_in order
  end.
Proof. unfold hits_in. change (omap ?f (a :: order)) with (match so_oid <$> so_heap W !! a with Some o => o :: omap f order | None => omap f order end). by destruct (so_heap W !! a). Qed.

Lemma iterate_hits order : ∀ k last,
  is_u32 (k + Z.of_nat (length (hits_in order))) → 0 ≤ k → NoDup (hits_in order) → (0 < k → last ∉ hits_in order) →
  anx_objstore_iterate W order match_prefix (PrefixMatch prefix k last) =
  (ANX_OK, PrefixMatch prefix (k + Z.of_nat (length (hits_in order))) (List.last (hits_in order) last)).
Proof.
  induction order as [|a order IH]; intros k last Hk Hk0 Hnd Hlast; cbn [anx_objstore_iterate].
  { unfold hits_in. cbn. by rewrite Z.add_0_r. }
  rewrite hits_cons in *. destruct (so_heap W !! a) as [obj|]; [|by apply IH].
  unfold match_prefix at 1. cbn [pm_prefix pm_hits pm_oid]. fold (starts (so_oid obj)).
  destruct (starts (so_oid obj)); [|by apply IH]. apply NoDup_cons in Hnd as [Hin Hnd].
  assert ((k =? 0) || negb (anx_uuid_compare last (so_oid obj) =? 0) = true) as ->.
  { destruct (Z.eqb_spec k 0); [done|]. cbn. apply negb_true_iff, Z.eqb_neq. rewrite anx_uuid_compare_eq. intros ->. apply Hlast; [lia|set_solver]. }
  cbn [negb Z.eqb]. cbn [length] in Hk |- *. rewrite Nat2Z.inj_succ in Hk |- *. unfold is_u32 in Hk.
  rewrite u32_small by (unfold is_u32; lia).
  rewrite IH; [|unfold is_u32; lia|lia|done|done]. f_equal. f_equal; [lia|]. symmetry. apply last_step.
Qed.
End search.

(** ** Theorems *)

Definition oids (W : objstore) (order : list Z) : list anx_uuid := omap (λ a, so_oid <$> so_heap W !! a) order.

Lemma length_oids W order : (length (oids W order) ≤ length order)%nat.
Proof.
  unfold oids. induction order as [|a order IH]; [done|]. cbn [length].
  change (omap ?f (a :: order)) with (match so_oid <$> so_heap W !! a with Some o => o :: omap f order | None => omap f order end).
  destruct (so_oid <$> so_heap W !! a); cbn [length]; lia.
Qed.

(** [arg], in either case, is the beginning of the text of [o]. *)
Definition abbreviates (arg : list Z) (o : anx_uuid) : Prop := map to_lower arg `prefix_of` anx_uuid_to_string o.

#[export] Instance abbreviates_dec arg o : Decision (abbreviates arg o).
Proof. unfold abbreviates. apply _. Defined.

(** No path [arg] in the namespace [name]. *)
Definition no_path (R : ns_registry) (name arg : list Z) : Prop := ∀ v, names R name = Some v → v (path_of arg) = None.

Lemma no_path_resolve n R name arg :
  reg_ok n R → no_path R name arg → ∃ r o, anx_ns_resolve R name arg = Ret (r, o) ∧ (r =? ANX_OK) = false.
Proof.
  intros Hok Hno. destruct (resolve_allowed n R Hok name arg) as (ans & R' & E & _ & Hal). cbn [ns_do] in E.
  destruct (anx_ns_resolve R name arg) as [[r o]| |]; [|done|done]. cbn in E. injection E as <- <-. exists r, o. split; [done|].
  destruct Hal as [_ Hal]. destruct (names R name) as [v|] eqn:Ev; [|by destruct Hal as [-> _]].
  specialize (Hno v Ev). case_decide; [by destruct Hal as [-> _]|]. unfold resolve_spec in Hal. rewrite Hno in Hal.
  by destruct Hal as [[[_ ->]|[_ [->| ->]]] _].
Qed.

Lemma split_no_colon arg : COLON ∉ arg → split_colon arg = (arg, None).
Proof.
  induction arg as [|c arg IH]; [done|]. intros [Hc Ha]%not_elem_of_cons. cbn. destruct (Z.eqb_spec c COLON); [congruence|].
  by rewrite IH.
Qed.

Lemma oid_chars_lower arg : forallb oid_char arg = true → Forall text_char (map to_lower arg) ∧ COLON ∉ arg.
Proof.
  induction arg as [|c arg IH]; [intros _; split; [constructor|apply not_elem_of_nil]|]. cbn. intros [Hc Ha]%andb_true_iff.
  destruct (IH Ha) as [H1 H2]. unfold oid_char in Hc. split.
  - constructor; [|done]. unfold text_char, to_lower. to_prop. destruct (Z.leb_spec 65 c), (Z.leb_spec c 70); cbn;
      repeat match goal with H : (_ || _)%bool = true |- _ => apply orb_true_iff in H as [H|H] end; to_prop; unfold DASH in *; lia.
  - apply not_elem_of_cons. split; [|done]. intros <-. done.
Qed.

Lemma starts_abbreviates arg o : forallb oid_char arg = true → starts (map to_lower arg) o = bool_decide (abbreviates arg o).
Proof.
  intros [Hch _]%oid_chars_lower. unfold starts. case_bool_decide as Ha.
  - apply Z.eqb_eq. by apply strncmp_of_prefix.
  - apply Z.eqb_neq. intros H. apply strncmp_prefix in H as [H|(x & Hx & Hle)]; [done| |].
    + rewrite Forall_forall in Hch. specialize (Hch x Hx). unfold text_char, DASH in Hch. lia.
    + eapply Forall_impl; [apply text_chars|]. unfold text_char, DASH. lia.
Qed.

(** The answer for an argument that is no path: determined by the OIDs of the
    stored objects it abbreviates. *)
Theorem so_resolve_exact n R W order arg :
  reg_ok n R → NoDup (oids W order) → Z.of_nat (length order) < 2 ^ 32 →
  COLON ∉ arg → no_path R (bytes_of "default"%string) arg → no_path R (bytes_of "posix"%string) arg →
  anx_so_resolve R W order arg =
  Ret (if is_oid_prefix arg
       then match filter (abbreviates arg) (oids W order) with
            | [] => (ANX_ENOENT, None)
            | [o] => (ANX_OK, Some o)
            | _ => (ANX_EEXIST, None)
            end
       else (ANX_ENOENT, None)).
Proof.
  intros Hok Hnd Hlen Hc Hd Hp. unfold anx_so_resolve. rewrite split_no_colon by done.
  destruct (no_path_resolve n R _ arg Hok Hd) as (r1 & o1 & -> & E1). cbn [obind]. rewrite E1.
  destruct (no_path_resolve n R _ arg Hok Hp) as (r2 & o2 & -> & E2). cbn [obind]. rewrite E2.
  destruct (is_oid_prefix arg) eqn:Hpre; cbn [negb]; [|done].
  assert (forallb oid_char arg = true) as Hch by (unfold is_oid_prefix in Hpre; by to_prop).
  assert (hits_in W (map to_lower arg) order = filter (abbreviates arg) (oids W order)) as Hhits.
  { unfold hits_in, oids. generalize (omap (λ a, so_oid <$> so_heap W !! a) order) as l. induction l as [|o l IH]; [done|].
    cbn [List.filter]. rewrite starts_abbreviates, IH by done. rewrite filter_cons. case_bool_decide; case_decide; done. }
  assert (length (hits_in W (map to_lower arg) order) ≤ length order)%nat as Hlh.
  { rewrite Hhits. etransitivity; [apply length_filter|]. apply length_oids. }
  rewrite iterate_hits; rewrite ?Hhits in *; [|unfold is_u32; lia|lia|by apply NoDup_filter|intros; lia].
  cbn [pm_hits pm_oid]. destruct (filter (abbreviates arg) (oids W order)) as [|o [|o' l]]; [done|done|].
  cbn [length]. rewrite !Nat2Z.inj_succ. destruct (Z.eqb_spec (0 + Z.succ (Z.succ (Z.of_nat (length l)))) 0); [lia|].
  destruct (0 + Z.succ (Z.succ (Z.of_nat (length l))) >? 1) eqn:Egt; [done|].
  rewrite Z.gtb_ltb in Egt. apply Z.ltb_ge in Egt. lia.
Qed.

Lemma text_is_prefix u : is_oid_prefix (anx_uuid_to_string u) = true ∧ map to_lower (anx_uuid_to_string u) = anx_uuid_to_string u.
Proof.
  unfold is_oid_prefix. rewrite text_length. pose proof (text_chars u) as H. split.
  - rewrite !andb_true_iff. split; [split; [|done]|done]. apply forallb_forall. intros c Hc. apply list_elem_of_In in Hc.
    rewrite Forall_forall in H. specialize (H c Hc). unfold oid_char, text_char in *. rewrite !orb_true_iff, !andb_true_iff, !Z.leb_le, Z.eqb_eq. lia.
  - induction H as [|c l Hc Hl IH]; [done|]. cbn. rewrite IH. f_equal. unfold to_lower, text_char, DASH in *.
    destruct (Z.leb_spec 65 c), (Z.leb_spec c 70); cbn; lia.
Qed.

Lemma unique_hit (P : anx_uuid → Prop) `{!∀ x, Decision (P x)} l o :
  NoDup l → o ∈ l → P o →
  Ret (match filter P l with [] => (ANX_ENOENT, None) | [x] => (ANX_OK, Some x) | _ => (ANX_EEXIST, None) end)
  = if decide (Exists (λ x, x ≠ o ∧ P x) l) then Ret (ANX_EEXIST, None) else Ret (ANX_OK, Some o).
Proof.
  intros Hnd Ho HP. assert (o ∈ filter P l) as Hin by (by apply list_elem_of_filter).
  assert (NoDup (filter P l)) as Hndf by (by apply NoDup_filter).
  destruct (decide _) as [(x & Hx & Hne & HPx)%Exists_exists|Hno].
  - assert (x ∈ filter P l) as Hxin by (by apply list_elem_of_filter). destruct (filter P l) as [|y [|z m]]; set_solver.
  - assert (∀ x, x ∈ filter P l → x = o) as Hall.
    { intros x [HPx Hx]%list_elem_of_filter. destruct (decide (x = o)); [done|]. destruct Hno. apply Exists_exists. eauto. }
    destruct (filter P l) as [|y [|z m]]; [set_solver|by rewrite (Hall y) by set_solver|]. exfalso.
    apply NoDup_cons in Hndf as [Hy _]. apply Hy. rewrite (Hall y), (Hall z) by set_solver. set_solver.
Qed.

(** the text of an OID names its object.  Whatever has been bound and removed
    in the namespaces, and in whatever order the objects are visited, the text
    that [anx_uuid_to_string] prints for the OID of a stored object is resolved by
    [anx_so_resolve] to that OID and to no other, as long as no path in [default]
    or [posix] is called like it; so is every abbreviation of at least four
    characters that fits no other stored object; an abbreviation of several
    objects is refused as ambiguous. *)
Theorem oid_text_resolves n R W order o :
  ns_reach n R → n < 2 ^ 31 → order ≡ₚ oid_table W → NoDup (oids W order) → Z.of_nat (length order) < 2 ^ 32 →
  o ∈ oids W order → Forall uuid_ok (oids W order) →
  (no_path R (bytes_of "default"%string) (anx_uuid_to_string o) → no_path R (bytes_of "posix"%string) (anx_uuid_to_string o) →
   anx_so_resolve R W order (anx_uuid_to_string o) = Ret (ANX_OK, Some o)) ∧
  ∀ arg, is_oid_prefix arg = true → abbreviates arg o →
    no_path R (bytes_of "default"%string) arg → no_path R (bytes_of "posix"%string) arg →
    anx_so_resolve R W order arg =
      if decide (Exists (λ o', o' ≠ o ∧ abbreviates arg o') (oids W order)) then Ret (ANX_EEXIST, None) else Ret (ANX_OK, Some o).
Proof.
  intros Hr Hn Hperm Hnd Hlen Ho Hok. destruct (reach_ok n R Hr Hn) as [HR _].
  assert (∀ arg, is_oid_prefix arg = true → abbreviates arg o →
    no_path R (bytes_of "default"%string) arg → no_path R (bytes_of "posix"%string) arg →
    anx_so_resolve R W order arg =
      if decide (Exists (λ o', o' ≠ o ∧ abbreviates arg o') (oids W order)) then Ret (ANX_EEXIST, None) else Ret (ANX_OK, Some o)) as Habb.
  { intros arg Hpre Ha Hd Hp. assert (COLON ∉ arg) as Hc.
    { apply oid_chars_lower. unfold is_oid_prefix in Hpre. by to_prop. }
    rewrite (so_resolve_exact n R W order arg HR Hnd Hlen Hc Hd Hp), Hpre. apply unique_hit; [done|done|done]. }
  split; [|exact Habb]. intros Hd Hp. destruct (text_is_prefix o) as [Hpre Hlow].
  rewrite Habb; [|done|unfold abbreviates; by rewrite Hlow|done|done]. rewrite decide_False; [done|]. rewrite Exists_exists.
  intros (o' & Hin & Hne & Ha). apply Hne. unfold abbreviates in Ha. rewrite Hlow in Ha. rewrite Forall_forall in Hok.
  apply text_inj; [by apply Hok|by apply Hok|]. symmetry. apply prefix_length_eq; [done|]. by rewrite !text_length.
Qed.

Lemma oid_text_resolves_witness :
  let o := Uuid 81985529216486895 11400714819323198485 in
  let params := CreateParams 0 None None None 0 None 0 ANX_UUID_NIL 0 in
  let W := (anx_so_create (λ _, replicate 32 0) (λ x mem, (so_system_meta x, mem)) 1 2 o 5 (Some params) true anx_objstore_init).2 in
  let R := (anx_ns_init [1; 2; 3; 4] []).1 in
  anx_uuid_to_string o = bytes_of "01234567-89ab-cdef-9e37-79b97f4a7c15"%string ∧
  anx_so_resolve R W [5] (anx_uuid_to_string o) = Ret (ANX_OK, Some o).
Proof.
  intros o params W R. split; [vm_compute; reflexivity|].
  assert (NoDup [1; 2; 3; 4]) as Hnd by (apply (bool_decide_unpack _); vm_compute; exact I).
  assert (ns_reach 0 R) as Hr by exact (ReachBoot [1; 2; 3; 4] [] Hnd eq_refl).
  assert (∀ name, no_path R name (anx_uuid_to_string o)) as Hno.
  { intros name v Hv. exact (proj1 (proj2 (init_ok [1; 2; 3; 4] [] Hnd eq_refl)) name v _ Hv). }
  assert (oids W [5] = [o]) as Hoids by (vm_compute; reflexivity).
  refine (proj1 (oid_text_resolves 0 R W [5] o Hr _ _ _ _ _ _) (Hno _) (Hno _)).
  - lia.
  - reflexivity.
  - rewrite Hoids. apply NoDup_singleton.
  - cbn. lia.
  - rewrite Hoids. apply elem_of_cons. by left.
  - rewrite Hoids. constructor; [|constructor]. unfold uuid_ok, is_u64. cbn. lia.
Defined.
