(* ===== verification/Blk.v ===== *)
(** * Block device registry: [kernel/drivers/storage/blk.c], [blk.h]

    A table of 32 slots naming the devices of the machine, and the interface
    the storage drivers offer it.  A driver is anything with a read, a write
    and a capacity ([BlkDriver], the [struct anx_blk_ops]); what the callers
    rely on is [BlkDriverLaws].  A [struct anx_blk_dev *] is the index of its
    slot.  [anx_blk_dev_unregister] is given the slots of the device's
    partitions, which [anx_part_forget_children] drops first; [Part.v] models
    the partition layer and computes them. *)

From S2P Require Import Prelude.

Definition sector := list Z.  (* 512 bytes *)

(** ** The driver interface *)

Class BlkDriver (D : Type) := {
  drv_read : D → Z → Z → Z * list sector;
  drv_write : D → Z → list sector → Z * D;
  drv_capacity : D → Z;
}.

(** [contents d i] is sector [i] of device [d].  A successful read returns the
    contents, a successful write replaces exactly the sectors written; after a
    failed write the sectors written to are unspecified. *)
Class BlkDriverLaws (D : Type) `{BlkDriver D} := {
  contents : D → Z → sector;
  law_read : ∀ d lba n buf, 0 ≤ lba → 0 ≤ n → lba + n ≤ drv_capacity d →
    drv_read d lba n = (ANX_OK, buf) → buf = contents d <$> seqZ lba n;
  law_write : ∀ d lba buf r d', 0 ≤ lba → lba + Z.of_nat (length buf) ≤ drv_capacity d →
    drv_write d lba buf = (r, d') →
    (∀ i, ¬ (lba ≤ i < lba + Z.of_nat (length buf)) → contents d' i = contents d i) ∧
    (r = ANX_OK → ∀ i, lba ≤ i < lba + Z.of_nat (length buf) → buf !! Z.to_nat (i - lba) = Some (contents d' i));
  law_capacity : ∀ d lba buf r d', drv_write d lba buf = (r, d') → drv_capacity d' = drv_capacity d;
}.

Definition ANX_BLK_MAX_DEVS : Z := 32.
Definition ANX_BLK_NAME_MAX : nat := 16.
Definition ANX_BLK_F_ARRAY : Z := 1.
Definition ANX_BLK_F_MEMBER : Z := 2.

Section blk.
Context {D : Type} `{!BlkDriver D}.

(** What [ops] and [priv] refer to: a drive of a storage driver, or the array
    in the given slot of the array table. *)
Inductive blk_priv := PrivDrv (d : D) | PrivArray (i : Z).

Record anx_blk_dev := BlkDev {
  dev_priv : blk_priv;
  dev_name : list Z;  (* char[16], without its terminator *)
  dev_flags : Z;
}.

(** [None] is a slot with [used == false]. *)
Record registry := Registry {
  blk_devs : list (option anx_blk_dev);
  active_dev : option Z;
}.

Definition registry_init : registry :=
  Registry (replicate (Z.to_nat ANX_BLK_MAX_DEVS) None) None.

Definition dev_slot (r : registry) (i : Z) : option anx_blk_dev := rd None (blk_devs r) i.

Definition set_slot (r : registry) (i : Z) (x : option anx_blk_dev) : registry :=
  Registry (wr (blk_devs r) i x) (active_dev r).

Definition name_taken (r : registry) (cand : list Z) : bool :=
  existsb (λ o, match o with Some d => bool_decide (dev_name d = cand) | None => false end)
    (blk_devs r).

(** The candidate name for index [n]. *)
Definition blk_cand (base : list Z) (n : Z) : list Z :=
  let cand := firstn (ANX_BLK_NAME_MAX - 1) base in
  let len := if (length cand + 4 <? ANX_BLK_NAME_MAX)%nat then length cand
             else (ANX_BLK_NAME_MAX - 5)%nat in
  firstn len cand
    ++ (if 100 <=? n then [48 + (n / 100) mod 10] else [])
    ++ (if 10 <=? n then [48 + (n / 10) mod 10] else [])
    ++ [48 + n mod 10].

(** [k] iterations of the loop starting at [n]. *)
Fixpoint pick_loop (k : nat) (r : registry) (base : list Z) (n : Z) : list Z :=
  match k with
  | O => firstn (ANX_BLK_NAME_MAX - 1) base
  | S k => if name_taken r (blk_cand base n) then pick_loop k r base (n + 1)
           else blk_cand base n
  end.

Definition blk_pick_name (r : registry) (base : list Z) : list Z := pick_loop 1000 r base 0.

Fixpoint first_free (l : list (option anx_blk_dev)) : option nat :=
  match l with
  | [] => None
  | None :: _ => Some 0%nat
  | Some _ :: l => S <$> first_free l
  end.

(** [base] is the class name the caller passes, or the driver's own. *)
Definition anx_blk_dev_register (r : registry) (priv : blk_priv) (base : list Z)
    : option Z * registry :=
  match first_free (blk_devs r) with
  | None => (None, r)
  | Some i =>
      let i := Z.of_nat i in
      let r1 := set_slot r i (Some (BlkDev priv (blk_pick_name r base) 0)) in
      (Some i, match active_dev r with
               | None => Registry (blk_devs r1) (Some i)
               | Some _ => r1
               end)
  end.

Fixpoint find_name (l : list (option anx_blk_dev)) (name : list Z) : option nat :=
  match l with
  | [] => None
  | Some d :: l => if bool_decide (dev_name d = name) then Some 0%nat else S <$> find_name l name
  | None :: l => S <$> find_name l name
  end.

Definition anx_blk_dev_find (r : registry) (name : list Z) : option Z :=
  Z.of_nat <$> find_name (blk_devs r) name.

Definition anx_blk_dev_register_named (r : registry) (priv : blk_priv) (name : list Z)
    : option Z * registry :=
  when bool_decide (is_Some (anx_blk_dev_find r name)) ret (None, r) ;;
  match first_free (blk_devs r) with
  | None => (None, r)
  | Some i =>
      (Some (Z.of_nat i),
       set_slot r (Z.of_nat i) (Some (BlkDev priv (firstn (ANX_BLK_NAME_MAX - 1) name) 0)))
  end.

(** Clearing one slot. *)
Definition drop_slot (r : registry) (i : Z) : registry :=
  match dev_slot r i with
  | None => r
  | Some _ =>
      Registry (wr (blk_devs r) i None)
        (if bool_decide (active_dev r = Some i) then None else active_dev r)
  end.

Definition anx_blk_dev_unregister (parts : list Z) (r : registry) (dev : option Z) : registry :=
  match dev with
  | None => r
  | Some i =>
      match dev_slot r i with
      | None => r
      | Some _ => drop_slot (foldl drop_slot r parts) i
      end
  end.

Definition used_slots (r : registry) : list Z :=
  filter (λ i, is_Some (dev_slot r i)) (seqZ 0 ANX_BLK_MAX_DEVS).

Definition anx_blk_dev_count (r : registry) : Z := Z.of_nat (length (used_slots r)).

Definition anx_blk_dev_at (r : registry) (index : Z) : option Z :=
  if index <? 0 then None else used_slots r !! Z.to_nat index.

(** I/O on a drive; array devices are dispatched by the RAID layer. *)
Definition blk_drv_read (r : registry) (dev : option Z) (lba count : Z) : Z * list sector :=
  match dev ≫= dev_slot r with
  | None => (ANX_ENODEV, [])
  | Some d =>
      when count =? 0 ret (ANX_OK, []) ;;
      match dev_priv d with
      | PrivDrv x => drv_read x lba count
      | PrivArray _ => (ANX_ENODEV, [])
      end
  end.

Definition blk_drv_write (r : registry) (dev : option Z) (lba : Z) (buf : list sector)
    : Z * registry :=
  match dev, dev ≫= dev_slot r with
  | Some i, Some d =>
      when bool_decide (buf = []) ret (ANX_OK, r) ;;
      match dev_priv d with
      | PrivDrv x =>
          let '(ret', x) := drv_write x lba buf in
          (ret', set_slot r i (Some (BlkDev (PrivDrv x) (dev_name d) (dev_flags d))))
      | PrivArray _ => (ANX_ENODEV, r)
      end
  | _, _ => (ANX_ENODEV, r)
  end.

Definition blk_drv_capacity (r : registry) (dev : option Z) : Z :=
  match dev ≫= dev_slot r with
  | None => 0
  | Some d => match dev_priv d with PrivDrv x => drv_capacity x | PrivArray _ => 0 end
  end.

Definition update_flags (r : registry) (dev : option Z) (f : Z → Z) : registry :=
  match dev with
  | None => r
  | Some i => match dev_slot r i with
              | None => r
              | Some d => set_slot r i (Some (BlkDev (dev_priv d) (dev_name d) (f (dev_flags d))))
              end
  end.

Definition anx_blk_dev_claim (r : registry) (dev : option Z) : registry :=
  update_flags r dev (λ fl, Z.lor fl ANX_BLK_F_MEMBER).

Definition anx_blk_dev_release (r : registry) (dev : option Z) : registry :=
  update_flags r dev (λ fl, Z.land fl (Z.lxor MAX32 ANX_BLK_F_MEMBER)).

Definition dev_has_flag (r : registry) (dev : option Z) (flag : Z) : bool :=
  match dev ≫= dev_slot r with
  | None => false
  | Some d => negb (Z.land (dev_flags d) flag =? 0)
  end.

Definition anx_blk_dev_is_member (r : registry) (dev : option Z) : bool :=
  dev_has_flag r dev ANX_BLK_F_MEMBER.

Definition anx_blk_set_active (r : registry) (dev : option Z) : registry :=
  when bool_decide (is_Some dev) && bool_decide (dev ≫= dev_slot r = None) ret r ;;
  Registry (blk_devs r) dev.
End blk.

Arguments blk_priv D : clear implicits.
Arguments anx_blk_dev D : clear implicits.
Arguments registry D : clear implicits.

(** ** Names are unique *)

Section names.
Context {D : Type} `{!BlkDriver D}.
Implicit Types (r : registry D).

Definition names (r : registry D) : list (list Z) :=
  omap (fmap dev_name) (blk_devs r).

Record registry_ok (r : registry D) : Prop := {
  ro_length : length (blk_devs r) = Z.to_nat ANX_BLK_MAX_DEVS;
  ro_names : NoDup (names r);
}.

Lemma name_taken_spec r cand : name_taken r cand = true ↔ cand ∈ names r.
Proof.
  unfold name_taken, names. rewrite existsb_exists, list_elem_of_omap. split.
  - intros ([d|] & Hd & H); [|done]. apply bool_decide_eq_true in H as <-.
    exists (Some d). split; [by apply list_elem_of_In|done].
  - intros ([d|] & Hd & H); [|done]. simpl in H. simplify_eq. exists (Some d).
    split; [by apply list_elem_of_In|by apply bool_decide_eq_true].
Qed.

Definition digits (n : Z) : list Z :=
  (if 100 <=? n then [48 + (n / 100) mod 10] else [])
    ++ (if 10 <=? n then [48 + (n / 10) mod 10] else []) ++ [48 + n mod 10].

Definition undigits (l : list Z) : Z := foldl (λ acc c, acc * 10 + (c - 48)) 0 l.

Lemma undigits_digits n : 0 ≤ n < 1000 → undigits (digits n) = n.
Proof.
  intros Hn. unfold digits. destruct (Z.leb_spec 100 n), (Z.leb_spec 10 n); simpl; try lia;
    unfold undigits; simpl; Z.to_euclidean_division_equations; lia.
Qed.

Lemma blk_cand_inj base n m :
  0 ≤ n < 1000 → 0 ≤ m < 1000 → blk_cand base n = blk_cand base m → n = m.
Proof.
  intros Hn Hm H. unfold blk_cand in H. apply app_inv_head in H.
  fold (digits n) in H. fold (digits m) in H.
  rewrite <- (undigits_digits n), <- (undigits_digits m) by done. by rewrite H.
Qed.

Lemma pick_loop_spec k r base n :
  (∀ i, n ≤ i < n + Z.of_nat k → blk_cand base i ∈ names r) ∨
  pick_loop k r base n ∉ names r.
Proof.
  revert n. induction k as [|k IH]; intros n; [left; lia|]. cbn [pick_loop].
  destruct (name_taken r (blk_cand base n)) eqn:E.
  - destruct (IH (n + 1)) as [H|H]; [left|by right].
    intros i Hi. destruct (Z.eq_dec i n) as [->|]; [by apply name_taken_spec|]. apply H. lia.
  - right. intros H%name_taken_spec. congruence.
Qed.

(** There are more candidates than slots. *)
Lemma pick_name_fresh r base :
  length (blk_devs r) = Z.to_nat ANX_BLK_MAX_DEVS → blk_pick_name r base ∉ names r.
Proof.
  intros Hlen. unfold blk_pick_name.
  destruct (pick_loop_spec 1000 r base 0) as [H|H]; [exfalso|done].
  assert (NoDup (blk_cand base <$> seqZ 0 1000)) as Hnd.
  { apply NoDup_fmap_2_strong; [|apply NoDup_seqZ].
    intros x y Hx%elem_of_seqZ Hy%elem_of_seqZ. apply blk_cand_inj; lia. }
  assert (length (blk_cand base <$> seqZ 0 1000) ≤ length (names r))%nat as Hle.
  { apply submseteq_length, NoDup_submseteq; [done|].
    intros x (i & -> & Hi%elem_of_seqZ)%list_elem_of_fmap. apply H. lia. }
  rewrite length_fmap, length_seqZ in Hle.
  assert (length (names r) ≤ length (blk_devs r))%nat.
  { unfold names. generalize (blk_devs r). intros l. induction l as [|[d|] l IH]; cbn in *; lia. }
  rewrite Hlen in *. unfold ANX_BLK_MAX_DEVS in *. lia.
Qed.

Lemma first_free_Some (l : list (option (anx_blk_dev D))) i :
  first_free l = Some i → ∃ l1 l2, l = l1 ++ None :: l2 ∧ length l1 = i ∧ None ∉ l1.
Proof.
  revert i. induction l as [|[d|] l IH]; intros i Hi; simpl in Hi; [done| |].
  - apply fmap_Some in Hi as (j & Hj & ->). destruct (IH j Hj) as (l1 & l2 & -> & <- & Hn).
    exists (Some d :: l1), l2. split_and!; [done|done|]. intros [?|?]%elem_of_cons; done.
  - simplify_eq. exists [], l. split_and!; [done|done|by apply not_elem_of_nil].
Qed.

(** Filling the free slot [i] adds its name and no other. *)
Lemma names_fill r i d :
  first_free (blk_devs r) = Some i →
  names (set_slot r (Z.of_nat i) (Some d)) ≡ₚ dev_name d :: names r ∧
  length (blk_devs (set_slot r (Z.of_nat i) (Some d))) = length (blk_devs r).
Proof.
  intros (l1 & l2 & E & <- & _)%first_free_Some. unfold names, set_slot, wr. simpl.
  rewrite E, Nat2Z.id.
  split; [|by rewrite length_insert].
  rewrite insert_app_r_alt by done. rewrite Nat.sub_diag. simpl.
  rewrite !omap_app. simpl. by rewrite Permutation_middle.
Qed.

Lemma names_wr_None (l : list (option (anx_blk_dev D))) n :
  omap (fmap dev_name) (<[n := None]> l) `sublist_of` omap (fmap dev_name) l.
Proof.
  revert n. induction l as [|[d|] l IH]; intros [|n]; cbn; try done.
  - by apply sublist_cons.
  - by apply sublist_skip.
Qed.

Lemma names_wr_same (l : list (option (anx_blk_dev D))) n d d' :
  l !! n = Some (Some d) → dev_name d' = dev_name d →
  omap (fmap dev_name) (<[n := Some d']> l) = omap (fmap dev_name) l.
Proof.
  intros Hn E. revert n Hn. induction l as [|[x|] l IH]; intros [|n] Hn; cbn in *; simplify_eq.
  - by rewrite E.
  - f_equal. by apply IH.
  - by apply IH.
Qed.

Lemma dev_slot_lookup r i d :
  dev_slot r i = Some d → blk_devs r !! Z.to_nat i = Some (Some d).
Proof.
  unfold dev_slot, rd. rewrite nth_lookup. destruct (blk_devs r !! Z.to_nat i) as [o|]; simpl; [by intros ->|done].
Qed.

Lemma registry_ok_flags r dev f : registry_ok r → registry_ok (update_flags r dev f).
Proof.
  intros [Hl Hn]. unfold update_flags. destruct dev as [i|]; [|done].
  destruct (dev_slot r i) as [d|] eqn:E; [|done]. apply dev_slot_lookup in E.
  constructor; [simpl; by rewrite wr_length|].
  pose proof (names_wr_same _ _ d (BlkDev (dev_priv d) (dev_name d) (f (dev_flags d))) E eq_refl) as H.
  unfold names. simpl. unfold wr. by rewrite H.
Qed.

Lemma registry_ok_drop r i : registry_ok r → registry_ok (drop_slot r i).
Proof.
  intros [Hl Hn]. unfold drop_slot. destruct (dev_slot r i); [|done].
  constructor; [simpl; by rewrite wr_length|].
  eapply sublist_NoDup; [exact Hn|]. apply names_wr_None.
Qed.

(** The registry operations, with the arguments of each call. *)
Inductive reg_op :=
  | RegClass (priv : blk_priv D) (base : list Z)
  | RegNamed (priv : blk_priv D) (name : list Z)
  | RegDrop (parts : list Z) (dev : option Z)
  | RegClaim (dev : option Z)
  | RegRelease (dev : option Z)
  | RegActive (dev : option Z).

Definition reg_step (r : registry D) (op : reg_op) : registry D :=
  match op with
  | RegClass priv base => (anx_blk_dev_register r priv base).2
  | RegNamed priv name => (anx_blk_dev_register_named r priv name).2
  | RegDrop parts dev => anx_blk_dev_unregister parts r dev
  | RegClaim dev => anx_blk_dev_claim r dev
  | RegRelease dev => anx_blk_dev_release r dev
  | RegActive dev => anx_blk_set_active r dev
  end.

(** A given name fits the buffer with its terminator. *)
Definition name_fits (op : reg_op) : Prop :=
  match op with RegNamed _ name => (length name < ANX_BLK_NAME_MAX)%nat | _ => True end.

Lemma find_name_None (l : list (option (anx_blk_dev D))) name :
  find_name l name = None → name ∉ omap (fmap dev_name) l.
Proof.
  induction l as [|[d|] l IH]; cbn; intros H; [by apply not_elem_of_nil| |].
  - destruct (bool_decide_reflect (dev_name d = name)); [done|].
    apply fmap_None in H. intros [?|?]%elem_of_cons; [done|by apply IH].
  - apply fmap_None in H. by apply IH.
Qed.

Lemma registry_ok_step r op : registry_ok r → name_fits op → registry_ok (reg_step r op).
Proof.
  intros [Hl Hn] Hfit. destruct op as [priv base|priv name|parts dev|dev|dev|dev]; simpl.
  - unfold anx_blk_dev_register. destruct (first_free (blk_devs r)) as [i|] eqn:Hf; [|done].
    destruct (names_fill r i (BlkDev priv (blk_pick_name r base) 0) Hf) as [Hp Hl'].
    assert (registry_ok (set_slot r (Z.of_nat i) (Some (BlkDev priv (blk_pick_name r base) 0)))) as H.
    { constructor; [by rewrite Hl'|]. rewrite Hp. apply NoDup_cons.
      split; [by apply pick_name_fresh|done]. }
    destruct (active_dev r); [done|]. destruct H. by constructor.
  - unfold anx_blk_dev_register_named, anx_blk_dev_find.
    destruct (bool_decide _) eqn:G; [done|]. to_prop.
    destruct (first_free (blk_devs r)) as [i|] eqn:Hf; [|done]. cbn [snd].
    destruct (names_fill r i (BlkDev priv (firstn (ANX_BLK_NAME_MAX - 1) name) 0) Hf) as [Hp Hl'].
    constructor; [by rewrite Hl'|]. rewrite Hp. apply NoDup_cons. split; [|done]. cbn [dev_name].
    rewrite firstn_all2 by (simpl in Hfit; unfold ANX_BLK_NAME_MAX in *; lia).
    apply find_name_None. destruct (find_name _ _); [|done]. by destruct G.
  - unfold anx_blk_dev_unregister. destruct dev as [i|]; [|done].
    destruct (dev_slot r i); [|done]. apply registry_ok_drop.
    assert (registry_ok r) as Hok by (by constructor). clear Hl Hn. revert r Hok.
    induction parts as [|j parts IH]; intros r Hok; [done|]. by apply IH, registry_ok_drop.
  - by apply registry_ok_flags.
  - by apply registry_ok_flags.
  - unfold anx_blk_set_active. destruct (_ && _); by constructor.
Qed.

Lemma find_name_Some (l : list (option (anx_blk_dev D))) n d :
  NoDup (omap (fmap dev_name) l) → l !! n = Some (Some d) → find_name l (dev_name d) = Some n.
Proof.
  revert n. induction l as [|[x|] l IH]; intros [|n] Hnd Hn; cbn in *; simplify_eq.
  - by rewrite bool_decide_eq_true_2.
  - apply NoDup_cons in Hnd as [Hx Hnd]. rewrite bool_decide_eq_false_2; [by rewrite (IH n)|].
    intros E. apply Hx. rewrite E. apply list_elem_of_omap. exists (Some d).
    split; [by eapply list_elem_of_lookup_2|done].
  - by rewrite (IH n).
Qed.

Lemma registry_ok_run r ops :
  registry_ok r → Forall name_fits ops → registry_ok (foldl reg_step r ops).
Proof.
  intros Hr Hops. revert r Hr. induction Hops as [|op ops Hop _ IH]; intros r Hr; [done|].
  simpl. by apply IH, registry_ok_step.
Qed.

Lemma registry_ok_init : registry_ok registry_init.
Proof.
  constructor; [apply length_replicate|].
  unfold names, registry_init. generalize (Z.to_nat ANX_BLK_MAX_DEVS). intros n. simpl.
  induction n as [|n IH]; [constructor|]. by cbn.
Qed.
End names.

(** Whatever devices come and go, as long as the exact names given to
    [anx_blk_dev_register_named] fit the name buffer, no two registered devices
    have the same name, and [anx_blk_dev_find] finds each device by its name. *)
Theorem registry_names_unique {D} `{!BlkDriver D} (ops : list (@reg_op D)) i d :
  Forall name_fits ops →
  let r := foldl reg_step registry_init ops in
  0 ≤ i → dev_slot r i = Some d →
  NoDup (names r) ∧ anx_blk_dev_find r (dev_name d) = Some i.
Proof.
  intros Hops r Hi Hd.
  assert (registry_ok r) as [Hl Hn] by (apply registry_ok_run; [apply registry_ok_init|done]).
  split; [done|]. apply dev_slot_lookup in Hd.
  unfold anx_blk_dev_find. rewrite (find_name_Some _ _ _ Hn Hd). simpl. f_equal. lia.
Qed.

(** ** A drive in memory

    An instance of the interface: [working] drives serve every request within
    their capacity, the others fail all of them. *)

Record mem_disk := MemDisk { md_cap : Z; md_data : gmap Z sector; md_working : bool }.

Definition mem_sector (d : mem_disk) (i : Z) : sector := default [] (md_data d !! i).

Definition mem_in_range (d : mem_disk) (lba n : Z) : bool :=
  md_working d && (0 <=? lba) && (lba + n <=? md_cap d).

Fixpoint mem_store (m : gmap Z sector) (lba : Z) (buf : list sector) : gmap Z sector :=
  match buf with [] => m | x :: buf => mem_store (<[lba := x]> m) (lba + 1) buf end.

#[export] Instance mem_driver : BlkDriver mem_disk := {|
  drv_read d lba n := if mem_in_range d lba n then (ANX_OK, mem_sector d <$> seqZ lba n) else (ANX_EIO, []);
  drv_write d lba buf :=
    if mem_in_range d lba (Z.of_nat (length buf))
    then (ANX_OK, MemDisk (md_cap d) (mem_store (md_data d) lba buf) (md_working d)) else (ANX_EIO, d);
  drv_capacity d := md_cap d;
|}.

Lemma mem_store_lookup m lba buf i :
  mem_store m lba buf !! i
  = (if decide (lba ≤ i < lba + Z.of_nat (length buf)) then buf !! Z.to_nat (i - lba) else m !! i).
Proof.
  revert m lba. induction buf as [|x buf IH]; intros m lba; simpl.
  { rewrite decide_False by lia. done. }
  rewrite IH. destruct (decide (lba = i)) as [<-|Hne].
  - rewrite decide_False by lia. rewrite decide_True by lia.
    rewrite lookup_insert_eq. by replace (lba - lba) with 0 by lia.
  - rewrite lookup_insert_ne by done. repeat case_decide; try lia; [|done].
    replace (Z.to_nat (i - lba)) with (S (Z.to_nat (i - (lba + 1)))) by lia. done.
Qed.

#[export] Instance mem_driver_laws : BlkDriverLaws mem_disk.
Proof.
  refine {| contents := mem_sector |}.
  - intros d lba n buf _ _ _. simpl. destruct (mem_in_range d lba n); [by intros [= <-]|discriminate].
  - intros d lba buf r d' _ _. simpl. destruct (mem_in_range _ _ _); intros [= <- <-]; [|done].
    unfold mem_sector. simpl. split.
    + intros i Hi. rewrite mem_store_lookup. by rewrite decide_False by done.
    + intros _ i Hi. rewrite mem_store_lookup, decide_True by done.
      destruct (buf !! Z.to_nat (i - lba)) as [x|] eqn:E; [done|].
      apply lookup_ge_None in E. lia.
  - intros d lba buf r d'. simpl. destruct (mem_in_range _ _ _); by intros [= <- <-].
Defined.

Definition small_disk : mem_disk := MemDisk 4096 ∅ true.
Definition nvme : list Z := [110; 118; 109; 101].

Lemma registry_names_unique_witness :
  anx_blk_dev_find (foldl reg_step registry_init
    [RegClass (PrivDrv small_disk) nvme; RegClass (PrivDrv small_disk) nvme; RegDrop [] (Some 0);
     RegClass (PrivDrv small_disk) nvme]) (nvme ++ [49]) = Some 1.
Proof.
  apply (registry_names_unique
    [RegClass (PrivDrv small_disk) nvme; RegClass (PrivDrv small_disk) nvme; RegDrop [] (Some 0);
     RegClass (PrivDrv small_disk) nvme] 1 (BlkDev (PrivDrv small_disk) (nvme ++ [49]) 0)).
  - repeat constructor.
  - lia.
  - vm_compute. reflexivity.
Defined.

Definition long_name : list Z := repeat 97 16.

(** The buffer bound matters: two calls of [anx_blk_dev_register_named] with
    the same 16-character name both succeed, because the name is looked up
    before it is cut to 15 characters, and leave two devices with one name. *)
Theorem long_name_registered_twice :
  ∃ r1 r2, anx_blk_dev_register_named registry_init (PrivDrv small_disk) long_name = (Some 0, r1) ∧
    anx_blk_dev_register_named r1 (PrivDrv small_disk) long_name = (Some 1, r2) ∧
    names r2 = [repeat 97 15; repeat 97 15].
Proof. eexists _, _. split_and!; vm_compute; reflexivity. Qed.
