(* ===== verification/MdSuper.v ===== *)
(** * RAID superblock: [kernel/core/md/md_super.c], [struct anx_md_super]

    The 512-byte on-disk descriptor of an array member: its packed
    little-endian layout, its FNV-1a checksum, its validation. *)

From S2P Require Import Prelude Blk.

(** ** Little-endian integers *)

Fixpoint le (n : nat) (v : Z) : list Z :=
  match n with O => [] | S n => v mod 256 :: le n (v / 256) end.

Fixpoint le_val (l : list Z) : Z :=
  match l with [] => 0 | b :: l => b + 256 * le_val l end.

Definition take_le (n : nat) (l : list Z) : Z * list Z := (le_val (firstn n l), skipn n l).

Definition take_raw (n : nat) (l : list Z) : list Z * list Z := (firstn n l, skipn n l).

(** ** The superblock *)

Definition ANX_MD_MAGIC : Z := 0x414E5852.
Definition ANX_MD_SB_VERSION : Z := 1.
Definition ANX_MD_MAX_MEMBERS : Z := 8.
Definition ANX_MD_SB_SECTOR_HEAD : Z := 8.
Definition ANX_MD_DATA_OFFSET : Z := 2048.
Definition ANX_MD_SB_TAIL_BACK : Z := 8.
Definition ANX_MD_SB_TAIL : Z := 1.
Definition ANX_MD_LEVEL_RAID0 : Z := 0.
Definition ANX_MD_LEVEL_RAID1 : Z := 1.

Record anx_md_super := MdSuper {
  sb_magic : Z;
  sb_version : Z;
  sb_level : Z;
  sb_chunk_sectors : Z;
  sb_uuid : list Z;
  sb_name : list Z;  (* the 16 bytes of the buffer *)
  sb_member_count : Z;
  sb_member_index : Z;
  sb_data_offset : Z;
  sb_member_sectors : Z;
  sb_array_sectors : Z;
  sb_events : Z;
  sb_member_state : Z;
  sb_flags : Z;
  sb_resync_offset : Z;
  sb_created : Z;
  sb_checksum : Z;
}.

#[export] Instance eta_super : Settable anx_md_super := λ r,
  MdSuper (sb_magic r) (sb_version r) (sb_level r) (sb_chunk_sectors r) (sb_uuid r)
    (sb_name r) (sb_member_count r) (sb_member_index r) (sb_data_offset r)
    (sb_member_sectors r) (sb_array_sectors r) (sb_events r) (sb_member_state r)
    (sb_flags r) (sb_resync_offset r) (sb_created r) (sb_checksum r).

(** The packed struct as it lies in memory and on disk. *)
Definition super_bytes (sb : anx_md_super) : list Z :=
  le 4 (sb_magic sb) ++ le 4 (sb_version sb) ++ le 4 (sb_level sb)
  ++ le 4 (sb_chunk_sectors sb) ++ sb_uuid sb ++ sb_name sb
  ++ le 4 (sb_member_count sb) ++ le 4 (sb_member_index sb)
  ++ le 8 (sb_data_offset sb) ++ le 8 (sb_member_sectors sb)
  ++ le 8 (sb_array_sectors sb) ++ le 8 (sb_events sb)
  ++ le 4 (sb_member_state sb) ++ le 4 (sb_flags sb)
  ++ le 8 (sb_resync_offset sb) ++ le 8 (sb_created sb)
  ++ le 4 (sb_checksum sb) ++ replicate (512 - 116) 0.

(** Reading a sector through the struct. *)
Definition super_of_bytes (l : list Z) : anx_md_super :=
  let '(magic, l) := take_le 4 l in
  let '(version, l) := take_le 4 l in
  let '(level, l) := take_le 4 l in
  let '(chunk, l) := take_le 4 l in
  let '(uuid, l) := take_raw 16 l in
  let '(nm, l) := take_raw 16 l in
  let '(count, l) := take_le 4 l in
  let '(index, l) := take_le 4 l in
  let '(offset, l) := take_le 8 l in
  let '(msectors, l) := take_le 8 l in
  let '(asectors, l) := take_le 8 l in
  let '(events, l) := take_le 8 l in
  let '(mstate, l) := take_le 4 l in
  let '(flags, l) := take_le 4 l in
  let '(resync, l) := take_le 8 l in
  let '(created, l) := take_le 8 l in
  let '(checksum, l) := take_le 4 l in
  MdSuper magic version level chunk uuid nm count index offset msectors asectors events
    mstate flags resync created checksum.

Definition fnv1a (l : list Z) : Z :=
  foldl (λ hash b, u32 (Z.lxor hash b * 16777619)) 2166136261 l.

Definition md_checksum (sb : anx_md_super) : Z :=
  fnv1a (super_bytes (sb <| sb_checksum := 0 |>)).

Section super.
Context {D : Type} `{!BlkDriver D}.

(** The sector of the superblock, or an error code. *)
Definition md_super_sector (r : registry D) (dev : option Z) (tail : bool) : Z + Z :=
  let cap := blk_drv_capacity r dev in
  if negb tail then
    if cap <=? ANX_MD_DATA_OFFSET then inl ANX_EINVAL else inr ANX_MD_SB_SECTOR_HEAD
  else
    if cap <=? ANX_MD_SB_TAIL_BACK then inl ANX_EINVAL else inr (cap - ANX_MD_SB_TAIL_BACK).

Definition super_validate (sb : anx_md_super) (tail : bool) : Z :=
  when negb (sb_magic sb =? ANX_MD_MAGIC) ret ANX_ENOENT ;;
  when negb (sb_version sb =? ANX_MD_SB_VERSION) ret ANX_ENOTSUP ;;
  when negb (sb_checksum sb =? md_checksum sb) ret ANX_EIO ;;
  when (sb_member_count sb =? 0) || (sb_member_count sb >? ANX_MD_MAX_MEMBERS)
       || (sb_member_index sb >=? sb_member_count sb)
    ret ANX_EINVAL ;;
  when negb (sb_level sb =? ANX_MD_LEVEL_RAID0) && negb (sb_level sb =? ANX_MD_LEVEL_RAID1)
    ret ANX_ENOTSUP ;;
  when negb (Bool.eqb (negb (Z.land (sb_flags sb) ANX_MD_SB_TAIL =? 0)) tail)
    ret ANX_EINVAL ;;
  ANX_OK.

Definition md_super_read_at (r : registry D) (dev : option Z) (tail : bool)
    : Z * option anx_md_super :=
  match md_super_sector r dev tail with
  | inl e => (e, None)
  | inr sect =>
      let '(e, buf) := blk_drv_read r dev sect 1 in
      when negb (e =? ANX_OK) ret (e, None) ;;
      let sb := super_of_bytes (default [] (List.head buf)) in
      (super_validate sb tail, Some sb)
  end.

Definition md_super_read (r : registry D) (dev : option Z) : Z * option anx_md_super :=
  let '(e, sb) := md_super_read_at r dev false in
  when e =? ANX_OK ret (ANX_OK, sb) ;;
  md_super_read_at r dev true.

Definition anx_md_zero_super (r : registry D) (dev : option Z) : Z * registry D :=
  match dev with
  | None => (ANX_EINVAL, r)
  | Some _ =>
      when anx_blk_dev_is_member r dev ret (ANX_EBUSY, r) ;;
      let zero tail :=
        match md_super_sector r dev tail with
        | inl e => (e, r)
        | inr sect => blk_drv_write r dev sect [replicate 512 0]
        end in
      if (md_super_read_at r dev false).1 =? ANX_OK then zero false
      else if (md_super_read_at r dev true).1 =? ANX_OK then zero true
      else (ANX_ENOENT, r)
  end.
End super.

(** ** Round trip *)

Lemma le_length n v : length (le n v) = n.
Proof. revert v. induction n as [|n IH]; intros v; simpl; [done|]. by rewrite IH. Qed.

Lemma le_val_le n v : 0 ≤ v < 256 ^ Z.of_nat n → le_val (le n v) = v.
Proof.
  revert v. induction n as [|n IH]; intros v Hv; cbn [le le_val].
  { change (256 ^ Z.of_nat 0) with 1 in Hv. lia. }
  rewrite Nat2Z.inj_succ, Z.pow_succ_r in Hv by lia.
  rewrite IH; [|Z.to_euclidean_division_equations; nia].
  pose proof (Z.div_mod v 256). lia.
Qed.

Lemma take_le_app n v l : 0 ≤ v < 256 ^ Z.of_nat n → take_le n (le n v ++ l) = (v, l).
Proof.
  intros Hv. unfold take_le. rewrite <- (le_length n v) at 1 3.
  rewrite take_app_length, drop_app_length. by rewrite le_val_le.
Qed.

Lemma take_raw_app n x l : length x = n → take_raw n (x ++ l) = (x, l).
Proof. intros <-. unfold take_raw. by rewrite take_app_length, drop_app_length. Qed.

(** Every field within its width. *)
Record super_ok (sb : anx_md_super) : Prop := {
  so_u32 : Forall is_u32 [sb_magic sb; sb_version sb; sb_level sb; sb_chunk_sectors sb;
             sb_member_count sb; sb_member_index sb; sb_member_state sb; sb_flags sb; sb_checksum sb];
  so_u64 : Forall is_u64 [sb_data_offset sb; sb_member_sectors sb; sb_array_sectors sb;
             sb_events sb; sb_resync_offset sb; sb_created sb];
  so_uuid : length (sb_uuid sb) = 16%nat;
  so_name : length (sb_name sb) = 16%nat;
}.

Lemma super_bytes_length sb : super_ok sb → length (super_bytes sb) = 512%nat.
Proof.
  intros []. unfold super_bytes. rewrite !length_app, !le_length, length_replicate. lia.
Qed.

Lemma super_roundtrip_spec sb : super_ok sb → super_of_bytes (super_bytes sb) = sb.
Proof.
  intros [H32 H64 Hu Hn].
  repeat match goal with H : Forall _ (_ :: _) |- _ =>
    apply Forall_cons in H; destruct H end.
  unfold is_u32, is_u64 in *. unfold super_of_bytes, super_bytes.
  repeat first
    [ rewrite take_le_app by (change (256 ^ Z.of_nat 4) with (2 ^ 32);
                              change (256 ^ Z.of_nat 8) with (2 ^ 64); lia)
    | rewrite take_raw_app by done ].
  by destruct sb.
Qed.
