(* ===== verification/DiskStore.v ===== *)
(** * On-disk object store: [kernel/core/state/disk_store.c], [objstore_disk.h]

    Objects are kept in a data region that only grows; a sorted index of 48-byte
    entries maps object ids to their sectors; a superblock and a journal region
    precede them.  The device is anything with the [BlkDriver] interface.  An
    allocation consumes the head of [mem_ok] (an exhausted list is memory that
    never fails). *)

From S2P Require Import Prelude Uuid Blk MdSuper.

Module Disk.

Definition ANX_DISK_MAGIC : Z := 0x414E5844.
Definition ANX_DISK_VERSION : Z := 2.
Definition ANX_SUPER_SECTOR : Z := 0.
Definition ANX_JOURNAL_START : Z := 1.
Definition ANX_JOURNAL_SECTORS : Z := 256.
Definition ANX_INDEX_START : Z := ANX_JOURNAL_START + ANX_JOURNAL_SECTORS.
Definition ANX_INDEX_SECTORS : Z := 256.
Definition ANX_DATA_START : Z := ANX_INDEX_START + ANX_INDEX_SECTORS.
Definition ANX_JRNL_ENTRIES_PER_SECTOR : Z := 512 / 64.
Definition ANX_JRNL_MAX_ENTRIES : Z := ANX_JOURNAL_SECTORS * ANX_JRNL_ENTRIES_PER_SECTOR.
Definition ANX_INDEX_ENTRY_SIZE : Z := 56.
Definition ANX_INDEX_ENTRIES_PER_SECTOR : Z := 512 / ANX_INDEX_ENTRY_SIZE.
Definition ANX_INDEX_MAX_ENTRIES : Z := ANX_INDEX_SECTORS * ANX_INDEX_ENTRIES_PER_SECTOR.
Definition ANX_JRNL_WRITE_OBJ : Z := 1.
Definition ANX_JRNL_COMMIT : Z := 3.

(** ** On-disk structures *)

Record anx_disk_super := DiskSuper {
  ds_magic : Z;
  ds_version : Z;
  ds_total_sectors : Z;
  ds_obj_count : Z;
  ds_next_data_sector : Z;
  ds_journal_head : Z;
  ds_journal_committed : Z;
  ds_uuid : list Z;   (* 16 bytes *)
  ds_label : list Z;  (* 32 bytes *)
  ds_pad : list Z;    (* 432 bytes: the struct is 520 bytes long *)
}.

#[export] Instance eta_disk_super : Settable anx_disk_super := λ r,
  DiskSuper (ds_magic r) (ds_version r) (ds_total_sectors r) (ds_obj_count r) (ds_next_data_sector r)
    (ds_journal_head r) (ds_journal_committed r) (ds_uuid r) (ds_label r) (ds_pad r).

Definition ds_super_bytes (s : anx_disk_super) : list Z :=
  le 4 (ds_magic s) ++ le 4 (ds_version s) ++ le 8 (ds_total_sectors s) ++ le 8 (ds_obj_count s)
  ++ le 8 (ds_next_data_sector s) ++ le 4 (ds_journal_head s) ++ le 4 (ds_journal_committed s)
  ++ ds_uuid s ++ ds_label s ++ ds_pad s.

(** A sector read over the struct: its last 8 bytes stay as they were. *)
Definition ds_super_load (old : anx_disk_super) (l : list Z) : anx_disk_super :=
  let '(magic, l) := take_le 4 l in
  let '(version, l) := take_le 4 l in
  let '(total, l) := take_le 8 l in
  let '(count, l) := take_le 8 l in
  let '(next, l) := take_le 8 l in
  let '(head, l) := take_le 4 l in
  let '(committed, l) := take_le 4 l in
  let '(uuid, l) := take_raw 16 l in
  let '(label, l) := take_raw 32 l in
  DiskSuper magic version total count next head committed uuid label (l ++ skipn 424 (ds_pad old)).

Record anx_journal_entry := JournalEntry {
  j_txn_id : Z;
  j_op : Z;
  j_oid : anx_uuid;
  j_data_sector : Z;
  j_data_sectors : Z;
  j_obj_size : Z;
}.

Definition journal_bytes (e : anx_journal_entry) : list Z :=
  le 4 (j_txn_id e) ++ le 4 (j_op e) ++ le 8 (hi (j_oid e)) ++ le 8 (lo (j_oid e)) ++ le 8 (j_data_sector e)
  ++ le 4 (j_data_sectors e) ++ le 4 (j_obj_size e) ++ replicate 8 0.

Record anx_disk_index_entry := IndexEntry {
  ie_oid : anx_uuid;
  ie_data_sector : Z;
  ie_data_sectors : Z;
  ie_payload_size : Z;
  ie_obj_type : Z;
  ie_flags : Z;
  ie_boundary_key : Z;
}.

#[export] Instance index_entry_eq_dec : EqDecision anx_disk_index_entry.
Proof. solve_decision. Defined.

Definition entry_bytes (e : anx_disk_index_entry) : list Z :=
  le 8 (hi (ie_oid e)) ++ le 8 (lo (ie_oid e)) ++ le 8 (ie_data_sector e) ++ le 4 (ie_data_sectors e)
  ++ le 4 (ie_payload_size e) ++ le 4 (ie_obj_type e) ++ le 4 (ie_flags e) ++ le 8 (ie_boundary_key e).

Definition take_entry (l : list Z) : anx_disk_index_entry * list Z :=
  let '(h, l) := take_le 8 l in
  let '(o, l) := take_le 8 l in
  let '(sect, l) := take_le 8 l in
  let '(sects, l) := take_le 4 l in
  let '(size, l) := take_le 4 l in
  let '(type, l) := take_le 4 l in
  let '(flags, l) := take_le 4 l in
  let '(bk, l) := take_le 8 l in
  (IndexEntry (Uuid h o) sect sects size type flags bk, l).

(** The array of [n] entries at the start of a buffer. *)
Fixpoint take_entries (n : nat) (l : list Z) : list anx_disk_index_entry :=
  match n with
  | O => []
  | S n => let '(e, l) := take_entry l in e :: take_entries n l
  end.

(** A buffer as [n] sectors. *)
Fixpoint to_sectors (n : nat) (l : list Z) : list sector :=
  match n with O => [] | S n => firstn 512 l :: to_sectors n (skipn 512 l) end.

(** [memcpy] of [l] to the start of a zeroed buffer of [n] bytes. *)
Definition zero_padded (n : nat) (l : list Z) : list Z := l ++ replicate (n - length l) 0.

Definition entry_active (e : anx_disk_index_entry) : bool := negb (Z.land (ie_flags e) 1 =? 0).

Section store.
Context {D : Type} `{!BlkDriver D}.

(** The file-scope variables, the active block device and the allocator's answers. *)
Record store_state := StoreState {
  dev : option D;
  super : anx_disk_super;
  index_cache : list anx_disk_index_entry;
  index_count : Z;
  mounted : bool;
  next_txn_id : Z;
  mem_ok : list bool;
}.

#[export] Instance eta_store_state : Settable store_state := λ r,
  StoreState (dev r) (super r) (index_cache r) (index_count r) (mounted r) (next_txn_id r) (mem_ok r).

(** [ret = m; if (ret != ANX_OK) return ret;] *)
Notation "'try' s ':=' m ';;' k" := (let '(e, s) := m in if negb (e =? ANX_OK) then (e, s) else k)
  (at level 10, s name, m at level 99, k at level 200, only parsing).

(** An allocation: whether it succeeds. *)
Definition alloc (s : store_state) : bool * store_state :=
  match mem_ok s with [] => (true, s) | b :: l => (b, s <| mem_ok := l |>) end.

(** [anx_blk_read], [anx_blk_write] and [anx_blk_capacity] on the active device. *)
Definition active_read (lba count : Z) (s : store_state) : Z * list sector :=
  match dev s with None => (ANX_EIO, []) | Some d => drv_read d lba count end.

Definition active_write (lba : Z) (buf : list sector) (s : store_state) : Z * store_state :=
  match dev s with
  | None => (ANX_EIO, s)
  | Some d => let '(e, d) := drv_write d lba buf in (e, s <| dev := Some d |>)
  end.

Definition active_capacity (s : store_state) : Z := match dev s with None => 0 | Some d => drv_capacity d end.

(** ** Superblock *)

Definition read_super (s : store_state) : Z * store_state :=
  let '(e, buf) := active_read ANX_SUPER_SECTOR 1 s in
  when negb (e =? ANX_OK) ret (e, s) ;;
  let s := s <| super ::= λ old, ds_super_load old (concat buf) |> in
  when negb (ds_magic (super s) =? ANX_DISK_MAGIC) ret (ANX_EINVAL, s) ;;
  when negb (ds_version (super s) =? ANX_DISK_VERSION) ret (ANX_EINVAL, s) ;;
  (ANX_OK, s).

Definition write_super (s : store_state) : Z * store_state :=
  active_write ANX_SUPER_SECTOR (to_sectors 1 (ds_super_bytes (super s))) s.

(** ** Index *)

Definition load_index (s : store_state) : Z * store_state :=
  let '(ok, s) := alloc s in
  when negb ok ret (ANX_ENOMEM, s) ;;
  let '(e, buf) := active_read ANX_INDEX_START ANX_INDEX_SECTORS s in
  when negb (e =? ANX_OK) ret (e, s) ;;
  let entries := List.filter entry_active (take_entries (Z.to_nat ANX_INDEX_MAX_ENTRIES) (concat buf)) in
  let s := s <| index_count := Z.of_nat (length entries) |> in
  if index_count s >? 0 then
    let '(ok, s) := alloc s in
    when negb ok ret (ANX_ENOMEM, s <| index_cache := [] |>) ;;
    (ANX_OK, s <| index_cache := entries |>)
  else (ANX_OK, s <| index_cache := [] |>).

Definition index_bytes (cache : list anx_disk_index_entry) : list Z :=
  zero_padded (Z.to_nat (ANX_INDEX_SECTORS * 512))
    (concat (map entry_bytes (firstn (Z.to_nat ANX_INDEX_MAX_ENTRIES) cache))).

Definition flush_index (s : store_state) : Z * store_state :=
  let '(ok, s) := alloc s in
  when negb ok ret (ANX_ENOMEM, s) ;;
  let cache := firstn (Z.to_nat (index_count s)) (index_cache s) in
  active_write ANX_INDEX_START (to_sectors (Z.to_nat ANX_INDEX_SECTORS) (index_bytes cache)) s.

Definition oid_is (oid : anx_uuid) (e : anx_disk_index_entry) : bool :=
  (hi (ie_oid e) =? hi oid) && (lo (ie_oid e) =? lo oid).

(** The position of the first entry of the object. *)
Fixpoint find_pos (oid : anx_uuid) (l : list anx_disk_index_entry) : option nat :=
  match l with
  | [] => None
  | e :: l => if oid_is oid e then Some 0%nat else S <$> find_pos oid l
  end.

Definition find_index_entry (oid : anx_uuid) (s : store_state) : option (nat * anx_disk_index_entry) :=
  let l := firstn (Z.to_nat (index_count s)) (index_cache s) in
  i ← find_pos oid l; e ← l !! i; Some (i, e).

Definition entry_cmp (a b : anx_disk_index_entry) : Z :=
  when ie_boundary_key a <? ie_boundary_key b ret -1 ;;
  when ie_boundary_key a >? ie_boundary_key b ret 1 ;;
  when hi (ie_oid a) <? hi (ie_oid b) ret -1 ;;
  when hi (ie_oid a) >? hi (ie_oid b) ret 1 ;;
  when lo (ie_oid a) <? lo (ie_oid b) ret -1 ;;
  when lo (ie_oid a) >? lo (ie_oid b) ret 1 ;;
  0.

Definition null_entry : anx_disk_index_entry := IndexEntry ANX_UUID_NIL 0 0 0 0 0 0.

(** The binary search: [hi - lo] halves, so its logarithm bounds the passes. *)
Fixpoint bound_loop (fuel : nat) (l : list anx_disk_index_entry) (target : anx_disk_index_entry) (lo hi : Z) : Z :=
  match fuel with
  | O => lo
  | S fuel =>
      if lo <? hi then
        let mid := lo + (hi - lo) / 2 in
        if entry_cmp (rd null_entry l mid) target <? 0 then bound_loop fuel l target (mid + 1) hi
        else bound_loop fuel l target lo mid
      else lo
  end.

Definition index_lower_bound (target : anx_disk_index_entry) (s : store_state) : Z :=
  bound_loop (S (Z.to_nat (index_count s))) (index_cache s) target 0 (index_count s).

Definition add_index_entry (entry : anx_disk_index_entry) (s : store_state) : Z * store_state :=
  when index_count s >=? ANX_INDEX_MAX_ENTRIES ret (ANX_ENOMEM, s) ;;
  let '(ok, s) := alloc s in
  when negb ok ret (ANX_ENOMEM, s) ;;
  let pos := Z.to_nat (index_lower_bound entry s) in
  let old := firstn (Z.to_nat (index_count s)) (index_cache s) in
  (ANX_OK, s <| index_cache := firstn pos old ++ entry :: skipn pos old |> <| index_count ::= λ n, n + 1 |>).

Definition remove_index_entry_at (pos : nat) (s : store_state) : store_state :=
  when Z.of_nat pos >=? index_count s ret s ;;
  s <| index_cache ::= λ l, firstn pos l ++ skipn (S pos) l |> <| index_count ::= λ n, n - 1 |>.

(** ** Journal *)

(** [memcpy(sector_buf + offset, entry, 48)]. *)
Definition patch (off : nat) (x l : list Z) : list Z := firstn off l ++ x ++ skipn (off + length x) l.

Definition write_journal_entry (entry : anx_journal_entry) (s : store_state) : Z * store_state :=
  let slot := ds_journal_head (super s) in
  let sect := u32 (ANX_JOURNAL_START + slot / ANX_JRNL_ENTRIES_PER_SECTOR) in
  let offset := slot mod ANX_JRNL_ENTRIES_PER_SECTOR * 64 in
  let '(e, buf) := active_read sect 1 s in
  when negb (e =? ANX_OK) ret (e, s) ;;
  let buf := patch (Z.to_nat offset) (journal_bytes entry) (concat buf) in
  try s := active_write sect [buf] s ;;
  (ANX_OK, s <| super ::= λ sb, sb <| ds_journal_head := u32 (slot + 1) mod ANX_JRNL_MAX_ENTRIES |> |>).

Definition journal_begin_write (oid : anx_uuid) (data_sector data_sectors obj_size : Z) (s : store_state)
    : Z * store_state :=
  write_journal_entry
    (JournalEntry (next_txn_id s) ANX_JRNL_WRITE_OBJ oid data_sector data_sectors obj_size) s.

Definition journal_commit (s : store_state) : Z * store_state :=
  try s := write_journal_entry (JournalEntry (next_txn_id s) ANX_JRNL_COMMIT ANX_UUID_NIL 0 0 0) s ;;
  let s := s <| super ::= λ sb, sb <| ds_journal_committed := ds_journal_head sb |> |>
             <| next_txn_id ::= λ n, u32 (n + 1) |> in
  write_super s.

(** ** Operations *)

(** [anx_strlcpy(super.label, label, 32)] into the zeroed buffer. *)
Definition label_field (label : list Z) : list Z := zero_padded 32 (firstn 31 label).
Definition default_label : list Z := [97; 110; 117; 110; 105; 120].

(** Zeroing sectors [i, i + n), stopping at the first error. *)
Fixpoint zero_sectors (n : nat) (i : Z) (s : store_state) : Z * store_state :=
  match n with
  | O => (ANX_OK, s)
  | S n => try s := active_write i [replicate 512 0] s ;; zero_sectors n (i + 1) s
  end.

(** [t1] and [t2] are the two readings of the clock. *)
Definition anx_disk_format_forced (label : option (list Z)) (t1 t2 : Z) (s : store_state) : Z * store_state :=
  when negb (bool_decide (is_Some (dev s))) ret (ANX_EIO, s) ;;
  let '(ok, s) := alloc s in
  when negb ok ret (ANX_ENOMEM, s) ;;
  try s := zero_sectors (Z.to_nat ANX_DATA_START) 0 s ;;
  let s := s <| super := DiskSuper ANX_DISK_MAGIC ANX_DISK_VERSION (active_capacity s) 0 ANX_DATA_START 0 0
                  (le 8 t1 ++ le 8 t2) (label_field (default default_label label)) (replicate 432 0) |> in
  try s := write_super s ;;
  (ANX_OK, s <| index_cache := [] |> <| index_count := 0 |> <| mounted := true |> <| next_txn_id := 1 |>).

(** [is_member] and [foreign] are the answers of [anx_blk_dev_is_member] and
    [anx_blk_probe] for the active device. *)
Definition anx_disk_format (is_member foreign : bool) (label : option (list Z)) (t1 t2 : Z) (s : store_state)
    : Z * store_state :=
  when negb (bool_decide (is_Some (dev s))) ret (ANX_EIO, s) ;;
  when is_member ret (ANX_EBUSY, s) ;;
  when foreign ret (ANX_EEXIST, s) ;;
  anx_disk_format_forced label t1 t2 s.

Definition anx_disk_recover (s : store_state) : Z * store_state :=
  load_index (s <| super ::= λ sb, sb <| ds_journal_committed := ds_journal_head sb |> |>).

Definition anx_disk_store_init (s : store_state) : Z * store_state :=
  when negb (bool_decide (is_Some (dev s))) ret (ANX_ENOENT, s) ;;
  try s := read_super s ;;
  try s := load_index s ;;
  try s := (if negb (ds_journal_head (super s) =? ds_journal_committed (super s))
            then anx_disk_recover s else (ANX_OK, s)) ;;
  let s := if negb (ds_obj_count (super s) =? index_count s)
           then (write_super (s <| super ::= λ sb, sb <| ds_obj_count := index_count s |> |>)).2 else s in
  (ANX_OK, s <| mounted := true |>).

Definition sectors_for (payload_size : Z) : Z :=
  let n := u32 (payload_size + 511) / 512 in if n =? 0 then 1 else n.

(** The intent record and the data. *)
Definition write_data (oid : anx_uuid) (payload : list Z) (data_sector sectors_needed : Z) (s : store_state)
    : Z * store_state :=
  try s := journal_begin_write oid data_sector sectors_needed (Z.of_nat (length payload)) s ;;
  let '(ok, s) := alloc s in
  when negb ok ret (ANX_ENOMEM, s) ;;
  active_write data_sector
    (to_sectors (Z.to_nat sectors_needed) (zero_padded (Z.to_nat (u32 (sectors_needed * 512))) payload)) s.

(** Enter the object into the index. *)
Definition update_index (e : anx_disk_index_entry) (s : store_state) : Z * store_state :=
  match find_index_entry (ie_oid e) s with
  | Some (i, old) =>
      if ie_boundary_key old =? ie_boundary_key e
      then (ANX_OK, s <| index_cache ::= λ l, <[i := e]> l |>)
      else add_index_entry e (remove_index_entry_at i s)
  | None =>
      try s := add_index_entry e s ;;
      (ANX_OK, s <| super ::= λ sb, sb <| ds_obj_count ::= λ n, u64 (n + 1) |> |>)
  end.

Definition anx_disk_write_obj_bk (oid : anx_uuid) (obj_type boundary_key : Z) (payload : list Z) (s : store_state)
    : Z * store_state :=
  when negb (mounted s) ret (ANX_EIO, s) ;;
  let payload_size := Z.of_nat (length payload) in
  let sectors_needed := sectors_for payload_size in
  let data_sector := ds_next_data_sector (super s) in
  when u64 (data_sector + sectors_needed) >? ds_total_sectors (super s) ret (ANX_ENOMEM, s) ;;
  try s := write_data oid payload data_sector sectors_needed s ;;
  try s := update_index (IndexEntry oid data_sector sectors_needed payload_size obj_type 1 boundary_key) s ;;
  let s := s <| super ::= λ sb, sb <| ds_next_data_sector := u64 (data_sector + sectors_needed) |> |> in
  try s := flush_index s ;;
  journal_commit s.

Definition anx_disk_write_obj (oid : anx_uuid) (obj_type : Z) (payload : list Z) (s : store_state) : Z * store_state :=
  anx_disk_write_obj_bk oid obj_type 0 payload s.

(** The result and [*bk_out]. *)
Definition anx_disk_get_boundary_key (oid : option anx_uuid) (s : store_state) : Z * option Z :=
  match oid with
  | None => (ANX_EINVAL, None)
  | Some oid =>
      when negb (mounted s) ret (ANX_EIO, None) ;;
      match find_index_entry oid s with
      | None => (ANX_ENOENT, None)
      | Some (_, e) => (ANX_OK, Some (ie_boundary_key e))
      end
  end.

(** The loop from position [i] on, [l] being the entries from there; the callback
    threads the caller's [arg]. *)
Fixpoint scan_loop {A : Type} (bk_hi : Z) (cb : anx_uuid → Z → Z → A → Z * A)
    (l : list anx_disk_index_entry) (arg : A) : Z * A :=
  match l with
  | [] => (ANX_OK, arg)
  | e :: l =>
      when ie_boundary_key e >? bk_hi ret (ANX_OK, arg) ;;
      if negb (entry_active e) then scan_loop bk_hi cb l arg
      else
        let '(r, arg) := cb (ie_oid e) (ie_boundary_key e) (ie_obj_type e) arg in
        if negb (r =? 0) then (r, arg) else scan_loop bk_hi cb l arg
  end.

Definition anx_disk_range_scan {A : Type} (bk_lo bk_hi : Z) (cb : option (anx_uuid → Z → Z → A → Z * A)) (arg : A)
    (s : store_state) : Z * A :=
  match cb with
  | None => (ANX_EINVAL, arg)
  | Some cb =>
      when negb (mounted s) ret (ANX_EIO, arg) ;;
      when bk_hi <? bk_lo ret (ANX_EINVAL, arg) ;;
      let needle := IndexEntry ANX_UUID_NIL 0 0 0 0 0 bk_lo in
      let l := firstn (Z.to_nat (index_count s)) (index_cache s) in
      scan_loop bk_hi cb (skipn (Z.to_nat (index_lower_bound needle s)) l) arg
  end.

(** The result, what is copied to [payload_buf], [*actual_size] and [*obj_type]. *)
Definition anx_disk_read_obj (oid : anx_uuid) (buf_size : Z) (s : store_state)
    : Z * option (list Z * Z * Z) * store_state :=
  when negb (mounted s) ret (ANX_EIO, None, s) ;;
  match find_index_entry oid s with
  | None => (ANX_ENOENT, None, s)
  | Some (_, e) =>
      let '(ok, s) := alloc s in
      when negb ok ret (ANX_ENOMEM, None, s) ;;
      let '(r, buf) := active_read (ie_data_sector e) (ie_data_sectors e) s in
      when negb (r =? ANX_OK) ret (r, None, s) ;;
      let copy_size := if ie_payload_size e >? buf_size then buf_size else ie_payload_size e in
      (ANX_OK, Some (firstn (Z.to_nat copy_size) (concat buf), ie_payload_size e, ie_obj_type e), s)
  end.

Definition anx_disk_delete_obj (oid : anx_uuid) (s : store_state) : Z * store_state :=
  when negb (mounted s) ret (ANX_EIO, s) ;;
  match find_index_entry oid s with
  | None => (ANX_ENOENT, s)
  | Some (i, _) =>
      let s := remove_index_entry_at i s in
      let s := if ds_obj_count (super s) >? 0
               then s <| super ::= λ sb, sb <| ds_obj_count ::= λ n, n - 1 |> |> else s in
      try s := flush_index s ;;
      write_super s
  end.

Definition anx_disk_obj_exists (oid : anx_uuid) (s : store_state) : bool :=
  when negb (mounted s) ret false ;;
  bool_decide (is_Some (find_index_entry oid s)).

Definition anx_disk_stats (s : store_state) : Z * option (Z * Z * Z) :=
  when negb (mounted s) ret (ANX_EIO, None) ;;
  (ANX_OK, Some (ds_obj_count (super s), ds_next_data_sector (super s), ds_total_sectors (super s))).
End store.
Arguments store_state D : clear implicits.
#[export] Existing Instance eta_store_state.
End Disk.
