(* ===== verification/DiskProofs.v ===== *)
(** * The on-disk object store is a map: proofs about [DiskStore.v] *)

From S2P Require Import Prelude Uuid Blk MdSuper DiskStore.
Import Disk.

(** ** Encodings *)

(** Every field within its width, and marked active. *)
Record entry_ok (e : anx_disk_index_entry) : Prop := {
  eo_oid : is_u64 (hi (ie_oid e)) ∧ is_u64 (lo (ie_oid e));
  eo_sector : is_u64 (ie_data_sector e);
  eo_u32 : is_u32 (ie_data_sectors e) ∧ is_u32 (ie_payload_size e) ∧ is_u32 (ie_obj_type e);
  eo_flags : ie_flags e = 1;
  eo_key : is_u64 (ie_boundary_key e);
}.

Lemma entry_bytes_length e : length (entry_bytes e) = 48%nat.
Proof. unfold entry_bytes. by rewrite !length_app, !le_length. Qed.

Ltac take_fields :=
  repeat first
    [ rewrite take_le_app by (change (256 ^ Z.of_nat 4) with (2 ^ 32); change (256 ^ Z.of_nat 8) with (2 ^ 64); lia)
    | rewrite take_raw_app by done ].

Lemma take_entry_bytes e l : entry_ok e → take_entry (entry_bytes e ++ l) = (e, l).
Proof.
  intros [[? ?] ? (? & ? & ?) Hf ?]. unfold is_u32, is_u64 in *. unfold take_entry, entry_bytes. rewrite <- !app_assoc.
  rewrite Hf. take_fields. destruct e as [[h o] ? ? ? ? ? ?]; cbn in *. by subst.
Qed.

(** Zero bytes decode to inactive entries. *)
Lemma take_le_zeros n k : take_le n (replicate k 0) = (0, replicate (k - n) 0).
Proof.
  unfold take_le. rewrite take_replicate, drop_replicate. f_equal.
  generalize (n `min` k)%nat. intros m. induction m as [|m IH]; [done|]. cbn. rewrite IH. lia.
Qed.

Lemma take_entries_zeros n k : List.filter entry_active (take_entries n (replicate k 0)) = [].
Proof.
  revert k. induction n as [|n IH]; intros k; [done|]. cbn [take_entries]. unfold take_entry. rewrite !take_le_zeros.
  cbn [List.filter entry_active ie_flags]. apply IH.
Qed.

Lemma take_entries_index n cache k :
  Forall entry_ok cache → (length cache ≤ n)%nat →
  List.filter entry_active (take_entries n (concat (map entry_bytes cache) ++ replicate k 0)) = cache.
Proof.
  intros Hc. revert n. induction Hc as [|e cache He _ IH]; intros n Hn; [apply take_entries_zeros|].
  destruct n as [|n]; [cbn in Hn; lia|]. cbn [map concat take_entries]. rewrite <- app_assoc, take_entry_bytes by done.
  cbn [List.filter]. assert (entry_active e = true) as -> by (unfold entry_active; by rewrite (eo_flags _ He)).
  f_equal. apply IH. cbn in Hn. lia.
Qed.

Lemma concat_sectors n l : concat (to_sectors n l) = firstn (512 * n) l.
Proof.
  revert l. induction n as [|n IH]; intros l; [by rewrite Nat.mul_0_r|]. cbn [to_sectors concat]. rewrite IH.
  replace (512 * S n)%nat with (512 + 512 * n)%nat by lia. by rewrite <- take_take_drop.
Qed.

Lemma to_sectors_length n l : length (to_sectors n l) = n.
Proof. revert l. induction n as [|n IH]; intros l; cbn; [done|]. by rewrite IH. Qed.

Lemma zero_padded_length n l : (length l ≤ n)%nat → length (zero_padded n l) = n.
Proof. intros H. unfold zero_padded. rewrite length_app, length_replicate. lia. Qed.

Lemma concat_entry_length cache : length (concat (map entry_bytes cache)) = (48 * length cache)%nat.
Proof. induction cache as [|e cache IH]; [done|]. cbn [map concat]. rewrite length_app, entry_bytes_length, IH. cbn. lia. Qed.

Definition MAXE : nat := Z.to_nat ANX_INDEX_MAX_ENTRIES.
#[local] Opaque Z.to_nat.

(** What the index region decodes to is the cache that was flushed. *)
Lemma index_roundtrip cache :
  Forall entry_ok cache → (length cache ≤ MAXE)%nat →
  List.filter entry_active (take_entries MAXE (concat (to_sectors 256 (index_bytes cache)))) = cache.
Proof.
  intros Hc Hl. rewrite concat_sectors. unfold index_bytes. fold MAXE. rewrite (take_ge cache) by done.
  change (ANX_INDEX_SECTORS * 512) with 131072. unfold MAXE in Hl. change ANX_INDEX_MAX_ENTRIES with 2304 in Hl.
  assert (length (concat (map entry_bytes cache)) ≤ Z.to_nat 131072)%nat as Hlen by (rewrite concat_entry_length; lia).
  rewrite take_ge by (rewrite zero_padded_length by exact Hlen; lia).
  by apply take_entries_index.
Qed.

(** ** Superblock *)

Record super_wf (sb : anx_disk_super) : Prop := {
  sw_magic : ds_magic sb = ANX_DISK_MAGIC;
  sw_version : ds_version sb = ANX_DISK_VERSION;
  sw_u64 : is_u64 (ds_total_sectors sb) ∧ is_u64 (ds_obj_count sb) ∧ is_u64 (ds_next_data_sector sb);
  sw_head : 0 ≤ ds_journal_head sb < ANX_JRNL_MAX_ENTRIES;
  sw_committed : 0 ≤ ds_journal_committed sb < ANX_JRNL_MAX_ENTRIES;
  sw_uuid : length (ds_uuid sb) = 16%nat;
  sw_label : length (ds_label sb) = 32%nat;
  sw_pad : length (ds_pad sb) = 432%nat;
}.

Lemma super_bytes_split sb : super_wf sb → length (ds_super_bytes sb) = 520%nat.
Proof.
  intros []. unfold ds_super_bytes. rewrite !length_app, !le_length. lia.
Qed.

(** A superblock that is written and read back is the same up to the last bytes
    of its padding. *)
Lemma super_load_bytes old sb :
  super_wf sb →
  ds_super_load old (firstn 512 (ds_super_bytes sb))
  = sb <| ds_pad := firstn 424 (ds_pad sb) ++ skipn 424 (ds_pad old) |>.
Proof.
  intros [Hm Hv (? & ? & ?) Hh Hc Hu Hl Hp]. change ANX_JRNL_MAX_ENTRIES with 2048 in Hh, Hc. unfold is_u64 in *.
  assert (firstn 512 (ds_super_bytes sb) = le 4 (ds_magic sb) ++ le 4 (ds_version sb) ++ le 8 (ds_total_sectors sb)
    ++ le 8 (ds_obj_count sb) ++ le 8 (ds_next_data_sector sb) ++ le 4 (ds_journal_head sb)
    ++ le 4 (ds_journal_committed sb) ++ ds_uuid sb ++ ds_label sb ++ firstn 424 (ds_pad sb)) as ->.
  { unfold ds_super_bytes. repeat rewrite take_app_ge by (rewrite ?le_length; lia).
    rewrite !le_length, Hu, Hl. done. }
  unfold ds_super_load. rewrite Hm, Hv. change ANX_DISK_MAGIC with 0x414E5844. change ANX_DISK_VERSION with 2. take_fields.
  destruct sb; cbn in *. by subst.
Qed.

(** ** The order of the index *)

Definition elt (a b : anx_disk_index_entry) : Prop := entry_cmp a b < 0.

Definition key (e : anx_disk_index_entry) : Z * anx_uuid := (ie_boundary_key e, ie_oid e).

Lemma elt_spec a b : elt a b ↔
  ie_boundary_key a < ie_boundary_key b ∨ ie_boundary_key a = ie_boundary_key b ∧
  (hi (ie_oid a) < hi (ie_oid b) ∨ hi (ie_oid a) = hi (ie_oid b) ∧ lo (ie_oid a) < lo (ie_oid b)).
Proof. unfold elt, entry_cmp. repeat (case_match; try lia). Qed.

Lemma elt_trans a b c : elt a b → elt b c → elt a c.
Proof. rewrite !elt_spec. lia. Qed.

Lemma elt_irrefl a : ¬ elt a a.
Proof. rewrite elt_spec. lia. Qed.

Lemma elt_total a b : ¬ elt a b → key a ≠ key b → elt b a.
Proof.
  rewrite !elt_spec. unfold key. destruct (ie_oid a) as [h o], (ie_oid b) as [h' o']; cbn. intros H Hne.
  destruct (decide (ie_boundary_key a = ie_boundary_key b)), (decide (h = h')), (decide (o = o')); subst; try lia.
  by destruct Hne; f_equal.
Qed.

(** Only the key of an entry counts. *)
Lemma elt_key a a' b b' : key a = key a' → key b = key b' → elt a b → elt a' b'.
Proof. unfold key. intros [= E1 E2] [= E3 E4]. rewrite !elt_spec. by rewrite E1, E2, E3, E4. Qed.

Definition sorted (l : list anx_disk_index_entry) : Prop := ∀ i j a b, (i < j)%nat → l !! i = Some a → l !! j = Some b → elt a b.

(** The binary search ends at the first entry that is not below the target. *)
Lemma bound_loop_spec fuel l t x y :
  sorted l → 0 ≤ x ≤ y → y ≤ Z.of_nat (length l) → y - x < Z.of_nat fuel →
  (∀ i e, Z.of_nat i < x → l !! i = Some e → elt e t) → (∀ i e, y ≤ Z.of_nat i → l !! i = Some e → ¬ elt e t) →
  let p := bound_loop fuel l t x y in
  x ≤ p ≤ y ∧ (∀ i e, Z.of_nat i < p → l !! i = Some e → elt e t) ∧ (∀ i e, p ≤ Z.of_nat i → l !! i = Some e → ¬ elt e t).
Proof.
  intros Hs. revert x y. induction fuel as [|fuel IH]; intros x y Hxy Hy Hf Hlo Hhi; [lia|]. cbn [bound_loop].
  destruct (Z.ltb_spec x y); [|split; [lia|split; [done|]]; intros i e Hi; apply Hhi; lia].
  set (mid := x + (y - x) / 2). assert (x ≤ mid < y) by (unfold mid; Z.to_euclidean_division_equations; lia).
  destruct (lookup_lt_is_Some_2 l (Z.to_nat mid) ltac:(lia)) as [m Hm].
  assert (rd null_entry l mid = m) as -> by (unfold rd; by rewrite nth_lookup, Hm).
  destruct (Z.ltb_spec (entry_cmp m t) 0) as [Hlt|Hge].
  - destruct (IH (mid + 1) y) as (H1 & H2 & H3); [lia|lia|lia| |done|split; [lia|by split]].
    intros i e Hi He. destruct (decide (i = Z.to_nat mid)) as [->|]; [by simplify_eq|].
    eapply elt_trans; [eapply (Hs i (Z.to_nat mid)); eauto; lia|done].
  - destruct (IH x mid) as (H1 & H2 & H3); [lia|lia|lia|done| |split; [lia|by split]].
    intros i e Hi He Hc. destruct (decide (i = Z.to_nat mid)) as [->|]; [simplify_eq; unfold elt in Hc; lia|].
    assert (elt m e) by (eapply (Hs (Z.to_nat mid) i); eauto; lia).
    assert (elt m t) as Hmt by (by eapply elt_trans). unfold elt in Hmt. lia.
Qed.

Lemma sorted_insert l e p :
  sorted l → (∀ x, x ∈ l → key x ≠ key e) → (p ≤ length l)%nat →
  (∀ i x, (i < p)%nat → l !! i = Some x → elt x e) → (∀ i x, (p ≤ i)%nat → l !! i = Some x → ¬ elt x e) →
  sorted (firstn p l ++ e :: skipn p l).
Proof.
  intros Hs Hne Hp Hlo Hhi i j a b Hij Ha Hb.
  assert (length (take p l) = p) as Hlen by (rewrite length_take; lia).
  assert (∀ k x, (take p l ++ e :: drop p l) !! k = Some x →
    (k < p)%nat ∧ l !! k = Some x ∨ k = p ∧ x = e ∨ (p < k)%nat ∧ l !! (k - 1)%nat = Some x) as Hk.
  { intros k x Hx. destruct (decide (k < p)%nat).
    - left. rewrite lookup_app_l in Hx by lia. rewrite lookup_take_lt in Hx by lia. done.
    - rewrite lookup_app_r in Hx by lia. rewrite Hlen in Hx. destruct (k - p)%nat as [|q] eqn:Eq.
      + injection Hx as <-. right; left. split; [lia|done].
      + right; right. split; [lia|]. change (drop p l !! q = Some x) in Hx. rewrite lookup_drop in Hx. rewrite <- Hx. f_equal. lia. }
  assert (∀ k x, (p ≤ k)%nat → l !! k = Some x → elt e x) as Hup.
  { intros k x Hkp Hx. apply elt_total; [by apply (Hhi k)|]. apply Hne. by eapply list_elem_of_lookup_2. }
  destruct (Hk i a Ha) as [[? Ha']|[[-> ->]|[? Ha']]], (Hk j b Hb) as [[? Hb']|[[-> ->]|[? Hb']]]; try lia.
  - by eapply (Hs i j).
  - by eapply Hlo.
  - eapply (Hs i (j - 1)%nat); eauto. lia.
  - eapply Hup; [|exact Hb']. lia.
  - eapply (Hs (i - 1)%nat (j - 1)%nat); eauto. lia.
Qed.

Lemma sorted_delete l p : sorted l → sorted (firstn p l ++ skipn (S p) l).
Proof.
  intros Hs i j a b Hij Ha Hb. destruct (decide (p < length l)%nat) as [Hp|].
  2: { rewrite take_ge, drop_ge, app_nil_r in * by lia. by eapply Hs. }
  assert (length (take p l) = p) as Hlen by (rewrite length_take; lia).
  assert (∀ k x, (take p l ++ drop (S p) l) !! k = Some x →
    (k < p)%nat ∧ l !! k = Some x ∨ (p ≤ k)%nat ∧ l !! S k = Some x) as Hk.
  { intros k x Hx. destruct (decide (k < p)%nat).
    - left. rewrite lookup_app_l, lookup_take_lt in Hx by lia. done.
    - right. rewrite lookup_app_r, lookup_drop in Hx by lia. split; [lia|]. rewrite <- Hx. f_equal. lia. }
  destruct (Hk i a Ha) as [[? Ha']|[? Ha']], (Hk j b Hb) as [[? Hb']|[? Hb']]; try lia;
    (eapply Hs; [|exact Ha'|exact Hb']; lia).
Qed.

Lemma sorted_update l i e old : sorted l → l !! i = Some old → key e = key old → sorted (<[i := e]> l).
Proof.
  intros Hs Hi Hk a b x y Hab Hx Hy.
  assert (∀ k z, <[i := e]> l !! k = Some z → ∃ z', l !! k = Some z' ∧ key z' = key z) as Hz.
  { intros k z Hz. apply list_lookup_insert_Some in Hz as [(-> & <- & _)|[_ Hz]]; eauto. }
  destruct (Hz a x Hx) as (x' & Hx' & Ex), (Hz b y Hy) as (y' & Hy' & Ey). eapply elt_key; [exact Ex|exact Ey|by eapply (Hs a b)].
Qed.

(** ** The cached index *)

Record cache_ok (l : list anx_disk_index_entry) : Prop := {
  co_sorted : sorted l;
  co_oids : NoDup (ie_oid <$> l);
  co_entries : Forall entry_ok l;
  co_length : (length l ≤ MAXE)%nat;
}.

Lemma oid_is_spec oid e : oid_is oid e = true ↔ ie_oid e = oid.
Proof. unfold oid_is. destruct (ie_oid e) as [h o], oid as [h' o']; cbn. split; [|intros [= -> ->]; lia]. intros H. f_equal; lia. Qed.

Lemma find_pos_Some oid l i : find_pos oid l = Some i → ∃ e, l !! i = Some e ∧ ie_oid e = oid.
Proof.
  revert i. induction l as [|e l IH]; intros i; cbn [find_pos]; [done|]. destruct (oid_is oid e) eqn:E.
  - intros [= <-]. exists e. split; [done|]. by apply oid_is_spec.
  - intros (j & Hj & ->)%fmap_Some. by apply IH.
Qed.

Lemma find_pos_None oid l : find_pos oid l = None → ∀ e, e ∈ l → ie_oid e ≠ oid.
Proof.
  induction l as [|e l IH]; cbn [find_pos]; intros H x Hx; [by apply not_elem_of_nil in Hx|].
  destruct (oid_is oid e) eqn:E; [done|]. apply fmap_None in H. apply elem_of_cons in Hx as [->|Hx]; [|by apply IH].
  intros Heq. apply oid_is_spec in Heq. congruence.
Qed.

(** An object has at most one entry. *)
Lemma oid_inj l a b : NoDup (ie_oid <$> l) → a ∈ l → b ∈ l → ie_oid a = ie_oid b → a = b.
Proof.
  intros Hnd [i Ha]%list_elem_of_lookup_1 [j Hb]%list_elem_of_lookup_1 Heq.
  assert (i = j) as ->; [|congruence].
  eapply (NoDup_lookup _ i j); [exact Hnd| |]; rewrite list_lookup_fmap; [by rewrite Ha|by rewrite Hb, Heq].
Qed.

(** What replaces the entry of an object: all others stay. *)
Definition replaced (l : list anx_disk_index_entry) (e : anx_disk_index_entry) (l' : list anx_disk_index_entry) : Prop :=
  ∀ x, x ∈ l' ↔ x = e ∨ x ∈ l ∧ ie_oid x ≠ ie_oid e.

Definition removed (l : list anx_disk_index_entry) (oid : anx_uuid) (l' : list anx_disk_index_entry) : Prop :=
  ∀ x, x ∈ l' ↔ x ∈ l ∧ ie_oid x ≠ oid.

Lemma delete_entry l i e : cache_ok l → l !! i = Some e →
  cache_ok (firstn i l ++ skipn (S i) l) ∧ removed l (ie_oid e) (firstn i l ++ skipn (S i) l) ∧
  S (length (firstn i l ++ skipn (S i) l)) = length l.
Proof.
  intros [Hs Hnd Hok Hlen] Hi. pose proof (lookup_lt_Some _ _ _ Hi).
  pose proof (take_drop_middle l i e Hi) as Hl.
  assert (S (length (take i l ++ drop (S i) l)) = length l) as HL.
  { rewrite <- Hl at 3. rewrite !length_app. cbn. lia. }
  rewrite <- Hl in Hnd, Hok. rewrite fmap_app, fmap_cons in Hnd.
  apply NoDup_app in Hnd as (Hn1 & Hn2 & Hn3). apply NoDup_cons in Hn3 as [Hn3 Hn4].
  apply Forall_app in Hok as [Hok1 Hok2]. apply Forall_cons in Hok2 as [_ Hok2].
  split_and!; [constructor| |done].
  - by apply sorted_delete.
  - rewrite fmap_app. apply NoDup_app. split_and!; [done| |done]. intros x Hx Hx'. apply (Hn2 x Hx). by right.
  - by apply Forall_app.
  - lia.
  - intros x. rewrite <- Hl at 3. rewrite !elem_of_app, elem_of_cons. split.
    + intros [Hx|Hx]; (split; [auto|]); intros Heq.
      * apply (Hn2 (ie_oid x)); [by apply list_elem_of_fmap_2|]. rewrite Heq. by left.
      * apply Hn3. rewrite <- Heq. by apply list_elem_of_fmap_2.
    + intros [[?|[->|?]] ?]; auto; done.
Qed.

Lemma insert_entry_at l e p :
  cache_ok l → entry_ok e → (∀ x, x ∈ l → ie_oid x ≠ ie_oid e) → (length l < MAXE)%nat → (p ≤ length l)%nat →
  (∀ i x, (i < p)%nat → l !! i = Some x → elt x e) → (∀ i x, (p ≤ i)%nat → l !! i = Some x → ¬ elt x e) →
  cache_ok (firstn p l ++ e :: skipn p l) ∧ replaced l e (firstn p l ++ e :: skipn p l) ∧
  length (firstn p l ++ e :: skipn p l) = S (length l).
Proof.
  intros [Hs Hnd Hok Hlen] He Hne Hfull Hp Hlo Hhi. pose proof (take_drop p l) as Hl.
  assert (length (take p l ++ e :: drop p l) = S (length l)) as HL.
  { rewrite <- Hl at 3. rewrite !length_app. cbn. lia. }
  split_and!; [constructor| |done].
  - apply sorted_insert; [done| |done|done|done]. intros x Hx [= _ E]. by apply (Hne x).
  - rewrite fmap_app, fmap_cons. apply (NoDup_Permutation_proper _ (ie_oid <$> e :: l)).
    + rewrite fmap_cons. rewrite <- Hl at 3. rewrite fmap_app. symmetry. apply Permutation_middle.
    + rewrite fmap_cons. apply NoDup_cons. split; [|done]. intros (x & Hx & Hx')%list_elem_of_fmap. by apply (Hne x).
  - rewrite <- Hl in Hok. apply Forall_app in Hok as [? ?]. apply Forall_app. split; [done|]. by constructor.
  - lia.
  - intros x. rewrite elem_of_app, elem_of_cons. split.
    + intros [Hx|[->|Hx]]; [right|by left|right]; (split; [|apply Hne]); rewrite <- Hl; apply elem_of_app; auto.
    + intros [->|[Hx _]]; [auto|]. rewrite <- Hl in Hx. apply elem_of_app in Hx as [?|?]; auto.
Qed.

Lemma update_entry_at l e i old :
  cache_ok l → entry_ok e → l !! i = Some old → key e = key old →
  cache_ok (<[i := e]> l) ∧ replaced l e (<[i := e]> l).
Proof.
  intros [Hs Hnd Hok Hlen] He Hi Hk. pose proof (lookup_lt_Some _ _ _ Hi) as Hlt. injection Hk as Hbk Hoid.
  assert (ie_oid <$> <[i := e]> l = ie_oid <$> l) as Hfmap.
  { rewrite list_fmap_insert, Hoid. apply list_insert_id. by rewrite list_lookup_fmap, Hi. }
  split; [constructor|].
  - eapply sorted_update; [done|exact Hi|]. unfold key. by rewrite Hbk, Hoid.
  - by rewrite Hfmap.
  - by apply Forall_insert.
  - by rewrite length_insert.
  - intros x. split.
    + intros [j Hj]%list_elem_of_lookup_1. apply list_lookup_insert_Some in Hj as [(-> & <- & _)|[Hne Hj]]; [by left|right].
      split; [by eapply list_elem_of_lookup_2|]. intros Heq. apply Hne. symmetry.
      eapply (NoDup_lookup _ j i); [exact Hnd| |]; rewrite list_lookup_fmap; [by rewrite Hj|by rewrite Hi, Heq, Hoid].
    + intros [->|[Hx Hne]].
      * eapply list_elem_of_lookup_2. by apply list_lookup_insert_eq.
      * apply list_elem_of_lookup_1 in Hx as [j Hj]. apply (list_elem_of_lookup_2 _ j). rewrite list_lookup_insert_ne; [done|].
        intros ->. apply Hne. congruence.
Qed.

Section proofs.
Context {D : Type} `{!BlkDriver D}.
Implicit Types (s : store_state D).

(** The cache is consistent and memory does not run out. *)
Record index_ok s : Prop := {
  io_cache : cache_ok (index_cache s);
  io_count : index_count s = Z.of_nat (length (index_cache s));
  io_mem : mem_ok s = [];
}.

Lemma alloc_ok s : mem_ok s = [] → alloc s = (true, s).
Proof. intros H. unfold alloc. by rewrite H. Qed.

Lemma firstn_count s : index_count s = Z.of_nat (length (index_cache s)) →
  firstn (Z.to_nat (index_count s)) (index_cache s) = index_cache s.
Proof. intros ->. rewrite Nat2Z.id. by apply take_ge. Qed.

Lemma find_entry_spec s oid : index_ok s →
  match find_index_entry oid s with
  | Some (i, e) => index_cache s !! i = Some e ∧ ie_oid e = oid
  | None => ∀ e, e ∈ index_cache s → ie_oid e ≠ oid
  end.
Proof.
  intros [Hc Hn _]. unfold find_index_entry. rewrite firstn_count by done.
  destruct (find_pos oid (index_cache s)) as [i|] eqn:E; cbn.
  - apply find_pos_Some in E as (e & Hi & Hoid). rewrite Hi. cbn. done.
  - by apply find_pos_None.
Qed.

Lemma lower_bound_spec s t : index_ok s →
  let p := index_lower_bound t s in
  0 ≤ p ≤ Z.of_nat (length (index_cache s)) ∧
  (∀ i e, (i < Z.to_nat p)%nat → index_cache s !! i = Some e → elt e t) ∧
  (∀ i e, (Z.to_nat p ≤ i)%nat → index_cache s !! i = Some e → ¬ elt e t).
Proof.
  intros [Hc Hn _]. cbv zeta. unfold index_lower_bound. rewrite Hn.
  destruct (bound_loop_spec (S (Z.to_nat (Z.of_nat (length (index_cache s))))) (index_cache s) t 0
    (Z.of_nat (length (index_cache s)))) as (H1 & H2 & H3); [by apply co_sorted|lia|lia|lia|intros; lia| |].
  { intros i e Hi He. apply lookup_lt_Some in He. lia. }
  split; [done|]. split; intros i e Hi; [apply H2|apply H3]; lia.
Qed.

Lemma add_entry_spec s e : index_ok s → entry_ok e → (∀ x, x ∈ index_cache s → ie_oid x ≠ ie_oid e) →
  (length (index_cache s) < MAXE)%nat →
  ∃ c, add_index_entry e s = (ANX_OK, s <| index_cache := c |> <| index_count := Z.of_nat (length c) |>) ∧
    cache_ok c ∧ replaced (index_cache s) e c ∧ length c = S (length (index_cache s)).
Proof.
  intros Hok He Hne Hlen. destruct (lower_bound_spec s e Hok) as (Hp & Hlo & Hhi).
  destruct Hok as [Hc Hn Hm]. unfold add_index_entry. unfold MAXE in Hlen.
  destruct (Z.geb_spec (index_count s) ANX_INDEX_MAX_ENTRIES) as [?|_]; [lia|]. rewrite alloc_ok by done. cbn [negb].
  rewrite firstn_count by done.
  destruct (insert_entry_at (index_cache s) e (Z.to_nat (index_lower_bound e s)) Hc He Hne ltac:(unfold MAXE; lia) ltac:(lia) Hlo Hhi)
    as (H1 & H2 & H3).
  eexists. split_and!; [|exact H1|exact H2|exact H3]. rewrite H3. f_equal. destruct s. cbn in *. f_equal. lia.
Qed.

Lemma remove_entry_spec s i e : index_ok s → index_cache s !! i = Some e →
  ∃ c, remove_index_entry_at i s = s <| index_cache := c |> <| index_count := Z.of_nat (length c) |> ∧
    cache_ok c ∧ removed (index_cache s) (ie_oid e) c ∧ S (length c) = length (index_cache s).
Proof.
  intros [Hc Hn Hm] Hi. pose proof (lookup_lt_Some _ _ _ Hi). destruct (delete_entry _ _ _ Hc Hi) as (H1 & H2 & H3).
  unfold remove_index_entry_at. destruct (Z.geb_spec (Z.of_nat i) (index_count s)); [lia|].
  eexists. split_and!; [|exact H1|exact H2|exact H3]. destruct s. cbn in *. f_equal. lia.
Qed.

(** The superblock with its object count set. *)
Definition with_count (sb : anx_disk_super) (n : Z) : anx_disk_super := sb <| ds_obj_count := n |>.

Lemma with_count_id sb : with_count sb (ds_obj_count sb) = sb.
Proof. by destruct sb. Qed.

Lemma store_count_id s c : ds_obj_count (super s) = index_count s →
  (ANX_OK, s <| index_cache := c |>) = (ANX_OK, s <| index_cache := c |> <| index_count := ds_obj_count (super s) |>
    <| super ::= λ sb, with_count sb (ds_obj_count (super s)) |>).
Proof. destruct s as [? sb ? ? ? ? ?]. cbn. intros <-. by destruct sb. Qed.

Lemma update_index_spec s e : index_ok s → entry_ok e → ds_obj_count (super s) = index_count s →
  (∃ c, update_index e s = (ANX_OK, s <| index_cache := c |> <| index_count := Z.of_nat (length c) |>
                              <| super ::= λ sb, with_count sb (Z.of_nat (length c)) |>) ∧
     cache_ok c ∧ replaced (index_cache s) e c) ∨
  (update_index e s = (ANX_ENOMEM, s) ∧ length (index_cache s) = MAXE ∧ ∀ x, x ∈ index_cache s → ie_oid x ≠ ie_oid e).
Proof.
  intros Hok He Hcnt. pose proof (find_entry_spec s (ie_oid e) Hok) as Hf. unfold update_index.
  destruct (find_index_entry (ie_oid e) s) as [[i old]|].
  - left. destruct Hf as [Hi Hoid]. destruct (Z.eqb_spec (ie_boundary_key old) (ie_boundary_key e)) as [Hbk|Hbk].
    + destruct (update_entry_at (index_cache s) e i old) as [H1 H2]; [apply Hok|done|done|unfold key; by rewrite Hbk, Hoid|].
      exists (<[i := e]> (index_cache s)). split_and!; [|done|done]. rewrite length_insert, <- (io_count _ Hok), <- Hcnt.
      by apply store_count_id.
    + destruct (remove_entry_spec s i old Hok Hi) as (c0 & -> & Hc0 & Hrem & Hlen0).
      set (s0 := s <| index_cache := c0 |> <| index_count := Z.of_nat (length c0) |>).
      assert (index_ok s0) as Hok0 by (constructor; [done|done|apply Hok]).
      pose proof (co_length _ (io_cache _ Hok)).
      destruct (add_entry_spec s0 e Hok0 He) as (c & -> & Hc & Hrep & Hlen).
      { intros x Hx. apply Hrem in Hx as [_ Hx]. by rewrite <- Hoid. }
      { change (index_cache s0) with c0. lia. }
      change (index_cache s0) with c0 in *. exists c. split_and!; [|done|].
      * assert (length c = length (index_cache s)) as -> by lia. rewrite <- (io_count _ Hok), <- Hcnt.
        rewrite <- (store_count_id s c Hcnt). unfold s0. rewrite Hcnt. by destruct s.
      * intros x. rewrite (Hrep x), (Hrem x), Hoid. naive_solver.
  - destruct (decide (length (index_cache s) < MAXE)%nat) as [Hlt|Hge].
    + left. destruct (add_entry_spec s e Hok He Hf Hlt) as (c & -> & Hc & Hrep & Hlen). cbn [negb Z.eqb].
      exists c. split_and!; [|done|done].
      assert (u64 (ds_obj_count (super s) + 1) = Z.of_nat (length c)) as Hu.
      { rewrite Hcnt, (io_count _ Hok), Hlen. unfold MAXE in Hlt. change ANX_INDEX_MAX_ENTRIES with 2304 in Hlt.
        rewrite u64_small by (unfold is_u64; lia). lia. }
      destruct s as [? sb ? ? ? ? ?]. cbn in *. rewrite Hu. done.
    + right. pose proof (co_length _ (io_cache _ Hok)). unfold add_index_entry. rewrite (io_count _ Hok). unfold MAXE in *.
      destruct (Z.geb_spec (Z.of_nat (length (index_cache s))) ANX_INDEX_MAX_ENTRIES); [|lia].
      split_and!; [done|lia|done].
Qed.
End proofs.
