(* ===== verification/DiskRefine.v ===== *)
(** * The on-disk object store refines a finite map

    [DiskStore.v] against the device interface: what the superblock, the index
    region and the data region hold, that every operation keeps it, and that
    format, write, read, delete and remount act like operations of a map. *)

From S2P Require Import Prelude Uuid Blk MdSuper DiskStore DiskProofs.
Import Disk.
#[local] Opaque Z.to_nat.

(** ** Devices that answer *)

(** A drive in working order serves every request within its capacity. *)
Class BlkReliable (D : Type) `{BlkDriverLaws D} := {
  works : D → Prop;
  works_read : ∀ d lba n, works d → 0 ≤ lba → 0 ≤ n → lba + n ≤ drv_capacity d → (drv_read d lba n).1 = ANX_OK;
  works_write : ∀ d lba buf, works d → 0 ≤ lba → lba + Z.of_nat (length buf) ≤ drv_capacity d →
    (drv_write d lba buf).1 = ANX_OK ∧ works (drv_write d lba buf).2;
}.

#[export] Instance mem_reliable : BlkReliable mem_disk.
Proof.
  assert (∀ d lba n, md_working d = true → 0 ≤ lba → lba + n ≤ md_cap d → mem_in_range d lba n = true) as Hr.
  { intros d lba n Hw ? ?. unfold mem_in_range. rewrite Hw. cbn. lia. }
  refine {| works d := md_working d = true |}.
  - intros d lba n Hw ? ? ?. cbn [drv_read mem_driver]. by rewrite Hr.
  - intros d lba buf Hw ? ?. cbn [drv_write mem_driver]. by rewrite Hr.
Defined.

Section device.
Context {D : Type} {BD : BlkDriver D} {BL : BlkDriverLaws D} {BR : BlkReliable D}.
Implicit Types (d : D) (s : store_state D).

(** [buf] is what the device holds from sector [lba] on. *)
Record holds d (lba : Z) (buf : list sector) : Prop := Holds {
  holds_eq : contents d <$> seqZ lba (Z.of_nat (length buf)) = buf;
}.

(** [d'] differs from [d] at most outside [P]. *)
Definition agree (P : Z → Prop) d d' : Prop := drv_capacity d' = drv_capacity d ∧ ∀ i, P i → contents d' i = contents d i.

Lemma agree_trans P d1 d2 d3 : agree P d1 d2 → agree P d2 d3 → agree P d1 d3.
Proof. intros [Hc H1] [Hc' H2]. split; [congruence|]. intros i Hi. by rewrite H2, H1. Qed.

Lemma agree_weaken (P Q : Z → Prop) d d' : (∀ i, Q i → P i) → agree P d d' → agree Q d d'.
Proof. intros HPQ [Hc H1]. split; [done|]. eauto. Qed.

Lemma holds_agree P d d' lba buf :
  agree P d d' → (∀ i, lba ≤ i < lba + Z.of_nat (length buf) → P i) → holds d lba buf → holds d' lba buf.
Proof.
  intros [_ Ha] HP [Hh]. constructor. rewrite <- Hh at 2. apply list_fmap_ext. intros i x Hx.
  apply lookup_seqZ in Hx as [-> Hi]. apply Ha, HP. lia.
Qed.

Lemma holds_lookup d lba buf k x : holds d lba buf → buf !! k = Some x → contents d (lba + Z.of_nat k) = x.
Proof.
  intros [Hh] Hx. pose proof (lookup_lt_Some _ _ _ Hx). rewrite <- Hh, list_lookup_fmap, lookup_seqZ_lt in Hx by lia. by injection Hx.
Qed.

Lemma holds_intro d lba buf : (∀ k x, buf !! k = Some x → contents d (lba + Z.of_nat k) = x) → holds d lba buf.
Proof.
  intros Hx. constructor. apply list_eq. intros k. destruct (buf !! k) as [x|] eqn:E.
  - pose proof (lookup_lt_Some _ _ _ E). rewrite list_lookup_fmap, lookup_seqZ_lt by lia. cbn. by rewrite (Hx k x).
  - apply lookup_ge_None in E. apply lookup_ge_None. rewrite length_fmap, length_seqZ. lia.
Qed.

Definition outside (a n : Z) (i : Z) : Prop := ¬ (a ≤ i < a + n).

Lemma drv_write_agree d lba buf : 0 ≤ lba → lba + Z.of_nat (length buf) ≤ drv_capacity d →
  agree (outside lba (Z.of_nat (length buf))) d (drv_write d lba buf).2.
Proof.
  intros H0 H1. destruct (drv_write d lba buf) as [r d'] eqn:E. split; [by eapply law_capacity|].
  by eapply law_write.
Qed.

Lemma drv_write_holds d lba buf : works d → 0 ≤ lba → lba + Z.of_nat (length buf) ≤ drv_capacity d →
  holds (drv_write d lba buf).2 lba buf.
Proof.
  intros Hw H0 H1. destruct (works_write d lba buf Hw H0 H1) as [Hok _].
  destruct (drv_write d lba buf) as [r d'] eqn:E. cbn in Hok. subst r.
  destruct (law_write _ _ _ _ _ H0 H1 E) as [_ Hin]. apply holds_intro. intros k x Hx.
  pose proof (lookup_lt_Some _ _ _ Hx). specialize (Hin eq_refl (lba + Z.of_nat k) ltac:(lia)).
  replace (Z.to_nat (lba + Z.of_nat k - lba)) with k in Hin by lia. cbn. congruence.
Qed.

Lemma blk_read_ok s d lba n : dev s = Some d → works d → 0 ≤ lba → 0 ≤ n → lba + n ≤ drv_capacity d →
  active_read lba n s = (ANX_OK, contents d <$> seqZ lba n).
Proof.
  intros Hd Hw H0 Hn H1. unfold active_read. rewrite Hd. pose proof (works_read d lba n Hw H0 Hn H1) as Hok.
  destruct (drv_read d lba n) as [r buf] eqn:E. cbn in Hok. subst r. f_equal. by apply (law_read d lba n).
Qed.

Lemma blk_read_holds s d lba buf : dev s = Some d → works d → holds d lba buf → 0 ≤ lba →
  lba + Z.of_nat (length buf) ≤ drv_capacity d → active_read lba (Z.of_nat (length buf)) s = (ANX_OK, buf).
Proof. intros Hd Hw Hh H0 H1. rewrite (blk_read_ok s d) by (done || lia). by rewrite (holds_eq _ _ _ Hh). Qed.

(** Whatever a write answers, only its sectors change; a working drive takes it. *)
Lemma blk_write_spec s d lba buf : dev s = Some d → 0 ≤ lba → lba + Z.of_nat (length buf) ≤ drv_capacity d →
  ∃ r d', active_write lba buf s = (r, s <| dev := Some d' |>) ∧
    agree (outside lba (Z.of_nat (length buf))) d d' ∧ (works d → r = ANX_OK ∧ works d' ∧ holds d' lba buf).
Proof.
  intros Hd H0 H1. exists (drv_write d lba buf).1, (drv_write d lba buf).2. split_and!.
  - unfold active_write. rewrite Hd. by destruct (drv_write d lba buf).
  - by apply drv_write_agree.
  - intros Hw. destruct (works_write d lba buf Hw H0 H1). split_and!; [done|done|by apply drv_write_holds].
Qed.
End device.

(** ** Journal and data writes *)

Section writes.
Context {D : Type} {BD : BlkDriver D} {BL : BlkDriverLaws D} {BR : BlkReliable D}.
Implicit Types (d : D) (s : store_state D).

Definition head_ok (h : Z) : Prop := 0 ≤ h < ANX_JRNL_MAX_ENTRIES.

Definition with_head (sb : anx_disk_super) (h : Z) : anx_disk_super := sb <| ds_journal_head := h |>.

Lemma with_head_id sb : with_head sb (ds_journal_head sb) = sb.
Proof. by destruct sb. Qed.

(** A journal record stays within the journal region. *)
Lemma journal_entry_spec s d e : dev s = Some d → ANX_DATA_START ≤ drv_capacity d → head_ok (ds_journal_head (super s)) →
  ∃ r d' h, write_journal_entry e s = (r, s <| dev := Some d' |> <| super ::= λ sb, with_head sb h |>) ∧
    agree (outside ANX_JOURNAL_START ANX_JOURNAL_SECTORS) d d' ∧ head_ok h ∧ (works d → r = ANX_OK ∧ works d').
Proof.
  unfold head_ok. change ANX_JRNL_MAX_ENTRIES with 2048. change ANX_DATA_START with 513. intros Hd Hcap Hh.
  unfold write_journal_entry. change ANX_JRNL_ENTRIES_PER_SECTOR with 8.
  set (h := ds_journal_head (super s)) in *. set (sect := u32 (ANX_JOURNAL_START + h / 8)).
  assert (1 ≤ sect < 257) as Hsect.
  { unfold sect. change ANX_JOURNAL_START with 1. rewrite u32_small; unfold is_u32; Z.to_euclidean_division_equations; lia. }
  assert (∀ d', s <| dev := Some d' |> = s <| dev := Some d' |> <| super ::= λ sb, with_head sb h |>) as Hid.
  { intros d'. destruct s as [? [] ? ? ? ? ?]. done. }
  destruct (active_read sect 1 s) as [r buf] eqn:Er. destruct (Z.eqb_spec r ANX_OK) as [->|Hr]; cbn [negb].
  - destruct (blk_write_spec s d sect [patch (Z.to_nat (h mod 8 * 64)) (journal_bytes e) (concat buf)] Hd ltac:(lia)
      ltac:(cbn [length]; lia)) as (r & d' & -> & Ha & Hw).
    assert (agree (outside ANX_JOURNAL_START ANX_JOURNAL_SECTORS) d d') as Ha'.
    { eapply agree_weaken; [|exact Ha]. unfold outside. cbn [length]. change ANX_JOURNAL_START with 1. change ANX_JOURNAL_SECTORS with 256. lia. }
    destruct (Z.eqb_spec r ANX_OK) as [->|Hr]; cbn [negb].
    + eexists _, d', _. split; [reflexivity|]. split; [done|]. split; [apply Z.mod_pos_bound; lia|]. intros HW. by destruct (Hw HW) as (_ & ? & _).
    + exists r, d', h. rewrite <- Hid. split; [done|]. split; [done|]. split; [lia|]. intros HW. by destruct (Hw HW).
  - exists r, d, h. rewrite <- Hid. split; [by destruct s; cbn in *; subst|]. split; [done|]. split; [lia|]. intros Hw.
    rewrite (blk_read_ok s d) in Er by (done || lia). congruence.
Qed.

Lemma sectors_for_spec n : 0 ≤ n ≤ 2 ^ 32 - 512 →
  1 ≤ sectors_for n ≤ 8388607 ∧ n ≤ 512 * sectors_for n ∧ u32 (sectors_for n * 512) = 512 * sectors_for n.
Proof.
  intros Hn. unfold sectors_for. rewrite (u32_small (n + 511)) by (unfold is_u32; lia).
  assert (∀ k, 1 ≤ k ≤ 8388607 → u32 (k * 512) = 512 * k) as Hu by (intros k Hk; rewrite u32_small; unfold is_u32; lia).
  destruct (Z.eqb_spec ((n + 511) / 512) 0); (split; [|split; [|apply Hu]]); Z.to_euclidean_division_equations; lia.
Qed.

(** The sectors of a payload. *)
Definition object_sectors (data : list Z) : list sector :=
  let n := sectors_for (Z.of_nat (length data)) in to_sectors (Z.to_nat n) (zero_padded (Z.to_nat (u32 (n * 512))) data).

Definition payload_ok (data : list Z) : Prop := Z.of_nat (length data) ≤ 2 ^ 32 - 512.

Lemma object_sectors_length data : payload_ok data →
  Z.of_nat (length (object_sectors data)) = sectors_for (Z.of_nat (length data)).
Proof. intros Hp. unfold object_sectors. rewrite to_sectors_length. pose proof (sectors_for_spec (Z.of_nat (length data))). unfold payload_ok in Hp. lia. Qed.

Lemma object_sectors_concat data : payload_ok data → ∃ z, concat (object_sectors data) = data ++ z.
Proof.
  intros Hp. unfold payload_ok in Hp. destruct (sectors_for_spec (Z.of_nat (length data)) ltac:(lia)) as (H1 & H2 & H3).
  unfold object_sectors. rewrite concat_sectors, H3. rewrite take_ge by (rewrite zero_padded_length; lia). unfold zero_padded. eauto.
Qed.

(** The intent record and the data touch the journal and the new sectors only. *)
Lemma write_data_spec s d oid data sect : dev s = Some d → mem_ok s = [] → head_ok (ds_journal_head (super s)) →
  payload_ok data → let n := sectors_for (Z.of_nat (length data)) in
  ANX_DATA_START ≤ sect → sect + n ≤ drv_capacity d →
  ∃ r d' h, write_data oid data sect n s = (r, s <| dev := Some d' |> <| super ::= λ sb, with_head sb h |>) ∧
    agree (λ i, outside ANX_JOURNAL_START ANX_JOURNAL_SECTORS i ∧ outside sect n i) d d' ∧ head_ok h ∧
    (works d → r = ANX_OK ∧ works d' ∧ holds d' sect (object_sectors data)).
Proof.
  intros Hd Hm Hh Hp n Hs1 Hs2. pose proof (sectors_for_spec (Z.of_nat (length data)) ltac:(unfold payload_ok in Hp; lia)) as Hn. fold n in Hn.
  unfold write_data, journal_begin_write.
  destruct (journal_entry_spec s d (JournalEntry (next_txn_id s) ANX_JRNL_WRITE_OBJ oid sect n (Z.of_nat (length data))) Hd ltac:(lia) Hh)
    as (r & d1 & h & -> & Ha1 & Hh1 & Hw1).
  assert (agree (λ i, outside ANX_JOURNAL_START ANX_JOURNAL_SECTORS i ∧ outside sect n i) d d1) as Ha1'
    by (eapply agree_weaken; [|exact Ha1]; naive_solver).
  destruct (Z.eqb_spec r ANX_OK) as [->|Hr]; cbn [negb].
  2: { exists r, d1, h. split; [done|]. split; [done|]. split; [done|]. intros Hw. by destruct (Hw1 Hw). }
  rewrite alloc_ok by done. cbn [negb]. fold (object_sectors data).
  set (s1 := s <| dev := Some d1 |> <| super ::= λ sb, with_head sb h |>).
  pose proof (object_sectors_length data Hp) as Hlen. fold n in Hlen.
  destruct (blk_write_spec s1 d1 sect (object_sectors data) eq_refl ltac:(change ANX_DATA_START with 513 in *; lia))
    as (r & d2 & HE & Ha2 & Hw2); [rewrite Hlen; destruct Ha1 as [-> _]; lia|].
  unfold object_sectors in HE. fold n in HE. rewrite HE.
  exists r, d2, h. split; [done|]. split.
  { eapply agree_trans; [exact Ha1'|]. eapply agree_weaken; [|exact Ha2]. rewrite Hlen. naive_solver. }
  split; [done|]. intros Hw. apply Hw2. by apply Hw1.
Qed.
End writes.

(** ** The abstract store *)

Record object := Object { o_type : Z; o_key : Z; o_data : list Z }.

(** The objects, the first unused sector (space is never reused) and the size of
    the device. *)
Record abstract := Abstract { objects : gmap anx_uuid object; used : Z; room : Z }.

Definition object_size (o : object) : Z := Z.of_nat (length (o_data o)).

Definition spec_write (oid : anx_uuid) (o : object) (A : abstract) : Z * abstract :=
  if used A + sectors_for (object_size o) >? room A then (ANX_ENOMEM, A)
  else if bool_decide (objects A !! oid = None) && bool_decide (size (objects A) = MAXE) then (ANX_ENOMEM, A)
  else (ANX_OK, Abstract (<[oid := o]> (objects A)) (used A + sectors_for (object_size o)) (room A)).

Definition spec_delete (oid : anx_uuid) (A : abstract) : Z * abstract :=
  match objects A !! oid with
  | None => (ANX_ENOENT, A)
  | Some _ => (ANX_OK, Abstract (delete oid (objects A)) (used A) (room A))
  end.

(** The entry the index keeps for an object stored at [sect]. *)
Definition entry_for (oid : anx_uuid) (o : object) (sect : Z) : anx_disk_index_entry :=
  IndexEntry oid sect (sectors_for (object_size o)) (object_size o) (o_type o) 1 (o_key o).

Record object_ok (oid : anx_uuid) (o : object) : Prop := {
  oo_oid : is_u64 (hi oid) ∧ is_u64 (lo oid);
  oo_type : is_u32 (o_type o);
  oo_key : is_u64 (o_key o);
  oo_data : payload_ok (o_data o);
}.

Section invariant.
Context {D : Type} {BD : BlkDriver D} {BL : BlkDriverLaws D} {BR : BlkReliable D}.
Implicit Types (d : D) (s : store_state D) (A : abstract).

(** Entry [e] is that of an object of [A], whose data lie in used sectors. *)
Definition stored d A (e : anx_disk_index_entry) : Prop :=
  ∃ o, objects A !! ie_oid e = Some o ∧ e = entry_for (ie_oid e) o (ie_data_sector e) ∧ payload_ok (o_data o) ∧
    ANX_DATA_START ≤ ie_data_sector e ∧ ie_data_sector e + sectors_for (object_size o) ≤ used A ∧
    holds d (ie_data_sector e) (object_sectors (o_data o)).

Record represents d (c : list anx_disk_index_entry) A : Prop := {
  rp_stored : ∀ e, e ∈ c → stored d A e;
  rp_indexed : ∀ oid o, objects A !! oid = Some o → ∃ e, e ∈ c ∧ ie_oid e = oid;
}.

(** The superblock on disk; its journal positions may lag behind. *)
Record super_on_disk d (n : Z) A (sd_super : anx_disk_super) : Prop := {
  sd_wf : super_wf sd_super;
  sd_holds : holds d 0 (to_sectors 1 (ds_super_bytes sd_super));
  sd_count : ds_obj_count sd_super = n;
  sd_next : ds_next_data_sector sd_super = used A;
  sd_total : ds_total_sectors sd_super = room A;
}.

(** What is on the device: with this, the store can be mounted. *)
Record disk_inv d (c : list anx_disk_index_entry) A : Prop := {
  di_room : drv_capacity d = room A;
  di_used : ANX_DATA_START ≤ used A ≤ room A;
  di_width : room A < 2 ^ 63;
  di_super : ∃ sb, super_on_disk d (Z.of_nat (length c)) A sb;
  di_index : holds d ANX_INDEX_START (to_sectors 256 (index_bytes c));
  di_cache : cache_ok c;
  di_rep : represents d c A;
}.

Record inv_on s A d : Prop := {
  iv_dev : dev s = Some d;
  iv_mounted : mounted s = true;
  iv_index : index_ok s;
  iv_super : super_wf (super s);
  iv_count : ds_obj_count (super s) = index_count s;
  iv_next : ds_next_data_sector (super s) = used A;
  iv_total : ds_total_sectors (super s) = room A;
  iv_disk : disk_inv d (index_cache s) A;
}.

(** The store between two operations. *)
Definition store_inv s A : Prop := ∃ d, inv_on s A d ∧ works d.

Lemma stored_agree P d d' A e : agree P d d' → (∀ i, ANX_DATA_START ≤ i < used A → P i) → stored d A e → stored d' A e.
Proof.
  intros Ha HP (o & Ho & He & Hp & H1 & H2 & Hh). exists o. split_and!; [done..|]. eapply holds_agree; [exact Ha| |exact Hh].
  rewrite object_sectors_length by done. intros i Hi. apply HP. unfold object_size in H2. lia.
Qed.

Lemma represents_agree P d d' c A : agree P d d' → (∀ i, ANX_DATA_START ≤ i < used A → P i) →
  represents d c A → represents d' c A.
Proof. intros Ha HP [H1 H2]. split; [|done]. intros e He. eapply stored_agree; eauto. Qed.

(** What lies outside the journal and the free space is all that counts. *)
Lemma disk_inv_agree P d d' c A : agree P d d' → (∀ i, i = 0 ∨ ANX_INDEX_START ≤ i < used A → P i) →
  disk_inv d c A → disk_inv d' c A.
Proof.
  intros Ha HP [H1 H2 H3 [sb [Hwf Hh ? ? ?]] H5 H6 H7]. change ANX_DATA_START with 513 in *. change ANX_INDEX_START with 257 in *. constructor.
  - by rewrite (proj1 Ha).
  - done.
  - done.
  - exists sb. constructor; [done| |done..]. eapply holds_agree; [exact Ha| |exact Hh]. rewrite to_sectors_length. intros i Hi. apply HP. lia.
  - eapply holds_agree; [exact Ha| |exact H5]. rewrite to_sectors_length. change ANX_INDEX_START with 257. intros i Hi. apply HP. lia.
  - done.
  - eapply represents_agree; [exact Ha| |exact H7]. intros i Hi. apply HP. change ANX_DATA_START with 513 in Hi. lia.
Qed.

Lemma represents_lookup d c A e : represents d c A → e ∈ c → ∃ o, objects A !! ie_oid e = Some o.
Proof. intros [H _] He. destruct (H e He) as (o & Ho & _). eauto. Qed.

Lemma represents_absent d c A oid : represents d c A → (∀ e, e ∈ c → ie_oid e ≠ oid) → objects A !! oid = None.
Proof. intros [_ H] Hne. destruct (objects A !! oid) as [o|] eqn:E; [|done]. destruct (H oid o E) as (e & He & Hoid). by destruct (Hne e). Qed.

Lemma represents_size d c A : cache_ok c → represents d c A → size (objects A) = length c.
Proof.
  intros Hc Hr. rewrite <- size_dom. replace (dom (objects A)) with (list_to_set (ie_oid <$> c) : gset anx_uuid).
  { rewrite size_list_to_set by apply (co_oids _ Hc). by rewrite length_fmap. }
  apply set_eq. intros oid. rewrite elem_of_list_to_set, elem_of_dom. split.
  - intros (e & -> & He)%list_elem_of_fmap. by eapply represents_lookup.
  - intros [o Ho]. destruct (rp_indexed _ _ _ Hr oid o Ho) as (e & He & <-). by apply list_elem_of_fmap_2.
Qed.

(** The lookup of the cache is the lookup of the map. *)
Lemma find_entry_lookup s A d oid : inv_on s A d →
  match find_index_entry oid s with
  | Some (i, e) => index_cache s !! i = Some e ∧ ie_oid e = oid ∧ stored d A e
  | None => objects A !! oid = None
  end.
Proof.
  intros Hi. pose proof (find_entry_spec s oid (iv_index _ _ _ Hi)) as Hf. pose proof (di_rep _ _ _ (iv_disk _ _ _ Hi)) as Hr.
  destruct (find_index_entry oid s) as [[i e]|].
  - destruct Hf as [Hl Ho]. split_and!; [done|done|]. apply Hr. by eapply list_elem_of_lookup_2.
  - by eapply represents_absent.
Qed.
End invariant.

(** ** The operations keep the invariant *)

Section operations.
Context {D : Type} {BD : BlkDriver D} {BL : BlkDriverLaws D} {BR : BlkReliable D}.
Implicit Types (d : D) (s : store_state D) (A : abstract).

Lemma represents_write d c c' A oid o : represents d c A → object_ok oid o →
  ANX_DATA_START ≤ used A → replaced c (entry_for oid o (used A)) c' → holds d (used A) (object_sectors (o_data o)) →
  represents d c' (Abstract (<[oid := o]> (objects A)) (used A + sectors_for (object_size o)) (room A)).
Proof.
  intros [Hst Hix] Ho Hu Hrep Hh. pose proof (oo_data _ _ Ho) as Hp.
  pose proof (sectors_for_spec (object_size o) ltac:(unfold object_size, payload_ok in *; lia)) as (Hn & _).
  split.
  - intros x [->|[Hx Hne]]%Hrep.
    + exists o. cbn. rewrite lookup_insert_eq. by split_and!.
    + destruct (Hst x Hx) as (o' & Ho' & He & Hp' & H1 & H2 & H3). exists o'. cbn in *. rewrite lookup_insert_ne by done.
      split_and!; [done..|lia|done].
  - cbn. intros oid' o' Ho'. destruct (decide (oid' = oid)) as [->|Hne].
    + exists (entry_for oid o (used A)). split; [|done]. apply Hrep. by left.
    + rewrite lookup_insert_ne in Ho' by done. destruct (Hix oid' o' Ho') as (x & Hx & <-). exists x. split; [|done].
      apply Hrep. right. by split.
Qed.

Lemma represents_delete d c c' A oid : represents d c A → removed c oid c' →
  represents d c' (Abstract (delete oid (objects A)) (used A) (room A)).
Proof.
  intros [Hst Hix] Hrem. split.
  - intros x [Hx Hne]%Hrem. destruct (Hst x Hx) as (o' & Ho' & Hrest). exists o'. cbn. rewrite lookup_delete_ne by done. done.
  - cbn. intros oid' o' [Hne Ho']%lookup_delete_Some. destruct (Hix oid' o' Ho') as (x & Hx & <-). exists x. split; [|done].
    apply Hrem. by split.
Qed.

Lemma flush_ok s d : dev s = Some d → works d → index_ok s → ANX_DATA_START ≤ drv_capacity d →
  ∃ d', flush_index s = (ANX_OK, s <| dev := Some d' |>) ∧ works d' ∧ agree (outside ANX_INDEX_START ANX_INDEX_SECTORS) d d' ∧
    holds d' ANX_INDEX_START (to_sectors 256 (index_bytes (index_cache s))).
Proof.
  intros Hd Hw Hix Hc. unfold flush_index. rewrite alloc_ok by apply Hix. cbn [negb]. rewrite firstn_count by apply Hix.
  change (Z.to_nat ANX_INDEX_SECTORS) with 256%nat.
  destruct (blk_write_spec s d ANX_INDEX_START (to_sectors 256 (index_bytes (index_cache s))) Hd ltac:(done))
    as (r & d' & -> & Ha & Hok); [rewrite to_sectors_length; exact Hc|].
  rewrite to_sectors_length in Ha. destruct (Hok Hw) as (-> & ? & ?). exists d'. by split_and!.
Qed.

Lemma write_super_ok s d : dev s = Some d → works d → ANX_DATA_START ≤ drv_capacity d →
  ∃ d', write_super s = (ANX_OK, s <| dev := Some d' |>) ∧ works d' ∧ agree (outside 0 1) d d' ∧
    holds d' 0 (to_sectors 1 (ds_super_bytes (super s))).
Proof.
  change ANX_DATA_START with 513. intros Hd Hw Hc. unfold write_super.
  destruct (blk_write_spec s d ANX_SUPER_SECTOR (to_sectors 1 (ds_super_bytes (super s))) Hd ltac:(done))
    as (r & d' & -> & Ha & Hok); [cbn [to_sectors length]; change ANX_SUPER_SECTOR with 0; lia|].
  destruct (Hok Hw) as (-> & ? & ?). exists d'. by split_and!.
Qed.

(** The commit record and the superblock. *)
Lemma journal_commit_ok s d : dev s = Some d → works d → ANX_DATA_START ≤ drv_capacity d → super_wf (super s) →
  ∃ d' sb t, journal_commit s = (ANX_OK, s <| dev := Some d' |> <| super := sb |> <| next_txn_id := t |>) ∧ works d' ∧
    agree (λ i, ANX_INDEX_START ≤ i) d d' ∧ holds d' 0 (to_sectors 1 (ds_super_bytes sb)) ∧
    super_wf sb ∧ ds_obj_count sb = ds_obj_count (super s) ∧ ds_next_data_sector sb = ds_next_data_sector (super s) ∧
    ds_total_sectors sb = ds_total_sectors (super s).
Proof.
  intros Hd Hw Hc Hwf. unfold journal_commit.
  destruct (journal_entry_spec s d (JournalEntry (next_txn_id s) ANX_JRNL_COMMIT ANX_UUID_NIL 0 0 0) Hd Hc (sw_head _ Hwf))
    as (r & d1 & h & -> & Ha1 & Hh & Hok). destruct (Hok Hw) as [-> Hw1]. cbn [negb Z.eqb ANX_OK].
  set (s1 := s <| dev := Some d1 |> <| super ::= _ |>).
  set (s2 := s1 <| super ::= _ |> <| next_txn_id ::= _ |>).
  destruct (write_super_ok s2 d1) as (d2 & HE & Hw2 & Ha2 & Hh2); [done|done|by rewrite (proj1 Ha1)|].
  rewrite HE. exists d2, (super s2), (next_txn_id s2). split; [by destruct s|]. split; [done|].
  split. { eapply agree_trans; (eapply agree_weaken; [|eassumption]); unfold outside;
    change ANX_INDEX_START with 257; change ANX_JOURNAL_START with 1; change ANX_JOURNAL_SECTORS with 256; lia. }
  split; [done|]. split; [|done]. destruct Hwf. by constructor.
Qed.
#[local] Opaque to_sectors index_bytes ds_super_bytes.

(** The variables agree with [A], and so do the data on the device; the index
    and the superblock there may be old. *)
Record ready s A d : Prop := {
  rd_dev : dev s = Some d;
  rd_works : works d;
  rd_mounted : mounted s = true;
  rd_index : index_ok s;
  rd_super : super_wf (super s);
  rd_count : ds_obj_count (super s) = index_count s;
  rd_next : ds_next_data_sector (super s) = used A;
  rd_total : ds_total_sectors (super s) = room A;
  rd_room : drv_capacity d = room A;
  rd_used : ANX_DATA_START ≤ used A ≤ room A;
  rd_width : room A < 2 ^ 63;
  rd_rep : represents d (index_cache s) A;
}.

(** Once both are written, the store is consistent again; only sectors below the
    data are touched in between. *)
Lemma ready_synced s s' A d d' sb t : ready s A d → s' = s <| dev := Some d' |> <| super := sb |> <| next_txn_id := t |> →
  works d' → agree (λ i, ANX_DATA_START ≤ i) d d' → super_wf sb → ds_obj_count sb = ds_obj_count (super s) →
  ds_next_data_sector sb = ds_next_data_sector (super s) → ds_total_sectors sb = ds_total_sectors (super s) →
  holds d' 0 (to_sectors 1 (ds_super_bytes sb)) → holds d' ANX_INDEX_START (to_sectors 256 (index_bytes (index_cache s))) →
  store_inv s' A.
Proof.
  intros [] -> Hw Ha Hwf H1 H2 H3 Hsup Hidx. exists d'. split; [|done].
  assert (index_count s = Z.of_nat (length (index_cache s))) by apply rd_index0.
  constructor; [done|done|constructor; apply rd_index0|done|by cbn; rewrite H1|by cbn; rewrite H2|by cbn; rewrite H3|].
  constructor; [by rewrite (proj1 Ha)|done|done| |done|apply rd_index0|].
  - exists sb. constructor; [done|done|exact (eq_trans H1 (eq_trans rd_count0 H))|by rewrite H2|by rewrite H3].
  - eapply represents_agree; [exact Ha| |done]. tauto.
Qed.

Lemma flush_commit_ok s A d : ready s A d →
  ∃ s', (let '(e, s) := flush_index s in if negb (e =? ANX_OK) then (e, s) else journal_commit s) = (ANX_OK, s') ∧ store_inv s' A.
Proof.
  intros Hr. pose proof Hr as []. destruct (flush_ok s d) as (d1 & -> & Hw1 & Ha1 & Hh1); [done|done|done|lia|]. cbn [negb Z.eqb ANX_OK].
  destruct (journal_commit_ok (s <| dev := Some d1 |>) d1) as (d2 & sb & t & -> & Hw2 & Ha2 & Hh2 & Hwf & H1 & H2 & H3);
    [done|done|rewrite (proj1 Ha1); lia|done|].
  eexists. split; [done|]. eapply (ready_synced s _ A d d2); [done|by destruct s|done| |done..|].
  - eapply agree_trans; (eapply agree_weaken; [|eassumption]); unfold outside; change ANX_INDEX_START with 257;
      change ANX_INDEX_SECTORS with 256; change ANX_DATA_START with 513; lia.
  - eapply holds_agree; [exact Ha2| |exact Hh1]. rewrite to_sectors_length. lia.
Qed.

Lemma flush_super_ok s A d : ready s A d →
  ∃ s', (let '(e, s) := flush_index s in if negb (e =? ANX_OK) then (e, s) else write_super s) = (ANX_OK, s') ∧ store_inv s' A.
Proof.
  intros Hr. pose proof Hr as []. destruct (flush_ok s d) as (d1 & -> & Hw1 & Ha1 & Hh1); [done|done|done|lia|]. cbn [negb Z.eqb ANX_OK].
  destruct (write_super_ok (s <| dev := Some d1 |>) d1) as (d2 & -> & Hw2 & Ha2 & Hh2); [done|done|rewrite (proj1 Ha1); lia|].
  eexists. split; [done|]. eapply (ready_synced s _ A d d2 (super s) (next_txn_id s)); [done|by destruct s|done| |done..|].
  - eapply agree_trans; (eapply agree_weaken; [|eassumption]); unfold outside; change ANX_INDEX_START with 257;
      change ANX_INDEX_SECTORS with 256; change ANX_DATA_START with 513; lia.
  - eapply holds_agree; [exact Ha2| |exact Hh1]. rewrite to_sectors_length. unfold outside. change ANX_INDEX_START with 257. lia.
Qed.

(** A new object, or a new version of one. *)
Lemma write_obj_spec s A oid o : store_inv s A → object_ok oid o →
  let '(r, s') := anx_disk_write_obj_bk oid (o_type o) (o_key o) (o_data o) s in
  let '(r', A') := spec_write oid o A in r = r' ∧ store_inv s' A'.
Proof.
  intros (d & Hi & Hw) Ho. pose proof Hi as [Hd Hm Hix Hsb Hcnt Hnext Htot Hdisk]. pose proof Hdisk as [Hroom Hused Hwidth _ _ Hcache Hrep].
  pose proof (oo_data _ _ Ho) as Hp. pose proof (sectors_for_spec (object_size o) ltac:(unfold object_size, payload_ok in *; lia)) as (Hn & _ & _).
  unfold anx_disk_write_obj_bk, spec_write. rewrite Hm, Hnext, Htot. cbn [negb]. fold (object_size o).
  rewrite u64_small by (unfold is_u64; change ANX_DATA_START with 513 in *; lia).
  destruct (used A + sectors_for (object_size o) >? room A) eqn:Efull; [by split; [|exists d]|].
  destruct (write_data_spec s d oid (o_data o) (used A) Hd (io_mem _ Hix) (sw_head _ Hsb) Hp)
    as (r & d1 & h & HE & Ha1 & Hh & Hok); [lia|fold (object_size o); lia|]. fold (object_size o) in HE. rewrite HE. clear HE.
  destruct (Hok Hw) as (-> & Hw1 & Hdata). cbn [negb Z.eqb ANX_OK].
  set (s1 := s <| dev := Some d1 |> <| super ::= λ sb, with_head sb h |>).
  assert (disk_inv d1 (index_cache s) A) as Hdisk1.
  { eapply disk_inv_agree; [exact Ha1| |exact Hdisk]. unfold outside. change ANX_INDEX_START with 257.
    change ANX_JOURNAL_START with 1. change ANX_JOURNAL_SECTORS with 256. change ANX_DATA_START with 513 in *. lia. }
  assert (index_ok s1) as Hix1 by (constructor; apply Hix).
  assert (super_wf (super s1)) as Hsb1 by (destruct Hsb; by constructor).
  set (e := IndexEntry _ _ _ _ _ _ _). assert (e = entry_for oid o (used A)) as Ee by done.
  assert (entry_ok e) as Heok.
  { destruct Ho. constructor; cbn; [done| |split_and!|done|done]; unfold is_u64, is_u32, object_size, payload_ok in *; change ANX_DATA_START with 513 in *; lia. }
  destruct (update_index_spec s1 e Hix1 Heok Hcnt) as [(c & HE & Hc & Hrepl)|(HE & Hfull & Hfresh)]; rewrite HE; cbn [negb Z.eqb ANX_OK].
  - assert (represents d1 c (Abstract (<[oid := o]> (objects A)) (used A + sectors_for (object_size o)) (room A))) as Hrep1.
    { eapply represents_write; [apply Hdisk1|done|lia|by rewrite Ee in Hrepl|done]. }
    pose proof (represents_size _ _ _ Hc Hrep1) as Hsize. pose proof (co_length _ Hc).
    rewrite (proj2 (andb_false_iff _ _)); cycle 1.
    { destruct (objects A !! oid) eqn:Habs; [by left|right]. apply bool_decide_eq_false. intros Heq.
      cbn in Hsize. rewrite map_size_insert_None in Hsize by done. lia. }
    set (s2 := s1 <| index_cache := c |> <| index_count := _ |> <| super ::= _ |> <| super ::= _ |>).
    destruct (flush_commit_ok s2 (Abstract (<[oid := o]> (objects A)) (used A + sectors_for (object_size o)) (room A)) d1)
      as (s' & -> & Hinv); [|done]. destruct Hsb1 as [? ? (? & ? & ?)].
    constructor; cbn; try done; [by constructor; cbn; [| |apply Hix]| |by rewrite (proj1 Ha1)|lia].
    constructor; cbn; try done. unfold MAXE, is_u64 in *. change ANX_INDEX_MAX_ENTRIES with 2304 in *.
    change ANX_DATA_START with 513 in *. cbn in *. lia.
  - change (index_cache s1) with (index_cache s) in *. rewrite (represents_absent _ _ _ oid Hrep) by done.
    rewrite (represents_size _ _ _ Hcache Hrep), Hfull, bool_decide_eq_true_2 by done. cbn [andb bool_decide].
    rewrite bool_decide_eq_true_2 by done. split; [done|]. exists d1. split; [|done]. by constructor.
Qed.
Lemma delete_obj_spec s A oid : store_inv s A →
  let '(r, s') := anx_disk_delete_obj oid s in let '(r', A') := spec_delete oid A in r = r' ∧ store_inv s' A'.
Proof.
  intros (d & Hi & Hw). pose proof (find_entry_lookup s A d oid Hi) as Hf.
  pose proof Hi as [Hd Hm Hix Hsb Hcnt Hnext Htot [Hroom Hused Hwidth _ _ Hcache Hrep]].
  unfold anx_disk_delete_obj, spec_delete. rewrite Hm. cbn [negb].
  destruct (find_index_entry oid s) as [[i e]|]; [|rewrite Hf; split; [done|by exists d]].
  destruct Hf as (Hl & Hoid & o & Ho & _). rewrite Hoid in Ho. rewrite Ho.
  destruct (remove_entry_spec s i e Hix Hl) as (c & -> & Hc & Hrem & Hlen). rewrite Hoid in Hrem.
  assert (ds_obj_count (super s) = Z.of_nat (S (length c))) as Hcnt' by (rewrite Hcnt, (io_count _ Hix); lia).
  change (super (s <| index_cache := c |> <| index_count := Z.of_nat (length c) |>)) with (super s).
  destruct (Z.gtb_spec (ds_obj_count (super s)) 0) as [_|?]; [|lia].
  set (s1 := s <| index_cache := c |> <| index_count := _ |> <| super ::= _ |>).
  destruct (flush_super_ok s1 (Abstract (delete oid (objects A)) (used A) (room A)) d) as (s' & -> & Hinv); [|done].
  assert (ds_obj_count (super s1) = Z.of_nat (length c)) as Hcnt1 by (cbn; lia).
  constructor; [done|done|done|constructor; [done|done|apply Hix]| |done|done|done|done|done|done|by eapply represents_delete].
  destruct Hsb as [? ? (? & ? & ?)]. constructor; [done|done| |done..]. rewrite Hcnt1. unfold is_u64 in *. split; [done|].
  split; [|done]. rewrite Hcnt' in *. lia.
Qed.

Lemma read_obj_spec s A oid buf_size : store_inv s A → 0 ≤ buf_size →
  anx_disk_read_obj oid buf_size s =
    (match objects A !! oid with
     | None => (ANX_ENOENT, None)
     | Some o => (ANX_OK, Some (firstn (Z.to_nat buf_size) (o_data o), object_size o, o_type o))
     end, s).
Proof.
  intros (d & Hi & Hw) Hb. pose proof (find_entry_lookup s A d oid Hi) as Hf. pose proof Hi as [Hd Hm Hix _ _ _ _ [Hroom Hused _ _ _ _ _]].
  unfold anx_disk_read_obj. rewrite Hm. cbn [negb]. destruct (find_index_entry oid s) as [[i e]|]; [|by rewrite Hf].
  destruct Hf as (_ & <- & o & -> & He & Hp & H1 & H2 & Hh). rewrite alloc_ok by apply Hix. cbn [negb].
  rewrite He. cbn [ie_data_sector ie_data_sectors ie_payload_size ie_obj_type entry_for].
  unfold object_size at 1. rewrite <- object_sectors_length by done.
  rewrite (blk_read_holds s d) by first [done | rewrite ?object_sectors_length by done; unfold object_size in *; change ANX_DATA_START with 513 in *; lia].
  cbn [negb Z.eqb ANX_OK]. destruct (object_sectors_concat (o_data o) Hp) as [z ->]. f_equal. do 4 f_equal.
  destruct (Z.gtb_spec (object_size o) buf_size); unfold object_size in *.
  - by rewrite take_app_le by lia.
  - rewrite Nat2Z.id, take_app_length. by rewrite take_ge by lia.
Qed.

Lemma exists_spec s A oid : store_inv s A → anx_disk_obj_exists oid s = bool_decide (is_Some (objects A !! oid)).
Proof.
  intros (d & Hi & Hw). pose proof (find_entry_lookup s A d oid Hi) as Hf. unfold anx_disk_obj_exists. rewrite (iv_mounted _ _ _ Hi). cbn [negb].
  apply bool_decide_ext. destruct (find_index_entry oid s) as [[i e]|]; [|rewrite Hf, !is_Some_alt; done].
  destruct Hf as (_ & <- & o & -> & _). split; eauto.
Qed.

Lemma boundary_key_spec s A oid : store_inv s A →
  anx_disk_get_boundary_key (Some oid) s =
    match objects A !! oid with None => (ANX_ENOENT, None) | Some o => (ANX_OK, Some (o_key o)) end.
Proof.
  intros (d & Hi & Hw). pose proof (find_entry_lookup s A d oid Hi) as Hf. unfold anx_disk_get_boundary_key. rewrite (iv_mounted _ _ _ Hi). cbn [negb].
  destruct (find_index_entry oid s) as [[i e]|]; [|by rewrite Hf]. destruct Hf as (_ & <- & o & -> & -> & _). done.
Qed.

Lemma stats_spec s A : store_inv s A →
  anx_disk_stats s = (ANX_OK, Some (Z.of_nat (size (objects A)), used A, room A)).
Proof.
  intros (d & [? Hm Hix ? Hcnt Hnext Htot Hdisk] & _). unfold anx_disk_stats. rewrite Hm, Hnext, Htot, Hcnt, (io_count _ Hix). cbn [negb].
  by rewrite (represents_size _ _ _ (di_cache _ _ _ Hdisk) (di_rep _ _ _ Hdisk)).
Qed.

Lemma read_super_ok s d sb : dev s = Some d → works d → 1 ≤ drv_capacity d → super_wf sb →
  holds d 0 (to_sectors 1 (ds_super_bytes sb)) →
  read_super s = (ANX_OK, s <| super := sb <| ds_pad := firstn 424 (ds_pad sb) ++ skipn 424 (ds_pad (super s)) |> |>).
Proof.
  intros Hd Hw Hcap Hwf Hh. unfold read_super.
  pose proof (blk_read_holds s d 0 (to_sectors 1 (ds_super_bytes sb)) Hd Hw Hh ltac:(lia)) as Hr.
  rewrite to_sectors_length in Hr. change ANX_SUPER_SECTOR with 0. change (Z.of_nat 1) with 1 in Hr. rewrite (Hr ltac:(lia)). cbn [negb Z.eqb ANX_OK]. rewrite concat_sectors. change (512 * 1)%nat with 512%nat.
  assert (ds_super_load (super s) (firstn 512 (ds_super_bytes sb))
    = sb <| ds_pad := firstn 424 (ds_pad sb) ++ skipn 424 (ds_pad (super s)) |>) as HE by (by apply super_load_bytes).
  set (s1 := s <| super ::= _ |>). assert (super s1 = sb <| ds_pad := firstn 424 (ds_pad sb) ++ skipn 424 (ds_pad (super s)) |>) as Hs1 by exact HE.
  assert (ds_magic (super s1) = ANX_DISK_MAGIC ∧ ds_version (super s1) = ANX_DISK_VERSION) as [-> ->]
    by (rewrite Hs1; split; apply Hwf).
  rewrite !Z.eqb_refl. cbn [negb]. rewrite <- Hs1. by destruct s.
Qed.

Lemma load_index_ok s d c : dev s = Some d → works d → mem_ok s = [] → ANX_DATA_START ≤ drv_capacity d → cache_ok c →
  holds d ANX_INDEX_START (to_sectors 256 (index_bytes c)) →
  load_index s = (ANX_OK, s <| index_cache := c |> <| index_count := Z.of_nat (length c) |>).
Proof.
  intros Hd Hw Hm Hcap Hc Hh. unfold load_index. rewrite alloc_ok by done. cbn [negb].
  pose proof (blk_read_holds s d ANX_INDEX_START _ Hd Hw Hh ltac:(done)) as Hr. rewrite to_sectors_length in Hr.
  change ANX_INDEX_SECTORS with (Z.of_nat 256). rewrite (Hr Hcap). cbn [negb Z.eqb ANX_OK].
  fold MAXE. rewrite index_roundtrip by apply Hc. rewrite alloc_ok by done. cbn [negb].
  destruct c as [|e c]; [by destruct s|]. set (s1 := s <| index_count := _ |>).
  change (index_count s1) with (Z.of_nat (length (e :: c))). by destruct (Z.gtb_spec (Z.of_nat (length (e :: c))) 0); [destruct s|cbn in *; lia].
Qed.

(** Mounting a device that holds [A] gives [A] back. *)
Lemma store_init_spec s d c A : dev s = Some d → works d → mem_ok s = [] → length (ds_pad (super s)) = 432%nat → disk_inv d c A →
  ∃ s', anx_disk_store_init s = (ANX_OK, s') ∧ store_inv s' A.
Proof.
  intros Hd Hw Hm Hpad Hdisk. pose proof Hdisk as [Hroom Hused Hwidth [sb [Hwf Hsup Hcnt Hnext Htot]] Hidx Hc Hrep].
  change ANX_DATA_START with 513 in Hused. unfold anx_disk_store_init. rewrite bool_decide_eq_true_2 by (rewrite Hd; eauto). cbn [negb].
  rewrite (read_super_ok s d sb) by (done || lia). cbn [negb Z.eqb ANX_OK].
  set (sb1 := sb <| ds_pad := _ |>). assert (super_wf sb1) as Hwf1.
  { destruct Hwf. constructor; try done. cbn. rewrite length_app, length_take, length_skipn. lia. }
  assert (∀ s0, dev s0 = Some d → mem_ok s0 = [] → load_index s0 = (ANX_OK, s0 <| index_cache := c |> <| index_count := Z.of_nat (length c) |>)) as Hload.
  { intros s0 Hd0 Hm0. by apply (load_index_ok s0 d); [..|change ANX_DATA_START with 513; lia| |]. }
  rewrite Hload by done. cbn [negb Z.eqb ANX_OK]. set (s1 := s <| super := sb1 |> <| index_cache := c |> <| index_count := _ |>).
  set (sb2 := if ds_journal_head (super s1) =? ds_journal_committed (super s1) then sb1
              else sb1 <| ds_journal_committed := ds_journal_head sb1 |>).
  assert (super_wf sb2) as Hwf2 by (unfold sb2; case_match; [done|]; destruct Hwf1; by constructor).
  assert ((if negb (ds_journal_head (super s1) =? ds_journal_committed (super s1)) then anx_disk_recover s1 else (ANX_OK, s1))
    = (ANX_OK, s1 <| super := sb2 |>)) as ->.
  { unfold sb2. destruct (ds_journal_head (super s1) =? ds_journal_committed (super s1)); cbn [negb]; [done|].
    unfold anx_disk_recover. by rewrite Hload by done. }
  cbn [negb Z.eqb ANX_OK]. set (s2 := s1 <| super := sb2 |>).
  assert (ds_obj_count sb2 = Z.of_nat (length c) ∧ ds_next_data_sector sb2 = used A ∧ ds_total_sectors sb2 = room A) as (H1 & H2 & H3)
    by (unfold sb2; case_match; done).
  change (super s2) with sb2. change (index_count s2) with (Z.of_nat (length c)). rewrite H1, Z.eqb_refl. cbn [negb].
  eexists. split; [done|]. exists d. split; [|done]. by constructor; [..|constructor| | | | |].
Qed.

Lemma zero_sectors_ok n i s d : dev s = Some d → works d → 0 ≤ i → i + Z.of_nat n ≤ drv_capacity d →
  ∃ d', zero_sectors n i s = (ANX_OK, s <| dev := Some d' |>) ∧ works d' ∧ agree (outside i (Z.of_nat n)) d d' ∧
    ∀ j, i ≤ j < i + Z.of_nat n → contents d' j = replicate 512 0.
Proof.
  revert i s d. induction n as [|n IH]; intros i s d Hd Hw Hi Hcap; cbn [zero_sectors].
  { exists d. split_and!; [by destruct s; cbn in *; subst|done|done|lia]. }
  destruct (blk_write_spec s d i [replicate 512 0] Hd Hi) as (r & d1 & -> & Ha1 & Hok); [cbn [length]; lia|].
  destruct (Hok Hw) as (-> & Hw1 & Hh1). cbn [negb Z.eqb ANX_OK].
  destruct (IH (i + 1) (s <| dev := Some d1 |>) d1) as (d2 & -> & Hw2 & Ha2 & Hz); [done|done|lia|rewrite (proj1 Ha1); lia|].
  exists d2. split; [by destruct s|]. split; [done|]. split.
  { eapply agree_trans; (eapply agree_weaken; [|eassumption]); unfold outside; cbn [length]; lia. }
  intros j Hj. destruct (decide (j = i)) as [->|]; [|apply Hz; lia].
  rewrite (proj2 Ha2) by (unfold outside; lia). rewrite <- (Z.add_0_r i). by apply (holds_lookup _ _ _ 0 _ Hh1).
Qed.

Lemma to_sectors_zeros n k : (512 * n ≤ k)%nat → to_sectors n (replicate k 0) = replicate n (replicate 512 0).
Proof.
  revert k. induction n as [|n IH]; intros k Hk; [done|]. cbn [to_sectors]. rewrite replicate_S, take_replicate, drop_replicate.
  f_equal; [f_equal; lia|]. apply IH. lia.
Qed.

Lemma cache_ok_nil : cache_ok [].
Proof. constructor; [by intros ? ? ? ? ? ?|constructor|constructor|cbn; lia]. Qed.

(** A formatted device is empty, whatever was on it. *)
Lemma format_spec s d label t1 t2 : dev s = Some d → works d → mem_ok s = [] → ANX_DATA_START ≤ drv_capacity d < 2 ^ 63 →
  ∃ s', anx_disk_format_forced label t1 t2 s = (ANX_OK, s') ∧ store_inv s' (Abstract ∅ ANX_DATA_START (drv_capacity d)).
Proof.
  intros Hd Hw Hm Hcap. unfold anx_disk_format_forced. rewrite bool_decide_eq_true_2 by (rewrite Hd; eauto). cbn [negb].
  rewrite alloc_ok by done. cbn [negb].
  destruct (zero_sectors_ok (Z.to_nat ANX_DATA_START) 0 s d) as (d1 & -> & Hw1 & Ha1 & Hz);
    [done|done|lia|change ANX_DATA_START with 513 in *; lia|]. cbn [negb Z.eqb ANX_OK].
  change (Z.of_nat (Z.to_nat ANX_DATA_START)) with 513 in Hz. change (active_capacity (s <| dev := Some d1 |>)) with (drv_capacity d1).
  rewrite (proj1 Ha1). set (sb := DiskSuper _ _ _ _ _ _ _ _ _ _). set (s1 := s <| dev := Some d1 |> <| super := sb |>).
  assert (super_wf sb) as Hwf.
  { assert (∀ l, length (label_field l) = 32%nat).
    { intros l. unfold label_field. apply zero_padded_length. rewrite length_take. lia. }
    constructor; cbn; try done. unfold is_u64. change ANX_DATA_START with 513 in *. lia. }
  destruct (write_super_ok s1 d1) as (d2 & -> & Hw2 & Ha2 & Hh2); [done|done|rewrite (proj1 Ha1); lia|]. cbn [negb Z.eqb ANX_OK].
  eexists. split; [done|]. exists d2. split; [|done].
  constructor; [done|done|constructor; [apply cache_ok_nil|done|done]|done|done|done|done|].
  constructor; [by rewrite (proj1 Ha2), (proj1 Ha1)|cbn; lia|cbn; lia| | |apply cache_ok_nil|].
  - by exists sb.
  - change (index_bytes _) with (zero_padded (Z.to_nat 131072) (concat (map entry_bytes (take MAXE [])))). rewrite take_nil.
    unfold zero_padded. cbn [map concat length app]. rewrite to_sectors_zeros by lia. apply holds_intro.
    intros k x [-> Hk]%lookup_replicate. change ANX_INDEX_START with 257. rewrite (proj2 Ha2) by (unfold outside; lia). apply Hz. lia.
  - split; [intros e He; by apply not_elem_of_nil in He|done].
Qed.
End operations.
