(* ===== verification/DiskMap.v ===== *)
(** * Theorems of the on-disk object store

    Sequences of operations against the abstract store, range scans, and what a
    crash leaves behind. *)

From Stdlib Require Import Sorting.Sorted.
From S2P Require Import Prelude Uuid Blk MdSuper DiskStore DiskProofs DiskRefine.
Import Disk.

(** ** Runs *)

Inductive store_op :=
  | OpWrite (oid : anx_uuid) (o : object)
  | OpRead (oid : anx_uuid) (buf_size : Z)
  | OpDelete (oid : anx_uuid)
  | OpExists (oid : anx_uuid)
  | OpKey (oid : anx_uuid)
  | OpStats
  | OpRemount.

Inductive answer :=
  | Code (r : Z)
  | Data (r : Z) (x : option (list Z * Z * Z))
  | Found (b : bool)
  | Key (r : Z) (x : option Z)
  | Stats (r : Z) (x : option (Z * Z * Z)).

Definition op_ok (op : store_op) : Prop :=
  match op with OpWrite oid o => object_ok oid o | OpRead _ n => is_u32 n | _ => True end.

(** The variables when the kernel starts, the same device attached. *)
Definition zero_super : anx_disk_super := DiskSuper 0 0 0 0 0 0 0 (replicate 16 0) (replicate 32 0) (replicate 432 0).
Definition boot {D : Type} (d : option D) : store_state D := StoreState d zero_super [] 0 false 1 [].

Definition run_op {D : Type} `{!BlkDriver D} (op : store_op) (s : store_state D) : answer * store_state D :=
  match op with
  | OpWrite oid o => let '(r, s) := anx_disk_write_obj_bk oid (o_type o) (o_key o) (o_data o) s in (Code r, s)
  | OpRead oid n => let '(r, x, s) := anx_disk_read_obj oid n s in (Data r x, s)
  | OpDelete oid => let '(r, s) := anx_disk_delete_obj oid s in (Code r, s)
  | OpExists oid => (Found (anx_disk_obj_exists oid s), s)
  | OpKey oid => let '(r, x) := anx_disk_get_boundary_key (Some oid) s in (Key r x, s)
  | OpStats => let '(r, x) := anx_disk_stats s in (Stats r x, s)
  | OpRemount => let '(r, s) := anx_disk_store_init (boot (dev s)) in (Code r, s)
  end.

Definition spec_op (op : store_op) (A : abstract) : answer * abstract :=
  match op with
  | OpWrite oid o => let '(r, A) := spec_write oid o A in (Code r, A)
  | OpRead oid n =>
      (match objects A !! oid with
       | None => Data ANX_ENOENT None
       | Some o => Data ANX_OK (Some (firstn (Z.to_nat n) (o_data o), object_size o, o_type o))
       end, A)
  | OpDelete oid => let '(r, A) := spec_delete oid A in (Code r, A)
  | OpExists oid => (Found (bool_decide (is_Some (objects A !! oid))), A)
  | OpKey oid => (match objects A !! oid with None => Key ANX_ENOENT None | Some o => Key ANX_OK (Some (o_key o)) end, A)
  | OpStats => (Stats ANX_OK (Some (Z.of_nat (size (objects A)), used A, room A)), A)
  | OpRemount => (Code ANX_OK, A)
  end.

(** The answers of a run. *)
Fixpoint run {S : Type} (step : store_op → S → answer * S) (ops : list store_op) (s : S) : list answer :=
  match ops with [] => [] | op :: ops => let '(a, s) := step op s in a :: run step ops s end.

(** ** Filters *)

Lemma filter_same {X : Type} (P Q : X → Prop) `{!∀ x, Decision (P x), !∀ x, Decision (Q x)} (l : list X) :
  (∀ x, x ∈ l → P x ↔ Q x) → filter P l = filter Q l.
Proof.
  induction l as [|x l IH]; intros HPQ; [done|]. specialize (IH (λ y Hy, HPQ y (list_elem_of_further _ _ _ Hy))).
  pose proof (HPQ x (list_elem_of_here _ _)). destruct (decide (P x)).
  - rewrite !filter_cons_True by tauto. by f_equal.
  - rewrite !filter_cons_False by tauto. done.
Qed.

Lemma filter_none {X : Type} (P : X → Prop) `{!∀ x, Decision (P x)} (l : list X) : (∀ x, x ∈ l → ¬ P x) → filter P l = [].
Proof.
  induction l as [|x l IH]; intros HP; [done|]. rewrite filter_cons_False by apply HP, list_elem_of_here.
  apply IH. intros y Hy. apply HP. by right.
Qed.

Section theorems.
Context {D : Type} {BD : BlkDriver D} {BL : BlkDriverLaws D} {BR : BlkReliable D}.
Implicit Types (d : D) (s : store_state D) (A : abstract).

Lemma remount_spec s A : store_inv s A → ∃ s', anx_disk_store_init (boot (dev s)) = (ANX_OK, s') ∧ store_inv s' A.
Proof. intros (d & Hi & Hw). rewrite (iv_dev _ _ _ Hi). by eapply (store_init_spec _ d); [..|apply Hi]. Qed.

Lemma run_op_spec op s A : store_inv s A → op_ok op →
  (run_op op s).1 = (spec_op op A).1 ∧ store_inv (run_op op s).2 (spec_op op A).2.
Proof.
  intros Hi Hop. destruct op as [oid o|oid n|oid|oid|oid| |]; cbn [run_op spec_op].
  - pose proof (write_obj_spec s A oid o Hi Hop) as H. destruct (anx_disk_write_obj_bk _ _ _ _ s), (spec_write oid o A).
    by destruct H as [-> ?].
  - rewrite (read_obj_spec s A) by (done || by apply Hop). by destruct (objects A !! oid).
  - pose proof (delete_obj_spec s A oid Hi) as H. destruct (anx_disk_delete_obj oid s), (spec_delete oid A). by destruct H as [-> ?].
  - by rewrite (exists_spec s A).
  - rewrite (boundary_key_spec s A) by done. by destruct (objects A !! oid).
  - by rewrite (stats_spec s A).
  - destruct (remount_spec s A Hi) as (s' & -> & ?). done.
Qed.

Lemma run_spec ops s A : store_inv s A → Forall op_ok ops → run run_op ops s = run spec_op ops A.
Proof.
  intros Hi Hops. revert s A Hi. induction Hops as [|op ops Hop _ IH]; intros s A Hi; [done|]. cbn [run].
  destruct (run_op_spec op s A Hi Hop) as [Ha Hi']. destruct (run_op op s) as [a s'], (spec_op op A) as [a' A']. cbn in *.
  rewrite Ha. f_equal. by apply IH.
Qed.

(** C35: The on-disk object store is a finite map.  Format a working device of at
    least 513 sectors; then any sequence of writes, reads, deletions, existence
    tests, key lookups, statistics and remounts answers exactly as a map from
    object ids to objects would, with the store's two limits: 2304 objects, and
    sectors that are never reclaimed.  In particular a remount loses nothing. *)
Theorem disk_store_refines_map d s label t1 t2 ops :
  dev s = Some d → works d → mem_ok s = [] → ANX_DATA_START ≤ drv_capacity d < 2 ^ 63 → Forall op_ok ops →
  ∃ s', anx_disk_format_forced label t1 t2 s = (ANX_OK, s') ∧
    run run_op ops s' = run spec_op ops (Abstract ∅ ANX_DATA_START (drv_capacity d)).
Proof.
  intros Hd Hw Hm Hcap Hops. destruct (format_spec s d label t1 t2 Hd Hw Hm Hcap) as (s' & -> & Hi).
  exists s'. split; [done|]. by apply run_spec.
Qed.

(** ** Range scans *)

(** The callback on each object in turn, until it answers other than 0. *)
Fixpoint visit {X : Type} (cb : anx_uuid → Z → Z → X → Z * X) (l : list (anx_uuid * object)) (arg : X) : Z * X :=
  match l with
  | [] => (ANX_OK, arg)
  | (oid, o) :: l =>
      let '(r, arg) := cb oid (o_key o) (o_type o) arg in if r =? 0 then visit cb l arg else (r, arg)
  end.

(** By key, then by id. *)
Definition before (a b : anx_uuid * object) : Prop :=
  o_key a.2 < o_key b.2 ∨ o_key a.2 = o_key b.2 ∧ (hi a.1 < hi b.1 ∨ hi a.1 = hi b.1 ∧ lo a.1 < lo b.1).

Lemma sorted_cons e l : sorted (e :: l) → sorted l ∧ ∀ x, x ∈ l → elt e x.
Proof.
  intros Hs. split.
  - intros i j a b Hij Ha Hb. by apply (Hs (S i) (S j) a b); [lia| |].
  - intros x [i Hx]%list_elem_of_lookup_1. by apply (Hs 0%nat (S i) e x); [lia| |].
Qed.

Lemma scan_loop_visit {X : Type} bk_hi (cb : anx_uuid → Z → Z → X → Z * X) f l arg :
  sorted l → Forall entry_ok l → (∀ e, e ∈ l → o_key (f e).2 = ie_boundary_key e ∧ o_type (f e).2 = ie_obj_type e ∧ (f e).1 = ie_oid e) →
  scan_loop bk_hi cb l arg = visit cb (f <$> filter (λ e, ie_boundary_key e ≤ bk_hi) l) arg.
Proof.
  revert arg. induction l as [|e l IH]; intros arg Hs Hok Hf; [done|]. cbn [scan_loop].
  apply sorted_cons in Hs as [Hs Hlt]. apply Forall_cons in Hok as [He Hok].
  destruct (Z.gtb_spec (ie_boundary_key e) bk_hi) as [Hgt|Hle].
  - replace (filter (λ e, ie_boundary_key e ≤ bk_hi) (e :: l)) with ([] : list anx_disk_index_entry); [done|].
    symmetry. apply filter_none. intros x Hx Hk. apply elem_of_cons in Hx as [->|Hx]; [lia|].
    specialize (Hlt x Hx). rewrite elt_spec in Hlt. lia.
  - assert (entry_active e = true) as -> by (unfold entry_active; by rewrite (eo_flags _ He)). cbn [negb].
    rewrite filter_cons_True, fmap_cons by lia. destruct (Hf e ltac:(left)) as (H1 & H2 & H3).
    destruct (f e) as [oid o] eqn:Ef. cbn in *. subst oid. rewrite H1, H2.
    destruct (cb (ie_oid e) (ie_boundary_key e) (ie_obj_type e) arg) as [r arg']. destruct (r =? 0); cbn [negb]; [|done].
    apply IH; [done|done|]. intros x Hx. apply Hf. by right.
Qed.

Lemma scan_order (P : anx_disk_index_entry → Prop) `{!∀ e, Decision (P e)} f l : sorted l →
  (∀ e, e ∈ l → o_key (f e).2 = ie_boundary_key e ∧ (f e).1 = ie_oid e) → StronglySorted before (f <$> filter P l).
Proof.
  induction l as [|e l IH]; intros Hs Hf; [constructor|]. apply sorted_cons in Hs as [Hs Hlt].
  assert (StronglySorted before (f <$> filter P l)) as HS by (apply IH; [done|]; intros x Hx; apply Hf; by right).
  destruct (decide (P e)); [rewrite filter_cons_True by done|by rewrite filter_cons_False]. rewrite fmap_cons. constructor; [done|].
  apply Forall_forall. intros x (y & -> & [_ Hy]%list_elem_of_filter)%list_elem_of_fmap.
  destruct (Hf e ltac:(left)) as [H1 H2], (Hf y ltac:(by right)) as [H3 H4]. unfold before. rewrite H1, H2, H3, H4.
  by apply elt_spec, Hlt.
Qed.

Lemma scan_start s A d bk : inv_on s A d → is_u64 bk →
  let p := Z.to_nat (index_lower_bound (IndexEntry ANX_UUID_NIL 0 0 0 0 0 bk) s) in
  (∀ hi, filter (λ e, bk ≤ ie_boundary_key e ≤ hi) (index_cache s) = filter (λ e, ie_boundary_key e ≤ hi) (skipn p (index_cache s))).
Proof.
  intros Hi Hbk p bk_hi. destruct (lower_bound_spec s (IndexEntry ANX_UUID_NIL 0 0 0 0 0 bk) (iv_index _ _ _ Hi)) as (Hp & Hlo & Hhi).
  fold p in Hlo, Hhi. pose proof (co_entries _ (di_cache _ _ _ (iv_disk _ _ _ Hi))) as Hok. rewrite Forall_forall in Hok.
  rewrite <- (take_drop p (index_cache s)) at 1. rewrite filter_app.
  rewrite (filter_none _ (take p (index_cache s))).
  - cbn [app]. apply filter_same. intros e [k He]%list_elem_of_lookup_1. rewrite lookup_drop in He.
    specialize (Hhi (p + k)%nat e ltac:(lia) He). rewrite elt_spec in Hhi. cbn in Hhi. lia.
  - intros e [k He]%list_elem_of_lookup_1. pose proof (lookup_lt_Some _ _ _ He) as Hk. rewrite length_take in Hk.
    rewrite lookup_take_lt in He by lia. specialize (Hlo k e ltac:(lia) He). rewrite elt_spec in Hlo. cbn in Hlo.
    destruct (Hok e ltac:(by eapply list_elem_of_lookup_2)) as [[Hh Hl] _ _ _ _]. unfold is_u64 in *. lia.
Qed.

(** A range scan visits exactly the objects whose boundary key lies between the
    two bounds, each once, in the order of (key, id), and stops at the first
    answer of the callback other than 0, which it returns. *)
Theorem range_scan_exact s A bk_lo bk_hi : store_inv s A → is_u64 bk_lo → bk_lo ≤ bk_hi →
  ∃ l, (∀ oid o, (oid, o) ∈ l ↔ objects A !! oid = Some o ∧ bk_lo ≤ o_key o ≤ bk_hi) ∧ StronglySorted before l ∧
    ∀ (X : Type) (cb : anx_uuid → Z → Z → X → Z * X) arg,
      anx_disk_range_scan bk_lo bk_hi (Some cb) arg s = visit cb l arg.
Proof.
  intros (d & Hi & Hw) Hbk Hle. pose proof Hi as [_ Hm Hix _ _ _ _ Hdisk]. pose proof Hdisk as [_ _ _ _ _ Hc Hrep].
  set (f e := (ie_oid e, default (Object 0 0 []) (objects A !! ie_oid e))).
  assert (∀ e, e ∈ index_cache s → ∃ o, objects A !! ie_oid e = Some o ∧ f e = (ie_oid e, o) ∧
    o_key o = ie_boundary_key e ∧ o_type o = ie_obj_type e) as Hf.
  { intros e He. destruct (rp_stored _ _ _ Hrep e He) as (o & Ho & Ee & _). exists o. unfold f. rewrite Ho. by rewrite Ee. }
  exists (f <$> filter (λ e, bk_lo ≤ ie_boundary_key e ≤ bk_hi) (index_cache s)). split_and!.
  - intros oid o. rewrite list_elem_of_fmap. split.
    + intros (e & Heq & [Hk He]%list_elem_of_filter). destruct (Hf e He) as (o' & Ho' & Hfe & Hk' & _).
      rewrite Hfe in Heq. injection Heq as -> ->. by rewrite Hk'.
    + intros [Ho Hk]. destruct (rp_indexed _ _ _ Hrep oid o Ho) as (e & He & <-). exists e.
      destruct (Hf e He) as (o' & Ho' & Hfe & Hk' & _). simplify_eq. split; [done|]. apply list_elem_of_filter. by rewrite <- Hk'.
  - apply scan_order; [apply Hc|]. intros e He. by destruct (Hf e He) as (o & _ & -> & ? & _).
  - intros X cb arg. unfold anx_disk_range_scan. rewrite Hm. cbn [negb]. destruct (Z.ltb_spec bk_hi bk_lo); [lia|].
    rewrite firstn_count by apply Hix. rewrite (scan_start s A d) by done.
    set (p := Z.to_nat _). assert (∀ e, e ∈ drop p (index_cache s) → e ∈ index_cache s) as Hsub.
    { intros e He. rewrite <- (take_drop p (index_cache s)). apply elem_of_app. by right. }
    apply scan_loop_visit.
    + intros i j a b Hij Ha Hb. rewrite lookup_drop in Ha, Hb. eapply (co_sorted _ Hc (p + i)%nat (p + j)%nat); [lia|done|done].
    + by apply Forall_drop, Hc.
    + intros e He. by destruct (Hf e (Hsub e He)) as (o & _ & -> & ? & ?).
Qed.

(** ** Crashes *)

(** C36: Until the index is flushed, a write is harmless.  Whatever the device does
    with the intent record and with the data (it may fail, or take any part of
    them), the drive that comes back with those contents mounts, and holds
    exactly the objects it held before. *)
Theorem crash_before_flush_safe s A d oid o d2 :
  inv_on s A d → object_ok oid o → used A + sectors_for (object_size o) ≤ room A →
  (∃ d1, dev (write_data oid (o_data o) (used A) (sectors_for (object_size o)) s).2 = Some d1 ∧ agree (λ _, True) d1 d2) →
  works d2 → ∃ s', anx_disk_store_init (boot (Some d2)) = (ANX_OK, s') ∧ store_inv s' A.
Proof.
  intros Hi Ho Hfit (d1 & Hd1 & Ha2) Hw. pose proof Hi as [Hd Hm Hix Hsb _ _ _ Hdisk]. pose proof Hdisk as [Hroom Hused _ _ _ _ _].
  destruct (write_data_spec s d oid (o_data o) (used A) Hd (io_mem _ Hix) (sw_head _ Hsb) (oo_data _ _ Ho))
    as (r & d1' & h & HE & Ha1 & _); [lia|fold (object_size o); lia|].
  fold (object_size o) in HE. rewrite HE in Hd1. injection Hd1 as <-.
  eapply (store_init_spec _ d2 (index_cache s)); [done|done|done|done|].
  eapply disk_inv_agree; [exact Ha2|done|]. eapply disk_inv_agree; [exact Ha1| |exact Hdisk]. unfold outside.
  change ANX_INDEX_START with 257. change ANX_JOURNAL_START with 1. change ANX_JOURNAL_SECTORS with 256.
  change ANX_DATA_START with 513 in *. lia.
Qed.
End theorems.

(** ** A drive that loses power

    [fd_fuse] is the number of sectors it still takes; a write that needs more
    leaves its first sectors on the medium and fails, as do all later ones. *)

Record fuse_disk := FuseDisk { fd_disk : mem_disk; fd_fuse : option nat }.

#[export] Instance fuse_driver : BlkDriver fuse_disk := {|
  drv_read d lba n := drv_read (fd_disk d) lba n;
  drv_write d lba buf :=
    match fd_fuse d with
    | None => let '(r, x) := drv_write (fd_disk d) lba buf in (r, FuseDisk x None)
    | Some n =>
        let '(r, x) := drv_write (fd_disk d) lba (firstn n buf) in
        (if (n <? length buf)%nat then ANX_EIO else r, FuseDisk x (Some (n - length buf)%nat))
    end;
  drv_capacity d := drv_capacity (fd_disk d);
|}.

#[export] Instance fuse_driver_laws : BlkDriverLaws fuse_disk.
Proof.
  refine {| contents d := contents (fd_disk d) |}.
  - intros d lba n buf. apply (law_read (fd_disk d)).
  - intros [x [n|]] lba buf r d' H0 H1; cbn [fd_fuse fd_disk drv_write fuse_driver drv_capacity] in *.
    + destruct (drv_write x lba (firstn n buf)) as [r1 x1] eqn:E. intros [= <- <-].
      assert (length (take n buf) = n `min` length buf)%nat as Hlen by apply length_take.
      assert (lba + Z.of_nat (length (take n buf)) ≤ drv_capacity x) as H2 by lia.
      destruct (law_write x lba (take n buf) r1 x1 H0 H2 E) as [Hout Hin]. cbn [fd_disk]. split.
      * intros i Hi. apply Hout. lia.
      * destruct (Nat.ltb_spec n (length buf)); [by intros|]. intros Hr i Hi. rewrite take_ge in Hin by lia. by apply Hin.
    + destruct (drv_write x lba buf) as [r1 x1] eqn:E. intros [= <- <-]. by apply (law_write _ _ _ _ _ H0 H1 E).
  - intros [x [n|]] lba buf r d'; cbn [fd_fuse fd_disk drv_write fuse_driver drv_capacity].
    + destruct (drv_write x lba (firstn n buf)) as [r1 x1] eqn:E. intros [= <- <-]. by apply (law_capacity _ _ _ _ _ E).
    + destruct (drv_write x lba buf) as [r1 x1] eqn:E. intros [= <- <-]. by apply (law_capacity _ _ _ _ _ E).
Defined.

#[export] Instance fuse_reliable : BlkReliable fuse_disk.
Proof.
  refine {| works d := works (fd_disk d) ∧ fd_fuse d = None |}.
  - intros d lba n [Hw _]. by apply (works_read (fd_disk d)).
  - intros [x f] lba buf [Hw Hf] H0 H1. cbn [fd_disk fd_fuse] in Hw, Hf. subst f. destruct (works_write x lba buf Hw H0 H1) as [Hok Hw'].
    cbn [fd_fuse fd_disk drv_write fuse_driver]. destruct (drv_write x lba buf). by cbn in *.
Defined.

(** Power fails after [n] more sectors; and the machine starts again. *)
Definition set_fuse (f : option nat) (s : store_state fuse_disk) : store_state fuse_disk :=
  s <| dev ::= fmap (λ d, FuseDisk (fd_disk d) f) |>.
Definition restart (s : store_state fuse_disk) : store_state fuse_disk :=
  (anx_disk_store_init (boot (dev (set_fuse None s)))).2.

Definition blank : store_state fuse_disk := boot (Some (FuseDisk (MemDisk 1000 ∅ true) None)).
Definition formatted : store_state fuse_disk := (anx_disk_format_forced None 5 6 blank).2.
Definition obj (k : Z) (l : list Z) : object := Object 7 k l.
Definition id (n : Z) : anx_uuid := Uuid 5 n.
Definition store_obj (n : Z) (l : list Z) (s : store_state fuse_disk) : store_state fuse_disk := (anx_disk_write_obj (id n) 7 l s).2.

Lemma disk_store_refines_map_witness :
  run run_op [OpWrite (id 1) (obj 4 [1; 2; 3]); OpRemount; OpRead (id 1) 2; OpDelete (id 1); OpExists (id 1)] formatted
  = [Code ANX_OK; Code ANX_OK; Data ANX_OK (Some ([1; 2], 3, 7)); Code ANX_OK; Found false].
Proof.
  destruct (disk_store_refines_map (FuseDisk (MemDisk 1000 ∅ true) None) blank None 5 6
    [OpWrite (id 1) (obj 4 [1; 2; 3]); OpRemount; OpRead (id 1) 2; OpDelete (id 1); OpExists (id 1)]) as (s' & E & H).
  - reflexivity.
  - split; reflexivity.
  - reflexivity.
  - split; vm_compute; [discriminate|reflexivity].
  - repeat constructor; vm_compute; (reflexivity || discriminate).
  - unfold formatted. rewrite E. cbn [snd]. rewrite H. vm_compute. reflexivity.
Defined.

Lemma formatted_inv : store_inv formatted (Abstract ∅ ANX_DATA_START 1000).
Proof.
  destruct (format_spec blank (FuseDisk (MemDisk 1000 ∅ true) None) None 5 6) as (s' & E & Hi); [done|done|done|by vm_compute|].
  unfold formatted. by rewrite E.
Qed.

(** Two objects with keys 4 and 9. *)
Definition stocked : store_state fuse_disk := (run_op (OpWrite (id 2) (obj 9 [5])) (run_op (OpWrite (id 1) (obj 4 [1; 2; 3])) formatted).2).2.
Definition stock : abstract := Abstract (<[id 2 := obj 9 [5]]> (<[id 1 := obj 4 [1; 2; 3]]> ∅)) 515 1000.

Lemma obj_ok n k l : is_u64 n → is_u64 k → payload_ok l → object_ok (id n) (obj k l).
Proof. intros ? ? ?. by constructor. Qed.

Lemma stocked_inv : store_inv stocked stock.
Proof.
  destruct (run_op_spec (OpWrite (id 1) (obj 4 [1; 2; 3])) formatted _ formatted_inv) as [_ H1]; [by apply obj_ok; vm_compute|].
  destruct (run_op_spec (OpWrite (id 2) (obj 9 [5])) _ _ H1) as [_ H2]; [by apply obj_ok; vm_compute|].
  unfold stocked. replace stock with (spec_op (OpWrite (id 2) (obj 9 [5])) (spec_op (OpWrite (id 1) (obj 4 [1; 2; 3]))
    (Abstract ∅ ANX_DATA_START 1000)).2).2; [exact H2|]. by vm_compute.
Qed.

Lemma range_scan_exact_witness :
  ∃ l, (∀ oid o, (oid, o) ∈ l ↔ objects stock !! oid = Some o ∧ 5 ≤ o_key o ≤ 20) ∧ StronglySorted before l ∧
    ∀ (X : Type) (cb : anx_uuid → Z → Z → X → Z * X) arg, anx_disk_range_scan 5 20 (Some cb) arg stocked = visit cb l arg.
Proof. apply (range_scan_exact stocked stock 5 20); [apply stocked_inv|split; [lia|reflexivity]|lia]. Defined.

(** A store when the power is about to fail; and the drive as it comes back. *)
Lemma dying_inv s A f : store_inv s A → ∃ d, inv_on (set_fuse f s) A (FuseDisk d f).
Proof.
  intros ([x f0] & [Hd ? Hix ? ? ? ? Hdisk] & _). exists x.
  constructor; [unfold set_fuse; cbn; by rewrite Hd|done|by constructor; apply Hix|done|done|done|done|].
  eapply (disk_inv_agree (λ _, True)); [|done|exact Hdisk]. done.
Qed.

Definition returned (s : store_state fuse_disk) : fuse_disk := FuseDisk (default (MemDisk 0 ∅ false) (fd_disk <$> dev s)) None.

Lemma returned_agree (s : store_state fuse_disk) : is_Some (dev s) → ∃ d1, dev s = Some d1 ∧ agree (λ _, True) d1 (returned s).
Proof. intros [[x f] Hd]. exists (FuseDisk x f). unfold returned. rewrite Hd. done. Qed.

(** The intent record is written, the data are not. *)
#[local] Abbreviation interrupted :=
  (write_data (id 3) (o_data (obj 2 [8; 8])) (used stock) (sectors_for (object_size (obj 2 [8; 8]))) (set_fuse (Some 1%nat) stocked)).2.

Lemma crash_before_flush_safe_witness :
  ∃ s', anx_disk_store_init (boot (Some (returned interrupted))) = (ANX_OK, s') ∧ store_inv s' stock.
Proof.
  destruct (dying_inv stocked stock (Some 1%nat) stocked_inv) as (d & Hi).
  assert (is_Some (dev interrupted)) as Hsome by (apply (bool_decide_eq_true_1 _); vm_compute; reflexivity).
  refine (crash_before_flush_safe _ stock _ _ _ _ Hi (obj_ok 3 2 [8; 8] _ _ _) _ (returned_agree interrupted Hsome) _).
  4: vm_compute; discriminate.
  4: split; vm_compute; reflexivity.
  all: vm_compute; done.
Defined.

(** After the index flush the same is not true.  Power fails between the index
    and the superblock: the new object is found after the restart, but the next
    free sector is not restored from the index, so the next object is written
    over it and the first one reads back with the data of the second. *)
Theorem crash_after_flush_overwrites :
  let s1 := anx_disk_write_obj (id 1) 7 [1; 2; 3] (set_fuse (Some 258%nat) formatted) in
  let s2 := restart s1.2 in
  let s3 := anx_disk_write_obj (id 2) 7 [9; 9; 9] s2 in
  s1.1 = ANX_EIO ∧ (anx_disk_read_obj (id 1) 100 s2).1 = (ANX_OK, Some ([1; 2; 3], 3, 7)) ∧
  s3.1 = ANX_OK ∧ (anx_disk_read_obj (id 1) 100 s3.2).1 = (ANX_OK, Some ([9; 9; 9], 3, 7)).
Proof. vm_compute. done. Qed.

(** Eleven objects. *)
Definition eleven : store_state fuse_disk := foldl (λ s i, store_obj (10 * i) [i] s) formatted (seqZ 1 11).

(** The index is not replaced atomically.  Eleven objects fill more than one
    sector of it; when power fails after the first sector of its next version,
    the restart succeeds and has silently lost an object (number 110) that the
    interrupted write had nothing to do with. *)
Theorem torn_index_loses_object :
  let s1 := anx_disk_write_obj (id 15) 7 [99] (set_fuse (Some 3%nat) eleven) in
  let s2 := restart s1.2 in
  s1.1 = ANX_EIO ∧ mounted s2 = true ∧
  map (λ i, anx_disk_obj_exists (id (10 * i)) eleven) (seqZ 1 11) = replicate 11 true ∧
  map (λ i, anx_disk_obj_exists (id (10 * i)) s2) (seqZ 1 11) = replicate 10 true ++ [false].
Proof. vm_compute. done. Qed.

(** Writing an object under a new key takes its entry out of the index before the
    memory for the new index is there: when that allocation fails, an object that
    was stored is gone from the mounted store. *)
Theorem rekey_without_memory_loses_object :
  let s := anx_disk_write_obj_bk (id 1) 7 5 [1; 2; 3] (stocked <| mem_ok := [true; false] |>) in
  anx_disk_obj_exists (id 1) stocked = true ∧ s.1 = ANX_ENOMEM ∧ anx_disk_obj_exists (id 1) s.2 = false.
Proof. vm_compute. done. Qed.

(** The size is rounded up in 32 bits: a payload of 2^32 - 1 bytes is given one
    sector, and a buffer of 512 bytes to be copied to. *)
Theorem sector_count_wraps : sectors_for (2 ^ 32 - 1) = 1.
Proof. reflexivity. Qed.
