(* ===== verification/BootLog.v ===== *)
(** * Boot logs: [kernel/core/log/bootlog.c], [bootlog_ring.c], [bootlog.h]

    Console output goes to a ring in memory; the text of a boot is kept in a
    session object of the disk store and, below the store, in one of eight slots
    at the end of the device.  The device and the store are those of
    [DiskStore.v].  The memory ring is a map from positions to characters (a
    position never written holds 0); messages on the console are not modelled.
    Of the session objects the pruning of old ones is modelled, not how they and
    their index are laid out in bytes. *)

From stdpp Require Import strings.
From S2P Require Import Prelude Uuid Cell CellStore Meta StateObject Blk MdSuper DiskStore.
#[local] Open Scope Z_scope.

Module BootLog.
Import Disk.

Definition ANX_BOOTLOG_RING_SIZE : Z := 256 * 1024.
Definition ANX_BOOTLOG_VERSION : Z := 1.
Definition ANX_VERSION : list Z := bytes_of "2026.9.18"%string.

(** ** The ring in memory *)

Record log_ring := LogRing {
  g_ring : gmap Z Z;
  g_head : Z;
  g_total : Z;
  g_ready : bool;
}.

Definition ring_putc (c : Z) (r : log_ring) : log_ring :=
  LogRing (<[g_head r := c]> (g_ring r))
    (if u32 (g_head r + 1) <? ANX_BOOTLOG_RING_SIZE then u32 (g_head r + 1) else 0)
    (if g_total r <? 0xFFFFFFFF then g_total r + 1 else g_total r) (g_ready r).

Definition anx_bootlog_putc (c : Z) (r : log_ring) : log_ring := if g_ready r then ring_putc c r else r.

Definition anx_bootlog_current_bytes (r : log_ring) : Z :=
  if g_total r <? ANX_BOOTLOG_RING_SIZE then g_total r else ANX_BOOTLOG_RING_SIZE.

(** The bytes copied. *)
Definition anx_bootlog_read_current (offset len : Z) (r : log_ring) : list Z :=
  let avail := anx_bootlog_current_bytes r in
  let start := if g_total r <? ANX_BOOTLOG_RING_SIZE then 0 else g_head r in
  when (avail <=? offset) || (len =? 0) ret [] ;;
  let len := if u32 (offset + len) >? avail then avail - offset else len in
  (λ i, default 0 (g_ring r !! (u32 (start + offset + i) mod ANX_BOOTLOG_RING_SIZE))) <$> seqZ 0 len.

(** What the ring holds before is kept, but no longer counts. *)
Definition anx_bootlog_early_init (r : log_ring) : log_ring := LogRing (g_ring r) 0 0 true.

(** ** The ring on the device *)

Definition ANX_BLOG_RING_MAGIC : Z := 0x424C4752.
Definition ANX_BLOG_RING_SLOTS : Z := 8.
Definition ANX_BLOG_SLOT_SECTORS : Z := 520.
Definition ANX_BLOG_RING_SECTORS : Z := ANX_BLOG_RING_SLOTS * ANX_BLOG_SLOT_SECTORS.
Definition ANX_BLOG_SLOT_PRUNED : Z := 1.

Record blog_slot_hdr := SlotHdr {
  sh_magic : Z;
  sh_version : Z;
  sh_seq : Z;
  sh_boot_time : Z;
  sh_log_bytes : Z;
  sh_flags : Z;
  sh_kver : list Z;  (* 32 bytes *)
}.

Definition slot_hdr_bytes (h : blog_slot_hdr) : list Z :=
  le 4 (sh_magic h) ++ le 4 (sh_version h) ++ le 8 (sh_seq h) ++ le 8 (sh_boot_time h) ++ le 4 (sh_log_bytes h)
  ++ le 4 (sh_flags h) ++ sh_kver h ++ replicate 448 0.

(** The sector buffer read as a header. *)
Definition slot_hdr_load (l : list Z) : blog_slot_hdr :=
  let '(magic, l) := take_le 4 l in
  let '(version, l) := take_le 4 l in
  let '(seq, l) := take_le 8 l in
  let '(time, l) := take_le 8 l in
  let '(bytes, l) := take_le 4 l in
  let '(flags, l) := take_le 4 l in
  let '(kver, _) := take_raw 32 l in
  SlotHdr magic version seq time bytes flags kver.

Record ring_state := RingState {
  g_ring_ok : bool;
  g_ring_start : Z;
  g_slot : Z;
  g_seq : Z;
}.

#[export] Instance eta_ring_state : Settable ring_state := λ r,
  RingState (g_ring_ok r) (g_ring_start r) (g_slot r) (g_seq r).

Section ring.
Context {D : Type} `{!BlkDriver D}.
Implicit Types (s : store_state D) (g : ring_state) (r : log_ring).

Definition slot_lba (g : ring_state) (slot : Z) : Z := u64 (g_ring_start g + slot * ANX_BLOG_SLOT_SECTORS).

(** The header in a slot, when it can be read and has the magic number, with the
    sector itself. *)
Definition read_slot (s : store_state D) (g : ring_state) (i : Z) : option (blog_slot_hdr * list Z) :=
  let '(e, buf) := active_read (slot_lba g i) 1 s in
  when negb (e =? ANX_OK) ret None ;;
  let h := slot_hdr_load (concat buf) in
  when negb (sh_magic h =? ANX_BLOG_RING_MAGIC) ret None ;;
  Some (h, concat buf).

Definition device_is_ours (s : store_state D) : bool :=
  let '(e, buf) := active_read ANX_SUPER_SECTOR 1 s in
  when negb (e =? ANX_OK) ret false ;;
  (take_le 4 (concat buf)).1 =? ANX_DISK_MAGIC.

(** The loop of [anx_bootlog_ring_init]: the highest sequence number seen and the
    slot after it. *)
Definition scan_slots (s : store_state D) (g : ring_state) : Z * Z :=
  foldl (λ '(best, next) i,
      match read_slot s g i with
      | None => (best, next)
      | Some (h, _) => if best <=? sh_seq h then (sh_seq h, (i + 1) mod ANX_BLOG_RING_SLOTS) else (best, next)
      end) (0, 0) (seqZ 0 ANX_BLOG_RING_SLOTS).

Definition anx_bootlog_ring_init (g : ring_state) (s : store_state D) : Z * ring_state :=
  let g := g <| g_ring_ok := false |> in
  match dev s with
  | None => (ANX_ENODEV, g)
  | Some d =>
      when negb (device_is_ours s) ret (ANX_EPERM, g) ;;
      let cap := active_capacity s in
      when cap <=? ANX_BLOG_RING_SECTORS + ANX_DATA_START ret (ANX_EFULL, g) ;;
      let g := g <| g_ring_start := cap - ANX_BLOG_RING_SECTORS |> in
      let '(best, next) := scan_slots s g in
      (ANX_OK, RingState true (g_ring_start g) next (u64 (best + 1)))
  end.

(** The text, sector by sector; [n] sectors are left. *)
Fixpoint flush_text (n : nat) (lba off have : Z) (r : log_ring) (s : store_state D) : Z * store_state D :=
  match n with
  | O => (ANX_OK, s)
  | S n =>
      when have <=? off ret (ANX_OK, s) ;;
      let len := if have - off >? 512 then 512 else have - off in
      let '(e, s) := active_write (u64 (lba + off / 512)) [zero_padded 512 (anx_bootlog_read_current off len r)] s in
      when negb (e =? ANX_OK) ret (ANX_EIO, s) ;;
      flush_text n lba (off + 512) have r s
  end.

Definition slot_max_bytes : Z := (ANX_BLOG_SLOT_SECTORS - 1) * 512.

(** The header this boot writes over [have] bytes of text. *)
Definition this_header (seq have : Z) : blog_slot_hdr :=
  SlotHdr ANX_BLOG_RING_MAGIC ANX_BOOTLOG_VERSION seq 0 have 0 (zero_padded 32 (anx_strlcpy ANX_VERSION 32)).

Definition anx_bootlog_ring_flush (g : ring_state) (r : log_ring) (s : store_state D) : Z * store_state D :=
  when negb (g_ring_ok g) ret (ANX_ENODEV, s) ;;
  let have := anx_bootlog_current_bytes r in
  let have := if have >? slot_max_bytes then slot_max_bytes else have in
  let '(e, s) := flush_text (Z.to_nat (ANX_BLOG_SLOT_SECTORS - 1)) (u64 (slot_lba g (g_slot g) + 1)) 0 have r s in
  when negb (e =? ANX_OK) ret (e, s) ;;
  active_write (slot_lba g (g_slot g)) [slot_hdr_bytes (this_header (g_seq g) have)] s.

(** [h->flags |= ANX_BLOG_SLOT_PRUNED] in the sector buffer. *)
Definition mark_pruned (h : blog_slot_hdr) (sect : list Z) : list Z := patch 28 (le 4 (Z.lor (sh_flags h) ANX_BLOG_SLOT_PRUNED)) sect.

Fixpoint prune_loop (slots : list Z) (seq : Z) (g : ring_state) (s : store_state D) : Z * store_state D :=
  match slots with
  | [] => (ANX_ENOENT, s)
  | i :: slots =>
      match read_slot s g i with
      | Some (h, sect) =>
          if sh_seq h =? seq then active_write (slot_lba g i) [mark_pruned h sect] s else prune_loop slots seq g s
      | None => prune_loop slots seq g s
      end
  end.

Definition anx_bootlog_ring_prune (seq : Z) (g : ring_state) (s : store_state D) : Z * store_state D :=
  when negb (g_ring_ok g) ret (ANX_ENODEV, s) ;;
  prune_loop (seqZ 0 ANX_BLOG_RING_SLOTS) seq g s.

Record anx_blog_ring_entry := RingEntry { re_slot : Z; re_seq : Z; re_log_bytes : Z; re_pruned : bool; re_kver : list Z }.

Definition until_zero (l : list Z) : list Z := (fix go l := match l with [] => [] | c :: l => if c =? 0 then [] else c :: go l end) l.

Definition ring_entry (i : Z) (h : blog_slot_hdr) : anx_blog_ring_entry :=
  RingEntry i (sh_seq h) (sh_log_bytes h) (negb (Z.land (sh_flags h) ANX_BLOG_SLOT_PRUNED =? 0))
    (anx_strlcpy (until_zero (sh_kver h)) 32).

(** The entries stored, in slot order; their number is [*count]. *)
Definition anx_bootlog_ring_list (out : bool) (max : Z) (g : ring_state) (s : store_state D) : Z * list anx_blog_ring_entry :=
  when negb out ret (ANX_EINVAL, []) ;;
  when negb (g_ring_ok g) ret (ANX_ENODEV, []) ;;
  (ANX_OK, firstn (Z.to_nat max) (omap (λ i, (λ '(h, _), ring_entry i h) <$> read_slot s g i) (seqZ 0 ANX_BLOG_RING_SLOTS))).
End ring.

(** ** Session objects: the entries of the index, and the pruning at boot *)

Record anx_bootlog_idx_entry := IdxEntry { bi_oid : anx_uuid; bi_boot_time : Z; bi_boot_seq : Z; bi_log_bytes : Z }.

(** The entries kept, and the sessions deleted in order. *)
Fixpoint prune_loop_sessions (cutoff : Z) (l : list anx_bootlog_idx_entry) : list anx_bootlog_idx_entry * list anx_uuid :=
  match l with
  | [] => ([], [])
  | e :: l =>
      let '(kept, gone) := prune_loop_sessions cutoff l in
      if (0 <? bi_boot_time e) && (bi_boot_time e <? cutoff) then (kept, bi_oid e :: gone) else (e :: kept, gone)
  end.

Definition prune_sessions (boot_time retention_days : Z) (l : list anx_bootlog_idx_entry) : list anx_bootlog_idx_entry * list anx_uuid :=
  if (boot_time >? 0) && (retention_days >? 0)
  then prune_loop_sessions (u64 (boot_time - u64 (retention_days * 86400))) l else (l, []).
End BootLog.
