(* ===== verification/BootLogs.v ===== *)
(** * What the boot logs keep

    The memory ring holds the newest 256 KiB of console output in order
    ([log_ring_newest]); the ring on the device holds the logs of the last eight
    boots ([ring_keeps_last_boots]) and writes nowhere else ([ring_confined]).
    At the end, where the code falls short: the store does not know of the ring
    ([ring_overwrites_object]), and an interrupted flush leaves the old header
    over new text ([torn_flush_mixes_logs]). *)

From S2P Require Import Prelude Uuid Blk MdSuper DiskStore DiskProofs DiskRefine DiskMap BootLog.
#[local] Open Scope Z_scope.

Module BootLogs.
Import Disk BootLog.

(** ** The memory ring *)

(** The characters [cs] were put since the ring was started. *)
Record logged (cs : list Z) (r : log_ring) : Prop := Logged {
  lg_ready : g_ready r = true;
  lg_total : g_total r = Z.min (Z.of_nat (length cs)) (2 ^ 32 - 1);
  lg_head : g_head r = Z.of_nat (length cs) mod ANX_BOOTLOG_RING_SIZE;
  lg_data : ∀ i : nat, (i < length cs)%nat → Z.of_nat (length cs) - ANX_BOOTLOG_RING_SIZE ≤ Z.of_nat i →
    g_ring r !! (Z.of_nat i mod ANX_BOOTLOG_RING_SIZE) = cs !! i;
}.

Lemma logged_start r : logged [] (anx_bootlog_early_init r).
Proof. constructor; [done|done|done|]. intros i Hi. cbn in Hi. lia. Qed.

Lemma head_step n : 0 ≤ n →
  (if u32 (n mod ANX_BOOTLOG_RING_SIZE + 1) <? ANX_BOOTLOG_RING_SIZE then u32 (n mod ANX_BOOTLOG_RING_SIZE + 1) else 0)
  = (n + 1) mod ANX_BOOTLOG_RING_SIZE.
Proof.
  intros Hn. unfold ANX_BOOTLOG_RING_SIZE. pose proof (Z.mod_pos_bound n (256 * 1024) ltac:(lia)) as Hm.
  rewrite u32_small by (unfold is_u32; lia). rewrite <- (Z.add_mod_idemp_l n) by lia.
  destruct (Z.ltb_spec (n mod (256 * 1024) + 1) (256 * 1024)); [by rewrite (Z.mod_small (n mod (256 * 1024) + 1)) by lia|].
  replace (n mod (256 * 1024) + 1) with (256 * 1024) by lia. done.
Qed.

Lemma mod_ne i n m : 0 < m → n - m < i < n → i mod m ≠ n mod m.
Proof.
  intros Hm Hi E. assert ((n - i) mod m = 0) as H0 by (rewrite Zminus_mod, E, Z.sub_diag; by apply Z.mod_0_l; lia).
  rewrite Z.mod_small in H0 by lia. lia.
Qed.

Lemma logged_putc cs r c : logged cs r → logged (cs ++ [c]) (anx_bootlog_putc c r).
Proof.
  intros [Hr Ht Hh Hd]. unfold anx_bootlog_putc. rewrite Hr. unfold ring_putc.
  constructor; cbn [g_ready g_total g_head g_ring]; rewrite ?length_app; cbn [length]; rewrite ?Nat2Z.inj_add; [done| | |].
  - rewrite Ht. change (0xFFFFFFFF) with (2 ^ 32 - 1). destruct (Z.ltb_spec (Z.min (Z.of_nat (length cs)) (2 ^ 32 - 1)) (2 ^ 32 - 1)); lia.
  - rewrite Hh. apply head_step. lia.
  - intros i Hi Hlo. rewrite Hh. destruct (decide (i = length cs)) as [->|Hne].
    + rewrite lookup_insert_eq. by rewrite lookup_app_r, Nat.sub_diag by lia.
    + rewrite lookup_insert_ne by (apply not_eq_sym, mod_ne; unfold ANX_BOOTLOG_RING_SIZE in *; lia).
      rewrite lookup_app_l by lia. apply Hd; lia.
Qed.

(** What is left of the output: its newest 256 KiB. *)
Definition newest (cs : list Z) : list Z := drop (Z.to_nat (Z.of_nat (length cs) - ANX_BOOTLOG_RING_SIZE)) cs.

Lemma newest_length cs : Z.of_nat (length (newest cs)) = Z.min (Z.of_nat (length cs)) ANX_BOOTLOG_RING_SIZE.
Proof. unfold newest. rewrite length_drop. unfold ANX_BOOTLOG_RING_SIZE. lia. Qed.

Lemma current_bytes cs r : logged cs r → anx_bootlog_current_bytes r = Z.of_nat (length (newest cs)).
Proof.
  intros [_ Ht _ _]. rewrite newest_length. unfold anx_bootlog_current_bytes. rewrite Ht. unfold ANX_BOOTLOG_RING_SIZE.
  destruct (Z.ltb_spec (Z.min (Z.of_nat (length cs)) (2 ^ 32 - 1)) (256 * 1024)); lia.
Qed.

Lemma read_current cs r offset len :
  logged cs r → 0 ≤ offset → 0 ≤ len → offset + len < 2 ^ 32 →
  anx_bootlog_read_current offset len r = take (Z.to_nat len) (drop (Z.to_nat offset) (newest cs)).
Proof.
  intros Hlog Ho Hl Hol. unfold anx_bootlog_read_current. rewrite (current_bytes cs r Hlog). set (n := newest cs).
  pose proof (newest_length cs) as Hn. fold n in Hn. destruct (Z.leb_spec (Z.of_nat (length n)) offset) as [Hge|Hlt].
  { cbn [orb]. rewrite drop_ge by lia. by rewrite take_nil. }
  destruct (Z.eqb_spec len 0) as [->|Hl0]; [done|]. cbn [orb]. rewrite u32_small by (unfold is_u32; lia).
  set (len' := if offset + len >? Z.of_nat (length n) then Z.of_nat (length n) - offset else len).
  assert (len' = Z.min len (Z.of_nat (length n) - offset)) as Hlen'.
  { unfold len'. rewrite Z.gtb_ltb. destruct (Z.ltb_spec (Z.of_nat (length n)) (offset + len)); lia. }
  apply list_eq. intros k. destruct (decide (Z.of_nat k < len')) as [Hk|Hk].
  - rewrite list_lookup_fmap, lookup_seqZ_lt by lia. cbn [fmap option_fmap option_map]. rewrite lookup_take_lt, lookup_drop by lia.
    unfold n, newest. rewrite lookup_drop. set (base := Z.to_nat (Z.of_nat (length cs) - ANX_BOOTLOG_RING_SIZE)).
    assert (base + (Z.to_nat offset + k) < length cs)%nat as Hin.
    { assert (base + length n = length cs)%nat by (unfold n, newest; rewrite length_drop; fold base; unfold base, ANX_BOOTLOG_RING_SIZE; lia). lia. }
    destruct Hlog as [_ Ht Hh Hd]. pose proof (Hd _ Hin ltac:(unfold base, ANX_BOOTLOG_RING_SIZE in *; lia)) as E.
    assert (u32 ((if g_total r <? ANX_BOOTLOG_RING_SIZE then 0 else g_head r) + offset + (0 + Z.of_nat k)) mod ANX_BOOTLOG_RING_SIZE
      = Z.of_nat (base + (Z.to_nat offset + k)) mod ANX_BOOTLOG_RING_SIZE) as ->.
    { rewrite Ht, Hh. unfold base. unfold ANX_BOOTLOG_RING_SIZE in *.
      pose proof (Z.mod_pos_bound (Z.of_nat (length cs)) (256 * 1024) ltac:(lia)).
      destruct (Z.ltb_spec (Z.min (Z.of_nat (length cs)) (2 ^ 32 - 1)) (256 * 1024)).
      - rewrite u32_small by (unfold is_u32; lia). f_equal. lia.
      - rewrite u32_small by (unfold is_u32; lia). rewrite <- Z.add_assoc, Z.add_mod_idemp_l by lia.
        replace (Z.of_nat (length cs) + (offset + (0 + Z.of_nat k)))
          with (Z.of_nat (Z.to_nat (Z.of_nat (length cs) - 256 * 1024) + (Z.to_nat offset + k)) + 1 * (256 * 1024)) by lia.
        by rewrite Z.mod_add by lia. }
    rewrite E. by destruct (lookup_lt_is_Some_2 _ _ Hin) as [x ->].
  - rewrite (proj2 (lookup_ge_None _ k)) by (rewrite length_fmap, length_seqZ; lia).
    symmetry. apply lookup_ge_None. rewrite length_take, length_drop. lia.
Qed.

(** The memory ring presents the newest 256 KiB of everything put since it was
    started, in order, whatever it held before. *)
Theorem log_ring_newest r cs offset len :
  0 ≤ offset → 0 ≤ len → offset + len < 2 ^ 32 →
  let r' := foldl (λ r c, anx_bootlog_putc c r) (anx_bootlog_early_init r) cs in
  anx_bootlog_current_bytes r' = Z.of_nat (length (newest cs)) ∧
  anx_bootlog_read_current offset len r' = take (Z.to_nat len) (drop (Z.to_nat offset) (newest cs)).
Proof.
  intros Ho Hl Hol r'. assert (logged cs r') as Hlog.
  { unfold r'. clear r'. change cs with ([] ++ cs) at 1. generalize (logged_start r). generalize (anx_bootlog_early_init r) as q, (@nil Z) as l.
    induction cs as [|c cs IH]; intros q l H; [by rewrite app_nil_r|]. cbn [foldl]. rewrite (cons_middle c), app_assoc. apply IH. by apply logged_putc. }
  split; [by apply current_bytes|by apply read_current].
Qed.

(** ** The ring on the device *)

(** The log of a boot. *)
Record boot_log := BootText { bl_text : list Z; bl_pruned : bool }.

Definition boot_header (j : Z) (b : boot_log) : blog_slot_hdr :=
  SlotHdr ANX_BLOG_RING_MAGIC ANX_BOOTLOG_VERSION j 0 (Z.of_nat (length (bl_text b))) (if bl_pruned b then 1 else 0)
    (zero_padded 32 (CellStore.anx_strlcpy ANX_VERSION 32)).

Definition text_ok (b : boot_log) : Prop := Z.of_nat (length (bl_text b)) ≤ ANX_BOOTLOG_RING_SIZE.

(** After [k] boots, the boot whose log slot [i] holds; none if not positive. *)
Definition slot_boot (k i : Z) : Z := k - (k - 1 - i) mod 8.

Definition sector_text (text : list Z) (k : Z) : list Z := zero_padded 512 (take 512 (drop (Z.to_nat (512 * k)) text)).

Lemma header_load j b : is_u64 j → text_ok b → slot_hdr_load (slot_hdr_bytes (boot_header j b)) = boot_header j b.
Proof.
  intros Hj Hb. unfold slot_hdr_load, slot_hdr_bytes, boot_header. cbn [sh_magic sh_version sh_seq sh_boot_time sh_log_bytes sh_flags sh_kver].
  unfold text_ok, ANX_BOOTLOG_RING_SIZE, is_u64 in *.
  rewrite take_le_app by (vm_compute; split; [discriminate|reflexivity]). rewrite take_le_app by (vm_compute; split; [discriminate|reflexivity]).
  rewrite take_le_app by (change (256 ^ Z.of_nat 8) with (2 ^ 64); lia). rewrite take_le_app by (vm_compute; split; [discriminate|reflexivity]).
  rewrite take_le_app by (change (256 ^ Z.of_nat 4) with (2 ^ 32); lia).
  rewrite take_le_app by (destruct (bl_pruned b); vm_compute; split; (discriminate || reflexivity)).
  by rewrite take_raw_app by reflexivity.
Qed.

Section device_ring.
Context {D : Type} {BD : BlkDriver D} {BL : BlkDriverLaws D} {BR : BlkReliable D}.
Implicit Types (d : D) (s : store_state D) (L : list boot_log).

Definition ring_base d : Z := drv_capacity d - ANX_BLOG_RING_SECTORS.
Definition slot_sector d (i : Z) : Z := ring_base d + i * ANX_BLOG_SLOT_SECTORS.

Definition room d : Prop := ANX_BLOG_RING_SECTORS + ANX_DATA_START < drv_capacity d < 2 ^ 64.

(** Slot [i] holds the log [b] of boot [j]. *)
Definition slot_holds d (i j : Z) (b : boot_log) : Prop :=
  contents d (slot_sector d i) = slot_hdr_bytes (boot_header j b) ∧
  ∀ k, 0 ≤ k → 512 * k < Z.of_nat (length (bl_text b)) → contents d (slot_sector d i + 1 + k) = sector_text (bl_text b) k.

Definition slot_empty d (i : Z) : Prop := sh_magic (slot_hdr_load (contents d (slot_sector d i))) ≠ ANX_BLOG_RING_MAGIC.

Definition slot_ok d L (i : Z) : Prop :=
  let j := slot_boot (Z.of_nat (length L)) i in
  if decide (j ≤ 0) then slot_empty d i else ∃ b, L !! Z.to_nat (j - 1) = Some b ∧ slot_holds d i j b.

Record ring_on d L : Prop := RingOn {
  rn_works : works d;
  rn_ours : (take_le 4 (contents d ANX_SUPER_SECTOR)).1 = ANX_DISK_MAGIC;
  rn_room : room d;
  rn_texts : Forall text_ok L;
}.

Definition ring_inv d L : Prop := ring_on d L ∧ ∀ i, 0 ≤ i < 8 → slot_ok d L i.

Lemma slot_sector_range d i : room d → 0 ≤ i < 8 → 513 < slot_sector d i ∧ slot_sector d i + ANX_BLOG_SLOT_SECTORS ≤ drv_capacity d.
Proof.
  unfold room, slot_sector, ring_base, ANX_BLOG_RING_SECTORS, ANX_BLOG_RING_SLOTS, ANX_BLOG_SLOT_SECTORS, ANX_DATA_START,
    ANX_INDEX_START, ANX_INDEX_SECTORS, ANX_JOURNAL_START, ANX_JOURNAL_SECTORS. lia.
Qed.

Lemma slot_lba_sector d g i : room d → 0 ≤ i < 8 → g_ring_start g = ring_base d → slot_lba g i = slot_sector d i.
Proof.
  intros Hr Hi Hg. unfold slot_lba. rewrite Hg. fold (slot_sector d i). pose proof (slot_sector_range d i Hr Hi).
  apply u64_small. unfold room in Hr. unfold is_u64, ANX_BLOG_SLOT_SECTORS in *. lia.
Qed.

Lemma read_one s d lba : dev s = Some d → works d → 0 ≤ lba → lba + 1 ≤ drv_capacity d → active_read lba 1 s = (ANX_OK, [contents d lba]).
Proof. intros Hd Hw H0 H1. by rewrite (blk_read_ok s d lba 1). Qed.

(** What the code sees in a slot. *)
Definition slot_view L (i : Z) : option (blog_slot_hdr * list Z) :=
  let j := slot_boot (Z.of_nat (length L)) i in
  if decide (j ≤ 0) then None
  else (λ b, (boot_header j b, slot_hdr_bytes (boot_header j b))) <$> L !! Z.to_nat (j - 1).

Lemma slot_boot_range k i : 0 ≤ k → 0 ≤ i < 8 → slot_boot k i ≤ k ∧ (0 < slot_boot k i → k - 8 < slot_boot k i).
Proof. intros. unfold slot_boot. pose proof (Z.mod_pos_bound (k - 1 - i) 8 ltac:(lia)). lia. Qed.

Lemma read_slot_view s d g L i :
  ring_inv d L → dev s = Some d → g_ring_start g = ring_base d → Z.of_nat (length L) < 2 ^ 64 → 0 ≤ i < 8 → read_slot s g i = slot_view L i.
Proof.
  intros [[Hw _ Hr Ht] Hs] Hd Hg Hk Hi. unfold read_slot. rewrite (slot_lba_sector d g i Hr Hi Hg).
  pose proof (slot_sector_range d i Hr Hi) as Hrange. unfold ANX_BLOG_SLOT_SECTORS in Hrange. rewrite (read_one s d) by (done || lia).
  cbn [Z.eqb ANX_OK negb concat app]. rewrite app_nil_r. specialize (Hs i Hi). unfold slot_ok, slot_view in *.
  destruct (decide (slot_boot (Z.of_nat (length L)) i ≤ 0)) as [Hj|Hj].
  - unfold slot_empty in Hs. apply Z.eqb_neq in Hs. by rewrite Hs.
  - destruct Hs as (b & Hb & Hc & _). rewrite Hc, Hb. rewrite Forall_lookup in Ht. specialize (Ht _ _ Hb).
    rewrite header_load by (done || (destruct (slot_boot_range (Z.of_nat (length L)) i); unfold is_u64; lia)). done.
Qed.

(** *** Claiming a slot *)

Definition scan_step (f : Z → option Z) (bn : Z * Z) (i : Z) : Z * Z :=
  match f i with None => bn | Some q => if bn.1 <=? q then (q, (i + 1) mod 8) else bn end.

Lemma scan_spec f l : ∀ bn,
  let r := foldl (scan_step f) bn l in
  bn.1 ≤ r.1 ∧ (∀ i q, i ∈ l → f i = Some q → q ≤ r.1) ∧ (r = bn ∨ ∃ i, i ∈ l ∧ f i = Some r.1 ∧ r.2 = (i + 1) mod 8).
Proof.
  induction l as [|x l IH]; intros bn; cbn [foldl]; [split; [lia|]; split; [intros i q Hi; by apply elem_of_nil in Hi|by left]|].
  destruct (IH (scan_step f bn x)) as (Hle & Hall & Hr). assert (bn.1 ≤ (scan_step f bn x).1 ∧ ∀ q, f x = Some q → q ≤ (scan_step f bn x).1) as [H1 H2].
  { unfold scan_step. destruct (f x) as [q|]; [|split; [lia|done]]. destruct (Z.leb_spec bn.1 q); cbn; split; [lia| |lia|]; intros ? [= <-]; lia. }
  split; [lia|]. split.
  - intros i q [->|Hi]%elem_of_cons Hq; [specialize (H2 _ Hq); lia|by apply (Hall i)].
  - destruct Hr as [Hr|(i & Hi & Hf & Hn)]; [|right; exists i; split; [apply elem_of_cons; by right|done]].
    rewrite Hr. unfold scan_step in *. destruct (f x) as [q|] eqn:E; [|by left]. destruct (bn.1 <=? q) eqn:Eq; [|by left].
    right. exists x. split; [apply elem_of_cons; by left|done].
Qed.

Lemma slot_boot_newest k i : 0 < k → 0 ≤ i < 8 → slot_boot k i = k → i = (k - 1) mod 8.
Proof. intros. unfold slot_boot in *. Z.to_euclidean_division_equations. lia. Qed.

Lemma slot_boot_last k : 0 < k → slot_boot k ((k - 1) mod 8) = k.
Proof.
  intros. unfold slot_boot. rewrite Zminus_mod_idemp_r, Z.sub_diag. rewrite Z.mod_0_l by lia. lia.
Qed.

Lemma scan_slots_spec s d g L :
  ring_inv d L → dev s = Some d → g_ring_start g = ring_base d → Z.of_nat (length L) < 2 ^ 64 →
  scan_slots s g = (Z.of_nat (length L), Z.of_nat (length L) mod 8).
Proof.
  intros Hinv Hd Hg Hk. set (k := Z.of_nat (length L)). set (f := λ i, (λ '(h, _), sh_seq h) <$> slot_view L i).
  assert (scan_slots s g = foldl (scan_step f) (0, 0) (seqZ 0 8)) as ->.
  { unfold scan_slots. assert (∀ l bn, (∀ i, i ∈ l → 0 ≤ i < 8) → foldl (λ '(best, next) i, match read_slot s g i with None => (best, next)
      | Some (h, _) => if best <=? sh_seq h then (sh_seq h, (i + 1) mod ANX_BLOG_RING_SLOTS) else (best, next) end) bn l = foldl (scan_step f) bn l) as H.
    { induction l as [|i l IH]; intros [b n] Hl; [done|]. cbn [foldl]. rewrite (read_slot_view s d g L i Hinv Hd Hg Hk) by (apply Hl, elem_of_cons; by left).
      rewrite IH by (intros; apply Hl, elem_of_cons; by right). f_equal. unfold scan_step, f. by destruct (slot_view L i) as [[h ?]|]. }
    apply H. intros i Hi. apply elem_of_seqZ in Hi. unfold ANX_BLOG_RING_SLOTS in Hi. lia. }
  destruct (scan_spec f (seqZ 0 8) (0, 0)) as (H0 & Hall & Hr). set (r := foldl (scan_step f) (0, 0) (seqZ 0 8)) in *. clearbody r.
  assert (∀ i q, f i = Some q → q = slot_boot k i ∧ 0 < q) as Hf.
  { intros i q. unfold f, slot_view. fold k. destruct (decide (slot_boot k i ≤ 0)); [done|]. destruct (L !! _); [|done]. cbn. intros [= <-]. lia. }
  destruct (decide (k = 0)) as [Hk0|Hk0].
  - rewrite Hk0. destruct Hr as [->|(i & Hi & Hfi & _)]; [done|]. apply Hf in Hfi as [Hq Hpos]. unfold slot_boot in Hq.
    pose proof (Z.mod_pos_bound (k - 1 - i) 8 ltac:(lia)). lia.
  - assert (f ((k - 1) mod 8) = Some k) as Hfk.
    { unfold f, slot_view. fold k. rewrite slot_boot_last by lia. rewrite decide_False by lia.
      destruct (lookup_lt_is_Some_2 L (Z.to_nat (k - 1)) ltac:(lia)) as [b ->]. done. }
    assert (k ≤ r.1) as Hge. { apply (Hall _ _) in Hfk; [done|]. apply elem_of_seqZ. pose proof (Z.mod_pos_bound (k - 1) 8 ltac:(lia)). lia. }
    destruct Hr as [->|(i & Hi & Hfi & Hn)]; [cbn in Hge; lia|]. apply elem_of_seqZ in Hi. destruct (Hf _ _ Hfi) as [Hq _].
    destruct (slot_boot_range k i) as [Hle _]; [lia|lia|]. assert (slot_boot k i = k) as Hik by lia.
    apply slot_boot_newest in Hik; [|lia|lia]. destruct r as [b n]; cbn in *. f_equal; [lia|]. rewrite Hn, Hik, Z.add_mod_idemp_l by lia. f_equal. lia.
Qed.

Definition ring_claimed d L : ring_state := RingState true (ring_base d) (Z.of_nat (length L) mod 8) (Z.of_nat (length L) + 1).

Lemma ring_init_spec g s d L :
  ring_inv d L → dev s = Some d → Z.of_nat (length L) < 2 ^ 64 - 1 → anx_bootlog_ring_init g s = (ANX_OK, ring_claimed d L).
Proof.
  intros Hinv Hd Hk. pose proof Hinv as [[Hw Hours Hr _] _]. unfold anx_bootlog_ring_init. rewrite Hd.
  assert (device_is_ours s = true) as ->.
  { unfold device_is_ours. destruct (slot_sector_range d 0 Hr ltac:(lia)) as [H0 H1]. unfold ANX_BLOG_SLOT_SECTORS in H1.
    rewrite (read_one s d) by (done || unfold ANX_SUPER_SECTOR; lia). cbn [Z.eqb ANX_OK negb concat app]. rewrite app_nil_r, Hours. done. }
  cbn [negb]. unfold active_capacity. rewrite Hd. destruct (Z.leb_spec (drv_capacity d) (ANX_BLOG_RING_SECTORS + ANX_DATA_START)) as [Hle|_]; [unfold room in Hr; lia|].
  rewrite (scan_slots_spec s d _ L Hinv Hd) by (done || lia). cbn [g_ring_start update_field]. rewrite u64_small by (unfold is_u64; lia). done.
Qed.

(** *** Writing a log *)

(** Every write of one sector. *)
Lemma write_one s d lba (x : list Z) : dev s = Some d → 0 ≤ lba → lba + 1 ≤ drv_capacity d →
  ∃ r d', active_write lba [x] s = (r, s <| dev := Some d' |>) ∧ agree (λ i, i ≠ lba) d d' ∧
    (works d → r = ANX_OK ∧ works d' ∧ contents d' lba = x).
Proof.
  intros Hd H0 H1. destruct (blk_write_spec s d lba [x] Hd H0 H1) as (r & d' & E & Ha & Hw). exists r, d'. split; [done|]. split.
  - eapply agree_weaken; [|exact Ha]. intros i Hi. unfold outside. cbn. lia.
  - intros Hwd. destruct (Hw Hwd) as (Hr & Hwd' & Hh). split; [done|]. split; [done|].
    pose proof (holds_lookup d' lba [x] 0 x Hh eq_refl) as Hc. by rewrite Z.add_0_r in Hc.
Qed.

Lemma flush_text_spec text r lba n : ∀ m s d,
  (∀ off len, 0 ≤ off → 0 ≤ len → off + len < 2 ^ 32 → anx_bootlog_read_current off len r = take (Z.to_nat len) (drop (Z.to_nat off) text)) →
  dev s = Some d → 0 ≤ m → 0 ≤ lba → lba + m + Z.of_nat n ≤ drv_capacity d → drv_capacity d < 2 ^ 64 →
  Z.of_nat (length text) ≤ ANX_BOOTLOG_RING_SIZE → Z.of_nat (length text) ≤ 512 * (m + Z.of_nat n) →
  ∃ e d', flush_text n lba (512 * m) (Z.of_nat (length text)) r s = (e, s <| dev := Some d' |>) ∧
    agree (outside (lba + m) (Z.of_nat n)) d d' ∧
    (works d → e = ANX_OK ∧ works d' ∧ ∀ k, m ≤ k → 512 * k < Z.of_nat (length text) → contents d' (lba + k) = sector_text text k).
Proof.
  induction n as [|n IH]; intros m s d Hread Hd Hm Hl Hcap Hc64 Htext Hn; cbn [flush_text].
  { exists ANX_OK, d. split; [by rewrite <- Hd; destruct s|]. split; [done|]. intros Hw. split; [done|]. split; [done|]. lia. }
  destruct (Z.leb_spec (Z.of_nat (length text)) (512 * m)) as [Hend|Hmore].
  { exists ANX_OK, d. split; [by rewrite <- Hd; destruct s|]. split; [done|]. intros Hw. split; [done|]. split; [done|]. lia. }
  set (len := if Z.of_nat (length text) - 512 * m >? 512 then 512 else Z.of_nat (length text) - 512 * m).
  assert (0 ≤ len ≤ 512 ∧ len = Z.min 512 (Z.of_nat (length text) - 512 * m)) as [Hlen Hmin].
  { unfold len. rewrite Z.gtb_ltb. destruct (Z.ltb_spec 512 (Z.of_nat (length text) - 512 * m)); lia. }
  rewrite Hread by (unfold ANX_BOOTLOG_RING_SIZE in *; lia). rewrite (Z.mul_comm 512 m), Z.div_mul, (Z.mul_comm m 512) by lia.
  rewrite u64_small by (unfold is_u64; lia).
  assert (zero_padded 512 (take (Z.to_nat len) (drop (Z.to_nat (512 * m)) text)) = sector_text text m) as ->.
  { unfold sector_text. f_equal. destruct (decide (len = 512)) as [->|Hne]; [done|]. rewrite !take_ge; [done| |]; rewrite length_drop; lia. }
  destruct (write_one s d (lba + m) (sector_text text m) Hd ltac:(lia) ltac:(lia)) as (e & d1 & -> & [Hca Ha] & Hw1).
  destruct (Z.eqb_spec e ANX_OK) as [->|Hne]; cbn [negb].
  - replace (512 * m + 512) with (512 * (m + 1)) by lia. set (s1 := s <| dev := Some d1 |>).
    destruct (IH (m + 1) s1 d1 Hread eq_refl ltac:(lia) Hl ltac:(lia) ltac:(lia) Htext ltac:(lia)) as (e & d2 & E & [Hca2 Ha2] & Hw2).
    exists e, d2. split; [rewrite E; by destruct s|]. split.
    + split; [congruence|]. intros i Hi. unfold outside in *. rewrite Ha2 by lia. apply Ha. lia.
    + intros Hw. destruct (Hw1 Hw) as (_ & Hwd1 & Hc1). destruct (Hw2 Hwd1) as (He & Hwd2 & Hk). split; [done|]. split; [done|].
      intros k Hmk Hk'. destruct (decide (k = m)) as [->|]; [|apply Hk; lia]. rewrite Ha2 by (unfold outside; lia). done.
  - exists ANX_EIO, d1. split; [done|]. split.
    + split; [done|]. intros i Hi. unfold outside in Hi. apply Ha. lia.
    + intros Hw. by destruct (Hw1 Hw).
Qed.

Lemma ring_flush_spec g r s d cs :
  logged cs r → dev s = Some d → room d → g_ring_ok g = true → g_ring_start g = ring_base d → 0 ≤ g_slot g < 8 →
  ∃ e d', anx_bootlog_ring_flush g r s = (e, s <| dev := Some d' |>) ∧
    agree (outside (slot_sector d (g_slot g)) ANX_BLOG_SLOT_SECTORS) d d' ∧
    (works d → e = ANX_OK ∧ works d' ∧ slot_holds d' (g_slot g) (g_seq g) (BootText (newest cs) false)).
Proof.
  intros Hlog Hd Hr Hg Hs Hslot. unfold anx_bootlog_ring_flush. rewrite Hg. cbn [negb].
  pose proof (newest_length cs) as Hn. pose proof (slot_sector_range d _ Hr Hslot) as Hrange.
  rewrite (current_bytes cs r Hlog), (slot_lba_sector d g _ Hr Hslot Hs).
  assert ((Z.of_nat (length (newest cs)) >? slot_max_bytes) = false) as ->.
  { rewrite Z.gtb_ltb. apply Z.ltb_ge. unfold slot_max_bytes, ANX_BLOG_SLOT_SECTORS, ANX_BOOTLOG_RING_SIZE in *. lia. }
  set (lba := slot_sector d (g_slot g)) in *. unfold room in Hr. unfold ANX_BLOG_SLOT_SECTORS, ANX_BOOTLOG_RING_SIZE in *.
  rewrite (u64_small (lba + 1)) by (unfold is_u64; lia). change (Z.to_nat (520 - 1)) with 519%nat.
  destruct (flush_text_spec (newest cs) r (lba + 1) 519 0 s d) as (e & d1 & E & [Hca Ha] & Hw1);
    [by intros; apply read_current|done|lia|lia|lia|lia|unfold ANX_BOOTLOG_RING_SIZE; lia|lia|].
  change (512 * 0) with 0 in E. rewrite E. destruct (Z.eqb_spec e ANX_OK) as [->|Hne]; cbn [negb].
  - set (s1 := s <| dev := Some d1 |>).
    destruct (write_one s1 d1 lba (slot_hdr_bytes (this_header (g_seq g) (Z.of_nat (length (newest cs))))) eq_refl ltac:(lia) ltac:(lia))
      as (e & d2 & E2 & [Hca2 Ha2] & Hw2).
    exists e, d2. rewrite E2. split; [by destruct s|]. split.
    + split; [congruence|]. intros i Hi. unfold outside in *. rewrite Ha2 by lia. apply Ha. lia.
    + intros Hw. destruct (Hw1 Hw) as (_ & Hwd1 & Hk). destruct (Hw2 Hwd1) as (-> & Hwd2 & Hc). split; [done|]. split; [done|].
      assert (slot_sector d2 (g_slot g) = lba) as Hl by (unfold slot_sector, ring_base, lba in *; rewrite Hca2, Hca; done).
      split; rewrite Hl; [exact Hc|]. cbn [bl_text]. intros k Hk0 Hkt. rewrite Ha2 by lia. apply Hk; lia.
  - exists e, d1. split; [done|]. split; [|intros Hw; by destruct (Hw1 Hw)].
    split; [done|]. intros i Hi. unfold outside in *. apply Ha. lia.
Qed.

Lemma slot_boot_next k i : 0 ≤ k → 0 ≤ i < 8 → slot_boot (k + 1) i = if decide (i = k mod 8) then k + 1 else slot_boot k i.
Proof.
  intros Hk Hi. unfold slot_boot. pose proof (Z.div_mod k 8 ltac:(lia)) as E. pose proof (Z.mod_pos_bound k 8 ltac:(lia)) as Ha.
  set (a := k mod 8) in *. set (m := k / 8) in *. clearbody a m. replace (k + 1 - 1 - i) with (a - i + m * 8) by lia.
  replace (k - 1 - i) with (a - 1 - i + m * 8) by lia. rewrite !Z.mod_add by lia.
  destruct (decide (i = a)); Z.to_euclidean_division_equations; lia.
Qed.

Lemma slot_ok_snoc d L x i : 0 ≤ i < 8 → i ≠ Z.of_nat (length L) mod 8 → slot_ok d (L ++ [x]) i ↔ slot_ok d L i.
Proof.
  intros Hi Hne. unfold slot_ok. rewrite length_app. cbn [length]. rewrite Nat2Z.inj_add. change (Z.of_nat 1) with 1.
  rewrite slot_boot_next, (decide_False (P := i = _)) by (done || lia).
  destruct (slot_boot_range (Z.of_nat (length L)) i) as [Hle _]; [lia|done|].
  destruct (decide (slot_boot (Z.of_nat (length L)) i ≤ 0)); [done|]. by rewrite lookup_app_l by lia.
Qed.

(** A slot survives writes outside it. *)
Lemma slot_ok_agree (P : Z → Prop) d d' L i :
  agree P d d' → room d → 0 ≤ i < 8 → (∀ x, slot_sector d i ≤ x < slot_sector d i + ANX_BLOG_SLOT_SECTORS → P x) →
  Forall text_ok L → slot_ok d L i → slot_ok d' L i.
Proof.
  intros [Hca Ha] Hr Hi HP Ht. assert (slot_sector d' i = slot_sector d i) as Hs by (unfold slot_sector, ring_base; by rewrite Hca).
  unfold slot_ok, slot_empty, slot_holds. rewrite Hs. unfold ANX_BLOG_SLOT_SECTORS in HP.
  destruct (decide _); [by rewrite Ha by (apply HP; lia)|]. intros (b & Hb & Hc & Hk). exists b. split; [done|]. rewrite Ha by (apply HP; lia).
  split; [done|]. intros k Hk0 Hkt. rewrite Forall_lookup in Ht. specialize (Ht _ _ Hb). unfold text_ok, ANX_BOOTLOG_RING_SIZE in Ht.
  rewrite Ha by (apply HP; lia). by apply Hk.
Qed.

Lemma slots_apart d i j x : i ≠ j → slot_sector d i ≤ x < slot_sector d i + ANX_BLOG_SLOT_SECTORS → outside (slot_sector d j) ANX_BLOG_SLOT_SECTORS x.
Proof. unfold slot_sector, outside, ANX_BLOG_SLOT_SECTORS. nia. Qed.

Lemma ring_on_agree d d' L L' :
  agree (λ i, i < ring_base d) d d' → works d' → Forall text_ok L' → ring_on d L → ring_on d' L'.
Proof.
  intros [Hca Ha] Hw Ht [_ Ho Hr _]. constructor; [done| |unfold room in *; by rewrite Hca|done].
  rewrite Ha; [done|]. destruct (slot_sector_range d 0 Hr ltac:(lia)). unfold slot_sector in *. unfold ANX_SUPER_SECTOR. lia.
Qed.

Lemma slot_above d i x : 0 ≤ i < 8 → x < ring_base d → outside (slot_sector d i) ANX_BLOG_SLOT_SECTORS x.
Proof. unfold slot_sector, outside, ANX_BLOG_SLOT_SECTORS. lia. Qed.

(** A boot that has claimed its slot writes its log, for the first time or again. *)
Lemma flush_inv r s d L L1 cs :
  logged cs r → dev s = Some d → ring_inv d L1 → L1 = L ∨ (∃ x, L1 = L ++ [x]) → Forall text_ok L →
  ∃ d', anx_bootlog_ring_flush (ring_claimed d L) r s = (ANX_OK, s <| dev := Some d' |>) ∧ drv_capacity d' = drv_capacity d ∧
    ring_inv d' (L ++ [BootText (newest cs) false]).
Proof.
  intros Hlog Hd [Hon Hs] HL Ht. pose proof Hon as [Hw _ Hr _]. set (k := Z.of_nat (length L)).
  assert (0 ≤ k mod 8 < 8) as Hk8 by (apply Z.mod_pos_bound; lia).
  destruct (ring_flush_spec (ring_claimed d L) r s d cs Hlog Hd Hr eq_refl eq_refl Hk8) as (e & d' & E & Ha & Hwk).
  destruct (Hwk Hw) as (-> & Hw' & Hh). exists d'. split; [exact E|]. split; [apply Ha|].
  assert (Forall text_ok (L ++ [BootText (newest cs) false])) as Ht'.
  { apply Forall_app. split; [done|]. constructor; [|constructor]. unfold text_ok. cbn. pose proof (newest_length cs). lia. }
  split.
  - eapply (ring_on_agree d d' L1); [|exact Hw'|exact Ht'|exact Hon]. eapply agree_weaken; [|exact Ha]. intros x Hx. by apply slot_above.
  - intros i Hi. destruct (decide (i = k mod 8)) as [->|Hne].
    + unfold slot_ok. rewrite length_app. cbn [length]. rewrite Nat2Z.inj_add. change (Z.of_nat 1) with 1. fold k.
      rewrite slot_boot_next, (decide_True (P := k mod 8 = k mod 8)) by lia. destruct (decide (k + 1 ≤ 0)); [lia|]. eexists. split; [|exact Hh]. rewrite lookup_app_r by lia. by replace (Z.to_nat (k + 1 - 1) - length L)%nat with 0%nat by lia.
    + apply slot_ok_snoc; [done|done|]. assert (slot_ok d L i) as Hsi.
      { specialize (Hs i Hi). destruct HL as [->|[x ->]]; [done|]. by apply slot_ok_snoc in Hs. }
      eapply slot_ok_agree; [exact Ha|exact Hr|done| |done|exact Hsi]. intros x Hx. by eapply slots_apart.
Qed.

(** *** Pruning and listing *)

Definition prune_log (b : boot_log) : boot_log := BootText (bl_text b) true.

(** The boot [seq] is still in the ring of [k] boots. *)
Definition in_ring (k seq : Z) : bool := (0 <? seq) && (k - 8 <? seq) && (seq <=? k).

Lemma mark_pruned_bytes j b : mark_pruned (boot_header j b) (slot_hdr_bytes (boot_header j b)) = slot_hdr_bytes (boot_header j (prune_log b)).
Proof.
  unfold mark_pruned, patch, slot_hdr_bytes, boot_header. cbn [sh_magic sh_version sh_seq sh_boot_time sh_log_bytes sh_flags sh_kver bl_text bl_pruned prune_log].
  set (a := le 4 ANX_BLOG_RING_MAGIC). set (v := le 4 ANX_BOOTLOG_VERSION). set (q := le 8 j). set (t := le 8 0). set (n := le 4 (Z.of_nat (length (bl_text b)))).
  set (rest := zero_padded 32 (CellStore.anx_strlcpy ANX_VERSION 32) ++ replicate 448 0).
  assert (length (a ++ v ++ q ++ t ++ n) = 28%nat) as Hl by (unfold a, v, q, t, n; by rewrite !length_app, !le_length).
  assert (∀ f, a ++ v ++ q ++ t ++ n ++ le 4 f ++ rest = (a ++ v ++ q ++ t ++ n) ++ le 4 f ++ rest) as Hassoc by (intros; by rewrite <- !app_assoc).
  rewrite !Hassoc, le_length. assert (Z.lor (if bl_pruned b then 1 else 0) ANX_BLOG_SLOT_PRUNED = 1) as -> by (by destruct (bl_pruned b)).
  set (p := a ++ v ++ q ++ t ++ n) in *. clearbody p. set (f := le 4 (if bl_pruned b then 1 else 0)).
  assert (length f = 4%nat) as Hf by apply le_length. rewrite take_app_le, take_ge by lia. f_equal. f_equal.
  rewrite app_assoc, drop_app_ge by (rewrite length_app; lia). rewrite length_app, Hl, Hf, Nat.sub_diag. done.
Qed.

Lemma slot_of_boot k seq i : 0 ≤ k → 0 ≤ i < 8 → (in_ring k seq = true ∧ i = (seq - 1) mod 8) ↔ 0 < seq ∧ slot_boot k i = seq.
Proof.
  intros Hk Hi. unfold in_ring, slot_boot. rewrite !andb_true_iff, !Z.ltb_lt, Z.leb_le. split.
  - intros [[[? ?] ?] ->]. split; [done|]. pose proof (Z.div_mod (seq - 1) 8 ltac:(lia)) as E. pose proof (Z.mod_pos_bound (seq - 1) 8 ltac:(lia)).
    set (a := (seq - 1) mod 8) in *. set (m := (seq - 1) / 8) in *. clearbody a m.
    replace (k - 1 - a) with (k - seq + m * 8) by lia. rewrite Z.mod_add by lia. rewrite Z.mod_small by lia. lia.
  - intros [? H]. pose proof (Z.div_mod (k - 1 - i) 8 ltac:(lia)) as E. pose proof (Z.mod_pos_bound (k - 1 - i) 8 ltac:(lia)).
    split; [lia|]. replace (seq - 1) with (i + ((k - 1 - i) / 8) * 8) by lia. rewrite Z.mod_add by lia. by rewrite Z.mod_small by lia.
Qed.

Lemma prune_loop_spec s d g L seq l :
  ring_inv d L → dev s = Some d → g_ring_start g = ring_base d → Z.of_nat (length L) < 2 ^ 64 → (∀ i, i ∈ l → 0 ≤ i < 8) →
  (∃ i b, i ∈ l ∧ 0 < seq ∧ slot_boot (Z.of_nat (length L)) i = seq ∧ L !! Z.to_nat (seq - 1) = Some b ∧
     prune_loop l seq g s = active_write (slot_sector d i) [slot_hdr_bytes (boot_header seq (prune_log b))] s) ∨
  (∀ i, i ∈ l → ¬ (0 < seq ∧ slot_boot (Z.of_nat (length L)) i = seq)) ∧ prune_loop l seq g s = (ANX_ENOENT, s).
Proof.
  intros Hinv Hd Hg Hk. induction l as [|i l IH]; intros Hl; [right; split; [intros i Hi; by apply elem_of_nil in Hi|done]|].
  assert (0 ≤ i < 8) as Hi by (apply Hl, elem_of_cons; by left). cbn [prune_loop].
  rewrite (read_slot_view s d g L i Hinv Hd Hg Hk Hi).
  assert (¬ (0 < seq ∧ slot_boot (Z.of_nat (length L)) i = seq) →
    (∃ i0 b, i0 ∈ i :: l ∧ 0 < seq ∧ slot_boot (Z.of_nat (length L)) i0 = seq ∧ L !! Z.to_nat (seq - 1) = Some b ∧
       prune_loop l seq g s = active_write (slot_sector d i0) [slot_hdr_bytes (boot_header seq (prune_log b))] s) ∨
    (∀ i0, i0 ∈ i :: l → ¬ (0 < seq ∧ slot_boot (Z.of_nat (length L)) i0 = seq)) ∧ prune_loop l seq g s = (ANX_ENOENT, s)) as Hskip.
  { intros Hno. destruct IH as [(i0 & b & Hi0 & H)|[Hall E]]; [intros; apply Hl, elem_of_cons; by right| |].
    - left. exists i0, b. split; [apply elem_of_cons; by right|done].
    - right. split; [|done]. intros i0 [->|Hi0]%elem_of_cons; [done|by apply Hall]. }
  unfold slot_view. destruct (decide (slot_boot (Z.of_nat (length L)) i ≤ 0)) as [Hj|Hj]; [apply Hskip; lia|].
  destruct (slot_boot_range (Z.of_nat (length L)) i) as [Hle _]; [lia|done|].
  destruct (lookup_lt_is_Some_2 L (Z.to_nat (slot_boot (Z.of_nat (length L)) i - 1)) ltac:(lia)) as [b Hb]. rewrite Hb. cbn [fmap option_fmap option_map].
  cbn [sh_seq boot_header]. destruct (Z.eqb_spec (slot_boot (Z.of_nat (length L)) i) seq) as [E|E]; [|apply Hskip; lia].
  left. exists i, b. rewrite E in *. split; [apply elem_of_cons; by left|]. split; [lia|]. split; [done|]. split; [done|].
  rewrite mark_pruned_bytes. destruct Hinv as [[_ _ Hr _] _]. by rewrite (slot_lba_sector d g i Hr Hi Hg).
Qed.

Lemma prune_inv s d g L seq :
  ring_inv d L → dev s = Some d → g_ring_ok g = true → g_ring_start g = ring_base d → Z.of_nat (length L) < 2 ^ 64 →
  ∃ d', anx_bootlog_ring_prune seq g s = (if in_ring (Z.of_nat (length L)) seq then ANX_OK else ANX_ENOENT, s <| dev := Some d' |>) ∧
    drv_capacity d' = drv_capacity d ∧
    ring_inv d' (if in_ring (Z.of_nat (length L)) seq then alter prune_log (Z.to_nat (seq - 1)) L else L).
Proof.
  intros Hinv Hd Hok Hg Hk. unfold anx_bootlog_ring_prune. rewrite Hok. cbn [negb]. set (k := Z.of_nat (length L)) in *.
  assert (∀ i, i ∈ seqZ 0 ANX_BLOG_RING_SLOTS ↔ 0 ≤ i < 8) as Hseq by (intros i; rewrite elem_of_seqZ; unfold ANX_BLOG_RING_SLOTS; lia).
  destruct (prune_loop_spec s d g L seq (seqZ 0 ANX_BLOG_RING_SLOTS) Hinv Hd Hg Hk) as [(i & b & Hi & Hpos & Hsb & Hb & E)|[Hno E]]; [intros i Hi; by apply Hseq| |].
  - apply Hseq in Hi. fold k in Hsb. destruct (proj2 (slot_of_boot k seq i ltac:(lia) Hi) (conj Hpos Hsb)) as [Hin Hii]. rewrite Hin, E.
    destruct Hinv as [Hon Hs]. pose proof Hon as [Hw _ Hr Ht]. pose proof (slot_sector_range d i Hr Hi) as Hrange. unfold ANX_BLOG_SLOT_SECTORS in Hrange.
    destruct (write_one s d (slot_sector d i) (slot_hdr_bytes (boot_header seq (prune_log b))) Hd ltac:(lia) ltac:(lia)) as (e & d' & Ew & Ha & Hwk).
    destruct (Hwk Hw) as (-> & Hw' & Hc). exists d'. split; [exact Ew|]. split; [apply Ha|].
    assert (Forall text_ok (alter prune_log (Z.to_nat (seq - 1)) L)) as Ht'.
    { apply Forall_alter; [done|]. intros x _ Hx. exact Hx. }
    split; [eapply ring_on_agree; [|exact Hw'|exact Ht'|exact Hon]; eapply agree_weaken; [|exact Ha]; unfold slot_sector, ANX_BLOG_SLOT_SECTORS; cbn; lia|].
    intros i' Hi'. destruct (decide (i' = i)) as [->|Hne].
    + unfold slot_ok. rewrite length_alter. fold k. rewrite Hsb. destruct (decide (seq ≤ 0)); [lia|]. exists (prune_log b).
      split; [by rewrite list_lookup_alter_eq, Hb|].
      assert (slot_sector d' i = slot_sector d i) as Hsec by (unfold slot_sector, ring_base; by rewrite (proj1 Ha)).
      specialize (Hs i Hi). unfold slot_ok in Hs. fold k in Hs. rewrite Hsb in Hs. destruct (decide (seq ≤ 0)); [lia|].
      destruct Hs as (b' & Hb' & _ & Hk'). simplify_eq. split; rewrite Hsec; [exact Hc|]. cbn [bl_text prune_log]. intros m Hm Hmt. rewrite (proj2 Ha) by lia. by apply Hk'.
    + assert (slot_ok d' L i') as Hsl.
      { eapply slot_ok_agree; [exact Ha|exact Hr|done| |done|by apply Hs]. intros x Hx. pose proof (slots_apart d i' i x Hne Hx). unfold outside, ANX_BLOG_SLOT_SECTORS in *. lia. }
      unfold slot_ok in Hsl |- *. rewrite length_alter. fold k in Hsl |- *. destruct (decide (slot_boot k i' ≤ 0)) as [|Hj]; [done|]. destruct Hsl as (b' & Hb' & Hh).
      exists b'. split; [|done]. rewrite list_lookup_alter_ne; [done|]. intros Heq. apply Hne. assert (slot_boot k i' = seq) as Hsb' by lia.
      destruct (proj2 (slot_of_boot k seq i' ltac:(lia) Hi') (conj Hpos Hsb')). congruence.
  - assert (in_ring k seq = false) as ->.
    { destruct (in_ring k seq) eqn:Hin; [|done]. exfalso. assert (0 ≤ (seq - 1) mod 8 < 8) as H8 by (apply Z.mod_pos_bound; lia).
      apply (Hno ((seq - 1) mod 8)); [by apply Hseq|]. apply slot_of_boot; [lia|done|done]. }
    exists d. rewrite E. split; [by rewrite <- Hd; destruct s|done].
Qed.

(** What a listing of the ring after the boots [L] shows. *)
Definition ring_listing L : list anx_blog_ring_entry :=
  omap (λ i, let j := slot_boot (Z.of_nat (length L)) i in
             if decide (j ≤ 0) then None
             else (λ b, RingEntry i j (Z.of_nat (length (bl_text b))) (bl_pruned b) ANX_VERSION) <$> L !! Z.to_nat (j - 1))
    (seqZ 0 ANX_BLOG_RING_SLOTS).

Lemma ring_list_spec s d g L max :
  ring_inv d L → dev s = Some d → g_ring_ok g = true → g_ring_start g = ring_base d → Z.of_nat (length L) < 2 ^ 64 →
  anx_bootlog_ring_list true max g s = (ANX_OK, take (Z.to_nat max) (ring_listing L)).
Proof.
  intros Hinv Hd Hok Hg Hk. unfold anx_bootlog_ring_list. rewrite Hok. cbn [negb]. f_equal. f_equal. unfold ring_listing.
  assert (∀ l : list Z, (∀ i, i ∈ l → 0 ≤ i < 8) → omap (λ i, (λ '(h, _), ring_entry i h) <$> read_slot s g i) l =
    omap (λ i, let j := slot_boot (Z.of_nat (length L)) i in if decide (j ≤ 0) then None
             else (λ b, RingEntry i j (Z.of_nat (length (bl_text b))) (bl_pruned b) ANX_VERSION) <$> L !! Z.to_nat (j - 1)) l) as H0.
  { induction l as [|i l IH]; intros Hl; [done|]. cbn [omap list_omap]. rewrite (read_slot_view s d g L i Hinv Hd Hg Hk) by (apply Hl, elem_of_cons; by left).
    rewrite IH by (intros; apply Hl, elem_of_cons; by right). unfold slot_view. cbv zeta. destruct (decide _); [done|]. destruct (L !! _) as [b|]; [|done].
    cbn [fmap option_fmap option_map]. f_equal. unfold ring_entry, boot_header. cbn [sh_seq sh_log_bytes sh_flags sh_kver]. f_equal. by destruct (bl_pruned b). }
  apply H0. intros i Hi. apply elem_of_seqZ in Hi. unfold ANX_BLOG_RING_SLOTS in Hi. lia.
Qed.

(** ** Runs *)

(** A machine: the claimed slot, the memory ring and the store with its device. *)
Record machine := Machine { m_ring : ring_state; m_log : log_ring; m_store : store_state D }.

Inductive log_op :=
  | Boot  (* [anx_bootlog_early_init] and [anx_bootlog_ring_init] *)
  | Put (c : Z)
  | Flush
  | Prune (seq : Z)
  | Listing (max : Z).

Inductive log_answer := LogCode (e : Z) | LogList (e : Z) (l : list anx_blog_ring_entry).

Definition log_do (op : log_op) (M : machine) : log_answer * machine :=
  match op with
  | Boot =>
      let '(e, g) := anx_bootlog_ring_init (m_ring M) (m_store M) in
      (LogCode e, Machine g (anx_bootlog_early_init (m_log M)) (m_store M))
  | Put c => (LogCode ANX_OK, Machine (m_ring M) (anx_bootlog_putc c (m_log M)) (m_store M))
  | Flush =>
      let '(e, s) := anx_bootlog_ring_flush (m_ring M) (m_log M) (m_store M) in (LogCode e, Machine (m_ring M) (m_log M) s)
  | Prune seq =>
      let '(e, s) := anx_bootlog_ring_prune seq (m_ring M) (m_store M) in (LogCode e, Machine (m_ring M) (m_log M) s)
  | Listing max => let '(e, l) := anx_bootlog_ring_list true max (m_ring M) (m_store M) in (LogList e l, M)
  end.

(** The abstract machine: the logs of all boots that have been written, the
    output of the present boot, and whether its log is among them. *)
Record log_spec := LogSpec { written : list boot_log; output : list Z; saved : bool }.

Definition spec_do (op : log_op) (A : log_spec) : log_answer * log_spec :=
  let k := Z.of_nat (length (written A)) in
  match op with
  | Boot => (LogCode ANX_OK, LogSpec (written A) [] false)
  | Put c => (LogCode ANX_OK, LogSpec (written A) (output A ++ [c]) (saved A))
  | Flush =>
      (LogCode ANX_OK, LogSpec ((if saved A then take (length (written A) - 1) (written A) else written A)
                                ++ [BootText (newest (output A)) false]) (output A) true)
  | Prune seq =>
      if in_ring k seq then (LogCode ANX_OK, LogSpec (alter prune_log (Z.to_nat (seq - 1)) (written A)) (output A) (saved A))
      else (LogCode ANX_ENOENT, A)
  | Listing max => (LogList ANX_OK (take (Z.to_nat max) (ring_listing (written A))), A)
  end.

Fixpoint log_run (ops : list log_op) (M : machine) : list log_answer * machine :=
  match ops with
  | [] => ([], M)
  | op :: ops => let '(a, M) := log_do op M in let '(l, M) := log_run ops M in (a :: l, M)
  end.

Fixpoint spec_run (ops : list log_op) (A : log_spec) : list log_answer * log_spec :=
  match ops with
  | [] => ([], A)
  | op :: ops => let '(a, A) := spec_do op A in let '(l, A) := spec_run ops A in (a :: l, A)
  end.

(** The logs of the boots before the present one. *)
Definition earlier (A : log_spec) : list boot_log :=
  if saved A then take (length (written A) - 1) (written A) else written A.

(** The machine is up: it has claimed its slot. *)
Definition machine_up (M : machine) (A : log_spec) : Prop :=
  ∃ d, dev (m_store M) = Some d ∧ ring_inv d (written A) ∧ logged (output A) (m_log M) ∧ (saved A = true → written A ≠ []) ∧
    m_ring M = ring_claimed d (earlier A).

Lemma claimed_ext d d' L L' : drv_capacity d' = drv_capacity d → length L' = length L → ring_claimed d' L' = ring_claimed d L.
Proof. intros Hc Hl. unfold ring_claimed, ring_base. by rewrite Hc, Hl. Qed.

Lemma flush_step M A :
  machine_up M A → ∃ M', log_do Flush M = ((spec_do Flush A).1, M') ∧ machine_up M' (spec_do Flush A).2.
Proof.
  intros (d & Hd & Hinv & Hlog & Hne & Hg). cbn [log_do spec_do fst snd]. fold (earlier A). rewrite Hg.
  destruct (flush_inv (m_log M) (m_store M) d (earlier A) (written A) (output A) Hlog Hd Hinv) as (d' & E & Hc & Hinv').
  - unfold earlier. destruct (saved A); [|by left]. right. specialize (Hne eq_refl).
    destruct (written A) as [|x l] using rev_ind; [done|]. exists x. rewrite length_app, Nat.add_sub. by rewrite take_app_length.
  - destruct Hinv as [[_ _ _ Ht] _]. unfold earlier. destruct (saved A); [by apply Forall_take|done].
  - rewrite E. eexists. split; [done|]. exists d'. cbn [m_store m_log m_ring dev update_field written output saved].
    split; [done|]. split; [done|]. split; [done|]. split; [intros _ H; by apply app_eq_nil in H as [_ ?]|].
    apply eq_sym, claimed_ext; [done|]. unfold earlier at 1. cbn [saved written]. rewrite length_take, length_app. cbn. lia.
Qed.

Lemma log_step op M A :
  machine_up M A → Z.of_nat (length (written A)) < 2 ^ 64 - 1 →
  ∃ M', log_do op M = ((spec_do op A).1, M') ∧ machine_up M' (spec_do op A).2.
Proof.
  intros Hrun Hk. destruct op as [|c| |seq|max]; [| |by apply flush_step| |].
  all: destruct Hrun as (d & Hd & Hinv & Hlog & Hne & Hg).
  - cbn [log_do spec_do fst snd]. rewrite (ring_init_spec _ _ d (written A) Hinv Hd Hk). eexists. split; [done|]. exists d.
    split; [done|]. split; [done|]. split; [apply logged_start|]. done.
  - eexists. split; [done|]. exists d. split; [done|]. split; [done|]. split; [by apply logged_putc|]. done.
  - cbn [log_do spec_do]. destruct (prune_inv (m_store M) d (m_ring M) (written A) seq Hinv Hd) as (d' & E & Hc & Hinv'); [by rewrite Hg|by rewrite Hg|lia|].
    rewrite E. eexists. destruct (in_ring (Z.of_nat (length (written A))) seq); (split; [done|]); exists d';
      cbn [m_store m_log m_ring dev update_field fst snd written output saved].
    + split; [done|]. split; [done|]. split; [done|]. split.
      * intros Hs H. apply (Hne Hs). apply length_zero_iff_nil. rewrite <- (length_alter prune_log (written A) (Z.to_nat (seq - 1))). by rewrite H.
      * rewrite Hg. apply eq_sym, claimed_ext; [done|]. unfold earlier. cbn [saved written]. destruct (saved A); rewrite ?length_take, ?length_alter; done.
    + split; [done|]. split; [done|]. split; [done|]. split; [done|]. rewrite Hg. by apply eq_sym, claimed_ext.
  - cbn [log_do spec_do]. rewrite (ring_list_spec _ d _ (written A) max Hinv Hd) by (by rewrite ?Hg || lia). eexists. split; [done|]. by exists d.
Qed.

Lemma spec_grows op A : (length (written (spec_do op A).2) ≤ S (length (written A)))%nat.
Proof.
  destruct op as [|c| |seq|max]; cbn; try lia.
  - rewrite length_app. cbn. destruct (saved A); rewrite ?length_take; lia.
  - destruct (in_ring _ _); cbn; rewrite ?length_alter; lia.
Qed.

Lemma log_runs ops : ∀ M A, machine_up M A → Z.of_nat (length (written A)) + Z.of_nat (length ops) < 2 ^ 64 - 1 →
  (log_run ops M).1 = (spec_run ops A).1 ∧ machine_up (log_run ops M).2 (spec_run ops A).2.
Proof.
  induction ops as [|op ops IH]; intros M A Hrun Hk; [done|]. cbn [length] in Hk. cbn [log_run spec_run].
  destruct (log_step op M A Hrun) as (M' & -> & Hrun'); [lia|]. pose proof (spec_grows op A) as Hg.
  destruct (spec_do op A) as [a A']. cbn [fst snd] in *. destruct (IH M' A' Hrun') as [H1 H2]; [lia|].
  destruct (log_run ops M') as [l M2], (spec_run ops A') as [l' A2]. cbn [fst snd] in *. by rewrite H1.
Qed.

(** C34: the ring on the device keeps the logs of the last eight boots.  On a
    working device that carries an Anunix store and no earlier logs, after any
    sequence of boots, console output, flushes, prunes and listings, every call
    answers as a machine that keeps the complete log of every boot would, showing
    the last eight of them; and the device holds, in the slot of each of these
    boots, its sequence number, its flags and the newest 256 KiB of its output. *)
Theorem ring_keeps_last_boots d s g r ops :
  dev s = Some d → works d → (take_le 4 (contents d ANX_SUPER_SECTOR)).1 = ANX_DISK_MAGIC → room d →
  (∀ i, 0 ≤ i < 8 → slot_empty d i) → Z.of_nat (length ops) < 2 ^ 64 - 2 →
  let run := log_run (Boot :: ops) (Machine g r s) in
  let spec := spec_run (Boot :: ops) (LogSpec [] [] false) in
  run.1 = spec.1 ∧
  ∃ d', dev (m_store run.2) = Some d' ∧
    ∀ j b, in_ring (Z.of_nat (length (written spec.2))) j = true → written spec.2 !! Z.to_nat (j - 1) = Some b →
      slot_holds d' ((j - 1) mod 8) j b.
Proof.
  intros Hd Hw Ho Hr He Hops. assert (ring_inv d []) as Hinv.
  { split; [constructor; done|]. intros i Hi. unfold slot_ok. cbn [length]. change (Z.of_nat 0) with 0.
    destruct (slot_boot_range 0 i) as [Hle _]; [lia|done|]. rewrite decide_True by lia. by apply He. }
  cbn [log_run spec_run log_do spec_do fst snd written m_ring m_store m_log]. rewrite (ring_init_spec g s d [] Hinv Hd) by (cbn; lia).
  destruct (log_runs ops (Machine (ring_claimed d []) (anx_bootlog_early_init r) s) (LogSpec [] [] false)) as [H1 H2].
  - exists d. split; [done|]. split; [done|]. split; [apply logged_start|]. done.
  - cbn. lia.
  - destruct (log_run ops _) as [l M2], (spec_run ops _) as [l' A2]. cbn [fst snd] in *. split; [by rewrite H1|].
    destruct H2 as (d' & Hd' & [_ Hs] & _). exists d'. split; [done|]. intros j b Hin Hb. set (k := Z.of_nat (length (written A2))) in *.
    assert (0 ≤ (j - 1) mod 8 < 8) as H8 by (apply Z.mod_pos_bound; lia).
    destruct (proj1 (slot_of_boot k j ((j - 1) mod 8) ltac:(lia) H8) (conj Hin eq_refl)) as [Hj Hsb].
    specialize (Hs _ H8). unfold slot_ok in Hs. fold k in Hs. rewrite Hsb in Hs. destruct (decide (j ≤ 0)); [lia|].
    destruct Hs as (b' & Hb' & Hh). simplify_eq. exact Hh.
Qed.

(** ** Where the ring writes, on any device *)

Definition ours d : Prop := (take_le 4 (contents d ANX_SUPER_SECTOR)).1 = ANX_DISK_MAGIC.

(** A claimed slot lies in the ring of a device that is ours and large enough. *)
Definition claim_ok d (M : machine) : Prop :=
  g_ring_ok (m_ring M) = true →
  g_ring_start (m_ring M) = ring_base d ∧ 0 ≤ g_slot (m_ring M) < 8 ∧ room d ∧ ours d ∧ ∃ cs, logged cs (m_log M).

Lemma is_ours s d : dev s = Some d → 1 ≤ drv_capacity d → device_is_ours s = true → ours d.
Proof.
  intros Hd Hc. unfold device_is_ours, active_read. rewrite Hd. destruct (drv_read d ANX_SUPER_SECTOR 1) as [e buf] eqn:E.
  destruct (Z.eqb_spec e ANX_OK) as [->|]; cbn [negb]; [|done].
  apply (law_read d ANX_SUPER_SECTOR 1) in E as ->; unfold ANX_SUPER_SECTOR in *; try lia.
  change (contents d <$> seqZ 0 1) with [contents d 0]. cbn [concat]. rewrite app_nil_r. by intros H%Z.eqb_eq.
Qed.

Lemma scan_range s g : 0 ≤ (scan_slots s g).2 < 8.
Proof.
  set (f := λ i, (λ '(h, _), sh_seq h) <$> read_slot s g i).
  assert (scan_slots s g = foldl (scan_step f) (0, 0) (seqZ 0 8)) as ->.
  { unfold scan_slots. change (seqZ 0 ANX_BLOG_RING_SLOTS) with (seqZ 0 8). generalize (seqZ 0 8) as l, (0, 0) as bn.
    induction l as [|i l IH]; intros [b n]; [done|]. cbn [foldl]. rewrite IH. f_equal. unfold scan_step, f. by destruct (read_slot s g i) as [[h ?]|]. }
  destruct (scan_spec f (seqZ 0 8) (0, 0)) as (_ & _ & [->|(i & _ & _ & ->)]); [cbn; lia|]. apply Z.mod_pos_bound. lia.
Qed.

Lemma init_claim s d g r :
  dev s = Some d → drv_capacity d < 2 ^ 64 → claim_ok d (Machine (anx_bootlog_ring_init g s).2 (anx_bootlog_early_init r) s).
Proof.
  intros Hd H64. unfold anx_bootlog_ring_init. rewrite Hd. destruct (device_is_ours s) eqn:Ho; cbn [negb]; [|done].
  unfold active_capacity. rewrite Hd. destruct (Z.leb_spec (drv_capacity d) (ANX_BLOG_RING_SECTORS + ANX_DATA_START)) as [Hle|Hgt]; [done|].
  match goal with |- context [scan_slots s ?g'] => pose proof (scan_range s g') as Hs; destruct (scan_slots s g') as [best next] end.
  intros _. cbn in *. split; [done|]. split; [done|]. split; [split; lia|]. split; [|exists []; apply logged_start].
  assert (room d) as Hr by (split; lia). destruct (slot_sector_range d 0 Hr ltac:(lia)) as [? H1]. unfold ANX_BLOG_SLOT_SECTORS in H1.
  apply (is_ours s); [done|lia|done].
Qed.

Lemma prune_loop_confined seq g l : ∀ s d,
  dev s = Some d → room d → g_ring_start g = ring_base d → (∀ i, i ∈ l → 0 ≤ i < 8) →
  ∃ e d', prune_loop l seq g s = (e, s <| dev := Some d' |>) ∧ agree (λ x, x < ring_base d) d d'.
Proof.
  induction l as [|i l IH]; intros s d Hd Hr Hg Hl; cbn [prune_loop]; [exists ANX_ENOENT, d; split; [by rewrite <- Hd; destruct s|done]|].
  assert (0 ≤ i < 8) as Hi by (apply Hl, elem_of_cons; by left). assert (∀ j, j ∈ l → 0 ≤ j < 8) as Hl' by (intros; apply Hl, elem_of_cons; by right).
  destruct (read_slot s g i) as [[h sect]|]; [|by apply IH]. destruct (sh_seq h =? seq); [|by apply IH].
  pose proof (slot_sector_range d i Hr Hi) as Hrange. unfold ANX_BLOG_SLOT_SECTORS in Hrange. rewrite (slot_lba_sector d g i Hr Hi Hg).
  destruct (write_one s d (slot_sector d i) (mark_pruned h sect) Hd ltac:(lia) ltac:(lia)) as (e & d' & E & Ha & _).
  exists e, d'. split; [done|]. eapply agree_weaken; [|exact Ha]. intros x Hx. unfold slot_sector, ANX_BLOG_SLOT_SECTORS. lia.
Qed.

Lemma confined_step op M d :
  dev (m_store M) = Some d → drv_capacity d < 2 ^ 64 → claim_ok d M →
  ∃ d', dev (m_store (log_do op M).2) = Some d' ∧ agree (λ x, x < ring_base d) d d' ∧ claim_ok d' (log_do op M).2 ∧ (¬ ours d → d' = d).
Proof.
  intros Hd H64 Hc. assert (∀ d', agree (λ x, x < ring_base d) d d' → ours d → room d → ours d' ∧ room d' ∧ ring_base d' = ring_base d) as Hkeep.
  { intros d' [Hca Ha] Ho Hr. destruct (slot_sector_range d 0 Hr ltac:(lia)) as [H0 _]. unfold slot_sector in H0.
    unfold ours, room, ring_base in *. rewrite Hca, Ha; [done|]. unfold ANX_SUPER_SECTOR. lia. }
  destruct op as [|c| |seq|max]; cbn [log_do].
  - pose proof (init_claim (m_store M) d (m_ring M) (m_log M) Hd H64) as Hi. destruct (anx_bootlog_ring_init (m_ring M) (m_store M)) as [e g].
    exists d. done.
  - exists d. split; [done|]. split; [done|]. split; [|done]. intros Hok. destruct (Hc Hok) as (? & ? & ? & ? & cs & Hlog).
    repeat (split; [done|]). exists (cs ++ [c]). by apply logged_putc.
  - destruct (g_ring_ok (m_ring M)) eqn:Hok; [|unfold anx_bootlog_ring_flush; rewrite Hok; exists d; done].
    destruct (Hc Hok) as (Hs & Hslot & Hr & Ho & cs & Hlog).
    destruct (ring_flush_spec (m_ring M) (m_log M) (m_store M) d cs Hlog Hd Hr Hok Hs Hslot) as (e & d' & -> & Ha & _).
    assert (agree (λ x, x < ring_base d) d d') as Ha' by (eapply agree_weaken; [|exact Ha]; intros x Hx; by apply slot_above).
    destruct (Hkeep d' Ha' Ho Hr) as (Ho' & Hr' & Hb'). exists d'. split; [done|]. split; [done|]. split; [|done]. intros _. cbn. rewrite Hb'. eauto 6.
  - destruct (g_ring_ok (m_ring M)) eqn:Hok; [|unfold anx_bootlog_ring_prune; rewrite Hok; exists d; done].
    destruct (Hc Hok) as (Hs & Hslot & Hr & Ho & cs & Hlog). unfold anx_bootlog_ring_prune. rewrite Hok. cbn [negb].
    destruct (prune_loop_confined seq (m_ring M) (seqZ 0 ANX_BLOG_RING_SLOTS) (m_store M) d Hd Hr Hs) as (e & d' & -> & Ha).
    { intros i Hi. apply elem_of_seqZ in Hi. unfold ANX_BLOG_RING_SLOTS in Hi. lia. }
    destruct (Hkeep d' Ha Ho Hr) as (Ho' & Hr' & Hb'). exists d'. split; [done|]. split; [done|]. split; [|done]. intros _. cbn. rewrite Hb'. eauto 6.
  - destruct (anx_bootlog_ring_list true max (m_ring M) (m_store M)). exists d. done.
Qed.

(** the ring touches nothing but itself.  On any device, faulty or not, any
    sequence of boots, output, flushes, prunes and listings leaves every sector
    before the last 4160 as it was; and if the device does not carry the magic
    number of an Anunix store, no sector at all is written. *)
Theorem ring_confined ops : ∀ M d,
  dev (m_store M) = Some d → drv_capacity d < 2 ^ 64 → g_ring_ok (m_ring M) = false →
  ∃ d', dev (m_store (log_run ops M).2) = Some d' ∧ drv_capacity d' = drv_capacity d ∧
    (∀ x, x < drv_capacity d - ANX_BLOG_RING_SECTORS → contents d' x = contents d x) ∧ (¬ ours d → d' = d).
Proof.
  intros M d Hd H64 Hok. assert (claim_ok d M) as Hc by (intros H; congruence). clear Hok.
  revert M d Hd H64 Hc. induction ops as [|op ops IH]; intros M d Hd H64 Hc; [by exists d|]. cbn [log_run].
  destruct (confined_step op M d Hd H64 Hc) as (d1 & Hd1 & [Hca1 Ha1] & Hc1 & Ho1). destruct (log_do op M) as [a M1]. cbn [fst snd] in *.
  destruct (IH M1 d1 Hd1 ltac:(lia) Hc1) as (d2 & Hd2 & Hca2 & Ha2 & Ho2). destruct (log_run ops M1) as [l M2]. cbn [fst snd] in *.
  exists d2. split; [done|]. split; [congruence|]. split.
  - intros x Hx. rewrite Ha2 by lia. by apply Ha1.
  - intros Hno. specialize (Ho1 Hno) as ->. by apply Ho2.
Qed.
End device_ring.

(** ** Sessions *)

(** With a retention that does not reach back before 1970, exactly the sessions
    older than it go, in order, and those of unknown age stay. *)
Theorem prune_sessions_exact boot_time retention_days l :
  0 ≤ retention_days → retention_days * 86400 ≤ boot_time → is_u64 boot_time →
  let old := λ e, (0 <? bi_boot_time e) && (bi_boot_time e <? boot_time - retention_days * 86400) in
  prune_sessions boot_time retention_days l =
  if (boot_time >? 0) && (retention_days >? 0) then (List.filter (λ e, negb (old e)) l, bi_oid <$> List.filter old l) else (l, []).
Proof.
  intros H0 Hle H64 old. unfold prune_sessions. destruct ((boot_time >? 0) && (retention_days >? 0)); [|done].
  assert (u64 (boot_time - u64 (retention_days * 86400)) = boot_time - retention_days * 86400) as ->.
  { unfold is_u64 in H64. rewrite !u64_small by (unfold is_u64; rewrite ?u64_small by (unfold is_u64; lia); lia). done. }
  induction l as [|e l IH]; [done|]. cbn [prune_loop_sessions List.filter]. rewrite IH. fold (old e). by destruct (old e).
Qed.

(** A retention longer than the time since 1970, meant to keep everything, wraps
    around and removes every dated session. *)
Theorem long_retention_prunes_all :
  prune_sessions 1790000000 36500 [IdxEntry (Uuid 1 1) 1789000000 1 10; IdxEntry (Uuid 1 2) 1789999999 2 10] = ([], [Uuid 1 1; Uuid 1 2]).
Proof. vm_compute. reflexivity. Qed.

(** ** Concrete machines *)

(** A freshly formatted device with the given number of sectors, before its first boot. *)
Definition fresh_machine (cap : Z) : machine (D := fuse_disk) :=
  Machine (RingState false 0 0 0) (LogRing ∅ 0 0 false)
    (anx_disk_format_forced None 5 6 (boot (Some (FuseDisk (MemDisk cap ∅ true) None)))).2.

Definition fresh_disk (cap : Z) : fuse_disk := default (FuseDisk (MemDisk 0 ∅ false) None) (dev (m_store (fresh_machine cap))).

(** A boot that says [c] and saves its log. *)
Definition short_boot (c : Z) : list log_op := [Boot; Put c; Flush].

Lemma ring_keeps_last_boots_witness :
  ∃ d', dev (m_store (log_run (Boot :: [Put 97; Flush; Boot; Put 98; Flush])
      (Machine (RingState false 0 0 0) (LogRing ∅ 0 0 false) (m_store (fresh_machine 4674)))).2) = Some d' ∧
    slot_holds d' 1 2 (BootText [98] false).
Proof.
  destruct (ring_keeps_last_boots (fresh_disk 4674) (m_store (fresh_machine 4674)) (RingState false 0 0 0) (LogRing ∅ 0 0 false)
    [Put 97; Flush; Boot; Put 98; Flush]) as (_ & d' & Hd & Hs).
  - vm_compute. reflexivity.
  - split; vm_compute; reflexivity.
  - vm_compute. reflexivity.
  - split; vm_compute; reflexivity.
  - intros i Hi. assert (i ∈ seqZ 0 8) as Hin by (apply elem_of_seqZ; lia). clear Hi. revert i Hin.
    assert (Forall (λ i, (sh_magic (slot_hdr_load (contents (fresh_disk 4674) (slot_sector (fresh_disk 4674) i))) =? ANX_BLOG_RING_MAGIC) = false) (seqZ 0 8)) as H.
    { vm_compute. repeat constructor. }
    rewrite Forall_forall in H. intros i Hin. unfold slot_empty. apply Z.eqb_neq. by apply H.
  - vm_compute. reflexivity.
  - exists d'. split; [exact Hd|]. refine (Hs 2 (BootText [98] false) _ _); vm_compute; reflexivity.
Defined.

Lemma ring_confined_witness :
  ∃ d', dev (m_store (log_run (short_boot 97) (fresh_machine 4674)).2) = Some d' ∧ contents d' 0 = contents (fresh_disk 4674) 0.
Proof.
  destruct (ring_confined (short_boot 97) (fresh_machine 4674) (fresh_disk 4674)) as (d' & Hd & _ & Ha & _).
  - vm_compute. reflexivity.
  - vm_compute. reflexivity.
  - reflexivity.
  - exists d'. split; [exact Hd|]. apply Ha. vm_compute. reflexivity.
Defined.

(** The store does not leave out the sectors of the ring: an object stored at the
    end of the device is overwritten by the next flush of the log and reads back,
    without an error, with a log header in it. *)
Theorem ring_overwrites_object :
  let M := fresh_machine 4674 in
  let s1 := anx_disk_write_obj (Uuid 5 1) 7 (replicate 600 1) (m_store M) in
  let M2 := (log_run (short_boot 97) (Machine (m_ring M) (m_log M) s1.2)).2 in
  s1.1 = ANX_OK ∧ (anx_disk_read_obj (Uuid 5 1) 600 s1.2).1 = (ANX_OK, Some (replicate 600 1, 600, 7)) ∧
  (anx_disk_read_obj (Uuid 5 1) 600 (m_store M2)).1 =
    (ANX_OK, Some (replicate 512 1 ++ take 88 (slot_hdr_bytes (this_header 1 1)), 600, 7)).
Proof. vm_compute. repeat (split; [reflexivity|]). reflexivity. Qed.

(** The text is written before the header, so a flush that is cut short leaves the
    header of the boot eight boots ago over the text of the present one: the
    listing shows boot 1 with one byte of text, and that byte is boot 9's. *)
Theorem torn_flush_mixes_logs :
  let M8 := (log_run (concat (short_boot <$> seqZ 97 8)) (fresh_machine 4700)).2 in
  let M9 := Machine (m_ring M8) (m_log M8) (set_fuse (Some 1%nat) (m_store M8)) in
  let '(answers, Mt) := log_run (short_boot 105) M9 in
  let d := FuseDisk (default (MemDisk 0 ∅ false) (fd_disk <$> dev (m_store Mt))) None in
  answers = [LogCode ANX_OK; LogCode ANX_OK; LogCode ANX_EIO] ∧
  (log_run [Boot; Listing 1] (Machine (m_ring Mt) (m_log Mt) (boot (Some d)))).1 =
    [LogCode ANX_OK; LogList ANX_OK [RingEntry 0 1 1 false ANX_VERSION]] ∧
  take 1 (contents d (slot_sector d 0 + 1)) = [105].
Proof. vm_compute. repeat (split; [reflexivity|]). reflexivity. Qed.
End BootLogs.
