(* ===== verification/Md.v ===== *)
(** * Software RAID: [kernel/core/md/md.c], [md_raid0.c], [md_raid1.c], [md_super.c]

    The array table and the life cycle of an array, the member I/O, striping,
    mirroring and rebuild.  Array functions take the array and the device
    registry and return both; a [struct anx_md_array *] of the table is its
    slot number where the table matters.  Loops whose length depends on the
    data have fuel: one iteration per sector is always enough. *)

From S2P Require Import Prelude Uuid Blk MdSuper.

Definition ANX_MD_MAX_ARRAYS : Z := 4.
Definition ANX_MD_DEFAULT_CHUNK : Z := 128.
Definition ANX_MD_MEMBER_EMPTY : Z := 0.
Definition ANX_MD_MEMBER_ACTIVE : Z := 1.
Definition ANX_MD_MEMBER_FAULTY : Z := 2.
Definition ANX_MD_MEMBER_SPARE : Z := 3.
Definition ANX_MD_ARRAY_CLEAN : Z := 0.
Definition ANX_MD_ARRAY_DEGRADED : Z := 1.
Definition ANX_MD_ARRAY_REBUILDING : Z := 2.
Definition ANX_MD_ARRAY_FAILED : Z := 3.
Definition RAID1_RESYNC_CHUNK : Z := 128.

Record anx_md_member := MdMember {
  m_dev : option Z;
  m_data_offset : Z;
  m_state : Z;
  m_events : Z;
}.

#[export] Instance eta_member : Settable anx_md_member := λ r,
  MdMember (m_dev r) (m_data_offset r) (m_state r) (m_events r).

Record anx_md_array := MdArray {
  a_name : list Z;
  a_uuid : list Z;
  a_level : Z;
  chunk_sectors : Z;
  member_count : Z;
  member_sectors : Z;
  array_sectors : Z;
  a_events : Z;
  a_created : Z;
  tail_meta : bool;
  read_cursor : Z;
  resync_offset : Z;
  members : list anx_md_member;
  bdev : option Z;
}.

#[export] Instance eta_array : Settable anx_md_array := λ r,
  MdArray (a_name r) (a_uuid r) (a_level r) (chunk_sectors r) (member_count r)
    (member_sectors r) (array_sectors r) (a_events r) (a_created r) (tail_meta r)
    (read_cursor r) (resync_offset r) (members r) (bdev r).

Definition empty_member : anx_md_member := MdMember None 0 ANX_MD_MEMBER_EMPTY 0.
Definition zero_array : anx_md_array :=
  MdArray [] (replicate 16 0) 0 0 0 0 0 0 0 false 0 0
    (replicate (Z.to_nat ANX_MD_MAX_MEMBERS) empty_member) None.

Definition member (a : anx_md_array) (i : Z) : anx_md_member := rd empty_member (members a) i.

Definition set_member (a : anx_md_array) (i : Z) (m : anx_md_member) : anx_md_array :=
  a <| members ::= λ l, wr l i m |>.

(** The members a loop [for (i = 0; i < a->member_count; i++)] visits. *)
Definition member_indices (a : anx_md_array) : list Z := seqZ 0 (member_count a).

(** [!m->dev || m->state == ANX_MD_MEMBER_FAULTY]. *)
Definition member_down (m : anx_md_member) : bool :=
  bool_decide (m_dev m = None) || (m_state m =? ANX_MD_MEMBER_FAULTY).

Definition in_state (st : Z) (m : anx_md_member) : bool :=
  negb (bool_decide (m_dev m = None)) && (m_state m =? st).

(** ** State reporting *)

Definition count_state (a : anx_md_array) (st : Z) : Z :=
  Z.of_nat (length (filter (λ i, in_state st (member a i) = true) (member_indices a))).

Definition anx_md_state (a : anx_md_array) : Z :=
  let active := count_state a ANX_MD_MEMBER_ACTIVE in
  let spare := count_state a ANX_MD_MEMBER_SPARE in
  if a_level a =? ANX_MD_LEVEL_RAID0 then
    if active =? member_count a then ANX_MD_ARRAY_CLEAN else ANX_MD_ARRAY_FAILED
  else
    when active =? 0 ret ANX_MD_ARRAY_FAILED ;;
    when spare >? 0 ret ANX_MD_ARRAY_REBUILDING ;;
    when active <? member_count a ret ANX_MD_ARRAY_DEGRADED ;;
    ANX_MD_ARRAY_CLEAN.

Section md.
Context {D : Type} `{!BlkDriver D}.
Implicit Types (r : registry D) (a : anx_md_array).

(** ** Member I/O *)

Definition anx_md_member_read a r (idx lba count : Z) : Z * list sector :=
  when idx >=? member_count a ret (ANX_EINVAL, []) ;;
  let m := member a idx in
  when member_down m ret (ANX_ENODEV, []) ;;
  when u64 (lba + count) >? member_sectors a ret (ANX_EINVAL, []) ;;
  blk_drv_read r (m_dev m) (u64 (m_data_offset m + lba)) count.

Definition anx_md_member_write a r (idx lba : Z) (buf : list sector) : Z * registry D :=
  when idx >=? member_count a ret (ANX_EINVAL, r) ;;
  let m := member a idx in
  when member_down m ret (ANX_ENODEV, r) ;;
  when u64 (lba + Z.of_nat (length buf)) >? member_sectors a ret (ANX_EINVAL, r) ;;
  blk_drv_write r (m_dev m) (u64 (m_data_offset m + lba)) buf.

(** ** Superblocks *)

Definition member_super a (idx : Z) : anx_md_super :=
  let m := member a idx in
  let sb := MdSuper ANX_MD_MAGIC ANX_MD_SB_VERSION (a_level a) (chunk_sectors a) (a_uuid a)
    (firstn 15 (a_name a) ++ replicate (16 - length (firstn 15 (a_name a))) 0)
    (member_count a) idx (m_data_offset m) (member_sectors a) (array_sectors a)
    (a_events a) (m_state m) (if tail_meta a then ANX_MD_SB_TAIL else 0)
    (resync_offset a) (a_created a) 0 in
  sb <| sb_checksum := md_checksum sb |>.

Definition anx_md_super_write a r (idx : Z) : Z * anx_md_array * registry D :=
  when idx >=? member_count a ret (ANX_EINVAL, a, r) ;;
  let m := member a idx in
  when bool_decide (m_dev m = None) ret (ANX_ENODEV, a, r) ;;
  match md_super_sector r (m_dev m) (tail_meta a) with
  | inl e => (e, a, r)
  | inr sect =>
      let sb := member_super a idx in
      let a := set_member a idx (m <| m_events := a_events a |>) in
      let '(e, r) := blk_drv_write r (m_dev m) sect [super_bytes sb] in
      (e, a, r)
  end.

Fixpoint super_sync_loop (l : list Z) a r (last : Z) : Z * anx_md_array * registry D :=
  match l with
  | [] => (last, a, r)
  | i :: l =>
      if bool_decide (m_dev (member a i) = None) then super_sync_loop l a r last
      else let '(e, a, r) := anx_md_super_write a r i in
           super_sync_loop l a r (if e =? ANX_OK then last else e)
  end.

Definition anx_md_super_sync a r : Z * anx_md_array * registry D :=
  let a := a <| a_events ::= λ e, u64 (e + 1) |> in
  super_sync_loop (member_indices a) a r ANX_OK.

Definition anx_md_member_fault a r (idx : Z) : anx_md_array * registry D :=
  when idx >=? member_count a ret (a, r) ;;
  let m := member a idx in
  when member_down m ret (a, r) ;;
  let a := set_member a idx (m <| m_state := ANX_MD_MEMBER_FAULTY |>) in
  let '(_, a, r) := anx_md_super_sync a r in
  (a, r).

(** ** RAID 0 *)

(** The stripe map: member and sector of an array sector, and the sectors
    left in its chunk. *)
Definition raid0_map a (lba : Z) : Z * Z * Z :=
  let chunk := chunk_sectors a in
  let chunk_index := lba / chunk in
  let offset := lba mod chunk in
  (chunk_index mod member_count a,
   (chunk_index / member_count a) * chunk + offset,
   chunk - offset).

(** The loop of [raid0_io] for a read: [acc] is the buffer filled so far. *)
Fixpoint raid0_read_loop (fuel : nat) a r (lba count : Z) (acc : list sector)
    : outcome (Z * list sector * anx_md_array * registry D) :=
  if count <=? 0 then Ret (ANX_OK, acc, a, r) else
  match fuel with
  | O => OutOfFuel
  | S fuel =>
      let '(idx, member_lba, run) := raid0_map a lba in
      let run := if run >? count then count else run in
      let '(e, buf) := anx_md_member_read a r idx member_lba run in
      if negb (e =? ANX_OK) then
        let '(a, r) := anx_md_member_fault a r idx in Ret (e, acc, a, r)
      else raid0_read_loop fuel a r (u64 (lba + run)) (count - run) (acc ++ buf)
  end.

(** The same loop for a write: [buf] is what is left to write. *)
Fixpoint raid0_write_loop (fuel : nat) a r (lba : Z) (buf : list sector)
    : outcome (Z * anx_md_array * registry D) :=
  let count := Z.of_nat (length buf) in
  if count <=? 0 then Ret (ANX_OK, a, r) else
  match fuel with
  | O => OutOfFuel
  | S fuel =>
      let '(idx, member_lba, run) := raid0_map a lba in
      let run := if run >? count then count else run in
      let '(e, r) := anx_md_member_write a r idx member_lba (firstn (Z.to_nat run) buf) in
      if negb (e =? ANX_OK) then
        let '(a, r) := anx_md_member_fault a r idx in Ret (e, a, r)
      else raid0_write_loop fuel a r (u64 (lba + run)) (skipn (Z.to_nat run) buf)
  end.

Definition anx_md_raid0_read a r (lba count : Z)
    : outcome (Z * list sector * anx_md_array * registry D) :=
  when (chunk_sectors a =? 0) || (member_count a =? 0) ret Ret (ANX_EINVAL, [], a, r) ;;
  raid0_read_loop (Z.to_nat count) a r lba count [].

Definition anx_md_raid0_write a r (lba : Z) (buf : list sector)
    : outcome (Z * anx_md_array * registry D) :=
  when (chunk_sectors a =? 0) || (member_count a =? 0) ret Ret (ANX_EINVAL, a, r) ;;
  raid0_write_loop (length buf) a r lba buf.

(** ** RAID 1 *)

Definition raid1_readable a (idx : Z) : bool := in_state ANX_MD_MEMBER_ACTIVE (member a idx).

(** The read loop: [n] members left to try, from the [tried]-th on. *)
Fixpoint raid1_read_loop (n : nat) (tried : Z) a r (lba count last : Z)
    : Z * list sector * anx_md_array * registry D :=
  match n with
  | O => (last, [], a, r)
  | S n =>
      let idx := u32 (read_cursor a + tried) mod member_count a in
      if negb (raid1_readable a idx) then raid1_read_loop n (tried + 1) a r lba count last
      else
        let '(e, buf) := anx_md_member_read a r idx lba count in
        if e =? ANX_OK
        then (ANX_OK, buf, a <| read_cursor := (idx + 1) mod member_count a |>, r)
        else let '(a, r) := anx_md_member_fault a r idx in
             raid1_read_loop n (tried + 1) a r lba count e
  end.

Definition anx_md_raid1_read a r (lba count : Z) : Z * list sector * anx_md_array * registry D :=
  when member_count a =? 0 ret (ANX_EINVAL, [], a, r) ;;
  raid1_read_loop (Z.to_nat (member_count a)) 0 a r lba count ANX_ENODEV.

(** The write loop over the members [l]: [ok] active members written. *)
Fixpoint raid1_write_loop (l : list Z) a r (lba : Z) (buf : list sector) (ok last : Z)
    : Z * anx_md_array * registry D :=
  match l with
  | [] => (if ok >? 0 then ANX_OK else last, a, r)
  | i :: l =>
      let m := member a i in
      if member_down m then raid1_write_loop l a r lba buf ok last
      else if (m_state m =? ANX_MD_MEMBER_SPARE) && (lba >=? resync_offset a)
      then raid1_write_loop l a r lba buf ok last
      else
        let '(e, r) := anx_md_member_write a r i lba buf in
        if e =? ANX_OK
        then raid1_write_loop l a r lba buf
               (if m_state m =? ANX_MD_MEMBER_ACTIVE then ok + 1 else ok) last
        else let '(a, r) := anx_md_member_fault a r i in
             raid1_write_loop l a r lba buf ok e
  end.

Definition anx_md_raid1_write a r (lba : Z) (buf : list sector) : Z * anx_md_array * registry D :=
  raid1_write_loop (member_indices a) a r lba buf 0 ANX_ENODEV.

(** ** Rebuild *)

Definition raid1_spare a : option Z :=
  List.find (λ i, in_state ANX_MD_MEMBER_SPARE (member a i)) (member_indices a).

(** The result is the number of sectors copied, or a negative code. *)
Definition anx_md_resync_step a r (max_sectors : Z) : Z * anx_md_array * registry D :=
  when negb (a_level a =? ANX_MD_LEVEL_RAID1) ret (ANX_ENOTSUP, a, r) ;;
  match raid1_spare a with
  | None => (ANX_ENOENT, a, r)
  | Some spare =>
      when resync_offset a >=? member_sectors a ret (0, a, r) ;;
      let run := RAID1_RESYNC_CHUNK in
      let run := if negb (max_sectors =? 0) && (run >? max_sectors) then max_sectors else run in
      let run := if run >? member_sectors a - resync_offset a
                 then member_sectors a - resync_offset a else run in
      let '(e, buf, a, r) := anx_md_raid1_read a r (resync_offset a) run in
      when negb (e =? ANX_OK) ret (e, a, r) ;;
      let '(e, r) := anx_md_member_write a r spare (resync_offset a) buf in
      if negb (e =? ANX_OK) then
        let '(a, r) := anx_md_member_fault a r spare in (e, a, r)
      else
        let a := a <| resync_offset ::= λ x, x + run |> in
        if resync_offset a >=? member_sectors a then
          let a := set_member a spare (member a spare <| m_state := ANX_MD_MEMBER_ACTIVE |>) in
          let '(_, a, r) := anx_md_super_sync a r in
          (run, a, r)
        else (run, a, r)
  end.

Fixpoint resync_loop (fuel : nat) a r : outcome (Z * anx_md_array * registry D) :=
  match fuel with
  | O => OutOfFuel
  | S fuel =>
      match raid1_spare a with
      | None => Ret (ANX_OK, a, r)
      | Some _ =>
          let '(e, a, r) := anx_md_resync_step a r 0 in
          when e <? 0 ret Ret (e, a, r) ;;
          when e =? 0 ret Ret (ANX_OK, a, r) ;;
          resync_loop fuel a r
      end
  end.

Definition anx_md_resync (fuel : nat) a r : outcome (Z * anx_md_array * registry D) :=
  when negb (a_level a =? ANX_MD_LEVEL_RAID1) ret Ret (ANX_ENOTSUP, a, r) ;;
  when bool_decide (raid1_spare a = None) ret Ret (ANX_ENOENT, a, r) ;;
  resync_loop fuel a r.

(** ** The array as a block device *)

Definition md_blk_read a r (lba count : Z)
    : outcome (Z * list sector * anx_md_array * registry D) :=
  when u64 (lba + count) >? array_sectors a ret Ret (ANX_EINVAL, [], a, r) ;;
  if a_level a =? ANX_MD_LEVEL_RAID0 then anx_md_raid0_read a r lba count
  else Ret (anx_md_raid1_read a r lba count).

Definition md_blk_write a r (lba : Z) (buf : list sector)
    : outcome (Z * anx_md_array * registry D) :=
  when u64 (lba + Z.of_nat (length buf)) >? array_sectors a ret Ret (ANX_EINVAL, a, r) ;;
  if a_level a =? ANX_MD_LEVEL_RAID0 then anx_md_raid0_write a r lba buf
  else Ret (anx_md_raid1_write a r lba buf).

Definition md_blk_capacity (a : option anx_md_array) : Z :=
  match a with Some a => array_sectors a | None => 0 end.

(** ** Member administration *)

Definition anx_md_fail a r (idx : Z) : Z * anx_md_array * registry D :=
  when idx >=? member_count a ret (ANX_EINVAL, a, r) ;;
  when bool_decide (m_dev (member a idx) = None) ret (ANX_ENODEV, a, r) ;;
  let '(a, r) := anx_md_member_fault a r idx in
  (ANX_OK, a, r).

Definition usable_sectors (tail : bool) (cap : Z) : Z :=
  let back := if tail then ANX_MD_SB_TAIL_BACK else ANX_MD_DATA_OFFSET in
  if cap >? back then cap - back else 0.

Definition anx_md_add a r (devp : option Z) : Z * anx_md_array * registry D :=
  match devp with
  | None => (ANX_EINVAL, a, r)
  | Some dev =>
      when negb (a_level a =? ANX_MD_LEVEL_RAID1) ret (ANX_ENOTSUP, a, r) ;;
      when anx_blk_dev_is_member r devp || dev_has_flag r devp ANX_BLK_F_ARRAY
        ret (ANX_EBUSY, a, r) ;;
      match List.find (λ i, member_down (member a i)) (member_indices a) with
      | None => (ANX_EFULL, a, r)
      | Some slot =>
          when usable_sectors (tail_meta a) (blk_drv_capacity r devp) <? member_sectors a
            ret (ANX_EINVAL, a, r) ;;
          let r := anx_blk_dev_release r (m_dev (member a slot)) in
          let a := set_member a slot
            (MdMember (Some dev) (if tail_meta a then 0 else ANX_MD_DATA_OFFSET)
               ANX_MD_MEMBER_SPARE (m_events (member a slot))) in
          let a := a <| resync_offset := 0 |> in
          let r := anx_blk_dev_claim r devp in
          let '(_, a, r) := anx_md_super_sync a r in
          (ANX_OK, a, r)
      end
  end.

(** ** The array table *)

Record md_world := MdWorld {
  md_arrays : list (option anx_md_array);
  md_reg : registry D;
}.

Definition array_slot (w : md_world) (i : Z) : option anx_md_array := rd None (md_arrays w) i.

Fixpoint free_array (l : list (option anx_md_array)) (i : Z) : option Z :=
  match l with
  | [] => None
  | None :: _ => Some i
  | Some _ :: l => free_array l (i + 1)
  end.

Definition anx_md_alloc_array (w : md_world) : option Z * md_world :=
  match free_array (md_arrays w) 0 with
  | None => (None, w)
  | Some i => (Some i, MdWorld (wr (md_arrays w) i (Some zero_array)) (md_reg w))
  end.

Definition anx_md_free_array (w : md_world) (i : Z) : md_world :=
  MdWorld (wr (md_arrays w) i None) (md_reg w).

Definition md_name : list Z := [109; 100].

Definition anx_md_start_array (w : md_world) (i : Z) : Z * md_world :=
  match array_slot w i with
  | None => (ANX_EINVAL, w)
  | Some a =>
      when array_sectors a =? 0 ret (ANX_EINVAL, w) ;;
      let r := md_reg w in
      let active := active_dev r in
      let takeover := existsb (λ k, negb (bool_decide (m_dev (member a k) = None))
                                    && bool_decide (m_dev (member a k) = active))
                        (member_indices a) in
      match anx_blk_dev_register r (PrivArray i) md_name with
      | (None, r) => (ANX_EFULL, MdWorld (md_arrays w) r)
      | (Some b, r) =>
          let r := update_flags r (Some b) (λ fl, Z.lor fl ANX_BLK_F_ARRAY) in
          let a := a <| bdev := Some b |>
                     <| a_name := match dev_slot r b with Some d => dev_name d | None => [] end |> in
          let r := foldl (λ r k, anx_blk_dev_claim r (m_dev (member a k))) r (member_indices a) in
          let r := if takeover || bool_decide (active = None) then anx_blk_set_active r (Some b) else r in
          (ANX_OK, MdWorld (wr (md_arrays w) i (Some a)) r)
      end
  end.

(** [parts]: the slots of the partitions found on the array's device. *)
Definition anx_md_stop (parts : list Z) (w : md_world) (i : Z) : Z * md_world :=
  match array_slot w i with
  | None => (ANX_EINVAL, w)
  | Some a =>
      when negb (bool_decide (bdev a = None)) && bool_decide (active_dev (md_reg w) = bdev a)
        ret (ANX_EBUSY, w) ;;
      let '(_, a, r) := anx_md_super_sync a (md_reg w) in
      let r := foldl (λ r k, anx_blk_dev_release r (m_dev (member a k))) r (member_indices a) in
      let r := anx_blk_dev_unregister parts r (bdev a) in
      (ANX_OK, anx_md_free_array (MdWorld (md_arrays w) r) i)
  end.

(** ** Creation *)

Definition md_round_chunks (sectors chunk : Z) : Z :=
  when chunk =? 0 ret sectors ;;
  (sectors / chunk) * chunk.

(** The loop that rejects duplicates and devices already spoken for. *)
Fixpoint check_members r (l : list (option Z)) : Z :=
  match l with
  | [] => ANX_OK
  | d :: l =>
      when bool_decide (d = None) ret ANX_EINVAL ;;
      when anx_blk_dev_is_member r d ret ANX_EBUSY ;;
      when dev_has_flag r d ANX_BLK_F_ARRAY ret ANX_EINVAL ;;
      when existsb (λ d', bool_decide (d = d')) l ret ANX_EINVAL ;;
      check_members r l
  end.

(** The capacity every member contributes, 0 before the first. *)
Fixpoint smallest_member r (tail : bool) (l : list (option Z)) (smallest : Z) : option Z :=
  match l with
  | [] => Some smallest
  | d :: l =>
      let cap := blk_drv_capacity r d in
      let back := if tail then ANX_MD_SB_TAIL_BACK else ANX_MD_DATA_OFFSET in
      when cap <=? back ret None ;;
      let usable := cap - back in
      smallest_member r tail l
        (if (smallest =? 0) || (usable <? smallest) then usable else smallest)
  end.

Fixpoint write_supers (l : list Z) a r : Z * anx_md_array * registry D :=
  match l with
  | [] => (ANX_OK, a, r)
  | i :: l =>
      let '(e, a, r) := anx_md_super_write a r i in
      when negb (e =? ANX_OK) ret (e, a, r) ;;
      write_supers l a r
  end.

(** [now] is the clock, [uuid] the 16 bytes of the generated array id. *)
Definition anx_md_create (now : Z) (uuid : list Z) (w : md_world) (level chunk : Z)
    (devs : list (option Z)) (tail : bool) : Z * md_world :=
  let r := md_reg w in
  let count := Z.of_nat (length devs) in
  when (count <? 2) || (count >? ANX_MD_MAX_MEMBERS) ret (ANX_EINVAL, w) ;;
  when negb (level =? ANX_MD_LEVEL_RAID0) && negb (level =? ANX_MD_LEVEL_RAID1)
    ret (ANX_ENOTSUP, w) ;;
  let chunk := if level =? ANX_MD_LEVEL_RAID0
               then if chunk =? 0 then ANX_MD_DEFAULT_CHUNK else chunk else 0 in
  when (level =? ANX_MD_LEVEL_RAID0) && negb (Z.land chunk (chunk - 1) =? 0)
    ret (ANX_EINVAL, w) ;;
  let e := check_members r devs in
  when negb (e =? ANX_OK) ret (e, w) ;;
  match smallest_member r tail devs 0 with
  | None => (ANX_EINVAL, w)
  | Some smallest =>
      let smallest := md_round_chunks smallest chunk in
      when smallest =? 0 ret (ANX_EINVAL, w) ;;
      match anx_md_alloc_array w with
      | (None, w) => (ANX_EFULL, w)
      | (Some i, w) =>
          let offset := if tail then 0 else ANX_MD_DATA_OFFSET in
          let slots := (λ d, MdMember d offset ANX_MD_MEMBER_ACTIVE 1) <$> devs in
          let a := MdArray [] uuid level chunk count smallest
            (if level =? ANX_MD_LEVEL_RAID0 then u64 (smallest * count) else smallest)
            1 now tail 0 0
            (slots ++ replicate (Z.to_nat ANX_MD_MAX_MEMBERS - length devs) empty_member) None in
          let w := MdWorld (wr (md_arrays w) i (Some a)) (md_reg w) in
          let '(e, w) := anx_md_start_array w i in
          if negb (e =? ANX_OK) then (e, anx_md_free_array w i)
          else match array_slot w i with
               | None => (ANX_EINVAL, w)
               | Some a =>
                   let '(e, a, r) := write_supers (member_indices a) a (md_reg w) in
                   let w := MdWorld (wr (md_arrays w) i (Some a)) r in
                   if negb (e =? ANX_OK) then (e, (anx_md_stop [] w i).2) else (ANX_OK, w)
               end
      end
  end.

(** ** Assembly *)

(** Placing one candidate superblock in the array being assembled. *)
Definition place_member (acc : anx_md_array * Z) (cand : Z * anx_md_super) : anx_md_array * Z :=
  let '(a, present) := acc in
  let '(dev, sb) := cand in
  when sb_member_index sb >=? member_count a ret (a, present) ;;
  when negb (bool_decide (m_dev (member a (sb_member_index sb)) = None)) ret (a, present) ;;
  when sb_member_state sb =? ANX_MD_MEMBER_FAULTY ret (a, present) ;;
  let a := set_member a (sb_member_index sb)
             (MdMember (Some dev) (sb_data_offset sb) (sb_member_state sb) (sb_events sb)) in
  let a := if sb_events sb >? a_events a
           then a <| a_events := sb_events sb |> <| resync_offset := sb_resync_offset sb |> else a in
  (a, present + 1).

(** Dropping one member whose event counter lags. *)
Definition drop_stale (acc : anx_md_array * Z) (i : Z) : anx_md_array * Z :=
  let '(a, present) := acc in
  let m := member a i in
  when bool_decide (m_dev m = None) || (m_events m =? a_events a) ret (a, present) ;;
  (set_member a i (m <| m_dev := None |> <| m_state := ANX_MD_MEMBER_EMPTY |>), present - 1).

(** The bytes of a name buffer up to its terminator. *)
Fixpoint cstr (l : list Z) : list Z :=
  match l with [] => [] | c :: l => if c =? 0 then [] else c :: cstr l end.

Definition md_assemble_one (w : md_world) (group : list (Z * anx_md_super)) : Z * md_world :=
  match group with
  | [] => (ANX_ENODEV, w)
  | (_, ref) :: _ =>
      match anx_md_alloc_array w with
      | (None, w) => (ANX_EFULL, w)
      | (Some i, w) =>
          let a := MdArray (firstn 15 (cstr (sb_name ref))) (sb_uuid ref) (sb_level ref)
            (sb_chunk_sectors ref) (sb_member_count ref) (sb_member_sectors ref)
            (sb_array_sectors ref) 0 (sb_created ref)
            (negb (Z.land (sb_flags ref) ANX_MD_SB_TAIL =? 0)) 0 (sb_resync_offset ref)
            (replicate (Z.to_nat ANX_MD_MAX_MEMBERS) empty_member) None in
          let '(a, present) := foldl place_member (a, 0) group in
          let '(a, present) := foldl drop_stale (a, present) (member_indices a) in
          when (a_level a =? ANX_MD_LEVEL_RAID0) && negb (present =? member_count a)
            ret (ANX_ENODEV, anx_md_free_array w i) ;;
          when present =? 0 ret (ANX_ENODEV, anx_md_free_array w i) ;;
          let '(e, w) := anx_md_start_array (MdWorld (wr (md_arrays w) i (Some a)) (md_reg w)) i in
          when negb (e =? ANX_OK) ret (e, anx_md_free_array w i) ;;
          (ANX_OK, w)
      end
  end.

(** Every unclaimed drive that carries a superblock. *)
Definition md_candidates r : list (Z * anx_md_super) :=
  omap (λ dev,
    if anx_blk_dev_is_member r (Some dev) || dev_has_flag r (Some dev) ANX_BLK_F_ARRAY then None
    else match md_super_read r (Some dev) with
         | (e, Some sb) => if e =? ANX_OK then Some (dev, sb) else None
         | _ => None
         end) (used_slots r).

Definition same_uuid (x y : Z * anx_md_super) : bool := bool_decide (sb_uuid x.2 = sb_uuid y.2).

(** Group by array id, at most eight to a group, and start each group. *)
Fixpoint assemble_groups (fuel : nat) (w : md_world) (cands : list (Z * anx_md_super)) (started : Z)
    : Z * md_world :=
  match fuel, cands with
  | O, _ | _, [] => (started, w)
  | S fuel, c :: rest =>
      let group := c :: firstn (Z.to_nat ANX_MD_MAX_MEMBERS - 1) (List.filter (same_uuid c) rest) in
      let '(e, w) := md_assemble_one w group in
      assemble_groups fuel w (List.filter (λ x, negb (same_uuid c x)) rest)
        (if e =? ANX_OK then started + 1 else started)
  end.

Definition anx_md_assemble (w : md_world) : Z * md_world :=
  let cands := md_candidates (md_reg w) in
  assemble_groups (length cands) w cands 0.

(** Boot: assemble whatever arrays the drives carry. *)
Definition anx_md_init (w : md_world) : md_world := (anx_md_assemble w).2.

(** ** Dispatch of the whole-system API *)

Definition anx_blk_dev_read (w : md_world) (dev : option Z) (lba count : Z)
    : outcome (Z * list sector * md_world) :=
  match dev ≫= dev_slot (md_reg w) with
  | None => Ret (ANX_ENODEV, [], w)
  | Some d =>
      when count =? 0 ret Ret (ANX_OK, [], w) ;;
      match dev_priv d with
      | PrivDrv x => let '(e, buf) := drv_read x lba count in Ret (e, buf, w)
      | PrivArray i =>
          match array_slot w i with
          | None => Ret (ANX_ENODEV, [], w)
          | Some a =>
              let! (e, buf, a, r) := md_blk_read a (md_reg w) lba count in
              Ret (e, buf, MdWorld (wr (md_arrays w) i (Some a)) r)
          end
      end
  end.

Definition anx_blk_dev_write (w : md_world) (dev : option Z) (lba : Z) (buf : list sector)
    : outcome (Z * md_world) :=
  match dev ≫= dev_slot (md_reg w) with
  | None => Ret (ANX_ENODEV, w)
  | Some d =>
      when bool_decide (buf = []) ret Ret (ANX_OK, w) ;;
      match dev_priv d with
      | PrivDrv _ =>
          let '(e, r) := blk_drv_write (md_reg w) dev lba buf in Ret (e, MdWorld (md_arrays w) r)
      | PrivArray i =>
          match array_slot w i with
          | None => Ret (ANX_ENODEV, w)
          | Some a =>
              let! (e, a, r) := md_blk_write a (md_reg w) lba buf in
              Ret (e, MdWorld (wr (md_arrays w) i (Some a)) r)
          end
      end
  end.

Definition anx_blk_read (w : md_world) (lba count : Z) : outcome (Z * list sector * md_world) :=
  match active_dev (md_reg w) with
  | None => Ret (ANX_EIO, [], w)
  | dev => anx_blk_dev_read w dev lba count
  end.

Definition anx_blk_write (w : md_world) (lba : Z) (buf : list sector) : outcome (Z * md_world) :=
  match active_dev (md_reg w) with
  | None => Ret (ANX_EIO, w)
  | dev => anx_blk_dev_write w dev lba buf
  end.
End md.

Arguments md_world D : clear implicits.
