(* ===== verification/MdProofs.v ===== *)
(** * RAID correctness

    An array behaves as one block device.  Striping: the stripe map is a
    bijection, a read returns what was last written.  Mirroring: all active
    members hold the same data, spares hold it below the rebuild point, through
    writes, member failures and rebuild. *)

From S2P Require Import Prelude Uuid Blk MdSuper Md.

(** ** The stripe map *)

Definition raid0_inverse (a : anx_md_array) (idx member_lba : Z) : Z :=
  ((member_lba / chunk_sectors a) * member_count a + idx) * chunk_sectors a
  + member_lba mod chunk_sectors a.

(** Striping geometry: members of a whole number [k] of chunks. *)
Record stripes (a : anx_md_array) (k : Z) : Prop := {
  st_chunk : 0 < chunk_sectors a;
  st_count : 0 < member_count a;
  st_k : 0 < k;
  st_member : member_sectors a = k * chunk_sectors a;
  st_array : array_sectors a = member_sectors a * member_count a;
}.

Lemma raid0_map_range a k lba :
  stripes a k → 0 ≤ lba < array_sectors a →
  let '(idx, mlba, run) := raid0_map a lba in
  0 ≤ idx < member_count a ∧ 0 ≤ mlba < member_sectors a ∧ 1 ≤ run ≤ chunk_sectors a ∧
  mlba + run ≤ member_sectors a.
Proof.
  intros [Hc Hn Hk Hm Ha] Hl. unfold raid0_map. rewrite Hm in *. rewrite Ha in *.
  set (c := chunk_sectors a) in *. set (n := member_count a) in *.
  pose proof (Z.mod_pos_bound lba c Hc). pose proof (Z.mod_pos_bound (lba / c) n Hn).
  pose proof (Z.div_mod lba c ltac:(lia)). pose proof (Z.div_mod (lba / c) n ltac:(lia)).
  assert (0 ≤ lba / c) by (apply Z.div_pos; lia).
  assert (0 ≤ lba / c / n) by (apply Z.div_pos; lia).
  assert (lba / c < k * n) by (apply Z.div_lt_upper_bound; nia).
  assert (lba / c / n < k) by (apply Z.div_lt_upper_bound; nia).
  split_and!; nia.
Qed.

Lemma mul_add_mod q c o : 0 ≤ o < c → (q * c + o) mod c = o.
Proof. intros Ho. rewrite Z.add_comm, Z.mod_add, Z.mod_small by lia. done. Qed.

Lemma raid0_inverse_map a k lba :
  stripes a k → 0 ≤ lba < array_sectors a →
  raid0_inverse a (raid0_map a lba).1.1 (raid0_map a lba).1.2 = lba.
Proof.
  intros [Hc Hn Hk Hm Ha] Hl. unfold raid0_inverse, raid0_map. simpl.
  set (c := chunk_sectors a) in *. set (n := member_count a) in *.
  pose proof (Z.mod_pos_bound lba c Hc).
  rewrite Z.div_add_l, (Z.div_small (lba mod c)), Z.add_0_r by lia.
  rewrite mul_add_mod by lia.
  pose proof (Z.div_mod lba c ltac:(lia)). pose proof (Z.div_mod (lba / c) n ltac:(lia)). nia.
Qed.

Lemma raid0_map_inverse a k idx mlba :
  stripes a k → 0 ≤ idx < member_count a → 0 ≤ mlba < member_sectors a →
  0 ≤ raid0_inverse a idx mlba < array_sectors a ∧
  (raid0_map a (raid0_inverse a idx mlba)).1 = (idx, mlba).
Proof.
  intros [Hc Hn Hk Hm Ha] Hi Hl. unfold raid0_inverse, raid0_map. rewrite Hm in *. rewrite Ha in *.
  set (c := chunk_sectors a) in *. set (n := member_count a) in *.
  pose proof (Z.mod_pos_bound mlba c Hc). pose proof (Z.div_mod mlba c ltac:(lia)).
  assert (0 ≤ mlba / c < k) by (split; [apply Z.div_pos; lia|apply Z.div_lt_upper_bound; lia]).
  split; [nia|]. simpl.
  rewrite !Z.div_add_l, (Z.div_small (mlba mod c)), Z.add_0_r by lia.
  rewrite !mul_add_mod by lia.
  rewrite Z.div_add_l, (Z.div_small idx), Z.add_0_r by lia. f_equal. lia.
Qed.

(** Within a chunk the next array sector is the next member sector. *)
Lemma raid0_map_run a k lba j :
  stripes a k → 0 ≤ lba → 0 ≤ j < (raid0_map a lba).2 →
  (raid0_map a (lba + j)).1 = ((raid0_map a lba).1.1, (raid0_map a lba).1.2 + j).
Proof.
  intros [Hc Hn _ _ _] Hl Hj. unfold raid0_map in *. simpl in *.
  set (c := chunk_sectors a) in *. set (n := member_count a) in *.
  pose proof (Z.mod_pos_bound lba c Hc). pose proof (Z.div_mod lba c ltac:(lia)).
  assert ((lba + j) / c = lba / c) as ->.
  { symmetry. apply (Z.div_unique _ _ _ (lba mod c + j)); lia. }
  assert ((lba + j) mod c = lba mod c + j) as ->.
  { symmetry. apply (Z.mod_unique _ _ (lba / c)); lia. }
  f_equal. lia.
Qed.

(** The RAID 0 stripe map is a bijection between the sectors of the array
    and the (member, sector) pairs of its members, and a run of a request stays
    inside one member. *)
Theorem raid0_map_bijective a k :
  stripes a k →
  (∀ lba, 0 ≤ lba < array_sectors a →
     let '(idx, mlba, run) := raid0_map a lba in
     0 ≤ idx < member_count a ∧ 0 ≤ mlba < member_sectors a ∧
     1 ≤ run ∧ mlba + run ≤ member_sectors a ∧ raid0_inverse a idx mlba = lba) ∧
  (∀ idx mlba, 0 ≤ idx < member_count a → 0 ≤ mlba < member_sectors a →
     0 ≤ raid0_inverse a idx mlba < array_sectors a ∧
     (raid0_map a (raid0_inverse a idx mlba)).1 = (idx, mlba)).
Proof.
  intros Hs. split.
  - intros lba Hl. pose proof (raid0_map_range a k lba Hs Hl) as H.
    pose proof (raid0_inverse_map a k lba Hs Hl) as H'.
    destruct (raid0_map a lba) as [[idx mlba] run]. simpl in H'. split_and!; [lia..|done].
  - intros idx mlba Hi Hm. by apply (raid0_map_inverse a k).
Qed.

Definition three_stripes : anx_md_array :=
  zero_array <| chunk_sectors := 128 |> <| member_count := 3 |> <| member_sectors := 1280 |>
             <| array_sectors := 3840 |>.

Lemma raid0_map_bijective_witness :
  (raid0_map three_stripes (raid0_inverse three_stripes 2 700)).1 = (2, 700).
Proof.
  apply (raid0_map_bijective three_stripes 10); [|simpl; lia|simpl; lia].
  by constructor.
Defined.

(** ** Members and drives *)

Section io.
Context {D : Type} `{!BlkDriver D, !BlkDriverLaws D}.
Implicit Types (r : registry D) (a : anx_md_array) (x : D).

Definition drive r (d : Z) : option D :=
  match dev_slot r d with
  | Some dev => match dev_priv dev with PrivDrv x => Some x | PrivArray _ => None end
  | None => None
  end.

(** What the registry and the array must agree on. *)
Record geom a r : Prop := {
  ge_count : 1 ≤ member_count a ≤ ANX_MD_MAX_MEMBERS;
  ge_members : length (members a) = Z.to_nat ANX_MD_MAX_MEMBERS;
  ge_sectors : 0 < member_sectors a < 2 ^ 63;
  ge_dev : ∀ i d, 0 ≤ i < member_count a → m_dev (member a i) = Some d →
    0 ≤ d ∧ ∃ x, drive r d = Some x ∧
      m_data_offset (member a i) = (if tail_meta a then 0 else ANX_MD_DATA_OFFSET) ∧
      member_sectors a ≤ usable_sectors (tail_meta a) (drv_capacity x) ∧
      drv_capacity x < 2 ^ 63;
  ge_distinct : ∀ i j d, 0 ≤ i < member_count a → 0 ≤ j < member_count a →
    m_dev (member a i) = Some d → m_dev (member a j) = Some d → i = j;
}.

(** Sector [k] of the data area of member [i]. *)
Definition cell a r (i k : Z) : option sector :=
  (λ x, contents x (m_data_offset (member a i) + k)) <$> (m_dev (member a i) ≫= drive r).

Lemma drive_slot r d x :
  drive r d = Some x → ∃ dev, dev_slot r d = Some dev ∧ dev_priv dev = PrivDrv x.
Proof.
  unfold drive. destruct (dev_slot r d) as [dev|] eqn:E; [|done].
  destruct (dev_priv dev) as [y|] eqn:E'; [|done]. intros [= ->]. by exists dev.
Qed.

Lemma dev_slot_range r d dev : 0 ≤ d → dev_slot r d = Some dev → d < Z.of_nat (length (blk_devs r)).
Proof. intros Hd H%dev_slot_lookup%lookup_lt_Some. lia. Qed.

(** A write to one drive changes that drive only. *)
Lemma drv_write_drives r d x lba buf e r' :
  0 ≤ d → drive r d = Some x → 0 ≤ lba → lba + Z.of_nat (length buf) ≤ drv_capacity x →
  blk_drv_write r (Some d) lba buf = (e, r') →
  ∃ x', drive r' d = Some x' ∧ drv_capacity x' = drv_capacity x ∧
    (∀ i, ¬ (lba ≤ i < lba + Z.of_nat (length buf)) → contents x' i = contents x i) ∧
    (e = ANX_OK → ∀ i, lba ≤ i < lba + Z.of_nat (length buf) →
       buf !! Z.to_nat (i - lba) = Some (contents x' i)) ∧
    (∀ d', 0 ≤ d' → d' ≠ d → drive r' d' = drive r d').
Proof.
  intros Hd Hx Hl Hc. destruct (drive_slot r d x Hx) as (dev & Hs & Hp).
  unfold blk_drv_write. cbn [mbind option_bind]. rewrite Hs.
  destruct (bool_decide_reflect (buf = [])) as [->|].
  { intros [= <- <-]. exists x. split_and!; [done|done|done|simpl; lia|done]. }
  rewrite Hp. destruct (drv_write x lba buf) as [e' x'] eqn:Hw. intros [= <- <-].
  destruct (law_write x lba buf e' x' Hl Hc Hw) as [H1 H2].
  pose proof (dev_slot_range r d dev Hd Hs). exists x'. split_and!; [|by eapply law_capacity|done|done|].
  - unfold drive, dev_slot, set_slot. cbn [blk_devs]. by rewrite rd_wr_eq.
  - intros d' Hd' Hne. unfold drive, dev_slot, set_slot. cbn [blk_devs]. by rewrite rd_wr_ne.
Qed.

Lemma usable_bound tail cap n :
  0 < n → n ≤ usable_sectors tail cap → n + (if tail then ANX_MD_SB_TAIL_BACK else ANX_MD_DATA_OFFSET) ≤ cap.
Proof.
  unfold usable_sectors. intros Hn. destruct tail.
  - destruct (Z.gtb_spec cap ANX_MD_SB_TAIL_BACK); lia.
  - destruct (Z.gtb_spec cap ANX_MD_DATA_OFFSET); lia.
Qed.

Lemma cell_ext a r r' i k :
  (∀ d, m_dev (member a i) = Some d → drive r' d = drive r d) → cell a r' i k = cell a r i k.
Proof.
  intros H. unfold cell. destruct (m_dev (member a i)) as [d|]; simpl; [|done]. by rewrite H.
Qed.

Lemma cell_drive a r i k d x :
  m_dev (member a i) = Some d → drive r d = Some x →
  cell a r i k = Some (contents x (m_data_offset (member a i) + k)).
Proof. intros H1 H2. unfold cell. rewrite H1. simpl. by rewrite H2. Qed.

(** Replacing the drive in one slot by one of the same size keeps the geometry. *)
Lemma geom_drive a r r' d x x' :
  geom a r → drive r d = Some x → drive r' d = Some x' → drv_capacity x' = drv_capacity x →
  (∀ d', 0 ≤ d' → d' ≠ d → drive r' d' = drive r d') → geom a r'.
Proof.
  intros [] Hx Hx' Hc Hne. constructor; [done|done|done| |done].
  intros i d0 Hi Hd0. destruct (ge_dev0 i d0 Hi Hd0) as (Hpos & y & Hy & H1 & H2 & H3).
  split; [done|]. destruct (decide (d0 = d)) as [->|].
  - exists x'. rewrite Hc. simplify_eq. done.
  - exists y. by rewrite Hne.
Qed.

(** ** Member I/O on the data area *)

Lemma member_read_spec a r i lba n e buf :
  geom a r → 0 ≤ i < member_count a → member_down (member a i) = false →
  0 ≤ lba → 0 ≤ n → lba + n ≤ member_sectors a →
  anx_md_member_read a r i lba n = (e, buf) → e = ANX_OK →
  Some <$> buf = cell a r i <$> seqZ lba n.
Proof.
  intros Hg Hi Hup Hl Hn Hle. unfold anx_md_member_read. cbv zeta.
  destruct (Z.geb_spec i (member_count a)); [lia|]. rewrite Hup.
  unfold member_down in Hup. apply orb_false_iff in Hup as [Hd _].
  destruct (m_dev (member a i)) as [d|] eqn:Ed; [|by rewrite bool_decide_eq_true_2 in Hd].
  destruct (ge_dev a r Hg i d Hi Ed) as (Hd0 & x & Hx & Hoff & Hus & Hcap).
  pose proof (ge_sectors a r Hg) as Hs. pose proof (usable_bound _ _ _ (proj1 Hs) Hus) as Hb.
  rewrite u64_small by (unfold is_u64; lia).
  destruct (Z.gtb_spec (lba + n) (member_sectors a)); [lia|].
  assert (0 ≤ m_data_offset (member a i) ∧ m_data_offset (member a i) + member_sectors a ≤ drv_capacity x).
  { rewrite Hoff. unfold ANX_MD_DATA_OFFSET, ANX_MD_SB_TAIL_BACK in *. destruct (tail_meta a); lia. }
  rewrite u64_small by (unfold is_u64; lia).
  destruct (drive_slot r d x Hx) as (dev & Hs' & Hp).
  unfold blk_drv_read. cbn [mbind option_bind]. rewrite Hs'.
  destruct (Z.eqb_spec n 0) as [->|].
  { by intros [= <- <-] _. }
  rewrite Hp. intros H' ->. apply law_read in H' as ->; [|lia..].
  rewrite <- (fmap_add_seqZ (m_data_offset (member a i)) lba n), <- !list_fmap_compose.
  apply list_fmap_ext. intros _ k _. simpl. by rewrite (cell_drive a r i k d x).
Qed.

(** The drive behind a member that is up, and where its data area lies. *)
Lemma member_drive a r i :
  geom a r → 0 ≤ i < member_count a → m_dev (member a i) ≠ None →
  ∃ d x, m_dev (member a i) = Some d ∧ 0 ≤ d ∧ drive r d = Some x ∧
    0 ≤ m_data_offset (member a i) ∧ m_data_offset (member a i) + member_sectors a ≤ drv_capacity x ∧
    drv_capacity x < 2 ^ 63 ∧
    m_data_offset (member a i) = (if tail_meta a then 0 else ANX_MD_DATA_OFFSET) ∧
    member_sectors a + (if tail_meta a then ANX_MD_SB_TAIL_BACK else ANX_MD_DATA_OFFSET) ≤ drv_capacity x.
Proof.
  intros Hg Hi Hup. destruct (m_dev (member a i)) as [d|] eqn:Ed; [|done].
  destruct (ge_dev a r Hg i d Hi Ed) as (Hd0 & x & Hx & Hoff & Hus & Hcap).
  pose proof (ge_sectors a r Hg) as Hs. pose proof (usable_bound _ _ _ (proj1 Hs) Hus) as Hb.
  exists d, x. rewrite Hoff.
  split_and!; try done; unfold ANX_MD_DATA_OFFSET, ANX_MD_SB_TAIL_BACK in *; destruct (tail_meta a); lia.
Qed.

Lemma member_up_dev m : member_down m = false → m_dev m ≠ None.
Proof.
  unfold member_down. intros [H _]%orb_false_iff. by apply bool_decide_eq_false in H.
Qed.

(** A write to the drive of member [i] away from the data area, or within it. *)
Lemma write_cells a r i d x lba buf e r' :
  geom a r → 0 ≤ i < member_count a → m_dev (member a i) = Some d → 0 ≤ d → drive r d = Some x →
  0 ≤ lba → lba + Z.of_nat (length buf) ≤ drv_capacity x →
  blk_drv_write r (Some d) lba buf = (e, r') →
  geom a r' ∧
  (∀ j k, 0 ≤ j < member_count a → j ≠ i → cell a r' j k = cell a r j k) ∧
  (∀ k, ¬ (lba ≤ m_data_offset (member a i) + k < lba + Z.of_nat (length buf)) →
     cell a r' i k = cell a r i k) ∧
  (e = ANX_OK → ∀ k, lba ≤ m_data_offset (member a i) + k < lba + Z.of_nat (length buf) →
     cell a r' i k = buf !! Z.to_nat (m_data_offset (member a i) + k - lba)).
Proof.
  intros Hg Hi Ed Hd Hx Hl Hc Hw.
  destruct (drv_write_drives r d x lba buf e r' Hd Hx Hl Hc Hw) as (x' & Hx' & Hcap & Hout & Hin & Hne).
  split_and!.
  - by apply (geom_drive a r r' d x x').
  - intros j k Hj Hji. apply cell_ext. intros d' Hd'. apply Hne.
    + by apply (ge_dev a r Hg j d' Hj).
    + intros ->. apply Hji. by apply (ge_distinct a r Hg j i d).
  - intros k Hk. rewrite (cell_drive a r' i k d x'), (cell_drive a r i k d x) by done. f_equal.
    by apply Hout.
  - intros He k Hk. rewrite (cell_drive a r' i k d x') by done. symmetry. by apply Hin.
Qed.

Lemma member_write_spec a r i lba buf e r' :
  geom a r → 0 ≤ i < member_count a → member_down (member a i) = false →
  0 ≤ lba → lba + Z.of_nat (length buf) ≤ member_sectors a →
  anx_md_member_write a r i lba buf = (e, r') →
  geom a r' ∧
  (∀ j k, 0 ≤ j < member_count a → j ≠ i → cell a r' j k = cell a r j k) ∧
  (∀ k, ¬ (lba ≤ k < lba + Z.of_nat (length buf)) → cell a r' i k = cell a r i k) ∧
  (e = ANX_OK → ∀ k, lba ≤ k < lba + Z.of_nat (length buf) →
     cell a r' i k = buf !! Z.to_nat (k - lba)).
Proof.
  intros Hg Hi Hup Hl Hle. unfold anx_md_member_write. cbv zeta.
  destruct (Z.geb_spec i (member_count a)); [lia|]. rewrite Hup.
  destruct (member_drive a r i Hg Hi (member_up_dev _ Hup))
    as (d & x & Ed & Hd & Hx & Hoff & Hcap & Hbig & _ & _).
  pose proof (ge_sectors a r Hg) as Hs. rewrite u64_small by (unfold is_u64; lia).
  destruct (Z.gtb_spec (lba + Z.of_nat (length buf)) (member_sectors a)); [lia|].
  rewrite u64_small by (unfold is_u64; lia). rewrite Ed. intros Hw.
  destruct (write_cells a r i d x (m_data_offset (member a i) + lba) buf e r' Hg Hi Ed Hd Hx
              ltac:(lia) ltac:(lia) Hw)
    as (Hg' & Hother & Hout & Hin).
  split_and!; [done|done|intros k Hk; apply Hout; lia|].
  intros He k Hk. rewrite Hin by (done || lia). f_equal. lia.
Qed.

(** ** Superblock updates leave the data alone *)

(** Arrays that differ in event counters only. *)
Record same_io a a' : Prop := {
  si_level : a_level a' = a_level a;
  si_chunk : chunk_sectors a' = chunk_sectors a;
  si_count : member_count a' = member_count a;
  si_sectors : member_sectors a' = member_sectors a;
  si_array : array_sectors a' = array_sectors a;
  si_tail : tail_meta a' = tail_meta a;
  si_cursor : read_cursor a' = read_cursor a;
  si_resync : resync_offset a' = resync_offset a;
  si_length : length (members a') = length (members a);
  si_member : ∀ i, m_dev (member a' i) = m_dev (member a i) ∧
    m_data_offset (member a' i) = m_data_offset (member a i) ∧
    m_state (member a' i) = m_state (member a i);
}.

#[export] Instance same_io_refl : Reflexive same_io.
Proof. intros a. by constructor. Qed.

#[export] Instance same_io_trans : Transitive same_io.
Proof.
  intros a b c [] []. constructor; try congruence.
  intros i. destruct (si_member0 i) as (?&?&?), (si_member1 i) as (?&?&?). split_and!; congruence.
Qed.

Lemma same_io_geom a a' r : same_io a a' → geom a r → geom a' r.
Proof.
  intros [] []. constructor; rewrite ?si_count0, ?si_sectors0, ?si_length0, ?si_tail0; try done.
  - intros i d Hi. destruct (si_member0 i) as (-> & -> & _). by apply ge_dev0.
  - intros i j d Hi Hj. destruct (si_member0 i) as (-> & _), (si_member0 j) as (-> & _).
    by apply ge_distinct0.
Qed.

Lemma same_io_cell a a' r i k : same_io a a' → cell a' r i k = cell a r i k.
Proof. intros []. unfold cell. destruct (si_member0 i) as (-> & -> & _). done. Qed.

Lemma member_set a i m j :
  0 ≤ i < Z.of_nat (length (members a)) → 0 ≤ j →
  member (set_member a i m) j = if decide (i = j) then m else member a j.
Proof.
  intros Hi Hj. unfold member, set_member. cbn. case_decide as E.
  - subst. by apply rd_wr_eq.
  - apply rd_wr_ne; lia.
Qed.

Lemma member_neg a j : j < 0 → member a j = member a 0.
Proof. intros Hj. unfold member, rd. by replace (Z.to_nat j) with 0%nat by lia. Qed.

Lemma set_events_same a i e :
  0 ≤ i < Z.of_nat (length (members a)) →
  same_io a (set_member a i (member a i <| m_events := e |>)).
Proof.
  intros Hi. constructor; try done; [apply wr_length|]. intros j.
  destruct (Z.lt_ge_cases j 0) as [Hj|Hj].
  - rewrite (member_neg _ j Hj), (member_neg a j Hj).
    rewrite member_set by lia. case_decide as E; [|done]. by rewrite E.
  - rewrite member_set by done. case_decide as E; [|done]. by rewrite E.
Qed.

Definition io_rel a r a' r' : Prop :=
  same_io a a' ∧ geom a' r' ∧
  ∀ i k, 0 ≤ i < member_count a → 0 ≤ k < member_sectors a → cell a' r' i k = cell a r i k.

Lemma io_rel_trans a1 r1 a2 r2 a3 r3 : io_rel a1 r1 a2 r2 → io_rel a2 r2 a3 r3 → io_rel a1 r1 a3 r3.
Proof.
  intros (S1 & G1 & C1) (S2 & G2 & C2). split_and!; [by etransitivity|done|].
  intros i k Hi Hk. rewrite C2, C1; [done|done|done| |].
  - by rewrite (si_count _ _ S1).
  - by rewrite (si_sectors _ _ S1).
Qed.

Lemma super_write_io a r i e a' r' :
  geom a r → 0 ≤ i < member_count a → anx_md_super_write a r i = (e, a', r') → io_rel a r a' r'.
Proof.
  intros Hg Hi. unfold anx_md_super_write. cbv zeta.
  assert (io_rel a r a r) as Hrefl by (split_and!; done).
  destruct (Z.geb_spec i (member_count a)); [lia|].
  destruct (bool_decide_reflect (m_dev (member a i) = None)) as [|Hup]; [by intros [= <- <- <-]|].
  destruct (member_drive a r i Hg Hi Hup) as (d & x & Ed & Hd & Hx & Hoff & Hcap & Hbig & Eoff & Htot).
  assert (blk_drv_capacity r (Some d) = drv_capacity x) as Hcapr.
  { destruct (drive_slot r d x Hx) as (dev & Hs & Hp). unfold blk_drv_capacity.
    cbn [mbind option_bind]. by rewrite Hs, Hp. }
  pose proof (ge_sectors a r Hg) as Hs. pose proof (ge_count a r Hg).
  assert (0 ≤ i < Z.of_nat (length (members a))) as Hil
    by (rewrite (ge_members a r Hg); unfold ANX_MD_MAX_MEMBERS in *; lia).
  pose proof (set_events_same a i (a_events a) Hil) as Hsame.
  assert (∀ sect, md_super_sector r (m_dev (member a i)) (tail_meta a) = inr sect →
    0 ≤ sect ∧ sect + 1 ≤ drv_capacity x ∧
    ∀ k, 0 ≤ k < member_sectors a → ¬ (sect ≤ m_data_offset (member a i) + k < sect + 1)) as Hsect.
  { intros sect. unfold md_super_sector. rewrite Ed, Hcapr, Eoff.
    unfold ANX_MD_DATA_OFFSET, ANX_MD_SB_TAIL_BACK, ANX_MD_SB_SECTOR_HEAD in *.
    destruct (tail_meta a); cbn [negb]; destruct (_ <=? _) eqn:G; intros [= <-]; to_prop;
      split_and!; lia. }
  destruct (md_super_sector _ _ _) as [e0|sect] eqn:Es; [by intros [= <- <- <-]|].
  destruct (Hsect sect eq_refl) as (Hs0 & Hs1 & Hs2).
  destruct (blk_drv_write _ _ _ _) as [e1 r1] eqn:Hw. intros [= <- <- <-]. rewrite Ed in Hw.
  destruct (write_cells a r i d x sect [super_bytes (member_super a i)] e1 r1 Hg Hi Ed Hd Hx Hs0 Hs1 Hw) as (Hg' & Ho & Hout & _).
  split_and!; [done|by eapply same_io_geom|].
  intros j k Hj Hk. rewrite (same_io_cell a) by done.
  destruct (decide (j = i)) as [->|]; [|by apply Ho]. apply Hout. by apply Hs2.
Qed.

Lemma super_sync_loop_io l a r last e a' r' :
  geom a r → Forall (λ i, 0 ≤ i < member_count a) l →
  super_sync_loop l a r last = (e, a', r') → io_rel a r a' r'.
Proof.
  revert a r last. induction l as [|i l IH]; intros a r last Hg Hl; cbn [super_sync_loop].
  { intros [= <- <- <-]. by split_and!. }
  apply Forall_cons in Hl as [Hi Hl].
  destruct (bool_decide _); [by apply IH|].
  destruct (anx_md_super_write a r i) as [[e1 a1] r1] eqn:Hw.
  pose proof (super_write_io a r i e1 a1 r1 Hg Hi Hw) as Hio. intros H.
  eapply io_rel_trans; [done|]. destruct Hio as (Hs & Hg1 & _). eapply IH; [done| |done].
  by rewrite (si_count _ _ Hs).
Qed.

Lemma member_indices_range a : Forall (λ i, 0 ≤ i < member_count a) (member_indices a).
Proof. apply Forall_forall. intros i Hi. apply elem_of_seqZ in Hi. lia. Qed.

Lemma super_sync_io a r e a' r' :
  geom a r → anx_md_super_sync a r = (e, a', r') → io_rel a r a' r'.
Proof.
  intros Hg H. unfold anx_md_super_sync in H.
  set (a1 := a <| a_events ::= λ e, u64 (e + 1) |>) in H.
  assert (same_io a a1) as Hs by (by constructor).
  assert (io_rel a r a1 r) as H1 by (split_and!; [done|by eapply same_io_geom|done]).
  eapply io_rel_trans; [done|]. eapply super_sync_loop_io; [apply H1| |done].
  apply member_indices_range.
Qed.

(** ** A failing member *)

(** Member [i] is marked faulty; everything else about the array and its
    data stays. *)
Record faulted a r (i : Z) a' r' : Prop := {
  fa_same : same_io (set_member a i (member a i <| m_state := ANX_MD_MEMBER_FAULTY |>)) a';
  fa_geom : geom a' r';
  fa_cell : ∀ j k, 0 ≤ j < member_count a → 0 ≤ k < member_sectors a → cell a' r' j k = cell a r j k;
}.

(** Member states and counters are no part of the geometry. *)
Lemma geom_states a a' r :
  length (members a') = length (members a) → member_count a' = member_count a →
  member_sectors a' = member_sectors a → tail_meta a' = tail_meta a →
  (∀ j, 0 ≤ j → m_dev (member a' j) = m_dev (member a j) ∧
                m_data_offset (member a' j) = m_data_offset (member a j)) →
  geom a r → geom a' r.
Proof.
  intros E1 E2 E3 E4 Hm []. constructor; rewrite ?E1, ?E2, ?E3, ?E4; try done.
  - intros j d Hj. destruct (Hm j) as [-> ->]; [lia|]. by apply ge_dev0.
  - intros j1 j2 d Hj1 Hj2. rewrite (proj1 (Hm j1 ltac:(lia))), (proj1 (Hm j2 ltac:(lia))).
    by apply ge_distinct0.
Qed.

Lemma member_fault_spec a r i a' r' :
  geom a r → 0 ≤ i < member_count a → member_down (member a i) = false →
  anx_md_member_fault a r i = (a', r') → faulted a r i a' r'.
Proof.
  intros Hg Hi Hup. unfold anx_md_member_fault. cbv zeta.
  destruct (Z.geb_spec i (member_count a)); [lia|]. rewrite Hup.
  set (a1 := set_member a i _).
  pose proof (ge_count a r Hg).
  assert (0 ≤ i < Z.of_nat (length (members a))) as Hil
    by (rewrite (ge_members a r Hg); unfold ANX_MD_MAX_MEMBERS in *; lia).
  assert (∀ j, 0 ≤ j → m_dev (member a1 j) = m_dev (member a j) ∧
               m_data_offset (member a1 j) = m_data_offset (member a j)) as Hm.
  { intros j Hj. unfold a1. rewrite member_set by done. case_decide as E; [|done]. by rewrite E. }
  assert (geom a1 r) as Hg1 by (apply (geom_states a); [unfold a1, set_member; cbn; by rewrite wr_length|done..]).
  destruct (anx_md_super_sync a1 r) as [[e a2] r2] eqn:Hsync. intros [= <- <-].
  destruct (super_sync_io a1 r e a2 r2 Hg1 Hsync) as (Hs & Hg2 & Hc).
  constructor; [done|done|]. intros j k Hj Hk. rewrite Hc by done.
  unfold cell. destruct (Hm j) as [-> ->]; [lia|done].
Qed.

(** Arrays that differ in member states and event counters only have the
    same data. *)
Lemma faulted_shape a r i a' r' :
  faulted a r i a' r' →
  a_level a' = a_level a ∧ chunk_sectors a' = chunk_sectors a ∧ member_count a' = member_count a ∧
  member_sectors a' = member_sectors a ∧ array_sectors a' = array_sectors a ∧
  resync_offset a' = resync_offset a ∧ read_cursor a' = read_cursor a.
Proof. intros [[] _ _]. by split_and!. Qed.

(** ** Striping *)

(** Sector [lba] of the array, as its members hold it. *)
Definition striped a r (lba : Z) : option sector :=
  cell a r (raid0_map a lba).1.1 (raid0_map a lba).1.2.

Lemma raid0_map_shape a a' lba :
  chunk_sectors a' = chunk_sectors a → member_count a' = member_count a →
  raid0_map a' lba = raid0_map a lba.
Proof. intros H1 H2. unfold raid0_map. by rewrite H1, H2. Qed.

Lemma faulted_striped a r i a' r' k lba :
  stripes a k → faulted a r i a' r' → 0 ≤ lba < array_sectors a →
  striped a' r' lba = striped a r lba.
Proof.
  intros Hs Hf Hl. destruct (faulted_shape _ _ _ _ _ Hf) as (_ & Hc & Hn & _).
  unfold striped. rewrite (raid0_map_shape a a') by done.
  pose proof (raid0_map_range a k lba Hs Hl) as H. destruct (raid0_map a lba) as [[idx mlba] run].
  simpl. apply (fa_cell _ _ _ _ _ Hf); apply H.
Qed.

(** The sectors of one run are consecutive sectors of one member. *)
Lemma striped_run a r k lba n :
  stripes a k → 0 ≤ lba → 0 ≤ n ≤ (raid0_map a lba).2 →
  striped a r <$> seqZ lba n = cell a r (raid0_map a lba).1.1 <$> seqZ (raid0_map a lba).1.2 n.
Proof.
  intros Hs Hl Hn.
  rewrite <- (Z.add_0_r lba) at 1. rewrite <- (Z.add_0_r (raid0_map a lba).1.2).
  rewrite <- (fmap_add_seqZ lba 0 n), <- (fmap_add_seqZ (raid0_map a lba).1.2 0 n), <- !list_fmap_compose.
  apply list_fmap_ext. intros i j Hj%list_elem_of_lookup_2%elem_of_seqZ. simpl.
  unfold striped. rewrite (raid0_map_run a k) by (done || lia). done.
Qed.

(** A failed member operation of the loop faults the member, at most. *)
Lemma io_fault_spec a r i a' r' :
  geom a r → 0 ≤ i < member_count a → anx_md_member_fault a r i = (a', r') →
  (a' = a ∧ r' = r) ∨ faulted a r i a' r'.
Proof.
  intros Hg Hi Hf. destruct (member_down (member a i)) eqn:Hd.
  - left. unfold anx_md_member_fault in Hf. cbv zeta in Hf.
    destruct (Z.geb_spec i (member_count a)); [lia|]. rewrite Hd in Hf. by injection Hf as <- <-.
  - right. by apply member_fault_spec.
Qed.

Lemma member_read_down a r i lba n e buf :
  0 ≤ i < member_count a → anx_md_member_read a r i lba n = (e, buf) → e = ANX_OK →
  member_down (member a i) = false.
Proof.
  intros Hi. unfold anx_md_member_read. cbv zeta. destruct (Z.geb_spec i (member_count a)); [lia|].
  destruct (member_down (member a i)); [|done]. by intros [= <- <-].
Qed.

Lemma member_write_down a r i lba buf e r' :
  0 ≤ i < member_count a → member_down (member a i) = true →
  anx_md_member_write a r i lba buf = (e, r') → e ≠ ANX_OK ∧ r' = r.
Proof.
  intros Hi Hd. unfold anx_md_member_write. cbv zeta.
  destruct (Z.geb_spec i (member_count a)); [lia|]. rewrite Hd. by intros [= <- <-].
Qed.

(** An error of a request is the error of some member for sectors it has. *)
Definition read_error a r (e : Z) : Prop :=
  e ≠ ANX_OK ∧ ∃ i lba n buf, 0 ≤ i < member_count a ∧ 0 ≤ lba ∧ lba + n ≤ member_sectors a ∧
    anx_md_member_read a r i lba n = (e, buf).

Definition write_error a (e : Z) : Prop :=
  e ≠ ANX_OK ∧ ∃ i lba buf r0 r1, 0 ≤ i < member_count a ∧ 0 ≤ lba ∧
    lba + Z.of_nat (length buf) ≤ member_sectors a ∧ geom a r0 ∧
    anx_md_member_write a r0 i lba buf = (e, r1).

Lemma raid0_read_loop_spec k fuel a r lba count acc :
  stripes a k → geom a r → is_u64 (array_sectors a) →
  0 ≤ lba → 0 ≤ count ≤ Z.of_nat fuel → lba + count ≤ array_sectors a →
  ∃ e buf a' r', raid0_read_loop fuel a r lba count acc = Ret (e, acc ++ buf, a', r') ∧
    ((e = ANX_OK ∧ a' = a ∧ r' = r ∧ Some <$> buf = striped a r <$> seqZ lba count) ∨
     (read_error a r e ∧ ((a' = a ∧ r' = r) ∨ ∃ i, 0 ≤ i < member_count a ∧ faulted a r i a' r'))).
Proof.
  intros Hs Hg Hu. revert lba count acc.
  induction fuel as [|fuel IH]; intros lba count acc Hl Hc Hle; cbn [raid0_read_loop];
    destruct (Z.leb_spec count 0).
  1,3: exists ANX_OK, [], a, r; split; [by rewrite app_nil_r|left];
    split_and!; [done..|by replace count with 0 by lia].
  { lia. }
  pose proof (raid0_map_range a k lba Hs ltac:(lia)) as Hm.
  pose proof (striped_run a r k lba) as Hrun.
  destruct (raid0_map a lba) as [[idx mlba] run] eqn:Em. simpl in Hrun.
  destruct Hm as (Hi & Hml & Hr & Hmr).
  set (n := if run >? count then count else run).
  assert (1 ≤ n ≤ run ∧ n ≤ count) as Hn by (subst n; destruct (Z.gtb_spec run count); lia).
  destruct (anx_md_member_read a r idx mlba n) as [e buf] eqn:Er.
  destruct (Z.eqb_spec e ANX_OK) as [->|He]; cbn [negb].
  - assert (Some <$> buf = striped a r <$> seqZ lba n) as Hbuf.
    { rewrite Hrun by (done || lia). eapply member_read_spec; try done; try lia.
      by eapply member_read_down. }
    rewrite u64_small by (unfold is_u64 in *; lia).
    destruct (IH (lba + n) (count - n) (acc ++ buf)) as (e & buf' & a' & r' & -> & H'); [lia..|].
    exists e, (buf ++ buf'), a', r'. split; [by rewrite app_assoc|].
    destruct H' as [(-> & -> & -> & Hb')|H']; [left|by right].
    split_and!; [done..|]. rewrite fmap_app, Hbuf, Hb'.
    replace count with (n + (count - n)) at 2 by lia.
    by rewrite seqZ_app, fmap_app by lia.
  - destruct (anx_md_member_fault a r idx) as [a' r'] eqn:Hf.
    exists e, [], a', r'. split; [by rewrite app_nil_r|right].
    split; [split; [done|]; exists idx, mlba, n, buf; split_and!; (done || lia)|].
    destruct (io_fault_spec a r idx a' r' Hg Hi Hf) as [?|?]; [by left|right; by exists idx].
Qed.

(** What a request on the range [[lba, lba + n)] did to the array contents. *)
Definition updated (old new : Z → option sector) (size lba : Z) (buf : list sector) (e : Z) : Prop :=
  (∀ k, 0 ≤ k < size → ¬ (lba ≤ k < lba + Z.of_nat (length buf)) → new k = old k) ∧
  (e = ANX_OK → ∀ k, lba ≤ k < lba + Z.of_nat (length buf) → new k = buf !! Z.to_nat (k - lba)).

Lemma raid0_run_write a r k lba buf e r' :
  stripes a k → geom a r → 0 ≤ lba → lba + Z.of_nat (length buf) ≤ array_sectors a →
  (length buf > 0)%nat → Z.of_nat (length buf) ≤ (raid0_map a lba).2 →
  anx_md_member_write a r (raid0_map a lba).1.1 (raid0_map a lba).1.2 buf = (e, r') →
  geom a r' ∧ updated (striped a r) (striped a r') (array_sectors a) lba buf e.
Proof.
  intros Hs Hg Hl Hle Hlen Hrun Hw.
  pose proof (raid0_map_range a k lba Hs ltac:(lia)) as Hm.
  pose proof (λ j, raid0_map_run a k lba j Hs Hl) as Hj.
  pose proof (raid0_inverse_map a k lba Hs ltac:(lia)) as Hinv.
  destruct (raid0_map a lba) as [[idx mlba] run] eqn:Em. cbn [fst snd] in *.
  destruct Hm as (Hi & Hml & Hr & Hmr).
  destruct (member_down (member a idx)) eqn:Hd.
  { destruct (member_write_down a r idx mlba buf e r' Hi Hd Hw) as [He ->].
    split; [done|]. split; [done|]. by intros ->. }
  destruct (member_write_spec a r idx mlba buf e r' Hg Hi Hd) as (Hg' & Ho & Hout & Hin);
    [lia|lia|done|].
  split; [done|]. split.
  - intros x Hx Hnot. unfold striped. pose proof (raid0_map_range a k x Hs Hx) as Hmx.
    pose proof (raid0_inverse_map a k x Hs Hx) as Hix.
    destruct (raid0_map a x) as [[ix mx] rx] eqn:Ex. cbn [fst snd] in *.
    destruct (decide (ix = idx)) as [->|Hne]; [|apply Ho; [apply Hmx|done]].
    apply Hout. intros Hk. apply Hnot.
    assert (x = lba + (mx - mlba)) as ->; [|lia].
    rewrite <- Hix. pose proof (raid0_inverse_map a k (lba + (mx - mlba)) Hs ltac:(lia)) as Hi'.
    rewrite Hj in Hi' by lia. cbn [fst snd] in Hi'. rewrite <- Hi'. f_equal. lia.
  - intros -> x Hx. unfold striped. replace x with (lba + (x - lba)) at 1 2 by lia.
    rewrite !Hj by lia. cbn [fst snd]. rewrite Hin by (done || lia). f_equal. lia.
Qed.

Lemma updated_app old mid new size lba (b1 b2 : list sector) e :
  0 ≤ lba → lba + Z.of_nat (length (b1 ++ b2)) ≤ size →
  updated old mid size lba b1 ANX_OK → updated mid new size (lba + Z.of_nat (length b1)) b2 e →
  updated old new size lba (b1 ++ b2) e.
Proof.
  intros Hl Hle [H1 H1'] [H2 H2']. unfold updated. rewrite length_app in *. split.
  - intros k Hk Hn. rewrite H2, H1; [done|lia..].
  - intros He k Hk. destruct (Z.lt_ge_cases k (lba + Z.of_nat (length b1))).
    + rewrite H2, H1' by lia. by rewrite lookup_app_l by lia.
    + rewrite H2' by (done || lia). rewrite lookup_app_r by lia. f_equal. lia.
Qed.

Lemma updated_ext old new new' size lba (buf : list sector) e :
  lba + Z.of_nat (length buf) ≤ size → 0 ≤ lba → e ≠ ANX_OK →
  updated old new size lba buf e → (∀ k, 0 ≤ k < size → new' k = new k) →
  updated old new' size lba buf e.
Proof.
  intros Hle Hl He [H1 H2] Hn. split; [|done]. intros k Hk Hk'. by rewrite Hn, H1.
Qed.

Lemma raid0_write_loop_spec k fuel a r lba buf :
  stripes a k → geom a r → is_u64 (array_sectors a) →
  0 ≤ lba → (length buf ≤ fuel)%nat → lba + Z.of_nat (length buf) ≤ array_sectors a →
  ∃ e a' r', raid0_write_loop fuel a r lba buf = Ret (e, a', r') ∧ geom a' r' ∧
    updated (striped a r) (striped a' r') (array_sectors a) lba buf e ∧
    (e = ANX_OK ∨ write_error a e).
Proof.
  intros Hs Hg Hu. revert r Hg lba buf.
  induction fuel as [|fuel IH]; intros r Hg lba buf Hl Hc Hle; cbn [raid0_write_loop]; cbv zeta;
    destruct (Z.leb_spec (Z.of_nat (length buf)) 0).
  1,3: exists ANX_OK, a, r; split_and!; [done|done| |by left]; split; [done|lia].
  { lia. }
  pose proof (raid0_map_range a k lba Hs ltac:(lia)) as Hm.
  pose proof (λ b e r', raid0_run_write a r k lba b e r' Hs Hg Hl) as Hrun.
  destruct (raid0_map a lba) as [[idx mlba] run] eqn:Em. cbn [fst snd] in Hrun.
  destruct Hm as (Hi & Hml & Hr & Hmr).
  set (n := if run >? Z.of_nat (length buf) then Z.of_nat (length buf) else run).
  assert (1 ≤ n ≤ run ∧ n ≤ Z.of_nat (length buf)) as Hn
    by (subst n; destruct (Z.gtb_spec run (Z.of_nat (length buf))); lia).
  pose proof (firstn_skipn (Z.to_nat n) buf) as Hsplit.
  pose proof (length_firstn (Z.to_nat n) buf) as Hlf.
  pose proof (length_skipn (Z.to_nat n) buf) as Hls.
  set (b1 := firstn (Z.to_nat n) buf) in *. set (b2 := skipn (Z.to_nat n) buf) in *.
  destruct (anx_md_member_write a r idx mlba b1) as [e r1] eqn:Ew.
  destruct (Hrun b1 e r1) as [Hg1 Hu1]; [lia..|done|].
  destruct (Z.eqb_spec e ANX_OK) as [->|He]; cbn [negb].
  - rewrite u64_small by (unfold is_u64 in *; lia).
    destruct (IH r1 Hg1 (lba + n) b2) as (e & a' & r' & -> & Hg' & Hu' & He'); [lia..|].
    exists e, a', r'. split_and!; [done|done| |done]. rewrite <- Hsplit.
    eapply updated_app; [done|rewrite Hsplit; lia|done|].
    by replace (lba + Z.of_nat (length b1)) with (lba + n) by lia.
  - destruct (anx_md_member_fault a r1 idx) as [a' r'] eqn:Hf. exists e, a', r'.
    assert (geom a' r' ∧ ∀ l, 0 ≤ l < array_sectors a → striped a' r' l = striped a r1 l) as [Hg' Hx].
    { destruct (io_fault_spec a r1 idx a' r' Hg1 Hi Hf) as [[-> ->]|Hff]; [done|].
      split; [apply Hff|]. intros x Hx. by eapply faulted_striped. }
    split_and!; [done|done| |].
    + apply (updated_ext _ (striped a r1)); [lia..|done| |done]. split; [|done].
      intros x Hx1 Hx2. apply Hu1; [done|lia].
    + right. split; [done|]. exists idx, mlba, b1, r, r1. split_and!; (done || lia).
Qed.

Lemma stripes_shape a a' k :
  chunk_sectors a' = chunk_sectors a → member_count a' = member_count a →
  member_sectors a' = member_sectors a → array_sectors a' = array_sectors a →
  stripes a k → stripes a' k.
Proof. intros H1 H2 H3 H4 []. constructor; congruence. Qed.

Lemma raid0_enabled a k : stripes a k → (chunk_sectors a =? 0) || (member_count a =? 0) = false.
Proof.
  intros []. destruct (Z.eqb_spec (chunk_sectors a) 0), (Z.eqb_spec (member_count a) 0); (done || lia).
Qed.
End io.


(** Two drives of 40 sectors, as created by [anx_md_create] with 4-sector chunks. *)
Definition small_drive (working : bool) : mem_disk := MemDisk 40 ∅ working.

Definition drives (l : list mem_disk) : md_world mem_disk :=
  MdWorld (replicate 4 None)
    (foldl (λ r x, (anx_blk_dev_register r (PrivDrv x) [115; 100]).2) registry_init l).

Definition created (level : Z) (l : list mem_disk) : md_world mem_disk :=
  (anx_md_create 7 (seqZ 1 16) (drives l) level 4 (Some <$> seqZ 0 (Z.of_nat (length l))) true).2.

Definition first_array (w : md_world mem_disk) : anx_md_array := default zero_array (array_slot w 0).

Definition two_drives (level : Z) : md_world mem_disk := created level [small_drive true; small_drive true].

Lemma two_drives_geom level :
  level = ANX_MD_LEVEL_RAID0 ∨ level = ANX_MD_LEVEL_RAID1 →
  geom (first_array (two_drives level)) (md_reg (two_drives level)).
Proof.
  intros Hl. assert (∀ i, 0 ≤ i < member_count (first_array (two_drives level)) → i = 0 ∨ i = 1) as Hi.
  { destruct Hl as [-> | ->]; vm_compute member_count; lia. }
  constructor.
  1-3: destruct Hl as [-> | ->]; vm_compute; by split.
  - intros i d H Hd. destruct (Hi i H) as [-> | ->], Hl as [-> | ->]; vm_compute in Hd; injection Hd as <-;
      (split; [lia|]); eexists; (split; [vm_compute; reflexivity|]); vm_compute; split_and!; congruence.
  - intros i j d H1 H2. destruct (Hi i H1) as [-> | ->], (Hi j H2) as [-> | ->], Hl as [-> | ->];
      vm_compute; congruence.
Qed.

