(* ===== verification/MdMirror.v ===== *)
(** * Mirroring and rebuild

    What a RAID 1 array promises, as an invariant that ties the members to one
    logical device: every active member holds the data written so far, and the
    member being rebuilt holds it below the rebuild point.  Reads, writes,
    member failures and rebuild passes keep it. *)

From S2P Require Import Prelude Uuid Blk MdSuper Md MdProofs.

Section mirror.
Context {D : Type} `{!BlkDriver D, !BlkDriverLaws D}.
Implicit Types (r : registry D) (a : anx_md_array).

Definition active a (i : Z) : Prop := 0 ≤ i < member_count a ∧ in_state ANX_MD_MEMBER_ACTIVE (member a i) = true.
Definition spare a (i : Z) : Prop := 0 ≤ i < member_count a ∧ in_state ANX_MD_MEMBER_SPARE (member a i) = true.

(** Member [i] holds the logical sectors of [abs] in [[0, n)]; [abs k = None]
    is a sector never written through the array. *)
Definition holds a r (abs : Z → option sector) (i n : Z) : Prop :=
  ∀ k v, 0 ≤ k < n → abs k = Some v → cell a r i k = Some v.

(** Member [i] mirrors the device [f i]. *)
Record mirror_of a r (f : Z → Z → option sector) : Prop := {
  mi_geom : geom a r;
  mi_cursor : 0 ≤ read_cursor a < member_count a;
  mi_offset : 0 ≤ resync_offset a ≤ member_sectors a;
  mi_active : ∀ i, active a i → holds a r (f i) i (member_sectors a);
  mi_spare : ∀ i, spare a i → holds a r (f i) i (resync_offset a) ∧ resync_offset a < member_sectors a;
  mi_one : ∀ i j, spare a i → spare a j → i = j;
}.

(** Every member mirrors the same device. *)
Definition mirror a r (abs : Z → option sector) : Prop := mirror_of a r (λ _, abs).

(** The logical device after a write. *)
Definition overwrite (abs : Z → option sector) (lba : Z) (buf : list sector) (k : Z) : option sector :=
  if decide (lba ≤ k < lba + Z.of_nat (length buf)) then buf !! Z.to_nat (k - lba) else abs k.

Lemma in_state_up st m : in_state st m = true → st ≠ ANX_MD_MEMBER_FAULTY → member_down m = false.
Proof.
  unfold in_state, member_down. intros [H1 H2]%andb_true_iff Hst. apply negb_true_iff in H1.
  rewrite H1. apply Z.eqb_eq in H2. simpl. apply Z.eqb_neq. congruence.
Qed.

Lemma active_up a i : active a i → member_down (member a i) = false.
Proof. intros [_ H]. by apply (in_state_up _ _ H). Qed.

Lemma spare_up a i : spare a i → member_down (member a i) = false.
Proof. intros [_ H]. by apply (in_state_up _ _ H). Qed.

Lemma active_state a i : active a i → m_state (member a i) = ANX_MD_MEMBER_ACTIVE.
Proof. intros [_ H]. unfold in_state in H. by apply andb_true_iff in H as [_ H%Z.eqb_eq]. Qed.

Lemma active_not_spare a i : active a i → ¬ spare a i.
Proof.
  intros H1%active_state [_ H2]. unfold in_state in H2. apply andb_true_iff in H2 as [_ H2%Z.eqb_eq].
  unfold ANX_MD_MEMBER_ACTIVE, ANX_MD_MEMBER_SPARE in *. lia.
Qed.

Lemma up_active a i :
  0 ≤ i < member_count a → member_down (member a i) = false →
  m_state (member a i) = ANX_MD_MEMBER_ACTIVE → active a i.
Proof.
  intros Hi Hd Hs. split; [done|]. unfold in_state, member_down in *. rewrite Hs.
  apply orb_false_iff in Hd as [-> _]. done.
Qed.

(** ** Member failure *)

Lemma faulted_state a r i a' r' j st :
  geom a r → 0 ≤ i < member_count a → faulted a r i a' r' → 0 ≤ j → st ≠ ANX_MD_MEMBER_FAULTY →
  in_state st (member a' j) = bool_decide (j ≠ i) && in_state st (member a j).
Proof.
  intros Hg Hi [Hs _ _] Hj Hst. pose proof (ge_count a r Hg).
  assert (0 ≤ i < Z.of_nat (length (members a))) as Hil
    by (rewrite (ge_members a r Hg); unfold ANX_MD_MAX_MEMBERS in *; lia).
  destruct (si_member _ _ Hs j) as (E1 & _ & E3). unfold in_state. rewrite E1, E3.
  rewrite member_set by done. case_decide as E.
  - rewrite (bool_decide_eq_false_2 (j ≠ i)) by auto.
    change (m_state (member a i <| m_state := ANX_MD_MEMBER_FAULTY |>)) with ANX_MD_MEMBER_FAULTY.
    rewrite (proj2 (Z.eqb_neq _ _)) by congruence. apply andb_false_r.
  - by rewrite (bool_decide_eq_true_2 (j ≠ i)) by auto.
Qed.

Lemma faulted_active a r i a' r' j :
  geom a r → 0 ≤ i < member_count a → faulted a r i a' r' → active a' j ↔ j ≠ i ∧ active a j.
Proof.
  intros Hg Hi Hf. destruct (faulted_shape _ _ _ _ _ Hf) as (_ & _ & Hn & _). unfold active. rewrite Hn.
  split.
  - intros [Hj H]. rewrite (faulted_state a r i a' r') in H by (done || lia).
    apply andb_true_iff in H as [H%bool_decide_eq_true ?]. done.
  - intros (Hne & Hj & H). split; [done|]. rewrite (faulted_state a r i a' r') by (done || lia).
    by rewrite (bool_decide_eq_true_2 (j ≠ i)), H.
Qed.

Lemma faulted_spare a r i a' r' j :
  geom a r → 0 ≤ i < member_count a → faulted a r i a' r' → spare a' j ↔ j ≠ i ∧ spare a j.
Proof.
  intros Hg Hi Hf. destruct (faulted_shape _ _ _ _ _ Hf) as (_ & _ & Hn & _). unfold spare. rewrite Hn.
  split.
  - intros [Hj H]. rewrite (faulted_state a r i a' r') in H by (done || lia).
    apply andb_true_iff in H as [H%bool_decide_eq_true ?]. done.
  - intros (Hne & Hj & H). split; [done|]. rewrite (faulted_state a r i a' r') by (done || lia).
    by rewrite (bool_decide_eq_true_2 (j ≠ i)), H.
Qed.

Lemma holds_ext a r a' r' abs i n :
  0 ≤ i < member_count a → n ≤ member_sectors a →
  (∀ k, 0 ≤ k < member_sectors a → cell a' r' i k = cell a r i k) →
  holds a r abs i n → holds a' r' abs i n.
Proof. intros Hi Hn Hc H k v Hk Hv. rewrite Hc by lia. by apply H. Qed.

Lemma mirror_faulted a r f i a' r' :
  mirror_of a r f → 0 ≤ i < member_count a → faulted a r i a' r' → mirror_of a' r' f.
Proof.
  intros [Hg Hcur Hoff Ha Hsp Hone] Hi Hf.
  destruct (faulted_shape _ _ _ _ _ Hf) as (_ & _ & Hn & Hs & _ & Hr & Hc).
  assert (∀ j, 0 ≤ j < member_count a → ∀ k, 0 ≤ k < member_sectors a → cell a' r' j k = cell a r j k) as Hcell
    by (intros; by apply (fa_cell _ _ _ _ _ Hf)).
  constructor; rewrite ?Hn, ?Hs, ?Hr, ?Hc; [apply Hf|done|done|..].
  - intros j Hj. apply (faulted_active a r i a' r') in Hj as [_ Hj]; [|done..].
    apply (holds_ext a r); [apply Hj|done|apply Hcell; apply Hj|by apply Ha].
  - intros j Hj. apply (faulted_spare a r i a' r') in Hj as [_ Hj]; [|done..].
    destruct (Hsp j Hj). split; [|done].
    apply (holds_ext a r); [apply Hj|lia|apply Hcell; apply Hj|done].
  - intros j1 j2 H1 H2. apply (faulted_spare a r i a' r') in H1 as [_ H1], H2 as [_ H2]; [|done..].
    by apply Hone.
Qed.

(** ** Reads *)

(** What faults may change: active members are lost, the rest stays. *)
Record keeps a a' : Prop := {
  ke_level : a_level a' = a_level a;
  ke_count : member_count a' = member_count a;
  ke_sectors : member_sectors a' = member_sectors a;
  ke_array : array_sectors a' = array_sectors a;
  ke_offset : resync_offset a' = resync_offset a;
  ke_active : ∀ j, active a' j → active a j;
  ke_spare : ∀ j, spare a' j → spare a j;
}.

#[export] Instance keeps_refl : Reflexive keeps.
Proof. intros a. by constructor. Qed.

#[export] Instance keeps_trans : Transitive keeps.
Proof. intros a b c [] []. constructor; try congruence; auto. Qed.

Lemma keeps_faulted a r i a' r' :
  geom a r → 0 ≤ i < member_count a → faulted a r i a' r' → keeps a a'.
Proof.
  intros Hg Hi Hf. destruct (faulted_shape _ _ _ _ _ Hf) as (? & _ & ? & ? & ? & ? & _).
  constructor; try done; intros j Hj.
  - by apply (faulted_active a r i a' r') in Hj as [_ ?].
  - by apply (faulted_spare a r i a' r') in Hj as [_ ?].
Qed.

Definition reads (abs : Z → option sector) (lba count : Z) (buf : list sector) : Prop :=
  Z.of_nat (length buf) = count ∧
  ∀ k v, lba ≤ k < lba + count → abs k = Some v → buf !! Z.to_nat (k - lba) = Some v.

Lemma active_read a r abs i lba n buf :
  mirror a r abs → active a i → 0 ≤ lba → 0 ≤ n → lba + n ≤ member_sectors a →
  anx_md_member_read a r i lba n = (ANX_OK, buf) → reads abs lba n buf.
Proof.
  intros Hm Hi Hl Hn Hle Hr.
  pose proof (member_read_spec a r i lba n ANX_OK buf (mi_geom _ _ _ Hm) (proj1 Hi) (active_up _ _ Hi)
                Hl Hn Hle Hr eq_refl) as Hb.
  split.
  - apply (f_equal length) in Hb. rewrite !length_fmap, length_seqZ in Hb. lia.
  - intros k v Hk Hv. pose proof (mi_active _ _ _ Hm i Hi k v ltac:(lia) Hv) as Hc.
    apply (f_equal (.!! Z.to_nat (k - lba))) in Hb. rewrite !list_lookup_fmap in Hb.
    rewrite (lookup_seqZ_lt lba n) in Hb by lia. cbn [fmap option_fmap option_map] in Hb.
    replace (lba + Z.of_nat (Z.to_nat (k - lba))) with k in Hb by lia. rewrite Hc in Hb.
    destruct (buf !! _) as [y|]; [|done]. cbn in Hb. congruence.
Qed.

Lemma mirror_cursor a r abs c :
  mirror a r abs → 0 ≤ c < member_count a → mirror (a <| read_cursor := c |>) r abs.
Proof.
  intros [Hg _ ? ? ? ?] Hc. constructor; try done. by destruct Hg.
Qed.

Lemma readable_active a i : 0 ≤ i < member_count a → raid1_readable a i = true ↔ active a i.
Proof. intros Hi. split; [done|]. by intros [_ ?]. Qed.

Lemma raid1_read_loop_spec abs lba count n tried a r last :
  mirror a r abs → 0 ≤ lba → 0 ≤ count → lba + count ≤ member_sectors a →
  0 ≤ tried → tried + Z.of_nat n = member_count a → last ≠ ANX_OK →
  (∀ t, 0 ≤ t < tried → ¬ active a ((read_cursor a + t) mod member_count a)) →
  ∃ e buf a' r', raid1_read_loop n tried a r lba count last = (e, buf, a', r') ∧
    mirror a' r' abs ∧ keeps a a' ∧ (∀ j, spare a j → spare a' j) ∧
    ((e = ANX_OK ∧ reads abs lba count buf ∧ ∃ i, active a' i) ∨
     (e ≠ ANX_OK ∧ ∀ t, 0 ≤ t < member_count a → ¬ active a' ((read_cursor a + t) mod member_count a))).
Proof.
  intros Hm Hl Hc Hle Ht Hn. revert tried a r last Hm Hle Ht Hn.
  induction n as [|n IH]; intros tried a r last Hm Hle Ht Hn Hlast Hno; cbn [raid1_read_loop].
  { exists last, [], a, r. split_and!; [done..|]. right. split; [done|]. intros t Hr. apply Hno. lia. }
  cbv zeta. pose proof (mi_cursor _ _ _ Hm) as Hcur. pose proof (ge_count _ _ (mi_geom _ _ _ Hm)) as Hmc.
  rewrite u32_small by (unfold is_u32, ANX_MD_MAX_MEMBERS in *; lia).
  set (idx := (read_cursor a + tried) mod member_count a).
  assert (0 ≤ idx < member_count a) as Hidx by (apply Z.mod_pos_bound; lia).
  destruct (raid1_readable a idx) eqn:Hread; cbn [negb].
  2: { apply IH; [done|done|lia|lia|done|]. intros t Hr. destruct (decide (t = tried)) as [->|].
       - intros Ha. apply (readable_active a idx Hidx) in Ha. congruence.
       - apply Hno. lia. }
  apply (readable_active a idx Hidx) in Hread as Hact.
  destruct (anx_md_member_read a r idx lba count) as [e buf] eqn:Er.
  destruct (Z.eqb_spec e ANX_OK) as [->|He].
  - eexists _, _, _, _. split; [done|]. split_and!.
    + apply mirror_cursor; [done|]. apply Z.mod_pos_bound. lia.
    + by constructor.
    + done.
    + left. split_and!; [done|by eapply active_read|by exists idx].
  - destruct (anx_md_member_fault a r idx) as [a1 r1] eqn:Hf.
    apply member_fault_spec in Hf; [|apply Hm|done|by apply active_up].
    destruct (faulted_shape _ _ _ _ _ Hf) as (_ & _ & Hn1 & Hs1 & _ & _ & Hc1).
    pose proof (keeps_faulted _ _ _ _ _ (mi_geom _ _ _ Hm) Hidx Hf) as Hk1.
    destruct (IH (tried + 1) a1 r1 e) as (e' & buf' & a' & r' & E & Hm' & Hk & Hsp & H);
      rewrite ?Hn1, ?Hs1, ?Hc1; [by eapply mirror_faulted|done|lia|lia|done| |].
    { intros t Hr. rewrite (faulted_active a r idx a1 r1) by (done || apply Hm).
      intros [Hne Ha]. destruct (decide (t = tried)) as [->|]; [done|]. apply (Hno t); [lia|done]. }
    exists e', buf', a', r'. rewrite ?Hn1, ?Hs1, ?Hc1 in H.
    split_and!; [done|done|by etransitivity| |done]. intros j Hj. apply Hsp.
    apply (faulted_spare a r idx a1 r1); [apply Hm|done..|]. split; [|done].
    intros ->. by eapply active_not_spare.
Qed.

Lemma raid1_read_spec a r abs lba count :
  mirror a r abs → 0 ≤ lba → 0 ≤ count → lba + count ≤ member_sectors a →
  ∃ e buf a' r', anx_md_raid1_read a r lba count = (e, buf, a', r') ∧ mirror a' r' abs ∧ keeps a a' ∧
    (∀ j, spare a j → spare a' j) ∧
    ((e = ANX_OK ∧ reads abs lba count buf ∧ ∃ i, active a' i) ∨ (e ≠ ANX_OK ∧ ∀ i, ¬ active a' i)).
Proof.
  intros Hm Hl Hc Hle. pose proof (ge_count _ _ (mi_geom _ _ _ Hm)) as Hmc.
  unfold anx_md_raid1_read. destruct (Z.eqb_spec (member_count a) 0); [lia|].
  destruct (raid1_read_loop_spec abs lba count (Z.to_nat (member_count a)) 0 a r ANX_ENODEV)
    as (e & buf & a' & r' & -> & Hm' & Hk & Hsp & H); [done|done|done|done|lia|lia|done|lia|].
  exists e, buf, a', r'. split_and!; [done..|]. destruct H as [?|[He Hno]]; [by left|right].
  split; [done|]. intros i Hi. pose proof (ke_active _ _ Hk i Hi) as [Hr _].
  apply (Hno ((i - read_cursor a) mod member_count a)); [apply Z.mod_pos_bound; lia|].
  rewrite Z.add_mod_idemp_r by lia.
  replace (read_cursor a + (i - read_cursor a)) with i by lia. by rewrite Z.mod_small.
Qed.

(** ** Writes *)


Lemma mirror_write_member a r f i lba buf e r' :
  mirror_of a r f → 0 ≤ i < member_count a → member_down (member a i) = false →
  0 ≤ lba → lba + Z.of_nat (length buf) ≤ member_sectors a →
  anx_md_member_write a r i lba buf = (e, r') →
  mirror_of a r' (λ j, if decide (j = i) then
                    if decide (e = ANX_OK) then overwrite (f i) lba buf else λ _, None
                  else f j).
Proof.
  intros [Hg Hcur Hoff Ha Hsp Hone] Hi Hup Hl Hle Hw.
  destruct (member_write_spec a r i lba buf e r' Hg Hi Hup Hl Hle Hw) as (Hg' & Ho & Hout & Hin).
  assert (∀ j n, 0 ≤ j < member_count a → holds a r (f j) j n →
    holds a r' (if decide (j = i) then
                    if decide (e = ANX_OK) then overwrite (f i) lba buf else λ _, None
                  else f j) j n) as H.
  { intros j n Hj H k v Hk. destruct (decide (j = i)) as [->|].
    - destruct (decide (e = ANX_OK)); [|done]. unfold overwrite. case_decide.
      + intros <-. by apply Hin.
      + rewrite Hout by done. by apply H.
    - rewrite Ho by done. by apply H. }
  constructor; [done..| | |done].
  - intros j Hj. apply H; [apply Hj|by apply Ha].
  - intros j Hj. destruct (Hsp j Hj). split; [|done]. by apply H; [apply Hj|].
Qed.

Lemma mirror_of_ext a r f f' :
  mirror_of a r f → (∀ j k, active a j → f' j k = f j k) →
  (∀ j k, spare a j → 0 ≤ k < resync_offset a → f' j k = f j k) → mirror_of a r f'.
Proof.
  intros [Hg Hcur Hoff Ha Hsp Hone] H1 H2. constructor; [done..| | |done].
  - intros j Hj k v Hk Hv. rewrite H1 in Hv by done. by apply Ha.
  - intros j Hj. destruct (Hsp j Hj) as [Hh ?]. split; [|done].
    intros k v Hk Hv. rewrite H2 in Hv by done. by apply Hh.
Qed.

(** Members below [i] hold the new data, the others the old. *)
Definition written abs lba buf (i j : Z) : Z → option sector :=
  if decide (j < i) then overwrite abs lba buf else abs.

(** Passing over a member that takes no write. *)
Lemma written_skip a r abs lba buf i :
  mirror_of a r (written abs lba buf i) → ¬ active a i → (spare a i → resync_offset a ≤ lba) →
  mirror_of a r (written abs lba buf (i + 1)).
Proof.
  intros Hm Hna Hsp. apply (mirror_of_ext _ _ _ _ Hm); intros j k Hj; unfold written.
  - destruct (decide (j = i)) as [->|]; [done|]. by repeat case_decide; try lia.
  - intros Hk. destruct (decide (j = i)) as [->|]; [|by repeat case_decide; try lia].
    rewrite (decide_True (P := i < i + 1)), (decide_False (P := i < i)) by lia.
    unfold overwrite. rewrite decide_False; [done|]. specialize (Hsp Hj). lia.
Qed.

Lemma written_step a r abs lba buf i e r' :
  mirror_of a r (written abs lba buf i) → 0 ≤ i < member_count a → member_down (member a i) = false →
  0 ≤ lba → lba + Z.of_nat (length buf) ≤ member_sectors a →
  anx_md_member_write a r i lba buf = (e, r') →
  ∃ f, mirror_of a r' f ∧ (∀ j, j ≠ i → f j = written abs lba buf (i + 1) j) ∧
    (e = ANX_OK → f i = written abs lba buf (i + 1) i).
Proof.
  intros Hm Hi Hup Hl Hle Hw. eexists. split; [by eapply mirror_write_member|]. split.
  - intros j Hj. rewrite decide_False by done. unfold written. by repeat case_decide; try lia.
  - intros ->. rewrite !decide_True by done. unfold written.
    by rewrite (decide_False (P := i < i)), (decide_True (P := i < i + 1)) by lia.
Qed.

(** Whether the write loop has succeeded on some active member yet. *)
Definition succeeded a (i ok : Z) : Prop :=
  0 ≤ ok ∧ (0 < ok ↔ ∃ j, active a j ∧ j < i).

Lemma succeeded_skip a i ok : ¬ active a i → succeeded a i ok → succeeded a (i + 1) ok.
Proof.
  intros Hn [H0 H]. split; [done|]. rewrite H. split; intros (j & Hj & Hlt); exists j; split; try done.
  - lia.
  - destruct (decide (j = i)) as [->|]; [done|lia].
Qed.

Lemma down_state a i :
  member_down (member a i) = true → ¬ active a i ∧ ¬ spare a i.
Proof.
  intros Hd. split; intros H; [apply active_up in H|apply spare_up in H]; congruence.
Qed.

(** A member whose write failed is marked faulty and the loop goes on. *)
Lemma written_failed a abs lba buf i f r1 a1 r2 ok :
  mirror_of a r1 f → (∀ j, j ≠ i → f j = written abs lba buf (i + 1) j) →
  0 ≤ i < member_count a → member_down (member a i) = false → succeeded a i ok →
  anx_md_member_fault a r1 i = (a1, r2) →
  mirror_of a1 r2 (written abs lba buf (i + 1)) ∧ keeps a a1 ∧ succeeded a1 (i + 1) ok.
Proof.
  intros Hf Hother Hi Hd Hok Hfa. pose proof (mi_geom _ _ _ Hf) as Hg.
  apply member_fault_spec in Hfa; [|done..].
  pose proof (mirror_faulted _ _ _ _ _ _ Hf Hi Hfa) as Hm1.
  pose proof (λ j, faulted_active a r1 i a1 r2 j Hg Hi Hfa) as Hact.
  pose proof (λ j, faulted_spare a r1 i a1 r2 j Hg Hi Hfa) as Hspa.
  split_and!; [|by eapply keeps_faulted|].
  - apply (mirror_of_ext _ _ _ _ Hm1); intros j k Hj; [|intros _]; rewrite Hother; try done.
    + by apply Hact in Hj as [? _].
    + by apply Hspa in Hj as [? _].
  - apply succeeded_skip; [intros Hj; apply Hact in Hj; naive_solver|].
    destruct Hok as [H0 H]. split; [done|]. rewrite H. split; intros (j & Hj & Hlt); exists j.
    + split; [|done]. apply Hact. split; [lia|done].
    + by apply Hact in Hj as [_ ?].
Qed.

Lemma raid1_write_loop_spec abs lba buf n i a r ok last :
  mirror_of a r (written abs lba buf i) → 0 ≤ lba → lba + Z.of_nat (length buf) ≤ member_sectors a →
  0 ≤ i → i + Z.of_nat n = member_count a → last ≠ ANX_OK → succeeded a i ok →
  ∃ e a' r', raid1_write_loop (seqZ i (Z.of_nat n)) a r lba buf ok last = (e, a', r') ∧
    mirror a' r' (overwrite abs lba buf) ∧ keeps a a' ∧ (e = ANX_OK ↔ ∃ j, active a' j).
Proof.
  intros Hm Hl. revert i a r ok last Hm.
  induction n as [|n IH]; intros i a r ok last Hm Hle Hi Hn Hlast Hok.
  { cbn [seqZ Z.of_nat]. unfold seqZ. cbn [Z.to_nat seq fmap list_fmap raid1_write_loop].
    exists (if ok >? 0 then ANX_OK else last), a, r. split_and!; [done| |done|].
    - apply (mirror_of_ext _ _ _ _ Hm); intros j k Hj; [|intros _]; unfold written;
        rewrite decide_True; (done || destruct Hj; lia).
    - destruct Hok as [H0 H]. destruct (Z.gtb_spec ok 0) as [Hgt|Hng]; split; try done.
      + intros _. apply H in Hgt as (j & ? & _). by exists j.
      + intros (j & Hj). assert (0 < ok); [|lia]. apply H. exists j. split; [done|]. destruct Hj; lia. }
  replace (seqZ i (Z.of_nat (S n))) with (i :: seqZ (i + 1) (Z.of_nat n))
    by (rewrite (seqZ_cons i) by lia; f_equal; f_equal; lia).
  cbn [raid1_write_loop]. cbv zeta.
  destruct (member_down (member a i)) eqn:Hd.
  { destruct (down_state a i Hd). apply IH; [by apply written_skip|done|lia|lia|done|by apply succeeded_skip]. }
  destruct ((m_state (member a i) =? ANX_MD_MEMBER_SPARE) && (lba >=? resync_offset a)) eqn:Hskip.
  { apply andb_true_iff in Hskip as [Hst Hlb]. to_prop.
    assert (¬ active a i) as Hna.
    { intros Hact%active_state. unfold ANX_MD_MEMBER_SPARE, ANX_MD_MEMBER_ACTIVE in *. lia. }
    apply IH; [apply written_skip; [done|done|lia]|done|lia|lia|done|by apply succeeded_skip]. }
  destruct (anx_md_member_write a r i lba buf) as [e r1] eqn:Hw.
  destruct (written_step a r abs lba buf i e r1 Hm ltac:(lia) Hd Hl Hle Hw) as (f & Hf & Hother & Hself).
  destruct (Z.eqb_spec e ANX_OK) as [->|He].
  - apply IH; [|done|lia|lia|done|].
    + apply (mirror_of_ext _ _ _ _ Hf); intros j k Hj; [|intros _];
        (destruct (decide (j = i)) as [->|]; [by rewrite Hself|by rewrite Hother]).
    + destruct Hok as [H0 H]. destruct (Z.eqb_spec (m_state (member a i)) ANX_MD_MEMBER_ACTIVE) as [Ea|Ena].
      * split; [lia|]. split; [intros _|intros _; lia]. exists i. split; [|lia].
        apply up_active; [lia|done|done].
      * apply succeeded_skip; [|done]. by intros Hact%active_state.
  - destruct (anx_md_member_fault a r1 i) as [a1 r2] eqn:Hfa.
    destruct (written_failed a abs lba buf i f r1 a1 r2 ok) as (Hm1 & Hk1 & Hok1); [done|done|lia|done..|].
    pose proof (ke_count _ _ Hk1). pose proof (ke_sectors _ _ Hk1).
    destruct (IH (i + 1) a1 r2 ok e) as (e' & a' & r' & E & Hm' & Hk' & Hiff); [done|lia|lia|lia|done|done|].
    exists e', a', r'. split_and!; [done|done|by etransitivity|done].
Qed.

Lemma raid1_write_spec a r abs lba buf :
  mirror a r abs → 0 ≤ lba → lba + Z.of_nat (length buf) ≤ member_sectors a →
  ∃ e a' r', anx_md_raid1_write a r lba buf = (e, a', r') ∧
    mirror a' r' (overwrite abs lba buf) ∧ keeps a a' ∧ (e = ANX_OK ↔ ∃ j, active a' j).
Proof.
  intros Hm Hl Hle. pose proof (ge_count _ _ (mi_geom _ _ _ Hm)) as Hmc.
  destruct (raid1_write_loop_spec abs lba buf (Z.to_nat (member_count a)) 0 a r 0 ANX_ENODEV)
    as (e & a' & r' & E & H); [|done|done|lia|lia|done| |].
  - apply (mirror_of_ext _ _ _ _ Hm); intros j k Hj; [|intros _]; unfold written;
      rewrite decide_False; (done || destruct Hj; lia).
  - split; [done|]. split; [lia|]. intros (j & [Hj _] & ?). lia.
  - exists e, a', r'. rewrite Z2Nat.id in E by lia. done.
Qed.

(** ** Rebuild *)

Lemma raid1_spare_Some a s : raid1_spare a = Some s → spare a s.
Proof.
  intros [Hin Hs]%find_some. split; [|done]. apply list_elem_of_In, elem_of_seqZ in Hin. lia.
Qed.

Lemma raid1_spare_None a : raid1_spare a = None → ∀ j, ¬ spare a j.
Proof.
  intros H j [Hj Hs]. rewrite (find_none _ _ H j) in Hs; [done|].
  apply list_elem_of_In, elem_of_seqZ. lia.
Qed.

Lemma mirror_io a r a' r' f : io_rel a r a' r' → mirror_of a r f → mirror_of a' r' f.
Proof.
  intros (Hs & Hg' & Hc) [Hg Hcur Hoff Ha Hsp Hone].
  pose proof (si_count _ _ Hs) as E1. pose proof (si_sectors _ _ Hs) as E2.
  pose proof (si_cursor _ _ Hs) as E3. pose proof (si_resync _ _ Hs) as E4.
  assert (∀ st j, in_state st (member a' j) = in_state st (member a j)) as Hst.
  { intros st j. destruct (si_member _ _ Hs j) as (F1 & _ & F3). unfold in_state. by rewrite F1, F3. }
  constructor; rewrite ?E1, ?E2, ?E3, ?E4; [done..| | |].
  - intros i [Hi H]. rewrite E1 in Hi. rewrite Hst in H.
    apply (holds_ext a r); [done|done|intros; by apply Hc|by apply Ha].
  - intros i [Hi H]. rewrite E1 in Hi. rewrite Hst in H. destruct (Hsp i); [done|]. split; [|done].
    apply (holds_ext a r); [done|lia|intros; by apply Hc|done].
  - intros i j [Hi H] [Hj H']. rewrite E1 in Hi, Hj. rewrite Hst in H, H'. by apply Hone.
Qed.

(** What a promotion changes: the spare [s] is active, nobody is a spare. *)
Lemma promote_state a s j st :
  0 ≤ s < Z.of_nat (length (members a)) → 0 ≤ j →
  in_state st (member (set_member a s (member a s <| m_state := ANX_MD_MEMBER_ACTIVE |>)) j) =
  if decide (s = j) then negb (bool_decide (m_dev (member a s) = None)) && (ANX_MD_MEMBER_ACTIVE =? st)
  else in_state st (member a j).
Proof.
  intros Hs Hj. rewrite member_set by done. by case_decide.
Qed.

(** One copied run extends what the spare holds. *)
Lemma rebuild_run a r abs s n buf r' :
  mirror a r abs → spare a s → reads abs (resync_offset a) n buf → 0 < n →
  resync_offset a + n ≤ member_sectors a →
  anx_md_member_write a r s (resync_offset a) buf = (ANX_OK, r') →
  geom a r' ∧ (∀ j, active a j → holds a r' abs j (member_sectors a)) ∧
  holds a r' abs s (resync_offset a + n).
Proof.
  intros [Hg _ Hoff Ha Hsp _] Hs [Hlen Hb] Hn Hle Hw. destruct (Hsp s Hs) as [Hold _].
  destruct (member_write_spec a r s (resync_offset a) buf ANX_OK r' Hg (proj1 Hs) (spare_up _ _ Hs)
              ltac:(lia) ltac:(lia) Hw) as (Hg' & Ho & Hout & Hin).
  split_and!; [done| |].
  - intros j Hj k v Hk Hv. rewrite Ho; [by apply Ha|apply Hj|].
    intros ->. by apply (active_not_spare a s).
  - intros k v Hk Hv. destruct (Z.lt_ge_cases k (resync_offset a)).
    + rewrite Hout by lia. apply Hold; [lia|done].
    + rewrite Hin by (done || lia). apply Hb; [lia|done].
Qed.

(** The rebuild point moves, with sectors left to copy. *)
Lemma rebuild_advance a r abs s n r' :
  mirror a r abs → spare a s → 0 < n → resync_offset a + n < member_sectors a →
  geom a r' → (∀ j, active a j → holds a r' abs j (member_sectors a)) →
  holds a r' abs s (resync_offset a + n) →
  mirror (a <| resync_offset ::= λ o, o + n |>) r' abs.
Proof.
  intros [Hg Hcur Hoff Ha Hsp Hone] Hs Hn Hlt Hg' Ha' Hs'.
  constructor; [by destruct Hg'|done|cbn; lia|exact Ha'| |exact Hone].
  intros i Hi. rewrite (Hone i s) by done. split; [exact Hs'|exact Hlt].
Qed.

Definition promoted a (s n : Z) : anx_md_array :=
  let a := a <| resync_offset ::= λ o, o + n |> in
  set_member a s (member a s <| m_state := ANX_MD_MEMBER_ACTIVE |>).

(** The last run: the spare becomes an active member. *)
Lemma rebuild_finish a r abs s n r' :
  mirror a r abs → spare a s → 0 < n → resync_offset a + n = member_sectors a →
  geom a r' → (∀ j, active a j → holds a r' abs j (member_sectors a)) →
  holds a r' abs s (resync_offset a + n) →
  mirror (promoted a s n) r' abs ∧ active (promoted a s n) s ∧ (∀ j, ¬ spare (promoted a s n) j) ∧
  (∀ j, active a j → active (promoted a s n) j).
Proof.
  intros [Hg Hcur Hoff Ha Hsp Hone] Hs Hn Heq Hg' Ha' Hs'.
  pose proof (ge_count a r Hg). destruct (Hs) as [Hsr Hss].
  set (a1 := a <| resync_offset ::= λ o, o + n |>).
  assert (0 ≤ s < Z.of_nat (length (members a1))) as Hl
    by (change (members a1) with (members a); rewrite (ge_members a r Hg);
        unfold ANX_MD_MAX_MEMBERS in *; lia).
  assert (m_dev (member a s) ≠ None) as Hdev by (apply member_up_dev, spare_up, Hs).
  assert (∀ j, active (promoted a s n) j ↔ j = s ∨ active a j) as Hact.
  { intros j. unfold active. change (member_count (promoted a s n)) with (member_count a). split.
    - intros [Hj H']. unfold promoted in H'. cbv zeta in H'. fold a1 in H'.
      rewrite promote_state in H' by (done || lia). case_decide; [by left|by right].
    - intros Hor. assert (0 ≤ j < member_count a) as Hj by (destruct Hor as [->|[? _]]; done).
      split; [done|]. unfold promoted. cbv zeta. fold a1. rewrite promote_state by (done || lia).
      case_decide; [|naive_solver]. by rewrite bool_decide_eq_false_2. }
  assert (∀ j, ¬ spare (promoted a s n) j) as Hno.
  { intros j [Hj H']. unfold promoted in H'. cbv zeta in H'. fold a1 in H'.
    change (member_count (promoted a s n)) with (member_count a) in Hj.
    rewrite promote_state in H' by (done || lia). case_decide as E.
    - by rewrite andb_false_r in H'.
    - apply E. symmetry. by apply Hone. }
  assert (∀ j, 0 ≤ j → m_dev (member (promoted a s n) j) = m_dev (member a j) ∧
            m_data_offset (member (promoted a s n) j) = m_data_offset (member a j)) as Hm.
  { intros j Hj. unfold promoted. cbv zeta. fold a1. rewrite member_set by done.
    case_decide as E; [|done]. by rewrite <- E. }
  assert (∀ j m, 0 ≤ j → holds a r' abs j m → holds (promoted a s n) r' abs j m) as Hh.
  { intros j m Hj H' k v Hk Hv. rewrite <- (H' k v Hk Hv). unfold cell. by destruct (Hm j Hj) as [-> ->]. }
  split_and!; [|by apply Hact; left|done|by intros j Hj; apply Hact; right].
  constructor; [|done|cbn; lia| |by intros i Hi; apply Hno in Hi|by intros i j Hi; apply Hno in Hi].
  - apply (geom_states a); [apply wr_length|done..].
  - intros j Hj. apply Hh; [apply Hj|]. apply Hact in Hj as [->|Hj]; [|by apply Ha'].
    by rewrite Heq in Hs'.
Qed.

Lemma raid1_spare_eq a r f s : mirror_of a r f → spare a s → raid1_spare a = Some s.
Proof.
  intros Hm Hs. destruct (raid1_spare a) as [s'|] eqn:E.
  - f_equal. by apply (mi_one _ _ _ Hm); [apply raid1_spare_Some|].
  - by destruct (raid1_spare_None a E s).
Qed.

Lemma super_sync_active a r e a' r' j :
  geom a r → anx_md_super_sync a r = (e, a', r') →
  io_rel a r a' r' ∧ (active a' j ↔ active a j) ∧ (spare a' j ↔ spare a j).
Proof.
  intros Hg H. apply super_sync_io in H as Hio; [|done]. split; [done|].
  destruct Hio as (Hs & _). destruct (si_member _ _ Hs j) as (F1 & _ & F3).
  unfold active, spare, in_state. by rewrite F1, F3, (si_count _ _ Hs).
Qed.

(** The run of a pass: at least one sector, never past the end. *)
Definition pass_run a (max : Z) : Z :=
  let run := if negb (max =? 0) && (RAID1_RESYNC_CHUNK >? max) then max else RAID1_RESYNC_CHUNK in
  if run >? member_sectors a - resync_offset a then member_sectors a - resync_offset a else run.

Lemma pass_run_bound a max :
  0 ≤ max → resync_offset a < member_sectors a →
  0 < pass_run a max ≤ member_sectors a - resync_offset a.
Proof.
  intros Hm Hlt. unfold pass_run, RAID1_RESYNC_CHUNK.
  destruct (Z.eqb_spec max 0), (Z.gtb_spec 128 max); cbn [negb andb];
    repeat match goal with |- context [?x >? ?y] => destruct (Z.gtb_spec x y) end; lia.
Qed.

(** A spare that cannot be written is given up. *)
Lemma rebuild_failed a r abs s buf e r' a2 r2 :
  mirror a r abs → spare a s → resync_offset a + Z.of_nat (length buf) ≤ member_sectors a →
  anx_md_member_write a r s (resync_offset a) buf = (e, r') →
  anx_md_member_fault a r' s = (a2, r2) →
  mirror a2 r2 abs ∧ ∀ j, ¬ spare a2 j.
Proof.
  intros Hm Hs Hle Hw Hf. pose proof (mi_offset _ _ _ Hm).
  pose proof (mirror_write_member a r _ s (resync_offset a) buf e r' Hm (proj1 Hs) (spare_up _ _ Hs)
                ltac:(lia) Hle Hw) as Hm2.
  apply member_fault_spec in Hf; [|apply Hm2|apply Hs|by apply spare_up].
  pose proof (mirror_faulted _ _ _ _ _ _ Hm2 (proj1 Hs) Hf) as Hm3.
  pose proof (λ j, faulted_active a r' s a2 r2 j (mi_geom _ _ _ Hm2) (proj1 Hs) Hf) as Hact.
  pose proof (λ j, faulted_spare a r' s a2 r2 j (mi_geom _ _ _ Hm2) (proj1 Hs) Hf) as Hspa.
  split.
  - apply (mirror_of_ext _ _ _ _ Hm3); intros j k Hj; [apply Hact in Hj|apply Hspa in Hj; intros _];
      by rewrite decide_False by apply Hj.
  - intros j Hj. apply Hspa in Hj as [Hne Hj]. apply Hne. by apply (mi_one _ _ _ Hm).
Qed.

(** Drivers report success as 0 and errors as negative codes. *)
Definition error_codes : Prop :=
  (∀ (x : D) lba n, (drv_read x lba n).1 ≤ 0) ∧ (∀ (x : D) lba buf, (drv_write x lba buf).1 ≤ 0).

Lemma member_read_code a r i lba n : error_codes → (anx_md_member_read a r i lba n).1 ≤ 0.
Proof.
  intros [H _]. unfold anx_md_member_read, blk_drv_read. cbv zeta. repeat case_match; simpl; try done.
Qed.

Lemma member_write_code a r i lba buf : error_codes → (anx_md_member_write a r i lba buf).1 ≤ 0.
Proof.
  intros [_ H]. unfold anx_md_member_write, blk_drv_write. cbv zeta. repeat case_match; simpl; try done.
  all: match goal with E : drv_write ?x ?l ?c = _ |- _ => pose proof (H x l c) as H'; by rewrite E in H' end.
Qed.

Lemma raid1_read_code n tried a r lba count last :
  error_codes → last ≤ 0 → (raid1_read_loop n tried a r lba count last).1.1.1 ≤ 0.
Proof.
  intros He. revert tried a r last. induction n as [|n IH]; intros tried a r last Hl; cbn [raid1_read_loop]; [done|].
  cbv zeta. set (idx := _ mod _). destruct (negb (raid1_readable a idx)); [by apply IH|].
  pose proof (member_read_code a r idx lba count He) as Hc.
  destruct (anx_md_member_read a r idx lba count) as [e buf]. destruct (e =? ANX_OK); [done|].
  destruct (anx_md_member_fault a r idx) as [a1 r1]. by apply IH.
Qed.

Lemma raid1_code a r lba count : error_codes → (anx_md_raid1_read a r lba count).1.1.1 ≤ 0.
Proof.
  intros He. unfold anx_md_raid1_read. case_match; [done|]. by apply raid1_read_code.
Qed.

(** The three ways a pass over the spare [s] ends. *)
Inductive pass_result a (s : Z) : Z → anx_md_array → Prop :=
  | PassMore e a' : 0 < e → spare a' s → a_level a' = a_level a →
      member_sectors a' = member_sectors a → resync_offset a' = resync_offset a + e → pass_result a s e a'
  | PassDone e a' : 0 < e → active a' s → (∀ j, ¬ spare a' j) → pass_result a s e a'
  | PassFailed e a' : e ≠ ANX_OK → (error_codes → e < 0) → (∀ j, ¬ active a' j) ∨ (∀ j, ¬ spare a' j) → pass_result a s e a'.

Lemma resync_step_spec a r abs s max :
  mirror a r abs → a_level a = ANX_MD_LEVEL_RAID1 → spare a s → 0 ≤ max →
  ∃ e a' r', anx_md_resync_step a r max = (e, a', r') ∧ mirror a' r' abs ∧ pass_result a s e a'.
Proof.
  intros Hm Hlev Hs Hmax. pose proof (mi_offset _ _ _ Hm) as Hoff.
  destruct (mi_spare _ _ _ Hm s Hs) as [_ Hlt]. pose proof (pass_run_bound a max Hmax Hlt) as Hrun.
  unfold anx_md_resync_step. rewrite Hlev, (raid1_spare_eq a r _ s Hm Hs). cbn [Z.eqb negb].
  change (negb (ANX_MD_LEVEL_RAID1 =? ANX_MD_LEVEL_RAID1)) with false. cbv iota zeta.
  destruct (Z.geb_spec (resync_offset a) (member_sectors a)); [lia|].
  fold (pass_run a max). set (n := pass_run a max) in *.
  pose proof (raid1_code a r (resync_offset a) n) as Hcode.
  destruct (raid1_read_spec a r abs (resync_offset a) n Hm) as (e & buf & a1 & r1 & E & Hm1 & Hk & Hsp & H1);
    [lia..|]. rewrite E in *. cbn [fst] in Hcode. clear E.
  destruct H1 as [(-> & Hb & _)|[He Hno]].
  2: { rewrite (proj2 (Z.eqb_neq _ _) He). eexists _, _, _. split_and!; [done|done|].
       apply PassFailed; [done| |by left]. intros Hcodes. specialize (Hcode Hcodes). unfold ANX_OK in *. lia. }
  cbn [Z.eqb negb]. change (negb (ANX_OK =? ANX_OK)) with false. cbv iota.
  specialize (Hsp s Hs). pose proof (ke_offset _ _ Hk) as Ho. pose proof (ke_sectors _ _ Hk) as Hse.
  pose proof (ke_level _ _ Hk) as Hle.
  destruct (anx_md_member_write a1 r1 s (resync_offset a1) buf) as [e r2] eqn:Hw.
  destruct (Z.eqb_spec e ANX_OK) as [->|He]; cbn [negb].
  2: { destruct (anx_md_member_fault a1 r2 s) as [a3 r3] eqn:Hf. eexists _, _, _. split; [done|].
       destruct (rebuild_failed a1 r1 abs s buf e r2 a3 r3) as [? Hno]; try done; [destruct Hb; lia|].
       split; [done|]. apply PassFailed; [done| |by right]. intros Hcodes.
       pose proof (member_write_code a1 r1 s (resync_offset a1) buf Hcodes) as Hc. rewrite Hw in Hc.
       unfold ANX_OK in *. cbn in Hc. lia. }
  rewrite <- Ho in Hb.
  destruct (rebuild_run a1 r1 abs s n buf r2 Hm1 Hsp Hb) as (Hg2 & Ha2 & Hs2); [lia|lia|done|].
  change (resync_offset (a1 <| resync_offset ::= λ x, x + n |>)) with (resync_offset a1 + n).
  change (member_sectors (a1 <| resync_offset ::= λ x, x + n |>)) with (member_sectors a1).
  destruct (Z.geb_spec (resync_offset a1 + n) (member_sectors a1)) as [Hge|Hle'].
  - fold (promoted a1 s n). destruct (anx_md_super_sync (promoted a1 s n) r2) as [[e' a4] r4] eqn:Hsync.
    destruct (rebuild_finish a1 r1 abs s n r2 Hm1 Hsp) as (Hm3 & Hac & Hnos & _); [lia|lia|done..|].
    eexists _, _, _. split; [done|].
    pose proof (λ j, super_sync_active _ _ _ _ _ j (mi_geom _ _ _ Hm3) Hsync) as Hss.
    split; [by eapply mirror_io; [apply (Hss 0)|]|].
    apply PassDone; [lia|by apply Hss|]. intros j Hj. apply Hss in Hj. by apply (Hnos j).
  - eexists _, _, _. split; [done|]. split; [apply (rebuild_advance a1 r1 abs s); (done || lia)|].
    apply PassMore; [lia|exact Hsp|done|done|]. cbn. lia.
Qed.

Lemma resync_loop_spec fuel a r abs s :
  error_codes → mirror a r abs → a_level a = ANX_MD_LEVEL_RAID1 → spare a s →
  member_sectors a - resync_offset a < Z.of_nat fuel →
  ∃ e a' r', resync_loop fuel a r = Ret (e, a', r') ∧ mirror a' r' abs ∧
    ((e = ANX_OK ∧ active a' s ∧ ∀ j, ¬ spare a' j) ∨
     (e < 0 ∧ ((∀ j, ¬ active a' j) ∨ (∀ j, ¬ spare a' j)))).
Proof.
  intros Hcodes. revert a r. induction fuel as [|fuel IH]; intros a r Hm Hlev Hs Hfuel.
  { destruct (mi_spare _ _ _ Hm s Hs). lia. }
  cbn [resync_loop]. rewrite (raid1_spare_eq a r _ s Hm Hs).
  destruct (mi_spare _ _ _ Hm s Hs) as [_ Hlt].
  destruct (resync_step_spec a r abs s 0 Hm Hlev Hs ltac:(lia)) as (e & a1 & r1 & -> & Hm1 & Hp).
  destruct Hp as [e a1 He Hs1 Hl1 Hse1 Ho1|e a1 He Ha1 Hno1|e a1 He Hneg Hno1].
  - destruct (Z.ltb_spec e 0); [lia|]. destruct (Z.eqb_spec e 0); [lia|].
    apply IH; [done|congruence|done|lia].
  - destruct (Z.ltb_spec e 0); [lia|]. destruct (Z.eqb_spec e 0); [lia|].
    destruct fuel as [|fuel]; [lia|]. cbn [resync_loop].
    destruct (raid1_spare a1) as [s'|] eqn:E; [by apply raid1_spare_Some, Hno1 in E|].
    exists ANX_OK, a1, r1. split_and!; [done|done|by left].
  - specialize (Hneg Hcodes). destruct (Z.ltb_spec e 0); [|lia].
    exists e, a1, r1. split_and!; [done|done|by right].
Qed.
End mirror.

Lemma mirror_shape `{!BlkDriver D, !BlkDriverLaws D} a (r : registry D) abs :
  mirror a r abs → 0 < member_sectors a < 2 ^ 63.
Proof. intros Hm. apply (ge_sectors _ _ (mi_geom _ _ _ Hm)). Qed.

(** C5: A RAID 1 array is one block device kept on several members.  As long as
    its members mirror the logical device [abs], every read and write within
    the array leaves members that mirror [abs], respectively [abs] with the
    range overwritten, whichever drives failed meanwhile.  A read that succeeds
    returns the data of [abs]; a read fails only after every active member
    has failed; a write succeeds exactly when an active member is left.
    Requests past the end are refused and change nothing. *)
Theorem raid1_mirrors_device `{!BlkDriver D, !BlkDriverLaws D} a (r : registry D) abs lba :
  a_level a = ANX_MD_LEVEL_RAID1 → array_sectors a = member_sectors a → mirror a r abs → 0 ≤ lba →
  (∀ count, 0 ≤ count → lba + count < 2 ^ 64 →
     ∃ e buf a' r', md_blk_read a r lba count = Ret (e, buf, a', r') ∧ mirror a' r' abs ∧
       if decide (lba + count ≤ array_sectors a)
       then (e = ANX_OK ∧ reads abs lba count buf) ∨ (e ≠ ANX_OK ∧ ∀ i, ¬ active a' i)
       else e = ANX_EINVAL ∧ a' = a ∧ r' = r) ∧
  (∀ buf, lba + Z.of_nat (length buf) < 2 ^ 64 →
     ∃ e a' r', md_blk_write a r lba buf = Ret (e, a', r') ∧
       if decide (lba + Z.of_nat (length buf) ≤ array_sectors a)
       then mirror a' r' (overwrite abs lba buf) ∧ (e = ANX_OK ↔ ∃ i, active a' i)
       else e = ANX_EINVAL ∧ a' = a ∧ r' = r).
Proof.
  intros Hlev Hsz Hm Hl. pose proof (mirror_shape a r abs Hm) as Hs.
  split; [intros count Hc Hw|intros buf Hw]; unfold md_blk_read, md_blk_write;
    rewrite u64_small by (unfold is_u64; lia); rewrite Hlev;
    change (ANX_MD_LEVEL_RAID1 =? ANX_MD_LEVEL_RAID0) with false; cbv iota.
  - destruct (Z.gtb_spec (lba + count) (array_sectors a)) as [Hgt|Hle].
    { exists ANX_EINVAL, [], a, r. rewrite decide_False by lia. by split_and!. }
    destruct (raid1_read_spec a r abs lba count Hm Hl Hc ltac:(lia)) as (e & buf & a' & r' & -> & H & _ & _ & H').
    exists e, buf, a', r'. rewrite decide_True by lia. split_and!; [done|done|]. naive_solver.
  - destruct (Z.gtb_spec (lba + Z.of_nat (length buf)) (array_sectors a)) as [Hgt|Hle].
    { exists ANX_EINVAL, a, r. rewrite decide_False by lia. by split_and!. }
    destruct (raid1_write_spec a r abs lba buf Hm Hl ltac:(lia)) as (e & a' & r' & -> & H & _ & H').
    exists e, a', r'. by rewrite decide_True by lia.
Qed.

(** A mirror just created over two drives: no sector is known yet. *)
Lemma two_drives_mirror :
  mirror (first_array (two_drives 1)) (md_reg (two_drives 1)) (λ _, None).
Proof.
  assert (member_count (first_array (two_drives 1)) = 2) as Hc by (vm_compute; reflexivity).
  constructor.
  - apply two_drives_geom. by right.
  - vm_compute. split; congruence.
  - vm_compute. split; congruence.
  - done.
  - intros i [Hi H]. assert (i = 0 ∨ i = 1) as [-> | ->] by (rewrite Hc in Hi; lia); vm_compute in H; done.
  - intros i j [Hi H]. assert (i = 0 ∨ i = 1) as [-> | ->] by (rewrite Hc in Hi; lia); vm_compute in H; done.
Qed.

Lemma raid1_mirrors_device_witness :
  ∃ e a' r', md_blk_write (first_array (two_drives 1)) (md_reg (two_drives 1)) 3 [[5]; [6]] = Ret (e, a', r') ∧
    if decide (3 + 2 ≤ array_sectors (first_array (two_drives 1)))
    then mirror a' r' (overwrite (λ _, None) 3 [[5]; [6]]) ∧ (e = ANX_OK ↔ ∃ i, active a' i)
    else e = ANX_EINVAL ∧ a' = first_array (two_drives 1) ∧ r' = md_reg (two_drives 1).
Proof.
  apply (raid1_mirrors_device (first_array (two_drives 1)) (md_reg (two_drives 1)) (λ _, None) 3).
  - reflexivity.
  - reflexivity.
  - apply two_drives_mirror.
  - lia.
  - vm_compute. reflexivity.
Defined.

(** C39: Rebuild completes.  With one member being rebuilt and drivers that
    report errors as negative codes, [anx_md_resync] returns after at most one
    pass per sector.  The members still mirror the same device; on success the
    spare has become an active member, so it holds every sector of it; on
    failure no source or no target is left. *)
Theorem raid1_resync_completes `{!BlkDriver D, !BlkDriverLaws D} fuel a (r : registry D) abs s :
  error_codes (D := D) → mirror a r abs → a_level a = ANX_MD_LEVEL_RAID1 → spare a s →
  member_sectors a < Z.of_nat fuel →
  ∃ e a' r', anx_md_resync fuel a r = Ret (e, a', r') ∧ mirror a' r' abs ∧
    ((e = ANX_OK ∧ active a' s ∧ holds a' r' abs s (member_sectors a') ∧ ∀ j, ¬ spare a' j) ∨
     (e < 0 ∧ ((∀ j, ¬ active a' j) ∨ (∀ j, ¬ spare a' j)))).
Proof.
  intros Hcodes Hm Hlev Hs Hfuel. pose proof (mi_offset _ _ _ Hm).
  unfold anx_md_resync. rewrite Hlev, (raid1_spare_eq a r _ s Hm Hs).
  change (negb (ANX_MD_LEVEL_RAID1 =? ANX_MD_LEVEL_RAID1)) with false. rewrite bool_decide_eq_false_2 by done.
  destruct (resync_loop_spec fuel a r abs s Hcodes Hm Hlev Hs ltac:(lia)) as (e & a' & r' & -> & Hm' & H').
  exists e, a', r'. split_and!; [done|done|]. destruct H' as [(-> & Ha & Hno)|H']; [left|by right].
  split_and!; [done|done|by apply (mi_active _ _ _ Hm')|done].
Qed.

(** The same mirror after member 1 failed and was replaced by drive 2, a spare. *)
Definition rebuilding : Z * anx_md_array * registry mem_disk :=
  let w := created 1 [small_drive true; small_drive true] in
  let '(_, r) := anx_blk_dev_register (md_reg w) (PrivDrv (small_drive true)) [115; 100] in
  let '(_, a, r) := anx_md_raid1_write (first_array w) r 3 [[5]; [6]] in
  let '(_, a, r) := anx_md_fail a r 1 in
  anx_md_add a r (Some 3).

Lemma rebuilding_members i : 0 ≤ i < member_count rebuilding.1.2 → i = 0 ∨ i = 1.
Proof.
  assert (member_count rebuilding.1.2 = 2) as -> by (vm_compute; reflexivity). lia.
Qed.

Lemma rebuilding_geom : geom rebuilding.1.2 rebuilding.2.
Proof.
  constructor.
  1-3: vm_compute; by split.
  - intros i d Hi Hd. destruct (rebuilding_members i Hi) as [-> | ->]; vm_compute in Hd; injection Hd as <-;
      (split; [lia|]); eexists; (split; [vm_compute; reflexivity|]); vm_compute; split_and!; congruence.
  - intros i j d H1 H2. destruct (rebuilding_members i H1) as [-> | ->], (rebuilding_members j H2) as [-> | ->];
      vm_compute; congruence.
Qed.

Lemma rebuilding_mirror : mirror rebuilding.1.2 rebuilding.2 (overwrite (λ _, None) 3 [[5]; [6]]).
Proof.
  constructor.
  - apply rebuilding_geom.
  - vm_compute. split; congruence.
  - vm_compute. split; congruence.
  - intros i [Hi H]. destruct (rebuilding_members i Hi) as [-> | ->]; vm_compute in H; [|done].
    intros k v _. unfold overwrite. case_decide as Hk; [|done].
    assert (k = 3 ∨ k = 4) as [-> | ->] by (cbn in Hk; lia); vm_compute; congruence.
  - intros i [Hi H]. destruct (rebuilding_members i Hi) as [-> | ->]; vm_compute in H; [done|].
    assert (resync_offset rebuilding.1.2 = 0) as E by (vm_compute; reflexivity).
    split; [|vm_compute; reflexivity]. intros k v Hk. rewrite E in Hk. lia.
  - intros i j [Hi H] [Hj H'].
    destruct (rebuilding_members i Hi) as [-> | ->], (rebuilding_members j Hj) as [-> | ->];
      vm_compute in H; vm_compute in H'; congruence.
Qed.

Lemma mem_disk_codes : error_codes (D := mem_disk).
Proof. split; intros; simpl; case_match; done. Qed.

Lemma raid1_resync_completes_witness :
  ∃ e a' r', anx_md_resync 40 rebuilding.1.2 rebuilding.2 = Ret (e, a', r') ∧
    mirror a' r' (overwrite (λ _, None) 3 [[5]; [6]]) ∧
    ((e = ANX_OK ∧ active a' 1 ∧ holds a' r' (overwrite (λ _, None) 3 [[5]; [6]]) 1 (member_sectors a') ∧
        ∀ j, ¬ spare a' j) ∨
     (e < 0 ∧ ((∀ j, ¬ active a' j) ∨ (∀ j, ¬ spare a' j)))).
Proof.
  apply (raid1_resync_completes 40 rebuilding.1.2 rebuilding.2 (overwrite (λ _, None) 3 [[5]; [6]]) 1).
  - apply mem_disk_codes.
  - apply rebuilding_mirror.
  - vm_compute. reflexivity.
  - vm_compute. by split.
  - vm_compute. reflexivity.
Defined.

(** ** Where the array is not a mirror *)

(** Drives that differ before the array is created. *)
Definition filled_drive (b : Z) : mem_disk := MemDisk 40 {[ 3 := [b] ]} true.

Definition read_twice (w : md_world mem_disk) (lba : Z) : outcome (list sector * list sector) :=
  let! (_, b1, a1, r1) := md_blk_read (first_array w) (md_reg w) lba 1 in
  let! (_, b2, _, _) := md_blk_read a1 r1 lba 1 in
  Ret (b1, b2).

(** [anx_md_create] marks every member of a mirror active without making
    the members equal: on two drives whose sector 3 differs, two reads of that
    sector, one after the other with no write between them, return different
    data.  Only sectors written through the array are mirrored. *)
Theorem create_leaves_mirror_unsynced :
  read_twice (created ANX_MD_LEVEL_RAID1 [filled_drive 1; filled_drive 2]) 3 = Ret ([[1]], [[2]]).
Proof. vm_compute. reflexivity. Qed.

(** Three mirrors, of which two failed and were replaced by fresh drives. *)
Definition two_spares : Z * anx_md_array * registry mem_disk :=
  let w := created 1 [small_drive true; small_drive true; small_drive true] in
  let '(_, r) := anx_blk_dev_register (md_reg w) (PrivDrv (small_drive true)) [115; 100] in
  let '(_, r) := anx_blk_dev_register r (PrivDrv (small_drive true)) [115; 100] in
  let '(_, a, r) := anx_md_raid1_write (first_array w) r 3 [[5]; [6]] in
  let '(_, a, r) := anx_md_fail a r 1 in
  let '(_, a, r) := anx_md_fail a r 2 in
  let '(_, a, r) := anx_md_add a r (Some 4) in
  anx_md_add a r (Some 5).

(** [anx_md_resync] rebuilds one spare only.  With two spares it returns
    success with the second one still a spare that does not hold the data, and
    a further call reports success without copying anything. *)
Theorem second_spare_never_rebuilt :
  ∃ a r, anx_md_resync 60 two_spares.1.2 two_spares.2 = Ret (ANX_OK, a, r) ∧
    cell a r 0 3 = Some [5] ∧ cell a r 1 3 = Some [5] ∧ cell a r 2 3 = Some [] ∧
    m_state (member a 2) = ANX_MD_MEMBER_SPARE ∧
    anx_md_resync 60 a r = Ret (ANX_OK, a, r).
Proof. eexists _, _. split; [vm_compute; reflexivity|]. split_and!; vm_compute; reflexivity. Qed.

(** The bound check of [md_blk_read] adds in 64 bits: a read at the last
    64-bit sector number passes it, drives that check their own bounds refuse
    the sector, and each active member of a healthy mirror is marked faulty, so the array fails. *)
Theorem wrapped_read_fails_array :
  anx_md_state (first_array (two_drives 1)) = ANX_MD_ARRAY_CLEAN ∧
  ∃ e buf a r, md_blk_read (first_array (two_drives 1)) (md_reg (two_drives 1)) (2 ^ 64 - 1) 2 = Ret (e, buf, a, r) ∧
    e ≠ ANX_OK ∧ anx_md_state a = ANX_MD_ARRAY_FAILED.
Proof.
  split; [vm_compute; reflexivity|]. eexists _, _, _, _. split; [vm_compute; reflexivity|].
  split; [vm_compute; discriminate|vm_compute; reflexivity].
Qed.
