(* ===== verification/MdCreate.v ===== *)
(** * Creating an array, and its superblocks

    [anx_md_create] establishes the geometry that member I/O relies on, and a
    superblock read back from a drive is the one written to it. *)

From S2P Require Import Prelude Uuid Blk MdSuper Md MdProofs MdMirror.

Section create.
Context {D : Type} `{!BlkDriver D, !BlkDriverLaws D}.
Implicit Types (r : registry D) (a : anx_md_array) (w : md_world D).

(** ** Registry operations that touch no drive *)

Definition same_drives r r' : Prop := ∀ d, 0 ≤ d → drive r' d = drive r d.

#[export] Instance same_drives_refl : Reflexive same_drives.
Proof. by intros r d. Qed.

#[export] Instance same_drives_trans : Transitive same_drives.
Proof. intros r1 r2 r3 H1 H2 d Hd. by rewrite H2, H1. Qed.

Lemma flags_drives r dev f : (∀ i, dev = Some i → 0 ≤ i) → same_drives r (update_flags r dev f).
Proof.
  intros Hi d Hd. unfold update_flags. destruct dev as [i|]; [|done].
  destruct (dev_slot r i) as [x|] eqn:E; [|done]. specialize (Hi i eq_refl).
  pose proof (dev_slot_range r i x Hi E). unfold drive, dev_slot, set_slot. cbn [blk_devs].
  destruct (decide (d = i)) as [->|].
  - rewrite rd_wr_eq by done. unfold dev_slot in E. by rewrite E.
  - by rewrite rd_wr_ne.
Qed.

Lemma claims_drives l a r :
  (∀ k d, k ∈ l → m_dev (member a k) = Some d → 0 ≤ d) →
  same_drives r (foldl (λ r k, anx_blk_dev_claim r (m_dev (member a k))) r l).
Proof.
  revert r. induction l as [|k l IH]; intros r Hl; cbn [foldl]; [done|].
  etransitivity; [|apply IH; intros; eapply Hl; [by apply elem_of_cons; right|done]].
  apply flags_drives. intros i Hi. eapply Hl; [apply elem_of_cons; by left|done].
Qed.

Lemma register_drives r i nm b r' :
  anx_blk_dev_register r (PrivArray i) nm = (Some b, r') → 0 ≤ b ∧ same_drives r r'.
Proof.
  unfold anx_blk_dev_register. destruct (first_free (blk_devs r)) as [j|] eqn:Ef; [|done]. cbv zeta.
  apply first_free_Some in Ef as (l1 & l2 & El & Hj & _).
  intros [= <- <-]. split; [lia|]. intros d Hd.
  assert (drive (set_slot r (Z.of_nat j) (Some (BlkDev (PrivArray i) (blk_pick_name r nm) 0))) d = drive r d) as H.
  { assert (rd None (blk_devs r) (Z.of_nat j) = None) as Hno.
    { unfold rd. rewrite Nat2Z.id, nth_lookup, El, lookup_app_r by lia. by rewrite Hj, Nat.sub_diag. }
    unfold drive, dev_slot, set_slot. cbn [blk_devs]. destruct (decide (d = Z.of_nat j)) as [->|].
    - rewrite rd_wr_eq, Hno; [done|]. rewrite El, length_app. simpl. lia.
    - by rewrite rd_wr_ne by lia. }
  by destruct (active_dev r).
Qed.

Lemma set_active_drives r dev : same_drives r (anx_blk_set_active r dev).
Proof. intros d Hd. unfold anx_blk_set_active. by destruct (_ && _). Qed.

Lemma geom_drives a r r' : same_drives r r' → geom a r → geom a r'.
Proof.
  intros Hd [Hc Hl Hs He Hu]. constructor; [done|done|done| |done].
  intros i d Hi Hm. destruct (He i d Hi Hm) as (H0 & x & Hx & H). split; [done|].
  exists x. by rewrite Hd.
Qed.

(** ** Starting an array *)

Lemma start_array_spec w i a e w' :
  0 ≤ i < Z.of_nat (length (md_arrays w)) → array_slot w i = Some a → geom a (md_reg w) →
  anx_md_start_array w i = (e, w') → e = ANX_OK →
  ∃ b nm, array_slot w' i = Some (a <| bdev := b |> <| a_name := nm |>) ∧ geom a (md_reg w') ∧
    length (md_arrays w') = length (md_arrays w).
Proof.
  intros Hi Ha Hg. unfold anx_md_start_array. rewrite Ha. case_match; [by intros [= <- <-]|]. cbv zeta.
  destruct (anx_blk_dev_register _ _ _) as [[b|] r1] eqn:Er; [|by intros [= <- <-]].
  apply register_drives in Er as [Hb Hd]. intros [= <- <-] _.
  eexists _, _. split_and!.
  - unfold array_slot. cbn [md_arrays]. by rewrite rd_wr_eq.
  - cbn [md_reg]. eapply geom_drives; [|exact Hg]. etransitivity; [exact Hd|].
    etransitivity; [apply (flags_drives r1 (Some b) (λ fl, Z.lor fl ANX_BLK_F_ARRAY)); by intros ? [= <-]|].
    etransitivity; [|case_match; [apply set_active_drives|reflexivity]].
    apply claims_drives. intros k d Hk%elem_of_seqZ Hm. apply (ge_dev a _ Hg k d); [|done].
    cbn in Hk. lia.
  - cbn [md_arrays]. apply wr_length.
Qed.

(** ** The checks of [anx_md_create] *)

Lemma check_members_spec r l :
  check_members r l = ANX_OK → (∀ d, d ∈ l → d ≠ None) ∧ NoDup l.
Proof.
  induction l as [|d l IH]; cbn [check_members].
  { intros _. split; [by intros d ?%not_elem_of_nil|constructor]. }
  case_bool_decide; [done|]. destruct (anx_blk_dev_is_member r d); [done|].
  destruct (dev_has_flag r d ANX_BLK_F_ARRAY); [done|].
  destruct (existsb (λ d', bool_decide (d = d')) l) eqn:E; [done|]. intros [H1 H2]%IH. split.
  - by intros d' [->|?]%elem_of_cons; [|apply H1].
  - constructor; [|done]. intros Hin%list_elem_of_In.
    assert (existsb (λ d', bool_decide (d = d')) l = true); [|congruence].
    apply existsb_exists. exists d. by rewrite bool_decide_eq_true_2.
Qed.

Definition reserve (tail : bool) : Z := if tail then ANX_MD_SB_TAIL_BACK else ANX_MD_DATA_OFFSET.

Lemma reserve_pos tail : 0 < reserve tail.
Proof. by destruct tail. Qed.

Lemma smallest_member_spec r tail l s0 s :
  0 ≤ s0 → smallest_member r tail l s0 = Some s →
  0 ≤ s ∧ (0 < s0 → 0 < s ≤ s0) ∧
  ∀ d, d ∈ l → reserve tail < blk_drv_capacity r d ∧ s ≤ blk_drv_capacity r d - reserve tail ∧ 0 < s.
Proof.
  revert s0. induction l as [|d l IH]; intros s0 H0; cbn [smallest_member].
  { intros [= <-]. split_and!; [done|lia|]. by intros d ?%not_elem_of_nil. }
  cbv zeta. fold (reserve tail). destruct (Z.leb_spec (blk_drv_capacity r d) (reserve tail)); [done|].
  set (s1 := if (s0 =? 0) || (blk_drv_capacity r d - reserve tail <? s0)
             then blk_drv_capacity r d - reserve tail else s0).
  assert (0 < s1 ∧ s1 ≤ blk_drv_capacity r d - reserve tail ∧ (0 < s0 → s1 ≤ s0)) as (H1 & H2 & H3).
  { subst s1. destruct (Z.eqb_spec s0 0), (Z.ltb_spec (blk_drv_capacity r d - reserve tail) s0);
      cbn [orb]; lia. }
  intros Hs. destruct (IH s1 ltac:(lia) Hs) as (Hp & Hle & Hall). specialize (Hle H1).
  split_and!; [done|lia|]. intros d' [->|Hd']%elem_of_cons; [lia|by apply Hall].
Qed.

Lemma capacity_drive r d : 0 < blk_drv_capacity r (Some d) →
  ∃ x, drive r d = Some x ∧ drv_capacity x = blk_drv_capacity r (Some d).
Proof.
  unfold blk_drv_capacity, drive. cbn [mbind option_bind]. destruct (dev_slot r d) as [dev|]; [|done].
  destruct (dev_priv dev) as [x|]; [|done]. intros _. by exists x.
Qed.

Lemma round_chunks_spec s chunk :
  0 ≤ s → 0 ≤ chunk → 0 ≤ md_round_chunks s chunk ≤ s ∧
  (0 < chunk → md_round_chunks s chunk = (s / chunk) * chunk).
Proof.
  intros Hs Hc. unfold md_round_chunks. destruct (Z.eqb_spec chunk 0); [lia|].
  pose proof (Z.div_mod s chunk). pose proof (Z.mod_pos_bound s chunk).
  assert (0 ≤ s / chunk) by (apply Z.div_pos; lia). nia.
Qed.

(** The array record [anx_md_create] fills in. *)
Definition fresh_array now uuid level chunk (devs : list (option Z)) (tail : bool) (sectors : Z) : anx_md_array :=
  MdArray [] uuid level chunk (Z.of_nat (length devs)) sectors
    (if level =? ANX_MD_LEVEL_RAID0 then u64 (sectors * Z.of_nat (length devs)) else sectors)
    1 now tail 0 0
    (((λ d, MdMember d (if tail then 0 else ANX_MD_DATA_OFFSET) ANX_MD_MEMBER_ACTIVE 1) <$> devs)
     ++ replicate (Z.to_nat ANX_MD_MAX_MEMBERS - length devs) empty_member) None.

Lemma fresh_member now uuid level chunk devs tail sectors j d :
  0 ≤ j → devs !! Z.to_nat j = Some d →
  member (fresh_array now uuid level chunk devs tail sectors) j =
  MdMember d (if tail then 0 else ANX_MD_DATA_OFFSET) ANX_MD_MEMBER_ACTIVE 1.
Proof.
  intros Hj Hd. unfold member, rd, fresh_array. cbn [members].
  rewrite nth_lookup, lookup_app_l; [|rewrite length_fmap; by eapply lookup_lt_Some].
  by rewrite list_lookup_fmap, Hd.
Qed.

Lemma fresh_geom r now uuid level chunk devs tail sectors :
  let a := fresh_array now uuid level chunk devs tail sectors in
  1 ≤ Z.of_nat (length devs) ≤ ANX_MD_MAX_MEMBERS → 0 < sectors →
  (∀ d, Some d ∈ devs → 0 ≤ d) → NoDup devs →
  (∀ d, Some d ∈ devs → sectors ≤ blk_drv_capacity r (Some d) - reserve tail ∧
     blk_drv_capacity r (Some d) < 2 ^ 60) →
  (∃ d, Some d ∈ devs) → geom a r.
Proof.
  intros a Hn Hs Hpos Hnd Hcap [d0 Hd0]. pose proof (reserve_pos tail).
  assert (∀ i, 0 ≤ i < member_count a → ∃ d, devs !! Z.to_nat i = Some d) as Hlook.
  { intros i Hi. apply lookup_lt_is_Some. cbn in Hi. lia. }
  constructor; [done| | | |].
  - unfold a, fresh_array. cbn [members]. rewrite length_app, length_fmap, length_replicate. lia.
  - cbn. destruct (Hcap d0 Hd0). lia.
  - intros i d Hi Hm. destruct (Hlook i Hi) as [d' Hd']. unfold a in Hm |- *.
    rewrite (fresh_member _ _ _ _ _ _ _ i d') in Hm |- * by (done || lia). cbn [m_dev m_data_offset] in *. subst d'.
    pose proof (list_elem_of_lookup_2 _ _ _ Hd') as Hin. destruct (Hcap d Hin) as [H1 H2].
    split; [by apply Hpos|]. destruct (capacity_drive r d) as (x & Hx & Hxc); [lia|].
    exists x. rewrite Hxc. split_and!; [done|done| |lia].
    unfold usable_sectors. cbn [tail_meta member_sectors fresh_array]. fold (reserve tail).
    destruct (Z.gtb_spec (blk_drv_capacity r (Some d)) (reserve tail)); lia.
  - intros i j d Hi Hj. destruct (Hlook i Hi) as [d1 Hd1], (Hlook j Hj) as [d2 Hd2]. unfold a.
    rewrite (fresh_member _ _ _ _ _ _ _ i d1), (fresh_member _ _ _ _ _ _ _ j d2) by (done || lia). cbn [m_dev].
    intros -> ->. pose proof (NoDup_lookup _ _ _ _ Hnd Hd1 Hd2). lia.
Qed.

Lemma write_supers_io l a r e a' r' :
  geom a r → Forall (λ i, 0 ≤ i < member_count a) l → write_supers l a r = (e, a', r') → io_rel a r a' r'.
Proof.
  revert a r. induction l as [|i l IH]; intros a r Hg Hl; cbn [write_supers].
  { intros [= <- <- <-]. by split_and!. }
  apply Forall_cons in Hl as [Hi Hl].
  destruct (anx_md_super_write a r i) as [[e1 a1] r1] eqn:Hw.
  pose proof (super_write_io a r i e1 a1 r1 Hg Hi Hw) as Hio.
  case_match; [by intros [= <- <- <-]|]. intros H'.
  eapply io_rel_trans; [done|]. destruct Hio as (Hs & Hg1 & _). eapply IH; [done| |done].
  by rewrite (si_count _ _ Hs).
Qed.

Lemma free_array_spec (l : list (option anx_md_array)) n i :
  free_array l n = Some i → n ≤ i < n + Z.of_nat (length l) ∧ l !! Z.to_nat (i - n) = Some None.
Proof.
  revert n. induction l as [|[x|] l IH]; intros n; cbn [free_array length]; [done| |].
  - intros [H1 H2]%IH. split; [lia|].
    by replace (Z.to_nat (i - n)) with (S (Z.to_nat (i - (n + 1)))) by lia.
  - intros [= <-]. split; [lia|]. by rewrite Z.sub_diag.
Qed.

(** What a created array guarantees its users. *)
Record ready a r (level : Z) (devs : list (option Z)) : Prop := {
  re_geom : geom a r;
  re_level : a_level a = level;
  re_count : member_count a = Z.of_nat (length devs);
  re_member : ∀ j d, 0 ≤ j → devs !! Z.to_nat j = Some d →
    m_dev (member a j) = d ∧ m_state (member a j) = ANX_MD_MEMBER_ACTIVE;
  re_raid0 : level = ANX_MD_LEVEL_RAID0 → (∃ k, stripes a k) ∧ is_u64 (array_sectors a);
  re_raid1 : level = ANX_MD_LEVEL_RAID1 →
    array_sectors a = member_sectors a ∧ mirror a r (λ _, None);
}.

Lemma ready_io a r a' r' level devs : io_rel a r a' r' → ready a r level devs → ready a' r' level devs.
Proof.
  intros Hio [Hg H1 H2 H3 H4 H5]. pose proof Hio as (Hs & Hg' & _). constructor; [done|..].
  - by rewrite (si_level _ _ Hs).
  - by rewrite (si_count _ _ Hs).
  - intros j d Hj Hd. destruct (si_member _ _ Hs j) as (-> & _ & ->). by apply H3.
  - intros Hl. destruct (H4 Hl) as [[k Hk] ?]. rewrite (si_array _ _ Hs). split; [exists k|done].
    eapply stripes_shape; [apply Hs..|done].
  - intros Hl. destruct (H5 Hl) as [? Hm]. rewrite (si_array _ _ Hs), (si_sectors _ _ Hs).
    split; [done|]. by eapply mirror_io.
Qed.

Lemma fresh_ready r now uuid level chunk devs tail s :
  let a := fresh_array now uuid level chunk devs tail (md_round_chunks s chunk) in
  geom a r → 0 ≤ s < 2 ^ 60 → 0 ≤ chunk → (level = ANX_MD_LEVEL_RAID0 → 0 < chunk) →
  md_round_chunks s chunk ≠ 0 → (∀ d, d ∈ devs → d ≠ None) →
  ready a r level devs.
Proof.
  intros a Hg Hs Hc Hc0 Hnz Hsome. destruct (round_chunks_spec s chunk) as [Hr Hq]; [lia|done|].
  pose proof (ge_count a r Hg) as Hn. cbn [member_count a fresh_array] in Hn.
  constructor; [done|done|done|..].
  - intros j d Hj Hd. unfold a. by rewrite (fresh_member _ _ _ _ _ _ _ j d).
  - intros ->. specialize (Hc0 eq_refl). specialize (Hq Hc0).
    assert (array_sectors a = md_round_chunks s chunk * Z.of_nat (length devs)) as Ha.
    { cbn [a fresh_array array_sectors]. apply u64_small. unfold is_u64, ANX_MD_MAX_MEMBERS in *. nia. }
    assert (0 < md_round_chunks s chunk) by lia.
    split; [exists (s / chunk)|rewrite Ha; unfold is_u64, ANX_MD_MAX_MEMBERS in *; nia].
    constructor; [done|cbn; lia| |done|exact Ha]. nia.
  - intros ->. split; [done|]. assert (∀ j, ¬ spare a j) as Hno.
    { intros j [Hj H]. cbn [member_count a fresh_array] in Hj.
      destruct (lookup_lt_is_Some_2 devs (Z.to_nat j)) as [d Hd]; [lia|].
      unfold a in H. rewrite (fresh_member _ _ _ _ _ _ _ j d) in H by (done || lia).
      unfold in_state in H. cbn in H. by rewrite andb_false_r in H. }
    constructor; [done|cbn; lia|cbn; lia|done|by intros i ?%Hno|by intros i j ?%Hno].
Qed.

Lemma start_ready w i a e w' level devs :
  0 ≤ i < Z.of_nat (length (md_arrays w)) → array_slot w i = Some a → ready a (md_reg w) level devs →
  anx_md_start_array w i = (e, w') → e = ANX_OK →
  ∃ a', array_slot w' i = Some a' ∧ ready a' (md_reg w') level devs ∧
    length (md_arrays w') = length (md_arrays w).
Proof.
  intros Hi Ha [Hg H1 H2 H3 H4 H5] Hst He.
  destruct (start_array_spec w i a e w' Hi Ha Hg Hst He) as (b & nm & Hs & Hg' & Hl).
  eexists. split_and!; [exact Hs| |exact Hl]. constructor; [by destruct Hg'|done|done|done| |].
  - intros Hlv. destruct (H4 Hlv) as [[k Hk] ?]. split; [|done]. exists k. by destruct Hk.
  - intros Hlv. destruct (H5 Hlv) as [? [_ M1 M2 _ M4 M5]]. split; [done|].
    constructor; [by destruct Hg'|done|done|done| |done].
    intros j Hj. destruct (M4 j Hj). split; [|done]. by intros k v _.
Qed.
(** The end of [anx_md_create]: start the array, write the superblocks. *)
Lemma create_start w i a level devs w' :
  0 ≤ i < Z.of_nat (length (md_arrays w)) → array_slot w i = Some a → ready a (md_reg w) level devs →
  (let '(e, w) := anx_md_start_array w i in
   if negb (e =? ANX_OK) then (e, anx_md_free_array w i)
   else match array_slot w i with
        | None => (ANX_EINVAL, w)
        | Some a =>
            let '(e, a, r) := write_supers (member_indices a) a (md_reg w) in
            let w := MdWorld (wr (md_arrays w) i (Some a)) r in
            if negb (e =? ANX_OK) then (e, (anx_md_stop [] w i).2) else (ANX_OK, w)
        end) = (ANX_OK, w') →
  ∃ a', array_slot w' i = Some a' ∧ ready a' (md_reg w') level devs.
Proof.
  intros Hi Ha Hrd. destruct (anx_md_start_array w i) as [e w1] eqn:Hst.
  destruct (Z.eqb_spec e ANX_OK) as [->|He]; cbn [negb]; [|by intros [= ? _]].
  destruct (start_ready w i a ANX_OK w1 level devs Hi Ha Hrd Hst eq_refl) as (a1 & Ha1 & Hrd1 & Hl1).
  rewrite Ha1. destruct (write_supers _ a1 (md_reg w1)) as [[e a2] r2] eqn:Hws.
  apply write_supers_io in Hws; [|apply Hrd1|apply member_indices_range].
  destruct (Z.eqb_spec e ANX_OK) as [->|He]; cbn [negb]; [|by intros [= ? _]].
  intros [= <-]. exists a2. split.
  - unfold array_slot. cbn [md_arrays]. rewrite rd_wr_eq; [done|]. lia.
  - by eapply ready_io.
Qed.

(** ** Superblock sectors *)

Lemma drive_capacity r d x : drive r d = Some x → blk_drv_capacity r (Some d) = drv_capacity x.
Proof.
  intros Hx. destruct (drive_slot r d x Hx) as (dev & Hs & Hp). unfold blk_drv_capacity.
  cbn [mbind option_bind]. by rewrite Hs, Hp.
Qed.

Lemma md_super_sector_bounds r d x tail sect :
  drive r d = Some x → md_super_sector r (Some d) tail = inr sect → 0 ≤ sect ∧ sect + 1 ≤ drv_capacity x.
Proof.
  intros Hx. unfold md_super_sector. rewrite (drive_capacity r d x Hx).
  unfold ANX_MD_DATA_OFFSET, ANX_MD_SB_TAIL_BACK, ANX_MD_SB_SECTOR_HEAD in *.
  destruct tail; cbn [negb]; destruct (_ <=? _) eqn:G; intros [= <-]; to_prop; lia.
Qed.

Lemma md_super_sector_drive r r' d x x' tail :
  drive r d = Some x → drive r' d = Some x' → drv_capacity x' = drv_capacity x →
  md_super_sector r' (Some d) tail = md_super_sector r (Some d) tail.
Proof.
  intros Hx Hx' Hc. unfold md_super_sector. by rewrite (drive_capacity r d x), (drive_capacity r' d x'), Hc.
Qed.

Lemma drv_read_contents r d x lba n buf :
  drive r d = Some x → 0 ≤ lba → 0 < n → lba + n ≤ drv_capacity x →
  blk_drv_read r (Some d) lba n = (ANX_OK, buf) → buf = contents x <$> seqZ lba n.
Proof.
  intros Hx Hl Hn Hc. destruct (drive_slot r d x Hx) as (dev & Hs & Hp). unfold blk_drv_read.
  cbn [mbind option_bind]. rewrite Hs, Hp. destruct (Z.eqb_spec n 0); [lia|]. apply law_read; lia.
Qed.
End create.

(** A successful [anx_md_create] yields a started array that is ready for
    I/O: it sits in a free slot of the table, its members are the given
    devices in order, all active, distinct and large enough for the data area
    beside the superblock; a striped array is a whole number of stripes, and a
    mirrored one satisfies the mirror invariant with no sector known yet. *)
Theorem create_ready `{!BlkDriver D, !BlkDriverLaws D} now uuid (w : md_world D) level chunk devs tail w' :
  0 ≤ chunk → (∀ d, Some d ∈ devs → 0 ≤ d) →
  (∀ d, Some d ∈ devs → blk_drv_capacity (md_reg w) (Some d) < 2 ^ 60) →
  anx_md_create now uuid w level chunk devs tail = (ANX_OK, w') →
  ∃ i a, array_slot w i = None ∧ array_slot w' i = Some a ∧ ready a (md_reg w') level devs.
Proof.
  intros Hchunk Hpos Hbig. unfold anx_md_create. cbv zeta.
  destruct ((Z.of_nat (length devs) <? 2) || (Z.of_nat (length devs) >? ANX_MD_MAX_MEMBERS)) eqn:Hn; [done|].
  destruct (negb _ && negb _) eqn:Hlv; [done|].
  set (chunk' := if level =? ANX_MD_LEVEL_RAID0 then _ else 0).
  assert (0 ≤ chunk' ∧ (level = ANX_MD_LEVEL_RAID0 → 0 < chunk')) as [Hc0 Hc1].
  { subst chunk'. destruct (Z.eqb_spec level ANX_MD_LEVEL_RAID0), (Z.eqb_spec chunk 0);
      unfold ANX_MD_DEFAULT_CHUNK; lia. }
  case_match; [done|]. destruct (Z.eqb_spec (check_members (md_reg w) devs) ANX_OK) as [Hck|]; cbn [negb].
  2: { intros [= ? _]. congruence. }
  destruct (check_members_spec _ _ Hck) as [Hsome Hnd].
  destruct (smallest_member _ tail devs 0) as [s|] eqn:Hsm; [|done].
  destruct (smallest_member_spec _ _ _ _ _ (Z.le_refl 0) Hsm) as (Hs0 & _ & Hall).
  destruct (Z.eqb_spec (md_round_chunks s chunk') 0) as [|Hnz]; [done|].
  unfold anx_md_alloc_array. destruct (free_array (md_arrays w) 0) as [i|] eqn:Hfree; [|done].
  apply free_array_spec in Hfree as [Hi Hslot]. rewrite Z.sub_0_r in Hslot.
  apply orb_false_iff in Hn as [Hn1 Hn2]. to_prop.
  assert (∃ d, Some d ∈ devs) as Hex.
  { destruct devs as [|[d|] ds]; [simpl in *; lia|exists d; apply elem_of_cons; by left|].
    by destruct (Hsome None); [apply elem_of_cons; left|]. }
  destruct (Hex) as (d0 & Hd0). destruct (Hall _ Hd0) as (? & ? & ?). specialize (Hbig d0 Hd0) as Hb0.
  destruct (round_chunks_spec s chunk' Hs0 Hc0) as [Hr _]. pose proof (reserve_pos tail).
  fold (fresh_array now uuid level chunk' devs tail (md_round_chunks s chunk')).
  set (a := fresh_array _ _ _ _ _ _ _). cbn [md_arrays md_reg].
  assert (geom a (md_reg w)) as Hg.
  { apply fresh_geom; try done; [lia|lia|]. intros d Hd. destruct (Hall _ Hd) as (? & ? & ?).
    specialize (Hbig d Hd). lia. }
  assert (ready a (md_reg w) level devs) as Hrd by (apply fresh_ready; (done || lia)).
  intros Hst. apply (create_start _ i a level devs) in Hst as (a1 & Ha1 & Hrd1); [| | |done].
  - exists i, a1. split_and!; [|done|done]. unfold array_slot, rd. by rewrite nth_lookup, Hslot.
  - cbn [md_arrays]. rewrite !wr_length. lia.
  - unfold array_slot. cbn [md_arrays]. rewrite rd_wr_eq; [done|]. rewrite wr_length. lia.
Qed.

Lemma create_ready_witness :
  ∃ i a, array_slot (drives [small_drive true; small_drive true]) i = None ∧
    array_slot (two_drives 0) i = Some a ∧ ready a (md_reg (two_drives 0)) 0 [Some 0; Some 1].
Proof.
  apply (create_ready 7 (seqZ 1 16) (drives [small_drive true; small_drive true]) 0 4 [Some 0; Some 1] true).
  - lia.
  - intros d [E|[E|[]%not_elem_of_nil]%elem_of_cons]%elem_of_cons; injection E as ->; lia.
  - intros d [E|[E|[]%not_elem_of_nil]%elem_of_cons]%elem_of_cons; injection E as ->; vm_compute; reflexivity.
  - vm_compute. reflexivity.
Defined.

(** ** Superblocks *)

(** Every field of the array record within its width. *)
Record array_widths (a : anx_md_array) : Prop := {
  aw_level : a_level a = ANX_MD_LEVEL_RAID0 ∨ a_level a = ANX_MD_LEVEL_RAID1;
  aw_chunk : is_u32 (chunk_sectors a);
  aw_u64 : Forall is_u64 [array_sectors a; a_events a; a_created a; resync_offset a];
  aw_uuid : length (a_uuid a) = 16%nat;
  aw_state : Forall (λ m, is_u32 (m_state m)) (members a);
}.

Lemma fnv1a_u32 l : is_u32 (fnv1a l).
Proof.
  unfold fnv1a. assert (is_u32 2166136261) as H by (unfold is_u32; lia). revert H.
  generalize 2166136261. induction l as [|b l IH]; intros h Hh; [done|]. apply IH, u32_range.
Qed.

Lemma member_super_ok `{!BlkDriver D, !BlkDriverLaws D} a (r : registry D) i :
  geom a r → array_widths a → 0 ≤ i < member_count a → m_dev (member a i) ≠ None →
  super_ok (member_super a i).
Proof.
  intros Hg [Hl Hc H64 Hu Hst] Hi Hd. pose proof (ge_count a r Hg). pose proof (ge_sectors a r Hg).
  destruct (member_drive a r i Hg Hi Hd) as (d & x & _ & _ & _ & Ho & Hcap & Hbig & _).
  unfold ANX_MD_MAX_MEMBERS in *. 
  assert (is_u32 (m_state (member a i))) as Hsti.
  { unfold member, rd. rewrite nth_lookup. destruct (members a !! Z.to_nat i) as [m|] eqn:E; [|done].
    by apply (Forall_lookup_1 _ _ _ _ Hst E). }
  clear Hst.
  repeat match goal with H : Forall _ (_ :: _) |- _ => apply Forall_cons in H; destruct H end.
  assert (is_u32 (sb_checksum (member_super a i))) as Hsum by apply fnv1a_u32.
  constructor.
  - repeat (apply Forall_cons; split); try apply Forall_nil; try done; cbn; try (unfold is_u32; lia).
    + destruct Hl as [-> | ->]; done.
    + by destruct (tail_meta a).
  - repeat (apply Forall_cons; split); try apply Forall_nil; try done; cbn; unfold is_u64; lia.
  - done.
  - cbn. rewrite length_app, length_replicate. pose proof (length_take_le (a_name a) 15).
    rewrite length_firstn. lia.
Qed.

Lemma member_super_valid `{!BlkDriver D, !BlkDriverLaws D} a (r : registry D) i :
  geom a r → array_widths a → 0 ≤ i < member_count a →
  super_validate (member_super a i) (tail_meta a) = ANX_OK.
Proof.
  intros Hg Hw Hi. pose proof (ge_count a r Hg). unfold super_validate.
  change (sb_checksum (member_super a i)) with (md_checksum (member_super a i)).
  cbn [sb_magic sb_version member_super]. rewrite !Z.eqb_refl. cbn [negb].
  change (sb_member_count (member_super a i)) with (member_count a).
  change (sb_member_index (member_super a i)) with i. change (sb_level (member_super a i)) with (a_level a).
  change (sb_flags (member_super a i)) with (if tail_meta a then ANX_MD_SB_TAIL else 0).
  destruct (Z.eqb_spec (member_count a) 0); [lia|]. destruct (Z.gtb_spec (member_count a) ANX_MD_MAX_MEMBERS); [lia|].
  destruct (Z.geb_spec i (member_count a)); [lia|]. cbn [orb].
  destruct (aw_level a Hw) as [-> | ->]; by destruct (tail_meta a).
Qed.

(** A superblock survives the drive.  After [anx_md_super_write] of member
    [i] succeeded, reading the superblock sector of that drive back, when the
    drive serves the read, passes every check (magic, version, checksum, member
    index, level, position) and decodes to exactly the fields written. *)
Theorem super_write_read_back `{!BlkDriver D, !BlkDriverLaws D} a (r : registry D) i a' r' sect :
  geom a r → array_widths a → 0 ≤ i < member_count a →
  anx_md_super_write a r i = (ANX_OK, a', r') →
  md_super_sector r (m_dev (member a i)) (tail_meta a) = inr sect →
  (blk_drv_read r' (m_dev (member a i)) sect 1).1 = ANX_OK →
  md_super_read_at r' (m_dev (member a i)) (tail_meta a) = (ANX_OK, Some (member_super a i)).
Proof.
  intros Hg Hwid Hi Hw Hsect Hread. pose proof Hw as Hw'. unfold anx_md_super_write in Hw. cbv zeta in Hw.
  destruct (Z.geb_spec i (member_count a)); [lia|].
  destruct (bool_decide_reflect (m_dev (member a i) = None)) as [|Hup]; [done|].
  destruct (member_drive a r i Hg Hi Hup) as (d & x & Ed & Hd & Hx & Hoff & Hcap & Hbig & Eoff & Htot).
  pose proof (member_super_ok a r i Hg Hwid Hi Hup) as Hok.
  rewrite Hsect in Hw. destruct (blk_drv_write r _ sect _) as [e r1] eqn:Ew. injection Hw as -> <- <-.
  rewrite Ed in *. apply (md_super_sector_bounds r d x) in Hsect as Hb; [|done].
  destruct (drv_write_drives r d x sect [super_bytes (member_super a i)] ANX_OK r1 Hd Hx (proj1 Hb) (proj2 Hb) Ew)
    as (x' & Hx' & Hcap' & _ & Hin & _). specialize (Hin eq_refl sect ltac:(cbn; lia)).
  rewrite Z.sub_diag in Hin. injection Hin as Hin.
  unfold md_super_read_at. rewrite (md_super_sector_drive r r1 d x x'), Hsect by done.
  destruct (blk_drv_read r1 (Some d) sect 1) as [e buf] eqn:Er. cbn [fst] in Hread. subst e.
  change (negb (ANX_OK =? ANX_OK)) with false. cbv iota zeta.
  apply (drv_read_contents r1 d x') in Er; [|done|lia|lia|cbn in Hb; lia].
  rewrite Er. change (seqZ sect 1) with [sect]. cbn [fmap list_fmap List.head default from_option].
  rewrite <- Hin. unfold id. rewrite super_roundtrip_spec by done.
  by rewrite (member_super_valid a r i).
Qed.

(** The first array of two drives, its member 1 written out again. *)
Lemma super_write_read_back_witness :
  md_super_read_at (anx_md_super_write (first_array (two_drives 1)) (md_reg (two_drives 1)) 1).2 (Some 1) true
  = (ANX_OK, Some (member_super (first_array (two_drives 1)) 1)).
Proof.
  apply (super_write_read_back (first_array (two_drives 1)) (md_reg (two_drives 1)) 1
           (anx_md_super_write (first_array (two_drives 1)) (md_reg (two_drives 1)) 1).1.2
           (anx_md_super_write (first_array (two_drives 1)) (md_reg (two_drives 1)) 1).2 32).
  - apply two_drives_geom. by right.
  - constructor.
    + right. vm_compute. reflexivity.
    + vm_compute. split; congruence.
    + repeat (apply Forall_cons; split); try apply Forall_nil; vm_compute; split; congruence.
    + vm_compute. reflexivity.
    + assert (members (first_array (two_drives 1))
              = [MdMember (Some 0) 0 1 1; MdMember (Some 1) 0 1 1] ++ replicate 6 empty_member) as ->
        by (vm_compute; reflexivity).
      repeat (apply Forall_cons; split); try apply Forall_nil; vm_compute; split; congruence.
  - vm_compute. split; congruence.
  - vm_compute. reflexivity.
  - vm_compute. reflexivity.
  - vm_compute. reflexivity.
Defined.
