(* ===== verification/Gpt.v ===== *)
(** * GUID partition tables: [kernel/core/install/gpt.c], [gpt.h]

    Writing the default partition table of a disk (protective MBR, primary and
    backup header, two copies of the entry array) and reading a table back from
    a device, falling back to the backup header when the primary is damaged.
    The device is anything with the [BlkDriver] interface; an allocation
    consumes the head of a list ([next_alloc]).  CRC-32 is [anx_crc32], whose
    value does not depend on whether its table has been built
    ([crc32_table_equiv]). *)

From S2P Require Import Prelude Codec Blk MdSuper DiskStore Meta CellStore.
Import Codec.Crc32.

Definition GPT_SIGNATURE : Z := 0x5452415020494645.
Definition GPT_REVISION : Z := 0x00010000.
Definition GPT_HEADER_SIZE : Z := 92.
Definition ANX_GPT_MAX_PARTS : nat := 16.
Definition ANX_GPT_TYPE_EFI_LO : Z := 0x11D2F81FC12A7328.
Definition ANX_GPT_TYPE_EFI_HI : Z := 0x3BC93EC9A0004BBA.
Definition ANX_GPT_TYPE_ANX_LO : Z := 0x414E5849444F4F53.
Definition ANX_GPT_TYPE_ANX_HI : Z := 0x544F524553594E41.

Definition gpt_crc32 (data : list Z) : Z := (anx_crc32 crc_boot data).1.

Record anx_gpt_partition := GptPartition {
  gp_type_lo : Z;
  gp_type_hi : Z;
  gp_guid_lo : Z;
  gp_guid_hi : Z;
  gp_start_lba : Z;
  gp_end_lba : Z;  (* inclusive *)
  gp_attributes : Z;
  gp_name : list Z;  (* char[72], without its terminator *)
  gp_index : Z;
}.

(** [partition_count] is the length of the list; the disk GUID is never read. *)
Definition anx_gpt_table : Type := list anx_gpt_partition.

(** ** Layout on disk *)

(** The name field: 36 UTF-16 code units, each the character and a zero. *)
Definition name_units (name : list Z) : list Z :=
  Disk.zero_padded 72 (concat (map (λ c, [c; 0]) (firstn 36 name))).

Definition encode_part_entry (part : anx_gpt_partition) : list Z :=
  le 8 (gp_type_lo part) ++ le 8 (gp_type_hi part) ++ le 8 (gp_guid_lo part) ++ le 8 (gp_guid_hi part)
  ++ le 8 (gp_start_lba part) ++ le 8 (gp_end_lba part) ++ le 8 (gp_attributes part) ++ name_units (gp_name part).

(** The fields that differ between the two headers. *)
Record gpt_header := GptHeader {
  gh_crc : Z;
  gh_my_lba : Z;
  gh_backup_lba : Z;
  gh_last_usable : Z;
  gh_guid_lo : Z;
  gh_guid_hi : Z;
  gh_entries_lba : Z;
  gh_entries_crc : Z;
}.

#[export] Instance eta_gpt_header : Settable gpt_header := λ r,
  GptHeader (gh_crc r) (gh_my_lba r) (gh_backup_lba r) (gh_last_usable r) (gh_guid_lo r) (gh_guid_hi r) (gh_entries_lba r) (gh_entries_crc r).

(** The sector: 92 bytes of header, the rest zero. *)
Definition header_bytes (h : gpt_header) : list Z :=
  le 8 GPT_SIGNATURE ++ le 4 GPT_REVISION ++ le 4 GPT_HEADER_SIZE ++ le 4 (gh_crc h) ++ le 4 0
  ++ le 8 (gh_my_lba h) ++ le 8 (gh_backup_lba h) ++ le 8 34 ++ le 8 (gh_last_usable h)
  ++ le 8 (gh_guid_lo h) ++ le 8 (gh_guid_hi h) ++ le 8 (gh_entries_lba h) ++ le 4 128 ++ le 4 128
  ++ le 4 (gh_entries_crc h) ++ replicate (512 - 92) 0.

(** With the CRC filled in. *)
Definition seal_header (h : gpt_header) : gpt_header :=
  h <| gh_crc := gpt_crc32 (firstn (Z.to_nat GPT_HEADER_SIZE) (header_bytes (h <| gh_crc := 0 |>))) |>.

Definition mbr_bytes (disk_sectors : Z) : list Z :=
  let size_lba := if disk_sectors >? 0xFFFFFFFF then 0xFFFFFFFF else u32 (disk_sectors - 1) in
  replicate 446 0 ++ [0; 0; 2; 0; 0xEE; 0xFF; 0xFF; 0xFF] ++ le 4 1 ++ le 4 size_lba ++ replicate 48 0 ++ [0x55; 0xAA].

(** ** Reading *)

(** [anx_memcpy(&x, buf + off, n)]; a byte is an 8-bit integer. *)
Definition field (off n : nat) (buf : list Z) : Z := le_val (map (λ b, b mod 256) (firstn n (skipn off buf))).

Record gpt_layout := GptLayout { gl_entry_lba : Z; gl_num_entries : Z; gl_entry_size : Z; gl_entries_crc : Z }.

Definition gpt_parse_header (hdr : list Z) : option gpt_layout :=
  when negb (field 0 8 hdr =? GPT_SIGNATURE) ret None ;;
  let header_size := field 12 4 hdr in
  when (header_size <? GPT_HEADER_SIZE) || (header_size >? 512) ret None ;;
  let scratch := firstn 16 hdr ++ replicate 4 0 ++ firstn 72 (skipn 20 hdr) in
  when negb (gpt_crc32 scratch =? field 16 4 hdr) ret None ;;
  let part_lba := field 72 8 hdr in
  let num_entries := field 80 4 hdr in
  let entry_size := field 84 4 hdr in
  when (entry_size <? 128) || (entry_size >? 512) ret None ;;
  when (num_entries =? 0) || (num_entries >? 128) ret None ;;
  when (part_lba =? 0) || (part_lba >? 0xFFFFFFFF) ret None ;;
  Some (GptLayout part_lba num_entries entry_size (field 88 4 hdr)).

(** At most [n] characters of the name, up to the first zero. *)
Fixpoint decode_name (n : nat) (units : list Z) : list Z :=
  match n with
  | O => []
  | S n => let c := rd 0 units 0 in if c =? 0 then [] else c :: decode_name n (skipn 2 units)
  end.

Definition decode_entry (index : Z) (e : list Z) : anx_gpt_partition :=
  GptPartition (field 0 8 e) (field 8 8 e) (field 16 8 e) (field 24 8 e) (field 32 8 e) (field 40 8 e) (field 48 8 e)
    (decode_name 36 (skipn 56 e)) index.

(** The loop over the entry array: [k] entries left, [i] behind, [found] so far. *)
Fixpoint collect_entries (k : nat) (i : Z) (entry_size : Z) (buf : list Z) (found : anx_gpt_table) : anx_gpt_table :=
  match k with
  | O => found
  | S k =>
      if (length found <? ANX_GPT_MAX_PARTS)%nat then
        let e := firstn (Z.to_nat entry_size) buf in
        let rest := skipn (Z.to_nat entry_size) buf in
        if (field 0 8 e =? 0) && (field 8 8 e =? 0) then collect_entries k (i + 1) entry_size rest found
        else collect_entries k (i + 1) entry_size rest (found ++ [decode_entry (i + 1) e])
      else found
  end.

Section gpt.
Context {D : Type} `{!BlkDriver D}.

(** One header sector, read and parsed. *)
Definition read_header (d : D) (lba : Z) : option gpt_layout :=
  let '(ret', buf) := drv_read d lba 1 in
  if ret' =? ANX_OK then gpt_parse_header (concat buf) else None.

Definition anx_gpt_read_dev (dev : option D) (mem : list bool) : Z * anx_gpt_table * list bool :=
  match dev with
  | None => (ANX_EINVAL, [], mem)
  | Some d =>
      let capacity := drv_capacity d in
      when capacity <? 3 ret (ANX_EINVAL, [], mem) ;;
      let '(ok, mem) := next_alloc mem in
      when negb ok ret (ANX_ENOMEM, [], mem) ;;
      match (match read_header d 1 with Some l => Some l | None => read_header d (capacity - 1) end) with
      | None => (ANX_EINVAL, [], mem)
      | Some l =>
          let entries_bytes := u32 (gl_num_entries l * gl_entry_size l) in
          let entries_sectors := u32 (entries_bytes + 511) / 512 in
          when u32 (gl_entry_lba l + entries_sectors) >? capacity ret (ANX_EINVAL, [], mem) ;;
          let '(ok, mem) := next_alloc mem in
          when negb ok ret (ANX_ENOMEM, [], mem) ;;
          let '(ret', buf) := drv_read d (gl_entry_lba l) entries_sectors in
          when negb (ret' =? ANX_OK) ret (ret', [], mem) ;;
          let buf := concat buf in
          when negb (gpt_crc32 (firstn (Z.to_nat entries_bytes) buf) =? gl_entries_crc l) ret (ANX_EINVAL, [], mem) ;;
          (ANX_OK, collect_entries (Z.to_nat (gl_num_entries l)) 0 (gl_entry_size l) buf [], mem)
      end
  end.

(** [dev] is the active device. *)
Definition anx_gpt_read (dev : option D) (mem : list bool) : Z * anx_gpt_table * list bool :=
  match dev with None => (ANX_EIO, [], mem) | Some _ => anx_gpt_read_dev dev mem end.

Definition anx_gpt_find_type (table : anx_gpt_table) (type_lo type_hi : Z) : option anx_gpt_partition :=
  List.find (λ p, (gp_type_lo p =? type_lo) && (gp_type_hi p =? type_hi)) table.

Definition anx_gpt_write (table : anx_gpt_table) : Z := ANX_ENOSYS.

(** ** Creating the default table *)

(** The pseudo-random GUID from two readings of the clock. *)
Definition make_guid (t1 t2 : Z) : Z * Z := (Z.lxor t1 0x4E58414E55584944, Z.lxor t2 0x4F53544F52455359).

Definition efi_start : Z := 34.
Definition efi_end : Z := efi_start + 100 * 1024 * 1024 / 512 - 1.
Definition anx_start : Z := efi_end + 1.

Definition efi_part (clock : Z → Z) : anx_gpt_partition :=
  let '(lo, hi) := make_guid (clock 0) (clock 1) in
  GptPartition ANX_GPT_TYPE_EFI_LO ANX_GPT_TYPE_EFI_HI lo hi efi_start efi_end 0 [69; 70; 73; 32; 83; 121; 115; 116; 101; 109] 0.

Definition anx_part_of_disk (clock : Z → Z) (label : option (list Z)) (disk_sectors : Z) : anx_gpt_partition :=
  let '(lo, hi) := make_guid (clock 2) (clock 3) in
  GptPartition ANX_GPT_TYPE_ANX_LO ANX_GPT_TYPE_ANX_HI lo hi anx_start (disk_sectors - 34) 0
    (anx_strlcpy (default [65; 110; 117; 110; 105; 120] label) 72) 0.

Definition entries_array (parts : list anx_gpt_partition) : list Z :=
  Disk.zero_padded (32 * 512) (concat (map encode_part_entry parts)).

Definition primary_header (clock : Z → Z) (disk_sectors entries_crc : Z) : gpt_header :=
  let '(lo, hi) := make_guid (clock 4) (clock 5) in
  GptHeader 0 1 (disk_sectors - 1) (disk_sectors - 34) lo hi 2 entries_crc.

Definition backup_header (disk_sectors : Z) (h : gpt_header) : gpt_header :=
  h <| gh_my_lba := disk_sectors - 1 |> <| gh_backup_lba := 1 |> <| gh_entries_lba := disk_sectors - 33 |>.

Definition sectors_of (n : nat) (l : list Z) : list sector := Disk.to_sectors n l.

(** [dev] is the active device; [clock i] the i-th reading of the time. *)
Definition anx_gpt_create_default (clock : Z → Z) (label : option (list Z)) (dev : option D) (mem : list bool)
    : Z * option D * list bool :=
  match dev with
  | None => (ANX_EIO, None, mem)
  | Some d =>
      let disk_sectors := drv_capacity d in
      when disk_sectors <? 2048 ret (ANX_EINVAL, Some d, mem) ;;
      when disk_sectors - 34 <=? anx_start ret (ANX_EINVAL, Some d, mem) ;;
      let '(ok, mem) := next_alloc mem in
      when negb ok ret (ANX_ENOMEM, Some d, mem) ;;
      let '(ret', d) := drv_write d 0 (sectors_of 1 (mbr_bytes disk_sectors)) in
      when negb (ret' =? ANX_OK) ret (ret', Some d, mem) ;;
      let '(ok, mem) := next_alloc mem in
      when negb ok ret (ANX_ENOMEM, Some d, mem) ;;
      let entries := entries_array [efi_part clock; anx_part_of_disk clock label disk_sectors] in
      let '(ret', d) := drv_write d 2 (sectors_of 32 entries) in
      when negb (ret' =? ANX_OK) ret (ret', Some d, mem) ;;
      let '(ret', d) := drv_write d (disk_sectors - 33) (sectors_of 32 entries) in
      when negb (ret' =? ANX_OK) ret (ret', Some d, mem) ;;
      let '(ok, mem) := next_alloc mem in
      when negb ok ret (ANX_ENOMEM, Some d, mem) ;;
      let h := primary_header clock disk_sectors (gpt_crc32 entries) in
      let '(ret', d) := drv_write d 1 (sectors_of 1 (header_bytes (seal_header h))) in
      when negb (ret' =? ANX_OK) ret (ret', Some d, mem) ;;
      let '(ret', d) := drv_write d (disk_sectors - 1) (sectors_of 1 (header_bytes (seal_header (backup_header disk_sectors h)))) in
      (ret', Some d, mem)
  end.
End gpt.

(** ** Bytes *)

Lemma map_bytes l : Forall is_byte l → map (λ b, b mod 256) l = l.
Proof. induction 1 as [|b l Hb _ IH]; [done|]. cbn. rewrite IH, Z.mod_small; [done|]. unfold is_byte in Hb. lia. Qed.

Lemma le_bytes n v : Forall is_byte (le n v).
Proof.
  revert v. induction n as [|n IH]; intros v; cbn [le]; [constructor|]. constructor; [|apply IH]. unfold is_byte.
  pose proof (Z.mod_pos_bound v 256). lia.
Qed.

Lemma field_range off n buf : 0 ≤ field off n buf < 256 ^ Z.of_nat n.
Proof.
  unfold field. assert ((length (firstn n (skipn off buf)) ≤ n)%nat) as Hl by (rewrite length_firstn; lia). revert Hl.
  generalize (firstn n (skipn off buf)). intros l. revert n. induction l as [|b l IH]; intros n Hl; cbn [map le_val length] in *.
  - pose proof (Z.pow_pos_nonneg 256 (Z.of_nat n)). lia.
  - destruct n as [|n]; [lia|]. specialize (IH n ltac:(lia)). rewrite Nat2Z.inj_succ, Z.pow_succ_r by lia. pose proof (Z.mod_pos_bound b 256). lia.
Qed.

Lemma field_skip off n k v l : (k ≤ off)%nat → field off n (le k v ++ l) = field (off - k) n l.
Proof. intros H. unfold field. rewrite skipn_app, le_length, skipn_all2 by (rewrite le_length; lia). done. Qed.

Lemma field_le n v l : 0 ≤ v < 256 ^ Z.of_nat n → field 0 n (le n v ++ l) = v.
Proof. intros H. unfold field. rewrite drop_0, take_app_length' by (by rewrite le_length). rewrite map_bytes by apply le_bytes. by apply le_val_le. Qed.

(** Reading a field of a packed structure, skipping those before it. *)
Ltac read_field := repeat (rewrite field_skip by lia; cbn [Nat.sub]); rewrite field_le by (try (split; [lia|]); cbn; try lia; done).

Lemma header_length h : length (header_bytes h) = 512%nat.
Proof. unfold header_bytes. rewrite !length_app, !le_length, length_replicate. done. Qed.

Record header_ok (h : gpt_header) : Prop := {
  ho_crc : is_u32 (gh_crc h);
  ho_entries : 0 < gh_entries_lba h < 2 ^ 32;
  ho_entries_crc : is_u32 (gh_entries_crc h);
}.

Lemma crc_bit_range c b : is_u32 c → is_u32 (crc_bit c b).
Proof.
  intros Hc. unfold crc_bit. apply lxor_u32; [|by destruct (xorb _ _); unfold is_u32, POLY].
  unfold is_u32 in *. rewrite Z.shiftr_div_pow2 by lia. Z.to_euclidean_division_equations; lia.
Qed.

Lemma gpt_crc32_range l : Forall is_byte l → is_u32 (gpt_crc32 l).
Proof.
  intros Hl. unfold gpt_crc32. rewrite anx_crc32_spec by (try done; by left). cbn [fst]. unfold crc32_spec. apply lxor_u32; [|done].
  assert (is_u32 0xFFFFFFFF) as Hi by done. revert Hi. generalize 0xFFFFFFFF, (l ≫= bits_of). intros c bits. revert c.
  induction bits as [|b bits IH]; intros c Hc; [done|]. by apply IH, crc_bit_range.
Qed.

(** What the parser checks and what [seal_header] writes are the same bytes. *)
Lemma header_scratch h : firstn 16 (header_bytes h) ++ replicate 4 0 ++ firstn 72 (skipn 20 (header_bytes h)) =
  firstn (Z.to_nat GPT_HEADER_SIZE) (header_bytes (h <| gh_crc := 0 |>)).
Proof. unfold header_bytes. cbn [gh_crc]. reflexivity. Qed.

Local Opaque gpt_crc32.

Lemma seal_crc h : gh_crc (seal_header h) = gpt_crc32 (firstn (Z.to_nat GPT_HEADER_SIZE) (header_bytes (h <| gh_crc := 0 |>))).
Proof. reflexivity. Qed.

Lemma header_is_bytes h : Forall is_byte (header_bytes h).
Proof. unfold header_bytes. rewrite !Forall_app. split_and!; try apply le_bytes. by apply Forall_replicate. Qed.

Lemma seal_crc_range h : is_u32 (gh_crc (seal_header h)).
Proof. rewrite seal_crc. apply gpt_crc32_range, Forall_take, header_is_bytes. Qed.

Lemma gpt_header_fields h : is_u32 (gh_crc h) → 0 < gh_entries_lba h < 2 ^ 32 → is_u32 (gh_entries_crc h) →
  field 0 8 (header_bytes h) = GPT_SIGNATURE ∧ field 12 4 (header_bytes h) = GPT_HEADER_SIZE ∧ field 16 4 (header_bytes h) = gh_crc h ∧
  field 72 8 (header_bytes h) = gh_entries_lba h ∧ field 80 4 (header_bytes h) = 128 ∧ field 84 4 (header_bytes h) = 128 ∧
  field 88 4 (header_bytes h) = gh_entries_crc h.
Proof.
  unfold is_u32. intros H1 H2 H3. unfold header_bytes. split_and!; by read_field.
Qed.

Lemma parse_sealed h : 0 < gh_entries_lba h < 2 ^ 32 → is_u32 (gh_entries_crc h) →
  gpt_parse_header (header_bytes (seal_header h)) = Some (GptLayout (gh_entries_lba h) 128 128 (gh_entries_crc h)).
Proof.
  intros He Hc. destruct (gpt_header_fields (seal_header h) (seal_crc_range h) He Hc) as (F1 & F2 & F3 & F4 & F5 & F6 & F7).
  unfold gpt_parse_header. rewrite header_scratch, F1, F2, F3, F4, F5, F6, F7, Z.eqb_refl. cbn [negb].
  change ((GPT_HEADER_SIZE <? GPT_HEADER_SIZE) || (GPT_HEADER_SIZE >? 512)) with false. cbn iota.
  change (seal_header h <| gh_crc := 0 |>) with (h <| gh_crc := 0 |>). rewrite <- seal_crc, Z.eqb_refl. cbn [negb].
  change (gh_entries_lba (seal_header h)) with (gh_entries_lba h). change (gh_entries_crc (seal_header h)) with (gh_entries_crc h).
  cbn [Z.ltb Z.gtb Z.eqb Z.compare orb Pos.compare Pos.compare_cont]. replace (_ || _) with false by lia. done.
Qed.

(** ** Entries *)

Record part_ok (p : anx_gpt_partition) : Prop := {
  po_type : is_u64 (gp_type_lo p) ∧ is_u64 (gp_type_hi p) ∧ ¬ (gp_type_lo p = 0 ∧ gp_type_hi p = 0);
  po_guid : is_u64 (gp_guid_lo p) ∧ is_u64 (gp_guid_hi p);
  po_lba : is_u64 (gp_start_lba p) ∧ is_u64 (gp_end_lba p);
  po_attributes : is_u64 (gp_attributes p);
  po_name : Forall (λ c, 0 < c < 256) (gp_name p);
}.

(** As a table read back shows it. *)
Definition as_read (index : Z) (p : anx_gpt_partition) : anx_gpt_partition :=
  GptPartition (gp_type_lo p) (gp_type_hi p) (gp_guid_lo p) (gp_guid_hi p) (gp_start_lba p) (gp_end_lba p) (gp_attributes p)
    (firstn 36 (gp_name p)) index.

Lemma units_length name : length (concat (map (λ c : Z, [c; 0]) name)) = (2 * length name)%nat.
Proof. induction name as [|c name IH]; [done|]. cbn [map concat length]. rewrite length_app, IH. cbn. lia. Qed.

Lemma name_units_length name : length (name_units name) = 72%nat.
Proof.
  unfold name_units, Disk.zero_padded. rewrite length_app, length_replicate, units_length.
  pose proof (length_firstn 36 name). rewrite H. lia.
Qed.

Lemma encode_length p : length (encode_part_entry p) = 128%nat.
Proof. unfold encode_part_entry. rewrite !length_app, !le_length, name_units_length. done. Qed.

Lemma decode_name_units n name k : Forall (λ c, 0 < c < 256) name → (length name ≤ n)%nat →
  decode_name n (concat (map (λ c : Z, [c; 0]) name) ++ replicate k 0) = name.
Proof.
  intros Hn. revert n. induction Hn as [|c name Hc _ IH]; intros n Hl; cbn [map concat app].
  - destruct n; [done|]. cbn [decode_name]. destruct k; done.
  - destruct n as [|n]; [cbn in Hl; lia|]. cbn [decode_name app]. change (rd 0 (c :: 0 :: ?l) 0) with c. cbn [app].
    destruct (Z.eqb_spec c 0); [lia|]. f_equal. cbn [skipn]. apply IH. cbn in Hl. lia.
Qed.

Lemma decode_encode i p rest : part_ok p → decode_entry i (firstn 128 (encode_part_entry p ++ rest)) = as_read i p ∧
  (field 0 8 (firstn 128 (encode_part_entry p ++ rest)) =? 0) && (field 8 8 (firstn 128 (encode_part_entry p ++ rest)) =? 0) = false.
Proof.
  intros [(H1 & H2 & H3) [H4 H5] [H6 H7] H8 H9]. rewrite take_app_length' by (by rewrite encode_length). unfold is_u64 in *.
  assert (field 0 8 (encode_part_entry p) = gp_type_lo p) as F0 by (unfold encode_part_entry; by read_field).
  assert (field 8 8 (encode_part_entry p) = gp_type_hi p) as F1 by (unfold encode_part_entry; by read_field).
  split; [|rewrite F0, F1; lia]. unfold decode_entry, as_read. rewrite F0, F1.
  f_equal; try (unfold encode_part_entry; by read_field).
  unfold encode_part_entry. rewrite !skipn_app, !le_length, !(skipn_all2 (le _ _)) by (rewrite le_length; lia). cbn [app Nat.sub skipn].
  unfold name_units, Disk.zero_padded. rewrite drop_0, decode_name_units; [done|by apply Forall_take|]. rewrite length_firstn. lia.
Qed.

Lemma field_zeros off n k : field off n (replicate k 0) = 0.
Proof.
  unfold field. rewrite drop_replicate, take_replicate. generalize (n `min` (k - off))%nat. intros m. induction m as [|m IH]; [done|]. cbn [replicate map le_val]. rewrite IH. done.
Qed.

Lemma collect_zeros k i n found : collect_entries k i 128 (replicate n 0) found = found.
Proof.
  revert i n. induction k as [|k IH]; intros i n; [done|]. cbn [collect_entries]. destruct (_ <? _)%nat; [|done].
  change (Z.to_nat 128) with 128%nat. rewrite take_replicate, drop_replicate, !field_zeros. cbn. apply IH.
Qed.

Lemma collect_cons k i p rest found : part_ok p → (length found < ANX_GPT_MAX_PARTS)%nat →
  collect_entries (S k) i 128 (encode_part_entry p ++ rest) found = collect_entries k (i + 1) 128 rest (found ++ [as_read (i + 1) p]).
Proof.
  intros Hp Hl. cbn [collect_entries]. replace (_ <? _)%nat with true by (symmetry; by apply Nat.ltb_lt). change (Z.to_nat 128) with 128%nat.
  destruct (decode_encode (i + 1) p rest Hp) as [-> ->]. by rewrite drop_app_length' by (by rewrite encode_length).
Qed.

Lemma collect_default p q : part_ok p → part_ok q → collect_entries 128 0 128 (entries_array [p; q]) [] = [as_read 1 p; as_read 2 q].
Proof.
  intros Hp Hq. unfold entries_array, Disk.zero_padded. cbn [map concat]. rewrite app_nil_r, <- !app_assoc.
  rewrite collect_cons by (try done; cbn; unfold ANX_GPT_MAX_PARTS; lia). rewrite collect_cons by (try done; cbn; unfold ANX_GPT_MAX_PARTS; lia).
  by rewrite collect_zeros.
Qed.

Lemma entries_length p q : length (entries_array [p; q]) = (32 * 512)%nat.
Proof. unfold entries_array, Disk.zero_padded. cbn [map concat]. rewrite !length_app, length_replicate, ?length_app, !encode_length. cbn [length]. lia. Qed.

Lemma entries_bytes p q : part_ok p → part_ok q → Forall is_byte (entries_array [p; q]).
Proof.
  assert (∀ p, part_ok p → Forall is_byte (encode_part_entry p)) as H.
  { intros x Hx. unfold encode_part_entry, name_units, Disk.zero_padded. rewrite !Forall_app. split_and!; try apply le_bytes; [|by apply Forall_replicate].
    pose proof (Forall_take _ 36 _ (po_name _ Hx)) as Hn. induction Hn as [|c l Hc _ IH]; [constructor|]. cbn. constructor; [unfold is_byte; lia|]. by constructor. }
  intros Hp Hq. unfold entries_array, Disk.zero_padded. cbn [map concat]. rewrite !Forall_app. split_and!; auto. by apply Forall_replicate.
Qed.

(** ** Reading back what was written *)

Section readback.
Context {D : Type} `{!BlkDriver D} `{!BlkDriverLaws D}.
Implicit Types (d : D).

Lemma write_exact d lba buf d' : 0 ≤ lba → lba + Z.of_nat (length buf) ≤ drv_capacity d → drv_write d lba buf = (ANX_OK, d') →
  contents d' <$> seqZ lba (Z.of_nat (length buf)) = buf ∧ drv_capacity d' = drv_capacity d ∧
  ∀ i, i < lba ∨ lba + Z.of_nat (length buf) ≤ i → contents d' i = contents d i.
Proof.
  intros Hl Hc Hw. destruct (law_write _ _ _ _ _ Hl Hc Hw) as [Hout Hin]. split_and!; [|by eapply law_capacity|].
  - apply list_eq. intros i. rewrite list_lookup_fmap. destruct (decide (i < length buf)%nat) as [Hi|Hi].
    + rewrite lookup_seqZ_lt by lia. cbn. pose proof (Hin eq_refl (lba + Z.of_nat i)) as H. rewrite <- H by lia. f_equal. lia.
    + rewrite lookup_seqZ_ge by lia. cbn. symmetry. apply lookup_ge_None. lia.
  - intros i Hi. apply Hout. lia.
Qed.

Lemma only_elem (x y : sector) : [x] = [y] → x = y.
Proof. by intros [= ->]. Qed.

Lemma one_sector l : length l = 512%nat → sectors_of 1 l = [l].
Proof. intros H. unfold sectors_of. cbn [Disk.to_sectors]. by rewrite firstn_all2 by lia. Qed.

Lemma concat_sectors_of n l : length l = (n * 512)%nat → concat (sectors_of n l) = l ∧ length (sectors_of n l) = n.
Proof.
  revert l. induction n as [|n IH]; intros l Hl; cbn.
  - by destruct l.
  - destruct (IH (skipn 512 l)) as [H1 H2]; [rewrite length_skipn; lia|]. unfold sectors_of in *. rewrite H1, H2. by rewrite take_drop.
Qed.

(** Reading sectors whose contents are known. *)
Lemma read_known d lba n buf : 0 ≤ lba → 0 < n → lba + n ≤ drv_capacity d → (drv_read d lba n).1 = ANX_OK →
  contents d <$> seqZ lba n = buf → drv_read d lba n = (ANX_OK, buf).
Proof.
  intros Hl Hn Hc Hr Hb. destruct (drv_read d lba n) as [r x] eqn:E. cbn in Hr. subst r. f_equal. rewrite <- Hb. by eapply law_read; [..|exact E]; lia.
Qed.

(** The sectors the table is kept in. *)
Record table_on_disk (clock : Z → Z) (label : option (list Z)) (cap : Z) (d : D) : Prop := {
  td_capacity : drv_capacity d = cap;
  td_room : anx_start + 34 < cap;
  td_entries : concat (contents d <$> seqZ 2 32) = entries_array [efi_part clock; anx_part_of_disk clock label cap];
  td_backup_entries : concat (contents d <$> seqZ (cap - 33) 32) = entries_array [efi_part clock; anx_part_of_disk clock label cap];
  td_primary : contents d 1 = header_bytes (seal_header (primary_header clock cap (gpt_crc32 (entries_array [efi_part clock; anx_part_of_disk clock label cap]))));
  td_backup : contents d (cap - 1) = header_bytes (seal_header (backup_header cap
    (primary_header clock cap (gpt_crc32 (entries_array [efi_part clock; anx_part_of_disk clock label cap])))));
}.

Lemma create_writes clock label d mem d' mem' : anx_gpt_create_default clock label (Some d) mem = (ANX_OK, Some d', mem') →
  table_on_disk clock label (drv_capacity d) d'.
Proof.
  unfold anx_gpt_create_default. set (cap := drv_capacity d). cbv zeta. destruct (Z.ltb_spec cap 2048) as [|Hcap]; [done|].
  destruct (Z.leb_spec (cap - 34) anx_start) as [|Hroom]; [done|]. destruct (next_alloc mem) as [[] mem1]; [|done]. cbn [negb].
  set (entries := entries_array [efi_part clock; anx_part_of_disk clock label cap]).
  destruct (concat_sectors_of 32 entries (entries_length _ _)) as [Hce Hle].
  set (h := primary_header clock cap (gpt_crc32 entries)).
  assert (0 < anx_start) as Hs by (vm_compute; done). assert (204800 < anx_start) by (vm_compute; done).
  destruct (drv_write d 0 _) as [r1 d1] eqn:W1. destruct (Z.eqb_spec r1 ANX_OK) as [->|]; cbn [negb]; [|intros [= ? _ _]; congruence].
  assert (length (sectors_of 1 (mbr_bytes cap)) = 1%nat) as Hm by done.
  apply write_exact in W1 as (_ & C1 & O1); [|lia|fold cap; lia].
  destruct (next_alloc mem1) as [[] mem2]; [|done]. cbn [negb].
  destruct (drv_write d1 2 _) as [r2 d2] eqn:W2. destruct (Z.eqb_spec r2 ANX_OK) as [->|]; cbn [negb]; [|intros [= ? _ _]; congruence].
  apply write_exact in W2 as (E2 & C2 & O2); [|lia|rewrite Hle, C1; fold cap; lia]. rewrite Hle in *.
  destruct (drv_write d2 (cap - 33) _) as [r3 d3] eqn:W3. destruct (Z.eqb_spec r3 ANX_OK) as [->|]; cbn [negb]; [|intros [= ? _ _]; congruence].
  apply write_exact in W3 as (E3 & C3 & O3); [|lia|rewrite Hle, C2, C1; fold cap; lia]. rewrite Hle in *.
  destruct (next_alloc mem2) as [[] mem3]; [|done]. cbn [negb]. rewrite !one_sector by apply header_length.
  destruct (drv_write d3 1 _) as [r4 d4] eqn:W4. destruct (Z.eqb_spec r4 ANX_OK) as [->|]; cbn [negb]; [|intros [= ? _ _]; congruence].
  apply write_exact in W4 as (E4 & C4 & O4); [|lia|cbn [length]; rewrite C3, C2, C1; fold cap; lia]. cbn [length] in *.
  destruct (drv_write d4 (cap - 1) _) as [r5 d5] eqn:W5. intros [= -> <- _].
  apply write_exact in W5 as (E5 & C5 & O5); [|lia|cbn [length]; rewrite C4, C3, C2, C1; fold cap; lia]. cbn [length] in *.
  change (Z.of_nat 32) with 32 in *. change (Z.of_nat 1) with 1 in *.
  assert (∀ lba n (x : D), (∀ i, lba ≤ i < lba + n → contents d5 i = contents x i) → contents d5 <$> seqZ lba n = contents x <$> seqZ lba n) as Hext.
  { intros lba n x Hx. apply list_fmap_ext. intros i y Hy%list_elem_of_lookup_2. apply Hx. by apply elem_of_seqZ in Hy. }
  constructor.
  - by rewrite C5, C4, C3, C2, C1.
  - lia.
  - rewrite (Hext 2 32 d2), E2; [done|]. intros i Hi. rewrite O5, O4, O3; [done|lia..].
  - rewrite (Hext (cap - 33) 32 d3), E3; [done|]. intros i Hi. rewrite O5, O4; [done|lia..].
  - rewrite O5 by lia. apply only_elem, E4.
  - apply only_elem, E5.
Qed.

Lemma efi_ok clock : (∀ i, is_u64 (clock i)) → part_ok (efi_part clock).
Proof.
  intros Hc. constructor; cbn; try done.
  - unfold ANX_GPT_TYPE_EFI_LO, ANX_GPT_TYPE_EFI_HI, is_u64. lia.
  - split; (apply is_u64_lxor; [apply Hc|unfold is_u64; lia]).
  - repeat constructor; lia.
Qed.

Lemma anx_ok clock label cap : (∀ i, is_u64 (clock i)) → anx_start + 34 < cap < 2 ^ 64 → (∀ l, label = Some l → Forall (λ c, 0 < c < 256) l) →
  part_ok (anx_part_of_disk clock label cap).
Proof.
  intros Hc Hcap Hl. assert (0 < anx_start < 2 ^ 64) by (vm_compute; done). constructor; cbn; try done.
  - unfold ANX_GPT_TYPE_ANX_LO, ANX_GPT_TYPE_ANX_HI, is_u64. lia.
  - split; (apply is_u64_lxor; [apply Hc|unfold is_u64; lia]).
  - unfold is_u64. lia.
  - apply Forall_take. destruct label as [l|]; cbn; [by apply Hl|]. repeat constructor; lia.
Qed.

(** C26: The default partition table can be read back, also with a damaged primary
    header.  After [anx_gpt_create_default] has succeeded on a device, take any
    later state of the device in which all sectors but sector 1 are as it left
    them.  If sector 1 is unchanged, or does not parse and the disk has at most
    2^32 sectors, then [anx_gpt_read_dev] returns exactly the EFI and the
    Anunix partition, with their GUIDs, ranges and names (cut to 36
    characters).  The two do not overlap each other or either copy of the
    table. *)
Theorem gpt_readback clock label d mem d' mem' d'' :
  drv_capacity d < 2 ^ 64 → (∀ i, is_u64 (clock i)) → (∀ l, label = Some l → Forall (λ c, 0 < c < 256) l) →
  anx_gpt_create_default clock label (Some d) mem = (ANX_OK, Some d', mem') →
  drv_capacity d'' = drv_capacity d' → (∀ i, i ≠ 1 → contents d'' i = contents d' i) →
  (∀ lba n, 0 ≤ lba → 0 < n → lba + n ≤ drv_capacity d'' → (drv_read d'' lba n).1 = ANX_OK) →
  contents d'' 1 = contents d' 1 ∨ (gpt_parse_header (contents d'' 1) = None ∧ drv_capacity d ≤ 2 ^ 32) →
  let efi := efi_part clock in let anx := anx_part_of_disk clock label (drv_capacity d) in
  anx_gpt_read_dev (Some d'') [] = (ANX_OK, [as_read 1 efi; as_read 2 anx], []) ∧
  33 < gp_start_lba efi < gp_end_lba efi ∧ gp_end_lba efi < gp_start_lba anx < gp_end_lba anx ∧ gp_end_lba anx < drv_capacity d'' - 33.
Proof.
  intros Hcap Hclock Hlabel Hcreate Hcap'' Hsame Hread Hprim efi anx. apply create_writes in Hcreate as [Tc Tr Te Tb Tp Th].
  set (cap := drv_capacity d) in *. fold efi anx in Te, Tb, Tp, Th. assert (204800 < anx_start) as Has by (vm_compute; done).
  split; [|cbn; unfold efi_end, efi_start, anx_start in *; change (100 * 1024 * 1024 / 512) with 204800 in *; unfold efi_end, efi_start in *;
    change (100 * 1024 * 1024 / 512) with 204800 in *; lia].
  pose proof (efi_ok clock Hclock) as Hefi. pose proof (anx_ok clock label cap Hclock (conj Tr Hcap) Hlabel) as Hanx. fold efi in Hefi. fold anx in Hanx.
  pose proof (gpt_crc32_range _ (entries_bytes _ _ Hefi Hanx)) as Hcrc. set (entries := entries_array [efi; anx]) in *.
  assert (∀ i, 0 ≤ i < cap → drv_read d'' i 1 = (ANX_OK, [contents d'' i])) as Hone.
  { intros i Hi. apply read_known; [lia..|apply Hread; lia|done]. }
  assert (∀ lba, concat (contents d' <$> seqZ lba 32) = entries → 2 ≤ lba → lba + 32 ≤ cap →
    ∃ buf, drv_read d'' lba 32 = (ANX_OK, buf) ∧ concat buf = entries) as Hents.
  { intros lba He Hl Hl'. exists (contents d'' <$> seqZ lba 32). split; [apply read_known; [lia..|apply Hread; lia|done]|].
    rewrite <- He. f_equal. apply list_fmap_ext. intros j y Hy%list_elem_of_lookup_2. apply elem_of_seqZ in Hy. apply Hsame. lia. }
  assert (∃ lba, (match read_header d'' 1 with Some l => Some l | None => read_header d'' (cap - 1) end) = Some (GptLayout lba 128 128 (gpt_crc32 entries)) ∧
    concat (contents d' <$> seqZ lba 32) = entries ∧ 2 ≤ lba ∧ lba + 32 ≤ cap ∧ lba < 2 ^ 32) as (lba & Hhdr & He & Hl & Hl' & Hl32).
  { unfold read_header. rewrite !Hone by lia. cbn [Z.eqb ANX_OK]. change (ANX_OK =? ANX_OK) with true. cbn iota. cbn [concat]. rewrite !app_nil_r.
    destruct Hprim as [Hp|[Hp H32]].
    - exists 2. rewrite Hp, Tp. split; [|split_and!; [done|lia..]]. set (h := primary_header clock cap (gpt_crc32 entries)).
      by rewrite (parse_sealed h).
    - exists (cap - 33). rewrite Hp, (Hsame (cap - 1)), Th by lia. split; [|split_and!; [done|lia..]].
      set (h := backup_header cap _). rewrite (parse_sealed h); [done| |done]. subst h. cbn. lia. }
  unfold anx_gpt_read_dev. rewrite Hcap'', Tc. replace (cap <? 3) with false by lia. cbn [next_alloc negb]. rewrite Hhdr. cbn [gl_num_entries gl_entry_size gl_entry_lba gl_entries_crc].
  change (u32 (128 * 128)) with 16384. change (u32 (16384 + 511) / 512) with 32. change (Z.to_nat 16384) with (32 * 512)%nat. change (Z.to_nat 128) with 128%nat.
  assert ((u32 (lba + 32) >? cap) = false) as ->.
  { assert (u32 (lba + 32) ≤ lba + 32) by (unfold u32; apply Z.mod_le; lia). lia. }
  destruct (Hents lba He Hl Hl') as (buf & -> & Hb). change (ANX_OK =? ANX_OK) with true. cbn [negb]. rewrite Hb.
  rewrite firstn_all2 by (unfold entries; rewrite entries_length; lia). rewrite Z.eqb_refl. cbn [negb]. unfold entries. by rewrite collect_default.
Qed.

(** On a disk of more than 2^32 + 32 sectors (2 TiB) the backup entries lie beyond
    sector 2^32, and the parser rejects the backup header that was just
    written: the fallback never works there. *)
Theorem big_disk_backup_unreadable clock label d mem d' mem' : 2 ^ 32 + 33 ≤ drv_capacity d < 2 ^ 64 →
  anx_gpt_create_default clock label (Some d) mem = (ANX_OK, Some d', mem') → gpt_parse_header (contents d' (drv_capacity d - 1)) = None.
Proof.
  intros Hcap Hc. apply create_writes in Hc as [_ _ _ _ _ Th]. rewrite Th. set (h := seal_header _).
  assert (field 72 8 (header_bytes h) = drv_capacity d - 33) as F.
  { unfold header_bytes. replace (gh_entries_lba h) with (drv_capacity d - 33) by reflexivity. by read_field. }
  unfold gpt_parse_header. rewrite F. replace ((drv_capacity d - 33 =? 0) || (drv_capacity d - 33 >? 0xFFFFFFFF)) with true by lia.
  repeat (case_match; [done|]). done.
Qed.
End readback.

Definition blank_disk : mem_disk := MemDisk 300000 ∅ true.
Definition steady (i : Z) : Z := 7 + i mod 2.
Definition disk_label : list Z := [97; 110; 120].

Definition formatted : mem_disk :=
  match anx_gpt_create_default steady (Some disk_label) (Some blank_disk) [] with (_, Some d, _) => d | _ => blank_disk end.

(** The same disk with its primary header lost. *)
Definition header_lost : mem_disk := MemDisk (md_cap formatted) (<[1 := replicate 512 255]> (md_data formatted)) (md_working formatted).

Lemma gpt_readback_witness :
  anx_gpt_create_default steady (Some disk_label) (Some blank_disk) [] = (ANX_OK, Some formatted, []) ∧
  gpt_parse_header (mem_sector header_lost 1) = None ∧
  anx_gpt_read_dev (Some header_lost) []
  = (ANX_OK, [as_read 1 (efi_part steady); as_read 2 (anx_part_of_disk steady (Some disk_label) 300000)], []).
Proof.
  assert (anx_gpt_create_default steady (Some disk_label) (Some blank_disk) [] = (ANX_OK, Some formatted, [])) as Hc by (vm_compute; reflexivity).
  assert (gpt_parse_header (mem_sector header_lost 1) = None) as Hp by (vm_compute; reflexivity).
  split; [exact Hc|]. split; [exact Hp|].
  destruct (gpt_readback steady (Some disk_label) blank_disk [] formatted [] header_lost) as [H _]; [..|exact H].
  - reflexivity.
  - intros i. unfold is_u64, steady. pose proof (Z.mod_pos_bound i 2). lia.
  - intros l [= <-]. repeat constructor; lia.
  - exact Hc.
  - reflexivity.
  - intros i Hi. cbn. unfold mem_sector. cbn. by rewrite lookup_insert_ne.
  - intros lba n H1 H2 H3. cbn [drv_read mem_driver]. assert (md_working header_lost = true) as Hw by (vm_compute; reflexivity).
    unfold mem_in_range. rewrite Hw. cbn [drv_capacity mem_driver] in H3. replace (true && (0 <=? lba) && (lba + n <=? md_cap header_lost)) with true by lia. reflexivity.
  - right. split; [exact Hp|]. vm_compute. discriminate.
Defined.
