(* ===== verification/Part.v ===== *)
(** * Partition devices: [kernel/drivers/storage/part.c], [part.h], [blk.c]

    Each usable entry of the partition table of a drive becomes a block device
    of its own, which adds the start of the partition to every request and
    refuses requests that leave it.  The registry is that of [Blk.v] over a
    sum: [inl d] is a device below this layer (a drive, or an array, which
    [MdProofs.v] and [MdMirror.v] show to behave as one), [inr i] is the
    partition in slot [i] of the pool.  [struct anx_blk_dev *] is the slot of the
    registry. *)

From S2P Require Import Prelude Blk Meta CellStore Gpt.

Definition PART_MAX : Z := ANX_BLK_MAX_DEVS * 2.
Definition ANX_PART_LABEL_MAX : nat := 36.

(** A pool slot; it is free when it has no parent. *)
Record anx_part := Part {
  p_parent : option Z;
  p_start_lba : Z;
  p_sectors : Z;
  p_index : Z;
  p_type_lo : Z;
  p_type_hi : Z;
  p_label : list Z;
}.

#[export] Instance eta_part : Settable anx_part := λ r,
  Part (p_parent r) (p_start_lba r) (p_sectors r) (p_index r) (p_type_lo r) (p_type_hi r) (p_label r).

Definition free_part : anx_part := Part None 0 0 0 0 0 [].

(** "<parent>p<index>". *)
Definition part_name (parent : list Z) (index : Z) : list Z :=
  let dst := anx_strlcpy parent ANX_BLK_NAME_MAX in
  let len := if (ANX_BLK_NAME_MAX <=? length dst + 4)%nat then (ANX_BLK_NAME_MAX - 5)%nat else length dst in
  firstn len dst ++ [112] ++ (if 10 <=? index then [48 + (index / 10) mod 10] else []) ++ [48 + index mod 10].

Section part.
Context {D : Type} `{!BlkDriver D}.

(** The registry, the pool, and what memory allocation answers. *)
Record pworld := PWorld { pw_reg : registry (D + Z); part_pool : list anx_part; pw_mem : list bool }.

#[export] Instance eta_pworld : Settable pworld := λ r, PWorld (pw_reg r) (part_pool r) (pw_mem r).

Definition part_boot : pworld := PWorld registry_init (replicate (Z.to_nat PART_MAX) free_part) [].

Definition pool_at (w : pworld) (i : Z) : anx_part := rd free_part (part_pool w) i.

Definition set_pool (w : pworld) (i : Z) (p : anx_part) : pworld := w <| part_pool ::= λ l, wr l i p |>.

(** The device in a slot. *)
Definition priv_at (w : pworld) (dev : Z) : option (blk_priv (D + Z)) := dev_priv <$> dev_slot (pw_reg w) dev.

Definition anx_part_is_partition (w : pworld) (dev : Z) : bool :=
  match priv_at w dev with Some (PrivDrv (inr _)) => true | _ => false end.

Definition anx_part_of (w : pworld) (dev : Z) : option anx_part :=
  match priv_at w dev with Some (PrivDrv (inr i)) => Some (pool_at w i) | _ => None end.

(** The first free slot. *)
Definition part_alloc (w : pworld) : option Z :=
  head (filter (λ i, p_parent (pool_at w i) = None) (seqZ 0 PART_MAX)).

(** ** I/O *)

(** I/O on a device below this layer.  A partition here is a partition on a
    partition. *)
Definition lower_read (w : pworld) (dev : option Z) (lba count : Z) : outcome (Z * list sector) :=
  match dev ≫= priv_at w with
  | None => Ret (ANX_ENODEV, [])
  | Some priv =>
      when count =? 0 ret Ret (ANX_OK, []) ;;
      match priv with
      | PrivDrv (inl d) => Ret (drv_read d lba count)
      | PrivDrv (inr _) => Panic
      | PrivArray _ => Ret (ANX_ENODEV, [])
      end
  end.

Definition lower_write (w : pworld) (dev : option Z) (lba : Z) (buf : list sector) : outcome (Z * pworld) :=
  match dev, dev ≫= dev_slot (pw_reg w) with
  | Some s, Some b =>
      when bool_decide (buf = []) ret Ret (ANX_OK, w) ;;
      match dev_priv b with
      | PrivDrv (inl d) =>
          let '(rc, d) := drv_write d lba buf in
          Ret (rc, w <| pw_reg ::= λ r, set_slot r s (Some (BlkDev (PrivDrv (inl d)) (dev_name b) (dev_flags b))) |>)
      | PrivDrv (inr _) => Panic
      | PrivArray _ => Ret (ANX_ENODEV, w)
      end
  | _, _ => Ret (ANX_ENODEV, w)
  end.

(** [lba >= p->sectors || count > p->sectors - lba]. *)
Definition part_outside (p : anx_part) (lba count : Z) : bool := (lba >=? p_sectors p) || (count >? p_sectors p - lba).

Definition part_blk_read (w : pworld) (p : anx_part) (lba count : Z) : outcome (Z * list sector) :=
  when count =? 0 ret Ret (ANX_OK, []) ;;
  when part_outside p lba count ret Ret (ANX_ERANGE, []) ;;
  lower_read w (p_parent p) (u64 (p_start_lba p + lba)) count.

Definition part_blk_write (w : pworld) (p : anx_part) (lba : Z) (buf : list sector) : outcome (Z * pworld) :=
  when bool_decide (buf = []) ret Ret (ANX_OK, w) ;;
  when part_outside p lba (Z.of_nat (length buf)) ret Ret (ANX_ERANGE, w) ;;
  lower_write w (p_parent p) (u64 (p_start_lba p + lba)) buf.

Definition part_blk_capacity (p : anx_part) : Z := p_sectors p.

Definition blk_dev_read (w : pworld) (dev : option Z) (lba count : Z) : outcome (Z * list sector) :=
  match dev ≫= priv_at w with
  | Some (PrivDrv (inr i)) => when count =? 0 ret Ret (ANX_OK, []) ;; part_blk_read w (pool_at w i) lba count
  | _ => lower_read w dev lba count
  end.

Definition blk_dev_write (w : pworld) (dev : option Z) (lba : Z) (buf : list sector) : outcome (Z * pworld) :=
  match dev ≫= priv_at w with
  | Some (PrivDrv (inr i)) => when bool_decide (buf = []) ret Ret (ANX_OK, w) ;; part_blk_write w (pool_at w i) lba buf
  | _ => lower_write w dev lba buf
  end.

Definition blk_dev_capacity (w : pworld) (dev : option Z) : Z :=
  match dev ≫= priv_at w with
  | Some (PrivDrv (inl d)) => drv_capacity d
  | Some (PrivDrv (inr i)) => part_blk_capacity (pool_at w i)
  | _ => 0
  end.

(** ** Scanning *)

(** The entries a scan accepts. *)
Definition entry_usable (parent_sectors : Z) (e : anx_gpt_partition) : bool :=
  negb ((gp_start_lba e =? 0) || (gp_end_lba e <? gp_start_lba e) || (gp_end_lba e >=? parent_sectors)).

Definition part_of_entry (dev : Z) (e : anx_gpt_partition) : anx_part :=
  Part (Some dev) (gp_start_lba e) (u64 (gp_end_lba e - gp_start_lba e + 1)) (gp_index e) (gp_type_lo e) (gp_type_hi e)
    (anx_strlcpy (gp_name e) ANX_PART_LABEL_MAX).

Fixpoint scan_entries (dev : Z) (parent_name : list Z) (parent_sectors : Z) (entries : anx_gpt_table) (registered : Z) (w : pworld) : Z * pworld :=
  match entries with
  | [] => (registered, w)
  | e :: entries =>
      if entry_usable parent_sectors e then
        match part_alloc w with
        | None => (registered, w)
        | Some i =>
            let w := set_pool w i (part_of_entry dev e) in
            match anx_blk_dev_register_named (pw_reg w) (PrivDrv (inr i)) (part_name parent_name (gp_index e)) with
            | (None, _) => (registered, set_pool w i (pool_at w i <| p_parent := None |>))
            | (Some _, r) => scan_entries dev parent_name parent_sectors entries (registered + 1) (w <| pw_reg := r |>)
            end
        end
      else scan_entries dev parent_name parent_sectors entries registered w
  end.

Definition anx_part_scan (w : pworld) (devp : option Z) : Z * pworld :=
  match devp, devp ≫= dev_slot (pw_reg w) with
  | Some dev, Some b =>
      match dev_priv b with
      | PrivDrv (inr _) => (0, w)
      | PrivArray _ => (0, w)
      | PrivDrv (inl d) =>
          let parent_sectors := drv_capacity d in
          when parent_sectors =? 0 ret (0, w) ;;
          let '(ok, mem) := next_alloc (pw_mem w) in
          when negb ok ret (ANX_ENOMEM, w <| pw_mem := mem |>) ;;
          let '(rc, table, mem) := anx_gpt_read_dev (Some d) mem in
          let w := w <| pw_mem := mem |> in
          when negb (rc =? ANX_OK) ret (0, w) ;;
          scan_entries dev (dev_name b) parent_sectors table 0 w
      end
  | _, _ => (ANX_ENODEV, w)
  end.

(** One turn of the loop over the drives. *)
Definition scan_turn (w : pworld) (i : Z) : pworld :=
  match anx_blk_dev_at (pw_reg w) i with
  | None => w
  | Some dev => if anx_part_is_partition w dev then w else (anx_part_scan w (Some dev)).2
  end.

Definition anx_part_scan_all (w : pworld) : pworld := foldl scan_turn w (seqZ 0 (anx_blk_dev_count (pw_reg w))).

(** ** Removal *)

(** Whether a slot holds the device of pool slot [i]. *)
Definition is_device_of (w : pworld) (i dev : Z) : bool :=
  match priv_at w dev with Some (PrivDrv (inr j)) => j =? i | _ => false end.

(** The devices are walked by position. *)
Definition device_of (w : pworld) (i : Z) : option Z :=
  List.find (is_device_of w i) (omap (anx_blk_dev_at (pw_reg w)) (seqZ 0 (anx_blk_dev_count (pw_reg w)))).

Definition forget_turn (parent : Z) (w : pworld) (i : Z) : pworld :=
  if bool_decide (p_parent (pool_at w i) = Some parent) then
    let w := match device_of w i with None => w | Some dev => w <| pw_reg ::= λ r, drop_slot r dev |> end in
    set_pool w i (pool_at w i <| p_parent := None |>)
  else w.

Definition anx_part_forget_children (w : pworld) (parent : Z) : pworld := foldl (forget_turn parent) w (seqZ 0 PART_MAX).

(** [anx_blk_dev_unregister]: the partitions of a device go first. *)
Definition blk_dev_unregister (w : pworld) (devp : option Z) : pworld :=
  match devp, devp ≫= priv_at w with
  | Some dev, Some priv =>
      let w := if anx_part_is_partition w dev then w else anx_part_forget_children w dev in
      w <| pw_reg ::= λ r, drop_slot r dev |>
  | _, _ => w
  end.
End part.

Arguments pworld D : clear implicits.
