(* ===== verification/PartProofs.v ===== *)
(** * Partition devices: the clamp and the life of a partition

    The invariant of the registry and the pool under every operation, and what
    it gives: a request through a partition never leaves it, and no partition
    outlives the device it sits on. *)

From S2P Require Import Prelude Blk Meta CellStore Gpt Part.

Section proofs.
Context {D : Type} `{!BlkDriver D} `{!BlkDriverLaws D}.
Implicit Types (w : pworld D) (r : registry (D + Z)) (x : D).

(** ** Slots *)

Definition in_slots (s : Z) : Prop := 0 ≤ s < ANX_BLK_MAX_DEVS.

Lemma dev_slot_set r i j o : length (blk_devs r) = 32%nat → in_slots i → in_slots j →
  dev_slot (set_slot r i o) j = if decide (j = i) then o else dev_slot r j.
Proof.
  unfold in_slots, ANX_BLK_MAX_DEVS. intros Hl Hi Hj. unfold dev_slot, set_slot. cbn [blk_devs]. case_decide as E.
  - subst. apply rd_wr_eq. lia.
  - apply rd_wr_ne; lia.
Qed.

Lemma dev_slot_drop r i j : length (blk_devs r) = 32%nat → in_slots i → in_slots j →
  dev_slot (drop_slot r i) j = if decide (j = i) then None else dev_slot r j.
Proof.
  intros Hl Hi Hj. unfold drop_slot. destruct (dev_slot r i) eqn:E.
  - rewrite <- (dev_slot_set r i j None Hl Hi Hj). done.
  - case_decide; [congruence|done].
Qed.

Lemma set_slot_length r i o : length (blk_devs (set_slot r i o)) = length (blk_devs r).
Proof. apply wr_length. Qed.

Lemma drop_length r i : length (blk_devs (drop_slot r i)) = length (blk_devs r).
Proof. unfold drop_slot. destruct (dev_slot r i); [|done]. cbn. apply wr_length. Qed.

Lemma first_free_slot r i : first_free (blk_devs r) = Some i → (i < length (blk_devs r))%nat ∧ dev_slot r (Z.of_nat i) = None.
Proof.
  intros (l1 & l2 & E & <- & _)%first_free_Some. unfold dev_slot, rd. rewrite E, Nat2Z.id, nth_middle. split; [rewrite length_app; cbn; lia|done].
Qed.

Lemma rd_pool w i j p : length (part_pool w) = 64%nat → 0 ≤ i < 64 → 0 ≤ j → pool_at (set_pool w i p) j = if decide (j = i) then p else pool_at w j.
Proof.
  intros Hl Hi Hj. unfold pool_at, set_pool. cbn [part_pool update_field]. cbn. case_decide as E; [subst; apply rd_wr_eq; lia|apply rd_wr_ne; lia].
Qed.

(** ** The invariant *)

(** The partition lies inside a device below it. *)
Definition part_fits w (p : anx_part) : Prop :=
  ∀ s, p_parent p = Some s → in_slots s ∧ ∃ x, priv_at w s = Some (PrivDrv (inl x)) ∧
    0 < p_start_lba p ∧ 0 < p_sectors p ∧ p_start_lba p + p_sectors p ≤ drv_capacity x.

Record part_inv w : Prop := {
  pi_pool : length (part_pool w) = 64%nat;
  pi_reg : length (blk_devs (pw_reg w)) = 32%nat;
  pi_fits : ∀ i, 0 ≤ i < 64 → part_fits w (pool_at w i);
  pi_device : ∀ s i, in_slots s → priv_at w s = Some (PrivDrv (inr i)) → 0 ≤ i < 64 ∧ is_Some (p_parent (pool_at w i));
  pi_unique : ∀ s t i, in_slots s → in_slots t → priv_at w s = Some (PrivDrv (inr i)) → priv_at w t = Some (PrivDrv (inr i)) → s = t;
  pi_capacity : ∀ s x, in_slots s → priv_at w s = Some (PrivDrv (inl x)) → 0 ≤ drv_capacity x < 2 ^ 64;
}.

(** How the device in a slot may change while the pool stays as it is. *)
Inductive slot_change w (s : Z) : option (blk_priv (D + Z)) → option (blk_priv (D + Z)) → Prop :=
  | SKeep o : slot_change w s o o
  | SFill x : 0 ≤ drv_capacity x < 2 ^ 64 → slot_change w s None (Some (PrivDrv (inl x)))
  | SArray i : slot_change w s None (Some (PrivArray i))
  | SWrite x x' : drv_capacity x' = drv_capacity x → slot_change w s (Some (PrivDrv (inl x))) (Some (PrivDrv (inl x')))
  | SDrop o : (∀ i, 0 ≤ i < 64 → p_parent (pool_at w i) ≠ Some s) → slot_change w s o None.

Lemma inv_slots w w' : part_pool w' = part_pool w → length (blk_devs (pw_reg w')) = 32%nat →
  (∀ s, in_slots s → slot_change w s (priv_at w s) (priv_at w' s)) → part_inv w → part_inv w'.
Proof.
  intros HP HL HS [H1 H2 H3 H4 H5 H6].
  assert (∀ i, pool_at w' i = pool_at w i) as HA by (intros i; unfold pool_at; by rewrite HP).
  assert (∀ s i, in_slots s → priv_at w' s = Some (PrivDrv (inr i)) → priv_at w s = Some (PrivDrv (inr i))) as Hback.
  { intros s i Hs Hi. pose proof (HS s Hs) as Hc. rewrite Hi in Hc. inversion Hc. done. }
  constructor; [by rewrite HP|done|..].
  - intros i Hi s Hp. rewrite HA in *. destruct (H3 i Hi s Hp) as (Hs & x & Hx & ? & ? & ?). split; [done|].
    pose proof (HS s Hs) as Hc. rewrite Hx in Hc. inversion Hc as [o E1 E2| | |x0 x' Hcap E1 E2|o Hno E1 E2]; subst.
    + exists x. by split_and!.
    + exists x'. split_and!; [done..|lia].
    + exfalso. by apply (Hno i Hi).
  - intros s i Hs Hi. rewrite HA. eapply H4; [exact Hs|by apply Hback].
  - intros s t i Hs Ht Hi Hj. eapply H5; eauto.
  - intros s x Hs Hx. pose proof (HS s Hs) as Hc. rewrite Hx in Hc. inversion Hc as [o E1 E2|x0 Hcap E1 E2| |x0 x' Hcap E1 E2|]; subst.
    + by eapply H6.
    + done.
    + rewrite Hcap. eapply (H6 s); eauto.
Qed.

(** Freeing a pool slot whose device is gone. *)
Lemma inv_free w i : part_inv w → 0 ≤ i < 64 → (∀ s, in_slots s → priv_at w s ≠ Some (PrivDrv (inr i))) →
  part_inv (set_pool w i (pool_at w i <| p_parent := None |>)).
Proof.
  intros [H1 H2 H3 H4 H5 H6] Hi Hno.
  assert (∀ s, priv_at (set_pool w i (pool_at w i <| p_parent := None |>)) s = priv_at w s) as HR by done.
  constructor; [cbn; by rewrite wr_length|done|..].
  - intros j Hj s. rewrite rd_pool by (done || lia). case_decide; [done|]. intros Hp. apply (H3 j Hj s Hp).
  - intros s j Hs Hd. rewrite HR in Hd. destruct (H4 s j Hs Hd) as [Hj Hp]. split; [done|]. rewrite rd_pool by (done || lia).
    case_decide; [|done]. subst j. by apply Hno in Hd.
  - intros s t j Hs Ht. rewrite !HR. by apply H5.
  - intros s x Hs. rewrite HR. by apply H6.
Qed.

(** ** Registration of devices *)

Lemma priv_fill w r s : priv_at (w <| pw_reg := r |>) s = dev_priv <$> dev_slot r s.
Proof. done. Qed.

Lemma inv_register w priv base : part_inv w →
  match priv with PrivDrv (inl x) => 0 ≤ drv_capacity x < 2 ^ 64 | PrivDrv (inr _) => False | PrivArray _ => True end →
  part_inv (w <| pw_reg := (anx_blk_dev_register (pw_reg w) priv base).2 |>).
Proof.
  intros Hi Hp. pose proof (pi_reg _ Hi) as Hl. unfold anx_blk_dev_register. destruct (first_free (blk_devs (pw_reg w))) as [i|] eqn:Hf; cbn [snd]; [|by destruct w].
  destruct (first_free_slot _ _ Hf) as [Hlt Hnone].
  set (r1 := set_slot (pw_reg w) (Z.of_nat i) (Some (BlkDev priv (blk_pick_name (pw_reg w) base) 0))).
  assert (part_inv (w <| pw_reg := r1 |>)) as H.
  { apply (inv_slots w); [done|exact (eq_trans (set_slot_length _ _ _) Hl)| |done]. intros s Hs. rewrite priv_fill. unfold r1.
    rewrite dev_slot_set by (try done; unfold in_slots, ANX_BLK_MAX_DEVS; lia). case_decide; [|apply SKeep]. subst s. unfold priv_at. rewrite Hnone. cbn.
    destruct priv as [[x|j]|j]; [by apply SFill|done|apply SArray]. }
  destruct (active_dev (pw_reg w)); [done|]. destruct H. by constructor.
Qed.

Lemma inv_register_named w priv name : part_inv w →
  match priv with PrivDrv (inl x) => 0 ≤ drv_capacity x < 2 ^ 64 | PrivDrv (inr _) => False | PrivArray _ => True end →
  part_inv (w <| pw_reg := (anx_blk_dev_register_named (pw_reg w) priv name).2 |>).
Proof.
  intros Hi Hp. pose proof (pi_reg _ Hi) as Hl. unfold anx_blk_dev_register_named. destruct (bool_decide _); [by destruct w|].
  destruct (first_free (blk_devs (pw_reg w))) as [i|] eqn:Hf; cbn [snd]; [|by destruct w]. destruct (first_free_slot _ _ Hf) as [Hlt Hnone].
  apply (inv_slots w); [done|exact (eq_trans (set_slot_length _ _ _) Hl)| |done]. intros s Hs. rewrite priv_fill.
  rewrite dev_slot_set by (try done; unfold in_slots, ANX_BLK_MAX_DEVS; lia). case_decide; [|apply SKeep]. subst s. unfold priv_at. rewrite Hnone. cbn.
  destruct priv as [[x|j]|j]; [by apply SFill|done|apply SArray].
Qed.

Lemma inv_flags w dev f : part_inv w → part_inv (w <| pw_reg := update_flags (pw_reg w) dev f |>).
Proof.
  intros Hi. pose proof (pi_reg _ Hi) as Hl. unfold update_flags. destruct dev as [i|]; [|by destruct w]. destruct (dev_slot (pw_reg w) i) as [b|] eqn:E; [|by destruct w].
  apply (inv_slots w); [done|exact (eq_trans (set_slot_length _ _ _) Hl)| |done]. intros s Hs. rewrite priv_fill. unfold dev_slot, set_slot. cbn [blk_devs].
  unfold dev_slot, rd in E. unfold priv_at, dev_slot, rd, wr. rewrite !nth_lookup in *.
  destruct (decide (Z.to_nat s = Z.to_nat i)) as [->|Hne]; [|rewrite list_lookup_insert_ne by done; apply SKeep].
  destruct (blk_devs (pw_reg w) !! Z.to_nat i) as [o|] eqn:Ho; [|done]. cbn in E. subst o.
  rewrite list_lookup_insert_eq by (by apply lookup_lt_is_Some_1; eauto). cbn. apply SKeep.
Qed.

(** ** Removal *)

Lemma at_used r s : s ∈ omap (anx_blk_dev_at r) (seqZ 0 (anx_blk_dev_count r)) ↔ in_slots s ∧ is_Some (dev_slot r s).
Proof.
  assert (s ∈ used_slots r ↔ in_slots s ∧ is_Some (dev_slot r s)) as <-.
  { unfold used_slots. rewrite list_elem_of_filter, elem_of_seqZ. unfold in_slots. split; (intros [? ?]; split; [done || lia..]). }
  unfold anx_blk_dev_count. rewrite list_elem_of_omap. split.
  - intros (j & Hj & Ha). unfold anx_blk_dev_at in Ha. destruct (j <? 0); [done|]. by eapply list_elem_of_lookup_2.
  - intros (j & Hj)%list_elem_of_lookup_1. exists (Z.of_nat j). pose proof (lookup_lt_Some _ _ _ Hj). split; [apply elem_of_seqZ; lia|].
    unfold anx_blk_dev_at. destruct (Z.ltb_spec (Z.of_nat j) 0); [lia|]. by rewrite Nat2Z.id.
Qed.

Lemma is_device_spec w i s : reflect (priv_at w s = Some (PrivDrv (inr i))) (is_device_of w i s).
Proof.
  unfold is_device_of. destruct (priv_at w s) as [[[x|j]|j]|]; try (by constructor). destruct (Z.eqb_spec j i) as [->|]; constructor; congruence.
Qed.

Lemma device_of_spec w i :
  match device_of w i with
  | Some s => in_slots s ∧ priv_at w s = Some (PrivDrv (inr i))
  | None => ∀ s, in_slots s → priv_at w s ≠ Some (PrivDrv (inr i))
  end.
Proof.
  unfold device_of. destruct (List.find _ _) as [s|] eqn:E.
  - apply List.find_some in E as [Hin Hd]. apply list_elem_of_In, at_used in Hin as [Hs _]. split; [done|].
    unfold is_device_of in Hd. destruct (priv_at w s) as [[[x|j]|j]|]; try done. to_prop. by subst.
  - intros s Hs Hp. assert (s ∈ omap (anx_blk_dev_at (pw_reg w)) (seqZ 0 (anx_blk_dev_count (pw_reg w)))) as Hin.
    { apply at_used. split; [done|]. unfold priv_at in Hp. destruct (dev_slot (pw_reg w) s); [by eexists|done]. }
    apply list_elem_of_In in Hin. pose proof (List.find_none _ _ E s Hin) as Hn. unfold is_device_of in Hn. rewrite Hp in Hn. lia.
Qed.

(** What removing children leaves alone: drives and arrays, and pool slots of
    other parents. *)
Definition forgets (parent : Z) w w' : Prop :=
  (∀ s, in_slots s → priv_at w' s = priv_at w s ∨ (priv_at w' s = None ∧ ∃ i, priv_at w s = Some (PrivDrv (inr i)) ∧ p_parent (pool_at w i) = Some parent)) ∧
  (∀ i, 0 ≤ i < 64 → pool_at w' i = pool_at w i ∨ (p_parent (pool_at w i) = Some parent ∧ p_parent (pool_at w' i) = None)).

Lemma forgets_refl parent w : forgets parent w w.
Proof. split; auto. Qed.

Lemma forgets_trans parent w1 w2 w3 : part_inv w1 → forgets parent w1 w2 → forgets parent w2 w3 → forgets parent w1 w3.
Proof.
  intros Hi [A1 B1] [A2 B2]. split.
  - intros s Hs. destruct (A2 s Hs) as [->|[-> (i & Hp & Hpar)]]; [by apply A1|].
    destruct (A1 s Hs) as [E|[E (j & Hj & Hpj)]]; [|congruence]. right. split; [done|]. exists i. split; [congruence|].
    destruct (pi_device _ Hi s i Hs) as [Hr _]; [congruence|]. destruct (B1 i Hr) as [<-|[Ho _]]; done.
  - intros i Hr. destruct (B2 i Hr) as [->|[Hp Hn]]; [by apply B1|]. destruct (B1 i Hr) as [E|[Ho Hno]]; [|congruence]. right. split; [by rewrite <- E|done].
Qed.

Lemma forget_turn_spec parent w i : part_inv w → 0 ≤ i < 64 →
  part_inv (forget_turn parent w i) ∧ forgets parent w (forget_turn parent w i) ∧ p_parent (pool_at (forget_turn parent w i) i) ≠ Some parent.
Proof.
  intros Hi Hr. unfold forget_turn. case_bool_decide as Hp; [|split_and!; [done|apply forgets_refl|done]].
  pose proof (device_of_spec w i) as Hd. set (w1 := match device_of w i with None => w | Some dev => w <| pw_reg ::= λ r, drop_slot r dev |> end).
  assert (part_pool w1 = part_pool w) as HP by (unfold w1; by destruct (device_of w i)).
  assert (∀ j, pool_at w1 j = pool_at w j) as HA by (intros j; unfold pool_at; by rewrite HP).
  assert (part_inv w1 ∧ (∀ s, in_slots s → priv_at w1 s = if is_device_of w i s then None else priv_at w s)) as [Hi1 Hs1].
  { unfold w1. destruct (device_of w i) as [dev|].
    - destruct Hd as [Hin Hdev]. assert (∀ s, in_slots s → priv_at (w <| pw_reg ::= λ r, drop_slot r dev |>) s = if decide (s = dev) then None else priv_at w s) as Hpv.
      { intros s Hs. unfold priv_at at 1. cbn. rewrite dev_slot_drop by (try done; apply Hi). by case_decide. }
      split.
      + apply (inv_slots w); [done|cbn; rewrite drop_length; apply Hi| |done]. intros s Hs. rewrite Hpv by done. case_decide as E; [|apply SKeep].
        subst s. apply SDrop. intros j Hj Hpar. destruct (pi_fits _ Hi j Hj dev Hpar) as (_ & x & Hx & _). congruence.
      + intros s Hs. rewrite Hpv by done. destruct (is_device_spec w i s) as [Hsi|Hsi]; case_decide as E; try done; [|congruence]. by destruct (E (pi_unique _ Hi _ _ _ Hs Hin Hsi Hdev)).
    - split; [done|]. intros s Hs. destruct (is_device_spec w i s) as [Hsi|]; [|done]. by apply Hd in Hsi. }
  split_and!.
  - apply inv_free; [done|done|]. intros s Hs. rewrite Hs1 by done. by destruct (is_device_spec w i s).
  - split.
    + intros s Hs. change (priv_at (set_pool w1 i _) s) with (priv_at w1 s). rewrite Hs1 by done. destruct (is_device_spec w i s); [|by left]. right. split; [done|]. by exists i.
    + intros j Hj. rewrite rd_pool by (try done; try lia; apply Hi1). case_decide as E; [|left; apply HA]. subst j. right. done.
  - rewrite rd_pool by (try done; try lia; apply Hi1). rewrite decide_True by done. done.
Qed.

Lemma forget_children_spec w parent : part_inv w →
  part_inv (anx_part_forget_children w parent) ∧ forgets parent w (anx_part_forget_children w parent) ∧
  ∀ i, 0 ≤ i < 64 → p_parent (pool_at (anx_part_forget_children w parent) i) ≠ Some parent.
Proof.
  intros Hi. unfold anx_part_forget_children. change PART_MAX with 64.
  assert (∀ k, 0 ≤ k ≤ 64 → let w' := foldl (forget_turn parent) w (seqZ 0 k) in part_inv w' ∧ forgets parent w w' ∧
    ∀ i, 0 ≤ i < k → p_parent (pool_at w' i) ≠ Some parent) as H; [|apply (H 64); lia].
  intros k [Hk Hk']. revert Hk'. pattern k. apply natlike_ind; [|clear k Hk|done].
  - intros _. split_and!; [done|apply forgets_refl|lia].
  - intros k Hk IH Hk'. rewrite <- Z.add_1_r, seqZ_snoc, foldl_app by lia. cbn [foldl]. destruct IH as (IH1 & IH2 & IH3); [lia|].
    set (w1 := foldl (forget_turn parent) w (seqZ 0 k)) in *. destruct (forget_turn_spec parent w1 (0 + k) IH1 ltac:(lia)) as (T1 & T2 & T3).
    split_and!; [done|by eapply forgets_trans|]. intros i Hr. destruct (decide (i = 0 + k)) as [->|]; [done|].
    destruct (proj2 T2 i ltac:(lia)) as [->|[_ Hn]]; [apply IH3; lia|congruence].
Qed.

Lemma inv_unregister w dev : part_inv w → (∀ s, dev = Some s → in_slots s) → part_inv (blk_dev_unregister w dev).
Proof.
  intros Hi Hd. unfold blk_dev_unregister. destruct dev as [dev|]; [|done]. specialize (Hd dev eq_refl). cbn [mbind option_bind].
  destruct (priv_at w dev) as [priv|] eqn:Hp; [|done].
  set (w1 := if anx_part_is_partition w dev then w else anx_part_forget_children w dev).
  assert (part_inv w1 ∧ ∀ i, 0 ≤ i < 64 → p_parent (pool_at w1 i) ≠ Some dev) as [H1 H2].
  { unfold w1, anx_part_is_partition. rewrite Hp. destruct (forget_children_spec w dev Hi) as (F1 & _ & F3).
    destruct priv as [[x|j]|j]; [done| |done]. split; [done|]. intros i Hr Hpar. destruct (pi_fits _ Hi i Hr dev Hpar) as (_ & x & Hx & _). congruence. }
  apply (inv_slots w1); [done|cbn; rewrite drop_length; apply H1| |done]. intros s Hs. unfold priv_at at 2. cbn.
  rewrite dev_slot_drop by (try done; apply H1). case_decide; [subst; by apply SDrop|apply SKeep].
Qed.

(** ** Scanning *)

Lemma part_alloc_free w i : part_alloc w = Some i → 0 ≤ i < 64 ∧ p_parent (pool_at w i) = None.
Proof.
  unfold part_alloc. destruct (filter _ _) as [|j l] eqn:E; [done|]. intros [= ->].
  assert (i ∈ filter (λ i, p_parent (pool_at w i) = None) (seqZ 0 PART_MAX)) as [Hp Hr]%list_elem_of_filter by (rewrite E; by left).
  apply elem_of_seqZ in Hr. change PART_MAX with 64 in Hr. split; [lia|done].
Qed.

(** Taking a free pool slot. *)
Lemma inv_take w i p : part_inv w → part_alloc w = Some i → part_fits w p → part_inv (set_pool w i p).
Proof.
  intros [H1 H2 H3 H4 H5 H6] [Hi Hfree]%part_alloc_free Hp.
  assert (∀ s, priv_at (set_pool w i p) s = priv_at w s) as HR by done.
  constructor; [cbn; by rewrite wr_length|done|..].
  - intros j Hj s. rewrite rd_pool by (done || lia). case_decide; [apply Hp|apply (H3 j Hj)].
  - intros s j Hs Hd. rewrite HR in Hd. destruct (H4 s j Hs Hd) as [Hj Hpj]. split; [done|]. rewrite rd_pool by (done || lia).
    case_decide; [|done]. subst j. rewrite Hfree in Hpj. by destruct Hpj.
  - intros s t j Hs Ht. rewrite !HR. by apply H5.
  - intros s x Hs. rewrite HR. by apply H6.
Qed.

(** Registering the device of a pool slot that has none. *)
Lemma register_part w i name : part_inv w → 0 ≤ i < 64 → is_Some (p_parent (pool_at w i)) → (∀ s, in_slots s → priv_at w s ≠ Some (PrivDrv (inr i))) →
  match anx_blk_dev_register_named (pw_reg w) (PrivDrv (inr i)) name with
  | (Some s, r) => part_inv (w <| pw_reg := r |>) ∧ in_slots s ∧ dev_slot (pw_reg w) s = None ∧
      ∀ t, in_slots t → dev_slot r t = if decide (t = s) then Some (BlkDev (PrivDrv (inr i)) (firstn (ANX_BLK_NAME_MAX - 1) name) 0) else dev_slot (pw_reg w) t
  | (None, r) => r = pw_reg w ∧ (first_free (blk_devs (pw_reg w)) = None ∨ is_Some (anx_blk_dev_find (pw_reg w) name))
  end.
Proof.
  intros Hi Hr Hpar Hno. pose proof (pi_reg _ Hi) as Hl. unfold anx_blk_dev_register_named. case_bool_decide as Hn; [by auto|].
  destruct (first_free (blk_devs (pw_reg w))) as [k|] eqn:Hf; [|by auto]. destruct (first_free_slot _ _ Hf) as [Hlt Hnone].
  assert (in_slots (Z.of_nat k)) as Hk by (unfold in_slots, ANX_BLK_MAX_DEVS; lia).
  set (d := BlkDev (PrivDrv (inr i)) _ 0). set (r1 := set_slot _ _ _).
  assert (∀ t, in_slots t → dev_slot r1 t = if decide (t = Z.of_nat k) then Some d else dev_slot (pw_reg w) t) as Hs by (intros t Ht; by apply dev_slot_set).
  split_and!; [|done|done|done].
  assert (∀ t, in_slots t → priv_at (w <| pw_reg := r1 |>) t = if decide (t = Z.of_nat k) then Some (PrivDrv (inr i)) else priv_at w t) as Hp.
  { intros t Ht. rewrite priv_fill, Hs by done. by case_decide. }
  assert (priv_at w (Z.of_nat k) = None) as Hkn by (unfold priv_at; by rewrite Hnone).
  destruct Hi as [H1 H2 H3 H4 H5 H6]. constructor; [done|exact (eq_trans (set_slot_length _ _ _) Hl)|..].
  - intros j Hj s Hsp. destruct (H3 j Hj s Hsp) as (Hin & x & Hx & ?). split; [done|]. exists x. rewrite Hp by done. rewrite decide_False; [done|congruence].
  - intros s j Hin. rewrite Hp by done. case_decide; [intros [= <-]; done|apply (H4 s j Hin)].
  - intros s t j Hins Hint. rewrite !Hp by done. repeat case_decide; subst; try done; [intros [= <-] Ht|intros Ht [= <-]|by apply H5]; by apply Hno in Ht.
  - intros s x Hin. rewrite Hp by done. case_decide; [done|by apply H6].
Qed.

Definition entry_sane (e : anx_gpt_partition) : Prop := is_u64 (gp_start_lba e) ∧ is_u64 (gp_end_lba e).

Lemma usable_fits w dev x e : priv_at w dev = Some (PrivDrv (inl x)) → in_slots dev → drv_capacity x < 2 ^ 64 → entry_sane e →
  entry_usable (drv_capacity x) e = true → part_fits w (part_of_entry dev e) ∧ p_sectors (part_of_entry dev e) = gp_end_lba e - gp_start_lba e + 1.
Proof.
  intros Hx Hd Hcap [Hs He] Hu. unfold entry_usable in Hu. apply negb_true_iff in Hu. to_prop. unfold is_u64 in *.
  assert (u64 (gp_end_lba e - gp_start_lba e + 1) = gp_end_lba e - gp_start_lba e + 1) as E by (apply u64_small; unfold is_u64; lia).
  split; [|done]. intros s [= <-]. split; [done|]. exists x. cbn. rewrite E. split_and!; [done|lia..].
Qed.

(** What a scan does to the devices: those there were stay, and the new ones are
    partitions of the device scanned. *)
Record scanned (dev : Z) (us : list anx_gpt_partition) w w' : Prop := {
  sn_kept : ∀ s b, in_slots s → dev_slot (pw_reg w) s = Some b → dev_slot (pw_reg w') s = Some b;
  sn_pool : ∀ i, 0 ≤ i < 64 → is_Some (p_parent (pool_at w i)) → pool_at w' i = pool_at w i;
  sn_new : ∀ s b, in_slots s → dev_slot (pw_reg w') s = Some b → dev_slot (pw_reg w) s = Some b ∨
    ∃ i e, e ∈ us ∧ dev_priv b = PrivDrv (inr i) ∧ pool_at w' i = part_of_entry dev e;
}.

(** The entry has a device, new and with its own name. *)
Definition entry_added (dev : Z) (parent : list Z) w w' (e : anx_gpt_partition) : Prop :=
  ∃ s i, in_slots s ∧ 0 ≤ i < 64 ∧ dev_slot (pw_reg w) s = None ∧ pool_at w' i = part_of_entry dev e ∧
    dev_slot (pw_reg w') s = Some (BlkDev (PrivDrv (inr i)) (firstn (ANX_BLK_NAME_MAX - 1) (part_name parent (gp_index e))) 0).

(** Why a scan stopped at an entry. *)
Definition scan_blocked (parent : list Z) w' (e : anx_gpt_partition) : Prop :=
  part_alloc w' = None ∨ first_free (blk_devs (pw_reg w')) = None ∨ is_Some (anx_blk_dev_find (pw_reg w') (part_name parent (gp_index e))).

Abbreviation usable x entries := (List.filter (entry_usable (drv_capacity x)) entries).

Lemma scan_entries_spec dev parent x entries n w : part_inv w → in_slots dev → priv_at w dev = Some (PrivDrv (inl x)) → Forall entry_sane entries →
  let '(m, w') := scan_entries dev parent (drv_capacity x) entries n w in
  part_inv w' ∧ n ≤ m ∧ scanned dev (usable x entries) w w' ∧
  Forall (entry_added dev parent w w') (firstn (Z.to_nat (m - n)) (usable x entries)) ∧
  (∀ e, usable x entries !! Z.to_nat (m - n) = Some e → scan_blocked parent w' e).
Proof.
  intros Hi Hd Hx Hs. revert n w Hi Hx. induction Hs as [|e entries He Hs IH]; intros n w Hi Hx; cbn [scan_entries List.filter].
  { split_and!; [done|lia|constructor; auto| |]; rewrite ?Z.sub_diag; [constructor|done]. }
  destruct (entry_usable (drv_capacity x) e) eqn:Hu; [|by apply IH].
  assert (drv_capacity x < 2 ^ 64) as Hcap by (apply (pi_capacity _ Hi dev x Hd Hx)).
  destruct (part_alloc w) as [i|] eqn:Ha.
  2:{ rewrite Z.sub_diag. split_and!; [done|lia|constructor; auto|constructor|]. intros y [= <-]. by left. }
  destruct (part_alloc_free w i Ha) as [Hir Hfree]. destruct (usable_fits w dev x e Hx Hd Hcap He Hu) as [Hfit _].
  pose proof (inv_take w i _ Hi Ha Hfit) as Hi1. set (w1 := set_pool w i (part_of_entry dev e)) in *.
  assert (∀ s, in_slots s → priv_at w1 s ≠ Some (PrivDrv (inr i))) as Hno.
  { intros s Hss Hp. destruct (pi_device _ Hi s i Hss Hp) as [_ Hpar]. rewrite Hfree in Hpar. by destruct Hpar. }
  assert (pool_at w1 i = part_of_entry dev e) as Hpi by (unfold w1; rewrite rd_pool by (try apply Hi; lia); by rewrite decide_True).
  assert (∀ j, 0 ≤ j < 64 → j ≠ i → pool_at w1 j = pool_at w j) as Hpj by (intros j Hj Hne; unfold w1; rewrite rd_pool by (try apply Hi; lia); by rewrite decide_False).
  pose proof (register_part w1 i (part_name parent (gp_index e)) Hi1 Hir) as Hreg. rewrite Hpi in Hreg. specialize (Hreg ltac:(by eexists) Hno).
  change (pw_reg w1) with (pw_reg w) in *. destruct (anx_blk_dev_register_named (pw_reg w) (PrivDrv (inr i)) (part_name parent (gp_index e))) as [[s|] r].
  - destruct Hreg as (Hi2 & Hss & Hsn & Hslots). set (w2 := w1 <| pw_reg := r |>) in *.
    assert (s ≠ dev) as Hne by (intros ->; unfold priv_at in Hx; by rewrite Hsn in Hx).
    assert (priv_at w2 dev = Some (PrivDrv (inl x))) as Hx2.
    { unfold w2. rewrite priv_fill, Hslots by done. rewrite decide_False by done. exact Hx. }
    specialize (IH (n + 1) w2 Hi2 Hx2). destruct (scan_entries dev parent (drv_capacity x) entries (n + 1) w2) as [m w3].
    destruct IH as (Hi3 & Hm & [K1 K2 K3] & Hadd & Hblock).
    replace (Z.to_nat (m - n)) with (S (Z.to_nat (m - (n + 1)))) by lia. cbn [firstn].
    assert (pool_at w3 i = part_of_entry dev e) as Hp3 by (rewrite K2; [exact Hpi|done|change (is_Some (p_parent (pool_at w1 i))); rewrite Hpi; by eexists]).
    assert (∀ t b, in_slots t → dev_slot (pw_reg w) t = Some b → dev_slot (pw_reg w2) t = Some b) as Hk2.
    { intros t b Ht Hb. change (pw_reg w2) with r. rewrite Hslots by done. rewrite decide_False; [done|congruence]. }
    split_and!; [done|lia| | |done].
    + constructor.
      * intros t b Ht Hb. apply K1; [done|by apply Hk2].
      * intros j Hj Hpar. assert (j ≠ i) by (intros ->; rewrite Hfree in Hpar; by destruct Hpar).
        assert (pool_at w2 j = pool_at w j) as E by (by apply (Hpj j)). rewrite K2, E; [done|done|by rewrite E].
      * intros t b Ht Hb. destruct (K3 t b Ht Hb) as [Hb2|(j & y & Hy & Hpv & Hpl)].
        -- change (pw_reg w2) with r in Hb2. rewrite Hslots in Hb2 by done. case_decide; [|by left]. injection Hb2 as <-. right. exists i, e. split_and!; [by left|done|done].
        -- right. exists j, y. split_and!; [by right|done|done].
    + constructor.
      * exists s, i. do 4 (split; [done|]). apply K1; [done|]. change (pw_reg w2) with r. rewrite Hslots by done. by rewrite decide_True.
      * eapply Forall_impl; [exact Hadd|]. intros y (t & j & Ht & Hj & Hn & Hpl & Hb). exists t, j. split; [done|]. split; [done|]. split; [|done].
        destruct (dev_slot (pw_reg w) t) as [b|] eqn:Eb; [|done]. apply Hk2 in Eb; [|done]. congruence.
  - destruct Hreg as [-> Hwhy]. rewrite Z.sub_diag. set (w2 := set_pool w1 i _).
    assert (part_inv w2) as Hi2 by (by apply inv_free).
    assert (∀ j, 0 ≤ j < 64 → is_Some (p_parent (pool_at w j)) → pool_at w2 j = pool_at w j) as Hkeep.
    { intros j Hj Hpar. assert (j ≠ i) by (intros ->; rewrite Hfree in Hpar; by destruct Hpar). unfold w2. rewrite rd_pool by (try apply Hi1; lia).
      rewrite decide_False by done. by apply Hpj. }
    split_and!; [done|lia|constructor; auto|constructor|]. intros y [= <-]. right. exact Hwhy.
Qed.

Lemma collect_sane k i size buf found : Forall entry_sane found → Forall entry_sane (collect_entries k i size buf found).
Proof.
  revert i buf found. induction k as [|k IH]; intros i buf found Hf; cbn [collect_entries]; [done|]. destruct (_ <? _)%nat; [|done].
  destruct (_ && _); apply IH; [done|]. apply Forall_app. split; [done|]. repeat constructor; unfold is_u64; cbn; apply (field_range _ 8).
Qed.

Lemma read_sane x mem : Forall entry_sane (anx_gpt_read_dev (Some x) mem).1.2.
Proof.
  unfold anx_gpt_read_dev. destruct (_ <? 3); [constructor|]. destruct (next_alloc mem) as [[] mem1]; [|constructor]. cbn [negb].
  destruct (match read_header x 1 with Some l => Some l | None => _ end) as [l|]; [|constructor]. destruct (_ >? _); [constructor|].
  destruct (next_alloc mem1) as [[] mem2]; [|constructor]. cbn [negb]. destruct (drv_read x _ _) as [rc buf].
  destruct (negb _); [constructor|]. destruct (negb _); [constructor|]. apply collect_sane. constructor.
Qed.

Lemma read_fails x mem : (anx_gpt_read_dev (Some x) mem).1.1 ≠ ANX_OK → (anx_gpt_read_dev (Some x) mem).1.2 = [].
Proof.
  unfold anx_gpt_read_dev. destruct (_ <? 3); [done|]. destruct (next_alloc mem) as [[] mem1]; [|done]. cbn [negb].
  destruct (match read_header x 1 with Some l => Some l | None => _ end) as [l|]; [|done]. destruct (_ >? _); [done|].
  destruct (next_alloc mem1) as [[] mem2]; [|done]. cbn [negb]. destruct (drv_read x _ _) as [rc buf].
  destruct (negb _); [done|]. by destruct (negb _).
Qed.

Lemma inv_same w w' : part_pool w' = part_pool w → pw_reg w' = pw_reg w → part_inv w → part_inv w'.
Proof.
  intros HP HR Hi. apply (inv_slots w); [done|rewrite HR; apply Hi| |done]. intros s _. unfold priv_at. rewrite HR. apply SKeep.
Qed.

(** The entries a scan works through: those of the table it reads. *)
Definition scan_table x (w : pworld D) : anx_gpt_table := (anx_gpt_read_dev (Some x) (next_alloc (pw_mem w)).2).1.2.

Lemma scan_cases w dev b x : part_inv w → in_slots dev → dev_slot (pw_reg w) dev = Some b → dev_priv b = PrivDrv (inl x) →
  let '(m, w') := anx_part_scan w (Some dev) in
  (m ≤ 0 ∧ part_pool w' = part_pool w ∧ pw_reg w' = pw_reg w ∧ (scan_table x w = [] ∨ m = ANX_ENOMEM)) ∨
  (∃ w1, part_pool w1 = part_pool w ∧ pw_reg w1 = pw_reg w ∧
     (m, w') = scan_entries dev (dev_name b) (drv_capacity x) (scan_table x w) 0 w1).
Proof.
  intros Hi Hd Hb Hx. unfold anx_part_scan, scan_table. cbn [mbind option_bind]. rewrite Hb, Hx.
  destruct (Z.eqb_spec (drv_capacity x) 0) as [E0|]; [left; split_and!; [lia|done|done|left; unfold anx_gpt_read_dev; by rewrite E0]|].
  destruct (next_alloc (pw_mem w)) as [[] mem1]; cbn [negb snd]; [|left; split_and!; [done|done|done|by right]].
  pose proof (read_fails x mem1) as Hf. destruct (anx_gpt_read_dev (Some x) mem1) as [[rc table] mem2]. cbn [fst snd] in *.
  destruct (Z.eqb_spec rc ANX_OK) as [->|Hrc]; cbn [negb]; [|left; split_and!; [lia|done|done|left; by apply Hf]].
  destruct (scan_entries _ _ _ _ _ _) as [m w'] eqn:E. right. eexists (w <| pw_mem := mem2 |>). auto.
Qed.

Lemma inv_scan w dev : part_inv w → (∀ s, dev = Some s → in_slots s) → part_inv (anx_part_scan w dev).2.
Proof.
  intros Hi Hd. destruct dev as [dev|]; [|done]. specialize (Hd dev eq_refl).
  destruct (dev_slot (pw_reg w) dev) as [b|] eqn:Hb; [|unfold anx_part_scan; cbn [mbind option_bind]; by rewrite Hb].
  destruct (dev_priv b) as [[x|j]|j] eqn:Hp; [|unfold anx_part_scan; cbn [mbind option_bind]; by rewrite Hb, Hp..].
  pose proof (scan_cases w dev b x Hi Hd Hb Hp) as Hc. destruct (anx_part_scan w (Some dev)) as [m w']. cbn [snd].
  destruct Hc as [(_ & HP & HR & _)|(w1 & HP & HR & E)]; [by apply (inv_same w)|].
  pose proof (scan_entries_spec dev (dev_name b) x (scan_table x w) 0 w1) as Hs. rewrite <- E in Hs. apply Hs; [by apply (inv_same w)|done| |apply read_sane].
  unfold priv_at. rewrite HR, Hb. cbn. by rewrite Hp.
Qed.

Lemma at_slots r i s : anx_blk_dev_at r i = Some s → in_slots s.
Proof.
  unfold anx_blk_dev_at. destruct (i <? 0); [done|]. intros Hs%list_elem_of_lookup_2. unfold used_slots in Hs.
  apply list_elem_of_filter in Hs as [_ Hs]. apply elem_of_seqZ in Hs. unfold in_slots. lia.
Qed.

Lemma inv_scan_all w : part_inv w → part_inv (anx_part_scan_all w).
Proof.
  unfold anx_part_scan_all. generalize (seqZ 0 (anx_blk_dev_count (pw_reg w))). intros l. revert w. induction l as [|i l IH]; intros w Hi; [done|].
  cbn [foldl]. apply IH. unfold scan_turn. destruct (anx_blk_dev_at (pw_reg w) i) as [dev|] eqn:Ha; [|done].
  destruct (anx_part_is_partition w dev); [done|]. apply inv_scan; [done|]. intros s [= <-]. by eapply at_slots.
Qed.

(** ** I/O *)

(** Sector [i] of the device below this layer in slot [s]. *)
Definition sector_at w (s i : Z) : option sector :=
  match priv_at w s with Some (PrivDrv (inl x)) => Some (contents x i) | _ => None end.

Lemma lower_write_spec w s x lba buf : part_inv w → in_slots s → priv_at w s = Some (PrivDrv (inl x)) →
  0 ≤ lba → lba + Z.of_nat (length buf) ≤ drv_capacity x →
  ∃ rc w', lower_write w (Some s) lba buf = Ret (rc, w') ∧ part_inv w' ∧ part_pool w' = part_pool w ∧
    (∀ t i, in_slots t → ¬ (t = s ∧ lba ≤ i < lba + Z.of_nat (length buf)) → sector_at w' t i = sector_at w t i) ∧
    (rc = ANX_OK → ∀ i, lba ≤ i < lba + Z.of_nat (length buf) → sector_at w' s i = buf !! Z.to_nat (i - lba)).
Proof.
  intros Hi Hs Hx Hl Hc. unfold lower_write. cbn [mbind option_bind]. pose proof Hx as Hx'. unfold priv_at in Hx'.
  destruct (dev_slot (pw_reg w) s) as [b|] eqn:Hb; [|done]. cbn in Hx'. injection Hx' as Hp.
  case_bool_decide as Hn; [subst buf; exists ANX_OK, w; cbn; split_and!; try done; lia|]. rewrite Hp.
  destruct (drv_write x lba buf) as [rc x'] eqn:Hw. eexists _, _. split; [reflexivity|].
  destruct (law_write _ _ _ _ _ Hl Hc Hw) as [Hout Hin]. pose proof (law_capacity _ _ _ _ _ Hw) as Hcap.
  set (w' := w <| pw_reg ::= _ |>).
  assert (∀ t, in_slots t → priv_at w' t = if decide (t = s) then Some (PrivDrv (inl x')) else priv_at w t) as Hpv.
  { intros t Ht. etrans; [exact (f_equal (fmap dev_priv) (dev_slot_set _ s t _ (pi_reg _ Hi) Hs Ht))|]. by case_decide. }
  split_and!; [|done| |].
  - apply (inv_slots w); [done|exact (eq_trans (set_slot_length _ _ _) (pi_reg _ Hi))| |done]. intros t Ht. rewrite Hpv by done.
    case_decide; [subst t; rewrite Hx; by apply SWrite|apply SKeep].
  - intros t i Ht Hno. unfold sector_at. rewrite Hpv by done. case_decide; [|done]. subst t. rewrite Hx. f_equal. apply Hout. naive_solver.
  - intros Hok i Hr. unfold sector_at. rewrite Hpv, decide_True by done. symmetry. by apply Hin.
Qed.

Lemma lower_write_below w dev lba buf rc w' : part_inv w → (∀ s, dev = Some s → in_slots s) → lower_write w dev lba buf = Ret (rc, w') →
  part_inv w'.
Proof.
  intros Hi Hd. unfold lower_write. destruct dev as [s|]; [|by intros [= _ <-]]. specialize (Hd s eq_refl). cbn [mbind option_bind].
  destruct (dev_slot (pw_reg w) s) as [b|] eqn:Hb; [|by intros [= _ <-]]. case_bool_decide; [by intros [= _ <-]|].
  destruct (dev_priv b) as [[x|j]|j] eqn:Hp; [|done|by intros [= _ <-]]. destruct (drv_write x lba buf) as [rc' x'] eqn:Hw. intros [= _ <-].
  apply (inv_slots w); [done|exact (eq_trans (set_slot_length _ _ _) (pi_reg _ Hi))| |done]. intros t Ht.
  pose proof (f_equal (fmap dev_priv) (dev_slot_set (pw_reg w) s t (Some (BlkDev (PrivDrv (inl x')) (dev_name b) (dev_flags b))) (pi_reg _ Hi) Hd Ht)) as E.
  refine (eq_ind_r (slot_change w t (priv_at w t)) _ E). clear E. case_decide; [|apply SKeep]. subst t. unfold priv_at. rewrite Hb. cbn. rewrite Hp. apply SWrite. by eapply law_capacity.
Qed.

Lemma inv_write w dev lba buf rc w' : part_inv w → (∀ s, dev = Some s → in_slots s) → blk_dev_write w dev lba buf = Ret (rc, w') → part_inv w'.
Proof.
  intros Hi Hd. unfold blk_dev_write.
  destruct (dev ≫= priv_at w) as [[[x|j]|j]|] eqn:Hp; [by apply lower_write_below| |by apply lower_write_below..].
  case_bool_decide; [by intros [= _ <-]|]. unfold part_blk_write. case_bool_decide; [done|]. destruct (part_outside _ _ _); [by intros [= _ <-]|].
  apply lower_write_below; [done|]. intros s Hs. destruct dev as [t|]; [|done]. cbn in Hp.
  destruct (pi_device _ Hi t j (Hd t eq_refl) Hp) as [Hj _]. by destruct (pi_fits _ Hi j Hj s Hs).
Qed.

(** ** Reachable states *)

(** One operation of the block layer: a drive or array appears, any device is
    removed, a drive or all drives are scanned, sectors are written through any
    device, a device is claimed, released or selected. *)
Inductive pstep : pworld D → pworld D → Prop :=
  | PAdd x base w : 0 ≤ drv_capacity x < 2 ^ 64 → pstep w (w <| pw_reg := (anx_blk_dev_register (pw_reg w) (PrivDrv (inl x)) base).2 |>)
  | PAddNamed x name w : 0 ≤ drv_capacity x < 2 ^ 64 →
      pstep w (w <| pw_reg := (anx_blk_dev_register_named (pw_reg w) (PrivDrv (inl x)) name).2 |>)
  | PRemove dev w : (∀ s, dev = Some s → in_slots s) → pstep w (blk_dev_unregister w dev)
  | PScan dev w : (∀ s, dev = Some s → in_slots s) → pstep w (anx_part_scan w dev).2
  | PScanAll w : pstep w (anx_part_scan_all w)
  | PWrite dev lba buf w rc w' : (∀ s, dev = Some s → in_slots s) → blk_dev_write w dev lba buf = Ret (rc, w') → pstep w w'
  | PFlags dev f w : pstep w (w <| pw_reg := update_flags (pw_reg w) dev f |>)
  | PSelect dev w : pstep w (w <| pw_reg := anx_blk_set_active (pw_reg w) dev |>).

Definition part_reach (mem : list bool) w : Prop := rtc pstep (part_boot <| pw_mem := mem |>) w.

Lemma boot_slot s : dev_slot (registry_init (D := D + Z)) s = None.
Proof. unfold dev_slot, registry_init, rd. rewrite nth_lookup. cbn [blk_devs]. destruct (replicate _ _ !! _) as [o|] eqn:E; [|done]. by apply lookup_replicate in E as [-> _]. Qed.

Lemma boot_pool i : pool_at (D := D) part_boot i = free_part.
Proof. unfold pool_at, part_boot, rd. rewrite nth_lookup. cbn [part_pool]. destruct (replicate _ _ !! _) as [o|] eqn:E; [|done]. by apply lookup_replicate in E as [-> _]. Qed.

Lemma inv_boot mem : part_inv (part_boot <| pw_mem := mem |>).
Proof.
  assert (∀ s, priv_at (part_boot (D := D)) s = None) as HN by (intros s; unfold priv_at; cbn [pw_reg part_boot]; by rewrite boot_slot).
  apply (inv_same part_boot); [done|done|]. constructor; [apply length_replicate|apply length_replicate|..].
  - intros i Hi s. by rewrite boot_pool.
  - intros s i Hs. by rewrite HN.
  - intros s t i Hs Ht. by rewrite HN.
  - intros s x Hs. by rewrite HN.
Qed.

Lemma reach_inv mem w : part_reach mem w → part_inv w.
Proof.
  unfold part_reach. intros Hr. assert (∀ w1, rtc pstep w1 w → part_inv w1 → part_inv w) as H; [|by eapply H, inv_boot].
  clear Hr. induction 1 as [|w1 w2 w3 Hs _ IH]; [done|]. intros Hi. apply IH. clear IH.
  destruct Hs; [by apply inv_register|by apply inv_register_named|by apply inv_unregister|by apply inv_scan|by apply inv_scan_all|by eapply inv_write|by apply inv_flags|].
  unfold anx_blk_set_active. destruct (_ && _); by apply (inv_slots w); [done|apply Hi|intros s _; apply SKeep|].
Qed.
End proofs.
