(* ===== verification/Partitions.v ===== *)
(** * The guarantees of the partition layer

    A partition is a block device confined to its range of the device below; a
    scan registers exactly the usable entries of the table; removing a device
    takes its partitions with it. *)

From S2P Require Import Prelude Blk Meta CellStore Gpt Part PartProofs.

Section claims.
Context {D : Type} `{!BlkDriver D} `{!BlkDriverLaws D}.
Implicit Types (w : pworld D) (x : D).

(** C25: A partition is a block device that never leaves its range.  Whatever devices
    have come and gone and whatever partition tables have been scanned, well
    formed or hostile, a partition device sits on a device that is still there,
    inside its capacity.  For every 64-bit sector number and every count, a
    request that is not wholly inside the partition is refused with ANX_ERANGE
    and touches nothing; a successful read returns the sectors of its range;
    a write changes at most the sectors of the request within the range, on
    that one device, and a successful one stores them. *)
Theorem partition_confined mem w s p : part_reach mem w → in_slots s → anx_part_of w s = Some p →
  ∃ parent x, p_parent p = Some parent ∧ priv_at w parent = Some (PrivDrv (inl x)) ∧
    0 < p_start_lba p ∧ p_start_lba p + p_sectors p ≤ drv_capacity x ∧
  (∀ lba n, is_u64 lba → is_u32 n → ∃ rc buf, blk_dev_read w (Some s) lba n = Ret (rc, buf) ∧
     (0 < n → p_sectors p < lba + n → rc = ANX_ERANGE) ∧
     (rc = ANX_OK → buf = (λ i, contents x (p_start_lba p + i)) <$> seqZ lba n)) ∧
  (∀ lba buf, is_u64 lba → let n := Z.of_nat (length buf) in ∃ rc w', blk_dev_write w (Some s) lba buf = Ret (rc, w') ∧
     (0 < n → p_sectors p < lba + n → rc = ANX_ERANGE ∧ w' = w) ∧
     (∀ t i, in_slots t → ¬ (t = parent ∧ p_start_lba p + lba ≤ i < p_start_lba p + lba + n ∧ lba + n ≤ p_sectors p) → sector_at w' t i = sector_at w t i) ∧
     (rc = ANX_OK → ∀ i, lba ≤ i < lba + n → sector_at w' parent (p_start_lba p + i) = buf !! Z.to_nat (i - lba))).
Proof.
  intros Hr Hs Hp. pose proof (reach_inv _ _ Hr) as Hi. unfold anx_part_of in Hp. destruct (priv_at w s) as [[[y|j]|j]|] eqn:Hj; try done.
  injection Hp as <-. destruct (pi_device _ Hi s j Hs Hj) as [Hjr [parent Hpar]]. destruct (pi_fits _ Hi j Hjr parent Hpar) as (Hin & x & Hx & H1 & H2 & H3).
  set (p := pool_at w j) in *. pose proof (pi_capacity _ Hi parent x Hin Hx) as Hcap.
  exists parent, x. split; [done|]. split; [done|]. split; [done|]. split; [done|]. unfold is_u64, is_u32. split.
  - intros lba n Hl Hn. unfold blk_dev_read. cbn [mbind option_bind]. rewrite Hj. fold p. destruct (Z.eqb_spec n 0) as [->|Hn0].
    { exists ANX_OK, []. split_and!; [done|lia|done]. }
    unfold part_blk_read. destruct (Z.eqb_spec n 0); [done|]. destruct (part_outside p lba n) eqn:Ho; unfold part_outside in Ho.
    { exists ANX_ERANGE, []. split_and!; [done|done|discriminate]. }
    unfold lower_read. rewrite Hpar. cbn [mbind option_bind]. rewrite Hx. destruct (Z.eqb_spec n 0); [done|].
    rewrite u64_small by (unfold is_u64; lia). destruct (drv_read x (p_start_lba p + lba) n) as [rc buf] eqn:E. exists rc, buf. split_and!; [done|lia|].
    intros ->. rewrite (law_read x (p_start_lba p + lba) n buf) by (try lia; done). apply list_eq. intros i. rewrite !list_lookup_fmap.
    destruct (decide (Z.of_nat i < n)) as [Hlt|Hge]; [rewrite !lookup_seqZ_lt by lia; cbn; do 2 f_equal; lia|by rewrite !lookup_seqZ_ge by lia].
  - intros lba buf Hl. cbv zeta. set (n := Z.of_nat (length buf)). unfold blk_dev_write. cbn [mbind option_bind]. rewrite Hj. fold p. case_bool_decide as Hb.
    { subst buf. exists ANX_OK, w. split_and!; [done|cbn in *; lia|done|cbn in *; lia]. }
    assert (0 < n) as Hn by (destruct buf; [done|]; cbn in *; lia).
    unfold part_blk_write. case_bool_decide; [done|]. fold n. destruct (part_outside p lba n) eqn:Ho; unfold part_outside in Ho.
    { exists ANX_ERANGE, w. split_and!; [done|done|done|discriminate]. }
    rewrite u64_small by (unfold is_u64; lia). rewrite Hpar.
    destruct (lower_write_spec w parent x (p_start_lba p + lba) buf Hi Hin Hx) as (rc & w' & -> & _ & _ & Hout & Hok); [lia|fold n; lia|].
    exists rc, w'. split_and!; [done|lia| |].
    + intros t i Ht Hno. apply Hout; [done|]. intros [-> Hri]. apply Hno. fold n in Hri. lia.
    + intros Hrc i Hri. rewrite Hok by (try done; fold n; lia). f_equal. lia.
Qed.

(** A scan registers exactly the usable entries.  [anx_part_scan] of a device with
    a partition table leaves every device and partition there was as it is;
    every device it adds is a partition of that device made from an entry that
    starts after sector 0 and ends inside it; if it returns [m >= 0], the first
    [m] usable entries of the table all have their device, named after the
    parent and the entry, and if some usable entry is left, then the next one
    was refused because the pool or the registry is full or its name is
    taken. *)
Theorem scan_registers_usable mem w dev b x : part_reach mem w → in_slots dev →
  dev_slot (pw_reg w) dev = Some b → dev_priv b = PrivDrv (inl x) →
  let '(m, w') := anx_part_scan w (Some dev) in
  let us := List.filter (entry_usable (drv_capacity x)) (scan_table x w) in
  scanned dev us w w' ∧ Forall (entry_added dev (dev_name b) w w') (firstn (Z.to_nat m) us) ∧
  (0 ≤ m → ∀ e, us !! Z.to_nat m = Some e → scan_blocked (dev_name b) w' e).
Proof.
  intros Hr Hd Hb Hx. pose proof (reach_inv _ _ Hr) as Hi. pose proof (scan_cases w dev b x Hi Hd Hb Hx) as Hc.
  destruct (anx_part_scan w (Some dev)) as [m w']. destruct Hc as [(Hm & HP & HR & Hwhy)|(w1 & HP & HR & E)].
  - assert (∀ i, pool_at w' i = pool_at w i) as HA by (intros i; unfold pool_at; by rewrite HP).
    split_and!; [constructor; rewrite ?HR; auto| |].
    + replace (Z.to_nat m) with 0%nat by lia. constructor.
    + intros Hm0 e. destruct Hwhy as [->|Hm1]; [done|unfold ANX_ENOMEM in *; lia].
  - pose proof (scan_entries_spec dev (dev_name b) x (scan_table x w) 0 w1) as Hs. rewrite <- E, Z.sub_0_r in Hs.
    destruct Hs as (_ & Hm & [K1 K2 K3] & Hadd & Hblock); [by apply (inv_same w)|done|unfold priv_at; rewrite HR, Hb; cbn; by rewrite Hx|apply read_sane|].
    assert (∀ i, pool_at w1 i = pool_at w i) as HA by (intros i; unfold pool_at; by rewrite HP).
    rewrite HR in *. split_and!; [| |done].
    + constructor; [done| |done]. intros i Hri Hpar. rewrite <- HA in *. by apply K2.
    + eapply Forall_impl; [exact Hadd|]. intros e (s & i & Hs & Hri & Hn & Hpl & Hdev). exists s, i. rewrite HR in Hn. done.
Qed.

(** No partition outlives its device.  When a device is unregistered, its slot
    and the devices of all partitions on it are freed, no pool slot refers to
    it any more, and every other device is as it was. *)
Theorem unregister_takes_partitions mem w dev priv : part_reach mem w → in_slots dev → priv_at w dev = Some priv →
  let w' := blk_dev_unregister w (Some dev) in
  (∀ i, 0 ≤ i < 64 → p_parent (pool_at w' i) ≠ Some dev) ∧
  ∀ s, in_slots s →
    priv_at w' s = None ∧ (s = dev ∨ priv_at w s = None ∨ ∃ p, anx_part_of w s = Some p ∧ p_parent p = Some dev) ∨
    priv_at w' s = priv_at w s ∧ s ≠ dev ∧ ∀ p, anx_part_of w s = Some p → p_parent p ≠ Some dev.
Proof.
  intros Hr Hd Hp w'. pose proof (reach_inv _ _ Hr) as Hi. assert (part_inv w') as Hi' by (apply inv_unregister; [done|by intros ? [= <-]]).
  unfold blk_dev_unregister in w'. cbn [mbind option_bind] in w'. subst w'.
  rewrite Hp in *. set (w1 := if anx_part_is_partition w dev then w else anx_part_forget_children w dev) in *.
  assert (length (blk_devs (pw_reg w1)) = 32%nat) as Hl.
  { unfold w1. destruct (anx_part_is_partition w dev); [apply Hi|]. apply (forget_children_spec w dev Hi). }
  assert (forgets dev w w1 ∧ ∀ i, 0 ≤ i < 64 → p_parent (pool_at w1 i) ≠ Some dev) as [[F1 F2] F3].
  { unfold w1, anx_part_is_partition. rewrite Hp. destruct (forget_children_spec w dev Hi) as (_ & G2 & G3).
    destruct priv as [[x|j]|j]; [done| |done]. split; [apply forgets_refl|]. intros i Hri Hpar. destruct (pi_fits _ Hi i Hri dev Hpar) as (_ & x & Hx & _). congruence. }
  set (w' := w1 <| pw_reg ::= λ r, drop_slot r dev |>) in *.
  assert (∀ s, in_slots s → priv_at w' s = if decide (s = dev) then None else priv_at w1 s) as Hpv.
  { intros s Hs. unfold priv_at at 1, w'. cbn. rewrite dev_slot_drop by done. by case_decide. }
  split; [exact F3|]. intros s Hs. rewrite Hpv by done. case_decide as E; [subst; left; auto|].
  destruct (F1 s Hs) as [E1|[-> (i & Hpi & Hpar)]].
  - rewrite E1. destruct (priv_at w s) as [[[x|i]|i]|] eqn:Hps; [right; split_and!; try done; unfold anx_part_of; by rewrite Hps| | |left; auto].
    + right. split_and!; [done|done|]. unfold anx_part_of. rewrite Hps. intros p [= <-] Hpar.
      assert (priv_at w' s = Some (PrivDrv (inr i))) as Hps' by (rewrite Hpv by done; by rewrite decide_False).
      destruct (pi_device _ Hi' s i Hs Hps') as [Hri Hsome]. change (pool_at w' i) with (pool_at w1 i) in Hsome.
      destruct (F2 i Hri) as [E2|[_ E2]]; [|rewrite E2 in Hsome; by destruct Hsome]. apply (F3 i Hri). by rewrite E2.
    + right. split_and!; try done. unfold anx_part_of. by rewrite Hps.
  - left. split; [done|]. right; right. exists (pool_at w i). unfold anx_part_of. by rewrite Hpi.
Qed.
End claims.

(** ** A small machine *)

(** A disk with the default layout, registered as [nvme0], and its scan. *)
Definition with_disk (w : pworld mem_disk) (d : mem_disk) : pworld mem_disk :=
  w <| pw_reg := (anx_blk_dev_register (pw_reg w) (PrivDrv (inl d)) nvme).2 |>.

Definition w_disk : pworld mem_disk := with_disk part_boot formatted.
Definition w_scanned : pworld mem_disk := (anx_part_scan w_disk (Some 0)).2.

Lemma formatted_capacity : 0 ≤ drv_capacity formatted < 2 ^ 64.
Proof. vm_compute. split; [discriminate|reflexivity]. Qed.

Lemma w_disk_reached : part_reach [] w_disk.
Proof. apply rtc_once. apply (PAdd formatted nvme part_boot), formatted_capacity. Qed.

Lemma w_scanned_reached : part_reach [] w_scanned.
Proof.
  unfold part_reach. etransitivity; [apply w_disk_reached|]. apply rtc_once. refine (PScan (Some 0) w_disk _). intros s [= <-]. split; [lia|reflexivity].
Qed.

Definition part_at (w : pworld mem_disk) (s : Z) : anx_part := default free_part (anx_part_of w s).

Lemma partition_confined_witness :
  p_start_lba (part_at w_scanned 2) = anx_start ∧
  ∃ rc buf, blk_dev_read w_scanned (Some 2) (2 ^ 64 - 1) 2 = Ret (rc, buf) ∧ rc = ANX_ERANGE.
Proof.
  split; [vm_compute; reflexivity|].
  destruct (partition_confined [] w_scanned 2 (part_at w_scanned 2)) as (parent & x & _ & _ & _ & _ & Hread & _).
  - apply w_scanned_reached.
  - split; [lia|reflexivity].
  - vm_compute. reflexivity.
  - destruct (Hread (2 ^ 64 - 1) 2) as (rc & buf & E & Hr & _); [split; reflexivity || (vm_compute; discriminate)|split; [discriminate|reflexivity]|].
    exists rc, buf. split; [exact E|]. apply Hr; [reflexivity|]. vm_compute. reflexivity.
Defined.

Lemma scan_registers_usable_witness :
  (anx_part_scan w_disk (Some 0)).1 = 2 ∧
  Forall (entry_added 0 (nvme ++ [48]) w_disk w_scanned) (firstn 2 (List.filter (entry_usable (drv_capacity formatted)) (scan_table formatted w_disk))).
Proof.
  assert ((anx_part_scan w_disk (Some 0)).1 = 2) as E by (vm_compute; reflexivity). split; [exact E|].
  pose proof (scan_registers_usable [] w_disk 0 (BlkDev (PrivDrv (inl formatted)) (nvme ++ [48]) 0) formatted w_disk_reached) as H.
  assert (dev_slot (pw_reg w_disk) 0 = Some (BlkDev (PrivDrv (inl formatted)) (nvme ++ [48]) 0)) as Hd by (vm_compute; reflexivity).
  specialize (H (conj (Z.le_refl 0) eq_refl) Hd eq_refl). unfold w_scanned. revert E H.
  destruct (anx_part_scan w_disk (Some 0)) as [m w']. cbn [fst snd].
  intros -> (_ & H & _). exact H.
Defined.

Lemma unregister_takes_partitions_witness :
  priv_at w_scanned 1 = Some (PrivDrv (inr 0)) ∧ priv_at (blk_dev_unregister w_scanned (Some 0)) 1 = None.
Proof.
  assert (priv_at w_scanned 1 = Some (PrivDrv (inr 0))) as E by (vm_compute; reflexivity). split; [exact E|].
  destruct (unregister_takes_partitions [] w_scanned 0 (PrivDrv (inl formatted))) as [_ H].
  - apply w_scanned_reached.
  - split; [lia|reflexivity].
  - vm_compute. reflexivity.
  - destruct (H 1) as [[H1 _]|(_ & _ & H1)]; [split; [lia|reflexivity]|exact H1|].
    exfalso. apply (H1 (part_at w_scanned 1)); vm_compute; reflexivity.
Defined.

(** [anx_part_scan_all] takes the number of devices first and then walks them by
    position.  When a slot in front of a drive is free, the partitions of an
    earlier drive fill it and push the drive past the end of the walk: with
    drives in slots 0 and 2, the second one is never scanned, although a scan of
    it would find its two partitions. *)
Definition w_hole : pworld mem_disk := blk_dev_unregister (with_disk (with_disk w_disk formatted) formatted) (Some 1).

Theorem scan_all_skips_drive :
  priv_at w_hole 2 = Some (PrivDrv (inl formatted)) ∧ (anx_part_scan w_hole (Some 2)).1 = 2 ∧
  p_parent <$> part_pool (anx_part_scan_all w_hole) = [Some 0; Some 0] ++ replicate 62 None.
Proof. split_and!; vm_compute; reflexivity. Qed.

(** Two digits are not enough for the 128 entries of a table: entry 110 gets the
    name of entry 10, and a scan stops there. *)
Theorem part_names_collide : part_name nvme 110 = part_name nvme 10.
Proof. reflexivity. Qed.
