(* ===== verification/Workflow.v ===== *)
(** * Workflow objects: [kernel/core/workflow/workflow_object.c],
    [workflow_validate.c], [topology.c], [kernel/include/anx/workflow.h]

    A workflow is a graph of nodes and edges in fixed arrays.  An array is a
    list; a list shorter than the C array stands for an array whose rest is
    zero, as a static initialiser leaves it, and reading behind the list reads
    zero.  The parameter union of a node is its bytes, and a member of it the
    bytes at the member's offset.  A pointer to a workflow is its index in the
    registry; a [NULL] array is [[]].  Names of workflows are strings without
    their terminator.  The optional reuse and semantic guards of a workflow are
    not bound, so their checks succeed. *)

From stdpp Require Import strings.
From S2P Require Import Prelude Uuid Cell CellStore Meta StateObject Resolve Blk MdSuper.
#[local] Open Scope Z_scope.

Definition ANX_WF_MAX_NODES : Z := 64.
Definition ANX_WF_MAX_EDGES : Z := 128.
Definition ANX_WF_MAX_PORTS : Z := 8.
Definition ANX_WF_NAME_MAX : nat := 64.
Definition ANX_WF_LABEL_MAX : Z := 64.
Definition ANX_WF_EXPR_MAX : Z := 128.
Definition ANX_WF_MAX_WFS : Z := 16.
Definition ANX_WF_TOPOLOGY_REVISIONS_MAX : Z := 8.

Definition u16 (z : Z) : Z := z mod 2 ^ 16.

(** ** Nodes, ports, edges *)

Definition ANX_WF_NODE_TRIGGER : Z := 0.
Definition ANX_WF_NODE_STATE_REF : Z := 1.
Definition ANX_WF_NODE_CELL_CALL : Z := 2.
Definition ANX_WF_NODE_MODEL_CALL : Z := 3.
Definition ANX_WF_NODE_AGENT_CALL : Z := 4.
Definition ANX_WF_NODE_RETRIEVAL : Z := 5.
Definition ANX_WF_NODE_CONDITION : Z := 6.
Definition ANX_WF_NODE_FAN_OUT : Z := 7.
Definition ANX_WF_NODE_FAN_IN : Z := 8.
Definition ANX_WF_NODE_TRANSFORM : Z := 9.
Definition ANX_WF_NODE_HUMAN_REVIEW : Z := 10.
Definition ANX_WF_NODE_SUBFLOW : Z := 11.
Definition ANX_WF_NODE_OUTPUT : Z := 12.
Definition ANX_WF_NODE_CAP_PROMOTION : Z := 13.
Definition ANX_WF_NODE_KIND_COUNT : Z := 14.

Definition ANX_WF_PORT_IN : Z := 0.
Definition ANX_WF_PORT_OUT : Z := 1.

Record anx_wf_port := WfPort { pt_name : list Z; pt_dir : Z; pt_type_tag : Z; pt_required : bool }.

Record anx_wf_node := WfNode {
  n_id : Z;
  n_kind : Z;
  n_label : list Z;
  n_params : list Z;
  n_canvas_x : Z;
  n_canvas_y : Z;
  n_canvas_w : Z;
  n_canvas_h : Z;
  n_port_count : Z;
  n_ports : list anx_wf_port;
}.
#[export] Instance settable_wf_node : Settable anx_wf_node :=
  λ r, WfNode (n_id r) (n_kind r) (n_label r) (n_params r) (n_canvas_x r) (n_canvas_y r) (n_canvas_w r) (n_canvas_h r)
         (n_port_count r) (n_ports r).

Record anx_wf_edge := WfEdge { from_node : Z; from_port : Z; to_node : Z; to_port : Z }.

#[export] Instance anx_wf_edge_eq_dec : EqDecision anx_wf_edge.
Proof. solve_decision. Defined.

Definition zero_port : anx_wf_port := WfPort [] 0 0 false.
Definition zero_node : anx_wf_node := WfNode 0 0 [] [] 0 0 0 0 0 [].
Definition zero_edge : anx_wf_edge := WfEdge 0 0 0 0.

Definition node_at (nodes : list anx_wf_node) (i : Z) : anx_wf_node := rd zero_node nodes i.
Definition edge_at (edges : list anx_wf_edge) (i : Z) : anx_wf_edge := rd zero_edge edges i.
Definition port_at (node : anx_wf_node) (p : Z) : anx_wf_port := rd zero_port (n_ports node) p.

(** [!e->from_node && !e->to_node]: the slot is unused. *)
Definition edge_unused (e : anx_wf_edge) : bool := (from_node e =? 0) && (to_node e =? 0).

(** The first [i < n] with [p i]: a search loop that breaks. *)
Definition first_index (p : Z → bool) (n : Z) : option Z := List.find p (seqZ 0 n).

(** ** Workflow objects *)

Definition ANX_WF_RUN_IDLE : Z := 0.
Definition ANX_WF_RUN_RUNNING : Z := 1.
Definition ANX_WF_RUN_WAITING_HUMAN : Z := 2.
Definition ANX_WF_RUN_SUSPENDED : Z := 3.
Definition ANX_WF_RUN_COMPLETED : Z := 4.
Definition ANX_WF_RUN_FAILED : Z := 5.

Record anx_wf_topology_control := Topology {
  tp_enabled : bool;
  tp_can_rollback : bool;
  tp_limit : Z;
  tp_accepted : Z;
  tp_epoch : Z;
  tp_trace_epoch : Z;
  tp_evidence_oid : anx_uuid;
  tp_previous_count : Z;
  tp_previous : list anx_wf_edge;
}.
#[export] Instance settable_topology : Settable anx_wf_topology_control :=
  λ r, Topology (tp_enabled r) (tp_can_rollback r) (tp_limit r) (tp_accepted r) (tp_epoch r) (tp_trace_epoch r)
         (tp_evidence_oid r) (tp_previous_count r) (tp_previous r).

Record anx_wf_trace_entry := TraceEntry {
  te_node_id : Z;
  te_node_kind : Z;
  te_cell_cid : anx_uuid;
  te_trace_oid : anx_uuid;
  te_result : Z;
  te_started_at : Z;
  te_completed_at : Z;
}.

Record anx_wf_continuation := WfContinuation {
  wc_failed_node_id : Z;
  wc_error_code : Z;
  wc_error_msg : list Z;
  wc_in_deg : list Z;
  wc_completed : list bool;
  wc_port_oid : list (list anx_uuid);
}.

Record anx_wf_policy := WfPolicy {
  max_parallel : Z;
  timeout_ms : Z;
  auto_retry : bool;
  max_retries : Z;
  allow_capability_install : bool;
}.

(** [w_trace_entries]: the entries recorded so far, [None] without a table.
    [w_output_oids] and [w_cache_live_oids] are the used parts of their
    arrays. *)
Record anx_wf_object := WfObject {
  w_in_use : bool;
  w_oid : anx_uuid;
  w_name : list Z;
  w_description : list Z;
  w_node_count : Z;
  w_edge_count : Z;
  w_nodes : list anx_wf_node;
  w_edges : list anx_wf_edge;
  w_topology : anx_wf_topology_control;
  w_checkpoint_oid : anx_uuid;
  w_checkpoint_consumed : bool;
  w_run_state : Z;
  w_last_run : Z;
  w_last_status : Z;
  w_policy : anx_wf_policy;
  w_computed_cap : Z;
  w_continuation : option anx_wf_continuation;
  w_trace_entries : option (list anx_wf_trace_entry);
  w_trace_oid : anx_uuid;
  w_output_oids : list anx_uuid;
  w_cache_live_oids : list anx_uuid;
  w_cache_liveness_unknown : bool;
}.
#[export] Instance settable_wf_object : Settable anx_wf_object :=
  λ r, WfObject (w_in_use r) (w_oid r) (w_name r) (w_description r) (w_node_count r) (w_edge_count r) (w_nodes r) (w_edges r)
         (w_topology r) (w_checkpoint_oid r) (w_checkpoint_consumed r) (w_run_state r) (w_last_run r) (w_last_status r)
         (w_policy r) (w_computed_cap r) (w_continuation r) (w_trace_entries r) (w_trace_oid r) (w_output_oids r)
         (w_cache_live_oids r) (w_cache_liveness_unknown r).

Definition zero_topology : anx_wf_topology_control := Topology false false 0 0 0 0 ANX_UUID_NIL 0 [].
Definition zero_wf : anx_wf_object :=
  WfObject false ANX_UUID_NIL [] [] 0 0 [] [] zero_topology ANX_UUID_NIL false ANX_WF_RUN_IDLE 0 0 (WfPolicy 0 0 false 0 false) 0
    None None ANX_UUID_NIL [] [] false.

(** ** The registry *)

Record wf_registry := WfRegistry {
  wf_table : list anx_wf_object;
  wf_count : Z;
  wf_initialized : bool;
  wf_oid_seq : Z;
}.

Definition wf_at (G : wf_registry) (i : Z) : anx_wf_object := rd zero_wf (wf_table G) i.
Definition wf_put (G : wf_registry) (i : Z) (wf : anx_wf_object) : wf_registry :=
  WfRegistry (wr (wf_table G) i wf) (wf_count G) (wf_initialized G) (wf_oid_seq G).

(** The id, and the new counter. *)
Definition wf_oid_generate (seq : Z) : anx_uuid * Z := (Uuid 0x414e5857464c4f57 (u64 (seq + 1)), u64 (seq + 1)).

Definition wf_oid_eq (a b : anx_uuid) : bool := (hi a =? hi b) && (lo a =? lo b).

Definition wf_live (wf : anx_wf_object) : bool :=
  (w_run_state wf =? ANX_WF_RUN_RUNNING) || (w_run_state wf =? ANX_WF_RUN_SUSPENDED) || (w_run_state wf =? ANX_WF_RUN_WAITING_HUMAN).

(** Without semantic guards. *)
Definition anx_wf_cache_needed (G : wf_registry) (oidp : option anx_uuid) : bool :=
  match oidp with
  | None => false
  | Some oid =>
      when (hi oid =? 0) && (lo oid =? 0) ret false ;;
      existsb (λ wf, w_in_use wf && wf_live wf
                     && (w_cache_liveness_unknown wf || (Z.of_nat (length (w_cache_live_oids wf)) >? ANX_WF_MAX_EDGES)
                         || existsb (wf_oid_eq oid) (w_cache_live_oids wf)))
              (wf_at G <$> seqZ 0 ANX_WF_MAX_WFS)
  end.

Definition anx_wf_init : wf_registry := WfRegistry (replicate 16 zero_wf) 0 true 0.

Definition anx_wf_object_get (G : wf_registry) (oidp : option anx_uuid) : option Z :=
  match oidp with
  | None => None
  | Some oid =>
      when negb (wf_initialized G) ret None ;;
      first_index (λ i, w_in_use (wf_at G i) && wf_oid_eq (w_oid (wf_at G i)) oid) ANX_WF_MAX_WFS
  end.

(** ** The concurrency cap *)

Definition ANX_ACCEL_GPU : Z := 1.
Definition ANX_ACCEL_NPU : Z := 2.

(** The processors of the machine and the types of its accelerators. *)
Record anx_hw_inventory := HwInventory { cpu_count : Z; accel_types : list Z }.

Definition anx_wf_cap_compute (hw : option anx_hw_inventory) (policy : option anx_wf_policy) : Z :=
  let hw_cap :=
    match hw with
    | None => 2
    | Some hw =>
        if cpu_count hw =? 0 then 2
        else
          let hw_cap := cpu_count hw / 2 in
          let hw_cap := if hw_cap <? 1 then 1 else hw_cap in
          foldl (λ cap t, if (t =? ANX_ACCEL_GPU) || (t =? ANX_ACCEL_NPU) then u32 (cap + 2) else cap) hw_cap (accel_types hw)
    end in
  let hw_cap := if hw_cap >? ANX_WF_MAX_NODES then ANX_WF_MAX_NODES else hw_cap in
  match policy with
  | Some p => if (max_parallel p >? 0) && (max_parallel p <? hw_cap) then max_parallel p else hw_cap
  | None => hw_cap
  end.

(** ** Creation and destruction *)

(** The slot as [anx_wf_create] fills it. *)
Definition new_wf (wf : anx_wf_object) (hw : option anx_hw_inventory) (oid : anx_uuid) (name : list Z)
    (description : option (list Z)) : anx_wf_object :=
  let policy := WfPolicy 0 0 false 0 false in
  wf <| w_nodes := replicate 64 zero_node |> <| w_edges := replicate 128 zero_edge |>
     <| w_in_use := true |> <| w_oid := oid |> <| w_name := anx_strlcpy name ANX_WF_NAME_MAX |>
     <| w_description := match description with Some d => anx_strlcpy d 256 | None => [] end |>
     <| w_node_count := 0 |> <| w_edge_count := 0 |> <| w_run_state := ANX_WF_RUN_IDLE |> <| w_policy := policy |>
     <| w_computed_cap := anx_wf_cap_compute hw (Some policy) |> <| w_continuation := None |> <| w_trace_entries := None |>
     <| w_output_oids := [] |> <| w_cache_live_oids := [] |> <| w_cache_liveness_unknown := false |>.

Definition anx_wf_create (hw : option anx_hw_inventory) (mem : list bool) (G : wf_registry) (namep description : option (list Z))
    (out : bool) : Z * option anx_uuid * wf_registry :=
  match namep with
  | None => (ANX_EINVAL, None, G)
  | Some name =>
      when bool_decide (name = []) || negb out ret (ANX_EINVAL, None, G) ;;
      when wf_count G >=? ANX_WF_MAX_WFS ret (ANX_ENOMEM, None, G) ;;
      when existsb (λ i, w_in_use (wf_at G i) && (anx_strncmp (w_name (wf_at G i)) name ANX_WF_NAME_MAX =? 0)) (seqZ 0 ANX_WF_MAX_WFS)
        ret (ANX_EEXIST, None, G) ;;
      match first_index (λ i, negb (w_in_use (wf_at G i))) ANX_WF_MAX_WFS with
      | None => (ANX_ENOMEM, None, G)
      | Some i =>
          let '(ok, mem) := next_alloc mem in
          when negb ok ret (ANX_ENOMEM, None, G) ;;
          let '(ok, mem) := next_alloc mem in
          when negb ok ret (ANX_ENOMEM, None, G) ;;
          let '(oid, seq) := wf_oid_generate (wf_oid_seq G) in
          (ANX_OK, Some oid,
           WfRegistry (wr (wf_table G) i (new_wf (wf_at G i) hw oid name description)) (u32 (wf_count G + 1)) (wf_initialized G) seq)
      end
  end.

Definition anx_wf_destroy (G : wf_registry) (oidp : option anx_uuid) : Z * wf_registry :=
  match anx_wf_object_get G oidp with
  | None => (ANX_ENOENT, G)
  | Some i =>
      when w_run_state (wf_at G i) =? ANX_WF_RUN_RUNNING ret (ANX_EBUSY, G) ;;
      (ANX_OK, WfRegistry (wr (wf_table G) i zero_wf) (u32 (wf_count G - 1)) (wf_initialized G) (wf_oid_seq G))
  end.

(** ** Editing the graph *)

(** The tests every editing call starts with. *)
Definition editable (G : wf_registry) (oidp : option anx_uuid) : Z + Z :=
  match anx_wf_object_get G oidp with
  | None => inl ANX_ENOENT
  | Some i =>
      when wf_live (wf_at G i) ret inl ANX_EBUSY ;;
      when tp_enabled (w_topology (wf_at G i)) ret inl ANX_EPERM ;;
      inr i
  end.

Definition anx_wf_node_add (G : wf_registry) (oidp : option anx_uuid) (specp : option anx_wf_node) (out : bool)
    : Z * option Z * wf_registry :=
  match editable G oidp with
  | inl r => (r, None, G)
  | inr w =>
      let wf := wf_at G w in
      match specp with
      | None => (ANX_EINVAL, None, G)
      | Some spec =>
          when negb out ret (ANX_EINVAL, None, G) ;;
          when w_node_count wf >=? ANX_WF_MAX_NODES ret (ANX_ENOMEM, None, G) ;;
          match first_index (λ i, n_id (node_at (w_nodes wf) i) =? 0) ANX_WF_MAX_NODES with
          | None => (ANX_ENOMEM, None, G)
          | Some i =>
              let id := u16 (i + 1) in
              (ANX_OK, Some id,
               wf_put G w (wf <| w_nodes := wr (w_nodes wf) i (spec <| n_id := id |>) |> <| w_node_count := u16 (w_node_count wf + 1) |>))
          end
      end
  end.

Definition touches (node_id : Z) (e : anx_wf_edge) : bool := (from_node e =? node_id) || (to_node e =? node_id).

Definition anx_wf_node_remove (G : wf_registry) (oidp : option anx_uuid) (node_id : Z) : Z * wf_registry :=
  match editable G oidp with
  | inl r => (r, G)
  | inr w =>
      let wf := wf_at G w in
      match first_index (λ i, n_id (node_at (w_nodes wf) i) =? node_id) ANX_WF_MAX_NODES with
      | None => (ANX_ENOENT, G)
      | Some i =>
          let gone := length (List.filter (touches node_id) (w_edges wf)) in
          (ANX_OK,
           wf_put G w
             (wf <| w_nodes := wr (w_nodes wf) i zero_node |> <| w_node_count := u16 (w_node_count wf - 1) |>
                 <| w_edges := (λ e, if touches node_id e then zero_edge else e) <$> w_edges wf |>
                 <| w_edge_count := u16 (w_edge_count wf - Z.of_nat gone) |>))
      end
  end.

Definition anx_wf_edge_add (G : wf_registry) (oidp : option anx_uuid) (from fport to tport : Z) : Z * wf_registry :=
  match editable G oidp with
  | inl r => (r, G)
  | inr w =>
      let wf := wf_at G w in
      when w_edge_count wf >=? ANX_WF_MAX_EDGES ret (ANX_ENOMEM, G) ;;
      when from =? to ret (ANX_EINVAL, G) ;;
      match first_index (λ i, edge_unused (edge_at (w_edges wf) i)) ANX_WF_MAX_EDGES with
      | None => (ANX_ENOMEM, G)
      | Some i =>
          (ANX_OK, wf_put G w (wf <| w_edges := wr (w_edges wf) i (WfEdge from fport to tport) |>
                                  <| w_edge_count := u16 (w_edge_count wf + 1) |>))
      end
  end.

Definition anx_wf_edge_remove (G : wf_registry) (oidp : option anx_uuid) (from fport to tport : Z) : Z * wf_registry :=
  match editable G oidp with
  | inl r => (r, G)
  | inr w =>
      let wf := wf_at G w in
      match first_index (λ i, bool_decide (edge_at (w_edges wf) i = WfEdge from fport to tport)) ANX_WF_MAX_EDGES with
      | None => (ANX_ENOENT, G)
      | Some i =>
          (ANX_OK, wf_put G w (wf <| w_edges := wr (w_edges wf) i zero_edge |> <| w_edge_count := u16 (w_edge_count wf - 1) |>))
      end
  end.

(** ** Queries *)

Definition anx_wf_list (G : wf_registry) (max : Z) : list anx_uuid :=
  take (Z.to_nat max) (w_oid <$> List.filter w_in_use (wf_at G <$> seqZ 0 ANX_WF_MAX_WFS)).

Definition anx_wf_run_state_get (G : wf_registry) (oidp : option anx_uuid) (out : bool) : Z * option Z :=
  match anx_wf_object_get G oidp with
  | None => (ANX_ENOENT, None)
  | Some i => when negb out ret (ANX_EINVAL, None) ;; (ANX_OK, Some (w_run_state (wf_at G i)))
  end.

Definition anx_wf_continuation_get (G : wf_registry) (oidp : option anx_uuid) : option anx_wf_continuation :=
  match anx_wf_object_get G oidp with
  | None => None
  | Some i => when negb (w_run_state (wf_at G i) =? ANX_WF_RUN_SUSPENDED) ret None ;; w_continuation (wf_at G i)
  end.

(** ** Templates and their validation *)

Definition ANX_WF_LIB_URI_MAX : Z := 128.
Definition ANX_WF_LIB_TAG_MAX : Z := 32.
Definition ANX_WF_LIB_TAGS : Z := 8.

Record anx_wf_template := WfTemplate {
  tm_uri : list Z;
  tm_display_name : list Z;
  tm_description : list Z;
  tm_tags : list (list Z);
  tm_tag_count : Z;
  tm_nodes : list anx_wf_node;
  tm_node_count : Z;
  tm_edges : list anx_wf_edge;
  tm_edge_count : Z;
}.

(** A terminator among the [size] characters. *)
Definition terminated (text : list Z) (size : Z) : bool := existsb (λ i, rd 0 text i =? 0) (seqZ 0 size).

(** The member of the parameter union at [offset]. *)
Definition member (node : anx_wf_node) (offset : nat) : list Z := skipn offset (n_params node).

Definition node_strings_valid (node : anx_wf_node) : bool :=
  when negb (terminated (n_label node) ANX_WF_LABEL_MAX) ret false ;;
  let kind := n_kind node in
  when kind =? ANX_WF_NODE_TRIGGER ret terminated (member node 0) 64 ;;
  when kind =? ANX_WF_NODE_CELL_CALL ret terminated (member node 0) ANX_WF_EXPR_MAX ;;
  when kind =? ANX_WF_NODE_MODEL_CALL ret terminated (member node 0) 64 && terminated (member node 64) ANX_WF_EXPR_MAX ;;
  when kind =? ANX_WF_NODE_AGENT_CALL ret terminated (member node 0) ANX_WF_EXPR_MAX ;;
  when kind =? ANX_WF_NODE_RETRIEVAL ret terminated (member node 0) ANX_WF_EXPR_MAX ;;
  when kind =? ANX_WF_NODE_CONDITION ret terminated (member node 0) ANX_WF_EXPR_MAX ;;
  when kind =? ANX_WF_NODE_TRANSFORM ret terminated (member node 0) 32 && terminated (member node 32) ANX_WF_EXPR_MAX ;;
  when kind =? ANX_WF_NODE_OUTPUT ret terminated (member node 0) 64 ;;
  true.

Definition port_dir_ok (port : anx_wf_port) : bool := (pt_dir port =? ANX_WF_PORT_IN) || (pt_dir port =? ANX_WF_PORT_OUT).

Definition kind_ok (node : anx_wf_node) : bool := (0 <=? n_kind node) && (n_kind node <? ANX_WF_NODE_KIND_COUNT).

(** The body of the loop over the nodes of a template. *)
Definition template_node_ok (node : anx_wf_node) (i : Z) : bool :=
  (n_id node =? i + 1) && kind_ok node && (n_port_count node <=? ANX_WF_MAX_PORTS) && node_strings_valid node
  && forallb (λ j, terminated (pt_name (port_at node j)) 32 && port_dir_ok (port_at node j)
                   && (pt_type_tag (port_at node j) <=? 3)) (seqZ 0 (n_port_count node))
  && negb ((n_kind node =? ANX_WF_NODE_CAP_PROMOTION)
           && (negb (n_port_count node =? 2) || negb (pt_dir (port_at node 0) =? ANX_WF_PORT_IN)
               || negb (pt_dir (port_at node 1) =? ANX_WF_PORT_OUT))).

(** The ports an edge joins: an output to an input, of types that agree. *)
Definition ports_fit (from to : anx_wf_node) (e : anx_wf_edge) : bool :=
  (from_port e <? n_port_count from) && (to_port e <? n_port_count to)
  && (pt_dir (port_at from (from_port e)) =? ANX_WF_PORT_OUT) && (pt_dir (port_at to (to_port e)) =? ANX_WF_PORT_IN)
  && ((pt_type_tag (port_at from (from_port e)) =? 0) || (pt_type_tag (port_at to (to_port e)) =? 0)
      || (pt_type_tag (port_at from (from_port e)) =? pt_type_tag (port_at to (to_port e)))).

Definition template_edge_ok (tmpl : anx_wf_template) (i : Z) : bool :=
  let e := edge_at (tm_edges tmpl) i in
  negb (from_node e =? 0) && negb (to_node e =? 0) && (from_node e <=? tm_node_count tmpl) && (to_node e <=? tm_node_count tmpl)
  && negb (from_node e =? to_node e)
  && ports_fit (node_at (tm_nodes tmpl) (from_node e - 1)) (node_at (tm_nodes tmpl) (to_node e - 1)) e
  && forallb (λ j, negb ((to_node (edge_at (tm_edges tmpl) j) =? to_node e) && (to_port (edge_at (tm_edges tmpl) j) =? to_port e)))
       (seqZ 0 i).

(** [indegree[edge->to_node - 1]++] for the edges in turn; [wrap] is the width
    of the counters. *)
Definition indegrees (wrap : Z → Z) (edges : list anx_wf_edge) : list Z :=
  foldl (λ deg e, wr deg (to_node e - 1) (wrap (rd 0 deg (to_node e - 1) + 1))) (replicate 64 0) edges.

(** [indegree[edge->to_node - 1]--] for the edges that leave node [i + 1]. *)
Definition release_successors (wrap : Z → Z) (edges : list anx_wf_edge) (i : Z) (deg : list Z) : list Z :=
  foldl (λ deg e, if from_node e =? i + 1 then wr deg (to_node e - 1) (wrap (rd 0 deg (to_node e - 1) - 1)) else deg) deg edges.

(** [steps] turns of Kahn's algorithm over the slots [slots]; whether each turn
    found a node that waits for no other. *)
Fixpoint kahn (wrap : Z → Z) (edges : list anx_wf_edge) (slots : list Z) (steps : nat) (deg : list Z) (visited : list bool) : bool :=
  match steps with
  | O => true
  | S steps =>
      match List.find (λ i, negb (rd false visited i) && (rd 0 deg i =? 0)) slots with
      | None => false
      | Some i => kahn wrap edges slots steps (release_successors wrap edges i deg) (wr visited i true)
      end
  end.

Definition anx_wf_template_validate (tmplp : option anx_wf_template) : Z :=
  match tmplp with
  | None => ANX_EINVAL
  | Some tmpl =>
      when (tm_node_count tmpl =? 0) || (tm_node_count tmpl >? ANX_WF_MAX_NODES) || (tm_edge_count tmpl >? ANX_WF_MAX_EDGES)
           || (tm_tag_count tmpl >? ANX_WF_LIB_TAGS) ret ANX_EINVAL ;;
      when (rd 0 (tm_uri tmpl) 0 =? 0) || negb (terminated (tm_uri tmpl) ANX_WF_LIB_URI_MAX)
           || negb (terminated (tm_display_name tmpl) 64) || negb (terminated (tm_description tmpl) 256) ret ANX_EINVAL ;;
      when negb (forallb (λ i, terminated (rd [] (tm_tags tmpl) i) ANX_WF_LIB_TAG_MAX) (seqZ 0 (tm_tag_count tmpl)))
        ret ANX_EINVAL ;;
      when negb (forallb (λ i, template_node_ok (node_at (tm_nodes tmpl) i) i) (seqZ 0 (tm_node_count tmpl))) ret ANX_EINVAL ;;
      when negb (forallb (template_edge_ok tmpl) (seqZ 0 (tm_edge_count tmpl))) ret ANX_EINVAL ;;
      let edges := edge_at (tm_edges tmpl) <$> seqZ 0 (tm_edge_count tmpl) in
      when negb (kahn u16 edges (seqZ 0 (tm_node_count tmpl)) (Z.to_nat (tm_node_count tmpl)) (indegrees u16 edges) (replicate 64 false))
        ret ANX_EINVAL ;;
      ANX_OK
  end.

(** ** Topology control *)

Definition graph_node_ok (node : anx_wf_node) (i : Z) : bool :=
  (n_id node =? i + 1) && kind_ok node && (n_port_count node <=? ANX_WF_MAX_PORTS)
  && forallb (λ p, port_dir_ok (port_at node p) && (pt_type_tag (port_at node p) <=? 3)) (seqZ 0 (n_port_count node)).

Definition graph_edge_ok (nodes : list anx_wf_node) (edges : list anx_wf_edge) (i : Z) : bool :=
  let e := edge_at edges i in
  negb (from_node e =? 0) && negb (to_node e =? 0) && (from_node e <=? ANX_WF_MAX_NODES) && (to_node e <=? ANX_WF_MAX_NODES)
  && negb (from_node e =? to_node e)
  && negb (n_id (node_at nodes (from_node e - 1)) =? 0) && negb (n_id (node_at nodes (to_node e - 1)) =? 0)
  && ports_fit (node_at nodes (from_node e - 1)) (node_at nodes (to_node e - 1)) e
  && forallb (λ j, negb (bool_decide (edge_at edges j = e))) (seqZ 0 i).

(** The occupied node slots and the used edge slots. *)
Definition live_slots (nodes : list anx_wf_node) : list Z := List.filter (λ i, negb (n_id (node_at nodes i) =? 0)) (seqZ 0 ANX_WF_MAX_NODES).
Definition used_edges (edges : list anx_wf_edge) : list Z := List.filter (λ i, negb (edge_unused (edge_at edges i))) (seqZ 0 ANX_WF_MAX_EDGES).
Definition graph_edges (edges : list anx_wf_edge) : list anx_wf_edge := edge_at edges <$> used_edges edges.

Definition validate_graph (wf : anx_wf_object) (edges : list anx_wf_edge) (count : Z) : Z :=
  let nodes := w_nodes wf in
  when bool_decide (nodes = []) || bool_decide (edges = []) || (w_node_count wf =? 0) || (w_node_count wf >? ANX_WF_MAX_NODES)
       || (count >? ANX_WF_MAX_EDGES) ret ANX_EINVAL ;;
  let live := live_slots nodes in
  when negb (forallb (λ i, graph_node_ok (node_at nodes i) i) live) ret ANX_EINVAL ;;
  when negb (Z.of_nat (length live) =? w_node_count wf) ret ANX_EINVAL ;;
  when negb (forallb (graph_edge_ok nodes edges) (used_edges edges)) ret ANX_EINVAL ;;
  when negb (Z.of_nat (length (used_edges edges)) =? count) ret ANX_EINVAL ;;
  when negb (kahn u32 (graph_edges edges) live (length live) (indegrees u32 (graph_edges edges)) (replicate 64 false)) ret ANX_EINVAL ;;
  ANX_OK.

(** *** Run evidence *)

Definition ANX_OBJ_EXECUTION_TRACE : Z := 5.
Definition TRACE_ENTRY_SIZE : Z := 64.

(** [sizeof(struct anx_wf_trace_entry)] bytes; the bytes between the fields,
    which nothing reads, are zero. *)
Definition entry_bytes (e : anx_wf_trace_entry) : list Z :=
  le 2 (te_node_id e) ++ le 1 (te_node_kind e) ++ replicate 5 0 ++ le 8 (hi (te_cell_cid e)) ++ le 8 (lo (te_cell_cid e))
  ++ le 8 (hi (te_trace_oid e)) ++ le 8 (lo (te_trace_oid e)) ++ le 4 (u32 (te_result e)) ++ replicate 4 0
  ++ le 8 (te_started_at e) ++ le 8 (te_completed_at e).

(** [entries[i].node_id], [.node_kind] and [.result] of a payload. *)
Definition payload_field (payload : list Z) (i : Z) (offset width : nat) : Z :=
  le_val (firstn width (skipn (Z.to_nat (i * TRACE_ENTRY_SIZE) + offset) payload)).
Definition payload_node_id (payload : list Z) (i : Z) : Z := u16 (payload_field payload i 0 2).
Definition payload_node_kind (payload : list Z) (i : Z) : Z := payload_field payload i 2 1 mod 256.
Definition payload_result (payload : list Z) (i : Z) : Z := i32 (payload_field payload i 40 4).

(** The position table after the entries [idxs], or [None] when an entry is
    refused. *)
Fixpoint trace_positions (nodes : list anx_wf_node) (payload : list Z) (idxs : list Z) (position : list Z) : option (list Z) :=
  match idxs with
  | [] => Some position
  | i :: idxs =>
      let id := payload_node_id payload i in
      when (id =? 0) || (id >? ANX_WF_MAX_NODES) || negb (rd 0 position (id - 1) =? 0)
           || negb (n_id (node_at nodes (id - 1)) =? id) || negb (payload_node_kind payload i =? n_kind (node_at nodes (id - 1)))
           || negb (payload_result payload i =? ANX_OK) ret None ;;
      trace_positions nodes payload idxs (wr position (id - 1) (i + 1))
  end.

(** An edge whose source is recorded before its target. *)
Definition edge_in_order (position : list Z) (e : anx_wf_edge) : bool :=
  (from_node e =? 0)
  || (negb (rd 0 position (from_node e - 1) =? 0) && (rd 0 position (from_node e - 1) <? rd 0 position (to_node e - 1))).

(** What the trace object must hold. *)
Definition trace_proves (wf : anx_wf_object) (obj : anx_state_object) : bool :=
  match so_payload obj with
  | None => false
  | Some payload =>
      (so_state obj =? ANX_OBJ_SEALED) && (so_object_type obj =? ANX_OBJ_EXECUTION_TRACE)
      && (so_payload_size obj =? w_node_count wf * TRACE_ENTRY_SIZE)
      && match trace_positions (w_nodes wf) payload (seqZ 0 (w_node_count wf)) (replicate 64 0) with
         | None => false
         | Some position => forallb (λ i, edge_in_order position (edge_at (w_edges wf) i)) (seqZ 0 ANX_WF_MAX_EDGES)
         end
  end.

Definition check_run_evidence (current : option anx_uuid) (wf : anx_wf_object) (W : objstore) : Z * objstore :=
  when negb (w_run_state wf =? ANX_WF_RUN_COMPLETED) || negb (tp_trace_epoch (w_topology wf) =? tp_epoch (w_topology wf))
    ret (ANX_EPERM, W) ;;
  let r := validate_graph wf (w_edges wf) (w_edge_count wf) in
  when negb (r =? ANX_OK) ret (r, W) ;;
  let '(r, h, W) := anx_so_open current (Some (w_trace_oid wf)) ANX_OPEN_READ (Some (Handle None 0 0)) W in
  when negb (r =? ANX_OK) ret (r, W) ;;
  let proves := match (h ≫= h_obj) ≫= (λ a, so_heap W !! a) with Some obj => trace_proves wf obj | None => false end in
  let '(_, W) := anx_so_close h W in
  (if proves then ANX_OK else ANX_EPERM, W).

(** [current]: the cell that runs. *)
Definition controllable (current : option anx_uuid) (G : wf_registry) (oidp : option anx_uuid) : Z + Z :=
  when bool_decide (is_Some current) ret inl ANX_EPERM ;;
  when bool_decide (oidp = None) ret inl ANX_EINVAL ;;
  match anx_wf_object_get G oidp with
  | None => inl ANX_ENOENT
  | Some i => when wf_live (wf_at G i) ret inl ANX_EBUSY ;; inr i
  end.

Definition require_new_run (wf : anx_wf_object) : anx_wf_object :=
  wf <| w_run_state := ANX_WF_RUN_IDLE |> <| w_topology ::= λ t, t <| tp_trace_epoch := 0 |> |> <| w_output_oids := [] |>.

Definition anx_wf_topology_enable (current : option anx_uuid) (G : wf_registry) (oidp : option anx_uuid) (revision_limit : Z)
    : Z * wf_registry :=
  match controllable current G oidp with
  | inl r => (r, G)
  | inr w =>
      let wf := wf_at G w in
      when (revision_limit =? 0) || (revision_limit >? ANX_WF_TOPOLOGY_REVISIONS_MAX) ret (ANX_EINVAL, G) ;;
      when tp_enabled (w_topology wf) ret (ANX_EBUSY, G) ;;
      let r := validate_graph wf (w_edges wf) (w_edge_count wf) in
      when negb (r =? ANX_OK) ret (r, G) ;;
      (ANX_OK, wf_put G w (wf <| w_topology ::= λ t, t <| tp_enabled := true |> <| tp_limit := revision_limit |> <| tp_epoch := 1 |> |>))
  end.

(** [candidate]: the [count] edges at [edges] in a zeroed array. *)
Definition candidate_edges (edges : option (list anx_wf_edge)) (count : Z) : list anx_wf_edge :=
  edge_at (take (Z.to_nat count) (default [] edges)) <$> seqZ 0 ANX_WF_MAX_EDGES.

Definition anx_wf_topology_revise (current : option anx_uuid) (G : wf_registry) (W : objstore) (oidp : option anx_uuid)
    (expected_epoch : Z) (edges : option (list anx_wf_edge)) (count : Z) : Z * wf_registry * objstore :=
  match controllable current G oidp with
  | inl r => (r, G, W)
  | inr w =>
      let wf := wf_at G w in
      let t := w_topology wf in
      when negb (tp_enabled t) ret (ANX_EPERM, G, W) ;;
      when (expected_epoch =? 0) || negb (expected_epoch =? tp_epoch t) ret (ANX_EBUSY, G, W) ;;
      when (count >? ANX_WF_MAX_EDGES) || (bool_decide (edges = None) && negb (count =? 0)) ret (ANX_EINVAL, G, W) ;;
      when (tp_accepted t >=? tp_limit t) || (tp_epoch t =? MAX64) ret (ANX_EFULL, G, W) ;;
      let candidate := candidate_edges edges count in
      let r := validate_graph wf candidate count in
      let '(r, W) := if r =? ANX_OK then check_run_evidence current wf W else (r, W) in
      when negb (r =? ANX_OK) ret (r, G, W) ;;
      let t := t <| tp_previous := w_edges wf |> <| tp_previous_count := w_edge_count wf |> <| tp_evidence_oid := w_trace_oid wf |>
                 <| tp_can_rollback := true |> <| tp_accepted := u32 (tp_accepted t + 1) |> <| tp_epoch := u64 (tp_epoch t + 1) |> in
      (ANX_OK,
       wf_put G w (require_new_run (wf <| w_edges := candidate |> <| w_edge_count := u16 count |> <| w_topology := t |>)), W)
  end.

Definition anx_wf_topology_rollback (current : option anx_uuid) (G : wf_registry) (oidp : option anx_uuid) (expected_epoch : Z)
    : Z * wf_registry :=
  match controllable current G oidp with
  | inl r => (r, G)
  | inr w =>
      let wf := wf_at G w in
      let t := w_topology wf in
      when negb (tp_enabled t) || negb (tp_can_rollback t) ret (ANX_EPERM, G) ;;
      when (expected_epoch =? 0) || negb (expected_epoch =? tp_epoch t) ret (ANX_EBUSY, G) ;;
      when tp_epoch t =? MAX64 ret (ANX_EFULL, G) ;;
      let r := validate_graph wf (tp_previous t) (tp_previous_count t) in
      when negb (r =? ANX_OK) ret (r, G) ;;
      let t' := t <| tp_can_rollback := false |> <| tp_epoch := u64 (tp_epoch t + 1) |> in
      (ANX_OK,
       wf_put G w (require_new_run (wf <| w_edges := tp_previous t |> <| w_edge_count := tp_previous_count t |> <| w_topology := t' |>)))
  end.

(** ** The template library: [kernel/core/workflow/workflow_library.c] *)

Definition ANX_WF_LIB_MAX : Z := 32.

(** The string a character array holds. *)
Fixpoint cstr (text : list Z) : list Z :=
  match text with
  | [] => []
  | c :: text => if c =? 0 then [] else c :: cstr text
  end.

Definition tm_name (t : anx_wf_template) : list Z := cstr (tm_uri t).

Definition anx_wf_lib_register (lib : list anx_wf_template) (tmplp : option anx_wf_template) : Z * list anx_wf_template :=
  when negb (anx_wf_template_validate tmplp =? ANX_OK) ret (ANX_EINVAL, lib) ;;
  when Z.of_nat (length lib) >=? ANX_WF_LIB_MAX ret (ANX_ENOMEM, lib) ;;
  match tmplp with
  | None => (ANX_EINVAL, lib)
  | Some tmpl =>
      when existsb (λ t, bool_decide (tm_name t = tm_name tmpl)) lib ret (ANX_EEXIST, lib) ;;
      (ANX_OK, lib ++ [tmpl])
  end.

Definition anx_wf_lib_lookup (lib : list anx_wf_template) (urip : option (list Z)) : option anx_wf_template :=
  match urip with
  | None => None
  | Some uri => List.find (λ t, bool_decide (tm_name t = uri)) lib
  end.

(** The URIs stored and the number of templates. *)
Definition anx_wf_lib_list (lib : list anx_wf_template) (max_count : Z) : list (list Z) * Z :=
  (tm_name <$> take (Z.to_nat max_count) lib, Z.of_nat (length lib)).

(** *** Matching keywords *)

Definition is_space (c : Z) : bool := (c =? 32) || (c =? 9) || (c =? 10).

Fixpoint skip_space (p : list Z) : list Z :=
  match p with
  | c :: p' => if is_space c then skip_space p' else p
  | [] => []
  end.

(** At most [room] characters of a word, and the rest. *)
Fixpoint take_word (room : nat) (p : list Z) : list Z * list Z :=
  match room, p with
  | S room, c :: p' => if is_space c then ([], p) else let '(w, rest) := take_word room p' in (c :: w, rest)
  | _, _ => ([], p)
  end.

Definition lower_word (word : list Z) : list Z := (λ c, if (65 <=? c) && (c <=? 90) then c + 32 else c) <$> word.

(** The words of the keywords, in lower case, at most 31 characters each. *)
Fixpoint words (fuel : nat) (p : list Z) : list (list Z) :=
  match fuel with
  | O => []
  | S fuel =>
      match skip_space p with
      | [] => []
      | p => let '(w, rest) := take_word 31 p in lower_word w :: words fuel rest
      end
  end.

Definition tags_of (t : anx_wf_template) : list (list Z) := (λ i, cstr (rd [] (tm_tags t) i)) <$> seqZ 0 (tm_tag_count t).

Definition score_template (t : anx_wf_template) (keywords : list Z) : Z :=
  foldl (λ score w, if existsb (λ tag, bool_decide (w = tag)) (tags_of t) then u32 (score + 1) else score) 0
    (words (length keywords) keywords).

Record anx_wf_match := WfMatch { mt_uri : list Z; mt_score : Z }.

(** The entry [m] moves up through the entries before it, which come last
    first, while its score is higher. *)
Fixpoint bubble (m : anx_wf_match) (before : list anx_wf_match) : list anx_wf_match :=
  match before with
  | m' :: rest => if mt_score m >? mt_score m' then m' :: bubble m rest else m :: before
  | [] => [m]
  end.

Definition bubble_last (matches : list anx_wf_match) : list anx_wf_match :=
  match rev matches with
  | [] => []
  | m :: before => rev (bubble m before)
  end.

(** One template of the loop of [anx_wf_lib_match]. *)
Definition match_step (keywords : list Z) (max_count : Z) (matches : list anx_wf_match) (t : anx_wf_template) : list anx_wf_match :=
  let s := score_template t keywords in
  when s =? 0 ret matches ;;
  when Z.of_nat (length matches) <? max_count ret bubble_last (matches ++ [WfMatch (tm_name t) s]) ;;
  when s >? mt_score (rd (WfMatch [] 0) matches (max_count - 1))
    ret bubble_last (wr matches (max_count - 1) (WfMatch (tm_name t) s)) ;;
  matches.

Definition anx_wf_lib_match (lib : list anx_wf_template) (keywordsp : option (list Z)) (max_count : Z) : list anx_wf_match :=
  match keywordsp with
  | None => []
  | Some keywords => when max_count =? 0 ret [] ;; foldl (match_step keywords max_count) [] lib
  end.

(** *** Instantiation *)

Fixpoint add_nodes (G : wf_registry) (oid : anx_uuid) (nodes : list anx_wf_node) : Z * wf_registry :=
  match nodes with
  | [] => (ANX_OK, G)
  | node :: nodes =>
      let '(r, _, G) := anx_wf_node_add G (Some oid) (Some node) true in
      when negb (r =? ANX_OK) ret (r, G) ;; add_nodes G oid nodes
  end.

Fixpoint add_edges (G : wf_registry) (oid : anx_uuid) (edges : list anx_wf_edge) : Z * wf_registry :=
  match edges with
  | [] => (ANX_OK, G)
  | e :: edges =>
      let '(r, G) := anx_wf_edge_add G (Some oid) (from_node e) (from_port e) (to_node e) (to_port e) in
      when negb (r =? ANX_OK) ret (r, G) ;; add_edges G oid edges
  end.

Definition anx_wf_lib_instantiate (hw : option anx_hw_inventory) (mem : list bool) (lib : list anx_wf_template) (G : wf_registry)
    (urip namep : option (list Z)) (out : bool) : Z * option anx_uuid * wf_registry :=
  when bool_decide (urip = None) || bool_decide (namep = None) || negb out ret (ANX_EINVAL, None, G) ;;
  match anx_wf_lib_lookup lib urip with
  | None => (ANX_ENOENT, None, G)
  | Some tmpl =>
      match anx_wf_create hw mem G namep (Some (cstr (tm_description tmpl))) true with
      | (r, None, G) => (r, None, G)
      | (_, Some oid, G) =>
          let '(r, G) := add_nodes G oid (node_at (tm_nodes tmpl) <$> seqZ 0 (tm_node_count tmpl)) in
          let '(r, G) := if r =? ANX_OK then add_edges G oid (edge_at (tm_edges tmpl) <$> seqZ 0 (tm_edge_count tmpl)) else (r, G) in
          when negb (r =? ANX_OK) ret (r, None, (anx_wf_destroy G (Some oid)).2) ;;
          (ANX_OK, Some oid, G)
      end
  end.
