(* ===== verification/WfTemplates.v ===== *)
(** * The built-in workflow templates: [kernel/core/workflow/workflow_library.c]

    The static templates as the source initialises them.  A character array is
    written up to its last character; the rest of it is zero. *)

From stdpp Require Import strings.
From S2P Require Import Prelude StateObject MdSuper Workflow.
#[local] Open Scope Z_scope.
#[local] Open Scope string_scope.

(** A string with line breaks. *)
Definition lines (l : list string) : list Z :=
  match l with
  | [] => []
  | s :: l => bytes_of s ++ concat ((λ s, 10 :: bytes_of s) <$> l)
  end.

(** A character array of [n] characters that holds [s]. *)
Definition chars (n : nat) (s : list Z) : list Z := s ++ replicate (n - length s) 0.

Definition node (id kind : Z) (label params : list Z) (port_count : Z) (ports : list anx_wf_port) : anx_wf_node :=
  WfNode id kind label params 0 0 0 0 port_count ports.
Definition inp (name : string) : anx_wf_port := WfPort (bytes_of name) ANX_WF_PORT_IN 0 false.
Definition outp (name : string) : anx_wf_port := WfPort (bytes_of name) ANX_WF_PORT_OUT 0 false.

(** The members of the parameter union. *)
Definition cell_call (intent : list Z) : list Z := chars 128 intent.
Definition model_call (model_id prompt_template : list Z) : list Z := chars 64 model_id ++ chars 128 prompt_template.
Definition retrieval (query_template : list Z) (top_k : Z) : list Z := chars 128 query_template ++ le 4 top_k.
Definition output (dest_name : list Z) : list Z := chars 64 dest_name.

Definition tmpl_infer : anx_wf_template :=
  WfTemplate (bytes_of "anx:workflow/infer") (bytes_of "Infer")
    (bytes_of "Single model inference: pass input through one model call and collect output.")
    (bytes_of <$> ["infer"; "inference"; "model"; "llm"; "generate"]) 5
    [
      node 1 ANX_WF_NODE_TRIGGER (bytes_of "start") [] 1 [outp "out"];
      node 2 ANX_WF_NODE_MODEL_CALL (bytes_of "infer") (model_call (bytes_of "anx:model/default") (bytes_of "${input}")) 2 [inp "in"; outp "out"];
      node 3 ANX_WF_NODE_OUTPUT (bytes_of "result") (output (bytes_of "output")) 1 [inp "in"]
    ] 3
    [WfEdge 1 0 2 0; WfEdge 2 1 3 0] 2.

Definition tmpl_summarize : anx_wf_template :=
  WfTemplate (bytes_of "anx:workflow/summarize") (bytes_of "Summarize")
    (bytes_of "Summarize a state object using a model call.")
    (bytes_of <$> ["summarize"; "summary"; "compress"; "distill"; "shorten"]) 5
    [
      node 1 ANX_WF_NODE_TRIGGER (bytes_of "start") [] 1 [outp "out"];
      node 2 ANX_WF_NODE_MODEL_CALL (bytes_of "summarize") (model_call (bytes_of "anx:model/default") (lines ["Summarize the following concisely:"; "${input}"])) 2 [inp "in"; outp "out"];
      node 3 ANX_WF_NODE_OUTPUT (bytes_of "summary") (output (bytes_of "summary")) 1 [inp "in"]
    ] 3
    [WfEdge 1 0 2 0; WfEdge 2 1 3 0] 2.

Definition tmpl_rag : anx_wf_template :=
  WfTemplate (bytes_of "anx:workflow/rag") (bytes_of "RAG")
    (bytes_of "Retrieval-augmented generation: retrieve relevant context then run grounded inference.")
    (bytes_of <$> ["rag"; "retrieval"; "search"; "grounded"; "context"; "augment"]) 6
    [
      node 1 ANX_WF_NODE_TRIGGER (bytes_of "start") [] 2 [outp "query"; outp "query2"];
      node 2 ANX_WF_NODE_RETRIEVAL (bytes_of "retrieve") (retrieval (bytes_of "${query}") 5) 2 [inp "query"; outp "context"];
      node 3 ANX_WF_NODE_MODEL_CALL (bytes_of "answer") (model_call (bytes_of "anx:model/default") (lines ["Context:"; "${context}"; EmptyString; "Question: ${query}"; "Answer:"])) 3 [inp "context"; inp "query"; outp "answer"];
      node 4 ANX_WF_NODE_OUTPUT (bytes_of "result") (output (bytes_of "answer")) 1 [inp "in"]
    ] 4
    [WfEdge 1 0 2 0; WfEdge 2 1 3 0; WfEdge 1 1 3 1; WfEdge 3 2 4 0] 4.

Definition tmpl_chain : anx_wf_template :=
  WfTemplate (bytes_of "anx:workflow/chain") (bytes_of "Chain")
    (bytes_of "Two-stage model chain: first call reasons, second call refines.")
    (bytes_of <$> ["chain"; "cot"; "reason"; "refine"; "sequential"; "think"]) 6
    [
      node 1 ANX_WF_NODE_TRIGGER (bytes_of "start") [] 1 [outp "out"];
      node 2 ANX_WF_NODE_MODEL_CALL (bytes_of "reason") (model_call (bytes_of "anx:model/default") (lines ["Think step by step about: ${input}"; "Reasoning:"])) 2 [inp "in"; outp "reasoning"];
      node 3 ANX_WF_NODE_MODEL_CALL (bytes_of "conclude") (model_call (bytes_of "anx:model/default") (lines ["Given this reasoning:"; "${reasoning}"; EmptyString; "Final answer:"])) 2 [inp "reasoning"; outp "out"];
      node 4 ANX_WF_NODE_OUTPUT (bytes_of "result") (output (bytes_of "output")) 1 [inp "in"]
    ] 4
    [WfEdge 1 0 2 0; WfEdge 2 1 3 0; WfEdge 3 1 4 0] 3.

Definition tmpl_ensemble : anx_wf_template :=
  WfTemplate (bytes_of "anx:workflow/ensemble") (bytes_of "Ensemble")
    (bytes_of "Fan-out to three model calls then collect all outputs for voting.")
    (bytes_of <$> ["ensemble"; "vote"; "multiple"; "parallel"; "consensus"; "diverse"]) 6
    [
      node 1 ANX_WF_NODE_TRIGGER (bytes_of "start") [] 1 [outp "out"];
      node 2 ANX_WF_NODE_FAN_OUT (bytes_of "split") [] 4 [inp "in"; outp "a"; outp "b"; outp "c"];
      node 3 ANX_WF_NODE_MODEL_CALL (bytes_of "model-a") (model_call (bytes_of "anx:model/default") (bytes_of "${input}")) 2 [inp "in"; outp "out"];
      node 4 ANX_WF_NODE_MODEL_CALL (bytes_of "model-b") (model_call (bytes_of "anx:model/default") (bytes_of "${input}")) 2 [inp "in"; outp "out"];
      node 5 ANX_WF_NODE_MODEL_CALL (bytes_of "model-c") (model_call (bytes_of "anx:model/default") (bytes_of "${input}")) 2 [inp "in"; outp "out"];
      node 6 ANX_WF_NODE_FAN_IN (bytes_of "collect") [] 4 [inp "a"; inp "b"; inp "c"; outp "out"];
      node 7 ANX_WF_NODE_OUTPUT (bytes_of "result") (output (bytes_of "outputs")) 1 [inp "in"]
    ] 7
    [WfEdge 1 0 2 0; WfEdge 2 1 3 0; WfEdge 2 2 4 0; WfEdge 2 3 5 0; WfEdge 3 1 6 0; WfEdge 4 1 6 1; WfEdge 5 1 6 2] 7.

Definition tmpl_spawn_collect : anx_wf_template :=
  WfTemplate (bytes_of "anx:workflow/spawn-collect") (bytes_of "Spawn and Collect")
    (bytes_of "Spawn a cell for an arbitrary task and collect its output.")
    (bytes_of <$> ["spawn"; "cell"; "execute"; "task"; "run"; "compute"]) 6
    [
      node 1 ANX_WF_NODE_TRIGGER (bytes_of "start") [] 1 [outp "out"];
      node 2 ANX_WF_NODE_CELL_CALL (bytes_of "execute") (cell_call (bytes_of "${task}")) 2 [inp "in"; outp "out"];
      node 3 ANX_WF_NODE_OUTPUT (bytes_of "result") (output (bytes_of "output")) 1 [inp "in"]
    ] 3
    [WfEdge 1 0 2 0; WfEdge 2 1 3 0] 2.

Definition tmpl_decompose : anx_wf_template :=
  WfTemplate (bytes_of "anx:workflow/decompose-goal") (bytes_of "Decompose Goal")
    (bytes_of "Use a model to decompose a goal into a step-by-step plan or workflow spec.")
    (bytes_of <$> ["decompose"; "plan"; "breakdown"; "workflow"; "goal"; "steps"; "strategy"]) 7
    [
      node 1 ANX_WF_NODE_TRIGGER (bytes_of "goal") [] 1 [outp "out"];
      node 2 ANX_WF_NODE_MODEL_CALL (bytes_of "plan") (model_call (bytes_of "anx:model/task-planner") (lines ["Break down this goal into concrete steps."; "Output a numbered list."; "Goal: ${input}"])) 2 [inp "goal"; outp "plan"];
      node 3 ANX_WF_NODE_OUTPUT (bytes_of "plan") (output (bytes_of "plan")) 1 [inp "in"]
    ] 3
    [WfEdge 1 0 2 0; WfEdge 2 1 3 0] 2.

Definition tmpl_observe : anx_wf_template :=
  WfTemplate (bytes_of "anx:workflow/observe-report") (bytes_of "Observe and Report")
    (bytes_of "Collect system state via JEPA observation and produce a health report.")
    (bytes_of <$> ["observe"; "monitor"; "health"; "system"; "jepa"; "report"; "status"; "anomaly"]) 8
    [
      node 1 ANX_WF_NODE_TRIGGER (bytes_of "start") [] 1 [outp "out"];
      node 2 ANX_WF_NODE_CELL_CALL (bytes_of "observe") (cell_call (bytes_of "jepa-observe")) 2 [inp "in"; outp "obs"];
      node 3 ANX_WF_NODE_MODEL_CALL (bytes_of "interpret") (model_call (bytes_of "anx:model/default") (lines ["System health analyst. Observation: ${input}"; "Report anomalies concisely."])) 2 [inp "obs"; outp "report"];
      node 4 ANX_WF_NODE_OUTPUT (bytes_of "report") (output (bytes_of "health_report")) 1 [inp "in"]
    ] 4
    [WfEdge 1 0 2 0; WfEdge 2 1 3 0; WfEdge 3 1 4 0] 3.

Definition tmpl_ibal_default : anx_wf_template :=
  WfTemplate (bytes_of "anx:workflow/ibal/default/v1") (bytes_of "IBAL Default")
    (bytes_of "Iterative Belief-Action Loop: full session with EBM scoring and memory consolidation.")
    (bytes_of <$> ["ibal"; "loop"; "iterative"; "belief"; "plan"; "agent"]) 6
    [
      node 1 ANX_WF_NODE_TRIGGER (bytes_of "start") [] 1 [outp "out"];
      node 2 ANX_WF_NODE_CELL_CALL (bytes_of "ibal-run") (cell_call (bytes_of "anx:cell/loop/ibal-runner goal=${goal}")) 2 [inp "in"; outp "out"];
      node 3 ANX_WF_NODE_OUTPUT (bytes_of "plan") (output (bytes_of "committed_plan")) 1 [inp "in"]
    ] 3
    [WfEdge 1 0 2 0; WfEdge 2 1 3 0] 2.

Definition tmpl_ibal_lite : anx_wf_template :=
  WfTemplate (bytes_of "anx:workflow/ibal/lite/v1") (bytes_of "IBAL Lite")
    (bytes_of "Lightweight IBAL loop: 4-iteration budget, fast path without memory consolidation.")
    (bytes_of <$> ["ibal"; "lite"; "fast"; "loop"; "quick"; "plan"]) 6
    [
      node 1 ANX_WF_NODE_TRIGGER (bytes_of "start") [] 1 [outp "out"];
      node 2 ANX_WF_NODE_CELL_CALL (bytes_of "ibal-lite") (cell_call (bytes_of "anx:cell/loop/ibal-runner-lite goal=${goal}")) 2 [inp "in"; outp "out"];
      node 3 ANX_WF_NODE_OUTPUT (bytes_of "plan") (output (bytes_of "lite_plan")) 1 [inp "in"]
    ] 3
    [WfEdge 1 0 2 0; WfEdge 2 1 3 0] 2.

Definition tmpl_ibal_symbolic : anx_wf_template :=
  WfTemplate (bytes_of "anx:workflow/ibal/symbolic/v1") (bytes_of "IBAL Symbolic")
    (bytes_of "Symbolic IBAL loop: rule-based proposal generation without learned JEPA weights.")
    (bytes_of <$> ["ibal"; "symbolic"; "rules"; "deterministic"; "loop"; "plan"]) 6
    [
      node 1 ANX_WF_NODE_TRIGGER (bytes_of "start") [] 1 [outp "out"];
      node 2 ANX_WF_NODE_CELL_CALL (bytes_of "ibal-symbolic") (cell_call (bytes_of "anx:cell/loop/ibal-runner-symbolic goal=${goal}")) 2 [inp "in"; outp "out"];
      node 3 ANX_WF_NODE_OUTPUT (bytes_of "plan") (output (bytes_of "symbolic_plan")) 1 [inp "in"]
    ] 3
    [WfEdge 1 0 2 0; WfEdge 2 1 3 0] 2.

Definition tmpl_jepa_observe_encode : anx_wf_template :=
  WfTemplate (bytes_of "anx:workflow/jepa/observe-encode/v1") (bytes_of "JEPA Observe + Encode")
    (bytes_of "Capture a world observation via JEPA and encode it to a latent vector.")
    (bytes_of <$> ["jepa"; "observe"; "encode"; "latent"; "world"; "state"]) 6
    [
      node 1 ANX_WF_NODE_TRIGGER (bytes_of "start") [] 1 [outp "out"];
      node 2 ANX_WF_NODE_CELL_CALL (bytes_of "observe") (cell_call (bytes_of "jepa-observe")) 2 [inp "in"; outp "obs"];
      node 3 ANX_WF_NODE_CELL_CALL (bytes_of "encode") (cell_call (bytes_of "jepa-encode")) 2 [inp "obs"; outp "latent"];
      node 4 ANX_WF_NODE_OUTPUT (bytes_of "latent") (output (bytes_of "jepa_latent")) 1 [inp "in"]
    ] 4
    [WfEdge 1 0 2 0; WfEdge 2 1 3 0; WfEdge 3 1 4 0] 3.

Definition tmpl_jepa_predict_route : anx_wf_template :=
  WfTemplate (bytes_of "anx:workflow/jepa/predict-route/v1") (bytes_of "JEPA Predict (route_local)")
    (bytes_of "Observe + encode world state, then predict the next latent under the route_local action.")
    (bytes_of <$> ["jepa"; "predict"; "route"; "latent"; "planning"; "ibal"]) 6
    [
      node 1 ANX_WF_NODE_TRIGGER (bytes_of "start") [] 1 [outp "out"];
      node 2 ANX_WF_NODE_CELL_CALL (bytes_of "observe-encode") (cell_call (bytes_of "jepa-observe-encode")) 2 [inp "in"; outp "latent"];
      node 3 ANX_WF_NODE_CELL_CALL (bytes_of "predict") (cell_call (bytes_of "jepa-predict:route_local")) 2 [inp "latent"; outp "predicted"]
    ] 3
    [WfEdge 1 0 2 0; WfEdge 2 1 3 0] 2.

Definition tmpl_audio_player : anx_wf_template :=
  WfTemplate (bytes_of "anx:app/audio-player") (bytes_of "Audio Player")
    (bytes_of "Play an audio clip through the system mixer.")
    (bytes_of <$> ["audio"; "play"; "sound"; "music"; "playback"]) 5
    [
      node 1 ANX_WF_NODE_TRIGGER (bytes_of "clip") [] 1 [outp "out"];
      node 2 ANX_WF_NODE_CELL_CALL (bytes_of "play") (cell_call (bytes_of "audio-play")) 2 [inp "in"; outp "out"];
      node 3 ANX_WF_NODE_OUTPUT (bytes_of "trace") (output (bytes_of "trace")) 1 [inp "in"]
    ] 3
    [WfEdge 1 0 2 0; WfEdge 2 1 3 0] 2.

Definition tmpl_audio_mix : anx_wf_template :=
  WfTemplate (bytes_of "anx:app/audio-mix") (bytes_of "Audio Mix")
    (bytes_of "Combine audio clips into a single mixed clip.")
    (bytes_of <$> ["audio"; "mix"; "combine"; "merge"; "sum"]) 5
    [
      node 1 ANX_WF_NODE_TRIGGER (bytes_of "clips") [] 1 [outp "out"];
      node 2 ANX_WF_NODE_CELL_CALL (bytes_of "mix") (cell_call (bytes_of "audio-mix")) 2 [inp "in"; outp "out"];
      node 3 ANX_WF_NODE_OUTPUT (bytes_of "mixed") (output (bytes_of "mixed_clip")) 1 [inp "in"]
    ] 3
    [WfEdge 1 0 2 0; WfEdge 2 1 3 0] 2.

Definition tmpl_video_player : anx_wf_template :=
  WfTemplate (bytes_of "anx:app/video-player") (bytes_of "Video Player")
    (bytes_of "Play a video clip, optionally onto a target surface.")
    (bytes_of <$> ["video"; "play"; "movie"; "clip"; "surface"; "playback"]) 6
    [
      node 1 ANX_WF_NODE_TRIGGER (bytes_of "clip") [] 1 [outp "out"];
      node 2 ANX_WF_NODE_CELL_CALL (bytes_of "play") (cell_call (bytes_of "video-play")) 2 [inp "in"; outp "out"];
      node 3 ANX_WF_NODE_OUTPUT (bytes_of "trace") (output (bytes_of "trace")) 1 [inp "in"]
    ] 3
    [WfEdge 1 0 2 0; WfEdge 2 1 3 0] 2.

#[local] Close Scope string_scope.

Definition g_builtins : list anx_wf_template :=
  [tmpl_infer; tmpl_summarize; tmpl_rag; tmpl_chain; tmpl_ensemble;
   tmpl_spawn_collect; tmpl_decompose; tmpl_observe; tmpl_ibal_default; tmpl_ibal_lite;
   tmpl_ibal_symbolic; tmpl_jepa_observe_encode; tmpl_jepa_predict_route; tmpl_audio_player; tmpl_audio_mix;
   tmpl_video_player].

(** The loop of [anx_wf_lib_init]. *)
Fixpoint register_all (lib l : list anx_wf_template) : Z * list anx_wf_template :=
  match l with
  | [] => (ANX_OK, lib)
  | t :: l =>
      let '(rc, lib) := anx_wf_lib_register lib (Some t) in
      when negb (rc =? ANX_OK) && negb (rc =? ANX_EEXIST) ret (rc, lib) ;;
      register_all lib l
  end.

Definition anx_wf_lib_init (lib : list anx_wf_template) : Z * list anx_wf_template := register_all lib g_builtins.
