(* ===== verification/WfExec.v ===== *)
(** * The workflow executor: [kernel/core/workflow/workflow_exec.c]

    One run of a workflow over its graph: the ready queue, the dispatch of a
    node, suspension, resumption, and the sealed trace.  What a cell, a model, an
    agent, a subflow or a capability installation does for a node is [work], an
    argument: it sees the workflow and the outputs produced so far and returns a
    result, the outputs of the node, the ids recorded in the trace, and the new
    object store.  A running workflow refuses every change of its graph, so no
    work changes it.  [clock n] is the [n]-th reading of the clock.  The ready
    queue has room for [ANX_WF_MAX_NODES] slots: writing behind it is
    [Panic].  No reuse or semantic guard is bound to the workflow, and the
    world model whose observations surround a run is not available
    ([anx_jepa_available] is false). *)

From stdpp Require Import strings.
From S2P Require Import Prelude Uuid Cell CellStore Meta StateObject MdSuper Workflow.
#[local] Open Scope Z_scope.

Definition oid_is_null (o : anx_uuid) : bool := (hi o =? 0) && (lo o =? 0).

(** ** Tables *)

(** [slot_id] and [slot_by_id]. *)
Definition wf_build_tables (nodes : list anx_wf_node) : list Z * list Z :=
  foldl (λ tb i,
      let id := n_id (node_at nodes i) in
      when id =? 0 ret tb ;;
      (wr tb.1 i id, if id <=? ANX_WF_MAX_NODES then wr tb.2 id i else tb.2))
    (replicate 64 0, replicate 65 0) (seqZ 0 ANX_WF_MAX_NODES).

Definition port_get (port_oid : list (list anx_uuid)) (slot p : Z) : anx_uuid := rd ANX_UUID_NIL (rd [] port_oid slot) p.

Definition wf_get_input_oid (edges : list anx_wf_edge) (node_id in_port : Z) (slot_by_id : list Z) (port_oid : list (list anx_uuid))
    : anx_uuid :=
  let feeds i :=
    let e := edge_at edges i in
    (to_node e =? node_id) && (to_port e =? in_port) && negb (from_node e =? 0) && (from_node e <=? ANX_WF_MAX_NODES)
    && (rd 0 slot_by_id (from_node e) <? ANX_WF_MAX_NODES) && (from_port e <? ANX_WF_MAX_PORTS) in
  match first_index feeds ANX_WF_MAX_EDGES with
  | Some i => port_get port_oid (rd 0 slot_by_id (from_node (edge_at edges i))) (from_port (edge_at edges i))
  | None => ANX_UUID_NIL
  end.

(** The live inputs collected so far and whether an invalid edge was met. *)
Fixpoint cache_scan (wf : anx_wf_object) (completed : list bool) (slot_by_id : list Z) (port_oid : list (list anx_uuid))
    (idxs : list Z) (live : list anx_uuid) : list anx_uuid * bool :=
  match idxs with
  | [] => (live, false)
  | i :: idxs =>
      let go := cache_scan wf completed slot_by_id port_oid idxs in
      let e := edge_at (w_edges wf) i in
      when edge_unused e ret go live ;;
      when (from_node e =? 0) || (to_node e =? 0) || (from_node e >? ANX_WF_MAX_NODES) || (to_node e >? ANX_WF_MAX_NODES)
           || (from_port e >=? ANX_WF_MAX_PORTS) || (to_port e >=? ANX_WF_MAX_PORTS) ret (live, true) ;;
      let from := rd 0 slot_by_id (from_node e) in
      let to := rd 0 slot_by_id (to_node e) in
      when (from >=? ANX_WF_MAX_NODES) || (to >=? ANX_WF_MAX_NODES) || negb (n_id (node_at (w_nodes wf) from) =? from_node e)
           || negb (n_id (node_at (w_nodes wf) to) =? to_node e) ret (live, true) ;;
      when rd false completed to ret go live ;;
      let oid := port_get port_oid from (from_port e) in
      when oid_is_null oid ret go live ;;
      go (if existsb (wf_oid_eq oid) live then live else live ++ [oid])
  end.

Definition wf_cache_refresh (wf : anx_wf_object) (completed : list bool) (slot_by_id : list Z) (port_oid : list (list anx_uuid))
    : anx_wf_object :=
  let '(live, unknown) := cache_scan wf completed slot_by_id port_oid (seqZ 0 ANX_WF_MAX_EDGES) [] in
  wf <| w_cache_live_oids := live |> <| w_cache_liveness_unknown := unknown |>.

(** ** Dispatch *)

(** The id at the start of the parameter union. *)
Definition member_oid (node : anx_wf_node) : anx_uuid :=
  Uuid (le_val (firstn 8 (member node 0))) (le_val (firstn 8 (member node 8))).

Definition work_fn : Type :=
  anx_wf_object → Z → list (list anx_uuid) → objstore → Z * list anx_uuid * anx_uuid * anx_uuid * objstore.

(** [x_mem]: the coming allocations; [x_clock]: the number of clock readings. *)
Record exec := Exec {
  x_wf : anx_wf_object;
  x_deg : list Z;
  x_completed : list bool;
  x_ports : list (list anx_uuid);
  x_queue : list Z;
  x_processed : Z;
  x_mem : list bool;
  x_clock : Z;
  x_objs : objstore;
}.
#[export] Instance settable_exec : Settable exec :=
  λ r, Exec (x_wf r) (x_deg r) (x_completed r) (x_ports r) (x_queue r) (x_processed r) (x_mem r) (x_clock r) (x_objs r).

Section executor.
Context (sha256 : list Z → list Z) (uor_attach : anx_state_object → list bool → anx_meta_store * list bool).
Context (work : work_fn) (clock : Z → Z).

Definition wf_dispatch_state_ref (node : anx_wf_node) (row : list anx_uuid) : Z * list anx_uuid :=
  when oid_is_null (member_oid node) ret (ANX_ENOENT, row) ;;
  (ANX_OK, wr row 0 (member_oid node)).

Definition wf_dispatch_fan_out (input : Z → anx_uuid) : Z * list anx_uuid := (ANX_OK, replicate 8 (input 0)).

Definition wf_dispatch_fan_in (node : anx_wf_node) (input : Z → anx_uuid) (row : list anx_uuid) : Z * list anx_uuid :=
  when existsb (λ p, (pt_dir (port_at node p) =? ANX_WF_PORT_IN) && pt_required (port_at node p) && oid_is_null (input p))
         (seqZ 0 (n_port_count node)) ret (ANX_EBUSY, row) ;;
  (ANX_OK, wr row 0 (input 0)).

(** The outputs recorded so far, with the input of an output node. *)
Definition wf_dispatch_output (src : anx_uuid) (outputs : list anx_uuid) : list anx_uuid :=
  when oid_is_null src ret outputs ;;
  when Z.of_nat (length outputs) <? ANX_WF_MAX_PORTS ret outputs ++ [src] ;;
  outputs.

(** The result, the outputs of the node, the ids for the trace, the outputs of
    the workflow and the object store. *)
Definition dispatch_kind (wf : anx_wf_object) (slot : Z) (slot_by_id : list Z) (port_oid : list (list anx_uuid)) (W : objstore)
    : Z * list anx_uuid * anx_uuid * anx_uuid * list anx_uuid * objstore :=
  let node := node_at (w_nodes wf) slot in
  let input p := wf_get_input_oid (w_edges wf) (n_id node) p slot_by_id port_oid in
  let row := rd [] port_oid slot in
  let outs := w_output_oids wf in
  let plain '((r, row) : Z * list anx_uuid) := (r, row, ANX_UUID_NIL, ANX_UUID_NIL, outs, W) in
  let called := let '(r, row, cid, trace, W) := work wf slot port_oid W in (r, row, cid, trace, outs, W) in
  let kind := n_kind node in
  when kind =? ANX_WF_NODE_TRIGGER ret plain (ANX_OK, row) ;;
  when kind =? ANX_WF_NODE_STATE_REF ret plain (wf_dispatch_state_ref node row) ;;
  when (kind =? ANX_WF_NODE_CELL_CALL) || (kind =? ANX_WF_NODE_RETRIEVAL) ret called ;;
  when kind =? ANX_WF_NODE_MODEL_CALL ret called ;;
  when kind =? ANX_WF_NODE_AGENT_CALL ret called ;;
  when kind =? ANX_WF_NODE_FAN_OUT ret plain (wf_dispatch_fan_out input) ;;
  when kind =? ANX_WF_NODE_FAN_IN ret plain (wf_dispatch_fan_in node input row) ;;
  when kind =? ANX_WF_NODE_SUBFLOW ret called ;;
  when kind =? ANX_WF_NODE_OUTPUT
    ret (ANX_OK, row, ANX_UUID_NIL, ANX_UUID_NIL, wf_dispatch_output (input 0) outs, W) ;;
  when kind =? ANX_WF_NODE_CAP_PROMOTION
    ret (if negb (allow_capability_install (w_policy wf)) then plain (ANX_EPERM, row) else called) ;;
  when kind =? ANX_WF_NODE_HUMAN_REVIEW ret plain (ANX_EBUSY, row) ;;
  when (kind =? ANX_WF_NODE_CONDITION) || (kind =? ANX_WF_NODE_TRANSFORM) ret plain (ANX_OK, row) ;;
  plain (ANX_ENOSYS, row).

(** Dispatch with its trace entry, which is recorded when the table has room. *)
Definition wf_dispatch_node (x : exec) (slot : Z) (slot_by_id : list Z) : Z * exec :=
  let wf := x_wf x in
  let node := node_at (w_nodes wf) slot in
  let '(r, row, cid, trace, outs, W) := dispatch_kind wf slot slot_by_id (x_ports x) (x_objs x) in
  let entry := TraceEntry (n_id node) (n_kind node mod 256) cid trace r (clock (x_clock x)) (clock (x_clock x + 1)) in
  let entries :=
    match w_trace_entries wf with
    | Some l => Some (if Z.of_nat (length l) <? ANX_WF_MAX_NODES then l ++ [entry] else l)
    | None => None
    end in
  (r, x <| x_wf := wf <| w_trace_entries := entries |> <| w_output_oids := outs |> |>
        <| x_ports := wr (x_ports x) slot row |> <| x_clock := x_clock x + 2 |> <| x_objs := W |>).

Definition wf_suspend (x : exec) (failed_node_id error_code : Z) (error_msg : list Z) : exec :=
  let '(ok, mem) := next_alloc (x_mem x) in
  let x := x <| x_mem := mem |> in
  when negb ok ret x <| x_wf ::= λ wf, wf <| w_run_state := ANX_WF_RUN_FAILED |> <| w_last_status := ANX_ENOMEM |> |> ;;
  x <| x_wf ::= λ wf, wf <| w_continuation := Some (WfContinuation failed_node_id error_code (anx_strlcpy error_msg 256)
                                                      (x_deg x) (x_completed x) (x_ports x)) |>
                         <| w_run_state := ANX_WF_RUN_SUSPENDED |> <| w_last_status := error_code |> |>.

(** ** The run *)

(** The loop over the edges that leave the node in [slot]. *)
Fixpoint wf_release (node_id : Z) (slot_by_id : list Z) (edges : list anx_wf_edge) (x : exec) : outcome exec :=
  match edges with
  | [] => Ret x
  | e :: edges =>
      let go := wf_release node_id slot_by_id edges in
      when negb (from_node e =? node_id) || (to_node e =? 0) || (to_node e >? ANX_WF_MAX_NODES) ret go x ;;
      let to_slot := rd 0 slot_by_id (to_node e) in
      when to_slot >=? ANX_WF_MAX_NODES ret go x ;;
      let d := rd 0 (x_deg x) to_slot in
      let d := if d >? 0 then d - 1 else d in
      let x := x <| x_deg := wr (x_deg x) to_slot d |> in
      if (d =? 0) && negb (rd false (x_completed x) to_slot) then
        if Z.of_nat (length (x_queue x)) <? ANX_WF_MAX_NODES then go (x <| x_queue := x_queue x ++ [to_slot] |>) else Panic
      else go x
  end.

(** One node of a batch: [inl] when the run returns. *)
Definition wf_step (x : exec) (slot : Z) (slot_by_id : list Z) : outcome (Z * exec + exec) :=
  let node := node_at (w_nodes (x_wf x)) slot in
  let '(r, x) := wf_dispatch_node x slot slot_by_id in
  when (r =? ANX_EBUSY) && (n_kind node =? ANX_WF_NODE_HUMAN_REVIEW)
    ret Ret (inl (ANX_OK, x <| x_wf ::= λ wf, wf <| w_run_state := ANX_WF_RUN_WAITING_HUMAN |> <| w_last_status := ANX_OK |> |>)) ;;
  when negb (r =? ANX_OK) ret Ret (inl (r, wf_suspend x (n_id node) r (cstr (n_label node)))) ;;
  let x := x <| x_completed := wr (x_completed x) slot true |> <| x_processed := u32 (x_processed x + 1) |> in
  let x := x <| x_wf := wf_cache_refresh (x_wf x) (x_completed x) slot_by_id (x_ports x) |> in
  let! x := wf_release (n_id node) slot_by_id (w_edges (x_wf x)) x in
  Ret (inr x).

Fixpoint wf_batch (slot_by_id : list Z) (slots : list Z) (x : exec) : outcome (Z * exec + exec) :=
  match slots with
  | [] => Ret (inr x)
  | slot :: slots =>
      let! r := wf_step x slot slot_by_id in
      match r with
      | inl done => Ret (inl done)
      | inr x => wf_batch slot_by_id slots x
      end
  end.

(** [while (q_head < q_tail)] *)
Fixpoint wf_loop (fuel : nat) (slot_by_id : list Z) (cap : Z) (q_head : nat) (x : exec) : outcome (Z * exec + exec) :=
  if (q_head <? length (x_queue x))%nat then
    match fuel with
    | O => OutOfFuel
    | S fuel =>
        let batch := firstn (Z.to_nat cap) (skipn q_head (x_queue x)) in
        let! r := wf_batch slot_by_id batch x in
        match r with
        | inl done => Ret (inl done)
        | inr x => wf_loop fuel slot_by_id cap (q_head + length batch) x
        end
    end
  else Ret (inr x).

Definition completed_count (completed : list bool) : Z := Z.of_nat (length (List.filter (rd false completed) (seqZ 0 ANX_WF_MAX_NODES))).

(** [x] carries the counters, the completed nodes and the outputs to start
    from. *)
Definition wf_run_inner (fuel : nat) (cap : Z) (x : exec) : outcome (Z * exec) :=
  let '(slot_id, slot_by_id) := wf_build_tables (w_nodes (x_wf x)) in
  let x := x <| x_wf := wf_cache_refresh (x_wf x) (x_completed x) slot_by_id (x_ports x) |> in
  let total_nodes := Z.of_nat (length (List.filter (λ i, negb (rd 0 slot_id i =? 0)) (seqZ 0 ANX_WF_MAX_NODES))) in
  when total_nodes =? 0 ret Ret (ANX_EINVAL, x) ;;
  let ready i := negb (rd 0 slot_id i =? 0) && (rd 0 (x_deg x) i =? 0) && negb (rd false (x_completed x) i) in
  let x := x <| x_queue := List.filter ready (seqZ 0 ANX_WF_MAX_NODES) |>
             <| x_processed := completed_count (x_completed x) |> in
  let! r := wf_loop fuel slot_by_id cap 0 x in
  match r with
  | inl done => Ret done
  | inr x =>
      when negb (x_processed x =? total_nodes)
        ret Ret (ANX_EINVAL, x <| x_wf ::= λ wf, wf <| w_run_state := ANX_WF_RUN_FAILED |> <| w_last_status := ANX_EINVAL |> |>) ;;
      Ret (ANX_OK, x)
  end.

(** ** Sealing the trace *)

Definition trace_params (entries : list anx_wf_trace_entry) : anx_so_create_params :=
  CreateParams ANX_OBJ_EXECUTION_TRACE None None (Some (concat (entry_bytes <$> entries)))
    (TRACE_ENTRY_SIZE * Z.of_nat (length entries)) None 0 ANX_UUID_NIL 0.

(** [fresh], [addr]: the id and the address of the new object. *)
Definition anx_wf_trace_seal (fresh : anx_uuid) (addr : Z) (x : exec) : Z * exec :=
  let wf := x_wf x in
  match w_trace_entries wf with
  | None | Some [] => (ANX_ENOENT, x)
  | Some entries =>
      let t := clock (x_clock x) in
      let '(r, obj, W) := anx_so_create sha256 uor_attach t (clock (x_clock x + 1)) fresh addr (Some (trace_params entries)) true (x_objs x) in
      let x := x <| x_objs := W |> <| x_clock := x_clock x + 2 |> in
      match obj with
      | None => (r, x)
      | Some a =>
          let '(r, W) := anx_so_seal uor_attach (clock (x_clock x)) fresh W in
          let x := x <| x_objs := W |> <| x_clock := x_clock x + 1 |> in
          when negb (r =? ANX_OK) ret (r, x <| x_objs := anx_objstore_release a (anx_so_delete fresh false W).2 |>) ;;
          (ANX_OK,
           x <| x_wf := wf <| w_trace_oid := fresh |> <| w_topology ::= λ t, t <| tp_trace_epoch := tp_epoch t |> |>
                           <| w_trace_entries := None |> |>
             <| x_objs := anx_objstore_release a W |>)
      end
  end.

(** The end of a run: a workflow still running has completed. *)
Definition wf_finish (fresh : anx_uuid) (addr : Z) (r : Z) (x : exec) : exec :=
  if (r =? ANX_OK) && (w_run_state (x_wf x) =? ANX_WF_RUN_RUNNING) then
    (anx_wf_trace_seal fresh addr (x <| x_wf ::= λ wf, wf <| w_run_state := ANX_WF_RUN_COMPLETED |> <| w_last_status := ANX_OK |> |>)).2
  else x.

(** ** Running and resuming *)

(** [in_deg] of a new run. *)
Definition initial_degrees (edges : list anx_wf_edge) (slot_by_id : list Z) : list Z :=
  foldl (λ deg e,
      when (to_node e =? 0) || (to_node e >? ANX_WF_MAX_NODES) ret deg ;;
      let j := rd 0 slot_by_id (to_node e) in
      if j <? ANX_WF_MAX_NODES then wr deg j (u32 (rd 0 deg j + 1)) else deg)
    (replicate 64 0) edges.

(** The workflow and the executor as a new run starts. *)
Definition run_start (hw : option anx_hw_inventory) (mem : list bool) (tick : Z) (wf : anx_wf_object) (W : objstore) : exec :=
  let wf := wf <| w_trace_entries := Some [] |> <| w_output_oids := [] |> <| w_computed_cap := anx_wf_cap_compute hw (Some (w_policy wf)) |>
               <| w_run_state := ANX_WF_RUN_RUNNING |> <| w_last_run := clock tick |> in
  Exec wf (initial_degrees (w_edges wf) (wf_build_tables (w_nodes wf)).2) (replicate 64 false) (replicate 64 (replicate 8 ANX_UUID_NIL))
    [] 0 mem (tick + 1) W.

(** [anx_wf_run] on the workflow a lookup found. *)
Definition anx_wf_run (fuel : nat) (hw : option anx_hw_inventory) (fresh : anx_uuid) (addr : Z) (mem : list bool) (tick : Z)
    (wf : anx_wf_object) (W : objstore) : outcome (Z * exec) :=
  let idle wf mem := Exec wf [] [] [] [] 0 mem tick W in
  when wf_live wf ret Ret (ANX_EBUSY, idle wf mem) ;;
  when w_node_count wf =? 0 ret Ret (ANX_EINVAL, idle wf mem) ;;
  let wf := wf <| w_checkpoint_consumed := true |> <| w_trace_oid := ANX_UUID_NIL |>
               <| w_topology ::= λ t, t <| tp_trace_epoch := 0 |> |> in
  let '(ok, mem) := next_alloc mem in
  when negb ok ret Ret (ANX_ENOMEM, idle (wf <| w_trace_entries := None |>) mem) ;;
  let x := run_start hw mem tick wf W in
  let! (r, x) := wf_run_inner fuel (w_computed_cap (x_wf x)) x in
  Ret (r, wf_finish fresh addr r x).

Definition ANX_WF_RESUME_RETRY : Z := 0.
Definition ANX_WF_RESUME_SKIP : Z := 1.
Definition ANX_WF_RESUME_ABORT : Z := 2.
Definition ANX_WF_RESUME_REPLACE : Z := 3.

(** The counters of the successors of a node that is skipped. *)
Definition skip_degrees (edges : list anx_wf_edge) (slot_by_id : list Z) (node_id : Z) (deg : list Z) : list Z :=
  foldl (λ deg e,
      when negb (from_node e =? node_id) || (to_node e =? 0) || (to_node e >? ANX_WF_MAX_NODES) ret deg ;;
      let j := rd 0 slot_by_id (to_node e) in
      if (j <? ANX_WF_MAX_NODES) && (rd 0 deg j >? 0) then wr deg j (rd 0 deg j - 1) else deg)
    deg edges.

Definition anx_wf_resume (fuel : nat) (fresh : anx_uuid) (addr : Z) (mem : list bool) (tick : Z) (action : Z)
    (replacement : option anx_wf_node) (wf : anx_wf_object) (W : objstore) : outcome (Z * exec) :=
  let idle wf := Exec wf [] [] [] [] 0 mem tick W in
  when negb (w_run_state wf =? ANX_WF_RUN_SUSPENDED) ret Ret (ANX_EINVAL, idle wf) ;;
  when (action <? ANX_WF_RESUME_RETRY) || (action >? ANX_WF_RESUME_REPLACE) ret Ret (ANX_EINVAL, idle wf) ;;
  match w_continuation wf with
  | None =>
      when (action =? ANX_WF_RESUME_ABORT) && negb (anx_uuid_is_nil (w_checkpoint_oid wf))
        ret Ret (ANX_OK, idle (wf <| w_checkpoint_consumed := true |> <| w_run_state := ANX_WF_RUN_FAILED |>)) ;;
      Ret (ANX_EINVAL, idle wf)
  | Some cont =>
      let slot_by_id := (wf_build_tables (w_nodes wf)).2 in
      let failed := wc_failed_node_id cont in
      let failed_slot := if failed <=? ANX_WF_MAX_NODES then rd 0 slot_by_id failed else ANX_WF_MAX_NODES in
      when action =? ANX_WF_RESUME_ABORT
        ret Ret (ANX_OK, idle (wf <| w_checkpoint_consumed := true |> <| w_continuation := None |>
                                  <| w_run_state := ANX_WF_RUN_FAILED |> <| w_last_status := wc_error_code cont |>)) ;;
      let refused :=
        if action =? ANX_WF_RESUME_REPLACE then
          if tp_enabled (w_topology wf) then Some ANX_EPERM
          else if bool_decide (replacement = None) || (failed_slot >=? ANX_WF_MAX_NODES) then Some ANX_EINVAL else None
        else None in
      match refused with
      | Some r => Ret (r, idle wf)
      | None =>
          let wf :=
            match replacement with
            | Some spec =>
                if action =? ANX_WF_RESUME_REPLACE
                then wf <| w_nodes := wr (w_nodes wf) failed_slot (spec <| n_id := n_id (node_at (w_nodes wf) failed_slot) |>) |>
                else wf
            | None => wf
            end in
          let skip := (action =? ANX_WF_RESUME_SKIP) && (failed_slot <? ANX_WF_MAX_NODES) in
          let completed := if skip then wr (wc_completed cont) failed_slot true else wc_completed cont in
          let deg := if skip then skip_degrees (w_edges wf) slot_by_id failed (wc_in_deg cont) else wc_in_deg cont in
          let wf := wf <| w_run_state := ANX_WF_RUN_RUNNING |> <| w_continuation := None |> <| w_checkpoint_consumed := true |> in
          let! (r, x) := wf_run_inner fuel (w_computed_cap wf) (Exec wf deg completed (wc_port_oid cont) [] 0 mem tick W) in
          Ret (r, wf_finish fresh addr r x)
      end
  end.
End executor.
