(* ===== verification/WfGraph.v ===== *)
(** * Workflow graphs: Kahn's algorithm decides acyclicity

    The algorithm of the two validators, over any set of slots and any edges
    between them: it visits every slot exactly when the edges have no cycle. *)

From stdpp Require Import sorting.
From S2P Require Import Prelude Workflow.
#[local] Open Scope Z_scope.

Lemma rd_zeros {A} (d : A) n i : rd d (replicate n d) i = d.
Proof.
  unfold rd. rewrite nth_lookup. destruct (replicate n d !! Z.to_nat i) as [x|] eqn:E; [|done]. by apply lookup_replicate in E as [-> _].
Qed.

(** ** Finite relations *)

Section relations.
Context {A : Type} `{EqDecision A} (R : relation A).

Definition acyclic : Prop := ∀ x, ¬ tc R x x.

(** Walking back along the relation inside [U] for [n] steps. *)
Lemma walk_back (U : list A) n : (∀ x, x ∈ U → ∃ y, y ∈ U ∧ R y x) →
  ∀ x, x ∈ U → ∃ l, length l = n ∧ l ⊆ U ∧ Forall (λ y, tc R y x) l ∧ StronglySorted (λ a b, tc R b a) l.
Proof.
  intros Hpred. induction n as [|n IH]; intros x Hx.
  { exists []. split_and!; [done|set_solver|constructor|constructor]. }
  destruct (Hpred x Hx) as (y & Hy & Hyx). destruct (IH y Hy) as (l & Hn & Hl & Hf & Hs).
  exists (y :: l). split_and!; [cbn; lia| | |].
  - intros z [->|Hz]%elem_of_cons; [done|by apply Hl].
  - constructor; [by apply tc_once|]. eapply Forall_impl; [exact Hf|]. intros z Hz. eapply tc_r; [exact Hz|exact Hyx].
  - constructor; [exact Hs|exact Hf].
Qed.

Lemma strongly_sorted_nodup (l : list A) : acyclic → StronglySorted (λ a b, tc R b a) l → NoDup l.
Proof.
  intros Hac. induction 1 as [|a l Hs IH Hf]; constructor; [|done].
  intros Ha. rewrite Forall_forall in Hf. by apply (Hac a), Hf.
Qed.

(** A finite set without sources has a cycle. *)
Lemma acyclic_source (U : list A) : acyclic → U ≠ [] → ¬ (∀ x, x ∈ U → ∃ y, y ∈ U ∧ R y x).
Proof.
  intros Hac Hne Hpred. destruct U as [|x U]; [done|].
  destruct (walk_back (x :: U) (S (length (x :: U))) Hpred x) as (l & Hn & Hl & _ & Hs); [by left|].
  pose proof (strongly_sorted_nodup l Hac Hs) as Hnd.
  assert (length l ≤ length (x :: U))%nat as Hle; [|lia].
  apply submseteq_length, NoDup_submseteq; [exact Hnd|]. intros z Hz. by apply Hl.
Qed.

Lemma tc_last x y : tc R x y → ∃ z, rtc R x z ∧ R z y.
Proof.
  induction 1 as [x y Hxy|x y z Hxy _ (w & Hw & Hwz)]; [by exists x|]. exists w. split; [by eapply rtc_l|done].
Qed.

(** A set closed under predecessors that has no cycle grows by an element
    whose predecessors it contains. *)
Lemma acyclic_extend (D : A → Prop) (i : A) :
  (∀ x y, D y → R x y → D x) → (∀ x, D x → ¬ tc R x x) → ¬ D i → (∀ x, R x i → D x) →
  ∀ x, D x ∨ x = i → ¬ tc R x x.
Proof.
  intros Hcl Hac Hi Hpred x [Hx| ->] Hxx; [by apply (Hac x)|].
  destruct (tc_last i i Hxx) as (z & Hiz & Hzi). apply Hi. specialize (Hpred z Hzi). clear Hzi Hxx Hi.
  induction Hiz as [a|a b c Hab _ IH]; [done|]. eapply Hcl; [|exact Hab]. by apply IH.
Qed.
End relations.

(** ** Edges as a relation on node ids *)

Definition edge_rel (edges : list anx_wf_edge) (a b : Z) : Prop := ∃ e, e ∈ edges ∧ from_node e = a ∧ to_node e = b.

(** The number of edges that satisfy a test. *)
Definition count_edges (p : anx_wf_edge → bool) (edges : list anx_wf_edge) : Z := Z.of_nat (length (List.filter p edges)).

Lemma count_edges_cons p e es : count_edges p (e :: es) = (if p e then 1 else 0) + count_edges p es.
Proof. unfold count_edges. cbn. destruct (p e); cbn; lia. Qed.

Lemma count_edges_snoc p e es : count_edges p (es ++ [e]) = count_edges p es + (if p e then 1 else 0).
Proof. unfold count_edges. rewrite List.filter_app, length_app. cbn. destruct (p e); cbn; lia. Qed.

Lemma count_edges_nonneg p es : 0 ≤ count_edges p es.
Proof. unfold count_edges. lia. Qed.

Lemma count_edges_le p es : count_edges p es ≤ Z.of_nat (length es).
Proof. unfold count_edges. induction es as [|e es IH]; cbn; [lia|]. destruct (p e); cbn; lia. Qed.

Lemma count_edges_zero p es : count_edges p es = 0 → ∀ e, e ∈ es → p e = false.
Proof.
  induction es as [|e es IH]; intros H e' He'; [by apply not_elem_of_nil in He'|].
  rewrite count_edges_cons in H. pose proof (count_edges_nonneg p es).
  apply elem_of_cons in He' as [->|He']; [destruct (p e); [lia|done]|]. apply IH; [destruct (p e); lia|done].
Qed.

Lemma count_edges_pos p es : count_edges p es ≠ 0 → ∃ e, e ∈ es ∧ p e = true.
Proof.
  induction es as [|e es IH]; [done|]. rewrite count_edges_cons. destruct (p e) eqn:E.
  - intros _. exists e. split; [by left|done].
  - intros H. destruct IH as (e' & ? & ?); [lia|]. exists e'. split; [by right|done].
Qed.

Lemma count_edges_split (p q r : anx_wf_edge → bool) es : (∀ e, e ∈ es → (if p e then 1 else 0 : Z) = (if q e then 1 else 0) + (if r e then 1 else 0))%Z →
  count_edges p es = count_edges q es + count_edges r es.
Proof.
  induction es as [|e es IH]; intros H; [done|]. rewrite !count_edges_cons, (H e) by (by left).
  rewrite IH; [lia|]. intros e' He'. apply H. by right.
Qed.

(** ** Kahn's algorithm *)

Section kahn.
Context (wrap : Z → Z) (edges : list anx_wf_edge) (slots : list Z).
Hypothesis Hwrap : ∀ z, 0 ≤ z ≤ 128 → wrap z = z.
Hypothesis Hfew : Z.of_nat (length edges) ≤ 128.
Hypothesis Hslots : ∀ i, i ∈ slots → 0 ≤ i < 64.
Hypothesis Hnodup : NoDup slots.
Hypothesis Hends : ∀ e, e ∈ edges → from_node e - 1 ∈ slots ∧ to_node e - 1 ∈ slots.

Definition into (i : Z) (e : anx_wf_edge) : bool := to_node e =? i + 1.
Definition waits (v : list bool) (i : Z) (e : anx_wf_edge) : bool := (to_node e =? i + 1) && negb (rd false v (from_node e - 1)).

Lemma indegrees_spec :
  length (indegrees wrap edges) = 64%nat ∧ ∀ i, 0 ≤ i < 64 → rd 0 (indegrees wrap edges) i = count_edges (into i) edges.
Proof.
  unfold indegrees.
  assert (∀ es, (∃ r, es ++ r = edges) →
    let deg := foldl (λ deg e, wr deg (to_node e - 1) (wrap (rd 0 deg (to_node e - 1) + 1))) (replicate 64 0) es in
    length deg = 64%nat ∧ ∀ i, 0 ≤ i < 64 → rd 0 deg i = count_edges (into i) es) as H.
  { intros es. induction es as [|e es IH] using rev_ind; intros [r Hr].
    - split; [done|]. intros i Hi. cbn [foldl]. apply rd_zeros.
    - cbn zeta. rewrite foldl_app. cbn [foldl]. destruct IH as [Hl IH].
      { exists ([e] ++ r). by rewrite app_assoc. }
      assert (e ∈ edges) as He by (rewrite <- Hr; set_solver).
      destruct (Hends e He) as [_ Ht%Hslots].
      assert (Z.of_nat (length es) < 128). { rewrite <- Hr, !length_app in Hfew. cbn in Hfew. lia. }
      split; [by rewrite wr_length|]. intros i Hi. rewrite count_edges_snoc. unfold into at 2.
      destruct (decide (i = to_node e - 1)) as [->|Hne].
      + rewrite rd_wr_eq by lia. rewrite IH by lia. replace (to_node e =? to_node e - 1 + 1) with true by lia.
        apply Hwrap. pose proof (count_edges_nonneg (into (to_node e - 1)) es). pose proof (count_edges_le (into (to_node e - 1)) es). lia.
      + rewrite rd_wr_ne by lia. rewrite IH by lia. replace (to_node e =? i + 1) with false by lia. lia. }
  apply (H edges). exists []. apply app_nil_r.
Qed.

Lemma release_spec i es deg :
  (∀ e, e ∈ es → e ∈ edges) → length deg = 64%nat → (∀ j, 0 ≤ j < 64 → count_edges (λ e, (from_node e =? i + 1) && into j e) es ≤ rd 0 deg j ≤ 128) →
  let deg' := release_successors wrap es i deg in
  length deg' = 64%nat ∧ ∀ j, 0 ≤ j < 64 → rd 0 deg' j = rd 0 deg j - count_edges (λ e, (from_node e =? i + 1) && into j e) es.
Proof.
  unfold release_successors. revert deg. induction es as [|e es IH]; intros deg Hsub Hl Hb.
  { split; [done|]. intros j Hj. cbn [foldl]. change (count_edges _ []) with 0. lia. }
  cbn [foldl]. assert (∀ e', e' ∈ es → e' ∈ edges) as Hsub' by (intros e' ?; apply Hsub; by right).
  destruct (Hends e) as [_ Ht%Hslots]; [apply Hsub; by left|].
  assert (∀ j, 0 ≤ j < 64 → count_edges (λ e, (from_node e =? i + 1) && into j e) (e :: es)
    = (if (from_node e =? i + 1) && into j e then 1 else 0) + count_edges (λ e, (from_node e =? i + 1) && into j e) es) as Hc.
  { intros j Hj. by rewrite count_edges_cons. }
  destruct (Z.eqb_spec (from_node e) (i + 1)) as [Ef|Ef]; cbn [andb] in Hc.
  - set (deg1 := wr deg (to_node e - 1) (wrap (rd 0 deg (to_node e - 1) - 1))).
    assert (∀ j, 0 ≤ j < 64 → rd 0 deg1 j = rd 0 deg j - (if into j e then 1 else 0)) as H1.
    { intros j Hj. unfold deg1, into. destruct (decide (j = to_node e - 1)) as [->|Hne].
      - rewrite rd_wr_eq by lia. replace (to_node e =? to_node e - 1 + 1) with true by lia.
        specialize (Hb (to_node e - 1) Ht). rewrite Hc in Hb by lia. unfold into in Hb at 1.
        replace (to_node e =? to_node e - 1 + 1) with true in Hb by lia.
        pose proof (count_edges_nonneg (λ e0, (from_node e0 =? i + 1) && into (to_node e - 1) e0) es). rewrite Hwrap by lia. done.
      - rewrite rd_wr_ne by lia. replace (to_node e =? j + 1) with false by lia. lia. }
    destruct (IH deg1 Hsub') as [Hl' IH'].
    { unfold deg1. by rewrite wr_length. }
    { intros j Hj. rewrite H1 by done. specialize (Hb j Hj). rewrite Hc in Hb by done. destruct (into j e); lia. }
    split; [done|]. intros j Hj. rewrite IH' by done. rewrite H1, Hc by done. destruct (into j e); lia.
  - destruct (IH deg Hsub' Hl) as [Hl' IH'].
    { intros j Hj. specialize (Hb j Hj). rewrite Hc in Hb by done. lia. }
    split; [done|]. intros j Hj. rewrite IH', Hc by done. lia.
Qed.

(** The state of the algorithm: the counters count the edges from slots not
    visited, and a visited slot has its predecessors visited. *)
Record kahn_state (deg : list Z) (v : list bool) : Prop := {
  ks_deg_len : length deg = 64%nat;
  ks_v_len : length v = 64%nat;
  ks_deg : ∀ i, 0 ≤ i < 64 → rd 0 deg i = count_edges (waits v i) edges;
  ks_closed : ∀ e, e ∈ edges → rd false v (to_node e - 1) = true → rd false v (from_node e - 1) = true;
  ks_acyclic : ∀ x, 0 ≤ x - 1 < 64 → rd false v (x - 1) = true → ¬ tc (edge_rel edges) x x;
}.

Lemma edge_rel_slots x y : edge_rel edges x y → x - 1 ∈ slots ∧ y - 1 ∈ slots.
Proof. intros (e & He & <- & <-). by apply Hends. Qed.

Lemma kahn_visit deg v i :
  kahn_state deg v → i ∈ slots → rd false v i = false → rd 0 deg i = 0 →
  kahn_state (release_successors wrap edges i deg) (wr v i true).
Proof.
  intros [Hdl Hvl Hd Hcl Hac] Hi Hv Hz. pose proof (Hslots i Hi) as Hri.
  assert (∀ e, e ∈ edges → to_node e = i + 1 → rd false v (from_node e - 1) = true) as Hpred.
  { intros e He Ht. rewrite Hd in Hz by done. pose proof (count_edges_zero _ _ Hz e He) as Hw. unfold waits in Hw.
    rewrite Ht, Z.eqb_refl in Hw. cbn in Hw. by apply negb_false_iff in Hw. }
  assert (∀ j, 0 ≤ j < 64 → count_edges (waits v j) edges
    = count_edges (waits (wr v i true) j) edges + count_edges (λ e, (from_node e =? i + 1) && into j e) edges) as Hsplit.
  { intros j Hj. apply count_edges_split. intros e He. destruct (Hends e He) as [Hf%Hslots Ht%Hslots]. unfold waits, into.
    destruct (to_node e =? j + 1); [|by rewrite andb_false_r]. rewrite andb_true_r. cbn [andb].
    destruct (Z.eqb_spec (from_node e) (i + 1)) as [E|E].
    - replace (from_node e - 1) with i by lia. rewrite Hv, rd_wr_eq by lia. done.
    - rewrite rd_wr_ne by lia. destruct (rd false v (from_node e - 1)); done. }
  destruct (release_spec i edges deg) as [Hl' Hd']; [done|done| |].
  { intros j Hj. rewrite Hd by done. pose proof (count_edges_le (waits v j) edges). rewrite Hsplit in * by done.
    pose proof (count_edges_nonneg (waits (wr v i true) j) edges). lia. }
  split; [done|by rewrite wr_length| | |].
  - intros j Hj. rewrite Hd', Hd, Hsplit by done. lia.
  - intros e He. destruct (Hends e He) as [Hf%Hslots Ht%Hslots].
    destruct (decide (from_node e - 1 = i)) as [->|Hne]; [intros _; apply rd_wr_eq; lia|].
    rewrite (rd_wr_ne _ v i (from_node e - 1)) by lia. destruct (decide (to_node e - 1 = i)) as [Et|Hne'].
    + intros _. apply Hpred; [done|lia].
    + rewrite rd_wr_ne by lia. by apply Hcl.
  - intros x Hx Hvx.
    apply (acyclic_extend (edge_rel edges) (λ x, 0 ≤ x - 1 < 64 ∧ rd false v (x - 1) = true) (i + 1)).
    + intros a b [Hb1 Hb2] (e & He & <- & <-). destruct (Hends e He) as [Hf%Hslots _]. split; [lia|by apply Hcl].
    + intros a [Ha1 Ha2]. by apply Hac.
    + intros [_ Hv']. replace (i + 1 - 1) with i in Hv' by lia. congruence.
    + intros a (e & He & <- & Ht). destruct (Hends e He) as [Hf%Hslots _]. split; [lia|by apply Hpred].
    + destruct (decide (x - 1 = i)) as [|Hne]; [right; lia|]. left. split; [done|]. by rewrite rd_wr_ne in Hvx by lia.
Qed.

Lemma unvisited_wr v i : length v = 64%nat → i ∈ slots → rd false v i = false →
  length (filter (λ j, rd false v j = false) slots) = S (length (filter (λ j, rd false (wr v i true) j = false) slots)).
Proof.
  intros Hl Hi Hv. pose proof (Hslots i Hi) as Hri. clear Hends Hfew. revert Hi. induction slots as [|j l IH]; intros Hi; [by apply not_elem_of_nil in Hi|].
  assert (∀ k, k ∈ l → 0 ≤ k < 64) as Hs by (intros k ?; apply Hslots; by right).
  apply NoDup_cons in Hnodup as [Hj Hnd].
  destruct (decide (j = i)) as [->|Hne].
  - rewrite (filter_cons_True _ i), (filter_cons_False _ i); [| |done].
    2: { rewrite rd_wr_eq by lia. done. }
    cbn. f_equal. f_equal. clear IH Hslots Hi. induction l as [|k l IH]; [done|].
    apply not_elem_of_cons in Hj as [Hk Hj]. specialize (Hs k (list_elem_of_here _ _)) as Hk'. apply NoDup_cons in Hnd as [_ Hnd].
    rewrite !(filter_cons _ k), rd_wr_ne by lia. rewrite IH; [done|done|done|]. intros m ?. apply Hs. by right.
  - apply elem_of_cons in Hi as [->|Hi]; [done|]. pose proof (Hslots j (list_elem_of_here _ _)).
    destruct (rd false v j) eqn:Ej.
    + rewrite !filter_cons_False; [by apply IH| |]; [rewrite rd_wr_ne by lia; by rewrite Ej|by rewrite Ej].
    + rewrite !filter_cons_True; [|rewrite rd_wr_ne by lia; by rewrite Ej|by rewrite Ej]. cbn. f_equal. by apply IH.
Qed.

Lemma kahn_spec steps : ∀ deg v, kahn_state deg v → length (filter (λ j, rd false v j = false) slots) = steps →
  kahn wrap edges slots steps deg v = true ↔ acyclic (edge_rel edges).
Proof.
  induction steps as [|steps IH]; intros deg v Hk Hn; cbn [kahn].
  - split; [intros _|done]. intros x Hx. destruct (tc_last _ _ _ Hx) as (z & _ & Hz%edge_rel_slots). destruct Hz as [_ Hz].
    eapply (ks_acyclic _ _ Hk); [by apply Hslots| |exact Hx].
    destruct (rd false v (x - 1)) eqn:E; [done|]. exfalso.
    assert (x - 1 ∈ filter (λ j, rd false v j = false) slots) as Hin by (by apply list_elem_of_filter).
    apply nil_length_inv in Hn. rewrite Hn in Hin. by apply not_elem_of_nil in Hin.
  - destruct (List.find _ slots) as [i|] eqn:Ef.
    + apply List.find_some in Ef as [Hi Hp]. apply list_elem_of_In in Hi.
      apply andb_true_iff in Hp as [Hv%negb_true_iff Hz%Z.eqb_eq].
      apply IH; [by apply kahn_visit|]. rewrite (unvisited_wr v i) in Hn by (done || apply Hk). lia.
    + split; [done|]. intros Hac. exfalso.
      apply (acyclic_source (edge_rel edges) ((λ j, j + 1) <$> filter (λ j, rd false v j = false) slots) Hac).
      { intros E. apply fmap_nil_inv in E. rewrite E in Hn. done. }
      intros x (j & -> & Hj)%list_elem_of_fmap. apply list_elem_of_filter in Hj as [Hv Hj].
      assert (rd 0 deg j ≠ 0) as Hd.
      { pose proof (List.find_none _ _ Ef j (proj1 (list_elem_of_In _ _) Hj)) as Hf. cbn in Hf. rewrite Hv in Hf. cbn in Hf.
        by apply Z.eqb_neq in Hf. }
      rewrite (ks_deg _ _ Hk) in Hd by (by apply Hslots). apply count_edges_pos in Hd as (e & He & Hw). unfold waits in Hw.
      apply andb_true_iff in Hw as [Ht%Z.eqb_eq Hu%negb_true_iff]. destruct (Hends e He) as [Hf _].
      exists (from_node e). split.
      * apply list_elem_of_fmap. exists (from_node e - 1). split; [lia|]. by apply list_elem_of_filter.
      * by exists e.
Qed.

Lemma kahn_initial : kahn_state (indegrees wrap edges) (replicate 64 false).
Proof.
  destruct indegrees_spec as [Hl Hd]. assert (∀ i, rd false (replicate 64 false) i = false) as Hf.
  { intros i. apply rd_zeros. }
  split; [done|done| | |].
  - intros i Hi. rewrite Hd by done. unfold count_edges. do 2 f_equal. apply List.filter_ext. intros e. unfold into, waits. rewrite Hf. by rewrite andb_true_r.
  - intros e He H. by rewrite Hf in H.
  - intros x _ H. by rewrite Hf in H.
Qed.

(** Kahn's algorithm visits every slot exactly when the edges have no cycle. *)
Lemma kahn_acyclic : kahn wrap edges slots (length slots) (indegrees wrap edges) (replicate 64 false) = true ↔ acyclic (edge_rel edges).
Proof.
  apply kahn_spec; [apply kahn_initial|]. f_equal. clear. induction slots as [|j l IH]; [done|].
  rewrite filter_cons_True; [by rewrite IH|]. apply rd_zeros.
Qed.
End kahn.
