(* ===== verification/WfValid.v ===== *)
(** * What the workflow validators accept

    [anx_wf_template_validate] and [validate_graph] against declarative
    descriptions of well-formed templates and graphs. *)

From stdpp Require Import strings.
From S2P Require Import Prelude Uuid StateObject MdSuper Workflow WfTemplates WfGraph.
#[local] Open Scope Z_scope.

(** ** Reflection *)

Lemma forallb_seqZ (p : Z → bool) n : forallb p (seqZ 0 n) = true ↔ ∀ i, 0 ≤ i < n → p i = true.
Proof.
  rewrite forallb_forall. split; intros H i Hi.
  - apply H, list_elem_of_In, elem_of_seqZ. lia.
  - apply H. apply list_elem_of_In, elem_of_seqZ in Hi. lia.
Qed.

Lemma elem_edges (l : list anx_wf_edge) n e : e ∈ edge_at l <$> seqZ 0 n ↔ ∃ i, 0 ≤ i < n ∧ e = edge_at l i.
Proof.
  rewrite list_elem_of_fmap. split; [intros (i & -> & Hi%elem_of_seqZ)|intros (i & Hi & ->)]; exists i; [split; [lia|done]|].
  split; [done|]. apply elem_of_seqZ. lia.
Qed.

(** A character array of [size] characters holds a string. *)
Definition holds_string (text : list Z) (size : Z) : Prop := ∃ i, 0 ≤ i < size ∧ rd 0 text i = 0.

Lemma terminated_iff text size : terminated text size = true ↔ holds_string text size.
Proof.
  unfold terminated, holds_string. rewrite existsb_exists. split.
  - intros (i & Hi%list_elem_of_In%elem_of_seqZ & E%Z.eqb_eq). exists i. split; [lia|done].
  - intros (i & Hi & E). exists i. split; [apply list_elem_of_In, elem_of_seqZ; lia|by apply Z.eqb_eq].
Qed.

(** ** Templates *)

(** Offset and size of the strings of the parameter union, by kind of node. *)
Definition string_members : list (Z * list (nat * Z)) :=
  [(ANX_WF_NODE_TRIGGER, [(0%nat, 64)]); (ANX_WF_NODE_CELL_CALL, [(0%nat, 128)]); (ANX_WF_NODE_MODEL_CALL, [(0%nat, 64); (64%nat, 128)]);
   (ANX_WF_NODE_AGENT_CALL, [(0%nat, 128)]); (ANX_WF_NODE_RETRIEVAL, [(0%nat, 128)]); (ANX_WF_NODE_CONDITION, [(0%nat, 128)]);
   (ANX_WF_NODE_TRANSFORM, [(0%nat, 32); (32%nat, 128)]); (ANX_WF_NODE_OUTPUT, [(0%nat, 64)])].

Record node_wf (node : anx_wf_node) (i : Z) : Prop := {
  nw_id : n_id node = i + 1;
  nw_kind : 0 ≤ n_kind node < 14;
  nw_ports : n_port_count node ≤ 8;
  nw_label : holds_string (n_label node) 64;
  nw_params : Forall (λ km, n_kind node = km.1 → Forall (λ m, holds_string (skipn m.1 (n_params node)) m.2) km.2) string_members;
  nw_port : ∀ p, 0 ≤ p < n_port_count node →
    holds_string (pt_name (port_at node p)) 32 ∧ (pt_dir (port_at node p) = ANX_WF_PORT_IN ∨ pt_dir (port_at node p) = ANX_WF_PORT_OUT)
    ∧ pt_type_tag (port_at node p) ≤ 3;
  nw_promotion : n_kind node = ANX_WF_NODE_CAP_PROMOTION →
    n_port_count node = 2 ∧ pt_dir (port_at node 0) = ANX_WF_PORT_IN ∧ pt_dir (port_at node 1) = ANX_WF_PORT_OUT;
}.

(** The edge leaves an output and enters an input of a type that agrees. *)
Record ports_wf (from to : anx_wf_node) (e : anx_wf_edge) : Prop := {
  pw_from : from_port e < n_port_count from;
  pw_to : to_port e < n_port_count to;
  pw_out : pt_dir (port_at from (from_port e)) = ANX_WF_PORT_OUT;
  pw_in : pt_dir (port_at to (to_port e)) = ANX_WF_PORT_IN;
  pw_type : pt_type_tag (port_at from (from_port e)) = 0 ∨ pt_type_tag (port_at to (to_port e)) = 0
            ∨ pt_type_tag (port_at from (from_port e)) = pt_type_tag (port_at to (to_port e));
}.

Lemma ports_fit_iff from to e : ports_fit from to e = true ↔ ports_wf from to e.
Proof.
  unfold ports_fit. rewrite !andb_true_iff, !orb_true_iff, !Z.ltb_lt, !Z.eqb_eq. split; [intros (((( ? & ?) & ?) & ?) & ?); split; tauto|intros []; tauto].
Qed.

Definition template_edges (t : anx_wf_template) : list anx_wf_edge := edge_at (tm_edges t) <$> seqZ 0 (tm_edge_count t).

Record template_wf (t : anx_wf_template) : Prop := {
  tw_nodes : 1 ≤ tm_node_count t ≤ 64;
  tw_edges : tm_edge_count t ≤ 128;
  tw_tags : tm_tag_count t ≤ 8;
  tw_uri : rd 0 (tm_uri t) 0 ≠ 0 ∧ holds_string (tm_uri t) 128;
  tw_texts : holds_string (tm_display_name t) 64 ∧ holds_string (tm_description t) 256;
  tw_tag : ∀ i, 0 ≤ i < tm_tag_count t → holds_string (rd [] (tm_tags t) i) 32;
  tw_node : ∀ i, 0 ≤ i < tm_node_count t → node_wf (node_at (tm_nodes t) i) i;
  tw_edge : ∀ e, e ∈ template_edges t →
    1 ≤ from_node e ≤ tm_node_count t ∧ 1 ≤ to_node e ≤ tm_node_count t ∧ from_node e ≠ to_node e
    ∧ ports_wf (node_at (tm_nodes t) (from_node e - 1)) (node_at (tm_nodes t) (to_node e - 1)) e;
  tw_producer : ∀ j i, 0 ≤ j < i → i < tm_edge_count t →
    (to_node (edge_at (tm_edges t) j), to_port (edge_at (tm_edges t) j)) ≠ (to_node (edge_at (tm_edges t) i), to_port (edge_at (tm_edges t) i));
  tw_acyclic : acyclic (edge_rel (template_edges t));
}.

(** The unsigned fields of a template. *)
Record template_unsigned (t : anx_wf_template) : Prop := {
  tu_nodes : 0 ≤ tm_node_count t;
  tu_edges : 0 ≤ tm_edge_count t;
  tu_ends : ∀ i, 0 ≤ from_node (edge_at (tm_edges t) i) ∧ 0 ≤ to_node (edge_at (tm_edges t) i);
}.

Lemma node_strings_iff node : node_strings_valid node = true ↔
  holds_string (n_label node) 64
  ∧ Forall (λ km, n_kind node = km.1 → Forall (λ m, holds_string (skipn m.1 (n_params node)) m.2) km.2) string_members.
Proof.
  unfold node_strings_valid, string_members, member. rewrite <- terminated_iff. change ANX_WF_LABEL_MAX with 64.
  rewrite !Forall_cons, Forall_nil. cbn [fst snd]. rewrite !Forall_cons, !Forall_nil. cbn [fst snd]. rewrite <- !terminated_iff.
  change ANX_WF_EXPR_MAX with 128.
  destruct (terminated (n_label node) 64); cbn [negb]; [|naive_solver].
  repeat match goal with
  | |- context [if ?k =? ?c then _ else _] =>
      destruct (Z.eqb_spec k c) as [->|];
      [rewrite ?andb_true_iff; split;
       [intros Hx; split_and!; try done; intros E; first [discriminate E|tauto]
       |intros Hx; destruct_and? Hx; match goal with H : c = c → _ |- _ => specialize (H eq_refl); tauto end]|]
  end.
  tauto.
Qed.

Lemma kind_ok_iff node : kind_ok node = true ↔ 0 ≤ n_kind node < 14.
Proof. unfold kind_ok. rewrite andb_true_iff, Z.leb_le, Z.ltb_lt. done. Qed.

Lemma port_dir_iff p : port_dir_ok p = true ↔ pt_dir p = ANX_WF_PORT_IN ∨ pt_dir p = ANX_WF_PORT_OUT.
Proof. unfold port_dir_ok. by rewrite orb_true_iff, !Z.eqb_eq. Qed.

Lemma template_node_iff node i : template_node_ok node i = true ↔ node_wf node i.
Proof.
  unfold template_node_ok. rewrite !andb_true_iff, Z.eqb_eq, kind_ok_iff, Z.leb_le, node_strings_iff, forallb_seqZ.
  setoid_rewrite andb_true_iff. setoid_rewrite andb_true_iff. setoid_rewrite terminated_iff. setoid_rewrite port_dir_iff. setoid_rewrite Z.leb_le.
  rewrite negb_true_iff, andb_false_iff, Z.eqb_neq, !orb_false_iff, !negb_false_iff, !Z.eqb_eq.
  split.
  - intros (((((Hid & Hk) & Hp) & [Hl Hm]) & Hport) & Hc). split; [exact Hid|exact Hk|exact Hp|exact Hl|exact Hm| |].
    + intros p Hp'. specialize (Hport p Hp'). tauto.
    + intros E. destruct Hc as [|[[? ?] ?]]; [done|]. tauto.
  - intros []. split_and!; try done; try lia.
    + intros p Hp'. specialize (nw_port0 p Hp'). tauto.
Qed.

Lemma template_edge_iff t i : template_unsigned t → 0 ≤ i → template_edge_ok t i = true ↔
  let e := edge_at (tm_edges t) i in
  (1 ≤ from_node e ≤ tm_node_count t ∧ 1 ≤ to_node e ≤ tm_node_count t ∧ from_node e ≠ to_node e
   ∧ ports_wf (node_at (tm_nodes t) (from_node e - 1)) (node_at (tm_nodes t) (to_node e - 1)) e)
  ∧ ∀ j, 0 ≤ j < i → (to_node (edge_at (tm_edges t) j), to_port (edge_at (tm_edges t) j)) ≠ (to_node e, to_port e).
Proof.
  intros [_ _ Hu] Hi. destruct (Hu i). unfold template_edge_ok. cbn zeta.
  rewrite !andb_true_iff, !negb_true_iff, !Z.eqb_neq, !Z.leb_le, ports_fit_iff, forallb_seqZ.
  setoid_rewrite negb_true_iff. setoid_rewrite andb_false_iff. setoid_rewrite Z.eqb_neq.
  split.
  - intros ((((((? & ?) & ?) & ?) & ?) & ?) & Hp). split; [split_and!; try done; lia|].
    intros j Hj [= E1 E2]. destruct (Hp j Hj); congruence.
  - intros ((? & ? & ? & ?) & Hp). split_and!; try done; try lia. intros j Hj. specialize (Hp j Hj).
    destruct (decide (to_node (edge_at (tm_edges t) j) = to_node (edge_at (tm_edges t) i))) as [E|]; [right|by left]. congruence.
Qed.

Lemma u16_small z : 0 ≤ z ≤ 128 → u16 z = z.
Proof. intros. unfold u16. apply Z.mod_small. lia. Qed.

Lemma template_kahn t :
  1 ≤ tm_node_count t ≤ 64 → 0 ≤ tm_edge_count t ≤ 128 →
  (∀ e, e ∈ template_edges t → 1 ≤ from_node e ≤ tm_node_count t ∧ 1 ≤ to_node e ≤ tm_node_count t) →
  kahn u16 (template_edges t) (seqZ 0 (tm_node_count t)) (Z.to_nat (tm_node_count t)) (indegrees u16 (template_edges t)) (replicate 64 false) = true
  ↔ acyclic (edge_rel (template_edges t)).
Proof.
  intros Hn He Hends. replace (Z.to_nat (tm_node_count t)) with (length (seqZ 0 (tm_node_count t))) by apply length_seqZ.
  apply kahn_acyclic.
  - apply u16_small.
  - unfold template_edges. rewrite length_fmap, length_seqZ. lia.
  - intros i Hi%elem_of_seqZ. lia.
  - apply NoDup_seqZ.
  - intros e Hin. destruct (Hends e Hin). split; apply elem_of_seqZ; lia.
Qed.

(** The two results of the validator. *)
Lemma template_validate_codes tp : anx_wf_template_validate tp = ANX_OK ∨ anx_wf_template_validate tp = ANX_EINVAL.
Proof. unfold anx_wf_template_validate. destruct tp; [|by right]. repeat case_match; first [by left|by right]. Qed.

Lemma template_validate_iff t : template_unsigned t → anx_wf_template_validate (Some t) = ANX_OK ↔ template_wf t.
Proof.
  intros Hu. pose proof (tu_nodes _ Hu). pose proof (tu_edges _ Hu). unfold anx_wf_template_validate. split.
  - intros H'.
    repeat match type of H' with (if ?g then _ else _) = _ => destruct g eqn:?; [by vm_compute in H'|] end.
    to_prop. change ANX_WF_MAX_NODES with 64 in *. change ANX_WF_MAX_EDGES with 128 in *. change ANX_WF_LIB_TAGS with 8 in *.
    rewrite ?terminated_iff in *.
    assert (∀ i, 0 ≤ i < tm_edge_count t → template_edge_ok t i = true) as Hedge by (by apply forallb_seqZ).
    assert (∀ e, e ∈ template_edges t → 1 ≤ from_node e ≤ tm_node_count t ∧ 1 ≤ to_node e ≤ tm_node_count t ∧ from_node e ≠ to_node e
      ∧ ports_wf (node_at (tm_nodes t) (from_node e - 1)) (node_at (tm_nodes t) (to_node e - 1)) e) as Hends.
    { intros e (i & Hi & ->)%elem_edges. apply (template_edge_iff t i); [done|lia|]. by apply Hedge. }
    split; try done; try lia.
    + intros i Hi. apply terminated_iff. revert i Hi. by apply forallb_seqZ.
    + intros i Hi. apply template_node_iff. revert i Hi. by apply forallb_seqZ.
    + intros j i Hj Hi. apply (template_edge_iff t i); [done|lia|apply Hedge; lia|lia].
    + apply template_kahn; [lia|lia| |done]. intros e He. destruct (Hends e He) as (? & ? & _). done.
  - intros [Hn He Ht [Hu0 Hu1] [Hx1 Hx2] Htag Hnode Hends Hprod Hac].
    rewrite ?(proj2 (terminated_iff _ _)) by done. change ANX_WF_LIB_URI_MAX with 128.
    rewrite ?(proj2 (terminated_iff _ _)) by done.
    replace (tm_node_count t =? 0) with false by lia. replace (tm_node_count t >? ANX_WF_MAX_NODES) with false by (unfold ANX_WF_MAX_NODES; lia).
    replace (tm_edge_count t >? ANX_WF_MAX_EDGES) with false by (unfold ANX_WF_MAX_EDGES; lia).
    replace (tm_tag_count t >? ANX_WF_LIB_TAGS) with false by (unfold ANX_WF_LIB_TAGS; lia).
    replace (rd 0 (tm_uri t) 0 =? 0) with false by lia. cbn [orb negb].
    rewrite (proj2 (forallb_seqZ _ (tm_tag_count t))) by (intros i Hi; apply terminated_iff; by apply Htag).
    rewrite (proj2 (forallb_seqZ _ (tm_node_count t))) by (intros i Hi; apply template_node_iff; by apply Hnode).
    rewrite (proj2 (forallb_seqZ _ (tm_edge_count t))).
    2: { intros i Hi. apply template_edge_iff; [done|lia|]. split; [|intros j Hj; apply Hprod; lia].
         apply Hends. apply elem_edges. by exists i. }
    cbn [negb]. cbv zeta. fold (template_edges t). rewrite (proj2 (template_kahn t Hn (conj H0 He) (λ e Hin, conj (proj1 (Hends e Hin)) (proj1 (proj2 (Hends e Hin)))))) by done.
    done.
Qed.

(** ** Graphs *)

Record graph_node_wf (node : anx_wf_node) (i : Z) : Prop := {
  gn_id : n_id node = i + 1;
  gn_kind : 0 ≤ n_kind node < 14;
  gn_ports : n_port_count node ≤ 8;
  gn_port : ∀ p, 0 ≤ p < n_port_count node →
    (pt_dir (port_at node p) = ANX_WF_PORT_IN ∨ pt_dir (port_at node p) = ANX_WF_PORT_OUT) ∧ pt_type_tag (port_at node p) ≤ 3;
}.

(** A graph of typed nodes and edges without cycles. *)
Record graph_wf (nodes : list anx_wf_node) (node_count : Z) (edges : list anx_wf_edge) (count : Z) : Prop := {
  gw_arrays : nodes ≠ [] ∧ edges ≠ [];
  gw_nodes : 1 ≤ node_count ≤ 64;
  gw_live : Z.of_nat (length (live_slots nodes)) = node_count;
  gw_count : count ≤ 128;
  gw_used : Z.of_nat (length (used_edges edges)) = count;
  gw_node : ∀ i, i ∈ live_slots nodes → graph_node_wf (node_at nodes i) i;
  gw_edge : ∀ e, e ∈ graph_edges edges →
    1 ≤ from_node e ≤ 64 ∧ 1 ≤ to_node e ≤ 64 ∧ from_node e ≠ to_node e
    ∧ from_node e - 1 ∈ live_slots nodes ∧ to_node e - 1 ∈ live_slots nodes
    ∧ ports_wf (node_at nodes (from_node e - 1)) (node_at nodes (to_node e - 1)) e;
  gw_distinct : ∀ i j, i ∈ used_edges edges → 0 ≤ j < i → edge_at edges j ≠ edge_at edges i;
  gw_acyclic : acyclic (edge_rel (graph_edges edges));
}.

(** The unsigned fields. *)
Record graph_unsigned (wf : anx_wf_object) (edges : list anx_wf_edge) (count : Z) : Prop := {
  gu_nodes : 0 ≤ w_node_count wf;
  gu_count : 0 ≤ count;
  gu_ends : ∀ i, 0 ≤ from_node (edge_at edges i) ∧ 0 ≤ to_node (edge_at edges i);
}.

Lemma elem_live nodes i : i ∈ live_slots nodes ↔ 0 ≤ i < 64 ∧ n_id (node_at nodes i) ≠ 0.
Proof.
  unfold live_slots. rewrite list_elem_of_In, filter_In, <- list_elem_of_In, elem_of_seqZ, negb_true_iff, Z.eqb_neq. change ANX_WF_MAX_NODES with 64.
  intuition lia.
Qed.

Lemma elem_used edges i : i ∈ used_edges edges ↔ 0 ≤ i < 128 ∧ edge_unused (edge_at edges i) = false.
Proof.
  unfold used_edges. rewrite list_elem_of_In, filter_In, <- list_elem_of_In, elem_of_seqZ, negb_true_iff. change ANX_WF_MAX_EDGES with 128.
  intuition lia.
Qed.

Lemma elem_graph_edges edges e : e ∈ graph_edges edges ↔ ∃ i, i ∈ used_edges edges ∧ e = edge_at edges i.
Proof. unfold graph_edges. rewrite list_elem_of_fmap. naive_solver. Qed.

Lemma graph_node_iff node i : graph_node_ok node i = true ↔ graph_node_wf node i.
Proof.
  unfold graph_node_ok. rewrite !andb_true_iff, Z.eqb_eq, kind_ok_iff, Z.leb_le, forallb_seqZ.
  setoid_rewrite andb_true_iff. setoid_rewrite port_dir_iff. setoid_rewrite Z.leb_le.
  split; [intros (((? & ?) & ?) & ?); by split|intros []; split_and!; first [done|lia]].
Qed.

Lemma graph_edge_iff nodes edges i : (0 ≤ from_node (edge_at edges i) ∧ 0 ≤ to_node (edge_at edges i)) → graph_edge_ok nodes edges i = true ↔
  let e := edge_at edges i in
  (1 ≤ from_node e ≤ 64 ∧ 1 ≤ to_node e ≤ 64 ∧ from_node e ≠ to_node e
   ∧ from_node e - 1 ∈ live_slots nodes ∧ to_node e - 1 ∈ live_slots nodes
   ∧ ports_wf (node_at nodes (from_node e - 1)) (node_at nodes (to_node e - 1)) e)
  ∧ ∀ j, 0 ≤ j < i → edge_at edges j ≠ e.
Proof.
  intros [Hf Ht]. unfold graph_edge_ok. cbn zeta. rewrite !elem_live.
  rewrite !andb_true_iff, !negb_true_iff, !Z.eqb_neq, !Z.leb_le, ports_fit_iff, forallb_seqZ.
  setoid_rewrite negb_true_iff. setoid_rewrite bool_decide_eq_false. change ANX_WF_MAX_NODES with 64.
  split.
  - intros ((((((((? & ?) & ?) & ?) & ?) & ?) & ?) & ?) & ?). split; [|done]. split_and!; try done; lia.
  - intros ((? & ? & ? & [? ?] & [? ?] & ?) & ?). split_and!; try done; lia.
Qed.

Lemma graph_kahn nodes edges :
  (∀ e, e ∈ graph_edges edges → from_node e - 1 ∈ live_slots nodes ∧ to_node e - 1 ∈ live_slots nodes) →
  kahn u32 (graph_edges edges) (live_slots nodes) (length (live_slots nodes)) (indegrees u32 (graph_edges edges)) (replicate 64 false) = true
  ↔ acyclic (edge_rel (graph_edges edges)).
Proof.
  intros Hends. apply kahn_acyclic; [| | | |exact Hends].
  - intros z Hz. apply u32_small. unfold is_u32. lia.
  - unfold graph_edges, used_edges. rewrite length_fmap. pose proof (List.filter_length_le (λ i, negb (edge_unused (edge_at edges i))) (seqZ 0 ANX_WF_MAX_EDGES)) as Hle.
    rewrite length_seqZ in Hle. unfold ANX_WF_MAX_EDGES in *. lia.
  - intros i [Hi _]%elem_live. done.
  - unfold live_slots. apply NoDup_ListNoDup, List.NoDup_filter, NoDup_ListNoDup, NoDup_seqZ.
Qed.

Lemma validate_graph_sound wf edges count : graph_unsigned wf edges count →
  validate_graph wf edges count = ANX_OK → graph_wf (w_nodes wf) (w_node_count wf) edges count.
Proof.
  intros [Hn Hc Hends] H'. unfold validate_graph in H'.
  on_guard H' E0; [done|]. on_guard H' E1; [done|]. on_guard H' E2; [done|]. on_guard H' E3; [done|]. on_guard H' E4; [done|].
  on_guard H' E5; [done|]. clear H'. to_prop. rewrite forallb_forall in E1, E3.
  assert (ANX_WF_MAX_NODES = 64 ∧ ANX_WF_MAX_EDGES = 128) as [M1 M2] by done.
  assert (∀ i, i ∈ used_edges edges → graph_edge_ok (w_nodes wf) edges i = true) as Hedge by (intros i Hi%list_elem_of_In; by apply E3).
  assert (∀ e, e ∈ graph_edges edges → 1 ≤ from_node e ≤ 64 ∧ 1 ≤ to_node e ≤ 64 ∧ from_node e ≠ to_node e
    ∧ from_node e - 1 ∈ live_slots (w_nodes wf) ∧ to_node e - 1 ∈ live_slots (w_nodes wf)
    ∧ ports_wf (node_at (w_nodes wf) (from_node e - 1)) (node_at (w_nodes wf) (to_node e - 1)) e) as He.
  { intros e He. apply elem_graph_edges in He as (i & Hi & ->). apply (graph_edge_iff _ edges i); [apply Hends|by apply Hedge]. }
  split; [done|lia|done|lia|done| |exact He| |].
  - intros i Hi%list_elem_of_In. apply graph_node_iff. by apply E1.
  - intros i j Hi Hj. apply (graph_edge_iff (w_nodes wf) edges i); [apply Hends|by apply Hedge|done].
  - apply (graph_kahn (w_nodes wf) edges); [|exact E5]. intros e Hin. destruct (He e Hin) as (_ & _ & _ & ? & ? & _). done.
Qed.

Lemma validate_graph_complete wf edges count : graph_unsigned wf edges count →
  graph_wf (w_nodes wf) (w_node_count wf) edges count → validate_graph wf edges count = ANX_OK.
Proof.
  intros [Hn Hc Hends] [[Ha1 Ha2] Hn1 Hlive Hcnt Hused Hnode Hedge Hdist Hac]. unfold validate_graph.
  rewrite !bool_decide_false by done. replace (w_node_count wf =? 0) with false by lia.
  replace (w_node_count wf >? ANX_WF_MAX_NODES) with false by (unfold ANX_WF_MAX_NODES; lia).
  replace (count >? ANX_WF_MAX_EDGES) with false by (unfold ANX_WF_MAX_EDGES; lia). cbn [orb].
  rewrite (proj2 (forallb_forall _ (live_slots (w_nodes wf)))) by (intros i Hi%list_elem_of_In; apply graph_node_iff; by apply Hnode).
  rewrite (proj2 (forallb_forall _ (used_edges edges))).
  2: { intros i Hi%list_elem_of_In. apply graph_edge_iff; [apply Hends|]. split; [|intros j Hj; by apply Hdist]. apply Hedge. apply elem_graph_edges. by exists i. }
  assert (∀ e, e ∈ graph_edges edges → from_node e - 1 ∈ live_slots (w_nodes wf) ∧ to_node e - 1 ∈ live_slots (w_nodes wf)) as He.
  { intros e Hin. destruct (Hedge e Hin) as (_ & _ & _ & ? & ? & _). done. }
  pose proof (proj2 (graph_kahn (w_nodes wf) edges He) Hac) as Hk.
  rewrite Hlive, Hused, !Z.eqb_refl. cbn [negb]. rewrite Hk. done.
Qed.

(** ** The theorems *)

(** An executable test for the unsigned fields. *)
Lemma template_unsigned_of t :
  (0 <=? tm_node_count t) = true → (0 <=? tm_edge_count t) = true →
  forallb (λ e, (0 <=? from_node e) && (0 <=? to_node e)) (tm_edges t) = true → template_unsigned t.
Proof.
  intros Hn%Z.leb_le He%Z.leb_le Hf. rewrite forallb_forall in Hf. split; [done|done|]. intros i. unfold edge_at, rd.
  destruct (nth_in_or_default (Z.to_nat i) (tm_edges t) zero_edge) as [Hin| ->]; [|done].
  apply Hf in Hin. apply andb_true_iff in Hin as [?%Z.leb_le ?%Z.leb_le]. done.
Qed.

(** C32: The template validator accepts exactly the well-formed templates: counts within the arrays, terminated strings,
    canonical node ids, known kinds, typed ports, edges from outputs to inputs of agreeing type, one producer for each
    input port, and no cycle among the edges.  Every other template, and a null pointer, is refused with [ANX_EINVAL]. *)
Theorem template_validate_exact t :
  template_unsigned t →
  (anx_wf_template_validate (Some t) = ANX_OK ↔ template_wf t)
  ∧ (¬ template_wf t → anx_wf_template_validate (Some t) = ANX_EINVAL) ∧ anx_wf_template_validate None = ANX_EINVAL.
Proof.
  intros Hu. pose proof (template_validate_iff t Hu) as Hiff. split; [done|]. split; [|done]. intros Hnot.
  destruct (template_validate_codes (Some t)) as [E|E]; [|done]. by apply Hiff in E.
Qed.

Lemma template_validate_exact_witness : template_wf tmpl_rag.
Proof.
  apply (template_validate_exact tmpl_rag); [|vm_compute; reflexivity]. by apply template_unsigned_of; vm_compute.
Defined.

(** At boot the library registers all sixteen built-in templates, in order: none is refused and no two share a URI; each is
    a well-formed acyclic graph. *)
Theorem builtin_templates_registered : anx_wf_lib_init [] = (ANX_OK, g_builtins) ∧ Forall template_wf g_builtins.
Proof.
  split; [vm_compute; reflexivity|]. apply Forall_forall. intros t Ht.
  apply template_validate_iff.
  - repeat (apply elem_of_cons in Ht as [->|Ht]; [apply template_unsigned_of; vm_compute; reflexivity|]). by apply not_elem_of_nil in Ht.
  - repeat (apply elem_of_cons in Ht as [->|Ht]; [vm_compute; reflexivity|]). by apply not_elem_of_nil in Ht.
Qed.
