(* ===== verification/WfRuns.v ===== *)
(** * Runs of a workflow

    The executor keeps the graph, dispatches a node only when the nodes before
    it are done, never overruns its queue and stops. *)

From stdpp Require Import strings.
From S2P Require Import Prelude Uuid Cell CellStore Meta StateObject MdSuper Workflow WfTemplates WfExec WfGraph WfValid.
#[local] Open Scope Z_scope.

(** ** What a run leaves alone *)

(** The fields of the topology control a run does not write. *)
Definition same_topology (t t' : anx_wf_topology_control) : Prop :=
  t' <| tp_trace_epoch := 0 |> = t <| tp_trace_epoch := 0 |>.

Record same_graph (wf wf' : anx_wf_object) : Prop := {
  sg_use : w_in_use wf' = w_in_use wf;
  sg_oid : w_oid wf' = w_oid wf;
  sg_nodes : w_nodes wf' = w_nodes wf;
  sg_node_count : w_node_count wf' = w_node_count wf;
  sg_edges : w_edges wf' = w_edges wf;
  sg_edge_count : w_edge_count wf' = w_edge_count wf;
  sg_topology : same_topology (w_topology wf) (w_topology wf');
}.

#[export] Instance same_graph_preorder : PreOrder same_graph.
Proof.
  split.
  - intros wf. by split.
  - intros a b c [] []. unfold same_topology in *. split; congruence.
Qed.

Lemma refresh_same wf completed tab ports : same_graph wf (wf_cache_refresh wf completed tab ports).
Proof. unfold wf_cache_refresh. destruct (cache_scan _ _ _ _ _ _). by split. Qed.

Section runs.
Context (sha256 : list Z → list Z) (uor_attach : anx_state_object → list bool → anx_meta_store * list bool).
Context (work : work_fn) (clock : Z → Z).

Lemma dispatch_same x slot tab r x' : wf_dispatch_node work clock x slot tab = (r, x') → same_graph (x_wf x) (x_wf x').
Proof. unfold wf_dispatch_node. destruct (dispatch_kind _ _ _ _ _ _) as [[[[[? ?] ?] ?] ?] ?]. intros [= <- <-]. by split. Qed.

Lemma suspend_same x id r msg : same_graph (x_wf x) (x_wf (wf_suspend x id r msg)).
Proof. unfold wf_suspend. destruct (next_alloc _) as [[] ?]; by split. Qed.

Lemma release_same id tab es x x' : wf_release id tab es x = Ret x' → x_wf x' = x_wf x.
Proof.
  revert x. induction es as [|e es IH]; intros x; cbn [wf_release]; [by intros [= ->]|].
  repeat case_match; try done; intros H'%IH; by rewrite H'.
Qed.

Lemma wf_step_same x slot tab out : wf_step work clock x slot tab = Ret out →
  same_graph (x_wf x) (x_wf (match out with inl (_, x) => x | inr x => x end)).
Proof.
  unfold wf_step. destruct (wf_dispatch_node _ _ _ _ _) as [r x1] eqn:Ed. apply dispatch_same in Ed.
  case_match. { intros [= <-]. etrans; [exact Ed|]. by split. }
  case_match. { intros [= <-]. etrans; [exact Ed|]. apply suspend_same. }
  destruct (wf_release _ _ _ _) as [x2| |] eqn:Er; try done. apply release_same in Er. intros [= <-]. cbn. rewrite Er. cbn.
  etrans; [exact Ed|]. apply refresh_same.
Qed.

Lemma batch_same tab slots : ∀ x out, wf_batch work clock tab slots x = Ret out →
  same_graph (x_wf x) (x_wf (match out with inl (_, x) => x | inr x => x end)).
Proof.
  induction slots as [|s slots IH]; intros x out; cbn [wf_batch]; [by intros [= <-]|].
  destruct (wf_step _ _ _ _ _) as [out1| |] eqn:Es; try done. cbn [obind]. apply wf_step_same in Es.
  destruct out1 as [[r x1]|x1]; [intros [= <-]; done|]. intros H'%IH. by etrans.
Qed.

Lemma loop_same tab cap fuel : ∀ head x out, wf_loop work clock fuel tab cap head x = Ret out →
  same_graph (x_wf x) (x_wf (match out with inl (_, x) => x | inr x => x end)).
Proof.
  induction fuel as [|fuel IH]; intros head x out; cbn [wf_loop]; case_match; try done; try (by intros [= <-]).
  destruct (wf_batch _ _ _ _ _) as [out1| |] eqn:Eb; try done. cbn [obind]. apply batch_same in Eb.
  destruct out1 as [[r x1]|x1]; [intros [= <-]; done|]. intros H'%IH. by etrans.
Qed.

Lemma inner_same fuel cap x r x' : wf_run_inner work clock fuel cap x = Ret (r, x') → same_graph (x_wf x) (x_wf x').
Proof.
  unfold wf_run_inner. destruct (wf_build_tables _) as [ids tab]. case_match; [intros [= <- <-]; apply refresh_same|].
  destruct (wf_loop _ _ _ _ _ _ _) as [out| |] eqn:El; try done. cbn [obind]. apply loop_same in El.
  assert (same_graph (x_wf x) (x_wf (match out with inl (_, x) => x | inr x => x end))) as Hs.
  { etrans; [|exact El]. apply refresh_same. }
  destruct out as [[r1 x1]|x1]; [intros [= <- <-]; done|]. case_match; intros [= <- <-]; [|done]. etrans; [exact Hs|]. by split.
Qed.

Lemma seal_same fresh addr x r x' : anx_wf_trace_seal sha256 uor_attach clock fresh addr x = (r, x') → same_graph (x_wf x) (x_wf x').
Proof.
  unfold anx_wf_trace_seal. destruct (w_trace_entries (x_wf x)) as [[|e l]|]; try (intros [= <- <-]; done).
  destruct (anx_so_create _ _ _ _ _ _ _ _ _) as [[r1 [a|]] W1]; [|intros [= <- <-]; done].
  destruct (anx_so_seal _ _ _ _) as [r2 W2]. case_match; intros [= <- <-]; by split.
Qed.

Lemma finish_same fresh addr r x : same_graph (x_wf x) (x_wf (wf_finish sha256 uor_attach clock fresh addr r x)).
Proof.
  unfold wf_finish. case_match; [|done]. destruct (anx_wf_trace_seal _ _ _ _ _ _) as [r1 x1] eqn:Es. apply seal_same in Es. cbn.
  etrans; [|exact Es]. by split.
Qed.

Lemma run_same fuel hw fresh addr mem tick wf W r x :
  anx_wf_run sha256 uor_attach work clock fuel hw fresh addr mem tick wf W = Ret (r, x) → same_graph wf (x_wf x).
Proof.
  unfold anx_wf_run. case_match; [by intros [= <- <-]|]. case_match; [by intros [= <- <-]|].
  destruct (next_alloc mem) as [[] mem1]; [|intros [= <- <-]; by split]. cbn [negb].
  destruct (wf_run_inner _ _ _ _ _) as [[r1 x1]| |] eqn:Ei; try done. cbn [obind]. intros [= <- <-]. apply inner_same in Ei.
  etrans; [|apply finish_same]. etrans; [|exact Ei]. by split.
Qed.

Lemma resume_same fuel fresh addr mem tick action repl wf W r x :
  anx_wf_resume sha256 uor_attach work clock fuel fresh addr mem tick action repl wf W = Ret (r, x) →
  tp_enabled (w_topology wf) = true → same_graph wf (x_wf x).
Proof.
  unfold anx_wf_resume. intros H' Hen. revert H'. case_match; [by intros [= <- <-]|]. case_match; [by intros [= <- <-]|].
  destruct (w_continuation wf) as [cont|]; [|case_match; intros [= <- <-]; by split].
  case_match; [intros [= <- <-]; by split|]. rewrite Hen. destruct (action =? ANX_WF_RESUME_REPLACE) eqn:Er; [by intros [= <- <-]|].
  assert (∀ spec, match spec : option anx_wf_node with Some _ => wf | None => wf end = wf) as Hw by (by intros []).
  rewrite (Hw repl). clear Hw.
  destruct (wf_run_inner _ _ _ _ _) as [[r1 x1]| |] eqn:Ei; try done. cbn [obind]. intros [= <- <-]. apply inner_same in Ei.
  etrans; [|apply finish_same]. etrans; [|exact Ei]. by split.
Qed.
End runs.

(** ** The tables of a well-formed graph *)

Lemma build_tables_spec nodes : (∀ i, i ∈ live_slots nodes → n_id (node_at nodes i) = i + 1) →
  (∀ i, 0 ≤ i < 64 → rd 0 (wf_build_tables nodes).1 i = n_id (node_at nodes i))
  ∧ ∀ i, i ∈ live_slots nodes → rd 0 (wf_build_tables nodes).2 (i + 1) = i.
Proof.
  intros Hid. unfold wf_build_tables.
  set (step := λ (tb : list Z * list Z) (i : Z), _).
  assert (∀ n, 0 ≤ n ≤ 64 → let tb := foldl step (replicate 64 0, replicate 65 0) (seqZ 0 n) in
    length tb.1 = 64%nat ∧ length tb.2 = 65%nat
    ∧ (∀ i, 0 ≤ i < 64 → rd 0 tb.1 i = if i <? n then n_id (node_at nodes i) else 0)
    ∧ ∀ i, i ∈ live_slots nodes → i < n → rd 0 tb.2 (i + 1) = i) as H.
  { intros n [Hn Hn']. revert Hn'. pattern n. apply natlike_ind; [| |done].
    - intros _. split_and!; [done|done| |]; [intros i Hi; cbn zeta; replace (i <? 0) with false by lia; apply rd_zeros|].
      intros i [Hi _]%elem_live ?. lia.
    - clear n Hn. intros n Hn IH Hn'. cbn zeta. rewrite <- Z.add_1_r, seqZ_snoc, foldl_app by lia. cbn [foldl]. rewrite Z.add_0_l.
      destruct IH as (H1 & H2 & H3 & H4); [lia|]. set (tb := foldl step _ (seqZ 0 n)) in *. unfold step.
      destruct (Z.eqb_spec (n_id (node_at nodes n)) 0) as [E|E].
      + split_and!; [done|done| |].
        * intros i Hi. rewrite H3 by done. destruct (Z.ltb_spec i n), (Z.ltb_spec i (n + 1)); try lia. replace i with n by lia. done.
        * intros i Hi Hlt. apply H4; [done|]. apply elem_live in Hi as [? ?]. destruct (decide (i = n)) as [->|]; [done|lia].
      + assert (n ∈ live_slots nodes) as Hln by (apply elem_live; split; [lia|done]).
        rewrite (Hid n Hln). change ANX_WF_MAX_NODES with 64. replace (n + 1 <=? 64) with true by lia. cbn [fst snd].
        split_and!; [by rewrite wr_length|by rewrite wr_length| |].
        * intros i Hi. destruct (decide (i = n)) as [->|Hne].
          -- rewrite rd_wr_eq by lia. replace (n <? n + 1) with true by lia. by rewrite (Hid n Hln).
          -- rewrite rd_wr_ne by lia. rewrite H3 by done. destruct (Z.ltb_spec i n), (Z.ltb_spec i (n + 1)); try lia; done.
        * intros i Hi Hlt. pose proof Hi as [? _]%elem_live. destruct (decide (i = n)) as [->|Hne]; [rewrite rd_wr_eq by lia; done|].
          rewrite rd_wr_ne by lia. apply H4; [done|lia]. }
  destruct (H 64) as (_ & _ & H3 & H4); [lia|]. split.
  - intros i Hi. rewrite H3 by done. by replace (i <? 64) with true by lia.
  - intros i Hi. pose proof Hi as [? _]%elem_live. apply H4; [done|lia].
Qed.

(** ** Counting over the edge array *)

Lemma edges_of_array (edges : list anx_wf_edge) : length edges = 128%nat → edge_at edges <$> seqZ 0 128 = edges.
Proof.
  intros Hl. apply list_eq. intros i. rewrite list_lookup_fmap. destruct (decide (i < 128)%nat) as [Hi|Hi].
  - rewrite lookup_seqZ_lt by lia. cbn. unfold edge_at, rd. replace (Z.to_nat (0 + Z.of_nat i)) with i by lia. rewrite nth_lookup.
    destruct (edges !! i) eqn:E; [done|]. apply lookup_ge_None in E. lia.
  - rewrite lookup_seqZ_ge by lia. cbn. symmetry. apply lookup_ge_None. lia.
Qed.

Lemma filter_fmap_edges (edges : list anx_wf_edge) l :
  edge_at edges <$> List.filter (λ i, negb (edge_unused (edge_at edges i))) l = List.filter (λ e, negb (edge_unused e)) (edge_at edges <$> l).
Proof. induction l as [|i l IH]; [done|]. cbn. destruct (edge_unused (edge_at edges i)); cbn; by rewrite IH. Qed.

Lemma graph_edges_filter edges : length edges = 128%nat → graph_edges edges = List.filter (λ e, negb (edge_unused e)) edges.
Proof. intros Hl. unfold graph_edges, used_edges. rewrite filter_fmap_edges. by rewrite edges_of_array. Qed.

Lemma count_edges_filter p q es : (∀ e, p e = true → q e = true) → count_edges p (List.filter q es) = count_edges p es.
Proof.
  intros Hpq. induction es as [|e es IH]; [done|]. cbn [List.filter]. rewrite count_edges_cons. destruct (q e) eqn:Eq.
  - rewrite count_edges_cons. by rewrite IH.
  - rewrite IH. destruct (p e) eqn:Ep; [|lia]. apply Hpq in Ep. congruence.
Qed.

(** ** Scheduling *)

Section schedule.
Context (nodes : list anx_wf_node) (node_count : Z) (edges : list anx_wf_edge) (count : Z).
Hypothesis Hwf : graph_wf nodes node_count edges count.
Hypothesis Hlen : length edges = 128%nat.

#[local] Abbreviation E := (graph_edges edges).
#[local] Abbreviation live := (live_slots nodes).
#[local] Abbreviation tab := (wf_build_tables nodes).2.

Lemma live_range i : i ∈ live → 0 ≤ i < 64.
Proof. by intros [? _]%elem_live. Qed.

Lemma live_id i : i ∈ live → n_id (node_at nodes i) = i + 1.
Proof. intros Hi. by apply (gn_id _ _ (gw_node _ _ _ _ Hwf i Hi)). Qed.

Lemma edge_ends e : e ∈ E → from_node e - 1 ∈ live ∧ to_node e - 1 ∈ live ∧ from_node e ≠ to_node e.
Proof. intros He. destruct (gw_edge _ _ _ _ Hwf e He) as (_ & _ & ? & ? & ? & _). done. Qed.

Lemma tab_slot i : i ∈ live → rd 0 tab (i + 1) = i.
Proof. apply build_tables_spec, live_id. Qed.

Lemma edge_used e : e ∈ edges → from_node e ≠ 0 ∨ to_node e ≠ 0 → e ∈ E.
Proof.
  intros He Hu. rewrite (graph_edges_filter edges Hlen). apply list_elem_of_In, filter_In. split; [by apply list_elem_of_In|]. unfold edge_unused.
  destruct (Z.eqb_spec (from_node e) 0), (Z.eqb_spec (to_node e) 0); cbn; tauto.
Qed.

(** The edges from the node in slot [s] to the node in slot [j]. *)
Definition between (s j : Z) (e : anx_wf_edge) : bool := (from_node e =? s + 1) && into j e.

Lemma count_between_cons s j e es : from_node e = s + 1 →
  count_edges (between s j) (e :: es) = (if j =? to_node e - 1 then 1 else 0) + count_edges (between s j) es.
Proof.
  intros Ef. rewrite count_edges_cons. unfold between at 1, into. replace (from_node e =? s + 1) with true by lia. cbn [andb].
  destruct (Z.eqb_spec (to_node e) (j + 1)), (Z.eqb_spec j (to_node e - 1)); lia.
Qed.

Lemma count_between_skip s j e es : from_node e ≠ s + 1 → count_edges (between s j) (e :: es) = count_edges (between s j) es.
Proof. intros Ef. rewrite count_edges_cons. unfold between at 1. by replace (from_node e =? s + 1) with false by lia. Qed.

(** The counters count the edges from nodes not completed, and [extra]; a
    completed node has its predecessors completed. *)
Record progress (v : list bool) (deg : list Z) (extra : Z → Z) : Prop := {
  pg_v_len : length v = 64%nat;
  pg_deg_len : length deg = 64%nat;
  pg_deg : ∀ j, 0 ≤ j < 64 → rd 0 deg j = count_edges (waits v j) E + extra j;
  pg_closed : ∀ e, e ∈ E → rd false v (to_node e - 1) = true → rd false v (from_node e - 1) = true;
  pg_done_live : ∀ j, 0 ≤ j < 64 → rd false v j = true → j ∈ live;
}.

(** The queue holds, once each, the slots that have become ready. *)
Record sched (v : list bool) (deg queue : list Z) (extra : Z → Z) : Prop := {
  sc_v_len : length v = 64%nat;
  sc_deg_len : length deg = 64%nat;
  sc_deg : ∀ j, 0 ≤ j < 64 → rd 0 deg j = count_edges (waits v j) E + extra j;
  sc_closed : ∀ e, e ∈ E → rd false v (to_node e - 1) = true → rd false v (from_node e - 1) = true;
  sc_done_live : ∀ j, 0 ≤ j < 64 → rd false v j = true → j ∈ live;
  sc_live : ∀ j, j ∈ queue → j ∈ live;
  sc_nodup : NoDup queue;
  sc_ready : ∀ j, j ∈ queue → rd false v j = true ∨ rd 0 deg j = 0;
  sc_all : ∀ j, j ∈ live → rd false v j = false → rd 0 deg j = 0 → j ∈ queue;
}.

Lemma sched_progress v deg queue extra : sched v deg queue extra → progress v deg extra.
Proof. intros []. by split. Qed.

Lemma sched_queue_short v deg queue extra j : sched v deg queue extra → j ∈ live → j ∉ queue → (length queue < 64)%nat.
Proof.
  intros Hs Hj Hn. assert (length (j :: queue) ≤ length (seqZ 0 64))%nat as Hle; [|rewrite length_seqZ in Hle; cbn in Hle; lia].
  apply submseteq_length, NoDup_submseteq.
  - constructor; [done|apply Hs].
  - intros k [->|Hk]%elem_of_cons; apply elem_of_seqZ; [apply live_range in Hj; lia|].
    apply (sc_live _ _ _ _ Hs) in Hk. apply live_range in Hk. lia.
Qed.

Lemma release_sched s es : s ∈ live → ∀ x, (∀ e, e ∈ es → edge_unused e = false → e ∈ E) →
  (∀ e, e ∈ E → from_node e = s + 1 → rd false (x_completed x) (to_node e - 1) = false) →
  sched (x_completed x) (x_deg x) (x_queue x) (λ j, count_edges (between s j) es) →
  ∃ deg' queue', wf_release (s + 1) tab es x = Ret (x <| x_deg := deg' |> <| x_queue := x_queue x ++ queue' |>)
    ∧ sched (x_completed x) deg' (x_queue x ++ queue') (λ _, 0)
    ∧ ∀ j, j ∈ queue' → rd false (x_completed x) j = false.
Proof.
  intros Hs. pose proof (live_range s Hs). induction es as [|e es IH]; intros x Hsub Hv Hsc.
  { exists (x_deg x), []. rewrite app_nil_r. split; [by destruct x|]. split; [|by intros j ?%not_elem_of_nil]. destruct Hsc. split; done. }
  assert (∀ e', e' ∈ es → edge_unused e' = false → e' ∈ E) as Hsub' by (intros; apply Hsub; [by right|done]).
  cbn [wf_release]. destruct (Z.eqb_spec (from_node e) (s + 1)) as [Ef|Ef]; cbn [negb orb].
  2: { apply (IH x Hsub' Hv). destruct Hsc as [h1 h2 h3 h4 h5 h6 h7 h8 h9]. split; [exact h1|exact h2| |exact h4|exact h5|exact h6|exact h7|exact h8|exact h9].
       intros j Hj. rewrite h3 by done. by rewrite count_between_skip. }
  assert (e ∈ E) as He. { apply Hsub; [by left|]. unfold edge_unused. replace (from_node e =? 0) with false by lia. done. }
  destruct (edge_ends e He) as (_ & Ht & Hne). pose proof (live_range _ Ht) as Hr. set (t := to_node e - 1) in *.
  change ANX_WF_MAX_NODES with 64. replace (to_node e =? 0) with false by lia. replace (to_node e >? 64) with false by lia. cbn [orb].
  replace (to_node e) with (t + 1) by lia. rewrite (tab_slot t Ht). replace (t >=? 64) with false by lia. cbn zeta.
  assert (∀ j, count_edges (between s j) (e :: es) = (if j =? t then 1 else 0) + count_edges (between s j) es) as Hc
    by (intros j; by apply count_between_cons).
  pose proof (sc_deg _ _ _ _ Hsc t Hr) as Hd. cbn beta in Hd. rewrite Hc, Z.eqb_refl in Hd.
  pose proof (count_edges_nonneg (waits (x_completed x) t) E). pose proof (count_edges_nonneg (between s t) es).
  replace (rd 0 (x_deg x) t >? 0) with true by lia. set (d := rd 0 (x_deg x) t - 1).
  set (x1 := x <| x_deg := wr (x_deg x) t d |>).
  assert (rd false (x_completed x) t = false) as Hvt by (by apply Hv).
  assert (t ∉ x_queue x) as Htq. { intros Hin. destruct (sc_ready _ _ _ _ Hsc t Hin); [congruence|lia]. }
  assert (∀ j, 0 ≤ j < 64 → rd 0 (wr (x_deg x) t d) j
    = count_edges (waits (x_completed x) j) E + count_edges (between s j) es) as Hdeg1.
  { intros j Hj. pose proof (sc_deg _ _ _ _ Hsc j Hj) as Hdj. cbn beta in Hdj. rewrite Hc in Hdj. destruct (Z.eqb_spec j t) as [->|Hjt].
    - rewrite rd_wr_eq by (rewrite (sc_deg_len _ _ _ _ Hsc); lia). unfold d. lia.
    - rewrite rd_wr_ne by lia. lia. }
  destruct Hsc as [h1 h2 h3 h4 h5 h6 h7 h8 h9].
  assert (∀ q, (∀ j, j ∈ q → j = t) → (d = 0 → t ∈ q) → NoDup (x_queue x ++ q) → (q ≠ [] → d = 0) →
    sched (x_completed x) (wr (x_deg x) t d) (x_queue x ++ q) (λ j, count_edges (between s j) es)) as Hsc1.
  { intros q Hq1 Hq2 Hnd Hq3. split; [exact h1|by rewrite wr_length|exact Hdeg1|exact h4|exact h5| |exact Hnd| |].
    - intros j [Hj|Hj]%elem_of_app; [by apply h6|]. by rewrite (Hq1 j Hj).
    - intros j [Hj|Hj]%elem_of_app.
      + rewrite rd_wr_ne; [by apply h8|lia|apply h6, live_range in Hj; lia|]. intros ->. done.
      + right. rewrite (Hq1 j Hj). rewrite rd_wr_eq by (rewrite h2; lia). apply Hq3. intros ->. by apply not_elem_of_nil in Hj.
    - intros j Hj Hvj Hdj. apply elem_of_app. destruct (decide (j = t)) as [->|Hjt].
      + right. apply Hq2. by rewrite rd_wr_eq in Hdj by (rewrite h2; lia).
      + left. pose proof (live_range j Hj). rewrite rd_wr_ne in Hdj by lia. by apply h9. }
  destruct (Z.eqb_spec d 0) as [Ed|Ed]; cbn [andb].
  - change (x_completed x1) with (x_completed x). rewrite Hvt. cbn [negb].
    assert (length (x_queue x) < 64)%nat as Hshort.
    { apply (sched_queue_short (x_completed x) (x_deg x) (x_queue x) (λ j, count_edges (between s j) (e :: es)) t); [by split|done|done]. }
    change (x_queue x1) with (x_queue x). replace (Z.of_nat (length (x_queue x)) <? 64) with true by lia.
    pose (x2 := x1 <| x_queue := x_queue x1 ++ [t] |>). destruct (IH x2 Hsub' Hv) as (deg' & q' & Hrun & Hsc' & Hq').
    { apply (Hsc1 [t]); [by intros j ->%list_elem_of_singleton|intros _; by apply list_elem_of_singleton| |done].
      apply NoDup_app. split_and!; [done| |apply NoDup_singleton]. intros j Hj ->%list_elem_of_singleton. done. }
    exists deg', (t :: q'). change (t :: q') with ([t] ++ q'). rewrite app_assoc. split; [exact Hrun|]. split; [exact Hsc'|].
    intros j [->|Hj]%elem_of_cons; [done|by apply Hq'].
  - destruct (IH x1 Hsub' Hv) as (deg' & q' & Hrun & Hsc' & Hq').
    { pose proof (Hsc1 []) as Hsc0. rewrite app_nil_r in Hsc0. apply Hsc0; [by intros j ?%not_elem_of_nil|done|done|done]. }
    exists deg', q'. split; [exact Hrun|]. split; [exact Hsc'|exact Hq'].
Qed.

(** Completing a slot that waits for no other. *)
Lemma complete_progress v deg s : progress v deg (λ _, 0) → s ∈ live → rd false v s = false → rd 0 deg s = 0 →
  progress (wr v s true) deg (λ j, count_edges (between s j) edges).
Proof.
  intros [h1 h2 h3 h4 h5] Hs Hv Hd. pose proof (live_range s Hs) as Hr.
  assert (∀ e, e ∈ E → to_node e = s + 1 → rd false v (from_node e - 1) = true) as Hpred.
  { intros e He Ht. rewrite h3, Z.add_0_r in Hd by done. pose proof (count_edges_zero _ _ Hd e He) as Hw. unfold waits in Hw.
    rewrite Ht, Z.eqb_refl in Hw. cbn in Hw. by apply negb_false_iff in Hw. }
  split; [by rewrite wr_length|done| | |].
  - intros j Hj. rewrite h3 by done. rewrite Z.add_0_r.
    replace (count_edges (between s j) edges) with (count_edges (between s j) E).
    2: { rewrite (graph_edges_filter edges Hlen). apply count_edges_filter. intros e [He%Z.eqb_eq _]%andb_true_iff. unfold edge_unused.
         replace (from_node e =? 0) with false by lia. done. }
    apply count_edges_split. intros e He. destruct (edge_ends e He) as (Hf%live_range & Ht%live_range & _). unfold waits, between, into.
    destruct (to_node e =? j + 1); [|by rewrite andb_false_r]. rewrite andb_true_r. cbn [andb].
    destruct (Z.eqb_spec (from_node e) (s + 1)) as [E1|E1].
    + replace (from_node e - 1) with s by lia. rewrite Hv, rd_wr_eq by lia. done.
    + rewrite rd_wr_ne by lia. destruct (rd false v (from_node e - 1)); done.
  - intros e He. destruct (edge_ends e He) as (Hf%live_range & Ht%live_range & _).
    destruct (decide (from_node e - 1 = s)) as [->|Hne]; [intros _; apply rd_wr_eq; lia|].
    rewrite (rd_wr_ne _ v s (from_node e - 1)) by lia. destruct (decide (to_node e - 1 = s)) as [Et|Hne'].
    + intros _. apply Hpred; [done|lia].
    + rewrite rd_wr_ne by lia. by apply h4.
  - intros j Hj. destruct (decide (j = s)) as [->|Hne]; [done|]. rewrite rd_wr_ne by lia. by apply h5.
Qed.

Lemma complete_sched v deg queue s : sched v deg queue (λ _, 0) → s ∈ live → rd false v s = false → rd 0 deg s = 0 →
  sched (wr v s true) deg queue (λ j, count_edges (between s j) edges).
Proof.
  intros Hsc Hs Hv Hd. destruct (complete_progress v deg s (sched_progress _ _ _ _ Hsc) Hs Hv Hd) as [g1 g2 g3 g4 g5].
  destruct Hsc as [h1 h2 h3 h4 h5 h6 h7 h8 h9]. pose proof (live_range s Hs) as Hr. split; [done..|done|done| |].
  - intros j Hj. destruct (decide (j = s)) as [->|Hne]; [left; apply rd_wr_eq; lia|]. pose proof (live_range j (h6 j Hj)).
    rewrite rd_wr_ne by lia. by apply h8.
  - intros j Hj Hvj Hdj. pose proof (live_range j Hj). destruct (decide (j = s)) as [->|Hne]; [rewrite rd_wr_eq in Hvj by lia; done|].
    rewrite rd_wr_ne in Hvj by lia. by apply h9.
Qed.

(** ** The trace *)

Definition ok_ids (l : list anx_wf_trace_entry) : list Z := te_node_id <$> List.filter (λ e, te_result e =? ANX_OK) l.

(** A trace in which every node is dispatched after the nodes it depends on have
    succeeded (or were skipped), and never again after it has succeeded. *)
Inductive dispatched (skipped : list Z) : list anx_wf_trace_entry → Prop :=
  | dispatched_nil : dispatched skipped []
  | dispatched_snoc l e :
      dispatched skipped l → te_node_id e ∉ ok_ids l →
      (∀ a, edge_rel E a (te_node_id e) → a ∈ ok_ids l ∨ a ∈ skipped) → dispatched skipped (l ++ [e]).

Lemma ok_ids_snoc l e : ok_ids (l ++ [e]) = ok_ids l ++ (if te_result e =? ANX_OK then [te_node_id e] else []).
Proof. unfold ok_ids. rewrite List.filter_app. cbn. destruct (te_result e =? ANX_OK); [by rewrite fmap_app|by rewrite app_nil_r, app_nil_r]. Qed.

Definition entry_of (e : anx_wf_trace_entry) : Prop :=
  te_node_id e - 1 ∈ live ∧ te_node_kind e = n_kind (node_at nodes (te_node_id e - 1)).

(** The recorded trace of an executor with the completed slots [v]; the table
    has room for 64 entries. *)
Definition trace_inv (skipped : list Z) (entries : option (list anx_wf_trace_entry)) (v : list bool) : Prop :=
  match entries with
  | None => False
  | Some l =>
      (length l ≤ 64)%nat ∧ dispatched skipped l ∧ Forall entry_of l
      ∧ ((length l < 64)%nat → ∀ j, 0 ≤ j < 64 → rd false v j = true ↔ (j + 1 ∈ ok_ids l ∨ j + 1 ∈ skipped))
  end.

(** The table after the dispatch of the slot [s] with result [r]. *)
Definition record (entries : option (list anx_wf_trace_entry)) (e : anx_wf_trace_entry) : option (list anx_wf_trace_entry) :=
  match entries with
  | Some l => Some (if Z.of_nat (length l) <? ANX_WF_MAX_NODES then l ++ [e] else l)
  | None => None
  end.

Lemma record_trace skipped entries v deg queue e s :
  trace_inv skipped entries v → sched v deg queue (λ _, 0) → s ∈ live → rd false v s = false → rd 0 deg s = 0 →
  te_node_id e = s + 1 → entry_of e →
  trace_inv skipped (record entries e) (if te_result e =? ANX_OK then wr v s true else v).
Proof.
  intros Ht Hsc Hs Hv Hd He Hof. pose proof (live_range s Hs) as Hr. destruct entries as [l|]; [|done]. cbn [record]. destruct Ht as (Hl & Hdi & Hall & Hrel).
  change ANX_WF_MAX_NODES with 64. destruct (Z.ltb_spec (Z.of_nat (length l)) 64) as [Hlt|Hge].
  2: { split; [lia|]. split; [done|]. split; [done|]. intros ?. lia. }
  specialize (Hrel ltac:(lia)). split; [rewrite length_app; cbn; lia|]. split_and!.
  - constructor; [done| |].
    + rewrite He. intros Hin. assert (rd false v s = true) by (apply Hrel; [done|by left]). congruence.
    + intros a (ed & Hed & <- & Hto). rewrite He in Hto. destruct (edge_ends ed Hed) as (Hf%live_range & _ & _).
      replace (from_node ed) with (from_node ed - 1 + 1) by lia. apply Hrel; [done|].
      rewrite (sc_deg _ _ _ _ Hsc), Z.add_0_r in Hd by done. pose proof (count_edges_zero _ _ Hd ed Hed) as Hw. unfold waits in Hw.
      rewrite Hto, Z.eqb_refl in Hw. cbn in Hw. by apply negb_false_iff in Hw.
  - apply Forall_app. split; [done|]. by constructor.
  - intros _ j Hj. rewrite ok_ids_snoc. destruct (te_result e =? ANX_OK).
    + rewrite He. destruct (decide (j = s)) as [->|Hne].
      * rewrite rd_wr_eq by (rewrite (sc_v_len _ _ _ _ Hsc); lia). split; [intros _; left; set_solver|done].
      * rewrite rd_wr_ne by lia. rewrite Hrel by done. rewrite elem_of_app, list_elem_of_singleton. intuition lia.
    + rewrite app_nil_r. by apply Hrel.
Qed.

(** ** The executor *)

Context (work : work_fn) (clock : Z → Z).

(** The slots before [p] are done, the others are not. *)
Definition split_at (v : list bool) (queue : list Z) (p : nat) : Prop :=
  (∀ j, j ∈ take p queue → rd false v j = true) ∧ ∀ j, j ∈ drop p queue → rd false v j = false.

(** The executor before the [p]-th slot of its queue. *)
Record exec_inv (skipped : list Z) (x : exec) (p : nat) : Prop := {
  ei_nodes : w_nodes (x_wf x) = nodes;
  ei_edges : w_edges (x_wf x) = edges;
  ei_sched : sched (x_completed x) (x_deg x) (x_queue x) (λ _, 0);
  ei_split : split_at (x_completed x) (x_queue x) p;
  ei_processed : x_processed x = completed_count (x_completed x);
  ei_running : w_run_state (x_wf x) = ANX_WF_RUN_RUNNING;
  ei_trace : trace_inv skipped (w_trace_entries (x_wf x)) (x_completed x);
}.

(** A run without an interruption has completed and recorded the queue up to
    [p]. *)
Definition unbroken (x : exec) (p : nat) : Prop :=
  (∀ j, 0 ≤ j < 64 → rd false (x_completed x) j = true → j ∈ take p (x_queue x)) ∧
  ∃ l, w_trace_entries (x_wf x) = Some l ∧ te_node_id <$> l = (λ j, j + 1) <$> take p (x_queue x) ∧ Forall (λ e, te_result e = ANX_OK) l.

(** A suspended workflow from which a run can continue. *)
Record resumable (skipped : list Z) (wf : anx_wf_object) (c : anx_wf_continuation) : Prop := {
  rs_cont : w_continuation wf = Some c;
  rs_progress : progress (wc_completed c) (wc_in_deg c) (λ _, 0);
  rs_failed : wc_failed_node_id c - 1 ∈ live ∧ rd false (wc_completed c) (wc_failed_node_id c - 1) = false
              ∧ rd 0 (wc_in_deg c) (wc_failed_node_id c - 1) = 0;
  rs_trace : trace_inv skipped (w_trace_entries wf) (wc_completed c);
}.

(** How a run can stop before the end of the queue. *)
Inductive stopped (skipped : list Z) (r : Z) (wf : anx_wf_object) : Prop :=
  | stopped_review : r = ANX_OK → w_run_state wf = ANX_WF_RUN_WAITING_HUMAN →
      (∃ v, trace_inv skipped (w_trace_entries wf) v) → stopped skipped r wf
  | stopped_suspended c : r ≠ ANX_OK → w_run_state wf = ANX_WF_RUN_SUSPENDED → w_last_status wf = r → wc_error_code c = r →
      resumable skipped wf c → stopped skipped r wf
  | stopped_memory : r ≠ ANX_OK → w_run_state wf = ANX_WF_RUN_FAILED → w_last_status wf = ANX_ENOMEM →
      (∃ v, trace_inv skipped (w_trace_entries wf) v) → stopped skipped r wf.

Lemma completed_count_wr v s : length v = 64%nat → 0 ≤ s < 64 → rd false v s = false →
  completed_count (wr v s true) = completed_count v + 1.
Proof.
  intros Hl Hs Hv. unfold completed_count. change ANX_WF_MAX_NODES with 64.
  assert (∀ l, NoDup l → (∀ j, j ∈ l → 0 ≤ j) → Z.of_nat (length (List.filter (rd false (wr v s true)) l))
    = Z.of_nat (length (List.filter (rd false v) l)) + (if bool_decide (s ∈ l) then 1 else 0)) as H.
  { induction l as [|j l IH]; intros Hnd Hpos; [done|]. apply NoDup_cons in Hnd as [Hj Hnd]. cbn [List.filter].
    specialize (IH Hnd (λ k Hk, Hpos k (list_elem_of_further _ _ _ Hk))). pose proof (Hpos j (list_elem_of_here _ _)).
    destruct (decide (j = s)) as [->|Hne].
    - rewrite rd_wr_eq by lia. rewrite Hv. rewrite bool_decide_false in IH by done. rewrite bool_decide_true by (by left). cbn [length]. lia.
    - rewrite rd_wr_ne by lia. rewrite (bool_decide_ext (s ∈ j :: l) (s ∈ l)) by set_solver. destruct (rd false v j); cbn [length]; lia. }
  rewrite H; [|apply NoDup_seqZ|intros j Hj%elem_of_seqZ; lia]. rewrite bool_decide_true; [lia|]. apply elem_of_seqZ. lia.
Qed.

Lemma completed_count_range v : 0 ≤ completed_count v ≤ 64.
Proof.
  unfold completed_count. pose proof (List.filter_length_le (rd false v) (seqZ 0 ANX_WF_MAX_NODES)) as H. rewrite length_seqZ in H.
  unfold ANX_WF_MAX_NODES in *. lia.
Qed.

Lemma dispatch_spec x s r x1 : w_nodes (x_wf x) = nodes → s ∈ live → wf_dispatch_node work clock x s tab = (r, x1) →
  ∃ e, te_node_id e = s + 1 ∧ te_result e = r ∧ entry_of e ∧ w_trace_entries (x_wf x1) = record (w_trace_entries (x_wf x)) e
    ∧ same_graph (x_wf x) (x_wf x1) ∧ w_run_state (x_wf x1) = w_run_state (x_wf x)
    ∧ x_deg x1 = x_deg x ∧ x_completed x1 = x_completed x ∧ x_queue x1 = x_queue x ∧ x_processed x1 = x_processed x.
Proof.
  intros Hn Hs Hd. pose proof (dispatch_same work clock x s tab r x1 Hd) as Hsame. revert Hd. unfold wf_dispatch_node.
  destruct (dispatch_kind _ _ _ _ _ _) as [[[[[r' row] cid] trace] outs] W]. intros [= <- <-]. eexists. split; [|split; [|split; [|split]]].
  5: split_and!; try done. 4: reflexivity. all: cbn [te_node_id te_result].
  - rewrite Hn. by apply live_id.
  - done.
  - unfold entry_of. cbn [te_node_id te_node_kind]. rewrite Hn, live_id by done. replace (s + 1 - 1) with s by lia. split; [done|].
    pose proof (gn_kind _ _ (gw_node _ _ _ _ Hwf s Hs)). apply Z.mod_small. lia.
Qed.

Lemma split_advance v deg queue p s rest q' :
  sched v deg queue (λ _, 0) → split_at v queue p → drop p queue = s :: rest → (∀ j, j ∈ q' → rd false (wr v s true) j = false) →
  take (S p) (queue ++ q') = take p queue ++ [s] ∧ split_at (wr v s true) (queue ++ q') (S p).
Proof.
  intros Hsc [Hdone Htodo] Hq Hq'. pose proof (take_drop p queue) as Htd. rewrite Hq in Htd.
  assert (p < length queue)%nat as Hp by (apply (f_equal length) in Hq; rewrite length_drop in Hq; cbn in Hq; lia).
  assert (queue !! p = Some s) as Hl by (rewrite <- (Nat.add_0_r p), <- lookup_drop, Hq; done).
  assert (∀ j, j ∈ queue → 0 ≤ j < 64) as Hrange by (intros j Hj; apply live_range, (sc_live _ _ _ _ Hsc); done).
  assert (s ∈ queue) as Hs by (by eapply list_elem_of_lookup_2). pose proof (Hrange s Hs).
  assert (s ∉ rest) as Hsr.
  { pose proof (sc_nodup _ _ _ _ Hsc) as Hnd. rewrite <- Htd in Hnd. apply NoDup_app in Hnd as (_ & _ & Hnd). by apply NoDup_cons in Hnd as [? _]. }
  assert (take (S p) (queue ++ q') = take p queue ++ [s]) as Htk by (rewrite take_app_le by lia; by apply take_S_r).
  split; [done|]. unfold split_at. rewrite Htk. split; intros j Hj.
  - apply elem_of_app in Hj as [Hj| ->%list_elem_of_singleton]; [|apply rd_wr_eq; rewrite (sc_v_len _ _ _ _ Hsc); lia].
    pose proof (Hdone j Hj) as Hvj. assert (j ≠ s) by (intros ->; rewrite Htodo in Hvj; [done|rewrite Hq; by left]).
    rewrite rd_wr_ne; [done|lia| |done]. apply Hrange. rewrite <- Htd. apply elem_of_app. by left.
  - rewrite drop_app_le in Hj by lia. replace (S p) with (p + 1)%nat in Hj by lia. rewrite <- drop_drop, Hq in Hj. cbn [drop] in Hj.
    apply elem_of_app in Hj as [Hj|Hj]; [|by apply Hq']. assert (j ≠ s) by (intros ->; done).
    rewrite rd_wr_ne; [apply Htodo; rewrite Hq; by right|lia| |done]. apply Hrange. rewrite <- Htd. apply elem_of_app. right. by right.
Qed.

Lemma queue_bounded v deg queue extra : sched v deg queue extra → (length queue ≤ 64)%nat.
Proof.
  intros Hsc. assert (length queue ≤ length (seqZ 0 64))%nat as Hle; [|by rewrite length_seqZ in Hle].
  apply submseteq_length, NoDup_submseteq; [apply Hsc|]. intros k Hk%(sc_live _ _ _ _ Hsc)%live_range. apply elem_of_seqZ. lia.
Qed.

(** The state in which the successors of [s] are released: [s] is completed. *)
Lemma step_release x x3 s : sched (x_completed x) (x_deg x) (x_queue x) (λ _, 0) → s ∈ live →
  rd false (x_completed x) s = false → rd 0 (x_deg x) s = 0 →
  x_completed x3 = wr (x_completed x) s true → x_deg x3 = x_deg x → x_queue x3 = x_queue x →
  ∃ deg' q', wf_release (s + 1) tab edges x3 = Ret (x3 <| x_deg := deg' |> <| x_queue := x_queue x ++ q' |>)
    ∧ sched (wr (x_completed x) s true) deg' (x_queue x ++ q') (λ _, 0) ∧ ∀ j, j ∈ q' → rd false (wr (x_completed x) s true) j = false.
Proof.
  intros Hsc Hs Hv Hd Hc3 Hd3 Hq3. pose proof (live_range s Hs).
  destruct (release_sched s edges Hs x3) as (deg' & q' & Hrel & Hsc4 & Hq4).
  - intros e' He' Hu. apply edge_used; [done|]. apply andb_false_iff in Hu as [?%Z.eqb_neq|?%Z.eqb_neq]; tauto.
  - intros e' He' Hf. destruct (edge_ends e' He') as (_ & Ht%live_range & Hne). rewrite Hc3, rd_wr_ne by lia.
    destruct (rd false (x_completed x) (to_node e' - 1)) eqn:Et; [|done]. apply (sc_closed _ _ _ _ Hsc e' He') in Et.
    replace (from_node e' - 1) with s in Et by lia. congruence.
  - rewrite Hc3, Hd3, Hq3. by apply complete_sched.
  - rewrite Hc3, Hq3 in *. by exists deg', q'.
Qed.

Lemma step_unbroken x x' e p s q' : sched (x_completed x) (x_deg x) (x_queue x) (λ _, 0) → (p < length (x_queue x))%nat →
  te_node_id e = s + 1 → te_result e = ANX_OK → w_trace_entries (x_wf x') = record (w_trace_entries (x_wf x)) e →
  x_queue x' = x_queue x ++ q' → take (S p) (x_queue x ++ q') = take p (x_queue x) ++ [s] →
  s ∈ live → x_completed x' = wr (x_completed x) s true → unbroken x p → unbroken x' (S p).
Proof.
  intros Hsc Hp Hid Hok Hent Hq Htk Hs Hc (Hdone & l & Hl & Hids & Hall). pose proof (live_range s Hs). split.
  { intros j Hj. rewrite Hc, Hq, Htk, elem_of_app, list_elem_of_singleton. destruct (decide (j = s)) as [->|Hne]; [by right|].
    rewrite rd_wr_ne by lia. intros ?. left. by apply Hdone. }
  exists (l ++ [e]). rewrite Hent, Hl, Hq, Htk. cbn [record]. split_and!.
  - apply (f_equal length) in Hids. rewrite !length_fmap, length_take in Hids. pose proof (queue_bounded _ _ _ _ Hsc).
    change ANX_WF_MAX_NODES with 64. by replace (Z.of_nat (length l) <? 64) with true by lia.
  - rewrite !fmap_app, Hids. cbn. by rewrite Hid.
  - apply Forall_app. split; [done|]. by constructor.
Qed.

Lemma step_spec skipped x p s rest : exec_inv skipped x p → drop p (x_queue x) = s :: rest →
  ∃ out, wf_step work clock x s tab = Ret out ∧
    match out with
    | inl (r, x') => stopped skipped r (x_wf x')
    | inr x' => exec_inv skipped x' (S p) ∧ (∃ q, x_queue x' = x_queue x ++ q) ∧ (unbroken x p → unbroken x' (S p))
    end.
Proof.
  intros [Hn He Hsc Hsplit Hproc Hrun Htr] Hq.
  assert (p < length (x_queue x))%nat as Hp by (apply (f_equal length) in Hq; rewrite length_drop in Hq; cbn in Hq; lia).
  assert (s ∈ x_queue x) as Hsq by (rewrite <- (take_drop p (x_queue x)), Hq; apply elem_of_app; right; by left).
  assert (s ∈ live) as Hs by (by apply (sc_live _ _ _ _ Hsc)). pose proof (live_range s Hs) as Hr.
  assert (rd false (x_completed x) s = false) as Hv by (apply Hsplit; rewrite Hq; by left).
  assert (rd 0 (x_deg x) s = 0) as Hd by (destruct (sc_ready _ _ _ _ Hsc s Hsq); [congruence|done]).
  unfold wf_step. destruct (wf_dispatch_node work clock x s tab) as [r x1] eqn:Edis.
  destruct (dispatch_spec x s r x1 Hn Hs Edis) as (e & Hid & Hres & Hof & Hent & Hsame & Hst & Hd1 & Hc1 & Hq1 & Hp1).
  pose proof (record_trace skipped _ _ _ _ e s Htr Hsc Hs Hv Hd Hid Hof) as Htr1. rewrite Hres, <- Hent in Htr1. rewrite Hn, (live_id s Hs).
  destruct ((r =? ANX_EBUSY) && _) eqn:Ebusy.
  { eexists. split; [done|]. apply stopped_review; [done|done|]. cbn. eexists. exact Htr1. }
  destruct (Z.eqb_spec r ANX_OK) as [Er|Er]; cbn [negb].
  2: { eexists. split; [done|]. unfold wf_suspend. destruct (next_alloc (x_mem x1)) as [[] mem]; cbn [negb].
       - eapply stopped_suspended; [done|done|done| |]; [|split; [reflexivity| | |]]; cbn; rewrite ?Hd1, ?Hc1; [done|by eapply sched_progress| |exact Htr1].
         by replace (s + 1 - 1) with s by lia.
       - eapply stopped_memory; [done|done|done|]. cbn. eexists. exact Htr1. }
  set (x2 := x1 <| x_completed := wr (x_completed x1) s true |> <| x_processed := u32 (x_processed x1 + 1) |>).
  set (x3 := x2 <| x_wf := wf_cache_refresh (x_wf x2) (x_completed x2) tab (x_ports x2) |>).
  assert (same_graph (x_wf x) (x_wf x3)) as Hsame3 by (etrans; [exact Hsame|apply refresh_same]).
  assert (x_completed x3 = wr (x_completed x) s true) as Hc3 by (by cbn; rewrite Hc1).
  destruct (step_release x x3 s Hsc Hs Hv Hd Hc3 Hd1 Hq1) as (deg' & q' & Hrel & Hsc4 & Hq4).
  rewrite (sg_edges _ _ Hsame3), He, Hrel. cbn [obind]. eexists. split; [done|]. cbn beta iota.
  destruct (split_advance _ _ _ p s rest q' Hsc Hsplit Hq Hq4) as [Htk Hsplit4].
  assert (w_trace_entries (x_wf x3) = w_trace_entries (x_wf x1) ∧ w_run_state (x_wf x3) = w_run_state (x_wf x1)) as [Ht3 Hs3]
    by (unfold x3, wf_cache_refresh; destruct (cache_scan _ _ _ _ _ _); done).
  split; [split|split]; [| | | | | | |by exists q'|].
  - change (w_nodes (x_wf x3) = nodes). by rewrite (sg_nodes _ _ Hsame3).
  - change (w_edges (x_wf x3) = edges). by rewrite (sg_edges _ _ Hsame3).
  - change (sched (x_completed x3) deg' (x_queue x ++ q') (λ _, 0)). by rewrite Hc3.
  - change (split_at (x_completed x3) (x_queue x ++ q') (S p)). by rewrite Hc3.
  - change (x_processed x3 = completed_count (x_completed x3)). rewrite Hc3.
    pose proof (completed_count_range (wr (x_completed x) s true)). rewrite completed_count_wr in * by (done || apply Hsc). cbn. rewrite Hp1, Hproc.
    apply u32_small. unfold is_u32. pose proof (completed_count_range (x_completed x)). lia.
  - change (w_run_state (x_wf x3) = ANX_WF_RUN_RUNNING). by rewrite Hs3, Hst.
  - change (trace_inv skipped (w_trace_entries (x_wf x3)) (x_completed x3)). by rewrite Ht3, Hc3.
  - apply (step_unbroken x _ e p s q'); [done|done|done|congruence| |done|done|done|exact Hc3].
    change (w_trace_entries (x_wf x3) = record (w_trace_entries (x_wf x)) e). by rewrite Ht3.
Qed.

Lemma batch_spec skipped slots : ∀ x p rest, exec_inv skipped x p → drop p (x_queue x) = slots ++ rest →
  ∃ out, wf_batch work clock tab slots x = Ret out ∧
    match out with
    | inl (r, x') => stopped skipped r (x_wf x')
    | inr x' => exec_inv skipped x' (p + length slots) ∧ (∃ q, x_queue x' = x_queue x ++ q) ∧ (unbroken x p → unbroken x' (p + length slots))
    end.
Proof.
  induction slots as [|s slots IH]; intros x p rest Hinv Hq; cbn [wf_batch length].
  { eexists. split; [done|]. rewrite Nat.add_0_r. split; [done|]. split; [exists []; by rewrite app_nil_r|done]. }
  destruct (step_spec skipped x p s (slots ++ rest) Hinv Hq) as ([[r x1]|x1] & -> & Hout); cbn [obind]; [by eexists|].
  destruct Hout as (Hinv1 & (q & Hq1) & Hun).
  assert (p < length (x_queue x))%nat as Hp by (apply (f_equal length) in Hq; rewrite length_drop in Hq; cbn in Hq; lia).
  destruct (IH x1 (S p) (rest ++ q) Hinv1) as (out & -> & Hout).
  { rewrite Hq1, drop_app_le by lia. replace (S p) with (p + 1)%nat by lia. rewrite <- drop_drop, Hq. cbn [drop app]. by rewrite app_assoc. }
  exists out. split; [done|]. destruct out as [[r x']|x']; [done|]. replace (p + S (length slots))%nat with (S p + length slots)%nat by lia.
  destruct Hout as (Hinv' & (q' & Hq') & Hun'). split; [done|]. split; [|by intros; apply Hun', Hun]. exists (q ++ q'). by rewrite Hq', Hq1, app_assoc.
Qed.

Lemma loop_spec skipped cap fuel : 1 ≤ cap → ∀ x p, exec_inv skipped x p → (p ≤ length (x_queue x))%nat → (64 ≤ fuel + p)%nat →
  ∃ out, wf_loop work clock fuel tab cap p x = Ret out ∧
    match out with
    | inl (r, x') => stopped skipped r (x_wf x')
    | inr x' => exec_inv skipped x' (length (x_queue x')) ∧ (unbroken x p → unbroken x' (length (x_queue x')))
    end.
Proof.
  intros Hcap. induction fuel as [|fuel IH]; intros x p Hinv Hp Hfuel; pose proof (queue_bounded _ _ _ _ (ei_sched _ _ _ Hinv)) as Hb; cbn [wf_loop];
    destruct (Nat.ltb_spec p (length (x_queue x))) as [Hlt|Hge].
  1: lia.
  1, 3: eexists; split; [done|]; cbn beta iota; replace (length (x_queue x)) with p by lia; split; [exact Hinv|by intros].
  set (batch := firstn (Z.to_nat cap) (skipn p (x_queue x))).
  assert (length batch = Nat.min (Z.to_nat cap) (length (x_queue x) - p)) as Hlb by (unfold batch; by rewrite length_take, length_drop).
  destruct (batch_spec skipped batch x p (drop (Z.to_nat cap) (drop p (x_queue x))) Hinv) as (out & -> & Hout).
  { unfold batch. symmetry. apply take_drop. }
  cbn [obind]. destruct out as [[r x1]|x1]; [by eexists|]. destruct Hout as (Hinv1 & (q & Hq) & Hun).
  destruct (IH x1 (p + length batch)%nat Hinv1) as (out & -> & Hout); [rewrite Hq, length_app; lia|lia|].
  exists out. split; [done|]. destruct out as [[r x']|x']; [done|]. destruct Hout as [? Hun']. split; [done|]. intros ?. by apply Hun', Hun.
Qed.

(** At the end of the queue every node is completed. *)
Lemma end_of_queue skipped x : exec_inv skipped x (length (x_queue x)) → ∀ j, 0 ≤ j < 64 → rd false (x_completed x) j = true ↔ j ∈ live.
Proof.
  intros Hinv j Hj. pose proof (ei_sched _ _ _ Hinv) as Hsc. split; [by apply (sc_done_live _ _ _ _ Hsc)|]. intros Hlive.
  destruct (rd false (x_completed x) j) eqn:Ej; [done|]. exfalso.
  set (U := filter (λ k, rd false (x_completed x) k = false) live).
  apply (acyclic_source (edge_rel E) ((λ k, k + 1) <$> U) (gw_acyclic _ _ _ _ Hwf)).
  { intros HU%fmap_nil_inv. assert (j ∈ U) as Hin by (by apply list_elem_of_filter). rewrite HU in Hin. by apply not_elem_of_nil in Hin. }
  intros k' (k & -> & Hk)%list_elem_of_fmap. apply list_elem_of_filter in Hk as [Hvk Hk]. pose proof (live_range k Hk) as Hkr.
  assert (rd 0 (x_deg x) k ≠ 0) as Hdk.
  { intros Hz. pose proof (sc_all _ _ _ _ Hsc k Hk Hvk Hz) as Hkq. destruct (ei_split _ _ _ Hinv) as [Hdone _].
    rewrite firstn_all in Hdone. rewrite Hdone in Hvk by done. done. }
  rewrite (sc_deg _ _ _ _ Hsc), Z.add_0_r in Hdk by done. apply count_edges_pos in Hdk as (e & He & Hw). unfold waits in Hw.
  apply andb_true_iff in Hw as [Ht%Z.eqb_eq Hu%negb_true_iff]. destruct (edge_ends e He) as (Hf & _ & _).
  exists (from_node e). split; [|by exists e]. apply list_elem_of_fmap. exists (from_node e - 1). split; [lia|]. by apply list_elem_of_filter.
Qed.

(** The queue a run starts with. *)
Lemma initial_queue v deg ids : progress v deg (λ _, 0) → (∀ i, 0 ≤ i < 64 → rd 0 ids i = n_id (node_at nodes i)) →
  let q := List.filter (λ i, negb (rd 0 ids i =? 0) && (rd 0 deg i =? 0) && negb (rd false v i)) (seqZ 0 ANX_WF_MAX_NODES) in
  sched v deg q (λ _, 0) ∧ split_at v q 0.
Proof.
  intros [h1 h2 h3 h4 h5] Hids q.
  assert (∀ j, j ∈ q ↔ j ∈ live ∧ rd 0 deg j = 0 ∧ rd false v j = false) as Hq.
  { intros j. unfold q. rewrite list_elem_of_In, filter_In, <- list_elem_of_In, elem_of_seqZ, !andb_true_iff, !negb_true_iff, Z.eqb_neq, Z.eqb_eq, elem_live.
    change ANX_WF_MAX_NODES with 64. split; [intros (Hj & ((Hi & ?) & ?)); rewrite Hids in Hi by lia|intros ([Hj Hi] & ? & ?); rewrite Hids by lia]; intuition lia. }
  split; [split; try done|split].
  - intros j Hj%Hq. by destruct Hj.
  - unfold q. apply NoDup_ListNoDup, List.NoDup_filter, NoDup_ListNoDup, NoDup_seqZ.
  - intros j Hj%Hq. right. by destruct Hj as (_ & ? & _).
  - intros j ? ? ?. by apply Hq.
  - intros j Hj. cbn in Hj. by apply not_elem_of_nil in Hj.
  - intros j Hj. rewrite drop_0 in Hj. by apply Hq in Hj as (_ & _ & ?).
Qed.

Lemma filter_range (p q : Z → bool) n : (∀ i, 0 ≤ i < n → p i = q i) → List.filter p (seqZ 0 n) = List.filter q (seqZ 0 n).
Proof. intros H. apply List.filter_ext_in. intros i Hi%list_elem_of_In%elem_of_seqZ. apply H. lia. Qed.

(** A run that ends: every node is completed. *)
Definition finished (skipped : list Z) (r : Z) (x : exec) : Prop := r = ANX_OK ∧ exec_inv skipped x (length (x_queue x)).

Lemma inner_spec skipped fuel cap x : 1 ≤ cap → (64 ≤ fuel)%nat →
  w_nodes (x_wf x) = nodes → w_edges (x_wf x) = edges → progress (x_completed x) (x_deg x) (λ _, 0) →
  w_run_state (x_wf x) = ANX_WF_RUN_RUNNING → trace_inv skipped (w_trace_entries (x_wf x)) (x_completed x) →
  ∃ r x', wf_run_inner work clock fuel cap x = Ret (r, x')
    ∧ (stopped skipped r (x_wf x') ∨ finished skipped r x'
       ∧ (x_completed x = replicate 64 false → w_trace_entries (x_wf x) = Some [] → unbroken x' (length (x_queue x')))).
Proof.
  intros Hcap Hfuel Hn He Hsc Hrun Htr. unfold wf_run_inner. rewrite Hn.
  destruct (build_tables_spec nodes live_id) as [Hids _]. destruct (wf_build_tables nodes) as [ids tb] eqn:Etab. cbn [fst] in Hids.
  destruct (initial_queue _ _ ids Hsc Hids) as [Hsc0 Hsplit0].
  set (q := List.filter _ (seqZ 0 ANX_WF_MAX_NODES)) in Hsc0, Hsplit0.
  set (x1 := x <| x_wf := wf_cache_refresh (x_wf x) (x_completed x) tb (x_ports x) |>).
  assert (List.filter (λ i, negb (rd 0 ids i =? 0)) (seqZ 0 ANX_WF_MAX_NODES) = live) as ->.
  { apply filter_range. intros i Hi. by rewrite Hids. }
  rewrite (gw_live _ _ _ _ Hwf). pose proof (gw_nodes _ _ _ _ Hwf). replace (node_count =? 0) with false by lia.
  set (x2 := x1 <| x_queue := _ |> <| x_processed := _ |>).
  assert (x_queue x2 = q) as Hq2 by reflexivity. assert (x_completed x2 = x_completed x) as Hc2 by reflexivity. assert (x_deg x2 = x_deg x) as Hd2 by reflexivity.
  assert (x_wf x2 = wf_cache_refresh (x_wf x) (x_completed x) tb (x_ports x)) as Hw2 by reflexivity.
  assert (x_processed x2 = completed_count (x_completed x2)) as Hp2 by reflexivity. clearbody x2.
  pose proof (refresh_same (x_wf x) (x_completed x) tb (x_ports x)) as Hsame. rewrite <- Hw2 in Hsame.
  assert (w_trace_entries (x_wf x2) = w_trace_entries (x_wf x) ∧ w_run_state (x_wf x2) = w_run_state (x_wf x)) as [Ht2 Hs2]
    by (rewrite Hw2; unfold wf_cache_refresh; destruct (cache_scan _ _ _ _ _ _); done).
  assert (exec_inv skipped x2 0) as Hinv.
  { split; [by rewrite (sg_nodes _ _ Hsame)|by rewrite (sg_edges _ _ Hsame)|by rewrite Hq2, Hc2, Hd2|by rewrite Hq2, Hc2|done|by rewrite Hs2|by rewrite Ht2, Hc2]. }
  pose proof (loop_spec skipped cap fuel Hcap x2 0 Hinv ltac:(lia) ltac:(lia)) as (out & Hloop & Hout). rewrite Etab in Hloop. cbn [snd] in Hloop.
  rewrite Hloop. cbn [obind]. destruct out as [[r x']|x']; [exists r, x'; split; [done|by left]|]. destruct Hout as [Hinv' Hun].
  assert (x_processed x' = node_count) as Hpc.
  { rewrite (ei_processed _ _ _ Hinv'), <- (gw_live _ _ _ _ Hwf). unfold completed_count. do 2 f_equal. apply filter_range. intros i Hi.
    pose proof (end_of_queue skipped x' Hinv' i Hi) as Hend. rewrite elem_live in Hend. destruct (rd false (x_completed x') i).
    - symmetry. apply negb_true_iff, Z.eqb_neq. by apply Hend.
    - symmetry. apply negb_false_iff, Z.eqb_eq. destruct (decide (n_id (node_at nodes i) = 0)) as [|Hne]; [done|]. pose proof (proj2 Hend (conj Hi Hne)). discriminate. }
  rewrite Hpc, Z.eqb_refl. cbn [negb]. exists ANX_OK, x'. split; [done|]. right. split; [by split|]. intros Hzero Hnil. apply Hun.
  split; [intros j Hj; by rewrite Hc2, Hzero, rd_zeros|]. exists []. by rewrite Ht2.
Qed.

(** *** The counters of a new run, and after a node is skipped *)

Lemma initial_progress : progress (replicate 64 false) (initial_degrees edges tab) (λ _, 0).
Proof.
  unfold initial_degrees. set (step := λ (deg : list Z) (e : anx_wf_edge), _).
  assert (∀ es, (∃ r, es ++ r = edges) → let deg := foldl step (replicate 64 0) es in
    length deg = 64%nat ∧ ∀ j, 0 ≤ j < 64 → rd 0 deg j = count_edges (into j) es) as H.
  { intros es. induction es as [|e es IH] using rev_ind; intros [r Hr]; [split; [done|]; intros; apply rd_zeros|].
    cbn zeta. rewrite foldl_app. cbn [foldl]. destruct IH as [Hl IH]; [exists ([e] ++ r); by rewrite app_assoc|].
    assert (Z.of_nat (length es) < 128) as Hes by (apply (f_equal length) in Hr; rewrite !length_app in Hr; cbn in Hr; lia).
    set (deg := foldl step (replicate 64 0) es) in *. unfold step. setoid_rewrite count_edges_snoc. unfold into at 2.
    destruct (Z.eqb_spec (to_node e) 0) as [E0|E0]; cbn [orb].
    { split; [done|]. intros j Hj. rewrite IH by done. replace (to_node e =? j + 1) with false by lia. lia. }
    destruct (edge_ends e) as (_ & Ht & _); [apply edge_used; [rewrite <- Hr; apply elem_of_app; left; apply elem_of_app; right; by apply list_elem_of_singleton|by right]|].
    pose proof (live_range _ Ht) as Hrg. change ANX_WF_MAX_NODES with 64. replace (to_node e >? 64) with false by lia.
    replace (rd 0 tab (to_node e)) with (to_node e - 1) by (rewrite <- (tab_slot _ Ht) at 1; f_equal; lia). cbn zeta.
    replace (to_node e - 1 <? 64) with true by lia. split; [by rewrite wr_length|]. intros j Hj. destruct (decide (j = to_node e - 1)) as [->|Hne].
    - rewrite rd_wr_eq by lia. rewrite IH by lia. replace (to_node e =? to_node e - 1 + 1) with true by lia. apply u32_small. unfold is_u32.
      pose proof (count_edges_nonneg (into (to_node e - 1)) es). pose proof (count_edges_le (into (to_node e - 1)) es). lia.
    - rewrite rd_wr_ne by lia. rewrite IH by lia. replace (to_node e =? j + 1) with false by lia. lia. }
  destruct (H edges) as [Hl Hd]; [exists []; apply app_nil_r|]. split; [done|done| | |].
  - intros j Hj. rewrite Hd by done. rewrite Z.add_0_r, (graph_edges_filter edges Hlen).
    rewrite count_edges_filter; [|intros e [Ht%Z.eqb_eq _]%andb_true_iff; unfold edge_unused; replace (to_node e =? 0) with false by lia; by rewrite andb_false_r].
    unfold count_edges. do 2 f_equal. apply List.filter_ext. intros e. unfold into, waits. rewrite rd_zeros. by rewrite andb_true_r.
  - intros e He Hv. by rewrite rd_zeros in Hv.
  - intros j Hj Hv. by rewrite rd_zeros in Hv.
Qed.

Lemma skip_progress v deg s : progress v deg (λ _, 0) → s ∈ live → rd false v s = false → rd 0 deg s = 0 →
  progress (wr v s true) (skip_degrees edges tab (s + 1) deg) (λ _, 0).
Proof.
  intros Hp Hs Hv Hd. pose proof (complete_progress v deg s Hp Hs Hv Hd) as Hp'. clear Hp. pose proof (live_range s Hs). unfold skip_degrees.
  assert (∀ es deg, (∀ e, e ∈ es → e ∈ edges) → progress (wr v s true) deg (λ j, count_edges (between s j) es) →
    progress (wr v s true) (foldl (λ deg e,
      if negb (from_node e =? s + 1) || (to_node e =? 0) || (to_node e >? ANX_WF_MAX_NODES) then deg else
      let j := rd 0 tab (to_node e) in
      if (j <? ANX_WF_MAX_NODES) && (rd 0 deg j >? 0) then wr deg j (rd 0 deg j - 1) else deg) deg es) (λ _, 0)) as HF; [|apply (HF edges); [done|done]].
  clear deg Hd Hp'. intros es. induction es as [|e es IH]; intros deg Hsub Hp; [exact Hp|]. cbn [foldl].
  assert (∀ e', e' ∈ es → e' ∈ edges) as Hsub' by (intros; apply Hsub; by right).
  destruct (Z.eqb_spec (from_node e) (s + 1)) as [Ef|Ef]; cbn [negb orb].
  2: { apply (IH deg Hsub'). destruct Hp as [h1 h2 h3 h4 h5]. split; [exact h1|exact h2| |exact h4|exact h5].
       intros j Hj. rewrite h3 by done. by rewrite count_between_skip. }
  destruct (edge_ends e) as (_ & Ht & Hne); [apply edge_used; [apply Hsub; by left|left; lia]|]. pose proof (live_range _ Ht) as Hr. set (t := to_node e - 1) in *.
  change ANX_WF_MAX_NODES with 64. replace (to_node e =? 0) with false by lia. replace (to_node e >? 64) with false by lia. cbn [orb].
  replace (to_node e) with (t + 1) by lia. rewrite (tab_slot t Ht). replace (t <? 64) with true by lia. cbn zeta. cbn [andb].
  assert (∀ j, count_edges (between s j) (e :: es) = (if j =? t then 1 else 0) + count_edges (between s j) es) as Hc
    by (intros j; by apply count_between_cons).
  destruct Hp as [h1 h2 h3 h4 h5]. pose proof (h3 t Hr) as Hdt. cbn beta in Hdt. rewrite Hc, Z.eqb_refl in Hdt.
  pose proof (count_edges_nonneg (waits (wr v s true) t) E). pose proof (count_edges_nonneg (between s t) es).
  replace (rd 0 deg t >? 0) with true by lia. apply (IH _ Hsub'). split; [exact h1|by rewrite wr_length| |exact h4|exact h5].
  intros j Hj. pose proof (h3 j Hj) as Hdj. cbn beta in Hdj. rewrite Hc in Hdj. destruct (Z.eqb_spec j t) as [->|Hjt].
  - rewrite rd_wr_eq by (rewrite h2; lia). lia.
  - rewrite rd_wr_ne by lia. lia.
Qed.
End schedule.

(** ** The theorems *)

(** What the processor count and the accelerators of the inventory can be. *)
Definition hw_ok (hw : option anx_hw_inventory) : Prop :=
  match hw with Some h => is_u32 (cpu_count h) ∧ (length (accel_types h) ≤ 4)%nat | None => True end.

Lemma accel_cap_range l : ∀ cap, 1 ≤ cap → cap + 2 * Z.of_nat (length l) < 2 ^ 32 →
  1 ≤ foldl (λ cap t, if (t =? ANX_ACCEL_GPU) || (t =? ANX_ACCEL_NPU) then u32 (cap + 2) else cap) cap l.
Proof.
  induction l as [|t l IH]; intros cap H1 H2; [done|]. cbn [foldl length] in *. apply IH; case_match; try lia; rewrite u32_small; unfold is_u32; lia.
Qed.

(** The cap never exceeds the node table and is at least one. *)
Lemma cap_range hw policy : hw_ok hw → 1 ≤ anx_wf_cap_compute hw policy ≤ 64.
Proof.
  intros Hhw. unfold anx_wf_cap_compute.
  set (c := match hw with Some _ => _ | None => _ end).
  assert (1 ≤ c) as Hc.
  { unfold c. destruct hw as [h|]; [|lia]. destruct Hhw as [Hcpu Hacc]. destruct (Z.eqb_spec (cpu_count h) 0) as [|Hne]; [lia|].
    unfold is_u32 in Hcpu. assert (0 ≤ cpu_count h / 2 < 2 ^ 31) by (split; [apply Z.div_pos|apply Z.div_lt_upper_bound]; lia). apply accel_cap_range; destruct (Z.ltb_spec (cpu_count h / 2) 1); lia. }
  clearbody c. change ANX_WF_MAX_NODES with 64.
  assert (1 ≤ (if c >? 64 then 64 else c) ≤ 64) as Hd by (destruct (Z.gtb_spec c 64); lia).
  destruct policy as [p|]; [|done]. destruct (Z.gtb_spec (max_parallel p) 0), (Z.ltb_spec (max_parallel p) (if c >? 64 then 64 else c)); cbn [andb]; lia.
Qed.

(** A workflow with a valid graph. *)
Definition workflow_ok (wf : anx_wf_object) : Prop :=
  graph_wf (w_nodes wf) (w_node_count wf) (w_edges wf) (w_edge_count wf) ∧ length (w_edges wf) = 128%nat.

(** The ids of the nodes. *)
Definition node_ids (wf : anx_wf_object) : list Z := (λ i, i + 1) <$> live_slots (w_nodes wf).

(** What a run of a valid workflow has done when it returns [r], before the trace is sealed: the trace holds the nodes in an
    order in which each comes after those it depends on (succeeded or skipped) and none after its own success; and the run
    has completed every node, or waits for a review, or is suspended at the node that failed, or could not be suspended. *)
Definition run_outcome (skipped : list Z) (wf : anx_wf_object) (r : Z) (x : exec) : Prop :=
  ∃ trace, w_trace_entries (x_wf x) = Some trace ∧ dispatched (w_edges wf) skipped trace ∧
    ((r = ANX_OK ∧ w_run_state (x_wf x) = ANX_WF_RUN_RUNNING ∧ ∀ i, i ∈ live_slots (w_nodes wf) → rd false (x_completed x) i = true)
     ∨ (r = ANX_OK ∧ w_run_state (x_wf x) = ANX_WF_RUN_WAITING_HUMAN)
     ∨ (r ≠ ANX_OK ∧ w_run_state (x_wf x) = ANX_WF_RUN_SUSPENDED
        ∧ ∃ c, wc_error_code c = r ∧ resumable (w_nodes wf) (w_edges wf) skipped (x_wf x) c)
     ∨ (r ≠ ANX_OK ∧ w_run_state (x_wf x) = ANX_WF_RUN_FAILED ∧ w_last_status (x_wf x) = ANX_ENOMEM)).

Lemma inner_outcome skipped wf r x' : workflow_ok wf →
  stopped (w_nodes wf) (w_edges wf) skipped r (x_wf x') ∨ finished (w_nodes wf) (w_edges wf) skipped r x' → run_outcome skipped wf r x'.
Proof.
  intros [Hwf Hlen] Hcase.
  assert (∀ wf' v, trace_inv (w_nodes wf) (w_edges wf) skipped (w_trace_entries wf') v →
    ∃ trace, w_trace_entries wf' = Some trace ∧ dispatched (w_edges wf) skipped trace) as Htrace.
  { intros wf' v Ht. unfold trace_inv in Ht. destruct (w_trace_entries wf') as [l|]; [|done]. exists l. by destruct Ht as (_ & ? & _). }
  destruct Hcase as [[Hr Hst [v Ht]|c Hr Hst Hlast Herr Hres|Hr Hst Hlast [v Ht]]|[Hr Hinv]].
  - destruct (Htrace _ _ Ht) as (l & ? & ?). exists l. split_and!; try done. right. by left.
  - destruct (Htrace _ _ (rs_trace _ _ _ _ _ Hres)) as (l & ? & ?). exists l. split_and!; try done. right. right. left. split_and!; try done. by exists c.
  - destruct (Htrace _ _ Ht) as (l & ? & ?). exists l. split_and!; try done. right. right. by right.
  - destruct (Htrace _ _ (ei_trace _ _ _ _ _ Hinv)) as (l & ? & ?). exists l. split_and!; try done. left. split_and!; [done|by eapply ei_running|].
    intros i Hi. eapply end_of_queue; [exact Hwf|exact Hlen|exact Hinv|by eapply live_range|done].
Qed.

Lemma empty_trace nodes edges : trace_inv nodes edges [] (Some []) (replicate 64 false).
Proof.
  split; [cbn; lia|]. split; [constructor|]. split; [constructor|]. intros _ j Hj. rewrite rd_zeros. split; [done|].
  intros [H|H]; by apply not_elem_of_nil in H.
Qed.

Lemma run_start_spec work clock fuel hw mem tick wf W : workflow_ok wf → hw_ok hw → (64 ≤ fuel)%nat →
  let x0 := run_start clock hw mem tick wf W in
  ∃ r x, wf_run_inner work clock fuel (w_computed_cap (x_wf x0)) x0 = Ret (r, x)
    ∧ (stopped (w_nodes wf) (w_edges wf) [] r (x_wf x) ∨ finished (w_nodes wf) (w_edges wf) [] r x ∧ unbroken x (length (x_queue x))).
Proof.
  intros [Hwf Hlen] Hhw Hfuel x0.
  destruct (inner_spec (w_nodes wf) _ (w_edges wf) _ Hwf Hlen work clock [] fuel (w_computed_cap (x_wf x0)) x0) as (r & x & Hrun & Hcase).
  - by apply cap_range.
  - done.
  - done.
  - done.
  - by eapply initial_progress.
  - done.
  - apply empty_trace.
  - exists r, x. split; [done|]. destruct Hcase as [?|[? Hun]]; [by left|right]. split; [done|]. by apply Hun.
Qed.

(** The sequence of ids of a run that was not interrupted is a topological order of the graph. *)
Lemma unbroken_ids wf x : workflow_ok wf → finished (w_nodes wf) (w_edges wf) [] ANX_OK x → unbroken x (length (x_queue x)) →
  ∃ trace, w_trace_entries (x_wf x) = Some trace ∧ Forall (λ e, te_result e = ANX_OK) trace ∧ te_node_id <$> trace ≡ₚ node_ids wf.
Proof.
  intros [Hwf Hlen] [_ Hinv] (Hdone & l & Hl & Hids & Hok). exists l. split_and!; [done|done|]. rewrite Hids, firstn_all. unfold node_ids. apply fmap_Permutation.
  pose proof (ei_sched _ _ _ _ _ Hinv) as Hsc. apply NoDup_Permutation; [apply Hsc| |].
  { unfold live_slots. apply NoDup_ListNoDup, List.NoDup_filter, NoDup_ListNoDup, NoDup_seqZ. }
  intros j. split; [apply (sc_live _ _ _ _ _ _ Hsc)|]. intros Hj. pose proof (live_range _ _ Hj) as Hr.
  pose proof (proj2 (end_of_queue _ _ _ _ Hwf Hlen [] x Hinv j Hr) Hj) as Hv.
  apply Hdone in Hv; [|done]. by rewrite firstn_all in Hv.
Qed.

Lemma workflow_ok_same wf wf' : same_graph wf wf' → workflow_ok wf → workflow_ok wf'.
Proof. intros [_ _ Hn Hnc He Hec _] [? ?]. split; by rewrite ?Hn, ?Hnc, ?He, ?Hec. Qed.

Lemma run_start_same clock hw mem tick wf W : same_graph wf (x_wf (run_start clock hw mem tick wf W)).
Proof. by split. Qed.

Lemma run_outcome_same wf wf' sk r x : same_graph wf wf' → run_outcome sk wf' r x → run_outcome sk wf r x.
Proof. intros [_ _ Hn _ He _ _]. unfold run_outcome. by rewrite Hn, He. Qed.

Lemma node_ids_same wf wf' : same_graph wf wf' → node_ids wf' = node_ids wf.
Proof. intros [_ _ Hn _ _ _ _]. unfold node_ids. by rewrite Hn. Qed.

Lemma dispatched_skip edges s skipped l : dispatched edges skipped l → dispatched edges (s :: skipped) l.
Proof. induction 1 as [|l e _ IH Hnot Hdep]; constructor; [done|done|]. intros a Ha. destruct (Hdep a Ha); [by left|right; by right]. Qed.

Lemma skip_trace nodes edges skipped entries v s : length v = 64%nat → 0 ≤ s - 1 < 64 → trace_inv nodes edges skipped entries v →
  trace_inv nodes edges (s :: skipped) entries (wr v (s - 1) true).
Proof.
  intros Hv Hs. unfold trace_inv. destruct entries as [l|]; [|done]. intros (Hl & Hd & Hall & Hrel). split_and!; [done|by apply dispatched_skip|done|].
  intros Hlt j Hj. specialize (Hrel Hlt j Hj). rewrite elem_of_cons. destruct (decide (j = s - 1)) as [->|Hne].
  - rewrite rd_wr_eq by lia. split; [intros _; right; left; lia|done].
  - rewrite rd_wr_ne by lia. rewrite Hrel. intuition lia.
Qed.

(** C27: A run of a workflow with a valid graph always returns (64 turns of the loop are enough, and the ready queue never
    overflows), whatever its nodes do.  It dispatches each node only after every node with an edge to it has succeeded, and
    no node again after it has succeeded.  It ends with every node completed (the trace is then a permutation of the nodes,
    each with result OK), or waiting for a human review, or suspended at the node that failed with a continuation from which
    the run can be resumed, or failed when there was no memory for the continuation. *)
Theorem run_in_order sha256 uor_attach work clock fuel hw fresh addr mem tick wf W :
  workflow_ok wf → hw_ok hw → (64 ≤ fuel)%nat → wf_live wf = false → (next_alloc mem).1 = true →
  ∃ r x, anx_wf_run sha256 uor_attach work clock fuel hw fresh addr mem tick wf W
           = Ret (r, wf_finish sha256 uor_attach clock fresh addr r x)
    ∧ run_outcome [] wf r x
    ∧ (r = ANX_OK → w_run_state (x_wf x) = ANX_WF_RUN_RUNNING →
       ∃ trace, w_trace_entries (x_wf x) = Some trace ∧ Forall (λ e, te_result e = ANX_OK) trace ∧ te_node_id <$> trace ≡ₚ node_ids wf).
Proof.
  intros Hok Hhw Hfuel Hlive Hmem. unfold anx_wf_run. rewrite Hlive. destruct (next_alloc mem) as [ok mem']. cbn [fst] in Hmem. subst ok.
  pose proof (gw_nodes _ _ _ _ (proj1 Hok)). replace (w_node_count wf =? 0) with false by lia. cbn [negb].
  set (wf1 := wf <| w_checkpoint_consumed := true |> <| w_trace_oid := ANX_UUID_NIL |> <| w_topology ::= λ t, t <| tp_trace_epoch := 0 |> |>).
  assert (same_graph wf wf1) as Hsame by (by split). assert (workflow_ok wf1) as Hok1 by (by eapply workflow_ok_same). clearbody wf1.
  destruct (run_start_spec work clock fuel hw mem' tick wf1 W Hok1 Hhw Hfuel) as (r & x & Hrun & Hcase). cbv zeta in Hrun. rewrite Hrun. cbn [obind].
  exists r, x. split; [done|]. split.
  - apply (run_outcome_same wf wf1); [done|]. apply inner_outcome; [done|]. destruct Hcase as [?|[? _]]; [by left|by right].
  - intros Hr Hst. rewrite <- (node_ids_same _ _ Hsame). destruct Hcase as [[? Hw _|? Hne _ _ _ _|Hne _ _ _]|[Hfin Hun]]; [|done|done|].
    + rewrite Hst in Hw. done.
    + rewrite Hr in Hfin. by apply unbroken_ids.
Qed.

(** C28: Resuming a suspended run continues it: retrying (or skipping) the failed node, the run returns, dispatches no node
    that has already succeeded, and every node it dispatches comes after the nodes it depends on have succeeded or were
    skipped; it ends in one of the ways a run ends, so it can be resumed again. *)
Theorem resume_in_order sha256 uor_attach work clock fuel fresh addr mem tick action wf c skipped W :
  workflow_ok wf → w_run_state wf = ANX_WF_RUN_SUSPENDED → resumable (w_nodes wf) (w_edges wf) skipped wf c →
  action = ANX_WF_RESUME_RETRY ∨ action = ANX_WF_RESUME_SKIP → 1 ≤ w_computed_cap wf → (64 ≤ fuel)%nat →
  ∃ r x, anx_wf_resume sha256 uor_attach work clock fuel fresh addr mem tick action None wf W
           = Ret (r, wf_finish sha256 uor_attach clock fresh addr r x)
    ∧ run_outcome (if action =? ANX_WF_RESUME_SKIP then wc_failed_node_id c :: skipped else skipped) wf r x.
Proof.
  intros Hok Hst [Hcont Hprog (Hlive & Hv & Hd) Htr] Hact Hcap Hfuel. destruct Hok as [Hwf Hlen]. pose proof (live_range _ _ Hlive) as Hr.
  unfold anx_wf_resume. rewrite Hst, Hcont. set (s := wc_failed_node_id c - 1) in *.
  assert (rd 0 (wf_build_tables (w_nodes wf)).2 (wc_failed_node_id c) = s) as Htab.
  { replace (wc_failed_node_id c) with (s + 1) by lia. by eapply tab_slot. }
  assert (∃ spec : bool, action = (if spec then ANX_WF_RESUME_SKIP else ANX_WF_RESUME_RETRY)) as [skip ->] by (destruct Hact as [->| ->]; [by exists false|by exists true]).
  change ANX_WF_MAX_NODES with 64. replace (wc_failed_node_id c <=? 64) with true by lia. rewrite Htab.
  replace (s <? 64) with true by lia. rewrite Z.eqb_refl. cbn [negb].
  set (v := if skip then wr (wc_completed c) s true else wc_completed c).
  set (deg := if skip then skip_degrees (w_edges wf) (wf_build_tables (w_nodes wf)).2 (wc_failed_node_id c) (wc_in_deg c) else wc_in_deg c).
  set (sk := if skip then wc_failed_node_id c :: skipped else skipped).
  set (wf1 := wf <| w_run_state := ANX_WF_RUN_RUNNING |> <| w_continuation := None |> <| w_checkpoint_consumed := true |>).
  destruct (inner_spec (w_nodes wf) _ (w_edges wf) _ Hwf Hlen work clock sk fuel (w_computed_cap wf)
    (Exec wf1 deg v (wc_port_oid c) [] 0 mem tick W)) as (r & x & Hrun & Hcase); [done|done|done|done| |done| |].
  - cbn. unfold v, deg. destruct skip; [|done]. replace (wc_failed_node_id c) with (s + 1) by lia. by eapply skip_progress.
  - cbn. unfold v, sk. destruct skip; [|done]. apply skip_trace; [apply Hprog|lia|done].
  - exists r, x. assert (run_outcome sk wf r x) as Hout.
    { apply (inner_outcome sk wf); [by split|]. destruct Hcase as [?|[? _]]; [by left|by right]. }
    destruct skip; (split; [|exact Hout]); cbn; unfold v, deg in Hrun; fold wf1; rewrite Hrun; done.
Qed.

(** *** A concrete workflow *)

Lemma graph_unsigned_of wf edges count : (0 <=? w_node_count wf) = true → (0 <=? count) = true →
  forallb (λ e, (0 <=? from_node e) && (0 <=? to_node e)) edges = true → graph_unsigned wf edges count.
Proof.
  intros Hn%Z.leb_le He%Z.leb_le Hf. rewrite forallb_forall in Hf. split; [done|done|]. intros i. unfold edge_at, rd.
  destruct (nth_in_or_default (Z.to_nat i) edges zero_edge) as [Hin| ->]; [|done].
  apply Hf in Hin. apply andb_true_iff in Hin as [?%Z.leb_le ?%Z.leb_le]. done.
Qed.

(** The workflow instantiated from the retrieval template. *)
Definition rag_wf : anx_wf_object :=
  wf_at (anx_wf_lib_instantiate None [] g_builtins anx_wf_init (Some (tm_name tmpl_rag)) (Some [119]) true).2 0.

Lemma rag_wf_ok : workflow_ok rag_wf.
Proof.
  split; [|vm_compute; reflexivity]. apply validate_graph_sound; [|vm_compute; reflexivity]. by apply graph_unsigned_of; vm_compute.
Qed.

(** Work that succeeds, and work that fails at the model call (slot 2). *)
Definition good_work : work_fn := λ wf slot ports W, (ANX_OK, replicate 8 (Uuid 7 (slot + 1)), ANX_UUID_NIL, ANX_UUID_NIL, W).
Definition bad_work : work_fn := λ wf slot ports W,
  (if slot =? 2 then ANX_EIO else ANX_OK, replicate 8 (Uuid 7 (slot + 1)), ANX_UUID_NIL, ANX_UUID_NIL, W).
Definition plain_meta (o : anx_state_object) (mem : list bool) : anx_meta_store * list bool := (so_system_meta o, mem).

Lemma run_in_order_witness :
  ∃ r x, anx_wf_run (λ _, []) plain_meta good_work id 64 None (Uuid 1 1) 100 [] 0 rag_wf anx_objstore_init
           = Ret (r, wf_finish (λ _, []) plain_meta id (Uuid 1 1) 100 r x) ∧ run_outcome [] rag_wf r x.
Proof.
  destruct (run_in_order (λ _, []) plain_meta good_work id 64 None (Uuid 1 1) 100 [] 0 rag_wf anx_objstore_init rag_wf_ok I)
    as (r & x & Hrun & Hout & _); [lia|vm_compute; reflexivity|reflexivity|]. exists r, x. split; [exact Hrun|exact Hout].
Defined.

(** The run that fails at the model call, and what its suspended state is. *)
Lemma rag_suspended : ∃ wf c, workflow_ok wf ∧ w_run_state wf = ANX_WF_RUN_SUSPENDED ∧ resumable (w_nodes wf) (w_edges wf) [] wf c ∧ 1 ≤ w_computed_cap wf.
Proof.
  destruct (run_start_spec bad_work id 64 None [] 0 rag_wf anx_objstore_init rag_wf_ok I ltac:(lia)) as (r & x & Hrun & Hcase). cbv zeta in Hrun.
  assert (match wf_run_inner bad_work id 64 (w_computed_cap (x_wf (run_start id None [] 0 rag_wf anx_objstore_init)))
                  (run_start id None [] 0 rag_wf anx_objstore_init) with
          | Ret (r, x) => (w_run_state (x_wf x) =? ANX_WF_RUN_SUSPENDED) && negb (r =? ANX_OK) && (1 <=? w_computed_cap (x_wf x)) | _ => false end = true) as Hc
    by (vm_compute; reflexivity).
  rewrite Hrun in Hc. apply andb_true_iff in Hc as [[Hst%Z.eqb_eq Hne%negb_true_iff%Z.eqb_neq]%andb_true_iff Hcap%Z.leb_le]. pose proof (inner_same _ _ _ _ _ _ _ Hrun) as Hsame.
  assert (same_graph rag_wf (x_wf x)) as Hs by (etrans; [apply run_start_same|exact Hsame]).
  destruct Hcase as [[Hr _ _|c _ _ _ _ Hres|_ Hf _ _]|[[Hr _] _]].
  - destruct (Hne Hr).
  - exists (x_wf x), c. split; [exact (workflow_ok_same _ _ Hs rag_wf_ok)|]. split; [exact Hst|].
    destruct Hs as [_ _ Hn _ He _ _]. rewrite Hn, He. split; [exact Hres|exact Hcap].
  - rewrite Hst in Hf. discriminate Hf.
  - destruct (Hne Hr).
Qed.

Lemma resume_in_order_witness : ∃ wf skipped r x,
  anx_wf_resume (λ _, []) plain_meta good_work id 64 (Uuid 1 1) 100 [] 0 ANX_WF_RESUME_SKIP None wf anx_objstore_init
    = Ret (r, wf_finish (λ _, []) plain_meta id (Uuid 1 1) 100 r x) ∧ run_outcome skipped wf r x.
Proof.
  destruct rag_suspended as (wf & c & Hok & Hst & Hres & Hcap).
  destruct (resume_in_order (λ _, []) plain_meta good_work id 64 (Uuid 1 1) 100 [] 0 ANX_WF_RESUME_SKIP wf c [] anx_objstore_init Hok Hst Hres)
    as (r & x & Hrun & Hout); [by right|done|lia|]. exists wf, [wc_failed_node_id c], r, x. split; [exact Hrun|exact Hout].
Defined.
