(* ===== verification/Workflows.v ===== *)
(** * Controlled changes of a workflow's topology

    A revision is accepted only on the evidence of a complete, ordered run; an
    enabled workflow keeps a valid graph with frozen nodes through every
    operation; a completed run is such evidence. *)

From stdpp Require Import strings.
From S2P Require Import Prelude Uuid Cell CellStore Meta StateObject Resolve MdSuper Workflow WfTemplates WfExec WfGraph WfValid WfRuns.
#[local] Open Scope Z_scope.

(** ** The evidence of a run *)

(** [a] is recorded before [b]. *)
Definition before (order : list Z) (a b : Z) : Prop := ∃ i j : nat, order !! i = Some a ∧ order !! j = Some b ∧ (i < j)%nat.

Definition payload_order (payload : list Z) (n : Z) : list Z := payload_node_id payload <$> seqZ 0 n.

(** The position table of the first [n] entries. *)
Definition positions (payload : list Z) (n : Z) (position : list Z) : Prop :=
  ∀ id, 1 ≤ id ≤ 64 → (rd 0 position (id - 1) = 0 ∧ (∀ k, 0 ≤ k < n → payload_node_id payload k ≠ id))
    ∨ ∃ k, 0 ≤ k < n ∧ payload_node_id payload k = id ∧ rd 0 position (id - 1) = k + 1.

Lemma trace_positions_app nodes payload l1 l2 position :
  trace_positions nodes payload (l1 ++ l2) position = trace_positions nodes payload l1 position ≫= trace_positions nodes payload l2.
Proof. revert position. induction l1 as [|i l1 IH]; intros position; [done|]. cbn [app trace_positions]. case_match; [done|]. apply IH. Qed.

(** What an accepted entry says. *)
Definition entry_good (nodes : list anx_wf_node) (payload : list Z) (k : Z) : Prop :=
  let id := payload_node_id payload k in
  1 ≤ id ≤ 64 ∧ n_id (node_at nodes (id - 1)) = id ∧ payload_node_kind payload k = n_kind (node_at nodes (id - 1)) ∧ payload_result payload k = ANX_OK.

Lemma trace_positions_spec nodes payload n : 0 ≤ n → ∀ position,
  trace_positions nodes payload (seqZ 0 n) (replicate 64 0) = Some position →
  length position = 64%nat ∧ positions payload n position ∧ (∀ k, 0 ≤ k < n → entry_good nodes payload k)
  ∧ ∀ i j, 0 ≤ i < j → j < n → payload_node_id payload i ≠ payload_node_id payload j.
Proof.
  intros Hn. pattern n. apply natlike_ind; [| |done].
  { change (seqZ 0 0) with (@nil Z). cbn [trace_positions]. intros position Hp. assert (position = replicate 64 0) as -> by congruence. split_and!; [done| |intros; lia|intros; lia]. intros id Hid. left. split; [apply rd_zeros|]. intros; lia. }
  clear n Hn. intros n Hn IH position. rewrite <- Z.add_1_r, seqZ_snoc, trace_positions_app by lia. rewrite Z.add_0_l.
  destruct (trace_positions nodes payload (seqZ 0 n) (replicate 64 0)) as [pos|]; [|done]. cbn [mbind option_bind trace_positions].
  destruct (IH pos eq_refl) as (Hl & Hpos & Hgood & Hdist). clear IH. set (id := payload_node_id payload n).
  assert (0 ≤ id) as H0 by (apply Z.mod_pos_bound; lia). case_match eqn:Hg; [done|]. intros [= <-]. to_prop. change ANX_WF_MAX_NODES with 64 in *.
  assert (∀ k, 0 ≤ k < n → payload_node_id payload k ≠ id) as Hnew.
  { intros k Hk E. destruct (Hpos id) as [[_ Hno]|(k' & Hk' & _ & Hp)]; [lia| |lia]. by apply (Hno k). }
  split_and!.
  - by rewrite wr_length.
  - intros id' Hid'. destruct (decide (id' = id)) as [->|Hne].
    + right. exists n. split; [lia|]. split; [done|]. apply rd_wr_eq. lia.
    + rewrite rd_wr_ne by lia. destruct (Hpos id' Hid') as [[Hz Hno]|(k & Hk & Hk1 & Hk2)]; [left|right].
      * split; [done|]. intros k Hk. destruct (decide (k = n)) as [->|]; [done|]. apply Hno. lia.
      * exists k. split; [lia|done].
  - intros k Hk. destruct (decide (k = n)) as [->|]; [|apply Hgood; lia]. unfold entry_good. fold id. split_and!; try done; lia.
  - intros i j Hij Hj. destruct (decide (j = n)) as [->|]; [apply Hnew; lia|]. apply Hdist; lia.
Qed.

(** The payload of a trace lists every node once, with success, in an order that respects the edges. *)
Record ordered_run (wf : anx_wf_object) (payload : list Z) : Prop := {
  or_nodes : payload_order payload (w_node_count wf) ≡ₚ node_ids wf;
  or_results : ∀ k, 0 ≤ k < w_node_count wf → payload_result payload k = ANX_OK;
  or_edges : ∀ a b, edge_rel (graph_edges (w_edges wf)) a b → before (payload_order payload (w_node_count wf)) a b;
}.

Lemma payload_order_lookup payload n k : 0 ≤ k < n → payload_order payload n !! Z.to_nat k = Some (payload_node_id payload k).
Proof.
  intros Hk. unfold payload_order. rewrite list_lookup_fmap, lookup_seqZ_lt by lia. cbn. do 2 f_equal. lia.
Qed.

Lemma payload_order_nodup payload n : (∀ i j, 0 ≤ i < j → j < n → payload_node_id payload i ≠ payload_node_id payload j) → NoDup (payload_order payload n).
Proof.
  intros Hd. unfold payload_order. apply NoDup_fmap_2_strong; [|apply NoDup_seqZ].
  intros i j Hi%elem_of_seqZ Hj%elem_of_seqZ E. destruct (Z.lt_trichotomy i j) as [Hij|[?|Hij]]; [|done|].
  - destruct (Hd i j); [lia|lia|done].
  - destruct (Hd j i); [lia|lia|done].
Qed.

Lemma trace_proves_ordered wf obj : workflow_ok wf → trace_proves wf obj = true →
  so_state obj = ANX_OBJ_SEALED ∧ so_object_type obj = ANX_OBJ_EXECUTION_TRACE ∧ ∃ payload, so_payload obj = Some payload ∧ ordered_run wf payload.
Proof.
  intros [Hwf Hlen] Hp. unfold trace_proves in Hp. destruct (so_payload obj) as [payload|]; [|done].
  destruct (trace_positions _ _ _ _) as [position|] eqn:Epos; [|by rewrite andb_false_r in Hp]. to_prop. split_and!; [done|done|].
  exists payload. split; [done|]. pose proof (gw_nodes _ _ _ _ Hwf) as Hn.
  destruct (trace_positions_spec (w_nodes wf) payload (w_node_count wf) ltac:(lia) _ Epos) as (_ & Hpos & Hgood & Hdist).
  match goal with H : forallb _ (seqZ 0 ANX_WF_MAX_EDGES) = true |- _ => pose proof (proj1 (forallb_seqZ _ _) H) as Hedge end.
  split.
  - apply submseteq_length_Permutation.
    + apply NoDup_submseteq; [by apply payload_order_nodup|]. intros id (k & -> & Hk%elem_of_seqZ)%list_elem_of_fmap.
      destruct (Hgood k) as (Hid & Hnid & _ & _); [lia|]. unfold node_ids. apply list_elem_of_fmap. exists (payload_node_id payload k - 1). split; [cbn; lia|].
      apply elem_live. split; [lia|]. rewrite Hnid. lia.
    + unfold node_ids, payload_order. rewrite !length_fmap, length_seqZ. pose proof (gw_live _ _ _ _ Hwf). lia.
  - intros k Hk. by apply Hgood.
  - intros a b (e & He & <- & <-). destruct (gw_edge _ _ _ _ Hwf e He) as (Hf & Ht & _).
    apply elem_graph_edges in He as (i & Hi & ->). apply elem_used in Hi as [Hi _]. specialize (Hedge i Hi). cbn beta in Hedge. unfold edge_in_order in Hedge.
    set (e := edge_at (w_edges wf) i) in *. replace (from_node e =? 0) with false in Hedge by lia. cbn [orb] in Hedge. to_prop.
    destruct (Hpos (from_node e) Hf) as [[? _]|(k1 & Hk1 & Eid1 & Ep1)]; [done|].
    destruct (Hpos (to_node e) Ht) as [[? _]|(k2 & Hk2 & Eid2 & Ep2)]; [lia|].
    exists (Z.to_nat k1), (Z.to_nat k2). rewrite !payload_order_lookup, Eid1, Eid2 by lia. split_and!; [done|done|lia].
Qed.

(** A trace object that can be opened is the one the store lists under the id. *)
Lemma so_open_spec current oid W r h W1 : anx_so_open current (Some oid) ANX_OPEN_READ (Some (Handle None 0 0)) W = (r, h, W1) → r = ANX_OK →
  ∃ a obj obj1 v, find_oid W oid = Some a ∧ so_heap W !! a = Some obj ∧ h = Some (Handle (Some a) ANX_OPEN_READ v) ∧ so_heap W1 !! a = Some obj1
    ∧ so_state obj1 = so_state obj ∧ so_object_type obj1 = so_object_type obj ∧ so_payload obj1 = so_payload obj ∧ so_payload_size obj1 = so_payload_size obj.
Proof.
  unfold anx_so_open, anx_objstore_lookup. change (mode_ok ANX_OPEN_READ) with true. cbn [negb].
  intros H Hr. subst r. destruct (find_oid W oid) as [a|] eqn:Ef; [|by simplify_eq]. unfold so_update in H. cbn [so_heap update_field] in H.
  rewrite lookup_alter_eq in H. destruct (so_heap W !! a) as [obj|] eqn:Ea; [|by simplify_eq]. cbn [fmap option_fmap option_map] in H.
  case_match; [by simplify_eq|]. case_match; [by simplify_eq|]. case_match eqn:Ear.
  { injection H as Hx _ _. apply negb_true_iff, Z.eqb_neq in Ear. by destruct Ear. }
  injection H as <- <-. eexists a, obj, _, _. split_and!; [done|done|done|cbn; by rewrite lookup_alter_eq, Ea|done..].
Qed.

(** ** The registry *)

Definition ends_unsigned (edges : list anx_wf_edge) : Prop := ∀ i, 0 ≤ from_node (edge_at edges i) ∧ 0 ≤ to_node (edge_at edges i).

(** A workflow under topology control. *)
Record topo_ok (wf : anx_wf_object) : Prop := {
  to_graph : graph_wf (w_nodes wf) (w_node_count wf) (w_edges wf) (w_edge_count wf);
  to_limit : 1 ≤ tp_limit (w_topology wf) ≤ 8;
  to_accepted : 0 ≤ tp_accepted (w_topology wf) ≤ tp_limit (w_topology wf);
  to_epoch : 1 ≤ tp_epoch (w_topology wf) ≤ MAX64;
  to_previous : tp_can_rollback (w_topology wf) = true →
    length (tp_previous (w_topology wf)) = 128%nat ∧ ends_unsigned (tp_previous (w_topology wf)) ∧ 0 ≤ tp_previous_count (w_topology wf);
}.

(** A slot of the registry: unused and zero, or a workflow with its arrays. *)
Record obj_ok (wf : anx_wf_object) : Prop := {
  ob_free : w_in_use wf = false → wf = zero_wf;
  ob_arrays : w_in_use wf = true → length (w_nodes wf) = 64%nat ∧ length (w_edges wf) = 128%nat;
  ob_counts : 0 ≤ w_node_count wf ∧ 0 ≤ w_edge_count wf;
  ob_ends : ends_unsigned (w_edges wf);
  ob_disabled : tp_enabled (w_topology wf) = false → tp_accepted (w_topology wf) = 0 ∧ tp_can_rollback (w_topology wf) = false;
  ob_enabled : tp_enabled (w_topology wf) = true → topo_ok wf;
}.

Definition reg_ok (G : wf_registry) : Prop := length (wf_table G) = 16%nat ∧ ∀ i, 0 ≤ i < 16 → obj_ok (wf_at G i).

(** How a slot may change in one operation. *)
Record kept (wf wf' : anx_wf_object) : Prop := {
  kp_use : w_in_use wf' = w_in_use wf;
  kp_oid : w_oid wf' = w_oid wf;
  kp_enabled : tp_enabled (w_topology wf) = true →
    tp_enabled (w_topology wf') = true ∧ w_nodes wf' = w_nodes wf ∧ w_node_count wf' = w_node_count wf
    ∧ tp_limit (w_topology wf') = tp_limit (w_topology wf) ∧ tp_epoch (w_topology wf) ≤ tp_epoch (w_topology wf')
    ∧ (tp_epoch (w_topology wf') = tp_epoch (w_topology wf) → w_edges wf' = w_edges wf ∧ w_edge_count wf' = w_edge_count wf);
}.

Definition evolves (wf wf' : anx_wf_object) : Prop := w_in_use wf = false ∨ wf' = zero_wf ∨ kept wf wf'.

Definition reg_step (G G' : wf_registry) : Prop := reg_ok G' ∧ ∀ i, 0 ≤ i < 16 → evolves (wf_at G i) (wf_at G' i).

Lemma zero_wf_ok : obj_ok zero_wf.
Proof. split; try done. intros i. unfold edge_at, rd. cbn. by destruct (Z.to_nat i). Qed.

Lemma evolves_refl wf : evolves wf wf.
Proof. right. right. by split. Qed.

Lemma reg_step_refl G : reg_ok G → reg_step G G.
Proof. intros H. split; [done|]. intros i Hi. apply evolves_refl. Qed.

Lemma reg_step_put G i wf count init seq : reg_ok G → 0 ≤ i < 16 → obj_ok wf → evolves (wf_at G i) wf →
  reg_step G (WfRegistry (wr (wf_table G) i wf) count init seq).
Proof.
  intros [Hl Hall] Hi Hok Hev.
  assert (∀ j, 0 ≤ j < 16 → wf_at (WfRegistry (wr (wf_table G) i wf) count init seq) j = if decide (j = i) then wf else wf_at G j) as Hat.
  { intros j Hj. unfold wf_at. cbn [wf_table]. destruct (decide (j = i)) as [->|Hne]; [apply rd_wr_eq; lia|apply rd_wr_ne; lia]. }
  split; [split; [cbn; by rewrite wr_length|]|]; intros j Hj; rewrite Hat by done; case_decide; subst; auto using evolves_refl.
Qed.

Lemma first_index_spec p n i : first_index p n = Some i → 0 ≤ i < n ∧ p i = true.
Proof. unfold first_index. intros [Hin Hp]%List.find_some. apply list_elem_of_In, elem_of_seqZ in Hin. split; [lia|done]. Qed.

Lemma object_get_spec G oidp i : anx_wf_object_get G oidp = Some i → 0 ≤ i < 16 ∧ w_in_use (wf_at G i) = true.
Proof.
  unfold anx_wf_object_get. destruct oidp as [oid|]; [|done]. case_match; [done|]. intros [Hi Hp]%first_index_spec. apply andb_true_iff in Hp as [? _]. done.
Qed.

Lemma ends_unsigned_wr edges i e : ends_unsigned edges → 0 ≤ i < Z.of_nat (length edges) → 0 ≤ from_node e → 0 ≤ to_node e → ends_unsigned (wr edges i e).
Proof.
  intros Hu Hi Hf Ht j. unfold edge_at. destruct (decide (Z.to_nat j = Z.to_nat i)) as [E|Hne].
  - unfold rd. rewrite E. fold (rd zero_edge (wr edges i e) i). rewrite rd_wr_eq by lia. done.
  - unfold rd, wr. rewrite nth_lookup, list_lookup_insert_ne, <- nth_lookup by done. apply Hu.
Qed.

Lemma u16_nonneg z : 0 ≤ u16 z.
Proof. unfold u16. apply Z.mod_pos_bound. lia. Qed.

Lemma create_step hw mem G namep desc : reg_ok G → reg_step G (anx_wf_create hw mem G namep desc true).2.
Proof.
  intros Hok. unfold anx_wf_create. destruct namep as [name|]; [|by apply reg_step_refl]. do 3 (case_match; [by apply reg_step_refl|]).
  destruct (first_index _ _) as [i|] eqn:Ef; [|by apply reg_step_refl]. apply first_index_spec in Ef as [Hi Hfree%negb_true_iff].
  destruct (next_alloc mem) as [[] mem1]; [|by apply reg_step_refl]. cbn [negb]. destruct (next_alloc mem1) as [[] mem2]; [|by apply reg_step_refl]. cbn [negb].
  cbn [wf_oid_generate snd]. apply reg_step_put; [done|done| |by left].
  pose proof (ob_free _ (proj2 Hok i Hi) Hfree) as ->. split; try done.
  intros j. unfold edge_at. change (w_edges (new_wf zero_wf hw (Uuid 4705795792513552215 (u64 (wf_oid_seq G + 1))) name desc)) with (replicate 128 zero_edge).
  rewrite rd_zeros. done.
Qed.

Lemma destroy_step G oidp : reg_ok G → reg_step G (anx_wf_destroy G oidp).2.
Proof.
  intros Hok. unfold anx_wf_destroy. destruct (anx_wf_object_get G oidp) as [i|] eqn:Eg; [|by apply reg_step_refl].
  case_match; [by apply reg_step_refl|]. apply object_get_spec in Eg as [Hi _]. cbn [snd]. apply reg_step_put; [done|done|apply zero_wf_ok|]. right. by left.
Qed.

Lemma editable_spec G oidp w : editable G oidp = inr w → 0 ≤ w < 16 ∧ w_in_use (wf_at G w) = true ∧ tp_enabled (w_topology (wf_at G w)) = false.
Proof.
  unfold editable. destruct (anx_wf_object_get G oidp) as [i|] eqn:Eg; [|done]. apply object_get_spec in Eg as [Hi Hu]. case_match; [done|].
  destruct (tp_enabled _) eqn:Et; [done|]. intros [= <-]. done.
Qed.

Lemma topo_same t t' : same_topology t t' →
  tp_enabled t' = tp_enabled t ∧ tp_can_rollback t' = tp_can_rollback t ∧ tp_limit t' = tp_limit t ∧ tp_accepted t' = tp_accepted t
  ∧ tp_epoch t' = tp_epoch t ∧ tp_previous_count t' = tp_previous_count t ∧ tp_previous t' = tp_previous t.
Proof. destruct t, t'. unfold same_topology. cbn. intros [= ]. by subst. Qed.

(** An edit of a workflow that is not under control. *)
Lemma edit_step G w wf' : reg_ok G → 0 ≤ w < 16 → w_in_use (wf_at G w) = true → tp_enabled (w_topology (wf_at G w)) = false →
  w_in_use wf' = w_in_use (wf_at G w) → w_oid wf' = w_oid (wf_at G w) → same_topology (w_topology (wf_at G w)) (w_topology wf') →
  length (w_nodes wf') = 64%nat → length (w_edges wf') = 128%nat → 0 ≤ w_node_count wf' → 0 ≤ w_edge_count wf' → ends_unsigned (w_edges wf') →
  reg_step G (wf_put G w wf').
Proof.
  intros Hok Hw Huse Hdis Hu Ho Ht Hn He Hnc Hec Hends. destruct (proj2 Hok w Hw) as [_ _ _ _ Hd _]. destruct (topo_same _ _ Ht) as (T1 & T2 & _ & T4 & _).
  apply reg_step_put; [done|done| |].
  - split; rewrite ?T1, ?T2, ?T4; [congruence|done|done|done|done|congruence].
  - right. right. split; [done|done|]. congruence.
Qed.

Lemma node_add_step G oidp spec out : reg_ok G → reg_step G (anx_wf_node_add G oidp spec out).2.
Proof.
  intros Hok. unfold anx_wf_node_add. destruct (editable G oidp) as [r|w] eqn:Ee; [by apply reg_step_refl|]. apply editable_spec in Ee as (Hw & Hu & Hd).
  destruct spec as [spec|]; [|by apply reg_step_refl]. do 2 (case_match; [by apply reg_step_refl|]). destruct (first_index _ _); [|by apply reg_step_refl].
  cbn [snd]. destruct (proj2 Hok w Hw) as [_ Harr [_ ?] ? _ _]. destruct (Harr Hu). apply edit_step; try done; cbn; [by rewrite wr_length|apply u16_nonneg].
Qed.

Lemma node_remove_step G oidp id : reg_ok G → reg_step G (anx_wf_node_remove G oidp id).2.
Proof.
  intros Hok. unfold anx_wf_node_remove. destruct (editable G oidp) as [r|w] eqn:Ee; [by apply reg_step_refl|]. apply editable_spec in Ee as (Hw & Hu & Hd).
  destruct (first_index _ _); [|by apply reg_step_refl].
  cbn [snd]. destruct (proj2 Hok w Hw) as [_ Harr [? ?] Hends _ _]. destruct (Harr Hu).
  apply edit_step; try done; cbn [w_nodes w_edges w_node_count w_edge_count update_field]; [by rewrite wr_length|by rewrite length_fmap|apply u16_nonneg|apply u16_nonneg|].
  intros j. unfold edge_at, rd. rewrite nth_lookup, list_lookup_fmap. specialize (Hends j). unfold edge_at, rd in Hends. rewrite nth_lookup in Hends.
  destruct (w_edges (wf_at G w) !! Z.to_nat j) as [e|]; [|done]. cbn in *. by case_match.
Qed.

Lemma edge_add_step G oidp f fp t tp : reg_ok G → 0 ≤ f → 0 ≤ t → reg_step G (anx_wf_edge_add G oidp f fp t tp).2.
Proof.
  intros Hok Hf Ht. unfold anx_wf_edge_add. destruct (editable G oidp) as [r|w] eqn:Ee; [by apply reg_step_refl|]. apply editable_spec in Ee as (Hw & Hu & Hd).
  do 2 (case_match; [by apply reg_step_refl|]). destruct (first_index _ _) as [i|] eqn:Ef; [|by apply reg_step_refl]. apply first_index_spec in Ef as [Hi _].
  cbn [snd]. destruct (proj2 Hok w Hw) as [_ Harr [? ?] Hends _ _]. destruct (Harr Hu) as [? Hl]. change ANX_WF_MAX_EDGES with 128 in Hi.
  apply edit_step; try done; cbn [w_nodes w_edges w_node_count w_edge_count update_field]; [by rewrite wr_length|apply u16_nonneg|].
  apply ends_unsigned_wr; [done|rewrite Hl; lia|done|done].
Qed.

Lemma edge_remove_step G oidp f fp t tp : reg_ok G → reg_step G (anx_wf_edge_remove G oidp f fp t tp).2.
Proof.
  intros Hok. unfold anx_wf_edge_remove. destruct (editable G oidp) as [r|w] eqn:Ee; [by apply reg_step_refl|]. apply editable_spec in Ee as (Hw & Hu & Hd).
  destruct (first_index _ _) as [i|] eqn:Ef; [|by apply reg_step_refl]. apply first_index_spec in Ef as [Hi _].
  cbn [snd]. destruct (proj2 Hok w Hw) as [_ Harr [? ?] Hends _ _]. destruct (Harr Hu) as [? Hl]. change ANX_WF_MAX_EDGES with 128 in Hi.
  apply edit_step; try done; cbn [w_nodes w_edges w_node_count w_edge_count update_field]; [by rewrite wr_length|apply u16_nonneg|].
  apply ends_unsigned_wr; [done|rewrite Hl; lia|done|done].
Qed.

(** ** Topology control *)

Lemma controllable_spec current G oidp w : controllable current G oidp = inr w →
  current = None ∧ anx_wf_object_get G oidp = Some w ∧ 0 ≤ w < 16 ∧ w_in_use (wf_at G w) = true ∧ wf_live (wf_at G w) = false.
Proof.
  unfold controllable. case_match eqn:Ec; [done|]. to_prop. case_match; [done|]. destruct (anx_wf_object_get G oidp) as [i|] eqn:Eg; [|done].
  destruct (wf_live _) eqn:El; [done|]. intros [= <-]. destruct (object_get_spec _ _ _ Eg). destruct current; [by destruct Ec|done].
Qed.

Lemma controllable_error current G oidp r : controllable current G oidp = inl r → r ≠ ANX_OK.
Proof. unfold controllable. repeat case_match; intros ?; by simplify_eq. Qed.

Lemma obj_unsigned wf : obj_ok wf → graph_unsigned wf (w_edges wf) (w_edge_count wf).
Proof. intros [_ _ [? ?] ? _ _]. by split. Qed.

Lemma enable_step current G oidp limit : reg_ok G → 0 ≤ limit → reg_step G (anx_wf_topology_enable current G oidp limit).2.
Proof.
  intros Hok Hlim. unfold anx_wf_topology_enable. destruct (controllable _ _ _) as [r|w] eqn:Ec; [by apply reg_step_refl|].
  apply controllable_spec in Ec as (_ & _ & Hw & Hu & _). case_match; [by apply reg_step_refl|]. destruct (tp_enabled _) eqn:Et; [by apply reg_step_refl|].
  case_match eqn:Ev; [by apply reg_step_refl|]. to_prop. change ANX_WF_TOPOLOGY_REVISIONS_MAX with 8 in *. pose proof (proj2 Hok w Hw) as Hobj.
  pose proof (validate_graph_sound _ _ _ (obj_unsigned _ Hobj) Ev) as Hgraph. destruct Hobj as [_ Harr Hc He Hdis _]. destruct (Hdis Et) as [Hacc Hroll].
  cbn [snd]. apply reg_step_put; [done|done| |].
  - split; [cbn; congruence|exact Harr|exact Hc|exact He|done|]. intros _. split; [exact Hgraph|cbn; lia|cbn; lia|cbn; unfold MAX64; lia|cbn; congruence].
  - right. right. split; [done|done|]. congruence.
Qed.

Lemma candidate_length edges count : length (candidate_edges edges count) = 128%nat.
Proof. unfold candidate_edges. by rewrite length_fmap, length_seqZ. Qed.

Lemma candidate_unsigned edges count : (∀ es, edges = Some es → ends_unsigned es) → ends_unsigned (candidate_edges edges count).
Proof.
  intros Hu j. unfold candidate_edges, edge_at at 1 3. unfold rd. rewrite nth_lookup, list_lookup_fmap.
  destruct (seqZ 0 ANX_WF_MAX_EDGES !! Z.to_nat j) as [k|]; [|done]. cbn. unfold edge_at, rd. rewrite nth_lookup.
  destruct (take (Z.to_nat count) (default [] edges) !! Z.to_nat k) as [e|] eqn:Ek; [|done]. cbn. apply lookup_take_Some in Ek as [Ek _].
  destruct edges as [es|]; [|done]. specialize (Hu es eq_refl k). unfold edge_at, rd in Hu. rewrite nth_lookup in Hu. cbn in Ek. by rewrite Ek in Hu.
Qed.

(** The workflow after an accepted revision. *)
Definition revised (wf : anx_wf_object) (candidate : list anx_wf_edge) (count : Z) : anx_wf_object :=
  let t := w_topology wf in
  require_new_run
    (wf <| w_edges := candidate |> <| w_edge_count := u16 count |>
        <| w_topology := t <| tp_previous := w_edges wf |> <| tp_previous_count := w_edge_count wf |> <| tp_evidence_oid := w_trace_oid wf |>
             <| tp_can_rollback := true |> <| tp_accepted := u32 (tp_accepted t + 1) |> <| tp_epoch := u64 (tp_epoch t + 1) |> |>).

Lemma revise_cases current G W oidp epoch edges count r G' W' :
  anx_wf_topology_revise current G W oidp epoch edges count = (r, G', W') →
  (r ≠ ANX_OK ∧ G' = G) ∨ ∃ w W1, controllable current G oidp = inr w ∧ let wf := wf_at G w in
    r = ANX_OK ∧ tp_enabled (w_topology wf) = true ∧ epoch = tp_epoch (w_topology wf) ∧ epoch ≠ 0 ∧ epoch ≠ MAX64 ∧ count ≤ 128
    ∧ tp_accepted (w_topology wf) < tp_limit (w_topology wf) ∧ validate_graph wf (candidate_edges edges count) count = ANX_OK
    ∧ check_run_evidence current wf W = (ANX_OK, W1) ∧ G' = wf_put G w (revised wf (candidate_edges edges count) count).
Proof.
  unfold anx_wf_topology_revise. destruct (controllable _ _ _) as [r1|w] eqn:Ec; [intros [= <- <- <-]; left; split; [by eapply controllable_error|done]|].
  repeat (case_match; [intros [= <- <- <-]; by left|]). destruct (Z.eqb_spec (validate_graph (wf_at G w) (candidate_edges edges count) count) ANX_OK) as [Ev|Ev].
  2: { replace (validate_graph (wf_at G w) (candidate_edges edges count) count =? ANX_OK) with false by (symmetry; by apply Z.eqb_neq).
       cbn [negb]. intros [= <- <- <-]. by left. }
  destruct (check_run_evidence current (wf_at G w) W) as [r1 W1] eqn:Er. case_match eqn:Hr1; [intros [= <- <- <-]; left; split; [by to_prop|done]|]. intros [= <- <- <-]. right.
  to_prop. change ANX_WF_MAX_EDGES with 128 in *. subst r1. exists w, W1. split_and!; done || lia.
Qed.

Lemma revise_step current G W oidp epoch edges count : reg_ok G → 0 ≤ count → (∀ es, edges = Some es → ends_unsigned es) →
  reg_step G (anx_wf_topology_revise current G W oidp epoch edges count).1.2.
Proof.
  intros Hok Hc Hu. destruct (anx_wf_topology_revise _ _ _ _ _ _ _) as [[r G'] W'] eqn:Er. cbn [fst snd].
  apply revise_cases in Er as [[_ ->]|(w & W1 & Ec & _ & Hen & He1 & He2 & He3 & Hcnt & Hacc & Hval & _ & ->)]; [by apply reg_step_refl|].
  apply controllable_spec in Ec as (_ & _ & Hw & Huse & _). pose proof (proj2 Hok w Hw) as Hobj. set (wf := wf_at G w) in *.
  destruct Hobj as [_ Harr [Hnc Hec] Hends _ Hto]. destruct (Hto Hen) as [_ Hlim Hac Hep _]. destruct (Harr Huse) as [Hln Hle].
  assert (graph_unsigned wf (candidate_edges edges count) count) as Hgu by (split; [done|done|by apply candidate_unsigned]).
  pose proof (validate_graph_sound _ _ _ Hgu Hval) as Hgraph.
  assert (u16 count = count) as Hu16 by (apply Z.mod_small; lia). assert (u32 (tp_accepted (w_topology wf) + 1) = tp_accepted (w_topology wf) + 1) as Hu32
    by (apply u32_small; unfold is_u32; lia). assert (u64 (tp_epoch (w_topology wf) + 1) = tp_epoch (w_topology wf) + 1) as Hu64
    by (apply u64_small; unfold is_u64, MAX64 in *; lia).
  apply reg_step_put; [done|done| |].
  - split; cbn; [congruence|intros _; split; [done|apply candidate_length]|rewrite Hu16; lia|by apply candidate_unsigned|congruence|].
    intros _. split; cbn; rewrite ?Hu16, ?Hu32, ?Hu64; [done|lia|lia|unfold MAX64 in *; lia|done].
  - right. right. split; [done|done|]. intros _. cbn. change (wf_at G w) with wf. rewrite Hu64. split_and!; try done; [lia|]. intros ?. exfalso. lia.
Qed.

(** The workflow after a rollback. *)
Definition wf_rolled_back (wf : anx_wf_object) : anx_wf_object :=
  let t := w_topology wf in
  require_new_run (wf <| w_edges := tp_previous t |> <| w_edge_count := tp_previous_count t |>
                      <| w_topology := t <| tp_can_rollback := false |> <| tp_epoch := u64 (tp_epoch t + 1) |> |>).

Lemma rollback_cases current G oidp epoch r G' :
  anx_wf_topology_rollback current G oidp epoch = (r, G') →
  G' = G ∨ ∃ w, controllable current G oidp = inr w ∧ let wf := wf_at G w in
    r = ANX_OK ∧ tp_enabled (w_topology wf) = true ∧ tp_can_rollback (w_topology wf) = true ∧ epoch = tp_epoch (w_topology wf) ∧ epoch ≠ MAX64
    ∧ validate_graph wf (tp_previous (w_topology wf)) (tp_previous_count (w_topology wf)) = ANX_OK ∧ G' = wf_put G w (wf_rolled_back wf).
Proof.
  unfold anx_wf_topology_rollback. destruct (controllable _ _ _) as [r1|w] eqn:Ec; [intros [= <- <-]; by left|].
  repeat (case_match; [intros [= <- <-]; by left|]). intros [= <- <-]. right. to_prop. exists w. split_and!; done || lia.
Qed.

Lemma rollback_step current G oidp epoch : reg_ok G → reg_step G (anx_wf_topology_rollback current G oidp epoch).2.
Proof.
  intros Hok. destruct (anx_wf_topology_rollback _ _ _ _) as [r G'] eqn:Er. cbn [snd].
  apply rollback_cases in Er as [->|(w & Ec & _ & Hen & Hroll & He1 & He2 & Hval & ->)]; [by apply reg_step_refl|].
  apply controllable_spec in Ec as (_ & _ & Hw & Huse & _). pose proof (proj2 Hok w Hw) as Hobj. set (wf := wf_at G w) in *.
  destruct Hobj as [_ Harr [Hnc Hec] Hends _ Hto]. destruct (Hto Hen) as [_ Hlim Hac Hep Hprev]. destruct (Hprev Hroll) as (Hpl & Hpu & Hpc).
  assert (graph_unsigned wf (tp_previous (w_topology wf)) (tp_previous_count (w_topology wf))) as Hgu by (by split).
  pose proof (validate_graph_sound _ _ _ Hgu Hval) as Hgraph. destruct (Harr Huse) as [Hln _].
  assert (u64 (tp_epoch (w_topology wf) + 1) = tp_epoch (w_topology wf) + 1) as Hu64 by (apply u64_small; unfold is_u64, MAX64 in *; lia).
  apply reg_step_put; [done|done| |].
  - split; cbn; [congruence|done|done|done|congruence|]. intros _. split; cbn; rewrite ?Hu64; [done|lia|lia|unfold MAX64 in *; lia|done].
  - right. right. split; [done|done|]. intros _. cbn. change (wf_at G w) with wf. rewrite Hu64. split_and!; try done; [lia|]. intros ?. exfalso. lia.
Qed.

(** A run, or a resumption, of the workflow in slot [w]. *)
Lemma same_graph_step G w wf' : reg_ok G → 0 ≤ w < 16 → w_in_use (wf_at G w) = true → same_graph (wf_at G w) wf' → reg_step G (wf_put G w wf').
Proof.
  intros Hok Hw Huse [Hu Ho Hn Hnc He Hec Ht]. destruct (topo_same _ _ Ht) as (T1 & T2 & T3 & T4 & T5 & T6 & T7).
  destruct (proj2 Hok w Hw) as [_ Harr Hc Hends Hdis Hto]. apply reg_step_put; [done|done| |].
  - split; rewrite ?Hu, ?Hn, ?Hnc, ?He, ?Hec, ?T1, ?T2, ?T4; [congruence|done|done|done|done|]. intros Hen. destruct (Hto Hen).
    split; rewrite ?Hu, ?Hn, ?Hnc, ?He, ?Hec, ?T1, ?T2, ?T3, ?T4, ?T5, ?T6, ?T7; done.
  - right. right. split; [done|done|]. rewrite T1, Hn, Hnc, He, Hec, T3, T5. intros ?. split_and!; done.
Qed.

(** ** All operations *)

Lemma resume_graph sha256 uor_attach work clock fuel fresh addr mem tick action repl wf W r x :
  anx_wf_resume sha256 uor_attach work clock fuel fresh addr mem tick action repl wf W = Ret (r, x) →
  same_graph wf (x_wf x)
  ∨ tp_enabled (w_topology wf) = false ∧ ∃ i node, same_graph (wf <| w_nodes := wr (w_nodes wf) i node |>) (x_wf x).
Proof.
  intros Hres. destruct (tp_enabled (w_topology wf)) eqn:Hen; [left; by eapply resume_same|]. revert Hres. unfold anx_wf_resume.
  case_match; [intros [= <- <-]; by left|]. case_match; [intros [= <- <-]; by left|].
  destruct (w_continuation wf) as [cont|]; [|case_match; intros [= <- <-]; by left]. case_match; [intros [= <- <-]; by left|].
  case_match; [intros [= <- <-]; by left|]. set (wf0 := match repl with Some _ => _ | None => _ end).
  destruct (wf_run_inner _ _ _ _ _) as [[r1 x1]| |] eqn:Ei; try done. cbn [obind]. intros [= <- <-]. apply inner_same in Ei.
  assert (same_graph wf0 (x_wf (wf_finish sha256 uor_attach clock fresh addr r1 x1))) as Hs.
  { etrans; [|apply finish_same]. etrans; [|exact Ei]. by split. }
  clear Ei. unfold wf0 in Hs. destruct repl as [spec|]; [|by left]. case_match; [|by left]. right. split; [done|]. by eexists _, _.
Qed.

(** What the operations of the kernel do to the registry and the objects.  [Elsewhere]: anything else changes the objects. *)
Inductive wf_op :=
  | Create (hw : option anx_hw_inventory) (mem : list bool) (name desc : option (list Z))
  | Destroy (oid : option anx_uuid)
  | NodeAdd (oid : option anx_uuid) (spec : option anx_wf_node)
  | NodeRemove (oid : option anx_uuid) (id : Z)
  | EdgeAdd (oid : option anx_uuid) (from fport to tport : Z)
  | EdgeRemove (oid : option anx_uuid) (from fport to tport : Z)
  | Enable (current oid : option anx_uuid) (limit : Z)
  | Revise (current oid : option anx_uuid) (epoch : Z) (edges : option (list anx_wf_edge)) (count : Z)
  | Rollback (current oid : option anx_uuid) (epoch : Z)
  | Run (work : work_fn) (fuel : nat) (hw : option anx_hw_inventory) (fresh : anx_uuid) (addr : Z) (mem : list bool) (tick : Z) (oid : option anx_uuid)
  | Resume (work : work_fn) (fuel : nat) (fresh : anx_uuid) (addr : Z) (mem : list bool) (tick action : Z) (repl : option anx_wf_node) (oid : option anx_uuid)
  | Elsewhere (W : objstore).

(** The types of the arguments. *)
Definition op_typed (op : wf_op) : Prop :=
  match op with
  | EdgeAdd _ from _ to _ => 0 ≤ from ∧ 0 ≤ to
  | Enable _ _ limit => 0 ≤ limit
  | Revise _ _ _ edges count => 0 ≤ count ∧ ∀ es, edges = Some es → ends_unsigned es
  | _ => True
  end.

Section operations.
Context (sha256 : list Z → list Z) (uor_attach : anx_state_object → list bool → anx_meta_store * list bool) (clock : Z → Z).

(** An execution of the workflow an id names. *)
Definition on_workflow (oid : option anx_uuid) (G : wf_registry) (W : objstore) (f : anx_wf_object → outcome (Z * exec))
    : outcome (Z * (wf_registry * objstore)) :=
  match anx_wf_object_get G oid with
  | None => Ret (ANX_ENOENT, (G, W))
  | Some w => let! (r, x) := f (wf_at G w) in Ret (r, (wf_put G w (x_wf x), x_objs x))
  end.

Definition wf_do (op : wf_op) (st : wf_registry * objstore) : outcome (Z * (wf_registry * objstore)) :=
  let '(G, W) := st in
  match op with
  | Create hw mem name desc => let '(r, _, G) := anx_wf_create hw mem G name desc true in Ret (r, (G, W))
  | Destroy oid => let '(r, G) := anx_wf_destroy G oid in Ret (r, (G, W))
  | NodeAdd oid spec => let '(r, _, G) := anx_wf_node_add G oid spec true in Ret (r, (G, W))
  | NodeRemove oid id => let '(r, G) := anx_wf_node_remove G oid id in Ret (r, (G, W))
  | EdgeAdd oid f fp t tp => let '(r, G) := anx_wf_edge_add G oid f fp t tp in Ret (r, (G, W))
  | EdgeRemove oid f fp t tp => let '(r, G) := anx_wf_edge_remove G oid f fp t tp in Ret (r, (G, W))
  | Enable current oid limit => let '(r, G) := anx_wf_topology_enable current G oid limit in Ret (r, (G, W))
  | Revise current oid epoch edges count => let '(r, G, W) := anx_wf_topology_revise current G W oid epoch edges count in Ret (r, (G, W))
  | Rollback current oid epoch => let '(r, G) := anx_wf_topology_rollback current G oid epoch in Ret (r, (G, W))
  | Run work fuel hw fresh addr mem tick oid =>
      on_workflow oid G W (λ wf, anx_wf_run sha256 uor_attach work clock fuel hw fresh addr mem tick wf W)
  | Resume work fuel fresh addr mem tick action repl oid =>
      on_workflow oid G W (λ wf, anx_wf_resume sha256 uor_attach work clock fuel fresh addr mem tick action repl wf W)
  | Elsewhere W => Ret (ANX_OK, (G, W))
  end.

Inductive reachable : wf_registry * objstore → Prop :=
  | reach_init W : reachable (anx_wf_init, W)
  | reach_step st op r st' : reachable st → op_typed op → wf_do op st = Ret (r, st') → reachable st'.

Lemma op_step op G W r G' W' : reg_ok G → op_typed op → wf_do op (G, W) = Ret (r, (G', W')) → reg_step G G'.
Proof.
  intros Hok Hty Hdo. destruct op; cbn [wf_do op_typed] in *.
  - pose proof (create_step hw mem G name desc Hok) as Hs. destruct (anx_wf_create _ _ _ _ _ _) as [[? ?] ?]. by simplify_eq.
  - pose proof (destroy_step G oid Hok) as Hs. destruct (anx_wf_destroy _ _). by simplify_eq.
  - pose proof (node_add_step G oid spec true Hok) as Hs. destruct (anx_wf_node_add _ _ _ _) as [[? ?] ?]. by simplify_eq.
  - pose proof (node_remove_step G oid id Hok) as Hs. destruct (anx_wf_node_remove _ _ _). by simplify_eq.
  - destruct Hty as [Hf Ht]. pose proof (edge_add_step G oid from fport to tport Hok Hf Ht) as Hs. destruct (anx_wf_edge_add _ _ _ _ _ _). by simplify_eq.
  - pose proof (edge_remove_step G oid from fport to tport Hok) as Hs. destruct (anx_wf_edge_remove _ _ _ _ _ _). by simplify_eq.
  - pose proof (enable_step current G oid limit Hok Hty) as Hs. destruct (anx_wf_topology_enable _ _ _ _). by simplify_eq.
  - destruct Hty as [Hc Hu]. pose proof (revise_step current G W oid epoch edges count Hok Hc Hu) as Hs. destruct (anx_wf_topology_revise _ _ _ _ _ _ _) as [[? ?] ?].
    by simplify_eq.
  - pose proof (rollback_step current G oid epoch Hok) as Hs. destruct (anx_wf_topology_rollback _ _ _ _). by simplify_eq.
  - unfold on_workflow in Hdo. destruct (anx_wf_object_get G oid) as [w|] eqn:Eg; [|simplify_eq; by apply reg_step_refl]. apply object_get_spec in Eg as [Hw Hu].
    destruct (anx_wf_run _ _ _ _ _ _ _ _ _ _ _ _) as [[? x]| |] eqn:Er; try done. simplify_eq/=. apply run_same in Er. by apply same_graph_step.
  - unfold on_workflow in Hdo. destruct (anx_wf_object_get G oid) as [w|] eqn:Eg; [|simplify_eq; by apply reg_step_refl]. apply object_get_spec in Eg as [Hw Hu].
    destruct (anx_wf_resume _ _ _ _ _ _ _ _ _ _ _ _ _) as [[? x]| |] eqn:Er; try done. simplify_eq/=.
    apply resume_graph in Er as [Hs|(Hd & i & node & [H1 H2 H3 H4 H5 H6 H7])]; [by apply same_graph_step|].
    destruct (proj2 Hok w Hw) as [_ Harr [? ?] ? _ _]. destruct (Harr Hu).
    apply edit_step; [done|done|done|done|exact H1|exact H2|exact H7|rewrite H3; cbn; by rewrite wr_length|by rewrite H5|by rewrite H4|by rewrite H6|by rewrite H5].
  - simplify_eq. by apply reg_step_refl.
Qed.
End operations.

(** ** The theorems *)

Lemma wf_init_ok : reg_ok anx_wf_init.
Proof. split; [done|]. intros i Hi. unfold wf_at. cbn [wf_table anx_wf_init]. rewrite rd_zeros. apply zero_wf_ok. Qed.

Lemma reachable_ok sha256 uor_attach clock st : reachable sha256 uor_attach clock st → reg_ok st.1.
Proof.
  induction 1 as [W|[G W] op r [G' W'] _ IH Hty Hdo]; [apply wf_init_ok|]. by eapply op_step in Hdo as [? _].
Qed.

Lemma evidence_graph current wf W W' : check_run_evidence current wf W = (ANX_OK, W') → validate_graph wf (w_edges wf) (w_edge_count wf) = ANX_OK.
Proof.
  unfold check_run_evidence. case_match; [done|]. case_match eqn:Ev; [intros [= E _]; by rewrite E in Ev|]. intros _. by to_prop.
Qed.

Lemma evidence_spec current wf W W' : obj_ok wf → w_in_use wf = true → check_run_evidence current wf W = (ANX_OK, W') →
  w_run_state wf = ANX_WF_RUN_COMPLETED ∧ tp_trace_epoch (w_topology wf) = tp_epoch (w_topology wf)
  ∧ ∃ a obj payload, find_oid W (w_trace_oid wf) = Some a ∧ so_heap W !! a = Some obj ∧ so_state obj = ANX_OBJ_SEALED
      ∧ so_object_type obj = ANX_OBJ_EXECUTION_TRACE ∧ so_payload obj = Some payload ∧ ordered_run wf payload.
Proof.
  intros Hobj Huse. unfold check_run_evidence. case_match eqn:Ec; [done|]. case_match eqn:Ev; [intros [= E _]; by rewrite E in Ev|]. to_prop.
  assert (workflow_ok wf) as Hok by (split; [by apply validate_graph_sound; [apply obj_unsigned|]|by apply (ob_arrays _ Hobj)]).
  destruct (anx_so_open _ _ _ _ _) as [[r h] W1] eqn:Eo. case_match eqn:Er; [intros [= E _]; by rewrite E in Er|]. to_prop.
  destruct (so_open_spec _ _ _ _ _ _ Eo Er) as (a & obj & obj1 & v & Hfind & Hheap & -> & Hheap1 & S1 & S2 & S3 & S4). cbn [mbind option_bind h_obj].
  rewrite Hheap1. destruct (anx_so_close _ _) as [h' W2]. destruct (trace_proves wf obj1) eqn:Et; [|by intros [= ]]. intros _. split_and!; [done|done|].
  destruct (trace_proves_ordered wf obj1 Hok Et) as (P1 & P2 & payload & P3 & P4). exists a, obj, payload. split_and!; congruence || done.
Qed.

(** C29: A topology revision is accepted only outside any cell, at the epoch the caller names, below the revision limit, for a
    valid acyclic candidate, and after a completed run of the present topology whose sealed trace lists every node exactly
    once, each successful, in an order in which every edge leads from an earlier entry to a later one.  It then installs the
    candidate, counts one revision, advances the epoch and requires a new run; otherwise the registry is unchanged. *)
Theorem revise_needs_ordered_run sha256 uor_attach clock G W current oidp epoch edges count r G' W' :
  reachable sha256 uor_attach clock (G, W) → 0 ≤ count → (∀ es, edges = Some es → ends_unsigned es) →
  anx_wf_topology_revise current G W oidp epoch edges count = (r, G', W') →
  (r ≠ ANX_OK ∧ G' = G) ∨ ∃ w, r = ANX_OK ∧ anx_wf_object_get G oidp = Some w ∧ let wf := wf_at G w in
    current = None ∧ tp_enabled (w_topology wf) = true ∧ epoch = tp_epoch (w_topology wf) ∧ tp_accepted (w_topology wf) < tp_limit (w_topology wf)
    ∧ graph_wf (w_nodes wf) (w_node_count wf) (candidate_edges edges count) count
    ∧ w_run_state wf = ANX_WF_RUN_COMPLETED ∧ tp_trace_epoch (w_topology wf) = epoch
    ∧ (∃ a obj payload, find_oid W (w_trace_oid wf) = Some a ∧ so_heap W !! a = Some obj ∧ so_state obj = ANX_OBJ_SEALED
         ∧ so_object_type obj = ANX_OBJ_EXECUTION_TRACE ∧ so_payload obj = Some payload ∧ ordered_run wf payload)
    ∧ let wf' := wf_at G' w in
      w_edges wf' = candidate_edges edges count ∧ w_edge_count wf' = count ∧ tp_epoch (w_topology wf') = epoch + 1
      ∧ tp_accepted (w_topology wf') = tp_accepted (w_topology wf) + 1 ∧ w_run_state wf' = ANX_WF_RUN_IDLE.
Proof.
  intros Hreach Hc Hu Hrev. pose proof (reachable_ok _ _ _ _ Hreach) as Hok. cbn [fst] in Hok.
  apply revise_cases in Hrev as [[? ->]|(w & W1 & Ec & Hr & Hen & He1 & He2 & He3 & Hcnt & Hacc & Hval & Hev & ->)]; [by left|]. right.
  apply controllable_spec in Ec as (Hcur & Hget & Hw & Huse & _). exists w. split; [done|]. split; [done|]. pose proof (proj2 Hok w Hw) as Hobj.
  destruct (ob_enabled _ Hobj Hen) as [_ Hlim Hac Hep _]. destruct (evidence_spec _ _ _ _ Hobj Huse Hev) as (Hst & Htr & Hproof).
  assert (wf_at (wf_put G w (revised (wf_at G w) (candidate_edges edges count) count)) w = revised (wf_at G w) (candidate_edges edges count) count) as Hat.
  { unfold wf_at at 1, wf_put. cbn [wf_table]. apply rd_wr_eq. rewrite (proj1 Hok). lia. }
  cbv zeta. rewrite Hat. set (wf := wf_at G w) in *. split_and!; try done; [|congruence|cbn|cbn|cbn].
  - apply validate_graph_sound; [|done]. split; [by apply Hobj|done|by apply candidate_unsigned].
  - apply u16_small. lia.
  - rewrite He1. apply u64_small. unfold is_u64, MAX64 in *. lia.
  - apply u32_small. unfold is_u32. lia.
Qed.

(** C30: Whatever the kernel does to its workflows and objects, a workflow under topology control always has a valid graph: typed
    ports, live ends, no cycle, counts that match.  Until it is destroyed it stays under control with the same nodes and the
    same revision limit, at most eight, never accepts more revisions than the limit, its epoch never decreases, and its
    edges change only when the epoch advances. *)
Theorem topology_controlled sha256 uor_attach clock st i :
  reachable sha256 uor_attach clock st → 0 ≤ i < 16 →
  let wf := wf_at st.1 i in
  w_in_use wf = true → tp_enabled (w_topology wf) = true →
  graph_wf (w_nodes wf) (w_node_count wf) (w_edges wf) (w_edge_count wf)
  ∧ tp_accepted (w_topology wf) ≤ tp_limit (w_topology wf) ≤ 8
  ∧ ∀ op r st', op_typed op → wf_do sha256 uor_attach clock op st = Ret (r, st') →
      let wf' := wf_at st'.1 i in wf' = zero_wf ∨ (w_in_use wf' = true ∧ kept wf wf').
Proof.
  intros Hreach Hi wf Huse Hen. pose proof (reachable_ok _ _ _ _ Hreach) as Hok. destruct (ob_enabled _ (proj2 Hok i Hi) Hen) as [Hg Hlim Hac _ _].
  split; [done|]. split; [fold wf in Hlim, Hac; lia|]. intros op r [G' W'] Hty Hdo. destruct st as [G W]. destruct (op_step _ _ _ op G W r G' W' Hok Hty Hdo) as [_ Hev].
  destruct (Hev i Hi) as [Hf|[Hz|Hk]]; [fold wf in Huse; cbn in Hf; subst wf; cbn in Huse; congruence|by left|right]. split; [|done]. cbn. by rewrite (kp_use _ _ Hk).
Qed.

(** ** A revision and its rollback *)

Lemma find_ext_in {A} (p q : A → bool) (l : list A) : (∀ x, x ∈ l → p x = q x) → List.find p l = List.find q l.
Proof.
  induction l as [|x l IH]; intros H; [done|]. cbn. rewrite (H x) by constructor. destruct (q x); [done|]. apply IH. intros y Hy. apply H. by constructor.
Qed.

Lemma get_put G w wf oidp : length (wf_table G) = 16%nat → 0 ≤ w < 16 → w_in_use wf = w_in_use (wf_at G w) → w_oid wf = w_oid (wf_at G w) →
  anx_wf_object_get (wf_put G w wf) oidp = anx_wf_object_get G oidp.
Proof.
  intros Hlen Hw Hu Ho. unfold anx_wf_object_get. destruct oidp as [oid|]; [|done]. cbn [wf_put wf_initialized]. destruct (wf_initialized G); [|done]. cbn [negb].
  unfold first_index. apply find_ext_in. intros i Hi%elem_of_seqZ. unfold wf_at at 1 2, wf_put. cbn [wf_table].
  destruct (decide (i = w)) as [->|Hne]; [by rewrite rd_wr_eq, Hu, Ho by lia|by rewrite rd_wr_ne by lia].
Qed.

Lemma put_at G w wf : length (wf_table G) = 16%nat → 0 ≤ w < 16 → wf_at (wf_put G w wf) w = wf.
Proof. intros Hlen Hw. unfold wf_at, wf_put. cbn [wf_table]. apply rd_wr_eq. lia. Qed.

Lemma put_ne G w wf i : 0 ≤ w → 0 ≤ i → i ≠ w → wf_at (wf_put G w wf) i = wf_at G i.
Proof. intros Hw Hi Hne. unfold wf_at, wf_put. cbn [wf_table]. by apply rd_wr_ne. Qed.

Lemma validate_graph_nodes wf wf' edges count : w_nodes wf' = w_nodes wf → w_node_count wf' = w_node_count wf →
  validate_graph wf' edges count = validate_graph wf edges count.
Proof. intros Hn Hc. unfold validate_graph. by rewrite Hn, Hc. Qed.

Lemma controllable_put G w wf oidp : length (wf_table G) = 16%nat → 0 ≤ w < 16 → w_in_use wf = w_in_use (wf_at G w) → w_oid wf = w_oid (wf_at G w) →
  anx_wf_object_get G oidp = Some w → wf_live wf = false → controllable None (wf_put G w wf) oidp = inr w.
Proof.
  intros Hlen Hw Hu Ho Hget Hl. unfold controllable. rewrite get_put, Hget, put_at, Hl by done. destruct oidp; [|done].
  by rewrite !bool_decide_eq_false_2 by (by try intros [? ?]).
Qed.

Lemma wf_rolled_back_head wf : w_in_use (wf_rolled_back wf) = w_in_use wf ∧ w_oid (wf_rolled_back wf) = w_oid wf ∧ wf_live (wf_rolled_back wf) = false.
Proof. by destruct wf. Qed.

Lemma revised_head wf edges count :
  w_in_use (revised wf edges count) = w_in_use wf ∧ w_oid (revised wf edges count) = w_oid wf ∧ wf_live (revised wf edges count) = false.
Proof. by destruct wf. Qed.

Lemma rollback_accepted G oidp w epoch : controllable None G oidp = inr w → let wf := wf_at G w in
  tp_enabled (w_topology wf) = true → tp_can_rollback (w_topology wf) = true → tp_epoch (w_topology wf) = epoch → epoch ≠ 0 → epoch ≠ MAX64 →
  validate_graph wf (tp_previous (w_topology wf)) (tp_previous_count (w_topology wf)) = ANX_OK →
  anx_wf_topology_rollback None G oidp epoch = (ANX_OK, wf_put G w (wf_rolled_back wf)).
Proof.
  intros Hc wf Hen Hcan <- H0%Z.eqb_neq Hm%Z.eqb_neq Hval. unfold anx_wf_topology_rollback. rewrite Hc. fold wf.
  rewrite Hen, Hcan, Hval, H0, Hm, Z.eqb_refl. reflexivity.
Qed.

Lemma rollback_refused G oidp w epoch : controllable None G oidp = inr w → tp_can_rollback (w_topology (wf_at G w)) = false →
  anx_wf_topology_rollback None G oidp epoch = (ANX_EPERM, G).
Proof. intros Hc Hcan. unfold anx_wf_topology_rollback. by rewrite Hc, Hcan, orb_true_r. Qed.

(** C31: Rolling back undoes a revision exactly once.  After an accepted revision the rollback at the new epoch succeeds and
    restores the edges and their count, and nothing of any other workflow changes; the epoch has advanced by two, the
    accepted revision still counts against the limit, a new run is required, and a second rollback is refused. *)
Theorem rollback_restores sha256 uor_attach clock G W oidp epoch edges count G1 W1 :
  reachable sha256 uor_attach clock (G, W) → 0 ≤ count → (∀ es, edges = Some es → ends_unsigned es) → epoch + 1 < MAX64 →
  anx_wf_topology_revise None G W oidp epoch edges count = (ANX_OK, G1, W1) →
  ∃ w G2, anx_wf_object_get G oidp = Some w ∧ anx_wf_topology_rollback None G1 oidp (epoch + 1) = (ANX_OK, G2)
    ∧ (∀ i, 0 ≤ i → i ≠ w → wf_at G2 i = wf_at G i)
    ∧ (let wf := wf_at G w in let wf2 := wf_at G2 w in
       w_nodes wf2 = w_nodes wf ∧ w_edges wf2 = w_edges wf ∧ w_edge_count wf2 = w_edge_count wf ∧ tp_epoch (w_topology wf2) = tp_epoch (w_topology wf) + 2
       ∧ tp_accepted (w_topology wf2) = tp_accepted (w_topology wf) + 1 ∧ w_run_state wf2 = ANX_WF_RUN_IDLE)
    ∧ ∀ e, anx_wf_topology_rollback None G2 oidp e = (ANX_EPERM, G2).
Proof.
  intros Hreach Hc Hu Hmax Hrev. pose proof (reachable_ok _ _ _ _ Hreach) as Hok. cbn [fst] in Hok. destruct Hok as [Hlen Hall].
  destruct (revise_cases _ _ _ _ _ _ _ _ _ _ Hrev) as [[? _]|(w & W2 & Ec & _ & Hen & He1 & He2 & He3 & Hcnt & Hacc & Hval & Hev & ->)]; [done|].
  apply controllable_spec in Ec as (_ & Hget & Hw & Huse & _). pose proof (Hall w Hw) as Hobj.
  pose proof (evidence_graph _ _ _ _ Hev) as Hprev.
  destruct (ob_enabled _ Hobj Hen) as [_ Hlim Hac Hep _]. set (rev := revised (wf_at G w) (candidate_edges edges count) count) in *.
  assert (u64 (tp_epoch (w_topology (wf_at G w)) + 1) = epoch + 1) as Hu1 by (rewrite He1; apply u64_small; unfold is_u64, MAX64 in *; lia).
  assert (tp_epoch (w_topology rev) = epoch + 1) as Hrep by exact Hu1.
  assert (length (wf_table (wf_put G w rev)) = 16%nat) as Hlen1 by (cbn; by rewrite wr_length).
  exists w, (wf_put (wf_put G w rev) w (wf_rolled_back rev)). split; [done|].
  assert (controllable None (wf_put G w rev) oidp = inr w) as Hc1 by (destruct (revised_head (wf_at G w) (candidate_edges edges count) count) as (? & ? & ?); by apply controllable_put).
  assert (controllable None (wf_put (wf_put G w rev) w (wf_rolled_back rev)) oidp = inr w) as Hc2.
  { pose proof (controllable_spec _ _ _ _ Hc1) as (_ & Hget1 & _). destruct (wf_rolled_back_head rev) as (? & ? & ?).
    apply (controllable_put (wf_put G w rev) w (wf_rolled_back rev) oidp Hlen1 Hw); rewrite ?(put_at G w rev Hlen Hw); assumption. }
  split_and!.
  - rewrite (rollback_accepted (wf_put G w rev) oidp w (epoch + 1) Hc1); rewrite ?(put_at G w rev Hlen Hw); [reflexivity|exact Hen|reflexivity|exact Hrep|lia|lia|].
    rewrite (validate_graph_nodes (wf_at G w) rev) by reflexivity. exact Hprev.
  - intros i Hi Hne. rewrite !put_ne by lia. reflexivity.
  - cbv zeta. rewrite (put_at _ w (wf_rolled_back rev) Hlen1 Hw). split_and!; [reflexivity..| | |reflexivity]; cbn.
    + rewrite Hu1, <- He1, u64_small by (unfold is_u64, MAX64 in *; lia). lia.
    + apply u32_small. unfold is_u32. lia.
  - intros e. apply (rollback_refused _ _ w); [exact Hc2|]. rewrite (put_at _ w (wf_rolled_back rev) Hlen1 Hw). reflexivity.
Qed.

(** ** A concrete history *)

Section history.
Context (sha256 : list Z → list Z) (uor_attach : anx_state_object → list bool → anx_meta_store * list bool) (clock : Z → Z).

(** The state after the operations [ops] in turn; [None] when one does not return. *)
Fixpoint play (ops : list wf_op) (st : wf_registry * objstore) : option (wf_registry * objstore) :=
  match ops with
  | [] => Some st
  | op :: ops => match wf_do sha256 uor_attach clock op st with Ret (_, st) => play ops st | _ => None end
  end.

Lemma play_reachable ops st st' : Forall op_typed ops → reachable sha256 uor_attach clock st → play ops st = Some st' → reachable sha256 uor_attach clock st'.
Proof.
  intros Hty. revert st. induction Hty as [|op ops Hop _ IH]; intros st Hst; cbn; [by intros [= <-]|].
  destruct (wf_do _ _ _ op st) as [[r st1]| |] eqn:Edo; try done. apply IH. by eapply reach_step.
Qed.
End history.

(** A trigger, two cells and an output in a row, run once under control. *)
Definition row_oid : option anx_uuid := Some (Uuid 0x414e5857464c4f57 1).
Definition row_node (kind : Z) : anx_wf_node :=
  WfNode 0 kind [] [] 0 0 0 0 2 [WfPort [105; 110] ANX_WF_PORT_IN 0 false; WfPort [111; 117; 116] ANX_WF_PORT_OUT 0 false].
Definition row_built : list wf_op :=
  [Create None [] (Some [119]) None] ++ (NodeAdd row_oid ∘ Some ∘ row_node <$> [ANX_WF_NODE_TRIGGER; ANX_WF_NODE_CELL_CALL; ANX_WF_NODE_CELL_CALL; ANX_WF_NODE_OUTPUT])
  ++ [EdgeAdd row_oid 1 1 2 0; EdgeAdd row_oid 2 1 3 0; EdgeAdd row_oid 3 1 4 0; Enable None row_oid 3].
Definition row_run : list wf_op := row_built ++ [Run good_work 64 None (Uuid 1 1) 100 [] 0 row_oid].
(** The cells in the other order. *)
Definition row_swapped : option (list anx_wf_edge) := Some [WfEdge 1 1 3 0; WfEdge 3 1 2 0; WfEdge 2 1 4 0].
Lemma row_play_reachable ops st : Forall op_typed ops → play (λ _, []) plain_meta id ops (anx_wf_init, anx_objstore_init) = Some st →
  reachable (λ _, []) plain_meta id st.
Proof. intros Hty Hst. eapply play_reachable; [exact Hty|apply reach_init|exact Hst]. Qed.

Lemma row_swapped_unsigned es : row_swapped = Some es → ends_unsigned es.
Proof.
  intros [= <-] i. unfold edge_at, rd. destruct (Z.to_nat i) as [|[|[|n]]]; cbn; lia || (by destruct n).
Qed.

(** The run completes and is accepted as evidence for the revision. *)
Lemma row_revised : ∃ G W G1 W1, reachable (λ _, []) plain_meta id (G, W) ∧ anx_wf_topology_revise None G W row_oid 1 row_swapped 3 = (ANX_OK, G1, W1).
Proof.
  assert (match play (λ _, []) plain_meta id row_run (anx_wf_init, anx_objstore_init) with
          | Some (G, W) => match anx_wf_topology_revise None G W row_oid 1 row_swapped 3 with (r, _, _) => r =? ANX_OK end
          | None => false end = true) as Hc by (vm_compute; reflexivity).
  destruct (play _ _ _ row_run _) as [[G W]|] eqn:Ep; [|done]. destruct (anx_wf_topology_revise _ _ _ _ _ _ _) as [[r G1] W1] eqn:Er. apply Z.eqb_eq in Hc as ->.
  exists G, W, G1, W1. split; [|exact Er]. by apply (row_play_reachable row_run (G, W)); [repeat constructor|].
Qed.

Lemma revise_needs_ordered_run_witness : ∃ G W G1 W1, anx_wf_topology_revise None G W row_oid 1 row_swapped 3 = (ANX_OK, G1, W1)
  ∧ ∃ w, anx_wf_object_get G row_oid = Some w
    ∧ ∃ a obj payload, find_oid W (w_trace_oid (wf_at G w)) = Some a ∧ so_heap W !! a = Some obj ∧ so_payload obj = Some payload
        ∧ ordered_run (wf_at G w) payload.
Proof.
  destruct row_revised as (G & W & G1 & W1 & Hreach & Hrev). exists G, W, G1, W1. split; [exact Hrev|].
  destruct (revise_needs_ordered_run (λ _, []) plain_meta id G W None row_oid 1 row_swapped 3 ANX_OK G1 W1 Hreach ltac:(lia) row_swapped_unsigned Hrev)
    as [[Hr _]|(w & _ & Hget & _ & _ & _ & _ & _ & _ & _ & (a & obj & payload & H1 & H2 & _ & _ & H3 & H4) & _)]; [destruct Hr; reflexivity|].
  exists w. split; [exact Hget|]. exists a, obj, payload. split; [exact H1|]. split; [exact H2|]. split; [exact H3|exact H4].
Defined.

Lemma rollback_restores_witness : ∃ G W G1 W1 G2, anx_wf_topology_revise None G W row_oid 1 row_swapped 3 = (ANX_OK, G1, W1)
  ∧ anx_wf_topology_rollback None G1 row_oid 2 = (ANX_OK, G2) ∧ ∀ e, anx_wf_topology_rollback None G2 row_oid e = (ANX_EPERM, G2).
Proof.
  destruct row_revised as (G & W & G1 & W1 & Hreach & Hrev).
  destruct (rollback_restores (λ _, []) plain_meta id G W row_oid 1 row_swapped 3 G1 W1 Hreach ltac:(lia) row_swapped_unsigned ltac:(unfold MAX64; lia) Hrev)
    as (w & G2 & _ & Hroll & _ & _ & Hsecond).
  exists G, W, G1, W1, G2. split; [exact Hrev|]. split; [exact Hroll|exact Hsecond].
Defined.

Lemma row_controlled : ∃ st, reachable (λ _, []) plain_meta id st ∧ w_in_use (wf_at st.1 0) = true ∧ tp_enabled (w_topology (wf_at st.1 0)) = true.
Proof.
  assert (match play (λ _, []) plain_meta id row_run (anx_wf_init, anx_objstore_init) with
          | Some st => w_in_use (wf_at st.1 0) && tp_enabled (w_topology (wf_at st.1 0)) | None => false end = true) as Hc by (vm_compute; reflexivity).
  destruct (play _ _ _ row_run _) as [st|] eqn:Ep; [|done]. apply andb_true_iff in Hc as [Hu He].
  exists st. split; [|by split]. by apply (row_play_reachable row_run st); [repeat constructor|].
Qed.

Lemma topology_controlled_witness : ∃ st : wf_registry * objstore, let wf := wf_at st.1 0 in
  w_in_use wf = true ∧ tp_enabled (w_topology wf) = true ∧ graph_wf (w_nodes wf) (w_node_count wf) (w_edges wf) (w_edge_count wf).
Proof.
  destruct row_controlled as (st & Hreach & Hu & He). exists st. split; [exact Hu|]. split; [exact He|].
  exact (proj1 (topology_controlled (λ _, []) plain_meta id st 0 Hreach ltac:(lia) Hu He)).
Defined.

(** ** Where the code falls short *)

Definition row_after (ops : list wf_op) : option anx_wf_object :=
  (λ st : wf_registry * objstore, wf_at st.1 0) <$> play (λ _, []) plain_meta id ops (anx_wf_init, anx_objstore_init).
Definition row_start : list wf_op := [Create None [] (Some [119]) None; NodeAdd row_oid (Some (row_node ANX_WF_NODE_TRIGGER)); NodeAdd row_oid (Some (row_node ANX_WF_NODE_OUTPUT))].

(** Removing "node 0" finds an unused slot: the counters of a workflow of two nodes and no edge become 1 and 2^16 - 128. *)
Example remove_node_zero : (λ wf, (w_node_count wf, w_edge_count wf)) <$> row_after (row_start ++ [NodeRemove row_oid 0]) = Some (1, 2 ^ 16 - 128).
Proof. vm_compute. reflexivity. Qed.

(** Removing the all-zero edge finds an unused slot: the counter underflows, and no edge can be added any more. *)
Example remove_edge_zero : (λ wf, (w_edge_count wf, length (graph_edges (w_edges wf)))) <$> row_after (row_start ++ [EdgeRemove row_oid 0 0 0 0; EdgeAdd row_oid 1 1 2 0])
  = Some (2 ^ 16 - 1, 0%nat).
Proof. vm_compute. reflexivity. Qed.

(** An edge between the first node and one that does not exist is accepted and counted against the first slot: the workflow no longer runs. *)
Example dangling_edge_blocks : (λ wf, (w_edge_count wf, w_run_state wf)) <$> row_after (row_start ++ [EdgeAdd row_oid 1 1 9 0; Run good_work 64 None (Uuid 1 1) 100 [] 0 row_oid])
  = Some (1, ANX_WF_RUN_FAILED).
Proof. vm_compute. reflexivity. Qed.

(** The ensemble template has no edge to its output node. *)
Example ensemble_output_unconnected : List.filter (λ e, to_node e =? 7) (tm_edges tmpl_ensemble) = [].
Proof. vm_compute. reflexivity. Qed.

(** A collecting node leaves its result at port 0, whichever port it declares as its output. *)
Example fan_in_port_zero : (wf_dispatch_fan_in (node_at (tm_nodes tmpl_ensemble) 5) (λ p, Uuid 7 (p + 1)) (replicate 8 ANX_UUID_NIL)).2
  = Uuid 7 1 :: replicate 7 ANX_UUID_NIL ∧ pt_dir (port_at (node_at (tm_nodes tmpl_ensemble) 5) 0) = ANX_WF_PORT_IN.
Proof. vm_compute. by split. Qed.

(** Two workflows with the same name of 64 characters: the stored name is cut, so the duplicate is not noticed. *)
Example long_name_duplicate : (λ st : wf_registry * objstore, wf_count st.1)
    <$> play (λ _, []) plain_meta id (replicate 2 (Create None [] (Some (replicate 64 97)) None)) (anx_wf_init, anx_objstore_init) = Some 2.
Proof. vm_compute. reflexivity. Qed.

(** A run paused for a human review can be neither resumed nor started again; only destruction ends it. *)
Definition row_paused : list wf_op :=
  [Create None [] (Some [119]) None; NodeAdd row_oid (Some (row_node ANX_WF_NODE_HUMAN_REVIEW)); Run good_work 64 None (Uuid 1 1) 100 [] 0 row_oid].
Definition row_result (ops : list wf_op) (op : wf_op) : option Z :=
  play (λ _, []) plain_meta id ops (anx_wf_init, anx_objstore_init) ≫= λ st, match wf_do (λ _, []) plain_meta id op st with Ret (r, _) => Some r | _ => None end.

Example review_never_continues : w_run_state <$> row_after row_paused = Some ANX_WF_RUN_WAITING_HUMAN
  ∧ Forall (λ action, row_result row_paused (Resume good_work 64 (Uuid 1 1) 100 [] 0 action None row_oid) = Some ANX_EINVAL)
      [ANX_WF_RESUME_RETRY; ANX_WF_RESUME_SKIP; ANX_WF_RESUME_ABORT; ANX_WF_RESUME_REPLACE]
  ∧ row_result row_paused (Run good_work 64 None (Uuid 1 1) 100 [] 0 row_oid) = Some ANX_EBUSY.
Proof. split; [vm_compute; reflexivity|]. split; [|vm_compute; reflexivity]. repeat constructor; vm_compute; reflexivity. Qed.
